(* ===== verification/_CoqProject ===== *)
-Q . S2P
Prelude.v
Float64.v
Protocol.v
Replay.v
FecPolicy.v
Fec.v
Icmp.v
Fragments.v
Mtu.v
Text.v
Policy.v
Dns.v
SocksWire.v
Endpoints.v
Auth.v
Relay.v
Registry.v
Scheduler.v
Rtt.v
Health.v
Uplink.v
Dialer.v
Latency.v
Diagnostics.v
LocalTap.v
Ingress.v
Threads.v
Ranges.v
DirectList.v
FragmentRouter.v
TcpMss.v
SplitTable.v
PolicyTheorems.v
WireGuardConfig.v
WireGuardOpen.v
SplitState.v
SplitOwners.v
SplitFlows.v
SplitCapture.v
SplitSafety.v
SplitStart.v
SplitTheorems.v
PathMtu.v
Session.v
LossRepair.v
Sender.v
RelayWorker.v
DirectWorker.v
DirectTheorems.v
SessionSafety.v
SessionTheorems.v
DispatchTheorems.v
OvpnX509.v
OvpnConfig.v
Node.v
Validate.v
Join.v
JoinTheorems.v
Dialling.v
DialTheorems.v
OvpnCrypto.v
OvpnControl.v
OvpnReliability.v
OvpnLink.v
OvpnSession.v
OvpnSessionSafety.v
OvpnSettings.v
ExitPacket.v
ExitHandshake.v
ExitStack.v
ExitSafety.v
ExitInvariant.v
ExitDatagrams.v
ExitLookups.v
ExitLoop.v
ExitTheorems.v
ExitEdge.v
