(* ===== verification/Prelude.v ===== *)
(** * GamePath: verification of the relay, the engine's data plane and its codecs

    GamePath carries a game's packets over several paths at once to a relay of the
    user's own. The client's engine ([src/engine]) captures the packets of the
    selected programs, seals each, sends copies down the paths the scheduler picks
    and adds XOR repairs; the relay ([src/relay]) admits the first copy of each
    sequence, rebuilds what was lost, writes the packet to its TUN and sends the
    replies back the same way. A path is a WireGuard, OpenVPN, SOCKS5 or plain link.
    This library models that program in Rocq and proves what makes it correct.

    ** How code becomes definitions

    A Rust function is a function of the same name, or a program of atomic steps
    where threads share what it touches. A call that can panic answers in [run]
    ([Ret] or [Panic]), a [Result] is [result], an [Option] is [option]. Machine
    integers are [Z] with their wrap-around written out ([wrap64], [sat_sub]) and
    their widths in the well-formedness predicates; an [f64] is a binary64 number
    computed exactly ([Float64]); bytes are [list byte], Rust strings the list of
    their UTF-8 bytes ([Text]); a [HashMap] is a [gmap], and where code depends on
    its iteration order the order is the map's own. An [Instant] or [Duration] is its
    nanoseconds. Code of other crates and of the system is a class with its
    documented laws ([Cipher], [Codec], [Serde], [RelayPath], [Pem], [Primitives],
    [RoutePath], [Tls], [Host], [Platform], [Base64]), and every property over one has a witness at a concrete
    instance. Where a loop is not structural it takes fuel, and running out of fuel
    is a panic, so that the theorems that exclude panics also show the loop ends; a
    loop that only its environment ends answers that it still turns, and the one that
    never ends once it is in a certain state has an outcome of its own
    ([OvpnSession.Spins]). The forwarding stack,
    which lives between sockets, is a tree of the questions it asks them
    ([ExitStack.prog]), and its theorems hold of every environment whose answers the
    documentation allows ([ExitSafety.legal]).

    ** The parts

    The wire and the codecs, [Protocol] (frame header, probes, path policy),
    [Replay] (the window of admitted sequences), [FecPolicy] and [Fec] (group sizes,
    the XOR encoder and decoder), [Icmp], [Fragments] and [Mtu] (checksums, IPv4
    fragments, what fits a link), [TcpMss], [Text], [Dns] and [SocksWire] (what is
    read from strangers), [Auth] (sealing and enrolment tokens). Each parser is
    total, and the round trips hold on every well-formed value.

    The relay, [Endpoints] (where replies go), [Relay] (the three loops over clients
    and sessions) and [Registry] (client records on disk and their live reload).
    [relay_step] takes a datagram, a TUN packet or a turn of the flusher; the
    theorems hold of any sequence of them, with any content from anywhere.

    The engine's policies, [Scheduler], [Rtt], [Health], [Uplink], [Dialer],
    [Latency], [Diagnostics], [LocalTap] and [Ingress]: each the state of one
    struct and its operations.

    A running relay session, [Threads], [Session], [LossRepair], [Sender] and
    [RelayWorker]. [Threads] gives calls as programs of atomic steps and interleaves
    any number of them with the environment; [Session] is the state they share (a
    cell per atomic, a field per mutex) with the dispatcher; the other three are the
    calls. [SessionSafety] proves an invariant that every step of every call keeps,
    [SessionTheorems] and [DispatchTheorems] what follows from it.

    Before a session, [WireGuardConfig] (a provider's file, checked and narrowed to the
    relay), [WireGuardOpen] (what the engine's own tunnel reads of it), [Node] (the
    settings of a path and what opening it comes to before the network) and [Validate]
    (what the service checks of a request, [service/src/validate.rs]). [Dialling]
    dials every node on a thread of its own and waits for the first, [Join] starts a
    relay session on the outcomes and lets later routes into it; [DialTheorems] and
    [JoinTheorems] run these threads among each other and anything else.

    A direct session, [DirectWorker]: the thread that carries one node, with its
    redials and verdicts, over a WireGuard or OpenVPN tunnel or a stack in this
    process. [DirectTheorems] runs it among any steps of the other threads, which may
    change all but the worker's own status, its bit and its address.

    The split capture ([split_capture.rs]), which decides the packets that take the
    tunnel. [Ranges] and [DirectList] compile the networks that stay direct,
    [FragmentRouter] routes fragments like their first, [SplitTable] is the compiled
    plan and its lookup, [Policy] compiles the rules of the user into that plan and
    [PolicyTheorems] ties the two ends together. [SplitState] is the state the capture's threads share,
    [SplitOwners] who owns a flow, [SplitFlows] names, DNS answers and the tables of
    flows, [SplitCapture] the loop over captured packets, held SYNs, the bypass queue
    and the replies, [SplitStart] the state it starts from. [SplitSafety] is their
    invariant under any interleaving, [SplitTheorems] its consequences.

    User-space OpenVPN ([src/engine/src/openvpn]). [OvpnConfig] reads a provider's
    file, [OvpnX509] compares the name in a certificate, [OvpnCrypto] derives keys
    and seals the data channel, [OvpnControl] frames, numbers and retransmits the
    control channel, [OvpnLink] is the queue in front of a TCP stream, [OvpnSession]
    ties them to TLS: setup, push, traffic over two generations of keys and
    renegotiation. [OvpnReliability], [OvpnSessionSafety] and [OvpnSettings] hold
    their theorems. A file of the section uses the ones before it as they are, and
    TLS and the machine only through [Tls] and [Host].

    What fits the path ([PathMtu]): the search for the largest unfragmented echo, and
    the capture side waiting for the narrowest path.

    The forwarding stack ([src/engine/src/tun2socks]), which replays captured packets
    through a SOCKS5 proxy or another VPN's adapter. [ExitPacket] reads and builds the
    packets it handles itself, [ExitHandshake] is the client's handshake and the DNS
    probe, [ExitStack] the state and every operation of the event loop, [ExitEdge] the
    exit's own sockets, the handle the session holds and the proxy test. [ExitSafety]
    has the rules for programs that ask, and one connection's life; [ExitInvariant] the
    invariant of the whole stack, which [ExitInvariant] (connections), [ExitDatagrams]
    (associations), [ExitLookups] (DNS) and [ExitLoop] (probes, packets, the loop) show
    every operation to keep; [ExitTheorems] runs programs against environments and
    states what holds of every state the loop reaches.

    ** What the theorems show

    No nonce is used twice under a key, on either side of a relay session or on an
    OpenVPN data channel. The relay never fails, keeps its bounds, acts on
    authenticated frames only, handles a frame once and writes only an enrolled
    client's own packets. The game gets each packet at most once, whole and as it was
    sent, over paths or rebuilt from repairs, and repairs cover exactly what was sent.
    The dispatcher gives a frame to the paths it should, its queue depths are exact
    under any interleaving, and its caller is told the truth. The scheduler serves
    usable routes. A revoked address is not issued again.

    A captured packet leaves by the node its rule names or not at all: lookups fail
    closed, the kill switch holds of every packet but a name lookup or a later fragment,
    which have rules of their own, replies go back to the socket that asked, a flow
    stays on its node, the narrowest rule decides, and what is selected by address is
    what the user's rules say.

    A WireGuard file is accepted exactly when it is usable, and rewritten without losing
    a setting that it should keep. The service lets exactly the requests through whose
    nodes say all that they need and fit together, and the engine's transports refuse
    none of these before they touch the network, but for a WireGuard value that the
    service does not look into. The routes of a session, those it starts with and those
    that join it, begin with transports of different identities that leave by addresses
    kept out of the capture; and so are kept the addresses that a dial found, when it
    looked its node up, for a route that is still dialling. What a running route redials
    to is not checked by the code, and no theorem speaks of it.

    The worker of a direct session never panics; the bit packets are dispatched by, the
    status shown and the address used agree with the transport that is open, a tunnel
    that answers no probe is charged with none, and every verdict follows the record of
    the probes and the packets of the transport.

    An OpenVPN node reads any configuration without panicking and accepts those it can
    connect with, of whose checks of the certificate it refuses four by name; the control channel delivers its bytes in order and once over
    any network, and completes when packets get through; a TCP link never loses
    control traffic nor its framing; data packets arrive once; keys follow the PRF of
    TLS 1.0; a session survives whatever it is fed, though it never returns from feeding
    a TLS connection that the server has closed, and its settings are the server's.

    A connection through the forwarding stack carries its bytes in order both ways,
    whatever reads and writes do; the stack never panics, stays within its limits and
    settles each connection and lookup once; client and
    server halves of SOCKS5 understand each other. A path's measurement ends, and what
    capture starts with fits every measured path.

    ** Bounds and what they rest on

    Time stays within a century ([Rtt.LONGEST_SAMPLE]), so that sums of durations do
    not overflow; sequences may wrap, and the nonce theorems ask for fewer than 2^64
    draws (2^32 packets on an OpenVPN generation, where the code stops itself).
    Atomics interleave sequentially consistently: the relaxed orderings of the code
    are on counters that no other location is inferred from. A run of the forwarding
    stack asks fewer than 2^63 questions ([ExitSafety.TRACE]), so that tokens do not
    wrap; [rounds] is how many turns of a loop that only its environment ends are
    followed, and the theorems hold for every number of them. Sixteen halvings narrow
    any sixteen-bit interval ([PathMtu.BISECT_FUEL]).

    ** Not modelled

    What is input and output only: sockets, TUN and Wintun adapters, WinDivert, the
    Windows registry, routes, filters, services and RAS, pipes and their JSON, log
    lines. Of the parts that have logic of their own, these are left: the one-off test
    of a direct session ([session/dataplane.rs]), the SOCKS5 server's relays and the
    service's L2TP routes.
*)
From Stdlib Require Export ZArith Lia Strings.Byte.
From stdpp Require Export base tactics numbers list option gmap sets strings sorting.

#[global] Open Scope Z_scope.

(** ** Outcomes of Rust code that can panic *)

Inductive run (A : Type) : Type :=
| Ret (a : A)
| Panic.
Arguments Ret {A} a.
Arguments Panic {A}.

#[export] Instance run_ret : MRet run := @Ret.
#[export] Instance run_bind : MBind run :=
  λ A B (f : A → run B) m, match m with Ret a => f a | Panic => Panic end.
#[export] Instance run_fmap : FMap run :=
  λ A B (f : A → B) m, match m with Ret a => Ret (f a) | Panic => Panic end.

(** [Result<A, E>]. *)
Inductive result (E A : Type) : Type :=
| Ok (a : A)
| Err (e : E).
Arguments Ok {E A} a.
Arguments Err {E A} e.

#[export] Instance result_ret E : MRet (result E) := @Ok E.
#[export] Instance result_bind E : MBind (result E) :=
  λ A B (f : A → result E B) m, match m with Ok a => f a | Err e => Err e end.

(** An [Option] whose [unwrap] the code takes for granted. *)
Definition unwrap {A} (o : option A) : run A :=
  match o with Some a => Ret a | None => Panic end.

(** ** Lengths and list access with [usize] indices, kept in [Z] *)

Definition zlen {A} (l : list A) : Z := Z.of_nat (length l).

(** [l.get(i)] and [l[i]]. *)
Definition get {A} (l : list A) (i : Z) : option A :=
  if 0 <=? i then l !! Z.to_nat i else None.
Definition idx {A} (l : list A) (i : Z) : run A := unwrap (get l i).

(** [l.get(a..b)] and [l[a..b]]. *)
Definition sub {A} (l : list A) (a b : Z) : list A :=
  take (Z.to_nat (b - a)) (drop (Z.to_nat a) l).
Definition get_range {A} (l : list A) (a b : Z) : option (list A) :=
  if (0 <=? a) && (a <=? b) && (b <=? zlen l) then Some (sub l a b) else None.
Definition slice {A} (l : list A) (a b : Z) : run (list A) := unwrap (get_range l a b).

(** [l[i..i + bs.len()].copy_from_slice(bs)]. *)
Definition paste {A} (l : list A) (i : Z) (bs : list A) : list A :=
  take (Z.to_nat i) l ++ bs ++ drop (Z.to_nat (i + zlen bs)) l.
Definition copy_at {A} (l : list A) (i : Z) (bs : list A) : run (list A) :=
  if (0 <=? i) && (i + zlen bs <=? zlen l) then Ret (paste l i bs) else Panic.

(** ** Bytes *)

Definition b2z (b : byte) : Z := Z.of_N (Byte.to_N b).

(** [z as u8]. *)
Definition z2b (z : Z) : byte := default x00 (Byte.of_N (Z.to_N (z mod 256))).

Definition bxor (a b : byte) : byte := z2b (Z.lxor (b2z a) (b2z b)).

(** The byte at an index known to be in range, as a number. *)
Definition nz (l : list byte) (i : Z) : Z := b2z (default x00 (get l i)).

(** Big-endian numbers: [uN::from_be_bytes] and [uN::to_be_bytes]. *)
Fixpoint be_Z (l : list byte) : Z :=
  match l with
  | [] => 0
  | b :: l' => b2z b * 256 ^ zlen l' + be_Z l'
  end.
Fixpoint be_bytes (n : nat) (z : Z) : list byte :=
  match n with
  | O => []
  | S n' => z2b (z / 256 ^ Z.of_nat n') :: be_bytes n' z
  end.

(** [u16::from_be_bytes([l[i], l[i + 1]])] at an index known to be in range. *)
Definition nz16 (l : list byte) (i : Z) : Z := nz l i * 256 + nz l (i + 1).

(** An ASCII literal as the bytes of a Rust string. *)
Definition str (s : string) : list byte := String.list_byte_of_string s.

(** ** Durations and instants, in nanoseconds *)

Definition ms (n : Z) : Z := n * 1000000.
Definition secs (n : Z) : Z := n * 1000000000.

(** [later.duration_since(earlier)], which saturates at zero. *)
Definition since (later earlier : Z) : Z := Z.max 0 (later - earlier).

(** ** Fixed-width arithmetic *)

Definition wrap64 (z : Z) : Z := z mod 2 ^ 64.
Definition u64_max : Z := 2 ^ 64 - 1.
Definition u16_max : Z := 65535.

(** [x.clamp(lo, hi)] for [lo <= hi], and [a.saturating_sub(b)]. *)
Definition clamp (x lo hi : Z) : Z := Z.min hi (Z.max lo x).
Definition sat_sub (a b : Z) : Z := Z.max 0 (a - b).

#[export] Instance byte_eq_dec : EqDecision byte := Byte.byte_eq_dec.

(** ** Collections *)

Definition zsize {K A} `{Countable K} (m : gmap K A) : Z := Z.of_nat (size m).

(** [l.chunks(n)] for [n > 0]. *)
Fixpoint chunks_loop {A} (fuel n : nat) (l : list A) : list (list A) :=
  match fuel, l with
  | S fuel', _ :: _ => take n l :: chunks_loop fuel' n (drop n l)
  | _, _ => []
  end.
Definition chunks {A} (n : Z) (l : list A) : list (list A) :=
  chunks_loop (length l) (Z.to_nat n) l.

(** [iter.min_by_key(key)], the first of the least, and [iter.max_by_key(key)],
    the last of the greatest. *)
Definition min_by {A} (key : A → Z) (l : list A) : option A :=
  foldl (λ best x, match best with
                   | Some y => if key x <? key y then Some x else best
                   | None => Some x
                   end) None l.
Definition max_by {A} (key : A → Z) (l : list A) : option A :=
  foldl (λ best x, match best with
                   | Some y => if key y <=? key x then Some x else best
                   | None => Some x
                   end) None l.

(** [sort_by(cmp)], a stable sort, by insertion from the right. *)
Fixpoint insert_by {A} (le : A → A → bool) (x : A) (l : list A) : list A :=
  match l with
  | [] => [x]
  | y :: l' => if le x y then x :: l else y :: insert_by le x l'
  end.
Definition stable_sort {A} (le : A → A → bool) (l : list A) : list A := foldr (insert_by le) [] l.

(** [sort_by_key(key)]. *)
Definition sort_by {A} (key : A → Z) : list A → list A := stable_sort (λ x y, key x <=? key y).

(** ** Automation

    [len] rewrites lengths, [word] resolves width bounds, and the tactics close
    the goals that bounds checks leave. *)

Create HintDb word.
Create Rewrite HintDb len.

(** Turns the boolean tests of the code into propositions. *)
Ltac b2p :=
  repeat match goal with
  | H : _ && _ = true |- _ => apply andb_true_iff in H as [? ?]
  | H : _ || _ = false |- _ => apply orb_false_iff in H as [? ?]
  | H : negb _ = true |- _ => apply negb_true_iff in H
  | H : negb _ = false |- _ => apply negb_false_iff in H
  | H : (_ =? _) = true |- _ => apply Z.eqb_eq in H
  | H : (_ =? _) = false |- _ => apply Z.eqb_neq in H
  | H : (_ <? _) = true |- _ => apply Z.ltb_lt in H
  | H : (_ <? _) = false |- _ => apply Z.ltb_ge in H
  | H : (_ <=? _) = true |- _ => apply Z.leb_le in H
  | H : (_ <=? _) = false |- _ => apply Z.leb_gt in H
  end.

(** ** Bytes and words *)

Lemma b2z_range b : 0 <= b2z b < 256.
Proof.
  unfold b2z. split; [apply N2Z.is_nonneg|].
  pose proof (Byte.to_N_bounded b). lia.
Qed.

Lemma b2z_z2b z : b2z (z2b z) = z mod 256.
Proof.
  unfold b2z, z2b.
  assert (0 <= z mod 256 < 256) by (apply Z.mod_pos_bound; lia).
  destruct (Byte.of_N (Z.to_N (z mod 256))) as [b|] eqn:E; simpl.
  - apply Byte.to_of_N in E. lia.
  - apply Byte.of_N_None_iff in E. lia.
Qed.

Lemma b2z_inj a b : b2z a = b2z b → a = b.
Proof.
  unfold b2z. intros H%N2Z.inj.
  pose proof (Byte.of_to_N a) as Ea. rewrite H, Byte.of_to_N in Ea. congruence.
Qed.

Lemma z2b_b2z b : z2b (b2z b) = b.
Proof. apply b2z_inj. rewrite b2z_z2b. apply Z.mod_small, b2z_range. Qed.

#[export] Instance byte_countable : Countable byte := inj_countable' b2z z2b z2b_b2z.

(** A bound on a number from its bits; every width lemma below uses it. *)
Lemma bits_lt n z : 0 <= n → 0 <= z → (∀ i, n <= i → Z.testbit z i = false) → z < 2 ^ n.
Proof. intros. by apply (Z.bounded_iff_bits_nonneg n z). Qed.

Lemma bits_high n z i : 0 <= z < 2 ^ n → 0 <= n <= i → Z.testbit z i = false.
Proof. intros ??. apply (Z.bounded_iff_bits_nonneg n z); lia. Qed.

Lemma lxor_bound n a b :
  0 <= n → 0 <= a < 2 ^ n → 0 <= b < 2 ^ n → 0 <= Z.lxor a b < 2 ^ n.
Proof.
  intros Hn Ha Hb. assert (0 <= Z.lxor a b) by (apply Z.lxor_nonneg; lia).
  split; [done|]. apply bits_lt; [lia..|]. intros i Hi.
  rewrite Z.lxor_spec, !(bits_high n); done || lia.
Qed.

Lemma lor_bound n a b :
  0 <= n → 0 <= a < 2 ^ n → 0 <= b < 2 ^ n → 0 <= Z.lor a b < 2 ^ n.
Proof.
  intros Hn Ha Hb. assert (0 <= Z.lor a b) by (apply Z.lor_nonneg; lia).
  split; [done|]. apply bits_lt; [lia..|]. intros i Hi.
  rewrite Z.lor_spec, !(bits_high n); done || lia.
Qed.

Lemma land_bound n a b :
  0 <= n → 0 <= a < 2 ^ n → 0 <= b → 0 <= Z.land a b < 2 ^ n.
Proof.
  intros Hn Ha Hb. assert (0 <= Z.land a b) by (apply Z.land_nonneg; lia).
  split; [done|]. apply bits_lt; [lia..|]. intros i Hi.
  rewrite Z.land_spec, (bits_high n a); done || lia.
Qed.

(** [(a << n) | b] when [b] fits the bits that were made free. *)
Lemma lor_shift a b n : 0 <= n → 0 <= b < 2 ^ n → Z.lor (Z.shiftl a n) b = a * 2 ^ n + b.
Proof.
  intros Hn Hb. rewrite <-Z.shiftl_mul_pow2 by done. symmetry.
  rewrite <-Z.lxor_lor, Z.add_nocarry_lxor; [done|..];
    apply Z.bits_inj'; intros i Hi; rewrite Z.land_spec, Z.bits_0;
    (destruct (Z.ltb_spec i n); [by rewrite Z.shiftl_spec_low|by rewrite (bits_high n b), andb_false_r by lia]).
Qed.

(** [word & (1 << k) != 0]. *)
Lemma land_bit a k : 0 <= k → negb (Z.land a (Z.shiftl 1 k) =? 0) = Z.testbit a k.
Proof.
  intros Hk. rewrite Z.shiftl_1_l.
  destruct (Z.testbit a k) eqn:E.
  - apply negb_true_iff, Z.eqb_neq. intros H.
    apply (f_equal (λ z, Z.testbit z k)) in H.
    by rewrite Z.land_spec, E, Z.pow2_bits_true, Z.bits_0 in H.
  - apply negb_false_iff, Z.eqb_eq, Z.bits_inj'. intros n Hn.
    rewrite Z.land_spec, Z.bits_0. destruct (decide (n = k)) as [->|].
    + by rewrite E.
    + by rewrite Z.pow2_bits_false, andb_false_r by done.
Qed.

Lemma bxor_spec a b : b2z (bxor a b) = Z.lxor (b2z a) (b2z b).
Proof.
  unfold bxor. rewrite b2z_z2b.
  apply Z.mod_small, (lxor_bound 8); [lia|apply b2z_range..].
Qed.

Lemma bxor_comm a b : bxor a b = bxor b a.
Proof. apply b2z_inj. rewrite !bxor_spec. apply Z.lxor_comm. Qed.

Lemma bxor_assoc a b c : bxor (bxor a b) c = bxor a (bxor b c).
Proof. apply b2z_inj. rewrite !bxor_spec. apply Z.lxor_assoc. Qed.

Lemma bxor_nilpotent a : bxor a a = x00.
Proof. apply b2z_inj. rewrite bxor_spec. apply Z.lxor_nilpotent. Qed.

Lemma bxor_0_l a : bxor x00 a = a.
Proof. apply b2z_inj. rewrite bxor_spec. apply Z.lxor_0_l. Qed.

Lemma nz_range l i : 0 <= nz l i < 256.
Proof. apply b2z_range. Qed.

Lemma nz16_range l i : 0 <= nz16 l i < 65536.
Proof. unfold nz16. pose proof (nz_range l i). pose proof (nz_range l (i + 1)). lia. Qed.

(** ** Lengths *)

Lemma zlen_nonneg {A} (l : list A) : 0 <= zlen l.
Proof. unfold zlen. lia. Qed.

Lemma zlen_nil {A} : zlen (@nil A) = 0.
Proof. done. Qed.

Lemma zlen_cons {A} (x : A) l : zlen (x :: l) = zlen l + 1.
Proof. unfold zlen. simpl. lia. Qed.

Lemma zlen_app {A} (l k : list A) : zlen (l ++ k) = zlen l + zlen k.
Proof. unfold zlen. rewrite length_app. lia. Qed.

Lemma zlen_fmap {A B} (f : A → B) l : zlen (f <$> l) = zlen l.
Proof. unfold zlen. by rewrite length_fmap. Qed.

Lemma zlen_sub {A} (l : list A) a b :
  0 <= a <= b → b <= zlen l → zlen (sub l a b) = b - a.
Proof. unfold zlen, sub. intros. rewrite length_take, length_drop. lia. Qed.

Lemma zlen_paste {A} (l : list A) i bs :
  0 <= i → i + zlen bs <= zlen l → zlen (paste l i bs) = zlen l.
Proof.
  unfold zlen, paste. intros. rewrite !length_app, length_take, length_drop.
  unfold zlen. lia.
Qed.

Lemma length_be_bytes n z : length (be_bytes n z) = n.
Proof. induction n; simpl; congruence. Qed.

Lemma zlen_be_bytes n z : zlen (be_bytes n z) = Z.of_nat n.
Proof. unfold zlen. by rewrite length_be_bytes. Qed.

Hint Rewrite @zlen_nil @zlen_cons @zlen_app @zlen_fmap @zlen_be_bytes : len.

(** [lia] after lengths are normalised. *)
Ltac len :=
  autorewrite with len in *;
  repeat match goal with
  | |- context [zlen ?l] => lazymatch goal with
      | _ : 0 <= zlen l |- _ => fail
      | _ => pose proof (zlen_nonneg l) end
  | _ : context [zlen ?l] |- _ => lazymatch goal with
      | _ : 0 <= zlen l |- _ => fail
      | _ => pose proof (zlen_nonneg l) end
  end; lia.

(** ** Access in range *)

Lemma get_lookup {A} (l : list A) i : 0 <= i → get l i = l !! Z.to_nat i.
Proof. unfold get. intros. destruct (Z.leb_spec 0 i); [done|lia]. Qed.

Lemma get_Some {A} (l : list A) i x : get l i = Some x → 0 <= i < zlen l.
Proof.
  unfold get, zlen. destruct (Z.leb_spec 0 i); [|done].
  intros Hx%lookup_lt_Some. lia.
Qed.

Lemma get_is_Some {A} (l : list A) i : 0 <= i < zlen l → is_Some (get l i).
Proof. intros. rewrite get_lookup by lia. apply lookup_lt_is_Some. unfold zlen in *. lia. Qed.

Lemma get_nil {A} i : get (@nil A) i = None.
Proof. unfold get. by destruct (0 <=? i). Qed.

Lemma get_replicate {A} n (x : A) i : get (replicate n x) i = None ∨ get (replicate n x) i = Some x.
Proof.
  unfold get. destruct (0 <=? i); [|by left].
  destruct (replicate n x !! Z.to_nat i) eqn:E; [|by left].
  apply lookup_replicate in E as [-> _]. by right.
Qed.

Lemma get_app_l {A} (l k : list A) i : i < zlen l → get (l ++ k) i = get l i.
Proof.
  unfold get, zlen. intros. destruct (Z.leb_spec 0 i); [|done].
  apply lookup_app_l. lia.
Qed.

Lemma get_app_r {A} (l k : list A) i :
  zlen l <= i → get (l ++ k) i = get k (i - zlen l).
Proof.
  unfold get, zlen. intros. destruct (Z.leb_spec 0 i), (Z.leb_spec 0 (i - Z.of_nat (length l)));
    try lia. rewrite lookup_app_r by lia. f_equal. lia.
Qed.

Lemma idx_nz (l : list byte) i : 0 <= i < zlen l → b2z <$> idx l i = Ret (nz l i).
Proof. intros H. unfold idx, nz. by destruct (get_is_Some l i H) as [x ->]. Qed.

Lemma idx_in {A} (l : list A) i : 0 <= i < zlen l → ∃ x, get l i = Some x ∧ idx l i = Ret x.
Proof. intros H. unfold idx. destruct (get_is_Some l i H) as [x ->]. eauto. Qed.

Lemma get_range_in {A} (l : list A) a b :
  0 <= a <= b → b <= zlen l → get_range l a b = Some (sub l a b).
Proof. intros. unfold get_range. by rewrite !(proj2 (Z.leb_le _ _)) by lia. Qed.

Lemma get_range_Some {A} (l : list A) a b s :
  get_range l a b = Some s → 0 <= a <= b ∧ b <= zlen l ∧ s = sub l a b.
Proof. unfold get_range. case_match; [|done]. b2p. intros [= <-]. split_and!; (lia || done). Qed.

Lemma slice_in {A} (l : list A) a b :
  0 <= a <= b → b <= zlen l → slice l a b = Ret (sub l a b).
Proof. intros. unfold slice. by rewrite get_range_in by lia. Qed.

(** A slice or index of a list known as an append. *)
Lemma sub_eq {A} (l a b c : list A) i j :
  l = a ++ b ++ c → i = zlen a → j = i + zlen b → sub l i j = b.
Proof.
  intros -> -> ->. unfold sub, zlen.
  rewrite drop_app_length' by lia. by rewrite take_app_length' by lia.
Qed.

Lemma slice_eq {A} (l a b c : list A) i j :
  l = a ++ b ++ c → i = zlen a → j = i + zlen b → slice l i j = Ret b.
Proof.
  intros Hl Hi Hj. rewrite slice_in by (subst; len). f_equal. by eapply sub_eq.
Qed.

Lemma idx_eq {A} (l a : list A) x c i :
  l = a ++ x :: c → i = zlen a → idx l i = Ret x.
Proof.
  intros -> ->. unfold idx, zlen. rewrite get_lookup by lia.
  by rewrite list_lookup_middle by lia.
Qed.

Lemma copy_at_in {A} (l : list A) i bs :
  0 <= i → i + zlen bs <= zlen l → copy_at l i bs = Ret (paste l i bs).
Proof. intros. unfold copy_at. by rewrite !(proj2 (Z.leb_le _ _)) by lia. Qed.

Lemma sub_app_l {A} (l k : list A) a b :
  0 <= a → b <= zlen l → sub (l ++ k) a b = sub l a b.
Proof.
  intros. unfold sub, zlen in *. destruct (decide (a <= b)).
  - rewrite drop_app_le by lia. rewrite take_app_le; [done|]. rewrite length_drop. lia.
  - by replace (Z.to_nat (b - a)) with 0%nat by lia.
Qed.

Lemma sub_app_r {A} (l k : list A) a b :
  zlen l <= a → sub (l ++ k) a b = sub k (a - zlen l) (b - zlen l).
Proof.
  intros. unfold sub, zlen in *. rewrite drop_app_ge by lia.
  f_equal; [|f_equal]; lia.
Qed.

Lemma sub_all {A} (l : list A) : sub l 0 (zlen l) = l.
Proof. unfold sub, zlen. rewrite drop_0. apply take_ge. lia. Qed.

Lemma sub_0_take {A} (l : list A) b : sub l 0 b = take (Z.to_nat b) l.
Proof. unfold sub. rewrite drop_0. f_equal. lia. Qed.

Lemma sub_split {A} (l : list A) a b c :
  0 <= a <= b → b <= c → sub l a c = sub l a b ++ sub l b c.
Proof.
  intros. unfold sub.
  rewrite <-(take_drop (Z.to_nat (b - a)) (take (Z.to_nat (c - a)) (drop (Z.to_nat a) l))).
  rewrite take_take, skipn_firstn_comm, drop_drop.
  f_equal; [f_equal; lia|]. f_equal; [lia|]. f_equal. lia.
Qed.

Lemma get_sub {A} (l : list A) a b i :
  0 <= a → 0 <= i < b - a → get (sub l a b) i = get l (a + i).
Proof.
  intros. rewrite !get_lookup by lia. unfold sub.
  rewrite lookup_take_lt by lia. rewrite lookup_drop. f_equal. lia.
Qed.

Lemma get_paste_out {A} (l : list A) i bs j :
  0 <= i → i + zlen bs <= zlen l → j < i ∨ i + zlen bs <= j →
  get (paste l i bs) j = get l j.
Proof.
  intros ?? Hj. unfold get. destruct (Z.leb_spec 0 j); [|done].
  unfold paste, zlen in *. destruct Hj.
  - rewrite lookup_app_l by (rewrite length_take; lia). apply lookup_take_lt. lia.
  - rewrite lookup_app_r by (rewrite length_take; lia). rewrite length_take.
    rewrite lookup_app_r by lia. rewrite lookup_drop. f_equal. lia.
Qed.

Lemma get_paste_in {A} (l : list A) i bs j :
  0 <= i → i + zlen bs <= zlen l → i <= j < i + zlen bs →
  get (paste l i bs) j = get bs (j - i).
Proof.
  intros ???. rewrite !get_lookup by lia. unfold paste, zlen in *.
  rewrite lookup_app_r by (rewrite length_take; lia). rewrite length_take.
  rewrite lookup_app_l by lia. f_equal. lia.
Qed.

(** ** Big-endian round trips *)

Lemma be_Z_bound l : 0 <= be_Z l < 256 ^ zlen l.
Proof.
  induction l as [|b l IH]; simpl; [done|].
  rewrite zlen_cons, Z.pow_add_r, Z.pow_1_r by (pose proof (zlen_nonneg l); lia).
  pose proof (b2z_range b). nia.
Qed.

Lemma be_Z_be_bytes n z : be_Z (be_bytes n z) = z mod 256 ^ Z.of_nat n.
Proof.
  induction n as [|n IH]; simpl be_bytes; simpl be_Z.
  - by rewrite Z.mod_1_r.
  - rewrite IH, zlen_be_bytes, b2z_z2b.
    replace (Z.of_nat (S n)) with (Z.of_nat n + 1) by lia.
    rewrite Z.pow_add_r, Z.pow_1_r, Z.rem_mul_r by lia. lia.
Qed.

Lemma be_bytes_mod n z : be_bytes n z = be_bytes n (z mod 256 ^ Z.of_nat n).
Proof.
  assert (∀ m k, (m <= k)%nat → be_bytes m z = be_bytes m (z mod 256 ^ Z.of_nat k)) as H;
    [|by apply H].
  induction m as [|m IH]; intros k Hk; simpl; [done|].
  rewrite (IH k) by lia. f_equal. apply b2z_inj. rewrite !b2z_z2b.
  replace (Z.of_nat k) with (Z.of_nat m + (1 + Z.of_nat (k - S m))) by lia.
  rewrite Z.pow_add_r by lia.
  rewrite Z.rem_mul_r by lia.
  rewrite Z.add_comm, Z.mul_comm, Z.div_add_l by lia.
  rewrite (Z.div_small (z mod _)), Z.add_0_r by (apply Z.mod_pos_bound; lia).
  rewrite Z.pow_add_r, Z.pow_1_r, Z.rem_mul_r by lia.
  rewrite Z.add_mod, Z.mul_comm, Z.mod_mul, Z.add_0_r, !Z.mod_mod by lia. done.
Qed.

Lemma be_bytes_be_Z l : be_bytes (length l) (be_Z l) = l.
Proof.
  induction l as [|b l IH]; simpl; [done|].
  change (Z.of_nat (length l)) with (zlen l).
  pose proof (be_Z_bound l). f_equal.
  - rewrite Z.div_add_l, Z.div_small, Z.add_0_r by lia. apply z2b_b2z.
  - rewrite be_bytes_mod. fold (zlen l).
    rewrite Z.add_comm, Z.mod_add, Z.mod_small by lia. done.
Qed.

Lemma be_bytes_be_Z' n l : Z.of_nat n = zlen l → be_bytes n (be_Z l) = l.
Proof. unfold zlen. intros Hn. replace n with (length l) by lia. apply be_bytes_be_Z. Qed.

Lemma be_Z_inj l k : length l = length k → be_Z l = be_Z k → l = k.
Proof. intros Hl H. rewrite <-(be_bytes_be_Z l), <-(be_bytes_be_Z k). congruence. Qed.

Lemma nz16_be_Z l i : 0 <= i → i + 2 <= zlen l → nz16 l i = be_Z (sub l i (i + 2)).
Proof.
  intros. assert (Hl : zlen (sub l i (i + 2)) = 2) by (rewrite zlen_sub; lia).
  pose proof (get_sub l i (i + 2) 0) as G0. pose proof (get_sub l i (i + 2) 1) as G1.
  destruct (sub l i (i + 2)) as [|a [|b [|]]]; unfold zlen in Hl; simpl in Hl; try lia.
  unfold nz16, nz. rewrite <-G1 by lia.
  replace (get l i) with (get l (i + 0)) by (f_equal; lia). rewrite <-G0 by lia.
  simpl. rewrite zlen_cons, zlen_nil. lia.
Qed.

(** ** Filters *)

Section filters.
Context {A : Type} (P : A → Prop) `{!∀ x, Decision (P x)}.

Lemma filter_all (l : list A) : (∀ x, x ∈ l → P x) → filter P l = l.
Proof.
  induction l as [|x l IH]; intros Hl; [done|].
  rewrite filter_cons_True by (apply Hl, list_elem_of_here). f_equal.
  apply IH. intros y Hy. by apply Hl, list_elem_of_further.
Qed.

Lemma filter_none (l : list A) : (∀ x, x ∈ l → ¬ P x) → filter P l = [].
Proof.
  induction l as [|x l IH]; intros Hl; [done|].
  rewrite filter_cons_False by (apply Hl, list_elem_of_here).
  apply IH. intros y Hy. by apply Hl, list_elem_of_further.
Qed.
End filters.

(** ** Chunks, extrema and sorting *)

Lemma chunks_loop_join {A} fuel n (l : list A) :
  (0 < n)%nat → (length l <= fuel)%nat → mjoin (chunks_loop fuel n l) = l.
Proof.
  intros Hn. revert l. induction fuel as [|fuel IH]; intros [|x l] Hl; try done.
  { simpl in Hl. lia. }
  cbn [chunks_loop mjoin list_join]. rewrite IH; [apply take_drop|].
  rewrite length_drop. simpl in *. lia.
Qed.

Lemma mjoin_chunks {A} n (l : list A) : 0 < n → mjoin (chunks n l) = l.
Proof. intros. apply chunks_loop_join; lia. Qed.

Lemma min_by_spec {A} (key : A → Z) l :
  match min_by key l with
  | Some y => y ∈ l ∧ ∀ x, x ∈ l → key y <= key x
  | None => l = []
  end.
Proof.
  unfold min_by. induction l as [|x l IH] using rev_ind; [done|].
  rewrite foldl_app. cbn [foldl]. destruct (foldl _ None l) as [y|].
  - destruct IH as [Hy Hmin]. destruct (Z.ltb_spec (key x) (key y)).
    + split; [set_solver|]. intros z [Hz|Hz]%elem_of_app; [specialize (Hmin z Hz); lia|].
      apply list_elem_of_singleton in Hz as ->. lia.
    + split; [set_solver|]. intros z [Hz|Hz]%elem_of_app; [by apply Hmin|].
      apply list_elem_of_singleton in Hz as ->. lia.
  - subst. split; [set_solver|]. intros z [Hz|Hz]%elem_of_app; [set_solver|].
    apply list_elem_of_singleton in Hz as ->. lia.
Qed.

Lemma max_by_spec {A} (key : A → Z) l :
  match max_by key l with
  | Some y => y ∈ l ∧ ∀ x, x ∈ l → key x <= key y
  | None => l = []
  end.
Proof.
  unfold max_by. induction l as [|x l IH] using rev_ind; [done|].
  rewrite foldl_app. cbn [foldl]. destruct (foldl _ None l) as [y|].
  - destruct IH as [Hy Hmax]. destruct (Z.leb_spec (key y) (key x)).
    + split; [set_solver|]. intros z [Hz|Hz]%elem_of_app; [specialize (Hmax z Hz); lia|].
      apply list_elem_of_singleton in Hz as ->. lia.
    + split; [set_solver|]. intros z [Hz|Hz]%elem_of_app; [by apply Hmax|].
      apply list_elem_of_singleton in Hz as ->. lia.
  - subst. split; [set_solver|]. intros z [Hz|Hz]%elem_of_app; [set_solver|].
    apply list_elem_of_singleton in Hz as ->. lia.
Qed.

Section stable_sort.
Context {A : Type} (le : A → A → bool).

Lemma insert_by_perm x l : insert_by le x l ≡ₚ x :: l.
Proof.
  induction l as [|y l IH]; cbn [insert_by]; [done|]. destruct (le x y); [done|].
  rewrite IH. apply Permutation_swap.
Qed.

Lemma stable_sort_perm (l : list A) : stable_sort le l ≡ₚ l.
Proof. induction l as [|x l IH]; cbn [stable_sort foldr]; [done|]. by rewrite insert_by_perm, IH. Qed.

(** Elements that tie keep their order. *)
Lemma stable_sort_stable (P : A → Prop) `{!∀ x, Decision (P x)} (l : list A) :
  (∀ x y, P x → P y → le x y = true) → filter P (stable_sort le l) = filter P l.
Proof.
  intros Htie. induction l as [|x l IH]; [done|]. change (stable_sort le (x :: l)) with (insert_by le x (stable_sort le l)).
  assert (∀ k, filter P (insert_by le x k) = filter P (x :: k)) as ->.
  { intros k. induction k as [|y k IHk]; cbn [insert_by]; [done|]. destruct (le x y) eqn:E; [done|].
    rewrite !filter_cons in *. rewrite IHk. destruct (decide (P x)), (decide (P y)); try done.
    by rewrite Htie in E. }
  rewrite !filter_cons, IH. done.
Qed.

Hypothesis (Hle_total : ∀ x y, le x y = false → le y x = true).
Hypothesis (Hle_trans : ∀ x y z, le x y = true → le y z = true → le x z = true).

Lemma stable_sort_sorted (l : list A) : StronglySorted (λ x y, le x y = true) (stable_sort le l).
Proof.
  induction l as [|x l IH]; [constructor|]. change (stable_sort le (x :: l)) with (insert_by le x (stable_sort le l)).
  revert IH. generalize (stable_sort le l). intros k Hk.
  induction Hk as [|y k Hk IHk Hy]; cbn [insert_by]; [by repeat constructor|].
  destruct (le x y) eqn:E.
  - constructor; [by constructor|]. constructor; [done|]. eapply Forall_impl; [exact Hy|]. eauto.
  - constructor; [done|]. rewrite insert_by_perm. constructor; auto.
Qed.
End stable_sort.

Section sort_by.
Context {A : Type} (key : A → Z).

Lemma sort_by_perm (l : list A) : sort_by key l ≡ₚ l.
Proof. apply stable_sort_perm. Qed.

Lemma sort_by_sorted (l : list A) : StronglySorted (λ x y, key x <= key y) (sort_by key l).
Proof.
  assert (StronglySorted (λ x y, (key x <=? key y) = true) (sort_by key l)) as Hs.
  { apply stable_sort_sorted; intros *; rewrite ?Z.leb_gt, ?Z.leb_le; lia. }
  induction Hs as [|x k Hk IH Hx]; constructor; [done|]. eapply Forall_impl; [exact Hx|].
  intros y. apply Z.leb_le.
Qed.

(** A list whose keys are distinct has one sorted order. *)
Lemma sort_by_unique (l k : list A) :
  l ≡ₚ k → StronglySorted (λ x y, key x <= key y) k →
  (∀ x y, x ∈ k → y ∈ k → key x = key y → x = y) → sort_by key l = k.
Proof.
  intros Hp Hs Hinj. apply (StronglySorted_unique_strong (λ x y, key x <= key y)).
  - intros x y Hx Hy Hxy Hyx. rewrite sort_by_perm, Hp in Hx. apply Hinj; [done..|lia].
  - apply sort_by_sorted.
  - done.
  - by rewrite sort_by_perm.
Qed.
End sort_by.

Lemma sublist_fmap {A B} (f : A → B) (l k : list A) :
  l `sublist_of` k → f <$> l `sublist_of` f <$> k.
Proof. induction 1; by constructor. Qed.

Lemma elem_of_sublist {A} (l k : list A) x : l `sublist_of` k → x ∈ l → x ∈ k.
Proof. intros Hs Hx. eapply elem_of_submseteq; [exact Hx|]. by apply sublist_submseteq. Qed.

Lemma elem_of_snoc {A} (l : list A) x y : y ∈ l ++ [x] ↔ y ∈ l ∨ y = x.
Proof. by rewrite elem_of_app, list_elem_of_singleton. Qed.
