(* ===== verification/Float64.v ===== *)
(** * Binary64 arithmetic

    The [f64] of the Rust code as the Standard Library's executable IEEE 754
    specification at precision 53: every operation rounds to nearest even, so a
    threshold test evaluates to the verdict the machine gives. Shared by the
    scheduler ([Scheduler.v]) and by the loss thresholds ([FecPolicy.v]). *)
From Stdlib Require Import Floats.SpecFloat.
From S2P Require Import Prelude.

Definition f64 : Type := spec_float.

(** [f64::from(z)] for an integer below [2^53]. *)
Definition of_int (z : Z) : f64 := binary_normalize 53 1024 z 0 false.

Definition fadd (x y : f64) : f64 := SFadd 53 1024 x y.
Definition fsub (x y : f64) : f64 := SFsub 53 1024 x y.
Definition fmul (x y : f64) : f64 := SFmul 53 1024 x y.
Definition fdiv (x y : f64) : f64 := SFdiv 53 1024 x y.

(** The literal [n / d]: a division of exact operands rounds once, to the nearest
    [f64], as the parser of the literal does. *)
Definition ratio (n d : Z) : f64 := fdiv (of_int n) (of_int d).

Definition flt (x y : f64) : bool := SFltb x y.
Definition fle (x y : f64) : bool := SFleb x y.
Definition feq (x y : f64) : bool := SFeqb x y.

Definition is_nan (x : f64) : bool := match x with S754_nan => true | _ => false end.
Definition infinity : f64 := S754_infinity false.
Definition fabs (x : f64) : f64 := SFabs x.

(** [x.min(y)] and [x.max(y)], which prefer the operand that is not NaN. *)
Definition fmin (x y : f64) : f64 :=
  if is_nan x then y else if is_nan y then x else if fle x y then x else y.
Definition fmax (x y : f64) : f64 :=
  if is_nan x then y else if is_nan y then x else if fle y x then x else y.

(** [x.clamp(lo, hi)]. *)
Definition fclamp (x lo hi : f64) : f64 := if flt x lo then lo else if flt hi x then hi else x.

(** ** [f64::total_cmp]

    By class, exponent and mantissa, the negative ones mirrored. A NaN counts as
    positive, above infinity. *)
Definition total_key (x : f64) : Z * Z * Z :=
  match x with
  | S754_infinity true => (-3, 0, 0)
  | S754_finite true m e => (-2, - e, - Z.pos m)
  | S754_zero true => (-1, 0, 0)
  | S754_zero false => (0, 0, 0)
  | S754_finite false m e => (1, e, Z.pos m)
  | S754_infinity false => (2, 0, 0)
  | S754_nan => (3, 0, 0)
  end.

Definition key_le (a b : Z * Z * Z) : bool :=
  let '(a1, a2, a3) := a in
  let '(b1, b2, b3) := b in
  (a1 <? b1) || ((a1 =? b1) && ((a2 <? b2) || ((a2 =? b2) && (a3 <=? b3)))).

(** [x.total_cmp(&y)] is not [Greater]. *)
Definition total_le (x y : f64) : bool := key_le (total_key x) (total_key y).

Lemma key_le_spec a b : key_le a b = true ↔
  a.1.1 < b.1.1 ∨ a.1.1 = b.1.1 ∧ (a.1.2 < b.1.2 ∨ a.1.2 = b.1.2 ∧ a.2 <= b.2).
Proof.
  destruct a as [[a1 a2] a3], b as [[b1 b2] b3]. cbn [key_le fst snd].
  rewrite orb_true_iff, andb_true_iff, orb_true_iff, andb_true_iff, !Z.ltb_lt, !Z.eqb_eq, Z.leb_le. done.
Qed.

Lemma total_le_total x y : total_le x y = false → total_le y x = true.
Proof.
  unfold total_le. intros Hf. apply key_le_spec. apply not_true_iff_false in Hf.
  rewrite key_le_spec in Hf. lia.
Qed.

Lemma total_le_trans x y z : total_le x y = true → total_le y z = true → total_le x z = true.
Proof. unfold total_le. rewrite !key_le_spec. lia. Qed.

Lemma total_le_refl x : total_le x x = true.
Proof. unfold total_le. apply key_le_spec. lia. Qed.

(** The total order refines the numeric one. *)
Lemma total_le_flt x y : flt x y = true → total_le x y = true ∧ total_le y x = false.
Proof.
  unfold flt, SFltb, total_le. rewrite <-not_true_iff_false, !key_le_spec.
  destruct x as [[]|[]| |[] m e], y as [[]|[]| |[] m' e']; cbn [SFcompare total_key fst snd]; try done; try lia.
  - change (PosDef.Pos.compare_cont Eq m m') with (Pos.compare m m').
    destruct (Z.compare_spec e e'), (Pos.compare_spec m m'); cbn [CompOpp]; intros; try done; lia.
  - change (PosDef.Pos.compare_cont Eq m m') with (Pos.compare m m').
    destruct (Z.compare_spec e e'), (Pos.compare_spec m m'); intros; try done; lia.
Qed.

(** ** Checking a threshold on every ratio of a bounded window *)

(** All fractions [n / d] with [d] in [lo..hi] and [n <= d] satisfy [p]. *)
Definition all_ratios (lo hi : Z) (p : Z → Z → bool) : bool :=
  forallb (λ d, forallb (λ n, p n d) (seqZ 0 (d + 1))) (seqZ lo (hi - lo + 1)).

Lemma all_ratios_spec lo hi p n d :
  all_ratios lo hi p = true → lo <= d <= hi → 0 <= n <= d → p n d = true.
Proof.
  unfold all_ratios. intros H Hd Hn. rewrite forallb_forall in H.
  assert (Hp : forallb (λ n, p n d) (seqZ 0 (d + 1)) = true).
  { apply H, list_elem_of_In, elem_of_seqZ. lia. }
  rewrite forallb_forall in Hp. apply Hp, list_elem_of_In, elem_of_seqZ. lia.
Qed.
