(* ===== verification/Protocol.v ===== *)
(** * Wire format of relay frames and of their control payloads

    Models [engine/src/protocol.rs] (frame header, health probes) and
    [engine/src/path_policy.rs] (return-path selection requests). A [u8] flag set
    and the [u64] identifiers are numbers in [Z]; [header_wf] states their widths,
    which the Rust types guarantee. *)
From S2P Require Import Prelude.

(** ** protocol.rs *)

Definition MAGIC : Z := 0x47505448.
Definition VERSION : Z := 1.
Definition HEADER_LEN : Z := 40.

Definition FLAG_CONTROL : Z := 1.
Definition FLAG_SERVER_TO_CLIENT : Z := 2.
Definition FLAG_REPAIR : Z := 4.
Definition FLAG_PATH_UNHEALTHY : Z := 8.

(** [flags & bit != 0]. *)
Definition has_flag (flags bit : Z) : bool := negb (Z.land flags bit =? 0).

Definition probe_request (sequence : Z) : list byte := str "ping" ++ be_bytes 8 sequence.

Definition probe_response (request : list byte) : option (list byte) :=
  if negb (bool_decide (request = str "ping"))
     && negb ((zlen request =? 12) && bool_decide (take 4 request = str "ping"))
  then None
  else Some (str "pong" ++ drop 4 request).

Definition probe_reply_matches (reply : list byte) (sequence : Z) (allow_legacy : bool) : bool :=
  (allow_legacy && bool_decide (reply = str "pong"))
  || ((zlen reply =? 12) && bool_decide (take 4 reply = str "pong")
      && bool_decide (drop 4 reply = be_bytes 8 sequence)).

Record FrameHeader : Type := mk_header {
  flags : Z;
  client_id : list byte;
  session_id : Z;
  sequence : Z
}.

Inductive DecodeError : Type :=
| TooShort
| InvalidMagic
| UnsupportedVersion
| InvalidHeaderLength.

Definition encode (h : FrameHeader) : list byte :=
  let bytes := replicate 40 x00 in
  let bytes := paste bytes 0 (be_bytes 4 MAGIC) in
  let bytes := paste bytes 4 [z2b VERSION] in
  let bytes := paste bytes 5 [z2b (flags h)] in
  let bytes := paste bytes 6 (be_bytes 2 HEADER_LEN) in
  let bytes := paste bytes 8 (client_id h) in
  let bytes := paste bytes 24 (be_bytes 8 (session_id h)) in
  paste bytes 32 (be_bytes 8 (sequence h)).

Definition decode (bytes : list byte) : run (result DecodeError FrameHeader) :=
  if zlen bytes <? HEADER_LEN then Ret (Err TooShort) else
  magic ← slice bytes 0 4;
  if negb (be_Z magic =? MAGIC) then Ret (Err InvalidMagic) else
  version ← idx bytes 4;
  if negb (b2z version =? VERSION) then Ret (Err UnsupportedVersion) else
  length ← slice bytes 6 8;
  if negb (be_Z length =? HEADER_LEN) then Ret (Err InvalidHeaderLength) else
  flags ← idx bytes 5;
  client_id ← slice bytes 8 24;
  session_id ← slice bytes 24 32;
  sequence ← slice bytes 32 40;
  Ret (Ok (mk_header (b2z flags) client_id (be_Z session_id) (be_Z sequence))).

(** ** path_policy.rs *)

Module PathPolicy.

Definition REQUEST : list byte := str "path".
Definition ACCEPT : list byte := str "pata".

Record t : Type := mk { path : Z; selected : bool }.

Definition request (p : t) : list byte :=
  REQUEST ++ [z2b (path p); z2b (if selected p then 1 else 0)].

(** The indices are in range once the length is known to be 6. *)
Definition parse (payload : list byte) : option t :=
  if negb (zlen payload =? 6) || negb (bool_decide (take 4 payload = REQUEST))
     || (64 <=? nz payload 4) || (1 <? nz payload 5)
  then None
  else Some (mk (nz payload 4) (negb (nz payload 5 =? 0))).

Definition accept : list byte := ACCEPT.

Definition accepted (payload : list byte) : bool := bool_decide (payload = ACCEPT).

(** A path number the session's 64-bit masks can name. *)
Definition wf (p : t) : Prop := 0 <= path p < 64.

End PathPolicy.

(** ** Well-formedness and proofs *)

#[global] Arguments encode : simpl never.
#[global] Arguments be_bytes : simpl never.

Definition header_wf (h : FrameHeader) : Prop :=
  0 <= flags h < 2 ^ 8 ∧ zlen (client_id h) = 16 ∧
  0 <= session_id h < 2 ^ 64 ∧ 0 <= sequence h < 2 ^ 64.

#[export] Instance DecodeError_eq_dec : EqDecision DecodeError.
Proof. solve_decision. Defined.
#[export] Instance FrameHeader_eq_dec : EqDecision FrameHeader.
Proof. solve_decision. Defined.
#[export] Instance PathPolicy_eq_dec : EqDecision PathPolicy.t.
Proof. solve_decision. Defined.

(** The header laid out field by field. *)
Lemma encode_layout h :
  zlen (client_id h) = 16 →
  encode h = be_bytes 4 MAGIC ++ [z2b VERSION; z2b (flags h)] ++ be_bytes 2 HEADER_LEN ++
             client_id h ++ be_bytes 8 (session_id h) ++ be_bytes 8 (sequence h).
Proof.
  destruct h as [f c s q]; unfold zlen; simpl client_id; intros Hc.
  do 16 (destruct c as [|? c]; [simpl in Hc; lia|]).
  destruct c; [reflexivity|simpl in Hc; lia].
Qed.

Lemma zlen_encode h : zlen (client_id h) = 16 → zlen (encode h) = HEADER_LEN.
Proof. intros H. rewrite encode_layout by done. unfold HEADER_LEN. len. Qed.

(** A buffer of at least a header's length splits into the header's fields. *)
Lemma decode_fields (bytes : list byte) :
  HEADER_LEN <= zlen bytes →
  ∃ (magic : list byte) v f (l c s q rest : list byte),
    bytes = magic ++ [v; f] ++ l ++ c ++ s ++ q ++ rest ∧
    zlen magic = 4 ∧ zlen l = 2 ∧ zlen c = 16 ∧ zlen s = 8 ∧ zlen q = 8.
Proof.
  unfold HEADER_LEN. intros H.
  assert (∃ v f, sub bytes 4 6 = [v; f]) as (v & f & Hvf).
  { assert (zlen (sub bytes 4 6) = 2) as Hl by (rewrite zlen_sub; lia).
    destruct (sub bytes 4 6) as [|v [|f [|]]]; unfold zlen in Hl; simpl in Hl; try lia. eauto. }
  exists (sub bytes 0 4), v, f, (sub bytes 6 8), (sub bytes 8 24), (sub bytes 24 32),
    (sub bytes 32 40), (sub bytes 40 (zlen bytes)).
  split; [|rewrite !zlen_sub by lia; lia].
  rewrite <-Hvf, <-!sub_split by lia. symmetry. apply sub_all.
Qed.

(** What [decode] computes on such a buffer: every test of the code in its order. *)
Lemma decode_on_fields magic v f l c s q rest :
  zlen magic = 4 → zlen l = 2 → zlen c = 16 → zlen s = 8 → zlen q = 8 →
  decode (magic ++ [v; f] ++ l ++ c ++ s ++ q ++ rest) =
  Ret (if negb (be_Z magic =? MAGIC) then Err InvalidMagic
       else if negb (b2z v =? VERSION) then Err UnsupportedVersion
       else if negb (be_Z l =? HEADER_LEN) then Err InvalidHeaderLength
       else Ok (mk_header (b2z f) c (be_Z s) (be_Z q))).
Proof.
  intros Hm Hl Hc Hs Hq. unfold decode.
  set (bytes := magic ++ _).
  assert (Hb : bytes = magic ++ [v; f] ++ l ++ c ++ s ++ q ++ rest) by done.
  destruct (Z.ltb_spec (zlen bytes) HEADER_LEN) as [Hlt|_];
    [exfalso; rewrite Hb in Hlt; unfold HEADER_LEN in Hlt; len|].
  rewrite (slice_eq bytes [] magic ([v; f] ++ l ++ c ++ s ++ q ++ rest) 0 4) by (done || len). simpl.
  case_match; [done|].
  rewrite (idx_eq bytes magic v (f :: l ++ c ++ s ++ q ++ rest) 4) by (done || len). simpl.
  case_match; [done|].
  rewrite (slice_eq bytes (magic ++ [v; f]) l (c ++ s ++ q ++ rest) 6 8)
    by (rewrite <-?app_assoc; done || len). simpl.
  case_match; [done|].
  rewrite (idx_eq bytes (magic ++ [v]) f (l ++ c ++ s ++ q ++ rest) 5)
    by (rewrite <-?app_assoc; done || len). simpl.
  rewrite (slice_eq bytes (magic ++ [v; f] ++ l) c (s ++ q ++ rest) 8 24)
    by (rewrite <-?app_assoc; done || len). simpl.
  rewrite (slice_eq bytes (magic ++ [v; f] ++ l ++ c) s (q ++ rest) 24 32)
    by (rewrite <-?app_assoc; done || len). simpl.
  rewrite (slice_eq bytes (magic ++ [v; f] ++ l ++ c ++ s) q rest 32 40)
    by (rewrite <-?app_assoc; done || len). done.
Qed.

(** [decode] never panics. *)
Lemma decode_total bytes : ∃ r, decode bytes = Ret r.
Proof.
  destruct (Z.ltb_spec (zlen bytes) HEADER_LEN) as [H|H].
  - unfold decode. rewrite (proj2 (Z.ltb_lt _ _)) by done. eauto.
  - destruct (decode_fields bytes H) as (m & v & f & l & c & s & q & r & -> & ?).
    rewrite decode_on_fields by intuition. eauto.
Qed.

Lemma decode_encode h rest : header_wf h → decode (encode h ++ rest) = Ret (Ok h).
Proof.
  intros (Hf & Hc & Hs & Hq). rewrite encode_layout by done.
  rewrite <-!app_assoc. rewrite decode_on_fields by (done || apply zlen_be_bytes).
  rewrite !be_Z_be_bytes, !b2z_z2b, !Z.mod_small by (simpl; done || lia).
  destruct h. done.
Qed.

Lemma decode_inv bytes h :
  decode bytes = Ret (Ok h) → header_wf h ∧ ∃ rest, bytes = encode h ++ rest.
Proof.
  destruct (Z.ltb_spec (zlen bytes) HEADER_LEN) as [H|H].
  { unfold decode. by rewrite (proj2 (Z.ltb_lt _ _)). }
  destruct (decode_fields bytes H) as (m & v & f & l & c & s & q & r & -> & Hm & Hl & Hc & Hs & Hq).
  rewrite decode_on_fields by done.
  destruct (Z.eqb_spec (be_Z m) MAGIC) as [Em|], (Z.eqb_spec (b2z v) VERSION) as [Ev|],
    (Z.eqb_spec (be_Z l) HEADER_LEN) as [El|]; cbn [negb]; [|done..].
  intros Hh. assert (h = mk_header (b2z f) c (be_Z s) (be_Z q)) as -> by congruence. split.
  - pose proof (b2z_range f). pose proof (be_Z_bound s). pose proof (be_Z_bound q).
    rewrite Hs, Hq in *. unfold header_wf; simpl. lia.
  - exists r. rewrite encode_layout by done. cbn [flags client_id session_id sequence].
    rewrite <-Em, <-Ev, <-El, !z2b_b2z.
    rewrite <-!app_assoc. by rewrite !be_bytes_be_Z' by lia.
Qed.

Lemma probe_reply_length r a : r = str "pong" ++ be_bytes 8 a → zlen r = 12 ∧ r ≠ str "pong".
Proof.
  intros ->. split; [by rewrite zlen_app, zlen_be_bytes|].
  intros H%(f_equal length). rewrite length_app, length_be_bytes in H. simpl in H. lia.
Qed.

Lemma probe_response_request a :
  probe_response (probe_request a) = Some (str "pong" ++ be_bytes 8 a).
Proof.
  unfold probe_response, probe_request.
  assert (zlen (str "ping" ++ be_bytes 8 a) = 12) as -> by (rewrite zlen_app, zlen_be_bytes; done).
  rewrite (bool_decide_false (_ = str "ping")); [done|].
  intros H%(f_equal length). rewrite length_app, length_be_bytes in H. simpl in H. lia.
Qed.

Lemma be_bytes_inj n a b :
  0 <= a < 256 ^ Z.of_nat n → 0 <= b < 256 ^ Z.of_nat n → be_bytes n a = be_bytes n b → a = b.
Proof. intros ?? H%(f_equal be_Z). by rewrite !be_Z_be_bytes, !Z.mod_small in H. Qed.

Lemma parse_policy_wf payload p : PathPolicy.parse payload = Some p → PathPolicy.wf p.
Proof.
  unfold PathPolicy.parse, PathPolicy.wf. destruct (negb _ || _ || _ || _) eqn:E; [done|].
  intros [= <-]. b2p. cbn [PathPolicy.path]. pose proof (nz_range payload 4). lia.
Qed.

(** The answer to a tagged health probe matches that probe and no other, whether or
    not legacy answers are still allowed. *)
Lemma probe_answer_matches a b legacy
  (Ha : 0 <= a < 2 ^ 64) (Hb : 0 <= b < 2 ^ 64) :
  probe_reply_matches (str "pong" ++ be_bytes 8 a) b legacy = true ↔ a = b.
Proof.
  destruct (probe_reply_length _ a eq_refl) as [Hl Hn]. unfold probe_reply_matches.
  rewrite Hl, (bool_decide_false _ Hn), andb_false_r. cbn [orb].
  change (drop 4 (str "pong" ++ be_bytes 8 a)) with (be_bytes 8 a).
  rewrite Z.eqb_refl, (bool_decide_true (take 4 _ = _)), !andb_true_l by done.
  rewrite bool_decide_eq_true.
  split; [by apply be_bytes_inj|congruence].
Qed.

(** ** Properties *)

(** A frame header is read back exactly: [decode] answers [Ok h] on a buffer
    if and only if the buffer starts with [h]'s 40-byte encoding and the fields
    of [h] fit their machine widths. In particular there is one encoding per
    header, and anything else is rejected. *)
Theorem decode_encode_iff bytes h :
  decode bytes = Ret (Ok h) ↔ header_wf h ∧ ∃ rest, bytes = encode h ++ rest.
Proof.
  split; [apply decode_inv|]. intros (Hwf & rest & ->). by apply decode_encode.
Qed.

(** A path-policy request is parsed back exactly when it is well formed:
    six bytes, a path number below 64 and a selection byte of 0 or 1. *)
Theorem path_policy_parse_iff payload p :
  PathPolicy.parse payload = Some p ↔ PathPolicy.wf p ∧ payload = PathPolicy.request p.
Proof.
  unfold PathPolicy.parse, PathPolicy.wf, PathPolicy.request. split.
  - destruct (Z.eqb_spec (zlen payload) 6) as [El|]; [|done].
    destruct (bool_decide_reflect (take 4 payload = PathPolicy.REQUEST)) as [Er|]; [|done].
    destruct (Z.leb_spec 64 (nz payload 4)) as [|H4]; [done|].
    destruct (Z.ltb_spec 1 (nz payload 5)) as [|H5]; [done|].
    cbn [negb orb]. intros [= <-]. change PathPolicy.REQUEST with [x70; x61; x74; x68] in Er. simpl in Er |- *.
    destruct payload as [|a [|b [|c [|d [|e [|f [|]]]]]]]; unfold zlen in *; simpl in *; try lia.
    unfold nz, get in *. simpl in *. pose proof (b2z_range e).
    split; [lia|]. rewrite z2b_b2z.
    assert (b2z f = 0 ∨ b2z f = 1) as [Hf|Hf] by (pose proof (b2z_range f); lia); rewrite Hf;
      simpl; rewrite <-Hf, z2b_b2z; by simplify_eq.
  - intros [Hp ->]. destruct p as [n s]; simpl in Hp |- *.
    assert (b2z (z2b n) = n) as Hn by (rewrite b2z_z2b; apply Z.mod_small; lia).
    unfold nz, get. simpl. rewrite Hn.
    destruct (Z.leb_spec 64 n); [lia|]. by destruct s.
Qed.
