(* ===== verification/Replay.v ===== *)
(** * Replay window

    Models [engine/src/replay.rs]: the circular bitmap of 8192 sequences that the
    relay and the client share to admit each frame once. [ReplayWindow] is the
    struct, [accept], [would_accept], [is_too_old] its methods, and [Spec] the set
    of accepted sequences that the bitmap stands for. *)
From S2P Require Import Prelude.

Definition WINDOW : Z := 8192.
Definition WORDS : Z := WINDOW / 64.
Definition MAX_REORDERING : Z := 2048.

Record ReplayWindow : Type := mk_window {
  highest : Z;
  seen : list Z;
  initialized : bool
}.

Definition default_window : ReplayWindow :=
  mk_window 0 (replicate (Z.to_nat WORDS) 0) false.

Definition slot (sequence : Z) : Z * Z :=
  let position := sequence mod WINDOW in
  (position / 64, Z.shiftl 1 (position mod 64)).

Definition word_at (w : ReplayWindow) (i : Z) : Z := default 0 (get (seen w) i).

Definition is_set (w : ReplayWindow) (sequence : Z) : bool :=
  let '(word, bit) := slot sequence in
  negb (Z.land (word_at w word) bit =? 0).

Definition put_word (w : ReplayWindow) (i v : Z) : ReplayWindow :=
  mk_window (highest w) (<[Z.to_nat i := v]> (seen w)) (initialized w).

Definition set (w : ReplayWindow) (sequence : Z) : ReplayWindow :=
  let '(word, bit) := slot sequence in
  put_word w word (Z.lor (word_at w word) bit).

(** [seen[word] &= !bit]. *)
Definition clear (w : ReplayWindow) (sequence : Z) : ReplayWindow :=
  let '(word, bit) := slot sequence in
  put_word w word (Z.ldiff (word_at w word) bit).

Definition would_accept (w : ReplayWindow) (sequence : Z) : bool :=
  negb (initialized w)
  || (highest w <? sequence)
  || ((highest w - sequence <? WINDOW) && negb (is_set w sequence)).

Definition is_too_old (w : ReplayWindow) (sequence : Z) : bool :=
  initialized w && (WINDOW <=? sat_sub (highest w) sequence).

Definition set_highest (w : ReplayWindow) (sequence : Z) : ReplayWindow :=
  mk_window sequence (seen w) (initialized w).

Definition accept (w : ReplayWindow) (sequence : Z) : bool * ReplayWindow :=
  if negb (initialized w) then
    (true, set (mk_window sequence (seen w) true) sequence)
  else if highest w <? sequence then
    let advance := sequence - highest w in
    let w' :=
      if WINDOW <=? advance
      then mk_window (highest w) (replicate (Z.to_nat WORDS) 0) (initialized w)
      else foldl clear w (seqZ (highest w + 1) (sequence - (highest w + 1))) in
    (true, set (set_highest w' sequence) sequence)
  else if (WINDOW <=? highest w - sequence) || is_set w sequence then (false, w)
  else (true, set w sequence).

(** ** Abstract specification: a set of sequences and the newest of them *)

Module Spec.

Record t : Type := mk { top : option Z; accepted : gset Z }.

Definition empty : t := mk None ∅.

Definition fresh (s : t) (sequence : Z) : bool :=
  match top s with
  | None => true
  | Some h => (h - sequence <? WINDOW) && bool_decide (sequence ∉ accepted s)
  end.

Definition step (s : t) (sequence : Z) : bool * t :=
  if fresh s sequence then
    (true, mk (Some (Z.max sequence (default sequence (top s)))) ({[sequence]} ∪ accepted s))
  else (false, s).

End Spec.

(** The bitmap [w] stands for the accepted set [s]. *)
Record represents (w : ReplayWindow) (s : Spec.t) : Prop := {
  rep_words : length (seen w) = Z.to_nat WORDS;
  rep_init : initialized w = bool_decide (is_Some (Spec.top s));
  rep_blank : initialized w = false → ∀ q, is_set w q = false;
  rep_top : ∀ h, Spec.top s = Some h → highest w = h ∧ 0 <= h ∧ h ∈ Spec.accepted s;
  rep_none : Spec.top s = None → Spec.accepted s = ∅;
  rep_below : ∀ q, q ∈ Spec.accepted s → 0 <= q <= highest w;
  rep_bits : ∀ q, 0 <= q → highest w - WINDOW < q <= highest w → Spec.top s ≠ None →
    is_set w q = bool_decide (q ∈ Spec.accepted s)
}.

(** The verdicts of a run of frames through the window. *)
Fixpoint verdicts (w : ReplayWindow) (frames : list Z) : list bool * ReplayWindow :=
  match frames with
  | [] => ([], w)
  | q :: frames' =>
      let '(b, w') := accept w q in
      let '(bs, w'') := verdicts w' frames' in
      (b :: bs, w'')
  end.

Fixpoint spec_verdicts (s : Spec.t) (frames : list Z) : list bool * Spec.t :=
  match frames with
  | [] => ([], s)
  | q :: frames' =>
      let '(b, s') := Spec.step s q in
      let '(bs, s'') := spec_verdicts s' frames' in
      (b :: bs, s'')
  end.

(** The sequences of [frames] that were admitted, in order. *)
Definition admitted (frames : list Z) : list Z :=
  (zip frames (verdicts default_window frames).1) ≫= λ '(q, b), if (b : bool) then [q] else [].

(** ** The bitmap *)

Lemma slot_range q : 0 <= (slot q).1 < WORDS ∧ 0 <= q mod WINDOW mod 64 < 64.
Proof.
  change WORDS with 128. unfold slot, WINDOW; simpl.
  pose proof (Z.mod_pos_bound q 8192). pose proof (Z.mod_pos_bound (q mod 8192) 64).
  split; [|lia]. split; [apply Z.div_pos; lia|]. apply Z.div_lt_upper_bound; lia.
Qed.

Lemma is_set_testbit w q :
  is_set w q = Z.testbit (word_at w (q mod WINDOW / 64)) (q mod WINDOW mod 64).
Proof. unfold is_set, slot. apply land_bit, slot_range. Qed.

Lemma same_slot p q :
  p mod WINDOW = q mod WINDOW ↔
  p mod WINDOW / 64 = q mod WINDOW / 64 ∧ p mod WINDOW mod 64 = q mod WINDOW mod 64.
Proof.
  split; [by intros ->|]. intros [Hd Hm].
  rewrite (Z.div_mod (p mod WINDOW) 64), (Z.div_mod (q mod WINDOW) 64) by done. congruence.
Qed.

Lemma word_at_put w i j v :
  length (seen w) = Z.to_nat WORDS → 0 <= i < WORDS → 0 <= j →
  word_at (put_word w i v) j = if decide (i = j) then v else word_at w j.
Proof.
  intros Hl Hi Hj. unfold word_at, put_word; simpl. rewrite !get_lookup by done.
  case_decide as Hd.
  - subst. by rewrite list_lookup_insert_eq by lia.
  - by rewrite list_lookup_insert_ne by lia.
Qed.

Lemma length_put_word w i v : length (seen (put_word w i v)) = length (seen w).
Proof. apply length_insert. Qed.

Lemma is_set_put w p q v :
  length (seen w) = Z.to_nat WORDS →
  is_set (put_word w (p mod WINDOW / 64) v) q =
  if decide (p mod WINDOW / 64 = q mod WINDOW / 64)
  then Z.testbit v (q mod WINDOW mod 64) else is_set w q.
Proof.
  intros Hl. rewrite !is_set_testbit, word_at_put; [by case_decide|done| |].
  - apply (slot_range p).
  - pose proof (slot_range q). simpl in *. lia.
Qed.

Lemma is_set_set w p q :
  length (seen w) = Z.to_nat WORDS →
  is_set (set w p) q = bool_decide (p mod WINDOW = q mod WINDOW) || is_set w q.
Proof.
  intros Hl. unfold set, slot. rewrite is_set_put by done.
  pose proof (slot_range p) as [_ Hp]. pose proof (slot_range q) as [_ Hq].
  rewrite (bool_decide_ext _ _ (same_slot p q)), is_set_testbit.
  case_decide as Hd; [|rewrite bool_decide_false by tauto; done].
  rewrite Z.lor_spec, Z.shiftl_1_l, <-Hd, orb_comm. f_equal.
  destruct (decide (p mod WINDOW mod 64 = q mod WINDOW mod 64)) as [->|Hne].
  - rewrite Z.pow2_bits_true, bool_decide_true by (done || lia). done.
  - rewrite Z.pow2_bits_false, bool_decide_false by tauto. done.
Qed.

Lemma is_set_clear w p q :
  length (seen w) = Z.to_nat WORDS →
  is_set (clear w p) q = negb (bool_decide (p mod WINDOW = q mod WINDOW)) && is_set w q.
Proof.
  intros Hl. unfold clear, slot. rewrite is_set_put by done.
  pose proof (slot_range p) as [_ Hp]. pose proof (slot_range q) as [_ Hq].
  rewrite (bool_decide_ext _ _ (same_slot p q)), is_set_testbit.
  case_decide as Hd; [|rewrite bool_decide_false by tauto; done].
  rewrite Z.ldiff_spec, Z.shiftl_1_l, <-Hd, andb_comm. f_equal. f_equal.
  destruct (decide (p mod WINDOW mod 64 = q mod WINDOW mod 64)) as [->|Hne].
  - rewrite Z.pow2_bits_true, bool_decide_true by (done || lia). done.
  - rewrite Z.pow2_bits_false, bool_decide_false by tauto. done.
Qed.

Lemma set_frame w p :
  highest (set w p) = highest w ∧ initialized (set w p) = initialized w ∧
  length (seen (set w p)) = length (seen w).
Proof. unfold set, slot. split_and!; [done..|apply length_put_word]. Qed.

Lemma clear_frame w p :
  highest (clear w p) = highest w ∧ initialized (clear w p) = initialized w ∧
  length (seen (clear w p)) = length (seen w).
Proof. unfold clear, slot. split_and!; [done..|apply length_put_word]. Qed.

(** Forgetting a run of skipped sequences. *)
Lemma clear_run ps w :
  length (seen w) = Z.to_nat WORDS →
  let w' := foldl clear w ps in
  highest w' = highest w ∧ initialized w' = initialized w ∧
  length (seen w') = Z.to_nat WORDS ∧
  ∀ q, is_set w' q = is_set w q && forallb (λ p, negb (bool_decide (p mod WINDOW = q mod WINDOW))) ps.
Proof.
  revert w. induction ps as [|p ps IH]; intros w Hl; simpl.
  - split_and!; [done..|]. intros. by rewrite andb_true_r.
  - destruct (clear_frame w p) as (E1 & E2 & E3).
    destruct (IH (clear w p)) as (F1 & F2 & F3 & F4); [congruence|].
    split_and!; [congruence..|]. intros q. rewrite F4, is_set_clear by done.
    destruct (is_set w q), (negb _); simpl; by rewrite ?andb_true_r, ?andb_false_r.
Qed.

Lemma default_replicate {A} (x : A) n i : default x (replicate n x !! i) = x.
Proof. destruct (replicate n x !! i) eqn:E; [|done]. by apply lookup_replicate in E as [-> _]. Qed.

Lemma is_set_zeros h b q : is_set (mk_window h (replicate (Z.to_nat WORDS) 0) b) q = false.
Proof.
  rewrite is_set_testbit. unfold word_at, get. cbn [seen].
  case_match; [rewrite default_replicate|]; apply Z.bits_0.
Qed.

Lemma mod_window_inj p q : - WINDOW < p - q < WINDOW → p mod WINDOW = q mod WINDOW → p = q.
Proof.
  unfold WINDOW. intros H Hm.
  pose proof (Z.div_mod p 8192). pose proof (Z.div_mod q 8192). lia.
Qed.

Lemma forallb_skipped h s q :
  h < s → s - h < WINDOW → s - WINDOW < q <= s → q ≠ s →
  forallb (λ p, negb (bool_decide (p mod WINDOW = q mod WINDOW))) (seqZ (h + 1) (s - (h + 1)))
  = bool_decide (q <= h).
Proof.
  intros. case_bool_decide as Hq.
  - apply forallb_forall. intros p Hp%list_elem_of_In. apply elem_of_seqZ in Hp.
    apply negb_true_iff, bool_decide_eq_false. intros E%mod_window_inj; lia.
  - apply not_true_iff_false. intros Hf. rewrite forallb_forall in Hf.
    specialize (Hf q). rewrite bool_decide_true in Hf by done. apply (diff_false_true).
    apply Hf, list_elem_of_In, elem_of_seqZ. lia.
Qed.

(** ** Refinement *)

Lemma represents_default : represents default_window Spec.empty.
Proof.
  split; simpl; try done.
  - intros. apply is_set_zeros.
Qed.

(** The bitmap after the newest sequence moves up to [q]. *)
Lemma advance_bits w q :
  length (seen w) = Z.to_nat WORDS → highest w < q →
  let w' := if WINDOW <=? q - highest w
            then mk_window (highest w) (replicate (Z.to_nat WORDS) 0) (initialized w)
            else foldl clear w (seqZ (highest w + 1) (q - (highest w + 1))) in
  highest w' = highest w ∧ initialized w' = initialized w ∧ length (seen w') = Z.to_nat WORDS ∧
  ∀ t, q - WINDOW < t <= q → t ≠ q → is_set w' t = is_set w t && bool_decide (t <= highest w).
Proof.
  intros Hl Hq. destruct (Z.leb_spec WINDOW (q - highest w)); cbn zeta iota.
  - cbn [highest seen initialized]. rewrite length_replicate. split_and!; [done..|]. intros t Ht Hne.
    rewrite is_set_zeros, bool_decide_false, andb_false_r; [done|lia].
  - destruct (clear_run (seqZ (highest w + 1) (q - (highest w + 1))) w Hl) as (E1 & E2 & E3 & E4).
    split_and!; [done..|]. intros t Ht Hne. by rewrite E4, forallb_skipped by lia.
Qed.

Section step.
Context (w : ReplayWindow) (s : Spec.t) (q : Z).
Hypothesis (Hrep : represents w s) (Hq : 0 <= q).

Lemma would_accept_fresh : would_accept w q = Spec.fresh s q.
Proof.
  destruct Hrep as [Hl Hi _ Ht Hn Hb Hbits]. unfold would_accept, Spec.fresh.
  destruct (Spec.top s) as [h|] eqn:E; rewrite Hi; simpl.
  - destruct (Ht h eq_refl) as (-> & Hh & _).
    destruct (Z.ltb_spec h q); simpl.
    + rewrite (proj2 (Z.ltb_lt _ _)) by (unfold WINDOW; lia). simpl.
      symmetry. apply bool_decide_eq_true. intros Hin%Hb. rewrite (proj1 (Ht h eq_refl)) in Hin. lia.
    + destruct (Z.ltb_spec (h - q) WINDOW); simpl; [|done].
      rewrite Hbits by (done || rewrite (proj1 (Ht h eq_refl)); lia).
      by rewrite bool_decide_not.
  - done.
Qed.

Lemma accept_would_accept : (accept w q).1 = would_accept w q.
Proof.
  unfold accept, would_accept.
  destruct (initialized w); simpl; [|done].
  destruct (Z.ltb_spec (highest w) q); simpl; [done|].
  destruct (Z.leb_spec WINDOW (highest w - q)), (Z.ltb_spec (highest w - q) WINDOW); try lia;
    simpl; [done|]. by destruct (is_set w q).
Qed.

Lemma rejected_unchanged : (accept w q).1 = false → (accept w q).2 = w.
Proof.
  unfold accept. destruct (initialized w); simpl; [|done].
  destruct (Z.ltb_spec (highest w) q); simpl; [done|].
  by destruct (_ || _).
Qed.
End step.

Lemma set_newest_represents w s q :
  length (seen w) = Z.to_nat WORDS → initialized w = true → highest w = q → 0 <= q →
  (∀ t, t ∈ Spec.accepted s → 0 <= t <= q) →
  (∀ t, 0 <= t → q - WINDOW < t <= q → t ≠ q → is_set w t = bool_decide (t ∈ Spec.accepted s)) →
  represents (set w q) (Spec.mk (Some q) ({[q]} ∪ Spec.accepted s)).
Proof.
  intros Hl Hi Hh Hq Hb Hbits. destruct (set_frame w q) as (F1 & F2 & F3).
  split; cbn [Spec.top Spec.accepted].
  - congruence.
  - by rewrite F2, Hi.
  - rewrite F2, Hi. done.
  - intros h [= <-]. rewrite F1. set_solver.
  - done.
  - intros t. rewrite elem_of_union, elem_of_singleton, F1, Hh. intros [->|Ht%Hb]; lia.
  - intros t Ht0 Ht _. rewrite F1, Hh in Ht. rewrite is_set_set by done.
    destruct (decide (t = q)) as [->|Hne].
    + rewrite !bool_decide_true by (done || set_solver). done.
    + rewrite (bool_decide_false (q mod _ = _)).
      * rewrite Hbits by done. simpl. apply bool_decide_ext. set_solver.
      * intros E%mod_window_inj; lia.
Qed.

Lemma accept_represents w s q :
  represents w s → 0 <= q →
  (accept w q).1 = (Spec.step s q).1 ∧ represents (accept w q).2 (Spec.step s q).2.
Proof.
  intros Hrep Hq. pose proof (would_accept_fresh w s q Hrep Hq) as Hf.
  pose proof (accept_would_accept w q) as Ha.
  unfold Spec.step. rewrite <-Hf, <-Ha.
  destruct ((accept w q).1) eqn:Hacc; simpl.
  2: { split; [done|]. by rewrite rejected_unchanged. }
  split; [done|]. destruct Hrep as [Hl Hi Hz Ht Hn Hb Hbits]. revert Hacc. unfold accept.
  destruct (initialized w) eqn:Einit; cbn [negb].
  - symmetry in Hi. apply bool_decide_eq_true in Hi as [h Eh].
    destruct (Ht h Eh) as (Hh & Hh0 & Hhin). rewrite Eh in *. unfold default, from_option, id.
    destruct (Z.ltb_spec (highest w) q) as [Hlt|Hge].
    + intros _. cbn [snd].
      destruct (advance_bits w q Hl Hlt) as (A1 & A2 & A3 & A4). cbn zeta in *.
      rewrite Einit in A1, A2, A3, A4.
      rewrite Z.max_l by lia. apply set_newest_represents;
        [exact A3|cbn; congruence|done|done|intros t Hin%Hb; lia|].
      intros t Ht0 Htr Hne.
      match goal with |- is_set (set_highest ?x q) t = _ => change (is_set x t = bool_decide (t ∈ Spec.accepted s)) end.
      rewrite A4 by lia. case_bool_decide as Hle.
      * rewrite andb_true_r. apply Hbits; [done|lia|done].
      * rewrite andb_false_r. symmetry. apply bool_decide_eq_false. intros Hin%Hb. lia.
    + destruct ((WINDOW <=? highest w - q) || is_set w q) eqn:Eo; [done|]. intros _. b2p.
      rewrite Z.max_r by lia. destruct (set_frame w q) as (F1 & F2 & F3).
      split; cbn [snd Spec.top Spec.accepted].
      * congruence.
      * by rewrite F2.
      * rewrite F2, Einit. done.
      * intros h' [= <-]. rewrite F1. set_solver.
      * done.
      * intros t. rewrite elem_of_union, elem_of_singleton, F1. intros [->|Hin%Hb]; lia.
      * intros t Ht0 Htr _. rewrite F1 in Htr. rewrite is_set_set, Hbits by done.
        destruct (decide (t = q)) as [->|Hne].
        -- rewrite (bool_decide_true (q mod _ = _)), (bool_decide_true (q ∈ {[q]} ∪ _)); set_solver.
        -- rewrite (bool_decide_false (q mod _ = _)).
           ++ simpl. apply bool_decide_ext. set_solver.
           ++ intros E%mod_window_inj; lia.
  - intros _. cbn [snd]. symmetry in Hi. apply bool_decide_eq_false in Hi.
    destruct (Spec.top s) eqn:Et; [exfalso; eauto|]. unfold default, from_option, id.
    rewrite Z.max_id. apply set_newest_represents; [done..| |].
    + rewrite (Hn eq_refl). set_solver.
    + intros t _ _ _. rewrite (Hn eq_refl), (bool_decide_false (t ∈ ∅)) by set_solver.
      by apply Hz.
Qed.

(** What a window turns away it turns away for good. *)
Lemma rejected_stays w s p q :
  represents w s → 0 <= p → 0 <= q →
  would_accept w p = false → would_accept (accept w q).2 p = false.
Proof.
  intros Hrep Hp Hq. destruct (accept_represents w s q Hrep Hq) as [_ Hrep'].
  rewrite (would_accept_fresh w s p Hrep Hp), (would_accept_fresh _ _ p Hrep' Hp).
  unfold Spec.step. destruct (Spec.fresh s q); cbn [snd]; [|done].
  unfold Spec.fresh. cbn [Spec.top Spec.accepted]. destruct (Spec.top s) as [h|]; [|done].
  unfold default, from_option, id. intros Hf. apply andb_false_iff in Hf. apply andb_false_iff.
  destruct Hf as [Hf|Hf]; [left|right].
  - apply Z.ltb_ge in Hf. apply Z.ltb_ge. lia.
  - apply bool_decide_eq_false in Hf. apply bool_decide_eq_false. set_solver.
Qed.

Lemma accepted_is_rejected w s q :
  represents w s → 0 <= q → would_accept (accept w q).2 q = false.
Proof.
  intros Hrep Hq. destruct (accept_represents w s q Hrep Hq) as [_ Hrep'].
  rewrite (would_accept_fresh _ _ q Hrep' Hq). unfold Spec.step.
  destruct (Spec.fresh s q) eqn:Ef; cbn [snd]; [|done].
  unfold Spec.fresh. cbn [Spec.top Spec.accepted]. apply andb_false_iff. right.
  apply bool_decide_eq_false. set_solver.
Qed.

Lemma verdicts_represents frames w s :
  represents w s → Forall (λ q, 0 <= q) frames →
  (verdicts w frames).1 = (spec_verdicts s frames).1 ∧
  represents (verdicts w frames).2 (spec_verdicts s frames).2.
Proof.
  revert w s. induction frames as [|q frames IH]; intros w s Hrep Hf; [done|].
  apply Forall_cons in Hf as [Hq Hf]. destruct (accept_represents w s q Hrep Hq) as [Hb Hrep'].
  simpl. destruct (accept w q) as [b w'], (Spec.step s q) as [b' s']. simpl in *. subst b'.
  destruct (IH w' s' Hrep' Hf) as [Hbs Hend].
  destruct (verdicts w' frames), (spec_verdicts s' frames). simpl in *. by subst.
Qed.

(** ** The set of admitted sequences *)

(** The sequences a run of the specification admits. *)
Definition kept (frames : list Z) (bs : list bool) : list Z :=
  zip frames bs ≫= λ '(q, b), if (b : bool) then [q] else [].

(** The state only holds what it has admitted, and its newest entry bounds it. *)
Definition spec_wf (s : Spec.t) : Prop :=
  (Spec.top s = None → Spec.accepted s = ∅) ∧
  ∀ h, Spec.top s = Some h → h ∈ Spec.accepted s ∧ ∀ q, q ∈ Spec.accepted s → q <= h.

Lemma step_wf s q : spec_wf s → spec_wf (Spec.step s q).2.
Proof.
  intros [Hn Ht]. unfold Spec.step. destruct (Spec.fresh s q); [|done].
  split; [done|]. cbn [snd Spec.top Spec.accepted]. intros h [= <-].
  destruct (Spec.top s) as [h|] eqn:E; unfold default, from_option, id.
  - destruct (Ht h eq_refl) as [Hin Hmax]. split.
    + destruct (Z.max_spec q h) as [[_ ->]|[_ ->]]; set_solver.
    + intros t [->%elem_of_singleton|Hx%Hmax]%elem_of_union; lia.
  - rewrite (Hn eq_refl), Z.max_id. set_solver by lia.
Qed.

Lemma kept_fresh frames s :
  spec_wf s →
  NoDup (kept frames (spec_verdicts s frames).1) ∧
  ∀ q, q ∈ kept frames (spec_verdicts s frames).1 → q ∉ Spec.accepted s.
Proof.
  revert s. induction frames as [|q frames IH]; intros s Hwf; [split; [constructor|set_solver]|].
  specialize (IH (Spec.step s q).2 (step_wf s q Hwf)). revert IH.
  simpl. unfold Spec.step, Spec.fresh. destruct Hwf as [Hn Ht].
  destruct (match Spec.top s with Some h => _ | None => true end) eqn:Ef; cbn [snd].
  - match goal with |- context [spec_verdicts ?s' frames] => destruct (spec_verdicts s' frames) as [bs s''] end.
    simpl. intros [Hnd Hout]. unfold kept in *. simpl. split.
    + constructor; [|done]. intros Hin. apply (Hout q Hin). set_solver.
    + intros t [->|Hin]%elem_of_cons.
      * destruct (Spec.top s) as [h|]; [|rewrite Hn by done; set_solver]. b2p.
        by apply bool_decide_eq_true in H0.
      * specialize (Hout t Hin). set_solver.
  - match goal with |- context [spec_verdicts ?s' frames] => destruct (spec_verdicts s' frames) as [bs s''] end.
    done.
Qed.

(** Every sequence held comes from the frames seen. *)
Lemma spec_accepted_seen frames s q :
  q ∈ Spec.accepted (spec_verdicts s frames).2 → q ∈ Spec.accepted s ∨ q ∈ frames.
Proof.
  revert s. induction frames as [|p frames IH]; intros s; simpl; [by left|].
  destruct (Spec.step s p) as [b s'] eqn:E.
  specialize (IH s'). destruct (spec_verdicts s' frames) as [bs s'']. simpl in *.
  intros [Hin|Hin]%IH; [|set_solver].
  unfold Spec.step in E. destruct (Spec.fresh s p); simplify_eq; set_solver.
Qed.

Lemma spec_verdicts_app a b s :
  spec_verdicts s (a ++ b) =
  ((spec_verdicts s a).1 ++ (spec_verdicts (spec_verdicts s a).2 b).1,
   (spec_verdicts (spec_verdicts s a).2 b).2).
Proof.
  revert s. induction a as [|q a IH]; intros s; simpl; [by destruct spec_verdicts|].
  destruct (Spec.step s q) as [v s']. rewrite IH.
  destruct (spec_verdicts s' a) as [vs s'']. simpl. by destruct spec_verdicts.
Qed.

Lemma spec_verdicts_wf frames s : spec_wf s → spec_wf (spec_verdicts s frames).2.
Proof.
  revert s. induction frames as [|q frames IH]; intros s Hwf; [done|]. simpl.
  pose proof (step_wf s q Hwf) as Hs. destruct (Spec.step s q) as [b s']. simpl in Hs.
  specialize (IH s' Hs). by destruct (spec_verdicts s' frames).
Qed.

Lemma length_spec_verdicts frames s : length (spec_verdicts s frames).1 = length frames.
Proof.
  revert s. induction frames as [|q frames IH]; intros s; [done|]. simpl.
  destruct (Spec.step s q) as [b s']. specialize (IH s').
  destruct (spec_verdicts s' frames). simpl in *. congruence.
Qed.

Lemma empty_wf : spec_wf Spec.empty.
Proof. by split. Qed.

(** A sequence not seen yet and less than a window behind all earlier ones is kept. *)
Lemma kept_in_window pre q post :
  q ∉ pre → (∀ p, p ∈ pre → p < q + WINDOW) →
  q ∈ kept (pre ++ q :: post) (spec_verdicts Spec.empty (pre ++ q :: post)).1.
Proof.
  intros Hnew Hwin. rewrite spec_verdicts_app. cbn [fst]. unfold kept.
  rewrite zip_with_app by (symmetry; apply length_spec_verdicts).
  rewrite bind_app. apply elem_of_app. right. simpl.
  set (s := (spec_verdicts Spec.empty pre).2).
  assert (Spec.fresh s q = true) as Hf.
  { unfold Spec.fresh. destruct (Spec.top s) as [h|] eqn:E; [|done].
    assert (∀ t, t ∈ Spec.accepted s → t ∈ pre) as Hs.
    { intros t Ht. destruct (spec_accepted_seen pre Spec.empty t Ht) as [|]; [set_solver|done]. }
    destruct (spec_verdicts_wf pre _ empty_wf) as [_ Ht]. destruct (Ht h E) as [Hh _].
    specialize (Hwin h (Hs h Hh)). apply andb_true_iff. split; [apply Z.ltb_lt; lia|].
    apply bool_decide_eq_true. intros Hin%Hs. done. }
  unfold Spec.step. rewrite Hf. simpl.
  destruct (spec_verdicts _ post). simpl. set_solver.
Qed.

(** ** Properties *)

(** C20. The 1 KiB circular bitmap is exactly the set of admitted sequences: on
    every run of frames the window gives the verdicts of the specification, which
    admits a sequence when it was not admitted before and is less than [WINDOW]
    behind the newest one. *)
Theorem window_refines_set frames (Hf : Forall (λ q, 0 <= q) frames) :
  (verdicts default_window frames).1 = (spec_verdicts Spec.empty frames).1.
Proof. by apply verdicts_represents; [apply represents_default|]. Qed.

Lemma window_refines_set_witness :
  (verdicts default_window [5; 9000; 5; 900; 9000; 8999]).1
  = (spec_verdicts Spec.empty [5; 9000; 5; 900; 9000; 8999]).1.
Proof. apply window_refines_set. repeat constructor; lia. Defined.

(** No sequence is admitted twice, and no frame is lost to reordering: the
    first copy of a sequence is admitted unless a frame [WINDOW] or more ahead
    arrived before it. *)
Theorem admits_first_copy_only frames (Hf : Forall (λ q, 0 <= q) frames) :
  NoDup (admitted frames) ∧
  ∀ pre q post, frames = pre ++ q :: post → q ∉ pre →
    (∀ p, p ∈ pre → p < q + WINDOW) → q ∈ admitted frames.
Proof.
  unfold admitted. destruct (verdicts_represents frames _ _ represents_default Hf) as [-> _].
  split; [apply (kept_fresh frames _ empty_wf)|].
  intros pre q post -> Hnew Hwin. by apply kept_in_window.
Qed.

Lemma admits_first_copy_only_witness :
  NoDup (admitted [7; 3; 7; 8000]) ∧
  ∀ pre q post, [7; 3; 7; 8000] = pre ++ q :: post → q ∉ pre →
    (∀ p, p ∈ pre → p < q + WINDOW) → q ∈ admitted [7; 3; 7; 8000].
Proof. apply admits_first_copy_only. repeat constructor; lia. Defined.

(** [would_accept] predicts [accept] and consumes nothing: in every state a
    run of frames leads to, it answers whether the sequence is new and inside the
    window, [is_too_old] whether it fell out of it, and a rejected frame leaves
    the window unchanged. *)
Theorem would_accept_predicts frames q (Hf : Forall (λ q, 0 <= q) frames) (Hq : 0 <= q) :
  let w := (verdicts default_window frames).2 in
  (accept w q).1 = would_accept w q ∧
  (would_accept w q = true ↔
     is_too_old w q = false ∧ q ∉ Spec.accepted (spec_verdicts Spec.empty frames).2) ∧
  (would_accept w q = false → (accept w q).2 = w).
Proof.
  destruct (verdicts_represents frames _ _ represents_default Hf) as [_ Hrep].
  set (w := (verdicts _ _).2) in *. set (s := (spec_verdicts _ _).2) in *. cbn zeta.
  pose proof (accept_would_accept w q) as Ha.
  split_and!; [done| |intros; apply rejected_unchanged; congruence].
  rewrite (would_accept_fresh w s q Hrep Hq). destruct Hrep as [_ Hi _ Ht Hn _ _].
  unfold Spec.fresh, is_too_old. destruct (Spec.top s) as [h|]; rewrite Hi; simpl.
  - destruct (Ht h eq_refl) as (-> & Hh & _). unfold sat_sub, WINDOW.
    rewrite andb_true_iff, bool_decide_eq_true, Z.ltb_lt, Z.leb_gt. intuition lia.
  - rewrite Hn by done. set_solver.
Qed.

Lemma would_accept_predicts_witness :
  (accept (verdicts default_window [3; 10000]).2 3).1
    = would_accept (verdicts default_window [3; 10000]).2 3 ∧
  (would_accept (verdicts default_window [3; 10000]).2 3 = true ↔
     is_too_old (verdicts default_window [3; 10000]).2 3 = false ∧
     3 ∉ Spec.accepted (spec_verdicts Spec.empty [3; 10000]).2) ∧
  (would_accept (verdicts default_window [3; 10000]).2 3 = false →
     (accept (verdicts default_window [3; 10000]).2 3).2 = (verdicts default_window [3; 10000]).2).
Proof. apply would_accept_predicts; [repeat constructor|]; lia. Defined.
