(* ===== verification/FecPolicy.v ===== *)
(** * Choosing the repair group size

    Models the first half of [engine/src/fec.rs]: [group_size_for], the
    [MultipathPolicy] that shrinks and regrows the multipath group with a
    hysteresis in loss and in time, and the [ProbeHistory] bit window it reads.
    Loss ratios are binary64 numbers ([Float64]). *)
From S2P Require Import Prelude Float64.

Definition MAX_GROUP : Z := 4.
Definition MULTIPATH_GROUP : Z := 4.
Definition LOSSY_MULTIPATH_GROUP : Z := 2.
Definition SINGLE_PATH_GROUP : Z := 1.
Definition LOSSY_PATH_LOSS : f64 := ratio 10 100.
Definition RECOVERED_PATH_LOSS : f64 := ratio 4 100.
Definition LOSSY_AFTER : Z := secs 10.
Definition RECOVERED_AFTER : Z := secs 60.

Definition group_size_for (healthy_paths multipath_group : Z) : Z :=
  if 2 <=? healthy_paths then multipath_group else SINGLE_PATH_GROUP.

(** ** MultipathPolicy *)

Record MultipathPolicy : Type := mk_policy {
  lossy : bool;
  crossing_since : option Z
}.

Definition default_policy : MultipathPolicy := mk_policy false None.

Definition group (p : MultipathPolicy) : Z :=
  if lossy p then LOSSY_MULTIPATH_GROUP else MULTIPATH_GROUP.

Definition observe (p : MultipathPolicy) (best_loss : f64) (now : Z) : Z * MultipathPolicy :=
  let crossing := if lossy p then flt best_loss RECOVERED_PATH_LOSS
                  else fle LOSSY_PATH_LOSS best_loss in
  if negb crossing then
    let p := mk_policy (lossy p) None in (group p, p)
  else
    let start := default now (crossing_since p) in
    let hold := if lossy p then RECOVERED_AFTER else LOSSY_AFTER in
    let p := if hold <=? since now start
             then mk_policy (negb (lossy p)) None
             else mk_policy (lossy p) (Some start) in
    (group p, p).

Definition interrupt (p : MultipathPolicy) : MultipathPolicy := mk_policy (lossy p) None.

(** ** ProbeHistory *)

Definition LOSS_WINDOW : Z := 60.
Definition MIN_LOSS_SAMPLES : Z := 30.

Record ProbeHistory : Type := mk_history {
  lost : Z;
  samples : Z
}.

Definition default_history : ProbeHistory := mk_history 0 0.

Definition record (h : ProbeHistory) (is_lost : bool) : ProbeHistory :=
  let window := Z.shiftr u64_max (64 - LOSS_WINDOW) in
  mk_history (Z.land (Z.lor (wrap64 (Z.shiftl (lost h) 1)) (Z.b2z is_lost)) window)
             (Z.min (samples h + 1) LOSS_WINDOW).

(** The [while] loop: it runs at most [samples] times. *)
Fixpoint forget_loop (fuel : nat) (h : ProbeHistory) : ProbeHistory :=
  match fuel with
  | O => h
  | S fuel' =>
      if (0 <? samples h) && (Z.land (lost h) 1 =? 1)
      then forget_loop fuel' (mk_history (Z.shiftr (lost h) 1) (samples h - 1))
      else h
  end.
Definition forget_outage (h : ProbeHistory) : ProbeHistory :=
  forget_loop (Z.to_nat (samples h)) h.

(** [u64::count_ones]. *)
Fixpoint pos_ones (p : positive) : Z :=
  match p with
  | xH => 1
  | xO p' => pos_ones p'
  | xI p' => 1 + pos_ones p'
  end.
Definition count_ones (z : Z) : Z := match z with Zpos p => pos_ones p | _ => 0 end.

Definition loss (h : ProbeHistory) : option f64 :=
  if MIN_LOSS_SAMPLES <=? samples h
  then Some (fdiv (of_int (count_ones (lost h))) (of_int (samples h)))
  else None.

(** ** Specification of the history: the outcomes, newest first *)

Fixpoint of_bits (l : list bool) : Z :=
  match l with [] => 0 | b :: l' => 2 * of_bits l' + Z.b2z b end.

Fixpoint drop_losses (l : list bool) : list bool :=
  match l with true :: l' => drop_losses l' | _ => l end.

Definition losses (l : list bool) : Z := zlen (filter (λ b, b = true) l).

(** What one probe does to a path's history. *)
Inductive outcome : Type := Recorded (is_lost : bool) | Outage.

Definition history_step (h : ProbeHistory) (o : outcome) : ProbeHistory :=
  match o with Recorded b => record h b | Outage => forget_outage h end.
Definition outcomes_step (l : list bool) (o : outcome) : list bool :=
  match o with Recorded b => take 60 (b :: l) | Outage => drop_losses l end.

Definition holds (h : ProbeHistory) (l : list bool) : Prop :=
  lost h = of_bits l ∧ samples h = zlen l ∧ zlen l <= LOSS_WINDOW.

(** ** Runs of the policy *)

Inductive observation : Type := Observe (best_loss : f64) (now : Z) | Interrupt.

Definition policy_step (p : MultipathPolicy) (o : observation) : MultipathPolicy :=
  match o with Observe l now => (observe p l now).2 | Interrupt => interrupt p end.

Definition policy_run : MultipathPolicy → list observation → MultipathPolicy := foldl policy_step.

(** An observation that argues for leaving the state [lossy_now]. *)
Definition crosses (lossy_now : bool) (o : observation) : Prop :=
  match o with
  | Observe l _ => (if lossy_now then flt l RECOVERED_PATH_LOSS else fle LOSSY_PATH_LOSS l) = true
  | Interrupt => False
  end.

Definition hold (lossy_now : bool) : Z := if lossy_now then RECOVERED_AFTER else LOSSY_AFTER.

(** ** Proofs *)

Lemma of_bits_bound l : 0 <= of_bits l < 2 ^ zlen l.
Proof.
  induction l as [|b l IH]; [done|]. cbn [of_bits].
  rewrite zlen_cons, Z.pow_add_r, Z.pow_1_r by (pose proof (zlen_nonneg l); lia).
  destruct b; simpl; lia.
Qed.

Lemma of_bits_take n l : of_bits l mod 2 ^ Z.of_nat n = of_bits (take n l).
Proof.
  revert l. induction n as [|n IH]; intros l; [by rewrite Z.mod_1_r|].
  destruct l as [|b l]; cbn [of_bits take]; [by rewrite Z.mod_0_l by lia|].
  rewrite <-IH. replace (Z.of_nat (S n)) with (1 + Z.of_nat n) by lia.
  rewrite Z.pow_add_r, Z.pow_1_r by lia.
  rewrite Z.rem_mul_r by lia.
  assert ((2 * of_bits l + Z.b2z b) / 2 = of_bits l ∧ (2 * of_bits l + Z.b2z b) mod 2 = Z.b2z b)
    as [-> ->]; [|lia].
  split; symmetry; [apply (Z.div_unique _ _ _ (Z.b2z b))|apply (Z.mod_unique _ _ (of_bits l))];
    destruct b; simpl; lia.
Qed.

Lemma record_holds h l b : holds h l → holds (record h b) (take 60 (b :: l)).
Proof.
  intros (Hl & Hs & Hlen). unfold record. cbn [lost samples]. split_and!; cbn [lost samples].
  - change (Z.shiftr u64_max (64 - LOSS_WINDOW)) with (Z.ones 60).
    rewrite Z.land_ones by lia. change (2 ^ 60) with (2 ^ Z.of_nat 60).
    rewrite <-of_bits_take. f_equal. rewrite Hl.
    pose proof (of_bits_bound l) as Hb.
    assert (2 ^ zlen l <= 2 ^ 60) as Hp by (apply Z.pow_le_mono_r; [lia|exact Hlen]).
    change (2 ^ 60) with 1152921504606846976 in Hp.
    unfold wrap64. change (2 ^ 64) with 18446744073709551616.
    rewrite Z.shiftl_mul_pow2, Z.pow_1_r, Z.mod_small by lia. cbn [of_bits].
    rewrite <-Z.add_lor_land, (Z.mul_comm _ 2).
    replace (Z.land (2 * of_bits l) (Z.b2z b)) with 0; [lia|].
    symmetry. apply Z.bits_inj'. intros n Hn. rewrite Z.land_spec, Z.bits_0.
    destruct (decide (n = 0)) as [->|]; [by rewrite Z.testbit_even_0|].
    destruct b; cbn [Z.b2z]; [|by rewrite Z.bits_0, andb_false_r].
    rewrite (bits_high 1 1 n) by lia. by rewrite andb_false_r.
  - rewrite Hs. unfold zlen, LOSS_WINDOW in *. rewrite length_take. cbn [length]. lia.
  - unfold zlen, LOSS_WINDOW. rewrite length_take. lia.
Qed.

Lemma of_bits_odd b l : Z.land (of_bits (b :: l)) 1 = Z.b2z b.
Proof.
  change 1 with (Z.ones 1). rewrite Z.land_ones by lia. cbn [of_bits].
  rewrite Z.add_comm, Z.mul_comm, Z.mod_add by lia. by destruct b.
Qed.

Lemma forget_holds h l : holds h l → holds (forget_outage h) (drop_losses l).
Proof.
  unfold forget_outage. intros Hh. assert (Hf : Z.to_nat (samples h) = length l).
  { destruct Hh as (_ & -> & _). unfold zlen. lia. }
  revert h Hh Hf. induction l as [|b l IH]; intros h Hh Hf; rewrite Hf; cbn [length forget_loop].
  - done.
  - destruct Hh as (Hl & Hs & Hlen). rewrite Hl, Hs, of_bits_odd, zlen_cons.
    destruct (Z.ltb_spec 0 (zlen l + 1)); [|pose proof (zlen_nonneg l); lia].
    destruct b; cbn [Z.b2z andb drop_losses]; [|rewrite <-zlen_cons with (x := false); by split_and!].
    cbn [Z.eqb Pos.eqb]. rewrite zlen_cons in Hlen.
    set (h' := mk_history (Z.shiftr (of_bits (true :: l)) 1) (zlen l + 1 - 1)).
    assert (Hn : Z.to_nat (samples h') = length l) by (subst h'; cbn [samples]; unfold zlen; lia).
    assert (Hh' : holds h' l).
    { split_and!; subst h'; cbn [lost samples]; [|lia|unfold LOSS_WINDOW in *; lia].
      rewrite Z.shiftr_div_pow2 by lia. cbn [of_bits Z.b2z]. rewrite Z.pow_1_r.
      symmetry. apply (Z.div_unique _ _ _ 1); lia. }
    specialize (IH h' Hh' Hn). by rewrite Hn in IH.
Qed.

Lemma count_ones_double z b : 0 <= z → count_ones (2 * z + Z.b2z b) = count_ones z + Z.b2z b.
Proof. destruct z, b; simpl; rewrite ?Pos.mul_1_l; lia. Qed.

Lemma count_ones_of_bits l : count_ones (of_bits l) = losses l.
Proof.
  induction l as [|b l IH]; [done|]. cbn [of_bits].
  rewrite count_ones_double, IH by apply of_bits_bound. unfold losses. rewrite filter_cons.
  destruct b; [rewrite decide_True by done|rewrite decide_False by done]; cbn [Z.b2z]; len.
Qed.

Lemma losses_le l : 0 <= losses l <= zlen l.
Proof. unfold losses, zlen. split; [lia|]. pose proof (length_filter (λ b, b = true) l). lia. Qed.

Lemma thresholds_exact :
  all_ratios 30 60 (λ n d,
    Bool.eqb (fle LOSSY_PATH_LOSS (ratio n d)) (d <=? 10 * n)
    && Bool.eqb (flt (ratio n d) RECOVERED_PATH_LOSS) (25 * n <? d)) = true.
Proof. vm_compute. reflexivity. Qed.

Lemma history_refines os h l :
  holds h l → holds (foldl history_step h os) (foldl outcomes_step l os).
Proof.
  revert h l. induction os as [|o os IH]; intros h l Hh; [done|]. simpl. apply IH.
  destruct o; [by apply record_holds|by apply forget_holds].
Qed.

(** The observations that argue for a change, since the clock of [p] started. *)
Definition clocked (p : MultipathPolicy) (evs : list observation) : Prop :=
  ∀ t, crossing_since p = Some t →
  ∃ pre l mid, evs = pre ++ Observe l t :: mid ∧
    Forall (crosses (lossy p)) (Observe l t :: mid).

Lemma policy_run_app p evs o : policy_run p (evs ++ [o]) = policy_step (policy_run p evs) o.
Proof. unfold policy_run. by rewrite foldl_app. Qed.

Lemma observe_cases p l now :
  (crosses (lossy p) (Observe l now) ∧
     let start := default now (crossing_since p) in
     if hold (lossy p) <=? since now start
     then (observe p l now).2 = mk_policy (negb (lossy p)) None
     else (observe p l now).2 = mk_policy (lossy p) (Some start)) ∨
  (¬ crosses (lossy p) (Observe l now) ∧ (observe p l now).2 = mk_policy (lossy p) None).
Proof.
  unfold observe, crosses, hold. destruct (if lossy p then flt _ _ else fle _ _) eqn:E; simpl.
  - left. split; [done|]. by destruct (_ <=? _).
  - right. done.
Qed.

Lemma run_clocked evs : clocked (policy_run default_policy evs) evs.
Proof.
  induction evs as [|o evs IH] using rev_ind; [done|].
  rewrite policy_run_app. set (p := policy_run default_policy evs) in *.
  destruct o as [l now|]; [|done]. simpl.
  destruct (observe_cases p l now) as [[Hc Hs]|[_ ->]]; [|done]. cbn zeta in Hs.
  case_match; rewrite Hs; [done|]. intros t. cbn [crossing_since lossy].
  destruct (crossing_since p) as [t'|] eqn:E; intros [= <-].
  - destruct (IH t' E) as (pre & l0 & mid & -> & Hf).
    exists pre, l0, (mid ++ [Observe l now]). rewrite <-app_assoc. split; [done|].
    rewrite app_comm_cons. apply Forall_app. by split; [|constructor].
  - exists evs, l, []. split; [done|]. by constructor.
Qed.

Lemma flip_reason evs l now p :
  p = policy_run default_policy evs → lossy (observe p l now).2 ≠ lossy p →
  ∃ pre l0 t0 mid, evs ++ [Observe l now] = pre ++ Observe l0 t0 :: mid ∧
    Forall (crosses (lossy p)) (Observe l0 t0 :: mid) ∧ hold (lossy p) <= since now t0.
Proof.
  intros -> Hne. pose proof (run_clocked evs) as Hclk.
  set (p := policy_run _ _) in *.
  destruct (observe_cases p l now) as [[Hc Hs]|[_ Hs]]; [|by rewrite Hs in Hne].
  cbn zeta in Hs. destruct (Z.leb_spec (hold (lossy p)) (since now (default now (crossing_since p))))
    as [Hle|]; [|by rewrite Hs in Hne].
  destruct (crossing_since p) as [t|] eqn:E; simpl in Hle.
  - destruct (Hclk t E) as (pre & l0 & mid & -> & Hf).
    exists pre, l0, t, (mid ++ [Observe l now]). rewrite <-app_assoc. split_and!; [done| |done].
    rewrite app_comm_cons. apply Forall_app. by split; [|constructor].
  - exists evs, l, now, []. split_and!; [done|by constructor|done].
Qed.

(** A spell of crossing observations that lasts the hold changes the size. *)
Lemma spell_flips p l0 t0 spell l now :
  Forall (crosses (lossy p)) (Observe l0 t0 :: spell ++ [Observe l now]) →
  hold (lossy p) <= now - t0 → (∀ t, crossing_since p = Some t → t <= t0) →
  ∃ k, lossy (policy_run p (take k (Observe l0 t0 :: spell ++ [Observe l now]))) ≠ lossy p.
Proof.
  intros Hf Hhold Hclk.
  assert (∀ q evs, lossy q = lossy p → (∃ t, crossing_since q = Some t ∧ t <= t0) →
            Forall (crosses (lossy p)) (evs ++ [Observe l now]) →
            ∃ k, lossy (policy_run q (take k (evs ++ [Observe l now]))) ≠ lossy p) as Hspell.
  { intros q evs. revert q. induction evs as [|o evs IH]; intros q Hq (t & Ht & Hle) Hfe.
    - exists 1%nat. simpl. apply Forall_cons in Hfe as [Ho _]. rewrite <-Hq in Ho.
      destruct (observe_cases q l now) as [[_ Hs]|[Hn _]]; [|done].
      rewrite Ht in Hs. cbn zeta in Hs. simpl in Hs. rewrite Hq in Hs.
      rewrite (proj2 (Z.leb_le _ _)) in Hs by (unfold since; lia).
      rewrite Hs. simpl. by destruct (lossy p).
    - simpl in Hfe. apply Forall_cons in Hfe as [Ho Hfe]. destruct o as [l' n'|]; [|done].
      pose proof Ho as Ho'. rewrite <-Hq in Ho'.
      destruct (observe_cases q l' n') as [[_ Hs]|[Hn _]]; [|done].
      rewrite Ht in Hs. cbn zeta in Hs. simpl in Hs. case_match.
      + exists 1%nat. simpl. rewrite Hs, Hq. simpl. by destruct (lossy p).
      + destruct (IH (observe q l' n').2) as [k Hk]; [by rewrite Hs| |done|].
        * rewrite Hs. eauto.
        * exists (S k). done. }
  apply Forall_cons in Hf as [Ho Hf].
  destruct (observe_cases p l0 t0) as [[_ Hs]|[Hn _]]; [|done]. cbn zeta in Hs. case_match.
  - exists 1%nat. simpl. rewrite Hs. simpl. by destruct (lossy p).
  - destruct (Hspell (observe p l0 t0).2 spell) as [k Hk]; [by rewrite Hs| |done|by exists (S k)].
    rewrite Hs. simpl. destruct (crossing_since p) as [t|] eqn:E; simpl; eauto with lia.
Qed.

(** ** Properties *)

(** The bit window is the list of the last sixty probe outcomes, outages
    taken out, and the floating-point loss it reports crosses the two thresholds
    of the policy exactly where the rational loss does: at or above one in ten,
    below one in twenty-five. *)
Theorem history_counts_losses os :
  let l := foldl outcomes_step [] os in
  match loss (foldl history_step default_history os) with
  | None => zlen l < 30
  | Some f => 30 <= zlen l <= 60 ∧
      (fle LOSSY_PATH_LOSS f = true ↔ zlen l <= 10 * losses l) ∧
      (flt f RECOVERED_PATH_LOSS = true ↔ 25 * losses l < zlen l)
  end.
Proof.
  cbn zeta. destruct (history_refines os default_history []) as (Hl & Hs & Hlen); [by split_and!|].
  unfold loss. rewrite Hl, Hs, count_ones_of_bits. set (l := foldl outcomes_step [] os) in *.
  unfold MIN_LOSS_SAMPLES, LOSS_WINDOW in *. destruct (Z.leb_spec 30 (zlen l)); [|done].
  pose proof (all_ratios_spec _ _ _ (losses l) (zlen l) thresholds_exact) as Hr. cbn beta in Hr.
  specialize (Hr ltac:(lia) (losses_le l)). apply andb_true_iff in Hr as [H1 H2].
  apply eqb_prop in H1, H2. fold (ratio (losses l) (zlen l)). rewrite H1, H2.
  split_and!; [lia..| |]; [apply Z.leb_le|apply Z.ltb_lt].
Qed.

(** The group size has hysteresis in loss and in time. Whenever an
    observation changes it, an unbroken spell of observations, all past the
    threshold that argues for the change and no interruption among them, began
    at least the hold time earlier; and such a spell always changes it. *)
Theorem group_change_needs_spell evs l now :
  let p := policy_run default_policy evs in
  (lossy (observe p l now).2 ≠ lossy p →
   ∃ pre l0 t0 mid, evs ++ [Observe l now] = pre ++ Observe l0 t0 :: mid ∧
     Forall (crosses (lossy p)) (Observe l0 t0 :: mid) ∧ hold (lossy p) <= since now t0) ∧
  (∀ l0 t0 spell, (∀ t, crossing_since p = Some t → t <= t0) →
   Forall (crosses (lossy p)) (Observe l0 t0 :: spell ++ [Observe l now]) →
   hold (lossy p) <= now - t0 →
   ∃ k, lossy (policy_run p (take k (Observe l0 t0 :: spell ++ [Observe l now]))) ≠ lossy p).
Proof. split; intros; [by apply flip_reason|by apply spell_flips]. Qed.

Lemma group_change_needs_spell_witness :
  (∃ pre l0 t0 mid,
    [Observe (ratio 1 2) (secs 1)] ++ [Observe (ratio 1 3) (secs 12)] = pre ++ Observe l0 t0 :: mid ∧
    Forall (crosses false) (Observe l0 t0 :: mid) ∧ hold false <= since (secs 12) t0) ∧
  (∃ k, lossy (policy_run default_policy
    (take k (Observe (ratio 1 2) (secs 1) :: [] ++ [Observe (ratio 1 3) (secs 12)]))) ≠ false).
Proof.
  split.
  - apply (group_change_needs_spell [Observe (ratio 1 2) (secs 1)] (ratio 1 3) (secs 12)).
    vm_compute. discriminate.
  - apply (group_change_needs_spell [] (ratio 1 3) (secs 12)); [done| |done].
    repeat constructor.
Defined.
