(* ===== verification/Fec.v ===== *)
(** * Loss repair codec

    Models the codec of [engine/src/fec.rs]: offers and acceptances, the
    [Encoder] that turns the packets sent into XOR repairs of groups of at most
    four, and the [Decoder] that rebuilds the one lost member of a group. The
    choice of the group size is in [FecPolicy]. *)
From Stdlib Require Import Sorting.Sorted.
From S2P Require Import Prelude FecPolicy.

Definition GROUP_MAX_AGE : Z := ms 5.
Definition VERSION : Z := 1.
Definition MAX_SPAN : Z := 255.
Definition REPAIR_HEADER_MAX : Z := 1 + 8 + 1 + (MAX_GROUP - 1) + 2.
Definition LENGTH_PREFIX : Z := 2.
Definition RECENT_CAPACITY : Z := 512.
Definition PENDING_CAPACITY : Z := 32.
Definition PENDING_MAX_AGE : Z := ms 500.
Definition OFFER : list byte := str "fecq".
Definition ACCEPT : list byte := str "feca".

(** ** Offers *)

Record Offer : Type := mk_offer {
  offer_group : Z;
  offer_mtu : Z
}.

Definition control (tag : list byte) (group_size : Z) : list byte :=
  tag ++ [z2b VERSION; z2b group_size].

Definition offer (o : Offer) : list byte :=
  control OFFER (offer_group o) ++ be_bytes 2 (offer_mtu o).

Definition accept (group_size : Z) : list byte := control ACCEPT group_size.

Definition CONTROL_LEN : Z := 6.

Definition parse_control (tag payload : list byte) : option Z :=
  match payload with
  | [a; b; c; d; version; group] =>
      if bool_decide ([a; b; c; d] = tag) && (b2z version =? VERSION)
         && (1 <=? b2z group) && (b2z group <=? MAX_GROUP)
      then Some (b2z group) else None
  | _ => None
  end.

Definition parse_offer (payload : list byte) : option Offer :=
  if zlen payload <? CONTROL_LEN then None else
  let head := sub payload 0 CONTROL_LEN in
  let mtu := sub payload CONTROL_LEN (zlen payload) in
  if negb (zlen mtu =? 2) then None else
  g ← parse_control OFFER head; Some (mk_offer g (be_Z mtu)).

Definition accepted_group (payload : list byte) : option Z := parse_control ACCEPT payload.

(** ** Parity *)

(** [for (byte, source) in parity.iter_mut().zip(packet) { *byte ^= source }]. *)
Fixpoint xor_into (parity source : list byte) : list byte :=
  match parity, source with
  | a :: parity', b :: source' => bxor a b :: xor_into parity' source'
  | _, _ => parity
  end.

Definition xor_member (parity packet : list byte) : list byte :=
  let needed := LENGTH_PREFIX + zlen packet in
  let parity := if zlen parity <? needed
                then parity ++ replicate (Z.to_nat (needed - zlen parity)) x00
                else parity in
  let length := be_bytes 2 (zlen packet) in
  xor_into (sub parity 0 LENGTH_PREFIX) length
  ++ xor_into (sub parity LENGTH_PREFIX (zlen parity)) packet.

(** ** Encoder *)

Module Encoder.

Record t : Type := mk {
  group_size : Z;
  max_packet : Z;
  base : Z;
  offsets : list byte;
  count : Z;
  parity : list byte;
  opened_at : option Z
}.

Definition new (group_size max_packet : Z) : t :=
  mk (clamp group_size 1 MAX_GROUP) (Z.min max_packet u16_max) 0
     (replicate (Z.to_nat MAX_GROUP) x00) 0 [] None.

Definition set_max_packet (e : t) (max_packet : Z) : t :=
  mk (group_size e) (Z.min max_packet u16_max) (base e) (offsets e) (count e) (parity e)
     (opened_at e).

Definition deadline (e : t) : option Z := (λ opened, opened + GROUP_MAX_AGE) <$> opened_at e.

Definition expired (e : t) (now : Z) : bool :=
  match deadline e with Some d => d <=? now | None => false end.

Definition close (e : t) : run (option (list byte) * t) :=
  if count e =? 0 then Ret (None, e) else
  further ← slice (offsets e) 1 (count e);
  Ret (Some ([z2b VERSION] ++ be_bytes 8 (base e) ++ [z2b (count e)] ++ further ++ parity e),
       mk (group_size e) (max_packet e) (base e) (offsets e) 0 [] None).

Definition set_group_size (e : t) (requested : Z) : run (option (list byte) * t) :=
  let requested := clamp requested 1 MAX_GROUP in
  if requested =? group_size e then Ret (None, e) else
  close (mk requested (max_packet e) (base e) (offsets e) (count e) (parity e) (opened_at e)).

Definition can_join (e : t) (sequence now : Z) : run bool :=
  offset ← idx (offsets e) (count e - 1);
  let last := base e + b2z offset in
  Ret ((count e <? group_size e) && (last <? sequence) && (sequence - base e <=? MAX_SPAN)
       && negb (expired e now)).

(** The end of [push], once the packet has a group to go to. *)
Definition append (e : t) (sequence : Z) (packet : list byte) (now : Z) : run t :=
  let e := if count e =? 0
           then mk (group_size e) (max_packet e) sequence (offsets e) (count e) (parity e) (Some now)
           else e in
  offsets ← copy_at (offsets e) (count e) [z2b (sequence - base e)];
  Ret (mk (group_size e) (max_packet e) (base e) offsets (count e + 1)
          (xor_member (parity e) packet) (opened_at e)).

Definition push (e : t) (sequence : Z) (packet : list byte) (now : Z)
    : run (option (list byte) * t) :=
  if (zlen packet =? 0) || (max_packet e <? zlen packet) then Ret (None, e) else
  '(closed, e) ← (if 0 <? count e
                  then joins ← can_join e sequence now;
                       if joins : bool then Ret (None, e) else close e
                  else Ret (None, e));
  e ← append e sequence packet now;
  Ret (closed, e).

Definition flush_due (e : t) (now : Z) : run (option (list byte) * t) :=
  if expired e now then close e else Ret (None, e).

End Encoder.

(** ** Repairs and the decoder *)

Module Repair.

Record t : Type := mk {
  slots : list Z;
  count : Z;
  parity : list byte;
  received_at : Z
}.

(** The loop over the offsets; [index] stays below [MAX_GROUP]. *)
Fixpoint read_members (base : Z) (offsets : list byte) (index : nat) (members : list Z)
    : option (list Z) :=
  match offsets with
  | [] => Some members
  | offset :: offsets' =>
      let member := base + b2z offset in
      if u64_max <? member then None
      else if member <=? default 0 (members !! index) then None
      else read_members base offsets' (S index) (<[S index := member]> members)
  end.

Definition parse (payload : list byte) (now : Z) : option t :=
  match payload with
  | [] => None
  | version :: rest =>
      if negb (b2z version =? VERSION) || (zlen rest <? 9) then None else
      let base := be_Z (sub rest 0 8) in
      let count := nz rest 8 in
      if (count =? 0) || (MAX_GROUP <? count) then None else
      offsets ← get_range rest 9 (9 + count - 1);
      parity ← get_range rest (9 + count - 1) (zlen rest);
      if zlen parity <=? LENGTH_PREFIX then None else
      members ← read_members base offsets 0 (base :: replicate (Z.to_nat MAX_GROUP - 1) 0);
      Some (mk members count parity now)
  end.

Definition members (r : t) : list Z := take (Z.to_nat (count r)) (slots r).

Definition missing (r : t) (delivered : Z → bool) : Z :=
  zlen (filter (λ m, delivered m = false) (members r)).

End Repair.

Module Decoder.

Record t : Type := mk {
  recent : list (Z * list byte);
  pending : list Repair.t;
  storing : bool;
  repairs_received : Z;
  unrecoverable : Z
}.

Definition empty : t := mk [] [] false 0 0.

Definition with_recent (d : t) (recent : list (Z * list byte)) : t :=
  mk recent (pending d) (storing d) (repairs_received d) (unrecoverable d).

Definition remember (d : t) (sequence : Z) (packet : list byte) : run t :=
  if negb (storing d) then Ret d else
  let recent := if bool_decide (recent d = [])
                then replicate (Z.to_nat RECENT_CAPACITY) (0, []) else recent d in
  recent ← copy_at recent (sequence mod RECENT_CAPACITY) [(sequence, packet)];
  Ret (with_recent d recent).

Definition stored (d : t) (sequence : Z) : option (list byte) :=
  '(stored, packet) ← get (recent d) (sequence mod RECENT_CAPACITY);
  if (stored =? sequence) && negb (zlen packet =? 0) then Some packet else None.

(** XORs the members that did arrive into the parity. *)
Fixpoint fold_members (d : t) (lost : Z) (members : list Z) (parity : list byte)
    : option (list byte) :=
  match members with
  | [] => Some parity
  | member :: members' =>
      if member =? lost then fold_members d lost members' parity else
      packet ← stored d member;
      if zlen parity <? LENGTH_PREFIX + zlen packet then None
      else fold_members d lost members' (xor_member parity packet)
  end.

Definition rebuild (d : t) (r : Repair.t) (lost : Z) : option (list byte) :=
  parity ← fold_members d lost (Repair.members r) (Repair.parity r);
  let length := be_Z [default x00 (get parity 0); default x00 (get parity 1)] in
  if (length =? 0) || (zlen parity <? LENGTH_PREFIX + length) then None
  else Some (sub parity LENGTH_PREFIX (LENGTH_PREFIX + length)).

Definition abandon (d : t) : t :=
  mk (recent d) (pending d) (storing d) (repairs_received d) (unrecoverable d + 1).

Definition resolve (d : t) (r : Repair.t) (delivered : Z → bool)
    : option (Z * list byte) * t :=
  match filter (λ m, delivered m = false) (Repair.members r) with
  | [] => (None, d)
  | lost :: [] =>
      match rebuild d r lost with
      | Some packet => (Some (lost, packet), d)
      | None => (None, abandon d)
      end
  | _ =>
      let d := if PENDING_CAPACITY <=? zlen (pending d)
               then mk (recent d) (tail (pending d)) (storing d) (repairs_received d)
                       (unrecoverable d + 1)
               else d in
      (None, mk (recent d) (pending d ++ [r]) (storing d) (repairs_received d) (unrecoverable d))
  end.

Definition accept_repair (d : t) (payload : list byte) (now : Z) (delivered : Z → bool)
    : option (Z * list byte) * t :=
  match Repair.parse payload now with
  | None => (None, d)
  | Some r =>
      resolve (mk (recent d) (pending d) (storing d || (1 <? Repair.count r))
                  (repairs_received d + 1) (unrecoverable d)) r delivered
  end.

Definition has_pending (d : t) : bool := negb (bool_decide (length (pending d) = 0%nat)).

(** [Vec::swap_remove]. *)
Definition swap_remove {A} (l : list A) (i : nat) : list A :=
  match last l with
  | Some x => removelast (<[i := x]> l)
  | None => l
  end.

Definition retry_pending (d : t) (now : Z) (delivered : Z → bool)
    : option (Z * list byte) * t :=
  let before := zlen (pending d) in
  let kept := filter (λ r, since now (Repair.received_at r) < PENDING_MAX_AGE
                           ∨ Repair.missing r delivered = 0) (pending d) in
  let unrecoverable := unrecoverable d + (before - zlen kept) in
  let waiting := filter (λ r, 0 < Repair.missing r delivered) kept in
  let d' := mk (recent d) waiting (storing d) (repairs_received d) unrecoverable in
  match list_find (λ r, Repair.missing r delivered = 1) waiting with
  | None => (None, d')
  | Some (ready, r) =>
      resolve (mk (recent d) (swap_remove waiting ready) (storing d) (repairs_received d)
                  unrecoverable) r delivered
  end.

End Decoder.

#[global] Arguments control : simpl never.

(** ** Algebra of parities

    A parity is determined by its length and its bytes, read as zero past its
    end; [xor_member] acts on both pointwise. *)

Definition byte_at (l : list byte) (i : nat) : byte := default x00 (l !! i).

(** What a packet adds to a parity. *)
Definition frame (p : list byte) : list byte := be_bytes 2 (zlen p) ++ p.

Definition xsum : list byte → byte := foldr bxor x00.

Lemma byte_at_ge l i : (length l <= i)%nat → byte_at l i = x00.
Proof. intros. unfold byte_at. by rewrite lookup_ge_None_2. Qed.

Lemma byte_at_app l k i :
  byte_at (l ++ k) i = if decide (i < length l)%nat then byte_at l i else byte_at k (i - length l).
Proof.
  unfold byte_at. case_decide.
  - by rewrite lookup_app_l.
  - by rewrite lookup_app_r by lia.
Qed.

Lemma byte_at_ext l k : length l = length k → (∀ i, byte_at l i = byte_at k i) → l = k.
Proof.
  intros Hl H. apply list_eq_same_length with (n := length k); [done..|].
  intros i x y Hi Hx Hy. specialize (H i). unfold byte_at in H. by rewrite Hx, Hy in H.
Qed.

Lemma bxor_0_r a : bxor a x00 = a.
Proof. by rewrite bxor_comm, bxor_0_l. Qed.

Lemma xsum_app a b : xsum (a ++ b) = bxor (xsum a) (xsum b).
Proof.
  induction a as [|x a IH]; simpl; [by rewrite bxor_0_l|]. by rewrite IH, bxor_assoc.
Qed.

(** The summand left after all others are XORed again. *)
Lemma xsum_cancel a x b : bxor (xsum (a ++ x :: b)) (xsum (a ++ b)) = x.
Proof.
  rewrite !xsum_app. simpl. generalize (xsum a), (xsum b). intros y z.
  rewrite (bxor_comm y (bxor x z)), !bxor_assoc, <-(bxor_assoc y y).
  by rewrite bxor_nilpotent, bxor_0_l, bxor_nilpotent, bxor_0_r.
Qed.

Lemma length_xor_into a b : length (xor_into a b) = length a.
Proof. revert b. induction a; intros [|]; simpl; auto. Qed.

Lemma xor_into_app a a' b b' :
  length a = length b → xor_into (a ++ a') (b ++ b') = xor_into a b ++ xor_into a' b'.
Proof. revert b. induction a; intros [|]; simpl; intros; simplify_eq; [done|f_equal; auto]. Qed.

Lemma byte_at_xor_into a b i :
  (length b <= length a)%nat → byte_at (xor_into a b) i = bxor (byte_at a i) (byte_at b i).
Proof.
  revert b i. induction a as [|x a IH]; intros [|y b] i; simpl; intros Hl; try lia.
  - by rewrite !byte_at_ge by (simpl; lia).
  - by rewrite (byte_at_ge []), bxor_0_r by (simpl; lia).
  - destruct i as [|i]; [done|]. apply (IH b i). lia.
Qed.

Lemma length_frame p : length (frame p) = (2 + length p)%nat.
Proof. unfold frame. by rewrite length_app, length_be_bytes. Qed.

Lemma xor_member_padded a p :
  xor_member a p = xor_into (a ++ replicate (length (frame p) - length a) x00) (frame p).
Proof.
  unfold xor_member, LENGTH_PREFIX, frame.
  set (a' := if _ <? _ then _ else _).
  assert (a' = a ++ replicate (length (frame p) - length a) x00) as ->.
  { subst a'. rewrite length_frame. unfold zlen.
    destruct (Z.ltb_spec (Z.of_nat (length a)) (2 + Z.of_nat (length p))).
    - do 2 f_equal. lia.
    - replace (2 + length p - length a)%nat with 0%nat by lia. by rewrite app_nil_r. }
  set (a' := a ++ _).
  assert (2 <= length a')%nat as Hl.
  { subst a'. rewrite length_app, length_replicate, length_frame. lia. }
  assert (a' = sub a' 0 2 ++ sub a' 2 (zlen a')) as Hs.
  { rewrite <-sub_split by (unfold zlen; lia). symmetry. apply sub_all. }
  rewrite Hs at 4. unfold frame. rewrite xor_into_app; [done|].
  rewrite length_be_bytes. pose proof (zlen_sub a' 0 2) as Hz. unfold zlen in Hz. lia.
Qed.

Lemma length_xor_member a p : length (xor_member a p) = (length a `max` length (frame p))%nat.
Proof. rewrite xor_member_padded, length_xor_into, length_app, length_replicate. lia. Qed.

Lemma byte_at_replicate n i : byte_at (replicate n x00) i = x00.
Proof.
  unfold byte_at. destruct (replicate n x00 !! i) eqn:E; [|done].
  by apply lookup_replicate in E as [-> _].
Qed.

Lemma byte_at_xor_member a p i :
  byte_at (xor_member a p) i = bxor (byte_at a i) (byte_at (frame p) i).
Proof.
  rewrite xor_member_padded, byte_at_xor_into
    by (rewrite length_app, length_replicate; lia).
  f_equal. rewrite byte_at_app. case_decide; [done|].
  by rewrite byte_at_replicate, byte_at_ge by lia.
Qed.

Lemma byte_at_xor_members ps a i :
  byte_at (foldl xor_member a ps) i = bxor (byte_at a i) (xsum ((λ p, byte_at (frame p) i) <$> ps)).
Proof.
  revert a. induction ps as [|p ps IH]; intros a; simpl; [by rewrite bxor_0_r|].
  by rewrite IH, byte_at_xor_member, bxor_assoc.
Qed.

Lemma length_xor_members ps a :
  length (foldl xor_member a ps) = foldr (λ p n, (length (frame p) `max` n)%nat) (length a) ps.
Proof.
  revert a. induction ps as [|p ps IH]; intros a; simpl; [done|].
  rewrite IH, length_xor_member. clear IH.
  revert a. induction ps as [|q ps IH]; intros a; simpl; [lia|]. rewrite IH. lia.
Qed.

Lemma length_frame_le_max ps p n :
  p ∈ ps → (length (frame p) <= foldr (λ p n, (length (frame p) `max` n)%nat) n ps)%nat.
Proof.
  induction ps as [|q ps IH]; intros Hp; [by apply elem_of_nil in Hp|].
  apply elem_of_cons in Hp as [->|Hp]; cbn [foldr]; [lia|]. specialize (IH Hp). lia.
Qed.

Lemma max_frames_le ps n :
  (∀ p, p ∈ ps → length (frame p) <= n)%nat →
  foldr (λ p n, (length (frame p) `max` n)%nat) n ps = n.
Proof.
  induction ps as [|p ps IH]; intros H; cbn [foldr]; [done|].
  rewrite IH by (intros; apply H; set_solver).
  assert (length (frame p) <= n)%nat by (apply H; set_solver). lia.
Qed.

(** A parity that agrees with the frame of [p] gives [p] back. *)
Lemma frame_read l p :
  (length (frame p) <= length l)%nat → 0 < zlen p < 2 ^ 16 →
  (∀ i, byte_at l i = byte_at (frame p) i) →
  be_Z [default x00 (get l 0); default x00 (get l 1)] = zlen p ∧
  sub l LENGTH_PREFIX (LENGTH_PREFIX + zlen p) = p.
Proof.
  intros Hl Hp Hat. split.
  - change (get l 0) with (l !! 0%nat). change (get l 1) with (l !! 1%nat).
    fold (byte_at l 0) (byte_at l 1). rewrite !Hat.
    transitivity (be_Z (be_bytes 2 (zlen p))); [done|].
    rewrite be_Z_be_bytes. apply Z.mod_small. change (256 ^ Z.of_nat 2) with (2 ^ 16). lia.
  - rewrite length_frame in Hl. unfold LENGTH_PREFIX, zlen in *.
    assert (Hlen : length (sub l 2 (2 + Z.of_nat (length p))) = length p)
      by (unfold sub; rewrite length_take, length_drop; lia).
    apply byte_at_ext; [done|]. intros i.
    destruct (decide (i < length p)%nat) as [Hi|]; [|by rewrite !byte_at_ge by lia].
    transitivity (byte_at l (2 + i)).
    + unfold byte_at, sub. rewrite lookup_take_lt, lookup_drop by lia. done.
    + rewrite Hat. unfold frame. rewrite byte_at_app, length_be_bytes.
      rewrite decide_False by lia. f_equal. lia.
Qed.

(** ** Groups: what a repair covers *)

Notation member := (Z * list byte)%type.

Definition first_of (g : list member) : Z := default 0 (head g.*1).

Definition offsets_of (base : Z) (seqs : list Z) : list byte := (λ s, z2b (s - base)) <$> seqs.

Definition parity_of (g : list member) : list byte := foldl xor_member [] g.*2.

Definition encode_group (g : list member) : list byte :=
  [z2b VERSION] ++ be_bytes 8 (first_of g) ++ [z2b (zlen g)]
  ++ offsets_of (first_of g) (tail g.*1) ++ parity_of g.

Definition member_wf (base : Z) (m : member) : Prop :=
  0 <= m.1 < 2 ^ 64 ∧ base <= m.1 <= base + MAX_SPAN ∧ 0 < zlen m.2 <= u16_max.

Record group_wf (g : list member) : Prop := {
  gw_nonempty : g ≠ [];
  gw_size : zlen g <= MAX_GROUP;
  gw_sorted : StronglySorted Z.lt g.*1;
  gw_members : Forall (member_wf (first_of g)) g
}.

(** The group that an encoder holds open. *)
Record opens (e : Encoder.t) (g : list member) : Prop := {
  op_group : 1 <= Encoder.group_size e <= MAX_GROUP;
  op_packet : Encoder.max_packet e <= u16_max;
  op_slots : zlen (Encoder.offsets e) = MAX_GROUP;
  op_count : Encoder.count e = zlen g ∧ zlen g <= Encoder.group_size e;
  op_empty : g = [] → Encoder.parity e = [] ∧ Encoder.opened_at e = None;
  op_open : g ≠ [] → group_wf g ∧ Encoder.base e = first_of g ∧
    is_Some (Encoder.opened_at e) ∧
    take (length g) (Encoder.offsets e) = offsets_of (first_of g) g.*1 ∧
    Encoder.parity e = parity_of g
}.

(** What a caller does with an encoder, and the repairs it collects. *)
Inductive encoder_op : Type :=
| Push (sequence : Z) (packet : list byte) (now : Z)
| Flush (now : Z)
| SetGroup (group_size : Z)
| SetMaxPacket (max_packet : Z).

Definition encoder_step (e : Encoder.t) (o : encoder_op) : run (option (list byte) * Encoder.t) :=
  match o with
  | Push s p now => Encoder.push e s p now
  | Flush now => Encoder.flush_due e now
  | SetGroup n => Encoder.set_group_size e n
  | SetMaxPacket n => Ret (None, Encoder.set_max_packet e n)
  end.

Fixpoint encoder_run (e : Encoder.t) (ops : list encoder_op) : run (list (list byte) * Encoder.t) :=
  match ops with
  | [] => Ret ([], e)
  | o :: ops' =>
      '(repair, e) ← encoder_step e o;
      '(repairs, e) ← encoder_run e ops';
      Ret (option_list repair ++ repairs, e)
  end.

(** The packets small enough to protect, in the order they were sent. *)
Fixpoint protected (max_packet : Z) (ops : list encoder_op) : list member :=
  match ops with
  | [] => []
  | Push s p _ :: ops' =>
      (if (zlen p =? 0) || (max_packet <? zlen p) then [] else [(s, p)])
      ++ protected max_packet ops'
  | SetMaxPacket n :: ops' => protected (Z.min n u16_max) ops'
  | _ :: ops' => protected max_packet ops'
  end.

(** Sequences are [u64] and packets have a [usize] bound. *)
Definition op_wf (o : encoder_op) : Prop :=
  match o with Push s _ _ => 0 <= s < 2 ^ 64 | _ => True end.

Lemma opens_new n m : opens (Encoder.new n m) [].
Proof. split; simpl; try done; unfold clamp, zlen, MAX_GROUP; simpl; lia. Qed.

Lemma close_opens e g :
  opens e g →
  ∃ e', Encoder.close e = Ret (if g then None else Some (encode_group g), e') ∧ opens e' [] ∧
    Encoder.max_packet e' = Encoder.max_packet e.
Proof.
  intros [Hg Hp Hs [Hc Hle] He Ho]. unfold Encoder.close. rewrite Hc.
  destruct g as [|m g].
  { exists e. split; [done|]. split; [|done]. by split. }
  destruct (Ho ltac:(done)) as (Hwf & Hb & _ & Hoff & Hpar).
  rewrite (proj2 (Z.eqb_neq _ _)) by len.
  rewrite slice_in by (unfold MAX_GROUP in *; len).
  assert (sub (Encoder.offsets e) 1 (zlen (m :: g))
          = offsets_of (first_of (m :: g)) (tail (m :: g).*1)) as Hfurther.
  { transitivity (drop 1 (take (length (m :: g)) (Encoder.offsets e))); [|by rewrite Hoff].
    unfold sub, zlen. rewrite skipn_firstn_comm. f_equal. cbn [length]. lia. }
  rewrite Hfurther, Hb, Hpar. eexists. split; [reflexivity|]. split; [|done].
  split; simpl; try done. unfold zlen. simpl. lia.
Qed.

Lemma opens_max e g n : opens e g → opens (Encoder.set_max_packet e n) g.
Proof. intros []. split; simpl; try done. lia. Qed.

Definition regroup (e : Encoder.t) (n : Z) : Encoder.t :=
  Encoder.mk n (Encoder.max_packet e) (Encoder.base e) (Encoder.offsets e) (Encoder.count e)
    (Encoder.parity e) (Encoder.opened_at e).

(** Closing does not read the group size. *)
Lemma close_regroup e n r e' :
  Encoder.close e = Ret (r, e') → Encoder.close (regroup e n) = Ret (r, regroup e' n).
Proof.
  unfold Encoder.close, regroup. cbn [Encoder.count Encoder.offsets]. intros H.
  destruct (Encoder.count e =? 0); [by simplify_eq|].
  destruct (slice (Encoder.offsets e) 1 (Encoder.count e)); simpl in *; [|done]. by simplify_eq.
Qed.

Lemma opens_regroup e n : opens e [] → 1 <= n <= MAX_GROUP → opens (regroup e n) [].
Proof.
  intros [? ? ? [Hc _] ? ?] Hn. split; simpl; try done. rewrite Hc. unfold zlen. simpl. lia.
Qed.

Lemma set_group_opens e g n :
  opens e g →
  ∃ r e' g', Encoder.set_group_size e n = Ret (r, e') ∧ opens e' g' ∧
    Encoder.max_packet e' = Encoder.max_packet e ∧
    (r = None ∧ g' = g ∨ g ≠ [] ∧ r = Some (encode_group g) ∧ g' = []).
Proof.
  intros Hop. unfold Encoder.set_group_size. cbn zeta. case_match; b2p.
  { exists None, e, g. split_and!; [done..|by left]. }
  destruct (close_opens e g Hop) as (e' & Hcl & Ho & Hm).
  assert (1 <= clamp n 1 MAX_GROUP <= MAX_GROUP) as Hn by (unfold clamp, MAX_GROUP; lia).
  apply (close_regroup _ (clamp n 1 MAX_GROUP)) in Hcl.
  do 2 eexists. exists []. split; [apply Hcl|].
  split; [by apply opens_regroup|]. split; [done|]. destruct g; eauto.
Qed.

Lemma last_offset l base x g :
  l = offsets_of base (x :: g) → get l (zlen l - 1) = Some (z2b (default x (last (x :: g)) - base)).
Proof.
  intros ->. unfold offsets_of. rewrite zlen_fmap, get_lookup by len.
  rewrite list_lookup_fmap. replace (Z.to_nat _) with (pred (length (x :: g))) by (unfold zlen; simpl; lia).
  rewrite <-last_lookup. destruct (last (x :: g)) eqn:E; [done|]. by apply last_None in E.
Qed.

Lemma sorted_snoc (l : list Z) x :
  StronglySorted Z.lt l → (∀ y, last l = Some y → y < x) → StronglySorted Z.lt (l ++ [x]).
Proof.
  induction l as [|a l IH]; intros Hs Hl; simpl; [by repeat constructor|].
  apply StronglySorted_inv in Hs as [Hs Ha]. constructor.
  - apply IH; [done|]. intros y Hy. apply Hl. by destruct l.
  - apply Forall_app. split; [done|]. constructor; [|done].
    destruct l as [|b l]; [by apply Hl|].
    destruct (last (b :: l)) as [z|] eqn:E; [|by apply last_None in E].
    transitivity z; [|by apply Hl]. rewrite Forall_forall in Ha. apply Ha.
    by apply last_Some_elem_of.
Qed.

Lemma can_join_opens e g s now :
  opens e g → g ≠ [] →
  ∃ b, Encoder.can_join e s now = Ret b ∧
    (b = true → zlen g < Encoder.group_size e ∧ s - first_of g <= MAX_SPAN ∧
                ∀ y, last g.*1 = Some y → y < s).
Proof.
  intros Hop Hne. destruct Hop as [Hgs Hmp Hs [Hc Hle] He Ho].
  destruct (Ho Hne) as (Hwf & Hb & _ & Hoff & _). unfold Encoder.can_join.
  destruct g as [|[s0 p0] g]; [done|].
  pose proof (last_offset _ _ _ _ Hoff) as Hlast.
  assert (zlen (take (length ((s0, p0) :: g)) (Encoder.offsets e)) = Encoder.count e) as Hzl.
  { rewrite Hc. unfold zlen, MAX_GROUP in *. rewrite length_take. lia. }
  rewrite Hzl in Hlast.
  assert (get (Encoder.offsets e) (Encoder.count e - 1) =
    Some (z2b (default s0 (last (s0 :: g.*1)) - first_of ((s0, p0) :: g)))) as Hget.
  { rewrite <-Hlast, <-(take_drop (length ((s0, p0) :: g)) (Encoder.offsets e)) at 1.
    apply get_app_l. lia. }
  unfold idx. rewrite Hget. simpl. eexists. split; [done|]. intros H. b2p.
  rewrite Hc in *. rewrite Hb in *. split_and!; [done|done|].
  intros y Hy. destruct Hwf as [_ _ _ Hm].
  assert (0 <= y - s0 <= MAX_SPAN) as Hr.
  { change (last ((s0, p0) :: g).*1 = Some y) in Hy. rewrite fmap_last in Hy. destruct (last ((s0, p0) :: g)) as [[a b]|] eqn:E; [|done].
    apply last_Some_elem_of in E. rewrite Forall_forall in Hm. destruct (Hm _ E) as (_ & Hr & _).
    simpl in *. simplify_eq. unfold first_of in Hr. simpl in Hr. lia. }
  change (last (s0 :: g.*1) = Some y) in Hy. rewrite Hy in *. simpl in *.
  unfold first_of in *. simpl in *.
  rewrite b2z_z2b, Z.mod_small in *; unfold MAX_SPAN in *; lia.
Qed.

Lemma first_of_snoc g m : g ≠ [] → first_of (g ++ [m]) = first_of g.
Proof. by destruct g. Qed.

Lemma group_wf_single (s : Z) (p : list byte) :
  0 <= s < 2 ^ 64 → 0 < zlen p <= u16_max → group_wf [(s, p)].
Proof.
  intros Hs Hp. split; [done|done|repeat constructor|].
  constructor; [|constructor]. unfold member_wf, first_of, MAX_SPAN. simpl in *. lia.
Qed.

Lemma group_wf_snoc g (s : Z) (p : list byte) :
  group_wf g → zlen g < MAX_GROUP → 0 <= s < 2 ^ 64 → 0 < zlen p <= u16_max →
  s - first_of g <= MAX_SPAN → (∀ y, last g.*1 = Some y → y < s) → group_wf (g ++ [(s, p)]).
Proof.
  intros [Hne Hsz Hso Hm] Hlt Hs Hp Hspan Hlast. split.
  - by destruct g.
  - rewrite zlen_app. change (zlen [(s, p)]) with 1. lia.
  - rewrite fmap_app. by apply sorted_snoc.
  - rewrite first_of_snoc by done. apply Forall_app. split; [done|].
    constructor; [|done]. unfold member_wf. cbn [fst snd].
    assert (first_of g <= s); [|lia].
    destruct (last g.*1) as [y|] eqn:E.
    + specialize (Hlast y eq_refl). apply last_Some_elem_of, list_elem_of_fmap in E as (m & -> & Hin).
      rewrite Forall_forall in Hm. destruct (Hm m Hin) as (_ & Hr & _). lia.
    + apply last_None, fmap_nil_inv in E. done.
Qed.

Lemma offsets_of_snoc base g m :
  offsets_of base (g ++ [m] : list member).*1 = offsets_of base g.*1 ++ [z2b (m.1 - base)].
Proof. unfold offsets_of. by rewrite !fmap_app. Qed.

Lemma parity_of_snoc (g : list member) m : parity_of (g ++ [m]) = xor_member (parity_of g) m.2.
Proof. unfold parity_of. by rewrite fmap_app, foldl_app. Qed.

Lemma take_paste_one (l : list byte) n x :
  (n < length l)%nat → take (S n) (paste l (Z.of_nat n) [x]) = take n l ++ [x].
Proof.
  intros. unfold paste. rewrite Nat2Z.id, app_assoc, take_app_le
    by (rewrite length_app, length_take; simpl; lia).
  apply take_ge. rewrite length_app, length_take. simpl. lia.
Qed.

Lemma append_opens (e : Encoder.t) (g : list member) (s : Z) (p : list byte) (now : Z) :
  opens e g → 0 <= s < 2 ^ 64 → 0 < zlen p <= u16_max →
  (g ≠ [] → zlen g < Encoder.group_size e ∧ s - first_of g <= MAX_SPAN ∧
            ∀ y, last g.*1 = Some y → y < s) →
  ∃ e', Encoder.append e s p now = Ret e' ∧ opens e' (g ++ [(s, p)]) ∧ Encoder.max_packet e' = Encoder.max_packet e.
Proof.
  intros [Hgs Hmp Hs [Hc Hle] He Ho] Hseq Hp Hjoin. unfold Encoder.append.
  destruct (decide (g = [])) as [->|Hne].
  - destruct (He eq_refl) as [Hpar Hopen]. rewrite Hc. cbn zeta iota beta. simpl.
    rewrite copy_at_in by (unfold MAX_GROUP, zlen in *; simpl; lia). simpl.
    eexists. split; [done|]. split; [|done]. split; cbn -[zlen]; try done.
    + rewrite zlen_paste; (unfold MAX_GROUP, zlen in *; simpl in *; lia).
    + unfold zlen. simpl. lia.
    + intros _. rewrite Hpar. split; [by apply group_wf_single|]. split_and!; [done..| |done].
      unfold first_of. simpl. by rewrite Z.sub_diag.
  - destruct (Hjoin Hne) as (Hlt & Hspan & Hlast). destruct (Ho Hne) as (Hwf & Hb & Hop & Hoff & Hpar).
    assert (Encoder.count e ≠ 0) as Hnz.
    { rewrite Hc. destruct g; [done|]. rewrite zlen_cons. pose proof (zlen_nonneg g). lia. }
    cbn zeta. rewrite (proj2 (Z.eqb_neq _ _)) by done.
    assert (Hfit : Encoder.count e + zlen [z2b (s - Encoder.base e)] <= zlen (Encoder.offsets e)).
    { rewrite Hc. unfold zlen in *. simpl. lia. }
    rewrite copy_at_in by (rewrite ?Hc; (apply zlen_nonneg || by rewrite <-Hc)). cbn [mbind run_bind].
    eexists. split; [done|]. split; [|done].
    assert (Hz : zlen (g ++ [(s, p)]) = zlen g + 1) by (rewrite zlen_app; done).
    split; cbn [Encoder.group_size Encoder.max_packet Encoder.base Encoder.offsets Encoder.count
                Encoder.parity Encoder.opened_at]; [done|done| | | |].
    + rewrite zlen_paste; [done| |done]. rewrite Hc. apply zlen_nonneg.
    + rewrite Hz, Hc. lia.
    + by destruct g.
    + intros _. split_and!.
      * apply group_wf_snoc; (done || lia).
      * by rewrite first_of_snoc.
      * done.
      * rewrite first_of_snoc, offsets_of_snoc by done. cbn [fst].
        rewrite length_app, Nat.add_1_r, Hc, <-Hoff, Hb.
        unfold zlen at 1. apply take_paste_one. unfold zlen, MAX_GROUP in *. lia.
      * rewrite parity_of_snoc, <-Hpar. done.
Qed.

Lemma push_opens (e : Encoder.t) (g : list member) (s : Z) (p : list byte) (now : Z) :
  opens e g → 0 <= s < 2 ^ 64 →
  ∃ r e' g', Encoder.push e s p now = Ret (r, e') ∧ opens e' g' ∧
    Encoder.max_packet e' = Encoder.max_packet e ∧
    if (zlen p =? 0) || (Encoder.max_packet e <? zlen p) then r = None ∧ g' = g
    else r = None ∧ g' = g ++ [(s, p)] ∨
         g ≠ [] ∧ r = Some (encode_group g) ∧ g' = [(s, p)].
Proof.
  intros Hop Hseq. unfold Encoder.push. destruct (_ || _) eqn:Eg.
  { exists None, e, g. done. }
  b2p. pose proof (zlen_nonneg p). assert (0 < zlen p <= u16_max) as Hp.
  { destruct Hop. lia. }
  pose proof Hop as [_ _ _ [Hc _] _ _]. destruct (decide (g = [])) as [->|Hne].
  - rewrite Hc. change (0 <? zlen []) with false. cbn [mbind run_bind].
    destruct (append_opens e [] s p now Hop Hseq Hp) as (e' & -> & Ho & Hm); [by intros []|].
    exists None, e', [(s, p)]. split_and!; [done..|by left].
  - rewrite (proj2 (Z.ltb_lt _ _)) by (rewrite Hc; destruct g; [done|rewrite zlen_cons;
      pose proof (zlen_nonneg g); lia]).
    destruct (can_join_opens e g s now Hop Hne) as (b & -> & Hb). cbn [mbind run_bind].
    destruct b; cbn [mbind run_bind].
    + destruct (append_opens e g s p now Hop Hseq Hp) as (e' & -> & Ho & Hm); [auto|].
      exists None, e', (g ++ [(s, p)]). split_and!; [done..|by left].
    + destruct (close_opens e g Hop) as (e1 & -> & Ho1 & Hm1). cbn [mbind run_bind].
      destruct (append_opens e1 [] s p now Ho1 Hseq Hp) as (e' & -> & Ho & Hm); [by intros []|].
      exists (Some (encode_group g)), e', [(s, p)].
      split; [by destruct g|]. split; [done|]. split; [congruence|by right].
Qed.

Lemma flush_opens e g now :
  opens e g →
  ∃ r e' g', Encoder.flush_due e now = Ret (r, e') ∧ opens e' g' ∧
    Encoder.max_packet e' = Encoder.max_packet e ∧
    (r = None ∧ g' = g ∨ g ≠ [] ∧ r = Some (encode_group g) ∧ g' = []).
Proof.
  intros Hop. unfold Encoder.flush_due. destruct (Encoder.expired e now).
  - destruct (close_opens e g Hop) as (e' & -> & Ho & Hm).
    do 2 eexists. exists []. split; [done|]. split; [done|]. split; [done|].
    destruct g; [by left|by right].
  - exists None, e, g. split_and!; [done..|by left].
Qed.

(** One operation keeps or closes the open group and appends what it protects. *)
Lemma encoder_step_opens e g o :
  opens e g → op_wf o →
  ∃ r e' g', encoder_step e o = Ret (r, e') ∧ opens e' g' ∧
    ∃ gs, option_list r = encode_group <$> gs ∧ Forall group_wf gs ∧
      (∀ ops, mjoin gs ++ g' ++ protected (Encoder.max_packet e') ops
              = g ++ protected (Encoder.max_packet e) (o :: ops)).
Proof.
  intros Hop Hwf.
  assert (g ≠ [] → group_wf g) as Hg by (intros Hne; by destruct (op_open e g Hop Hne)).
  destruct o as [s p now|now|n|n]; cbn [encoder_step protected].
  - destruct (push_opens e g s p now Hop Hwf) as (r & e' & g' & -> & Ho & Hm & Hr).
    exists r, e', g'. split; [done|]. split; [done|]. rewrite Hm.
    destruct (_ || _); [destruct Hr as [-> ->]; by exists []|].
    destruct Hr as [[-> ->]|(Hne & -> & ->)].
    + exists []. split_and!; [done..|]. intros ops. simpl. by rewrite <-app_assoc.
    + exists [g]. split_and!; [done|constructor; auto|]. intros ops. simpl. by rewrite app_nil_r.
  - destruct (flush_opens e g now Hop) as (r & e' & g' & -> & Ho & Hm & Hr).
    exists r, e', g'. split; [done|]. split; [done|]. rewrite Hm.
    destruct Hr as [[-> ->]|(Hne & -> & ->)]; [by exists []|].
    exists [g]. split_and!; [done|constructor; auto|]. intros. simpl. by rewrite app_nil_r.
  - destruct (set_group_opens e g n Hop) as (r & e' & g' & -> & Ho & Hm & Hr).
    exists r, e', g'. split; [done|]. split; [done|]. rewrite Hm.
    destruct Hr as [[-> ->]|(Hne & -> & ->)]; [by exists []|].
    exists [g]. split_and!; [done|constructor; auto|]. intros. simpl. by rewrite app_nil_r.
  - do 2 eexists. exists g. split; [done|]. split; [by apply opens_max|]. by exists [].
Qed.

Lemma encoder_run_opens ops e g :
  opens e g → Forall op_wf ops →
  ∃ gs e' g', encoder_run e ops = Ret (encode_group <$> gs, e') ∧ opens e' g' ∧
    Forall group_wf gs ∧ mjoin gs ++ g' = g ++ protected (Encoder.max_packet e) ops.
Proof.
  revert e g. induction ops as [|o ops IH]; intros e g Hop Hwf.
  - exists [], e, g. split_and!; [done..|]. simpl. by rewrite app_nil_r.
  - apply Forall_cons in Hwf as [Ho Hwf].
    destruct (encoder_step_opens e g o Hop Ho) as (r & e1 & g1 & Hs & Hop1 & gs1 & Hr & Hgs1 & Hc1).
    destruct (IH e1 g1 Hop1 Hwf) as (gs & e' & g' & Hrun & Hop' & Hgs & Hc).
    exists (gs1 ++ gs), e', g'. split_and!; [|done|by apply Forall_app|].
    + cbn [encoder_run]. rewrite Hs. cbn [mbind run_bind]. rewrite Hrun. cbn [mbind run_bind].
      by rewrite Hr, fmap_app.
    + rewrite join_app, <-app_assoc, Hc. apply Hc1.
Qed.

(** ** Rebuilding *)

Lemma read_members_spec base seqs index prev members :
  members !! index = Some prev → StronglySorted Z.lt (prev :: seqs) →
  Forall (λ s, s < 2 ^ 64 ∧ base <= s <= base + MAX_SPAN) seqs →
  (S index + length seqs <= length members)%nat →
  Repair.read_members base (offsets_of base seqs) index members
  = Some (take (S index) members ++ seqs ++ drop (S index + length seqs) members).
Proof.
  revert index prev members. induction seqs as [|s seqs IH]; intros index prev members Hp Hs Hr Hl.
  - simpl. by rewrite Nat.add_0_r, take_drop.
  - apply Forall_cons in Hr as [[Hs64 Hspan] Hr].
    apply StronglySorted_inv in Hs as [Hs Hlt]. apply Forall_cons in Hlt as [Hlt _].
    cbn [offsets_of fmap list_fmap Repair.read_members].
    assert (base + b2z (z2b (s - base)) = s) as ->.
    { rewrite b2z_z2b, Z.mod_small; unfold MAX_SPAN in *; lia. }
    rewrite (proj2 (Z.ltb_ge u64_max s)) by (unfold u64_max; lia).
    rewrite Hp. simpl default. rewrite (proj2 (Z.leb_gt s prev)) by done.
    cbn [length] in Hl. change (list_fmap Z byte (λ s0, z2b (s0 - base)) seqs) with (offsets_of base seqs).
    rewrite (IH (S index) s) by (rewrite ?length_insert, ?list_lookup_insert_eq; (done || lia)).
    f_equal. cbn [length]. rewrite (take_S_r _ _ s) by (rewrite list_lookup_insert_eq; (done || lia)).
    rewrite take_insert_ge, drop_insert_lt by lia. rewrite <-app_assoc. simpl. do 4 f_equal. lia.
Qed.

Lemma parity_of_length g :
  length (parity_of g) = foldr (λ p n, (length (frame p) `max` n)%nat) 0%nat g.*2.
Proof. apply length_xor_members. Qed.

Lemma frame_fits (g : list member) s p : (s, p) ∈ g → (length (frame p) <= length (parity_of g))%nat.
Proof.
  intros Hin. rewrite parity_of_length. apply length_frame_le_max.
  apply list_elem_of_fmap. by exists (s, p).
Qed.

Lemma parse_encode_group g now :
  group_wf g →
  ∃ r, Repair.parse (encode_group g) now = Some r ∧ Repair.members r = g.*1 ∧
    Repair.parity r = parity_of g ∧ Repair.count r = zlen g ∧ Repair.received_at r = now.
Proof.
  intros Hwf. pose proof Hwf as [Hne Hsz Hso Hm]. destruct g as [|[base p] g]; [done|].
  set (G := (base, p) :: g) in *. change (first_of G) with base in Hm.
  assert (0 <= base < 2 ^ 64) as Hbase.
  { apply Forall_cons in Hm as [[Hb _] _]. done. }
  assert (1 <= zlen G <= MAX_GROUP) as HG.
  { split; [|done]. unfold G. rewrite zlen_cons. pose proof (zlen_nonneg g). lia. }
  assert (zlen (offsets_of base (tail G.*1)) = zlen G - 1) as Hoff.
  { unfold offsets_of. rewrite zlen_fmap. unfold G. cbn [fmap list_fmap tail]. rewrite zlen_cons.
    change (list_fmap member Z fst g) with g.*1. rewrite zlen_fmap. lia. }
  assert (2 < zlen (parity_of G)) as Hpar.
  { assert (length (frame p) <= length (parity_of G))%nat as Hf by (apply (frame_fits G base); set_solver).
    rewrite length_frame in Hf. apply Forall_cons in Hm as [(_ & _ & Hp) _].
    unfold zlen in *. simpl in Hp. lia. }
  unfold Repair.parse, encode_group. change (first_of G) with base. cbn [app].
  change (b2z (z2b VERSION) =? Fec.VERSION) with true. cbn [negb orb].
  set (rest := be_bytes 8 base ++ _).
  assert (zlen rest = 8 + zlen G + zlen (parity_of G)) as Hrest.
  { unfold rest. rewrite zlen_app, zlen_cons, zlen_app, zlen_be_bytes, Hoff. lia. }
  rewrite (proj2 (Z.ltb_ge _ _)) by lia.
  assert (sub rest 0 8 = be_bytes 8 base) as ->.
  { unfold rest. rewrite sub_app_l by (rewrite ?zlen_be_bytes; lia).
    transitivity (sub (be_bytes 8 base) 0 (zlen (be_bytes 8 base)));
      [by rewrite zlen_be_bytes|apply sub_all]. }
  assert (nz rest 8 = zlen G) as ->.
  { unfold nz, rest. rewrite get_app_r by (rewrite zlen_be_bytes; lia).
    rewrite zlen_be_bytes. change (get _ _) with (Some (z2b (zlen G))). simpl.
    rewrite b2z_z2b. apply Z.mod_small. unfold MAX_GROUP in *. lia. }
  rewrite be_Z_be_bytes, Z.mod_small by done.
  rewrite (proj2 (Z.eqb_neq _ _)), (proj2 (Z.ltb_ge _ _)) by lia. cbn [orb].
  assert (∀ a b, 9 <= a <= b → b <= zlen rest → sub rest a b =
    sub (offsets_of base (tail G.*1) ++ parity_of G) (a - 9) (b - 9)) as Hsub.
  { intros a b Ha Hb. unfold rest. rewrite sub_app_r by (rewrite zlen_be_bytes; lia).
    rewrite zlen_be_bytes. change (z2b (zlen G) :: ?x) with ([z2b (zlen G)] ++ x).
    rewrite sub_app_r by (change (zlen [z2b (zlen G)]) with 1; lia).
    change (zlen [z2b (zlen G)]) with 1. f_equal; lia. }
  rewrite !get_range_in by lia. cbn [mbind option_bind]. rewrite !Hsub by lia.
  replace (9 - 9) with 0 by lia. replace (9 + zlen G - 1 - 9) with (zlen G - 1) by lia.
  replace (zlen rest - 9) with (zlen G - 1 + zlen (parity_of G)) by lia.
  rewrite (sub_app_l _ _ 0), (sub_app_r _ _ (zlen G - 1)) by lia. rewrite Hoff, Z.sub_diag.
  replace (zlen G - 1 + _ - _) with (zlen (parity_of G)) by lia. rewrite sub_all.
  replace (sub (offsets_of base (tail G.*1)) 0 (zlen G - 1)) with (offsets_of base (tail G.*1))
    by (rewrite <-Hoff; symmetry; apply sub_all).
  unfold LENGTH_PREFIX. rewrite (proj2 (Z.leb_gt _ _)) by lia.
  assert (length G <= 4)%nat as Hlen by (unfold zlen, MAX_GROUP in *; lia).
  change (tail G.*1) with g.*1. rewrite (read_members_spec base g.*1 0 base).
  - simpl. eexists. split; [done|]. split_and!; [|done..].
    unfold Repair.members. simpl. unfold zlen. rewrite Nat2Z.id. simpl.
    f_equal. rewrite take_app_le by (rewrite length_fmap; simpl; lia).
    apply take_ge. rewrite length_fmap. done.
  - done.
  - done.
  - apply Forall_cons in Hm as [_ Hm]. apply Forall_fmap. eapply Forall_impl; [exact Hm|].
    intros m (H1 & H2 & _). simpl. lia.
  - rewrite length_fmap. simpl in *. lia.
Qed.

Lemma fold_members_spec d lost (h : list member) par :
  (∀ s p, (s, p) ∈ h → s ≠ lost → Decoder.stored d s = Some p) →
  (∀ s p, (s, p) ∈ h → (length (frame p) <= length par)%nat) →
  Decoder.fold_members d lost h.*1 par
  = Some (foldl xor_member par (filter (λ m, m.1 ≠ lost) h).*2).
Proof.
  revert par. induction h as [|[s p] h IH]; intros par Hst Hfit; [done|].
  cbn [fmap list_fmap Decoder.fold_members fst]. rewrite filter_cons.
  destruct (Z.eqb_spec s lost) as [->|Hne].
  - rewrite decide_False by (simpl; auto). apply IH; intros s p' Hin; [apply Hst|apply (Hfit s)]; by apply elem_of_cons; right.
  - rewrite decide_True by done. rewrite (Hst s p) by (done || by apply elem_of_cons; left).
    cbn [mbind option_bind].
    assert (length (frame p) <= length par)%nat as Hf by (apply (Hfit s); apply elem_of_cons; by left).
    rewrite (proj2 (Z.ltb_ge _ _)) by (rewrite length_frame in Hf; unfold zlen, LENGTH_PREFIX; lia).
    cbn [fmap list_fmap foldl snd]. apply IH.
    + intros s' p' Hin. apply Hst, elem_of_cons. by right.
    + intros s' p' Hin. rewrite length_xor_member.
      assert (length (frame p') <= length par)%nat by (apply (Hfit s'), elem_of_cons; by right). lia.
Qed.

Lemma sorted_split (g : list member) s p :
  StronglySorted Z.lt g.*1 → (s, p) ∈ g →
  ∃ g1 g2, g = g1 ++ (s, p) :: g2 ∧ filter (λ m : member, m.1 ≠ s) g = g1 ++ g2 ∧
    (∀ q, (s, q) ∈ g → q = p).
Proof.
  induction g as [|[a b] g IH]; intros Hs Hin; [by apply elem_of_nil in Hin|].
  apply StronglySorted_inv in Hs as [Hs Ha]. rewrite Forall_forall in Ha.
  assert (∀ q, (a, q) ∉ g) as Hout.
  { intros q Hq. specialize (Ha a). apply (Z.lt_irrefl a), Ha.
    apply list_elem_of_fmap. by exists (a, q). }
  destruct (decide ((a, b) = (s, p))) as [[= -> ->]|Hne].
  - exists [], g. split; [done|]. rewrite filter_cons, decide_False by (simpl; auto). split.
    + apply filter_all. intros [c q] Hc. simpl. intros ->. by eapply Hout.
    + intros q [[= ->]|Hq]%elem_of_cons; [done|]. by apply Hout in Hq.
  - apply elem_of_cons in Hin as [|Hin]; [congruence|].
    destruct (IH Hs Hin) as (g1 & g2 & -> & Hf & Hu). exists ((a, b) :: g1), g2. split; [done|].
    assert (a ≠ s) by (intros ->; by eapply Hout).
    rewrite filter_cons, decide_True by done. split; [by rewrite Hf|].
    intros q [[= ? ?]|Hq]%elem_of_cons; [done|auto].
Qed.

Lemma rebuild_group d g s p r :
  group_wf g → (s, p) ∈ g → Repair.members r = g.*1 → Repair.parity r = parity_of g →
  (∀ s' p', (s', p') ∈ g → s' ≠ s → Decoder.stored d s' = Some p') →
  Decoder.rebuild d r s = Some p.
Proof.
  intros Hwf Hin Hmem Hpar Hst. pose proof Hwf as [_ _ Hso Hm].
  destruct (sorted_split g s p Hso Hin) as (g1 & g2 & Hg & Hfil & _).
  unfold Decoder.rebuild. rewrite Hmem, Hpar.
  rewrite fold_members_spec by (auto || intros s' p' Hin'; by eapply frame_fits).
  cbn [mbind option_bind]. rewrite Hfil. set (par := foldl xor_member _ _).
  assert (length par = length (parity_of g)) as Hlen.
  { unfold par. rewrite length_xor_members. apply max_frames_le. intros q Hq.
    apply list_elem_of_fmap in Hq as ([s' q'] & -> & Hq).
    apply (frame_fits g s'). rewrite Hg. set_solver. }
  assert (∀ i, byte_at par i = byte_at (frame p) i) as Hat.
  { intros i. unfold par, parity_of. rewrite !byte_at_xor_members.
    rewrite (byte_at_ge []) by (simpl; lia). rewrite bxor_0_l.
    rewrite Hg, !fmap_app. cbn [fmap list_fmap snd]. apply xsum_cancel. }
  rewrite Forall_forall in Hm. destruct (Hm _ Hin) as (_ & _ & Hp). cbn [snd] in Hp.
  pose proof (frame_fits g s p Hin) as Hfit. rewrite <-Hlen in Hfit.
  destruct (frame_read par p Hfit) as [Hread Hsub]; [unfold u16_max in Hp; lia|done|].
  rewrite Hread, Hsub.
  rewrite (proj2 (Z.eqb_neq _ _)), (proj2 (Z.ltb_ge _ _)); [done| |lia].
  rewrite length_frame in Hfit. unfold zlen, LENGTH_PREFIX. lia.
Qed.

Lemma filter_only (g : list member) s p (delivered : Z → bool) :
  StronglySorted Z.lt g.*1 → (s, p) ∈ g → delivered s = false →
  (∀ s' p', (s', p') ∈ g → s' ≠ s → delivered s' = true) →
  filter (λ m, delivered m = false) g.*1 = [s].
Proof.
  intros Hso Hin Hs Hd. destruct (sorted_split g s p Hso Hin) as (g1 & g2 & Hg & Hf & _).
  assert (∀ s' p', (s', p') ∈ g1 ++ g2 → delivered s' = true) as Hrest.
  { intros s' p' Hin'. rewrite <-Hf in Hin'. apply list_elem_of_filter in Hin' as [Hne Hin'].
    by eapply Hd. }
  rewrite Hg, fmap_app, filter_app. cbn [fmap list_fmap fst]. rewrite filter_cons, decide_True by done.
  assert (∀ h : list member, (∀ s' p', (s', p') ∈ h → delivered s' = true) →
            filter (λ m, delivered m = false) h.*1 = []) as Hnil.
  { intros h Hh. apply filter_none. intros x Hx.
    apply list_elem_of_fmap in Hx as ([s' p'] & -> & Hx). simpl. by rewrite (Hh s' p'). }
  rewrite !Hnil; [done|intros s' p' ?; apply (Hrest s' p'); set_solver..].
Qed.

Lemma accept_repair_rebuilds d g now delivered s p :
  group_wf g → (s, p) ∈ g → delivered s = false →
  (∀ s' p', (s', p') ∈ g → s' ≠ s → delivered s' = true ∧ Decoder.stored d s' = Some p') →
  (Decoder.accept_repair d (encode_group g) now delivered).1 = Some (s, p).
Proof.
  intros Hwf Hin Hs Hrest. unfold Decoder.accept_repair.
  destruct (parse_encode_group g now Hwf) as (r & -> & Hmem & Hpar & _).
  unfold Decoder.resolve. rewrite Hmem.
  rewrite (filter_only g s p) by (done || apply Hwf || intros; by eapply Hrest).
  rewrite (rebuild_group _ g s p); [done..|]. intros s' p' Hin' Hne. by apply Hrest.
Qed.

(** ** What the decoder stores *)

Definition stores (d : Decoder.t) : Prop :=
  Decoder.recent d = [] ∨ zlen (Decoder.recent d) = RECENT_CAPACITY.

Lemma remember_stores d s p :
  stores d →
  ∃ d', Decoder.remember d s p = Ret d' ∧ stores d' ∧ Decoder.storing d' = Decoder.storing d ∧
    Decoder.pending d' = Decoder.pending d ∧
    (Decoder.storing d = true → p ≠ [] → Decoder.stored d' s = Some p) ∧
    (∀ t, t mod RECENT_CAPACITY ≠ s mod RECENT_CAPACITY →
       Decoder.stored d' t = Decoder.stored d t).
Proof.
  intros Hd. unfold Decoder.remember. destruct (Decoder.storing d) eqn:Est; cbn [negb].
  2: { exists d. by split_and!. }
  set (recent := if bool_decide _ then _ else _).
  assert (zlen recent = RECENT_CAPACITY) as Hlen.
  { subst recent. case_bool_decide; [unfold zlen; by rewrite length_replicate|]. by destruct Hd. }
  assert (0 <= s mod RECENT_CAPACITY < RECENT_CAPACITY) as Hs by (by apply Z.mod_pos_bound).
  assert (zlen [(s, p)] = 1) as Hone by done.
  rewrite copy_at_in by lia. cbn [mbind run_bind]. eexists. split; [done|]. split_and!.
  - right. simpl. rewrite zlen_paste; lia.
  - done.
  - done.
  - intros _ Hp. unfold Decoder.stored. simpl.
    rewrite get_paste_in by lia. rewrite Z.sub_diag. simpl.
    rewrite Z.eqb_refl. destruct p; [done|]. rewrite (proj2 (Z.eqb_neq _ _)); [done|].
    rewrite zlen_cons. pose proof (zlen_nonneg p). lia.
  - intros t Hne. unfold Decoder.stored. simpl. rewrite get_paste_out by lia.
    assert (get recent (t mod RECENT_CAPACITY) = get (Decoder.recent d) (t mod RECENT_CAPACITY)
            ∨ Decoder.recent d = []) as [->| Hnil].
    { subst recent. case_bool_decide; auto. }
    + done.
    + subst recent. rewrite Hnil, bool_decide_true, get_nil by done. cbn [mbind option_bind].
      destruct (get_replicate (Z.to_nat RECENT_CAPACITY) (0, @nil byte) (t mod RECENT_CAPACITY))
        as [->| ->]; [done|]. simpl. by rewrite andb_false_r.
Qed.

Fixpoint remember_all (d : Decoder.t) (ds : list member) : run Decoder.t :=
  match ds with
  | [] => Ret d
  | (s, p) :: ds' => d ← Decoder.remember d s p; remember_all d ds'
  end.

(** Sequences close enough that no two share a slot of the history. *)
Definition in_history (ds : list member) : Prop :=
  NoDup ds.*1 ∧ (∀ a b, a ∈ ds.*1 → b ∈ ds.*1 → Z.abs (a - b) < RECENT_CAPACITY).

Lemma slots_differ a b : a ≠ b → Z.abs (a - b) < RECENT_CAPACITY →
  a mod RECENT_CAPACITY ≠ b mod RECENT_CAPACITY.
Proof.
  unfold RECENT_CAPACITY. intros Hne Habs Hm.
  pose proof (Z.div_mod a 512). pose proof (Z.div_mod b 512). lia.
Qed.

Lemma in_history_tail m ds : in_history (m :: ds) → in_history ds.
Proof. intros [Hnd Hw]. apply NoDup_cons in Hnd as [_ Hnd]. split; [done|]. set_solver. Qed.

Lemma remember_all_stored ds d :
  stores d → Decoder.storing d = true → in_history ds → (∀ s p, (s, p) ∈ ds → p ≠ []) →
  ∃ d', remember_all d ds = Ret d' ∧ stores d' ∧ Decoder.storing d' = true ∧
    (∀ s p, (s, p) ∈ ds → Decoder.stored d' s = Some p) ∧
    (∀ t, (∀ s, s ∈ ds.*1 → t mod RECENT_CAPACITY ≠ s mod RECENT_CAPACITY) →
       Decoder.stored d' t = Decoder.stored d t).
Proof.
  revert d. induction ds as [|[s p] ds IH]; intros d Hst Hsto Hh Hp.
  - exists d. split_and!; try done. set_solver.
  - destruct (remember_stores d s p Hst) as (d1 & Hr & Hst1 & Hsto1 & _ & Hget & Hother).
    rewrite Hsto in Hsto1.
    destruct (IH d1) as (d' & Hr' & Hst' & Hsto' & Hget' & Hother');
      [done|done|by eapply in_history_tail|intros s' p' Hin; apply (Hp s'), elem_of_cons; by right|].
    exists d'. cbn [remember_all]. rewrite Hr. cbn [mbind run_bind].
    destruct Hh as [Hnd Hw]. apply NoDup_cons in Hnd as [Hnin Hnd].
    split_and!; [done|done|done| |].
    + intros s' p' Hin. apply elem_of_cons in Hin as [[= -> ->]|Hin]; [|by apply Hget'].
      rewrite Hother'.
      * apply Hget; [done|]. apply (Hp s), list_elem_of_here.
      * intros t Ht. apply slots_differ; [intros ->; done|]. apply Hw; set_solver.
    + intros t Ht. rewrite Hother', Hother; [done|apply Ht; set_solver|].
      intros s' Hs'. apply Ht. set_solver.
Qed.

(** ** Decoder runs *)

Inductive decoder_op : Type :=
| Remember (sequence : Z) (packet : list byte)
| AcceptRepair (payload : list byte) (now : Z) (delivered : Z → bool)
| RetryPending (now : Z) (delivered : Z → bool).

Definition decoder_step (d : Decoder.t) (o : decoder_op)
    : run (option (Z * list byte) * Decoder.t) :=
  match o with
  | Remember s p => d ← Decoder.remember d s p; Ret (None, d)
  | AcceptRepair payload now delivered => Ret (Decoder.accept_repair d payload now delivered)
  | RetryPending now delivered => Ret (Decoder.retry_pending d now delivered)
  end.

Fixpoint decoder_run (d : Decoder.t) (ops : list decoder_op)
    : run (list (option (Z * list byte)) * Decoder.t) :=
  match ops with
  | [] => Ret ([], d)
  | o :: ops' =>
      '(out, d) ← decoder_step d o;
      '(outs, d) ← decoder_run d ops';
      Ret (out :: outs, d)
  end.

Definition delivered_of (o : decoder_op) : Z → bool :=
  match o with Remember _ _ => λ _, true | AcceptRepair _ _ f | RetryPending _ f => f end.

Definition decoder_wf (d : Decoder.t) : Prop :=
  stores d ∧ zlen (Decoder.pending d) <= PENDING_CAPACITY.

(** A rebuilt packet was missing and is not empty. *)
Definition sound_output (o : decoder_op) (out : option (Z * list byte)) : Prop :=
  ∀ s p, out = Some (s, p) → delivered_of o s = false ∧ p ≠ [].

Lemma rebuild_nonempty d r s p : Decoder.rebuild d r s = Some p → p ≠ [].
Proof.
  unfold Decoder.rebuild. destruct (Decoder.fold_members _ _ _ _) as [par|]; [|done].
  cbn [mbind option_bind]. set (n := be_Z _). destruct (_ || _) eqn:E; [done|].
  intros [= <-] Hnil. b2p. apply (f_equal zlen) in Hnil. unfold LENGTH_PREFIX in *.
  assert (0 <= n) by apply be_Z_bound.
  rewrite zlen_sub in Hnil by lia. unfold zlen in Hnil. simpl in Hnil. lia.
Qed.

Lemma resolve_wf d r delivered :
  decoder_wf d →
  decoder_wf (Decoder.resolve d r delivered).2 ∧
  ∀ s p, (Decoder.resolve d r delivered).1 = Some (s, p) → delivered s = false ∧ p ≠ [].
Proof.
  intros [Hst Hp]. unfold Decoder.resolve.
  destruct (filter _ _) as [|lost [|lost' ms]] eqn:Ef.
  - by split.
  - assert (delivered lost = false) as Hl.
    { assert (lost ∈ [lost]) as Hin by apply list_elem_of_here. rewrite <-Ef in Hin.
      by apply list_elem_of_filter in Hin as [? _]. }
    destruct (Decoder.rebuild d r lost) as [q|] eqn:Er; [|by split].
    split; [by split|]. simpl. intros s p [= <- <-]. split; [done|]. by eapply rebuild_nonempty.
  - split; [|done]. split.
    + destruct (PENDING_CAPACITY <=? _); apply Hst.
    + cbn [snd Decoder.pending]. rewrite zlen_app. change (zlen [r]) with 1.
      destruct (Z.leb_spec PENDING_CAPACITY (zlen (Decoder.pending d))); cbn [Decoder.pending]; [|lia].
      destruct (Decoder.pending d) as [|x l]; cbn [tail]; [done|]. rewrite zlen_cons in Hp. lia.
Qed.

Lemma length_swap_remove {A} (l : list A) i : zlen (Decoder.swap_remove l i) <= zlen l.
Proof.
  unfold Decoder.swap_remove, zlen. destruct (last l); [|lia].
  assert (∀ k : list A, length (removelast k) <= length k)%nat as H.
  { induction k as [|x [|y k] IH]; simpl in *; lia. }
  specialize (H (<[i:=a]> l)). rewrite length_insert in H. lia.
Qed.

Lemma zlen_filter_le {A} (P : A → Prop) `{!∀ x, Decision (P x)} (l : list A) :
  zlen (filter P l) <= zlen l.
Proof. unfold zlen. pose proof (length_filter P l). lia. Qed.

Lemma retry_wf d now delivered :
  decoder_wf d →
  decoder_wf (Decoder.retry_pending d now delivered).2 ∧
  ∀ s p, (Decoder.retry_pending d now delivered).1 = Some (s, p) → delivered s = false ∧ p ≠ [].
Proof.
  intros [Hst Hp]. unfold Decoder.retry_pending. cbn zeta.
  set (kept := filter _ (Decoder.pending d)). set (waiting := filter _ kept).
  assert (zlen waiting <= PENDING_CAPACITY) as Hw.
  { subst waiting kept. pose proof (zlen_filter_le (λ r, 0 < Repair.missing r delivered)
      (filter (λ r, since now (Repair.received_at r) < PENDING_MAX_AGE
                    ∨ Repair.missing r delivered = 0) (Decoder.pending d))) as H1.
    pose proof (zlen_filter_le (λ r, since now (Repair.received_at r) < PENDING_MAX_AGE
                    ∨ Repair.missing r delivered = 0) (Decoder.pending d)) as H2. lia. }
  destruct (list_find _ waiting) as [[ready r]|]; [|by split].
  apply resolve_wf. split; [done|]. cbn [Decoder.pending].
  pose proof (length_swap_remove waiting ready). lia.
Qed.

(** ** Sequences a decoder may hand out *)

(** The members of a repair are [u64] sequences. *)
Definition seqs_wf (r : Repair.t) : Prop := Forall (λ m, 0 <= m < 2 ^ 64) (Repair.members r).

Lemma read_members_range base offsets index members ms :
  0 <= base → Forall (λ m, 0 <= m < 2 ^ 64) members →
  Repair.read_members base offsets index members = Some ms → Forall (λ m, 0 <= m < 2 ^ 64) ms.
Proof.
  intros Hb. revert index members. induction offsets as [|o offsets IH]; intros index members Hm; simpl.
  { by intros [= <-]. }
  destruct (Z.ltb_spec u64_max (base + b2z o)); [done|]. case_match; [done|].
  apply IH. apply Forall_insert; [done|]. pose proof (b2z_range o). unfold u64_max in *. lia.
Qed.

Lemma parse_seqs payload now r : Repair.parse payload now = Some r → seqs_wf r.
Proof.
  unfold Repair.parse. destruct payload as [|v rest]; [done|]. destruct (_ || _) eqn:Ev; [done|].
  cbn zeta. case_match; [done|]. destruct (get_range rest 9 _) as [offs|]; [|done].
  destruct (get_range _ _ (zlen rest)) as [par|]; [|done]. cbn [mbind option_bind].
  destruct (zlen par <=? LENGTH_PREFIX); [done|]. destruct (Repair.read_members _ _ _ _) as [ms|] eqn:Em; [|done].
  intros [= <-]. unfold seqs_wf, Repair.members. apply Forall_take. simpl. b2p.
  assert (0 <= be_Z (sub rest 0 8) < 2 ^ 64) as Hbase.
  { pose proof (be_Z_bound (sub rest 0 8)) as Hb. rewrite zlen_sub in Hb by lia. exact Hb. }
  refine (read_members_range _ _ _ _ _ _ _ Em); [lia|].
  constructor; [done|]. by apply Forall_replicate.
Qed.

Lemma resolve_seqs d r delivered :
  seqs_wf r → Forall seqs_wf (Decoder.pending d) →
  Forall seqs_wf (Decoder.pending (Decoder.resolve d r delivered).2) ∧
  ∀ s p, (Decoder.resolve d r delivered).1 = Some (s, p) →
    0 <= s < 2 ^ 64 ∧ Decoder.pending (Decoder.resolve d r delivered).2 = Decoder.pending d.
Proof.
  intros Hr Hd. unfold Decoder.resolve.
  destruct (filter _ _) as [|lost [|lost' ms]] eqn:Ef; [done| |].
  - assert (lost ∈ Repair.members r) as Hl.
    { assert (lost ∈ [lost]) as Hin by apply list_elem_of_here. rewrite <-Ef in Hin.
      by apply list_elem_of_filter in Hin as [_ ?]. }
    destruct (Decoder.rebuild d r lost) as [q|]; [|done].
    split; [done|]. intros s p [= <- <-]. split; [|done]. unfold seqs_wf in Hr.
    rewrite Forall_forall in Hr. by apply Hr.
  - split; [|done]. cbn [snd Decoder.pending]. apply Forall_app. split; [|by constructor].
    destruct (PENDING_CAPACITY <=? _); cbn [Decoder.pending]; [|done].
    destruct Hd; [constructor|done].
Qed.

Lemma accept_repair_seqs d payload now delivered :
  Forall seqs_wf (Decoder.pending d) →
  Forall seqs_wf (Decoder.pending (Decoder.accept_repair d payload now delivered).2) ∧
  ∀ s p, (Decoder.accept_repair d payload now delivered).1 = Some (s, p) → 0 <= s < 2 ^ 64.
Proof.
  intros Hd. unfold Decoder.accept_repair. destruct (Repair.parse payload now) as [r|] eqn:Ep; [|done].
  apply parse_seqs in Ep. edestruct resolve_seqs as [H1 H2]; [exact Ep| |split; [exact H1|]]; [done|].
  intros s p Hs. by destruct (H2 s p Hs).
Qed.

Lemma swap_remove_spec {A} (l : list A) i x :
  l !! i = Some x →
  length l = S (length (Decoder.swap_remove l i)) ∧ ∀ P : A → Prop, Forall P l → Forall P (Decoder.swap_remove l i).
Proof.
  intros Hx. unfold Decoder.swap_remove. destruct (last l) as [y|] eqn:El.
  2: { apply last_None in El. by subst. }
  destruct (exists_last (l := <[i:=y]> l)) as (k & z & Hk).
  { intros Hn%(f_equal length). rewrite length_insert in Hn. apply lookup_lt_Some in Hx. simpl in Hn. lia. }
  rewrite Hk, removelast_last. split.
  - apply (f_equal length) in Hk. rewrite length_insert, length_app in Hk. simpl in Hk. lia.
  - intros P HP. assert (Forall P (<[i:=y]> l)) as Hf.
    { apply Forall_insert; [done|]. rewrite last_lookup in El. by eapply Forall_lookup_1. }
    rewrite Hk in Hf. by apply Forall_app in Hf as [? _].
Qed.

(** A retry that rebuilds a packet uses a pending repair up. *)
Lemma retry_seqs d now delivered :
  Forall seqs_wf (Decoder.pending d) →
  Forall seqs_wf (Decoder.pending (Decoder.retry_pending d now delivered).2) ∧
  ∀ s p, (Decoder.retry_pending d now delivered).1 = Some (s, p) →
    0 <= s < 2 ^ 64 ∧
    (length (Decoder.pending (Decoder.retry_pending d now delivered).2) < length (Decoder.pending d))%nat.
Proof.
  intros Hd. unfold Decoder.retry_pending. cbn zeta.
  set (kept := filter _ (Decoder.pending d)). set (waiting := filter _ kept).
  assert (Forall seqs_wf waiting) as Hw.
  { apply Forall_forall. intros r Hr. unfold waiting, kept in Hr. rewrite !list_elem_of_filter in Hr.
    rewrite Forall_forall in Hd. by apply Hd, Hr. }
  assert (length waiting <= length (Decoder.pending d))%nat as Hlen.
  { subst waiting kept. etransitivity; apply length_filter. }
  destruct (list_find _ waiting) as [[ready r]|] eqn:Ef; [|by split].
  apply list_find_Some in Ef as (Hr & _).
  destruct (swap_remove_spec waiting ready r Hr) as [Hl Hk].
  edestruct (resolve_seqs (Decoder.mk (Decoder.recent d) (Decoder.swap_remove waiting ready)
    (Decoder.storing d) (Decoder.repairs_received d)
    (Decoder.unrecoverable d + (zlen (Decoder.pending d) - zlen kept))) r delivered) as [H1 H2].
  - by eapply Forall_lookup_1.
  - by apply Hk.
  - split; [exact H1|]. intros s p Hs. destruct (H2 s p Hs) as [? ->]. split; [done|]. simpl. lia.
Qed.

Lemma decoder_step_wf d o :
  decoder_wf d → ∃ out d', decoder_step d o = Ret (out, d') ∧ decoder_wf d' ∧ sound_output o out.
Proof.
  intros Hd. destruct o as [s p|payload now f|now f]; cbn [decoder_step].
  - destruct Hd as [Hst Hp]. destruct (remember_stores d s p Hst) as (d' & -> & Hst' & _ & Hpe & _).
    exists None, d'. split; [done|]. split; [|done]. split; [done|]. by rewrite Hpe.
  - unfold Decoder.accept_repair. destruct (Repair.parse payload now) as [r|].
    + set (d1 := Decoder.mk _ _ _ _ _). destruct (resolve_wf d1 r f) as [H1 H2]; [by destruct Hd|].
      destruct (Decoder.resolve d1 r f) as [out d']. by exists out, d'.
    + by exists None, d.
  - destruct (retry_wf d now f Hd) as [H1 H2].
    destruct (Decoder.retry_pending d now f) as [out d']. by exists out, d'.
Qed.

Lemma decoder_run_wf ops d :
  decoder_wf d →
  ∃ outs d', decoder_run d ops = Ret (outs, d') ∧ decoder_wf d' ∧ Forall2 sound_output ops outs.
Proof.
  revert d. induction ops as [|o ops IH]; intros d Hd; [by exists [], d|].
  destruct (decoder_step_wf d o Hd) as (out & d1 & Hs & Hd1 & Ho).
  destruct (IH d1 Hd1) as (outs & d' & Hr & Hd' & Hos).
  exists (out :: outs), d'. cbn [decoder_run]. rewrite Hs. cbn [mbind run_bind]. rewrite Hr.
  split; [done|]. split; [done|]. by constructor.
Qed.

Lemma max_frame_attained (ps : list (list byte)) :
  ps ≠ [] → ∃ p, p ∈ ps ∧ foldr (λ p n, (length (frame p) `max` n)%nat) 0%nat ps = length (frame p).
Proof.
  induction ps as [|p ps IH]; [done|]. intros _. cbn [foldr]. destruct (decide (ps = [])) as [->|Hne].
  - exists p. split; [apply list_elem_of_here|]. cbn [foldr]. lia.
  - destruct (IH Hne) as (q & Hq & ->).
    destruct (Nat.max_spec (length (frame p)) (length (frame q))) as [[_ ->]|[_ ->]].
    + exists q. split; [by apply list_elem_of_further|done].
    + exists p. split; [apply list_elem_of_here|done].
Qed.

(** A repair is at most [REPAIR_HEADER_MAX] bytes longer than a packet it covers. *)
Lemma encode_group_fits g :
  group_wf g → ∃ s p, (s, p) ∈ g ∧ zlen (encode_group g) <= REPAIR_HEADER_MAX + zlen p.
Proof.
  intros [Hne Hsz _ _].
  destruct (max_frame_attained g.*2) as (p & Hp & Hmax); [by destruct g|].
  apply list_elem_of_fmap in Hp as ([s q] & -> & Hin). exists s, q. split; [done|].
  assert (zlen (parity_of g) = 2 + zlen q) as Hpar.
  { unfold zlen. rewrite parity_of_length, Hmax. cbn [snd]. rewrite length_frame. lia. }
  unfold encode_group, offsets_of, REPAIR_HEADER_MAX.
  rewrite !zlen_app, zlen_be_bytes, zlen_fmap, Hpar.
  assert (zlen (tail g.*1) = zlen g - 1) as ->.
  { destruct g as [|m g]; [done|]. rewrite zlen_cons. cbn [fmap list_fmap tail].
    change (list_fmap member Z fst g) with g.*1. rewrite zlen_fmap. lia. }
  change (zlen [z2b VERSION]) with 1. change (zlen [z2b (zlen g)]) with 1. lia.
Qed.

(** ** Properties *)

(** The encoder never panics, and every packet it protects is covered by
    exactly one repair or by the group still open: over any run of pushes,
    flushes and changes of size, the repairs sent are the encodings of
    well-formed groups that, followed by the open one, spell out in order the
    packets that fit the limit in force. A flush at or after the deadline leaves
    nothing open, and a repair is at most [REPAIR_HEADER_MAX] longer than a packet
    it covers. *)
Theorem repairs_cover_what_was_sent n m ops (Hops : Forall op_wf ops) :
  ∃ gs e open, encoder_run (Encoder.new n m) ops = Ret (encode_group <$> gs, e) ∧
    mjoin gs ++ open = protected (Z.min m u16_max) ops ∧
    Forall group_wf gs ∧
    Forall (λ g, ∃ s p, (s, p) ∈ g ∧ zlen (encode_group g) <= REPAIR_HEADER_MAX + zlen p) gs ∧
    (∀ opened, Encoder.opened_at e = Some opened → group_wf open ∧
       ∀ now, opened + GROUP_MAX_AGE <= now →
         ∃ e', Encoder.flush_due e now = Ret (Some (encode_group open), e') ∧
               Encoder.opened_at e' = None).
Proof.
  destruct (encoder_run_opens ops _ [] (opens_new n m) Hops) as (gs & e & open & Hr & Ho & Hgs & Hc).
  exists gs, e, open. split_and!; [done..| |].
  - eapply Forall_impl; [exact Hgs|]. intros g. apply encode_group_fits.
  - intros opened Hop. assert (open ≠ []) as Hne.
    { intros ->. destruct (op_empty e [] Ho eq_refl) as [_ Hn]. congruence. }
    split; [apply (op_open e open Ho Hne)|]. intros now Hnow.
    unfold Encoder.flush_due, Encoder.expired, Encoder.deadline. rewrite Hop. simpl.
    rewrite (proj2 (Z.leb_le _ _)) by done.
    destruct (close_opens e open Ho) as (e' & -> & Ho' & _). exists e'. split; [by destruct open|].
    apply (op_empty e' [] Ho' eq_refl).
Qed.

Lemma repairs_cover_what_was_sent_witness :
  let ops := [Push 7 (str "a") 0; Push 9 (str "bcd") 1; SetGroup 1; Push 12 (str "e") 2] in
  ∃ gs e open, encoder_run (Encoder.new 4 1400) ops = Ret (encode_group <$> gs, e) ∧
    mjoin gs ++ open = protected 1400 ops ∧ Forall group_wf gs ∧
    Forall (λ g, ∃ s p, (s, p) ∈ g ∧ zlen (encode_group g) <= REPAIR_HEADER_MAX + zlen p) gs ∧
    (∀ opened, Encoder.opened_at e = Some opened → group_wf open ∧
       ∀ now, opened + GROUP_MAX_AGE <= now →
         ∃ e', Encoder.flush_due e now = Ret (Some (encode_group open), e') ∧
               Encoder.opened_at e' = None).
Proof. apply (repairs_cover_what_was_sent 4 1400). repeat constructor; simpl; lia. Defined.

(** C21. One lost packet of a group is rebuilt exactly: a decoder that was handed
    the packets [ds], which hold every member of the group except one that nobody
    delivered, answers the group's repair with that member, byte for byte. The
    other deliveries may be any packets of the last 512 sequences. *)
Theorem lost_member_is_rebuilt d ds g s p now
  (Hd : stores d) (Hstoring : Decoder.storing d = true)
  (Hds : in_history ds) (Hfull : ∀ t q, (t, q) ∈ ds → q ≠ [])
  (Hg : group_wf g) (Hlost : (s, p) ∈ g) (Hnot : s ∉ ds.*1)
  (Hrest : ∀ t q, (t, q) ∈ g → t ≠ s → (t, q) ∈ ds) :
  ∃ d', remember_all d ds = Ret d' ∧
    (Decoder.accept_repair d' (encode_group g) now (λ t, bool_decide (t ∈ ds.*1))).1 = Some (s, p).
Proof.
  destruct (remember_all_stored ds d Hd Hstoring Hds Hfull) as (d' & Hr & _ & _ & Hget & _).
  exists d'. split; [done|]. apply accept_repair_rebuilds; [done|done|by apply bool_decide_eq_false|].
  intros t q Hin Hne. specialize (Hrest t q Hin Hne). split; [|by apply Hget].
  apply bool_decide_eq_true, list_elem_of_fmap. by exists (t, q).
Qed.

Lemma lost_member_is_rebuilt_witness :
  let g := [(5, str "one"); (6, str "second"); (9, str "3")] in
  let ds := [(9, str "3"); (300, str "other"); (5, str "one")] in
  ∃ d', remember_all (Decoder.mk [] [] true 0 0) ds = Ret d' ∧
    (Decoder.accept_repair d' (encode_group g) 0 (λ t, bool_decide (t ∈ ds.*1))).1
    = Some (6, str "second").
Proof.
  apply lost_member_is_rebuilt; simpl.
  - by left.
  - done.
  - split; [apply (bool_decide_unpack _); vm_compute; exact I|].
    intros a b Ha Hb. unfold RECENT_CAPACITY.
    change (a ∈ [9; 300; 5]) in Ha. change (b ∈ [9; 300; 5]) in Hb. set_unfold in Ha. set_unfold in Hb.
    destruct_or!; subst; lia.
  - intros t q Hin. set_unfold in Hin. destruct_or!; simplify_eq; done.
  - split; [done|by vm_compute|repeat constructor|].
    repeat constructor; unfold first_of; cbn; done.
  - apply (bool_decide_unpack _). vm_compute. exact I.
  - apply (bool_decide_unpack _). vm_compute. exact I.
  - intros t q Hin Hne. set_unfold in Hin. destruct_or!; simplify_eq; set_solver.
Defined.

(** A decoder is safe on any input, in any order: it never panics, it never
    holds more than 32 repairs, and a packet it rebuilds had not been delivered
    and is not empty. *)
Theorem decoder_is_safe ops :
  ∃ outs d, decoder_run Decoder.empty ops = Ret (outs, d) ∧
    zlen (Decoder.pending d) <= PENDING_CAPACITY ∧
    Forall2 sound_output ops outs.
Proof.
  destruct (decoder_run_wf ops Decoder.empty) as (outs & d & Hr & [_ Hp] & Ho).
  { split; [by left|done]. }
  by exists outs, d.
Qed.

(** Offers and acceptances are read back exactly: a payload parses to a group
    size and an MTU if and only if it is their encoding and the group size is one
    the encoder supports. *)
Theorem offers_round_trip payload o n :
  (parse_offer payload = Some o ↔
     payload = offer o ∧ 1 <= offer_group o <= MAX_GROUP ∧ 0 <= offer_mtu o < 2 ^ 16) ∧
  (accepted_group payload = Some n ↔ payload = accept n ∧ 1 <= n <= MAX_GROUP).
Proof.
  assert (∀ tag pl k, length tag = 4%nat →
    (parse_control tag pl = Some k ↔ pl = control tag k ∧ 1 <= k <= MAX_GROUP)) as Hctl.
  { intros tag pl k Ht. unfold parse_control, control. split.
    - destruct pl as [|a [|b [|c [|e [|v [|g [|]]]]]]]; try done.
      case_match eqn:E; [|done]. intros [= <-]. b2p. apply bool_decide_eq_true in H as <-.
      split; [|done]. simpl. rewrite z2b_b2z, <-(z2b_b2z v). by repeat f_equal.
    - intros [-> Hk]. do 4 (destruct tag as [|? tag]; [done|]). destruct tag; [|done]. simpl.
      rewrite (bool_decide_true _ eq_refl). change (b2z (z2b VERSION) =? VERSION) with true.
      unfold MAX_GROUP in *.
      rewrite b2z_z2b, Z.mod_small, !(proj2 (Z.leb_le _ _)) by lia. done. }
  split; [|by apply Hctl].
  unfold parse_offer, offer. destruct o as [g u]. cbn [offer_group offer_mtu].
  destruct (Z.ltb_spec (zlen payload) CONTROL_LEN) as [Hs|Hs].
  { split; [done|]. intros [-> _]. rewrite zlen_app, zlen_be_bytes in Hs.
    unfold CONTROL_LEN, zlen in Hs. simpl in Hs. lia. }
  assert (Hsplit : payload = sub payload 0 CONTROL_LEN ++ sub payload CONTROL_LEN (zlen payload)).
  { rewrite <-sub_split by (unfold CONTROL_LEN in *; lia). symmetry. apply sub_all. }
  cbn zeta. set (head := sub payload 0 _) in *. set (mtu := sub payload CONTROL_LEN _) in *.
  assert (zlen head = 6) as Hhead by (unfold head, CONTROL_LEN in *; rewrite zlen_sub; lia).
  split.
  - destruct (Z.eqb_spec (zlen mtu) 2) as [Hm|]; [|done]. cbn [negb].
    destruct (parse_control OFFER head) as [k|] eqn:Ek; [|done]. cbn [mbind option_bind].
    intros H. assert (g = k ∧ u = be_Z mtu) as [-> ->] by (split; congruence). clear H.
    apply Hctl in Ek as [Ek Hk]; [|done]. split; [|split; [done|]].
    + rewrite Hsplit, Ek, be_bytes_be_Z' by (rewrite Hm; done). done.
    + pose proof (be_Z_bound mtu) as Hb. by rewrite Hm in Hb.
  - intros (Heq & Hk & Hu). rewrite Hsplit in Heq.
    apply app_inj_1 in Heq as [Hh Hmm]; [|unfold zlen in Hhead; simpl; lia].
    rewrite Hmm, Hh, zlen_be_bytes. cbn [negb].
    rewrite (proj2 (Hctl OFFER _ g eq_refl)) by done. cbn [mbind option_bind].
    rewrite be_Z_be_bytes, Z.mod_small by done. done.
Qed.
