(* ===== verification/Icmp.v ===== *)
(** * Internet checksum and hand-built ICMP

    Models [engine/src/icmp.rs]: the one's-complement checksum, the echo packets
    both session kinds measure the tunnel with, and the "fragmentation needed"
    answer of split mode. An [Ipv4Addr] is the list of its four octets. *)
From S2P Require Import Prelude.

(** ** internet_checksum *)

(** The sum over [chunks_exact(2)] and the odd last byte. *)
Fixpoint word_sum (bytes : list byte) : Z :=
  match bytes with
  | a :: b :: rest => (b2z a * 256 + b2z b) + word_sum rest
  | [a] => Z.shiftl (b2z a) 8
  | [] => 0
  end.

(** [while sum > 0xffff { sum = (sum & 0xffff) + (sum >> 16) }]. *)
Fixpoint fold_carry (fuel : nat) (sum : Z) : Z :=
  match fuel with
  | O => sum
  | S fuel' =>
      if 0xffff <? sum then fold_carry fuel' (Z.land sum 0xffff + Z.shiftr sum 16) else sum
  end.

(** Two rounds settle any [u32], see [fold_carry_u32]. *)
Definition CARRY_ROUNDS : nat := 2.

(** [!(sum as u16)]. *)
Definition not16 (z : Z) : Z := 65535 - z mod 65536.

Definition internet_checksum (bytes : list byte) : Z :=
  not16 (fold_carry CARRY_ROUNDS (word_sum bytes)).

(** ** Packets *)

Notation Ipv4Addr := (list byte) (only parsing).

Definition ECHO_PAYLOAD : list byte := str "gamepath-data-plane".

Definition icmp_echo_packet (source destination : Ipv4Addr) (identifier sequence : Z)
    (reply : bool) : list byte :=
  let payload := ECHO_PAYLOAD in
  let total_length := 20 + 8 + zlen payload in
  let packet := replicate (Z.to_nat total_length) x00 in
  let packet := paste packet 0 [z2b 0x45] in
  let packet := paste packet 2 (be_bytes 2 total_length) in
  let packet := paste packet 6 (be_bytes 2 0x4000) in
  let packet := paste packet 8 [z2b 64] in
  let packet := paste packet 9 [z2b 1] in
  let packet := paste packet 12 source in
  let packet := paste packet 16 destination in
  let packet := paste packet 10 (be_bytes 2 (internet_checksum (sub packet 0 20))) in
  let packet := paste packet 20 [z2b (if reply then 0 else 8)] in
  let packet := paste packet 24 (be_bytes 2 identifier) in
  let packet := paste packet 26 (be_bytes 2 sequence) in
  let packet := paste packet 28 payload in
  paste packet 22 (be_bytes 2 (internet_checksum (sub packet 20 (zlen packet)))).

(** Every index is below the 28 bytes that the first test demands. *)
Definition icmp_reply_sequence (packet : list byte) (source destination : Ipv4Addr)
    (identifier : Z) : option Z :=
  if (zlen packet <? 28) || negb (Z.shiftr (nz packet 0) 4 =? 4) then None else
  let header_length := Z.land (nz packet 0) 0x0f * 4 in
  let total_length := nz16 packet 2 in
  if (header_length <? 20) || (total_length <? header_length + 8)
     || (zlen packet <? total_length) || negb (nz packet 9 =? 1)
     || negb (bool_decide (sub packet 12 16 = source))
     || negb (bool_decide (sub packet 16 20 = destination))
     || negb (Z.land (nz16 packet 6) 0x3fff =? 0)
  then None else
  let echo := sub packet header_length total_length in
  if (nz echo 0 =? 0) && (nz echo 1 =? 0) && (nz16 echo 4 =? identifier)
     && (internet_checksum echo =? 0)
  then Some (nz16 echo 6) else None.

(** [matches!(packet.get(header_length), Some(0 | 8))]. *)
Definition is_echo_type (b : option byte) : bool :=
  match b with Some t => (b2z t =? 0) || (b2z t =? 8) | None => false end.

(** The answer for [packet], once it is known to deserve one. *)
Definition needed_reply (packet quoted : list byte) (mtu : Z) : run (list byte) :=
  source ← slice packet 16 20;
  destination ← slice packet 12 16;
  let length := 20 + 8 + zlen quoted in
  let reply := replicate (Z.to_nat length) x00 in
  let reply := paste reply 0 [z2b 0x45] in
  let reply := paste reply 2 (be_bytes 2 length) in
  let reply := paste reply 6 (be_bytes 2 0x4000) in
  let reply := paste reply 8 [z2b 64] in
  let reply := paste reply 9 [z2b 1] in
  let reply := paste reply 12 source in
  let reply := paste reply 16 destination in
  let reply := paste reply 10 (be_bytes 2 (internet_checksum (sub reply 0 20))) in
  let reply := paste reply 20 [z2b 3] in
  let reply := paste reply 21 [z2b 4] in
  let reply := paste reply 26 (be_bytes 2 mtu) in
  let reply := paste reply 28 quoted in
  Ret (paste reply 22 (be_bytes 2 (internet_checksum (sub reply 20 (zlen reply))))).

(** The early returns before [packet[9]] need the first eight bytes only. *)
Definition fragmentation_needed (packet : list byte) (mtu : Z) : run (option (list byte)) :=
  if zlen packet <? 8 then Ret None else
  let header_length := Z.land (nz packet 0) 0x0f * 4 in
  let total_length := nz16 packet 2 in
  let flags := nz16 packet 6 in
  if negb (Z.shiftr (nz packet 0) 4 =? 4) || (header_length <? 20)
     || (zlen packet <? total_length) || (total_length <=? mtu)
     || (Z.land flags 0x4000 =? 0) || negb (Z.land flags 0x3fff =? 0)
  then Ret None else
  protocol ← idx packet 9;
  if (b2z protocol =? 1) && negb (is_echo_type (get packet header_length)) then Ret None else
  quoted ← slice packet 0 (Z.min (header_length + 8) total_length);
  Some <$> needed_reply packet quoted mtu.

#[global] Arguments word_sum : simpl nomatch.

(** ** The checksum *)

(** The one's-complement representative of a sum: zero only for zero. *)
Definition ones (s : Z) : Z := if s =? 0 then 0 else (s - 1) mod 65535 + 1.

Lemma word_sum_nonneg l : 0 <= word_sum l.
Proof.
  assert (∀ n l, (length l <= n)%nat → 0 <= word_sum l) as H; [|by apply (H (length l))].
  intros n. induction n as [|n IH]; intros [|a [|b k]] Hl; simpl in *; try lia.
  - rewrite Z.shiftl_mul_pow2 by lia. pose proof (b2z_range a). lia.
  - pose proof (b2z_range a). pose proof (b2z_range b). specialize (IH k ltac:(lia)). lia.
Qed.

Lemma word_sum_app l k : Nat.Even (length l) → word_sum (l ++ k) = word_sum l + word_sum k.
Proof.
  assert (∀ n l, (length l <= n)%nat → Nat.Even (length l) →
            word_sum (l ++ k) = word_sum l + word_sum k) as H; [|by apply (H (length l))].
  intros n. induction n as [|n IH]; intros [|a [|b m]] Hl He; simpl in *; try lia.
  - by destruct He as [? ?]; lia.
  - rewrite IH; [lia|lia|]. destruct He as [q ?]. exists (q - 1)%nat. lia.
Qed.

Lemma word_sum_bound l : word_sum l <= 32768 * (zlen l + 1).
Proof.
  assert (∀ n l, (length l <= n)%nat → word_sum l <= 32768 * (zlen l + 1)) as H;
    [|by apply (H (length l))].
  intros n. induction n as [|n IH]; intros [|a [|b k]] Hl; simpl in *; try (unfold zlen; simpl; lia).
  - rewrite Z.shiftl_mul_pow2 by lia. pose proof (b2z_range a). unfold zlen. simpl. lia.
  - pose proof (b2z_range a). pose proof (b2z_range b). specialize (IH k ltac:(lia)).
    unfold zlen in *. simpl length. lia.
Qed.

Lemma carry_step s : 0 <= s → Z.land s 0xffff + Z.shiftr s 16 = s mod 65536 + s / 65536.
Proof.
  intros. change 0xffff with (Z.ones 16). rewrite Z.land_ones, Z.shiftr_div_pow2 by lia. done.
Qed.

Lemma ones_unique s r : 0 <= s → 0 <= r <= 65535 → (r = 0 ↔ s = 0) → r mod 65535 = s mod 65535 →
  r = ones s.
Proof.
  intros Hs Hr Hz Hm. unfold ones. destruct (Z.eqb_spec s 0) as [->|Hne]; [tauto|].
  assert (r ≠ 0) by tauto.
  assert ((r - 1) mod 65535 = (s - 1) mod 65535) as H1 by (by rewrite Zminus_mod, Hm, <-Zminus_mod).
  rewrite Z.mod_small in H1 by lia. lia.
Qed.

Lemma fold_carry_u32 s : 0 <= s < 2 ^ 32 → fold_carry CARRY_ROUNDS s = ones s.
Proof.
  intros Hs. change (2 ^ 32) with 4294967296 in Hs.
  assert (∀ t, 0 <= t → (t mod 65536 + t / 65536) mod 65535 = t mod 65535) as Hmod.
  { intros t Ht. rewrite (Z.div_mod t 65536) at 3 by lia.
    replace (65536 * (t / 65536) + t mod 65536)
      with (t mod 65536 + t / 65536 + t / 65536 * 65535) by lia.
    by rewrite Z.mod_add by lia. }
  unfold CARRY_ROUNDS, fold_carry.
  destruct (Z.ltb_spec 65535 s); [|apply ones_unique; lia].
  rewrite carry_step by lia. set (t := s mod 65536 + s / 65536).
  assert (1 <= t <= 131070) as Ht.
  { pose proof (Z.div_mod s 65536). pose proof (Z.mod_pos_bound s 65536).
    assert (0 < s / 65536) by (apply Z.div_str_pos; lia).
    assert (s / 65536 < 65536) by (apply Z.div_lt_upper_bound; lia).
    unfold t. lia. }
  assert (t mod 65535 = s mod 65535) as Hts by (apply Hmod; lia).
  destruct (Z.ltb_spec 65535 t); [|apply ones_unique; lia].
  rewrite carry_step by lia.
  assert (t / 65536 = 1) as Hd by (symmetry; apply (Z.div_unique _ _ _ (t - 65536)); lia).
  pose proof (Z.div_mod t 65536). pose proof (Z.mod_pos_bound t 65536).
  apply ones_unique; [lia|lia|lia|]. rewrite Hmod; lia.
Qed.

(** A buffer no longer than an IPv4 datagram sums below [2^32]. *)
Lemma checksum_ones l : zlen l <= 65535 → internet_checksum l = 65535 - ones (word_sum l).
Proof.
  intros Hl. unfold internet_checksum, not16.
  pose proof (word_sum_nonneg l). pose proof (word_sum_bound l).
  rewrite fold_carry_u32 by (change (2 ^ 32) with 4294967296; lia).
  rewrite Z.mod_small; [done|]. unfold ones. destruct (_ =? 0); [lia|].
  pose proof (Z.mod_pos_bound (word_sum l - 1) 65535). lia.
Qed.

Lemma checksum_range l : 0 <= internet_checksum l < 2 ^ 16.
Proof.
  unfold internet_checksum, not16.
  pose proof (Z.mod_pos_bound (fold_carry CARRY_ROUNDS (word_sum l)) 65536). lia.
Qed.

Lemma word_sum_zero l : (∀ b, b ∈ l → b = x00) → word_sum l = 0.
Proof.
  assert (∀ n l, (length l <= n)%nat → (∀ b, b ∈ l → b = x00) → word_sum l = 0) as H;
    [|by apply (H (length l))].
  intros n. induction n as [|n IH]; intros [|a [|b k]] Hl Hb; simpl in *; try lia.
  - by rewrite (Hb a) by set_solver.
  - rewrite (Hb a), (Hb b), IH by (set_solver || lia). done.
Qed.

Lemma word_sum_be2 z : 0 <= z < 2 ^ 16 → word_sum (be_bytes 2 z) = z.
Proof.
  intros Hz. change (2 ^ 16) with 65536 in Hz.
  change (word_sum (be_bytes 2 z)) with
    (b2z (z2b (z / 256 ^ 1)) * 256 + b2z (z2b (z / 256 ^ 0)) + 0).
  change (256 ^ 1) with 256. change (256 ^ 0) with 1. rewrite !b2z_z2b, Z.div_1_r.
  pose proof (Z.div_mod z 256). rewrite (Z.mod_small (z / 256)); [lia|].
  split; [apply Z.div_pos; lia|apply Z.div_lt_upper_bound; lia].
Qed.

(** Writing the checksum of [a ++ 00 00 ++ b] into its zero field, at an even
    offset, makes the whole sum to zero: what a receiver verifies. *)
Lemma checksum_verifies a b :
  Nat.Even (length a) → zlen a + 2 + zlen b <= 65535 →
  let c := internet_checksum (a ++ [x00; x00] ++ b) in
  internet_checksum (a ++ be_bytes 2 c ++ b) = 0.
Proof.
  intros He Hl. cbn zeta. set (c := internet_checksum (a ++ [x00; x00] ++ b)).
  assert (Hlen : zlen (a ++ be_bytes 2 c ++ b) <= 65535).
  { rewrite !zlen_app, zlen_be_bytes. lia. }
  assert (Hz : zlen (a ++ [x00; x00] ++ b) <= 65535).
  { rewrite !zlen_app. change (zlen [x00; x00]) with 2. lia. }
  pose proof (checksum_range (a ++ [x00; x00] ++ b)) as Hc. fold c in Hc.
  assert (Nat.Even (length (be_bytes 2 c))) as He2 by (rewrite length_be_bytes; by exists 1%nat).
  assert (Nat.Even (length [x00; x00])) as He2' by (by exists 1%nat).
  rewrite checksum_ones by done.
  rewrite word_sum_app, word_sum_app, word_sum_be2 by done.
  assert (c = 65535 - ones (word_sum a + word_sum b)) as Hcc.
  { subst c. rewrite checksum_ones, word_sum_app, word_sum_app by done. simpl. by rewrite Z.add_0_l. }
  pose proof (word_sum_nonneg a). pose proof (word_sum_nonneg b).
  set (s := word_sum a + word_sum b) in *.
  replace (word_sum a + (c + word_sum b)) with (s + c) by lia.
  assert (ones (s + c) = 65535); [|lia]. symmetry. apply ones_unique; [lia|lia| |].
  - split; [lia|]. intros Hsc. assert (s = 0) as Hs by lia. rewrite Hs in Hcc. cbn in Hcc. lia.
  - rewrite Hcc. unfold ones. destruct (Z.eqb_spec s 0) as [->|Hne]; [done|].
    pose proof (Z.div_mod (s - 1) 65535 ltac:(lia)) as Hdm.
    replace (s + (65535 - ((s - 1) mod 65535 + 1))) with (65535 + (s - 1) / 65535 * 65535) by lia.
    by rewrite Z.mod_add by lia.
Qed.

(** ** Echo packets *)

Definition echo_ip_head : list byte :=
  [x45; x00] ++ be_bytes 2 47 ++ [x00; x00] ++ be_bytes 2 0x4000 ++ [x40; x01].

Definition echo_body_tail (identifier sequence : Z) : list byte :=
  be_bytes 2 identifier ++ be_bytes 2 sequence ++ ECHO_PAYLOAD.

Lemma echo_layout src dst i q r :
  zlen src = 4 → zlen dst = 4 →
  icmp_echo_packet src dst i q r =
  let t := [z2b (if r : bool then 0 else 8); x00] in
  (echo_ip_head ++ be_bytes 2 (internet_checksum (echo_ip_head ++ [x00; x00] ++ src ++ dst))
    ++ src ++ dst) ++
  (t ++ be_bytes 2 (internet_checksum (t ++ [x00; x00] ++ echo_body_tail i q))
    ++ echo_body_tail i q).
Proof.
  unfold zlen. intros Hs Hd.
  do 4 (destruct src as [|? src]; [simpl in Hs; lia|]). destruct src; [|simpl in Hs; lia].
  do 4 (destruct dst as [|? dst]; [simpl in Hd; lia|]). destruct dst; [|simpl in Hd; lia].
  reflexivity.
Qed.

Lemma u16_be_bytes (l a b : list byte) z i :
  l = a ++ be_bytes 2 z ++ b → i = zlen a → 0 <= z < 2 ^ 16 → nz16 l i = z.
Proof.
  intros -> -> Hz. pose proof (zlen_nonneg a). pose proof (zlen_nonneg b).
  rewrite nz16_be_Z by (rewrite ?zlen_app, ?zlen_be_bytes; lia).
  rewrite sub_app_r, sub_app_l by (rewrite ?zlen_be_bytes; lia).
  replace (sub _ _ _) with (sub (be_bytes 2 z) 0 (zlen (be_bytes 2 z)))
    by (rewrite zlen_be_bytes; f_equal; lia).
  rewrite sub_all, be_Z_be_bytes. apply Z.mod_small. exact Hz.
Qed.

Lemma echo_fields src dst i q r :
  zlen src = 4 → zlen dst = 4 → 0 <= i < 2 ^ 16 → 0 <= q < 2 ^ 16 →
  let p := icmp_echo_packet src dst i q r in
  zlen p = 47 ∧ nz p 0 = 69 ∧ nz16 p 2 = 47 ∧ nz16 p 6 = 0x4000 ∧ nz p 9 = 1 ∧
  sub p 12 16 = src ∧ sub p 16 20 = dst ∧ internet_checksum (sub p 0 20) = 0 ∧
  let e := sub p 20 47 in
  nz e 0 = (if r then 0 else 8) ∧ nz e 1 = 0 ∧ nz16 e 4 = i ∧ nz16 e 6 = q ∧
  internet_checksum e = 0.
Proof.
  intros Hs Hd Hi Hq. rewrite echo_layout by done. cbn zeta.
  set (t := [z2b (if r then 0 else 8); x00]).
  set (c1 := internet_checksum (echo_ip_head ++ _)). set (c2 := internet_checksum (t ++ _)).
  set (h := echo_ip_head ++ _). set (e := t ++ _).
  assert (zlen h = 20) as Hh by (unfold h; rewrite !zlen_app, Hs, Hd; done).
  assert (zlen e = 27) as He by done.
  assert (sub (h ++ e) 20 47 = e) as ->.
  { rewrite sub_app_r, Hh by lia. replace (47 - 20) with (zlen e) by lia. apply sub_all. }
  assert (sub (h ++ e) 0 20 = h) as ->.
  { rewrite sub_app_l by lia. rewrite <-Hh. apply sub_all. }
  split_and!; try done.
  - by rewrite zlen_app, Hh, He.
  - rewrite sub_app_l by lia.
    apply (sub_eq h (echo_ip_head ++ be_bytes 2 c1) src dst); [|done|by rewrite Hs].
    unfold h. by rewrite <-app_assoc.
  - rewrite sub_app_l by lia.
    apply (sub_eq h (echo_ip_head ++ be_bytes 2 c1 ++ src) dst []); [| |by rewrite Hd].
    + unfold h. by rewrite app_nil_r, <-!app_assoc.
    + rewrite !zlen_app, Hs. done.
  - unfold h, c1. apply checksum_verifies; [by exists 5%nat|]. rewrite zlen_app, Hs, Hd. done.
  - unfold e, t. by destruct r.
  - apply (u16_be_bytes e (t ++ be_bytes 2 c2) (be_bytes 2 q ++ ECHO_PAYLOAD)); done.
  - apply (u16_be_bytes e (t ++ be_bytes 2 c2 ++ be_bytes 2 i) ECHO_PAYLOAD); done.
  - unfold e, c2. apply checksum_verifies; [by exists 1%nat|done].
Qed.

(** ** Fragmentation needed *)

Definition needed_ip_head (n : Z) : list byte :=
  [x45; x00] ++ be_bytes 2 n ++ [x00; x00] ++ be_bytes 2 0x4000 ++ [x40; x01].

Lemma paste_app_l (l k : list byte) i bs :
  0 <= i → i + zlen bs <= zlen l → paste (l ++ k) i bs = paste l i bs ++ k.
Proof.
  intros. unfold paste. pose proof (zlen_nonneg bs). unfold zlen in *.
  rewrite take_app_le, drop_app_le by lia. by rewrite <-!app_assoc.
Qed.

Lemma paste_app_r (l k : list byte) i bs :
  zlen l <= i → paste (l ++ k) i bs = l ++ paste k (i - zlen l) bs.
Proof.
  intros. unfold paste. pose proof (zlen_nonneg bs). unfold zlen in *.
  rewrite take_app_ge, drop_app_ge by lia. rewrite <-app_assoc. do 2 f_equal; [f_equal; lia|].
  f_equal. f_equal. lia.
Qed.

Lemma paste_all (l bs : list byte) : zlen l = zlen bs → paste l 0 bs = bs.
Proof.
  intros Hl. unfold paste. rewrite take_0, drop_ge by (unfold zlen in *; lia).
  by rewrite app_nil_r.
Qed.

Lemma needed_layout packet quoted mtu :
  20 <= zlen packet →
  let n := 28 + zlen quoted in
  let addresses := sub packet 16 20 ++ sub packet 12 16 in
  let rest := be_bytes 2 0 ++ be_bytes 2 mtu ++ quoted in
  needed_reply packet quoted mtu = Ret (
    (needed_ip_head n ++ be_bytes 2 (internet_checksum (needed_ip_head n ++ [x00; x00] ++ addresses))
      ++ addresses) ++
    ([x03; x04] ++ be_bytes 2 (internet_checksum ([x03; x04] ++ [x00; x00] ++ rest)) ++ rest)).
Proof.
  intros Hp. cbn zeta. unfold needed_reply.
  rewrite !slice_in by lia. cbn [mbind run_bind].
  assert (zlen (sub packet 16 20) = 4) as Hs by (rewrite zlen_sub; lia).
  assert (zlen (sub packet 12 16) = 4) as Hd by (rewrite zlen_sub; lia).
  revert Hs Hd. generalize (sub packet 16 20) as src. generalize (sub packet 12 16) as dst.
  intros dst src Hs Hd. change (20 + 8 + zlen quoted) with (28 + zlen quoted).
  set (n := 28 + zlen quoted).
  assert (replicate (Z.to_nat n) x00 = replicate 28 x00 ++ replicate (length quoted) x00) as ->.
  { rewrite <-replicate_add. f_equal. unfold n, zlen. lia. }
  set (tail := replicate (length quoted) x00).
  assert (Ht : zlen tail = zlen quoted) by (unfold tail, zlen; by rewrite length_replicate).
  unfold zlen in Hs, Hd.
  do 4 (destruct src as [|? src]; [simpl in Hs; lia|]). destruct src; [|simpl in Hs; lia].
  do 4 (destruct dst as [|? dst]; [simpl in Hd; lia|]). destruct dst; [|simpl in Hd; lia].
  clear Hs Hd. f_equal. cbn zeta.
  set (c1 := internet_checksum (needed_ip_head n ++ _)).
  set (A := needed_ip_head n ++ be_bytes 2 c1 ++ [b; b0; b1; b2] ++ [b3; b4; b5; b6]).
  set (B := [x03; x04; x00; x00] ++ be_bytes 2 0 ++ be_bytes 2 mtu).
  match goal with |- context [paste ?x 28 quoted] =>
    assert (x = (A ++ B) ++ tail) as -> by reflexivity end.
  rewrite paste_app_r by done. change (28 - zlen (A ++ B)) with 0. rewrite paste_all by done.
  replace (sub ((A ++ B) ++ quoted) 20 _) with (B ++ quoted).
  - rewrite (paste_app_l (A ++ B) quoted) by (rewrite ?zlen_be_bytes; done). reflexivity.
  - symmetry. apply (sub_eq _ A (B ++ quoted) []); [by rewrite app_nil_r, app_assoc|done|].
    rewrite !zlen_app. change (zlen A) with 20. lia.
Qed.

Lemma reply_fields (src dst q2 : list byte) n mtu :
  zlen src = 4 → zlen dst = 4 → n = 28 + zlen q2 → n < 2 ^ 16 → 0 <= mtu < 2 ^ 16 →
  let addresses := src ++ dst in
  let rest := be_bytes 2 0 ++ be_bytes 2 mtu ++ q2 in
  let reply :=
    (needed_ip_head n ++ be_bytes 2 (internet_checksum (needed_ip_head n ++ [x00; x00] ++ addresses))
      ++ addresses) ++
    ([x03; x04] ++ be_bytes 2 (internet_checksum ([x03; x04] ++ [x00; x00] ++ rest)) ++ rest) in
  zlen reply = n ∧ nz16 reply 2 = n ∧ sub reply 12 16 = src ∧ sub reply 16 20 = dst ∧
  nz reply 9 = 1 ∧ nz reply 20 = 3 ∧ nz reply 21 = 4 ∧ nz16 reply 26 = mtu ∧
  sub reply 28 n = q2 ∧ internet_checksum (sub reply 0 20) = 0 ∧
  internet_checksum (sub reply 20 n) = 0.
Proof.
  intros Hs Hd Hn Hlt Hm. change (2 ^ 16) with 65536 in *. cbn zeta.
  pose proof (zlen_nonneg q2) as Hq.
  set (c1 := internet_checksum (needed_ip_head n ++ _)).
  set (rest := be_bytes 2 0 ++ be_bytes 2 mtu ++ q2).
  set (c2 := internet_checksum ([x03; x04] ++ [x00; x00] ++ rest)).
  set (h := needed_ip_head n ++ be_bytes 2 c1 ++ src ++ dst).
  set (e := [x03; x04] ++ be_bytes 2 c2 ++ rest).
  assert (zlen h = 20) as Hh by (unfold h; rewrite !zlen_app, Hs, Hd; done).
  assert (zlen rest = 4 + zlen q2) as Hr by (unfold rest; rewrite !zlen_app, !zlen_be_bytes; lia).
  assert (zlen e = 8 + zlen q2) as He.
  { unfold e. rewrite !zlen_app, !zlen_be_bytes, Hr. change (zlen [x03; x04]) with 2. lia. }
  split_and!; try done.
  - rewrite zlen_app. lia.
  - apply (u16_be_bytes _ [x45; x00] ([x00; x00] ++ be_bytes 2 0x4000 ++ [x40; x01] ++
      be_bytes 2 c1 ++ src ++ dst ++ e)); [|done|lia].
    unfold h, needed_ip_head. by rewrite <-!app_assoc.
  - apply (sub_eq _ (needed_ip_head n ++ be_bytes 2 c1) src (dst ++ e)); [|done|by rewrite Hs].
    unfold h. by rewrite <-!app_assoc.
  - apply (sub_eq _ (needed_ip_head n ++ be_bytes 2 c1 ++ src) dst e); [| |by rewrite Hd].
    + unfold h. by rewrite <-!app_assoc.
    + rewrite !zlen_app, Hs. done.
  - unfold nz. by rewrite get_app_r, Hh by lia.
  - unfold nz. by rewrite get_app_r, Hh by lia.
  - apply (u16_be_bytes _ (h ++ [x03; x04] ++ be_bytes 2 c2 ++ be_bytes 2 0) q2); [| |lia].
    + unfold e, rest. by rewrite <-!app_assoc.
    + rewrite !zlen_app, !zlen_be_bytes, Hh. done.
  - apply (sub_eq _ (h ++ [x03; x04] ++ be_bytes 2 c2 ++ be_bytes 2 0 ++ be_bytes 2 mtu) q2 []);
      [| |lia].
    + unfold e, rest. by rewrite app_nil_r, <-!app_assoc.
    + rewrite !zlen_app, !zlen_be_bytes, Hh. done.
  - rewrite (sub_eq _ [] h e 0 20) by (done || by rewrite Hh).
    apply checksum_verifies; [by exists 5%nat|]. rewrite zlen_app, Hs, Hd. done.
  - rewrite (sub_eq _ h e [] 20 n) by (rewrite ?app_nil_r, ?Hh; (done || lia)).
    apply checksum_verifies; [by exists 1%nat|]. change (zlen [x03; x04]) with 2. lia.
Qed.

(** The datagrams a sender is told about: Don't Fragment, whole, oversized, and
    no ICMP error. *)
Definition deserves (packet : list byte) (mtu : Z) : bool :=
  let header_length := Z.land (nz packet 0) 0x0f * 4 in
  (20 <=? zlen packet) && (Z.shiftr (nz packet 0) 4 =? 4) && (20 <=? header_length)
  && (nz16 packet 2 <=? zlen packet) && (mtu <? nz16 packet 2)
  && negb (Z.land (nz16 packet 6) 0x4000 =? 0) && (Z.land (nz16 packet 6) 0x3fff =? 0)
  && (negb (nz packet 9 =? 1) || is_echo_type (get packet header_length)).

Lemma fragmentation_needed_eval packet mtu :
  20 <= mtu →
  fragmentation_needed packet mtu =
  if deserves packet mtu
  then Some <$> needed_reply packet
         (sub packet 0 (Z.min (Z.land (nz packet 0) 0x0f * 4 + 8) (nz16 packet 2))) mtu
  else Ret None.
Proof.
  intros Hm. unfold fragmentation_needed, deserves. cbn zeta.
  destruct (Z.ltb_spec (zlen packet) 8) as [|Hl].
  { by rewrite (proj2 (Z.leb_gt 20 _)) by lia. }
  set (hl := Z.land (nz packet 0) 15 * 4). set (tl := nz16 packet 2).
  destruct (Z.leb_spec 20 (zlen packet)).
  2: { cbn [andb]. rewrite (Z.leb_antisym mtu), (Z.ltb_antisym tl).
       destruct (Z.leb_spec tl (zlen packet)); cbn [negb orb].
       - rewrite (proj2 (Z.ltb_ge mtu tl)) by lia. cbn [negb]. by rewrite !orb_true_r.
       - by rewrite !orb_true_r. }
  destruct (Z.eqb_spec (Z.shiftr (nz packet 0) 4) 4); cbn [negb andb orb]; [|done].
  rewrite (Z.leb_antisym hl). destruct (Z.ltb_spec hl 20) as [|Hh]; cbn [negb andb orb]; [done|].
  rewrite (Z.leb_antisym (zlen packet)).
  destruct (Z.ltb_spec (zlen packet) tl); cbn [negb andb orb]; [done|].
  rewrite (Z.ltb_antisym tl). destruct (Z.leb_spec tl mtu); cbn [negb andb orb]; [done|].
  destruct (Z.land (nz16 packet 6) 16384 =? 0); cbn [negb andb orb]; [done|].
  destruct (Z.land (nz16 packet 6) 16383 =? 0); cbn [negb andb orb]; [|done].
  destruct (idx_in packet 9 ltac:(lia)) as (b & Hg & ->). cbn [mbind run_bind].
  assert (nz packet 9 = b2z b) as -> by (unfold nz; by rewrite Hg).
  destruct (b2z b =? 1); cbn [negb andb orb].
  - destruct (is_echo_type _); cbn [negb]; [|done]. rewrite slice_in by lia. done.
  - rewrite slice_in by lia. done.
Qed.

(** The answer to a datagram that deserves one. *)
Lemma needed_fields packet mtu :
  20 <= mtu < 2 ^ 16 → deserves packet mtu = true →
  let quoted := Z.min (Z.land (nz packet 0) 0x0f * 4 + 8) (nz16 packet 2) in
  ∃ reply, Some <$> needed_reply packet (sub packet 0 quoted) mtu = Ret (Some reply) ∧
    zlen reply = 28 + quoted ∧ zlen reply <= 96 ∧ nz16 reply 2 = zlen reply ∧
    sub reply 12 16 = sub packet 16 20 ∧ sub reply 16 20 = sub packet 12 16 ∧
    nz reply 9 = 1 ∧ nz reply 20 = 3 ∧ nz reply 21 = 4 ∧ nz16 reply 26 = mtu ∧
    sub reply 28 (zlen reply) = sub packet 0 quoted ∧
    internet_checksum (sub reply 0 20) = 0 ∧
    internet_checksum (sub reply 20 (zlen reply)) = 0.
Proof.
  intros Hm Hd. unfold deserves in Hd. cbn zeta in *. b2p.
  set (q := Z.min _ _).
  assert (0 <= Z.land (nz packet 0) 15 < 2 ^ 4) as Hland.
  { change 15 with (Z.ones 4). rewrite Z.land_ones by lia. apply Z.mod_pos_bound. lia. }
  change (2 ^ 4) with 16 in Hland.
  assert (20 <= q <= 68) as Hq by (unfold q; lia).
  assert (q <= nz16 packet 2) by (unfold q; lia).
  assert (zlen (sub packet 0 q) = q) as Hz by (rewrite zlen_sub; lia).
  destruct (reply_fields (sub packet 16 20) (sub packet 12 16) (sub packet 0 q) (28 + q) mtu)
    as (E1 & E2 & E3 & E4 & E5 & E6 & E7 & E8 & E9 & E10 & E11);
    [rewrite zlen_sub; lia|rewrite zlen_sub; lia|lia|change (2 ^ 16) with 65536; lia|lia|].
  rewrite needed_layout by lia. cbn zeta in *. rewrite Hz. cbn [fmap run_fmap].
  eexists. split; [reflexivity|]. rewrite E1. split_and!; done || lia.
Qed.

(** What goes back, if anything does. *)
Lemma fragmentation_needed_back packet mtu :
  20 <= mtu < 2 ^ 16 →
  ∃ answer, fragmentation_needed packet mtu = Ret answer ∧
    ∀ reply, answer = Some reply →
      28 <= zlen reply ∧ sub reply 16 20 = sub packet 12 16 ∧ nz reply 9 = 1.
Proof.
  intros Hm. rewrite fragmentation_needed_eval by lia. destruct (deserves packet mtu) eqn:Hd; [|by exists None].
  destruct (needed_fields packet mtu Hm Hd) as (reply & -> & Hl & _ & _ & _ & Hs & Hp & _).
  exists (Some reply). split; [done|]. intros ? [= <-]. split_and!; [|done|done].
  unfold deserves in Hd. cbn zeta in Hd. b2p. lia.
Qed.

(** ** Properties *)

(** The checksum is the one's-complement sum of RFC 1071: it is the
    complement of the sum of the words folded modulo 65535, the loop that folds
    it ends within two rounds, and writing it over a zero field at an even offset
    makes the whole buffer verify. *)
Theorem checksum_is_ones_complement bytes (Hl : zlen bytes <= 65535) :
  internet_checksum bytes = 65535 - ones (word_sum bytes) ∧
  ∀ a b, bytes = a ++ [x00; x00] ++ b → Nat.Even (length a) →
    internet_checksum (a ++ be_bytes 2 (internet_checksum bytes) ++ b) = 0.
Proof.
  split; [by apply checksum_ones|]. intros a b -> He. apply checksum_verifies; [done|].
  revert Hl. rewrite !zlen_app. change (zlen [x00; x00]) with 2. lia.
Qed.

Lemma checksum_is_ones_complement_witness :
  internet_checksum [x45; x00; x00; x00; x07] = 65535 - ones (word_sum [x45; x00; x00; x00; x07]) ∧
  ∀ a b, [x45; x00; x00; x00; x07] = a ++ [x00; x00] ++ b → Nat.Even (length a) →
    internet_checksum (a ++ be_bytes 2 (internet_checksum [x45; x00; x00; x00; x07]) ++ b) = 0.
Proof. apply checksum_is_ones_complement. by vm_compute. Defined.

(** An echo reply is recognised by exactly the probe it answers: the packet
    built for one pair of addresses, identifier and sequence is read back as that
    sequence when it is a reply and all of them match, and as nothing otherwise;
    its IPv4 header checksum verifies too. *)
Theorem echo_answers_its_probe src dst s d i i' q r
  (Hs : zlen src = 4) (Hd : zlen dst = 4) (Hi : 0 <= i < 2 ^ 16) (Hq : 0 <= q < 2 ^ 16) :
  icmp_reply_sequence (icmp_echo_packet src dst i q r) s d i'
  = (if r && bool_decide (src = s) && bool_decide (dst = d) && (i =? i') then Some q else None) ∧
  internet_checksum (sub (icmp_echo_packet src dst i q r) 0 20) = 0.
Proof.
  destruct (echo_fields src dst i q r Hs Hd Hi Hq)
    as (F1 & F2 & F3 & F4 & F5 & F6 & F7 & F8 & E1 & E2 & E3 & E4 & E5).
  split; [|done]. unfold icmp_reply_sequence. rewrite F1, F2, F3, F4, F5, F6, F7.
  change (Z.land 69 15 * 4) with 20. cbn [Z.ltb Z.eqb Z.compare negb orb Z.shiftr Z.shiftl].
  change (47 <? 28) with false. cbn. rewrite E1, E2, E3, E4, E5.
  destruct r; simpl; [|by repeat case_match].
  repeat case_bool_decide; simpl; try done. destruct (i =? i'); done.
Qed.

Lemma echo_answers_its_probe_witness :
  icmp_reply_sequence (icmp_echo_packet [x0a; xcb; x00; x02] [x01; x01; x01; x01] 9 77 true)
    [x0a; xcb; x00; x02] [x01; x01; x01; x01] 9 = Some 77 ∧
  internet_checksum
    (sub (icmp_echo_packet [x0a; xcb; x00; x02] [x01; x01; x01; x01] 9 77 true) 0 20) = 0.
Proof.
  apply (echo_answers_its_probe [x0a; xcb; x00; x02] [x01; x01; x01; x01]
    [x0a; xcb; x00; x02] [x01; x01; x01; x01] 9 9 77 true); done.
Defined.

(** "Fragmentation needed" never panics for an MTU of at least 20 and is
    sent exactly for whole oversized Don't Fragment datagrams that are no ICMP
    error. The answer carries the MTU, goes back from the datagram's destination
    to its source, quotes its header and first eight bytes, and both of its
    checksums verify. *)
Theorem fragmentation_needed_answers packet mtu (Hm : 20 <= mtu < 2 ^ 16) :
  if deserves packet mtu then
    ∃ reply, fragmentation_needed packet mtu = Ret (Some reply) ∧
      let quoted := Z.min (Z.land (nz packet 0) 0x0f * 4 + 8) (nz16 packet 2) in
      zlen reply = 28 + quoted ∧ zlen reply <= 96 ∧ nz16 reply 2 = zlen reply ∧
      sub reply 12 16 = sub packet 16 20 ∧ sub reply 16 20 = sub packet 12 16 ∧
      nz reply 9 = 1 ∧ nz reply 20 = 3 ∧ nz reply 21 = 4 ∧ nz16 reply 26 = mtu ∧
      sub reply 28 (zlen reply) = sub packet 0 quoted ∧
      internet_checksum (sub reply 0 20) = 0 ∧
      internet_checksum (sub reply 20 (zlen reply)) = 0
  else fragmentation_needed packet mtu = Ret None.
Proof.
  rewrite fragmentation_needed_eval by lia. destruct (deserves packet mtu) eqn:Hd; [|done].
  by apply needed_fields.
Qed.

Lemma fragmentation_needed_answers_witness :
  let packet := [x45; x00; x05; xdc; x00; x01; x40; x00; x40; x11; x00; x00;
                 x0a; x00; x00; x02; x08; x08; x08; x08] ++ replicate 1480 x00 in
  if deserves packet 1400 then
    ∃ reply, fragmentation_needed packet 1400 = Ret (Some reply) ∧
      let quoted := Z.min (Z.land (nz packet 0) 0x0f * 4 + 8) (nz16 packet 2) in
      zlen reply = 28 + quoted ∧ zlen reply <= 96 ∧ nz16 reply 2 = zlen reply ∧
      sub reply 12 16 = sub packet 16 20 ∧ sub reply 16 20 = sub packet 12 16 ∧
      nz reply 9 = 1 ∧ nz reply 20 = 3 ∧ nz reply 21 = 4 ∧ nz16 reply 26 = 1400 ∧
      sub reply 28 (zlen reply) = sub packet 0 quoted ∧
      internet_checksum (sub reply 0 20) = 0 ∧
      internet_checksum (sub reply 20 (zlen reply)) = 0
  else fragmentation_needed packet 1400 = Ret None.
Proof. apply fragmentation_needed_answers. lia. Defined.
