(* ===== verification/Fragments.v ===== *)
(** * IPv4 fragments

    Models [engine/src/ipv4_fragments.rs]: recognising fragments, splitting a
    datagram to a tunnel's size, updating a transport checksum after an address
    change, the [FragmentTrail] that later fragments follow, and the
    [Reassembler] that rebuilds datagrams on both ends of a tunnel. Hash maps are
    [gmap]s; where the code takes the least of a map's entries, ties fall to the
    map's iteration order, which Rust leaves open. *)
From Stdlib Require Import Sorting.Sorted.
From S2P Require Import Prelude Icmp.

Definition FRAGMENT_TIMEOUT : Z := secs 2.
Definition MAX_DATAGRAMS : Z := 64.
Definition MAX_FRAGMENTS_PER_DATAGRAM : Z := 64.
Definition MAX_DATAGRAM_LENGTH : Z := 65535.
Definition MORE_FRAGMENTS : Z := 0x2000.
Definition DONT_FRAGMENT : Z := 0x4000.
Definition OFFSET_MASK : Z := 0x1fff.

Record DatagramKey : Type := mk_key {
  source : list byte;
  destination : list byte;
  protocol : Z;
  identification : Z
}.

#[export] Instance DatagramKey_eq_dec : EqDecision DatagramKey.
Proof. solve_decision. Defined.
#[export] Instance DatagramKey_countable : Countable DatagramKey :=
  inj_countable' (λ k, (source k, destination k, protocol k, identification k))
    (λ t, mk_key t.1.1.1 t.1.1.2 t.1.2 t.2) (λ '(mk_key _ _ _ _), eq_refl).

Record Partial : Type := mk_partial {
  started : Z;
  header : option (list byte);
  pieces : list (Z * list byte);
  last_end : option Z
}.

Record Reassembler : Type := mk_reassembler {
  partials : gmap DatagramKey Partial;
  discarded : Z
}.

Definition default_reassembler : Reassembler := mk_reassembler ∅ 0.

(** [DatagramKey::of], called on a packet with a whole header. *)
Definition key_of (packet : list byte) : DatagramKey :=
  mk_key (sub packet 12 16) (sub packet 16 20) (nz packet 9) (nz16 packet 4).

Definition flags (packet : list byte) : Z := nz16 packet 6.

Definition is_fragment (packet : list byte) : bool :=
  (20 <=? zlen packet) && (Z.shiftr (nz packet 0) 4 =? 4)
  && negb (Z.land (flags packet) (Z.lor MORE_FRAGMENTS OFFSET_MASK) =? 0).

Definition is_later_fragment (packet : list byte) : bool :=
  is_fragment packet && negb (Z.land (flags packet) OFFSET_MASK =? 0).

Definition is_first_fragment (packet : list byte) : bool :=
  is_fragment packet && (Z.land (flags packet) OFFSET_MASK =? 0).

(** ** Checksum update after an address change *)

Definition readdress_sum (rewritten original : list byte) (checksum : Z) : Z :=
  foldl (λ sum word, sum + not16 (nz16 original word) + nz16 rewritten word)
    (not16 checksum) [12; 14; 16; 18].

(** Where the transport checksum is, for TCP and UDP. *)
Definition checksum_offset (packet : list byte) : option Z :=
  let header := Z.land (nz packet 0) 0x0f * 4 in
  if nz packet 9 =? 6 then Some (header + 16)
  else if nz packet 9 =? 17 then Some (header + 6) else None.

Definition readdress_transport_checksum (rewritten original : list byte) : bool * list byte :=
  match checksum_offset rewritten with
  | None => (true, rewritten)
  | Some offset =>
      if zlen rewritten <? offset + 2 then (false, rewritten) else
      let checksum := nz16 rewritten offset in
      if (nz rewritten 9 =? 17) && (checksum =? 0) then (true, rewritten) else
      let sum := fold_carry CARRY_ROUNDS (readdress_sum rewritten original checksum) in
      let updated := not16 sum in
      let updated := if (nz rewritten 9 =? 17) && (updated =? 0) then 0xffff else updated in
      (true, paste rewritten offset (be_bytes 2 updated))
  end.

(** ** Splitting *)

(** One piece: the first header with its own length, flags and checksum. *)
Definition piece_of (packet piece : list byte) (flags : Z) : list byte :=
  let fragment := sub packet 0 20 ++ piece in
  let length := zlen fragment in
  let fragment := paste fragment 2 (be_bytes 2 length) in
  let fragment := paste fragment 6 (be_bytes 2 flags) in
  let fragment := paste fragment 10 [x00; x00] in
  paste fragment 10 (be_bytes 2 (internet_checksum (sub fragment 0 20))).

Definition split_for_tunnel (packet : list byte) (mtu : Z) : option (list (list byte)) :=
  if (zlen packet <? 20) || negb (nz packet 0 =? 0x45) || (mtu <? 28) then None else
  let total_length := nz16 packet 2 in
  let flags := flags packet in
  if (zlen packet <? total_length) || (total_length <=? mtu) then None else
  let base := Z.land flags OFFSET_MASK * 8 in
  let more := negb (Z.land flags MORE_FRAGMENTS =? 0) in
  let dont_fragment := Z.land flags DONT_FRAGMENT in
  let size := Z.ldiff (mtu - 20) 7 in
  let payload := sub packet 20 total_length in
  let count := (zlen payload + size - 1) / size in
  Some (imap (λ index piece,
    let last := Z.of_nat index + 1 =? count in
    piece_of packet piece
      (Z.lor (Z.lor dont_fragment (((base + Z.of_nat index * size) / 8) mod 65536))
             (if more || negb last then MORE_FRAGMENTS else 0)))
    (chunks size payload)).

Definition fragment (packet : list byte) (mtu : Z) : option (list (list byte)) :=
  if (zlen packet <? 20) || negb (Z.land (flags packet) DONT_FRAGMENT =? 0) then None
  else split_for_tunnel packet mtu.

(** ** Trail *)

Definition TRAIL_TTL : Z := secs 5.
Definition TRAIL_LIMIT : Z := 64.

(** The verdict for a first fragment: outside the tunnel, or inside it with the
    resolver its lookup was rewritten to, if it was. *)
Notation verdict := (option (option Ipv4Addr)).

Record FragmentTrail : Type := mk_trail { datagrams : list (DatagramKey * verdict * Z) }.

Definition default_trail : FragmentTrail := mk_trail [].

Definition record (t : FragmentTrail) (first : list byte) (tunnelled : verdict) (now : Z)
    : FragmentTrail :=
  let key := key_of first in
  let kept := filter (λ e : DatagramKey * verdict * Z,
    e.1.1 ≠ key ∧ since now e.2 < TRAIL_TTL) (datagrams t) in
  let kept := if TRAIL_LIMIT <=? zlen kept then tail kept else kept in
  mk_trail (kept ++ [(key, tunnelled, now)]).

Definition lookup (t : FragmentTrail) (later : list byte) (now : Z) : verdict :=
  let key := key_of later in
  '(_, e) ← list_find (λ e : DatagramKey * verdict * Z,
    e.1.1 = key ∧ since now e.2 < TRAIL_TTL) (datagrams t);
  e.1.2.

(** ** Reassembly *)

Definition discard (r : Reassembler) (key : DatagramKey) : Reassembler :=
  match partials r !! key with
  | Some _ => mk_reassembler (delete key (partials r)) (discarded r + 1)
  | None => r
  end.

Inductive coverage : Type := Gap | Overlap | Covered (n : Z).

(** The loop over the sorted pieces. *)
Fixpoint cover (covered : Z) (pieces : list (Z * list byte)) : coverage :=
  match pieces with
  | [] => Covered covered
  | (start, piece) :: pieces' =>
      if covered <? start then Gap
      else if start <? covered then Overlap
      else cover (covered + zlen piece) pieces'
  end.

(** The datagram of pieces that cover it. *)
Definition assemble (header : list byte) (pieces : list (Z * list byte)) : list byte :=
  let datagram := header ++ mjoin pieces.*2 in
  let length := zlen datagram in
  let dont_fragment := Z.land (nz16 header 6) DONT_FRAGMENT in
  let datagram := paste datagram 2 (be_bytes 2 length) in
  let datagram := paste datagram 6 (be_bytes 2 dont_fragment) in
  let datagram := paste datagram 10 [x00; x00] in
  paste datagram 10 (be_bytes 2 (internet_checksum (sub datagram 0 (zlen header)))).

(** [push] from the lookup of the partial datagram on: what is known of [key] is
    [partial], and [store] puts it back. *)
Definition add_piece (r : Reassembler) (key : DatagramKey) (partial : Partial) (packet : list byte)
    (header_length offset : Z) (payload : list byte) (more : bool)
    : option (list byte) * Reassembler :=
  let store p := mk_reassembler (<[key := p]> (partials r)) (discarded r) in
  let finish := offset + zlen payload in
  match list_find (λ e : Z * list byte, e.1 = offset) (pieces partial) with
  | Some (_, (_, known)) =>
      if bool_decide (known = payload) then (None, store partial)
      else (None, discard (store partial) key)
  | None =>
      if negb more && match last_end partial with Some known => negb (known =? finish) | None => false end
      then (None, discard (store partial) key) else
      let last_end := if more then last_end partial else Some finish in
      let header := if offset =? 0 then Some (sub packet 0 header_length) else header partial in
      let pieces := pieces partial ++ [(offset, payload)] in
      let partial := mk_partial (started partial) header pieces last_end in
      if MAX_FRAGMENTS_PER_DATAGRAM <? zlen pieces then (None, discard (store partial) key) else
      match header, last_end with
      | Some header, Some finish =>
          if MAX_DATAGRAM_LENGTH <? zlen header + finish
          then (None, discard (store partial) key) else
          let sorted := sort_by fst pieces in
          let partial := mk_partial (started partial) (Some header) sorted (Some finish) in
          match cover 0 sorted with
          | Gap => (None, store partial)
          | Overlap => (None, discard (store partial) key)
          | Covered n =>
              if negb (n =? finish) then (None, discard (store partial) key) else
              (Some (assemble header sorted), mk_reassembler (delete key (partials r)) (discarded r))
          end
      | _, _ => (None, store partial)
      end
  end.

Definition drop_stale (r : Reassembler) (now : Z) : Reassembler :=
  let kept := filter (λ kv, since now (started kv.2) < FRAGMENT_TIMEOUT) (partials r) in
  mk_reassembler kept (discarded r + (zsize (partials r) - zsize kept)).

(** Makes room for a datagram not seen before. *)
Definition evict_oldest (r : Reassembler) (key : DatagramKey) : Reassembler :=
  if bool_decide (partials r !! key = None) && (MAX_DATAGRAMS <=? zsize (partials r)) then
    match min_by (λ kv, started kv.2) (map_to_list (partials r)) with
    | Some (oldest, _) => discard r oldest
    | None => r
    end
  else r.

Definition push (r : Reassembler) (packet : list byte) (now : Z)
    : run (option (list byte) * Reassembler) :=
  let r := drop_stale r now in
  b0 ← idx packet 0;
  len_bytes ← slice packet 2 4;
  let header_length := Z.land (b2z b0) 0x0f * 4 in
  let total_length := be_Z len_bytes in
  if (header_length <? 20) || (total_length <? header_length) || (zlen packet <? total_length)
  then Ret (None, mk_reassembler (partials r) (discarded r + 1)) else
  let flags := flags packet in
  let offset := Z.land flags OFFSET_MASK * 8 in
  let more := negb (Z.land flags MORE_FRAGMENTS =? 0) in
  let payload := sub packet header_length total_length in
  let key := key_of packet in
  if (more && negb (zlen payload mod 8 =? 0))
     || (MAX_DATAGRAM_LENGTH <? header_length + (offset + zlen payload))
  then Ret (None, discard r key) else
  let r := evict_oldest r key in
  let partial := default (mk_partial now None [] None) (partials r !! key) in
  Ret (add_piece r key partial packet header_length offset payload more).

Definition take_discarded (r : Reassembler) : Z * Reassembler :=
  (discarded r, mk_reassembler (partials r) 0).

(** ** Headers field by field *)

Record ip_fields : Type := mk_fields {
  tos : byte;
  ident : list byte;
  ttl : byte;
  proto : byte;
  src : list byte;
  dst : list byte
}.

Definition fields_wf (f : ip_fields) : Prop :=
  zlen (ident f) = 2 ∧ zlen (src f) = 4 ∧ zlen (dst f) = 4.

(** An option-free header with a correct checksum. *)
Definition ip_header (f : ip_fields) (length flags : Z) : list byte :=
  let head := [x45; tos f] ++ be_bytes 2 length ++ ident f ++ be_bytes 2 flags ++ [ttl f; proto f] in
  head ++ be_bytes 2 (internet_checksum (head ++ [x00; x00] ++ src f ++ dst f)) ++ src f ++ dst f.

Definition datagram (f : ip_fields) (flags : Z) (payload : list byte) : list byte :=
  ip_header f (20 + zlen payload) flags ++ payload.

Lemma fields_cases f :
  fields_wf f →
  ∃ o i j l p a b c d s t u v,
    f = mk_fields o [i; j] l p [a; b; c; d] [s; t; u; v].
Proof.
  destruct f as [o id l p s d]. unfold fields_wf, zlen. simpl. intros (Hi & Hs & Hd).
  do 2 (destruct id as [|? id]; [simpl in Hi; lia|]). destruct id; [|simpl in Hi; lia].
  do 4 (destruct s as [|? s]; [simpl in Hs; lia|]). destruct s; [|simpl in Hs; lia].
  do 4 (destruct d as [|? d]; [simpl in Hd; lia|]). destruct d; [|simpl in Hd; lia].
  repeat eexists.
Qed.

Lemma zlen_ip_header f n fl : fields_wf f → zlen (ip_header f n fl) = 20.
Proof.
  intros Hf. destruct (fields_cases f Hf) as (o & i & j & l & p & a & b & c & d & s & t & u & v & ->).
  reflexivity.
Qed.

Lemma header_reads f n fl body :
  fields_wf f → 0 <= n < 2 ^ 16 → 0 <= fl < 2 ^ 16 →
  let packet := ip_header f n fl ++ body in
  nz packet 0 = 0x45 ∧ nz16 packet 2 = n ∧ flags packet = fl ∧
  key_of packet = mk_key (src f) (dst f) (b2z (proto f)) (nz16 (ident f) 0) ∧
  internet_checksum (sub packet 0 20) = 0.
Proof.
  intros Hf Hn Hfl. cbn zeta. pose proof (zlen_ip_header f n fl Hf) as Hl.
  destruct (fields_cases f Hf) as (o & i & j & l & p & a & b & c & d & s & t & u & v & ->).
  set (f := mk_fields _ _ _ _ _ _) in *. split_and!; [done| | |done|].
  - apply (u16_be_bytes _ [x45; o] (drop 4 (ip_header f n fl) ++ body)); done.
  - apply (u16_be_bytes _ (take 6 (ip_header f n fl)) (drop 8 (ip_header f n fl) ++ body)); done.
  - rewrite (sub_eq _ [] (ip_header f n fl) body 0 20) by (done || by rewrite Hl).
    apply checksum_verifies; [by exists 5%nat|done].
Qed.

(** The header rewrite that splitting and reassembly share. *)
Lemma reheader f n fl n' fl' body :
  fields_wf f →
  let d := ip_header f n fl ++ body in
  let d := paste d 2 (be_bytes 2 n') in
  let d := paste d 6 (be_bytes 2 fl') in
  let d := paste d 10 [x00; x00] in
  paste d 10 (be_bytes 2 (internet_checksum (sub d 0 20))) = ip_header f n' fl' ++ body.
Proof.
  intros Hf. destruct (fields_cases f Hf) as (o & i & j & l & p & a & b & c & d & s & t & u & v & ->).
  reflexivity.
Qed.

Lemma piece_of_header f n fl rest piece fl' :
  fields_wf f →
  piece_of (ip_header f n fl ++ rest) piece fl' = datagram f fl' piece.
Proof.
  intros Hf. unfold piece_of, datagram.
  rewrite (sub_eq _ [] (ip_header f n fl) rest 0 20) by (done || by rewrite zlen_ip_header).
  rewrite zlen_app, zlen_ip_header by done. by apply reheader.
Qed.

Lemma assemble_header f n fl ps :
  fields_wf f → 0 <= fl < 2 ^ 16 →
  assemble (ip_header f n fl) ps = datagram f (Z.land fl DONT_FRAGMENT) (mjoin ps.*2).
Proof.
  intros Hf Hfl. unfold assemble, datagram.
  assert (nz16 (ip_header f n fl) 6 = fl) as ->.
  { destruct (fields_cases f Hf) as (o & i & j & l & p & a & b & c & d & s & t & u & v & ->).
    set (f := mk_fields _ _ _ _ _ _).
    apply (u16_be_bytes _ (take 6 (ip_header f n fl)) (drop 8 (ip_header f n fl))); done. }
  rewrite zlen_app, zlen_ip_header by done. by apply reheader.
Qed.

(** ** Flag words *)

Lemma land_small_high a k m : 0 <= a < 2 ^ k → 0 <= k → Z.land a (m * 2 ^ k) = 0.
Proof.
  intros Ha Hk. apply Z.bits_inj'. intros n Hn. rewrite Z.land_spec, Z.bits_0.
  destruct (decide (n < k)).
  - by rewrite Z.mul_pow2_bits_low, andb_false_r by lia.
  - by rewrite (bits_high k a) by lia.
Qed.

Definition frag_flags (df offset : Z) (more : bool) : Z :=
  Z.lor (Z.lor df offset) (if more then MORE_FRAGMENTS else 0).

Lemma frag_flags_spec df o more :
  df = 0 ∨ df = DONT_FRAGMENT → 0 <= o < 2 ^ 13 →
  let w := frag_flags df o more in
  0 <= w < 2 ^ 16 ∧ Z.land w OFFSET_MASK = o ∧
  negb (Z.land w MORE_FRAGMENTS =? 0) = more ∧ Z.land w DONT_FRAGMENT = df.
Proof.
  intros Hdf Ho. cbn zeta. unfold frag_flags.
  assert (Z.land o OFFSET_MASK = o) as H1.
  { change OFFSET_MASK with (Z.ones 13). rewrite Z.land_ones by lia. by apply Z.mod_small. }
  assert (Z.land o MORE_FRAGMENTS = 0) as H2 by (apply (land_small_high o 13 1); lia).
  assert (Z.land o DONT_FRAGMENT = 0) as H3 by (apply (land_small_high o 13 2); lia).
  rewrite !Z.land_lor_distr_l, H1, H2, H3. split_and!.
  - apply Z.lor_nonneg. split; [apply Z.lor_nonneg; split; [|lia]|]; destruct Hdf, more; subst; done.
  - assert (0 <= o < 2 ^ 16) as Hw by (split; [lia|]; eapply Z.lt_trans; [apply Ho|done]).
    apply (lor_bound 16); [lia|apply (lor_bound 16); [lia| |exact Hw]|];
      destruct Hdf, more; subst; done.
  - destruct Hdf as [->| ->], more; cbn -[Z.lor]; by rewrite ?Z.lor_0_r.
  - by destruct Hdf as [->| ->], more.
  - by destruct Hdf as [->| ->], more.
Qed.

(** ** Pieces that tile a range *)

Notation piece := (Z * list byte)%type.

(** Nonempty pieces, back to back from [s] to [e]. *)
Fixpoint tiles (s : Z) (cs : list piece) (e : Z) : Prop :=
  match cs with
  | [] => s = e
  | (o, c) :: cs' => o = s ∧ 0 < zlen c ∧ tiles (s + zlen c) cs' e
  end.

Lemma tiles_range cs s e : tiles s cs e → s <= e ∧ ∀ x, x ∈ cs → s <= x.1 ∧ 0 < zlen x.2 ∧ x.1 + zlen x.2 <= e.
Proof.
  revert s. induction cs as [|[o c] cs IH]; intros s; simpl.
  - intros ->. split; [done|]. intros x Hx. by apply elem_of_nil in Hx.
  - intros (-> & Hc & Ht). destruct (IH _ Ht) as [Hle Hx]. split; [lia|].
    intros x [->|Hin]%elem_of_cons; simpl; [lia|]. destruct (Hx x Hin). lia.
Qed.

Lemma tiles_sorted cs s e : tiles s cs e → StronglySorted (λ x y : piece, x.1 <= y.1) cs.
Proof.
  revert s. induction cs as [|[o c] cs IH]; intros s; simpl; [constructor|].
  intros (-> & Hc & Ht). constructor; [by eapply IH|]. apply Forall_forall. intros x Hx.
  destruct (tiles_range _ _ _ Ht) as [_ Hr]. destruct (Hr x Hx) as [H _]. simpl. lia.
Qed.

Lemma tiles_inj cs s e x y : tiles s cs e → x ∈ cs → y ∈ cs → x.1 = y.1 → x = y.
Proof.
  revert s. induction cs as [|[o c] cs IH]; intros s Ht Hx Hy Hxy; [by apply elem_of_nil in Hx|].
  simpl in Ht. destruct Ht as (-> & Hc & Ht). destruct (tiles_range _ _ _ Ht) as [_ Hr].
  apply elem_of_cons in Hx as [->|Hx], Hy as [->|Hy]; [done| | |by eapply IH].
  - destruct (Hr y Hy) as [H _]. simpl in *. lia.
  - destruct (Hr x Hx) as [H _]. simpl in *. lia.
Qed.

Lemma tiles_NoDup cs s e : tiles s cs e → NoDup cs.
Proof.
  revert s. induction cs as [|[o c] cs IH]; intros s Ht; [constructor|].
  simpl in Ht. destruct Ht as (-> & Hc & Ht). constructor; [|by eapply IH].
  intros Hin. destruct (tiles_range _ _ _ Ht) as [_ Hr]. destruct (Hr _ Hin) as [H _]. simpl in H. lia.
Qed.

Lemma cover_tiles cs s e : tiles s cs e → cover s cs = Covered e.
Proof.
  revert s. induction cs as [|[o c] cs IH]; intros s; simpl; [by intros ->|].
  intros (-> & Hc & Ht). rewrite !Z.ltb_irrefl. by apply IH.
Qed.

(** Some but not all pieces, the last one among them, leave a gap. *)
Lemma cover_part cs s e l :
  tiles s cs e → l `sublist_of` cs → (∃ x, x ∈ l ∧ x.1 + zlen x.2 = e) → l ≠ cs → cover s l = Gap.
Proof.
  intros Ht Hsub. revert s Ht. induction Hsub as [|[o c] l cs Hsub IH|[o c] l cs Hsub IH];
    intros s Ht (x & Hx & Hxe) Hne; simpl in Ht.
  - by apply elem_of_nil in Hx.
  - destruct Ht as (-> & Hc & Ht). simpl. rewrite !Z.ltb_irrefl. apply IH; [done| |congruence].
    apply elem_of_cons in Hx as [->|Hx]; [|by exists x].
    simpl in Hxe. exfalso. apply Hne. f_equal. destruct cs as [|[o' c'] cs]; [by apply sublist_nil_r in Hsub|].
    simpl in Ht. destruct Ht as (_ & Hc' & Ht). destruct (tiles_range _ _ _ Ht). lia.
  - destruct Ht as (-> & Hc & Ht). destruct l as [|[o' c'] l]; [by apply elem_of_nil in Hx|].
    simpl. destruct (tiles_range _ _ _ Ht) as [_ Hr].
    assert ((o', c') ∈ cs) as Hin by (eapply elem_of_submseteq; [apply elem_of_cons; by left|];
      by apply sublist_submseteq).
    destruct (Hr _ Hin) as [H _]. simpl in H. rewrite (proj2 (Z.ltb_lt _ _)) by lia. done.
Qed.

Lemma sort_part cs s e l :
  tiles s cs e → NoDup l → l ⊆ cs → sort_by fst l = filter (λ x, x ∈ l) cs.
Proof.
  intros Ht Hnd Hsub. apply sort_by_unique.
  - apply NoDup_Permutation; [done|apply NoDup_filter; by eapply tiles_NoDup|].
    intros x. rewrite list_elem_of_filter. split; [|tauto]. intros Hx. split; [done|by apply Hsub].
  - assert (∀ k, StronglySorted (λ x y : piece, x.1 <= y.1) k →
              StronglySorted (λ x y : piece, x.1 <= y.1) (filter (λ x, x ∈ l) k)) as Hf.
    { induction k as [|x k IH]; intros Hs; [constructor|]. apply StronglySorted_inv in Hs as [Hs Hx].
      rewrite filter_cons. case_decide; [|by apply IH]. constructor; [by apply IH|].
      rewrite Forall_forall in Hx |- *. intros y [_ Hy]%list_elem_of_filter. by apply Hx. }
    by eapply Hf, tiles_sorted.
  - intros x y [_ Hx]%list_elem_of_filter [_ Hy]%list_elem_of_filter. by eapply tiles_inj.
Qed.

(** ** Chunks tile the payload *)

Definition table (k n : Z) (cs : list (list byte)) : list piece :=
  imap (λ i c, ((k + Z.of_nat i) * n, c)) cs.

Lemma table_cons k n c cs : table k n (c :: cs) = (k * n, c) :: table (k + 1) n cs.
Proof.
  unfold table. cbn [imap]. rewrite Z.add_0_r. f_equal. apply imap_ext. intros i x _. simpl.
  f_equal. lia.
Qed.

Lemma table_tiles fuel n k l :
  0 < n → (length l <= fuel)%nat → 0 <= k →
  tiles (k * n) (table k n (chunks_loop fuel (Z.to_nat n) l)) (k * n + zlen l).
Proof.
  intros Hn. revert k l. induction fuel as [|fuel IH]; intros k [|x l] Hl Hk.
  - simpl. unfold zlen. simpl. lia.
  - simpl in Hl. lia.
  - simpl. unfold zlen. simpl. lia.
  - cbn [chunks_loop]. rewrite table_cons. simpl tiles.
    set (y := x :: l). assert (0 < zlen y) as Hy by (unfold y; rewrite zlen_cons; pose proof (zlen_nonneg l); lia).
    assert (zlen (take (Z.to_nat n) y) = Z.min n (zlen y)) as Ht by (unfold zlen; rewrite length_take; lia).
    split; [done|]. split; [lia|]. rewrite Ht.
    destruct (Z.leb_spec (zlen y) n).
    + rewrite Z.min_r by lia. rewrite drop_ge by (unfold zlen in *; lia). by destruct fuel.
    + rewrite Z.min_l by lia. replace (k * n + n) with ((k + 1) * n) by lia.
      replace (k * n + zlen y) with ((k + 1) * n + zlen (drop (Z.to_nat n) y))
        by (unfold zlen in *; rewrite length_drop; lia).
      apply IH; [|lia]. rewrite length_drop. unfold y. simpl in *. lia.
Qed.

Lemma chunk_length fuel n k l o c :
  0 < n → (length l <= fuel)%nat → 0 <= k →
  (o, c) ∈ table k n (chunks_loop fuel (Z.to_nat n) l) →
  (∃ j, k <= j ∧ o = j * n) ∧ zlen c <= n ∧
  (o + zlen c = k * n + zlen l ∨ zlen c = n ∧ o + n < k * n + zlen l).
Proof.
  intros Hn. revert k l. induction fuel as [|fuel IH]; intros k [|x l] Hl Hk Hin;
    try by apply elem_of_nil in Hin.
  cbn [chunks_loop] in Hin. rewrite table_cons in Hin.
  set (y := x :: l) in *.
  assert (zlen (take (Z.to_nat n) y) = Z.min n (zlen y)) as Ht by (unfold zlen; rewrite length_take; lia).
  apply elem_of_cons in Hin as [[= -> ->]|Hin].
  - split; [by exists k|]. rewrite Ht. lia.
  - destruct (Z.leb_spec (zlen y) n).
    { rewrite drop_ge in Hin by (unfold zlen in *; lia). destruct fuel; by apply elem_of_nil in Hin. }
    destruct (IH (k + 1) (drop (Z.to_nat n) y)) as [(j & Hj & ->) H2]; [|lia|done|].
    { rewrite length_drop. unfold y. simpl in *. lia. }
    assert (zlen (drop (Z.to_nat n) y) = zlen y - n) as Hd by (unfold zlen in *; rewrite length_drop; lia).
    rewrite Hd in H2. split; [exists j; split; [lia|done]|]. lia.
Qed.

Lemma length_chunks_loop fuel n (l : list byte) :
  0 < n → (length l <= fuel)%nat →
  zlen (chunks_loop fuel (Z.to_nat n) l) = (zlen l + n - 1) / n.
Proof.
  intros Hn. assert (0 = (0 + n - 1) / n) as H0 by (symmetry; apply Z.div_small; lia).
  revert l. induction fuel as [|fuel IH]; intros [|x l] Hl;
    [exact H0|simpl in Hl; lia|exact H0|].
  cbn [chunks_loop]. rewrite zlen_cons. set (y := x :: l) in *.
  assert (0 < zlen y) as Hy by (unfold y; rewrite zlen_cons; pose proof (zlen_nonneg l); lia).
  rewrite IH by (rewrite length_drop; unfold y; simpl in *; lia).
  destruct (Z.leb_spec (zlen y) n).
  - rewrite drop_ge by (unfold zlen in *; lia). change (zlen []) with 0. rewrite <-H0.
    apply (Z.div_unique _ _ _ (zlen y - 1)); lia.
  - assert (zlen (drop (Z.to_nat n) y) = zlen y - n) as -> by (unfold zlen in *; rewrite length_drop; lia).
    replace (zlen y + n - 1) with (zlen y - n + n - 1 + 1 * n) by lia. by rewrite Z.div_add by lia.
Qed.

(** The fragment of one piece. *)
Definition frag (f : ip_fields) (df total : Z) (x : piece) : list byte :=
  datagram f (frag_flags df (x.1 / 8) (negb (x.1 + zlen x.2 =? total))) x.2.

Lemma table_lookup k n cs i x :
  table k n cs !! i = Some x → x.1 = (k + Z.of_nat i) * n ∧ cs !! i = Some x.2.
Proof.
  unfold table. rewrite list_lookup_imap. destruct (cs !! i) as [c|] eqn:E; [|done].
  intros [= <-]. done.
Qed.

Lemma mtu_size mtu : 28 <= mtu → let n := Z.ldiff (mtu - 20) 7 in 8 <= n <= mtu - 20 ∧ n mod 8 = 0.
Proof.
  intros Hm. cbn zeta. change 7 with (Z.ones 3). rewrite Z.ldiff_ones_r by lia.
  rewrite Z.shiftl_mul_pow2, Z.shiftr_div_pow2 by lia. change (2 ^ 3) with 8.
  pose proof (Z.div_mod (mtu - 20) 8). pose proof (Z.mod_pos_bound (mtu - 20) 8).
  rewrite Z.mod_mul by lia. lia.
Qed.

(** [split_for_tunnel] on a whole datagram, piece by piece. *)
Lemma split_table f df payload mtu :
  fields_wf f → df = 0 ∨ df = DONT_FRAGMENT → 20 + zlen payload <= 65535 → 28 <= mtu →
  mtu < 20 + zlen payload →
  let n := Z.ldiff (mtu - 20) 7 in
  split_for_tunnel (datagram f df payload) mtu
  = Some (frag f df (zlen payload) <$> table 0 n (chunks n payload)).
Proof.
  intros Hf Hdf Hlen Hm Hbig. cbn zeta. pose proof (mtu_size mtu Hm) as Hn. cbn zeta in Hn.
  set (n := Z.ldiff (mtu - 20) 7) in *. pose proof (zlen_nonneg payload) as Hp0.
  assert (0 <= df < 2 ^ 16) as Hdfw by (destruct Hdf; subst; done).
  destruct (header_reads f (20 + zlen payload) df payload Hf) as (R1 & R2 & R3 & _);
    [change (2 ^ 16) with 65536; lia|done|].
  unfold split_for_tunnel, datagram. cbn zeta in *. rewrite R1, R2, R3.
  rewrite zlen_app, zlen_ip_header by done.
  rewrite (proj2 (Z.ltb_ge _ 20)), (proj2 (Z.ltb_ge mtu _)) by lia. rewrite Z.eqb_refl. cbn [negb orb].
  rewrite Z.ltb_irrefl, (proj2 (Z.leb_gt _ _)) by lia. cbn [orb].
  rewrite (sub_eq _ (ip_header f (20 + zlen payload) df) payload [] 20 _)
    by (rewrite ?app_nil_r, ?zlen_ip_header; done). fold n.
  assert (Z.land df OFFSET_MASK = 0 ∧ Z.land df MORE_FRAGMENTS = 0 ∧ Z.land df DONT_FRAGMENT = df)
    as (-> & -> & ->) by (by destruct Hdf as [-> | ->]).
  change (negb (0 =? 0)) with false. cbn [orb]. f_equal.
  apply list_eq. intros i. rewrite list_lookup_fmap, list_lookup_imap.
  unfold table. rewrite list_lookup_imap.
  destruct (chunks n payload !! i) as [c|] eqn:Ec; [|done]. cbn [fmap option_fmap option_map].
  f_equal. unfold frag. cbn [fst snd]. rewrite piece_of_header by done. f_equal.
  unfold frag_flags. rewrite !Z.add_0_l.
  assert ((Z.of_nat i * n, c) ∈ table 0 n (chunks_loop (length payload) (Z.to_nat n) payload)) as Hin.
  { apply list_elem_of_lookup. exists i. unfold table. rewrite list_lookup_imap.
    fold (chunks n payload). by rewrite Ec. }
  pose proof (table_tiles (length payload) n 0 payload ltac:(lia) ltac:(lia) ltac:(lia)) as Ht.
  destruct (tiles_range _ _ _ Ht) as [_ Hr]. destruct (Hr _ Hin) as (Ho & Hc & Hend). cbn [fst snd] in *.
  destruct (chunk_length (length payload) n 0 payload _ _ ltac:(lia) ltac:(lia) ltac:(lia) Hin) as (_ & Hcn' & Hcl).
  rewrite (Z.mod_small (_ / 8)).
  2: { split; [apply Z.div_pos; lia|]. apply Z.div_lt_upper_bound; lia. }
  f_equal. f_equal.
  replace (Z.of_nat i + 1 =? (zlen payload + n - 1) / n)
    with (Z.of_nat i * n + zlen c =? zlen payload); [by destruct (_ =? _)|].
  apply eq_iff_eq_true. rewrite !Z.eqb_eq. rewrite !Z.mul_0_l, !Z.add_0_l in *. split; intros He.
  - apply (Z.div_unique _ _ _ (zlen c - 1)); lia.
  - destruct Hcl as [?|[Hcn Hlt]]; [done|exfalso].
    assert (Z.of_nat i + 1 < (zlen payload + n - 1) / n); [|lia].
    apply Z.lt_le_trans with (Z.of_nat i + 2); [lia|]. apply Z.div_le_lower_bound; lia.
Qed.

(** ** Reassembling what was split *)

Fixpoint push_all (r : Reassembler) (packets : list (list byte * Z))
    : run (list (option (list byte)) * Reassembler) :=
  match packets with
  | [] => Ret ([], r)
  | (packet, now) :: packets' =>
      '(out, r) ← push r packet now;
      '(outs, r) ← push_all r packets';
      Ret (out :: outs, r)
  end.

Section reassembly.
Context (f : ip_fields) (df total : Z) (cs : list piece).
Hypothesis (Hf : fields_wf f) (Hdf : df = 0 ∨ df = DONT_FRAGMENT) (Htotal : 20 + total <= 65535).
Hypothesis (Htiles : tiles 0 cs total).
Hypothesis (Haligned : ∀ x, x ∈ cs → x.1 mod 8 = 0).
Hypothesis (Hfull : ∀ x, x ∈ cs → x.1 + zlen x.2 = total ∨ zlen x.2 mod 8 = 0).
Hypothesis (Hfew : (length cs <= 64)%nat).
Hypothesis (Hsome : 0 < total).

Let key : DatagramKey := mk_key (src f) (dst f) (b2z (proto f)) (nz16 (ident f) 0).

(** What is known of the datagram once the pieces [got] arrived. *)
Record knows (p : Partial) (got : list piece) : Prop := {
  kn_pieces : pieces p ≡ₚ got;
  kn_header : (header p = None ∧ ∀ x, x ∈ got → x.1 ≠ 0) ∨
    (∃ n fl, header p = Some (ip_header f n fl) ∧ 0 <= fl < 2 ^ 16 ∧ Z.land fl DONT_FRAGMENT = df) ∧
    ∃ x, x ∈ got ∧ x.1 = 0;
  kn_end : (last_end p = None ∧ ∀ x, x ∈ got → x.1 + zlen x.2 ≠ total) ∨
    last_end p = Some total ∧ ∃ x, x ∈ got ∧ x.1 + zlen x.2 = total
}.

Lemma piece_bounds x : x ∈ cs →
  0 <= x.1 ∧ 0 < zlen x.2 ∧ x.1 + zlen x.2 <= total ∧ 0 <= x.1 / 8 < 2 ^ 13 ∧ x.1 / 8 * 8 = x.1.
Proof.
  clear Hfew Hfull Hsome. intros Hx.
  destruct (tiles_range _ _ _ Htiles) as [_ Hr]. destruct (Hr x Hx) as (H0 & Hc & He).
  pose proof (Haligned x Hx). pose proof (Z.div_mod x.1 8).
  assert (x.1 / 8 < 8192) by (apply Z.div_lt_upper_bound; lia).
  assert (0 <= x.1 / 8) by (apply Z.div_pos; lia).
  change (2 ^ 13) with 8192. lia.
Qed.

Lemma first_exists : ∃ x, x ∈ cs ∧ x.1 = 0.
Proof.
  destruct cs as [|[o c] k]; simpl in Htiles; [lia|]. exists (o, c).
  split; [apply list_elem_of_here|]. simpl. lia.
Qed.

Lemma last_exists : ∃ x, x ∈ cs ∧ x.1 + zlen x.2 = total.
Proof.
  assert (∀ k s, tiles s k total → s < total → ∃ x, x ∈ k ∧ x.1 + zlen x.2 = total) as H;
    [|by apply (H cs 0)].
  induction k as [|[o c] k IH]; intros s Ht Hs; simpl in Ht; [lia|].
  destruct Ht as (-> & Hc & Ht). destruct (decide (s + zlen c = total)).
  - exists (s, c). split; [apply list_elem_of_here|done].
  - destruct (tiles_range _ _ _ Ht) as [Hle _]. destruct (IH _ Ht ltac:(lia)) as (x & Hx & He).
    exists x. split; [by apply list_elem_of_further|done].
Qed.

Lemma sort_got got x p :
  knows p got → NoDup (got ++ [x]) → got ++ [x] ⊆ cs →
  sort_by fst (pieces p ++ [x]) = filter (λ y, y ∈ got ++ [x]) cs.
Proof.
  intros Hk Hnd Hsub. rewrite (sort_part cs 0 total); [|done| |].
  - apply list_filter_iff. intros y. by rewrite (kn_pieces p got Hk).
  - by rewrite (kn_pieces p got Hk).
  - intros y. rewrite (kn_pieces p got Hk). apply Hsub.
Qed.

Lemma filter_full (got : list piece) :
  NoDup got → got ⊆ cs → (filter (λ y, y ∈ got) cs = cs ↔ length got = length cs).
Proof.
  intros Hnd Hsub. pose proof (tiles_NoDup _ _ _ Htiles) as Hcs. split.
  - intros He. apply Permutation_length, NoDup_Permutation; [done..|]. intros y.
    split; [apply Hsub|]. rewrite <-He at 1. by intros [? _]%list_elem_of_filter.
  - intros Hl. apply filter_all. intros y Hy.
    assert (got ≡ₚ cs) as ->; [|done].
    apply submseteq_length_Permutation; [by apply NoDup_submseteq|lia].
Qed.

(** The partial datagram with one more piece. *)
Definition grow (p : Partial) (x : piece) : Partial :=
  mk_partial (started p) (if x.1 =? 0 then Some (sub (frag f df total x) 0 20) else header p)
    (pieces p ++ [x])
    (if negb (x.1 + zlen x.2 =? total) then last_end p else Some (x.1 + zlen x.2)).

Lemma grow_header p got x : knows p got → x ∈ cs →
  (header (grow p x) = None ∧ ∀ y, y ∈ got ++ [x] → y.1 ≠ 0) ∨
  (∃ n fl, header (grow p x) = Some (ip_header f n fl) ∧ 0 <= fl < 2 ^ 16 ∧
     Z.land fl DONT_FRAGMENT = df) ∧ ∃ y, y ∈ got ++ [x] ∧ y.1 = 0.
Proof.
  intros [_ Hkh _] Hx. destruct (piece_bounds x Hx) as (_ & _ & _ & Ho & _).
  cbn [grow header]. destruct (Z.eqb_spec x.1 0) as [Hz|Hz].
  - right. split; [|exists x; rewrite elem_of_snoc; tauto].
    unfold frag. set (fl := frag_flags _ _ _).
    destruct (frag_flags_spec df (x.1 / 8) (negb (x.1 + zlen x.2 =? total)) Hdf Ho)
      as (W1 & _ & _ & W4).
    exists (20 + zlen x.2), fl. split; [|done].
    unfold datagram. by rewrite (sub_eq _ [] (ip_header f (20 + zlen x.2) fl) x.2 0 20)
      by (done || by rewrite zlen_ip_header).
  - destruct Hkh as [[Hh Hall]|[Hh (y & Hy & Hy0)]].
    + left. split; [done|]. intros y [Hy| ->]%elem_of_snoc; [by apply Hall|done].
    + right. split; [done|]. exists y. rewrite elem_of_snoc. tauto.
Qed.

Lemma knows_grow p got x : knows p got → x ∈ cs → knows (grow p x) (got ++ [x]).
Proof.
  intros Hk Hx. split; [cbn [grow pieces]; by rewrite (kn_pieces _ _ Hk)|by apply grow_header|].
  destruct Hk as [_ _ Hke]. cbn [grow last_end].
  destruct (Z.eqb_spec (x.1 + zlen x.2) total) as [He|He]; cbn [negb].
  - right. split; [by rewrite He|]. exists x. rewrite elem_of_snoc. tauto.
  - destruct Hke as [[Hh Hall]|[Hh (y & Hy & Hy0)]].
    + left. split; [done|]. intros y [Hy| ->]%elem_of_snoc; [by apply Hall|done].
    + right. split; [done|]. exists y. rewrite elem_of_snoc. tauto.
Qed.

Lemma knows_resort p got h e :
  knows p got → header p = Some h → last_end p = Some e →
  knows (mk_partial (started p) (Some h) (sort_by fst (pieces p)) (Some e)) got.
Proof.
  intros [Hp Hh He] Eh Ee. rewrite Eh in Hh. rewrite Ee in He.
  split; cbn [pieces header last_end]; [|done..]. by rewrite sort_by_perm.
Qed.

(** What [add_piece] does after its checks for a duplicate and a conflicting end. *)
Lemma add_piece_grows r p got x :
  knows p got → x ∈ cs → NoDup (got ++ [x]) → got ++ [x] ⊆ cs →
  let p' := grow p x in
  add_piece r key p (frag f df total x) 20 x.1 x.2 (negb (x.1 + zlen x.2 =? total)) =
  match header p', last_end p' with
  | Some h, Some e =>
      let sorted := sort_by fst (pieces p') in
      let p'' := mk_partial (started p) (Some h) sorted (Some e) in
      let r' := mk_reassembler (<[key := p'']> (partials r)) (discarded r) in
      if MAX_DATAGRAM_LENGTH <? zlen h + e
      then (None, discard (mk_reassembler (<[key := p']> (partials r)) (discarded r)) key) else
      match cover 0 sorted with
      | Gap => (None, r')
      | Overlap => (None, discard r' key)
      | Covered n => if negb (n =? e) then (None, discard r' key)
          else (Some (assemble h sorted), mk_reassembler (delete key (partials r)) (discarded r))
      end
  | _, _ => (None, mk_reassembler (<[key := p']> (partials r)) (discarded r))
  end.
Proof.
  intros [Hkp Hkh Hke] Hx Hnd Hsub. cbn zeta. unfold add_piece.
  assert (list_find (λ e : Z * list byte, e.1 = x.1) (pieces p) = None) as ->.
  { apply list_find_None, Forall_forall. intros y Hy Heq. rewrite Hkp in Hy.
    assert (y = x) as ->.
    { eapply tiles_inj; [exact Htiles|apply Hsub, elem_of_app; by left|done|done]. }
    apply NoDup_app in Hnd as (_ & Hd & _). apply (Hd x Hy), list_elem_of_here. }
  set (fin := x.1 + zlen x.2 =? total). rewrite negb_involutive.
  assert (fin && match last_end p with Some known => negb (known =? x.1 + zlen x.2) | None => false end
          = false) as ->.
  { unfold fin. destruct (Z.eqb_spec (x.1 + zlen x.2) total) as [Hft|]; [|done]. rewrite Hft.
    destruct Hke as [[-> _]|[-> _]]; [done|]. by rewrite Z.eqb_refl. }
  assert ((x.1, x.2) = x) as -> by by destruct x.
  rewrite (proj2 (Z.ltb_ge _ _)); [reflexivity|].
  assert (length (got ++ [x]) <= length cs)%nat as Hlen by (by apply submseteq_length, NoDup_submseteq).
  unfold zlen, MAX_FRAGMENTS_PER_DATAGRAM. rewrite length_app, (Permutation_length Hkp), <-length_app. lia.
Qed.

Lemma add_piece_step r p got x :
  knows p got → x ∈ cs → NoDup (got ++ [x]) → got ++ [x] ⊆ cs →
  let out := add_piece r key p (frag f df total x) 20 x.1 x.2 (negb (x.1 + zlen x.2 =? total)) in
  if decide (length (got ++ [x]) = length cs)
  then out = (Some (datagram f df (mjoin cs.*2)), mk_reassembler (delete key (partials r)) (discarded r))
  else out.1 = None ∧ ∃ p', partials out.2 = <[key := p']> (partials r) ∧
       knows p' (got ++ [x]) ∧ started p' = started p.
Proof.
  intros Hk Hx Hnd Hsub. cbn zeta. rewrite (add_piece_grows r p got x) by done.
  pose proof (knows_grow p got x Hk Hx) as Hk'. pose proof (sort_got got x p Hk Hnd Hsub) as Hsort.
  cbn zeta. change (pieces p ++ [x]) with (pieces (grow p x)) in Hsort.
  change (started p) with (started (grow p x)).
  revert Hk' Hsort. generalize (grow p x) as p'. set (G := got ++ [x]) in *. intros p' Hk' Hsort.
  destruct first_exists as (a & Ha & Ha0). destruct last_exists as (z & Hz & Hze).
  pose proof Hk' as [_ Hh He]. destruct (decide (length G = length cs)) as [Hall|Hpart].
  - apply (filter_full G Hnd Hsub) in Hall. rewrite Hall in Hsort.
    assert (∀ y, y ∈ cs → y ∈ G) as Hin by (intros y Hy; rewrite <-Hall in Hy;
      by apply list_elem_of_filter in Hy as [? _]).
    destruct Hh as [[_ Hno]|[(n & fl & -> & Hfl & Hfdf) _]]; [by specialize (Hno a (Hin a Ha))|].
    destruct He as [[_ Hno]|[-> _]]; [by specialize (Hno z (Hin z Hz))|].
    rewrite zlen_ip_header by done. rewrite (proj2 (Z.ltb_ge _ _)) by (unfold MAX_DATAGRAM_LENGTH; lia).
    rewrite Hsort, (cover_tiles cs 0 total Htiles), Z.eqb_refl. cbn [negb].
    by rewrite assemble_header, Hfdf by done.
  - destruct Hh as [[-> _]|[(n & fl & Eh & Hfl & Hfdf) _]]; [split; [done|]; by exists p'|].
    destruct He as [[-> _]|[Ee Hlast]]; [rewrite Eh; split; [done|]; by exists p'|].
    rewrite Eh, Ee, zlen_ip_header by done.
    rewrite (proj2 (Z.ltb_ge _ _)) by (unfold MAX_DATAGRAM_LENGTH; lia).
    assert (cover 0 (sort_by fst (pieces p')) = Gap) as ->.
    + rewrite Hsort. apply (cover_part cs 0 total); [done|apply sublist_filter| |].
      * destruct Hlast as (y & Hy & Hye). exists y. split; [|done].
        apply list_elem_of_filter. split; [done|]. by apply Hsub.
      * intros Heq. apply Hpart, (filter_full G Hnd Hsub), Heq.
    + split; [done|]. eexists. split; [done|]. split; [|done]. by apply knows_resort.
Qed.

Context (t0 : Z).

(** The reassembler after the pieces [got]. *)
Definition holding (r : Reassembler) (got : list piece) : Prop :=
  if got then partials r !! key = None
  else ∃ p, partials r !! key = Some p ∧ knows p got ∧ t0 <= started p < t0 + FRAGMENT_TIMEOUT.

Lemma drop_stale_holding r got now :
  holding r got → t0 <= now < t0 + FRAGMENT_TIMEOUT → holding (drop_stale r now) got.
Proof.
  intros Hh Hn. unfold holding, drop_stale in *. cbn [partials]. destruct got.
  - apply map_lookup_filter_None. left. done.
  - destruct Hh as (q & Hq & Hk & Hs). exists q. split; [|done].
    apply map_lookup_filter_Some. split; [done|]. cbn [snd]. unfold since. lia.
Qed.

Lemma discard_other r k : k ≠ key → partials (discard r k) !! key = partials r !! key.
Proof.
  intros Hk. unfold discard. destruct (partials r !! k); [|done]. cbn [partials].
  by rewrite lookup_delete_ne.
Qed.

Lemma evict_holding r got : holding r got → holding (evict_oldest r key) got.
Proof.
  intros Hh. unfold evict_oldest. case_bool_decide as Hnone; [|done].
  destruct (MAX_DATAGRAMS <=? _); [|done].
  pose proof (min_by_spec (λ kv : DatagramKey * Partial, started kv.2) (map_to_list (partials r))) as Hm.
  destruct (min_by _ _) as [[k q]|]; [|done]. destruct Hm as [Hin _].
  apply elem_of_map_to_list in Hin.
  assert (k ≠ key) as Hk by (intros ->; congruence).
  pose proof (discard_other r k Hk) as Hd. cbn [andb]. unfold holding in *. destruct got; [congruence|].
  destruct Hh as (q' & Hq & Hrest). exists q'. split; [congruence|done].
Qed.

(** [push] on a piece, down to [add_piece]. *)
Lemma push_unfold r x now :
  x ∈ cs →
  let r1 := evict_oldest (drop_stale r now) key in
  push r (frag f df total x) now = Ret (add_piece r1 key
    (default (mk_partial now None [] None) (partials r1 !! key))
    (frag f df total x) 20 x.1 x.2 (negb (x.1 + zlen x.2 =? total))).
Proof.
  intros Hx. destruct (piece_bounds x Hx) as (Hx0 & Hxc & Hxe & Ho & Hod). cbn zeta. unfold push.
  destruct (frag_flags_spec df (x.1 / 8) (negb (x.1 + zlen x.2 =? total)) Hdf Ho) as (W1 & W2 & W3 & _).
  destruct (header_reads f (20 + zlen x.2) (frag_flags df (x.1 / 8) (negb (x.1 + zlen x.2 =? total))) x.2 Hf)
    as (R1 & R2 & R3 & R4 & _); [change (2 ^ 16) with 65536; lia|done|]. cbn zeta in *.
  assert (zlen (frag f df total x) = 20 + zlen x.2) as Hl.
  { unfold frag, datagram. by rewrite zlen_app, zlen_ip_header. }
  fold (frag f df total x) in *. change (ip_header _ _ _ ++ x.2) with (frag f df total x) in *.
  destruct (idx_in (frag f df total x) 0 ltac:(lia)) as (b0 & Hb & ->). cbn [mbind run_bind].
  rewrite slice_in by lia. cbn [mbind run_bind].
  assert (b2z b0 = 69) as -> by (rewrite <-R1; unfold nz; by rewrite Hb).
  rewrite nz16_be_Z in R2 by lia. change (2 + 2) with 4 in R2. rewrite R2, R3, R4, W2, W3, Hl, Hod.
  change (Z.land 69 15 * 4) with 20.
  change (20 <? 20) with false. rewrite (proj2 (Z.ltb_ge (20 + zlen x.2) 20)), Z.ltb_irrefl by lia.
  cbn [orb].
  rewrite (sub_eq _ (ip_header f (20 + zlen x.2) (frag_flags df (x.1 / 8) (negb (x.1 + zlen x.2 =? total))))
    x.2 [] 20 _) by (rewrite ?app_nil_r, ?zlen_ip_header; done).
  rewrite (proj2 (Z.ltb_ge MAX_DATAGRAM_LENGTH _)) by (unfold MAX_DATAGRAM_LENGTH; lia).
  destruct (Z.eqb_spec (x.1 + zlen x.2) total) as [_|He]; [done|].
  destruct (Hfull x Hx) as [?|Hm]; [done|]. by rewrite Hm.
Qed.

Lemma push_holding r got x now :
  holding r got → x ∈ cs → NoDup (got ++ [x]) → got ++ [x] ⊆ cs →
  t0 <= now < t0 + FRAGMENT_TIMEOUT →
  ∃ out r', push r (frag f df total x) now = Ret (out, r') ∧
    if decide (length (got ++ [x]) = length cs)
    then out = Some (datagram f df (mjoin cs.*2)) ∧ partials r' !! key = None
    else out = None ∧ holding r' (got ++ [x]).
Proof.
  intros Hh Hx Hnd Hsub Hnow. rewrite push_unfold by done. cbn zeta.
  apply (drop_stale_holding _ _ now), evict_holding in Hh; [|done].
  set (r1 := evict_oldest _ _) in *. set (p := default _ _).
  assert (knows p got ∧ t0 <= started p < t0 + FRAGMENT_TIMEOUT) as [Hk Hst].
  { unfold p, holding in *. destruct got as [|g got].
    - rewrite Hh. split; [|done]. split; cbn [pieces header last_end default]; [done|left..];
        (split; [done|]); intros y Hy; by apply elem_of_nil in Hy.
    - destruct Hh as (q & -> & Hk & Hs). done. }
  pose proof (add_piece_step r1 p got x Hk Hx Hnd Hsub) as Hstep. cbn zeta in Hstep.
  destruct (add_piece r1 key p _ _ _ _ _) as [out r']. exists out, r'. split; [done|].
  case_decide.
  - simplify_eq. split; [done|]. apply lookup_delete_eq.
  - cbn [fst snd] in Hstep. destruct Hstep as (-> & p' & Hp & Hk' & Hs). split; [done|].
    unfold holding. destruct (got ++ [x]) eqn:E; [by destruct got|].
    exists p'. rewrite Hp, Hs. split; [apply lookup_insert_eq|done].
Qed.

Lemma push_all_holding order r got :
  holding r got → NoDup (got ++ order.*1) → got ++ order.*1 ≡ₚ cs → order ≠ [] →
  Forall (λ xt : piece * Z, t0 <= xt.2 < t0 + FRAGMENT_TIMEOUT) order →
  ∃ r', push_all r ((λ xt, (frag f df total xt.1, xt.2)) <$> order)
        = Ret (replicate (length order - 1) None ++ [Some (datagram f df (mjoin cs.*2))], r') ∧
    partials r' !! key = None.
Proof.
  revert r got. induction order as [|[x now] order IH]; intros r got Hh Hnd Hp Hne Ht; [done|].
  cbn [fmap list_fmap fst snd] in *. apply Forall_cons in Ht as [Hnow Ht].
  change (got ++ x :: list_fmap _ _ fst order) with (got ++ x :: order.*1) in *.
  assert (x ∈ cs) as Hx by (rewrite <-Hp; apply elem_of_app; right; apply list_elem_of_here).
  assert (got ++ x :: order.*1 = (got ++ [x]) ++ order.*1) as E by by rewrite <-app_assoc.
  rewrite E in *.
  assert (NoDup (got ++ [x])) as Hnd' by by apply NoDup_app in Hnd as (? & _).
  assert (got ++ [x] ⊆ cs) as Hsub by (intros y Hy; rewrite <-Hp; apply elem_of_app; by left).
  destruct (push_holding r got x now Hh Hx Hnd' Hsub Hnow) as (out & r' & Hpush & Hout).
  cbn [push_all]. rewrite Hpush. cbn [mbind run_bind].
  pose proof (Permutation_length Hp) as Hlen. rewrite length_app in Hlen.
  destruct order as [|y order].
  - rewrite decide_True in Hout by (simpl in Hlen; lia). destruct Hout as [-> Hr]. by exists r'.
  - rewrite decide_False in Hout by (simpl in Hlen; lia). destruct Hout as [-> Hr].
    destruct (IH r' (got ++ [x]) Hr Hnd Hp ltac:(done) Ht) as (r'' & Hall & Hkey).
    exists r''. split; [|done].
    match type of Hall with _ = Ret ?v => match goal with |- context [push_all r' ?l] =>
      change (push_all r' l = Ret v) in Hall; rewrite Hall end end.
    cbn -[datagram frag]. by rewrite ?Nat.sub_0_r.
Qed.
End reassembly.

(** ** Splitting, in general *)

Lemma split_Some_bounds f df payload mtu pieces :
  fields_wf f → df = 0 ∨ df = DONT_FRAGMENT → 20 + zlen payload <= 65535 →
  split_for_tunnel (datagram f df payload) mtu = Some pieces → 28 <= mtu < 20 + zlen payload.
Proof.
  intros Hf Hdf Hlen. unfold split_for_tunnel.
  destruct (header_reads f (20 + zlen payload) df payload Hf) as (R1 & R2 & _);
    [change (2 ^ 16) with 65536; pose proof (zlen_nonneg payload); lia|by destruct Hdf; subst|].
  cbn zeta in *. unfold datagram in *. rewrite R1, R2.
  destruct (Z.ltb_spec mtu 28); [by rewrite orb_true_r|].
  destruct (_ || _ || _); [done|]. destruct (Z.leb_spec (20 + zlen payload) mtu); [by rewrite orb_true_r|].
  lia.
Qed.

(** The pieces of a split tile the payload in multiples of eight bytes. *)
Lemma split_tiles payload mtu :
  28 <= mtu →
  let n := Z.ldiff (mtu - 20) 7 in
  let cs := table 0 n (chunks n payload) in
  tiles 0 cs (zlen payload) ∧ (∀ x, x ∈ cs → x.1 mod 8 = 0) ∧
  (∀ x, x ∈ cs → x.1 + zlen x.2 = zlen payload ∨ zlen x.2 mod 8 = 0) ∧
  (∀ x, x ∈ cs → zlen x.2 <= mtu - 20) ∧ mjoin cs.*2 = payload.
Proof.
  intros Hm. cbn zeta. pose proof (mtu_size mtu Hm) as Hn. cbn zeta in Hn.
  set (n := Z.ldiff (mtu - 20) 7) in *.
  pose proof (table_tiles (length payload) n 0 payload ltac:(lia) ltac:(lia) ltac:(lia)) as Ht.
  rewrite Z.mul_0_l, Z.add_0_l in Ht.
  assert (∀ x, x ∈ table 0 n (chunks n payload) → (∃ j, 0 <= j ∧ x.1 = j * n) ∧ zlen x.2 <= n ∧
    (x.1 + zlen x.2 = zlen payload ∨ zlen x.2 = n ∧ x.1 + n < zlen payload)) as Hc.
  { intros [o c] Hx. apply (chunk_length (length payload) n 0 payload o c); [lia|lia|lia|done]. }
  assert (∀ j, (j * n) mod 8 = 0) as Hmod.
  { intros j. destruct Hn as [_ Hn]. apply Z.mod_divide in Hn as [q ->]; [|done].
    rewrite Z.mul_assoc. by apply Z.mod_mul. }
  split_and!; [done| | | |].
  - intros x Hx. destruct (Hc x Hx) as [(j & _ & ->) _]. apply Hmod.
  - intros x Hx. destruct (Hc x Hx) as (_ & _ & [?|[-> _]]); [by left|right]. tauto.
  - intros x Hx. destruct (Hc x Hx) as (_ & ? & _). lia.
  - assert ((table 0 n (chunks n payload)).*2 = chunks n payload) as ->; [|by apply mjoin_chunks; lia].
    apply list_eq. intros i. unfold table. rewrite list_lookup_fmap, list_lookup_imap.
    by destruct (chunks n payload !! i).
Qed.

Lemma perm_fmap_inv {A B} (g : A → B) (l : list B) (k : list A) :
  l ≡ₚ g <$> k → ∃ k', l = g <$> k' ∧ k ≡ₚ k'.
Proof. intros Hp. by apply Permutation_map_inv in Hp. Qed.

Lemma zip_fst_snd {A B C} (l : list (A * B)) (k : list C) :
  length k = length l → (zip k l.*2).*1 = k ∧ (zip k l.*2).*2 = l.*2.
Proof. intros. split; [apply fst_zip|apply snd_zip]; rewrite length_fmap; lia. Qed.

(** ** Bounds of a reassembler on any input *)

Definition small (p : Partial) : Prop :=
  zlen (pieces p) <= MAX_FRAGMENTS_PER_DATAGRAM ∧ ∀ h, header p = Some h → 20 <= zlen h.

Definition bounded (r : Reassembler) : Prop :=
  zsize (partials r) <= MAX_DATAGRAMS ∧ map_Forall (λ _ p, small p) (partials r).

Lemma zsize_insert_le {K A} `{Countable K} (m : gmap K A) k x :
  zsize (<[k := x]> m) <= zsize m + (if m !! k then 0 else 1).
Proof. unfold zsize. rewrite map_size_insert. destruct (m !! k); simpl; lia. Qed.

Lemma zsize_delete_le {K A} `{Countable K} (m : gmap K A) k : zsize (delete k m) <= zsize m.
Proof. unfold zsize. rewrite map_size_delete. destruct (m !! k); simpl; lia. Qed.

Lemma bounded_delete r k d : bounded r → bounded (mk_reassembler (delete k (partials r)) d).
Proof.
  intros [Hs Hf]. split; cbn [partials].
  - pose proof (zsize_delete_le (partials r) k). lia.
  - by apply map_Forall_delete.
Qed.

Lemma bounded_discard r k : bounded r → bounded (discard r k).
Proof. intros Hr. unfold discard. destruct (partials r !! k); [by apply bounded_delete|done]. Qed.

Lemma discard_insert r k p d :
  discard (mk_reassembler (<[k := p]> (partials r)) d) k
  = mk_reassembler (delete k (partials r)) (d + 1).
Proof.
  unfold discard. cbn [partials discarded]. rewrite lookup_insert_eq. f_equal.
  apply delete_insert_eq.
Qed.

Lemma bounded_drop r now : bounded r → bounded (drop_stale r now).
Proof.
  intros [Hs Hf]. split; cbn [partials drop_stale].
  - unfold zsize in *. pose proof (map_size_filter
      (λ kv : DatagramKey * Partial, since now (started kv.2) < FRAGMENT_TIMEOUT) (partials r)). lia.
  - intros k p Hp. apply map_lookup_filter_Some in Hp as [Hp _]. by eapply Hf.
Qed.

(** Room for one more datagram, unless [k] is already there. *)
Lemma evict_room r k :
  bounded r → bounded (evict_oldest r k) ∧
  zsize (partials (evict_oldest r k)) + (if partials (evict_oldest r k) !! k then 0 else 1) <= MAX_DATAGRAMS.
Proof.
  intros Hr. pose proof Hr as [Hs Hf]. unfold evict_oldest. case_bool_decide as Hk; cbn [andb].
  2: { split; [done|]. destruct (partials r !! k); [lia|done]. }
  destruct (Z.leb_spec MAX_DATAGRAMS (zsize (partials r))) as [Hfull|Hfull].
  2: { split; [done|]. rewrite Hk. lia. }
  pose proof (min_by_spec (λ kv : DatagramKey * Partial, started kv.2) (map_to_list (partials r))) as Hm.
  destruct (min_by _ _) as [[o q]|].
  - destruct Hm as [Hin _]. apply elem_of_map_to_list in Hin. split; [by apply bounded_discard|].
    unfold discard. rewrite Hin. cbn [partials].
    unfold zsize in *. rewrite map_size_delete, Hin.
    assert (size (partials r) ≠ 0%nat) by (apply map_size_ne_0_lookup; eauto).
    destruct (delete o (partials r) !! k); lia.
  - apply map_to_list_empty_iff in Hm. rewrite Hm in Hfull. done.
Qed.

Lemma cover_length c l n : cover c l = Covered n → zlen (mjoin l.*2) = n - c.
Proof.
  revert c. induction l as [|[o p] l IH]; intros c; simpl.
  - intros [= ->]. rewrite zlen_nil. lia.
  - repeat case_match; try done. intros Hc%IH. rewrite zlen_app.
    change (zlen p + zlen (mjoin l.*2) = n - c). lia.
Qed.

Lemma assemble_length h ps : 20 <= zlen h → zlen (assemble h ps) = zlen h + zlen (mjoin ps.*2).
Proof.
  intros Hh. unfold assemble. pose proof (zlen_nonneg (mjoin ps.*2)).
  assert (∀ (l bs : list byte) i, 20 <= zlen l → 0 <= i <= 18 → zlen bs = 2 →
            zlen (paste l i bs) = zlen l) as Hp by (intros; apply zlen_paste; lia).
  set (d0 := h ++ _). assert (zlen d0 = zlen h + zlen (mjoin ps.*2)) as H0 by apply zlen_app.
  set (d1 := paste d0 2 _). assert (zlen d1 = zlen d0) as H1 by (apply Hp; (done || lia)).
  set (d2 := paste d1 6 _). assert (zlen d2 = zlen d1) as H2 by (apply Hp; (done || lia)).
  set (d3 := paste d2 10 _). assert (zlen d3 = zlen d2) as H3 by (apply Hp; (done || lia)).
  rewrite Hp; (done || lia).
Qed.

Section add_piece.
Context (r : Reassembler) (key : DatagramKey) (p : Partial) (packet payload : list byte)
  (header_length offset : Z) (more : bool).
Hypothesis (Hr : bounded r) (Hroom : zsize (partials r) + (if partials r !! key then 0 else 1) <= MAX_DATAGRAMS).
Hypothesis (Hp : small p) (Hh : 20 <= header_length <= zlen packet).

Lemma bounded_store q d : small q → bounded (mk_reassembler (<[key := q]> (partials r)) d).
Proof.
  intros Hq. destruct Hr as [Hs Hf]. split; cbn [partials].
  - pose proof (zsize_insert_le (partials r) key q). lia.
  - by apply map_Forall_insert_2.
Qed.

Lemma add_piece_bounded :
  let out := add_piece r key p packet header_length offset payload more in
  bounded out.2 ∧ ∀ d, out.1 = Some d → zlen d <= MAX_DATAGRAM_LENGTH.
Proof.
  cbn zeta. unfold add_piece. rewrite !discard_insert.
  destruct (list_find _ _) as [[i [o known]]|].
  { case_bool_decide; (split; [|done]); [by apply bounded_store|by apply bounded_delete]. }
  destruct (_ && _); [split; [by apply bounded_delete|done]|].
  set (hdr := if offset =? 0 then _ else _). set (fin := if more then _ else _).
  destruct (Z.ltb_spec MAX_FRAGMENTS_PER_DATAGRAM (zlen (pieces p ++ [(offset, payload)])));
    [split; [by apply bounded_delete|done]|].
  assert (∀ h, hdr = Some h → 20 <= zlen h) as Hhdr.
  { intros h. unfold hdr. destruct (offset =? 0); [|apply Hp]. intros [= <-].
    rewrite zlen_sub; lia. }
  assert (small (mk_partial (started p) hdr (pieces p ++ [(offset, payload)]) fin)) as Hsmall by done.
  destruct hdr as [h|]; [|split; [by apply bounded_store|done]].
  destruct fin as [e|]; [|split; [by apply bounded_store|done]].
  destruct (Z.ltb_spec MAX_DATAGRAM_LENGTH (zlen h + e)); [split; [by apply bounded_delete|done]|].
  rewrite !discard_insert. destruct (cover 0 _) as [| |n] eqn:Ec.
  - split; [|done]. apply bounded_store. split; [|done]. cbn [pieces].
    unfold zlen in *. by rewrite (Permutation_length (sort_by_perm _ _)).
  - split; [by apply bounded_delete|done].
  - destruct (Z.eqb_spec n e) as [->|]; [|split; [by apply bounded_delete|done]].
    split; [by apply bounded_delete|]. cbn [fst negb]. intros d [= <-].
    apply cover_length in Ec. rewrite assemble_length, Ec by (by apply Hhdr). lia.
Qed.
End add_piece.

Lemma push_bounded r packet now :
  bounded r → 4 <= zlen packet →
  ∃ out r', push r packet now = Ret (out, r') ∧ bounded r' ∧
    ∀ d, out = Some d → zlen d <= MAX_DATAGRAM_LENGTH.
Proof.
  intros Hr Hl. unfold push. destruct (idx_in packet 0 ltac:(lia)) as (b0 & _ & ->).
  rewrite slice_in by lia. cbn [mbind run_bind]. cbn zeta.
  apply (bounded_drop r now) in Hr. set (r1 := drop_stale r now) in *.
  set (hl := Z.land (b2z b0) 15 * 4). set (tl := be_Z _).
  destruct (_ || _ || _) eqn:E.
  { do 2 eexists. split; [done|]. by destruct Hr. }
  b2p. destruct (_ || _).
  { do 2 eexists. split; [done|]. split; [by apply bounded_discard|done]. }
  destruct (evict_room r1 (key_of packet) Hr) as [Hr2 Hroom].
  set (r2 := evict_oldest r1 (key_of packet)) in *.
  set (p := default _ _).
  assert (small p) as Hp.
  { unfold p. destruct (partials r2 !! key_of packet) as [q|] eqn:Eq; [|done].
    destruct Hr2 as [_ Hf]. by eapply Hf. }
  pose proof (add_piece_bounded r2 (key_of packet) p packet (sub packet hl tl) hl
    (Z.land (flags packet) OFFSET_MASK * 8) (negb (Z.land (flags packet) MORE_FRAGMENTS =? 0))
    Hr2 Hroom Hp ltac:(lia)) as [Hb1 Hb2].
  destruct (add_piece r2 _ _ _ _ _ _ _) as [out r']. by exists out, r'.
Qed.

Lemma length_chunks_le fuel n (l : list byte) : (0 < n)%nat → (length (chunks_loop fuel n l) <= length l)%nat.
Proof.
  intros Hn. revert l. induction fuel as [|fuel IH]; intros [|x l]; cbn [chunks_loop length]; try lia.
  specialize (IH (drop n (x :: l))). rewrite length_drop in IH. cbn [length] in IH. lia.
Qed.

(** A split never has more pieces than the datagram has bytes. *)
Lemma split_count packet mtu pieces : split_for_tunnel packet mtu = Some pieces → zlen pieces <= zlen packet.
Proof.
  unfold split_for_tunnel. destruct ((zlen packet <? 20) || _ || _) eqn:E; [done|].
  cbn zeta. destruct ((zlen packet <? nz16 packet 2) || _) eqn:E'; [done|]. b2p.
  intros [= <-]. unfold zlen at 1. rewrite length_imap. unfold chunks.
  destruct (mtu_size mtu) as [Hn _]; [lia|].
  pose proof (length_chunks_le (length (sub packet 20 (nz16 packet 2))) (Z.to_nat (Z.ldiff (mtu - 20) 7))
    (sub packet 20 (nz16 packet 2))).
  pose proof (zlen_sub packet 20 (nz16 packet 2)) as Hz. unfold zlen in *. lia.
Qed.

(** *** The headers that rebuilt datagrams keep *)

Section headers.
Context (P : list byte → Prop).

Definition headers_in (r : Reassembler) : Prop :=
  map_Forall (λ _ p, ∀ h, header p = Some h → P h) (partials r).

Lemma headers_delete r k d : headers_in r → headers_in (mk_reassembler (delete k (partials r)) d).
Proof. intros Hr. by apply map_Forall_delete. Qed.

Lemma headers_discard r k : headers_in r → headers_in (discard r k).
Proof. intros Hr. unfold discard. destruct (partials r !! k); [by apply headers_delete|done]. Qed.

Lemma headers_drop r now : headers_in r → headers_in (drop_stale r now).
Proof. intros Hr k p Hp. apply map_lookup_filter_Some in Hp as [Hp _]. by eapply Hr. Qed.

Lemma headers_evict r k : headers_in r → headers_in (evict_oldest r k).
Proof.
  intros Hr. unfold evict_oldest. destruct (_ && _); [|done].
  destruct (min_by _ _) as [[o q]|]; [by apply headers_discard|done].
Qed.

Lemma headers_add r key p packet hl offset payload more :
  headers_in r → (∀ h, header p = Some h → P h) → P (sub packet 0 hl) →
  let out := add_piece r key p packet hl offset payload more in
  headers_in out.2 ∧ ∀ d, out.1 = Some d → ∃ h ps, P h ∧ d = assemble h ps.
Proof.
  intros Hr Hp Hnew. cbn zeta. unfold add_piece. rewrite !discard_insert.
  assert (∀ q d, (∀ h, header q = Some h → P h) → headers_in (mk_reassembler (<[key := q]> (partials r)) d))
    as Hstore by (intros; by apply map_Forall_insert_2).
  assert (∀ d, headers_in (mk_reassembler (delete key (partials r)) d)) as Hdel
    by (intros; by apply headers_delete).
  destruct (list_find _ _) as [[i [o known]]|]; [case_bool_decide; (split; [|done]); [by apply Hstore|apply Hdel]|].
  destruct (_ && _); [split; [apply Hdel|done]|].
  set (hdr := if offset =? 0 then _ else _). set (fin := if more then _ else _).
  assert (∀ h, hdr = Some h → P h) as Hhdr.
  { intros h. unfold hdr. destruct (offset =? 0); [by intros [= <-]|apply Hp]. }
  destruct (_ <? _); [split; [apply Hdel|done]|].
  destruct hdr as [h|]; [|split; [by apply Hstore|done]].
  destruct fin as [e|]; [|split; [by apply Hstore|done]].
  destruct (_ <? _); [split; [apply Hdel|done]|].
  rewrite !discard_insert. destruct (cover 0 _) as [| |n].
  - split; [by apply Hstore|done].
  - split; [apply Hdel|done].
  - destruct (Z.eqb_spec n e); [|split; [apply Hdel|done]].
    split; [apply Hdel|]. cbn [fst negb]. intros d [= <-]. eauto.
Qed.

Lemma headers_push r packet now out r' :
  headers_in r → (∀ hl, 20 <= hl <= zlen packet → P (sub packet 0 hl)) →
  push r packet now = Ret (out, r') →
  headers_in r' ∧ ∀ d, out = Some d → ∃ h ps, P h ∧ d = assemble h ps.
Proof.
  intros Hr Hnew. unfold push. destruct (idx packet 0) as [b0|]; [|done].
  destruct (slice packet 2 4) as [ls|]; [|done]. cbn [mbind run_bind]. cbn zeta.
  apply (headers_drop r now) in Hr. set (r1 := drop_stale r now) in *.
  set (hl := Z.land (b2z b0) 15 * 4).
  destruct (_ || _ || _) eqn:E; [by intros [= <- <-]|]. b2p.
  destruct (_ || _); [intros [= <- <-]; split; [by apply headers_discard|done]|].
  apply (headers_evict r1 (key_of packet)) in Hr. set (r2 := evict_oldest r1 (key_of packet)) in *.
  intros [= Hadd]. pose proof (headers_add r2 (key_of packet)
    (default (mk_partial now None [] None) (partials r2 !! key_of packet)) packet hl
    (Z.land (flags packet) OFFSET_MASK * 8) (sub packet hl (be_Z ls))
    (negb (Z.land (flags packet) MORE_FRAGMENTS =? 0)) Hr) as Hall.
  rewrite Hadd in Hall. apply Hall; [|apply Hnew; lia].
  intros h. destruct (partials r2 !! key_of packet) as [q|] eqn:Eq; simpl; [by apply (Hr _ _ Eq)|done].
Qed.
End headers.

Lemma push_all_bounded packets r :
  bounded r → Forall (λ pt : list byte * Z, 4 <= zlen pt.1) packets →
  ∃ outs r', push_all r packets = Ret (outs, r') ∧ bounded r' ∧
    Forall (λ out, ∀ d, out = Some d → zlen d <= MAX_DATAGRAM_LENGTH) outs.
Proof.
  revert r. induction packets as [|[packet now] packets IH]; intros r Hr Hl; [by exists [], r|].
  apply Forall_cons in Hl as [Hl0 Hl].
  destruct (push_bounded r packet now Hr Hl0) as (out & r1 & Hp & Hr1 & Ho).
  destruct (IH r1 Hr1 Hl) as (outs & r' & Hps & Hr' & Hos).
  exists (out :: outs), r'. cbn [push_all]. rewrite Hp. cbn [mbind run_bind]. rewrite Hps.
  split; [done|]. split; [done|]. by constructor.
Qed.

(** ** The checksum of a readdressed packet *)

(** What the address words and the checksum field contribute to the sum. *)
Definition address_sum (packet : list byte) : Z :=
  nz16 packet 12 + nz16 packet 14 + nz16 packet 16 + nz16 packet 18.

Lemma not16_small z : 0 <= z < 65536 → not16 z = 65535 - z.
Proof. intros. unfold not16. by rewrite Z.mod_small. Qed.

Lemma readdress_sum_eq rewritten original c :
  readdress_sum rewritten original c
  = not16 c + (4 * 65535 - address_sum original) + address_sum rewritten.
Proof.
  unfold readdress_sum, address_sum. cbn [foldl].
  assert (∀ i, not16 (nz16 original i) = 65535 - nz16 original i) as Hn.
  { intros i. apply not16_small, nz16_range. }
  rewrite !Hn. lia.
Qed.

Lemma ones_mod s : 0 <= s → ones s mod 65535 = s mod 65535.
Proof.
  intros Hs. unfold ones. destruct (Z.eqb_spec s 0) as [->|]; [done|].
  by rewrite Zplus_mod, Zmod_mod, <-Zplus_mod, Z.sub_add.
Qed.

Lemma ones_range s : 0 <= s → 0 <= ones s <= 65535.
Proof.
  intros. unfold ones. destruct (_ =? 0); [lia|]. pose proof (Z.mod_pos_bound (s - 1) 65535). lia.
Qed.

(** ** The trail *)

Definition trails (key : DatagramKey) (now : Z) (e : DatagramKey * verdict * Z) : Prop :=
  e.1.1 = key ∧ since now e.2 < TRAIL_TTL.

Lemma list_find_filter {A} (P Q : A → Prop) `{∀ x, Decision (P x), ∀ x, Decision (Q x)} (l : list A) :
  (∀ x, P x → Q x) →
  snd <$> list_find P (filter Q l) = snd <$> list_find P l.
Proof.
  intros HPQ. induction l as [|x l IH]; [done|]. rewrite filter_cons. cbn [list_find].
  destruct (decide (P x)) as [Hp|Hp].
  - rewrite decide_True by auto. cbn [list_find]. by rewrite decide_True.
  - destruct (decide (Q x)); cbn [list_find]; rewrite ?decide_False by done;
      rewrite <-!option_fmap_compose in *;
      destruct (list_find P (filter Q l)) as [[? ?]|], (list_find P l) as [[? ?]|]; simpl in *; congruence.
Qed.

Lemma lookup_find t later now :
  lookup t later now = (snd <$> list_find (trails (key_of later) now) (datagrams t)) ≫= λ e, e.1.2.
Proof.
  unfold lookup. unfold trails. by destruct (list_find _ _) as [[? ?]|].
Qed.

(** ** Properties *)

(** C36. What one end splits, the other end rebuilds, once: the pieces of an
    option-free datagram, delivered in any order within the reassembly timeout,
    make the reassembler answer nothing until the last of them and then the
    original datagram byte for byte, its Don't Fragment bit and checksum
    included. *)
Theorem split_datagram_is_rebuilt f df payload mtu pieces order t0 r
  (Hf : fields_wf f) (Hdf : df = 0 ∨ df = DONT_FRAGMENT) (Hlen : 20 + zlen payload <= 65535)
  (Hsplit : split_for_tunnel (datagram f df payload) mtu = Some pieces)
  (Hfew : zlen pieces <= MAX_FRAGMENTS_PER_DATAGRAM) (Horder : order.*1 ≡ₚ pieces)
  (Htimes : Forall (λ pt, t0 <= pt.2 < t0 + FRAGMENT_TIMEOUT) order)
  (Hnew : partials r !! key_of (datagram f df payload) = None) :
  ∃ r', push_all r order
    = Ret (replicate (length order - 1) None ++ [Some (datagram f df payload)], r').
Proof.
  destruct (split_Some_bounds f df payload mtu pieces Hf Hdf Hlen Hsplit) as [Hm Hbig].
  rewrite split_table in Hsplit by done. cbn zeta in *.
  destruct (split_tiles payload mtu Hm) as (Ht & Ha & Hful & _ & Hjoin).
  set (cs := table _ _ _) in *. clearbody cs. injection Hsplit as <-.
  destruct (header_reads f (20 + zlen payload) df payload Hf) as (_ & _ & _ & R4 & _);
    [change (2 ^ 16) with 65536; pose proof (zlen_nonneg payload); lia|by destruct Hdf; subst|].
  cbn zeta in R4. fold (datagram f df payload) in R4.
  unfold MAX_FRAGMENTS_PER_DATAGRAM in Hfew. rewrite zlen_fmap in Hfew.
  apply perm_fmap_inv in Horder as (cs' & Ho & Hp).
  assert (Hlo : length cs' = length order) by (by rewrite <-(length_fmap fst order), Ho, length_fmap).
  destruct (zip_fst_snd order cs' Hlo) as [Z1 Z2].
  assert (order = (λ xt, (frag f df (zlen payload) xt.1, xt.2)) <$> zip cs' order.*2) as Hord.
  { apply list_eq. intros i. rewrite list_lookup_fmap.
    pose proof (f_equal (.!! i) Ho) as Hoi. rewrite !list_lookup_fmap in Hoi.
    rewrite lookup_zip_with, list_lookup_fmap.
    destruct (order !! i) as [[a b]|], (cs' !! i); simpl in *; congruence. }
  destruct (push_all_holding f df (zlen payload) cs Hf Hdf ltac:(lia) Ht Ha Hful
    ltac:(unfold zlen in Hfew; lia) ltac:(lia) t0 (zip cs' order.*2) r []) as (r' & Hr & _).
  - unfold holding. by rewrite <-R4.
  - rewrite Z1, <-Hp. cbn [app]. by eapply tiles_NoDup.
  - by rewrite Z1, <-Hp.
  - intros Hnil. rewrite Hnil in Z1. cbn in Z1. subst cs'. symmetry in Hp.
    apply Permutation_nil in Hp. rewrite Hp in Ht. simpl in Ht. lia.
  - apply Forall_forall. intros x Hx. rewrite Forall_forall in Htimes.
    assert (x.2 ∈ order.*2) as Hx2 by (rewrite <-Z2; apply list_elem_of_fmap; by exists x).
    apply list_elem_of_fmap in Hx2 as (y & -> & Hy). by apply Htimes.
  - rewrite <-Hord, Hjoin, <-(length_fmap fst), Z1, Hlo in Hr. by exists r'.
Qed.

Definition sample_fields : ip_fields :=
  mk_fields x00 [x12; x34] x40 x11 [x0a; xcb; x00; x02] [x08; x08; x08; x08].

Lemma split_datagram_is_rebuilt_witness :
  let payload := replicate 60 x07 in
  let pieces := default [] (split_for_tunnel (datagram sample_fields DONT_FRAGMENT payload) 44) in
  let order := zip (reverse pieces) [5; 9; 7] in
  ∃ r', push_all default_reassembler order
    = Ret (replicate (length order - 1) None
           ++ [Some (datagram sample_fields DONT_FRAGMENT payload)], r').
Proof.
  apply (split_datagram_is_rebuilt _ _ _ 44
    (default [] (split_for_tunnel (datagram sample_fields DONT_FRAGMENT (replicate 60 x07)) 44)) _ 0).
  - done.
  - by right.
  - done.
  - vm_compute. reflexivity.
  - by vm_compute.
  - rewrite fst_zip by (by vm_compute; lia). apply reverse_Permutation.
  - apply Forall_forall. intros [p t] Ht. apply elem_of_zip_r in Ht.
    unfold FRAGMENT_TIMEOUT, secs. set_unfold in Ht. simpl. lia.
  - done.
Defined.

(** Splitting keeps within the size asked for: a datagram larger than the
    tunnel becomes pieces that each fit it, tile the payload at offsets that are
    multiples of eight and carry a header whose checksum verifies; one that fits
    is left alone, and [fragment] leaves every Don't Fragment datagram alone. *)
Theorem split_fits_tunnel f df payload mtu
  (Hf : fields_wf f) (Hdf : df = 0 ∨ df = DONT_FRAGMENT) (Hlen : 20 + zlen payload <= 65535)
  (Hm : 28 <= mtu) :
  let packet := datagram f df payload in
  match split_for_tunnel packet mtu with
  | None => zlen packet <= mtu
  | Some pieces =>
      mtu < zlen packet ∧ mjoin (drop 20 <$> pieces) = payload ∧
      Forall (λ p, zlen p <= mtu ∧ is_fragment p = true ∧ internet_checksum (sub p 0 20) = 0 ∧
                   Z.land (flags p) DONT_FRAGMENT = df ∧ key_of p = key_of packet) pieces
  end ∧ fragment packet mtu = (if df =? 0 then split_for_tunnel packet mtu else None).
Proof.
  cbn zeta. assert (zlen (datagram f df payload) = 20 + zlen payload) as Hl.
  { unfold datagram. by rewrite zlen_app, zlen_ip_header. }
  pose proof (zlen_nonneg payload) as Hp0.
  destruct (header_reads f (20 + zlen payload) df payload Hf) as (_ & _ & R3 & R4 & _);
    [change (2 ^ 16) with 65536; lia|by destruct Hdf; subst|]. cbn zeta in R3, R4.
  fold (datagram f df payload) in R3, R4. split.
  2: { unfold fragment. rewrite R3, Hl, (proj2 (Z.ltb_ge _ 20)) by lia.
       by destruct Hdf as [->| ->]. }
  destruct (Z.leb_spec (20 + zlen payload) mtu) as [Hfit|Hbig].
  { destruct (split_for_tunnel _ mtu) eqn:E; [|lia]. apply split_Some_bounds in E; [lia|done..]. }
  rewrite split_table by done. cbn zeta.
  destruct (split_tiles payload mtu Hm) as (Ht & Ha & _ & Hsz & Hjoin). cbn zeta in *.
  set (cs := table _ _ _) in *. clearbody cs.
  assert (∀ x, zlen (frag f df (zlen payload) x) = 20 + zlen x.2) as Hfl.
  { intros x. unfold frag, datagram. by rewrite zlen_app, zlen_ip_header. }
  split; [lia|]. split.
  - rewrite <-Hjoin at 2. f_equal. rewrite <-list_fmap_compose. apply list_fmap_ext. intros i x _.
    cbn [compose]. unfold frag, datagram.
    rewrite drop_app_length'; [done|]. pose proof (zlen_ip_header f (20 + zlen x.2)
      (frag_flags df (x.1 / 8) (negb (x.1 + zlen x.2 =? zlen payload))) Hf). unfold zlen in *. lia.
  - apply Forall_fmap, Forall_forall. intros x Hx. cbn [compose].
    destruct (piece_bounds (zlen payload) cs ltac:(lia) Ht Ha x Hx) as (Hx0 & Hxc & Hxe & Ho & _).
    destruct (frag_flags_spec df (x.1 / 8) (negb (x.1 + zlen x.2 =? zlen payload)) Hdf Ho)
      as (W1 & W2 & W3 & W4).
    destruct (header_reads f (20 + zlen x.2) (frag_flags df (x.1 / 8) (negb (x.1 + zlen x.2 =? zlen payload)))
      x.2 Hf) as (Q1 & Q2 & Q3 & Q4 & Q5); [change (2 ^ 16) with 65536; lia|done|].
    cbn zeta in *. change (ip_header _ _ _ ++ x.2) with (frag f df (zlen payload) x) in *.
    specialize (Hsz x Hx). rewrite Hfl.
    split; [lia|]. split; [|by rewrite Q3, Q4, R4].
    unfold is_fragment. rewrite Hfl, (proj2 (Z.leb_le 20 _)), Q1, Q3 by lia. cbn [andb].
    change (Z.shiftr 69 4 =? 4) with true. cbn [andb]. apply negb_true_iff, Z.eqb_neq.
    rewrite Z.land_lor_distr_r, W2. intros H0. apply Z.lor_eq_0_iff in H0 as [Hm0 Ho0].
    rewrite Hm0 in W3. cbn in W3. symmetry in W3. apply negb_false_iff, Z.eqb_eq in W3.
    pose proof (Z.div_mod x.1 8). rewrite Ha in * by done. lia.
Qed.

Lemma split_fits_tunnel_witness :
  let packet := datagram sample_fields 0 (replicate 100 x07) in
  match split_for_tunnel packet 60 with
  | None => zlen packet <= 60
  | Some pieces =>
      60 < zlen packet ∧ mjoin (drop 20 <$> pieces) = replicate 100 x07 ∧
      Forall (λ p, zlen p <= 60 ∧ is_fragment p = true ∧ internet_checksum (sub p 0 20) = 0 ∧
                   Z.land (flags p) DONT_FRAGMENT = 0 ∧ key_of p = key_of packet) pieces
  end ∧ fragment packet 60 = (if 0 =? 0 then split_for_tunnel packet 60 else None).
Proof. apply split_fits_tunnel; [done|by left|done|lia]. Defined.

(** A reassembler is bounded on any input: whatever packets of at least four
    bytes arrive, in any order, it never panics, it holds at most 64 incomplete
    datagrams of at most 64 pieces, and what it rebuilds is no longer than an IPv4
    datagram. *)
Theorem reassembler_is_bounded packets (Hl : Forall (λ pt, 4 <= zlen pt.1) packets) :
  ∃ outs r, push_all default_reassembler packets = Ret (outs, r) ∧
    zsize (partials r) <= MAX_DATAGRAMS ∧
    map_Forall (λ _ p, zlen (pieces p) <= MAX_FRAGMENTS_PER_DATAGRAM) (partials r) ∧
    Forall (λ out, ∀ d, out = Some d → zlen d <= MAX_DATAGRAM_LENGTH) outs.
Proof.
  destruct (push_all_bounded packets default_reassembler) as (outs & r & Hp & [Hs Hb] & Ho);
    [by split|done|].
  exists outs, r. split_and!; [done..| |done]. intros k p Hk. by apply (Hb k p Hk).
Qed.

Lemma reassembler_is_bounded_witness :
  ∃ outs r, push_all default_reassembler [([x45; x00; x00; x14], 0); (replicate 30 x45, 1)] = Ret (outs, r) ∧
    zsize (partials r) <= MAX_DATAGRAMS ∧
    map_Forall (λ _ p, zlen (pieces p) <= MAX_FRAGMENTS_PER_DATAGRAM) (partials r) ∧
    Forall (λ out, ∀ d, out = Some d → zlen d <= MAX_DATAGRAM_LENGTH) outs.
Proof. apply reassembler_is_bounded. by repeat constructor. Defined.

(** Readdressing keeps a transport checksum exactly as valid as it was: the
    checksum and address words sum to the same value modulo 65535 as before, no
    other byte changes, and UDP's "no checksum" is neither invented nor lost. *)
Theorem readdress_keeps_checksum_valid rewritten original off
  (Hoff : checksum_offset rewritten = Some off) (Hin : off + 2 <= zlen rewritten) :
  let udp := nz rewritten 9 =? 17 in
  let c := nz16 rewritten off in
  if udp && (c =? 0)
  then readdress_transport_checksum rewritten original = (true, rewritten)
  else ∃ c', readdress_transport_checksum rewritten original
               = (true, paste rewritten off (be_bytes 2 c')) ∧
    0 <= c' < 2 ^ 16 ∧ (udp = true → c' ≠ 0) ∧
    (c' + address_sum rewritten) mod 65535 = (c + address_sum original) mod 65535.
Proof.
  cbn zeta. unfold readdress_transport_checksum. rewrite Hoff, (proj2 (Z.ltb_ge _ _)) by lia.
  destruct (_ && (nz16 rewritten off =? 0)); [done|].
  set (c := nz16 rewritten off). rewrite readdress_sum_eq.
  assert (∀ p, 0 <= address_sum p <= 4 * 65535) as Ha.
  { intros p. unfold address_sum. pose proof (nz16_range p 12). pose proof (nz16_range p 14).
    pose proof (nz16_range p 16). pose proof (nz16_range p 18). lia. }
  pose proof (Ha original). pose proof (Ha rewritten).
  assert (0 <= c < 65536) as Hc by apply nz16_range. rewrite (not16_small c) by done.
  set (s := 65535 - c + _ + _). assert (0 <= s < 2 ^ 32) as Hs by (unfold s; lia).
  rewrite fold_carry_u32 by done. pose proof (ones_range s ltac:(lia)) as Hr.
  rewrite not16_small by lia. set (u := 65535 - ones s).
  assert (∀ c', c' mod 65535 = u mod 65535 →
    (c' + address_sum rewritten) mod 65535 = (c + address_sum original) mod 65535) as Hfin.
  { intros c' Hc'. rewrite Zplus_mod, Hc', <-Zplus_mod. unfold u.
    replace (65535 - ones s + address_sum rewritten)
      with (address_sum rewritten - ones s + 1 * 65535) by lia.
    rewrite Z.mod_add, Zminus_mod, ones_mod, <-Zminus_mod by lia. unfold s.
    rewrite <-(Z.mod_add (c + address_sum original) (-5)) by lia. f_equal. lia. }
  destruct (Z.eqb_spec (nz rewritten 9) 17) as [Hu|Hu]; cbn [andb].
  - destruct (Z.eqb_spec u 0) as [Hu0|Hu0].
    + exists 65535. split_and!; [done|lia|lia|by intros _|]. apply Hfin. by rewrite Hu0.
    + exists u. split_and!; [done|lia|change (2 ^ 16) with 65536; lia|by intros _|by apply Hfin].
  - exists u. split_and!; [done|lia|change (2 ^ 16) with 65536; lia|by intros ?|by apply Hfin].
Qed.

Lemma readdress_keeps_checksum_valid_witness :
  let packet := datagram sample_fields 0 ([x00; x35; x00; x35; x00; x08; xbe; xef]) in
  let rewritten := paste packet 12 [x0a; xcb; x00; x09] in
  let udp := nz rewritten 9 =? 17 in
  let c := nz16 rewritten 26 in
  if udp && (c =? 0)
  then readdress_transport_checksum rewritten packet = (true, rewritten)
  else ∃ c', readdress_transport_checksum rewritten packet
               = (true, paste rewritten 26 (be_bytes 2 c')) ∧
    0 <= c' < 2 ^ 16 ∧ (udp = true → c' ≠ 0) ∧
    (c' + address_sum rewritten) mod 65535 = (c + address_sum packet) mod 65535.
Proof. apply readdress_keeps_checksum_valid; [by vm_compute|by vm_compute]. Defined.

(** Later fragments follow the newest first fragment of their datagram: the
    trail answers with the verdict recorded last for the same key until it
    expires, recording one datagram leaves the others' answers alone while there
    is room, and the trail never holds more than 64 datagrams. *)
Theorem trail_follows_newest t first later v now now' (Hn : now <= now') :
  (key_of later = key_of first →
   lookup (record t first v now) later now' = if now' - now <? TRAIL_TTL then v else None) ∧
  (key_of later ≠ key_of first → zlen (datagrams t) < TRAIL_LIMIT →
   lookup (record t first v now) later now' = lookup t later now') ∧
  (zlen (datagrams t) <= TRAIL_LIMIT → zlen (datagrams (record t first v now)) <= TRAIL_LIMIT).
Proof.
  rewrite !lookup_find. unfold record. cbn [datagrams].
  set (P := trails (key_of later) now').
  set (kept := filter _ (datagrams t)).
  assert (zlen kept <= zlen (datagrams t)) as Hk.
  { unfold zlen, kept. pose proof (length_filter (λ e : DatagramKey * verdict * Z,
      e.1.1 ≠ key_of first ∧ since now e.2 < TRAIL_TTL) (datagrams t)). lia. }
  split_and!.
  - intros Hkey. set (k := if _ <=? _ then _ else _).
    assert (list_find P k = None) as Hnone.
    { apply list_find_None, Forall_forall. intros e He [Hek _].
      assert (e ∈ kept) as Hin.
      { unfold k in He. destruct (_ <=? _); [|done]. destruct kept; [done|].
        by apply list_elem_of_further. }
      apply list_elem_of_filter in Hin as [[Hne _] _]. congruence. }
    rewrite list_find_app_r by done. cbn [list_find].
    destruct (decide (P (key_of first, v, now))) as [[_ Hs]|Hn'];
      destruct (Z.ltb_spec (now' - now) TRAIL_TTL); [done| | |done].
    + unfold since in Hs. cbn [snd] in Hs. lia.
    + exfalso. apply Hn'. split; [done|]. unfold since. cbn [snd]. unfold TRAIL_TTL, secs in *. lia.
  - intros Hkey Hroom. rewrite (proj2 (Z.leb_gt _ _)) by lia.
    assert (snd <$> list_find P kept = snd <$> list_find P (datagrams t)) as <-.
    { apply list_find_filter. intros e [He Hs]. split; [congruence|]. unfold since in *. lia. }
    destruct (list_find P kept) as [[i e]|] eqn:E.
    + erewrite list_find_app_l by done. done.
    + rewrite list_find_app_r by done. cbn [list_find].
      by destruct (decide (P (key_of first, v, now))) as [[? _]|_].
  - intros Hroom. rewrite zlen_app. change (zlen [_]) with 1.
    destruct (Z.leb_spec TRAIL_LIMIT (zlen kept)); [|lia].
    destruct kept as [|e k]; [done|]. cbn [tail]. rewrite zlen_cons in Hk. lia.
Qed.

Lemma trail_follows_newest_witness :
  let first := datagram sample_fields MORE_FRAGMENTS (replicate 8 x00) in
  let later := datagram sample_fields 1 (replicate 8 x00) in
  (key_of later = key_of first →
   lookup (record default_trail first (Some None) 0) later (secs 1)
   = if secs 1 - 0 <? TRAIL_TTL then Some None else None) ∧
  (key_of later ≠ key_of first → zlen (datagrams default_trail) < TRAIL_LIMIT →
   lookup (record default_trail first (Some None) 0) later (secs 1)
   = lookup default_trail later (secs 1)) ∧
  (zlen (datagrams default_trail) <= TRAIL_LIMIT →
   zlen (datagrams (record default_trail first (Some None) 0)) <= TRAIL_LIMIT).
Proof. apply (trail_follows_newest default_trail); done. Defined.
