(* ===== verification/Mtu.v ===== *)
(** * Path MTU accounting

    Models [engine/src/mtu.rs] and the [SessionMode] of
    [engine/src/relay_path.rs]: what each transport adds to a packet, the MTU a
    session is configured with, and the smaller sizes derived from it. Every
    quantity is a [u16]; [saturating_sub] is [sat_sub]. *)
From S2P Require Import Prelude Protocol Fec.

Inductive SessionMode : Type := Relay | Direct.

#[export] Instance SessionMode_eq_dec : EqDecision SessionMode.
Proof. solve_decision. Defined.

Definition LINK_MTU : Z := 1500.
Definition MIN_TUNNEL_MTU : Z := 1280.
Definition MIN_SIGNALLED_MTU : Z := 1228.
Definition MIN_IPV4_MTU : Z := 576.

Definition normalize_link_mtu (reported : Z) : Z := clamp reported MIN_TUNNEL_MTU LINK_MTU.

Definition configured_tunnel_mtu (reported : Z) : option Z :=
  if (MIN_TUNNEL_MTU <=? reported) && (reported <=? LINK_MTU) then Some reported else None.

Definition OUTER_IPV4_UDP : Z := 20 + 8.
Definition WIREGUARD_DATA : Z := 16 + 16.
Definition OPENVPN_DATA : Z := 4 + 20 + 16 + 4 + 16 + 2.
Definition OUTER_IPV4_TCP : Z := 20 + 32.
Definition SOCKS5_UDP_REQUEST : Z := 10.
Definition L2TP_IPSEC_DATA : Z := 116.
Definition RELAY_OVERLAY : Z := 20 + 8 + HEADER_LEN + 16 + REPAIR_HEADER_MAX.
Definition AEAD_TAG : Z := 16.

Definition is_kind (kind : list byte) (name : string) : bool := bool_decide (kind = str name).

Definition path_overhead_bytes (mode : SessionMode) (kind : list byte) : Z :=
  let '(transport, outer) :=
    if is_kind kind "wireguard" then (WIREGUARD_DATA, OUTER_IPV4_UDP)
    else if is_kind kind "socks5" then (SOCKS5_UDP_REQUEST, OUTER_IPV4_UDP)
    else if is_kind kind "openvpn" then (OPENVPN_DATA, OUTER_IPV4_TCP)
    else if is_kind kind "l2tp" then (L2TP_IPSEC_DATA, 0)
    else if is_kind kind "adapter" then (L2TP_IPSEC_DATA - OUTER_IPV4_UDP, OUTER_IPV4_UDP)
    else (L2TP_IPSEC_DATA, 0) in
  let overlay := match mode with Relay => RELAY_OVERLAY | Direct => 0 end in
  outer + transport + overlay.

Definition path_packet_budget (mode : SessionMode) (kind : list byte) (link_mtu : Z) : Z :=
  let budget := sat_sub link_mtu (path_overhead_bytes mode kind) in
  if negb (is_kind kind "wireguard") then budget else
  let overlay := if bool_decide (mode = Relay) then RELAY_OVERLAY else 0 in
  let inner := sat_sub link_mtu (OUTER_IPV4_UDP + WIREGUARD_DATA) in
  sat_sub (inner / 16 * 16) overlay.

Record EffectiveMtu : Type := mk_mtu {
  mtu : Z;
  overhead : Z;
  below_link_budget : bool;
  budget : Z
}.

(** [reduce] over the pairs of overhead and budget. *)
Definition worst (l : list (Z * Z)) : option (Z * Z) :=
  match l with
  | [] => None
  | x :: l' => Some (foldl (λ a b, (Z.max a.1 b.1, Z.min a.2 b.2)) x l')
  end.

Definition for_session (mode : SessionMode) (kinds : list (list byte)) (link_mtu : Z) : EffectiveMtu :=
  let link_mtu := normalize_link_mtu link_mtu in
  let '(overhead, budget) :=
    default (path_overhead_bytes mode [], path_packet_budget mode [] link_mtu)
      (worst ((λ kind, (path_overhead_bytes mode kind, path_packet_budget mode kind link_mtu)) <$> kinds)) in
  let mtu := Z.max budget MIN_TUNNEL_MTU in
  mk_mtu mtu overhead (budget <? mtu) budget.

Definition relay_tun_mtu (link_mtu : Z) : Z :=
  mtu (for_session Relay [str "openvpn"; str "wireguard"; str "socks5"; str "l2tp"] link_mtu).

Definition with_tunnel_limit (e : EffectiveMtu) (configured : option Z) : EffectiveMtu :=
  let limit := configured_tunnel_mtu (default LINK_MTU configured) in
  let m := Z.max (match limit with Some l => Z.min (mtu e) l | None => mtu e end) MIN_TUNNEL_MTU in
  let b := match limit with Some l => Z.min (budget e) l | None => budget e end in
  mk_mtu m (overhead e) (below_link_budget e) b.

Definition unfragmented (e : EffectiveMtu) : Z := clamp (budget e) MIN_SIGNALLED_MTU (mtu e).
Definition own_stack (e : EffectiveMtu) : Z := clamp (budget e) MIN_IPV4_MTU (mtu e).
Definition tcp_mss (e : EffectiveMtu) : Z := sat_sub (mtu e) (20 + 20).
Definition probe_floor (e : EffectiveMtu) : Z := Z.min MIN_TUNNEL_MTU (mtu e).

(** ** What goes on the wire

    The layers a packet of [n] bytes is wrapped in: the relay overlay when there
    is one (with the repair header, the dearest frame), then the transport. *)

Definition overlay (mode : SessionMode) : Z := match mode with Relay => RELAY_OVERLAY | Direct => 0 end.

(** A standard WireGuard peer pads the encrypted packet to 16 bytes. *)
Definition wire_length (mode : SessionMode) (kind : list byte) (n : Z) : Z :=
  let inner := n + overlay mode in
  if is_kind kind "wireguard" then (inner + 15) / 16 * 16 + WIREGUARD_DATA + OUTER_IPV4_UDP
  else inner + (path_overhead_bytes mode kind - overlay mode).

(** ** Proofs *)

Lemma overhead_range mode kind : 38 <= path_overhead_bytes mode kind <= 116 + 99.
Proof.
  unfold path_overhead_bytes. destruct mode;
    repeat (destruct (is_kind kind _); [by vm_compute|]); by vm_compute.
Qed.

Lemma wireguard_overhead mode kind :
  is_kind kind "wireguard" = true → path_overhead_bytes mode kind = 60 + overlay mode.
Proof. unfold path_overhead_bytes. intros ->. by destruct mode. Qed.

Lemma overlay_range mode : 0 <= overlay mode <= 99.
Proof. by destruct mode. Qed.

Lemma path_budget_spec mode kind link n :
  1280 <= link → 0 <= n →
  (n <= path_packet_budget mode kind link → wire_length mode kind n <= link) ∧
  576 <= path_packet_budget mode kind link <= link.
Proof.
  intros Hl Hn. pose proof (overhead_range mode kind) as Ho. pose proof (overlay_range mode) as Hv.
  unfold path_packet_budget, wire_length.
  destruct (is_kind kind "wireguard") eqn:E; cbn [negb].
  - replace (if bool_decide (mode = Relay) then RELAY_OVERLAY else 0) with (overlay mode)
      by (by destruct mode).
    change (OUTER_IPV4_UDP + WIREGUARD_DATA) with 60. change OUTER_IPV4_UDP with 28.
    change WIREGUARD_DATA with 32. unfold sat_sub. rewrite (Z.max_r 0 (link - 60)) by lia.
    pose proof (Z.div_mod (link - 60) 16 ltac:(lia)). pose proof (Z.mod_pos_bound (link - 60) 16).
    split; [|lia]. intros Hb.
    assert ((n + overlay mode + 15) / 16 < (link - 60) / 16 + 1); [|lia].
    apply Z.div_lt_upper_bound; lia.
  - unfold sat_sub. lia.
Qed.

Lemma worst_min l x y : worst l = Some (x, y) → (∀ p, p ∈ l → y <= p.2 ∧ p.1 <= x) ∧ ∃ p, p ∈ l ∧ p.2 = y.
Proof.
  assert (∀ l a, let w := foldl (λ a b : Z * Z, (Z.max a.1 b.1, Z.min a.2 b.2)) a l in
    (w.2 <= a.2 ∧ a.1 <= w.1) ∧ (∀ p, p ∈ l → w.2 <= p.2 ∧ p.1 <= w.1) ∧
    (w.2 = a.2 ∨ ∃ p, p ∈ l ∧ p.2 = w.2)) as H.
  { clear. induction l as [|b l IH]; intros a; cbn zeta; cbn [foldl].
    - split; [done|]. split; [|by left]. intros p Hp. by apply elem_of_nil in Hp.
    - destruct (IH (Z.max a.1 b.1, Z.min a.2 b.2)) as (H1 & H2 & H3). cbn zeta in *. cbn [fst snd] in *.
      split; [lia|]. split.
      + intros p [->|Hp]%elem_of_cons; [lia|by apply H2].
      + destruct H3 as [H3|(p & Hp & H3)]; [|right; exists p; split; [by apply list_elem_of_further|done]].
        rewrite H3. destruct (Z.min_spec a.2 b.2) as [[_ ->]|[_ ->]]; [by left|right].
        exists b. split; [apply list_elem_of_here|done]. }
  destruct l as [|a l]; [done|]. cbn [worst]. intros Hw.
  assert (foldl (λ a b : Z * Z, (Z.max a.1 b.1, Z.min a.2 b.2)) a l = (x, y)) as Hf by congruence.
  destruct (H l a) as (H1 & H2 & H3). cbn zeta in *. rewrite Hf in *. cbn [fst snd] in *. split.
  - intros p [->|Hp]%elem_of_cons; [lia|by apply H2].
  - destruct H3 as [H3|(p & Hp & H3)]; [exists a|exists p]; (split; [|done]);
      [apply list_elem_of_here|by apply list_elem_of_further].
Qed.

Section session.
Context (mode : SessionMode) (kinds : list (list byte)) (link : Z).

Let e : EffectiveMtu := for_session mode kinds link.

Lemma normalized : 1280 <= normalize_link_mtu link <= 1500.
Proof. unfold normalize_link_mtu, clamp, MIN_TUNNEL_MTU, LINK_MTU. lia. Qed.

Lemma session_budget_range : 576 <= budget e <= 1500 ∧ mtu e = Z.max (budget e) 1280 ∧
  below_link_budget e = (budget e <? 1280).
Proof.
  subst e. unfold for_session. pose proof normalized as Hn. set (l := normalize_link_mtu link) in *.
  assert (∀ k, 576 <= path_packet_budget mode k l <= l) as Hb.
  { intros k. apply (path_budget_spec mode k l 0); lia. }
  destruct (worst _) as [[o b]|] eqn:Ew; cbn [default from_option id].
  - destruct (worst_min _ _ _ Ew) as [_ (p & Hp & <-)].
    apply list_elem_of_fmap in Hp as (k & -> & _). specialize (Hb k). cbn [budget mtu below_link_budget snd].
    unfold MIN_TUNNEL_MTU. repeat split; [lia..|]. apply eq_iff_eq_true. rewrite !Z.ltb_lt. lia.
  - specialize (Hb []). cbn [budget mtu below_link_budget]. unfold MIN_TUNNEL_MTU.
    repeat split; [lia..|]. apply eq_iff_eq_true. rewrite !Z.ltb_lt. lia.
Qed.

Lemma session_budget_min kind : kind ∈ kinds → budget e <= path_packet_budget mode kind (normalize_link_mtu link).
Proof.
  intros Hk. subst e. unfold for_session. set (l := normalize_link_mtu link).
  destruct (worst _) as [[o b]|] eqn:Ew; cbn [default from_option id budget].
  - destruct (worst_min _ _ _ Ew) as [Hall _].
    apply (Hall (path_overhead_bytes mode kind, path_packet_budget mode kind l)).
    apply list_elem_of_fmap. by exists kind.
  - destruct kinds; [by apply elem_of_nil in Hk|done].
Qed.
End session.

(** ** Properties *)

(** A session's sizes are always in range: whatever the link reports, the
    transports and the provider's limit, the MTU is between 1280 and 1500, the
    sizes derived from it are below it (so their clamps never panic), and a floor
    held above the budget is recorded. *)
Theorem session_sizes_in_range mode kinds link configured :
  let e := for_session mode kinds link in
  let t := with_tunnel_limit e configured in
  1280 <= mtu e <= 1500 ∧ 1280 <= mtu t <= mtu e ∧ budget t <= budget e ∧
  (below_link_budget t = true ↔ budget e < mtu e) ∧
  1228 <= unfragmented t <= mtu t ∧ 576 <= own_stack t <= mtu t ∧
  (budget t <= mtu t → own_stack t = Z.max 576 (budget t)) ∧
  tcp_mss t + 40 = mtu t ∧ probe_floor t = 1280.
Proof.
  cbn zeta. destruct (session_budget_range mode kinds link) as (Hb & Hm & Hbl).
  set (e := for_session mode kinds link) in *.
  unfold with_tunnel_limit, configured_tunnel_mtu. destruct (_ && _) eqn:E; b2p;
    unfold unfragmented, own_stack, tcp_mss, probe_floor, clamp, sat_sub, MIN_TUNNEL_MTU,
      MIN_SIGNALLED_MTU, MIN_IPV4_MTU in *; cbn [mtu budget below_link_budget];
    rewrite Hbl, Z.ltb_lt; repeat split; lia.
Qed.

(** The budget is what the wire carries: a packet no larger than a session's
    budget leaves this machine in a datagram the (normalised) link carries whole,
    over every transport of the session, padding and repair header included; so
    does every packet the tunnel admits unless [below_link_budget] says otherwise. *)
Theorem budget_fits_the_link mode kinds link kind n
  (Hk : kind ∈ kinds) (Hn : 0 <= n <= budget (for_session mode kinds link)) :
  wire_length mode kind n <= normalize_link_mtu link ∧
  (below_link_budget (for_session mode kinds link) = false →
   wire_length mode kind (mtu (for_session mode kinds link)) <= normalize_link_mtu link).
Proof.
  pose proof (session_budget_min mode kinds link kind Hk) as Hb.
  destruct (session_budget_range mode kinds link) as (Hr & Hm & Hbl).
  pose proof (normalized link) as Hl. split.
  - apply path_budget_spec; lia.
  - rewrite Hbl, Z.ltb_ge. intros. apply path_budget_spec; lia.
Qed.

Lemma budget_fits_the_link_witness :
  wire_length Relay (str "wireguard") 1269
    <= normalize_link_mtu 1450 ∧
  (below_link_budget (for_session Relay [str "wireguard"; str "socks5"] 1450) = false →
   wire_length Relay (str "wireguard") (mtu (for_session Relay [str "wireguard"; str "socks5"] 1450))
    <= normalize_link_mtu 1450).
Proof.
  apply (budget_fits_the_link Relay [str "wireguard"; str "socks5"] 1450 (str "wireguard") 1269).
  - apply list_elem_of_here.
  - vm_compute. split; intros; discriminate.
Defined.
