(* ===== verification/Text.v ===== *)
(** * Text: Rust strings as UTF-8 bytes

    A [String] or [&str] is the list of its bytes. This file holds what the
    program uses of the standard library's string functions: UTF-8 validation and
    the lossy reading, splitting, trimming, ASCII case and the decimal parsers. *)
From S2P Require Import Prelude.

(** ** UTF-8 *)

Definition in_range (b : byte) (lo hi : Z) : bool := (lo <=? b2z b) && (b2z b <=? hi).
Definition is_cont (b : byte) : bool := in_range b 0x80 0xbf.

(** The bytes a character led by [b] takes; 0 when [b] leads none. *)
Definition char_width (b : byte) : nat :=
  if b2z b <? 0x80 then 1%nat
  else if in_range b 0xc2 0xdf then 2%nat
  else if in_range b 0xe0 0xef then 3%nat
  else if in_range b 0xf0 0xf4 then 4%nat
  else 0%nat.

(** The second byte excludes overlong forms, surrogates and values past U+10FFFF. *)
Definition second_ok (b c : byte) : bool :=
  if b2z b =? 0xe0 then in_range c 0xa0 0xbf
  else if b2z b =? 0xed then in_range c 0x80 0x9f
  else if b2z b =? 0xf0 then in_range c 0x90 0xbf
  else if b2z b =? 0xf4 then in_range c 0x80 0x8f
  else is_cont c.

(** One step of the decoder: whether a character starts the text, and how many
    bytes it, or the longest prefix of one that breaks off, takes. *)
Definition utf8_step (b : byte) (l : list byte) : bool * nat :=
  match char_width b with
  | 0%nat => (false, 1%nat)
  | 1%nat => (true, 1%nat)
  | w =>
      match l with
      | c :: l' =>
          if negb (second_ok b c) then (false, 1%nat) else
          if (w =? 2)%nat then (true, 2%nat) else
          match l' with
          | d :: l'' =>
              if negb (is_cont d) then (false, 2%nat) else
              if (w =? 3)%nat then (true, 3%nat) else
              match l'' with
              | e :: _ => if is_cont e then (true, 4%nat) else (false, 3%nat)
              | [] => (false, 3%nat)
              end
          | [] => (false, 2%nat)
          end
      | [] => (false, 1%nat)
      end
  end.

(** The text as characters and broken runs. *)
Fixpoint utf8_runs (fuel : nat) (l : list byte) : list (bool * list byte) :=
  match fuel, l with
  | S fuel', b :: l' =>
      let '(ok, n) := utf8_step b l' in
      (ok, take n l) :: utf8_runs fuel' (drop n l)
  | _, _ => []
  end.
Definition runs (l : list byte) : list (bool * list byte) := utf8_runs (length l) l.

(** [str::from_utf8(l).is_ok()]. *)
Definition valid_utf8 (l : list byte) : bool := forallb fst (runs l).

(** [String::from_utf8_lossy(l)]: U+FFFD for each broken run. *)
Definition from_utf8_lossy (l : list byte) : list byte :=
  mjoin ((λ r : bool * list byte, if r.1 then r.2 else [xef; xbf; xbd]) <$> runs l).

(** ** Splitting *)

(** [s.split(c)] for an ASCII character. *)
Fixpoint split_on (c : byte) (s : list byte) : list (list byte) :=
  match s with
  | [] => [[]]
  | b :: s' =>
      if bool_decide (b = c) then [] :: split_on c s'
      else match split_on c s' with
           | part :: rest => (b :: part) :: rest
           | [] => [[b]]
           end
  end.

(** The pieces with [c] between them. *)
Fixpoint join_with (c : byte) (parts : list (list byte)) : list byte :=
  match parts with
  | [] => []
  | [part] => part
  | part :: rest => part ++ c :: join_with c rest
  end.

(** [s.split_once(c)] and [s.rsplit_once(c)]. *)
Fixpoint split_once (c : byte) (s : list byte) : option (list byte * list byte) :=
  match s with
  | [] => None
  | b :: s' =>
      if bool_decide (b = c) then Some ([], s')
      else '(before, after) ← split_once c s'; Some (b :: before, after)
  end.
Definition rsplit_once (c : byte) (s : list byte) : option (list byte * list byte) :=
  '(before, after) ← split_once c (reverse s); Some (reverse after, reverse before).

Definition contains (c : byte) (s : list byte) : bool := bool_decide (c ∈ s).

(** [s.starts_with(p)], [s.ends_with(p)], and what [strip_prefix] and
    [strip_suffix] leave. *)
Fixpoint strip_prefix (p s : list byte) : option (list byte) :=
  match p, s with
  | [], _ => Some s
  | a :: p', b :: s' => if bool_decide (a = b) then strip_prefix p' s' else None
  | _ :: _, [] => None
  end.
Definition strip_suffix (p s : list byte) : option (list byte) :=
  reverse <$> strip_prefix (reverse p) (reverse s).
Definition ends_with (p s : list byte) : bool := bool_decide (is_Some (strip_suffix p s)).
Definition starts_with (p s : list byte) : bool := bool_decide (is_Some (strip_prefix p s)).

(** [windows(p.len()).position(|w| w == p)]. *)
Fixpoint find_from (p s : list byte) (at_ : Z) : option Z :=
  if starts_with p s then Some at_
  else match s with
       | [] => None
       | _ :: s' => find_from p s' (at_ + 1)
       end.
Definition find_bytes (p s : list byte) : option Z := find_from p s 0.

(** [s.split("\r\n")]. *)
Fixpoint split_crlf (s : list byte) : list (list byte) :=
  match s with
  | [] => [[]]
  | a :: s' =>
      match s' with
      | b :: s'' =>
          if bool_decide (a = x0d ∧ b = x0a) then [] :: split_crlf s''
          else match split_crlf s' with
               | part :: rest => (a :: part) :: rest
               | [] => [[a]]
               end
      | [] => [[a]]
      end
  end.

(** [s.lines()]: the pieces between line feeds, a carriage return before one
    taken with it, and no piece after the last. *)
Fixpoint line_pieces (pieces : list (list byte)) : list (list byte) :=
  match pieces with
  | [] => []
  | [last] => match last with [] => [] | _ => [last] end
  | piece :: rest => default piece (strip_suffix [x0d] piece) :: line_pieces rest
  end.
Definition str_lines (s : list byte) : list (list byte) := line_pieces (split_on x0a s).

(** ** Case *)

Definition lower (b : byte) : byte := if in_range b 65 90 then z2b (b2z b + 32) else b.
Definition to_ascii_lowercase (s : list byte) : list byte := lower <$> s.
Definition eq_ignore_ascii_case (s t : list byte) : bool :=
  bool_decide (to_ascii_lowercase s = to_ascii_lowercase t).

Definition upper (b : byte) : byte := if in_range b 97 122 then z2b (b2z b - 32) else b.
Definition to_ascii_uppercase (s : list byte) : list byte := upper <$> s.

(** ** Trimming *)

(** The [White_Space] characters. *)
Definition is_white (r : list byte) : bool :=
  match r with
  | [b] => in_range b 0x09 0x0d || (b2z b =? 0x20)
  | [xc2; b] => (b2z b =? 0x85) || (b2z b =? 0xa0)
  | [xe1; x9a; x80] => true
  | [xe2; x80; b] => in_range b 0x80 0x8a || (b2z b =? 0xa8) || (b2z b =? 0xa9) || (b2z b =? 0xaf)
  | [xe2; x81; x9f] => true
  | [xe3; x80; x80] => true
  | _ => false
  end.

Fixpoint drop_while {A} (p : A → bool) (l : list A) : list A :=
  match l with
  | x :: l' => if p x then drop_while p l' else l
  | [] => []
  end.

(** [s.trim()]. *)
Definition trim (s : list byte) : list byte :=
  let chars := snd <$> runs s in
  mjoin (reverse (drop_while is_white (reverse (drop_while is_white chars)))).

(** [s.split_whitespace()]. *)
Fixpoint words_loop (chars : list (list byte)) (word : list byte) : list (list byte) :=
  match chars with
  | [] => match word with [] => [] | _ => [word] end
  | c :: rest =>
      if is_white c then match word with [] => words_loop rest [] | _ => word :: words_loop rest [] end
      else words_loop rest (word ++ c)
  end.
Definition split_whitespace (s : list byte) : list (list byte) := words_loop (snd <$> runs s) [].

(** [s.trim_end_matches(c)] for an ASCII character. *)
Definition trim_end_matches (c : byte) (s : list byte) : list byte :=
  reverse (drop_while (λ b, bool_decide (b = c)) (reverse s)).

(** ** Numbers *)

Definition digit (b : byte) : option Z := if in_range b 48 57 then Some (b2z b - 48) else None.

Fixpoint read_digits (s : list byte) (value : Z) : option Z :=
  match s with
  | [] => Some value
  | b :: s' => d ← digit b; read_digits s' (value * 10 + d)
  end.

(** [s.parse::<uN>()]: an optional plus, then digits whose value fits. *)
Definition parse_unsigned (max : Z) (s : list byte) : option Z :=
  let digits := match s with x2b :: s' => s' | _ => s end in
  match digits with
  | [] => None
  | _ => value ← read_digits digits 0; if value <=? max then Some value else None
  end.
Definition parse_u8 : list byte → option Z := parse_unsigned 255.
Definition parse_u16 : list byte → option Z := parse_unsigned 65535.

(** One group of a dotted quad: at most three digits, no leading zero. *)
Definition parse_octet (s : list byte) : option byte :=
  match s with
  | x30 :: _ :: _ => None
  | [] => None
  | _ =>
      if 3 <? zlen s then None else
      value ← read_digits s 0;
      if value <=? 255 then Some (z2b value) else None
  end.

(** [s.parse::<Ipv4Addr>()]. *)
Definition parse_ipv4 (s : list byte) : option (list byte) :=
  match split_on x2e s with
  | [a; b; c; d] =>
      w ← parse_octet a; x ← parse_octet b; y ← parse_octet c; z ← parse_octet d;
      Some [w; x; y; z]
  | _ => None
  end.

(** [{number}] of an unsigned integer of at most 20 digits. *)
Fixpoint number_loop (fuel : nat) (z : Z) (digits : list byte) : list byte :=
  match fuel with
  | O => digits
  | S fuel' =>
      let digits := z2b (48 + z mod 10) :: digits in
      if z <? 10 then digits else number_loop fuel' (z / 10) digits
  end.
Definition number (z : Z) : list byte := number_loop 20 z [].

(** [{number}] of a byte and [{address}] of an address. *)
Definition decimal (z : Z) : list byte :=
  (if 100 <=? z then [z2b (48 + z / 100)] else [])
  ++ (if 10 <=? z then [z2b (48 + z / 10 mod 10)] else []) ++ [z2b (48 + z mod 10)].
Definition dotted (a : list byte) : list byte :=
  decimal (nz a 0) ++ [x2e] ++ decimal (nz a 1) ++ [x2e] ++ decimal (nz a 2) ++ [x2e] ++ decimal (nz a 3).

(** ** The decoder *)

Lemma utf8_step_width b l : (1 <= (utf8_step b l).2 <= S (length l))%nat.
Proof. unfold utf8_step. repeat case_match; simpl; lia. Qed.

(** What an ASCII byte leads is not part of the character before it. *)
Lemma utf8_step_ascii b l c k : b2z c < 0x80 → utf8_step b (l ++ c :: k) = utf8_step b l.
Proof.
  intros Hc.
  assert (is_cont c = false) as Hcont by (unfold is_cont, in_range; lia).
  assert (second_ok b c = false) as Hsecond.
  { unfold second_ok, is_cont, in_range. repeat case_match; lia. }
  unfold utf8_step. destruct (char_width b) as [|[|w]]; [done..|].
  destruct l as [|x [|y [|z l]]]; cbn [app]; rewrite ?Hcont, ?Hsecond; repeat case_match; done.
Qed.

Lemma utf8_step_first_ascii c l : b2z c < 0x80 → utf8_step c l = (true, 1%nat).
Proof.
  intros Hc. unfold utf8_step, char_width. by rewrite (proj2 (Z.ltb_lt _ _) Hc).
Qed.

Lemma utf8_runs_fuel fuel fuel' l :
  (length l <= fuel)%nat → (length l <= fuel')%nat → utf8_runs fuel l = utf8_runs fuel' l.
Proof.
  revert fuel' l. induction fuel as [|fuel IH]; intros [|fuel'] [|b l] Hf Hf';
    simpl in Hf, Hf'; try lia; try done.
  cbn [utf8_runs]. pose proof (utf8_step_width b l).
  destruct (utf8_step b l) as [ok n]. simpl in *. f_equal.
  apply IH; rewrite length_drop; simpl; lia.
Qed.

Lemma runs_nil : runs [] = [].
Proof. done. Qed.

Lemma runs_cons b l :
  runs (b :: l) =
    ((utf8_step b l).1, take (utf8_step b l).2 (b :: l)) :: runs (drop (utf8_step b l).2 (b :: l)).
Proof.
  unfold runs. cbn [length utf8_runs]. pose proof (utf8_step_width b l).
  destruct (utf8_step b l) as [ok n]. simpl in *. f_equal.
  apply utf8_runs_fuel; rewrite length_drop; simpl; lia.
Qed.

(** Induction along the runs of a text. *)
Lemma runs_ind (P : list byte → Prop) :
  P [] → (∀ b l, P (drop (utf8_step b l).2 (b :: l)) → P (b :: l)) → ∀ l, P l.
Proof.
  intros Hnil Hcons l. remember (length l) as n eqn:Hn. revert l Hn.
  induction n as [n IH] using lt_wf_ind. intros [|b l] ->; [done|].
  apply Hcons. eapply IH; [|done]. pose proof (utf8_step_width b l).
  rewrite length_drop. simpl. lia.
Qed.

Lemma runs_join l : mjoin (snd <$> runs l) = l.
Proof.
  induction l as [|b l IH] using runs_ind; [done|].
  rewrite runs_cons, fmap_cons.
  change (take (utf8_step b l).2 (b :: l) ++ mjoin (snd <$> runs (drop (utf8_step b l).2 (b :: l))) = b :: l).
  rewrite IH. apply take_drop.
Qed.

Lemma runs_app_ascii c l k :
  b2z c < 0x80 → runs (l ++ c :: k) = runs l ++ (true, [c]) :: runs k.
Proof.
  intros Hc. induction l as [|b l IH] using runs_ind.
  - cbn [app]. rewrite runs_cons, utf8_step_first_ascii by done. done.
  - cbn [app]. rewrite !runs_cons, utf8_step_ascii by done. cbn [app].
    pose proof (utf8_step_width b l). change (b :: l ++ c :: k) with ((b :: l) ++ c :: k).
    rewrite take_app_le, drop_app_le by (simpl; lia). by rewrite IH.
Qed.

Lemma lossy_valid l : valid_utf8 l = true → from_utf8_lossy l = l.
Proof.
  unfold valid_utf8, from_utf8_lossy. intros Hv. rewrite <-(runs_join l) at 2.
  f_equal. apply list_fmap_ext. intros i [ok r] Hi.
  eapply forallb_forall in Hv; [|by eapply list_elem_of_In, list_elem_of_lookup_2].
  simpl in *. by subst.
Qed.

Lemma valid_app_ascii c l k :
  b2z c < 0x80 → valid_utf8 (l ++ c :: k) = valid_utf8 l && valid_utf8 k.
Proof. intros Hc. unfold valid_utf8. rewrite runs_app_ascii by done. by rewrite forallb_app. Qed.

Lemma valid_ascii l : Forall (λ b, b2z b < 0x80) l → valid_utf8 l = true.
Proof.
  induction 1 as [|b l Hb _ IH]; [done|]. change (b :: l) with ([] ++ b :: l). by rewrite valid_app_ascii.
Qed.

(** ** Pieces *)

Lemma split_on_app c l k :
  c ∉ l → split_on c (l ++ c :: k) = l :: split_on c k.
Proof.
  induction l as [|b l IH]; cbn [app split_on]; intros Hc.
  - by rewrite bool_decide_eq_true_2.
  - rewrite bool_decide_eq_false_2 by set_solver. rewrite IH by set_solver. done.
Qed.

Lemma split_on_none c l : c ∉ l → split_on c l = [l].
Proof.
  induction l as [|b l IH]; cbn [split_on]; intros Hc; [done|].
  rewrite bool_decide_eq_false_2 by set_solver. by rewrite IH by set_solver.
Qed.

(** A text is some text without [c], alone or before [c] and the rest. *)
Lemma split_ind c (P : list byte → Prop) :
  (∀ l, c ∉ l → P l) → (∀ l k, c ∉ l → P k → P (l ++ c :: k)) → ∀ l, P l.
Proof.
  intros Hlast Happ l. remember (length l) as n eqn:Hn. revert l Hn.
  induction n as [n IH] using lt_wf_ind. intros l ->.
  destruct (decide (c ∈ l)) as [(l1 & l2 & -> & Hc)%list_elem_of_split_l|Hc]; [|auto].
  apply Happ; [done|]. eapply IH; [|done]. rewrite length_app. simpl. lia.
Qed.

Lemma join_split c l : join_with c (split_on c l) = l.
Proof.
  induction l as [l Hl|l k Hl IH] using (split_ind c).
  - by rewrite split_on_none.
  - rewrite split_on_app by done. cbn [join_with].
    destruct (split_on c k) as [|part rest] eqn:E; [|by rewrite IH].
    exfalso. revert E. clear. destruct k as [|b k]; cbn [split_on]; repeat case_match; done.
Qed.

Lemma split_on_not_nil c l : split_on c l ≠ [].
Proof.
  induction l as [l Hl|l k Hl _] using (split_ind c).
  - by rewrite split_on_none.
  - by rewrite split_on_app.
Qed.

Lemma split_on_clean c l : Forall (λ part, c ∉ part) (split_on c l).
Proof.
  induction l as [l Hl|l k Hl IH] using (split_ind c).
  - rewrite split_on_none by done. by repeat constructor.
  - rewrite split_on_app by done. by constructor.
Qed.

Lemma split_join c parts :
  parts ≠ [] → Forall (λ part, c ∉ part) parts → split_on c (join_with c parts) = parts.
Proof.
  intros Hne. induction 1 as [|part [|next parts] Hpart Hrest IH]; [done|by apply split_on_none|].
  cbn [join_with]. rewrite split_on_app by done. f_equal. by apply IH.
Qed.

Lemma valid_parts c l :
  b2z c < 0x80 → valid_utf8 l = true → Forall (λ part, valid_utf8 part = true) (split_on c l).
Proof.
  intros Hc. induction l as [l Hl|l k Hl IH] using (split_ind c); intros Hv.
  - rewrite split_on_none by done. by repeat constructor.
  - rewrite split_on_app by done. rewrite valid_app_ascii in Hv by done. b2p.
    constructor; auto.
Qed.

Lemma split_once_here c l k : c ∉ l → split_once c (l ++ c :: k) = Some (l, k).
Proof.
  induction l as [|b l IH]; intros Hc; cbn [app split_once]; [by rewrite bool_decide_true|].
  apply not_elem_of_cons in Hc as [Hb Hc]. rewrite bool_decide_eq_false_2 by congruence. by rewrite IH.
Qed.

Lemma split_once_Some c s a b : split_once c s = Some (a, b) → s = a ++ c :: b.
Proof.
  revert a b. induction s as [|x s IH]; intros a b; cbn [split_once]; [done|].
  case_bool_decide as Hx; [by intros [= <- <-]; subst|].
  destruct (split_once c s) as [[a' b']|]; cbn [mbind option_bind]; [|done].
  intros [= <- <-]. by rewrite (IH a' b').
Qed.

(** ** Addresses *)

Lemma parse_octet_decimal b : parse_octet (decimal (b2z b)) = Some b.
Proof. by destruct b. Qed.

Lemma parse_u8_decimal b : parse_u8 (decimal (b2z b)) = Some (b2z b).
Proof. by destruct b. Qed.

Lemma decimal_clean b : x2e ∉ decimal (b2z b).
Proof. apply (bool_decide_unpack (x2e ∉ decimal (b2z b))). by destruct b. Qed.

Lemma dotted_join w x y z :
  dotted [w; x; y; z] = join_with x2e [decimal (b2z w); decimal (b2z x); decimal (b2z y); decimal (b2z z)].
Proof. done. Qed.

Lemma parse_ipv4_octets s a : parse_ipv4 s = Some a → length a = 4%nat.
Proof.
  unfold parse_ipv4. destruct (split_on _ _) as [|? [|? [|? [|? [|? ?]]]]]; try done.
  repeat match goal with |- context [parse_octet ?x] => destruct (parse_octet x) end; try done. intros Ha.
  by apply (inj Some) in Ha as <-.
Qed.

Lemma parse_ipv4_dotted w x y z : parse_ipv4 (dotted [w; x; y; z]) = Some [w; x; y; z].
Proof.
  unfold parse_ipv4. rewrite dotted_join, split_join; [|done|by repeat constructor; apply decimal_clean].
  by rewrite !parse_octet_decimal.
Qed.

(** ** Prefixes and suffixes *)

Lemma strip_prefix_app p s : strip_prefix p (p ++ s) = Some s.
Proof. induction p as [|a p IH]; cbn [app strip_prefix]; [done|]. by rewrite bool_decide_eq_true_2. Qed.

Lemma strip_prefix_Some p s s' : strip_prefix p s = Some s' → s = p ++ s'.
Proof.
  revert s. induction p as [|a p IH]; intros [|b s]; cbn [strip_prefix]; try (by intros [= <-]).
  case_bool_decide as Hab; [|done]. intros Hs%IH. by subst.
Qed.

Lemma strip_suffix_app p s : strip_suffix p (s ++ p) = Some s.
Proof. unfold strip_suffix. rewrite reverse_app, strip_prefix_app. simpl. by rewrite reverse_involutive. Qed.

Lemma strip_suffix_Some p s s' : strip_suffix p s = Some s' → s = s' ++ p.
Proof.
  unfold strip_suffix. intros (t & Ht & ->)%fmap_Some. apply strip_prefix_Some in Ht.
  rewrite <-(reverse_involutive s), Ht, reverse_app. by rewrite reverse_involutive.
Qed.

Lemma starts_with_spec p s : starts_with p s = true ↔ ∃ s', s = p ++ s'.
Proof.
  unfold starts_with. rewrite bool_decide_eq_true. split.
  - intros [s' Hs%strip_prefix_Some]. eauto.
  - intros [s' ->]. rewrite strip_prefix_app. eauto.
Qed.

Lemma starts_with_more p s more :
  (length p <= length s)%nat → starts_with p (s ++ more) = starts_with p s.
Proof.
  intros Hlen. apply eq_bool_prop_intro. rewrite !Is_true_true, !starts_with_spec. split.
  - intros [s' Hs]. exists (drop (length p) s).
    apply (f_equal (take (length p))) in Hs. rewrite take_app_length, take_app_le in Hs by lia.
    rewrite <-(take_drop (length p) s) at 1. by rewrite Hs.
  - intros [s' ->]. exists (s' ++ more). by rewrite app_assoc.
Qed.

(** ** Searching *)

Lemma find_from_bound p s n i :
  find_from p s n = Some i → n <= i ∧ i + zlen p <= n + zlen s.
Proof.
  revert n. induction s as [|b s IH]; intros n; cbn [find_from]; destruct (starts_with p _) eqn:E;
    try done; [apply starts_with_spec in E as [s' Hs]; apply (f_equal zlen) in Hs; intros [= <-]; len..|].
  intros Hs%IH. len.
Qed.

Lemma find_from_more p s more n i :
  find_from p s n = Some i → find_from p (s ++ more) n = Some i.
Proof.
  revert n. induction s as [|b s IH]; intros n Hs; pose proof (find_from_bound _ _ _ _ Hs) as [Hi Hlen];
    cbn [app find_from] in *.
  - destruct (starts_with p []) eqn:E; [|done]. apply starts_with_spec in E as [s' Hp].
    symmetry in Hp. apply app_eq_nil in Hp as [-> ->]. by destruct more.
  - change (b :: s ++ more) with ((b :: s) ++ more). rewrite starts_with_more by (unfold zlen in *; lia).
    destruct (starts_with p (b :: s)); [done|]. by apply IH.
Qed.

(** Not found before its last byte is there. *)
Lemma find_from_take p s n i k :
  find_from p s n = Some i → Z.of_nat k < i - n + zlen p → find_from p (take k s) n = None.
Proof.
  revert n k. induction s as [|b s IH]; intros n k Hs Hk; cbn [find_from] in Hs.
  - destruct (starts_with p []) eqn:E; [|done]. apply starts_with_spec in E as [s' Hp].
    symmetry in Hp. apply app_eq_nil in Hp as [-> ->]. injection Hs as <-. rewrite zlen_nil in Hk. lia.
  - assert (starts_with p (take k (b :: s)) = false) as Hno.
    { apply not_true_iff_false. intros [s' Htake]%starts_with_spec.
      assert (starts_with p (b :: s) = true) as Hstart.
      { apply starts_with_spec. exists (s' ++ drop k (b :: s)).
        by rewrite app_assoc, <-Htake, take_drop. }
      rewrite Hstart in Hs. injection Hs as <-. apply (f_equal length) in Htake.
      rewrite length_take, length_app in Htake. unfold zlen in Hk. lia. }
    destruct k as [|k]; cbn [take find_from] in *; rewrite Hno; [done|].
    destruct (starts_with p (b :: s)) eqn:E.
    + injection Hs as <-. destruct (find_from p (take k s) (n + 1)) eqn:F; [|done].
      apply find_from_bound in F as [??]. assert (zlen (take k s) <= Z.of_nat k); [|lia].
      unfold zlen. rewrite length_take. lia.
    + apply (IH (n + 1)); [done|lia].
Qed.

(** ** Lines *)

(** A text with no line end in it. *)
Definition one_line (l : list byte) : Prop := ∀ i, ¬ (l !! i = Some x0d ∧ l !! S i = Some x0a).

Lemma one_line_app_l l k : one_line (l ++ k) → one_line l.
Proof. intros Hl i [H1 H2]. apply (Hl i). split; by apply lookup_app_l_Some. Qed.

Lemma one_line_app_r l k : one_line (l ++ k) → one_line k.
Proof.
  intros Hl i [H1 H2]. apply (Hl (length l + i)%nat).
  rewrite !lookup_app_r by lia. split; [rewrite <-H1|rewrite <-H2]; f_equal; lia.
Qed.

Lemma one_line_sep l c k : one_line l → one_line k → c ≠ x0d → c ≠ x0a → one_line (l ++ c :: k).
Proof.
  intros Hl Hk Hd Ha i [H1 H2]. apply lookup_app_Some in H1 as [H1|[Hi H1]].
  - apply lookup_app_Some in H2 as [H2|[Hi' H2]]; [by apply (Hl i)|].
    apply lookup_lt_Some in H1. replace (S i - length l)%nat with 0%nat in H2 by lia. by injection H2.
  - rewrite lookup_app_r in H2 by lia. rewrite Nat.sub_succ_l in H2 by lia.
    destruct (i - length l)%nat as [|j]; [by injection H1|]. by apply (Hk j).
Qed.

Lemma one_line_cons a l : one_line (a :: l) → one_line l.
Proof. apply (one_line_app_r [a]). Qed.

Lemma split_crlf_line l k :
  one_line l → split_crlf (l ++ x0d :: x0a :: k) = l :: split_crlf k.
Proof.
  induction l as [|a [|b l] IH]; intros Hl; [done| |].
  - cbn [app split_crlf]. rewrite bool_decide_eq_false_2 by naive_solver.
    by rewrite bool_decide_eq_true_2.
  - pose proof (Hl 0%nat) as H0. cbn in H0. cbn [app]. cbn [app] in IH.
    cbn [split_crlf]. cbn [split_crlf] in IH. rewrite bool_decide_eq_false_2 by naive_solver.
    by rewrite IH by (by eapply one_line_cons).
Qed.

Lemma split_crlf_last l : one_line l → split_crlf l = [l].
Proof.
  induction l as [|a [|b l] IH]; intros Hl; [done..|].
  pose proof (Hl 0%nat) as H0. cbn in H0. cbn [split_crlf]. cbn [split_crlf] in IH.
  rewrite bool_decide_eq_false_2 by naive_solver. by rewrite IH by (by eapply one_line_cons).
Qed.

(** A text is one line, alone or before a line end and the rest. *)
Lemma lines_ind (P : list byte → Prop) :
  (∀ l, one_line l → P l) → (∀ l k, one_line l → P k → P (l ++ x0d :: x0a :: k)) → ∀ l, P l.
Proof.
  intros Hlast Happ l. remember (length l) as n eqn:Hn. revert l Hn.
  induction n as [n IH] using lt_wf_ind. intros l ->.
  assert (one_line l ∨ ∃ l1 l2, l = l1 ++ x0d :: x0a :: l2 ∧ one_line l1) as [Hl|(l1 & l2 & -> & Hl1)].
  - clear. induction l as [|a l IH]; [left; by intros i [? ?]|].
    destruct (decide (a = x0d ∧ head l = Some x0a)) as [[-> Hb]|Ha].
    { right. destruct l as [|b l]; [done|]. injection Hb as ->. exists [], l. split; [done|]. by intros i [? ?]. }
    assert (∀ m, one_line m → (∃ k, l = m ++ k) → one_line (a :: m)) as Hcons.
    { intros m Hm [k ->] [|i] [H1 H2]; [|by apply (Hm i)]. apply Ha. split; [by injection H1|].
      destruct m as [|b m]; [done|]. by injection H2 as ->. }
    destruct IH as [Hl|(l1 & l2 & -> & Hl1)].
    + left. apply Hcons; [done|]. exists []. by rewrite app_nil_r.
    + right. exists (a :: l1), l2. split; [done|]. apply Hcons; eauto.
  - by apply Hlast.
  - apply Happ; [done|]. eapply IH; [|done]. rewrite length_app. simpl. lia.
Qed.

Lemma split_crlf_lines l : Forall one_line (split_crlf l).
Proof.
  induction l as [l Hl|l k Hl IH] using lines_ind.
  - rewrite split_crlf_last by done. by repeat constructor.
  - rewrite split_crlf_line by done. by constructor.
Qed.

Lemma read_digits_nonneg s value n : 0 <= value → read_digits s value = Some n → 0 <= n.
Proof.
  revert value. induction s as [|b s IH]; intros value Hv; cbn [read_digits]; [by intros [= <-]|].
  unfold digit. destruct (in_range b 48 57) eqn:E; cbn [mbind option_bind]; [|done].
  unfold in_range in E. b2p. apply IH. lia.
Qed.

Lemma parse_unsigned_nonneg max s n : parse_unsigned max s = Some n → 0 <= n.
Proof.
  unfold parse_unsigned. destruct (match s with x2b :: s' => s' | _ => s end) as [|b digits]; [done|].
  destruct (read_digits (b :: digits) 0) as [v|] eqn:E; cbn [mbind option_bind]; [|done].
  destruct (v <=? max); [|done]. intros [= <-]. by eapply read_digits_nonneg.
Qed.

(** ** Numbers *)

Lemma digit_of d : 0 <= d < 10 → digit (z2b (48 + d)) = Some d ∧ in_range (z2b (48 + d)) 48 57 = true.
Proof.
  intros Hd. unfold digit, in_range. rewrite b2z_z2b, Z.mod_small by lia.
  rewrite (proj2 (Z.leb_le 48 _)), (proj2 (Z.leb_le _ 57)) by lia. cbn. split; [f_equal; lia|done].
Qed.

Lemma number_loop_spec fuel z digits :
  (0 < fuel)%nat → 0 <= z < 10 ^ Z.of_nat fuel →
  read_digits (number_loop fuel z digits) 0 = read_digits digits z ∧
  number_loop fuel z digits ≠ [] ∧
  (Forall (λ b, in_range b 48 57 = true) digits → Forall (λ b, in_range b 48 57 = true) (number_loop fuel z digits)).
Proof.
  revert z digits. induction fuel as [|fuel IH]; intros z digits Hf Hz; [lia|].
  cbn [number_loop]. destruct (digit_of (z mod 10)) as [Hd Hr]; [by apply Z.mod_pos_bound|].
  destruct (Z.ltb_spec z 10) as [Hs|Hs].
  - split_and!; [|done|by constructor]. cbn [read_digits]. rewrite Hd. cbn. by rewrite Z.mod_small by lia.
  - assert (0 < fuel)%nat by (destruct fuel; [cbn in Hz; lia|lia]).
    destruct (IH (z / 10) (z2b (48 + z mod 10) :: digits)) as (Hread & Hne & Hall); [done| |].
    + split; [apply Z.div_pos; lia|]. apply Z.div_lt_upper_bound; [done|].
      replace (Z.of_nat (S fuel)) with (Z.succ (Z.of_nat fuel)) in Hz by lia. rewrite Z.pow_succ_r in Hz; lia.
    + split_and!; [|done|intros; apply Hall; by constructor]. rewrite Hread. cbn [read_digits]. rewrite Hd. cbn.
      f_equal. pose proof (Z.div_mod z 10). lia.
Qed.

Lemma parse_number max z : 0 <= z <= max → z < 10 ^ 20 → parse_unsigned max (number z) = Some z.
Proof.
  intros Hz Hmax. destruct (number_loop_spec 20 z []) as (Hread & Hne & Hall); [lia|change (Z.of_nat 20) with 20; lia|]. fold (number z) in *.
  specialize (Hall ltac:(constructor)). unfold parse_unsigned.
  destruct (number z) as [|b l] eqn:E; [done|]. apply Forall_cons in Hall as [Hb _].
  assert (match b :: l with x2b :: s' => s' | _ => b :: l end = b :: l) as -> by by destruct b.
  rewrite Hread. cbn. by rewrite (proj2 (Z.leb_le _ _)) by lia.
Qed.

Lemma number_digits z : 0 <= z < 10 ^ 20 → number z ≠ [] ∧ Forall (λ b, in_range b 48 57 = true) (number z).
Proof. intros Hz. destruct (number_loop_spec 20 z []) as (_ & Hne & Hall); [lia|done|]. auto. Qed.

(** ** Words *)

Lemma runs_ascii l : Forall (λ b, b2z b < 0x80) l → runs l = (λ b, (true, [b])) <$> l.
Proof.
  induction 1 as [|b l Hb _ IH]; [done|]. change (b :: l) with ([] ++ b :: l). rewrite runs_app_ascii by done.
  rewrite runs_nil, IH. done.
Qed.

(** Printable ASCII without a space. *)
Definition graphic (b : byte) : bool := in_range b 33 126.

Lemma graphic_ascii l : Forall (λ b, graphic b = true) l → Forall (λ b, b2z b < 0x80) l.
Proof. intros Hl. eapply Forall_impl; [exact Hl|]. intros b Hb. unfold graphic, in_range in Hb. b2p. lia. Qed.

Lemma graphic_not_white b : graphic b = true → is_white [b] = false.
Proof. by destruct b. Qed.

Lemma words_loop_word w rest word :
  Forall (λ b, graphic b = true) w →
  words_loop ((λ b, [b]) <$> w ++ rest) word = words_loop ((λ b, [b]) <$> rest) (word ++ w).
Proof.
  intros Hw. revert word. induction Hw as [|b w Hb _ IH]; intros word; [by rewrite app_nil_r|].
  cbn [app fmap list_fmap words_loop]. rewrite graphic_not_white by done. rewrite IH, <-app_assoc. done.
Qed.

Lemma split_words words :
  Forall (λ w, w ≠ [] ∧ Forall (λ b, graphic b = true) w) words → split_whitespace (join_with x20 words) = words.
Proof.
  intros Hwords. unfold split_whitespace.
  assert (Forall (λ b, b2z b < 0x80) (join_with x20 words)) as Hascii.
  { induction Hwords as [|w [|w' words] [_ Hw] _ IH]; [constructor|by apply graphic_ascii|].
    cbn [join_with] in *. apply Forall_app. split; [by apply graphic_ascii|]. by constructor. }
  rewrite runs_ascii, <-list_fmap_compose by done. change (snd ∘ _) with (λ b : byte, [b]).
  clear Hascii. induction Hwords as [|w [|w' words] [Hne Hw] _ IH]; [done| |].
  - cbn [join_with]. rewrite <-(app_nil_r w) at 1. rewrite words_loop_word by done. cbn. by destruct w.
  - change (join_with x20 (w :: w' :: words)) with (w ++ x20 :: join_with x20 (w' :: words)).
    rewrite words_loop_word by done. cbn [app fmap list_fmap words_loop]. change (is_white [x20]) with true. cbv iota.
    destruct w; [done|]. by rewrite IH.
Qed.

(** ** What is trimmed *)

Definition white_byte (b : byte) : bool := is_white [b].

Lemma drop_white_bytes l :
  drop_while is_white ((λ b : byte, [b]) <$> l) = (λ b, [b]) <$> drop_while white_byte l.
Proof.
  induction l as [|b l IH]; [done|]. cbn [fmap list_fmap drop_while]. unfold white_byte in *. by destruct (is_white [b]).
Qed.

Lemma mjoin_bytes (l : list byte) : mjoin ((λ b, [b]) <$> l) = l.
Proof. induction l as [|b l IH]; [done|]. cbn. f_equal. exact IH. Qed.

Lemma trim_ascii l :
  Forall (λ b, b2z b < 0x80) l →
  trim l = reverse (drop_while white_byte (reverse (drop_while white_byte l))).
Proof.
  intros Hl. unfold trim. rewrite runs_ascii, <-list_fmap_compose by done. change (snd ∘ _) with (λ b : byte, [b]).
  by rewrite drop_white_bytes, <-fmap_reverse, drop_white_bytes, <-fmap_reverse, mjoin_bytes.
Qed.

Lemma graphic_trim l : Forall (λ b, graphic b = true) l → trim l = l.
Proof.
  intros Hl. rewrite trim_ascii by by apply graphic_ascii.
  assert (∀ k, Forall (λ b, graphic b = true) k → drop_while white_byte k = k) as Hkeep.
  { intros k [|b k' Hb _]; [done|]. cbn [drop_while]. unfold white_byte. by rewrite graphic_not_white. }
  rewrite !Hkeep; [apply reverse_involutive|done|]. rewrite Hkeep by done. by apply Forall_reverse.
Qed.

Lemma trim_tight l b c :
  Forall (λ b, b2z b < 0x80) l → head l = Some b → last l = Some c → white_byte b = false → white_byte c = false →
  trim l = l.
Proof.
  intros Hl Hb [l' ->]%last_Some Wb Wc. rewrite trim_ascii by done.
  assert (drop_while white_byte (l' ++ [c]) = l' ++ [c]) as ->.
  { destruct l' as [|b' l']; cbn in Hb; injection Hb as ->; cbn [app drop_while]; by rewrite Wb. }
  rewrite reverse_app. cbn [reverse rev_append app drop_while]. rewrite Wc.
  by rewrite <-(reverse_involutive (l' ++ [c])), reverse_app.
Qed.

(** White space after the text is trimmed with the rest. *)
Lemma trim_white_r l c : b2z c < 0x80 → is_white [c] = true → trim (l ++ [c]) = trim l.
Proof.
  intros Hc Hw. unfold trim. rewrite runs_app_ascii, runs_nil, fmap_app by done. cbn [fmap list_fmap snd].
  generalize (snd <$> runs l) as chars. intros chars.
  assert (drop_while is_white (chars ++ [[c]]) = match drop_while is_white chars with [] => [] | k => k ++ [[c]] end) as ->.
  { induction chars as [|w chars IH]; cbn [app drop_while]; [by rewrite Hw|]. destruct (is_white w); [exact IH|done]. }
  destruct (drop_while is_white chars) as [|w k] eqn:E; [done|]. rewrite <-E.
  rewrite reverse_app. cbn [reverse rev_append app drop_while]. by rewrite Hw.
Qed.

Lemma decimal_text p : 0 <= p < 256 → Forall (λ b, graphic b = true ∧ b ≠ x2f) (decimal p).
Proof.
  intros Hp. assert (Forall (λ p, Forall (λ b, graphic b = true ∧ b ≠ x2f) (decimal p)) (seqZ 0 256)) as Hall
    by (apply (bool_decide_unpack _); by vm_compute).
  rewrite Forall_forall in Hall. apply Hall, elem_of_seqZ. lia.
Qed.

Lemma dotted_text octets : length octets = 4%nat → Forall (λ b, graphic b = true ∧ b ≠ x2f) (dotted octets).
Proof.
  destruct octets as [|w [|x [|y [|z [|? ?]]]]]; try done. intros _. rewrite dotted_join. cbn [join_with].
  repeat (apply Forall_app; split; [apply decimal_text, b2z_range|constructor; [done|]]). apply decimal_text, b2z_range.
Qed.
