(* ===== verification/Policy.v ===== *)
(** * Policy: from the user's rules to an interception plan

    [engine/src/policy.rs] and [engine/src/role.rs]: which targets a session captures, normalised once, and
    the node that carries each. A string is its bytes ([Text]). The Windows reading
    of a path, Unicode lower case and the text of an IPv6 address are the standard
    library's and stay abstract. *)
From S2P Require Import Prelude Text.

(** ** Rules and plans *)

Record RuleSpec := mk_rule { kind : list byte; value : list byte; node : Z }.

Record InterceptionPlan := mk_plan {
  mode : list byte;
  backend : list byte;
  application_paths : list (list byte);
  folder_prefixes : list (list byte);
  hostnames : list (list byte);
  ip_networks : list (list byte);
  protocols : list (list byte);
  nodes : gmap (list byte) Z
}.

Definition node_of (plan : InterceptionPlan) (target : list byte) : Z := default 0 (nodes plan !! target).

(** ** What the standard library reads and prints *)

Class Platform : Type := {
  is_absolute : list byte → bool;
  extension : list byte → option (list byte);
  to_lowercase : list byte → list byte;
  parse_ipv6 : list byte → option (list byte);
  print_ipv6 : list byte → list byte
}.

(** What is printed of an IPv6 address is printable ASCII without a slash, reads back
    as that address, and is not the text of an IPv4 one; what is in lower case stays
    as it is. *)
Class PlatformLaws `{!Platform} : Prop := {
  parse_print_ipv6 a t : parse_ipv6 t = Some a → parse_ipv6 (print_ipv6 a) = Some a;
  ipv6_not_ipv4 a t : parse_ipv6 t = Some a → parse_ipv4 (print_ipv6 a) = None;
  ipv6_graphic a t : parse_ipv6 t = Some a → Forall (λ b, graphic b = true ∧ b ≠ x2f) (print_ipv6 a);
  lowercase_idempotent s : to_lowercase (to_lowercase s) = to_lowercase s
}.

Inductive IpAddr : Type := V4 (octets : list byte) | V6 (octets : list byte).

Section policy.
Context `{!Platform}.

(** [s.parse::<IpAddr>()] and [{address}]. *)
Definition parse_ip (s : list byte) : option IpAddr :=
  match parse_ipv4 s with Some a => Some (V4 a) | None => V6 <$> parse_ipv6 s end.
Definition print_ip (a : IpAddr) : list byte :=
  match a with V4 a => dotted a | V6 a => print_ipv6 a end.

(** ** Normal forms *)

(** [value.replace('/', "\\").to_lowercase()]. *)
Definition normalize_windows_path (value : list byte) : list byte :=
  to_lowercase ((λ b, if bool_decide (b = x2f) then x5c else b) <$> value).

Definition is_ascii_alphanumeric (b : byte) : bool :=
  in_range b 48 57 || in_range b 65 90 || in_range b 97 122.

Definition bad_label (label : list byte) : bool :=
  bool_decide (label = []) || starts_with [x2d] label || ends_with [x2d] label
  || negb (forallb (λ b, is_ascii_alphanumeric b || bool_decide (b = x2d)) label).

Definition bad_host (host : list byte) : bool :=
  bool_decide (host = []) || bool_decide (is_Some (find_bytes (str "://") host))
  || contains x2f host || existsb bad_label (split_on x2e host).

Definition normalize_hostname (value : list byte) : result (list byte) (list byte) :=
  let value := to_lowercase (trim_end_matches x2e (trim value)) in
  let host := default value (strip_prefix (str "*.") value) in
  if bad_host host then Err (str "invalid hostname target: " ++ value)
  else Ok (if starts_with (str "*.") value then str "*." ++ host else host).

Definition max_prefix (a : IpAddr) : Z := match a with V4 _ => 32 | V6 _ => 128 end.

Definition normalize_ip_network (value : list byte) : result (list byte) (list byte) :=
  let '(address, prefix) :=
    match split_once x2f value with
    | Some (address, prefix) => (address, Some prefix)
    | None => (value, None)
    end in
  match parse_ip address with
  | None => Err (str "invalid IP target: " ++ value)
  | Some address =>
      match (match prefix with
             | Some prefix => parse_u8 prefix
             | None => Some (max_prefix address)
             end) with
      | None => Err (str "invalid CIDR prefix: " ++ value)
      | Some prefix =>
          if max_prefix address <? prefix then Err (str "CIDR prefix is out of range: " ++ value)
          else Ok (print_ip address ++ [x2f] ++ decimal prefix)
      end
  end.

(** ** [compile] *)

Definition new_plan (mode backend : list byte) : InterceptionPlan :=
  mk_plan mode backend [] [] [] [] [str "udp"; str "tcp"] ∅.

Definition push_application (plan : InterceptionPlan) (path : list byte) : InterceptionPlan :=
  mk_plan (mode plan) (backend plan) (application_paths plan ++ [path]) (folder_prefixes plan)
    (hostnames plan) (ip_networks plan) (protocols plan) (nodes plan).
Definition push_folder (plan : InterceptionPlan) (folder : list byte) : InterceptionPlan :=
  mk_plan (mode plan) (backend plan) (application_paths plan) (folder_prefixes plan ++ [folder])
    (hostnames plan) (ip_networks plan) (protocols plan) (nodes plan).
Definition push_hostname (plan : InterceptionPlan) (hostname : list byte) : InterceptionPlan :=
  mk_plan (mode plan) (backend plan) (application_paths plan) (folder_prefixes plan)
    (hostnames plan ++ [hostname]) (ip_networks plan) (protocols plan) (nodes plan).
Definition push_network (plan : InterceptionPlan) (network : list byte) : InterceptionPlan :=
  mk_plan (mode plan) (backend plan) (application_paths plan) (folder_prefixes plan)
    (hostnames plan) (ip_networks plan ++ [network]) (protocols plan) (nodes plan).

(** Only targets off the default node are stored. *)
Definition assign_node (plan : InterceptionPlan) (target : list byte) (node : Z) : InterceptionPlan :=
  mk_plan (mode plan) (backend plan) (application_paths plan) (folder_prefixes plan)
    (hostnames plan) (ip_networks plan) (protocols plan)
    (if node =? 0 then delete target (nodes plan) else <[target := node]> (nodes plan)).

(** The [match] on a rule's kind: the target, pushed. *)
Definition add_target (plan : InterceptionPlan) (kind value : list byte)
    : result (list byte) (list byte * InterceptionPlan) :=
  if bool_decide (kind = str "application") then
    if negb (is_absolute value)
       || negb (match extension value with Some e => eq_ignore_ascii_case e (str "exe") | None => false end)
    then Err (str "application target must be an absolute .exe path: " ++ value)
    else let path := normalize_windows_path value in Ok (path, push_application plan path)
  else if bool_decide (kind = str "folder") then
    if negb (is_absolute value) then Err (str "folder target must be an absolute path: " ++ value)
    else let folder := trim_end_matches x5c (normalize_windows_path value) in
         Ok (folder, push_folder plan folder)
  else if bool_decide (kind = str "hostname") then
    match normalize_hostname value with
    | Ok hostname => Ok (hostname, push_hostname plan hostname)
    | Err e => Err e
    end
  else if bool_decide (kind = str "ip") then
    match normalize_ip_network value with
    | Ok network => Ok (network, push_network plan network)
    | Err e => Err e
    end
  else Err (str "unsupported target type: " ++ kind).

(** One turn of the loop over the rules. *)
Definition compile_rule (plan : InterceptionPlan) (rule : RuleSpec) : result (list byte) InterceptionPlan :=
  let value := trim (value rule) in
  if bool_decide (value = []) then Err (kind rule ++ str " target cannot be empty") else
  match add_target plan (kind rule) value with
  | Err e => Err e
  | Ok (target, plan) => Ok (assign_node plan target (node rule))
  end.

Fixpoint compile_rules (plan : InterceptionPlan) (rules : list RuleSpec) : result (list byte) InterceptionPlan :=
  match rules with
  | [] => Ok plan
  | rule :: rules' =>
      match compile_rule plan rule with
      | Err e => Err e
      | Ok plan => compile_rules plan rules'
      end
  end.

Definition compile (mode : list byte) (rules : list RuleSpec) : result (list byte) InterceptionPlan :=
  if bool_decide (mode = str "all") then Ok (new_plan mode (str "wintun"))
  else if negb (bool_decide (mode = str "split")) then Err (str "traffic mode must be all or split")
  else if bool_decide (rules = []) then Err (str "split mode requires at least one target")
  else compile_rules (new_plan mode (str "wfp")) rules.
End policy.

(** ** Roles

    [engine/src/role.rs]: which session an engine process carries, and all that two
    of them could fight over. *)
Module Role.
Inductive t : Type := Game | Vpn.

#[export] Instance t_eq_dec : EqDecision t.
Proof. solve_decision. Defined.

(** The arguments after the first [--role]. *)
Fixpoint from_args (arguments : list (list byte)) : result (list byte) t :=
  match arguments with
  | [] => Ok Game
  | argument :: rest =>
      if bool_decide (argument = str "--role") then
        match rest with
        | role :: _ =>
            if bool_decide (role = str "game") then Ok Game
            else if bool_decide (role = str "vpn") then Ok Vpn
            else Err (str "unknown engine role: " ++ role)
        | [] => Err (str "unknown engine role: ")
        end
      else from_args rest
  end.

Definition as_str (r : t) : list byte := match r with Game => str "game" | Vpn => str "vpn" end.
Definition log_component (r : t) : list byte := match r with Game => str "engine" | Vpn => str "engine-vpn" end.
Definition capture_priority (r : t) : Z := match r with Game => 0 | Vpn => -1000 end.
Definition adapter (r : t) : list byte * Z :=
  match r with
  | Game => (str "GamePath", 0x7f0a982852ef4ddd913dc11ff0d4a58a)
  | Vpn => (str "GamePath VPN", 0x3c1d5b7e8a424f6eb1d96e2a7c904f13)
  end.
Definition data_plane_highest (r : t) : bool := bool_decide (r = Game).

(** A process started for a role has it, whatever comes before and after, and two
    roles share no adapter, log or capture priority. *)
Lemma from_args_role before after r :
  str "--role" ∉ before → from_args (before ++ str "--role" :: as_str r :: after) = Ok r.
Proof.
  induction before as [|a before IH]; intros Hb; cbn [app from_args].
  - rewrite bool_decide_eq_true_2 by done. by destruct r.
  - apply not_elem_of_cons in Hb as [Ha Hb]. rewrite bool_decide_eq_false_2 by congruence. by apply IH.
Qed.

Lemma roles_share_nothing r r' :
  r ≠ r' → (adapter r).1 ≠ (adapter r').1 ∧ (adapter r).2 ≠ (adapter r').2 ∧ log_component r ≠ log_component r'
    ∧ capture_priority r ≠ capture_priority r' ∧ (data_plane_highest r = true → capture_priority r' < capture_priority r).
Proof. by destruct r, r'. Qed.
End Role.
