(* ===== verification/Dns.v ===== *)
(** * Dns: asking one question and believing the answer

    [engine/src/dns.rs]: the query a session builds, the verdict on a reply, the
    addresses of an answer, and the names only the local network can resolve. *)
From S2P Require Import Prelude Text.

Definition FLAG_RECURSION_DESIRED : Z := 0x0100.
Definition FLAG_RESPONSE : Z := 0x8000.
Definition RCODE_MASK : Z := 0x000f.
Definition TYPE_A : Z := 1.
Definition CLASS_IN : Z := 1.
Definition HEADER_LEN : Z := 12.

(** ** Asking *)

Fixpoint push_labels (labels : list (list byte)) (message : list byte) : option (list byte) :=
  match labels with
  | [] => Some message
  | label :: labels' =>
      if 63 <? zlen label then None
      else push_labels labels' (message ++ [z2b (zlen label)] ++ label)
  end.

Definition query (id : Z) (hostname : list byte) : option (list byte) :=
  let header := be_bytes 2 id ++ be_bytes 2 FLAG_RECURSION_DESIRED ++ be_bytes 2 1
                ++ replicate 6 x00 in
  named ← push_labels (filter (λ label, label ≠ []) (split_on x2e hostname)) header;
  let message := named ++ [x00] ++ be_bytes 2 TYPE_A ++ be_bytes 2 CLASS_IN in
  if zlen message <=? 255 + HEADER_LEN + 5 then Some message else None.

(** ** Believing *)

Inductive ResolverVerdict : Type :=
| Answered
| Mismatched
| Refused (rcode : Z).

Definition verdict (response : list byte) (id : Z) : ResolverVerdict :=
  if zlen response <? HEADER_LEN then Mismatched else
  if negb (nz16 response 0 =? id) then Mismatched else
  let flags := nz16 response 2 in
  if Z.land flags FLAG_RESPONSE =? 0 then Mismatched else
  let rcode := Z.land flags RCODE_MASK in
  if rcode =? 0 then Answered else Refused rcode.

Inductive Answer : Type :=
| Addresses (addresses : list (list byte)) (ttl : Z)
| NoAddress (rcode : Z).

(** Every turn moves [at] on, so the message's length bounds the turns. *)
Fixpoint skip_loop (fuel : nat) (message : list byte) (at_ : Z) : option Z :=
  match fuel with
  | O => None
  | S fuel' =>
      length ← get message at_;
      let length := b2z length in
      if length =? 0 then Some (at_ + 1)
      else if Z.land length 0xc0 =? 0xc0
      then (λ _, at_ + 2) <$> get message (at_ + 1)
      else if Z.land length 0xc0 =? 0 then skip_loop fuel' message (at_ + (1 + length))
      else None
  end.
Definition skip_name (message : list byte) (at_ : Z) : option Z :=
  skip_loop (S (length message)) message at_.

Fixpoint skip_questions (questions : nat) (response : list byte) (at_ : Z) : option Z :=
  match questions with
  | O => Some at_
  | S questions' =>
      past ← skip_name response at_;
      skip_questions questions' response (past + 4)
  end.

Fixpoint read_records (answers : nat) (response : list byte) (at_ : Z)
    (addresses : list (list byte)) (ttl : Z) : option (list (list byte) * Z) :=
  match answers with
  | O => Some (addresses, ttl)
  | S answers' =>
      at_ ← skip_name response at_;
      fixed ← get_range response at_ (at_ + 10);
      let record_type := nz16 fixed 0 in
      let record_class := nz16 fixed 2 in
      let record_ttl := be_Z (sub fixed 4 8) in
      let length := nz16 fixed 8 in
      data ← get_range response (at_ + 10) (at_ + 10 + length);
      let '(addresses, ttl) :=
        if (record_type =? TYPE_A) && (record_class =? CLASS_IN) && (length =? 4)
        then (addresses ++ [sub data 0 4], Z.min ttl record_ttl)
        else (addresses, ttl) in
      read_records answers' response (at_ + (10 + length)) addresses ttl
  end.

Definition read_answer (response : list byte) (id : Z) : option Answer :=
  match verdict response id with
  | Mismatched => None
  | Refused rcode => Some (NoAddress rcode)
  | Answered =>
      at_ ← skip_questions (Z.to_nat (nz16 response 4)) response HEADER_LEN;
      '(addresses, ttl) ←
        read_records (Z.to_nat (nz16 response 6)) response at_ [] (2 ^ 32 - 1);
      Some (match addresses with
            | [] => NoAddress 0
            | _ => Addresses addresses ttl
            end)
  end.

Definition PROBE_HOSTNAME : list byte := str "example.com".

Definition FALLBACK_RESOLVERS : list (list byte) := [[x08; x08; x08; x08]; [x08; x08; x04; x04]].

Definition resolver_order (relay : option (list byte)) : list (list byte) :=
  match relay with
  | Some relay => [relay; [x08; x08; x08; x08]]
  | None => FALLBACK_RESOLVERS
  end.

(** ** Names *)

Fixpoint name_loop (fuel : nat) (message : list byte) (offset : Z) (name : list byte)
    : option (list byte) :=
  match fuel with
  | O => None
  | S fuel' =>
      length ← get message offset;
      let length := b2z length in
      if length =? 0 then Some name else
      if (63 <? length) || (255 <? zlen name + length) then None else
      label ← get_range message (offset + 1) (offset + 1 + length);
      let name := match name with [] => [] | _ => name ++ [x2e] end in
      name_loop fuel' message (offset + (1 + length))
        (name ++ to_ascii_lowercase (from_utf8_lossy label))
  end.
Definition question_name (message : list byte) : option (list byte) :=
  name_loop (S (length message)) message HEADER_LEN [].

Definition LOCAL_SUFFIXES : list (list byte) :=
  [str "local"; str "lan"; str "home.arpa"; str "localdomain"; str "localhost"].

(** [Ipv4Addr::is_private], [is_loopback] and [is_link_local]. *)
Definition is_private (a : list byte) : bool :=
  (nz a 0 =? 10) || ((nz a 0 =? 172) && (16 <=? nz a 1) && (nz a 1 <=? 31))
  || ((nz a 0 =? 192) && (nz a 1 =? 168)).
Definition is_loopback (a : list byte) : bool := nz a 0 =? 127.
Definition is_link_local (a : list byte) : bool := (nz a 0 =? 169) && (nz a 1 =? 254).

(** [iter.map_while(f)]. *)
Fixpoint map_while {A B} (f : A → option B) (l : list A) : list B :=
  match l with
  | [] => []
  | x :: l' => match f x with Some y => y :: map_while f l' | None => [] end
  end.

Definition is_local_only_name (name : list byte) : bool :=
  if bool_decide (name = []) || negb (contains x2e name) then true else
  if existsb (λ suffix, bool_decide (name = suffix) || ends_with (x2e :: suffix) name) LOCAL_SUFFIXES
  then true else
  match strip_suffix (str ".in-addr.arpa") name with
  | None => false
  | Some reversed =>
      let octets := z2b <$> map_while parse_u8 (reverse (split_on x2e reversed)) in
      if bool_decide (octets = []) || (4 <? zlen octets) then false else
      let address := take 4 (octets ++ replicate 4 x00) in
      is_private address || is_loopback address || is_link_local address
      || ((nz address 0 =? 100) && (64 <=? nz address 1) && (nz address 1 <? 128))
  end.

(** ** Walking a message *)

Lemma skip_loop_fuel fuel fuel' message at_ :
  0 <= at_ → zlen message < at_ + Z.of_nat fuel → zlen message < at_ + Z.of_nat fuel' →
  skip_loop fuel message at_ = skip_loop fuel' message at_.
Proof.
  revert fuel' at_. induction fuel as [|fuel IH]; intros [|fuel'] at_ Hat Hf Hf'; cbn [skip_loop].
  - done.
  - destruct (get message at_) eqn:E; [|done]. apply get_Some in E. lia.
  - destruct (get message at_) eqn:E; [|done]. apply get_Some in E. lia.
  - destruct (get message at_) as [b|] eqn:E; cbn [mbind option_bind]; [|done].
    pose proof (b2z_range b). repeat case_match; try done. apply IH; lia.
Qed.

(** The turns allowed are enough: [skip_name] obeys the equation of the loop. *)
Lemma skip_name_unfold message at_ :
  0 <= at_ →
  skip_name message at_ =
    (length ← get message at_;
     if b2z length =? 0 then Some (at_ + 1)
     else if Z.land (b2z length) 0xc0 =? 0xc0 then (λ _, at_ + 2) <$> get message (at_ + 1)
     else if Z.land (b2z length) 0xc0 =? 0 then skip_name message (at_ + (1 + b2z length))
     else None).
Proof.
  intros Hat. unfold skip_name at 1. cbn [skip_loop].
  destruct (get message at_) as [b|] eqn:E; cbn [mbind option_bind]; [|done].
  apply get_Some in E. unfold zlen in E. pose proof (b2z_range b). repeat case_match; try done.
  unfold skip_name. apply skip_loop_fuel; unfold zlen; lia.
Qed.

(** A name on the wire: labels, then the root or a pointer. *)
Inductive wire_name : list byte → Prop :=
| wire_root : wire_name [x00]
| wire_pointer a b : 0xc0 <= b2z a → wire_name [a; b]
| wire_label label rest :
    0 < zlen label <= 63 → wire_name rest → wire_name (z2b (zlen label) :: label ++ rest).

(** The two high bits of a byte tell pointers and labels apart. *)
Lemma pointer_byte a : 0xc0 <= b2z a → Z.land (b2z a) 0xc0 = 0xc0.
Proof. destruct a; vm_compute; congruence || (intros H; by destruct (H eq_refl)). Qed.

Lemma label_byte n : 0 <= n <= 63 → Z.land n 0xc0 = 0.
Proof.
  intros Hn. apply Z.bits_inj'. intros i Hi. rewrite Z.land_spec, Z.bits_0.
  destruct (decide (i < 6)).
  - replace (Z.testbit 0xc0 i) with false; [apply andb_false_r|].
    assert (i = 0 ∨ i = 1 ∨ i = 2 ∨ i = 3 ∨ i = 4 ∨ i = 5) as Hcase by lia.
    by repeat destruct Hcase as [->|Hcase]; subst.
  - rewrite (bits_high 6 n i); [done|lia..].
Qed.

Lemma get_at {A} (l a : list A) x c i : l = a ++ x :: c → i = zlen a → get l i = Some x.
Proof.
  intros Hl Hi. pose proof (idx_eq l a x c i Hl Hi) as H. unfold idx, unwrap in H.
  destruct (get l i); congruence.
Qed.

Lemma skip_wire_name name before after at_ :
  wire_name name → at_ = zlen before →
  skip_name (before ++ name ++ after) at_ = Some (at_ + zlen name).
Proof.
  intros Hname. revert before at_. induction Hname as [|a b Ha|label rest Hlabel _ IH];
    intros before at_ ->; rewrite skip_name_unfold by len.
  - rewrite (get_at _ before x00 after (zlen before)) by done. cbn [mbind option_bind]. done.
  - rewrite (get_at _ before a (b :: after) (zlen before)) by done. cbn [mbind option_bind].
    rewrite (proj2 (Z.eqb_neq _ _)) by lia. rewrite pointer_byte by done.
    rewrite (get_at _ (before ++ [a]) b after (zlen before + 1)); [|by rewrite <-app_assoc|len]. done.
  - rewrite (get_at _ before (z2b (zlen label)) (label ++ rest ++ after) (zlen before))
      by (by rewrite <-app_comm_cons, <-app_assoc || done). cbn [mbind option_bind].
    rewrite b2z_z2b, Z.mod_small by lia. rewrite (proj2 (Z.eqb_neq _ _)) by lia.
    rewrite label_byte by lia. cbn [Z.eqb].
    change (before ++ (z2b (zlen label) :: label ++ rest) ++ after)
      with (before ++ ([z2b (zlen label)] ++ label ++ rest) ++ after).
    replace (before ++ ([z2b (zlen label)] ++ label ++ rest) ++ after)
      with ((before ++ [z2b (zlen label)] ++ label) ++ rest ++ after) by (by rewrite <-!app_assoc).
    rewrite IH by len. f_equal. len.
Qed.

(** ** Reading an answer *)

Lemma nz16_at l a v c i :
  l = a ++ be_bytes 2 v ++ c → i = zlen a → 0 <= v < 65536 → nz16 l i = v.
Proof.
  intros -> -> Hv. rewrite nz16_be_Z by len.
  rewrite (sub_eq _ a (be_bytes 2 v) c) by (done || len).
  rewrite be_Z_be_bytes. by apply Z.mod_small.
Qed.

Record record := Record {
  r_name : list byte;
  r_type : Z;
  r_class : Z;
  r_ttl : Z;
  r_data : list byte
}.

Definition record_wf (r : record) : Prop :=
  wire_name (r_name r) ∧ 0 <= r_type r < 65536 ∧ 0 <= r_class r < 65536
  ∧ 0 <= r_ttl r < 2 ^ 32 ∧ zlen (r_data r) < 65536.

Definition fixed_bytes (r : record) : list byte :=
  be_bytes 2 (r_type r) ++ be_bytes 2 (r_class r) ++ be_bytes 4 (r_ttl r)
  ++ be_bytes 2 (zlen (r_data r)).
Definition record_bytes (r : record) : list byte := r_name r ++ fixed_bytes r ++ r_data r.

Definition is_address (r : record) : bool :=
  (r_type r =? TYPE_A) && (r_class r =? CLASS_IN) && (zlen (r_data r) =? 4).

(** A question: a name, a type and a class. *)
Definition question_wf (q : list byte * list byte) : Prop := wire_name q.1 ∧ zlen q.2 = 4.
Definition question_bytes (q : list byte * list byte) : list byte := q.1 ++ q.2.

Lemma skip_questions_bytes questions before after at_ :
  Forall question_wf questions → at_ = zlen before →
  skip_questions (length questions) (before ++ mjoin (question_bytes <$> questions) ++ after) at_ =
    Some (at_ + zlen (mjoin (question_bytes <$> questions))).
Proof.
  intros Hwf. revert before at_. induction Hwf as [|[name kind] questions [Hname Hkind] _ IH];
    intros before at_ ->; cbn [length skip_questions].
  - f_equal. cbn [fmap list_fmap mjoin list_join]. len.
  - rewrite fmap_cons.
    change (mjoin (question_bytes (name, kind) :: (question_bytes <$> questions)))
      with ((name ++ kind) ++ mjoin (question_bytes <$> questions)).
    set (more := mjoin (question_bytes <$> questions)) in *.
    replace (before ++ ((name ++ kind) ++ more) ++ after)
      with (before ++ name ++ (kind ++ more ++ after)) by (by rewrite <-!app_assoc).
    rewrite skip_wire_name by done. cbn [mbind option_bind].
    replace (before ++ name ++ kind ++ more ++ after)
      with ((before ++ name ++ kind) ++ more ++ after) by (by rewrite <-!app_assoc).
    cbn [fst snd] in *. rewrite IH by len. f_equal. len.
Qed.

Lemma zlen_fixed_bytes r : zlen (fixed_bytes r) = 10.
Proof. unfold fixed_bytes. len. Qed.

Lemma record_fields r :
  record_wf r →
  nz16 (fixed_bytes r) 0 = r_type r ∧ nz16 (fixed_bytes r) 2 = r_class r
  ∧ be_Z (sub (fixed_bytes r) 4 8) = r_ttl r ∧ nz16 (fixed_bytes r) 8 = zlen (r_data r).
Proof.
  intros (_ & Ht & Hc & Hl & Hd). pose proof (zlen_nonneg (r_data r)). unfold fixed_bytes.
  set (a := be_bytes 2 (r_type r)). set (b := be_bytes 2 (r_class r)).
  set (c := be_bytes 4 (r_ttl r)). set (d := be_bytes 2 (zlen (r_data r))).
  assert (zlen a = 2 ∧ zlen b = 2 ∧ zlen c = 4) as (Ha & Hb & Hcl) by (subst a b c; split_and!; len).
  split_and!.
  - by apply (nz16_at _ [] _ (b ++ c ++ d)).
  - apply (nz16_at _ a _ (c ++ d)); done || len.
  - rewrite (sub_eq _ (a ++ b) c d); [|by rewrite <-app_assoc|len..].
    subst c. rewrite be_Z_be_bytes. apply Z.mod_small. done.
  - apply (nz16_at _ (a ++ b ++ c) _ []); [by rewrite <-!app_assoc, app_nil_r|len|lia].
Qed.

Lemma read_one_record answers r before after at_ addresses ttl :
  record_wf r → at_ = zlen before →
  read_records (S answers) (before ++ record_bytes r ++ after) at_ addresses ttl =
    read_records answers (before ++ record_bytes r ++ after) (at_ + zlen (record_bytes r))
      (addresses ++ (if is_address r then [r_data r] else []))
      (if is_address r then Z.min ttl (r_ttl r) else ttl).
Proof.
  intros Hwf ->. cbn [read_records].
  assert (skip_name (before ++ record_bytes r ++ after) (zlen before)
          = Some (zlen before + zlen (r_name r))) as ->.
  { unfold record_bytes. rewrite <-app_assoc. apply skip_wire_name; [apply Hwf|done]. }
  cbn [mbind option_bind]. pose proof (zlen_fixed_bytes r) as Hf.
  set (rest := r_data r ++ after).
  assert (before ++ record_bytes r ++ after = (before ++ r_name r) ++ fixed_bytes r ++ rest) as Heq
    by (unfold record_bytes, rest; by rewrite <-!app_assoc).
  rewrite Heq. rewrite get_range_in by (subst rest; len). cbn [mbind option_bind].
  rewrite (sub_eq _ (before ++ r_name r) (fixed_bytes r) rest) by (done || len).
  destruct (record_fields r Hwf) as (-> & -> & -> & ->).
  assert ((before ++ r_name r) ++ fixed_bytes r ++ rest
          = ((before ++ r_name r) ++ fixed_bytes r) ++ r_data r ++ after) as ->
    by (unfold rest; by rewrite <-!app_assoc).
  rewrite get_range_in by len. cbn [mbind option_bind].
  rewrite (sub_eq _ ((before ++ r_name r) ++ fixed_bytes r) (r_data r) after
    (zlen before + zlen (r_name r) + 10)) by (done || len).
  unfold is_address. destruct ((r_type r =? TYPE_A) && (r_class r =? CLASS_IN) && (zlen (r_data r) =? 4)) eqn:E.
  - b2p. replace (sub (r_data r) 0 4) with (r_data r) by (rewrite <-(sub_all (r_data r)) at 1; congruence).
    f_equal. unfold record_bytes. len.
  - rewrite app_nil_r. f_equal. unfold record_bytes. len.
Qed.

Lemma read_records_bytes records before after at_ addresses ttl :
  Forall record_wf records → at_ = zlen before →
  read_records (length records) (before ++ mjoin (record_bytes <$> records) ++ after) at_
    addresses ttl =
    Some (addresses ++ (r_data <$> filter is_address records),
          foldl Z.min ttl (r_ttl <$> filter is_address records)).
Proof.
  intros Hwf. revert before at_ addresses ttl.
  induction Hwf as [|r records Hr _ IH]; intros before at_ addresses ttl ->.
  - cbn [length read_records]. by rewrite app_nil_r.
  - rewrite fmap_cons.
    change (mjoin (record_bytes r :: (record_bytes <$> records)))
      with (record_bytes r ++ mjoin (record_bytes <$> records)).
    rewrite <-(app_assoc (record_bytes r)). cbn [length]. rewrite read_one_record by done.
    rewrite (app_assoc before). rewrite IH by len. rewrite filter_cons.
    destruct (is_address r); cbn [Is_true]; [rewrite decide_True by done|rewrite decide_False by tauto].
    + by rewrite <-app_assoc.
    + by rewrite app_nil_r.
Qed.

(** A reply made of well-formed questions and records, under the id of the
    query and reporting success, reads as the data of its A records in order and
    the shortest of their lifetimes, whatever other records, name compression and
    trailing bytes it carries; without an A record it reads as no address. *)
Theorem answer_lists_addresses id flags counts questions records trailer :
  0 <= id < 65536 → 0 <= flags < 65536 →
  Z.land flags FLAG_RESPONSE ≠ 0 → Z.land flags RCODE_MASK = 0 →
  zlen counts = 4 → zlen questions < 65536 → zlen records < 65536 →
  Forall question_wf questions → Forall record_wf records →
  read_answer
    (be_bytes 2 id ++ be_bytes 2 flags ++ be_bytes 2 (zlen questions) ++ be_bytes 2 (zlen records)
     ++ counts ++ mjoin (question_bytes <$> questions) ++ mjoin (record_bytes <$> records) ++ trailer) id
  = Some (match filter is_address records with
          | [] => NoAddress 0
          | found => Addresses (r_data <$> found) (foldl Z.min (2 ^ 32 - 1) (r_ttl <$> found))
          end).
Proof.
  intros Hid Hflags Hresponse Hrcode Hcounts Hq Hr Hquestions Hrecords.
  pose proof (zlen_nonneg questions). pose proof (zlen_nonneg records).
  set (i := be_bytes 2 id). set (f := be_bytes 2 flags). set (qd := be_bytes 2 (zlen questions)).
  set (an := be_bytes 2 (zlen records)). set (qs := mjoin (question_bytes <$> questions)).
  set (rs := mjoin (record_bytes <$> records)).
  assert (zlen i = 2 ∧ zlen f = 2 ∧ zlen qd = 2 ∧ zlen an = 2) as (Hi & Hf & Hqd & Han)
    by (subst i f qd an; split_and!; len).
  set (m := i ++ f ++ qd ++ an ++ counts ++ qs ++ rs ++ trailer).
  assert (nz16 m 0 = id) as Em0 by (by apply (nz16_at _ [] _ (f ++ qd ++ an ++ counts ++ qs ++ rs ++ trailer))).
  assert (nz16 m 2 = flags) as Em2 by (apply (nz16_at _ i _ (qd ++ an ++ counts ++ qs ++ rs ++ trailer)); done || lia).
  assert (nz16 m 4 = zlen questions) as Em4
    by (apply (nz16_at _ (i ++ f) _ (an ++ counts ++ qs ++ rs ++ trailer)); [by rewrite <-app_assoc|len|lia]).
  assert (nz16 m 6 = zlen records) as Em6
    by (apply (nz16_at _ (i ++ f ++ qd) _ (counts ++ qs ++ rs ++ trailer)); [by rewrite <-!app_assoc|len|lia]).
  unfold read_answer, verdict. rewrite Em0, Em2, Em4, Em6, Hrcode.
  rewrite (proj2 (Z.ltb_ge _ _)) by (unfold HEADER_LEN; subst m; len).
  rewrite Z.eqb_refl, (proj2 (Z.eqb_neq _ _)) by done. cbn [negb].
  change (0 =? 0) with true. cbn iota.
  replace (Z.to_nat (zlen questions)) with (length questions) by (unfold zlen; lia).
  replace (Z.to_nat (zlen records)) with (length records) by (unfold zlen; lia).
  replace m with ((i ++ f ++ qd ++ an ++ counts) ++ qs ++ rs ++ trailer) by (subst m; by rewrite <-!app_assoc).
  subst qs rs. rewrite skip_questions_bytes by (done || (unfold HEADER_LEN; len)).
  cbn [mbind option_bind]. rewrite (app_assoc (i ++ _)).
  rewrite read_records_bytes by (done || (unfold HEADER_LEN; len)).
  cbn [mbind option_bind app]. by destruct (filter is_address records).
Qed.

(** ** The question asked *)

Definition wire_labels (labels : list (list byte)) : list byte :=
  mjoin ((λ label, z2b (zlen label) :: label) <$> labels).

Lemma wire_labels_cons label labels :
  wire_labels (label :: labels) = [z2b (zlen label)] ++ label ++ wire_labels labels.
Proof. done. Qed.

Lemma push_labels_spec labels message out :
  push_labels labels message = Some out →
  out = message ++ wire_labels labels ∧ Forall (λ label, zlen label <= 63) labels.
Proof.
  revert message. induction labels as [|label labels IH]; intros message; cbn [push_labels].
  - intros [= <-]. by rewrite app_nil_r.
  - destruct (Z.ltb_spec 63 (zlen label)); [done|]. intros [-> Hall]%IH. split.
    + rewrite wire_labels_cons. by rewrite <-!app_assoc.
    + by constructor.
Qed.

(** Labels as the reader strings them together. *)
Definition extend (name label : list byte) : list byte :=
  (match name with [] => [] | _ => name ++ [x2e] end) ++ to_ascii_lowercase label.

Lemma extend_cons_app name label : name ≠ [] → extend name label = name ++ x2e :: to_ascii_lowercase label.
Proof. destruct name; [done|]. intros _. unfold extend. by rewrite <-app_assoc. Qed.

Lemma zlen_extend name label : zlen (extend name label) <= zlen name + 1 + zlen label.
Proof. unfold extend, to_ascii_lowercase. destruct name; len. Qed.

Lemma extend_join name labels :
  name ≠ [] → Forall (λ label, label ≠ []) labels →
  foldl extend name labels =
    match labels with [] => name | _ => name ++ x2e :: to_ascii_lowercase (join_with x2e labels) end.
Proof.
  intros Hname Hlabels. revert name Hname. induction Hlabels as [|label labels Hlabel _ IH]; intros name Hname; [done|].
  cbn [foldl]. rewrite extend_cons_app by done. rewrite IH by (by destruct name).
  destruct labels as [|next labels]; [done|]. cbn [join_with].
  unfold to_ascii_lowercase. by rewrite fmap_app, fmap_cons, <-app_assoc.
Qed.

Lemma extend_all labels :
  Forall (λ label, label ≠ []) labels →
  foldl extend [] labels = to_ascii_lowercase (join_with x2e labels).
Proof.
  intros [|label labels' Hlabel Hrest]; [done|]. cbn [foldl].
  change (extend [] label) with (to_ascii_lowercase label).
  rewrite extend_join; [|by destruct label|done]. destruct labels' as [|next rest]; [done|].
  cbn [join_with]. unfold to_ascii_lowercase. by rewrite fmap_app, fmap_cons.
Qed.

Lemma name_loop_labels labels fuel before after offset name :
  Forall (λ label, label ≠ [] ∧ zlen label <= 63 ∧ valid_utf8 label = true) labels →
  offset = zlen before → zlen (wire_labels labels) < Z.of_nat fuel →
  zlen name + zlen (wire_labels labels) <= 255 →
  name_loop fuel (before ++ wire_labels labels ++ x00 :: after) offset name =
    Some (foldl extend name labels).
Proof.
  intros Hall. revert fuel before offset name.
  induction Hall as [|label labels (Hne & Hshort & Hvalid) _ IH];
    intros [|fuel] before offset name -> Hfuel Hlen; cbn [name_loop].
  - len.
  - by rewrite (get_at _ before x00 after (zlen before)).
  - len.
  - rewrite wire_labels_cons in *. pose proof (zlen_nonneg label).
    assert (0 < zlen label) by (destruct label; [done|len]).
    rewrite (get_at _ before (z2b (zlen label)) (label ++ wire_labels labels ++ x00 :: after) (zlen before))
      by (by rewrite <-?app_assoc).
    cbn [mbind option_bind]. rewrite b2z_z2b, Z.mod_small by lia.
    rewrite (proj2 (Z.eqb_neq _ _)) by lia. rewrite !(proj2 (Z.ltb_ge _ _)) by len. cbn [orb].
    set (message := before ++ _).
    assert (message = (before ++ [z2b (zlen label)]) ++ label ++ (wire_labels labels ++ x00 :: after)) as Hm
      by (subst message; by rewrite <-!app_assoc).
    rewrite get_range_in by (rewrite ?Hm; len). cbn [mbind option_bind].
    rewrite (sub_eq message (before ++ [z2b (zlen label)]) label _ (zlen before + 1)) by (done || len).
    rewrite lossy_valid by done. fold (extend name label). rewrite Hm, app_assoc.
    rewrite IH; [done|len..|]. pose proof (zlen_extend name label). len.
Qed.

(** A name that can be asked is read back from its own query: lowercased,
    without empty labels, and never cut short or taken for malformed. *)
Theorem asked_name_is_read_back id hostname message :
  valid_utf8 hostname = true → query id hostname = Some message →
  question_name message =
    Some (to_ascii_lowercase (join_with x2e (filter (λ label, label ≠ []) (split_on x2e hostname)))).
Proof.
  unfold query. intros Hvalid.
  set (labels := filter (λ label, label ≠ []) (split_on x2e hostname)).
  set (header := be_bytes 2 id ++ _).
  destruct (push_labels labels header) as [named|] eqn:E; cbn [mbind option_bind]; [|done].
  apply push_labels_spec in E as [-> Hshort]. case_match eqn:Hfits; [|done]. intros Heq.
  apply Z.leb_le in Hfits. unfold HEADER_LEN in *.
  assert (message = header ++ wire_labels labels ++ x00 :: be_bytes 2 TYPE_A ++ be_bytes 2 CLASS_IN) as ->.
  { apply (inj Some) in Heq as <-. rewrite <-app_assoc. done. }
  assert (zlen header = 12) as Hheader by done.
  assert (Forall (λ label, label ≠ [] ∧ zlen label <= 63 ∧ valid_utf8 label = true) labels) as Hall.
  { pose proof (valid_parts x2e hostname ltac:(done) Hvalid) as Hparts.
    rewrite Forall_forall in *. intros label Hlabel. pose proof Hlabel as [Hne Hin]%list_elem_of_filter.
    split_and!; auto. }
  unfold question_name. rewrite name_loop_labels; [|done|done| |].
  - f_equal. apply extend_all. eapply Forall_impl; [exact Hall|]. by intros label (? & ? & ?).
  - rewrite Nat2Z.inj_succ. fold (zlen (header ++ wire_labels labels ++ x00 :: be_bytes 2 TYPE_A ++ be_bytes 2 CLASS_IN)). len.
  - len.
Qed.

(** ** Reverse lookups *)

Definition reverse_name (w x y z : byte) : list byte :=
  dotted [z; y; x; w] ++ str ".in-addr.arpa".

Lemma not_local_suffix s suffix :
  suffix ∈ LOCAL_SUFFIXES →
  bool_decide (s ++ str ".in-addr.arpa" = suffix) || ends_with (x2e :: suffix) (s ++ str ".in-addr.arpa")
    = false.
Proof.
  intros Hsuffix. apply orb_false_iff. split.
  - apply bool_decide_eq_false_2. intros Heq.
    pose proof (strip_suffix_app (str ".in-addr.arpa") s) as Hs. rewrite Heq in Hs.
    clear Heq. revert Hs. unfold LOCAL_SUFFIXES in Hsuffix.
    repeat (apply elem_of_cons in Hsuffix as [->|Hsuffix]; [vm_compute; discriminate|]).
    by apply not_elem_of_nil in Hsuffix.
  - unfold ends_with, strip_suffix. rewrite reverse_app.
    apply bool_decide_eq_false_2. unfold LOCAL_SUFFIXES in Hsuffix. revert Hsuffix.
    generalize (reverse s). clear s. intros s Hsuffix.
    repeat (apply elem_of_cons in Hsuffix as [->|Hsuffix]; [intros [? Hx]; vm_compute in Hx; discriminate|]).
    by apply not_elem_of_nil in Hsuffix.
Qed.

(** A reverse lookup is kept on the local network exactly when the address
    it is about is private, loopback, link-local or carrier-grade shared. *)
Theorem reverse_lookup_is_local_iff w x y z :
  is_local_only_name (reverse_name w x y z) =
    is_private [w; x; y; z] || is_loopback [w; x; y; z] || is_link_local [w; x; y; z]
    || ((b2z w =? 100) && (64 <=? b2z x) && (b2z x <? 128)).
Proof.
  unfold is_local_only_name, reverse_name. set (s := dotted [z; y; x; w]).
  assert (contains x2e (s ++ str ".in-addr.arpa") = true) as ->.
  { apply bool_decide_eq_true_2, elem_of_app. right. apply list_elem_of_here. }
  rewrite bool_decide_eq_false_2 by (by intros [_ ?]%app_eq_nil). cbn [negb orb].
  assert (existsb (λ suffix, bool_decide (s ++ str ".in-addr.arpa" = suffix)
    || ends_with (x2e :: suffix) (s ++ str ".in-addr.arpa")) LOCAL_SUFFIXES = false) as ->.
  { apply not_true_iff_false. intros (suffix & Hin & Hsuffix)%existsb_exists.
    rewrite not_local_suffix in Hsuffix by (by apply list_elem_of_In). done. }
  rewrite strip_suffix_app. subst s.
  rewrite dotted_join, split_join by (done || (repeat constructor; apply decimal_clean)).
  change (reverse [decimal (b2z z); decimal (b2z y); decimal (b2z x); decimal (b2z w)])
    with [decimal (b2z w); decimal (b2z x); decimal (b2z y); decimal (b2z z)].
  cbn [map_while]. rewrite !parse_u8_decimal. cbn [fmap list_fmap]. rewrite !z2b_b2z. done.
Qed.

Definition sample_question : list byte * list byte :=
  (z2b 2 :: str "gp" ++ [x00], [x00; x01; x00; x01]).
Definition sample_records : list record :=
  [Record [xc0; x0c] 5 1 60 [xc0; x0c]; Record [xc0; x0c] 1 1 300 [x0a; x00; x00; x07]].

Definition sample_response : list byte :=
  be_bytes 2 7 ++ be_bytes 2 0x8180 ++ be_bytes 2 1 ++ be_bytes 2 2 ++ [x00; x00; x00; x00]
  ++ mjoin (question_bytes <$> [sample_question]) ++ mjoin (record_bytes <$> sample_records) ++ [xff].

Lemma sample_question_wf : question_wf sample_question.
Proof.
  split; [|done]. apply (wire_label (str "gp") [x00]); [by vm_compute|constructor].
Qed.

Lemma sample_records_wf : Forall record_wf sample_records.
Proof.
  repeat constructor; cbn [r_type r_class r_ttl r_data]; try lia; by vm_compute.
Qed.

Lemma answer_lists_addresses_witness :
  read_answer sample_response 7 = Some (Addresses [[x0a; x00; x00; x07]] 300).
Proof.
  etransitivity.
  - apply (answer_lists_addresses 7 0x8180 [x00; x00; x00; x00] [sample_question] sample_records [xff]);
      [lia|lia|by vm_compute|by vm_compute|done|done|done| |exact sample_records_wf].
    constructor; [exact sample_question_wf|constructor].
  - by vm_compute.
Defined.

Lemma asked_name_is_read_back_witness :
  ∃ message, query 7 (str "Play.Example.com.") = Some message
             ∧ question_name message = Some (str "play.example.com").
Proof.
  eexists. split; [by vm_compute|].
  apply (asked_name_is_read_back 7 (str "Play.Example.com.")); by vm_compute.
Defined.
