(* ===== verification/SocksWire.v ===== *)
(** * SocksWire: what proxy clients send and expect back

    [engine/src/socks/wire.rs]: the SOCKS5 messages and the HTTP proxy requests.
    A parser takes what has arrived so far and says whether it is enough; reading
    past the buffer would be a panic, so the parsers answer in [run]. *)
From S2P Require Import Prelude Text.

Definition SOCKS_VERSION : Z := 5.
Definition METHOD_NONE : Z := 0x00.
Definition METHOD_USER_PASS : Z := 0x02.
Definition METHOD_UNACCEPTABLE : Z := 0xff.
Definition USER_PASS_VERSION : Z := 1.
Definition COMMAND_CONNECT : Z := 1.
Definition COMMAND_UDP_ASSOCIATE : Z := 3.
Definition ATYP_IPV4 : Z := 1.
Definition ATYP_DOMAIN : Z := 3.
Definition ATYP_IPV6 : Z := 4.
Definition MAX_HTTP_HEAD : Z := 16 * 1024.

Inductive Reply : Type :=
| Succeeded
| GeneralFailure
| NotAllowed
| HostUnreachable
| ConnectionRefused
| TtlExpired
| CommandNotSupported
| AddressTypeNotSupported.

(** [code as u8]. *)
Definition reply_code (code : Reply) : Z :=
  match code with
  | Succeeded => 0
  | GeneralFailure => 1
  | NotAllowed => 2
  | HostUnreachable => 4
  | ConnectionRefused => 5
  | TtlExpired => 6
  | CommandNotSupported => 7
  | AddressTypeNotSupported => 8
  end.

(** The four octets and the port of a [SocketAddrV4]. *)
Record SocketAddrV4 := SocketAddr { ip : list byte; port : Z }.

Inductive Target : Type :=
| Ip (address : SocketAddrV4)
| Domain (name : list byte) (port : Z)
| Ipv6.

Inductive Parse (T : Type) : Type :=
| Incomplete
| Done (value : T) (used : Z)
| Invalid (reason : string).
Arguments Incomplete {T}.
Arguments Done {T} value used.
Arguments Invalid {T} reason.

#[export] Instance SocketAddrV4_eq_dec : EqDecision SocketAddrV4.
Proof. solve_decision. Defined.
#[export] Instance Target_eq_dec : EqDecision Target.
Proof. solve_decision. Defined.

(** ** SOCKS5 *)

Definition parse_greeting (buffer : list byte) : run (Parse (list byte)) :=
  match buffer with
  | version :: count :: _ =>
      if negb (b2z version =? SOCKS_VERSION) then Ret (Invalid "not a SOCKS5 greeting") else
      let end_ := 2 + b2z count in
      match get_range buffer 2 end_ with
      | Some methods => Ret (Done methods end_)
      | None => Ret Incomplete
      end
  | _ => Ret Incomplete
  end.

Definition parse_user_pass (buffer : list byte) : run (Parse (list byte * list byte)) :=
  match buffer with
  | version :: user_length :: _ =>
      if negb (b2z version =? USER_PASS_VERSION)
      then Ret (Invalid "unknown username/password version") else
      let user_end := 2 + b2z user_length in
      match get buffer user_end with
      | None => Ret Incomplete
      | Some password_length =>
          let end_ := user_end + 1 + b2z password_length in
          if zlen buffer <? end_ then Ret Incomplete else
          user ← slice buffer 2 user_end;
          password ← slice buffer (user_end + 1) end_;
          Ret (Done (from_utf8_lossy user, from_utf8_lossy password) end_)
      end
  | _ => Ret Incomplete
  end.

Definition user_pass_reply (accepted : bool) : list byte :=
  [z2b USER_PASS_VERSION; if accepted then x00 else x01].

(** A "domain" that is really an address literal, which some clients send. *)
Definition domain_target (name : list byte) (port : Z) : Target :=
  match parse_ipv4 name with
  | Some address => Ip (SocketAddr address port)
  | None =>
      if contains x3a name then Ipv6
      else Domain (to_ascii_lowercase (trim_end_matches x2e name)) port
  end.

(** [u16::from_be_bytes([buffer[at], buffer[at + 1]])]. *)
Definition read_port (buffer : list byte) (at_ : Z) : run Z :=
  high ← idx buffer at_; low ← idx buffer (at_ + 1); Ret (b2z high * 256 + b2z low).

Definition parse_address (buffer : list byte) : run (Parse Target) :=
  match buffer with
  | [] => Ret Incomplete
  | kind :: _ =>
      let kind := b2z kind in
      if (kind =? ATYP_IPV4) && (7 <=? zlen buffer) then
        address ← slice buffer 1 5;
        port ← read_port buffer 5;
        Ret (Done (Ip (SocketAddr address port)) 7)
      else if (kind =? ATYP_DOMAIN) && (2 <=? zlen buffer) then
        length ← idx buffer 1;
        let end_ := 2 + b2z length in
        if zlen buffer <? end_ + 2 then Ret Incomplete else
        name ← slice buffer 2 end_;
        port ← read_port buffer end_;
        Ret (Done (domain_target (from_utf8_lossy name) port) (end_ + 2))
      else if (kind =? ATYP_IPV6) && (19 <=? zlen buffer) then Ret (Done Ipv6 19)
      else if (kind =? ATYP_IPV4) || (kind =? ATYP_DOMAIN) || (kind =? ATYP_IPV6)
      then Ret Incomplete
      else Ret (Invalid "unknown address type")
  end.

Record Request := MkRequest { command : Z; request_target : Target }.

Definition parse_request (buffer : list byte) : run (Parse Request) :=
  match buffer with
  | version :: command :: _ :: rest =>
      if negb (b2z version =? SOCKS_VERSION) then Ret (Invalid "not a SOCKS5 request") else
      address ← parse_address rest;
      Ret (match address with
           | Done target used => Done (MkRequest (b2z command) target) (3 + used)
           | Incomplete => Incomplete
           | Invalid reason => Invalid reason
           end)
  | _ => Ret Incomplete
  end.

Definition reply (code : Reply) (bound : SocketAddrV4) : list byte :=
  [z2b SOCKS_VERSION; z2b (reply_code code); x00; z2b ATYP_IPV4] ++ ip bound ++ be_bytes 2 (port bound).

Definition parse_udp_datagram (datagram : list byte) : run (option (Target * list byte)) :=
  match datagram with
  | x00 :: x00 :: x00 :: rest =>
      address ← parse_address rest;
      match address with
      | Done target used =>
          payload ← slice datagram (3 + used) (zlen datagram);
          Ret (Some (target, payload))
      | _ => Ret None
      end
  | _ => Ret None
  end.

Definition udp_datagram (from : SocketAddrV4) (payload : list byte) : list byte :=
  [x00; x00; x00; z2b ATYP_IPV4] ++ ip from ++ be_bytes 2 (port from) ++ payload.

(** ** HTTP proxy requests *)

Record HttpRequest := MkHttp {
  target : Target;
  tunnel : bool;
  credentials : option (list byte * list byte);
  upstream_head : list byte
}.

Definition CRLF : list byte := [x0d; x0a].
Definition HEAD_END : list byte := CRLF ++ CRLF.

(** [host:port], [[v6]:port] or a bare host, into a target. *)
Definition authority_target (authority : list byte) (default_port : Z) : option Target :=
  let authority := match rsplit_once x40 authority with Some (_, host) => host | None => authority end in
  if starts_with [x5b] authority then Some Ipv6 else
  '(host, port) ← match rsplit_once x3a authority with
                  | Some (host, port) => port ← parse_u16 port; Some (host, port)
                  | None => Some (authority, default_port)
                  end;
  match host with
  | [] => None
  | _ => Some (domain_target host port)
  end.

(** [iter.find_map(f)]. *)
Fixpoint find_map {A B} (f : A → option B) (l : list A) : option B :=
  match l with
  | [] => None
  | x :: l' => match f x with Some y => Some y | None => find_map f l' end
  end.

Definition HOP_HEADERS : list (list byte) :=
  [str "proxy-authorization"; str "proxy-connection"; str "connection"; str "keep-alive"].

Definition header_name (line : list byte) : list byte :=
  trim (match split_once x3a line with Some (name, _) => name | None => line end).

Definition is_hop_header (line : list byte) : bool :=
  existsb (eq_ignore_ascii_case (header_name line)) HOP_HEADERS.

(** The base64 decoder is a parameter. *)
Section http.
Variable decode : list byte → option (list byte).

Definition read_credentials (line : list byte) : option (list byte * list byte) :=
  '(name, value) ← split_once x3a line;
  if negb (eq_ignore_ascii_case (trim name) (str "proxy-authorization")) then None else
  encoded ← strip_prefix (str "Basic ") (trim value);
  decoded ← decode (trim encoded);
  if valid_utf8 decoded then split_once x3a decoded else None.

Definition forwarded_head (method path version : list byte) (headers : list (list byte)) : list byte :=
  method ++ [x20] ++ path ++ [x20] ++ version ++ CRLF
  ++ mjoin ((λ line, line ++ CRLF) <$> filter (λ line, is_hop_header line = false) headers)
  ++ str "Connection: close" ++ HEAD_END.

(** What is made of a head once it is whole. *)
Definition read_head (head : list byte) (consumed : Z) : Parse HttpRequest :=
  if negb (valid_utf8 head) then Invalid "HTTP request head is not text" else
  match split_crlf head with
  | [] => Invalid "malformed HTTP request line"
  | request_line :: headers =>
      match split_on x20 request_line with
      | method :: uri :: version :: _ =>
          let credentials := find_map read_credentials headers in
          if eq_ignore_ascii_case method (str "CONNECT") then
            match authority_target uri 443 with
            | None => Invalid "CONNECT needs a host and port"
            | Some target => Done (MkHttp target true credentials []) consumed
            end
          else
            match strip_prefix (str "http://") uri with
            | None => Invalid "a proxied request needs an absolute http:// URI"
            | Some rest =>
                let '(authority, path) :=
                  match split_once x2f rest with
                  | Some (before, after) => (before, x2f :: after)
                  | None => (rest, [x2f])
                  end in
                match authority_target authority 80 with
                | None => Invalid "the request URI names no host"
                | Some target =>
                    Done (MkHttp target false credentials
                            (forwarded_head method path version headers)) consumed
                end
            end
      | _ => Invalid "malformed HTTP request line"
      end
  end.

Definition parse_http_request (buffer : list byte) : run (Parse HttpRequest) :=
  match find_bytes HEAD_END buffer with
  | None =>
      if MAX_HTTP_HEAD <? zlen buffer then Ret (Invalid "HTTP request head is too large")
      else Ret Incomplete
  | Some end_ => head ← slice buffer 0 end_; Ret (read_head head (end_ + 4))
  end.
End http.

Definition HTTP_ESTABLISHED : list byte := str "HTTP/1.1 200 Connection established" ++ HEAD_END.

Definition HTTP_AUTH_REQUIRED : list byte :=
  str "HTTP/1.1 407 Proxy Authentication Required" ++ CRLF
  ++ str "Proxy-Authenticate: Basic realm=" ++ [x22] ++ str "GamePath" ++ [x22] ++ CRLF
  ++ str "Content-Length: 0" ++ CRLF ++ str "Connection: close" ++ HEAD_END.

Definition http_failure (reply : Reply) : list byte :=
  let status :=
    match reply with
    | TtlExpired | HostUnreachable => str "HTTP/1.1 504 Gateway Timeout"
    | NotAllowed => str "HTTP/1.1 403 Forbidden"
    | AddressTypeNotSupported | CommandNotSupported => str "HTTP/1.1 400 Bad Request"
    | _ => str "HTTP/1.1 502 Bad Gateway"
    end in
  status ++ CRLF ++ str "Content-Length: 0" ++ CRLF ++ str "Connection: close" ++ HEAD_END.

(** ** Buffers that grow

    What a parser sees of a buffer of which only [take k] has arrived, and of one
    that more bytes follow. *)

Lemma zlen_take {A} (l : list A) k : 0 <= k <= zlen l → zlen (take (Z.to_nat k) l) = k.
Proof. unfold zlen. intros. rewrite length_take. lia. Qed.

Lemma get_take {A} (l : list A) k i :
  0 <= k <= zlen l → get (take (Z.to_nat k) l) i = if i <? k then get l i else None.
Proof.
  unfold get, zlen. intros. destruct (Z.leb_spec 0 i), (Z.ltb_spec i k); try done.
  - apply lookup_take_lt. lia.
  - apply lookup_take_ge. lia.
Qed.

Lemma take_two {A} (a b : A) l k :
  2 <= k → take (Z.to_nat k) (a :: b :: l) = a :: b :: take (Z.to_nat (k - 2)) l.
Proof. intros. by replace (Z.to_nat k) with (S (S (Z.to_nat (k - 2)))) by lia. Qed.

Lemma get_more {A} (l more : list A) i x : get l i = Some x → get (l ++ more) i = Some x.
Proof. intros Hx. pose proof (get_Some _ _ _ Hx). by rewrite get_app_l by lia. Qed.

Lemma idx_more {A} (l more : list A) i x : idx l i = Ret x → idx (l ++ more) i = Ret x.
Proof. unfold idx. destruct (get l i) eqn:E; [|done]. by rewrite (get_more _ _ _ _ E). Qed.

Lemma slice_more {A} (l more : list A) a b s : slice l a b = Ret s → slice (l ++ more) a b = Ret s.
Proof.
  unfold slice. destruct (get_range l a b) as [s'|] eqn:E; [|done]. intros [= ->].
  apply get_range_Some in E as (? & ? & ->). rewrite get_range_in by len.
  by rewrite sub_app_l by lia.
Qed.

Lemma slice_ok {A} (l : list A) a b :
  0 <= a <= b → b <= zlen l → slice l a b = Ret (sub l a b).
Proof. apply slice_in. Qed.

(** A parser that can be fed partial reads: it never panics, what it settles on
    does not change when more arrives, and nothing settles before the last byte of
    the message it finds is there. *)
Definition incremental {T} (parser : list byte → run (Parse T)) : Prop :=
  ∀ buffer, ∃ outcome, parser buffer = Ret outcome ∧
    match outcome with
    | Incomplete => True
    | Invalid _ => ∀ more, parser (buffer ++ more) = Ret outcome
    | Done _ used =>
        0 <= used <= zlen buffer
        ∧ (∀ more, parser (buffer ++ more) = Ret outcome)
        ∧ (∀ k, 0 <= k < used → parser (take (Z.to_nat k) buffer) = Ret Incomplete)
    end.

Ltac settle := eexists; split; [reflexivity|]; cbn beta iota.

Lemma parse_greeting_incremental : incremental parse_greeting.
Proof.
  intros [|version [|count buffer]]; [by settle..|]. unfold parse_greeting at 1.
  destruct (negb _) eqn:Hversion.
  { settle. intros more. cbn [app parse_greeting]. by rewrite Hversion. }
  pose proof (b2z_range count). set (whole := version :: count :: buffer).
  destruct (get_range whole 2 _) as [methods|] eqn:E; [|by settle].
  apply get_range_Some in E as (_ & Hlen & ->). settle. split_and!; [lia..| |].
  - intros more. unfold whole. cbn [app parse_greeting]. rewrite Hversion.
    change (version :: count :: buffer ++ more) with (whole ++ more).
    rewrite get_range_in by len. by rewrite sub_app_l by lia.
  - intros k Hk. destruct (decide (k < 2)) as [Hsmall|].
    + by assert (k = 0 ∨ k = 1) as [-> | ->] by lia.
    + unfold whole. rewrite (take_two version count buffer k) by lia. cbn [parse_greeting]. rewrite Hversion.
      rewrite <-(take_two version count buffer k) by lia. fold whole. unfold get_range.
      rewrite zlen_take by lia. rewrite (proj2 (Z.leb_gt _ k)) by lia. by rewrite !andb_false_r.
Qed.

Lemma parse_user_pass_incremental : incremental parse_user_pass.
Proof.
  intros [|version [|user_length buffer]]; [by settle..|]. unfold parse_user_pass at 1.
  destruct (negb _) eqn:Hversion.
  { settle. intros more. cbn [app parse_user_pass]. by rewrite Hversion. }
  pose proof (b2z_range user_length). set (whole := version :: user_length :: buffer).
  set (user_end := 2 + b2z user_length).
  destruct (get whole user_end) as [password_length|] eqn:E; [|by settle].
  pose proof (get_Some _ _ _ E). pose proof (b2z_range password_length).
  set (end_ := user_end + 1 + b2z password_length).
  destruct (Z.ltb_spec (zlen whole) end_); [by settle|].
  rewrite !slice_in by lia. cbn [mbind run_bind]. settle. split_and!; [lia..| |].
  - intros more. unfold whole. cbn [app parse_user_pass]. rewrite Hversion.
    change (version :: user_length :: buffer ++ more) with (whole ++ more).
    fold user_end. rewrite (get_more _ _ _ _ E). fold end_.
    rewrite (proj2 (Z.ltb_ge _ _)) by len.
    rewrite !slice_in by len. cbn [mbind run_bind]. by rewrite !sub_app_l by lia.
  - intros k Hk. destruct (decide (k < 2)) as [Hsmall|].
    + by assert (k = 0 ∨ k = 1) as [-> | ->] by lia.
    + unfold whole. rewrite (take_two version user_length buffer k) by lia. cbn [parse_user_pass]. rewrite Hversion.
      rewrite <-(take_two version user_length buffer k) by lia. fold whole user_end.
      rewrite get_take by lia. destruct (Z.ltb_spec user_end k); [|done].
      rewrite E. fold end_. by rewrite zlen_take, (proj2 (Z.ltb_lt _ _)) by lia.
Qed.

Lemma read_port_in buffer at_ :
  0 <= at_ → at_ + 2 <= zlen buffer → read_port buffer at_ = Ret (nz16 buffer at_).
Proof.
  intros. unfold read_port, nz16, nz.
  destruct (idx_in buffer at_ ltac:(lia)) as (x & -> & ->).
  by destruct (idx_in buffer (at_ + 1) ltac:(lia)) as (y & -> & ->).
Qed.

Lemma nz16_app_l l more i : 0 <= i → i + 2 <= zlen l → nz16 (l ++ more) i = nz16 l i.
Proof. intros. unfold nz16, nz. by rewrite !get_app_l by lia. Qed.

(** The address parser by kind, its reads resolved. *)
Lemma address_v4 l :
  let whole := x01 :: l in
  parse_address whole =
    Ret (if 7 <=? zlen whole then Done (Ip (SocketAddr (sub whole 1 5) (nz16 whole 5))) 7
         else Incomplete).
Proof.
  cbn zeta. unfold parse_address. change (b2z x01 =? ATYP_IPV4) with true. cbn [andb].
  destruct (Z.leb_spec 7 (zlen (x01 :: l))); [|by destruct (2 <=? _), (19 <=? _)].
  rewrite slice_in by lia. cbn [mbind run_bind]. by rewrite read_port_in by lia.
Qed.

Lemma address_domain l :
  let whole := x03 :: l in
  let end_ := 2 + nz whole 1 in
  parse_address whole =
    Ret (if (2 <=? zlen whole) && (end_ + 2 <=? zlen whole)
         then Done (domain_target (from_utf8_lossy (sub whole 2 end_)) (nz16 whole end_)) (end_ + 2)
         else Incomplete).
Proof.
  cbn zeta. unfold parse_address. change (b2z x03 =? ATYP_IPV4) with false.
  change (b2z x03 =? ATYP_DOMAIN) with true. cbn [andb].
  destruct (Z.leb_spec 2 (zlen (x03 :: l))); cbn [andb]; [|by destruct (19 <=? _)].
  destruct (idx_in (x03 :: l) 1 ltac:(lia)) as (n & Hn & ->). cbn [mbind run_bind].
  assert (nz (x03 :: l) 1 = b2z n) as -> by (unfold nz; by rewrite Hn).
  pose proof (b2z_range n).
  destruct (Z.ltb_spec (zlen (x03 :: l)) (2 + b2z n + 2)).
  - by rewrite (proj2 (Z.leb_gt _ _)) by lia.
  - rewrite (proj2 (Z.leb_le _ _)) by lia. rewrite slice_in by lia. cbn [mbind run_bind].
    by rewrite read_port_in by lia.
Qed.

Lemma address_v6 l :
  parse_address (x04 :: l) = Ret (if 19 <=? zlen (x04 :: l) then Done Ipv6 19 else Incomplete).
Proof. unfold parse_address. cbn. by destruct (19 <=? _). Qed.

Lemma address_other kind l :
  kind ≠ x01 → kind ≠ x03 → kind ≠ x04 →
  parse_address (kind :: l) = Ret (Invalid "unknown address type").
Proof.
  intros H1 H3 H4. unfold parse_address.
  assert (∀ b, kind ≠ b → (b2z kind =? b2z b) = false) as Hne.
  { intros b Hb. apply Z.eqb_neq. intros ?%b2z_inj. done. }
  change ATYP_IPV4 with (b2z x01). change ATYP_DOMAIN with (b2z x03). change ATYP_IPV6 with (b2z x04).
  by rewrite (Hne x01 H1), (Hne x03 H3), (Hne x04 H4).
Qed.

Lemma take_one {A} (a : A) l k :
  1 <= k → take (Z.to_nat k) (a :: l) = a :: take (Z.to_nat (k - 1)) l.
Proof. intros. by replace (Z.to_nat k) with (S (Z.to_nat (k - 1))) by lia. Qed.

Lemma nz_take l k i : 0 <= k <= zlen l → i < k → nz (take (Z.to_nat k) l) i = nz l i.
Proof. intros. unfold nz. by rewrite get_take, (proj2 (Z.ltb_lt _ _)) by lia. Qed.

Lemma nz_app_l l more i : i < zlen l → nz (l ++ more) i = nz l i.
Proof. intros. unfold nz. by rewrite get_app_l by lia. Qed.

(** What all but the kind of an address goes by. *)
Lemma address_prefix whole (kind : byte) l k :
  whole = kind :: l → 0 <= k <= zlen whole →
  take (Z.to_nat k) whole = [] ∨ ∃ l', take (Z.to_nat k) whole = kind :: l'.
Proof.
  intros -> ?. destruct (decide (k = 0)) as [->|]; [by left|right].
  rewrite take_one by lia. eauto.
Qed.

Lemma parse_address_incremental : incremental parse_address.
Proof.
  intros [|kind buffer]; [by settle|]. set (whole := kind :: buffer).
  destruct (decide (kind = x01)) as [->|H1]; [|destruct (decide (kind = x03)) as [->|H3];
    [|destruct (decide (kind = x04)) as [->|H4]]].
  - subst whole. rewrite address_v4. set (whole := x01 :: buffer).
    destruct (Z.leb_spec 7 (zlen whole)); [|by settle]. settle. split_and!; [lia..| |].
    + intros more. unfold whole. cbn [app]. rewrite address_v4.
      change (x01 :: buffer ++ more) with (whole ++ more). rewrite (proj2 (Z.leb_le _ _)) by len.
      by rewrite sub_app_l, nz16_app_l by lia.
    + intros k Hk. destruct (address_prefix whole x01 buffer k) as [E|[l' E]]; [done|lia|by rewrite E|].
      rewrite E, address_v4, <-E. by rewrite zlen_take, (proj2 (Z.leb_gt _ _)) by lia.
  - subst whole. rewrite address_domain. set (whole := x03 :: buffer). pose proof (nz_range whole 1).
    destruct (Z.leb_spec 2 (zlen whole)); cbn [andb]; [|by settle].
    destruct (Z.leb_spec (2 + nz whole 1 + 2) (zlen whole)); [|by settle]. settle. split_and!; [lia..| |].
    + intros more. unfold whole. cbn [app]. rewrite address_domain.
      change (x03 :: buffer ++ more) with (whole ++ more). rewrite nz_app_l by lia.
      rewrite !(proj2 (Z.leb_le _ _)) by len. cbn [andb]. by rewrite sub_app_l, nz16_app_l by lia.
    + intros k Hk. destruct (address_prefix whole x03 buffer k) as [E|[l' E]]; [done|lia|by rewrite E|].
      rewrite E, address_domain, <-E, zlen_take by lia.
      destruct (Z.leb_spec 2 k); [|done]. rewrite nz_take by lia.
      by rewrite (proj2 (Z.leb_gt _ _)) by lia.
  - subst whole. rewrite address_v6. set (whole := x04 :: buffer).
    destruct (Z.leb_spec 19 (zlen whole)); [|by settle]. settle. split_and!; [lia..| |].
    + intros more. unfold whole. cbn [app]. rewrite address_v6.
      change (x04 :: buffer ++ more) with (whole ++ more). by rewrite (proj2 (Z.leb_le _ _)) by len.
    + intros k Hk. destruct (address_prefix whole x04 buffer k) as [E|[l' E]]; [done|lia|by rewrite E|].
      rewrite E, address_v6, <-E. by rewrite zlen_take, (proj2 (Z.leb_gt _ _)) by lia.
  - subst whole. rewrite address_other by done. settle. intros more. cbn [app].
    by rewrite address_other.
Qed.

Lemma parse_request_incremental : incremental parse_request.
Proof.
  intros [|version [|command [|reserved buffer]]]; [by settle..|]. unfold parse_request at 1.
  destruct (negb _) eqn:Hversion.
  { settle. intros more. cbn [app parse_request]. by rewrite Hversion. }
  destruct (parse_address_incremental buffer) as (outcome & E & Hout).
  rewrite E. cbn [mbind run_bind]. destruct outcome as [|t used|reason]; settle; [done| |].
  - destruct Hout as (Hused & Hmore & Hless). rewrite !zlen_cons. split_and!; [lia..| |].
    + intros more. cbn [app parse_request]. by rewrite Hversion, Hmore.
    + intros k Hk. destruct (decide (k < 3)).
      * assert (k = 0 ∨ k = 1 ∨ k = 2) as [-> |[-> | ->]] by lia; reflexivity.
      * replace (Z.to_nat k) with (S (S (S (Z.to_nat (k - 3))))) by lia. cbn [take parse_request].
        by rewrite Hversion, Hless by lia.
  - intros more. cbn [app parse_request]. by rewrite Hversion, Hout.
Qed.

(** The three SOCKS5 parsers can be fed whatever has arrived: they never
    read past the buffer, a message is not settled on before its last byte is
    there, takes no byte of what follows it, and is read the same whatever follows. *)
Theorem socks_parsers_are_incremental :
  incremental parse_greeting ∧ incremental parse_user_pass ∧ incremental parse_request.
Proof.
  split_and!; [apply parse_greeting_incremental|apply parse_user_pass_incremental
    |apply parse_request_incremental].
Qed.

(** ** Datagrams *)

Definition address_wf (a : SocketAddrV4) : Prop := zlen (ip a) = 4 ∧ 0 <= port a < 65536.

Lemma address_round_trip a payload :
  address_wf a →
  parse_address (z2b ATYP_IPV4 :: ip a ++ be_bytes 2 (port a) ++ payload) = Ret (Done (Ip a) 7).
Proof.
  intros [Hip Hport]. change (z2b ATYP_IPV4) with x01. rewrite address_v4.
  set (whole := x01 :: ip a ++ be_bytes 2 (port a) ++ payload).
  rewrite (proj2 (Z.leb_le _ _)) by (subst whole; len).
  rewrite (sub_eq whole [x01] (ip a) (be_bytes 2 (port a) ++ payload)) by (done || len).
  assert (nz16 whole 5 = port a) as ->.
  { rewrite nz16_be_Z by (subst whole; len).
    rewrite (sub_eq whole (x01 :: ip a) (be_bytes 2 (port a)) payload) by (done || len).
    rewrite be_Z_be_bytes. by apply Z.mod_small. }
  by destruct a.
Qed.

(** What the relay wraps a datagram in, its client reads back: the sender's
    address and the whole payload; and a datagram a client marks as a fragment is
    never read, whatever it carries. *)
Theorem udp_datagram_round_trip from payload :
  address_wf from →
  parse_udp_datagram (udp_datagram from payload) = Ret (Some (Ip from, payload))
  ∧ ∀ fragment, fragment ≠ x00 → ∀ rest, parse_udp_datagram (x00 :: x00 :: fragment :: rest) = Ret None.
Proof.
  intros Hwf. split.
  - unfold udp_datagram. cbn [app parse_udp_datagram]. rewrite address_round_trip by done.
    cbn [mbind run_bind]. destruct Hwf as [Hip Hport].
    erewrite (slice_eq _ (x00 :: x00 :: x00 :: z2b ATYP_IPV4 :: ip from ++ be_bytes 2 (port from)) payload []).
    + done.
    + by rewrite app_nil_r, <-!app_comm_cons, <-app_assoc.
    + len.
    + len.
  - intros fragment Hf rest. unfold parse_udp_datagram. by destruct fragment.
Qed.

(** ** HTTP requests *)

Section http_proofs.
Variable decode : list byte → option (list byte).
Notation parse_http_request := (parse_http_request decode).
Notation read_head := (read_head decode).

Lemma parse_http_found buffer end_ :
  find_bytes HEAD_END buffer = Some end_ →
  0 <= end_ ∧ end_ + 4 <= zlen buffer
  ∧ parse_http_request buffer = Ret (read_head (sub buffer 0 end_) (end_ + 4)).
Proof.
  intros Hfind. pose proof (find_from_bound _ _ _ _ Hfind) as [Hend Hlen].
  change (zlen HEAD_END) with 4 in Hlen. split_and!; [lia..|].
  unfold SocksWire.parse_http_request. rewrite Hfind. by rewrite slice_in by lia.
Qed.

(** A head that is read takes exactly the bytes it was found in. *)
Lemma read_head_used head consumed r used :
  read_head head consumed = Done r used → used = consumed.
Proof. unfold SocksWire.read_head. repeat case_match; congruence. Qed.

(** An HTTP head can be fed as it arrives: it is never read past the
    buffer, a request is read the same whatever follows it, and no part of a head
    settles anything before the bound on a head is passed; a client is told to
    wait only while its head is within that bound. *)
Theorem http_request_is_incremental buffer :
  ∃ outcome, parse_http_request buffer = Ret outcome ∧
    match outcome with
    | Incomplete => zlen buffer <= MAX_HTTP_HEAD
    | Invalid reason =>
        MAX_HTTP_HEAD < zlen buffer ∨ ∀ more, parse_http_request (buffer ++ more) = Ret outcome
    | Done _ used =>
        4 <= used <= zlen buffer
        ∧ (∀ more, parse_http_request (buffer ++ more) = Ret outcome)
        ∧ (∀ k, 0 <= k < used → k <= MAX_HTTP_HEAD →
           parse_http_request (take (Z.to_nat k) buffer) = Ret Incomplete)
    end.
Proof.
  destruct (find_bytes HEAD_END buffer) as [end_|] eqn:Hfind.
  - destruct (parse_http_found _ _ Hfind) as (H0 & Hlen & Hparse).
    assert (∀ more, parse_http_request (buffer ++ more) = parse_http_request buffer) as Hmore.
    { intros more. rewrite Hparse.
      destruct (parse_http_found (buffer ++ more) end_) as (_ & _ & ->); [by apply find_from_more|].
      by rewrite sub_app_l by lia. }
    exists (read_head (sub buffer 0 end_) (end_ + 4)). split; [done|].
    rewrite <-Hparse.
    destruct (read_head (sub buffer 0 end_) (end_ + 4)) as [|r used|reason] eqn:Hread; [|split_and!|].
    + exfalso. revert Hread. unfold SocksWire.read_head. repeat case_match; congruence.
    + apply read_head_used in Hread. lia.
    + apply read_head_used in Hread. lia.
    + done.
    + intros k Hk Hmax. apply read_head_used in Hread as ->. unfold SocksWire.parse_http_request, find_bytes.
      rewrite (find_from_take _ _ _ _ (Z.to_nat k) Hfind)
        by (change (zlen HEAD_END) with 4; lia).
      by rewrite zlen_take, (proj2 (Z.ltb_ge _ _)) by lia.
    + by right.
  - unfold SocksWire.parse_http_request. rewrite Hfind.
    destruct (Z.ltb_spec MAX_HTTP_HEAD (zlen buffer)); settle; [by left|done].
Qed.

Lemma split_on_lines c l : one_line l → Forall one_line (split_on c l).
Proof.
  induction l as [l Hl|l k Hl IH] using (split_ind c); intros Hone.
  - rewrite split_on_none by done. by repeat constructor.
  - rewrite split_on_app by done. constructor; [by eapply one_line_app_l|].
    apply IH. by eapply one_line_cons, one_line_app_r.
Qed.

Lemma split_crlf_kept lines rest :
  Forall one_line lines →
  split_crlf (mjoin ((λ line, line ++ CRLF) <$> lines) ++ rest) = lines ++ split_crlf rest.
Proof.
  induction 1 as [|line lines Hline _ IH]; [done|]. rewrite fmap_cons.
  change (mjoin ((line ++ CRLF) :: ((λ line, line ++ CRLF) <$> lines)))
    with ((line ++ CRLF) ++ mjoin ((λ line, line ++ CRLF) <$> lines)).
  rewrite <-!app_assoc. cbn [CRLF app]. rewrite split_crlf_line by done. by rewrite IH.
Qed.

Lemma forwarded_head_lines method path version headers :
  one_line method → one_line path → one_line version → Forall one_line headers →
  split_crlf (forwarded_head method path version headers) =
    (method ++ [x20] ++ path ++ [x20] ++ version)
      :: filter (λ line, is_hop_header line = false) headers ++ [str "Connection: close"; []; []].
Proof.
  intros Hm Hp Hv Hh. unfold forwarded_head.
  assert (one_line (method ++ [x20] ++ path ++ [x20] ++ version)) as Hline.
  { cbn [app]. by repeat apply one_line_sep. }
  set (line := method ++ [x20] ++ path ++ [x20] ++ version) in *.
  set (kept := filter _ headers).
  replace (method ++ [x20] ++ path ++ [x20] ++ version ++ CRLF ++ mjoin ((λ line, line ++ CRLF) <$> kept)
           ++ str "Connection: close" ++ HEAD_END)
    with (line ++ x0d :: x0a :: mjoin ((λ line, line ++ CRLF) <$> kept) ++ str "Connection: close" ++ HEAD_END)
    by (subst line; by rewrite <-!app_assoc).
  rewrite split_crlf_line by done. f_equal. rewrite split_crlf_kept; [done|].
  apply Forall_forall. intros l [_ Hl]%list_elem_of_filter. by eapply Forall_forall in Hh.
Qed.

(** What is sent upstream for a forwarded request is the request line in
    origin form, the client's own headers in order without those that concern the
    proxy, and one [Connection: close]: no line of it is the proxy's credentials. *)
Theorem proxy_headers_stay_here buffer r used :
  parse_http_request buffer = Ret (Done r used) → tunnel r = false →
  ∃ method authority path version rest headers bare,
    split_crlf (take (Z.to_nat (used - 4)) buffer) = join_with x20 (method :: bare :: version :: rest) :: headers
    ∧ (bare = str "http://" ++ authority ++ path ∨ bare = str "http://" ++ authority ∧ path = [x2f])
    ∧ head path = Some x2f ∧ authority_target authority 80 = Some (target r)
    ∧ split_crlf (upstream_head r)
      = (method ++ [x20] ++ path ++ [x20] ++ version)
        :: filter (λ line, is_hop_header line = false) headers ++ [str "Connection: close"; []; []].
Proof.
  unfold SocksWire.parse_http_request. destruct (find_bytes HEAD_END buffer) as [end_|] eqn:Hfind;
    [|by case_match].
  destruct (find_from_bound _ _ _ _ Hfind) as [Hend Hlen]. change (zlen HEAD_END) with 4 in Hlen.
  rewrite slice_in by lia. cbn [mbind run_bind]. intros Hread Htunnel. injection Hread as Hread.
  pose proof (read_head_used _ _ _ _ Hread) as ->.
  replace (take (Z.to_nat (end_ + 4 - 4)) buffer) with (sub buffer 0 end_)
    by (rewrite sub_0_take; f_equal; lia).
  revert Hread. unfold SocksWire.read_head. set (head_ := sub buffer 0 end_).
  destruct (negb (valid_utf8 head_)); [done|].
  pose proof (split_crlf_lines head_) as Hlines. destruct (split_crlf head_) as [|request_line headers]; [done|].
  apply Forall_cons in Hlines as [Hline Hheaders].
  pose proof (split_on_lines x20 request_line Hline) as Hpieces.
  pose proof (join_split x20 request_line) as Hjoin.
  destruct (split_on x20 request_line) as [|method [|uri [|version rest]]]; [done..|].
  apply Forall_cons in Hpieces as [Hm Hpieces]. apply Forall_cons in Hpieces as [Huri Hpieces].
  apply Forall_cons in Hpieces as [Hv _].
  destruct (eq_ignore_ascii_case method (str "CONNECT")).
  { destruct (authority_target uri 443); [|done]. intros [= <-]. done. }
  destruct (strip_prefix (str "http://") uri) as [after|] eqn:Estrip; [|done].
  apply strip_prefix_Some in Estrip as ->.
  destruct (split_once x2f after) as [[authority path]|] eqn:Eslash.
  - apply split_once_Some in Eslash as ->. destruct (authority_target authority 80) as [t|] eqn:Et; [|done].
    intros [= <-]. exists method, authority, (x2f :: path), version, rest, headers, (str "http://" ++ authority ++ x2f :: path).
    split_and!; [by rewrite Hjoin|by left|done|done|].
    apply forwarded_head_lines; [done| |done|done].
    eapply one_line_app_r, one_line_app_r. exact Huri.
  - destruct (authority_target after 80) as [t|] eqn:Et; [|done].
    intros [= <-]. exists method, after, [x2f], version, rest, headers, (str "http://" ++ after).
    split_and!; [by rewrite Hjoin|by right|done|done|].
    apply forwarded_head_lines; [done| |done|done]. intros [|i] [? H2]; done.
Qed.
End http_proofs.

Lemma udp_datagram_round_trip_witness :
  parse_udp_datagram (udp_datagram (SocketAddr [x01; x02; x03; x04] 53) (str "hi"))
    = Ret (Some (Ip (SocketAddr [x01; x02; x03; x04] 53), str "hi")).
Proof. apply (udp_datagram_round_trip (SocketAddr [x01; x02; x03; x04] 53) (str "hi")). split; [done|simpl; lia]. Defined.

Definition sample_head : list byte :=
  str "GET http://Example.com/a HTTP/1.1" ++ CRLF ++ str "Proxy-Authorization: Basic eDp5" ++ CRLF
  ++ str "Accept: x" ++ HEAD_END.

Lemma proxy_headers_stay_here_witness :
  ∃ r, parse_http_request (λ _, Some (str "x:y")) sample_head = Ret (Done r (zlen sample_head))
    ∧ credentials r = Some (str "x", str "y")
    ∧ ∃ method authority path version rest headers bare,
        split_crlf (take (Z.to_nat (zlen sample_head - 4)) sample_head)
          = join_with x20 (method :: bare :: version :: rest) :: headers
        ∧ (bare = str "http://" ++ authority ++ path ∨ bare = str "http://" ++ authority ∧ path = [x2f])
        ∧ head path = Some x2f ∧ authority_target authority 80 = Some (target r)
        ∧ split_crlf (upstream_head r)
          = (method ++ [x20] ++ path ++ [x20] ++ version)
            :: filter (λ line, is_hop_header line = false) headers ++ [str "Connection: close"; []; []].
Proof.
  eexists. split; [by vm_compute|]. split; [by vm_compute|].
  apply (proxy_headers_stay_here (λ _, Some (str "x:y")) sample_head _ (zlen sample_head)); by vm_compute.
Defined.
