(* ===== verification/Endpoints.v ===== *)
(** * Return endpoints of a relay session

    Models [relay/src/endpoints.rs]: where a session's replies go. Each
    authenticated frame refreshes its source address, a client's path-policy
    message marks an address as a selected or spare path, and replies, repairs
    included, are sent to what is selected and still alive. *)
From Stdlib Require Import Sorting.Sorted.
From S2P Require Import Prelude Protocol.

Definition CAPACITY : Z := 8.
Definition TTL : Z := secs 45.
Definition REPAIR_FRESHNESS : Z := secs 3.

(** A [SocketAddr], by its address and port. *)
Notation SocketAddr := (list byte * Z)%type (only parsing).

Record Endpoint : Type := mk_endpoint {
  address : SocketAddr;
  seen : Z;
  policy : option PathPolicy.t;
  healthy : bool
}.

Record Endpoints : Type := mk_endpoints {
  entries : list Endpoint;
  policy_sequences : list (option Z);
  selective : bool
}.

Definition default_endpoints : Endpoints := mk_endpoints [] (replicate 64 None) false.

Definition len (e : Endpoints) : Z := zlen (entries e).

Definition with_entries (e : Endpoints) (entries : list Endpoint) : Endpoints :=
  mk_endpoints entries (policy_sequences e) (selective e).

Definition prune (e : Endpoints) (now : Z) : Endpoints :=
  with_entries e (filter (λ entry, since now (seen entry) <= TTL) (entries e)).

(** [entries.iter_mut().find(...)], with the update applied to the entry found. *)
Fixpoint update_first (P : Endpoint → bool) (f : Endpoint → Endpoint) (l : list Endpoint)
    : option (list Endpoint) :=
  match l with
  | [] => None
  | x :: l' => if P x then Some (f x :: l') else (λ l'', x :: l'') <$> update_first P f l'
  end.

Definition at_address (a : SocketAddr) (entry : Endpoint) : bool := bool_decide (address entry = a).

Definition observe (e : Endpoints) (a : SocketAddr) (now : Z) : Endpoints :=
  let e := prune e now in
  match update_first (at_address a)
          (λ x, mk_endpoint (address x) now (policy x) (healthy x)) (entries e) with
  | Some entries => with_entries e entries
  | None =>
      let entries := if CAPACITY <=? zlen (entries e)
                     then tail (sort_by seen (entries e)) else entries e in
      with_entries e (entries ++ [mk_endpoint a now None true])
  end.

Definition on_path (n : Z) (entry : Endpoint) : bool :=
  match policy entry with Some p => PathPolicy.path p =? n | None => false end.

(** The array index is the path number, below 64 in every parsed policy; the
    [unwrap] finds the entry that [observe] just refreshed or added. *)
Definition apply (e : Endpoints) (a : SocketAddr) (p : PathPolicy.t) (is_healthy : bool)
    (sequence now : Z) : run Endpoints :=
  previous ← idx (policy_sequences e) (PathPolicy.path p);
  if match previous with Some q => sequence <=? q | None => false end then Ret e else
  let sequences := <[Z.to_nat (PathPolicy.path p) := Some sequence]> (policy_sequences e) in
  let kept := filter (λ entry, at_address a entry = true ∨ on_path (PathPolicy.path p) entry = false)
                     (entries e) in
  let e := observe (mk_endpoints kept sequences true) a now in
  entries ← unwrap (update_first (at_address a)
    (λ x, mk_endpoint (address x) (seen x) (Some p) is_healthy) (entries e));
  Ret (with_entries e entries).

Definition is_selected (entry : Endpoint) : bool :=
  match policy entry with Some p => PathPolicy.selected p | None => false end.

Definition targets (e : Endpoints) (now : Z) : list SocketAddr * Endpoints :=
  let e := prune e now in
  let selected := existsb (λ entry, negb (selective e) || is_selected entry) (entries e) in
  let fallback := if selected then None else address <$> max_by seen (entries e) in
  let sends entry := if selected then negb (selective e) || is_selected entry
                     else bool_decide (Some (address entry) = fallback) in
  (address <$> filter (λ entry, sends entry = true) (entries e), e).

Definition fresh (now : Z) (entry : Endpoint) : bool :=
  healthy entry && (since now (seen entry) <=? REPAIR_FRESHNESS)
  && match policy entry with Some _ => true | None => false end.

Definition spare (entry : Endpoint) : bool :=
  match policy entry with Some p => negb (PathPolicy.selected p) | None => false end.

Definition eligible (e : Endpoints) (now : Z) : list Endpoint :=
  let has_spare := existsb spare (filter (λ entry, fresh now entry = true) (entries e)) in
  filter (λ entry, fresh now entry && (negb has_spare || spare entry) = true) (entries e).

Definition repair_target (e : Endpoints) (now turn : Z) : option SocketAddr * Endpoints :=
  let e := prune e now in
  if negb (selective e) then (None, e) else
  let candidates := eligible e now in
  if zlen candidates =? 0 then
    let '(ts, e) := targets e now in (head ts, e)
  else (address <$> get candidates (turn mod zlen candidates), e).

(** ** Invariant *)

(** Addresses are distinct and bounded in number, a path has at most one return
    address, and no entry has a policy before the client ever sent one. *)
Record endpoints_wf (e : Endpoints) : Prop := {
  ew_addresses : NoDup (address <$> entries e);
  ew_capacity : len e <= CAPACITY;
  ew_sequences : length (policy_sequences e) = 64%nat;
  ew_paths : ∀ x y p q, x ∈ entries e → y ∈ entries e → policy x = Some p → policy y = Some q →
    PathPolicy.path p = PathPolicy.path q → address x = address y;
  ew_plain : selective e = false → ∀ x, x ∈ entries e → policy x = None
}.

Inductive endpoints_op : Type :=
| Observe (a : SocketAddr) (now : Z)
| Apply (a : SocketAddr) (p : PathPolicy.t) (is_healthy : bool) (sequence now : Z)
| Targets (now : Z)
| RepairTarget (now turn : Z).

Definition endpoints_step (e : Endpoints) (o : endpoints_op) : run Endpoints :=
  match o with
  | Observe a now => Ret (observe e a now)
  | Apply a p h q now => apply e a p h q now
  | Targets now => Ret (targets e now).2
  | RepairTarget now turn => Ret (repair_target e now turn).2
  end.

Fixpoint endpoints_run (e : Endpoints) (ops : list endpoints_op) : run Endpoints :=
  match ops with
  | [] => Ret e
  | o :: ops' => e ← endpoints_step e o; endpoints_run e ops'
  end.

Definition endpoints_op_wf (o : endpoints_op) : Prop :=
  match o with Apply _ p _ _ _ => PathPolicy.wf p | _ => True end.

Lemma default_endpoints_wf : endpoints_wf default_endpoints.
Proof.
  split; try done; simpl.
  - constructor.
  - intros x y p q Hx. by apply elem_of_nil in Hx.
  - intros _ x Hx. by apply elem_of_nil in Hx.
Qed.

(** Dropping entries keeps the invariant. *)
Lemma wf_sublist e l : endpoints_wf e → l `sublist_of` entries e → endpoints_wf (with_entries e l).
Proof.
  intros [Hn Hc Hs Hp Hu] Hl.
  assert (∀ x, x ∈ l → x ∈ entries e) as Hin.
  { intros x. by apply elem_of_sublist. }
  split; unfold len in *; cbn [with_entries entries policy_sequences selective].
  - eapply sublist_NoDup; [exact Hn|]. by apply sublist_fmap.
  - unfold zlen in *. apply sublist_length in Hl. lia.
  - done.
  - intros x y p q Hx Hy. apply Hp; by apply Hin.
  - intros Hsel x Hx. by apply Hu, Hin.
Qed.

Lemma prune_wf e now : endpoints_wf e → endpoints_wf (prune e now).
Proof. intros He. apply wf_sublist; [done|]. apply sublist_filter. Qed.

(** Fields of the entries that an update in place keeps. *)
Lemma update_first_spec P f l l' :
  update_first P f l = Some l' →
  ∃ a x b, l = a ++ x :: b ∧ l' = a ++ f x :: b ∧ P x = true ∧ ∀ y, y ∈ a → P y = false.
Proof.
  revert l'. induction l as [|x l IH]; intros l' Hu; [done|]. cbn [update_first] in Hu.
  destruct (P x) eqn:Ex.
  - injection Hu as <-. exists [], x, l. split_and!; [done..|]. intros y Hy. by apply elem_of_nil in Hy.
  - destruct (update_first P f l) as [k|]; [|done]. injection Hu as <-.
    destruct (IH k eq_refl) as (a & z & b & -> & -> & Hz & Ha). exists (x :: a), z, b.
    split_and!; [done..|]. intros y [->|Hy]%elem_of_cons; [done|by apply Ha].
Qed.

Lemma update_first_None P f l : update_first P f l = None ↔ ∀ x, x ∈ l → P x = false.
Proof.
  induction l as [|x l IH]; cbn [update_first].
  - split; [|done]. intros _ x Hx. by apply elem_of_nil in Hx.
  - destruct (P x) eqn:Ex.
    + split; [done|]. intros H. rewrite (H x) in Ex by apply list_elem_of_here. done.
    + rewrite fmap_None, IH. split.
      * intros H y [->|Hy]%elem_of_cons; [done|by apply H].
      * intros H y Hy. by apply H, list_elem_of_further.
Qed.

(** An entry replaced by one with the same address, and with a policy that no
    other entry has the path of. *)
Lemma wf_replace e a x x' b :
  endpoints_wf e → entries e = a ++ x :: b → address x' = address x →
  (∀ p, policy x' = Some p → selective e = true ∧
     ∀ y q, y ∈ entries e → y ≠ x → policy y = Some q → PathPolicy.path q ≠ PathPolicy.path p) →
  endpoints_wf (with_entries e (a ++ x' :: b)).
Proof.
  intros [Hn Hc Hs Hp Hu] Hl Ha Hpol.
  assert (address <$> (a ++ x' :: b) = address <$> entries e) as Haddr.
  { rewrite Hl, !fmap_app. cbn [fmap list_fmap]. by rewrite Ha. }
  assert (∀ y, y ∈ a ++ b → y ∈ entries e ∧ y ≠ x) as Hrest.
  { intros y Hy. rewrite Hl. split; [set_solver|]. intros ->. rewrite Hl, fmap_app in Hn.
    cbn [fmap list_fmap] in Hn. apply NoDup_app in Hn as (_ & Hd & Hn). apply NoDup_cons in Hn as [Hn _].
    apply elem_of_app in Hy as [Hy|Hy].
    - apply (Hd (address x)); [by apply list_elem_of_fmap_2|apply list_elem_of_here].
    - apply Hn. by apply list_elem_of_fmap_2. }
  assert (∀ y, y ∈ a ++ x' :: b → y = x' ∨ y ∈ a ++ b) as Hcase by set_solver.
  split; unfold len in *; cbn [with_entries entries policy_sequences selective].
  - by rewrite Haddr.
  - apply (f_equal length) in Haddr. rewrite !length_fmap in Haddr. unfold zlen in *. lia.
  - done.
  - intros y z p q Hy%Hcase Hz%Hcase Hyp Hzq Hpq.
    destruct Hy as [->|Hy], Hz as [->|Hz]; [done| | |].
    + destruct (Hrest z Hz) as [Hz1 Hz2]. destruct (Hpol p Hyp) as [_ Hno]. by destruct (Hno z q Hz1 Hz2 Hzq).
    + destruct (Hrest y Hy) as [Hy1 Hy2]. destruct (Hpol q Hzq) as [_ Hno]. by destruct (Hno y p Hy1 Hy2 Hyp).
    + destruct (Hrest y Hy), (Hrest z Hz). by eapply Hp.
  - intros Hsel y [->|Hy]%Hcase.
    + destruct (policy x') as [p|] eqn:E; [|done]. destruct (Hpol p eq_refl). congruence.
    + destruct (Hrest y Hy). by apply Hu.
Qed.

(** What [observe] guarantees of its result [r]: every policy was there before, at
    the same address, and [a] has a fresh entry. *)
Record observed (e r : Endpoints) (a : SocketAddr) (now : Z) : Prop := {
  ob_wf : endpoints_wf r;
  ob_sequences : policy_sequences r = policy_sequences e;
  ob_selective : selective r = selective e;
  ob_entry : ∃ x, x ∈ entries r ∧ address x = a ∧ seen x = now;
  ob_policies : ∀ x p, x ∈ entries r → policy x = Some p →
    ∃ y, y ∈ entries e ∧ policy y = Some p ∧ address y = address x
}.

Lemma same_address_eq e x y :
  endpoints_wf e → x ∈ entries e → y ∈ entries e → address x = address y → x = y.
Proof.
  intros [Hn _ _ _ _] [i Hi]%list_elem_of_lookup [j Hj]%list_elem_of_lookup Ha.
  assert (i = j) as ->; [|congruence].
  apply (NoDup_lookup _ i j (address y) Hn); rewrite list_lookup_fmap; [by rewrite Hi, <-Ha|by rewrite Hj].
Qed.

Lemma refresh_observed e a now l :
  endpoints_wf e →
  update_first (at_address a) (λ x, mk_endpoint (address x) now (policy x) (healthy x)) (entries e) = Some l →
  observed e (with_entries e l) a now.
Proof.
  intros Hw Eu. apply update_first_spec in Eu as (k & x & b & Hl & -> & Hx & _).
  apply bool_decide_eq_true in Hx.
  set (x' := mk_endpoint (address x) now (policy x) (healthy x)).
  assert (x ∈ entries e) as Hxin by (rewrite Hl; set_solver).
  split; [|done|done|exists x'; split; [set_solver|done]|].
  - apply (wf_replace e k x x' b); [done..|]. cbn [policy x']. intros p Hp. split.
    + destruct (selective e) eqn:Es; [done|]. by rewrite (ew_plain e Hw Es x Hxin) in Hp.
    + intros y q Hy Hyx Hyq Hpq. apply Hyx. apply (same_address_eq e); [done..|].
      by apply (ew_paths e Hw y x q p).
  - cbn [with_entries entries]. intros y p Hy Hp.
    assert (y = x' ∨ y ∈ entries e) as [->|Hy'] by (rewrite Hl; set_solver); [by exists x|by exists y].
Qed.

Lemma add_observed e a now :
  endpoints_wf e → (∀ x, x ∈ entries e → address x ≠ a) →
  let l := if CAPACITY <=? zlen (entries e) then tail (sort_by seen (entries e)) else entries e in
  observed e (with_entries e (l ++ [mk_endpoint a now None true])) a now.
Proof.
  intros Hw Hnew. cbn zeta. set (l := if _ <=? _ then _ else _).
  assert (l `sublist_of` sort_by seen (entries e) ∨ l = entries e) as Hl.
  { unfold l. destruct (_ <=? _); [left|by right].
    destruct (sort_by seen (entries e)); [done|]. apply sublist_cons, reflexivity. }
  assert (∀ x, x ∈ l → x ∈ entries e) as Hin.
  { intros x Hx. destruct Hl as [Hl|Hl]; [|by rewrite <-Hl].
    rewrite <-(sort_by_perm seen). by eapply elem_of_sublist. }
  assert (NoDup (address <$> l)) as Hnd.
  { destruct Hl as [Hl|Hl]; [|rewrite Hl; apply Hw]. eapply sublist_NoDup; [|by apply sublist_fmap].
    rewrite (sort_by_perm seen). apply Hw. }
  assert (zlen l <= CAPACITY - 1) as Hc.
  { unfold l. destruct (Z.leb_spec CAPACITY (zlen (entries e))); [|lia].
    pose proof (ew_capacity _ Hw). unfold len, zlen in *.
    pose proof (Permutation_length (sort_by_perm seen (entries e))).
    destruct (sort_by seen (entries e)); unfold CAPACITY in *; simpl in *; lia. }
  set (n := mk_endpoint a now None true).
  split; [|done|done|exists n; split; [by apply elem_of_snoc; right|done]|].
  - destruct Hw as [Hn Hca Hs Hpa Hu]. split; unfold len; cbn [with_entries entries policy_sequences selective].
    + rewrite fmap_app. apply NoDup_app. split; [done|]. split; [|apply NoDup_singleton].
      intros b (x & -> & Hx)%list_elem_of_fmap Hba%list_elem_of_singleton. by apply (Hnew x (Hin x Hx)).
    + rewrite zlen_app. change (zlen [n]) with 1. lia.
    + done.
    + intros x y p q [Hx| ->]%elem_of_snoc [Hy| ->]%elem_of_snoc; [|done..]. eapply Hpa; by apply Hin.
    + intros Hsel x [Hx| ->]%elem_of_snoc; [by apply Hu, Hin|done].
  - cbn [with_entries entries]. intros x p [Hx| ->]%elem_of_snoc Hp; [|done]. exists x.
    split; [by apply Hin|done].
Qed.

Lemma observe_observed e a now : endpoints_wf e → observed e (observe e a now) a now.
Proof.
  intros He. assert (observed (prune e now) (observe e a now) a now) as [H1 H2 H3 H4 H5].
  { unfold observe. destruct (update_first _ _ _) as [l|] eqn:Eu.
    - apply refresh_observed; [by apply prune_wf|done].
    - apply add_observed; [by apply prune_wf|]. intros x Hx Ha.
      pose proof (proj1 (update_first_None _ _ _) Eu x Hx) as Hf.
      by apply bool_decide_eq_false in Hf. }
  split; [done..|]. intros x p Hx Hp. destruct (H5 x p Hx Hp) as (y & Hy & Hrest).
  exists y. split; [|done]. by apply list_elem_of_filter in Hy as [_ ?].
Qed.

Lemma apply_wf e a p h q now :
  endpoints_wf e → PathPolicy.wf p → ∃ e', apply e a p h q now = Ret e' ∧ endpoints_wf e'.
Proof.
  intros He Hp. unfold apply, PathPolicy.wf in *.
  destruct (idx_in (policy_sequences e) (PathPolicy.path p)) as (prev & _ & ->).
  { unfold zlen. rewrite (ew_sequences e He). lia. }
  cbn [mbind run_bind]. destruct (match prev with Some _ => _ | None => _ end); [by exists e|].
  set (kept := filter _ (entries e)). set (seqs := <[_ := _]> _).
  assert (endpoints_wf (mk_endpoints kept seqs true)) as Hk.
  { destruct (wf_sublist e kept He (sublist_filter _ _)) as [Hn Hc Hs Hpa _].
    split; try done. cbn. unfold seqs. rewrite length_insert. apply He. }
  destruct (observe_observed _ a now Hk) as [Hw _ Hsel (x & Hx & Hxa & _) Hpol].
  set (e1 := observe _ a now) in *.
  destruct (update_first _ _ (entries e1)) as [l|] eqn:Eu.
  2: { pose proof (proj1 (update_first_None _ _ _) Eu x Hx) as Hf. by apply bool_decide_eq_false in Hf. }
  cbn [unwrap mbind run_bind]. eexists. split; [done|].
  apply update_first_spec in Eu as (k & y & b & Hl & -> & Hy & _). apply bool_decide_eq_true in Hy.
  apply (wf_replace e1 k y); [done..|]. cbn [policy]. intros p' [= <-]. split; [done|].
  intros z r Hz Hzy Hzr Hrp. destruct (Hpol z r Hz Hzr) as (w & Hw' & Hwr & Hwz).
  apply list_elem_of_filter in Hw' as [[Hwa|Hwp] _].
  - apply bool_decide_eq_true in Hwa. apply Hzy, (same_address_eq e1); [done|done|by rewrite Hl; set_solver|].
    congruence.
  - unfold on_path in Hwp. rewrite Hwr in Hwp. by apply Z.eqb_neq in Hwp.
Qed.

Lemma endpoint_step_wf e o : endpoints_wf e → endpoints_op_wf o → ∃ e', endpoints_step e o = Ret e' ∧ endpoints_wf e'.
Proof.
  intros He Ho. destruct o as [a now|a p h q now|now|now turn]; cbn [endpoints_step].
  - eexists. split; [done|]. apply observe_observed, He.
  - by apply apply_wf.
  - eexists. split; [done|]. by apply prune_wf.
  - eexists. split; [done|]. unfold repair_target.
    destruct (negb (selective (prune e now))); cbn [snd]; [by apply prune_wf|].
    destruct (_ =? 0); cbn [snd]; [|by apply prune_wf]. unfold targets. cbn [snd].
    by apply prune_wf, prune_wf.
Qed.

Lemma endpoint_run_wf ops e :
  endpoints_wf e → Forall endpoints_op_wf ops → ∃ e', endpoints_run e ops = Ret e' ∧ endpoints_wf e'.
Proof.
  revert e. induction ops as [|o ops IH]; intros e He Ho; [by exists e|].
  apply Forall_cons in Ho as [Ho Hos]. destruct (endpoint_step_wf e o He Ho) as (e1 & Hs & He1).
  destruct (IH e1 He1 Hos) as (e' & Hr & He'). exists e'. cbn [endpoints_run]. by rewrite Hs.
Qed.

(** ** Properties *)

(** Whatever a client's authenticated traffic does, in any order, the return
    endpoints stay well formed and nothing panics: at most eight distinct
    addresses, at most one of them per path (a rebound path leaves no second
    return address behind), and no policy before the client sent one. *)
Theorem endpoints_stay_well_formed ops (Hops : Forall endpoints_op_wf ops) :
  ∃ e, endpoints_run default_endpoints ops = Ret e ∧ endpoints_wf e.
Proof. apply endpoint_run_wf; [apply default_endpoints_wf|done]. Qed.

Lemma endpoints_stay_well_formed_witness :
  ∃ e, endpoints_run default_endpoints
    [Observe ([x01], 1) 0; Apply ([x02], 1) (PathPolicy.mk 3 true) true 9 1;
     Apply ([x03], 1) (PathPolicy.mk 3 false) true 12 2; RepairTarget 3 0] = Ret e ∧ endpoints_wf e.
Proof. apply endpoints_stay_well_formed. repeat constructor; simpl; lia. Defined.

Lemma targets_filter e now :
  (targets e now).1 = address <$> filter (λ entry, (if existsb (λ entry, negb (selective e) || is_selected entry) (entries (prune e now))
    then negb (selective e) || is_selected entry
    else bool_decide (Some (address entry) = address <$> max_by seen (entries (prune e now)))) = true)
    (entries (prune e now)).
Proof. unfold targets. cbn [fst]. by destruct (existsb _ _). Qed.

(** ** Addresses come from what was observed *)

Section known.
Context (known : SocketAddr → Prop).

Definition knows_only (e : Endpoints) : Prop := ∀ x, x ∈ entries e → known (address x).

Lemma prune_known e now : knows_only e → knows_only (prune e now).
Proof. intros He x Hx. apply He. by apply list_elem_of_filter in Hx as [_ ?]. Qed.

Lemma update_known P f l l' :
  (∀ x, x ∈ l → known (address x)) → (∀ x, address (f x) = address x) →
  update_first P f l = Some l' → ∀ x, x ∈ l' → known (address x).
Proof.
  intros Hl Hf Hu. apply update_first_spec in Hu as (a & x & b & -> & -> & _).
  intros y Hy. apply elem_of_app in Hy as [Hy|Hy]; [apply Hl; set_solver|].
  apply elem_of_cons in Hy as [->|Hy]; [rewrite Hf|]; apply Hl; set_solver.
Qed.

Lemma observe_known e a now : knows_only e → known a → knows_only (observe e a now).
Proof.
  intros He Ha. apply (prune_known e now) in He. unfold observe.
  destruct (update_first _ _ _) as [l|] eqn:Eu.
  - intros x Hx. by refine (update_known _ _ _ _ He _ Eu x Hx).
  - intros x Hx. cbn [with_entries entries] in Hx. apply elem_of_snoc in Hx as [Hx| ->]; [|done]. apply He.
    destruct (CAPACITY <=? _); [|done]. rewrite <-(sort_by_perm seen).
    destruct (sort_by seen _); [done|]. by apply elem_of_cons; right.
Qed.

Lemma apply_known e a p h q now e' :
  knows_only e → known a → apply e a p h q now = Ret e' → knows_only e'.
Proof.
  intros He Ha. unfold apply. destruct (idx _ _) as [previous|]; [|done]. cbn [mbind run_bind].
  destruct (match previous with Some _ => _ | None => _ end); [by intros [= <-]|].
  set (e1 := mk_endpoints (filter _ _) _ _).
  assert (knows_only (observe e1 a now)) as H1.
  { apply observe_known; [|done]. intros x Hx. apply He. by apply list_elem_of_filter in Hx as [_ ?]. }
  destruct (update_first _ _ _) as [l|] eqn:Eu; [|done]. intros [= <-].
  intros x Hx. by refine (update_known _ _ _ _ H1 _ Eu x Hx).
Qed.

Lemma targets_known e now :
  knows_only e → Forall known (targets e now).1 ∧ knows_only (targets e now).2.
Proof.
  intros He. split; [|by apply prune_known]. rewrite targets_filter. apply Forall_forall.
  intros a (x & -> & Hx)%list_elem_of_fmap. apply list_elem_of_filter in Hx as [_ Hx].
  by apply (prune_known e now He).
Qed.

Lemma repair_target_known e now turn :
  knows_only e →
  (∀ a, (repair_target e now turn).1 = Some a → known a) ∧ knows_only (repair_target e now turn).2.
Proof.
  intros He. unfold repair_target. apply (prune_known e now) in He. cbn zeta.
  destruct (negb _); [done|]. destruct (zlen _ =? 0).
  - destruct (targets_known (prune e now) now He) as [Hf Hk].
    destruct (targets _ _) as [ts e']. cbn [fst snd] in *. split; [|done].
    intros a Ha. destruct ts as [|b ts]; [done|]. injection Ha as <-. by apply Forall_inv in Hf.
  - split; [|done]. cbn [fst]. intros a Ha.
    destruct (get _ _) as [x|] eqn:Ex; [|done]. injection Ha as <-.
    unfold get in Ex. case_match; [|done]. apply list_elem_of_lookup_2 in Ex.
    unfold eligible in Ex. apply list_elem_of_filter in Ex as [_ Ex]. by apply He.
Qed.
End known.

Lemma targets_wf e now : endpoints_wf e → endpoints_wf (targets e now).2.
Proof. apply prune_wf. Qed.

Lemma repair_target_wf e now turn : endpoints_wf e → endpoints_wf (repair_target e now turn).2.
Proof.
  intros He. unfold repair_target. cbn zeta. apply (prune_wf e now) in He.
  destruct (negb _); [done|]. destruct (_ =? 0); [|done]. cbn [targets snd]. by apply prune_wf.
Qed.

Lemma filter_unique (l : list Endpoint) x :
  NoDup (address <$> l) → x ∈ l →
  filter (λ y, bool_decide (Some (address y) = Some (address x)) = true) l = [x].
Proof.
  intros Hn Hx. apply list_elem_of_split in Hx as (a & b & ->).
  rewrite fmap_app in Hn. cbn [fmap list_fmap] in Hn.
  apply NoDup_app in Hn as (_ & Hd & Hn). apply NoDup_cons in Hn as [Hn _].
  rewrite filter_app, filter_cons_True by (by rewrite bool_decide_eq_true).
  rewrite !filter_none; [done| |].
  - intros y Hy Heq%bool_decide_eq_true. apply Hn. replace (address x) with (address y) by congruence.
    by apply list_elem_of_fmap_2.
  - intros y Hy Heq%bool_decide_eq_true. apply (Hd (address y)); [by apply list_elem_of_fmap_2|].
    replace (address y) with (address x) by congruence. apply list_elem_of_here.
Qed.

(** Replies go exactly where the client wants them and never into the void:
    to every live address before any policy, then to the selected live ones, and
    when none is selected to the single most recently seen one; there is no
    destination only when no address was seen in the last 45 seconds. *)
Theorem replies_follow_selection e now (He : endpoints_wf e) :
  let alive := filter (λ x, since now (seen x) <= TTL) (entries e) in
  let sent := (targets e now).1 in
  (sent = [] ↔ alive = []) ∧ NoDup sent ∧
  (selective e = false → sent = address <$> alive) ∧
  (selective e = true → existsb is_selected alive = true →
     sent = address <$> filter (λ x, is_selected x = true) alive) ∧
  (selective e = true → existsb is_selected alive = false → alive ≠ [] →
     ∃ x, sent = [address x] ∧ x ∈ alive ∧ ∀ y, y ∈ alive → seen y <= seen x).
Proof.
  cbn zeta. rewrite targets_filter. change (entries (prune e now)) with
    (filter (λ x, since now (seen x) <= TTL) (entries e)).
  assert (NoDup (address <$> filter (λ x, since now (seen x) <= TTL) (entries e))) as Hnd
    by apply (ew_addresses _ (prune_wf e now He)).
  set (alive := filter _ (entries e)) in *.
  assert (∀ P : Endpoint → bool, NoDup (address <$> filter (λ x, P x = true) alive)) as Hsub.
  { intros P. eapply sublist_NoDup; [exact Hnd|]. apply sublist_fmap, sublist_filter. }
  split_and!.
  - split; [|by intros ->]. intros Hnil. apply fmap_nil_inv in Hnil.
    destruct (existsb _ alive) eqn:Ex.
    + apply existsb_exists in Ex as (x & Hx%list_elem_of_In & Hs).
      exfalso. eapply filter_nil_not_elem_of; [exact Hnil|exact Hs|exact Hx].
    + pose proof (max_by_spec seen alive) as Hm. destruct (max_by seen alive) as [x|]; [|done].
      destruct Hm as [Hx _]. exfalso. eapply filter_nil_not_elem_of; [exact Hnil| |exact Hx].
      by apply bool_decide_eq_true.
  - apply (Hsub (λ x, if existsb _ alive then _ else _)).
  - intros ->. cbn [negb orb]. destruct alive as [|x l] eqn:Ea; [done|]. cbn [existsb orb].
    rewrite <-Ea. f_equal. by apply filter_all.
  - intros ->. cbn [negb orb]. intros Hex. change (existsb (λ entry : Endpoint, is_selected entry) alive) with (existsb is_selected alive).
    by rewrite Hex.
  - intros ->. cbn [negb orb]. intros Hex Hne.
    pose proof (max_by_spec seen alive) as Hm. change (existsb (λ entry : Endpoint, is_selected entry) alive) with (existsb is_selected alive). rewrite Hex.
    destruct (max_by seen alive) as [x|]; [|done]. destruct Hm as [Hx Hmax].
    exists x. split; [|done]. cbn [fmap option_fmap option_map]. by rewrite filter_unique.
Qed.

Definition sample_endpoints : Endpoints :=
  mk_endpoints
    [mk_endpoint ([x01], 7) 5 (Some (PathPolicy.mk 0 true)) true;
     mk_endpoint ([x02], 7) 6 (Some (PathPolicy.mk 1 false)) true] (replicate 64 None) true.

Lemma sample_endpoints_wf : endpoints_wf sample_endpoints.
Proof.
  split; [apply (bool_decide_unpack _); by vm_compute|by vm_compute|done| |done].
  intros x y p q Hx Hy. cbn in Hx, Hy. set_unfold in Hx. set_unfold in Hy.
  destruct_or!; subst; cbn; intros; simplify_eq; done.
Qed.

Lemma replies_follow_selection_witness :
  let e := sample_endpoints in
  let alive := filter (λ x, since 9 (seen x) <= TTL) (entries e) in
  let sent := (targets e 9).1 in
  (sent = [] ↔ alive = []) ∧ NoDup sent ∧
  (selective e = false → sent = address <$> alive) ∧
  (selective e = true → existsb is_selected alive = true →
     sent = address <$> filter (λ x, is_selected x = true) alive) ∧
  (selective e = true → existsb is_selected alive = false → alive ≠ [] →
     ∃ x, sent = [address x] ∧ x ∈ alive ∧ ∀ y, y ∈ alive → seen y <= seen x).
Proof. apply replies_follow_selection. apply sample_endpoints_wf. Defined.

(** A repair copy takes a spare path when one is healthy: its target is a
    live, healthy address with a policy seen in the last three seconds, a spare
    one whenever a spare qualifies; successive turns visit every candidate; and
    with no candidate it goes where the replies go. *)
Theorem repairs_take_spare_paths e now turn (Hsel : selective e = true) (Ht : 0 <= turn) :
  let candidates := eligible (prune e now) now in
  (∀ a, candidates ≠ [] → (repair_target e now turn).1 = Some a →
     ∃ x, x ∈ entries e ∧ address x = a ∧ since now (seen x) <= TTL ∧ fresh now x = true ∧
       ((∃ y, y ∈ entries (prune e now) ∧ fresh now y = true ∧ spare y = true) → spare x = true)) ∧
  (∀ x, x ∈ candidates → ∃ k, 0 <= k < zlen candidates ∧
     (repair_target e now (turn + k)).1 = Some (address x)) ∧
  (candidates = [] → (repair_target e now turn).1 = head (targets e now).1).
Proof.
  cbn zeta. unfold repair_target. change (selective (prune e now)) with (selective e). rewrite Hsel.
  cbn [negb]. set (c := eligible (prune e now) now).
  assert (prune (prune e now) now = prune e now) as Hpp.
  { unfold prune, with_entries. cbn [entries policy_sequences selective]. f_equal.
    apply filter_all. by intros x [? _]%list_elem_of_filter. }
  assert (∀ x, x ∈ c → x ∈ entries (prune e now) ∧ fresh now x = true ∧
    ((∃ y, y ∈ entries (prune e now) ∧ fresh now y = true ∧ spare y = true) → spare x = true)) as Hc.
  { intros x [Hx Hin]%list_elem_of_filter. b2p. split_and!; [done..|].
    intros (y & Hy & Hyf & Hys). destruct (existsb _ _) eqn:Ex; [done|exfalso].
    apply not_true_iff_false in Ex. apply Ex, existsb_exists. exists y. split; [|done].
    by apply list_elem_of_In, list_elem_of_filter. }
  split_and!.
  - intros a Hne. assert (0 < zlen c) as Hpos by (destruct c; [done|]; rewrite zlen_cons; pose proof (zlen_nonneg c); lia).
    rewrite (proj2 (Z.eqb_neq _ _)) by lia. cbn [fst].
    destruct (get c _) as [x|] eqn:Eg; [|done]. intros [= <-].
    unfold get in Eg. destruct (0 <=? _); [|done]. apply list_elem_of_lookup_2, Hc in Eg as (Hx & Hf & Hs).
    exists x. apply list_elem_of_filter in Hx as [Hl Hx]. done.
  - intros x Hx. apply list_elem_of_lookup in Hx as [i Hi].
    pose proof (lookup_lt_Some _ _ _ Hi) as Hlt.
    assert (0 < zlen c) as Hpos by (unfold zlen; lia).
    exists ((Z.of_nat i - turn) mod zlen c). split; [by apply Z.mod_pos_bound|].
    rewrite (proj2 (Z.eqb_neq _ _)) by lia. cbn [fst].
    assert ((turn + (Z.of_nat i - turn) mod zlen c) mod zlen c = Z.of_nat i) as ->.
    { rewrite Zplus_mod_idemp_r. replace (turn + (Z.of_nat i - turn)) with (Z.of_nat i) by lia.
      apply Z.mod_small. unfold zlen. lia. }
    by rewrite get_lookup, Nat2Z.id, Hi by lia.
  - intros Hnil. rewrite Hnil. cbn [zlen length Z.of_nat Z.eqb].
    change (targets (prune e now) now) with (targets (prune e now) now).
    unfold targets. by rewrite Hpp.
Qed.

Lemma repairs_take_spare_paths_witness :
  let e := sample_endpoints in
  let candidates := eligible (prune e 9) 9 in
  (∀ a, candidates ≠ [] → (repair_target e 9 4).1 = Some a →
     ∃ x, x ∈ entries e ∧ address x = a ∧ since 9 (seen x) <= TTL ∧ fresh 9 x = true ∧
       ((∃ y, y ∈ entries (prune e 9) ∧ fresh 9 y = true ∧ spare y = true) → spare x = true)) ∧
  (∀ x, x ∈ candidates → ∃ k, 0 <= k < zlen candidates ∧
     (repair_target e 9 (4 + k)).1 = Some (address x)) ∧
  (candidates = [] → (repair_target e 9 4).1 = head (targets e 9).1).
Proof. apply repairs_take_spare_paths; [done|lia]. Defined.
