(* ===== verification/Auth.v ===== *)
(** * Session crypto and enrolment tokens

    Models [engine/src/auth.rs]. The AEAD, the key derivation, base64 and JSON
    are other crates: they are the interfaces [Cipher] and [Codec], with their
    documented behaviour as the laws [CipherLaws] and [CodecLaws], and everything
    this code adds (which key, which nonce, what is authenticated, which errors)
    is defined over them. [Toy] is a concrete instance for the witnesses. *)
From S2P Require Import Prelude Protocol.

(** ChaCha20-Poly1305 and HKDF-SHA256. *)
Class Cipher : Type := {
  encrypt : list byte → list byte → list byte → list byte → option (list byte);
  decrypt : list byte → list byte → list byte → list byte → option (list byte);
  derive : list byte → list byte → list byte → option (list byte)
}.

(** Decryption under a key, nonce and associated data succeeds exactly on what
    encryption under them produces. *)
Class CipherLaws `{!Cipher} : Prop := {
  decrypt_iff k n a c m : decrypt k n a c = Some m ↔ encrypt k n a m = Some c;
  encrypt_length k n a m c : encrypt k n a m = Some c → zlen c = zlen m + 16
}.

Notation Error := (list byte) (only parsing).

Definition CLIENT_TO_SERVER_NONCE : Z := 0x43545331.
Definition SERVER_TO_CLIENT_NONCE : Z := 0x53544331.

Definition nonce (prefix sequence : Z) : list byte :=
  let value := replicate 12 x00 in
  let value := paste value 0 (be_bytes 4 prefix) in
  paste value 4 (be_bytes 8 sequence).

(** [{error:?}] of a [DecodeError]. *)
Definition debug_error (e : DecodeError) : list byte :=
  match e with
  | TooShort => str "TooShort"
  | InvalidMagic => str "InvalidMagic"
  | UnsupportedVersion => str "UnsupportedVersion"
  | InvalidHeaderLength => str "InvalidHeaderLength"
  end.

Module SessionCrypto.
Section crypto.
Context `{!Cipher}.

Record t : Type := mk {
  client_to_server : list byte;
  server_to_client : list byte
}.

Definition new (pre_shared_key : list byte) (session_id : Z) : result Error t :=
  let salt := be_bytes 8 session_id in
  match derive salt pre_shared_key (str "gamepath-v1 client-to-server") with
  | None => Err (str "failed to derive client session key")
  | Some client_key =>
      match derive salt pre_shared_key (str "gamepath-v1 server-to-client") with
      | None => Err (str "failed to derive server session key")
      | Some server_key => Ok (mk client_key server_key)
      end
  end.

Definition seal (key : list byte) (prefix : Z) (header : FrameHeader) (plaintext : list byte)
    : result Error (list byte) :=
  let encoded := encode header in
  match encrypt key (nonce prefix (sequence header)) encoded plaintext with
  | None => Err (str "packet encryption failed")
  | Some ciphertext => Ok (encoded ++ ciphertext)
  end.

Definition open (key : list byte) (prefix : Z) (frame : list byte)
    : run (result Error (FrameHeader * list byte)) :=
  decoded ← decode frame;
  match decoded with
  | Err e => Ret (Err (str "invalid frame: " ++ debug_error e))
  | Ok header =>
      body ← slice frame HEADER_LEN (zlen frame);
      aad ← slice frame 0 HEADER_LEN;
      match decrypt key (nonce prefix (sequence header)) aad body with
      | None => Ret (Err (str "packet authentication failed"))
      | Some plaintext => Ret (Ok (header, plaintext))
      end
  end.

Definition seal_client (c : t) : FrameHeader → list byte → result Error (list byte) :=
  seal (client_to_server c) CLIENT_TO_SERVER_NONCE.
Definition open_client (c : t) : list byte → run (result Error (FrameHeader * list byte)) :=
  open (client_to_server c) CLIENT_TO_SERVER_NONCE.
Definition seal_server (c : t) : FrameHeader → list byte → result Error (list byte) :=
  seal (server_to_client c) SERVER_TO_CLIENT_NONCE.
Definition open_server (c : t) : list byte → run (result Error (FrameHeader * list byte)) :=
  open (server_to_client c) SERVER_TO_CLIENT_NONCE.

End crypto.
End SessionCrypto.

(** ** Enrolment tokens *)

Record EnrollmentToken : Type := mk_token {
  version : Z;
  client_id : list byte;
  pre_shared_key : list byte;
  virtual_ipv4 : list byte
}.

(** Base64 (URL-safe, no padding) and the JSON of a token. *)
Class Codec : Type := {
  b64_encode : list byte → list byte;
  b64_decode : list byte → option (list byte);
  json_encode : EnrollmentToken → option (list byte);
  json_decode : list byte → option EnrollmentToken
}.

Definition token_wf (t : EnrollmentToken) : Prop := 0 <= version t < 256 ∧ zlen (virtual_ipv4 t) = 4.

Definition is_b64 (b : byte) : bool :=
  let n := b2z b in
  (48 <=? n) && (n <=? 57) || (65 <=? n) && (n <=? 90) || (97 <=? n) && (n <=? 122)
  || (n =? 45) || (n =? 95).

Class CodecLaws `{!Codec} : Prop := {
  b64_round_trip bytes : b64_decode (b64_encode bytes) = Some bytes;
  b64_alphabet bytes : Forall (λ b, is_b64 b = true) (b64_encode bytes);
  json_round_trip t bytes : token_wf t → json_encode t = Some bytes → json_decode bytes = Some t
}.

Definition TOKEN_PREFIX : list byte := str "gpe1_".

(** [str::trim]: the UTF-8 encodings of the White_Space code points. *)
Definition WHITE_SPACE : list (list byte) :=
  [[x09]; [x0a]; [x0b]; [x0c]; [x0d]; [x20]; [xc2; x85]; [xc2; xa0]; [xe1; x9a; x80];
   [xe2; x80; x80]; [xe2; x80; x81]; [xe2; x80; x82]; [xe2; x80; x83]; [xe2; x80; x84];
   [xe2; x80; x85]; [xe2; x80; x86]; [xe2; x80; x87]; [xe2; x80; x88]; [xe2; x80; x89];
   [xe2; x80; x8a]; [xe2; x80; xa8]; [xe2; x80; xa9]; [xe2; x80; xaf]; [xe2; x81; x9f];
   [xe3; x80; x80]].

Definition strip_prefix (prefix s : list byte) : option (list byte) :=
  if bool_decide (take (length prefix) s = prefix) then Some (drop (length prefix) s) else None.

Definition strip_space (spaces : list (list byte)) (s : list byte) : option (list byte) :=
  foldr (λ w found, match strip_prefix w s with Some r => Some r | None => found end) None spaces.

Fixpoint trim_loop (fuel : nat) (spaces : list (list byte)) (s : list byte) : list byte :=
  match fuel with
  | O => s
  | S fuel' => match strip_space spaces s with Some r => trim_loop fuel' spaces r | None => s end
  end.

Definition trim_start (s : list byte) : list byte := trim_loop (length s) WHITE_SPACE s.
Definition trim_end (s : list byte) : list byte :=
  reverse (trim_loop (length s) (reverse <$> WHITE_SPACE) (reverse s)).
Definition trim (s : list byte) : list byte := trim_end (trim_start s).

Section tokens.
Context `{!Codec}.

(** The random identifier and key are the arguments. *)
Definition generate (virtual_ipv4 id key : list byte) : EnrollmentToken :=
  mk_token 1 (b64_encode id) (b64_encode key) virtual_ipv4.

Definition material (t : EnrollmentToken) : result Error (list byte * list byte) :=
  if negb (version t =? 1) then Err (str "unsupported GamePath enrollment version") else
  match b64_decode (client_id t) with
  | None => Err (str "invalid enrollment client ID")
  | Some id =>
      match b64_decode (pre_shared_key t) with
      | None => Err (str "invalid enrollment pre-shared key")
      | Some key =>
          if negb (zlen id =? 16) then Err (str "client ID must be 16 bytes")
          else if negb (zlen key =? 32) then Err (str "pre-shared key must be 32 bytes")
          else Ok (id, key)
      end
  end.

(** A JSON error carries the serialiser's own message, here [json_error]. *)
Definition encode_token (json_error : Error) (t : EnrollmentToken) : result Error (list byte) :=
  match json_encode t with
  | None => Err json_error
  | Some json => Ok (TOKEN_PREFIX ++ b64_encode json)
  end.

Definition decode_token (value : list byte) : result Error EnrollmentToken :=
  match strip_prefix TOKEN_PREFIX (trim value) with
  | None => Err (str "invalid GamePath enrollment token prefix")
  | Some payload =>
      match b64_decode payload with
      | None => Err (str "invalid GamePath enrollment token encoding")
      | Some json =>
          match json_decode json with
          | None => Err (str "invalid GamePath enrollment token payload")
          | Some token => _ ← material token; Ok token
          end
      end
  end.
End tokens.

(** ** Proofs *)

#[global] Arguments nonce : simpl never.

Lemma nonce_layout p s : nonce p s = be_bytes 4 p ++ be_bytes 8 s.
Proof. reflexivity. Qed.

(** No two (direction, sequence) pairs share a nonce. *)
Lemma nonce_inj p s p' s' :
  0 <= p < 2 ^ 32 → 0 <= s < 2 ^ 64 → 0 <= p' < 2 ^ 32 → 0 <= s' < 2 ^ 64 →
  nonce p s = nonce p' s' → p = p' ∧ s = s'.
Proof.
  intros Hp Hs Hp' Hs'. rewrite !nonce_layout. intros H.
  apply app_inj_1 in H as [H1 H2]; [|done].
  split; [apply (be_bytes_inj 4)|apply (be_bytes_inj 8)]; try done;
    change (256 ^ Z.of_nat 4) with (2 ^ 32); change (256 ^ Z.of_nat 8) with (2 ^ 64); lia.
Qed.

(** A buffer splits at the header. *)
Lemma split_frame (e rest : list byte) :
  zlen e = HEADER_LEN →
  slice (e ++ rest) HEADER_LEN (zlen (e ++ rest)) = Ret rest ∧ slice (e ++ rest) 0 HEADER_LEN = Ret e.
Proof.
  intros He. split.
  - apply (slice_eq _ e rest []); [by rewrite app_nil_r|done|rewrite zlen_app; lia].
  - by apply (slice_eq _ [] e rest).
Qed.

Section session_crypto.
Context `{!Cipher, !CipherLaws}.

Lemma open_seal key prefix h m frame rest :
  header_wf h → SessionCrypto.seal key prefix h m = Ok frame → rest = frame →
  SessionCrypto.open key prefix rest = Ret (Ok (h, m)).
Proof.
  intros Hwf Hs ->. unfold SessionCrypto.seal in Hs.
  destruct (encrypt _ _ _ _) as [c|] eqn:Ec; [|done].
  assert (frame = encode h ++ c) as -> by congruence. clear Hs. unfold SessionCrypto.open. rewrite decode_encode by done. cbn [mbind run_bind].
  destruct (split_frame (encode h) c (zlen_encode _ (proj1 (proj2 Hwf)))) as [-> ->].
  cbn [mbind run_bind].
  by rewrite (proj2 (decrypt_iff _ _ _ _ _) Ec).
Qed.

Lemma seal_of_open key prefix frame h m :
  SessionCrypto.open key prefix frame = Ret (Ok (h, m)) →
  header_wf h ∧ SessionCrypto.seal key prefix h m = Ok frame.
Proof.
  unfold SessionCrypto.open. destruct (decode frame) as [[h'|e]|] eqn:Ed; [|done|done].
  cbn [mbind run_bind]. apply decode_inv in Ed as (Hwf & rest & ->).
  destruct (split_frame (encode h') rest (zlen_encode _ (proj1 (proj2 Hwf)))) as [-> ->].
  cbn [mbind run_bind].
  destruct (decrypt _ _ _ _) as [m'|] eqn:Em; [|done].
  intros Hh. assert (h' = h ∧ m' = m) as [-> ->] by (split; congruence).
  split; [done|]. unfold SessionCrypto.seal. by rewrite (proj1 (decrypt_iff _ _ _ _ _) Em).
Qed.

Lemma open_total key prefix frame : ∃ r, SessionCrypto.open key prefix frame = Ret r.
Proof.
  unfold SessionCrypto.open. destruct (decode_total frame) as [[h|e] Ed]; rewrite Ed; cbn [mbind run_bind]; [|eauto].
  apply decode_inv in Ed as (Hwf & rest & ->).
  destruct (split_frame (encode h) rest (zlen_encode _ (proj1 (proj2 Hwf)))) as [-> ->].
  cbn [mbind run_bind].
  destruct (decrypt _ _ _ _); eauto.
Qed.

Lemma open_header key prefix frame h' h m :
  SessionCrypto.open key prefix frame = Ret (Ok (h, m)) → decode frame = Ret (Ok h') → h' = h ∧ header_wf h.
Proof.
  unfold SessionCrypto.open. intros Ho Hd. rewrite Hd in Ho. cbn [mbind run_bind] in Ho.
  destruct (slice _ HEADER_LEN _); [|done]. destruct (slice _ 0 _); [|done]. cbn [mbind run_bind] in Ho.
  destruct (decrypt _ _ _ _); [|done]. assert (h' = h) as -> by congruence. split; [done|].
  by apply decode_inv in Hd as [? _].
Qed.

Lemma open_wf key prefix frame h m :
  SessionCrypto.open key prefix frame = Ret (Ok (h, m)) → header_wf h.
Proof.
  intros Ho. destruct (decode_total frame) as [[h'|e] Hd].
  - by destruct (open_header key prefix frame h' h m Ho Hd).
  - unfold SessionCrypto.open in Ho. by rewrite Hd in Ho.
Qed.
End session_crypto.

(** *** Trimming *)

Lemma strip_own_prefix w s : strip_prefix w (w ++ s) = Some s.
Proof. unfold strip_prefix. by rewrite take_app_length, drop_app_length, bool_decide_true. Qed.

Lemma trim_loop_spaces spaces ws s fuel :
  (∀ w r, w ∈ spaces → strip_space spaces (w ++ r) = Some r) →
  strip_space spaces s = None → Forall (.∈ spaces) ws → (length ws <= fuel)%nat →
  trim_loop fuel spaces (mjoin ws ++ s) = s.
Proof.
  intros Hspaces Hs Hws. revert fuel.
  induction Hws as [|w ws Hw Hws IH]; intros fuel Hf; simpl in Hf.
  - destruct fuel; [done|]. cbn [mjoin list_join app trim_loop]. by rewrite Hs.
  - destruct fuel as [|fuel]; [lia|]. cbn [mjoin list_join trim_loop]. rewrite <-app_assoc.
    rewrite Hspaces by done. apply IH. lia.
Qed.

(** No space starts with a byte of the base64 alphabet. *)
Definition foreign (w : list byte) : bool := match w with x :: _ => negb (is_b64 x) | [] => false end.

Lemma strip_space_foreign spaces b s :
  Forall (λ w, foreign w = true) spaces → is_b64 b = true → strip_space spaces (b :: s) = None.
Proof.
  intros Hf Hb. induction Hf as [|w spaces Hw Hf IH]; [done|].
  unfold strip_space in *. cbn [foldr]. rewrite IH. destruct w as [|x w]; [done|].
  unfold strip_prefix. rewrite bool_decide_false; [done|]. intros [= -> ?]. simpl in Hw. by rewrite Hb in Hw.
Qed.

Lemma length_mjoin {A} (ws : list (list A)) :
  Forall (λ w, w ≠ []) ws → (length ws <= length (mjoin ws))%nat.
Proof.
  induction 1 as [|w ws Hw Hws IH]; [done|].
  change (mjoin (w :: ws)) with (w ++ mjoin ws). rewrite length_app. destruct w; simpl; [done|lia].
Qed.

Lemma mjoin_snoc {A} (ws : list (list A)) w : mjoin (ws ++ [w]) = mjoin ws ++ w.
Proof. rewrite join_app. cbn [mjoin list_join]. by rewrite app_nil_r. Qed.

Lemma reverse_mjoin {A} (ws : list (list A)) : reverse (mjoin ws) = mjoin (reverse (reverse <$> ws)).
Proof.
  induction ws as [|w ws IH]; [done|]. change (mjoin (w :: ws)) with (w ++ mjoin ws).
  rewrite fmap_cons, reverse_app, IH, reverse_cons. by rewrite mjoin_snoc.
Qed.

Lemma white_space_strips w r : w ∈ WHITE_SPACE → strip_space WHITE_SPACE (w ++ r) = Some r.
Proof.
  intros Hw. unfold WHITE_SPACE in Hw.
  repeat (apply elem_of_cons in Hw as [->|Hw]; [vm_compute; reflexivity|]). by apply elem_of_nil in Hw.
Qed.

Lemma white_space_rev_strips w r :
  w ∈ reverse <$> WHITE_SPACE → strip_space (reverse <$> WHITE_SPACE) (w ++ r) = Some r.
Proof.
  intros (w' & -> & Hw)%list_elem_of_fmap. unfold WHITE_SPACE in Hw.
  repeat (apply elem_of_cons in Hw as [->|Hw]; [vm_compute; reflexivity|]). by apply elem_of_nil in Hw.
Qed.

Lemma trim_spaced before after v :
  Forall (.∈ WHITE_SPACE) before → Forall (.∈ WHITE_SPACE) after →
  v ≠ [] → Forall (λ b, is_b64 b = true) v →
  trim (mjoin before ++ v ++ mjoin after) = v.
Proof.
  intros Hb Ha Hv Halpha.
  assert (∀ ws, Forall (.∈ WHITE_SPACE) ws → Forall (λ w, w ≠ []) ws) as Hne.
  { intros ws Hws. eapply Forall_impl; [exact Hws|]. intros w Hw ->. by vm_compute in Hw; set_solver. }
  unfold trim, trim_start. rewrite trim_loop_spaces with (ws := before).
  - unfold trim_end. rewrite reverse_app, reverse_mjoin, trim_loop_spaces.
    + apply reverse_involutive.
    + apply white_space_rev_strips.
    + destruct (reverse v) as [|b r] eqn:Er; [by apply (f_equal reverse) in Er; rewrite reverse_involutive in Er|].
      apply strip_space_foreign; [by vm_compute; repeat constructor|].
      assert (b ∈ v) as Hb' by (rewrite <-(reverse_involutive v), Er; apply elem_of_reverse, list_elem_of_here).
      rewrite Forall_forall in Halpha. by apply Halpha.
    + apply Forall_reverse. apply Forall_fmap. eapply Forall_impl; [exact Ha|].
      intros w Hw. by apply list_elem_of_fmap_2.
    + rewrite length_app, length_reverse, length_fmap. apply Hne, length_mjoin in Ha. lia.
  - apply white_space_strips.
  - destruct v as [|b v]; [done|]. apply strip_space_foreign; [by vm_compute; repeat constructor|].
    by apply Forall_inv in Halpha.
  - done.
  - rewrite length_app. apply Hne, length_mjoin in Hb. lia.
Qed.

(** A concrete cipher for the witnesses: the message in clear, then a 16-byte tag
    that the key, nonce, associated data and message determine. *)
Module Toy.
Definition tag (k n a m : list byte) : list byte :=
  be_bytes 16 (be_Z k + 3 * be_Z n + 5 * be_Z a + 7 * be_Z m).
Definition toy_encrypt (k n a m : list byte) : option (list byte) := Some (m ++ tag k n a m).
Definition toy_decrypt (k n a c : list byte) : option (list byte) :=
  let m := take (length c - 16) c in
  if bool_decide (m ++ tag k n a m = c) then Some m else None.
#[export] Instance cipher : Cipher := {|
  encrypt := toy_encrypt; decrypt := toy_decrypt; derive salt k info := Some (salt ++ k ++ info)
|}.
#[export] Instance cipher_laws : CipherLaws.
Proof.
  split.
  - intros k n a c m. unfold decrypt, encrypt, cipher, toy_decrypt, toy_encrypt. split.
    + case_bool_decide as E; [|done]. intros [= Hm]. by rewrite Hm in E; rewrite E.
    + intros [= <-]. rewrite length_app. change (length (tag k n a m)) with 16%nat.
      rewrite Nat.add_sub, take_app_length. by rewrite bool_decide_true.
  - intros k n a m c [= <-]. by rewrite zlen_app.
Qed.
End Toy.

(** A concrete serialisation: nibbles as letters, and fixed-width fields. *)
Module ToyCodec.
Definition letters (b : byte) : list byte := [z2b (65 + b2z b / 16); z2b (65 + b2z b mod 16)].
Definition toy_b64 (l : list byte) : list byte := l ≫= letters.
Fixpoint toy_unb64 (l : list byte) : option (list byte) :=
  match l with
  | [] => Some []
  | hi :: lo :: l' =>
      rest ← toy_unb64 l'; Some (z2b ((b2z hi - 65) * 16 + (b2z lo - 65)) :: rest)
  | _ => None
  end.
Definition toy_json (t : EnrollmentToken) : option (list byte) :=
  if (zlen (client_id t) =? 32) && (zlen (pre_shared_key t) =? 64)
  then Some (z2b (version t) :: client_id t ++ pre_shared_key t ++ virtual_ipv4 t) else None.
Definition toy_unjson (l : list byte) : option EnrollmentToken :=
  match l with
  | v :: l => Some (mk_token (b2z v) (sub l 0 32) (sub l 32 96) (sub l 96 (zlen l)))
  | [] => None
  end.
#[export] Instance codec : Codec :=
  {| b64_encode := toy_b64; b64_decode := toy_unb64; json_encode := toy_json; json_decode := toy_unjson |}.

Lemma letters_alphabet b : Forall (λ b, is_b64 b = true) (letters b).
Proof. destruct b; vm_compute; repeat constructor. Qed.

#[export] Instance codec_laws : CodecLaws.
Proof.
  split; unfold b64_encode, b64_decode, json_encode, json_decode, codec.
  - intros l. induction l as [|b l IH]; [done|]. unfold toy_b64 in *. rewrite bind_cons.
    change (letters b ++ (l ≫= letters))
      with (z2b (65 + b2z b / 16) :: z2b (65 + b2z b mod 16) :: (l ≫= letters)).
    cbn [toy_unb64]. rewrite IH. cbn [mbind option_bind]. do 2 f_equal. destruct b; reflexivity.
  - intros l. induction l as [|b l IH]; [constructor|]. unfold toy_b64 in *. rewrite bind_cons.
    apply Forall_app. split; [apply letters_alphabet|done].
  - intros [v i k a] l [Hv _]. unfold toy_json. cbn [client_id pre_shared_key version virtual_ipv4] in *.
    case_match; [|done]. b2p. intros [= <-]. unfold toy_unjson. f_equal. f_equal.
    + rewrite b2z_z2b. by apply Z.mod_small.
    + by apply (sub_eq _ [] i (k ++ a)).
    + apply (sub_eq _ i k a); [done|lia..].
    + apply (sub_eq _ (i ++ k) a []); [by rewrite app_nil_r, app_assoc|len..].
Qed.
End ToyCodec.

Lemma material_ok `{!Codec} t id key :
  material t = Ok (id, key) → version t = 1 ∧ zlen id = 16 ∧ zlen key = 32.
Proof.
  unfold material. destruct (Z.eqb_spec (version t) 1); [|done]. cbn [negb].
  destruct (b64_decode (client_id t)) as [i|]; [|done].
  destruct (b64_decode (pre_shared_key t)) as [k|]; [|done].
  destruct (Z.eqb_spec (zlen i) 16); [|done]. destruct (Z.eqb_spec (zlen k) 32); [|done].
  cbn [negb]. intros [= <- <-]. done.
Qed.

(** ** Properties *)

(** Opening inverts sealing and nothing else opens, in both directions of a
    session: [open_client] (and [open_server]) returns a header and a plaintext
    exactly on the frame that sealing them produces, and returns, never panics,
    on every datagram. *)
Theorem open_iff_sealed `{!Cipher} (laws : CipherLaws) c frame h m :
  (SessionCrypto.open_client c frame = Ret (Ok (h, m)) ↔
     header_wf h ∧ SessionCrypto.seal_client c h m = Ok frame) ∧
  (SessionCrypto.open_server c frame = Ret (Ok (h, m)) ↔
     header_wf h ∧ SessionCrypto.seal_server c h m = Ok frame) ∧
  (∃ r, SessionCrypto.open_client c frame = Ret r) ∧ (∃ r, SessionCrypto.open_server c frame = Ret r).
Proof.
  split_and!; try apply open_total; split; try apply seal_of_open; intros [Hwf Hs]; by eapply open_seal.
Qed.

Definition toy_session : SessionCrypto.t := SessionCrypto.mk (replicate 32 x01) (replicate 32 x02).
Definition toy_header : FrameHeader := mk_header 0 (replicate 16 x07) 5 9.
Definition toy_frame : list byte :=
  encode toy_header ++ str "hi" ++
  Toy.tag (replicate 32 x01) (nonce CLIENT_TO_SERVER_NONCE 9) (encode toy_header) (str "hi").

Lemma open_iff_sealed_witness :
  @SessionCrypto.open_client Toy.cipher toy_session toy_frame = Ret (Ok (toy_header, str "hi")).
Proof.
  apply (proj1 (open_iff_sealed Toy.cipher_laws toy_session toy_frame toy_header (str "hi"))).
  split; [|by vm_compute]. by vm_compute.
Defined.

(** An enrolment token survives its text form, also when it is pasted with
    white space around it: a generated token, encoded, decodes to itself, and a
    text that decodes always carries a version 1 token whose identifier is 16
    bytes and whose key is 32. *)
Theorem token_round_trip `{!Codec} (laws : CodecLaws) ip id key json_error text before after :
  zlen ip = 4 → zlen id = 16 → zlen key = 32 →
  encode_token json_error (generate ip id key) = Ok text →
  Forall (.∈ WHITE_SPACE) before → Forall (.∈ WHITE_SPACE) after →
  decode_token (mjoin before ++ text ++ mjoin after) = Ok (generate ip id key) ∧
  material (generate ip id key) = Ok (id, key) ∧
  ∀ pasted token, decode_token pasted = Ok token →
    version token = 1 ∧ ∃ id' key', material token = Ok (id', key') ∧ zlen id' = 16 ∧ zlen key' = 32.
Proof.
  intros Hip Hid Hkey Ht Hb Ha.
  assert (Hm : material (generate ip id key) = Ok (id, key)).
  { unfold material, generate. cbn. rewrite !b64_round_trip. by rewrite Hid, Hkey. }
  split_and!; [|done|].
  - unfold encode_token in Ht. destruct (json_encode _) as [json|] eqn:Ej; [|done].
    assert (text = TOKEN_PREFIX ++ b64_encode json) as -> by congruence.
    unfold decode_token. rewrite trim_spaced; [|done..|].
    + rewrite strip_own_prefix, b64_round_trip, (json_round_trip (generate ip id key)); [|by split|done].
      by rewrite Hm.
    + apply Forall_app. split; [by vm_compute; repeat constructor|apply b64_alphabet].
  - intros pasted token. unfold decode_token. destruct (strip_prefix _ _); [|done].
    destruct (b64_decode _); [|done]. destruct (json_decode _) as [t|]; [|done].
    destruct (material t) as [[id' key']|] eqn:Em; cbn [mbind result_bind]; [|done].
    intros [= <-]. pose proof (material_ok _ _ _ Em) as (? & ? & ?). split; [done|]. by exists id', key'.
Qed.

Lemma token_round_trip_witness :
  @decode_token ToyCodec.codec
    (mjoin [[x20]] ++
     TOKEN_PREFIX ++ ToyCodec.toy_b64 (default [] (ToyCodec.toy_json
        (@generate ToyCodec.codec [x0a; x00; x00; x02] (replicate 16 x07) (replicate 32 x09)))) ++
     mjoin [[x0d]; [x0a]]) =
  Ok (@generate ToyCodec.codec [x0a; x00; x00; x02] (replicate 16 x07) (replicate 32 x09)).
Proof.
  refine (proj1 (token_round_trip ToyCodec.codec_laws [x0a; x00; x00; x02] (replicate 16 x07)
    (replicate 32 x09) [] (TOKEN_PREFIX ++ ToyCodec.toy_b64 (default [] (ToyCodec.toy_json
        (@generate ToyCodec.codec [x0a; x00; x00; x02] (replicate 16 x07) (replicate 32 x09)))))
    [[x20]] [[x0d]; [x0a]] eq_refl eq_refl eq_refl eq_refl _ _)); eapply bool_decide_unpack; vm_compute; exact I.
Defined.
