(* ===== verification/Relay.v ===== *)
(** * Relay

    Models [relay/src/main.rs]: the state of the relay's clients and sessions and
    its three loops, the datagrams from clients ([handle_frame]), the packets that
    come back from the TUN ([forward_reply]) and the repair flusher
    ([flush_repairs]). What the loops send, write and wake is their output, in
    order; each reading of a clock is the next of a stream. *)
From S2P Require Import Prelude Protocol Replay Fec Icmp Fragments Mtu Endpoints Auth.

Definition MAX_PACKET : Z := 65535.
Definition MIN_REPLY_MTU : Z := 576.
Definition SESSION_TTL : Z := secs 180.
Definition MAX_SESSIONS_PER_CLIENT : Z := 8.
Definition REPAIR_IDLE_WAIT : Z := ms 250.

(** ** State *)

Record ClientRecord : Type := mk_record {
  name : list byte;
  record_version : Z;
  record_client_id : list byte;
  record_key : list byte;
  record_ipv4 : list byte
}.

Definition token (r : ClientRecord) : EnrollmentToken :=
  mk_token (record_version r) (record_client_id r) (record_key r) (record_ipv4 r).

Record RepairState : Type := mk_repair {
  encoder : Encoder.t;
  decoder : Decoder.t;
  offer_sequence : Z;
  recovered : Z
}.

Record SessionState : Type := mk_session {
  replay : ReplayWindow;
  endpoints : Endpoints;
  outbound_sequence : Z;
  repair_turn : Z;
  last_seen : Z;
  rejected_frames : Z;
  repair : option RepairState;
  reply_mtu : option Z;
  fragments : Reassembler
}.

Record RelayClient : Type := mk_client {
  record : ClientRecord;
  client_id : list byte;
  key : list byte;
  sessions : gmap Z SessionState
}.

(** [HashMap<[u8; 16], RelayClient>]. *)
Notation Clients := (gmap (list byte) RelayClient).

(** Assignments to one field. *)
Definition with_replay (s : SessionState) (x : ReplayWindow) : SessionState :=
  mk_session x (endpoints s) (outbound_sequence s) (repair_turn s) (last_seen s)
    (rejected_frames s) (repair s) (reply_mtu s) (fragments s).
Definition with_endpoints (s : SessionState) (x : Endpoints) : SessionState :=
  mk_session (replay s) x (outbound_sequence s) (repair_turn s) (last_seen s)
    (rejected_frames s) (repair s) (reply_mtu s) (fragments s).
Definition with_outbound (s : SessionState) (x : Z) : SessionState :=
  mk_session (replay s) (endpoints s) x (repair_turn s) (last_seen s)
    (rejected_frames s) (repair s) (reply_mtu s) (fragments s).
Definition with_turn (s : SessionState) (x : Z) : SessionState :=
  mk_session (replay s) (endpoints s) (outbound_sequence s) x (last_seen s)
    (rejected_frames s) (repair s) (reply_mtu s) (fragments s).
Definition with_seen (s : SessionState) (x : Z) : SessionState :=
  mk_session (replay s) (endpoints s) (outbound_sequence s) (repair_turn s) x
    (rejected_frames s) (repair s) (reply_mtu s) (fragments s).
Definition with_rejected (s : SessionState) (x : Z) : SessionState :=
  mk_session (replay s) (endpoints s) (outbound_sequence s) (repair_turn s) (last_seen s)
    x (repair s) (reply_mtu s) (fragments s).
Definition with_repair (s : SessionState) (x : option RepairState) : SessionState :=
  mk_session (replay s) (endpoints s) (outbound_sequence s) (repair_turn s) (last_seen s)
    (rejected_frames s) x (reply_mtu s) (fragments s).
Definition with_reply_mtu (s : SessionState) (x : option Z) : SessionState :=
  mk_session (replay s) (endpoints s) (outbound_sequence s) (repair_turn s) (last_seen s)
    (rejected_frames s) (repair s) x (fragments s).
Definition with_fragments (s : SessionState) (x : Reassembler) : SessionState :=
  mk_session (replay s) (endpoints s) (outbound_sequence s) (repair_turn s) (last_seen s)
    (rejected_frames s) (repair s) (reply_mtu s) x.

Definition with_encoder (r : RepairState) (x : Encoder.t) : RepairState :=
  mk_repair x (decoder r) (offer_sequence r) (recovered r).
Definition with_decoder (r : RepairState) (x : Decoder.t) : RepairState :=
  mk_repair (encoder r) x (offer_sequence r) (recovered r).

Definition with_sessions (c : RelayClient) (x : gmap Z SessionState) : RelayClient :=
  mk_client (record c) (client_id c) (key c) x.

(** ** Effects: clock readings and output *)

(** [socket.send_to], [tun.send] and [repair_wake.notify_one]; the code ignores
    or only logs their errors. *)
Inductive event : Type :=
| Send (frame : list byte) (to : SocketAddr)
| Tun (packet : list byte)
| Wake.

Record World : Type := mk_world {
  ticks : nat;
  events : list event
}.

Definition io (A : Type) : Type := World → run (A * World).

#[export] Instance io_ret : MRet io := λ A a w, Ret (a, w).
#[export] Instance io_bind : MBind io := λ A B (f : A → io B) (m : io A) w,
  match m w with Ret (a, w') => f a w' | Panic => Panic end.

(** The state of a session threaded through a computation. *)
Definition lift {A} (m : run A) : io A :=
  λ w, match m with Ret a => Ret (a, w) | Panic => Panic end.

Definition emit (e : event) : io unit :=
  λ w, Ret ((), mk_world (ticks w) (events w ++ [e])).

Definition send_all (frame : list byte) (addresses : list SocketAddr) : io unit :=
  λ w, Ret ((), mk_world (ticks w) (events w ++ (Send frame <$> addresses))).

Lemma io_bind_Ret {A B} (m : io A) (f : A → io B) w a w' :
  m w = Ret (a, w') → (m ≫= f) w = f a w'.
Proof. intros Hm. unfold mbind, io_bind. by rewrite Hm. Qed.

(** ** Packets *)

Definition ipv4_source (packet : list byte) : option (list byte) :=
  if (zlen packet <? 20) || negb (nz packet 0 / 16 =? 4) then None
  else Some (sub packet 12 16).

Definition ipv4_destination (packet : list byte) : option (list byte) :=
  if (zlen packet <? 20) || negb (nz packet 0 / 16 =? 4) then None
  else Some (sub packet 16 20).

Definition reply_repair_limit (o : Offer) : Z :=
  Z.min (offer_mtu o) (relay_tun_mtu LINK_MTU).

Definition new_repair (o : Offer) : RepairState :=
  mk_repair (Encoder.new (offer_group o) (reply_repair_limit o)) Decoder.empty 0 0.

(** ** Sessions and the loops over them *)

Section relay.
Context `{!Cipher}.

(** The readings of [Instant::now], and of the wall clock in microseconds since
    the epoch, [None] before it. *)
Context (clock : nat → Z) (wall : nat → option Z).

Definition tick : io nat := λ w, Ret (ticks w, mk_world (S (ticks w)) (events w)).
Definition instant_now : io Z := k ← tick; mret (clock k).

Definition fresh_outbound_sequence : io Z :=
  k ← tick; mret (match wall k with Some micros => wrap64 micros | None => 0 end).

Definition new_session : io SessionState :=
  outbound ← fresh_outbound_sequence;
  seen ← instant_now;
  mret (mk_session default_window default_endpoints outbound 0 seen 0 None None default_reassembler).

(** The eviction loop; [fuel] bounds the sessions it can remove. *)
Fixpoint evict (fuel : nat) (sessions : gmap Z SessionState) : gmap Z SessionState :=
  match fuel with
  | O => sessions
  | S fuel' =>
      if zsize sessions <? MAX_SESSIONS_PER_CLIENT then sessions else
      match min_by (λ kv, last_seen kv.2) (map_to_list sessions) with
      | None => sessions
      | Some (oldest, _) => evict fuel' (delete oldest sessions)
      end
  end.

(** The session admitted, with the client that holds it. *)
Definition admit_session (c : RelayClient) (session_id now : Z) : io (SessionState * RelayClient) :=
  let kept := filter (λ kv, since now (last_seen kv.2) <= SESSION_TTL) (sessions c) in
  match kept !! session_id with
  | Some s => mret (s, with_sessions c kept)
  | None =>
      let kept := evict (size kept) kept in
      s ← new_session;
      mret (s, with_sessions c (<[session_id := s]> kept))
  end.

Definition bump (s : SessionState) : SessionState :=
  with_outbound s (wrap64 (outbound_sequence s + 1)).

Definition fan_out (s : SessionState) (crypto : SessionCrypto.t) (client_id : list byte)
    (session_id flags : Z) (payload : list byte) : io (option Z * SessionState) :=
  now ← instant_now;
  let '(target, s) :=
    if has_flag flags FLAG_REPAIR
    then let '(target, e) := repair_target (endpoints s) now (repair_turn s) in
         (target, with_turn (with_endpoints s e) (wrap64 (repair_turn s + 1)))
    else (None, s) in
  let '(addresses, e) := targets (endpoints s) now in
  let s := with_endpoints s e in
  if bool_decide (addresses = []) then mret (None, s) else
  let s := bump s in
  let header := mk_header (Z.lor flags FLAG_SERVER_TO_CLIENT) client_id session_id
                  (outbound_sequence s) in
  match SessionCrypto.seal_server crypto header payload with
  | Err _ => mret (None, s)
  | Ok frame =>
      _ ← send_all frame (match target with Some address => [address] | None => addresses end);
      mret (Some (outbound_sequence s), s)
  end.

(** A control reply to the address a control frame came from. *)
Definition control_reply (s : SessionState) (crypto : SessionCrypto.t) (client_id : list byte)
    (session_id : Z) (payload : list byte) (endpoint : SocketAddr) : io SessionState :=
  let s := bump s in
  let header := mk_header (Z.lor FLAG_CONTROL FLAG_SERVER_TO_CLIENT) client_id session_id
                  (outbound_sequence s) in
  match SessionCrypto.seal_server crypto header payload with
  | Err _ => mret s
  | Ok frame => _ ← emit (Send frame endpoint); mret s
  end.

Definition observe_endpoint (s : SessionState) (endpoint : SocketAddr) : io SessionState :=
  now ← instant_now;
  mret (with_seen (with_endpoints s (observe (endpoints s) endpoint now)) now).

Definition stateless_probe_reply (c : RelayClient) (crypto : SessionCrypto.t)
    (header : FrameHeader) (plaintext : list byte) : io (option (list byte)) :=
  if negb (has_flag (Protocol.flags header) FLAG_CONTROL)
     || bool_decide (is_Some (sessions c !! session_id header))
  then mret None else
  match probe_response plaintext with
  | None => mret None
  | Some response =>
      outbound ← fresh_outbound_sequence;
      let reply := mk_header (Z.lor FLAG_CONTROL FLAG_SERVER_TO_CLIENT) (client_id c)
                     (session_id header) outbound in
      mret (match SessionCrypto.seal_server crypto reply response with
            | Ok frame => Some frame
            | Err _ => None
            end)
  end.

(** [None]: not a path policy, so the frame is handled otherwise. *)
Definition apply_path_policy (s : SessionState) (crypto : SessionCrypto.t) (header : FrameHeader)
    (plaintext : list byte) (endpoint : SocketAddr) : io (option SessionState) :=
  match PathPolicy.parse plaintext with
  | None => mret None
  | Some policy =>
      now ← instant_now;
      e ← lift (apply (endpoints s) endpoint policy
                  (negb (has_flag (Protocol.flags header) FLAG_PATH_UNHEALTHY))
                  (sequence header) now);
      s ← control_reply (with_endpoints s e) crypto (Protocol.client_id header) (session_id header)
            PathPolicy.accept endpoint;
      mret (Some s)
  end.

Definition apply_repair_offer (s : SessionState) (crypto : SessionCrypto.t)
    (client_id : list byte) (session_id offered_by : Z) (o : Offer) (endpoint : SocketAddr)
    : io SessionState :=
  let r := default (new_repair o) (repair s) in
  let newer := offer_sequence r <=? offered_by in
  '(closed, r) ← lift (if newer then
      let e := Encoder.set_max_packet (encoder r) (reply_repair_limit o) in
      '(closed, e) ← Encoder.set_group_size e (offer_group o);
      Ret (closed, mk_repair e (decoder r) offered_by (recovered r))
    else Ret (None, r));
  let applied := Encoder.group_size (encoder r) in
  let s := with_repair s (Some r) in
  let s := if newer then with_reply_mtu s (Some (Z.max (offer_mtu o) MIN_REPLY_MTU)) else s in
  s ← (match closed with
       | Some payload => '(_, s) ← fan_out s crypto client_id session_id FLAG_REPAIR payload; mret s
       | None => mret s
       end);
  control_reply s crypto client_id session_id (accept applied) endpoint.

(** ** Towards the TUN *)

Definition rebuilt (f : Reassembler) (packet : list byte) : io (option (list byte) * Reassembler) :=
  if is_fragment packet
  then now ← instant_now; lift (push f packet now)
  else mret (Some packet, f).

Definition write_to_tun (f : Reassembler) (packet : list byte) : io Reassembler :=
  '(whole, f) ← rebuilt f packet;
  match whole with
  | None => mret f
  | Some whole => _ ← emit (Tun whole); mret f
  end.

Definition write_session (s : SessionState) (packet : list byte) : io SessionState :=
  f ← write_to_tun (fragments s) packet; mret (with_fragments s f).

Definition admit_rebuilt (s : SessionState) (virtual_ipv4 : list byte) (sequence : Z)
    (packet : list byte) : io SessionState :=
  if negb (bool_decide (ipv4_source packet = Some virtual_ipv4)) then mret s else
  let '(accepted, window) := Replay.accept (replay s) sequence in
  let s := with_replay s window in
  if negb accepted then mret s else
  s ← write_session s packet;
  match repair s with
  | None => mret s
  | Some r =>
      d ← lift (Decoder.remember (decoder r) sequence packet);
      mret (with_repair s (Some (mk_repair (encoder r) d (offer_sequence r) (recovered r + 1))))
  end.

(** Sequences the replay window has no use for count as delivered. *)
Definition delivered (s : SessionState) (q : Z) : bool := negb (would_accept (replay s) q).

(** The loop ends because each repair it resolves leaves the pending ones; a
    fuel that ran out would count as a panic. *)
Fixpoint retry_loop (fuel : nat) (s : SessionState) (virtual_ipv4 : list byte) : io SessionState :=
  match fuel with
  | O => lift Panic
  | S fuel' =>
      match repair s with
      | None => mret s
      | Some r =>
          if negb (Decoder.has_pending (decoder r)) then mret s else
          now ← instant_now;
          let '(found, d) := Decoder.retry_pending (decoder r) now (delivered s) in
          let s := with_repair s (Some (with_decoder r d)) in
          match found with
          | None => mret s
          | Some (sequence, packet) =>
              s ← admit_rebuilt s virtual_ipv4 sequence packet;
              retry_loop fuel' s virtual_ipv4
          end
      end
  end.

Definition pending_count (s : SessionState) : nat :=
  match repair s with Some r => length (Decoder.pending (decoder r)) | None => 0 end.

Definition retry_pending_repairs (s : SessionState) (virtual_ipv4 : list byte) : io SessionState :=
  retry_loop (S (pending_count s)) s virtual_ipv4.

(** ** The loops *)

(** An authenticated frame that its session has not seen before. *)
Definition handle_accepted (s : SessionState) (crypto : SessionCrypto.t) (client_id : list byte)
    (virtual_ipv4 : list byte) (header : FrameHeader) (plaintext : list byte)
    (endpoint : SocketAddr) : io SessionState :=
  if has_flag (Protocol.flags header) FLAG_CONTROL then
    applied ← apply_path_policy s crypto header plaintext endpoint;
    match applied with
    | Some s => mret s
    | None =>
        match parse_offer plaintext with
        | Some o =>
            apply_repair_offer s crypto client_id (session_id header) (sequence header) o endpoint
        | None =>
            match probe_response plaintext with
            | None => mret s
            | Some response =>
                control_reply s crypto client_id (session_id header) response endpoint
            end
        end
    end
  else if has_flag (Protocol.flags header) FLAG_REPAIR then
    match repair s with
    | None => mret s
    | Some r =>
        now ← instant_now;
        let '(found, d) := Decoder.accept_repair (decoder r) plaintext now (delivered s) in
        let s := with_repair s (Some (with_decoder r d)) in
        s ← (match found with
             | Some (sequence, packet) => admit_rebuilt s virtual_ipv4 sequence packet
             | None => mret s
             end);
        retry_pending_repairs s virtual_ipv4
    end
  else if negb (bool_decide (ipv4_source plaintext = Some virtual_ipv4)) then mret s else
  s ← write_session s plaintext;
  match repair s with
  | None => mret s
  | Some r =>
      d ← lift (Decoder.remember (decoder r) (sequence header) plaintext);
      retry_pending_repairs (with_repair s (Some (with_decoder r d))) virtual_ipv4
  end.

(** The part of [serve]'s loop that has a session: an authenticated frame. *)
Definition handle_admitted (s : SessionState) (crypto : SessionCrypto.t) (client_id : list byte)
    (virtual_ipv4 : list byte) (header : FrameHeader) (plaintext : list byte)
    (endpoint : SocketAddr) : io SessionState :=
  s ← observe_endpoint s endpoint;
  let '(accepted, window) := Replay.accept (replay s) (sequence header) in
  let s := with_replay s window in
  if negb accepted then mret (with_rejected s (rejected_frames s + 1)) else
  handle_accepted s crypto client_id virtual_ipv4 header plaintext endpoint.

(** One turn of [serve]'s loop, on the datagram received from [endpoint]. *)
Definition handle_frame (clients : Clients) (frame : list byte) (endpoint : SocketAddr)
    : io Clients :=
  if zlen frame <? HEADER_LEN + 16 then mret clients else
  decoded ← lift (decode frame);
  match decoded with
  | Err _ => mret clients
  | Ok header =>
      if has_flag (Protocol.flags header) FLAG_SERVER_TO_CLIENT then mret clients else
      match clients !! Protocol.client_id header with
      | None => mret clients
      | Some c =>
          match SessionCrypto.new (key c) (session_id header) with
          | Err _ => mret clients
          | Ok crypto =>
              opened ← lift (SessionCrypto.open_client crypto frame);
              match opened with
              | Err _ => mret clients
              | Ok (verified, plaintext) =>
                  reply ← stateless_probe_reply c crypto verified plaintext;
                  match reply with
                  | Some reply => _ ← emit (Send reply endpoint); mret clients
                  | None =>
                      now ← instant_now;
                      '(s, c) ← admit_session c (session_id header) now;
                      s ← handle_admitted s crypto (client_id c) (record_ipv4 (record c))
                            verified plaintext endpoint;
                      mret (<[Protocol.client_id header :=
                               with_sessions c (<[session_id header := s]> (sessions c))]> clients)
                  end
              end
          end
      end
  end.

Definition send_reply (s : SessionState) (crypto : SessionCrypto.t) (client_id : list byte)
    (session_id : Z) (packet : list byte) : io SessionState :=
  '(sent, s) ← fan_out s crypto client_id session_id 0 packet;
  match sent, repair s with
  | Some sequence, Some r =>
      let idle := bool_decide (Encoder.deadline (encoder r) = None) in
      now ← instant_now;
      '(closed, e) ← lift (Encoder.push (encoder r) sequence packet now);
      _ ← (if idle && bool_decide (is_Some (Encoder.deadline e)) then emit Wake else mret ());
      let s := with_repair s (Some (with_encoder r e)) in
      match closed with
      | None => mret s
      | Some payload => '(_, s) ← fan_out s crypto client_id session_id FLAG_REPAIR payload; mret s
      end
  | _, _ => mret s
  end.

Fixpoint send_pieces (s : SessionState) (crypto : SessionCrypto.t) (client_id : list byte)
    (session_id : Z) (pieces : list (list byte)) : io SessionState :=
  match pieces with
  | [] => mret s
  | piece :: pieces' =>
      s ← send_reply s crypto client_id session_id piece;
      send_pieces s crypto client_id session_id pieces'
  end.

(** A reply through the session's link: split if it would not cross whole. *)
Definition session_reply (s : SessionState) (crypto : SessionCrypto.t) (client_id : list byte)
    (session_id : Z) (packet : list byte) : io SessionState :=
  let pieces := mtu ← reply_mtu s; split_for_tunnel packet mtu in
  send_pieces s crypto client_id session_id (default [packet] pieces).

Definition forward_reply (clients : Clients) (packet : list byte) : io Clients :=
  match ipv4_destination packet with
  | None => mret clients
  | Some destination =>
      match list_find (λ kv : list byte * RelayClient, record_ipv4 (record kv.2) = destination)
                      (map_to_list clients) with
      | None => mret clients
      | Some (_, (id, c)) =>
          match max_by (λ kv, last_seen kv.2) (map_to_list (sessions c)) with
          | None => mret clients
          | Some (session_id, s) =>
              match SessionCrypto.new (key c) session_id with
              | Err _ => mret clients
              | Ok crypto =>
                  s ← session_reply s crypto (client_id c) session_id packet;
                  mret (<[id := with_sessions c (<[session_id := s]> (sessions c))]> clients)
              end
          end
      end
  end.

(** The flusher's visit to one session: [next] is the earliest deadline so far. *)
Definition flush_session (now : Z) (c : RelayClient) (session_id : Z) (s : SessionState)
    (next : option Z) : io (option Z * SessionState) :=
  match repair s with
  | None => mret (next, s)
  | Some r =>
      '(due, e) ← lift (Encoder.flush_due (encoder r) now);
      let s := with_repair s (Some (with_encoder r e)) in
      match due with
      | Some payload =>
          match SessionCrypto.new (key c) session_id with
          | Err _ => mret (next, s)
          | Ok crypto =>
              '(_, s) ← fan_out s crypto (client_id c) session_id FLAG_REPAIR payload;
              mret (next, s)
          end
      | None =>
          mret (match Encoder.deadline e with
                | Some deadline =>
                    Some (match next with Some n => Z.min n deadline | None => deadline end)
                | None => next
                end, s)
      end
  end.

Fixpoint flush_sessions (now : Z) (c : RelayClient) (visit : list (Z * SessionState))
    (next : option Z) (sessions : gmap Z SessionState) : io (option Z * gmap Z SessionState) :=
  match visit with
  | [] => mret (next, sessions)
  | (session_id, s) :: visit' =>
      '(next, s) ← flush_session now c session_id s next;
      flush_sessions now c visit' next (<[session_id := s]> sessions)
  end.

Fixpoint flush_clients (now : Z) (visit : list (list byte * RelayClient)) (next : option Z)
    (clients : Clients) : io (option Z * Clients) :=
  match visit with
  | [] => mret (next, clients)
  | (id, c) :: visit' =>
      '(next, ss) ← flush_sessions now c (map_to_list (sessions c)) next (sessions c);
      flush_clients now visit' next (<[id := with_sessions c ss]> clients)
  end.

(** One turn of the flusher: the clients, and how long it may sleep. *)
Definition flush_repairs (clients : Clients) : io (Z * Clients) :=
  now ← instant_now;
  '(next, clients) ← flush_clients now (map_to_list clients) None clients;
  later ← instant_now;
  mret (match next with Some deadline => sat_sub deadline later | None => REPAIR_IDLE_WAIT end,
        clients).

End relay.

(** ** Reasoning about a session

    A computation on a session keeps the session's invariant, adds events, and
    issues sequences one after the other. *)

(** The headers of the datagrams that a client at [vip] may have in pieces. *)
Definition sourced (vip h : list byte) : Prop :=
  20 <= zlen h ∧ nz h 0 / 16 = 4 ∧ sub h 12 16 = vip.

Definition repair_ok (r : RepairState) : Prop :=
  (∃ g, opens (encoder r) g) ∧ stores (decoder r) ∧ zlen (Decoder.pending (decoder r)) <= PENDING_CAPACITY ∧
  Forall seqs_wf (Decoder.pending (decoder r)).

Section invariant.
Context (vip : list byte) (known : SocketAddr → Prop).

Record session_ok (s : SessionState) : Prop := {
  so_replay : ∃ r, represents (replay s) r;
  so_endpoints : endpoints_wf (endpoints s);
  so_known : knows_only known (endpoints s);
  so_outbound : 0 <= outbound_sequence s < 2 ^ 64;
  so_turn : 0 <= repair_turn s;
  so_repair : ∀ r, repair s = Some r → repair_ok r;
  so_mtu : ∀ m, reply_mtu s = Some m → MIN_REPLY_MTU <= m <= u16_max;
  so_bounded : bounded (fragments s);
  so_sourced : headers_in (sourced vip) (fragments s)
}.
End invariant.

Section progress.
Context `{!Cipher} (clock : nat → Z) (wall : nat → option Z).
Context (crypto : SessionCrypto.t) (cid vip : list byte) (sid : Z) (known : SocketAddr → Prop).

(** [f] is the frame that carries sequence [q] of the session. *)
Definition sealed_as (f : list byte) (q : Z) : Prop :=
  ∃ flags payload, 0 <= flags < 2 ^ 8 ∧ SessionCrypto.seal_server crypto
    (mk_header (Z.lor flags FLAG_SERVER_TO_CLIENT) cid sid q) payload = Ok f.

(** From [s] to [s'], the sequences after [s]'s were issued one by one, each to the
    frame listed or to none; [evs] sends only those frames, to known addresses,
    and writes only packets from [vip]. What was a duplicate remains one. *)
Record progress (s s' : SessionState) (issued : list (option (list byte))) (evs : list event)
    : Prop := {
  pg_outbound : outbound_sequence s' = wrap64 (outbound_sequence s + zlen issued);
  pg_sends : ∀ f a, Send f a ∈ evs → known a ∧ Some f ∈ issued;
  pg_sealed : ∀ i f, issued !! i = Some (Some f) →
    sealed_as f (wrap64 (outbound_sequence s + Z.of_nat i + 1));
  pg_tun : ∀ p, Tun p ∈ evs → ipv4_source p = Some vip;
  pg_seen : ∀ q, 0 <= q → would_accept (replay s) q = false → would_accept (replay s') q = false
}.

Lemma progress_refl s s' :
  outbound_sequence s' = outbound_sequence s → 0 <= outbound_sequence s < 2 ^ 64 →
  replay s' = replay s → progress s s' [] [].
Proof.
  intros Ho Hr Hw. split; [|set_solver|done|set_solver|by rewrite Hw].
  change (zlen []) with 0. unfold wrap64. rewrite Z.mod_small; lia.
Qed.

Lemma progress_trans s s1 s2 is1 is2 es1 es2 :
  progress s s1 is1 es1 → progress s1 s2 is2 es2 → progress s s2 (is1 ++ is2) (es1 ++ es2).
Proof.
  intros [O1 S1 E1 T1 D1] [O2 S2 E2 T2 D2]. split.
  - rewrite O2, O1, zlen_app. unfold wrap64. rewrite Zplus_mod_idemp_l. f_equal. lia.
  - intros f a [Hin|Hin]%elem_of_app; [apply S1 in Hin as [??]|apply S2 in Hin as [??]];
      (split; [done|]); apply elem_of_app; auto.
  - intros i f Hi. apply lookup_app_Some in Hi as [Hi|[Hl Hi]]; [by apply E1|].
    apply E2 in Hi. rewrite O1 in Hi. revert Hi. unfold wrap64.
    rewrite <-Z.add_assoc, Zplus_mod_idemp_l. intros Hi.
    match goal with Hx : sealed_as f (?x mod _) |- sealed_as f (?y mod _) => replace y with x; [done|] end.
    unfold zlen. lia.
  - intros p [Hin|Hin]%elem_of_app; auto.
  - auto.
Qed.

(** [m] runs from the good session [s] to the good session [st a], using at most
    [n] sequences, with an answer [a] that satisfies [Q]. *)
Definition runs {A} (s : SessionState) (n : Z) (st : A → SessionState) (Q : A → Prop) (m : io A)
    : Prop :=
  ∀ w, ∃ a w' issued evs, m w = Ret (a, w') ∧ events w' = events w ++ evs ∧
    session_ok vip known (st a) ∧ progress s (st a) issued evs ∧ zlen issued <= n ∧ Q a.

Lemma runs_ret {A} s n st Q (a : A) :
  0 <= n → session_ok vip known (st a) → outbound_sequence (st a) = outbound_sequence s →
  replay (st a) = replay s → Q a → runs s n st Q (mret a).
Proof.
  intros Hn Hok Ho Hr HQ w. exists a, w, [], []. rewrite app_nil_r. split_and!; try done.
  apply progress_refl; [done| |done]. rewrite <-Ho. apply Hok.
Qed.

Lemma runs_bind {A B} s n n' st st' Q Q' (m : io A) (f : A → io B) :
  runs s n st Q m → (∀ a, session_ok vip known (st a) → Q a → runs (st a) n' st' Q' (f a)) →
  runs s (n + n') st' Q' (m ≫= f).
Proof.
  intros Hm Hf w. destruct (Hm w) as (a & w1 & is1 & es1 & Hm1 & He1 & Hok1 & Hp1 & Hn1 & HQ1).
  destruct (Hf a Hok1 HQ1 w1) as (b & w2 & is2 & es2 & Hm2 & He2 & Hok2 & Hp2 & Hn2 & HQ2).
  exists b, w2, (is1 ++ is2), (es1 ++ es2). split_and!; try done.
  - by rewrite (io_bind_Ret _ _ _ _ _ Hm1).
  - by rewrite He2, He1, app_assoc.
  - by eapply progress_trans.
  - rewrite zlen_app. lia.
Qed.

(** Starting from a session that differs in nothing [progress] speaks of. *)
Lemma runs_from {A} s s1 n st Q (m : io A) :
  outbound_sequence s1 = outbound_sequence s → replay s1 = replay s →
  runs s1 n st Q m → runs s n st Q m.
Proof.
  intros Ho Hr Hm w. destruct (Hm w) as (a & w1 & is1 & es1 & H1 & H2 & H3 & [O S E T D] & H5 & H6).
  exists a, w1, is1, es1. split_and!; try done. split; [by rewrite <-Ho|done| |done|by rewrite <-Hr].
  intros. rewrite <-Ho. by apply E.
Qed.

Lemma runs_weaken {A} s n n' st Q (Q' : A → Prop) (m : io A) :
  runs s n st Q m → n <= n' → (∀ a, Q a → Q' a) → runs s n' st Q' m.
Proof.
  intros Hm Hn HQ w. destruct (Hm w) as (a & w1 & is1 & es1 & H1 & H2 & H3 & H4 & H5 & H6).
  exists a, w1, is1, es1. split_and!; try done; [lia|auto].
Qed.

Lemma runs_now {A} s n st Q (f : Z → io A) :
  (∀ now, runs s n st Q (f now)) → runs s n st Q (instant_now clock ≫= f).
Proof. intros Hf w. apply (Hf (clock (ticks w)) (mk_world (S (ticks w)) (events w))). Qed.

Lemma runs_lift {A B} s n st Q (m : run A) a (f : A → io B) :
  m = Ret a → runs s n st Q (f a) → runs s n st Q (lift m ≫= f).
Proof. intros -> Hf w. apply (Hf w). Qed.

(** The frame with the next sequence, sent to known addresses. *)
Lemma runs_send {A} s n st Q flags payload frame addresses (m : io A) :
  0 <= flags < 2 ^ 8 →
  SessionCrypto.seal_server crypto
    (mk_header (Z.lor flags FLAG_SERVER_TO_CLIENT) cid sid (outbound_sequence (bump s))) payload = Ok frame →
  Forall known addresses →
  runs (bump s) n st Q m → runs s (1 + n) st Q (send_all frame addresses ≫= λ _, m).
Proof.
  intros Hf Hs Ha Hm w. rewrite Forall_forall in Ha.
  destruct (Hm (mk_world (ticks w) (events w ++ (Send frame <$> addresses))))
    as (a & w1 & is1 & es1 & H1 & H2 & H3 & H4 & H5 & H6).
  exists a, w1, ([Some frame] ++ is1), ((Send frame <$> addresses) ++ es1). split_and!; try done.
  - by rewrite H2, app_assoc.
  - eapply progress_trans; [|exact H4]. split; try done.
    + intros f b (b' & [= -> ->] & Hb)%list_elem_of_fmap. split; [by apply Ha|set_solver].
    + intros [|i] f; [|done]. intros [= <-]. exists flags, payload. by rewrite Z.add_0_r.
    + intros p (b & Hb & _)%list_elem_of_fmap. done.
  - rewrite zlen_app. change (zlen [Some frame]) with 1. lia.
Qed.

(** The next sequence spent on nothing. *)
Lemma runs_skip {A} s n st Q (m : io A) : runs (bump s) n st Q m → runs s (1 + n) st Q m.
Proof.
  intros Hm w. destruct (Hm w) as (a & w1 & is1 & es1 & H1 & H2 & H3 & H4 & H5 & H6).
  exists a, w1, ([None] ++ is1), ([] ++ es1). split_and!; try done.
  - eapply progress_trans; [|exact H4]. split; try done; [set_solver| |set_solver].
    by intros [|i] f.
  - rewrite zlen_app. change (zlen [None]) with 1. lia.
Qed.

Lemma runs_tun {A} s n st Q p (m : io A) :
  ipv4_source p = Some vip → 0 <= outbound_sequence s < 2 ^ 64 →
  runs s n st Q m → runs s n st Q (emit (Tun p) ≫= λ _, m).
Proof.
  intros Hp Ho Hm w. destruct (Hm (mk_world (ticks w) (events w ++ [Tun p])))
    as (a & w1 & is1 & es1 & H1 & H2 & H3 & H4 & H5 & H6).
  exists a, w1, ([] ++ is1), ([Tun p] ++ es1). split_and!; try done.
  - by rewrite H2, app_assoc.
  - eapply progress_trans; [|exact H4]. split; try done.
    + change (zlen []) with 0. unfold wrap64. rewrite Z.mod_small; lia.
    + intros f a' Hin. apply list_elem_of_singleton in Hin. done.
    + intros p' Hin. apply list_elem_of_singleton in Hin. by injection Hin as ->.
Qed.

Lemma runs_wake {A} s n st Q (m : io A) :
  0 <= outbound_sequence s < 2 ^ 64 →
  runs s n st Q m → runs s n st Q (emit Wake ≫= λ _, m).
Proof.
  intros Ho Hm w. destruct (Hm (mk_world (ticks w) (events w ++ [Wake])))
    as (a & w1 & is1 & es1 & H1 & H2 & H3 & H4 & H5 & H6).
  exists a, w1, ([] ++ is1), ([Wake] ++ es1). split_and!; try done.
  - by rewrite H2, app_assoc.
  - eapply progress_trans; [|exact H4]. split; try done.
    + change (zlen []) with 0. unfold wrap64. rewrite Z.mod_small; lia.
    + intros f a' Hin. apply list_elem_of_singleton in Hin. done.
    + intros p' Hin. apply list_elem_of_singleton in Hin. done.
Qed.

Notation ok := (session_ok vip known).
Notation runs_here s n Q m := (runs s n (λ s, s) Q m).

Lemma bump_range s : 0 <= outbound_sequence (bump s) < 2 ^ 64.
Proof. cbn [bump with_outbound outbound_sequence]. apply Z.mod_pos_bound. lia. Qed.

Lemma bump_ok s : ok s → ok (bump s).
Proof. intros []. split; try done. apply bump_range. Qed.

Lemma runs_replay {A} s n st (Q : A → Prop) q m :
  ok s → 0 <= q → runs (with_replay s (Replay.accept (replay s) q).2) n st Q m → runs s n st Q m.
Proof.
  intros Hok Hq Hm w. destruct (Hm w) as (a & w1 & is1 & es1 & H1 & H2 & H3 & [O S E T D] & H5 & H6).
  exists a, w1, is1, es1. split_and!; try done. split; [done..|].
  intros p Hp Hw. apply D; [done|]. destruct (so_replay _ _ _ Hok) as [r Hr]. by eapply rejected_stays.
Qed.

Lemma replay_ok s q : ok s → 0 <= q → ok (with_replay s (Replay.accept (replay s) q).2).
Proof.
  intros [] Hq. split; try done. cbn [with_replay replay].
  destruct so_replay0 as [r Hr]. eexists. by apply (accept_represents _ r q).
Qed.

Lemma endpoints_ok s e : ok s → endpoints_wf e → knows_only known e → ok (with_endpoints s e).
Proof. intros [] ??. by split. Qed.

Lemma with_repair_ok s r : ok s → repair_ok r → ok (with_repair s (Some r)).
Proof. intros [] ?. split; try done. by intros ? [= <-]. Qed.

Lemma fan_out_runs s flags payload :
  ok s → 0 <= flags < 2 ^ 8 → runs s 1 snd (λ r, ∀ q, r.1 = Some q → 0 <= q < 2 ^ 64)
           (fan_out clock s crypto cid sid flags payload).
Proof.
  intros Hok Hflags. unfold fan_out. apply runs_now. intros now.
  set (pick := if has_flag flags FLAG_REPAIR then _ else _).
  assert (∃ target s1, pick = (target, s1) ∧ ok s1 ∧ outbound_sequence s1 = outbound_sequence s ∧
    replay s1 = replay s ∧ ∀ a, target = Some a → known a) as (target & s1 & -> & Hok1 & Ho & Hr & Ht).
  { unfold pick. destruct (has_flag _ _); [|by exists None, s].
    destruct (repair_target_known known (endpoints s) now (repair_turn s)) as [Ha Hk]; [apply Hok|].
    pose proof (repair_target_wf (endpoints s) now (repair_turn s) (so_endpoints _ _ _ Hok)) as Hw.
    destruct (repair_target _ _ _) as [target e]. do 2 eexists. split; [reflexivity|].
    split; [|done]. destruct Hok. split; try done. apply Z.mod_pos_bound. lia. }
  destruct (targets_known known (endpoints s1) now (so_known _ _ _ Hok1)) as [Ha Hk].
  pose proof (targets_wf (endpoints s1) now (so_endpoints _ _ _ Hok1)) as Hw.
  destruct (targets _ _) as [addresses e]. cbn [fst snd] in *.
  set (s2 := with_endpoints s1 e). assert (ok s2) as Hok2 by (by apply endpoints_ok).
  apply (runs_from _ s2); [done|done|].
  case_bool_decide; [by apply runs_ret|].
  destruct (SessionCrypto.seal_server _ _ _) as [frame|] eqn:Es.
  - apply (runs_send s2 0 _ _ flags payload); [done|done| |].
    + destruct target as [a|]; [|done]. constructor; [by apply Ht|done].
    + apply runs_ret; [done|by apply bump_ok|done..|]. intros q [= <-]. apply bump_range.
  - apply (runs_skip s2 0). by apply runs_ret; [done|apply bump_ok|..].
Qed.

Lemma control_reply_runs s payload endpoint :
  ok s → known endpoint → runs_here s 1 (λ _, True) (control_reply s crypto cid sid payload endpoint).
Proof.
  intros Hok He. unfold control_reply. destruct (SessionCrypto.seal_server _ _ _) as [frame|] eqn:Es.
  - apply (runs_send s 0 _ _ FLAG_CONTROL payload frame [endpoint]); [done|done|by constructor|].
    by apply runs_ret; [done|apply bump_ok|..].
  - apply (runs_skip s 0). by apply runs_ret; [done|apply bump_ok|..].
Qed.

Lemma observe_runs s endpoint :
  ok s → known endpoint → runs_here s 0 (λ s', replay s' = replay s) (observe_endpoint clock s endpoint).
Proof.
  intros Hok He. unfold observe_endpoint. apply runs_now. intros now.
  apply runs_ret; try done. destruct Hok. split; try done.
  - by apply observe_observed.
  - by apply observe_known.
Qed.

Lemma path_policy_runs s header plaintext endpoint :
  ok s → known endpoint → Protocol.client_id header = cid → session_id header = sid →
  runs s 1 (default s) (λ r, r = None ∨ is_Some r)
    (apply_path_policy clock s crypto header plaintext endpoint).
Proof.
  intros Hok He Hc Hs. unfold apply_path_policy. rewrite Hc, Hs.
  destruct (PathPolicy.parse plaintext) as [p|] eqn:Ep; [|by apply runs_ret; auto].
  apply runs_now. intros now.
  destruct (apply_wf (endpoints s) endpoint p (negb (has_flag (Protocol.flags header) FLAG_PATH_UNHEALTHY))
    (sequence header) now) as (e & Hap & Hwf); [apply Hok|by eapply parse_policy_wf|].
  eapply runs_lift; [exact Hap|]. set (s1 := with_endpoints s e).
  assert (ok s1) as Hok1 by (apply endpoints_ok; [done..|]; eapply apply_known; [apply Hok|done..]).
  apply (runs_from _ s1); [done..|]. rewrite <-(Z.add_0_r 1).
  eapply runs_bind; [by apply control_reply_runs|]. intros s2 Hok2 _. by apply runs_ret; eauto.
Qed.

Lemma repair_offer_runs s offered_by o endpoint :
  ok s → known endpoint → 0 <= offer_mtu o <= u16_max →
  runs_here s 2 (λ _, True) (apply_repair_offer clock s crypto cid sid offered_by o endpoint).
Proof.
  intros Hok He Ho. unfold apply_repair_offer. cbn zeta.
  set (r := default (new_repair o) (repair s)).
  assert (repair_ok r) as Hr.
  { unfold r. destruct (repair s) as [r0|] eqn:Er; [by apply Hok|]. split; [eexists; apply opens_new|].
    by repeat split; [left|..]. }
  destruct Hr as ((g & Hg) & Hst & Hp & Hq).
  destruct (set_group_opens (Encoder.set_max_packet (encoder r) (reply_repair_limit o)) g (offer_group o))
    as (closed & e & g' & Hset & Hg' & _); [by apply opens_max|].
  set (newer := offer_sequence r <=? offered_by). set (update := if newer then _ else _).
  assert (∃ closed r', update = Ret (closed, r') ∧ repair_ok r') as (c & r' & Hu & Hr').
  { unfold update. destruct newer; [|exists None, r; split; [done|]; by split; [eexists|]].
    rewrite Hset. do 2 eexists. split; [reflexivity|]. by split; [exists g'|]. }
  apply (runs_lift _ _ _ _ _ _ _ Hu).
  set (s1 := if newer then with_reply_mtu _ _ else _).
  assert (ok s1 ∧ outbound_sequence s1 = outbound_sequence s ∧ replay s1 = replay s) as (Hok1 & Ho1 & Hr1).
  { apply (with_repair_ok _ _ Hok) in Hr'. unfold s1. destruct newer; [|done]. split; [|done].
    destruct Hr'. split; try done. intros m [= <-]. unfold MIN_REPLY_MTU, u16_max in *. lia. }
  apply (runs_from _ s1); [done..|]. change 2 with (1 + 1). apply (runs_bind _ 1 1 (λ s, s) (λ s, s) (λ _, True)).
  - destruct c as [payload|]; [|by apply runs_ret].
    rewrite <-(Z.add_0_r 1). eapply runs_bind; [by apply fan_out_runs|].
    intros [q s2] Hok2 _. by apply runs_ret.
  - intros s2 Hok2 _. by apply control_reply_runs.
Qed.

(** *** Towards the TUN *)

Lemma sourced_header packet hl :
  ipv4_source packet = Some vip → 20 <= hl <= zlen packet → sourced vip (sub packet 0 hl).
Proof.
  unfold ipv4_source. destruct (_ || _) eqn:E; [done|]. b2p. intros [= <-] Hl.
  split; [rewrite zlen_sub; lia|]. split.
  - unfold nz. by rewrite get_sub by lia.
  - unfold sub. rewrite !skipn_firstn_comm, take_take. f_equal. lia.
Qed.

Lemma assemble_source h ps : sourced vip h → ipv4_source (assemble h ps) = Some vip.
Proof.
  intros (Hl & H4 & Hs). unfold ipv4_source. rewrite assemble_length by done.
  pose proof (zlen_nonneg (mjoin ps.*2)).
  assert (∀ l bs i, 20 <= zlen l → 0 <= i → zlen bs = 2 → i = 2 ∨ i = 6 ∨ i = 10 →
    20 <= zlen (paste l i bs) ∧ nz (paste l i bs) 0 = nz l 0 ∧ sub (paste l i bs) 12 16 = sub l 12 16) as Hpaste.
  { intros l bs i Hl' Hi Hb Hi'. split; [rewrite zlen_paste; lia|]. split.
    - unfold nz. by rewrite get_paste_out by lia.
    - apply list_eq. intros j. destruct (decide (j < 4)%nat).
      + assert (∀ k : list byte, sub k 12 16 !! j = get k (12 + Z.of_nat j)) as Hg.
        { intros k. unfold sub, get. rewrite lookup_take_lt, lookup_drop by lia. case_match; [|b2p; lia].
          f_equal. lia. }
        rewrite !Hg. apply get_paste_out; lia.
      + rewrite !lookup_ge_None_2; [done|..]; unfold sub; rewrite length_take; lia. }
  unfold assemble. set (d0 := h ++ mjoin ps.*2).
  assert (20 <= zlen d0) as HL0 by (unfold d0; rewrite zlen_app; lia).
  destruct (Hpaste d0 (be_bytes 2 (zlen d0)) 2) as (L1 & N1 & S1); [done|lia|done|by left|].
  set (d1 := paste d0 2 _) in *.
  destruct (Hpaste d1 (be_bytes 2 (Z.land (nz16 h 6) DONT_FRAGMENT)) 6) as (L2 & N2 & S2);
    [done|lia|done|by right; left|].
  set (d2 := paste d1 6 _) in *.
  destruct (Hpaste d2 [x00; x00] 10) as (L3 & N3 & S3); [done|lia|done|by right; right|].
  set (d3 := paste d2 10 _) in *.
  destruct (Hpaste d3 (be_bytes 2 (internet_checksum (sub d3 0 (zlen h)))) 10) as (L4 & N4 & S4);
    [done|lia|done|by right; right|].
  rewrite N4, N3, N2, N1, S4, S3, S2, S1.
  assert (nz d0 0 = nz h 0) as -> by (unfold nz, d0; rewrite get_app_l by lia; done).
  rewrite H4. rewrite (proj2 (Z.ltb_ge _ _)) by lia. cbn [orb negb Z.eqb Pos.eqb].
  f_equal. unfold d0. by rewrite (sub_app_l h) by lia.
Qed.

Lemma rebuilt_runs s packet :
  ok s → ipv4_source packet = Some vip →
  runs s 0 (λ r, with_fragments s r.2) (λ r, ∀ d, r.1 = Some d → ipv4_source d = Some vip)
    (rebuilt clock (fragments s) packet).
Proof.
  intros Hok Hp. unfold rebuilt. destruct (is_fragment packet).
  2: { apply runs_ret; [done| |done|done|by intros d [= <-]]. by destruct Hok. }
  assert (20 <= zlen packet) as Hl.
  { unfold ipv4_source in Hp. destruct (_ || _) eqn:E; [done|]. b2p. lia. }
  apply runs_now. intros now.
  destruct (push_bounded (fragments s) packet now) as (out & r' & Hpush & Hb & _); [apply Hok|lia|].
  destruct (headers_push (sourced vip) _ _ _ _ _ (so_sourced _ _ _ Hok)
    (λ hl, sourced_header packet hl Hp) Hpush) as [Hh Hd].
  rewrite Hpush. apply (runs_ret s 0 _ _ (out, r')); [done| |done|done|].
  - destruct Hok. by split.
  - intros d Ho. destruct (Hd d Ho) as (h & ps & Hs & ->). by apply assemble_source.
Qed.

Lemma write_runs s packet :
  ok s → ipv4_source packet = Some vip →
  runs_here s 0 (λ s', ∃ f, s' = with_fragments s f) (write_session clock s packet).
Proof.
  intros Hok Hp. unfold write_session, write_to_tun.
  apply (runs_bind _ 0 0 (with_fragments s) _ (λ _, True)).
  - apply (runs_bind _ 0 0 (λ r, with_fragments s r.2) _ _ _ _ _ (rebuilt_runs s packet Hok Hp)).
    intros [out f] Hok1 Hd. cbn [fst snd] in *. destruct out as [d|]; [|by apply runs_ret].
    apply runs_tun; [by apply Hd|apply Hok1|by apply runs_ret].
  - intros f Hok1 _. apply runs_ret; [done..|by exists f].
Qed.

Lemma admit_rebuilt_runs s q packet :
  ok s → 0 <= q →
  runs_here s 0 (λ s', pending_count s' = pending_count s) (admit_rebuilt clock s vip q packet).
Proof.
  intros Hok Hq. unfold admit_rebuilt. case_bool_decide as Hp; [|by apply runs_ret]. cbn [negb].
  pose proof (runs_replay s 0 (λ s, s) (λ s', pending_count s' = pending_count s) q) as Hrun.
  pose proof (replay_ok s q Hok Hq) as Hok1. destruct (Replay.accept _ _) as [accepted window].
  cbn [snd] in *. apply Hrun; [done..|]. clear Hrun.
  destruct accepted; cbn [negb]; [|by apply runs_ret].
  apply (runs_bind _ 0 0 _ _ _ _ _ _ (write_runs _ packet Hok1 Hp)). intros s2 Hok2 (f & ->).
  destruct (repair _) as [r|] eqn:Er; [|by apply runs_ret].
  destruct (so_repair _ _ _ Hok2 r Er) as ((g & Hg) & Hst & Hp' & Hs).
  destruct (remember_stores (decoder r) q packet Hst) as (d & Hd & Hst' & _ & Hpend & _).
  apply (runs_lift _ _ _ _ _ _ _ Hd). apply runs_ret; [done| |done|done|].
  - apply with_repair_ok; [done|]. cbn [repair_ok encoder decoder]. split; [by exists g|].
    cbn [decoder]. by rewrite Hpend.
  - unfold pending_count. cbn [with_repair repair decoder]. rewrite Hpend.
    cbn [with_fragments with_replay repair] in Er. by rewrite Er.
Qed.

Lemma retry_loop_runs fuel s :
  ok s → (pending_count s < fuel)%nat → runs_here s 0 (λ _, True) (retry_loop clock fuel s vip).
Proof.
  revert s. induction fuel as [|fuel IH]; intros s Hok Hf; [lia|]. cbn [retry_loop].
  destruct (repair s) as [r|] eqn:Er; [|by apply runs_ret].
  destruct (negb _); [by apply runs_ret|]. apply runs_now. intros now.
  destruct (so_repair _ _ _ Hok r Er) as (Hg & Hst & Hp & Hs).
  destruct (retry_seqs (decoder r) now (delivered s) Hs) as [Hs' Hshrink].
  destruct (retry_wf (decoder r) now (delivered s) (conj Hst Hp)) as [[Hst' Hp'] _].
  destruct (Decoder.retry_pending _ _ _) as [found d]. cbn [fst snd] in *.
  set (s1 := with_repair s (Some (with_decoder r d))).
  assert (ok s1) as Hok1 by (by apply with_repair_ok).
  apply (runs_from _ s1); [done..|].
  destruct found as [[q packet]|]; [|by apply runs_ret].
  destruct (Hshrink q packet eq_refl) as [Hq Hlen].
  apply (runs_bind _ 0 0 _ _ _ _ _ _ (admit_rebuilt_runs s1 q packet Hok1 (proj1 Hq))).
  intros s2 Hok2 Hc. apply IH; [done|]. unfold pending_count in *. cbn [s1 with_repair repair] in Hc.
  rewrite Er in Hf. cbn [with_decoder decoder] in Hc. lia.
Qed.

Lemma retry_runs s : ok s → runs_here s 0 (λ _, True) (retry_pending_repairs clock s vip).
Proof. intros Hok. apply retry_loop_runs; [done|lia]. Qed.

(** *** The loops *)

(** The sequence a frame brings is a duplicate from then on. *)
Lemma runs_consume {A} s n st (Q : A → Prop) q m :
  ok s → 0 <= q → runs (with_replay s (Replay.accept (replay s) q).2) n st Q m →
  runs s n st (λ a, would_accept (replay (st a)) q = false) m.
Proof.
  intros Hok Hq Hm. apply (runs_replay _ _ _ _ q m Hok Hq). intros w.
  destruct (Hm w) as (a & w1 & is1 & es1 & H1 & H2 & H3 & Hp & H5 & H6).
  exists a, w1, is1, es1. split_and!; try done. apply Hp; [done|].
  cbn [with_replay replay]. destruct (so_replay _ _ _ Hok) as [r Hr]. by eapply accepted_is_rejected.
Qed.

Lemma parse_offer_mtu plaintext o : parse_offer plaintext = Some o → 0 <= offer_mtu o <= u16_max.
Proof.
  unfold parse_offer. destruct (_ <? _); [done|]. destruct (Z.eqb_spec (zlen (sub plaintext CONTROL_LEN (zlen plaintext))) 2) as [El|]; [|done].
  cbn [negb]. destruct (parse_control _ _); [|done]. intros [= <-]. cbn [offer_mtu].
  pose proof (be_Z_bound (sub plaintext CONTROL_LEN (zlen plaintext))) as Hb. rewrite El in Hb.
  unfold u16_max. lia.
Qed.

Lemma remember_ok s r q packet :
  ok s → repair s = Some r → ∃ d, Decoder.remember (decoder r) q packet = Ret d ∧
    repair_ok (with_decoder r d).
Proof.
  intros Hok Er. destruct (so_repair _ _ _ Hok r Er) as (Hg & Hst & Hp & Hs).
  destruct (remember_stores (decoder r) q packet Hst) as (d & Hd & Hst' & _ & Hpend & _).
  exists d. split; [done|]. split; [done|]. cbn [with_decoder decoder]. by rewrite Hpend.
Qed.

Lemma accepted_runs s header plaintext endpoint :
  ok s → known endpoint → Protocol.client_id header = cid → session_id header = sid →
  0 <= sequence header →
  runs_here s 3 (λ _, True) (handle_accepted clock s crypto cid vip header plaintext endpoint).
Proof.
  intros Hok He Hc Hs Hq. unfold handle_accepted. rewrite Hs. destruct (has_flag _ FLAG_CONTROL).
  { apply (runs_bind _ 1 2 _ _ _ _ _ _ (path_policy_runs s header plaintext endpoint Hok He Hc Hs)).
    intros [s1|] Hok1 _; [by apply runs_ret|].
    destruct (parse_offer plaintext) as [o|] eqn:Eo.
    { apply repair_offer_runs; [done..|]. by eapply parse_offer_mtu. }
    destruct (probe_response plaintext) as [response|]; [|by apply runs_ret].
    eapply runs_weaken; [by apply control_reply_runs|done|done]. }
  apply (runs_weaken _ 0 3 _ (λ _, True)); [|done|done]. destruct (has_flag _ FLAG_REPAIR).
  { destruct (repair s) as [r|] eqn:Er; [|by apply runs_ret]. apply runs_now. intros now.
    destruct (so_repair _ _ _ Hok r Er) as (Hg & Hst & Hp & Hseqs).
    destruct (accept_repair_seqs (decoder r) plaintext now (delivered s) Hseqs) as [Hs' Hfound].
    destruct (decoder_step_wf (decoder r) (AcceptRepair plaintext now (delivered s)) (conj Hst Hp))
      as (out & d' & Hstep & [Hst' Hp'] & _). cbn [decoder_step] in Hstep.
    destruct (Decoder.accept_repair _ _ _ _) as [found d]. cbn [fst snd] in *.
    injection Hstep as -> ->. set (s1 := with_repair s (Some (with_decoder r d'))).
    assert (ok s1) as Hok1 by (by apply with_repair_ok).
    apply (runs_from _ s1); [done..|]. apply (runs_bind _ 0 0 (λ s, s) _ (λ _, True)).
    - destruct out as [[q packet]|]; [|by apply runs_ret].
      eapply runs_weaken; [apply admit_rebuilt_runs; [done|]|done|done]. by eapply Hfound.
    - intros s2 Hok2 _. by apply retry_runs. }
  case_bool_decide as Hp; [|by apply runs_ret]. cbn [negb].
  apply (runs_bind _ 0 0 _ _ _ _ _ _ (write_runs s plaintext Hok Hp)). intros s1 Hok1 _.
  destruct (repair s1) as [r|] eqn:Er; [|by apply runs_ret].
  destruct (remember_ok s1 r (sequence header) plaintext Hok1 Er) as (d & Hd & Hr).
  apply (runs_lift _ _ _ _ _ _ _ Hd). apply (runs_from _ (with_repair s1 (Some (with_decoder r d)))); [done..|].
  apply retry_runs. by apply with_repair_ok.
Qed.

Lemma admitted_runs s header plaintext endpoint :
  ok s → known endpoint → header_wf header → Protocol.client_id header = cid → session_id header = sid →
  runs_here s 3 (λ s', would_accept (replay s') (sequence header) = false)
    (handle_admitted clock s crypto cid vip header plaintext endpoint).
Proof.
  intros Hok He (_ & _ & _ & Hq) Hc Hs. unfold handle_admitted.
  apply (runs_bind _ 0 3 _ _ _ _ _ _ (observe_runs s endpoint Hok He)). intros s1 Hok1 _.
  pose proof (λ m, runs_consume s1 3 (λ s, s) (λ _, True) (sequence header) m Hok1 (proj1 Hq)) as Hrun.
  pose proof (replay_ok s1 (sequence header) Hok1 (proj1 Hq)) as Hok2.
  destruct (Replay.accept _ _) as [accepted window]. cbn [snd] in *. apply Hrun. clear Hrun.
  destruct accepted; cbn [negb].
  - apply accepted_runs; (done || lia).
  - apply runs_ret; try done. by destruct Hok2.
Qed.

Lemma send_reply_runs s packet :
  ok s → runs_here s 2 (λ _, True) (send_reply clock s crypto cid sid packet).
Proof.
  intros Hok. unfold send_reply. change 2 with (1 + 1).
  apply (runs_bind _ 1 1 _ _ _ _ _ _ (fan_out_runs s 0 packet Hok ltac:(done))). intros [sent s1] Hok1 Hq.
  cbn [fst snd] in *. destruct sent as [q|]; [|by apply runs_ret].
  destruct (repair s1) as [r|] eqn:Er; [|by apply runs_ret]. apply runs_now. intros now.
  destruct (so_repair _ _ _ Hok1 r Er) as ((g & Hg) & Hrest).
  destruct (push_opens (encoder r) g q packet now Hg (Hq q eq_refl)) as (closed & e & g' & Hpush & Hg' & _).
  apply (runs_lift _ _ _ _ _ _ _ Hpush). set (s2 := with_repair s1 (Some (with_encoder r e))).
  assert (ok s2) as Hok2 by (apply with_repair_ok; [done|]; by split; [exists g'|]).
  assert (runs s1 1 (λ s, s) (λ _, True) (match closed with
    | None => mret s2
    | Some payload => '(_, s) ← fan_out clock s2 crypto cid sid FLAG_REPAIR payload; mret s
    end)) as Hend.
  { apply (runs_from _ s2); [done..|]. destruct closed as [payload|]; [|by apply runs_ret].
    apply (runs_bind _ 1 0 _ _ _ _ _ _ (fan_out_runs s2 FLAG_REPAIR payload Hok2 ltac:(done))).
    intros [x s3] Hok3 _. by apply runs_ret. }
  destruct (_ && _); [|exact Hend]. apply runs_wake; [apply Hok1|exact Hend].
Qed.

Lemma send_pieces_runs pieces s :
  ok s → runs_here s (2 * zlen pieces) (λ _, True) (send_pieces clock s crypto cid sid pieces).
Proof.
  revert s. induction pieces as [|p pieces IH]; intros s Hok; [by apply runs_ret|].
  cbn [send_pieces]. rewrite zlen_cons. replace (2 * (zlen pieces + 1)) with (2 + 2 * zlen pieces) by lia.
  apply (runs_bind _ _ _ _ _ _ _ _ _ (send_reply_runs s p Hok)). intros s1 Hok1 _. by apply IH.
Qed.

Lemma session_reply_runs s packet :
  ok s → runs_here s (2 + 2 * zlen packet) (λ _, True) (session_reply clock s crypto cid sid packet).
Proof.
  intros Hok. unfold session_reply.
  eapply runs_weaken; [by apply send_pieces_runs| |done]. pose proof (zlen_nonneg packet).
  destruct (reply_mtu s) as [m|]; cbn [mbind option_bind default]; [|change (zlen [packet]) with 1; lia].
  destruct (split_for_tunnel packet m) as [pieces|] eqn:Es; cbn [default from_option id].
  - apply split_count in Es. lia.
  - change (zlen [packet]) with 1. lia.
Qed.

Lemma flush_runs now c s next :
  ok s → client_id c = cid → SessionCrypto.new (key c) sid = Ok crypto →
  runs s 1 snd (λ _, True) (flush_session clock now c sid s next).
Proof.
  intros Hok Hc Hk. unfold flush_session. rewrite Hc, Hk.
  destruct (repair s) as [r|] eqn:Er; [|by apply runs_ret].
  destruct (so_repair _ _ _ Hok r Er) as ((g & Hg) & Hrest).
  destruct (flush_opens (encoder r) g now Hg) as (due & e & g' & Hflush & Hg' & _).
  apply (runs_lift _ _ _ _ _ _ _ Hflush). set (s1 := with_repair s (Some (with_encoder r e))).
  assert (ok s1) as Hok1 by (apply with_repair_ok; [done|]; by split; [exists g'|]).
  apply (runs_from _ s1); [done..|].
  destruct due as [payload|]; [|by apply runs_ret].
  apply (runs_bind _ 1 0 _ _ _ _ _ _ (fan_out_runs s1 FLAG_REPAIR payload Hok1 ltac:(done))).
  intros [x s3] Hok3 _. by apply runs_ret.
Qed.

End progress.

(** ** A session from its start *)

Definition fresh_session (outbound now : Z) : SessionState :=
  mk_session default_window default_endpoints outbound 0 now 0 None None default_reassembler.

Lemma fresh_session_ok vip known outbound now :
  0 <= outbound < 2 ^ 64 → session_ok vip known (fresh_session outbound now).
Proof.
  intros Ho. split; try done; cbn [fresh_session replay endpoints fragments].
  - eexists. apply represents_default.
  - apply default_endpoints_wf.
  - intros x Hx. by apply elem_of_nil in Hx.
Qed.

Inductive session_op : Type :=
| Incoming (header : FrameHeader) (plaintext : list byte) (endpoint : SocketAddr)
| Reply (packet : list byte)
| FlushRepairs (now : Z).

Section sessions.
Context `{!Cipher} (clock : nat → Z) (c : RelayClient) (sid : Z) (crypto : SessionCrypto.t).

(** What the relay's loops do with one session. *)
Definition session_step (s : SessionState) (o : session_op) : io SessionState :=
  match o with
  | Incoming header plaintext endpoint =>
      handle_admitted clock s crypto (client_id c) (record_ipv4 (record c)) header plaintext endpoint
  | Reply packet => session_reply clock s crypto (client_id c) sid packet
  | FlushRepairs now => '(_, s) ← flush_session clock now c sid s None; mret s
  end.

Fixpoint session_run (s : SessionState) (ops : list session_op) : io SessionState :=
  match ops with
  | [] => mret s
  | o :: ops' => s ← session_step s o; session_run s ops'
  end.

Definition session_op_ok (o : session_op) : Prop :=
  match o with
  | Incoming header _ _ => header_wf header ∧ Protocol.client_id header = client_id c ∧ session_id header = sid
  | _ => True
  end.

(** A bound on the sequences that an operation issues. *)
Definition session_cost (o : session_op) : Z :=
  match o with
  | Incoming _ _ _ => 3
  | Reply packet => 2 + 2 * zlen packet
  | FlushRepairs _ => 1
  end.

Definition sum_costs (ops : list session_op) : Z := foldr (λ o n, session_cost o + n) 0 ops.

Definition came_from (ops : list session_op) (a : SocketAddr) : Prop :=
  ∃ header plaintext, Incoming header plaintext a ∈ ops.

Section run.
Context (known : SocketAddr → Prop).
Hypothesis Hkey : SessionCrypto.new (key c) sid = Ok crypto.

Notation runs := (runs crypto (client_id c) (record_ipv4 (record c)) sid known).
Notation ok := (session_ok (record_ipv4 (record c)) known).

Definition brings (o : session_op) (s : SessionState) : Prop :=
  ∀ header plaintext endpoint, o = Incoming header plaintext endpoint →
    would_accept (replay s) (sequence header) = false.

Lemma session_step_runs s o :
  ok s → session_op_ok o → (∀ header plaintext a, o = Incoming header plaintext a → known a) →
  runs s (session_cost o) (λ s, s) (brings o) (session_step s o).
Proof.
  intros Hok Ho Hk. destruct o as [header plaintext endpoint|packet|now]; cbn [session_step session_cost].
  - destruct Ho as (Hh & Hc & Hs). eapply runs_weaken; [apply admitted_runs; try done; by eapply Hk|done|].
    by intros s' Hs' ? ? ? [= <- <- <-].
  - eapply runs_weaken; [by apply session_reply_runs|done|done].
  - rewrite <-(Z.add_0_r 1). eapply runs_bind; [by apply flush_runs|]. intros [x s1] Hok1 _. by apply runs_ret.
Qed.

Lemma session_run_runs ops s :
  ok s → Forall session_op_ok ops → (∀ a, came_from ops a → known a) →
  runs s (sum_costs ops) (λ s, s) (λ s, ∀ o, o ∈ ops → session_op_ok o ∧ brings o s) (session_run s ops).
Proof.
  revert s. induction ops as [|o ops IH]; intros s Hok Hops Hk.
  - apply runs_ret; try done. intros o Ho. by apply elem_of_nil in Ho.
  - apply Forall_cons in Hops as [Ho Hops]. cbn [session_run sum_costs foldr]. intros w.
    destruct (session_step_runs s o Hok Ho) with (w := w) as (s1 & w1 & is1 & es1 & E1 & W1 & Hok1 & P1 & N1 & B1).
    { intros h p a ->. apply Hk. exists h, p. apply list_elem_of_here. }
    destruct (IH s1 Hok1 Hops) with (w := w1) as (s2 & w2 & is2 & es2 & E2 & W2 & Hok2 & P2 & N2 & B2).
    { intros a (h & p & Hin). apply Hk. exists h, p. by apply elem_of_cons; right. }
    exists s2, w2, (is1 ++ is2), (es1 ++ es2). split_and!; try done.
    + by rewrite (io_bind_Ret _ _ _ _ _ E1).
    + by rewrite W2, W1, app_assoc.
    + by eapply progress_trans.
    + rewrite zlen_app. unfold sum_costs in N2. lia.
    + intros o' [->|Hin]%elem_of_cons; [|by apply B2]. split; [done|].
      intros h p a ->. apply P2; [|by apply (B1 h p a)]. destruct Ho as ((_ & _ & _ & Hq) & _). lia.
Qed.
End run.
End sessions.

(** ** Properties of a session *)

Lemma sealed_header `{!Cipher} crypto cid sid f q :
  zlen cid = 16 → 0 <= sid < 2 ^ 64 → 0 <= q < 2 ^ 64 → sealed_as crypto cid sid f q →
  ∃ h, decode f = Ret (Ok h) ∧ sequence h = q ∧ Protocol.client_id h = cid ∧ session_id h = sid.
Proof.
  intros Hc Hs Hq (fl & payload & Hfl & Hseal). unfold SessionCrypto.seal_server, SessionCrypto.seal in Hseal.
  set (h := mk_header _ _ _ _) in *. destruct (encrypt _ _ _ _) as [ct|]; [|done].
  assert (f = encode h ++ ct) as -> by congruence. exists h. split; [|done].
  apply decode_encode. split; [by apply (lor_bound 8)|]. by split; [|split].
Qed.

(** Within 2^64 sequences, a sequence belongs to one frame. *)
Lemma issued_once `{!Cipher} crypto cid vip sid known s s' issued evs f1 a1 f2 a2 :
  zlen cid = 16 → 0 <= sid < 2 ^ 64 → progress crypto cid vip sid known s s' issued evs →
  zlen issued < 2 ^ 64 → Send f1 a1 ∈ evs → Send f2 a2 ∈ evs →
  ∃ h1 h2, decode f1 = Ret (Ok h1) ∧ decode f2 = Ret (Ok h2) ∧
    0 <= sequence h1 < 2 ^ 64 ∧ 0 <= sequence h2 < 2 ^ 64 ∧ (sequence h1 = sequence h2 → f1 = f2).
Proof.
  intros Hc Hs Hp Hn [_ [i Hi]%list_elem_of_lookup]%Hp [_ [j Hj]%list_elem_of_lookup]%Hp.
  assert (∀ z, 0 <= wrap64 z < 2 ^ 64) as Hw by (intros; apply Z.mod_pos_bound; lia).
  destruct (sealed_header crypto cid sid f1 _ Hc Hs (Hw _) (pg_sealed _ _ _ _ _ _ _ _ _ Hp i f1 Hi)) as (h1 & D1 & Q1 & _).
  destruct (sealed_header crypto cid sid f2 _ Hc Hs (Hw _) (pg_sealed _ _ _ _ _ _ _ _ _ Hp j f2 Hj)) as (h2 & D2 & Q2 & _).
  exists h1, h2. rewrite Q1, Q2. split; [done|]. split; [done|]. split; [done|]. split; [done|]. intros Heq. assert (i = j) as ->; [|congruence].
  apply lookup_lt_Some in Hi, Hj. unfold zlen, wrap64 in *. set (o := outbound_sequence s) in *.
  apply (f_equal (λ x, (x - (o + 1)) mod 2 ^ 64)) in Heq. rewrite !Zminus_mod_idemp_l in Heq.
  replace (o + Z.of_nat i + 1 - (o + 1)) with (Z.of_nat i) in Heq by lia.
  replace (o + Z.of_nat j + 1 - (o + 1)) with (Z.of_nat j) in Heq by lia.
  rewrite !Z.mod_small in Heq by lia. lia.
Qed.

(** C2. No nonce is used twice under a session's reply key: whatever a client and
    the Internet make a session do, from wherever its sequence starts, two frames
    it sends have different nonces unless they are the same frame (one frame may go
    to several addresses). The bound on the run is that its 64-bit sequence does
    not go all the way round. *)
Theorem no_nonce_is_reused `{!Cipher} clock c sid crypto outbound start ops w
    (Hkey : SessionCrypto.new (key c) sid = Ok crypto) (Hc : zlen (client_id c) = 16)
    (Hs : 0 <= sid < 2 ^ 64) (Ho : 0 <= outbound < 2 ^ 64)
    (Hops : Forall (session_op_ok c sid) ops) (Hcost : sum_costs ops < 2 ^ 64) :
  ∃ s w' evs, session_run clock c sid crypto (fresh_session outbound start) ops w = Ret (s, w') ∧
    events w' = events w ++ evs ∧
    ∀ f1 a1 f2 a2, Send f1 a1 ∈ evs → Send f2 a2 ∈ evs →
      ∃ h1 h2, decode f1 = Ret (Ok h1) ∧ decode f2 = Ret (Ok h2) ∧
        (nonce SERVER_TO_CLIENT_NONCE (sequence h1) = nonce SERVER_TO_CLIENT_NONCE (sequence h2) → f1 = f2).
Proof.
  destruct (session_run_runs clock c sid crypto (λ _, True) Hkey ops (fresh_session outbound start)
    (fresh_session_ok _ _ _ _ Ho) Hops (λ _ _, I) w)
    as (s & w' & issued & evs & Hrun & Hev & _ & Hp & Hn & _).
  exists s, w', evs. split; [done|]. split; [done|]. intros f1 a1 f2 a2 H1 H2.
  destruct (issued_once _ _ _ _ _ _ _ _ _ f1 a1 f2 a2 Hc Hs Hp) as (h1 & h2 & D1 & D2 & B1 & B2 & Heq);
    [lia|done|done|].
  exists h1, h2. split; [done|]. split; [done|]. intros Hnonce. apply Heq.
  by apply nonce_inj in Hnonce as [_ ?].
Qed.

Definition toy_client : RelayClient :=
  mk_client (mk_record (str "pc") 1 [] [] [x0a; xcb; x00; x02]) (replicate 16 x07) (replicate 32 x09) ∅.
Definition toy_crypto (sid : Z) : SessionCrypto.t :=
  SessionCrypto.mk (be_bytes 8 sid ++ replicate 32 x09 ++ str "gamepath-v1 client-to-server")
    (be_bytes 8 sid ++ replicate 32 x09 ++ str "gamepath-v1 server-to-client").
Definition toy_address : SocketAddr := ([xc0; xa8; x01; x02], 4000).
(** A UDP datagram of the client and one to it. *)
Definition toy_packet (from to : list byte) : list byte :=
  [x45; x00; x00; x1c; x00; x01; x00; x00; x40; x11; x00; x00] ++ from ++ to ++
  [x10; x00; x20; x00; x00; x08; x00; x00].
Definition toy_host : list byte := [x08; x08; x08; x08].
Definition toy_ops : list session_op :=
  [Incoming (mk_header 1 (replicate 16 x07) 5 100) (probe_request 1) toy_address;
   Incoming (mk_header 1 (replicate 16 x07) 5 101) (offer (mk_offer 2 1300)) toy_address;
   Incoming (mk_header 0 (replicate 16 x07) 5 102) (toy_packet [x0a; xcb; x00; x02] toy_host) toy_address;
   Reply (toy_packet toy_host [x0a; xcb; x00; x02]); Reply (toy_packet toy_host [x0a; xcb; x00; x02]);
   FlushRepairs 7].

Lemma toy_ops_ok : Forall (session_op_ok toy_client 5) toy_ops.
Proof. repeat constructor; by vm_compute. Qed.

Lemma no_nonce_is_reused_witness :
  ∃ s w' evs, session_run (H := Toy.cipher) (λ _, 0) toy_client 5 (toy_crypto 5) (fresh_session 70 0)
      toy_ops (mk_world 0 []) = Ret (s, w') ∧ events w' = [] ++ evs ∧
    ∀ f1 a1 f2 a2, Send f1 a1 ∈ evs → Send f2 a2 ∈ evs →
      ∃ h1 h2, decode f1 = Ret (Ok h1) ∧ decode f2 = Ret (Ok h2) ∧
        (nonce SERVER_TO_CLIENT_NONCE (sequence h1) = nonce SERVER_TO_CLIENT_NONCE (sequence h2) → f1 = f2).
Proof.
  apply (no_nonce_is_reused (λ _, 0) toy_client 5 (toy_crypto 5) 70 0 toy_ops (mk_world 0 []));
    [reflexivity|reflexivity|lia|lia|apply toy_ops_ok|vm_compute; reflexivity].
Defined.

(** A session writes to the TUN only packets whose source is its client's
    own virtual address, rebuilt datagrams and repaired packets included, and
    sends frames only to addresses that authenticated frames came from; it never
    fails on any of them. *)
Theorem session_outputs_are_honest `{!Cipher} clock c sid crypto outbound start ops w
    (Hkey : SessionCrypto.new (key c) sid = Ok crypto) (Ho : 0 <= outbound < 2 ^ 64)
    (Hops : Forall (session_op_ok c sid) ops) :
  ∃ s w' evs, session_run clock c sid crypto (fresh_session outbound start) ops w = Ret (s, w') ∧
    events w' = events w ++ evs ∧
    (∀ p, Tun p ∈ evs → ipv4_source p = Some (record_ipv4 (record c))) ∧
    (∀ f a, Send f a ∈ evs → came_from ops a).
Proof.
  destruct (session_run_runs clock c sid crypto (came_from ops) Hkey ops (fresh_session outbound start)
    (fresh_session_ok _ _ _ _ Ho) Hops (λ _ H, H) w)
    as (s & w' & issued & evs & Hrun & Hev & _ & Hp & _).
  exists s, w', evs. split_and!; [done|done|apply Hp|]. intros f a Hin. by eapply pg_sends.
Qed.

Lemma session_outputs_are_honest_witness :
  ∃ s w' evs, session_run (H := Toy.cipher) (λ _, 0) toy_client 5 (toy_crypto 5) (fresh_session 70 0)
      toy_ops (mk_world 0 []) = Ret (s, w') ∧ events w' = [] ++ evs ∧
    (∀ p, Tun p ∈ evs → ipv4_source p = Some [x0a; xcb; x00; x02]) ∧
    (∀ f a, Send f a ∈ evs → came_from toy_ops a).
Proof.
  apply (session_outputs_are_honest (λ _, 0) toy_client 5 (toy_crypto 5) 70 0 toy_ops (mk_world 0 []));
    [reflexivity|lia|apply toy_ops_ok].
Defined.

Lemma duplicate_handled `{!Cipher} clock crypto cid vip s header plaintext endpoint w :
  would_accept (replay s) (sequence header) = false →
  ∃ s', handle_admitted clock s crypto cid vip header plaintext endpoint w
        = Ret (s', mk_world (S (ticks w)) (events w)) ∧
    s' = with_rejected (with_seen (with_endpoints s (observe (endpoints s) endpoint (clock (ticks w))))
           (clock (ticks w))) (rejected_frames s + 1).
Proof.
  intros Hw. unfold handle_admitted, observe_endpoint, instant_now, tick, mbind, io_bind, mret, io_ret.
  cbn [with_seen with_endpoints replay].
  pose proof (accept_would_accept (replay s) (sequence header)) as Ha.
  pose proof (rejected_unchanged (replay s) (sequence header)) as Hu.
  destruct (Replay.accept _ _) as [accepted window]. cbn [fst snd] in *. rewrite Ha, Hw in *.
  cbn [negb]. rewrite Hu by done. eexists. split; reflexivity.
Qed.

(** A frame is handled once: after any run in which a frame arrived, another
    frame with its sequence, by whatever path and with whatever content, produces
    no output and changes only the return addresses, the time last seen and the
    count of rejected frames. *)
Theorem duplicate_frame_is_ignored `{!Cipher} clock c sid crypto outbound start ops w
    header plaintext endpoint copy content path
    (Hkey : SessionCrypto.new (key c) sid = Ok crypto) (Ho : 0 <= outbound < 2 ^ 64)
    (Hops : Forall (session_op_ok c sid) ops) (Hin : Incoming header plaintext endpoint ∈ ops)
    (Hcopy : sequence copy = sequence header) :
  ∃ s w' s' w'', session_run clock c sid crypto (fresh_session outbound start) ops w = Ret (s, w') ∧
    session_step clock c sid crypto s (Incoming copy content path) w' = Ret (s', w'') ∧
    events w'' = events w' ∧
    s' = with_rejected (with_seen (with_endpoints s (endpoints s')) (last_seen s')) (rejected_frames s + 1).
Proof.
  destruct (session_run_runs clock c sid crypto (came_from ops) Hkey ops (fresh_session outbound start)
    (fresh_session_ok _ _ _ _ Ho) Hops (λ _ H, H) w)
    as (s & w' & issued & evs & Hrun & _ & _ & _ & _ & Hseen).
  destruct (Hseen _ Hin) as [_ Hb]. specialize (Hb _ _ _ eq_refl). rewrite <-Hcopy in Hb.
  destruct (duplicate_handled clock crypto (client_id c) (record_ipv4 (record c)) s copy content path w' Hb)
    as (s' & Hs' & Es').
  exists s, w', s'. eexists. split; [done|]. split; [exact Hs'|]. split; [done|]. by rewrite Es'.
Qed.

Lemma duplicate_frame_is_ignored_witness :
  ∃ s w' s' w'', session_run (H := Toy.cipher) (λ _, 0) toy_client 5 (toy_crypto 5) (fresh_session 70 0)
      toy_ops (mk_world 0 []) = Ret (s, w') ∧
    session_step (H := Toy.cipher) (λ _, 0) toy_client 5 (toy_crypto 5) s
      (Incoming (mk_header 0 (replicate 16 x07) 5 102) [] toy_address) w' = Ret (s', w'') ∧
    events w'' = events w' ∧
    s' = with_rejected (with_seen (with_endpoints s (endpoints s')) (last_seen s')) (rejected_frames s + 1).
Proof.
  apply (duplicate_frame_is_ignored (λ _, 0) toy_client 5 (toy_crypto 5) 70 0 toy_ops (mk_world 0 [])
    (mk_header 0 (replicate 16 x07) 5 102) (toy_packet [x0a; xcb; x00; x02] toy_host) toy_address);
    [reflexivity|lia|apply toy_ops_ok| |reflexivity].
  unfold toy_ops. do 2 apply list_elem_of_further. apply list_elem_of_here.
Defined.

(** ** The map of clients *)

Record client_ok (id : list byte) (c : RelayClient) : Prop := {
  co_id : client_id c = id;
  co_id_length : zlen id = 16;
  co_capacity : zsize (sessions c) <= MAX_SESSIONS_PER_CLIENT;
  co_ids : ∀ sid s, sessions c !! sid = Some s → 0 <= sid < 2 ^ 64;
  co_sessions : ∀ sid s, sessions c !! sid = Some s → session_ok (record_ipv4 (record c)) (λ _, True) s
}.

Record relay_ok (clients : Clients) : Prop := {
  ro_clients : ∀ id c, clients !! id = Some c → client_ok id c;
  ro_addresses : ∀ id id' c c', clients !! id = Some c → clients !! id' = Some c' →
    record_ipv4 (record c) = record_ipv4 (record c') → id = id'
}.

Lemma evict_spec fuel m :
  zsize (evict fuel m) <= Z.max (MAX_SESSIONS_PER_CLIENT - 1) (zsize m - Z.of_nat fuel) ∧ evict fuel m ⊆ m.
Proof.
  revert m. induction fuel as [|fuel IH]; intros m; cbn [evict]; [split; [lia|done]|].
  destruct (Z.ltb_spec (zsize m) MAX_SESSIONS_PER_CLIENT) as [|Hm]; [split; [lia|done]|].
  pose proof (min_by_spec (λ kv : Z * SessionState, last_seen kv.2) (map_to_list m)) as Hmin.
  destruct (min_by _ _) as [[oldest s]|].
  - destruct Hmin as [Hin _]. apply elem_of_map_to_list in Hin. destruct (IH (delete oldest m)) as [Hs Hsub].
    split; [|by etransitivity; [exact Hsub|apply delete_subseteq]].
    unfold zsize in *. rewrite map_size_delete_Some in Hs by eauto.
    assert (size m ≠ 0%nat) by (apply map_size_ne_0_lookup; eauto). lia.
  - apply map_to_list_empty_iff in Hmin. rewrite Hmin in Hm. done.
Qed.

Section clients.
Context `{!Cipher} (clock : nat → Z) (wall : nat → option Z).

Lemma admit_spec id c sid now w :
  client_ok id c → 0 <= sid < 2 ^ 64 →
  ∃ s c' w', admit_session clock wall c sid now w = Ret ((s, c'), w') ∧ events w' = events w ∧
    client_ok id c' ∧ sessions c' !! sid = Some s ∧ record c' = record c ∧ key c' = key c.
Proof.
  intros [Hid Hl Hcap Hids Hss] Hsid. unfold admit_session. cbn zeta.
  set (kept := filter _ (sessions c)).
  assert (kept ⊆ sessions c) as Hsub by apply map_filter_subseteq.
  destruct (kept !! sid) as [s|] eqn:Es.
  - exists s, (with_sessions c kept), w. split_and!; try done. split; try done.
    + cbn [with_sessions sessions]. unfold zsize in *. apply map_subseteq_size in Hsub. lia.
    + intros sid' s' Hs'. eapply Hids, lookup_weaken; done.
    + intros sid' s' Hs'. eapply Hss, lookup_weaken; done.
  - destruct (evict_spec (size kept) kept) as [Hsize Hesub]. set (kept' := evict _ _) in *.
    assert (kept' ⊆ sessions c) as Hsub' by (by etransitivity).
    exists (fresh_session (match wall (ticks w) with Some micros => wrap64 micros | None => 0 end) (clock (S (ticks w)))).
    do 2 eexists. split; [reflexivity|]. split_and!; try done; [|by apply lookup_insert_eq].
    split; try done; cbn [with_sessions sessions record].
    + eapply Z.le_trans; [apply zsize_insert_le|].
      unfold zsize, MAX_SESSIONS_PER_CLIENT in *. destruct (kept' !! sid); lia.
    + intros sid' s'. rewrite lookup_insert_Some. intros [[<- _]|[_ Hs']]; [done|].
      eapply Hids, lookup_weaken; done.
    + intros sid' s'. rewrite lookup_insert_Some. intros [[<- <-]|[_ Hs']].
      * apply fresh_session_ok. destruct (wall _); [apply Z.mod_pos_bound; lia|lia].
      * eapply Hss, lookup_weaken; done.
Qed.

(** A session put back in its client, and the client in the map. *)
Lemma put_session_ok id c sid s :
  client_ok id c → is_Some (sessions c !! sid) → session_ok (record_ipv4 (record c)) (λ _, True) s →
  client_ok id (with_sessions c (<[sid := s]> (sessions c))).
Proof.
  intros [Hid Hl Hcap Hids Hss] [s0 Hs0] Hs. split; try done; cbn [with_sessions sessions record].
  - pose proof (zsize_insert_le (sessions c) sid s) as Hi. rewrite Hs0 in Hi. lia.
  - intros sid' s'. rewrite lookup_insert_Some. intros [[<- _]|[_ Hs']]; eauto.
  - intros sid' s'. rewrite lookup_insert_Some. intros [[<- <-]|[_ Hs']]; eauto.
Qed.

Lemma put_client_ok clients id c c' :
  relay_ok clients → clients !! id = Some c → client_ok id c' → record c' = record c →
  relay_ok (<[id := c']> clients).
Proof.
  intros [Hc Ha] Hid Hok Hr. split.
  - intros id' c''. rewrite lookup_insert_Some. intros [[<- <-]|[_ H']]; eauto.
  - intros i j ci cj. rewrite !lookup_insert_Some.
    intros [[<- <-]|[Hi Hci]] [[<- <-]|[Hj Hcj]]; [done| | |by eapply Ha]; rewrite ?Hr; intros Heq.
    + by eapply Ha.
    + by eapply Ha.
Qed.

(** [frame] opens, under the keys of client [c]'s session, to [h] and [m]. *)
Definition authentic (clients : Clients) (frame : list byte) (c : RelayClient)
    (crypto : SessionCrypto.t) (h : FrameHeader) (m : list byte) : Prop :=
  clients !! Protocol.client_id h = Some c ∧ SessionCrypto.new (key c) (session_id h) = Ok crypto ∧
  SessionCrypto.open_client crypto frame = Ret (Ok (h, m)) ∧ header_wf h.

Lemma probe_cases c crypto h m w :
  ∃ r w1, stateless_probe_reply wall c crypto h m w = Ret (r, w1) ∧ events w1 = events w ∧
    ∀ reply, r = Some reply → w1 = mk_world (S (ticks w)) (events w) ∧
      ∃ response outbound, probe_response m = Some response ∧
        has_flag (Protocol.flags h) FLAG_CONTROL = true ∧ sessions c !! session_id h = None ∧
        0 <= outbound < 2 ^ 64 ∧
        SessionCrypto.seal_server crypto (mk_header (Z.lor FLAG_CONTROL FLAG_SERVER_TO_CLIENT) (client_id c)
          (session_id h) outbound) response = Ok reply.
Proof.
  unfold stateless_probe_reply. destruct (negb _ || _) eqn:E; [by exists None, w|].
  apply orb_false_iff in E as [E1%negb_false_iff E2%bool_decide_eq_false].
  destruct (probe_response m) as [response|] eqn:Ep; [|by exists None, w].
  set (outbound := match wall (ticks w) with Some micros => wrap64 micros | None => 0 end).
  assert (0 <= outbound < 2 ^ 64) as Hout
    by (unfold outbound; destruct (wall _); [apply Z.mod_pos_bound; lia|lia]).
  do 2 eexists. split; [reflexivity|]. split; [done|]. intros reply. fold outbound.
  destruct (SessionCrypto.seal_server _ _ _) as [f|] eqn:Es; [|done]. intros [= ->].
  split; [done|]. exists response, outbound. split_and!; try done; [|lia..].
  by apply eq_None_not_Some.
Qed.

(** What [handle_frame] does, by what the datagram is. *)
Lemma handle_frame_cases clients frame endpoint w :
  relay_ok clients →
  handle_frame clock wall clients frame endpoint w = Ret (clients, w) ∨
  ∃ c crypto h m, authentic clients frame c crypto h m ∧
    ((∃ reply response outbound, probe_response m = Some response ∧ has_flag (Protocol.flags h) FLAG_CONTROL = true ∧
        sessions c !! session_id h = None ∧ 0 <= outbound < 2 ^ 64 ∧
        SessionCrypto.seal_server crypto (mk_header (Z.lor FLAG_CONTROL FLAG_SERVER_TO_CLIENT) (client_id c)
          (session_id h) outbound) response = Ok reply ∧
        handle_frame clock wall clients frame endpoint w
        = Ret (clients, mk_world (S (ticks w)) (events w ++ [Send reply endpoint]))) ∨
     ∃ s c' w1 w2 s', events w1 = events w ∧ client_ok (Protocol.client_id h) c' ∧
        sessions c' !! session_id h = Some s ∧ record c' = record c ∧ key c' = key c ∧
        handle_admitted clock s crypto (client_id c') (record_ipv4 (record c')) h m endpoint w1 = Ret (s', w2) ∧
        handle_frame clock wall clients frame endpoint w
        = Ret (<[Protocol.client_id h := with_sessions c' (<[session_id h := s']> (sessions c'))]> clients, w2)).
Proof.
  intros Hok. unfold handle_frame. destruct (_ <? _); [by left|].
  destruct (decode_total frame) as [[h|e] Hd]; rewrite Hd; [|by left].
  rewrite (io_bind_Ret (lift (Ret (Ok h))) _ w (Ok h) w eq_refl). destruct (has_flag _ FLAG_SERVER_TO_CLIENT); [by left|].
  destruct (clients !! Protocol.client_id h) as [c|] eqn:Ec; [|by left].
  destruct (SessionCrypto.new (key c) (session_id h)) as [crypto|] eqn:Ek; [|by left].
  destruct (open_total (SessionCrypto.client_to_server crypto) CLIENT_TO_SERVER_NONCE frame) as [[[h' m]|e] Ho].
  2: { left. unfold SessionCrypto.open_client. by rewrite Ho. }
  destruct (open_header _ _ _ _ _ _ Ho Hd) as [<- Hwf].
  right. exists c, crypto, h, m. split; [by split_and!|].
  unfold SessionCrypto.open_client. rewrite Ho.
  rewrite (io_bind_Ret (lift (Ret (Ok (h, m)))) _ w (Ok (h, m)) w eq_refl).
  destruct (probe_cases c crypto h m w) as (r & w1 & Hr & Hw1 & Hreply).
  rewrite (io_bind_Ret _ _ _ _ _ Hr). destruct r as [reply|].
  - left. destruct (Hreply reply eq_refl) as (-> & response & outbound & H1 & H2 & H3 & H4 & H5).
    by exists reply, response, outbound.
  - right. clear Hreply.
    rewrite (io_bind_Ret (instant_now clock) _ w1 (clock (ticks w1)) (mk_world (S (ticks w1)) (events w1)) eq_refl).
    set (w2 := mk_world _ _). pose proof (ro_clients _ Hok _ _ Ec) as Hc.
    destruct (admit_spec _ c (session_id h) (clock (ticks w1)) w2 Hc (proj1 (proj2 (proj2 Hwf))))
      as (s & c' & w3 & Hadmit & Hw3 & Hc' & Hs & Hrec & Hkey).
    rewrite (io_bind_Ret _ _ _ _ _ Hadmit).
    destruct (admitted_runs clock crypto (Protocol.client_id h) (record_ipv4 (record c')) (session_id h) (λ _, True)
      s h m endpoint (co_sessions _ _ Hc' _ _ Hs) I Hwf eq_refl eq_refl w3) as (s' & w4 & _ & _ & Hrun & _).
    rewrite <-(co_id _ _ Hc') in Hrun.
    exists s, c', w3, w4, s'. split_and!; try done; [by rewrite Hw3, <-Hw1|].
    by rewrite (io_bind_Ret _ _ _ _ _ Hrun).
Qed.

(** *** Every turn of every loop *)

(** No turn writes a packet to the TUN whose source is not an enrolled client's. *)
Definition from_clients (clients : Clients) (evs : list event) : Prop :=
  ∀ p, Tun p ∈ evs → ∃ id c, clients !! id = Some c ∧ ipv4_source p = Some (record_ipv4 (record c)).

Lemma flush_session_ok now c sid s next w :
  session_ok (record_ipv4 (record c)) (λ _, True) s →
  ∃ next' s' w' evs, flush_session clock now c sid s next w = Ret ((next', s'), w') ∧
    events w' = events w ++ evs ∧ session_ok (record_ipv4 (record c)) (λ _, True) s' ∧
    ∀ p, Tun p ∈ evs → ipv4_source p = Some (record_ipv4 (record c)).
Proof.
  intros Hok. destruct (SessionCrypto.new (key c) sid) as [crypto|e] eqn:Ek.
  - destruct (flush_runs clock crypto (client_id c) (record_ipv4 (record c)) sid (λ _, True) now c s next
      Hok eq_refl Ek w) as ([next' s'] & w' & iss & evs & H1 & H2 & H3 & H4 & _).
    exists next', s', w', evs. split_and!; try done. apply H4.
  - unfold flush_session. rewrite Ek. destruct (repair s) as [r|] eqn:Er.
    2: { exists next, s, w, []. rewrite app_nil_r. split_and!; try done. by intros p Hp%elem_of_nil. }
    destruct (so_repair _ _ _ Hok r Er) as ((g & Hg) & Hrest).
    destruct (flush_opens (encoder r) g now Hg) as (due & en & g' & Hflush & Hg' & _).
    rewrite Hflush. rewrite (io_bind_Ret (lift (Ret (due, en))) _ w (due, en) w eq_refl).
    assert (session_ok (record_ipv4 (record c)) (λ _, True) (with_repair s (Some (with_encoder r en)))) as Hok1
      by (apply with_repair_ok; [done|]; by split; [exists g'|]).
    destruct due; (do 3 eexists; exists []; rewrite app_nil_r; split_and!; try done; by intros p Hp%elem_of_nil).
Qed.

Lemma flush_sessions_ok now id c visit next ss w :
  client_ok id (with_sessions c ss) → Forall (λ kv, is_Some (ss !! kv.1) ∧
    session_ok (record_ipv4 (record c)) (λ _, True) kv.2) visit →
  ∃ next' ss' w' evs, flush_sessions clock now c visit next ss w = Ret ((next', ss'), w') ∧
    events w' = events w ++ evs ∧ client_ok id (with_sessions c ss') ∧
    ∀ p, Tun p ∈ evs → ipv4_source p = Some (record_ipv4 (record c)).
Proof.
  revert next ss w. induction visit as [|[sid s] visit IH]; intros next ss w Hc Hv.
  { exists next, ss, w, []. rewrite app_nil_r. split_and!; try done. by intros p Hp%elem_of_nil. }
  apply Forall_cons in Hv as [[Hsid Hs] Hv]. cbn [fst snd] in *. cbn [flush_sessions].
  destruct (flush_session_ok now c sid s next w Hs) as (n1 & s1 & w1 & e1 & H1 & W1 & Hs1 & T1).
  rewrite (io_bind_Ret _ _ _ _ _ H1).
  destruct (IH n1 (<[sid := s1]> ss) w1) as (n2 & ss2 & w2 & e2 & H2 & W2 & Hc2 & T2).
  - by apply (put_session_ok id (with_sessions c ss) sid s1).
  - eapply Forall_impl; [exact Hv|]. intros kv [Hk ?]. split; [|done].
    destruct (decide (sid = kv.1)) as [->|]; [by rewrite lookup_insert_eq|by rewrite lookup_insert_ne].
  - exists n2, ss2, w2, (e1 ++ e2). split_and!; [done|by rewrite W2, W1, app_assoc|done|].
    intros p [Hp|Hp]%elem_of_app; auto.
Qed.

Lemma flush_clients_ok now visit next clients w :
  relay_ok clients → Forall (λ kv, ∃ c, clients !! kv.1 = Some c ∧ record c = record kv.2 ∧ client_ok kv.1 kv.2) visit →
  NoDup visit.*1 →
  ∃ next' clients' w' evs, flush_clients clock now visit next clients w = Ret ((next', clients'), w') ∧
    events w' = events w ++ evs ∧ relay_ok clients' ∧ dom clients' = dom clients ∧
    (∀ id c', clients' !! id = Some c' → ∃ c, clients !! id = Some c ∧ record c' = record c) ∧
    from_clients clients evs.
Proof.
  revert next clients w. induction visit as [|[id c] visit IH]; intros next clients w Hok Hv Hnd.
  { exists next, clients, w, []. rewrite app_nil_r. split_and!; try done; eauto. by intros p Hp%elem_of_nil. }
  apply Forall_cons in Hv as [(c0 & Hc0 & Hrec & Hc) Hv]. cbn [fst snd] in *. cbn [flush_clients].
  apply NoDup_cons in Hnd as [Hnin Hnd].
  destruct (flush_sessions_ok now id c (map_to_list (sessions c)) next (sessions c) w) as
    (n1 & ss1 & w1 & e1 & H1 & W1 & Hc1 & T1).
  { by destruct Hc. }
  { apply Forall_forall. intros [sid s] Hs%elem_of_map_to_list. cbn [fst snd].
    split; [by rewrite Hs|by eapply co_sessions]. }
  rewrite (io_bind_Ret _ _ _ _ _ H1).
  set (c1 := with_sessions c ss1) in *. set (clients1 := <[id := c1]> clients).
  assert (∀ i ci, clients1 !! i = Some ci → ∃ c, clients !! i = Some c ∧ record ci = record c) as Hback.
  { intros i ci. unfold clients1. rewrite lookup_insert_Some. intros [[<- <-]|[_ Hi]]; [|by eauto].
    exists c0. by rewrite Hrec. }
  destruct (IH n1 clients1 w1) as (n2 & cs2 & w2 & e2 & H2 & W2 & Hok2 & Hdom2 & Hb2 & T2).
  - by apply (put_client_ok clients id c0 c1).
  - apply Forall_forall. intros [i ci] Hi. rewrite Forall_forall in Hv.
    destruct (Hv _ Hi) as (cj & Hj & Hrj & Hcj). cbn [fst snd] in *. exists cj. split; [|done].
    unfold clients1. rewrite lookup_insert_ne; [done|]. intros ->. apply Hnin.
    apply list_elem_of_fmap. by exists (i, ci).
  - done.
  - exists n2, cs2, w2, (e1 ++ e2). split_and!; [done|by rewrite W2, W1, app_assoc|done| | |].
    + rewrite Hdom2. unfold clients1. rewrite dom_insert_lookup_L; [done|by exists c0].
    + intros i ci (cj & Hj & ->)%Hb2. by apply Hback.
    + intros p [Hp|Hp]%elem_of_app.
      * exists id, c0. split; [done|]. rewrite Hrec. by apply T1.
      * destruct (T2 p Hp) as (i & ci & (cj & Hj & Hr)%Hback & Hs). exists i, cj. by rewrite <-Hr.
Qed.

Lemma own_addresses vip known s :
  session_ok vip known s → session_ok vip (.∈ address <$> entries (endpoints s)) s.
Proof. intros []. split; try done. intros x Hx. by apply list_elem_of_fmap_2. Qed.

Lemma any_address vip known s : session_ok vip known s → session_ok vip (λ _, True) s.
Proof. intros []. by split. Qed.

(** What a packet from the Internet may do: nothing, or the newest session [s] of
    the client [c] that owns its destination sends it. *)
Definition replied (clients : Clients) (packet : list byte) (clients' : Clients) (evs : list event)
    : Prop :=
  ∃ id c sid s s' crypto, clients !! id = Some c ∧
    ipv4_destination packet = Some (record_ipv4 (record c)) ∧ sessions c !! sid = Some s ∧
    (∀ sid2 s2, sessions c !! sid2 = Some s2 → last_seen s2 <= last_seen s) ∧
    SessionCrypto.new (key c) sid = Ok crypto ∧
    clients' = <[id := with_sessions c (<[sid := s']> (sessions c))]> clients ∧
    ∀ f a, Send f a ∈ evs → a ∈ address <$> entries (endpoints s) ∧
      ∃ h payload, SessionCrypto.seal_server crypto h payload = Ok f ∧
        Protocol.client_id h = id ∧ session_id h = sid ∧ has_flag (Protocol.flags h) FLAG_SERVER_TO_CLIENT = true.

Lemma server_flag fl : 0 <= fl → has_flag (Z.lor fl FLAG_SERVER_TO_CLIENT) FLAG_SERVER_TO_CLIENT = true.
Proof.
  intros. unfold has_flag. apply negb_true_iff, Z.eqb_neq. intros Hz.
  apply (f_equal (λ z, Z.testbit z 1)) in Hz. rewrite Z.land_spec, Z.lor_spec in Hz.
  by rewrite orb_true_r in Hz.
Qed.

Lemma forward_reply_spec clients packet w :
  relay_ok clients →
  ∃ clients' w' evs, forward_reply clock clients packet w = Ret (clients', w') ∧
    events w' = events w ++ evs ∧ relay_ok clients' ∧ dom clients' = dom clients ∧
    from_clients clients evs ∧
    (clients' = clients ∧ evs = [] ∨ replied clients packet clients' evs).
Proof.
  intros Hok.
  assert (∃ clients' w' evs, Ret (clients, w) = Ret (clients', w') ∧
    events w' = events w ++ evs ∧ relay_ok clients' ∧ dom clients' = dom clients ∧
    from_clients clients evs ∧ (clients' = clients ∧ evs = [] ∨ replied clients packet clients' evs)) as Hnone.
  { exists clients, w, []. rewrite app_nil_r. split_and!; try done; [by intros p Hp%elem_of_nil|by left]. }
  unfold forward_reply. destruct (ipv4_destination packet) as [destination|] eqn:Ed; [|done].
  destruct (list_find _ _) as [[i [id c]]|] eqn:Ef; [|done].
  apply list_find_Some in Ef as (Hin%list_elem_of_lookup_2 & Hdest & _). cbn [snd] in Hdest.
  apply elem_of_map_to_list in Hin. pose proof (ro_clients _ Hok _ _ Hin) as Hc.
  pose proof (max_by_spec (λ kv : Z * SessionState, last_seen kv.2) (map_to_list (sessions c))) as Hmax.
  destruct (max_by _ _) as [[sid s]|]; [|done]. destruct Hmax as [Hs%elem_of_map_to_list Hmax].
  destruct (SessionCrypto.new (key c) sid) as [crypto|] eqn:Ek; [|done].
  pose proof (co_sessions _ _ Hc _ _ Hs) as Hsok.
  destruct (session_reply_runs clock crypto (client_id c) (record_ipv4 (record c)) sid _ s packet
    (own_addresses _ _ _ Hsok) w) as (s' & w' & issued & evs & Hrun & Hev & Hsok' & Hp & _).
  rewrite (io_bind_Ret _ _ _ _ _ Hrun). do 3 eexists. split; [reflexivity|]. split; [exact Hev|].
  set (c' := with_sessions c _). split; [|split; [|split]].
  - apply (put_client_ok clients id c c'); [done..| |done].
    apply put_session_ok; [done|by eexists|by eapply any_address].
  - apply dom_insert_lookup_L. by exists c.
  - intros p Hp'. exists id, c. split; [done|]. by apply Hp.
  - right. exists id, c, sid, s, s', crypto. split_and!; try done; [by rewrite Hdest| |].
    + intros sid2 s2 H2. apply (Hmax (sid2, s2)). by apply elem_of_map_to_list.
    + intros f a Ha. apply Hp in Ha as [Ha [j Hj]%list_elem_of_lookup]. split; [done|].
      destruct (pg_sealed _ _ _ _ _ _ _ _ _ Hp j f Hj) as (fl & payload & Hfl & Hseal).
      do 2 eexists. split; [exact Hseal|]. split; [apply Hc|]. split; [done|]. apply server_flag, Hfl.
Qed.

(** One turn of any of the relay's loops. *)
Inductive relay_op : Type :=
| Datagram (frame : list byte) (endpoint : SocketAddr)
| TunPacket (packet : list byte)
| FlushTurn.

Definition relay_step (clients : Clients) (o : relay_op) : io Clients :=
  match o with
  | Datagram frame endpoint => handle_frame clock wall clients frame endpoint
  | TunPacket packet => forward_reply clock clients packet
  | FlushTurn => '(_, clients) ← flush_repairs clock clients; mret clients
  end.

Fixpoint relay_run (clients : Clients) (ops : list relay_op) : io Clients :=
  match ops with
  | [] => mret clients
  | o :: ops' => clients ← relay_step clients o; relay_run clients ops'
  end.

(** The enrolment records, which no turn changes. *)
Definition same_records (clients clients' : Clients) : Prop := record <$> clients' = record <$> clients.

Lemma put_same_records clients id c c' :
  clients !! id = Some c → record c' = record c → same_records clients (<[id := c']> clients).
Proof.
  intros Hc Hr. unfold same_records. rewrite fmap_insert, Hr. apply insert_id.
  by rewrite lookup_fmap, Hc.
Qed.

Lemma relay_step_ok clients o w :
  relay_ok clients →
  ∃ clients' w' evs, relay_step clients o w = Ret (clients', w') ∧ events w' = events w ++ evs ∧
    relay_ok clients' ∧ same_records clients clients' ∧ from_clients clients evs.
Proof.
  intros Hok. destruct o as [frame endpoint|packet|]; cbn [relay_step].
  - destruct (handle_frame_cases clients frame endpoint w Hok) as [->|(c & crypto & h & m & Ha & Hcases)].
    { exists clients, w, []. rewrite app_nil_r. split_and!; try done. by intros p Hp%elem_of_nil. }
    destruct Hcases as [(reply & response & outbound & _ & _ & _ & _ & _ & ->)|
      (s & c' & w1 & w2 & s' & Hw1 & Hc' & Hs & Hrec & Hkey & Hrun & ->)].
    { do 2 eexists. exists [Send reply endpoint]. split_and!; try done.
      intros p Hp. apply list_elem_of_singleton in Hp. done. }
    destruct Ha as (Hc & _ & _ & Hwf). rewrite (co_id _ _ Hc') in Hrun.
    destruct (admitted_runs clock crypto (Protocol.client_id h) (record_ipv4 (record c')) (session_id h) (λ _, True)
      s h m endpoint (co_sessions _ _ Hc' _ _ Hs) I Hwf eq_refl eq_refl w1) as
      (s2 & w3 & issued & evs & Hrun' & Hev & Hsok & Hp & _).
    rewrite Hrun in Hrun'. injection Hrun' as <- <-.
    do 2 eexists. exists evs. split; [reflexivity|]. split; [by rewrite Hev, Hw1|]. split; [|split].
    + apply (put_client_ok clients _ c); [done..| |done]. by apply put_session_ok; [|eexists|].
    + by apply (put_same_records clients _ c).
    + intros p Hp'. do 2 eexists. split; [done|]. rewrite <-Hrec. by apply Hp.
  - destruct (forward_reply_spec clients packet w Hok) as (cs & w' & evs & H1 & H2 & H3 & _ & H5 & H6).
    exists cs, w', evs. split_and!; try done.
    destruct H6 as [[-> _]|(id & c & sid & s & s' & crypto & Hc & _ & _ & _ & _ & -> & _)]; [done|].
    by apply (put_same_records clients _ c).
  - unfold flush_repairs.
    set (w1 := mk_world (S (ticks w)) (events w)).
    destruct (flush_clients_ok (clock (ticks w)) (map_to_list clients) None clients w1 Hok) as
      (next & cs & w2 & evs & H1 & H2 & H3 & H4 & H5 & H6).
    { apply Forall_forall. intros [id c] Hin%elem_of_map_to_list. cbn [fst snd].
      exists c. split_and!; [done..|]. by apply ro_clients with clients. }
    { apply NoDup_fst_map_to_list. }
    exists cs, (mk_world (S (ticks w2)) (events w2)), evs. split_and!; try done.
    + rewrite (io_bind_Ret _ _ w (match next with Some d => sat_sub d (clock (ticks w2)) | None => REPAIR_IDLE_WAIT end, cs)
        (mk_world (S (ticks w2)) (events w2))); [done|].
      rewrite (io_bind_Ret (instant_now clock) _ w (clock (ticks w)) w1 eq_refl).
      by rewrite (io_bind_Ret _ _ _ _ _ H1).
    + apply map_eq. intros id. rewrite !lookup_fmap. destruct (cs !! id) as [c'|] eqn:Ec.
      * destruct (H5 id c' Ec) as (c & -> & Hr). cbn. by rewrite Hr.
      * apply not_elem_of_dom in Ec. rewrite H4 in Ec. apply not_elem_of_dom in Ec. by rewrite Ec.
Qed.

Lemma relay_run_ok ops clients w :
  relay_ok clients →
  ∃ clients' w' evs, relay_run clients ops w = Ret (clients', w') ∧ events w' = events w ++ evs ∧
    relay_ok clients' ∧ same_records clients clients' ∧ from_clients clients evs.
Proof.
  revert clients w. induction ops as [|o ops IH]; intros clients w Hok.
  { exists clients, w, []. rewrite app_nil_r. split_and!; try done. by intros p Hp%elem_of_nil. }
  destruct (relay_step_ok clients o w Hok) as (c1 & w1 & e1 & H1 & W1 & Hok1 & R1 & T1).
  destruct (IH c1 w1 Hok1) as (c2 & w2 & e2 & H2 & W2 & Hok2 & R2 & T2).
  exists c2, w2, (e1 ++ e2). cbn [relay_run]. rewrite (io_bind_Ret _ _ _ _ _ H1).
  split_and!; [done|by rewrite W2, W1, app_assoc|done|by unfold same_records in *; rewrite R2|].
  intros p [Hp|Hp]%elem_of_app; [by apply T1|]. destruct (T2 p Hp) as (id & c & Hc & Hs).
  unfold same_records in R1. apply (f_equal (λ m, m !! id)) in R1. rewrite !lookup_fmap, Hc in R1.
  destruct (clients !! id) as [c0|] eqn:E0; [|done]. injection R1 as Hr.
  exists id, c0. by rewrite <-Hr.
Qed.
End clients.

(** ** Properties of the relay *)

Definition toy_id : list byte := replicate 16 x07.
Definition toy_clients : Clients := {[ toy_id := toy_client ]}.

Lemma toy_clients_ok : relay_ok toy_clients.
Proof.
  assert (∀ id c, toy_clients !! id = Some c → id = toy_id ∧ c = toy_client) as Hone.
  { intros id c. unfold toy_clients. by rewrite lookup_singleton_Some; intros [<- <-]. }
  split.
  - intros id c [-> ->]%Hone. split; try done.
  - by intros id id' c c' [-> _]%Hone [-> _]%Hone.
Qed.

(** C3. The relay keeps serving: on every interleaving of datagrams with any
    content from anywhere, of packets from the TUN and of flusher turns, no loop
    fails, every client keeps at most eight well-formed sessions and its record,
    and what reaches the TUN has an enrolled client's own address as source. *)
Theorem relay_keeps_serving `{!Cipher} clock wall clients ops w (Hok : relay_ok clients) :
  ∃ clients' w' evs, relay_run clock wall clients ops w = Ret (clients', w') ∧
    events w' = events w ++ evs ∧ relay_ok clients' ∧ same_records clients clients' ∧
    from_clients clients evs.
Proof. by apply relay_run_ok. Qed.

Lemma relay_keeps_serving_witness :
  ∃ clients' w' evs, relay_run (H := Toy.cipher) (λ _, 0) (λ _, Some 9) toy_clients
      [Datagram toy_frame toy_address; TunPacket (toy_packet toy_host [x0a; xcb; x00; x02]); FlushTurn]
      (mk_world 0 []) = Ret (clients', w') ∧
    events w' = [] ++ evs ∧ relay_ok clients' ∧ same_records toy_clients clients' ∧
    from_clients toy_clients evs.
Proof. apply (relay_keeps_serving (λ _, 0) (λ _, Some 9)). apply toy_clients_ok. Defined.

(** C17. Only authenticated frames act: a datagram changes the relay's state, or
    makes it send or write anything, only if it opens under the session keys of
    the enrolled client it names, and then it changes that client alone. *)
Theorem only_authentic_frames_act `{!Cipher} clock wall clients frame endpoint w clients' w'
    (Hok : relay_ok clients)
    (Hrun : handle_frame clock wall clients frame endpoint w = Ret (clients', w')) :
  clients' = clients ∧ w' = w ∨
  ∃ c crypto h m, authentic clients frame c crypto h m ∧
    ∀ id, id ≠ Protocol.client_id h → clients' !! id = clients !! id.
Proof.
  destruct (handle_frame_cases clock wall clients frame endpoint w Hok)
    as [Hr|(c & crypto & h & m & Ha & [(? & ? & ? & _ & _ & _ & _ & _ & Hr)|(? & ? & ? & ? & ? & _ & _ & _ & _ & _ & _ & Hr)])];
    rewrite Hr in Hrun; injection Hrun as <- <-; [by left|right..]; exists c, crypto, h, m; (split; [done|]);
    intros id Hid; [done|by rewrite lookup_insert_ne].
Qed.

Lemma only_authentic_frames_act_witness :
  toy_clients = toy_clients ∧ mk_world 0 [] = mk_world 0 [] ∨
  ∃ c crypto h m, authentic (H := Toy.cipher) toy_clients (replicate 60 x00) c crypto h m ∧
    ∀ id, id ≠ Protocol.client_id h → toy_clients !! id = toy_clients !! id.
Proof.
  apply (only_authentic_frames_act (H := Toy.cipher) (λ _, 0) (λ _, Some 9) toy_clients (replicate 60 x00) toy_address
    (mk_world 0 []) toy_clients (mk_world 0 []) toy_clients_ok).
  unfold handle_frame. change (zlen (replicate 60 x00) <? HEADER_LEN + 16) with false. cbv iota.
  replace (decode (replicate 60 x00)) with (Ret (A := result DecodeError FrameHeader) (Err InvalidMagic))
    by (vm_compute; reflexivity).
  reflexivity.
Defined.

(** A reachability probe leaves nothing behind: to a probe that a client seals
    for a session the relay does not hold, the relay changes no state and sends one
    frame, to where the probe came from, which the client opens to the answer of
    its own probe. *)
Theorem probe_holds_no_state `{!Cipher} (laws : CipherLaws) clock wall clients c crypto h n frame reply
    endpoint w (Hc : clients !! Protocol.client_id h = Some c) (Hcid : client_id c = Protocol.client_id h)
    (Hkey : SessionCrypto.new (key c) (session_id h) = Ok crypto) (Hwf : header_wf h)
    (Hn : 0 <= n < 2 ^ 64)
    (Hflags : Protocol.flags h = FLAG_CONTROL) (Hs : sessions c !! session_id h = None)
    (Hseal : SessionCrypto.seal_client crypto h (probe_request n) = Ok frame)
    (Hreply : SessionCrypto.seal_server crypto (mk_header (Z.lor FLAG_CONTROL FLAG_SERVER_TO_CLIENT)
       (Protocol.client_id h) (session_id h) (default 0 (wrap64 <$> wall (ticks w))))
       (str "pong" ++ be_bytes 8 n) = Ok reply) :
  ∃ w' h' answer, handle_frame clock wall clients frame endpoint w = Ret (clients, w') ∧
    events w' = events w ++ [Send reply endpoint] ∧
    SessionCrypto.open_server crypto reply = Ret (Ok (h', answer)) ∧
    ∀ k, 0 <= k < 2 ^ 64 → probe_reply_matches answer k false = true ↔ n = k.
Proof.
  pose proof (open_seal _ _ _ _ _ _ Hwf Hseal eq_refl) as Hopen.
  assert (decode frame = Ret (Ok h) ∧ (zlen frame <? HEADER_LEN + 16) = false) as [Hd Hl].
  { unfold SessionCrypto.seal_client, SessionCrypto.seal in Hseal.
    destruct (encrypt _ _ _ _) as [ct|] eqn:Ec; [|done]. assert (frame = encode h ++ ct) as -> by congruence.
    split; [by apply decode_encode|]. apply Z.ltb_ge. rewrite (zlen_app (encode h)), (zlen_encode h) by apply Hwf.
    apply encrypt_length in Ec. pose proof (zlen_nonneg (probe_request n)). lia. }
  set (h' := mk_header _ _ _ _) in Hreply.
  assert (header_wf h') as Hwf'.
  { split; [done|]. split; [apply Hwf|]. split; [apply Hwf|]. cbn [h' sequence].
    destruct (wall (ticks w)); cbn; [apply Z.mod_pos_bound; lia|lia]. }
  exists (mk_world (S (ticks w)) (events w ++ [Send reply endpoint])), h', (str "pong" ++ be_bytes 8 n).
  split; [|split; [done|split; [by eapply open_seal|by intros k Hk; apply probe_answer_matches]]].
  unfold handle_frame. rewrite Hl, Hd.
  rewrite (io_bind_Ret (lift (Ret (Ok h))) _ w (Ok h) w eq_refl), Hflags.
  change (has_flag FLAG_CONTROL FLAG_SERVER_TO_CLIENT) with false. cbv iota. rewrite Hc, Hkey.
  unfold SessionCrypto.open_client. rewrite Hopen.
  rewrite (io_bind_Ret (lift (Ret (Ok (h, probe_request n)))) _ w (Ok (h, probe_request n)) w eq_refl).
  rewrite (io_bind_Ret _ _ w (Some reply) (mk_world (S (ticks w)) (events w))); [done|].
  unfold stateless_probe_reply. rewrite Hflags, Hs, probe_response_request, Hcid.
  change (negb (has_flag FLAG_CONTROL FLAG_CONTROL)) with false. rewrite bool_decide_false by by intros [].
  unfold fresh_outbound_sequence. cbn [orb]. unfold mbind, io_bind, tick, mret, io_ret. cbn [fst snd].
  fold (SessionCrypto.seal_server crypto). unfold h' in Hreply.
  by destruct (wall (ticks w)); cbn [fmap option_fmap option_map default from_option id] in Hreply; rewrite Hreply.
Qed.

Definition probe_header : FrameHeader := mk_header 1 toy_id 5 9.
Definition probe_frame : list byte :=
  match SessionCrypto.seal_client (H := Toy.cipher) (toy_crypto 5) probe_header (probe_request 77) with
  | Ok f => f | Err _ => [] end.
Definition probe_reply : list byte :=
  match SessionCrypto.seal_server (H := Toy.cipher) (toy_crypto 5) (mk_header 3 toy_id 5 33)
    (str "pong" ++ be_bytes 8 77) with
  | Ok f => f | Err _ => [] end.

Lemma probe_holds_no_state_witness :
  ∃ w' h' answer, handle_frame (H := Toy.cipher) (λ _, 0) (λ _, Some 33) toy_clients probe_frame toy_address
      (mk_world 0 []) = Ret (toy_clients, w') ∧
    events w' = [] ++ [Send probe_reply toy_address] ∧
    SessionCrypto.open_server (H := Toy.cipher) (toy_crypto 5) probe_reply = Ret (Ok (h', answer)) ∧
    ∀ k, 0 <= k < 2 ^ 64 → probe_reply_matches answer k false = true ↔ 77 = k.
Proof.
  apply (probe_holds_no_state Toy.cipher_laws (λ _, 0) (λ _, Some 33) toy_clients toy_client (toy_crypto 5)
    probe_header 77 probe_frame probe_reply toy_address (mk_world 0 []));
    [apply lookup_singleton_eq|reflexivity|reflexivity|by vm_compute|lia|reflexivity|reflexivity|
     reflexivity|reflexivity].
Defined.

(** A packet from the Internet reaches only its owner: the relay sends it,
    whole or in pieces, only as frames sealed for the newest session of the client
    whose virtual address it is for, and only to that session's own return
    addresses; no other client or session changes. *)
Theorem replies_reach_only_the_owner `{!Cipher} clock clients packet w (Hok : relay_ok clients) :
  ∃ clients' w' evs, forward_reply clock clients packet w = Ret (clients', w') ∧
    events w' = events w ++ evs ∧
    (clients' = clients ∧ evs = [] ∨ replied clients packet clients' evs).
Proof.
  destruct (forward_reply_spec clock clients packet w Hok) as (cs & w' & evs & H1 & H2 & _ & _ & _ & H6).
  by exists cs, w', evs.
Qed.

Lemma replies_reach_only_the_owner_witness :
  ∃ clients' w' evs, forward_reply (H := Toy.cipher) (λ _, 0) toy_clients (toy_packet toy_host [x0a; xcb; x00; x02])
      (mk_world 0 []) = Ret (clients', w') ∧ events w' = [] ++ evs ∧
    (clients' = toy_clients ∧ evs = [] ∨ replied (H := Toy.cipher) toy_clients
       (toy_packet toy_host [x0a; xcb; x00; x02]) clients' evs).
Proof. apply (replies_reach_only_the_owner (H := Toy.cipher) (λ _, 0) toy_clients). apply toy_clients_ok. Defined.
