(* ===== verification/Registry.v ===== *)
(** * Enrolled clients

    Models [relay/src/client_registry.rs] and the enrolment of [relay/src/main.rs]:
    the directory of client records and of revoked addresses, loading it, the
    reload that updates a running relay, revocation and enrolment. JSON is the
    interface [Serde]; a directory is the map of its files, and reading or writing
    one does not fail on its own. *)
From S2P Require Import Prelude Protocol Replay Fec Icmp Fragments Mtu Text Endpoints Auth Relay.

Definition MAX_CLIENTS : Z := 253.
Definition MAX_RECORD_BYTES : Z := 4096.

(** The JSON of client records and addresses. *)
Class Serde : Type := {
  json_of_record : ClientRecord → option (list byte);
  record_of_json : list byte → option ClientRecord;
  json_of_ipv4 : list byte → option (list byte);
  ipv4_of_json : list byte → option (list byte)
}.

(** An address is written as a quoted dotted quad and read back. *)
Class SerdeLaws `{!Serde} : Prop := {
  ipv4_round_trip a j : zlen a = 4 → json_of_ipv4 a = Some j → ipv4_of_json j = Some a;
  ipv4_short a j : json_of_ipv4 a = Some j → zlen j <= 17;
  record_ipv4_length j r : record_of_json j = Some r → zlen (record_ipv4 r) = 4
}.

(** The files of a directory by name; [read_dir] lists them in some order. *)
Notation Directory := (gmap (list byte) (list byte)).

(** [Path::extension]: what follows the last dot, if the name has more before it. *)
Fixpoint split_last_dot (name : list byte) : option (list byte * list byte) :=
  match name with
  | [] => None
  | b :: name' =>
      match split_last_dot name' with
      | Some (before, after) => Some (b :: before, after)
      | None => if bool_decide (b = x2e) then Some ([], name') else None
      end
  end.
Definition extension (name : list byte) : option (list byte) :=
  match split_last_dot name with
  | Some (_ :: _, after) => Some after
  | _ => None
  end.

Definition in_subnet (a : list byte) : bool :=
  bool_decide (sub a 0 3 = [x0a; xcb; x00]) && (2 <=? nz a 3) && (nz a 3 <=? 254).

(** ** Loading *)

Section registry.
Context `{!Codec, !Serde}.

Fixpoint read_entries (entries : list (list byte * list byte))
    (records : list (list byte * ClientRecord)) : result Error (list (list byte * ClientRecord)) :=
  match entries with
  | [] => Ok records
  | (path, contents) :: entries' =>
      if negb (bool_decide (extension path = Some (str "json"))) then read_entries entries' records
      else if MAX_CLIENTS <=? zlen records then Err (str "too many enrolled clients")
      else
        let source := take (Z.to_nat (MAX_RECORD_BYTES + 1)) contents in
        if MAX_RECORD_BYTES <? zlen source then Err (str "client record is too large") else
        match record_of_json source with
        | None => Err (str "invalid client record JSON")
        | Some r => read_entries entries' (records ++ [(path, r)])
        end
  end.

Definition read_record_files (directory : Directory) : result Error (list (list byte * ClientRecord)) :=
  read_entries (map_to_list directory) [].

Definition read_records (directory : Directory) : result Error (list ClientRecord) :=
  files ← read_record_files directory; Ok files.*2.

Fixpoint read_reserved (entries : list (list byte * list byte)) (count : Z)
    (reserved : gset (list byte)) : result Error (gset (list byte)) :=
  match entries with
  | [] => Ok reserved
  | (path, contents) :: entries' =>
      if negb (bool_decide (extension path = Some (str "revoked")))
      then read_reserved entries' count reserved
      else if MAX_CLIENTS <? count + 1 then Err (str "too many reserved client addresses")
      else
        match ipv4_of_json (take 33 contents) with
        | None => Err (str "invalid reserved client address")
        | Some address =>
            if negb (in_subnet address) then Err (str "invalid reserved client address")
            else read_reserved entries' (count + 1) ({[address]} ∪ reserved)
        end
  end.

Definition reserved_addresses (directory : Directory) : result Error (gset (list byte)) :=
  read_reserved (map_to_list directory) 0 ∅.

Fixpoint validate_loop (records : list ClientRecord) (clients : Clients) (addresses : gset (list byte))
    : result Error Clients :=
  match records with
  | [] => Ok clients
  | r :: records' =>
      '(id, k) ← material (token r);
      if negb (in_subnet (record_ipv4 r))
      then Err (str "client address must be in 10.203.0.2-254")
      else if bool_decide (is_Some (clients !! id)) || bool_decide (record_ipv4 r ∈ addresses)
      then Err (str "duplicate client ID or virtual address")
      else validate_loop records' (<[id := mk_client r id k ∅]> clients) ({[record_ipv4 r]} ∪ addresses)
  end.

Definition validate_records (records : list ClientRecord) : result Error Clients :=
  validate_loop records ∅ ∅.

Definition load_clients (directory : Directory) : result Error Clients :=
  records ← read_records directory; validate_records records.

(** ** Listing *)

Record ClientAccess : Type := mk_access {
  access_id : list byte;
  access_name : list byte;
  access_ipv4 : list byte
}.

Fixpoint bytes_le (a b : list byte) : bool :=
  match a, b with
  | [], _ => true
  | _, [] => false
  | x :: a', y :: b' => (b2z x <? b2z y) || ((b2z x =? b2z y) && bytes_le a' b')
  end.

Definition access_le (a b : ClientAccess) : bool :=
  if bool_decide (access_name a = access_name b) then bytes_le (access_id a) (access_id b)
  else bytes_le (access_name a) (access_name b).

Definition list_access (directory : Directory) : result Error (list ClientAccess) :=
  clients ← load_clients directory;
  Ok (stable_sort access_le
        ((λ kv, mk_access (record_client_id (record kv.2)) (name (record kv.2)) (record_ipv4 (record kv.2)))
           <$> map_to_list clients)).

(** ** Writing *)

(** [create_only] links the finished file to its name, which must be free; the
    other way renames it over what is there. *)
Definition write_secret (directory : Directory) (path contents : list byte) (create_only : bool)
    : result Error Directory :=
  if create_only && bool_decide (is_Some (directory !! path)) then Err (str "File exists (os error 17)")
  else Ok (<[path := contents]> directory).

(** A serialisation error becomes the I/O error of the call. *)
Definition serialised (o : option (list byte)) : result Error (list byte) :=
  match o with Some bytes => Ok bytes | None => Err (str "serialisation failed") end.

Definition revoke_access (directory : Directory) (client_id : list byte)
    : result Error (Directory * list ClientAccess) :=
  files ← read_record_files directory;
  _ ← validate_records files.*2;
  match list_find (λ f : list byte * ClientRecord, record_client_id f.2 = client_id) files with
  | None => Err (str "client access no longer exists")
  | Some (_, (path, r)) =>
      reserved ← reserved_addresses directory;
      directory ← (if bool_decide (record_ipv4 r ∈ reserved) then Ok directory
                   else contents ← serialised (json_of_ipv4 (record_ipv4 r));
                        write_secret directory (dotted (record_ipv4 r) ++ str ".revoked") contents true);
      let directory := delete path directory in
      listed ← list_access directory;
      Ok (directory, listed)
  end.

(** ** Reload *)

Definition keeps_sessions (current client : RelayClient) : bool :=
  bool_decide (key current = key client)
  && bool_decide (record_ipv4 (record current) = record_ipv4 (record client)).

Definition reconcile_one (state : bool * Clients) (entry : list byte * RelayClient) : bool * Clients :=
  let '(changed, active) := state in
  let '(id, client) := entry in
  match active !! id with
  | Some current =>
      if keeps_sessions current client
      then (changed, <[id := mk_client (record client) (Relay.client_id current) (key current)
                               (sessions current)]> active)
      else (true, <[id := client]> active)
  | None => (true, <[id := client]> active)
  end.

Definition reconcile_clients (active next : Clients) : bool * Clients :=
  let changed := existsb (λ kv, bool_decide (next !! kv.1 = None)) (map_to_list active) in
  let active := filter (λ kv, is_Some (next !! kv.1)) active in
  foldl reconcile_one (changed, active) (map_to_list next).

(** The count to report when something changed, and the clients. *)
Definition refresh_clients (directory : Directory) (active : Clients)
    : result Error (option Z * Clients) :=
  next ← load_clients directory;
  let '(changed, active) := reconcile_clients active next in
  Ok (if changed : bool then Some (zsize active) else None, active).

(** One turn of the reload loop: a directory that does not load changes nothing. *)
Definition reload_turn (directory : Directory) (active : Clients) (failed : bool) : Clients * bool :=
  match refresh_clients directory active with
  | Ok (_, active) => (active, false)
  | Err _ => (active, true)
  end.

(** ** Enrolment *)

Definition next_virtual_ip (records : list ClientRecord) (reserved : gset (list byte))
    : result Error (list byte) :=
  let used := list_to_set (C := gset Z) ((λ r, nz (record_ipv4 r) 3) <$> records) in
  match list_find (λ host, host ∉ used ∧ [x0a; xcb; x00; z2b host] ∉ reserved) (seqZ 2 253) with
  | Some (_, host) => Ok [x0a; xcb; x00; z2b host]
  | None => Err (str "client subnet is full")
  end.

(** The code points of a valid UTF-8 string. *)
Fixpoint chars (s : list byte) : list Z :=
  match s with
  | [] => []
  | a :: s1 =>
      if b2z a <? 0x80 then b2z a :: chars s1 else
      match s1 with
      | [] => []
      | b :: s2 =>
          if b2z a <? 0xe0 then (b2z a mod 32 * 64 + b2z b mod 64) :: chars s2 else
          match s2 with
          | [] => []
          | c :: s3 =>
              if b2z a <? 0xf0
              then (b2z a mod 16 * 4096 + b2z b mod 64 * 64 + b2z c mod 64) :: chars s3 else
              match s3 with
              | [] => []
              | d :: s4 =>
                  (b2z a mod 8 * 262144 + b2z b mod 64 * 4096 + b2z c mod 64 * 64 + b2z d mod 64)
                  :: chars s4
              end
          end
      end
  end.

Definition is_control (c : Z) : bool := (c <? 0x20) || ((0x7f <=? c) && (c <=? 0x9f)).

Definition is_plain (c : Z) : bool :=
  ((48 <=? c) && (c <=? 57)) || ((65 <=? c) && (c <=? 90)) || ((97 <=? c) && (c <=? 122))
  || (c =? 45) || (c =? 95).

Definition safe_name (name : list byte) : list byte :=
  (λ c, if is_plain c then z2b c else x5f) <$> chars name.

(** What [enroll] leaves: the directory, and the token written or the error. The
    random identifier and key are arguments. *)
Definition enroll (name : list byte) (label : option (list byte)) (directory : Directory)
    (virtual_ip : option (list byte)) (id k : list byte)
    : Directory * result Error (list byte) :=
  if bool_decide (trim name = []) then (directory, Err (str "client name cannot be empty")) else
  let label := trim (default name label) in
  if bool_decide (label = []) || (120 <? zlen (chars label)) || existsb is_control (chars label)
  then (directory, Err (str "client label must contain 1-120 printable characters")) else
  let checked :=
    records ← read_records directory;
    reserved ← reserved_addresses directory;
    virtual_ip ← match virtual_ip with
                 | Some address => Ok address
                 | None => next_virtual_ip records reserved
                 end;
    if negb (in_subnet virtual_ip) then Err (str "virtual IP must be in 10.203.0.2/24")
    else if existsb (λ r, bool_decide (record_ipv4 r = virtual_ip)) records
    then Err (str "virtual IP is already enrolled")
    else if bool_decide (virtual_ip ∈ reserved)
    then Err (str "virtual IP is reserved for a revoked client")
    else
      let t := generate virtual_ip id k in
      let r := mk_record label (version t) (Auth.client_id t) (pre_shared_key t) (virtual_ipv4 t) in
      contents ← serialised (json_of_record r);
      directory ← write_secret directory (safe_name name ++ str ".json") contents true;
      Ok (directory, t) in
  match checked with
  | Err e => (directory, Err e)
  | Ok (directory, t) =>
      (directory, text ← encode_token (str "serialisation failed") t; Ok (text ++ [x0a]))
  end.

End registry.

(** ** Proofs *)

Section proofs.
Context `{!Codec, !Serde}.

(** The client that a record enrols. *)
Definition keyed (r : ClientRecord) : option (list byte * RelayClient) :=
  match material (token r) with Ok (id, k) => Some (id, mk_client r id k ∅) | Err _ => None end.

(** Records that [validate_records] can load together, as [entries]. *)
Record loadable (records : list ClientRecord) (entries : list (list byte * RelayClient)) : Prop := {
  lo_keyed : mapM keyed records = Some entries;
  lo_subnet : Forall (λ r, in_subnet (record_ipv4 r) = true) records;
  lo_ids : NoDup entries.*1;
  lo_addresses : NoDup (record_ipv4 <$> records)
}.

Lemma keyed_cons r records entries :
  mapM keyed (r :: records) = Some entries ↔
  ∃ e es, keyed r = Some e ∧ mapM keyed records = Some es ∧ entries = e :: es.
Proof.
  change (mapM keyed (r :: records)) with (e ← keyed r; es ← mapM keyed records; Some (e :: es)).
  destruct (keyed r) as [e|]; cbn [mbind option_bind]; [|split; [done|by intros (? & ? & ? & _)]].
  destruct (mapM keyed records) as [es|]; cbn [mbind option_bind].
  - split; [intros [= <-]; by exists e, es|by intros (? & ? & [= <-] & [= <-] & ->)].
  - split; [done|by intros (? & ? & _ & ? & _)].
Qed.

Lemma validate_loop_spec records clients0 addresses0 clients :
  validate_loop records clients0 addresses0 = Ok clients ↔
  ∃ entries, loadable records entries ∧ (∀ id, id ∈ entries.*1 → clients0 !! id = None) ∧
    (∀ r, r ∈ records → record_ipv4 r ∉ addresses0) ∧ clients = list_to_map entries ∪ clients0.
Proof.
  revert clients0 addresses0. induction records as [|r records IH]; intros clients0 addresses0.
  { cbn [validate_loop]. split.
    - intros [= <-]. exists []. split; [by split; try constructor|]. cbn. rewrite (left_id_L ∅ (∪)). set_solver.
    - intros (entries & [Hk _ _ _] & _ & _ & ->). injection Hk as <-. cbn. by rewrite (left_id_L ∅ (∪)). }
  cbn [validate_loop]. destruct (material (token r)) as [[id k]|e] eqn:Em; cbn [mbind result_bind].
  2: { split; [done|]. intros (entries & [Hk _ _ _] & _). apply keyed_cons in Hk as (e' & es & Hk & _).
       unfold keyed in Hk. by rewrite Em in Hk. }
  set (c := mk_client r id k ∅). assert (keyed r = Some (id, c)) as Ek by (unfold keyed; by rewrite Em).
  destruct (in_subnet (record_ipv4 r)) eqn:Es; cbn [negb].
  2: { split; [done|]. intros (entries & [_ Hs _ _] & _). apply Forall_inv in Hs. by rewrite Es in Hs. }
  destruct (bool_decide_reflect (is_Some (clients0 !! id))) as [[c' Hc']|Ei]; cbn [orb].
  { split; [done|]. intros (entries & [Hk _ _ _] & Hf & _).
    apply keyed_cons in Hk as (e' & es & Hk & _ & ->). rewrite Ek in Hk. injection Hk as <-.
    rewrite (Hf id) in Hc'; [done|]. apply list_elem_of_here. }
  apply eq_None_not_Some in Ei. case_bool_decide as Ea.
  { split; [done|]. intros (entries & _ & _ & Hf & _). exfalso. by apply (Hf r (list_elem_of_here _ _)). }
  rewrite IH. clear IH. split.
  - intros (entries & [Hk Hs Hi Ha] & Hf & Hg & ->).
    assert (id ∉ entries.*1) as Hid by (intros Hin%Hf; by rewrite lookup_insert_eq in Hin).
    exists ((id, c) :: entries). split; [split|split_and!].
    + apply keyed_cons. by exists (id, c), entries.
    + by constructor.
    + by apply NoDup_cons.
    + apply NoDup_cons. split; [|done]. intros (r' & Hr' & Hin)%list_elem_of_fmap.
      apply (Hg r' Hin). rewrite Hr'. set_solver.
    + intros id' [->|Hin]%elem_of_cons; [done|]. specialize (Hf id' Hin).
      by apply lookup_insert_None in Hf as [? _].
    + intros r' [->|Hin]%elem_of_cons; [done|]. specialize (Hg r' Hin). set_solver.
    + rewrite list_to_map_cons, <-insert_union_r by (by apply not_elem_of_list_to_map_1).
      by rewrite insert_union_l.
  - intros (entries & [Hk Hs Hi Ha] & Hf & Hg & ->).
    apply keyed_cons in Hk as (e' & es & Hk & Hes & ->). rewrite Ek in Hk. injection Hk as <-.
    apply NoDup_cons in Hi as [Hni Hi]. apply NoDup_cons in Ha as [Hna Ha].
    apply Forall_cons in Hs as [_ Hs]. exists es. split; [by split|]. split_and!.
    + intros id' Hin. rewrite lookup_insert_ne by (intros ->; done). apply Hf. by apply elem_of_cons; right.
    + intros r' Hin [Hr'%elem_of_singleton|Hr']%elem_of_union.
      * apply Hna. apply list_elem_of_fmap. by exists r'.
      * by apply (Hg r'); [apply elem_of_cons; right|].
    + rewrite list_to_map_cons, <-insert_union_r by (by apply not_elem_of_list_to_map_1).
      by rewrite insert_union_l.
Qed.

(** What a load leaves can be served. *)
Lemma loadable_ok records entries :
  loadable records entries →
  relay_ok (list_to_map entries) ∧
  ∀ id c, (list_to_map entries : Clients) !! id = Some c → sessions c = ∅ ∧ record c ∈ records.
Proof.
  intros [Hk Hs Hi Ha].
  assert (∀ e, e ∈ entries → ∃ i r, records !! i = Some r ∧ entries !! i = Some e ∧ keyed r = Some e) as Hfrom.
  { intros e [i He]%list_elem_of_lookup. apply mapM_Some_1 in Hk.
    destruct (Forall2_lookup_r _ _ _ _ _ Hk He) as (r & Hr & Hre). by exists i, r. }
  assert (∀ id c, (list_to_map entries : Clients) !! id = Some c → ∃ i r k, records !! i = Some r ∧
    entries !! i = Some (id, c) ∧ material (token r) = Ok (id, k) ∧ c = mk_client r id k ∅) as Hin.
  { intros id c Hc. apply elem_of_list_to_map_2 in Hc. destruct (Hfrom _ Hc) as (i & r & Hr & He & Hkr).
    unfold keyed in Hkr. destruct (material (token r)) as [[id' k]|] eqn:Em; [|done].
    injection Hkr as -> <-. by exists i, r, k. }
  split; [split|].
  - intros id c Hc. destruct (Hin id c Hc) as (i & r & k & _ & _ & Hm & ->).
    apply material_ok in Hm as (_ & Hl & _). by split.
  - intros id id' c c' Hc Hc' Heq. destruct (Hin _ _ Hc) as (i & r & k & Hr & He & _ & ->).
    destruct (Hin _ _ Hc') as (j & r' & k' & Hr' & He' & _ & ->). cbn in Heq.
    assert (i = j) as ->; [|congruence].
    apply (NoDup_lookup _ i j (record_ipv4 r) Ha); rewrite list_lookup_fmap; [by rewrite Hr|by rewrite Hr', Heq].
  - intros id c Hc. destruct (Hin _ _ Hc) as (i & r & k & Hr & _ & _ & ->). split; [done|].
    by eapply list_elem_of_lookup_2.
Qed.

(** *** Reload *)

(** What a reload makes of a client that is enrolled. *)
Definition merged (current : option RelayClient) (client : RelayClient) : RelayClient :=
  match current with
  | Some current =>
      if keeps_sessions current client
      then mk_client (record client) (Relay.client_id current) (key current) (sessions current)
      else client
  | None => client
  end.

Definition unchanged (current : option RelayClient) (client : RelayClient) : bool :=
  match current with Some current => keeps_sessions current client | None => false end.

Lemma reconcile_one_eq changed active id client :
  reconcile_one (changed, active) (id, client)
  = (changed || negb (unchanged (active !! id) client), <[id := merged (active !! id) client]> active).
Proof.
  cbn [reconcile_one]. unfold unchanged, merged. destruct (active !! id) as [current|].
  - destruct (keeps_sessions current client); by rewrite ?orb_false_r, ?orb_true_r.
  - by rewrite orb_true_r.
Qed.

Lemma reconcile_fold l changed active :
  NoDup l.*1 →
  let st := foldl reconcile_one (changed, active) l in
  st.1 = changed || existsb (λ e, negb (unchanged (active !! e.1) e.2)) l ∧
  (∀ id c, (id, c) ∈ l → st.2 !! id = Some (merged (active !! id) c)) ∧
  (∀ id, id ∉ l.*1 → st.2 !! id = active !! id).
Proof.
  revert changed active. induction l as [|[id c] l IH]; intros changed active Hnd.
  { cbn. rewrite orb_false_r. split_and!; [done|by intros id c Hin%elem_of_nil|done]. }
  apply NoDup_cons in Hnd as [Hni Hnd]. cbn [foldl]. rewrite reconcile_one_eq.
  destruct (IH (changed || negb (unchanged (active !! id) c)) (<[id := merged (active !! id) c]> active) Hnd)
    as (H1 & H2 & H3). cbn [fst] in Hni.
  assert (∀ e, e ∈ l → e.1 ≠ id) as Hne by
    (intros e He Heq; apply Hni; rewrite <-Heq; by apply list_elem_of_fmap_2).
  split_and!.
  - rewrite H1, <-orb_assoc. f_equal. cbn [existsb fst snd]. f_equal. clear IH H1 H2 H3 Hnd Hni.
    induction l as [|e l IH]; [done|]. cbn [existsb]. rewrite lookup_insert_ne by
      (apply not_eq_sym, Hne, list_elem_of_here). f_equal. apply IH. intros. apply Hne. by apply elem_of_cons; right.
  - intros id' c' [[= -> ->]|Hin]%elem_of_cons.
    + rewrite H3 by done. apply lookup_insert_eq.
    + rewrite (H2 _ _ Hin). rewrite lookup_insert_ne; [done|]. apply not_eq_sym. by apply (Hne (id', c')).
  - intros id' Hn. cbn in Hn. rewrite H3 by set_solver. apply lookup_insert_ne. set_solver.
Qed.

(** A reload leaves the enrolled clients, each [merged] with what was active. *)
Lemma reconcile_lookup active next id :
  (reconcile_clients active next).2 !! id = merged (active !! id) <$> next !! id.
Proof.
  unfold reconcile_clients. set (kept := filter _ active).
  edestruct (reconcile_fold (map_to_list next) (existsb (λ kv, bool_decide (next !! kv.1 = None)) (map_to_list active))
    kept) as (_ & H2 & H3); [apply NoDup_fst_map_to_list|].
  destruct (next !! id) as [c|] eqn:En.
  - rewrite (H2 id c) by by apply elem_of_map_to_list. cbn. do 2 f_equal. unfold kept.
    destruct (active !! id) as [cur|] eqn:Ea.
    + apply map_lookup_filter_Some. split; [done|]. by eexists.
    + apply map_lookup_filter_None. by left.
  - rewrite H3.
    + unfold kept. apply map_lookup_filter_None. right. intros c _ [c' Hc']. cbn in Hc'. by rewrite En in Hc'.
    + intros ([id' c] & -> & Hin)%list_elem_of_fmap. apply elem_of_map_to_list in Hin. cbn in En. by rewrite En in Hin.
Qed.

Lemma reconcile_changed active next :
  (reconcile_clients active next).1 = false ↔
  dom active = dom next ∧ ∀ id c, next !! id = Some c → unchanged (active !! id) c = true.
Proof.
  unfold reconcile_clients. set (kept := filter _ active).
  edestruct (reconcile_fold (map_to_list next) (existsb (λ kv, bool_decide (next !! kv.1 = None)) (map_to_list active))
    kept) as (-> & _ & _); [apply NoDup_fst_map_to_list|].
  rewrite orb_false_iff.
  assert (∀ {A} (f : A → bool) l, existsb f l = false ↔ ∀ x, x ∈ l → f x = false) as Hex.
  { intros A f l. induction l as [|x l IH]; cbn [existsb].
    - split; [by intros _ x Hx%elem_of_nil|done].
    - rewrite orb_false_iff, IH. split.
      + intros [? ?] y [->|Hy]%elem_of_cons; auto.
      + intros Hall. split; [apply Hall, list_elem_of_here|]. intros y Hy. by apply Hall, elem_of_cons; right. }
  rewrite !Hex.
  assert (∀ id c, next !! id = Some c → kept !! id = active !! id) as Hkept.
  { intros id c Hc. unfold kept. destruct (active !! id) as [cur|] eqn:Ea.
    - apply map_lookup_filter_Some. split; [done|]. by eexists.
    - apply map_lookup_filter_None. by left. }
  split.
  - intros [Ha Hn]. assert (∀ id c, next !! id = Some c → unchanged (active !! id) c = true) as Hu.
    { intros id c Hc. specialize (Hn (id, c)). cbn in Hn. rewrite (Hkept id c Hc) in Hn.
      apply negb_false_iff, Hn. by apply elem_of_map_to_list. }
    split; [|done]. apply set_eq. intros id. rewrite !elem_of_dom. split.
    + intros [c Hc]. specialize (Ha (id, c)). cbn in Ha. apply not_eq_None_Some.
      eapply bool_decide_eq_false_1, Ha. by apply elem_of_map_to_list.
    + intros [c Hc]. specialize (Hu id c Hc). by destruct (active !! id).
  - intros [Hd Hu]. split.
    + intros [id c] Hin%elem_of_map_to_list. cbn. apply bool_decide_eq_false_2, not_eq_None_Some, elem_of_dom.
      rewrite <-Hd. apply elem_of_dom. by exists c.
    + intros [id c] Hin%elem_of_map_to_list. cbn. rewrite (Hkept id c Hin). by rewrite (Hu id c Hin).
Qed.

(** *** Reserved addresses *)

Lemma reserved_spec entries count reserved0 reserved a :
  read_reserved entries count reserved0 = Ok reserved →
  a ∈ reserved ↔ a ∈ reserved0 ∨ ∃ path contents, (path, contents) ∈ entries ∧
    extension path = Some (str "revoked") ∧ ipv4_of_json (take 33 contents) = Some a.
Proof.
  revert count reserved0. induction entries as [|[path contents] entries IH]; intros count reserved0.
  { intros [= <-]. split; [by left|]. intros [Ha|(? & ? & Hin & _)]; [done|by apply elem_of_nil in Hin]. }
  cbn [read_reserved]. case_bool_decide as Ee; cbn [negb].
  - destruct (_ <? _); [done|]. destruct (ipv4_of_json _) as [x|] eqn:Ex; [|done].
    destruct (in_subnet x); [|done]. cbn [negb]. intros ->%IH. rewrite elem_of_union, elem_of_singleton. split.
    + intros [[->|Ha]|(p & c & Hin & ? & ?)]; [right|by left|right].
      * exists path, contents. split; [apply list_elem_of_here|done].
      * exists p, c. split; [by apply elem_of_cons; right|done].
    + intros [Ha|(p & c & [[= -> ->]|Hin]%elem_of_cons & ? & Hp)]; [by left; right| |right; by exists p, c].
      left; left. congruence.
  - intros ->%IH. split.
    + intros [Ha|(p & c & Hin & Hrest)]; [by left|right]. exists p, c. split; [by apply elem_of_cons; right|done].
    + intros [Ha|(p & c & [[= -> ->]|Hin]%elem_of_cons & ? & Hp)]; [by left|done|right; by exists p, c].
Qed.

Lemma reserved_addresses_spec directory reserved a :
  reserved_addresses directory = Ok reserved →
  a ∈ reserved ↔ ∃ path contents, directory !! path = Some contents ∧
    extension path = Some (str "revoked") ∧ ipv4_of_json (take 33 contents) = Some a.
Proof.
  intros Hr. rewrite (reserved_spec _ _ _ _ a Hr), elem_of_empty. split.
  - intros [[]|(p & c & Hin%elem_of_map_to_list & Hrest)]. eauto.
  - intros (p & c & Hin%elem_of_map_to_list & Hrest). right. eauto.
Qed.

Lemma read_entries_json entries records files path r :
  read_entries entries records = Ok files → (path, r) ∈ files →
  (path, r) ∈ records ∨ extension path = Some (str "json") ∧ ∃ j, record_of_json j = Some r.
Proof.
  revert records. induction entries as [|[p contents] entries IH]; intros records; cbn [read_entries].
  { intros [= <-]. by left. }
  case_bool_decide as Ee; cbn [negb]; [|apply IH]. destruct (_ <=? _); [done|].
  destruct (_ <? _); [done|]. destruct (record_of_json _) as [x|] eqn:Ex; [|done].
  intros Hr Hin. destruct (IH _ Hr Hin) as [Hin'|]; [|by right].
  apply elem_of_app in Hin' as [|Heq%list_elem_of_singleton]; [by left|].
  injection Heq as -> ->. right. split; [done|]. by eexists.
Qed.

Lemma split_last_dot_app s t :
  (∀ b, b ∈ t → b ≠ x2e) → split_last_dot (s ++ x2e :: t) = Some (s, t).
Proof.
  intros Ht. assert (∀ u : list byte, (∀ b, b ∈ u → b ≠ x2e) → split_last_dot u = None) as Hnone.
  { intros u. induction u as [|b u IH]; [done|]. intros Hu. cbn [split_last_dot].
    rewrite IH by (intros c Hc; apply Hu, elem_of_cons; by right).
    rewrite bool_decide_false; [done|]. apply Hu, list_elem_of_here. }
  induction s as [|b s IH]; cbn [app split_last_dot].
  - by rewrite Hnone.
  - by rewrite IH.
Qed.

Lemma revoked_extension a : extension (dotted a ++ str ".revoked") = Some (str "revoked").
Proof.
  unfold extension. change (str ".revoked") with (x2e :: str "revoked"). rewrite split_last_dot_app.
  - destruct (dotted a) as [|b l] eqn:Ed; [|done]. apply (f_equal length) in Ed. unfold dotted in Ed.
    rewrite !length_app in Ed. cbn in Ed. lia.
  - intros b Hb ->. revert Hb. apply (bool_decide_unpack (x2e ∉ str "revoked")). by vm_compute.
Qed.

(** After a revocation, the address is reserved wherever its file is kept. *)
(** [r] is the one record of the client [cid]. *)
Definition revokes (records : list ClientRecord) (cid : list byte) (r : ClientRecord) : Prop :=
  r ∈ records ∧ record_client_id r = cid ∧ ∀ r', r' ∈ records → record_client_id r' = cid → r' = r.

Lemma keyed_id r r' e e' :
  keyed r = Some e → keyed r' = Some e' → record_client_id r' = record_client_id r → e'.1 = e.1.
Proof.
  unfold keyed, material, token. intros He He' Hid. cbn [version Auth.client_id pre_shared_key] in *. rewrite Hid in He'.
  destruct (b64_decode (record_client_id r)) as [id|]; repeat (case_match; try done); naive_solver.
Qed.

Lemma valid_revokes records clients r cid :
  validate_records records = Ok clients → r ∈ records → record_client_id r = cid → revokes records cid r.
Proof.
  intros Hv Hr Hcid. split_and!; [done|done|]. intros r' Hr' Hcid'.
  apply validate_loop_spec in Hv as (entries & [Hk _ Hn _] & _). apply mapM_Some_1 in Hk.
  apply list_elem_of_lookup in Hr as [i Hi], Hr' as [j Hj].
  destruct (Forall2_lookup_l _ _ _ _ _ Hk Hi) as (e & He & Ke), (Forall2_lookup_l _ _ _ _ _ Hk Hj) as (e' & He' & Ke').
  assert (e'.1 = e.1) as E by (eapply keyed_id; [exact Ke|exact Ke'|congruence]).
  assert (i = j) as <-; [|congruence].
  eapply NoDup_lookup; [exact Hn|by rewrite list_lookup_fmap, He|by rewrite list_lookup_fmap, He'; cbn; rewrite E].
Qed.

Lemma revoke_reserves `{!SerdeLaws} directory cid directory' listed :
  revoke_access directory cid = Ok (directory', listed) →
  ∃ records path r contents, read_records directory = Ok records ∧ revokes records cid r ∧
    directory' !! path = Some contents ∧
    extension path = Some (str "revoked") ∧ ipv4_of_json (take 33 contents) = Some (record_ipv4 r).
Proof.
  unfold revoke_access. destruct (read_record_files directory) as [files|] eqn:Ef; [|done].
  cbn [mbind result_bind]. destruct (validate_records _) as [cs|] eqn:Ev; [|done]. cbn [mbind result_bind].
  destruct (list_find _ files) as [[i [path r]]|] eqn:El; [|done].
  apply list_find_Some in El as (Hi%list_elem_of_lookup_2 & Hcid & _). cbn [snd] in Hcid.
  assert (read_records directory = Ok files.*2) as Hrec by (unfold read_records; by rewrite Ef).
  assert (revokes files.*2 cid r) as Hrev.
  { eapply valid_revokes; [exact Ev| |done]. apply list_elem_of_fmap. by exists (path, r). }
  assert (extension path = Some (str "json") ∧ ∃ j, record_of_json j = Some r) as [Hext [jr Hjr]].
  { destruct (read_entries_json _ _ _ _ _ Ef Hi) as [Hin|]; [by apply elem_of_nil in Hin|done]. }
  assert (∀ p, extension p = Some (str "revoked") → path ≠ p) as Hne by
    (intros p Hp ->; rewrite Hext in Hp; vm_compute in Hp; discriminate).
  destruct (reserved_addresses directory) as [reserved|] eqn:Er; [|done]. cbn [mbind result_bind].
  case_bool_decide as Ea.
  - cbn [mbind result_bind]. destruct (list_access _); [|done]. cbn [mbind result_bind]. intros [= <- <-].
    apply (reserved_addresses_spec _ _ _ Er) in Ea as (p & c & Hp & Hpe & Hj).
    exists files.*2, p, r, c. do 2 (split; [done|]). split; [|done]. rewrite lookup_delete_ne; [done|]. by apply Hne.
  - destruct (json_of_ipv4 (record_ipv4 r)) as [j|] eqn:Ej; [|done]. cbn [serialised mbind result_bind].
    unfold write_secret. destruct (true && _); [done|]. cbn [mbind result_bind].
    destruct (list_access _); [|done]. cbn [mbind result_bind]. intros [= <- <-].
    exists files.*2, (dotted (record_ipv4 r) ++ str ".revoked"), r, j. do 2 (split; [done|]).
    pose proof (revoked_extension (record_ipv4 r)) as Hx. split; [|split; [done|]].
    + rewrite lookup_delete_ne by by apply Hne. apply lookup_insert_eq.
    + rewrite take_ge; [apply ipv4_round_trip; [by eapply record_ipv4_length|done]|].
      pose proof (ipv4_short _ _ Ej). unfold zlen in *. lia.
Qed.

(** What a successful enrolment has checked. *)
Lemma enroll_checked name label directory ip id k directory' text :
  enroll name label directory ip id k = (directory', Ok text) →
  ∃ a records reserved, read_records directory = Ok records ∧ reserved_addresses directory = Ok reserved ∧
    in_subnet a = true ∧ (∀ r, r ∈ records → record_ipv4 r ≠ a) ∧ a ∉ reserved ∧
    (∀ x, ip = Some x → x = a) ∧
    ∃ token_text, encode_token (str "serialisation failed") (generate a id k) = Ok token_text ∧
      text = token_text ++ [x0a].
Proof.
  unfold enroll. case_bool_decide; [done|]. cbn zeta. destruct (_ || _); [done|].
  destruct (read_records directory) as [records|]; [|done]. cbn [mbind result_bind].
  destruct (reserved_addresses directory) as [reserved|]; [|done]. cbn [mbind result_bind].
  destruct (match ip with Some _ => _ | None => _ end) as [a|] eqn:Ea; [|done]. cbn [mbind result_bind].
  destruct (in_subnet a) eqn:Es; [|done]. cbn [negb].
  destruct (existsb _ records) eqn:Ex; [done|]. case_bool_decide as Er; [done|].
  destruct (json_of_record _) as [j|]; [|done]. cbn [serialised mbind result_bind].
  destruct (write_secret _ _ _ _) as [d|]; [|done]. cbn [mbind result_bind].
  destruct (encode_token _ _) as [t|] eqn:Et; [|done]. cbn [mbind result_bind]. intros [= <- <-].
  exists a, records, reserved. split_and!; try done; [| |by exists t].
  - intros r Hr Heq. apply not_true_iff_false in Ex. apply Ex. apply existsb_exists.
    exists r. split; [by apply list_elem_of_In|]. by apply bool_decide_eq_true_2.
  - intros x ->. by injection Ea.
Qed.
End proofs.

(** ** Properties *)

(** Records load exactly when each has valid key material and an address in
    the client subnet and no two share an identifier or an address; the clients
    are then those of the records, without sessions, and the relay can serve
    them. *)
Theorem records_load_iff_distinct `{!Codec} records clients :
  (validate_records records = Ok clients ↔
     ∃ entries, loadable records entries ∧ clients = list_to_map entries) ∧
  (validate_records records = Ok clients →
     relay_ok clients ∧ ∀ id c, clients !! id = Some c → sessions c = ∅ ∧ record c ∈ records).
Proof.
  assert (validate_records records = Ok clients ↔
    ∃ entries, loadable records entries ∧ clients = list_to_map entries) as Hiff.
  { unfold validate_records. rewrite validate_loop_spec. setoid_rewrite (right_id_L ∅ (∪)).
    split; [intros (es & ? & _ & _ & ?); by exists es|]. intros (es & ? & ?). exists es.
    split_and!; [done|by intros; apply lookup_empty|set_solver|done]. }
  split; [done|]. intros (es & Hl & ->)%Hiff. by apply loadable_ok.
Qed.

(** A reload never disturbs a client whose key and address are unchanged: it
    keeps its sessions, with their sequences and replay windows, and takes its new
    record. A client whose key or address changed starts without its old sessions,
    one no longer enrolled is gone, and the relay stays well formed. The reload
    reports a change exactly when some client came, went or changed. *)
Theorem reload_keeps_live_sessions active next (Ha : relay_ok active) (Hn : relay_ok next) :
  let result := (reconcile_clients active next).2 in
  relay_ok result ∧ record <$> result = record <$> next ∧
  (∀ id c c', next !! id = Some c → active !! id = Some c' → key c' = key c →
     record_ipv4 (record c') = record_ipv4 (record c) →
     result !! id = Some (mk_client (record c) id (key c') (sessions c'))) ∧
  (∀ id c, next !! id = Some c → (∀ c', active !! id = Some c' →
     key c' ≠ key c ∨ record_ipv4 (record c') ≠ record_ipv4 (record c)) → result !! id = Some c) ∧
  ((reconcile_clients active next).1 = false ↔
     dom active = dom next ∧ ∀ id c c', next !! id = Some c → active !! id = Some c' →
       key c' = key c ∧ record_ipv4 (record c') = record_ipv4 (record c)).
Proof.
  cbn zeta. set (result := (reconcile_clients active next).2).
  assert (∀ id, result !! id = merged (active !! id) <$> next !! id) as Hr by (intros; apply reconcile_lookup).
  assert (∀ a c, keeps_sessions a c = true ↔ key a = key c ∧ record_ipv4 (record a) = record_ipv4 (record c)) as Hk.
  { intros a c. unfold keeps_sessions. by rewrite andb_true_iff, !bool_decide_eq_true. }
  assert (∀ o c, record (merged o c) = record c) as Hrec.
  { intros [a|] c; cbn; [by destruct (keeps_sessions a c)|done]. }
  split_and!.
  - split.
    + intros id c'. rewrite Hr. intros (c & Hc & ->)%fmap_Some. pose proof (ro_clients _ Hn _ _ Hc) as Hcok.
      destruct (active !! id) as [a|] eqn:Ea; cbn; [|done]. destruct (keeps_sessions a c) eqn:Ek; [|done].
      destruct (ro_clients _ Ha _ _ Ea) as [H1 H2 H3 H4 H5]. apply Hk in Ek as [_ Ek].
      split; try done. cbn. by rewrite <-Ek.
    + intros id id' c c'. rewrite !Hr. intros (d & Hd & ->)%fmap_Some (d' & Hd' & ->)%fmap_Some.
      rewrite !Hrec. by apply (ro_addresses _ Hn).
  - apply map_eq. intros id. rewrite !lookup_fmap, Hr. destruct (next !! id); cbn; [|done]. by rewrite Hrec.
  - intros id c c' Hc Hc' Hkey Hip. rewrite Hr, Hc, Hc'. cbn. rewrite (proj2 (Hk _ _)) by done.
    by rewrite (co_id _ _ (ro_clients _ Ha _ _ Hc')).
  - intros id c Hc Hd. rewrite Hr, Hc. cbn. destruct (active !! id) as [a|]; cbn; [|done].
    destruct (keeps_sessions a c) eqn:Ek; [|done]. apply Hk in Ek as [? ?]. by destruct (Hd a eq_refl).
  - rewrite reconcile_changed. split; intros [Hd Hu]; (split; [done|]).
    + intros id c c' Hc Hc'. specialize (Hu id c Hc). rewrite Hc' in Hu. by apply Hk.
    + intros id c Hc. assert (is_Some (active !! id)) as [c' Hc'] by (apply elem_of_dom; rewrite Hd; by apply elem_of_dom).
      rewrite Hc'. cbn. apply Hk. by apply (Hu id).
Qed.

Lemma reload_keeps_live_sessions_witness :
  record <$> (reconcile_clients toy_clients toy_clients).2 = record <$> toy_clients.
Proof. apply (reload_keeps_live_sessions toy_clients toy_clients toy_clients_ok toy_clients_ok). Defined.

(** C22. A revoked client's address is never handed out again. The client revoked is the
    one record of the directory with its identifier; as long as the directory keeps the
    files of revoked addresses, whatever else becomes of it, an enrolment that succeeds,
    whether it asks for an address or takes the next one, gives a valid address that is
    neither enrolled nor the one of that record. *)
Theorem revoked_address_is_never_reissued `{!Codec, !Serde} (laws : SerdeLaws) directory cid directory' listed
    (Hrevoke : revoke_access directory cid = Ok (directory', listed)) :
  ∃ records r, read_records directory = Ok records ∧ revokes records cid r ∧
    ∀ later name label ip id k later' text,
      (∀ path contents, directory' !! path = Some contents → extension path = Some (str "revoked") →
         later !! path = Some contents) →
      enroll name label later ip id k = (later', Ok text) →
      ∃ a token_text records', encode_token (str "serialisation failed") (generate a id k) = Ok token_text ∧
        text = token_text ++ [x0a] ∧ a ≠ record_ipv4 r ∧ in_subnet a = true ∧
        read_records later = Ok records' ∧ ∀ r', r' ∈ records' → record_ipv4 r' ≠ a.
Proof.
  apply revoke_reserves in Hrevoke as (before & path & r & contents & Hbefore & Hrev & Hp & Hx & Hj).
  exists before, r. do 2 (split; [done|]). intros later name label ip id k later' text Hkeep Henroll.
  apply enroll_checked in Henroll as (a & records & reserved & Hrec & Hres & Hsub & Hfree & Hnot & _ & t & Ht & ->).
  exists a, t, records. split_and!; try done. intros ->. apply Hnot.
  apply (reserved_addresses_spec _ _ _ Hres). exists path, contents. split_and!; [by apply Hkeep|done..].
Qed.

(** A concrete serialisation: fixed-width fields, then the name. *)
Module ToySerde.
Definition toy_record_json (r : ClientRecord) : option (list byte) :=
  Some (z2b (record_version r) :: record_ipv4 r ++ record_client_id r ++ record_key r ++ name r).
Definition toy_json_record (l : list byte) : option ClientRecord :=
  match l with
  | v :: l =>
      if 100 <=? zlen l
      then Some (mk_record (sub l 100 (zlen l)) (b2z v) (sub l 4 36) (sub l 36 100) (sub l 0 4)) else None
  | [] => None
  end.
#[export] Instance serde : Serde := {|
  json_of_record := toy_record_json; record_of_json := toy_json_record;
  json_of_ipv4 a := if zlen a =? 4 then Some a else None;
  ipv4_of_json a := if zlen a =? 4 then Some a else None |}.
#[export] Instance serde_laws : SerdeLaws.
Proof.
  split; unfold json_of_ipv4, ipv4_of_json, record_of_json, serde.
  - intros a j Ha. rewrite Ha. intros [= <-]. by rewrite Ha.
  - intros a j. destruct (Z.eqb_spec (zlen a) 4); [|done]. intros [= <-]. lia.
  - intros [|v l] r; [done|]. unfold toy_json_record. destruct (Z.leb_spec 100 (zlen l)); [|done].
    intros [= <-]. apply (zlen_sub l 0 4); lia.
Qed.
End ToySerde.

Definition toy_record (n : byte) (i : byte) : ClientRecord :=
  mk_record (str "pc") 1 (ToyCodec.toy_b64 (replicate 16 i)) (ToyCodec.toy_b64 (replicate 32 x09)) [x0a; xcb; x00; n].
Definition toy_directory : Directory :=
  {[ str "a.json" := default [] (ToySerde.toy_record_json (toy_record x02 x07));
     str "b.json" := default [] (ToySerde.toy_record_json (toy_record x03 x08)) ]}.
Definition toy_revoked : list byte := ToyCodec.toy_b64 (replicate 16 x07).

Definition toy_revocation := @revoke_access ToyCodec.codec ToySerde.serde toy_directory toy_revoked.
Definition toy_enrolment (directory : Directory) :=
  @enroll ToyCodec.codec ToySerde.serde (str "new") None directory None (replicate 16 x0a) (replicate 32 x0b).

(** After the revocation of 10.203.0.2 the next address is 10.203.0.4: the third is
    enrolled. *)
Lemma toy_revokes :
  match toy_revocation with
  | Ok (directory, _) =>
      match toy_enrolment directory with
      | (later, Ok _) =>
          match @read_records ToySerde.serde later with
          | Ok l => bool_decide ([x0a; xcb; x00; x04] ∈ record_ipv4 <$> l) = true
          | Err _ => False
          end
      | _ => False
      end
  | Err _ => False
  end.
Proof. by vm_compute. Qed.

Lemma revoked_address_is_never_reissued_witness :
  ∃ directory' listed later' text a,
    toy_revocation = Ok (directory', listed) ∧ toy_enrolment directory' = (later', Ok text) ∧
    a ≠ [x0a; xcb; x00; x02] ∧ in_subnet a = true.
Proof.
  pose proof toy_revokes as Htoy. destruct toy_revocation as [[directory' listed]|e] eqn:Er; [|destruct Htoy].
  destruct (toy_enrolment directory') as [later' [text|e]] eqn:Ee; [|destruct Htoy].
  destruct (@revoked_address_is_never_reissued ToyCodec.codec ToySerde.serde ToySerde.serde_laws
    toy_directory toy_revoked directory' listed Er) as (records & r & Hrecords & (Hr & Hid & _) & Hall).
  destruct (Hall directory' (str "new") None None _ _ later' text (λ _ _ H _, H) Ee)
    as (a & _ & _ & _ & _ & Hne & Hsub & _).
  exists directory', listed, later', text, a. do 2 (split; [done|]). split; [|exact Hsub].
  assert (r = toy_record x02 x07) as ->; [|exact Hne].
  assert (@read_records ToySerde.serde toy_directory = Ok [toy_record x03 x08; toy_record x02 x07]) as Hread
    by (vm_compute; reflexivity).
  rewrite Hread in Hrecords. injection Hrecords as <-. apply elem_of_cons in Hr as [->|Hr]; [|by apply list_elem_of_singleton in Hr].
  exfalso. vm_compute in Hid. discriminate Hid.
Defined.
