(* ===== verification/Scheduler.v ===== *)
(** * Path scheduler

    Models [engine/src/scheduler.rs]: the moving averages of a route's health, in
    executable binary64, and the choice of the routes that carry a packet under
    each strategy. *)
From Stdlib Require Import Sorting.Sorted.
From S2P Require Import Prelude Float64.

Definition SMOOTHING : f64 := ratio 2 10.
Definition LOSS_SMOOTHING : f64 := ratio 5 100.
Definition LOSSES_BEFORE_INACTIVE : Z := 3.
Definition ADAPTIVE_DUPLICATE_DELAY_BUDGET_MS : f64 := of_int 100.
Definition INCUMBENCY_MARGIN : f64 := of_int 8.
Definition INCUMBENCY_JITTER_MARGIN : f64 := of_int 1.
Definition PROBES_TO_SETTLE : Z := 10.
Definition SPIKE_RISE_MIN_MS : f64 := of_int 25.
Definition SPIKE_RISE_RATIO : f64 := ratio 1 2.
Definition SETTLED_ROUTES_WANTED : Z := 2.
Definition u32_max : Z := 2 ^ 32 - 1.

(** ** A route's metrics *)

Record PathMetrics : Type := mk_metrics {
  id : list byte;
  endpoint_ipv4 : option (list byte);
  active : bool;
  samples : Z;
  latency_ms : f64;
  jitter_ms : f64;
  loss_ratio : f64;
  last_latency_ms : option f64;
  consecutive_losses : Z;
  unsettled_probes : Z
}.

Definition new (id : list byte) : PathMetrics :=
  mk_metrics id None true 0 (of_int 0) (of_int 0) (of_int 0) None 0 0.

Definition ewma_with (previous sample smoothing : f64) : f64 :=
  fadd previous (fmul smoothing (fsub sample previous)).
Definition ewma (previous sample : f64) : f64 := ewma_with previous sample SMOOTHING.

Definition decayed_loss (p : PathMetrics) (sample : f64) : f64 :=
  fclamp (ewma_with (loss_ratio p) sample LOSS_SMOOTHING) (of_int 0) (of_int 1).

Definition record_probe (p : PathMetrics) (latency : f64) : PathMetrics :=
  let latency := fmax latency (of_int 0) in
  let '(unsettled, jitter, smoothed) :=
    match last_latency_ms p with
    | None => (unsettled_probes p, jitter_ms p, latency)
    | Some _ =>
        let spike := fmax SPIKE_RISE_MIN_MS (fmul (latency_ms p) SPIKE_RISE_RATIO) in
        let unsettled := if fle spike (fsub latency (latency_ms p)) then PROBES_TO_SETTLE
                         else sat_sub (unsettled_probes p) 1 in
        let deviation := fabs (fsub latency (latency_ms p)) in
        (unsettled, ewma (jitter_ms p) deviation, ewma (latency_ms p) latency)
    end in
  mk_metrics (id p) (endpoint_ipv4 p) true (samples p + 1) smoothed jitter
    (decayed_loss p (of_int 0)) (Some latency) 0 unsettled.

Definition record_loss (p : PathMetrics) : PathMetrics :=
  let losses := Z.min (consecutive_losses p + 1) u32_max in
  mk_metrics (id p) (endpoint_ipv4 p)
    (if LOSSES_BEFORE_INACTIVE <=? losses then false else active p)
    (samples p + 1) (latency_ms p) (jitter_ms p) (decayed_loss p (of_int 1)) (last_latency_ms p)
    losses PROBES_TO_SETTLE.

Definition is_settled (p : PathMetrics) : bool := unsettled_probes p =? 0.

Definition measured (p : PathMetrics) : bool := bool_decide (is_Some (last_latency_ms p)).

Definition score (p : PathMetrics) : f64 :=
  if negb (active p) || negb (measured p) then infinity
  else fadd (fadd (latency_ms p) (fmul (jitter_ms p) (of_int 2))) (fmul (loss_ratio p) (of_int 200)).

Definition shares_endpoint (p other : PathMetrics) : bool :=
  bool_decide (is_Some (endpoint_ipv4 p)) && bool_decide (endpoint_ipv4 p = endpoint_ipv4 other).

Definition incumbency_margin (p : PathMetrics) : f64 :=
  fadd INCUMBENCY_MARGIN (fmul (jitter_ms p) INCUMBENCY_JITTER_MARGIN).

(** Settled routes, counting those on one server once; [before] is what precedes. *)
Fixpoint settled_count (before paths : list PathMetrics) : Z :=
  match paths with
  | [] => 0
  | p :: paths' =>
      (if is_settled p && negb (existsb (λ other, is_settled other && shares_endpoint p other) before)
       then 1 else 0) + settled_count (before ++ [p]) paths'
  end.
Definition settled_path_count (paths : list PathMetrics) : Z := settled_count [] paths.

(** ** The decision *)

Inductive Strategy : Type := FastestPath | Duplicate | Adaptive | AllPaths.

#[export] Instance Strategy_eq_dec : EqDecision Strategy.
Proof. solve_decision. Defined.

Inductive Decision : Type :=
| Drop
| Single (path_id : list byte)
| Duplicated (path_ids : list (list byte)).

(** [iter.min_by(total_cmp)], the first of the least. *)
Definition first_min (cost : PathMetrics → f64) (l : list PathMetrics) : option PathMetrics :=
  foldl (λ best p, match best with
                   | Some b => if total_le (cost b) (cost p) then Some b else Some p
                   | None => Some p
                   end) None l.

Section choose.
Context (incumbent : list (list byte)).

Definition holding (p : PathMetrics) : bool := existsb (λ i, bool_decide (i = id p)) incumbent.

Definition ranked (p : PathMetrics) : f64 :=
  if holding p then fsub (score p) (incumbency_margin p) else score p.

Definition last_resort_cost (p : PathMetrics) : f64 :=
  let cost := fadd (latency_ms p) (fmul (jitter_ms p) (of_int 2)) in
  if holding p then fsub cost (incumbency_margin p) else cost.

Definition degraded (p : PathMetrics) : bool :=
  fle (ratio 1 2) (loss_ratio p) || fle (of_int 50) (jitter_ms p).

Definition delivery_delay (p : PathMetrics) : f64 :=
  fmax (fadd (latency_ms p) (fmul (jitter_ms p) (of_int 2))) (default (of_int 0) (last_latency_ms p)).

Definition unsettled_carrier (p : PathMetrics) : bool := holding p && negb (is_settled p).

(** The routes that can carry traffic, best first. *)
Definition healthy_paths (paths : list PathMetrics) : list PathMetrics :=
  stable_sort (λ l r, total_le (ranked l) (ranked r))
    (filter (λ p, active p && measured p = true) paths).

Definition quickest_delivery (healthy : list PathMetrics) : f64 :=
  foldl (λ m p, fmin m (delivery_delay p)) infinity healthy.

Definition within_budget (quickest : f64) (p : PathMetrics) : bool :=
  fle (delivery_delay p) (fadd quickest ADAPTIVE_DUPLICATE_DELAY_BUDGET_MS).

(** A comparable route on a second server takes the second place. *)
Definition prefer_second_server (strategy : Strategy) (quickest : f64) (best : PathMetrics)
    (healthy : list PathMetrics) : list PathMetrics :=
  match get healthy 1 with
  | Some second =>
      if bool_decide (strategy = Adaptive) && shares_endpoint best second then
        match list_find (λ p, negb (bool_decide (id p = id best)) && negb (shares_endpoint best p)
                                && within_budget quickest p && negb (degraded p) = true) healthy with
        | Some (index, backup) =>
            let rest := take index healthy ++ drop (S index) healthy in
            take 1 rest ++ [backup] ++ drop 1 rest
        | None => healthy
        end
      else healthy
  | None => healthy
  end.

(** The loop that fills the carrying set, one route at a time. *)
Fixpoint fill (independent : bool) (quickest : f64) (healthy chosen : list PathMetrics)
    : list PathMetrics :=
  match healthy with
  | [] => chosen
  | p :: healthy' =>
      if (2 <=? zlen chosen) && (negb independent || (SETTLED_ROUTES_WANTED <=? settled_path_count chosen))
      then chosen
      else if (2 <=? zlen chosen) && (negb (within_budget quickest p) || negb (is_settled p))
      then fill independent quickest healthy' chosen
      else fill independent quickest healthy' (chosen ++ [p])
  end.

(** Incumbents that just misbehaved stay in beside the others. *)
Fixpoint keep_carriers (healthy chosen : list PathMetrics) : list PathMetrics :=
  match healthy with
  | [] => chosen
  | p :: healthy' =>
      if unsettled_carrier p && negb (existsb (λ c, bool_decide (id c = id p)) chosen)
      then keep_carriers healthy' (chosen ++ [p])
      else keep_carriers healthy' chosen
  end.

Definition carrying_set (quickest : f64) (healthy : list PathMetrics) : list PathMetrics :=
  let independent := SETTLED_ROUTES_WANTED <=? settled_path_count healthy in
  let chosen := fill independent quickest healthy [] in
  if independent then keep_carriers healthy chosen else chosen.

Definition choose_paths_with_incumbent (paths : list PathMetrics) (strategy : Strategy) : Decision :=
  let healthy := healthy_paths paths in
  match head healthy with
  | None =>
      match first_min last_resort_cost (filter (λ p, measured p = true) paths) with
      | Some p => Single (id p)
      | None => Drop
      end
  | Some best =>
      if bool_decide (strategy = AllPaths) then
        if zlen healthy =? 1 then Single (id best) else Duplicated (id <$> healthy)
      else if (zlen healthy =? 1) || bool_decide (strategy = FastestPath) then Single (id best)
      else
        let quickest := quickest_delivery healthy in
        let healthy := prefer_second_server strategy quickest best healthy in
        let all_degraded := forallb degraded (take 2 healthy) in
        let latency_comparable :=
          2 <=? zlen (filter (λ p, within_budget quickest p || unsettled_carrier p = true) healthy) in
        if bool_decide (strategy = Duplicate) || (negb all_degraded && latency_comparable)
        then Duplicated (id <$> carrying_set quickest healthy)
        else Single (id best)
  end.
End choose.

Definition choose_paths (paths : list PathMetrics) (strategy : Strategy) : Decision :=
  choose_paths_with_incumbent [] paths strategy.

(** ** Proofs *)

Definition ids_of (d : Decision) : list (list byte) :=
  match d with Drop => [] | Single i => [i] | Duplicated l => l end.

Section choice.
Context (incumbent : list (list byte)) (paths : list PathMetrics).
Hypothesis Hids : NoDup (id <$> paths).

Definition usable (p : PathMetrics) : Prop := p ∈ paths ∧ active p = true ∧ is_Some (last_latency_ms p).

Notation healthy := (healthy_paths incumbent paths).

Lemma healthy_spec p : p ∈ healthy ↔ usable p.
Proof.
  unfold healthy_paths, usable. rewrite stable_sort_perm, list_elem_of_filter, andb_true_iff.
  unfold measured. rewrite bool_decide_eq_true. tauto.
Qed.

Lemma healthy_sorted : StronglySorted (λ l r, total_le (ranked incumbent l) (ranked incumbent r) = true) healthy.
Proof.
  apply stable_sort_sorted.
  - intros x y. apply total_le_total.
  - intros x y z. apply total_le_trans.
Qed.

Lemma healthy_ids : NoDup (id <$> healthy).
Proof.
  unfold healthy_paths. rewrite stable_sort_perm. eapply sublist_NoDup; [exact Hids|].
  apply sublist_fmap, sublist_filter.
Qed.
End choice.

Lemma first_min_spec cost l :
  match first_min cost l with Some p => p ∈ l | None => l = [] end.
Proof.
  unfold first_min. induction l as [|p l IH] using rev_ind; [done|]. rewrite foldl_app. cbn [foldl].
  destruct (foldl _ None l) as [b|].
  - destruct (total_le _ _); apply elem_of_snoc; auto.
  - apply elem_of_snoc. by right.
Qed.

Lemma prefer_perm strategy quickest best rest :
  ∃ l, prefer_second_server strategy quickest best (best :: rest) = best :: l ∧ l ≡ₚ rest.
Proof.
  unfold prefer_second_server. destruct (get _ 1) as [second|]; [|by exists rest].
  destruct (_ && _); [|by exists rest].
  destruct (list_find _ _) as [[i backup]|] eqn:Ef; [|by exists rest].
  apply list_find_Some in Ef as (Hi & Hb & _). b2p. destruct i as [|i].
  { injection Hi as <-. by rewrite bool_decide_true in *. }
  cbn [take drop app lookup list_lookup] in *. cbn [app take drop]. eexists. split; [reflexivity|].
  rewrite take_0, drop_0. cbn [app].
  transitivity (take i rest ++ backup :: drop (S i) rest); [by rewrite Permutation_middle|by rewrite take_drop_middle].
Qed.

Lemma fill_spec independent quickest healthy chosen :
  ∃ l, fill independent quickest healthy chosen = chosen ++ l ∧ l `sublist_of` healthy ∧
    (2 <= zlen chosen + zlen healthy → 2 <= zlen chosen + zlen l).
Proof.
  revert chosen. induction healthy as [|p healthy IH]; intros chosen; cbn [fill].
  { exists []. rewrite app_nil_r. by split_and!. }
  destruct (2 <=? zlen chosen) eqn:E2; cbn [andb]; [apply Z.leb_le in E2|apply Z.leb_gt in E2].
  - destruct (_ || _).
    { exists []. rewrite app_nil_r. split_and!; [done|apply sublist_nil_l|]. intros. pose proof (zlen_nonneg (@nil PathMetrics)). lia. }
    destruct (_ || _).
    + destruct (IH chosen) as (l & -> & Hl & _). exists l. split_and!; [done|by apply sublist_cons|].
      intros. pose proof (zlen_nonneg l). lia.
    + destruct (IH (chosen ++ [p])) as (l & -> & Hl & _). exists (p :: l). rewrite <-app_assoc.
      split_and!; [done|by apply sublist_skip|]. intros. pose proof (zlen_nonneg (p :: l)). lia.
  - destruct (IH (chosen ++ [p])) as (l & -> & Hl & Hn). exists (p :: l). rewrite <-app_assoc.
    split_and!; [done|by apply sublist_skip|]. rewrite zlen_app, !zlen_cons, zlen_nil in *. lia.
Qed.

Lemma keep_carriers_spec incumbent healthy chosen :
  NoDup (id <$> chosen) →
  ∃ l, keep_carriers incumbent healthy chosen = chosen ++ l ∧ (∀ p, p ∈ l → p ∈ healthy) ∧
    NoDup (id <$> chosen ++ l).
Proof.
  revert chosen. induction healthy as [|p healthy IH]; intros chosen Hnd; cbn [keep_carriers].
  { exists []. rewrite app_nil_r. split_and!; [done|by intros p Hp%elem_of_nil|done]. }
  destruct (unsettled_carrier incumbent p && _) eqn:E.
  - apply andb_true_iff in E as [_ E%negb_true_iff].
    destruct (IH (chosen ++ [p])) as (l & -> & Hl & Hnd').
    { rewrite fmap_app. apply NoDup_app. split; [done|]. split; [|apply NoDup_singleton].
      intros i (c & -> & Hc)%list_elem_of_fmap Hi%list_elem_of_singleton.
      apply not_true_iff_false in E. apply E, existsb_exists. exists c.
      split; [by apply list_elem_of_In|]. by apply bool_decide_eq_true_2. }
    exists (p :: l). rewrite <-app_assoc in *. split_and!; [done| |done].
    intros q [->|Hq]%elem_of_cons; [apply list_elem_of_here|apply elem_of_cons; auto].
  - destruct (IH chosen Hnd) as (l & -> & Hl & Hnd'). exists l. split_and!; [done| |done].
    intros q Hq. apply elem_of_cons; auto.
Qed.

Lemma carrying_set_spec incumbent quickest healthy :
  NoDup (id <$> healthy) →
  (∀ p, p ∈ carrying_set incumbent quickest healthy → p ∈ healthy) ∧
  NoDup (id <$> carrying_set incumbent quickest healthy) ∧
  (2 <= zlen healthy → 2 <= zlen (carrying_set incumbent quickest healthy)).
Proof.
  intros Hnd. unfold carrying_set. set (independent := _ <=? _).
  destruct (fill_spec independent quickest healthy []) as (l & Hf & Hl & Hn). rewrite Hf. cbn [app].
  change (zlen (@nil PathMetrics)) with 0 in Hn.
  assert (NoDup (id <$> l)) as Hndl by (eapply sublist_NoDup; [exact Hnd|by apply sublist_fmap]).
  assert (∀ p, p ∈ l → p ∈ healthy) as Hin by (intros p Hp; by eapply elem_of_sublist).
  destruct independent.
  - destruct (keep_carriers_spec incumbent healthy l Hndl) as (k & -> & Hk & Hndk). split_and!.
    + intros p [Hp|Hp]%elem_of_app; auto.
    + done.
    + rewrite zlen_app. pose proof (zlen_nonneg k). lia.
  - split_and!; [done|done|lia].
Qed.

(** *** A route's history *)

(** The outcomes of a route's probes: answered after so long, or lost. *)
Definition outcome (p : PathMetrics) (o : option f64) : PathMetrics :=
  match o with Some latency => record_probe p latency | None => record_loss p end.

Definition probed (i : list byte) (history : list (option f64)) : PathMetrics := foldl outcome (new i) history.

Fixpoint trailing_losses (recent_first : list (option f64)) : Z :=
  match recent_first with
  | None :: l => 1 + trailing_losses l
  | _ => 0
  end.

Definition is_loss (o : option f64) : bool := match o with None => true | Some _ => false end.

Lemma trailing_nonneg l : 0 <= trailing_losses l <= zlen l.
Proof.
  induction l as [|[x|] l IH]; cbn [trailing_losses]; [done|..]; rewrite zlen_cons; pose proof (zlen_nonneg l); lia.
Qed.

Lemma probed_snoc i history o : probed i (history ++ [o]) = outcome (probed i history) o.
Proof. unfold probed. by rewrite foldl_app. Qed.

(** None of the [n] most recent outcomes is a loss. *)
Definition clean (n : Z) (history : list (option f64)) : Prop :=
  ∀ k, (k < Z.to_nat n)%nat → reverse history !! k ≠ Some None.

Lemma clean_snoc n history latency : clean n history → clean (n + 1) (history ++ [Some latency]).
Proof.
  intros Hc k Hk. rewrite reverse_app. destruct k as [|k]; [done|]. apply Hc. lia.
Qed.

Lemma clean_weaken n n' history : clean n history → n' <= n → clean n' history.
Proof. intros Hc Hn k Hk. apply Hc. lia. Qed.

Record follows (p : PathMetrics) (i : list byte) (history : list (option f64)) : Prop := {
  fo_id : id p = i;
  fo_samples : samples p = zlen history;
  fo_losses : consecutive_losses p = trailing_losses (reverse history);
  fo_active : active p = (trailing_losses (reverse history) <? LOSSES_BEFORE_INACTIVE);
  fo_measured : last_latency_ms p = None ↔ Forall (λ o, is_loss o = true) history;
  fo_unsettled : 0 <= unsettled_probes p <= PROBES_TO_SETTLE;
  fo_clean : clean (PROBES_TO_SETTLE - unsettled_probes p) history
}.

Lemma follows_probe p i history latency :
  follows p i history → follows (record_probe p latency) i (history ++ [Some latency]).
Proof.
  intros [H1 H2 H3 H4 H5 H6 H7]. unfold record_probe. cbn zeta.
  set (x := fmax latency (of_int 0)).
  assert (¬ Forall (λ o, is_loss o = true) (history ++ [Some latency])) as Hm.
  { intros [_ Hl]%Forall_app. by apply Forall_inv in Hl. }
  assert (∀ u j l lo, 0 <= u <= PROBES_TO_SETTLE → (u = PROBES_TO_SETTLE ∨ u >= unsettled_probes p - 1) →
    follows (mk_metrics (id p) (endpoint_ipv4 p) true (samples p + 1) l j lo (Some x) 0 u) i
      (history ++ [Some latency])) as Hf.
  { intros u j l lo Hu Hor. split; cbn; try done.
    - rewrite zlen_app. change (zlen [Some latency]) with 1. lia.
    - by rewrite reverse_app.
    - by rewrite reverse_app.
    - destruct Hor as [->|Hor]; [intros k Hk; lia|].
      eapply clean_weaken; [by apply clean_snoc|lia]. }
  destruct (last_latency_ms p) as [y|]; [|apply Hf; [done|lia]].
  apply Hf; destruct (fle _ _); unfold PROBES_TO_SETTLE, sat_sub in *; lia.
Qed.

Lemma follows_loss p i history :
  zlen history + 1 < 2 ^ 32 → follows p i history → follows (record_loss p) i (history ++ [None]).
Proof.
  intros Hl [H1 H2 H3 H4 H5 H6 H7]. unfold record_loss. cbn zeta.
  assert (zlen (reverse history) = zlen history) as Hr by (unfold zlen; by rewrite length_reverse).
  pose proof (trailing_nonneg (reverse history)). rewrite Hr in *.
  assert (Z.min (consecutive_losses p + 1) u32_max = consecutive_losses p + 1) as ->
    by (unfold u32_max; lia).
  split; cbn; try done.
  - rewrite zlen_app. change (zlen [None]) with 1. lia.
  - rewrite reverse_app. cbn. lia.
  - rewrite H4, reverse_app. cbn. rewrite H3. unfold LOSSES_BEFORE_INACTIVE.
    destruct (Z.leb_spec 3 (trailing_losses (reverse history) + 1)), (Z.ltb_spec (trailing_losses (reverse history)) 3),
      (Z.ltb_spec (1 + trailing_losses (reverse history)) 3); (done || lia).
  - rewrite H5, Forall_app. split; [by intros; split; [|constructor]|by intros [? _]].
  - intros k Hk. lia.
Qed.

Lemma probed_follows i history : zlen history < 2 ^ 32 → follows (probed i history) i history.
Proof.
  induction history as [|o history IH] using rev_ind; intros Hl.
  { split; cbn; try done. }
  rewrite zlen_app in Hl. change (zlen [o]) with 1 in Hl. rewrite probed_snoc.
  destruct o as [latency|]; cbn [outcome].
  - apply follows_probe, IH. lia.
  - apply follows_loss; [lia|]. apply IH. lia.
Qed.

(** A decision that sends at least one copy, and two where it speaks of copies. *)
Definition carried (d : Decision) : Prop :=
  match d with Drop => False | Single _ => True | Duplicated l => 2 <= zlen l end.

(** The decision while some route is usable. *)
Lemma usable_decision incumbent paths strategy best rest :
  NoDup (id <$> paths) → healthy_paths incumbent paths = best :: rest →
  let d := choose_paths_with_incumbent incumbent paths strategy in
  carried d ∧ NoDup (ids_of d) ∧
  (∀ i, i ∈ ids_of d → ∃ p, p ∈ best :: rest ∧ id p = i) ∧
  (strategy = FastestPath → d = Single (id best)) ∧
  (strategy = AllPaths → ids_of d = id <$> best :: rest) ∧
  (strategy = Duplicate → 2 <= zlen (best :: rest) → 2 <= zlen (ids_of d)).
Proof.
  intros Hids Hh. pose proof (healthy_ids incumbent paths Hids) as Hnd. rewrite Hh in Hnd. cbn zeta.
  assert (∀ s, s = Single (id best) → carried s ∧ NoDup (ids_of s) ∧
    (∀ i, i ∈ ids_of s → ∃ p, p ∈ best :: rest ∧ id p = i)) as Hsingle.
  { intros s ->. split_and!; [done|apply NoDup_singleton|]. intros i ->%list_elem_of_singleton.
    exists best. split; [apply list_elem_of_here|done]. }
  unfold choose_paths_with_incumbent. rewrite Hh. cbn [head].
  case_bool_decide as Hall.
  { subst. case_match; b2p.
    - destruct (Hsingle _ eq_refl) as (? & ? & ?). split_and!; try done. intros _.
      destruct rest; [done|]. rewrite !zlen_cons in *. pose proof (zlen_nonneg rest). lia.
    - split_and!; [|done| |done|done|done].
      + cbn [carried]. rewrite zlen_fmap, !zlen_cons in *. pose proof (zlen_nonneg rest). lia.
      + intros i (p & -> & Hp)%list_elem_of_fmap. eauto. }
  destruct (_ || _) eqn:E1.
  { destruct (Hsingle _ eq_refl) as (? & ? & ?). split_and!; try done.
    apply orb_true_iff in E1 as [E1|E1]; [b2p; intros; lia|].
    apply bool_decide_eq_true in E1. by intros ->. }
  set (quickest := quickest_delivery _).
  destruct (prefer_perm strategy quickest best rest) as (l & -> & Hl).
  destruct (carrying_set_spec incumbent quickest (best :: l)) as (Hin & Hndc & H2); [by rewrite Hl|].
  destruct (bool_decide (strategy = Duplicate) || _) eqn:E2.
  - apply orb_false_iff in E1 as [E1%Z.eqb_neq ?%bool_decide_eq_false].
    assert (2 <= zlen (id <$> carrying_set incumbent quickest (best :: l))) as Hz.
    { rewrite zlen_fmap. apply H2. rewrite zlen_cons in *. pose proof (zlen_nonneg rest).
      apply Permutation_length in Hl. unfold zlen in *. lia. }
    split_and!; [done|done| |done|done|done].
    intros i (p & -> & Hp%Hin)%list_elem_of_fmap. exists p. by rewrite <-Hl.
  - destruct (Hsingle _ eq_refl) as (? & ? & ?). split_and!; try done. intros ->. by rewrite orb_true_l in E2.
Qed.

(** The decision while none is. *)
Lemma outage_decision incumbent paths strategy :
  healthy_paths incumbent paths = [] →
  let d := choose_paths_with_incumbent incumbent paths strategy in
  (d = Drop ∧ ∀ p, p ∈ paths → last_latency_ms p = None) ∨
  ∃ p, d = Single (id p) ∧ p ∈ paths ∧ is_Some (last_latency_ms p).
Proof.
  intros Eh. cbn zeta. unfold choose_paths_with_incumbent. rewrite Eh. cbn [head].
  pose proof (first_min_spec (last_resort_cost incumbent) (filter (λ p, measured p = true) paths)) as Hm.
  destruct (first_min _ _) as [p|]; [right|left].
  - apply list_elem_of_filter in Hm as [Hmp%bool_decide_eq_true Hp]. by exists p.
  - split; [done|]. intros p Hp. apply eq_None_not_Some. intros Hx.
    assert (p ∈ filter (λ p, measured p = true) paths) as Hin; [|rewrite Hm in Hin; by apply elem_of_nil in Hin].
    apply list_elem_of_filter. split; [by apply bool_decide_eq_true|done].
Qed.

(** ** Properties *)

(** C32. Every packet has a carrier that can carry it. The packet is dropped exactly
    when no route was ever measured, and otherwise some route is chosen, none twice,
    and at least two where copies are sent. Routes that are active and measured are
    preferred to all others: while there is one, only such routes are chosen.
    Fastest-path then sends on one, which none ranks ahead of; all-paths on all of
    them; duplication on at least two when there are two. When there is none, in an
    outage, the packet goes to exactly one of the routes that were measured before. *)
Theorem decision_serves_usable_routes incumbent paths strategy (Hids : NoDup (id <$> paths)) :
  let d := choose_paths_with_incumbent incumbent paths strategy in
  NoDup (ids_of d) ∧
  (d = Drop ↔ ∀ p, p ∈ paths → last_latency_ms p = None) ∧
  (d = Drop ∨ carried d) ∧
  (∀ i, i ∈ ids_of d → ∃ p, p ∈ paths ∧ id p = i ∧ is_Some (last_latency_ms p) ∧
     ((∃ q, usable paths q) → usable paths p)) ∧
  (strategy = FastestPath → (∃ q, usable paths q) → ∃ best, d = Single (id best) ∧ usable paths best ∧
     ∀ q, usable paths q → total_le (ranked incumbent best) (ranked incumbent q) = true) ∧
  (strategy = AllPaths → ∀ p, usable paths p → id p ∈ ids_of d) ∧
  (strategy = Duplicate → ∀ p q, usable paths p → usable paths q → id p ≠ id q → 2 <= zlen (ids_of d)) ∧
  ((∀ q, ¬ usable paths q) → d = Drop ∨ ∃ p, d = Single (id p) ∧ p ∈ paths ∧ is_Some (last_latency_ms p)).
Proof.
  cbn zeta. pose proof (healthy_spec incumbent paths) as Hspec. pose proof (healthy_sorted incumbent paths) as Hs.
  destruct (healthy_paths incumbent paths) as [|best rest] eqn:Eh.
  - assert (∀ p, ¬ usable paths p) as Hno by (intros p Hp%Hspec; by apply elem_of_nil in Hp).
    destruct (outage_decision incumbent paths strategy Eh) as [[-> Hm]|(p & -> & Hp & Hx)].
    + split_and!; [constructor|done|by left|by intros i Hi%elem_of_nil|by intros _ [q Hq%Hno]|
        by intros _ q Hq%Hno|by intros _ q r Hq%Hno|by left].
    + split_and!; [apply NoDup_singleton| |by right| |by intros _ [q Hq%Hno]|
        by intros _ q Hq%Hno|by intros _ q r Hq%Hno|right; by exists p].
      * split; [done|]. intros Hall. rewrite Hall in Hx by done. by destruct Hx.
      * intros i ->%list_elem_of_singleton. exists p. split_and!; [done..|]. by intros [q Hq%Hno].
  - destruct (usable_decision incumbent paths strategy best rest Hids Eh) as (Hd & Hnd & Hin & Hfast & Hall & Hdup).
    assert (usable paths best) as Hb by apply Hspec, list_elem_of_here.
    split_and!; [done| |by right| | | | |].
    + split; [by intros E; rewrite E in Hd|]. intros Hnone. destruct Hb as (Hb & _ & Hm).
      rewrite (Hnone _ Hb) in Hm. by destruct Hm.
    + intros i (p & Hp%Hspec & Hi)%Hin. exists p. split_and!; [apply Hp|done|apply Hp|done].
    + intros E _. exists best. split_and!; [auto|done|].
      intros q [->|Hq]%Hspec%elem_of_cons; [apply total_le_refl|].
      apply StronglySorted_inv in Hs as [_ Hs]. rewrite Forall_forall in Hs. by apply Hs.
    + intros E p Hp%Hspec. rewrite (Hall E). by apply list_elem_of_fmap_2.
    + intros E p q Hp%Hspec Hq%Hspec Hpq. apply Hdup; [done|].
      destruct rest; [|rewrite !zlen_cons; pose proof (zlen_nonneg rest); lia].
      apply list_elem_of_singleton in Hp, Hq. by subst.
    + intros Hno. by apply Hno in Hb.
Qed.

Definition sample_path (n : byte) (latency : Z) : PathMetrics := record_probe (new [n]) (of_int latency).
Definition sample_paths : list PathMetrics :=
  [sample_path x01 40; sample_path x02 60; record_loss (record_loss (record_loss (sample_path x03 10)))].

Lemma sample_ids : NoDup (id <$> sample_paths).
Proof. apply (bool_decide_unpack _). by vm_compute. Qed.

Lemma decision_serves_usable_routes_witness :
  let choose := choose_paths_with_incumbent [[x02]] sample_paths in
  choose Duplicate = Duplicated [[x01]; [x02]] ∧ NoDup (ids_of (choose Duplicate)) ∧
  ∃ best, choose FastestPath = Single (id best) ∧ usable sample_paths best ∧
    ∀ q, usable sample_paths q → total_le (ranked [[x02]] best) (ranked [[x02]] q) = true.
Proof.
  destruct (decision_serves_usable_routes [[x02]] sample_paths Duplicate sample_ids) as (H1 & _).
  destruct (decision_serves_usable_routes [[x02]] sample_paths FastestPath sample_ids) as (_ & _ & _ & _ & H5 & _).
  split; [by vm_compute|]. split; [exact H1|]. apply H5; [done|].
  exists (sample_path x01 40). split; [apply list_elem_of_here|]. split; [done|]. by eexists.
Defined.

(** A route's standing follows its probes: after any history it is inactive
    exactly when its last three probes or more were lost, one answer brings it
    back, it counts as measured once a probe was answered, and it is settled only
    if none of its last ten probes was lost. *)
Theorem standing_follows_probes i history (Hl : zlen history < 2 ^ 32) :
  let p := probed i history in
  samples p = zlen history ∧
  active p = (trailing_losses (reverse history) <? LOSSES_BEFORE_INACTIVE) ∧
  (∀ latency, active (record_probe p latency) = true) ∧
  (last_latency_ms p = None ↔ Forall (λ o, is_loss o = true) history) ∧
  (is_settled p = true → clean PROBES_TO_SETTLE history).
Proof.
  cbn zeta. destruct (probed_follows i history Hl) as [H1 H2 H3 H4 H5 H6 H7]. split_and!; try done.
  - intros latency. unfold record_probe. cbn zeta. by destruct (last_latency_ms _).
  - intros Hs%Z.eqb_eq. by rewrite Hs in H7.
Qed.

Lemma standing_follows_probes_witness :
  active (probed [x01] [Some (of_int 30); None; None; None]) = (3 <? 3).
Proof. apply (standing_follows_probes [x01] [Some (of_int 30); None; None; None]). by vm_compute. Defined.
