(* ===== verification/Rtt.v ===== *)
(** * Rtt: the probe deadline that follows a path

    [engine/src/rtt.rs]: the smoothed round trip and its variation (RFC 6298),
    and the deadline derived from them. A [Duration] is its nanoseconds; its
    arithmetic panics past what the type holds. *)
From S2P Require Import Prelude.

Definition MIN_TIMEOUT : Z := ms 200.
Definition STREAMED_MIN_TIMEOUT : Z := ms 750.
Definition MAX_TIMEOUT : Z := ms 1500.
Definition ALPHA_RECIPROCAL : Z := 8.
Definition BETA_RECIPROCAL : Z := 4.
Definition VARIATION_MULTIPLIER : Z := 4.

(** [Duration] arithmetic: [u64] seconds and the nanoseconds under one. *)
Definition DURATION_MAX : Z := secs (2 ^ 64) - 1.
Definition dur (n : Z) : run Z := if n <=? DURATION_MAX then Ret n else Panic.

Record RttEstimator := mk_rtt {
  smoothed : option Z;
  variation : Z;
  floor : Z
}.

Definition with_floor (floor : Z) : RttEstimator :=
  mk_rtt None 0 (clamp floor MIN_TIMEOUT MAX_TIMEOUT).
Definition default_rtt : RttEstimator := with_floor MIN_TIMEOUT.

Definition record (e : RttEstimator) (sample : Z) : run RttEstimator :=
  match smoothed e with
  | None => Ret (mk_rtt (Some sample) (sample / 2) (floor e))
  | Some smoothed =>
      let deviation := Z.abs (sample - smoothed) in
      scaled ← dur (variation e * (BETA_RECIPROCAL - 1));
      total ← dur (scaled + deviation);
      weighted ← dur (smoothed * (ALPHA_RECIPROCAL - 1));
      sum ← dur (weighted + sample);
      Ret (mk_rtt (Some (sum / ALPHA_RECIPROCAL)) (total / BETA_RECIPROCAL) (floor e))
  end.

Definition timeout (e : RttEstimator) : run Z :=
  match smoothed e with
  | None => Ret MAX_TIMEOUT
  | Some smoothed =>
      scaled ← dur (variation e * VARIATION_MULTIPLIER);
      total ← dur (smoothed + scaled);
      Ret (clamp total (floor e) MAX_TIMEOUT)
  end.

Fixpoint record_all (e : RttEstimator) (samples : list Z) : run RttEstimator :=
  match samples with
  | [] => Ret e
  | sample :: samples' => e' ← record e sample; record_all e' samples'
  end.

(** ** Bounds *)

(** No sample is longer than a century, which the clock does not reach. *)
Definition LONGEST_SAMPLE : Z := secs 3155760000.

Record within (lo hi : Z) (e : RttEstimator) : Prop := {
  within_smoothed : ∀ s, smoothed e = Some s → lo <= s <= hi;
  within_variation : 0 <= variation e <= hi;
  within_floor : MIN_TIMEOUT <= floor e <= MAX_TIMEOUT
}.

Lemma dur_in n : n <= DURATION_MAX → dur n = Ret n.
Proof. intros. unfold dur. by rewrite (proj2 (Z.leb_le _ _)). Qed.

Lemma weighted_between lo hi w a b :
  0 < w → lo <= a <= hi → lo <= b <= hi → lo <= (a * (w - 1) + b) / w <= hi.
Proof.
  intros. split; [apply Z.div_le_lower_bound; nia|].
  apply Z.lt_succ_r, Z.div_lt_upper_bound; nia.
Qed.

Lemma record_within lo hi e sample :
  0 <= lo → hi <= LONGEST_SAMPLE → within lo hi e → lo <= sample <= hi →
  ∃ e', record e sample = Ret e' ∧ within lo hi e' ∧ floor e' = floor e ∧ is_Some (smoothed e').
Proof.
  intros Hlo Hhi [Hs Hv Hf] Hsample. unfold record.
  assert (8 * LONGEST_SAMPLE <= DURATION_MAX) as Hbig by done.
  unfold ALPHA_RECIPROCAL, BETA_RECIPROCAL.
  destruct (smoothed e) as [s|] eqn:E.
  - specialize (Hs s eq_refl). repeat (rewrite dur_in by lia; cbn [mbind run_bind]).
    eexists. split; [done|]. split; [|split; [done|by eexists]].
    constructor; cbn [smoothed variation floor]; [|..|done].
    + intros x [= <-]. apply (weighted_between lo hi 8); lia.
    + apply (weighted_between 0 hi 4); lia.
  - eexists. split; [done|]. split; [|split; [done|by eexists]].
    constructor; cbn [smoothed variation floor]; [by intros x [= <-]| |done].
    split; [apply Z.div_pos; lia|]. apply Z.div_le_upper_bound; lia.
Qed.

Lemma record_all_within lo hi e samples :
  0 <= lo → hi <= LONGEST_SAMPLE → within lo hi e → Forall (λ s, lo <= s <= hi) samples →
  ∃ e', record_all e samples = Ret e' ∧ within lo hi e' ∧ floor e' = floor e
        ∧ (samples ≠ [] → is_Some (smoothed e')).
Proof.
  intros Hlo Hhi He Hall. revert e He. induction Hall as [|s samples Hs _ IH]; intros e He.
  - by exists e.
  - destruct (record_within lo hi e s) as (e1 & Hrec & He1 & Hf1 & Hs1); [done..|].
    destruct (IH e1 He1) as (e2 & Hrec2 & He2 & Hf2 & Hs2).
    exists e2. cbn [record_all]. rewrite Hrec. cbn [mbind run_bind].
    split_and!; [done|done|congruence|]. intros _. destruct samples as [|x samples]; [|by apply Hs2].
    cbn in Hrec2. injection Hrec2 as <-. done.
Qed.

Lemma timeout_within lo hi e :
  0 <= lo → hi <= LONGEST_SAMPLE → within lo hi e →
  ∃ t, timeout e = Ret t ∧ floor e <= t <= MAX_TIMEOUT
       ∧ ∀ s, smoothed e = Some s → Z.min lo MAX_TIMEOUT <= t ∧ t = clamp (s + 4 * variation e) (floor e) MAX_TIMEOUT.
Proof.
  intros Hlo Hhi [Hs Hv Hf]. unfold timeout, VARIATION_MULTIPLIER.
  assert (8 * LONGEST_SAMPLE <= DURATION_MAX) as Hbig by done.
  destruct (smoothed e) as [s|] eqn:E.
  - specialize (Hs s eq_refl). rewrite dur_in by lia. cbn [mbind run_bind].
    rewrite dur_in by lia. cbn [mbind run_bind]. eexists. split; [done|].
    unfold clamp. split; [lia|]. intros ? [= <-]. split; [lia|]. f_equal. lia.
  - eexists. split; [done|]. split; [lia|]. done.
Qed.

Lemma with_floor_within f lo hi : 0 <= lo <= hi → within lo hi (with_floor f).
Proof.
  intros. constructor; cbn [smoothed variation floor with_floor]; [done|lia|].
  unfold clamp, MIN_TIMEOUT, MAX_TIMEOUT, ms. lia.
Qed.

(** Whatever round trips a path measures, its estimator never overflows and
    the probe deadline stays between what its transport can recover in and the
    ceiling; the smoothed round trip stays between the fastest and the slowest
    answer, and the deadline never drops below the fastest. *)
Theorem deadline_stays_in_bounds f lo hi samples :
  0 <= lo <= hi → hi <= LONGEST_SAMPLE → Forall (λ s, lo <= s <= hi) samples → samples ≠ [] →
  ∃ e s t, record_all (with_floor f) samples = Ret e ∧ smoothed e = Some s ∧ timeout e = Ret t
    ∧ lo <= s <= hi ∧ MIN_TIMEOUT <= clamp f MIN_TIMEOUT MAX_TIMEOUT <= t
    ∧ t <= MAX_TIMEOUT ∧ Z.min lo MAX_TIMEOUT <= t.
Proof.
  intros Hlo Hhi Hall Hne.
  destruct (record_all_within lo hi (with_floor f) samples) as (e & Hrec & He & Hf & Hs);
    [lia|done|by apply with_floor_within|done|].
  destruct (Hs Hne) as [s Es].
  destruct (timeout_within lo hi e) as (t & Ht & Hbound & Hmin); [lia|done|done|].
  destruct (Hmin s Es) as [Hlow _]. destruct He as [Hwithin _ Hfl].
  cbn [with_floor floor] in Hf. rewrite Hf in *.
  exists e, s, t. split_and!; (done || lia || apply Hwithin, Es).
Qed.

(** ** Settling *)

(** The part of the state that a steady path drives: how far the smoothed round
    trip is from the samples, and the variation. *)
Definition near (sample : Z) (e : RttEstimator) : Prop :=
  ∃ s, smoothed e = Some s ∧ sample - 7 <= s <= sample.

Lemma steady_step sample hi e s :
  0 <= sample <= hi → hi <= LONGEST_SAMPLE → within 0 hi e → smoothed e = Some s →
  record e sample =
    Ret (mk_rtt (Some ((s * 7 + sample) / 8)) ((variation e * 3 + Z.abs (sample - s)) / 4) (floor e)).
Proof.
  intros Hsample Hhi [Hs Hv Hf] E. unfold record. rewrite E. specialize (Hs s E).
  assert (8 * LONGEST_SAMPLE <= DURATION_MAX) as Hbig by done.
  unfold ALPHA_RECIPROCAL, BETA_RECIPROCAL. by repeat (rewrite dur_in by lia; cbn [mbind run_bind]).
Qed.

Lemma smoothed_approaches sample s :
  (s > sample → sample <= (s * 7 + sample) / 8 < s)
  ∧ (s < sample - 7 → s < (s * 7 + sample) / 8 <= sample)
  ∧ (sample - 7 <= s <= sample → (s * 7 + sample) / 8 = s).
Proof.
  split_and!; intros.
  - split; [apply Z.div_le_lower_bound; lia|apply Z.div_lt_upper_bound; lia].
  - split; [apply Z.lt_le_trans with (s + 1); [lia|apply Z.div_le_lower_bound; lia]|].
    apply Z.lt_succ_r, Z.div_lt_upper_bound; lia.
  - symmetry. apply (Z.div_unique _ _ _ (sample - s)); lia.
Qed.

Lemma record_all_app e samples samples' :
  record_all e (samples ++ samples') = (e' ← record_all e samples; record_all e' samples').
Proof.
  revert e. induction samples as [|s samples IH]; intros e; cbn [app record_all]; [done|].
  destruct (record e s); cbn [mbind run_bind]; [apply IH|done].
Qed.

(** From any state a steady path brings the smoothed round trip to it. *)
Lemma reaches_near sample hi e s :
  0 <= sample <= hi → hi <= LONGEST_SAMPLE → within 0 hi e → smoothed e = Some s →
  ∃ n e', record_all e (replicate n sample) = Ret e' ∧ within 0 hi e' ∧ near sample e' ∧ floor e' = floor e.
Proof.
  intros Hsample Hhi. remember (Z.to_nat (Z.abs (sample - s))) as d eqn:Hd. revert e s Hd.
  induction d as [d IH] using lt_wf_ind. intros e s -> He E.
  destruct (decide (sample - 7 <= s <= sample)) as [Hnear|Hfar].
  { exists 0%nat, e. split_and!; [done|done|by exists s|done]. }
  pose proof (steady_step sample hi e s Hsample Hhi He E) as Hstep.
  destruct (record_within 0 hi e sample) as (e1 & Hrec & He1 & Hf1 & _); [lia..|done|done|].
  rewrite Hrec in Hstep. injection Hstep as ->.
  destruct (smoothed_approaches sample s) as (Habove & Hbelow & _).
  edestruct (IH (Z.to_nat (Z.abs (sample - (s * 7 + sample) / 8)))) as (n & e2 & Hrun & He2 & Hnear & Hf2);
    [|done|exact He1|done|].
  { destruct (decide (s > sample)); [specialize (Habove ltac:(lia))|specialize (Hbelow ltac:(lia))]; lia. }
  exists (S n), e2. cbn [replicate record_all]. rewrite Hrec. cbn [mbind run_bind]. split_and!; congruence || done.
Qed.

Lemma near_step sample hi e :
  0 <= sample <= hi → hi <= LONGEST_SAMPLE → within 0 hi e → near sample e →
  ∃ e', record e sample = Ret e' ∧ within 0 hi e' ∧ near sample e' ∧ floor e' = floor e
        ∧ (variation e <= 7 → variation e' <= 7) ∧ (7 < variation e → variation e' < variation e).
Proof.
  intros Hsample Hhi He (s & E & Hs).
  destruct (record_within 0 hi e sample) as (e1 & Hrec & He1 & Hf1 & _); [lia..|done|done|].
  pose proof (steady_step sample hi e s Hsample Hhi He E) as Hstep. rewrite Hrec in Hstep.
  injection Hstep as ->. destruct (smoothed_approaches sample s) as (_ & _ & Hstay).
  eexists. split_and!; [done|done| |done|..]; cbn [smoothed variation].
  - exists s. cbn [smoothed]. by rewrite Hstay.
  - intros. apply Z.lt_succ_r, Z.div_lt_upper_bound; lia.
  - intros. apply Z.div_lt_upper_bound; lia.
Qed.

Lemma near_settles sample hi e :
  0 <= sample <= hi → hi <= LONGEST_SAMPLE → within 0 hi e → near sample e →
  ∃ n e', record_all e (replicate n sample) = Ret e' ∧ within 0 hi e' ∧ near sample e'
          ∧ variation e' <= 7 ∧ floor e' = floor e.
Proof.
  intros Hsample Hhi. remember (Z.to_nat (variation e)) as d eqn:Hd. revert e Hd.
  induction d as [d IH] using lt_wf_ind. intros e -> He Hnear.
  destruct (decide (variation e <= 7)) as [Hv|Hv]; [by exists 0%nat, e|].
  destruct (near_step sample hi e) as (e1 & Hrec & He1 & Hnear1 & Hf1 & _ & Hless); [done..|].
  pose proof (within_variation _ _ _ He). specialize (Hless ltac:(lia)).
  edestruct (IH (Z.to_nat (variation e1))) as (n & e2 & Hrun & He2 & Hn2 & Hv2 & Hf2); [|done|done|done|].
  { pose proof (within_variation _ _ _ He1). lia. }
  exists (S n), e2. cbn [replicate record_all]. rewrite Hrec. cbn [mbind run_bind]. split_and!; congruence || done.
Qed.

Lemma settled_stays sample hi e n :
  0 <= sample <= hi → hi <= LONGEST_SAMPLE → within 0 hi e → near sample e → variation e <= 7 →
  ∃ e', record_all e (replicate n sample) = Ret e' ∧ within 0 hi e' ∧ near sample e'
        ∧ variation e' <= 7 ∧ floor e' = floor e.
Proof.
  intros Hsample Hhi. revert e. induction n as [|n IH]; intros e He Hnear Hv; [by exists e|].
  destruct (near_step sample hi e) as (e1 & Hrec & He1 & Hnear1 & Hf1 & Hv1 & _); [done..|].
  destruct (IH e1) as (e2 & Hrun & He2 & Hn2 & Hv2 & Hf2); [done|done|auto|].
  exists e2. cbn [replicate record_all]. rewrite Hrec. cbn [mbind run_bind]. split_and!; congruence || done.
Qed.

(** However erratic a path has been, once its round trips are steady the
    deadline settles on them: from some probe on it is the steady round trip, to
    within 35 nanoseconds, held between the transport's floor and the ceiling. *)
Theorem steady_path_tightens_deadline f samples sample :
  Forall (λ s, 0 <= s <= LONGEST_SAMPLE) samples → samples ≠ [] → 0 <= sample <= LONGEST_SAMPLE →
  ∃ settled, ∀ n, (settled <= n)%nat →
    ∃ e t, record_all (with_floor f) (samples ++ replicate n sample) = Ret e ∧ timeout e = Ret t
      ∧ clamp (sample - 7) (clamp f MIN_TIMEOUT MAX_TIMEOUT) MAX_TIMEOUT <= t
      ∧ t <= clamp (sample + 28) (clamp f MIN_TIMEOUT MAX_TIMEOUT) MAX_TIMEOUT.
Proof.
  intros Hall Hne Hsample.
  destruct (record_all_within 0 LONGEST_SAMPLE (with_floor f) samples) as (e & Hrec & He & Hf & Hs);
    [done|done|by apply with_floor_within|done|].
  destruct (Hs Hne) as [s E].
  destruct (reaches_near sample LONGEST_SAMPLE e s) as (n1 & e1 & Hrun1 & He1 & Hnear1 & Hf1); [done..|].
  destruct (near_settles sample LONGEST_SAMPLE e1) as (n2 & e2 & Hrun2 & He2 & Hnear2 & Hv2 & Hf2); [done..|].
  exists (n1 + n2)%nat. intros n Hn.
  destruct (settled_stays sample LONGEST_SAMPLE e2 (n - (n1 + n2))) as (e3 & Hrun3 & He3 & Hnear3 & Hv3 & Hf3); [done..|].
  destruct (timeout_within 0 LONGEST_SAMPLE e3) as (t & Ht & _ & Hexact); [done..|].
  destruct Hnear3 as (s3 & E3 & Hs3). destruct (Hexact s3 E3) as [_ ->].
  exists e3. eexists. split; [|split; [exact Ht|]].
  - replace n with (n1 + (n2 + (n - (n1 + n2))))%nat by lia.
    rewrite !replicate_add, !record_all_app, Hrec. cbn [mbind run_bind].
    rewrite record_all_app, Hrun1. cbn [mbind run_bind]. rewrite record_all_app, Hrun2. done.
  - pose proof (within_variation _ _ _ He3). rewrite Hf3, Hf2, Hf1, Hf. cbn [with_floor floor].
    unfold clamp. lia.
Qed.

Lemma deadline_stays_in_bounds_witness :
  ∃ e s t, record_all (with_floor STREAMED_MIN_TIMEOUT) [ms 60; ms 80; ms 55] = Ret e
    ∧ smoothed e = Some s ∧ timeout e = Ret t ∧ ms 55 <= s <= ms 80
    ∧ MIN_TIMEOUT <= clamp STREAMED_MIN_TIMEOUT MIN_TIMEOUT MAX_TIMEOUT <= t
    ∧ t <= MAX_TIMEOUT ∧ Z.min (ms 55) MAX_TIMEOUT <= t.
Proof.
  apply (deadline_stays_in_bounds STREAMED_MIN_TIMEOUT (ms 55) (ms 80));
    [by vm_compute|by vm_compute|repeat constructor; by vm_compute|done].
Defined.

Lemma steady_path_tightens_deadline_witness :
  ∃ settled, ∀ n, (settled <= n)%nat →
    ∃ e t, record_all (with_floor MIN_TIMEOUT) ([ms 60; ms 900] ++ replicate n (ms 300)) = Ret e ∧ timeout e = Ret t
      ∧ clamp (ms 300 - 7) (clamp MIN_TIMEOUT MIN_TIMEOUT MAX_TIMEOUT) MAX_TIMEOUT <= t
      ∧ t <= clamp (ms 300 + 28) (clamp MIN_TIMEOUT MIN_TIMEOUT MAX_TIMEOUT) MAX_TIMEOUT.
Proof.
  apply (steady_path_tightens_deadline MIN_TIMEOUT [ms 60; ms 900] (ms 300));
    [repeat constructor; by vm_compute|done|by vm_compute].
Defined.
