(* ===== verification/Health.v ===== *)
(** * Health: whether a path carries traffic, and the masks built from it

    [engine/src/session/health.rs] with the per-path status of
    [engine/src/session/state.rs]. Masks are [u64]s, a bit per route; the lock held
    over the scheduler's metrics makes each update one step. *)
From S2P Require Import Prelude Text Float64 Protocol Scheduler.

Definition PROBE_INTERVAL : Z := secs 1.
Definition PROBE_INTERVAL_DEGRADED : Z := ms 150.
Definition PROBE_INTERVAL_STANDBY : Z := ms 250.

Definition healthy_probe_interval (carrying : bool) : Z :=
  if carrying then PROBE_INTERVAL else PROBE_INTERVAL_STANDBY.

Definition HEALTH_FAILURE_THRESHOLD : Z := 3.

(** ** Masks *)

(** [1_u64.checked_shl(index).unwrap_or(0)]. *)
Definition bit (index : Z) : Z := if index <? 64 then Z.shiftl 1 index else 0.

(** [!m] of a [u64]. *)
Definition complement (m : Z) : Z := Z.lxor m u64_max.

Definition publish_path_health (mask index : Z) (healthy : bool) : Z :=
  if index <? 64 then
    if healthy then Z.lor mask (Z.shiftl 1 index) else Z.land mask (complement (Z.shiftl 1 index))
  else mask.

Definition selected_paths (decision healthy : Z) : Z :=
  if negb (Z.land decision healthy =? 0) then Z.land decision healthy
  else if negb (healthy =? 0) then healthy
  else decision.

(** [m & m.wrapping_neg()]. *)
Definition lowest_bit (m : Z) : Z := Z.land m (wrap64 (- m)).

Fixpoint take_lowest (limit : nat) (remaining selected : Z) : Z :=
  match limit with
  | O => selected
  | S limit' =>
      let b := lowest_bit remaining in
      take_lowest limit' (Z.land remaining (complement b)) (Z.lor selected b)
  end.

Definition selection_limit (strategy : Strategy) : nat :=
  match strategy with
  | AllPaths => 64
  | FastestPath => 1
  | Adaptive | Duplicate => 2
  end%nat.

Definition initial_selection (open : Z) (strategy : Strategy) : Z :=
  take_lowest (selection_limit strategy) open 0.

(** ** The scheduler's pick *)

(** A path id is its route index; [path_id.parse::<u32>()]. *)
Definition bit_for_path (path_id : list byte) : Z :=
  match parse_unsigned u32_max path_id with
  | Some index => bit index
  | None => 0
  end.

Definition mask_for_decision (decision : Decision) (fallback_mask : Z) : Z :=
  let mask :=
    match decision with
    | Drop => 0
    | Single path_id => bit_for_path path_id
    | Duplicated path_ids => foldl (λ mask path_id, Z.lor mask (bit_for_path path_id)) 0 path_ids
    end in
  if mask =? 0 then fallback_mask else mask.

(** The routes already carrying traffic. *)
Definition incumbents (previous : Z) (metrics : list PathMetrics) : list (list byte) :=
  Scheduler.id <$> filter (λ p, Z.land previous (bit_for_path (Scheduler.id p)) ≠ 0) metrics.

(** The metrics and the decision mask after one probe result. *)
Definition update_scheduler_probe (metrics : list PathMetrics) (decision_mask fallback_mask index : Z)
    (latency_ms : option f64) (strategy : Strategy) : list PathMetrics * Z :=
  match get metrics index with
  | None => (metrics, decision_mask)
  | Some path =>
      let path := match latency_ms with
                  | Some latency => record_probe path latency
                  | None => record_loss path
                  end in
      let metrics := <[Z.to_nat index := path]> metrics in
      let incumbent := incumbents decision_mask metrics in
      let decision := choose_paths_with_incumbent incumbent metrics strategy in
      (metrics, mask_for_decision decision fallback_mask)
  end.

(** ** Path status *)

Record PathSessionStatus := mk_status {
  route : Z;
  path_kind : list byte;
  label : list byte;
  endpoint : list byte;
  reachable : bool;
  return_path_selection : bool;
  joining : bool;
  status_latency_ms : option f64;
  handshake_ms : option f64;
  handshake_round_trips : option Z;
  packets_sent : Z;
  packets_received : Z;
  bytes_sent : Z;
  bytes_received : Z;
  probes_sent : Z;
  probes_received : Z;
  probes_lost : Z;
  loss_percent : f64;
  last_error : option (list byte)
}.

Definition initial_status (route : Z) (path_kind label endpoint : list byte) : PathSessionStatus :=
  mk_status route path_kind label endpoint false false false None None None 0 0 0 0 0 0 0 (of_int 0) None.

(** Assignments to the fields that the workers write. *)
Definition set_reachable (s : PathSessionStatus) (reachable : bool) (latency : option f64)
    (error : option (list byte)) : PathSessionStatus :=
  mk_status (route s) (path_kind s) (label s) (endpoint s) reachable (return_path_selection s)
    (joining s) latency (handshake_ms s) (handshake_round_trips s) (packets_sent s)
    (packets_received s) (bytes_sent s) (bytes_received s) (probes_sent s) (probes_received s)
    (probes_lost s) (loss_percent s) error.
Definition set_endpoint (s : PathSessionStatus) (endpoint : list byte) : PathSessionStatus :=
  mk_status (route s) (path_kind s) (label s) endpoint (reachable s) (return_path_selection s)
    (joining s) (status_latency_ms s) (handshake_ms s) (handshake_round_trips s) (packets_sent s)
    (packets_received s) (bytes_sent s) (bytes_received s) (probes_sent s) (probes_received s)
    (probes_lost s) (loss_percent s) (last_error s).
Definition set_selection (s : PathSessionStatus) : PathSessionStatus :=
  mk_status (route s) (path_kind s) (label s) (endpoint s) (reachable s) true
    (joining s) (status_latency_ms s) (handshake_ms s) (handshake_round_trips s) (packets_sent s)
    (packets_received s) (bytes_sent s) (bytes_received s) (probes_sent s) (probes_received s)
    (probes_lost s) (loss_percent s) (last_error s).
Definition set_handshake (s : PathSessionStatus) (latency : option f64) (round_trips : option Z)
    : PathSessionStatus :=
  mk_status (route s) (path_kind s) (label s) (endpoint s) (reachable s) (return_path_selection s)
    (joining s) (status_latency_ms s) latency round_trips (packets_sent s)
    (packets_received s) (bytes_sent s) (bytes_received s) (probes_sent s) (probes_received s)
    (probes_lost s) (loss_percent s) (last_error s).
Definition add_packets (s : PathSessionStatus) (sent received sent_bytes received_bytes : Z)
    : PathSessionStatus :=
  mk_status (route s) (path_kind s) (label s) (endpoint s) (reachable s) (return_path_selection s)
    (joining s) (status_latency_ms s) (handshake_ms s) (handshake_round_trips s)
    (packets_sent s + sent) (packets_received s + received) (bytes_sent s + sent_bytes)
    (bytes_received s + received_bytes) (probes_sent s) (probes_received s)
    (probes_lost s) (loss_percent s) (last_error s).
Definition add_probes (s : PathSessionStatus) (sent received lost : Z) : PathSessionStatus :=
  mk_status (route s) (path_kind s) (label s) (endpoint s) (reachable s) (return_path_selection s)
    (joining s) (status_latency_ms s) (handshake_ms s) (handshake_round_trips s) (packets_sent s)
    (packets_received s) (bytes_sent s) (bytes_received s) (probes_sent s + sent)
    (probes_received s + received) (probes_lost s + lost) (loss_percent s) (last_error s).
Definition set_error (s : PathSessionStatus) (error : list byte) : PathSessionStatus :=
  set_reachable s (reachable s) (status_latency_ms s) (Some error).

(** [update_path_status], [record_path_send] and [record_path_receive] on the
    status at the path's index. *)
Definition update_path_status (s : PathSessionStatus) (outcome : result (list byte) f64)
    : PathSessionStatus :=
  match outcome with
  | Ok latency => add_packets (set_reachable s true (Some latency) None) 0 1 0 0
  | Err error => set_reachable s false (status_latency_ms s) (Some error)
  end.

Definition record_path_send (s : PathSessionStatus) (sent : Z) (outcome : result (list byte) unit)
    : PathSessionStatus :=
  let s := add_packets s 1 0 0 0 in
  match outcome with
  | Ok _ => add_packets s 0 0 sent 0
  | Err error => set_error s error
  end.

Definition record_path_receive (s : PathSessionStatus) (received : Z) : PathSessionStatus :=
  add_packets s 0 1 0 received.

(** ** Late probe replies *)

Definition LATE_REPLY_WINDOW : Z := secs 3.
Definition LATE_REPLY_CAPACITY : Z := 32.

Definition remember_expired_probe (expired : list (Z * Z)) (sequence started now : Z)
    : list (Z * Z) :=
  let expired := filter (λ e, since now e.2 < LATE_REPLY_WINDOW) expired in
  let expired := if LATE_REPLY_CAPACITY <=? zlen expired then tail expired else expired in
  expired ++ [(sequence, started)].

(** The measured round trip, and the probes still written off. *)
Definition take_late_probe_reply (expired : list (Z * Z)) (reply : list byte) (now : Z)
    : option Z * list (Z * Z) :=
  match list_find (λ e, probe_reply_matches reply e.1 false = true) expired with
  | None => (None, expired)
  | Some (position, (_, started)) => (Some (since now started), delete position expired)
  end.

(** ** Bits of masks *)

Lemma bit_testbit i j : 0 <= i → 0 <= j → Z.testbit (bit i) j = bool_decide (i = j ∧ i < 64).
Proof.
  intros Hi Hj. unfold bit. destruct (Z.ltb_spec i 64).
  - rewrite Z.shiftl_1_l, Z.pow2_bits_eqb by done. apply eq_bool_prop_intro.
    rewrite bool_decide_spec, Is_true_true, Z.eqb_eq. lia.
  - rewrite Z.bits_0. symmetry. apply bool_decide_eq_false_2. lia.
Qed.

Lemma testbit_u64_max j : 0 <= j → Z.testbit u64_max j = (j <? 64).
Proof.
  intros. unfold u64_max. change (2 ^ 64 - 1) with (Z.ones 64).
  destruct (Z.ltb_spec j 64); [apply Z.ones_spec_low; lia|apply Z.ones_spec_high; lia].
Qed.

Lemma complement_testbit m j : 0 <= j < 64 → Z.testbit (complement m) j = negb (Z.testbit m j).
Proof.
  intros. unfold complement. rewrite Z.lxor_spec, testbit_u64_max by lia.
  rewrite (proj2 (Z.ltb_lt j 64)) by lia. apply xorb_true_r.
Qed.

Lemma complement_range m : 0 <= m < 2 ^ 64 → 0 <= complement m < 2 ^ 64.
Proof. intros. apply (lxor_bound 64); unfold u64_max; lia. Qed.

Lemma bit_range i : 0 <= i → 0 <= bit i < 2 ^ 64.
Proof.
  intros. unfold bit. destruct (Z.ltb_spec i 64); [|lia]. rewrite Z.shiftl_1_l.
  split; [apply Z.pow_nonneg; lia|apply Z.pow_lt_mono_r; lia].
Qed.

Lemma mask_zero m : 0 <= m < 2 ^ 64 → m = 0 ↔ ∀ i, 0 <= i < 64 → Z.testbit m i = false.
Proof.
  intros Hm. split; [intros -> i _; apply Z.bits_0|]. intros Hall. apply Z.bits_inj'. intros i Hi.
  rewrite Z.bits_0. destruct (decide (i < 64)); [apply Hall; lia|apply (bits_high 64); lia].
Qed.

Lemma mask_nonzero m : 0 <= m < 2 ^ 64 → m ≠ 0 → ∃ i, 0 <= i < 64 ∧ Z.testbit m i = true.
Proof.
  intros Hm Hne. destruct (Exists_dec (λ i, Z.testbit m i = true) (seqZ 0 64)) as [He|Hno].
  - apply Exists_exists in He as (i & Hi%elem_of_seqZ & Ht). exists i. split; [lia|done].
  - exfalso. apply Hne, mask_zero; [done|]. intros i Hi. apply not_true_iff_false. intros Ht.
    apply Hno, Exists_exists. exists i. split; [apply elem_of_seqZ; lia|done].
Qed.

Lemma land_bit_nonzero m i : 0 <= i < 64 → Z.land m (bit i) ≠ 0 ↔ Z.testbit m i = true.
Proof.
  intros Hi. split.
  - intros Hne. apply not_false_iff_true. intros Hno. apply Hne, Z.bits_inj'. intros j Hj.
    rewrite Z.land_spec, bit_testbit, Z.bits_0 by lia. case_bool_decide as E; [|apply andb_false_r].
    destruct E as [<- _]. by rewrite Hno.
  - intros Ht H0. apply (f_equal (λ z, Z.testbit z i)) in H0.
    rewrite Z.land_spec, bit_testbit, Z.bits_0, Ht in H0 by lia.
    rewrite bool_decide_eq_true_2 in H0; [done|lia].
Qed.

Lemma publish_testbit mask index healthy j :
  0 <= mask < 2 ^ 64 → 0 <= index → 0 <= j < 64 →
  Z.testbit (publish_path_health mask index healthy) j = if decide (index = j) then healthy else Z.testbit mask j.
Proof.
  intros Hm Hi Hj. unfold publish_path_health. destruct (Z.ltb_spec index 64) as [Hlt|Hge].
  - assert (Z.shiftl 1 index = bit index) as -> by (unfold bit; by rewrite (proj2 (Z.ltb_lt _ _) Hlt)).
    destruct healthy.
    + rewrite Z.lor_spec, bit_testbit by lia. destruct (decide (index = j)).
      * rewrite bool_decide_eq_true_2 by lia. apply orb_true_r.
      * rewrite bool_decide_eq_false_2 by lia. apply orb_false_r.
    + rewrite Z.land_spec, complement_testbit, bit_testbit by lia. destruct (decide (index = j)).
      * rewrite bool_decide_eq_true_2 by lia. apply andb_false_r.
      * rewrite bool_decide_eq_false_2 by lia. apply andb_true_r.
  - by rewrite decide_False by lia.
Qed.

Lemma publish_range mask index healthy :
  0 <= mask < 2 ^ 64 → 0 <= index → 0 <= publish_path_health mask index healthy < 2 ^ 64.
Proof.
  intros Hm Hi. unfold publish_path_health. destruct (Z.ltb_spec index 64) as [Hlt|]; [|done].
  assert (Z.shiftl 1 index = bit index) as -> by (unfold bit; by rewrite (proj2 (Z.ltb_lt _ _) Hlt)).
  pose proof (bit_range index Hi). destruct healthy; [by apply (lor_bound 64)|].
  apply (land_bound 64); [lia|done|]. apply complement_range. done.
Qed.

(** The last word published about path [i]. *)
Fixpoint last_published (i : Z) (events : list (Z * bool)) : bool :=
  match events with
  | [] => false
  | (index, healthy) :: events' => if decide (index = i) then healthy else last_published i events'
  end.

(** Whatever the path workers publish, in whatever order, a packet is handed
    to the paths last reported as carrying traffic and to no other while there is
    one: those of the scheduler's pick if any of them is, all of them otherwise.
    With none reported, the pick stands; a packet with a pick always has a path. *)
Theorem dispatch_follows_reports events decision :
  Forall (λ e, 0 <= e.1) events → 0 <= decision < 2 ^ 64 →
  let healthy := foldr (λ e mask, publish_path_health mask e.1 e.2) 0 events in
  let chosen := selected_paths decision healthy in
  (∀ i, 0 <= i < 64 → Z.testbit healthy i = last_published i events)
  ∧ (∀ i, 0 <= i < 64 → Z.testbit chosen i = true →
       (∃ j, 0 <= j < 64 ∧ last_published j events = true) → last_published i events = true)
  ∧ (∀ i, 0 <= i < 64 → Z.testbit decision i = true → last_published i events = true →
       ∀ j, 0 <= j < 64 → Z.testbit chosen j = Z.testbit decision j && last_published j events)
  ∧ (decision ≠ 0 → chosen ≠ 0).
Proof.
  intros Hevents Hdecision. cbn zeta. set (healthy := foldr _ 0 events).
  assert (0 <= healthy < 2 ^ 64 ∧ ∀ i, 0 <= i < 64 → Z.testbit healthy i = last_published i events)
    as [Hrange Hbits].
  { subst healthy. induction Hevents as [|[index h] events Hi _ [IHr IHb]]; cbn [foldr fst snd last_published] in *.
    - split; [lia|]. intros i _. apply Z.bits_0.
    - split; [by apply publish_range|]. intros i Hib. rewrite publish_testbit by done.
      destruct (decide (index = i)); [done|auto]. }
  unfold selected_paths. split; [done|].
  destruct (Z.eqb_spec (Z.land decision healthy) 0) as [H0|Hboth]; cbn [negb].
  - destruct (Z.eqb_spec healthy 0) as [Hh|Hh]; cbn [negb]; split_and!.
    + intros i Hi Ht (j & Hj & Hl). rewrite <-Hbits, Hh, Z.bits_0 in Hl by done. done.
    + intros i Hi Ht Hl. rewrite <-Hbits, Hh, Z.bits_0 in Hl by done. done.
    + done.
    + intros i Hi Ht _. by rewrite <-Hbits.
    + intros i Hi Ht Hl. rewrite <-Hbits in Hl by done.
      apply (f_equal (λ z, Z.testbit z i)) in H0. by rewrite Z.land_spec, Ht, Hl, Z.bits_0 in H0.
    + done.
  - split_and!.
    + intros i Hi Ht _. rewrite Z.land_spec in Ht. apply andb_true_iff in Ht as [_ Ht]. by rewrite <-Hbits.
    + intros i Hi Ht Hl j Hj. by rewrite Z.land_spec, Hbits.
    + done.
Qed.

(** ** The decision as a mask *)

(** A path's id is its index, and the masks have room for every path. *)
Record numbered (metrics : list PathMetrics) : Prop := {
  numbered_ids : ∀ i p, metrics !! i = Some p → parse_unsigned u32_max (Scheduler.id p) = Some (Z.of_nat i);
  numbered_fit : (length metrics <= 64)%nat
}.

Lemma numbered_NoDup metrics : numbered metrics → NoDup (Scheduler.id <$> metrics).
Proof.
  intros [Hids _]. apply NoDup_alt. intros i j x Hi Hj.
  apply list_lookup_fmap_Some in Hi as (p & -> & Hp). apply list_lookup_fmap_Some in Hj as (q & Hq & Hj).
  apply Hids in Hp. apply Hids in Hj. rewrite Hq in Hp. rewrite Hp in Hj. injection Hj. lia.
Qed.

Lemma numbered_update metrics index p p' :
  numbered metrics → metrics !! index = Some p → Scheduler.id p' = Scheduler.id p →
  numbered (<[index := p']> metrics).
Proof.
  intros [Hids Hfit] Hp Hid. constructor; [|by rewrite length_insert].
  intros i q Hq. destruct (decide (i = index)) as [->|Hne].
  - rewrite list_lookup_insert_eq in Hq by (by eapply lookup_lt_Some). injection Hq as <-.
    rewrite Hid. by apply Hids.
  - rewrite list_lookup_insert_ne in Hq by done. by apply Hids.
Qed.

Lemma mask_of_ids (ids : list (list byte)) start i :
  0 <= i < 64 →
  Z.testbit (foldl (λ mask path_id, Z.lor mask (bit_for_path path_id)) start ids) i = true
  ↔ Z.testbit start i = true ∨ ∃ path_id, path_id ∈ ids ∧ parse_unsigned u32_max path_id = Some i.
Proof.
  intros Hi. revert start. induction ids as [|path_id ids IH]; intros start; cbn [foldl].
  - split; [auto|]. intros [?|(? & Hno%elem_of_nil & _)]; done.
  - rewrite IH, Z.lor_spec, orb_true_iff.
    assert (Z.testbit (bit_for_path path_id) i = true ↔ parse_unsigned u32_max path_id = Some i) as ->.
    { unfold bit_for_path. destruct (parse_unsigned u32_max path_id) as [n|] eqn:E.
      - assert (0 <= n) by (by eapply parse_unsigned_nonneg).
        rewrite bit_testbit, bool_decide_eq_true by lia. split; [intros [-> _]; done|intros [= ->]; lia].
      - by rewrite Z.bits_0. }
    setoid_rewrite elem_of_cons. split.
    + intros [[?|?]|(x & ? & ?)]; eauto 8.
    + intros [?|(x & [->|?] & ?)]; eauto.
Qed.

Lemma mask_for_decision_bits d fallback i :
  0 <= i < 64 → Z.testbit (mask_for_decision d fallback) i = true →
  (∃ path_id, path_id ∈ ids_of d ∧ parse_unsigned u32_max path_id = Some i)
  ∨ ((∀ path_id j, path_id ∈ ids_of d → parse_unsigned u32_max path_id = Some j → 64 <= j)
     ∧ Z.testbit fallback i = true).
Proof.
  intros Hi Ht.
  assert (mask_for_decision d fallback =
    let mask := foldl (λ mask path_id, Z.lor mask (bit_for_path path_id)) 0 (ids_of d) in
    if mask =? 0 then fallback else mask) as Heq by (by destruct d).
  rewrite Heq in Ht. cbn zeta in Ht. destruct (Z.eqb_spec (foldl (λ mask path_id, Z.lor mask (bit_for_path path_id)) 0 (ids_of d)) 0) as [H0|].
  - right. split; [|done]. intros path_id j Hin Hj. destruct (decide (j < 64)); [|lia].
    pose proof (parse_unsigned_nonneg _ _ _ Hj).
    assert (Z.testbit (foldl (λ mask path_id, Z.lor mask (bit_for_path path_id)) 0 (ids_of d)) j = true) as Hbit.
    { apply mask_of_ids; [lia|]. eauto. }
    by rewrite H0, Z.bits_0 in Hbit.
  - left. apply mask_of_ids in Ht as [Ht|Ht]; [by rewrite Z.bits_0 in Ht|done|done].
Qed.

Lemma decision_ids_usable incumbent metrics strategy path_id :
  NoDup (Scheduler.id <$> metrics) →
  path_id ∈ ids_of (choose_paths_with_incumbent incumbent metrics strategy) →
  ∃ p, p ∈ metrics ∧ Scheduler.id p = path_id ∧ is_Some (last_latency_ms p)
       ∧ ((∃ q, usable metrics q) → usable metrics p).
Proof.
  intros Hids Hin. pose proof (healthy_spec incumbent metrics) as Hspec.
  destruct (healthy_paths incumbent metrics) as [|best rest] eqn:Eh.
  - assert (∀ p, ¬ usable metrics p) as Hno by (intros p Hp%Hspec; by apply elem_of_nil in Hp).
    revert Hin. unfold choose_paths_with_incumbent. rewrite Eh. cbn [head].
    pose proof (first_min_spec (last_resort_cost incumbent) (filter (λ p, measured p = true) metrics)) as Hm.
    destruct (first_min _ _) as [p|]; [|intros Hin; by apply elem_of_nil in Hin].
    apply list_elem_of_filter in Hm as [Hmp Hp]. apply bool_decide_eq_true in Hmp.
    intros ->%list_elem_of_singleton. exists p. split_and!; [done..|]. intros [q Hq]. by apply Hno in Hq.
  - pose proof (usable_decision incumbent metrics strategy best rest Hids Eh) as Hud. cbn zeta in Hud.
    destruct Hud as (_ & _ & Hof & _). destruct (Hof _ Hin) as (p & Hp & Hid).
    apply Hspec in Hp. exists p. split_and!; [apply Hp|done|apply Hp|done].
Qed.

Lemma carrying_set_not_nil incumbent quickest p healthy : carrying_set incumbent quickest (p :: healthy) ≠ [].
Proof.
  unfold carrying_set. set (independent := _ <=? _). cbn [fill].
  change (zlen (@nil PathMetrics)) with 0. cbn [Z.leb Z.compare andb app].
  destruct (fill_spec independent quickest healthy [p]) as (l & -> & _).
  destruct independent; [|done]. generalize (p :: healthy). intros k.
  assert (∀ chosen, chosen ≠ [] → keep_carriers incumbent k chosen ≠ []) as Hkeep; [|by apply Hkeep].
  induction k as [|q k IH]; intros chosen Hc; cbn [keep_carriers]; [done|].
  destruct (_ && _); apply IH; [by destruct chosen|done].
Qed.

(** Nothing is named only while nothing was ever measured. *)
Lemma decision_empty incumbent metrics strategy :
  ids_of (choose_paths_with_incumbent incumbent metrics strategy) = [] →
  ∀ p, p ∈ metrics → last_latency_ms p = None.
Proof.
  pose proof (healthy_spec incumbent metrics) as Hspec. unfold choose_paths_with_incumbent.
  destruct (healthy_paths incumbent metrics) as [|best rest]; cbn [head].
  - pose proof (first_min_spec (last_resort_cost incumbent) (filter (λ p, measured p = true) metrics)) as Hf.
    destruct (first_min _ _) as [q|]; [done|]. intros _ p Hp. apply eq_None_not_Some. intros Hm.
    assert (p ∈ filter (λ p, measured p = true) metrics) as Hin; [|rewrite Hf in Hin; by apply elem_of_nil in Hin].
    apply list_elem_of_filter. split; [by apply bool_decide_eq_true|done].
  - destruct (prefer_perm strategy (quickest_delivery (best :: rest)) best rest) as (l & -> & _).
    repeat case_match; try done. cbn [ids_of]. intros Hnil%fmap_nil_inv. by apply carrying_set_not_nil in Hnil.
Qed.

(** After each probe result, the mask the dispatcher reads names only routes
    the scheduler can use: measured ones, and while some route is answering only
    such routes. The fallback is used only before anything was ever measured, and
    the mask is never empty while the fallback is not. *)
Theorem decision_mask_names_usable_routes metrics decision fallback index latency strategy :
  numbered metrics → (0 <= index < zlen metrics) →
  let '(metrics', mask) := update_scheduler_probe metrics decision fallback index latency strategy in
  numbered metrics' ∧ length metrics' = length metrics ∧ (fallback ≠ 0 → mask ≠ 0)
  ∧ ∀ i, 0 <= i < 64 → Z.testbit mask i = true →
      (∃ p, metrics' !! Z.to_nat i = Some p ∧ is_Some (last_latency_ms p)
            ∧ ((∃ q, usable metrics' q) → usable metrics' p))
      ∨ ((∀ p, p ∈ metrics' → last_latency_ms p = None) ∧ Z.testbit fallback i = true).
Proof.
  intros Hnum Hindex. unfold update_scheduler_probe.
  destruct (get_is_Some metrics index Hindex) as [path Hpath]. rewrite Hpath.
  rewrite get_lookup in Hpath by lia.
  set (path' := match latency with Some l => record_probe path l | None => record_loss path end).
  assert (Scheduler.id path' = Scheduler.id path) as Hid 
    by (subst path'; destruct latency as [l|]; [unfold record_probe; by destruct (last_latency_ms path)|done]).
  set (metrics' := <[Z.to_nat index := path']> metrics). set (incumbent := incumbents _ _).
  pose proof (numbered_update metrics (Z.to_nat index) path path' Hnum Hpath Hid) as Hnum'. fold metrics' in Hnum'.
  split_and!; [done|by apply length_insert| |].
  - intros Hf. unfold mask_for_decision. case_match eqn:Hz; [done|]. by apply Z.eqb_neq in Hz.
  - intros i Hi Ht. apply mask_for_decision_bits in Ht as [(path_id & Hin & Hparse)|[Hnone Hf]]; [|right|done].
    + left. apply decision_ids_usable in Hin as (p & Hp & <- & Hm & Hu); [|by apply numbered_NoDup].
      apply list_elem_of_lookup in Hp as [j Hj]. pose proof (numbered_ids _ Hnum' _ _ Hj) as Hj'.
      rewrite Hparse in Hj'. injection Hj' as ->. rewrite Nat2Z.id. eauto.
    + split; [|done]. apply (decision_empty incumbent metrics' strategy).
      destruct (ids_of _) as [|path_id l] eqn:E; [done|exfalso].
      assert (path_id ∈ ids_of (choose_paths_with_incumbent incumbent metrics' strategy)) as Hin
        by (rewrite E; apply list_elem_of_here).
      pose proof Hin as (p & Hp & Hpid & _)%decision_ids_usable; [|by apply numbered_NoDup].
      apply list_elem_of_lookup in Hp as [j Hj]. pose proof (numbered_ids _ Hnum' _ _ Hj) as Hj'.
      pose proof (lookup_lt_Some _ _ _ Hj). pose proof (numbered_fit _ Hnum').
      rewrite Hpid in Hj'. specialize (Hnone path_id (Z.of_nat j) (list_elem_of_here _ _) Hj'). lia.
Qed.

(** ** Late replies *)

Definition expired_wf (expired : list (Z * Z)) : Prop :=
  zlen expired <= LATE_REPLY_CAPACITY ∧ Forall (λ e, 0 <= e.1 < 2 ^ 64) expired.

Lemma remember_expired_wf expired sequence started now :
  expired_wf expired → 0 <= sequence < 2 ^ 64 →
  expired_wf (remember_expired_probe expired sequence started now).
Proof.
  intros [Hlen Hall] Hs. unfold remember_expired_probe.
  set (kept := filter _ expired).
  assert (zlen kept <= zlen expired) as Hkept.
  { unfold zlen. apply inj_le, length_filter. }
  assert (Forall (λ e, 0 <= e.1 < 2 ^ 64) kept) as Hk.
  { apply Forall_forall. intros e [_ He]%list_elem_of_filter. by eapply Forall_forall in Hall. }
  clearbody kept. split.
  - rewrite zlen_app. change (zlen [(sequence, started)]) with 1. unfold LATE_REPLY_CAPACITY in *.
    destruct (Z.leb_spec 32 (zlen kept)); [|lia]. destruct kept as [|e kept]; [done|].
    cbn [tail]. rewrite zlen_cons in *. lia.
  - apply Forall_app. split; [|by apply Forall_singleton].
    destruct (_ <=? _); [|done]. by destruct Hk.
Qed.

(** A late reply is credited to the probe it answers and to no other. *)
Lemma late_reply_own_probe expired sequence now d rest :
  expired_wf expired → 0 <= sequence < 2 ^ 64 →
  take_late_probe_reply expired (str "pong" ++ be_bytes 8 sequence) now = (Some d, rest) →
  ∃ started, (sequence, started) ∈ expired ∧ d = since now started
             ∧ (sequence, started) :: rest ≡ₚ expired.
Proof.
  intros [_ Hall] Hs. unfold take_late_probe_reply.
  destruct (list_find _ expired) as [[position [q started]]|] eqn:E; [|done]. intros [= <- <-].
  apply list_find_Some in E as (Hpos & Hmatch & _). cbn [fst] in Hmatch.
  assert (0 <= q < 2 ^ 64) by (by apply (Forall_lookup_1 _ _ _ _ Hall Hpos)).
  apply probe_answer_matches in Hmatch as ->; [|done..].
  exists started. split_and!; [by eapply list_elem_of_lookup_2|done|].
  by rewrite <-(delete_Permutation expired position).
Qed.

(** ** Witnesses *)

Definition sample_metrics : list PathMetrics :=
  [record_probe (Scheduler.new (str "0")) (of_int 40); Scheduler.new (str "1")].

Lemma sample_metrics_numbered : numbered sample_metrics.
Proof.
  constructor; [|cbn; lia]. intros [|[|i]] p Hp; [injection Hp as <-; by vm_compute..|].
  by destruct i.
Qed.

Lemma dispatch_follows_reports_witness :
  selected_paths 2 (publish_path_health (publish_path_health 0 1 false) 0 true) ≠ 0
  ∧ Z.testbit (publish_path_health (publish_path_health 0 1 false) 0 true) 0 = true.
Proof.
  destruct (dispatch_follows_reports [(0, true); (1, false)] 2) as (Hb & _ & _ & Hn);
    [by repeat constructor|lia|].
  split; [apply Hn; lia|]. apply (Hb 0). lia.
Defined.

Lemma decision_mask_names_usable_routes_witness :
  ∃ p, (update_scheduler_probe sample_metrics 1 3 1 (Some (of_int 60)) FastestPath).1 !! 0%nat = Some p
       ∧ is_Some (last_latency_ms p).
Proof.
  pose proof (decision_mask_names_usable_routes sample_metrics 1 3 1 (Some (of_int 60)) FastestPath
    sample_metrics_numbered ltac:(by vm_compute)) as H.
  destruct (update_scheduler_probe sample_metrics 1 3 1 (Some (of_int 60)) FastestPath) as [metrics' mask] eqn:E.
  destruct H as (_ & _ & _ & Hbits). vm_compute in E. injection E as <- <-.
  destruct (Hbits 0 ltac:(lia) ltac:(by vm_compute)) as [(p & Hp & Hm & _)|[Hno _]]; [by exists p|].
  eexists. split; [done|]. by eexists.
Defined.
