(* ===== verification/Uplink.v ===== *)
(** * Uplink: evidence that the machine reaches the Internet at all

    [engine/src/uplink.rs]: the verdict counted from a run of echo probes and the
    monitor that publishes it. The echo itself is the system's. *)
From S2P Require Import Prelude.

Definition PROBE_INTERVAL : Z := secs 2.
Definition PROBE_TIMEOUT : Z := ms 1000.
Definition FAILURES_BEFORE_DOWN : Z := 3.
Definition SUCCESSES_BEFORE_UP : Z := 1.

Inductive UplinkState : Type := Unknown | Up | Down.

#[export] Instance UplinkState_eq_dec : EqDecision UplinkState.
Proof. solve_decision. Defined.

(** [state as u8] and [from_u8]. *)
Definition as_u8 (s : UplinkState) : Z := match s with Unknown => 0 | Up => 1 | Down => 2 end.
Definition from_u8 (value : Z) : UplinkState :=
  if value =? 1 then Up else if value =? 2 then Down else Unknown.

Record UplinkMonitor := mk_monitor { state_u8 : Z; transitions : Z }.

Definition new_monitor : UplinkMonitor := mk_monitor (as_u8 Unknown) 0.
Definition state (m : UplinkMonitor) : UplinkState := from_u8 (state_u8 m).
Definition is_known_down (m : UplinkMonitor) : bool := bool_decide (state m = Down).

Definition publish (m : UplinkMonitor) (next : UplinkState) : option UplinkState * UplinkMonitor :=
  let previous := state m in
  if bool_decide (previous = next) then (None, mk_monitor (as_u8 next) (transitions m))
  else (Some previous, mk_monitor (as_u8 next) (wrap64 (transitions m + 1))).

Record UplinkVerdict := mk_verdict { failures : Z; successes : Z; ever_answered : bool }.

Definition default_verdict : UplinkVerdict := mk_verdict 0 0 false.

(** A [u32] count; its overflow would be a panic. *)
Definition count_up (n : Z) : run Z := if n + 1 <? 2 ^ 32 then Ret (n + 1) else Panic.

Definition record (v : UplinkVerdict) (answered : bool) : run (UplinkState * UplinkVerdict) :=
  if answered then
    successes ← count_up (successes v);
    Ret (if SUCCESSES_BEFORE_UP <=? successes then Up else Unknown, mk_verdict 0 successes true)
  else
    failures ← count_up (failures v);
    Ret (if negb (ever_answered v) then Unknown
         else if FAILURES_BEFORE_DOWN <=? failures then Down else Unknown,
         mk_verdict failures 0 (ever_answered v)).

(** The probing loop over the outcomes of its probes: what is reported to
    [on_change], and the monitor left. *)
Fixpoint run_probes (v : UplinkVerdict) (m : UplinkMonitor) (answers : list bool)
    : run (list (UplinkState * UplinkState) * UplinkMonitor) :=
  match answers with
  | [] => Ret ([], m)
  | answered :: answers' =>
      '(next, v) ← record v answered;
      let '(changed, m) := publish m next in
      '(changes, m) ← run_probes v m answers';
      Ret (match changed with Some previous => (previous, next) :: changes | None => changes end, m)
  end.

(** ** What a history of probes says *)

(** The answers, newest first. *)
Fixpoint silent_for (recent_first : list bool) : Z :=
  match recent_first with
  | false :: l => 1 + silent_for l
  | _ => 0
  end.

Definition verdict_of (recent_first : list bool) : UplinkState :=
  match recent_first with
  | true :: _ => Up
  | _ => if bool_decide (true ∈ recent_first) && (FAILURES_BEFORE_DOWN <=? silent_for recent_first)
         then Down else Unknown
  end.

(** A verdict's counts after a history. *)
Record counts (v : UplinkVerdict) (recent_first : list bool) : Prop := {
  counts_failures : failures v = silent_for recent_first;
  counts_successes : 0 <= successes v <= zlen recent_first;
  counts_ever : ever_answered v = bool_decide (true ∈ recent_first)
}.

Lemma silent_for_bound l : 0 <= silent_for l <= zlen l.
Proof.
  induction l as [|[] l IH]; cbn [silent_for]; len.
Qed.

Lemma record_counts v history answered :
  counts v history → zlen history + 1 < 2 ^ 32 →
  ∃ v', record v answered = Ret (verdict_of (answered :: history), v') ∧ counts v' (answered :: history).
Proof.
  intros [Hf Hs He] Hlen. pose proof (silent_for_bound history). unfold record, count_up. destruct answered.
  - rewrite (proj2 (Z.ltb_lt _ _)) by lia. cbn [mbind run_bind].
    unfold SUCCESSES_BEFORE_UP. rewrite (proj2 (Z.leb_le _ _)) by lia. eexists. split; [done|].
    constructor; cbn [failures successes ever_answered silent_for]; [done| |].
    + rewrite zlen_cons. lia.
    + symmetry. apply bool_decide_eq_true_2, list_elem_of_here.
  - rewrite (proj2 (Z.ltb_lt _ _)) by lia. cbn [mbind run_bind].
    exists (mk_verdict (failures v + 1) 0 (ever_answered v)). split.
    + do 2 f_equal. rewrite He, Hf. unfold verdict_of. cbn [silent_for].
      rewrite (Z.add_comm 1). rewrite (bool_decide_ext (true ∈ false :: history) (true ∈ history)).
      * by destruct (bool_decide (true ∈ history)), (FAILURES_BEFORE_DOWN <=? _).
      * rewrite elem_of_cons. naive_solver.
    + constructor; cbn [failures successes ever_answered silent_for]; [lia|rewrite zlen_cons; lia|].
      rewrite He. apply bool_decide_ext. rewrite elem_of_cons. naive_solver.
Qed.

Lemma from_as_u8 s : from_u8 (as_u8 s) = s.
Proof. by destruct s. Qed.

Lemma run_probes_counts v m history answers :
  counts v history → state m = verdict_of history → zlen history + zlen answers < 2 ^ 32 →
  ∃ changes m', run_probes v m answers = Ret (changes, m')
    ∧ state m' = verdict_of (reverse answers ++ history)
    ∧ Forall (λ c, c.1 ≠ c.2) changes.
Proof.
  revert v m history. induction answers as [|answered answers IH]; intros v m history Hv Hm Hlen.
  - exists [], m. by split_and!.
  - rewrite zlen_cons in Hlen. pose proof (zlen_nonneg answers).
    destruct (record_counts v history answered Hv) as (v' & Hrec & Hv'); [lia|].
    cbn [run_probes]. rewrite Hrec. cbn [mbind run_bind]. unfold publish. rewrite Hm.
    set (next := verdict_of (answered :: history)).
    destruct (IH v' (mk_monitor (as_u8 next) (transitions m)) (answered :: history)) as (c1 & m1 & H1 & Hs1 & Hc1);
      [done|apply from_as_u8|rewrite zlen_cons; lia|].
    destruct (IH v' (mk_monitor (as_u8 next) (wrap64 (transitions m + 1))) (answered :: history))
      as (c2 & m2 & H2 & Hs2 & Hc2); [done|apply from_as_u8|rewrite zlen_cons; lia|].
    rewrite reverse_cons, <-app_assoc. case_bool_decide as Hsame.
    + rewrite H1. cbn [mbind run_bind]. eauto.
    + rewrite H2. cbn [mbind run_bind]. eexists _, _. split; [done|]. split; [done|]. by constructor.
Qed.

(** The uplink is reported up when the last probe was answered, and down only
    after three unanswered probes in a row on a network that has answered before:
    where echoes are filtered it is never reported down, whatever is probed. Only
    changes of the verdict are reported. *)
Theorem uplink_verdict_follows_probes answers :
  zlen answers < 2 ^ 32 →
  ∃ changes m, run_probes default_verdict new_monitor answers = Ret (changes, m)
    ∧ state m = verdict_of (reverse answers)
    ∧ (state m = Up ↔ last answers = Some true)
    ∧ (state m = Down ↔ true ∈ answers ∧ 3 <= silent_for (reverse answers))
    ∧ Forall (λ c, c.1 ≠ c.2) changes.
Proof.
  intros Hlen.
  destruct (run_probes_counts default_verdict new_monitor [] answers) as (changes & m & Hrun & Hs & Hc);
    [by constructor|done|done|].
  rewrite app_nil_r in Hs. exists changes, m. split_and!; [done|done| | |done]; rewrite Hs.
  - pose proof (last_reverse (reverse answers)) as Hl. rewrite reverse_involutive in Hl. rewrite Hl.
    unfold verdict_of. destruct (reverse answers) as [|[] l]; [done|done|].
    cbn [head]. by case_match.
  - rewrite <-elem_of_reverse. unfold verdict_of, FAILURES_BEFORE_DOWN.
    destruct (reverse answers) as [|[] l].
    + split; [done|]. by intros [?%elem_of_nil _].
    + split; [done|]. cbn [silent_for]. lia.
    + destruct (_ && _) eqn:E.
      * apply andb_true_iff in E as [E1%bool_decide_eq_true E2%Z.leb_le]. tauto.
      * split; [done|]. intros [Hin H3]. by rewrite bool_decide_eq_true_2, (proj2 (Z.leb_le _ _)) in E.
Qed.

Lemma uplink_verdict_follows_probes_witness :
  ∃ changes m, run_probes default_verdict new_monitor [false; true; false; false; false] = Ret (changes, m)
    ∧ state m = Down.
Proof.
  destruct (uplink_verdict_follows_probes [false; true; false; false; false]) as (changes & m & H & _ & _ & Hd & _);
    [by vm_compute|].
  exists changes, m. split; [done|]. apply Hd. split; [|by vm_compute].
  apply (bool_decide_unpack (true ∈ [false; true; false; false; false])). by vm_compute.
Defined.
