(* ===== verification/Dialer.v ===== *)
(** * Dialer: reopening a path that stopped answering

    [engine/src/session/dialer.rs]: the escalation from a cheap reopen to a
    rebuild, the reconnect in flight, the backoff, and when the evidence points at
    the uplink rather than at the path. *)
From S2P Require Import Prelude Scheduler Health Uplink.

Inductive ReopenEffort : Type := Cheap | Full.

(** [cheap_allowed.swap(false)]. *)
Definition choose_reopen_effort (cheap_allowed : bool) : ReopenEffort * bool :=
  (if cheap_allowed then Cheap else Full, false).

(** What has arrived from the dialling thread. *)
Inductive Channel (T : Type) : Type :=
| Empty
| Received (outcome : result (list byte) T)
| Disconnected.
Arguments Empty {T}.
Arguments Received {T} outcome.
Arguments Disconnected {T}.

Inductive ReconnectPoll (T : Type) : Type :=
| Pending
| Discarded
| Finished (outcome : result (list byte) T).
Arguments Pending {T}.
Arguments Discarded {T}.
Arguments Finished {T} outcome.

(** A [ReconnectAttempt] is whether it was superseded; its channel is read when
    it is polled. *)
Definition poll {T} (superseded : bool) (receiver : Channel T) : ReconnectPoll T :=
  match receiver with
  | Empty => Pending
  | Received outcome => if superseded then Discarded else Finished outcome
  | Disconnected =>
      if superseded then Discarded
      else Finished (Err (str "reconnect worker stopped without a result"))
  end.

Definition RECONNECT_AFTER_FAILURES : Z := 3.
Definition RECONNECT_BACKOFF_MIN : Z := 0.
Definition RECONNECT_BACKOFF_STEP : Z := secs 1.
Definition RECONNECT_BACKOFF_MAX : Z := secs 30.

Definition next_backoff (current : Z) : Z :=
  if current =? 0 then RECONNECT_BACKOFF_STEP else Z.min (current * 2) RECONNECT_BACKOFF_MAX.

Definition schedule_redial (failures backoff : Z) (next_redial : option Z) (now : Z) : option Z :=
  if (RECONNECT_AFTER_FAILURES <=? failures) && bool_decide (next_redial = None)
  then Some (now + backoff) else next_redial.

Definition UPLINK_DOWN_BACKOFF : Z := secs 6.

Definition another_path_is_up (healthy_mask index : Z) : bool :=
  negb (Z.land healthy_mask (complement (bit index)) =? 0).

Definition COMMON_MODE_CONFIRM_WINDOW : Z := PROBE_INTERVAL * (FAILURES_BEFORE_DOWN + 1).

Definition hold_redial_for_common_mode (uplink : UplinkState) (common_mode_for : option Z) : bool :=
  match uplink with
  | Down => true
  | Up => match common_mode_for with
          | Some elapsed => elapsed <? COMMON_MODE_CONFIRM_WINDOW
          | None => false
          end
  | Unknown => bool_decide (is_Some common_mode_for)
  end.

(** ** Backoff *)

(** The wait after [n] redials that did not help. *)
Fixpoint backoff_after (n : nat) : Z :=
  match n with
  | O => RECONNECT_BACKOFF_MIN
  | S n' => next_backoff (backoff_after n')
  end.

Lemma backoff_bounds n : 0 <= backoff_after n <= RECONNECT_BACKOFF_MAX ∧ (n ≠ 0%nat → secs 1 <= backoff_after n).
Proof.
  unfold RECONNECT_BACKOFF_MAX. induction n as [|n [IH IH']]; cbn [backoff_after].
  - unfold RECONNECT_BACKOFF_MIN, secs. lia.
  - unfold next_backoff, RECONNECT_BACKOFF_STEP, RECONNECT_BACKOFF_MAX.
    destruct (Z.eqb_spec (backoff_after n) 0) as [E|E]; [unfold secs; lia|].
    assert (n ≠ 0%nat) as Hn by (intros ->; done). specialize (IH' Hn). unfold secs in *. lia.
Qed.

Lemma another_path_spec mask index :
  0 <= mask < 2 ^ 64 → 0 <= index →
  another_path_is_up mask index = true ↔ ∃ j, 0 <= j < 64 ∧ j ≠ index ∧ Z.testbit mask j = true.
Proof.
  intros Hm Hi. unfold another_path_is_up. rewrite negb_true_iff, Z.eqb_neq.
  assert (0 <= Z.land mask (complement (bit index)) < 2 ^ 64) as Hr.
  { apply (land_bound 64); [lia|done|]. apply complement_range. by apply bit_range. }
  assert (∀ j, 0 <= j < 64 → Z.testbit (Z.land mask (complement (bit index))) j
    = Z.testbit mask j && negb (bool_decide (index = j))) as Hbits.
  { intros j Hj. rewrite Z.land_spec, complement_testbit, bit_testbit by lia. f_equal. f_equal.
    apply bool_decide_ext. lia. }
  split.
  - intros (j & Hj & Ht)%mask_nonzero; [|done]. rewrite Hbits in Ht by done. b2p.
    match goal with H : bool_decide _ = false |- _ => apply bool_decide_eq_false in H end.
    exists j. split_and!; [lia|lia|congruence|done].
  - intros (j & Hj & Hne & Ht) H0. rewrite (mask_zero _ Hr) in H0. specialize (H0 j Hj).
    rewrite Hbits, Ht, bool_decide_eq_false_2 in H0 by done. done.
Qed.
