(* ===== verification/Latency.v ===== *)
(** * Latency: one report per slowdown

    [engine/src/session/latency.rs]: the watch over a route's round trips, in
    executable binary64 milliseconds, that reports a confirmed rise once and the
    recovery from it once. *)
From S2P Require Import Prelude Float64.

Definition LATENCY_RISE_MIN_MS : f64 := of_int 12.
Definition LATENCY_RISE_RATIO : f64 := ratio 10 100.
Definition LATENCY_SEVERE_MIN_MS : f64 := of_int 50.
Definition LATENCY_SEVERE_RATIO : f64 := ratio 75 100.
Definition LATENCY_BASELINE_SAMPLES : Z := 4.
Definition LATENCY_RISE_SAMPLES : Z := 2.
Definition LATENCY_RECOVERY_SAMPLES : Z := 3.

Inductive LatencyEvent : Type :=
| Degraded (baseline_ms observed_ms : f64)
| Recovered (baseline_ms peak_ms : f64) (duration : Z).

Record LatencyWatch := mk_watch {
  baseline_ms : option f64;
  samples : Z;
  elevated_samples : Z;
  recovery_samples : Z;
  incident_started : option Z;
  peak_ms : f64
}.

Definition default_watch : LatencyWatch := mk_watch None 0 0 0 None (of_int 0).

(** [x.saturating_add(1)] of a [u8] and of a [u64]. *)
Definition sat_inc8 (x : Z) : Z := Z.min 255 (x + 1).
Definition sat_inc64 (x : Z) : Z := Z.min u64_max (x + 1).


(** A sample during an incident. *)
Definition observe_recovery (w : LatencyWatch) (baseline sample : f64) (started now : Z)
    : option LatencyEvent * LatencyWatch :=
  let peak := fmax (peak_ms w) sample in
  let recovered_below := fadd baseline (fdiv LATENCY_RISE_MIN_MS (of_int 2)) in
  let recovery := if fle sample recovered_below then sat_inc8 (recovery_samples w) else 0 in
  if LATENCY_RECOVERY_SAMPLES <=? recovery then
    (Some (Recovered baseline peak (since now started)), mk_watch (Some sample) 1 0 0 None (of_int 0))
  else
    (None, mk_watch (baseline_ms w) (samples w) (elevated_samples w) recovery (Some started) peak).

Definition observe (w : LatencyWatch) (sample_ms : f64) (now : Z) : option LatencyEvent * LatencyWatch :=
  let sample := fmax sample_ms (of_int 0) in
  match baseline_ms w with
  | None =>
      (None, mk_watch (Some sample) 1 (elevated_samples w) (recovery_samples w) (incident_started w)
               (peak_ms w))
  | Some baseline =>
      match incident_started w with
      | Some started => observe_recovery w baseline sample started now
      | None =>
          let rise := fsub sample baseline in
          let threshold := fmax LATENCY_RISE_MIN_MS (fmul baseline LATENCY_RISE_RATIO) in
          let severe := fle (fmax LATENCY_SEVERE_MIN_MS (fmul baseline LATENCY_SEVERE_RATIO)) rise in
          let elevated := (LATENCY_BASELINE_SAMPLES <=? samples w) && fle threshold rise in
          if elevated then
            let count := sat_inc8 (elevated_samples w) in
            let peak := fmax (peak_ms w) sample in
            if severe || (LATENCY_RISE_SAMPLES <=? count) then
              (Some (Degraded baseline peak),
               mk_watch (Some baseline) (samples w) count (recovery_samples w) (Some now) peak)
            else
              (None, mk_watch (Some baseline) (samples w) count (recovery_samples w) None peak)
          else
            (None,
             mk_watch (Some (fadd baseline (fmul (ratio 5 100) (fsub sample baseline))))
               (sat_inc64 (samples w)) 0 (recovery_samples w) None (of_int 0))
      end
  end.

(** The reports of a run of samples. *)
Fixpoint observe_all (w : LatencyWatch) (observations : list (f64 * Z))
    : list LatencyEvent * LatencyWatch :=
  match observations with
  | [] => ([], w)
  | (sample, now) :: rest =>
      let '(event, w) := observe w sample now in
      let '(events, w) := observe_all w rest in
      (match event with Some e => e :: events | None => events end, w)
  end.

(** ** Reports alternate *)

Definition event_baseline (e : LatencyEvent) : f64 :=
  match e with Degraded b _ => b | Recovered b _ _ => b end.

(** The reports that can follow, given the baseline of the incident under way. *)
Fixpoint alternates (incident : option f64) (events : list LatencyEvent) : Prop :=
  match incident, events with
  | _, [] => True
  | None, Degraded baseline _ :: rest => alternates (Some baseline) rest
  | Some baseline, Recovered baseline' _ _ :: rest => baseline' = baseline ∧ alternates None rest
  | _, _ => False
  end.

Definition incident_of (w : LatencyWatch) : option f64 :=
  match incident_started w with Some _ => baseline_ms w | None => None end.

Definition watch_wf (w : LatencyWatch) : Prop := is_Some (incident_started w) → is_Some (baseline_ms w).

Lemma observe_alternates w sample now rest :
  watch_wf w → alternates (incident_of (observe w sample now).2) rest →
  watch_wf (observe w sample now).2
  ∧ alternates (incident_of w)
      (match (observe w sample now).1 with Some e => e :: rest | None => rest end).
Proof.
  intros Hwf. unfold observe, observe_recovery, incident_of, watch_wf in *.
  destruct (baseline_ms w) as [baseline|] eqn:Eb.
  - destruct (incident_started w) as [started|] eqn:Es;
      repeat (case_match; cbn [fst snd baseline_ms incident_started] in *); intros Hrest;
      (split; [by intros [? ?]|]); cbn [alternates]; rewrite ?Eb in *; try done;
      repeat (case_match; simplify_eq; cbn [fst snd baseline_ms incident_started] in *); try done.
  - destruct (incident_started w) as [started|] eqn:Es.
    + exfalso. by destruct (Hwf ltac:(by eexists)).
    + cbn [fst snd baseline_ms incident_started]. intros Hrest. split; [by intros [? ?]|done].
Qed.

Lemma observe_all_alternates w observations :
  watch_wf w → alternates (incident_of w) (observe_all w observations).1.
Proof.
  revert w. induction observations as [|[sample now] rest IH]; intros w Hwf; cbn [observe_all fst].
  - by destruct (incident_of w).
  - destruct (observe_alternates w sample now [] Hwf) as [Hwf' _]; [by destruct (incident_of _)|].
    pose proof (observe_alternates w sample now (observe_all (observe w sample now).2 rest).1 Hwf) as Hstep.
    destruct (observe w sample now) as [event w']. cbn [fst snd] in *.
    specialize (IH w' Hwf'). destruct (observe_all w' rest) as [events w'']. cbn [fst] in *.
    by destruct (Hstep IH) as [_ Halt].
Qed.

(** However a route's round trips move, slowdowns are reported one at a time:
    a rise, then the recovery from that same baseline, then possibly the next rise.
    A slow route is never reported twice, and a recovery never without its rise. *)
Theorem slowdowns_are_reported_once observations :
  alternates None (observe_all default_watch observations).1.
Proof. apply (observe_all_alternates default_watch). by intros [? ?]. Qed.
