(* ===== verification/Diagnostics.v ===== *)
(** * Diagnostics: packet failures, counted and reported

    [engine/src/packet_diagnostics.rs]: counters by reason and inner protocol, one
    sample of an error at a time, and the reports of what was counted since the
    last one. *)
From S2P Require Import Prelude Text.

Inductive Reason : Type :=
| OutboundNoQueue
| OutboundNoWorker
| TransportSend
| WintunInject
| WintunInvalidSource
| OversizedReply
| BypassInject
| Checksum
| ReturnInject
| RepairQueue
| RelayAuthentication
| ReplayTooOld.

(** [reason as usize]. *)
Definition reason_index (r : Reason) : nat :=
  match r with
  | OutboundNoQueue => 0
  | OutboundNoWorker => 1
  | TransportSend => 2
  | WintunInject => 3
  | WintunInvalidSource => 4
  | OversizedReply => 5
  | BypassInject => 6
  | Checksum => 7
  | ReturnInject => 8
  | RepairQueue => 9
  | RelayAuthentication => 10
  | ReplayTooOld => 11
  end%nat.

Definition LABELS : list (list byte) :=
  str <$> ["outbound-no-queue"; "outbound-no-worker"; "transport-copy-send-failed";
           "wintun-return-injection-failed"; "wintun-invalid-source"; "oversized-return";
           "bypass-injection-failed"; "outbound-checksum-failed"; "return-injection-failed";
           "repair-inbound-queue-rejected"; "relay-authentication-rejected"; "relay-return-too-old"]%string.

(** UDP, TCP and other. *)
Record Counter := mk_counter {
  protocols : list Z;
  sample : option (list byte);
  sample_pending : bool
}.

Definition new_counter : Counter := mk_counter [0; 0; 0] None false.

(** [PacketDiagnostics]. *)
Notation Counters := (list Counter).
Definition new_diagnostics : Counters := replicate (length LABELS) new_counter.

Definition inner_protocol (packet : list byte) : nat :=
  if (20 <=? zlen packet) && (nz packet 0 / 16 =? 4)
  then if nz packet 9 =? 17 then 0 else if nz packet 9 =? 6 then 1 else 2
  else 2.

Definition count (protocol : nat) (c : Counter) : Counter :=
  mk_counter (alter (λ n, wrap64 (n + 1)) protocol (protocols c)) (sample c) (sample_pending c).

Definition record (d : Counters) (reason : Reason) (packet : list byte) : Counters :=
  alter (count (inner_protocol packet)) (reason_index reason) d.

(** The code points that [char::is_control] accepts, as UTF-8. *)
Definition is_control (r : list byte) : bool :=
  match r with
  | [b] => (b2z b <? 0x20) || (b2z b =? 0x7f)
  | [xc2; b] => b2z b <? 0xa0
  | _ => false
  end.

Definition sanitised (error : list byte) : list byte :=
  mjoin ((λ r, if is_control r then [x20] else r) <$> take 256 (snd <$> runs error)).

(** [free] is whether [try_lock] gets the sample. *)
Definition take_sample (free : bool) (error : list byte) (c : Counter) : Counter :=
  if sample_pending c then c
  else if free
  then mk_counter (protocols c)
         (match sample c with None => Some (sanitised error) | kept => kept end) true
  else mk_counter (protocols c) (sample c) false.

Definition record_error (d : Counters) (reason : Reason) (packet error : list byte) (free : bool)
    : Counters :=
  alter (take_sample free error) (reason_index reason) (record d reason packet).

Definition snapshot (d : Counters) : list (list Z) := protocols <$> d.

(** ** Reports *)

Record Reporter := mk_reporter { reported : list (list Z); last_log : option Z }.
Definition new_reporter : Reporter := mk_reporter (replicate (length LABELS) [0; 0; 0]) None.

(** One line of a report: the label, what was counted, and a sample. *)
Record Line := mk_line { line_label : list byte; delta : list Z; line_sample : option (list byte) }.

Definition delta_of (current before : list Z) : list Z := zip_with sat_sub current before.

Fixpoint report_loop (labels : list (list byte)) (d : Counters) (before : list (list Z))
    : list Line * Counters :=
  match labels, d, before with
  | label :: labels', c :: d', b :: before' =>
      let '(lines, rest) := report_loop labels' d' before' in
      let delta := delta_of (protocols c) b in
      if bool_decide (delta = [0; 0; 0]) then (lines, c :: rest)
      else (mk_line label delta (sample c) :: lines, mk_counter (protocols c) None false :: rest)
  | _, _, _ => ([], d)
  end.

(** The lines of a report, joined and formatted for the log when there are any. *)
Definition take_report (r : Reporter) (d : Counters) : list Line * Counters * Reporter :=
  let '(lines, d') := report_loop LABELS d (reported r) in
  (lines, d', mk_reporter (snapshot d) (last_log r)).

Definition poll (r : Reporter) (d : Counters) (force : bool) (now : Z) : list Line * Counters * Reporter :=
  if negb force && match last_log r with Some logged => since now logged <? secs 10 | None => false end
  then ([], d, r)
  else
    let '(lines, d, r) := take_report r d in
    (lines, d, match lines with [] => r | _ => mk_reporter (reported r) (Some now) end).
