(* ===== verification/LocalTap.v ===== *)
(** * LocalTap: inbound packets of the engine's own flows

    [engine/src/session/local_tap.rs]: the port claims of the local stack, the
    packets diverted to it, and the queue a path worker puts inbound packets in.
    [LocalStackSink] and [InboundQueue] are the traits of the same names; [now] is
    the reading of the clock during the call. *)
From S2P Require Import Prelude.

Definition IPPROTO_TCP : Z := 6.
Definition IPPROTO_UDP : Z := 17.
Definition PORT_WORDS : Z := 65536 / 64.
Definition FRAGMENT_TRACK_TTL : Z := secs 5.
Definition FRAGMENT_TRACK_LIMIT : Z := 64.

Inductive Protocol : Type := Tcp | Udp.

#[export] Instance Protocol_eq_dec : EqDecision Protocol.
Proof. solve_decision. Defined.
#[export] Instance Protocol_countable : Countable Protocol.
Proof.
  refine (inj_countable' (λ p, match p with Tcp => true | Udp => false end)
                         (λ b, if b : bool then Tcp else Udp) _). by intros [].
Defined.

(** Takes a packet, or gives it back. *)
Class LocalStackSink (S : Type) := deliver : S → list byte → option S.

Inductive Diversion : Type :=
| NotLocal (packet : list byte)
| Taken
| TapFull.

(** ** The header fields the decision needs *)

Record Ipv4Header := mk_ipv4 {
  source : Z;
  identification : Z;
  more_fragments : bool;
  destination_port : option (Protocol * Z)
}.

Definition parse_ipv4_header (packet : list byte) : option Ipv4Header :=
  if (zlen packet <? 20) || negb (nz packet 0 / 16 =? 4) then None else
  protocol ← (if nz packet 9 =? IPPROTO_TCP then Some Tcp
              else if nz packet 9 =? IPPROTO_UDP then Some Udp else None);
  let header_length := nz packet 0 mod 16 * 4 in
  let flags_offset := nz16 packet 6 in
  let offset := Z.land flags_offset 0x1fff in
  destination_port ←
    (if offset =? 0 then
       port ← get_range packet (header_length + 2) (header_length + 4);
       Some (Some (protocol, nz16 port 0))
     else Some None);
  Some (mk_ipv4 (be_Z (sub packet 12 16)) (nz16 packet 4)
          (negb (Z.land flags_offset 0x2000 =? 0)) destination_port).

(** ** The tap *)

Record LocalTap (S : Type) := mk_tap {
  armed : bool;
  tcp : list Z;
  udp : list Z;
  sink : option S;
  tracked : list (Z * Z * Z)
}.
Arguments mk_tap {S} armed tcp udp sink tracked.
Arguments armed {S} l.
Arguments tcp {S} l.
Arguments udp {S} l.
Arguments sink {S} l.
Arguments tracked {S} l.

Definition no_ports : list Z := replicate (Z.to_nat PORT_WORDS) 0.

Section tap.
Context {S : Type} `{!LocalStackSink S}.

Definition default_tap : LocalTap S := mk_tap false no_ports no_ports None [].

Definition attach (t : LocalTap S) (s : S) : LocalTap S :=
  mk_tap true (tcp t) (udp t) (Some s) (tracked t).

Definition detach (t : LocalTap S) : LocalTap S :=
  mk_tap false ((λ _, 0) <$> tcp t) ((λ _, 0) <$> udp t) None [].

Definition bitmap (t : LocalTap S) (p : Protocol) : list Z :=
  match p with Tcp => tcp t | Udp => udp t end.

Definition with_bitmap (t : LocalTap S) (p : Protocol) (words : list Z) : LocalTap S :=
  match p with
  | Tcp => mk_tap (armed t) words (udp t) (sink t) (tracked t)
  | Udp => mk_tap (armed t) (tcp t) words (sink t) (tracked t)
  end.

Definition word_of (words : list Z) (port : Z) : Z := default 0 (get words (port / 64)).
Definition port_bit (port : Z) : Z := Z.shiftl 1 (port mod 64).

Definition claim (t : LocalTap S) (p : Protocol) (port : Z) : LocalTap S :=
  let words := bitmap t p in
  with_bitmap t p (<[Z.to_nat (port / 64) := Z.lor (word_of words port) (port_bit port)]> words).

Definition release (t : LocalTap S) (p : Protocol) (port : Z) : LocalTap S :=
  let words := bitmap t p in
  with_bitmap t p (<[Z.to_nat (port / 64) := Z.ldiff (word_of words port) (port_bit port)]> words).

Definition is_claimed (t : LocalTap S) (p : Protocol) (port : Z) : bool :=
  negb (Z.land (word_of (bitmap t p) port) (port_bit port) =? 0).

Definition with_tracked (t : LocalTap S) (f : list (Z * Z * Z)) : LocalTap S :=
  mk_tap (armed t) (tcp t) (udp t) (sink t) f.

Definition track_fragment (t : LocalTap S) (source identification now : Z) : LocalTap S :=
  let kept := filter (λ f, since now f.2 < FRAGMENT_TRACK_TTL) (tracked t) in
  let kept := if FRAGMENT_TRACK_LIMIT <=? zlen kept then tail kept else kept in
  with_tracked t (kept ++ [(source, identification, now)]).

Definition is_tracked_fragment (t : LocalTap S) (source identification now : Z) : bool :=
  existsb (λ '(from, id, seen), (from =? source) && (id =? identification)
                                && (since now seen <? FRAGMENT_TRACK_TTL)) (tracked t).

Definition divert (t : LocalTap S) (packet : list byte) (now : Z) : Diversion * LocalTap S :=
  if negb (armed t) then (NotLocal packet, t) else
  match parse_ipv4_header packet with
  | None => (NotLocal packet, t)
  | Some header =>
      let '(local, t) :=
        match destination_port header with
        | Some (protocol, port) =>
            let claimed := is_claimed t protocol port in
            (claimed, if claimed && more_fragments header
                      then track_fragment t (source header) (identification header) now else t)
        | None => (is_tracked_fragment t (source header) (identification header) now, t)
        end in
      if negb local then (NotLocal packet, t) else
      match sink t with
      | Some s =>
          match deliver s packet with
          | Some s' => (Taken, mk_tap (armed t) (tcp t) (udp t) (Some s') (tracked t))
          | None => (TapFull, t)
          end
      | None => (TapFull, t)
      end
  end.
End tap.

(** ** Queues *)

Inductive TrySendError : Type :=
| QueueFull (packet : list byte)
| QueueDisconnected (packet : list byte).

(** [try_send] at an instant. *)
Class InboundQueue (Q : Type) :=
  try_send : Q → list byte → Z → result TrySendError unit * Q.

(** [mpsc::SyncSender], with its receiver's end. *)
Record SyncSender := mk_queue { queued : list (list byte); capacity : Z; connected : bool }.

Definition sync_try_send (q : SyncSender) (packet : list byte) : result TrySendError unit * SyncSender :=
  if negb (connected q) then (Err (QueueDisconnected packet), q)
  else if capacity q <=? zlen (queued q) then (Err (QueueFull packet), q)
  else (Ok (), mk_queue (queued q ++ [packet]) (capacity q) (connected q)).

#[export] Instance SyncSender_queue : InboundQueue SyncSender :=
  λ q packet _, sync_try_send q packet.

(** What [recv_timeout] takes. *)
Definition recv (q : SyncSender) : option (list byte) * SyncSender :=
  match queued q with
  | [] => (None, q)
  | packet :: rest => (Some packet, mk_queue rest (capacity q) (connected q))
  end.

Record InboundGauge := mk_gauge { depth : Z; peak : Z }.

Definition gauge_queued (g : InboundGauge) : InboundGauge :=
  let depth := wrap64 (depth g + 1) in mk_gauge depth (Z.max (peak g) depth).
Definition gauge_taken (g : InboundGauge) : InboundGauge :=
  if depth g =? 0 then g else mk_gauge (depth g - 1) (peak g).

Record InboundSink (S : Type) := mk_inbound {
  inbound_queue : SyncSender;
  inbound_tap : LocalTap S;
  inbound_gauge : InboundGauge
}.
Arguments mk_inbound {S} inbound_queue inbound_tap inbound_gauge.
Arguments inbound_queue {S} i.
Arguments inbound_tap {S} i.
Arguments inbound_gauge {S} i.

Definition inbound_try_send {S} `{!LocalStackSink S} (i : InboundSink S) (packet : list byte) (now : Z)
    : result TrySendError unit * InboundSink S :=
  let '(diversion, tap) := divert (inbound_tap i) packet now in
  match diversion with
  | NotLocal packet =>
      let '(sent, queue) := sync_try_send (inbound_queue i) packet in
      match sent with
      | Err e => (Err e, mk_inbound queue tap (inbound_gauge i))
      | Ok _ => (Ok (), mk_inbound queue tap (gauge_queued (inbound_gauge i)))
      end
  | Taken => (Ok (), mk_inbound (inbound_queue i) tap (inbound_gauge i))
  | TapFull => (Err (QueueFull []), mk_inbound (inbound_queue i) tap (inbound_gauge i))
  end.

#[export] Instance InboundSink_queue {S} `{!LocalStackSink S} : InboundQueue (InboundSink S) :=
  inbound_try_send.

(** ** The claims as a set *)

Definition is_port (port : Z) : Prop := 0 <= port < 65536.

Section tap_proofs.
Context {S : Type} `{!LocalStackSink S}.
Implicit Types (t : LocalTap S).

Definition words_wf (words : list Z) : Prop := length words = Z.to_nat PORT_WORDS.

Record tap_wf t : Prop := {
  tap_tcp : words_wf (tcp t);
  tap_udp : words_wf (udp t);
  tap_sink : armed t = true ↔ is_Some (sink t);
  tap_tracked : zlen (tracked t) <= FRAGMENT_TRACK_LIMIT
}.

Lemma port_slot port : is_port port → 0 <= port / 64 < PORT_WORDS ∧ 0 <= port mod 64 < 64.
Proof.
  unfold is_port. change PORT_WORDS with 1024. intros. split; [|apply Z.mod_pos_bound; lia].
  split; [apply Z.div_pos; lia|apply Z.div_lt_upper_bound; lia].
Qed.

Lemma same_port p q : p / 64 = q / 64 → p mod 64 = q mod 64 → p = q.
Proof. intros Hd Hm. rewrite (Z.div_mod p 64), (Z.div_mod q 64) by done. congruence. Qed.

Lemma word_of_insert words p q v :
  words_wf words → is_port p → is_port q →
  word_of (<[Z.to_nat (p / 64) := v]> words) q = if decide (p / 64 = q / 64) then v else word_of words q.
Proof.
  intros Hw Hp Hq. apply port_slot in Hp as [Hp _], Hq as [Hq _]. unfold word_of, words_wf in *.
  rewrite !get_lookup by lia. case_decide as E.
  - rewrite E, list_lookup_insert_eq by lia. done.
  - rewrite list_lookup_insert_ne by lia. done.
Qed.

Lemma claimed_testbit t p port :
  is_port port → is_claimed t p port = Z.testbit (word_of (bitmap t p) port) (port mod 64).
Proof. intros Hp. apply land_bit. apply port_slot in Hp. lia. Qed.

Lemma bitmap_with t p words q :
  bitmap (with_bitmap t p words) q = if decide (p = q) then words else bitmap t q.
Proof. by destruct p, q. Qed.

Lemma bitmap_wf t p : tap_wf t → words_wf (bitmap t p).
Proof. intros []. by destruct p. Qed.

Lemma port_bit_testbit p q :
  is_port p → is_port q → Z.testbit (port_bit p) (q mod 64) = bool_decide (p mod 64 = q mod 64).
Proof.
  intros [_ Hp]%port_slot [_ Hq]%port_slot. unfold port_bit.
  rewrite Z.shiftl_1_l, Z.pow2_bits_eqb by lia. symmetry.
  apply eq_bool_prop_intro. rewrite bool_decide_spec, Is_true_true. symmetry. apply Z.eqb_eq.
Qed.

Lemma claim_spec t p port q port' :
  tap_wf t → is_port port → is_port port' →
  is_claimed (claim t p port) q port' = bool_decide ((p, port) = (q, port')) || is_claimed t q port'.
Proof.
  intros Hwf Hp Hp'. rewrite !claimed_testbit by done. unfold claim. rewrite bitmap_with.
  destruct (decide (p = q)) as [->|Hne].
  - rewrite word_of_insert by (done || by apply bitmap_wf). case_decide as Hd.
    + rewrite Z.lor_spec, port_bit_testbit by done. rewrite orb_comm. f_equal; [|unfold word_of; by rewrite Hd].
      apply bool_decide_ext. split; [|congruence]. intros Hm. f_equal. by apply same_port.
    + rewrite bool_decide_eq_false_2 by congruence. done.
  - rewrite bool_decide_eq_false_2 by congruence. done.
Qed.

Lemma release_spec t p port q port' :
  tap_wf t → is_port port → is_port port' →
  is_claimed (release t p port) q port' = negb (bool_decide ((p, port) = (q, port'))) && is_claimed t q port'.
Proof.
  intros Hwf Hp Hp'. rewrite !claimed_testbit by done. unfold release. rewrite bitmap_with.
  destruct (decide (p = q)) as [->|Hne].
  - rewrite word_of_insert by (done || by apply bitmap_wf). case_decide as Hd.
    + rewrite Z.ldiff_spec, port_bit_testbit by done. rewrite andb_comm. f_equal; [|unfold word_of; by rewrite Hd].
      f_equal. apply bool_decide_ext. split; [|congruence]. intros Hm. f_equal. by apply same_port.
    + rewrite bool_decide_eq_false_2 by congruence. done.
  - rewrite bool_decide_eq_false_2 by congruence. done.
Qed.

Lemma with_bitmap_wf t p words : tap_wf t → words_wf words → tap_wf (with_bitmap t p words).
Proof. intros [] ?. by destruct p. Qed.

Lemma insert_words_wf words i v : words_wf words → words_wf (<[i := v]> words).
Proof. unfold words_wf. by rewrite length_insert. Qed.

Lemma track_wf t source identification now : tap_wf t → tap_wf (track_fragment t source identification now).
Proof.
  intros [Ht Hu Hs Hf]. constructor; [done..|]. cbn [tracked track_fragment with_tracked].
  set (kept := filter _ (tracked t)).
  assert (zlen kept <= zlen (tracked t)) by (unfold zlen; apply inj_le, length_filter).
  clearbody kept. rewrite zlen_app. change (zlen [(source, identification, now)]) with 1.
  unfold FRAGMENT_TRACK_LIMIT in *. destruct (Z.leb_spec 64 (zlen kept)); [|lia].
  destruct kept; [done|]. cbn [tail]. rewrite zlen_cons in *. lia.
Qed.

(** Where a packet with ports goes. *)
Lemma divert_ports t packet now header p port :
  tap_wf t → parse_ipv4_header packet = Some header → destination_port header = Some (p, port) →
  if armed t && is_claimed t p port
  then ∃ s, sink t = Some s ∧ (divert t packet now).1 = match deliver s packet with Some _ => Taken | None => TapFull end
  else (divert t packet now).1 = NotLocal packet.
Proof.
  intros Hwf Hparse Hport. unfold divert. rewrite Hparse, Hport.
  destruct (armed t) eqn:Ha; cbn [negb andb]; [|done].
  destruct (is_claimed t p port) eqn:Hc; cbn [negb andb]; [|done].
  destruct (tap_sink t Hwf) as [[s Hs] _]; [done|]. exists s. split; [done|].
  assert (sink (if more_fragments header then track_fragment t (source header) (identification header) now else t)
    = Some s) as -> by (by case_match). by destruct (deliver s packet).
Qed.

Lemma divert_wf t packet now :
  tap_wf t → tap_wf (divert t packet now).2
  ∧ armed (divert t packet now).2 = armed t ∧ ∀ p, bitmap (divert t packet now).2 p = bitmap t p.
Proof.
  intros Hwf. unfold divert.
  destruct (negb (armed t)); [done|]. destruct (parse_ipv4_header packet) as [header|]; [|done].
  assert (∀ t', tap_wf t' → armed t' = armed t → (∀ p, bitmap t' p = bitmap t p) →
    let r := (match sink t' with
              | Some s => match deliver s packet with
                          | Some s' => (Taken, mk_tap (armed t') (tcp t') (udp t') (Some s') (tracked t'))
                          | None => (TapFull, t')
                          end
              | None => (TapFull, t') end).2 in
    tap_wf r ∧ armed r = armed t ∧ ∀ p, bitmap r p = bitmap t p) as Hdeliver.
  { intros t' Hwf' Ha Hb. cbn zeta. destruct (sink t') as [s|] eqn:Es; [|done].
    destruct (deliver s packet) as [s'|]; [|done]. cbn [snd]. split_and!; [|done|].
    - destruct Hwf' as [H1 H2 H3 H4]. constructor; cbn [tcp udp armed sink tracked]; [done|done| |done].
      rewrite H3, Es. split; intros _; by eexists.
    - intros p. by rewrite <-Hb. }
  destruct (destination_port header) as [[p port]|].
  - set (t' := if _ && _ then track_fragment _ _ _ _ else t).
    assert (tap_wf t' ∧ armed t' = armed t ∧ ∀ q, bitmap t' q = bitmap t q) as (Hw & Ha & Hb).
    { subst t'. destruct (_ && _); [|done]. split; [by apply track_wf|done]. }
    destruct (negb _); [done|]. by apply Hdeliver.
  - destruct (negb _); [done|]. by apply Hdeliver.
Qed.

(** ** A history of the tap *)

Inductive tap_op : Type :=
| Attach (s : S)
| Detach
| Claim (p : Protocol) (port : Z)
| Release (p : Protocol) (port : Z)
| Divert (packet : list byte) (now : Z).

Definition tap_step t (o : tap_op) : LocalTap S :=
  match o with
  | Attach s => attach t s
  | Detach => detach t
  | Claim p port => claim t p port
  | Release p port => release t p port
  | Divert packet now => (divert t packet now).2
  end.

Definition op_ports (o : tap_op) : Prop :=
  match o with Claim _ port | Release _ port => is_port port | _ => True end.

(** Whether a stack is attached, and what it holds. *)
Definition spec_tap_step (s : bool * gset (Protocol * Z)) (o : tap_op) : bool * gset (Protocol * Z) :=
  match o with
  | Attach _ => (true, s.2)
  | Detach => (false, ∅)
  | Claim p port => (s.1, {[(p, port)]} ∪ s.2)
  | Release p port => (s.1, s.2 ∖ {[(p, port)]})
  | Divert _ _ => s
  end.

Record tap_represents t (s : bool * gset (Protocol * Z)) : Prop := {
  rep_wf : tap_wf t;
  rep_armed : armed t = s.1;
  rep_claims : ∀ p port, is_port port → is_claimed t p port = bool_decide ((p, port) ∈ s.2)
}.

Lemma zero_words words port : is_port port → word_of ((λ _ : Z, 0) <$> words) port = 0.
Proof.
  intros _. unfold word_of, get. destruct (0 <=? port / 64); [|done].
  rewrite list_lookup_fmap. by destruct (words !! _).
Qed.

Lemma tap_step_represents t s o :
  tap_represents t s → op_ports o → tap_represents (tap_step t o) (spec_tap_step s o).
Proof.
  intros [Hwf Ha Hc] Ho. destruct o as [k| |p port|p port|packet now]; cbn [tap_step spec_tap_step].
  - destruct Hwf. constructor; [|done|exact Hc]. constructor; [done..| |done]. split; [by eexists|done].
  - destruct Hwf as [Ht Hu _ _]. constructor; [|done|].
    + constructor; cbn [tcp udp armed sink tracked detach].
      * unfold words_wf in *. by rewrite length_fmap.
      * unfold words_wf in *. by rewrite length_fmap.
      * split; [done|by intros [? ?]].
      * rewrite zlen_nil. done.
    + intros p port Hp. rewrite claimed_testbit by done.
      replace (bitmap (detach t) p) with ((λ _ : Z, 0) <$> bitmap t p) by (by destruct p).
      rewrite zero_words, Z.bits_0 by done. symmetry. apply bool_decide_eq_false_2. set_solver.
  - constructor; [apply with_bitmap_wf, insert_words_wf, bitmap_wf; done|by destruct p|].
    intros q port' Hp'. rewrite claim_spec, Hc by done. rewrite <-bool_decide_or.
    apply bool_decide_ext. set_solver.
  - constructor; [apply with_bitmap_wf, insert_words_wf, bitmap_wf; done|by destruct p|].
    intros q port' Hp'. rewrite release_spec, Hc by done. rewrite <-bool_decide_not, <-bool_decide_and.
    apply bool_decide_ext. set_solver.
  - destruct (divert_wf t packet now Hwf) as (Hwf' & Ha' & Hb). constructor; [done|congruence|].
    intros p port Hp. rewrite <-Hc by done. unfold is_claimed. by rewrite Hb.
Qed.

Lemma default_tap_represents : tap_represents default_tap (false, ∅).
Proof.
  constructor; [|done|].
  - constructor; [done|done|split; [done|by intros [? ?]]|done].
  - intros p port Hp. rewrite claimed_testbit by done.
    assert (word_of (bitmap default_tap p) port = 0) as ->.
    { destruct (port_slot port Hp) as [Hs _]. unfold word_of. rewrite get_lookup by lia.
      assert (bitmap default_tap p = no_ports) as -> by (by destruct p). unfold no_ports.
      by rewrite lookup_replicate_2 by lia. }
    rewrite Z.bits_0. symmetry. apply bool_decide_eq_false_2. set_solver.
Qed.

Lemma tap_run_represents ops t s :
  tap_represents t s → Forall op_ports ops → tap_represents (foldl tap_step t ops) (foldl spec_tap_step s ops).
Proof.
  intros Hrep Hops. revert t s Hrep. induction Hops as [|o ops Ho _ IH]; intros t s Hrep; [done|].
  cbn [foldl]. by apply IH, tap_step_represents.
Qed.
End tap_proofs.

Arguments Attach {S} s.
Arguments Detach {S}.
Arguments Claim {S} p port.
Arguments Release {S} p port.
Arguments Divert {S} packet now.

(** The port bitmaps are a set of claims: after any history of attaching,
    claiming, releasing, detaching and traffic, a packet that names its port is
    taken from capture exactly when a stack is attached and has claimed that port
    since the last detach, it goes to that stack whole or is dropped when the stack
    cannot hold it, and every other packet is handed on unchanged. *)
Theorem tap_takes_claimed_flows {S} `{!LocalStackSink S} ops packet now header p port :
  Forall op_ports ops → is_port port →
  parse_ipv4_header packet = Some header → destination_port header = Some (p, port) →
  let t := foldl tap_step (default_tap (S := S)) ops in
  let '(attached, claims) := foldl spec_tap_step (false, ∅) ops in
  tap_wf t ∧
  if attached && bool_decide ((p, port) ∈ claims)
  then ∃ s, sink t = Some s
            ∧ (divert t packet now).1 = match deliver s packet with Some _ => Taken | None => TapFull end
  else (divert t packet now).1 = NotLocal packet.
Proof.
  intros Hops Hp Hparse Hport. cbn zeta.
  destruct (tap_run_represents ops default_tap (false, ∅) default_tap_represents Hops) as [Hwf Ha Hc].
  destruct (foldl spec_tap_step (false, ∅) ops) as [attached claims]. cbn [fst snd] in *.
  split; [done|]. rewrite <-Ha, <-Hc by done. by apply divert_ports with header.
Qed.

(** A stack that holds three packets. *)
#[local] Instance toy_sink : LocalStackSink (list (list byte)) :=
  λ held packet, if (length held <? 3)%nat then Some (held ++ [packet]) else None.

Definition toy_packet : list byte :=
  [x45; x00; x00; x1c; x00; x00; x00; x00; x40; x11; x00; x00; x01; x01; x01; x01; x0a; x00; x00; x02;
   x00; x35; x1f; x90; x00; x08; x00; x00].

Lemma tap_takes_claimed_flows_witness :
  (divert (foldl tap_step default_tap [Attach []; Claim Udp 8080]) toy_packet 0).1 = Taken.
Proof.
  pose proof (tap_takes_claimed_flows [Attach []; Claim Udp 8080] toy_packet 0
    (mk_ipv4 0x01010101 0 false (Some (Udp, 8080))) Udp 8080) as H.
  destruct H as [_ H]; [repeat constructor; cbn; lia|split; lia|by vm_compute|done|].
  cbn [foldl spec_tap_step fst snd andb] in H.
  rewrite bool_decide_eq_true_2 in H by set_solver. destruct H as (s & Hs & Hd). etransitivity; [exact Hd|]. by injection Hs as <-.
Defined.
