(* ===== verification/Ingress.v ===== *)
(** * Ingress: the first authenticated copy of an inbound packet

    [RelayIngress] of [engine/src/session/state.rs]: what every path worker hands
    the packets and repairs of the relay to. One lock covers the replay window and
    the repair decoder, so each call is one step. The queue behind it is any
    [InboundQueue]; the readings of the clock during a call are a stream. *)
From S2P Require Import Prelude Protocol Replay Fec Diagnostics LocalTap.

Record RelayIngress := mk_ingress {
  client_id : list byte;
  session_id : Z;
  replay : ReplayWindow;
  repair : Decoder.t;
  recovered : Z;
  repair_queue_rejected : Z;
  diagnostics : Counters
}.

Definition new_ingress (client_id : list byte) (session_id : Z) (diagnostics : Counters) : RelayIngress :=
  mk_ingress client_id session_id default_window Decoder.empty 0 0 diagnostics.

Definition with_replay (i : RelayIngress) (w : ReplayWindow) : RelayIngress :=
  mk_ingress (client_id i) (session_id i) w (repair i) (recovered i) (repair_queue_rejected i)
    (diagnostics i).
Definition with_repair (i : RelayIngress) (d : Decoder.t) : RelayIngress :=
  mk_ingress (client_id i) (session_id i) (replay i) d (recovered i) (repair_queue_rejected i)
    (diagnostics i).
Definition with_diagnostics (i : RelayIngress) (c : Counters) : RelayIngress :=
  mk_ingress (client_id i) (session_id i) (replay i) (repair i) (recovered i)
    (repair_queue_rejected i) c.
Definition count_recovered (i : RelayIngress) : RelayIngress :=
  mk_ingress (client_id i) (session_id i) (replay i) (repair i) (wrap64 (recovered i + 1))
    (repair_queue_rejected i) (diagnostics i).
Definition count_rejected (i : RelayIngress) : RelayIngress :=
  mk_ingress (client_id i) (session_id i) (replay i) (repair i) (recovered i)
    (wrap64 (repair_queue_rejected i + 1)) (diagnostics i).

Definition is_ours (i : RelayIngress) (header : FrameHeader) : bool :=
  bool_decide (Protocol.client_id header = client_id i)
  && (Protocol.session_id header =? session_id i)
  && has_flag (flags header) FLAG_SERVER_TO_CLIENT
  && negb (has_flag (flags header) FLAG_CONTROL).

Definition delivered (i : RelayIngress) (sequence : Z) : bool := negb (would_accept (replay i) sequence).

Section ingress.
Context {Q : Type} `{!InboundQueue Q}.
Context (clock : nat → Z).

(** The first twenty bytes, or zeros. *)
Definition protocol_header (packet : list byte) : list byte :=
  default (replicate 20 x00) (get_range packet 0 20).

Definition admit_rebuilt (i : RelayIngress) (q : Q) (sequence : Z) (packet : list byte) (now : Z)
    : run (bool * RelayIngress * Q) :=
  if negb (would_accept (replay i) sequence) then Ret (false, i, q) else
  repair ← Decoder.remember (repair i) sequence packet;
  let i := with_repair i repair in
  let '(sent, q) := try_send q packet now in
  match sent with
  | Err _ =>
      let i := with_diagnostics i (record (diagnostics i) RepairQueue (protocol_header packet)) in
      Ret (false, count_rejected i, q)
  | Ok _ =>
      let '(_, window) := Replay.accept (replay i) sequence in
      Ret (true, count_recovered (with_replay i window), q)
  end.

(** Each turn resolves a pending repair; running out of [fuel] would be a panic. *)
Fixpoint retry_loop (fuel : nat) (k : nat) (i : RelayIngress) (q : Q) : run (RelayIngress * Q) :=
  match fuel with
  | O => Panic
  | S fuel' =>
      if negb (Decoder.has_pending (repair i)) then Ret (i, q) else
      let '(found, d) := Decoder.retry_pending (repair i) (clock k) (delivered i) in
      let i := with_repair i d in
      match found with
      | None => Ret (i, q)
      | Some (sequence, packet) =>
          '(_, i, q) ← admit_rebuilt i q sequence packet (clock (S k));
          retry_loop fuel' (S (S k)) i q
      end
  end.
Definition retry_pending (k : nat) (i : RelayIngress) (q : Q) : run (RelayIngress * Q) :=
  retry_loop (S (length (Decoder.pending (repair i)))) k i q.

(** [Ok(true)], [Ok(false)] or the queue's error. *)
Definition enqueue_authenticated (i : RelayIngress) (header : FrameHeader) (plaintext : list byte)
    (q : Q) : run (result TrySendError bool * RelayIngress * Q) :=
  if negb (is_ours i header) || has_flag (flags header) FLAG_REPAIR then Ret (Ok false, i, q) else
  let sequence := Protocol.sequence header in
  if negb (would_accept (replay i) sequence) then
    let i := if is_too_old (replay i) sequence
             then with_diagnostics i (record (diagnostics i) ReplayTooOld plaintext) else i in
    Ret (Ok false, i, q)
  else
    repair ← Decoder.remember (repair i) sequence plaintext;
    let i := with_repair i repair in
    let '(sent, q) := try_send q plaintext (clock 0) in
    match sent with
    | Err e => Ret (Err e, i, q)
    | Ok _ =>
        let '(_, window) := Replay.accept (replay i) sequence in
        '(i, q) ← retry_pending 1 (with_replay i window) q;
        Ret (Ok true, i, q)
    end.

Definition enqueue_repair (i : RelayIngress) (header : FrameHeader) (payload : list byte) (q : Q)
    : run (bool * RelayIngress * Q) :=
  if negb (is_ours i header) || negb (has_flag (flags header) FLAG_REPAIR) then Ret (false, i, q) else
  let '(accepted, window) := Replay.accept (replay i) (Protocol.sequence header) in
  let i := with_replay i window in
  if negb accepted then Ret (false, i, q) else
  let '(rebuilt, d) := Decoder.accept_repair (repair i) payload (clock 0) (delivered i) in
  let i := with_repair i d in
  '(admitted, i, q) ← (match rebuilt with
                       | Some (sequence, packet) => admit_rebuilt i q sequence packet (clock 1)
                       | None => Ret (false, i, q)
                       end);
  '(i, q) ← retry_pending 2 i q;
  Ret (admitted, i, q).
End ingress.

Record RepairCounters := mk_counters { received : Z; counters_recovered : Z; counters_unrecoverable : Z }.
Definition repair_counters (i : RelayIngress) : RepairCounters :=
  mk_counters (Decoder.repairs_received (repair i)) (recovered i) (Decoder.unrecoverable (repair i)).

(** ** What reaches the game *)

(** A [DataReceiver]: the other end of the inbound queue. *)
Record DataReceiver := mk_receiver { inbound : SyncSender; user_bytes_received : Z; gauge : InboundGauge }.

(** [None]: nothing arrived within the timeout. *)
Definition receive (r : DataReceiver) : result (list byte) (option (list byte)) * DataReceiver :=
  match recv (inbound r) with
  | (Some response, queue) =>
      (Ok (Some response),
       mk_receiver queue (wrap64 (user_bytes_received r + zlen response)) (gauge_taken (gauge r)))
  | (None, queue) =>
      (if connected (inbound r) then Ok None else Err (str "all path receivers stopped"), r)
  end.

(** ** Any authenticated frame, honest or not, is handled without a panic *)

Record ingress_safe (i : RelayIngress) : Prop := {
  is_replay : ∃ s, represents (replay i) s;
  is_stores : stores (repair i);
  is_seqs : Forall seqs_wf (Decoder.pending (repair i))
}.

Section safe.
Context {Q : Type} `{!InboundQueue Q}.
Implicit Types (i : RelayIngress) (q : Q).

Lemma resolve_recent d r f : Decoder.recent (Decoder.resolve d r f).2 = Decoder.recent d.
Proof.
  unfold Decoder.resolve. repeat case_match; try done; cbn [snd Decoder.recent]; by case_match.
Qed.

Lemma retry_recent d now f : Decoder.recent (Decoder.retry_pending d now f).2 = Decoder.recent d.
Proof.
  unfold Decoder.retry_pending. cbn zeta. destruct (list_find _ _) as [[ready r]|]; [|done].
  by rewrite resolve_recent.
Qed.

Lemma accept_repair_recent d p now f : Decoder.recent (Decoder.accept_repair d p now f).2 = Decoder.recent d.
Proof. unfold Decoder.accept_repair. case_match; [|done]. by rewrite resolve_recent. Qed.

Lemma with_repair_safe i d :
  ingress_safe i → Decoder.recent d = Decoder.recent (repair i) → Forall seqs_wf (Decoder.pending d) →
  ingress_safe (with_repair i d).
Proof. intros [Hr Hs _] Hd Hp. split; [done| |done]. unfold stores. cbn. by rewrite Hd. Qed.

Lemma accept_safe i s :
  ingress_safe i → 0 <= s → ingress_safe (with_replay i (Replay.accept (replay i) s).2).
Proof. intros [[w Hw] Hs Hp] H0. split; [|done..]. eexists. by eapply accept_represents. Qed.

Lemma admit_rebuilt_safe i q s p now :
  ingress_safe i → 0 <= s →
  ∃ b i' q', admit_rebuilt i q s p now = Ret (b, i', q') ∧ ingress_safe i' ∧
    Decoder.pending (repair i') = Decoder.pending (repair i).
Proof.
  intros Hok H0. unfold admit_rebuilt. destruct (negb _); [by exists false, i, q|].
  destruct (remember_stores (repair i) s p (is_stores i Hok)) as (d & -> & Hd & _ & Hp & _).
  cbn [mbind run_bind]. destruct Hok as [Hr Hs Hq].
  assert (ingress_safe (with_repair i d)) as Hi by (split; [done|done|by rewrite <-Hp in Hq]).
  destruct (try_send q p now) as [[u|e] q'].
  - pose proof (accept_safe _ s Hi H0) as Ha. destruct (Replay.accept _ _) as [b w].
    eexists _, _, _. split; [done|]. split; [by destruct Ha|done].
  - eexists _, _, _. split; [done|]. split; [by destruct Hi|done].
Qed.

Lemma retry_loop_safe clock fuel k i q :
  ingress_safe i → (length (Decoder.pending (repair i)) < fuel)%nat →
  ∃ i' q', retry_loop clock fuel k i q = Ret (i', q') ∧ ingress_safe i'.
Proof.
  revert k i q. induction fuel as [|fuel IH]; intros k i q Hok Hf; [lia|]. cbn [retry_loop].
  destruct (negb _); [by exists i, q|].
  destruct (retry_seqs (repair i) (clock k) (delivered i) (is_seqs i Hok)) as [Hs Hfound].
  pose proof (retry_recent (repair i) (clock k) (delivered i)) as Hrec.
  destruct (Decoder.retry_pending _ _ _) as [found d]. cbn [fst snd] in *.
  pose proof (with_repair_safe i d Hok Hrec Hs) as Hi.
  destruct found as [[s p]|]; [|by exists (with_repair i d), q].
  destruct (Hfound s p eq_refl) as [H0 Hlen].
  destruct (admit_rebuilt_safe (with_repair i d) q s p (clock (S k)) Hi (proj1 H0))
    as (b & i2 & q2 & -> & Hi2 & Hp2). cbn [mbind run_bind].
  apply IH; [done|]. rewrite Hp2. cbn [with_repair repair]. lia.
Qed.

Lemma enqueue_authenticated_safe clock i q header plaintext :
  ingress_safe i → 0 <= Protocol.sequence header →
  ∃ r i' q', enqueue_authenticated clock i header plaintext q = Ret (r, i', q') ∧ ingress_safe i'.
Proof.
  intros Hok H0. unfold enqueue_authenticated. destruct (_ || _); [by exists (Ok false), i, q|].
  destruct (negb _).
  { eexists _, _, _. split; [done|]. case_match; [by destruct Hok|done]. }
  destruct (remember_stores (repair i) (Protocol.sequence header) plaintext (is_stores i Hok)) as (d & -> & Hd & _ & Hp & _).
  cbn [mbind run_bind]. destruct Hok as [Hr Hs Hq].
  assert (ingress_safe (with_repair i d)) as Hi by (split; [done|done|by rewrite <-Hp in Hq]).
  destruct (try_send q plaintext (clock 0%nat)) as [[u|e] q']; [|by eexists _, _, _].
  pose proof (accept_safe _ _ Hi H0) as Ha. destruct (Replay.accept _ _) as [b w]. cbn [snd] in Ha.
  destruct (retry_loop_safe clock (S (length (Decoder.pending (repair (with_replay (with_repair i d) w))))) 1
    (with_replay (with_repair i d) w) q' Ha) as (i2 & q2 & E & Hi2); [lia|].
  unfold retry_pending. rewrite E. cbn [mbind run_bind]. by eexists _, _, _.
Qed.

Lemma enqueue_repair_safe clock i q header payload :
  ingress_safe i → 0 <= Protocol.sequence header →
  ∃ b i' q', enqueue_repair clock i header payload q = Ret (b, i', q') ∧ ingress_safe i'.
Proof.
  intros Hok H0. unfold enqueue_repair. destruct (_ || _); [by exists false, i, q|].
  pose proof (accept_safe i _ Hok H0) as Ha. destruct (Replay.accept _ _) as [accepted w]. cbn [snd] in Ha.
  destruct accepted; cbn [negb]; [|by exists false, (with_replay i w), q].
  set (i1 := with_replay i w) in *.
  destruct (accept_repair_seqs (repair i1) payload (clock 0%nat) (delivered i1) (is_seqs _ Ha)) as [Hs Hfound].
  pose proof (accept_repair_recent (repair i1) payload (clock 0%nat) (delivered i1)) as Hrec.
  destruct (Decoder.accept_repair _ _ _ _) as [rebuilt d]. cbn [fst snd] in *.
  pose proof (with_repair_safe i1 d Ha Hrec Hs) as Hi.
  assert (∃ b i2 q2, (match rebuilt with
                      | Some (sequence, packet) => admit_rebuilt (with_repair i1 d) q sequence packet (clock 1%nat)
                      | None => Ret (false, with_repair i1 d, q)
                      end) = Ret (b, i2, q2) ∧ ingress_safe i2) as (b & i2 & q2 & -> & Hi2).
  { destruct rebuilt as [[s p]|]; [|by eexists _, _, _].
    destruct (admit_rebuilt_safe (with_repair i1 d) q s p (clock 1%nat) Hi) as (b & i2 & q2 & E & Hi2 & _).
    { by apply (Hfound s p eq_refl). }
    by exists b, i2, q2. }
  cbn [mbind run_bind].
  destruct (retry_loop_safe clock (S (length (Decoder.pending (repair i2)))) 2 i2 q2 Hi2) as (i3 & q3 & E & Hi3); [lia|].
  unfold retry_pending. rewrite E. cbn [mbind run_bind]. by exists b, i3, q3.
Qed.
End safe.

(** ** A decoder fed by an honest relay

    [packet_of] is what the relay sent under each sequence. *)

Section honest.
Context (packet_of : Z → list byte).

Definition honest_group (g : list member) : Prop :=
  group_wf g ∧ ∀ s p, (s, p) ∈ g → packet_of s = p.

Definition honest_repair (r : Repair.t) : Prop :=
  ∃ g, honest_group g ∧ Repair.members r = g.*1 ∧ Repair.parity r = parity_of g.

Record honest (d : Decoder.t) : Prop := {
  ho_stores : stores d;
  ho_stored : ∀ s p, Decoder.stored d s = Some p → p = packet_of s;
  ho_pending : Forall honest_repair (Decoder.pending d);
  ho_seqs : Forall seqs_wf (Decoder.pending d)
}.

Lemma empty_honest : honest Decoder.empty.
Proof. split; [by left| |by constructor..]. intros s p. unfold Decoder.stored. simpl. by rewrite get_nil. Qed.

Lemma honest_same d d' :
  Decoder.recent d' = Decoder.recent d → Forall honest_repair (Decoder.pending d') →
  Forall seqs_wf (Decoder.pending d') → honest d → honest d'.
Proof.
  intros Hr Hp Hs [Hst Hsto _ _]. split; [|intros s p|done..].
  - unfold stores. by rewrite Hr.
  - unfold Decoder.stored. rewrite Hr. apply Hsto.
Qed.

Lemma remember_honest d s :
  honest d → ∃ d', Decoder.remember d s (packet_of s) = Ret d' ∧ honest d' ∧
    Decoder.pending d' = Decoder.pending d.
Proof.
  intros [Hst Hsto Hp Hs]. destruct (remember_stores d s (packet_of s) Hst)
    as (d' & Hr & Hst' & _ & Hpe & _ & Hother).
  exists d'. split; [done|]. split; [|done]. split; [done| |by rewrite Hpe..].
  intros t p Ht. destruct (decide (t mod RECENT_CAPACITY = s mod RECENT_CAPACITY)) as [Heq|Hne].
  2: { apply Hsto. by rewrite <-Hother. }
  unfold Decoder.remember in Hr. destruct (Decoder.storing d); cbn [negb] in Hr.
  2: { injection Hr as <-. by apply Hsto. }
  set (recent := if bool_decide _ then _ else _) in Hr.
  assert (zlen recent = RECENT_CAPACITY) as Hlen.
  { subst recent. case_bool_decide; [unfold zlen; by rewrite length_replicate|]. by destruct Hst. }
  assert (0 <= s mod RECENT_CAPACITY < RECENT_CAPACITY) as Hm by (by apply Z.mod_pos_bound).
  assert (zlen [(s, packet_of s)] = 1) as Hone by done.
  rewrite copy_at_in in Hr by lia. cbn [mbind run_bind] in Hr. injection Hr as <-.
  unfold Decoder.stored in Ht. cbn [Decoder.with_recent Decoder.recent] in Ht.
  rewrite Heq, get_paste_in, Z.sub_diag in Ht by lia. cbn [get Z.leb Z.compare] in Ht.
  change (Z.to_nat 0) with 0%nat in Ht. cbn [lookup list_lookup mbind option_bind] in Ht.
  destruct (Z.eqb_spec s t) as [->|]; [|done]. cbn [andb] in Ht. destruct (negb _); congruence.
Qed.

Lemma fold_members_stored d lost (h : list member) par out :
  Decoder.fold_members d lost h.*1 par = Some out →
  ∀ s p, (s, p) ∈ h → s ≠ lost → ∃ q, Decoder.stored d s = Some q.
Proof.
  revert par. induction h as [|[s p] h IH]; intros par Hf s' p' Hin Hne; [by apply elem_of_nil in Hin|].
  cbn [fmap list_fmap Decoder.fold_members fst] in Hf.
  destruct (Z.eqb_spec s lost) as [->|]; apply elem_of_cons in Hin as [[= -> ->]|Hin]; try done.
  - by eapply IH.
  - destruct (Decoder.stored d s) as [q|]; [by exists q|done].
  - destruct (Decoder.stored d s) as [q|]; [|done]. cbn [mbind option_bind] in Hf.
    destruct (_ <? _); [done|]. by eapply IH.
Qed.

Lemma rebuild_honest d r lost p :
  honest d → honest_repair r → lost ∈ Repair.members r → Decoder.rebuild d r lost = Some p →
  p = packet_of lost.
Proof.
  intros Hd (g & [Hwf Hg] & Hm & Hpar) Hin Hr. rewrite Hm in Hin.
  apply list_elem_of_fmap in Hin as ([s q] & Hl & Hin). cbn [fst] in Hl. subst s.
  rewrite (rebuild_group d g lost q r) in Hr; [|done..|].
  - symmetry. rewrite (Hg _ _ Hin). congruence.
  - intros s' p' Hin' Hne. unfold Decoder.rebuild in Hr. rewrite Hm in Hr.
    destruct (Decoder.fold_members d lost g.*1 (Repair.parity r)) as [out|] eqn:Ef; [|done].
    destruct (fold_members_stored _ _ _ _ _ Ef _ _ Hin' Hne) as [k Hk].
    rewrite Hk. f_equal. rewrite (ho_stored d Hd _ _ Hk). by apply Hg.
Qed.

Lemma resolve_honest d r delivered :
  honest d → honest_repair r → seqs_wf r →
  honest (Decoder.resolve d r delivered).2 ∧
  ∀ s p, (Decoder.resolve d r delivered).1 = Some (s, p) → p = packet_of s ∧ 0 <= s.
Proof.
  intros Hd Hr Hs. destruct (resolve_seqs d r delivered Hs (ho_seqs d Hd)) as [Hseqs Hout].
  unfold Decoder.resolve in *. destruct (filter _ _) as [|lost [|lost' ms]] eqn:Ef; [done| |].
  - assert (lost ∈ Repair.members r) as Hl.
    { assert (lost ∈ [lost]) as Hin by apply list_elem_of_here. rewrite <-Ef in Hin.
      by apply list_elem_of_filter in Hin as [_ ?]. }
    destruct (Decoder.rebuild d r lost) as [q|] eqn:Er.
    + split; [done|]. intros s p Hsp. destruct (Hout s p Hsp) as [? _]. injection Hsp as <- <-.
      split; [by eapply rebuild_honest|lia].
    + split; [|done]. by apply (honest_same d); [|apply Hd|apply Hseqs|].
  - split; [|done]. apply (honest_same d); [by destruct (_ <=? _)| |done|done].
    apply Forall_app. split; [|by constructor]. pose proof (ho_pending d Hd) as Hp.
    destruct (_ <=? _); cbn [Decoder.pending]; [|done]. by destruct Hp; [constructor|].
Qed.

Lemma accept_repair_honest d g now delivered :
  honest d → honest_group g →
  honest (Decoder.accept_repair d (encode_group g) now delivered).2 ∧
  ∀ s p, (Decoder.accept_repair d (encode_group g) now delivered).1 = Some (s, p) →
    p = packet_of s ∧ 0 <= s.
Proof.
  intros Hd Hg. unfold Decoder.accept_repair.
  destruct (parse_encode_group g now (proj1 Hg)) as (r & Hp & Hm & Hpar & _). rewrite Hp.
  apply resolve_honest; [|by exists g|by eapply parse_seqs].
  apply (honest_same d); try done; apply Hd.
Qed.

Lemma retry_honest d now delivered :
  honest d →
  honest (Decoder.retry_pending d now delivered).2 ∧
  ∀ s p, (Decoder.retry_pending d now delivered).1 = Some (s, p) →
    p = packet_of s ∧ 0 <= s ∧
    (length (Decoder.pending (Decoder.retry_pending d now delivered).2) < length (Decoder.pending d))%nat.
Proof.
  intros Hd. destruct (retry_seqs d now delivered (ho_seqs d Hd)) as [Hseqs Hout].
  unfold Decoder.retry_pending in *. cbn zeta in *.
  set (kept := filter _ (Decoder.pending d)) in *. set (waiting := filter _ kept) in *.
  assert (∀ P : Repair.t → Prop, Forall P (Decoder.pending d) → Forall P waiting) as Hw.
  { intros P HP. apply Forall_forall. intros r Hr. unfold waiting, kept in Hr.
    rewrite !list_elem_of_filter in Hr. rewrite Forall_forall in HP. by apply HP, Hr. }
  destruct (list_find _ waiting) as [[ready r]|] eqn:Ef.
  2: { split; [|done]. by apply (honest_same d); [|apply Hw, Hd|apply Hw, Hd|]. }
  apply list_find_Some in Ef as (Hr & _).
  destruct (swap_remove_spec waiting ready r Hr) as [_ Hk].
  edestruct (resolve_honest (Decoder.mk (Decoder.recent d) (Decoder.swap_remove waiting ready)
    (Decoder.storing d) (Decoder.repairs_received d)
    (Decoder.unrecoverable d + (zlen (Decoder.pending d) - zlen kept))) r delivered) as [H1 H2].
  - by apply (honest_same d); [|apply Hk, Hw, Hd|apply Hk, Hw, Hd|].
  - eapply Forall_lookup_1; [|done]. apply Hw, Hd.
  - eapply Forall_lookup_1; [|done]. apply Hw, Hd.
  - split; [exact H1|]. intros s p Hsp. destruct (H2 s p Hsp) as [? ?]. split_and!; try done.
    by apply (Hout s p Hsp).
Qed.
End honest.

(** ** Runs of frames *)

(** A queue that remembers the packets it took. *)
Record Logged (Q : Type) := mk_logged { logged_queue : Q; taken : list (list byte) }.
Arguments mk_logged {Q} logged_queue taken.
Arguments logged_queue {Q} l.
Arguments taken {Q} l.

#[export] Instance Logged_inbound {Q} `{!InboundQueue Q} : InboundQueue (Logged Q) :=
  λ l packet now,
    let '(sent, q) := try_send (logged_queue l) packet now in
    (sent, mk_logged q (match sent with Ok _ => taken l ++ [packet] | Err _ => taken l end)).

Inductive ingress_op : Type :=
| Authenticated (header : FrameHeader) (plaintext : list byte)
| RepairFrame (header : FrameHeader) (payload : list byte).

Section run.
Context {Q : Type} `{!InboundQueue Q}.

Definition ingress_step (clock : nat → Z) (i : RelayIngress) (q : Q) (o : ingress_op)
    : run (RelayIngress * Q) :=
  match o with
  | Authenticated header plaintext => '(_, i, q) ← enqueue_authenticated clock i header plaintext q; Ret (i, q)
  | RepairFrame header payload => '(_, i, q) ← enqueue_repair clock i header payload q; Ret (i, q)
  end.

Fixpoint ingress_run (clocks : nat → nat → Z) (k : nat) (i : RelayIngress) (q : Q) (ops : list ingress_op)
    : run (RelayIngress * Q) :=
  match ops with
  | [] => Ret (i, q)
  | o :: ops' => '(i, q) ← ingress_step (clocks k) i q o; ingress_run clocks (S k) i q ops'
  end.
End run.

(** ** What the relay sends, from the side of the receiver *)

Section honest_run.
Context (packet_of : Z → list byte) {Q : Type} `{!InboundQueue Q}.
Implicit Types (i : RelayIngress) (l : Logged Q).

Definition honest_op (i : RelayIngress) (o : ingress_op) : Prop :=
  match o with
  | Authenticated header plaintext =>
      is_ours i header = true → has_flag (flags header) FLAG_REPAIR = false →
      0 <= Protocol.sequence header ∧ plaintext = packet_of (Protocol.sequence header)
  | RepairFrame header payload =>
      is_ours i header = true → has_flag (flags header) FLAG_REPAIR = true →
      0 <= Protocol.sequence header ∧ ∃ g, honest_group packet_of g ∧ payload = encode_group g
  end.

Record ingress_ok (i : RelayIngress) : Prop := {
  in_replay : ∃ s, represents (replay i) s;
  in_repair : honest packet_of (repair i)
}.

(** From [i] to [i'], the queue took the packets of the sequences [acc], each of
    them new and no longer so. *)
Record moves (i i' : RelayIngress) (l l' : Logged Q) (acc : list Z) : Prop := {
  mv_log : taken l' = taken l ++ (packet_of <$> acc);
  mv_nodup : NoDup acc;
  mv_new : ∀ s, s ∈ acc → 0 <= s ∧ would_accept (replay i) s = true ∧ would_accept (replay i') s = false;
  mv_stays : ∀ s, 0 <= s → would_accept (replay i) s = false → would_accept (replay i') s = false;
  mv_ids : client_id i' = client_id i ∧ session_id i' = session_id i
}.

Definition good (i i' : RelayIngress) (l l' : Logged Q) : Prop :=
  ingress_ok i' ∧ ∃ acc, moves i i' l l' acc.

Lemma moves_same i i' l l' :
  replay i' = replay i → client_id i' = client_id i → session_id i' = session_id i →
  taken l' = taken l → moves i i' l l' [].
Proof.
  intros Hr Hc Hs Ht. split; [by rewrite app_nil_r|constructor| | |done].
  - intros s Hin. by apply elem_of_nil in Hin.
  - by rewrite Hr.
Qed.

Lemma moves_trans i1 i2 i3 l1 l2 l3 a b :
  moves i1 i2 l1 l2 a → moves i2 i3 l2 l3 b → moves i1 i3 l1 l3 (a ++ b).
Proof.
  intros [La Na Wa Sa Ia] [Lb Nb Wb Sb Ib]. split.
  - by rewrite Lb, La, fmap_app, app_assoc.
  - apply NoDup_app. split; [done|]. split; [|done]. intros s Ha Hb.
    destruct (Wa s Ha) as (_ & _ & H1), (Wb s Hb) as (_ & H2 & _). congruence.
  - intros s [Hin|Hin]%elem_of_app.
    + destruct (Wa s Hin) as (H0 & H1 & H2). split_and!; [done..|by apply Sb].
    + destruct (Wb s Hin) as (H0 & H1 & H2). split_and!; [done| |done].
      destruct (would_accept (replay i1) s) eqn:E; [done|]. rewrite (Sa s H0 E) in H1. done.
  - intros s H0 Hs. by apply Sb, Sa.
  - destruct Ia, Ib. split; congruence.
Qed.

Lemma good_trans i1 i2 i3 l1 l2 l3 : good i1 i2 l1 l2 → good i2 i3 l2 l3 → good i1 i3 l1 l3.
Proof. intros [_ [a Ha]] [H3 [b Hb]]. split; [done|]. exists (a ++ b). by eapply moves_trans. Qed.

Lemma good_same i i' l l' :
  ingress_ok i → honest packet_of (repair i') → replay i' = replay i → client_id i' = client_id i →
  session_id i' = session_id i → taken l' = taken l → good i i' l l'.
Proof.
  intros [Hr _] Hh Hre Hc Hs Ht. split; [split; [by rewrite Hre|done]|]. exists []. by apply moves_same.
Qed.

(** Accepting a sequence that the queue took the packet of, or only its number. *)
Lemma good_accepts i i' l l' s :
  ingress_ok i → honest packet_of (repair i') → replay i' = (Replay.accept (replay i) s).2 →
  client_id i' = client_id i → session_id i' = session_id i → 0 <= s →
  (taken l' = taken l ++ [packet_of s] ∧ would_accept (replay i) s = true ∨ taken l' = taken l) →
  good i i' l l' ∧ would_accept (replay i') s = false.
Proof.
  intros [[w Hw] _] Hh Hre Hc Hs H0 Ht.
  assert (would_accept (replay i') s = false) as Hgone by (rewrite Hre; by eapply accepted_is_rejected).
  split; [|done]. split; [split; [|done]|].
  - rewrite Hre. eexists. by eapply accept_represents.
  - assert (∀ t, 0 <= t → would_accept (replay i) t = false → would_accept (replay i') t = false) as Hst.
    { intros t Ht0 Htf. rewrite Hre. by eapply rejected_stays. }
    destruct Ht as [[Ht Hnew]|Ht].
    + exists [s]. split; [done|apply NoDup_singleton| |done|done].
      by intros t ->%list_elem_of_singleton.
    + exists []. split; [by rewrite app_nil_r|constructor| |done|done].
      intros t Hin. by apply elem_of_nil in Hin.
Qed.

Lemma logged_send l p now :
  ∃ sent l', try_send l p now = (sent, l') ∧
    taken l' = match sent with Ok _ => taken l ++ [p] | Err _ => taken l end.
Proof.
  unfold try_send, Logged_inbound. destruct (try_send (logged_queue l) p now) as [sent q].
  eexists _, _. split; [done|]. by destruct sent.
Qed.

Lemma admit_rebuilt_good i l s now :
  ingress_ok i → 0 <= s →
  ∃ b i' l', admit_rebuilt i l s (packet_of s) now = Ret (b, i', l') ∧ good i i' l l' ∧
    Decoder.pending (repair i') = Decoder.pending (repair i).
Proof.
  intros Hok H0. unfold admit_rebuilt. destruct (would_accept (replay i) s) eqn:Ew; cbn [negb].
  2: { exists false, i, l. split; [done|]. split; [|done]. by apply good_same; [|apply Hok|..]. }
  destruct (remember_honest packet_of (repair i) s (in_repair i Hok)) as (d & -> & Hd & Hp).
  cbn [mbind run_bind]. destruct (logged_send l (packet_of s) now) as (sent & l' & -> & Hl).
  destruct sent as [u|e].
  - destruct (Replay.accept _ _) as [b w] eqn:Ea. eexists _, _, _. split; [done|]. split; [|done].
    eapply good_accepts; try done; [|by left]. change (replay i) with (replay (with_repair i d)). by rewrite Ea.
  - eexists _, _, _. split; [done|]. split; [|done]. by apply good_same.
Qed.

Lemma retry_loop_good clock fuel k i l :
  ingress_ok i → (length (Decoder.pending (repair i)) < fuel)%nat →
  ∃ i' l', retry_loop clock fuel k i l = Ret (i', l') ∧ good i i' l l'.
Proof.
  revert k i l. induction fuel as [|fuel IH]; intros k i l Hok Hf; [lia|]. cbn [retry_loop].
  destruct (negb _).
  { exists i, l. split; [done|]. by apply good_same; [|apply Hok|..]. }
  destruct (retry_honest packet_of (repair i) (clock k) (delivered i) (in_repair i Hok)) as [Hd Hfound].
  destruct (Decoder.retry_pending _ _ _) as [found d]. cbn [fst snd] in *.
  assert (good i (with_repair i d) l l) as Hg by (by apply good_same).
  destruct found as [[s p]|]; [|by exists (with_repair i d), l].
  destruct (Hfound s p eq_refl) as (-> & H0 & Hlen).
  destruct (admit_rebuilt_good (with_repair i d) l s (clock (S k)) (proj1 Hg) H0)
    as (b & i2 & l2 & -> & Hg2 & Hp2). cbn [mbind run_bind].
  destruct (IH (S (S k)) i2 l2) as (i3 & l3 & -> & Hg3); [apply Hg2|rewrite Hp2; cbn [with_repair repair]; lia|].
  exists i3, l3. split; [done|]. by eapply good_trans, good_trans.
Qed.

Lemma retry_good clock k i l :
  ingress_ok i → ∃ i' l', retry_pending clock k i l = Ret (i', l') ∧ good i i' l l'.
Proof. intros Hok. apply retry_loop_good; [done|lia]. Qed.

(** What each answer to a packet means. *)
Definition answer_of (i i' : RelayIngress) (l l' : Logged Q) (s : Z) (plaintext : list byte)
    (r : result TrySendError bool) : Prop :=
  match r with
  | Ok true => would_accept (replay i) s = true ∧ would_accept (replay i') s = false ∧
               taken l ++ [plaintext] `prefix_of` taken l'
  | Ok false => replay i' = replay i ∧ taken l' = taken l
  | Err e => would_accept (replay i) s = true ∧ would_accept (replay i') s = true ∧ taken l' = taken l
  end.

Lemma enqueue_good clock i l header plaintext :
  ingress_ok i → honest_op i (Authenticated header plaintext) →
  ∃ r i' l', enqueue_authenticated clock i header plaintext l = Ret (r, i', l') ∧ good i i' l l' ∧
    answer_of i i' l l' (Protocol.sequence header) plaintext r.
Proof.
  intros Hok Ho. unfold enqueue_authenticated. cbn [honest_op] in Ho.
  set (s := Protocol.sequence header) in *.
  destruct (is_ours i header) eqn:Eo; cbn [negb orb].
  2: { exists (Ok false), i, l. split; [done|]. split; [|done]. by apply good_same; [|apply Hok|..]. }
  destruct (has_flag (flags header) FLAG_REPAIR).
  { exists (Ok false), i, l. split; [done|]. split; [|done]. by apply good_same; [|apply Hok|..]. }
  destruct Ho as [H0 ->]; [done..|]. destruct (would_accept (replay i) s) eqn:Ew; cbn [negb].
  2: { eexists _, _, _. split; [done|]. split; [|by destruct (is_too_old _ _)].
       destruct (is_too_old _ _); by apply good_same; [|apply Hok|..]. }
  destruct (remember_honest packet_of (repair i) s (in_repair i Hok)) as (d & -> & Hd & Hp).
  cbn [mbind run_bind]. destruct (logged_send l (packet_of s) (clock 0%nat)) as (sent & l' & -> & Hl).
  destruct sent as [u|e].
  - destruct (Replay.accept _ _) as [b w] eqn:Ea.
    change (replay (with_repair i d)) with (replay i) in Ea.
    destruct (good_accepts i (with_replay (with_repair i d) w) l l' s) as [Hg Hgone]; try done.
    { by rewrite Ea. } { by left. }
    destruct (retry_good clock 1 _ l' (proj1 Hg)) as (i2 & l2 & -> & Hg2). cbn [mbind run_bind].
    exists (Ok true), i2, l2. split; [done|]. split; [by eapply good_trans|].
    destruct Hg2 as [_ [acc [Hlog _ _ Hst _]]]. split; [done|]. split; [by apply Hst|].
    rewrite Hlog, <-Hl. by eexists.
  - exists (Err e), (with_repair i d), l'. split; [done|]. split; [by apply good_same|]. done.
Qed.

Lemma enqueue_repair_good clock i l header payload :
  ingress_ok i → honest_op i (RepairFrame header payload) →
  ∃ b i' l', enqueue_repair clock i header payload l = Ret (b, i', l') ∧ good i i' l l'.
Proof.
  intros Hok Ho. unfold enqueue_repair. cbn [honest_op] in Ho.
  assert (good i i l l) as Hsame by (by apply good_same; [|apply Hok|..]).
  destruct (is_ours i header) eqn:Eo; cbn [negb orb]; [|by exists false, i, l].
  destruct (has_flag (flags header) FLAG_REPAIR); cbn [negb]; [|by exists false, i, l].
  destruct Ho as (H0 & g & Hg & ->); [done..|].
  destruct (Replay.accept (replay i) (Protocol.sequence header)) as [accepted w] eqn:Ea.
  destruct (good_accepts i (with_replay i w) l l (Protocol.sequence header)) as [Hw _]; try done.
  { apply Hok. } { by rewrite Ea. } { by right. }
  destruct accepted; cbn [negb]; [|by exists false, (with_replay i w), l].
  destruct (accept_repair_honest packet_of (repair (with_replay i w)) g (clock 0%nat)
    (delivered (with_replay i w)) (in_repair _ (proj1 Hw)) Hg) as [Hd Hfound].
  destruct (Decoder.accept_repair _ _ _ _) as [rebuilt d]. cbn [fst snd] in *.
  set (i1 := with_repair (with_replay i w) d).
  assert (good i i1 l l) as Hg1 by (eapply good_trans; [exact Hw|]; by apply good_same; [apply Hw|..]).
  assert (∃ b i2 l2, (match rebuilt with
                      | Some (sequence, packet) => admit_rebuilt i1 l sequence packet (clock 1%nat)
                      | None => Ret (false, i1, l)
                      end) = Ret (b, i2, l2) ∧ good i i2 l l2) as (b & i2 & l2 & -> & Hg2).
  { destruct rebuilt as [[s p]|]; [|by exists false, i1, l].
    destruct (Hfound s p eq_refl) as [-> Hs0].
    destruct (admit_rebuilt_good i1 l s (clock 1%nat) (proj1 Hg1) Hs0) as (b & i2 & l2 & E & Hg2 & _).
    exists b, i2, l2. split; [done|]. by eapply good_trans. }
  cbn [mbind run_bind].
  destruct (retry_good clock 2 i2 l2 (proj1 Hg2)) as (i3 & l3 & -> & Hg3). cbn [mbind run_bind].
  exists b, i3, l3. split; [done|]. by eapply good_trans.
Qed.

Lemma ingress_step_good clock i l o :
  ingress_ok i → honest_op i o →
  ∃ i' l', ingress_step clock i l o = Ret (i', l') ∧ good i i' l l'.
Proof.
  intros Hok Ho. destruct o as [header p|header p]; cbn [ingress_step].
  - destruct (enqueue_good clock i l header p Hok Ho) as (r & i' & l' & -> & Hg & _). by exists i', l'.
  - destruct (enqueue_repair_good clock i l header p Hok Ho) as (b & i' & l' & -> & Hg). by exists i', l'.
Qed.

Lemma ingress_run_good clocks k i l ops :
  ingress_ok i → Forall (honest_op i) ops →
  ∃ i' l', ingress_run clocks k i l ops = Ret (i', l') ∧ good i i' l l'.
Proof.
  revert k i l. induction ops as [|o ops IH]; intros k i l Hok Hops.
  { exists i, l. split; [done|]. by apply good_same; [|apply Hok|..]. }
  apply Forall_cons in Hops as [Ho Hops]. cbn [ingress_run].
  destruct (ingress_step_good (clocks k) i l o Hok Ho) as (i1 & l1 & -> & Hg1). cbn [mbind run_bind].
  destruct (IH (S k) i1 l1 (proj1 Hg1)) as (i2 & l2 & -> & Hg2).
  { eapply Forall_impl; [exact Hops|]. destruct Hg1 as [_ [acc [_ _ _ _ [Hc Hs]]]].
    intros o'. destruct o'; cbn [honest_op]; unfold is_ours; by rewrite Hc, Hs. }
  exists i2, l2. split; [done|]. by eapply good_trans.
Qed.

Lemma new_ingress_ok cid sid d : ingress_ok (new_ingress cid sid d).
Proof. split; [eexists; apply represents_default|apply empty_honest]. Qed.
End honest_run.

(** ** Properties *)

(** C4. The game gets each packet of the relay at most once and byte for byte:
    for any inbound queue, any readings of the clock and any order, loss and
    duplication of the relay's frames (data in the clear, or the encoding of a
    well-formed group of packets sent), no call panics, and the packets the queue
    took, rebuilt ones included, are those the relay sent under pairwise distinct
    sequences. *)
Theorem game_gets_what_was_sent {Q} `{!InboundQueue Q} packet_of clocks cid sid d (q : Q) ops
    (Hops : Forall (honest_op packet_of (new_ingress cid sid d)) ops) :
  ∃ i l, ingress_run clocks 0%nat (new_ingress cid sid d) (mk_logged q []) ops = Ret (i, l) ∧
    ∃ seqs, NoDup seqs ∧ taken l = packet_of <$> seqs.
Proof.
  destruct (ingress_run_good packet_of clocks 0 (new_ingress cid sid d) (mk_logged q []) ops
    (new_ingress_ok packet_of cid sid d) Hops) as (i & l & Hr & _ & acc & Hm).
  exists i, l. split; [done|]. exists acc. split; apply Hm.
Qed.

(** Two packets and the repair that covers them. *)
Definition toy_group : list member := [(5, str "one"); (6, str "second")].
Definition toy_packets (s : Z) : list byte :=
  if s =? 5 then str "one" else if s =? 6 then str "second" else [].
Definition toy_frame (flags s : Z) : FrameHeader :=
  mk_header (Z.lor FLAG_SERVER_TO_CLIENT flags) (replicate 16 x07) 5 s.
Definition toy_ingress_ops : list ingress_op :=
  [RepairFrame (toy_frame FLAG_REPAIR 7) (encode_group toy_group);
   Authenticated (toy_frame 0 5) (str "one"); Authenticated (toy_frame 0 5) (str "one")].
Definition toy_queue : SyncSender := mk_queue [] 8 true.

Lemma toy_group_honest : honest_group toy_packets toy_group.
Proof.
  split.
  - split; [done|by vm_compute|repeat constructor|]. repeat constructor; unfold first_of; cbn; done.
  - intros s p Hin. unfold toy_group in Hin. set_unfold in Hin. by destruct_or!; simplify_eq.
Qed.

Lemma toy_ops_honest : Forall (honest_op toy_packets (new_ingress (replicate 16 x07) 5 [])) toy_ingress_ops.
Proof.
  repeat constructor; try done. exists toy_group. split; [apply toy_group_honest|done].
Qed.

(** The repair gives back the packet that never came, and duplicates are dropped. *)
Lemma toy_run :
  match ingress_run (λ _ _, 0) 0%nat (new_ingress (replicate 16 x07) 5 []) (mk_logged toy_queue [])
          toy_ingress_ops with
  | Ret (_, l) => taken l = [str "one"; str "second"]
  | Panic => False
  end.
Proof. vm_compute. reflexivity. Qed.

Lemma game_gets_what_was_sent_witness :
  ∃ i l, ingress_run (λ _ _, 0) 0%nat (new_ingress (replicate 16 x07) 5 []) (mk_logged toy_queue [])
           toy_ingress_ops = Ret (i, l) ∧
    ∃ seqs, NoDup seqs ∧ taken l = toy_packets <$> seqs.
Proof. apply game_gets_what_was_sent. apply toy_ops_honest. Defined.

(** A full queue does not lose a packet: after any run of the relay's
    frames, a packet is answered [Ok(true)] when its sequence is new and the queue
    took it, which ends the sequence; [Ok(false)] when it changes neither the
    window nor the queue; and with the queue's error when its sequence stays new,
    so that the copy on another path is still admitted. *)
Theorem refused_packet_can_return {Q} `{!InboundQueue Q} packet_of clocks cid sid d (q : Q) ops
    clock header plaintext
    (Hops : Forall (honest_op packet_of (new_ingress cid sid d)) ops)
    (Ho : honest_op packet_of (new_ingress cid sid d) (Authenticated header plaintext)) :
  ∃ i l r i' l', ingress_run clocks 0%nat (new_ingress cid sid d) (mk_logged q []) ops = Ret (i, l) ∧
    enqueue_authenticated clock i header plaintext l = Ret (r, i', l') ∧
    answer_of i i' l l' (Protocol.sequence header) plaintext r.
Proof.
  destruct (ingress_run_good packet_of clocks 0 (new_ingress cid sid d) (mk_logged q []) ops
    (new_ingress_ok packet_of cid sid d) Hops) as (i & l & Hr & Hok & acc & Hm).
  destruct (enqueue_good packet_of clock i l header plaintext Hok) as (r & i' & l' & He & _ & Ha).
  { destruct Hm as [_ _ _ _ [Hc Hs]]. revert Ho. cbn [honest_op]. unfold is_ours. by rewrite Hc, Hs. }
  by exists i, l, r, i', l'.
Qed.

Lemma refused_packet_can_return_witness :
  ∃ i l r i' l', ingress_run (λ _ _, 0) 0%nat (new_ingress (replicate 16 x07) 5 []) (mk_logged toy_queue [])
      toy_ingress_ops = Ret (i, l) ∧
    enqueue_authenticated (λ _, 0) i (toy_frame 0 6) (str "second") l = Ret (r, i', l') ∧
    answer_of i i' l l' 6 (str "second") r.
Proof. apply (refused_packet_can_return toy_packets); [apply toy_ops_honest|done]. Defined.
