(* ===== verification/Threads.v ===== *)
(** * Threads: programs over shared state and their interleavings

    The engine's threads share state through atomics and mutexes. A [prog] is a
    call as its atomic steps, each an access to an atomic or the whole of a locked
    block; [exec] runs one alone, and a [machine] interleaves any number of calls
    with steps of the environment (the clock, other systems) in any order.

    [wp] reasons about one call in the presence of the others: the invariant
    relates the shared state to the tokens that the calls in flight hold. *)
From S2P Require Import Prelude.

Inductive prog (S A : Type) : Type :=
| Done (a : A)
| Atomic {X : Type} (op : S → run (X * S)) (k : X → prog S A).
Arguments Done {S A} a.
Arguments Atomic {S A X} op k.

#[export] Instance prog_ret S : MRet (prog S) := @Done S.
#[export] Instance prog_bind S : MBind (prog S) :=
  λ A B f, fix bind (m : prog S A) : prog S B :=
    match m with
    | Done a => f a
    | Atomic op k => Atomic op (λ x, bind (k x))
    end.

(** One atomic step, a load, and a store. *)
Definition act {S X} (op : S → run (X * S)) : prog S X := Atomic op Done.
Definition load {S X} (f : S → X) : prog S X := act (λ s, Ret (f s, s)).
Definition store {S} (f : S → S) : prog S unit := act (λ s, Ret ((), f s)).

(** A call that nothing interleaves with. *)
Fixpoint exec {S A} (m : prog S A) (s : S) : run (A * S) :=
  match m with
  | Done a => Ret (a, s)
  | Atomic op k => '(x, s) ← op s; exec (k x) s
  end.

Lemma exec_bind {S A B} (m : prog S A) (f : A → prog S B) s :
  exec (m ≫= f) s = ('(a, s) ← exec m s; exec (f a) s).
Proof.
  revert s. induction m as [a|X op k IH]; intros s; [done|]. cbn [exec mbind prog_bind].
  destruct (op s) as [[x s']|]; [|done]. cbn [mbind run_bind]. apply IH.
Qed.

(** A call among others: [others] is what the rest of the system does before each
    of its steps; when the list runs out it stands still. What is left of the list
    is returned. *)
Fixpoint exec_among {S A} (others : list (S → S)) (m : prog S A) (s : S) : run (A * S * list (S → S)) :=
  match m with
  | Done a => Ret (a, s, others)
  | Atomic op k =>
      let s := match others with f :: _ => f s | [] => s end in
      '(x, s) ← op s;
      exec_among (tail others) (k x) s
  end.

(** A call on a part of the state. *)
Fixpoint zoom {S R A} (get : R → S) (set : R → S → R) (m : prog S A) : prog R A :=
  match m with
  | Done a => Done a
  | Atomic op k => Atomic (λ r, '(x, s) ← op (get r); Ret (x, set r s)) (λ x, zoom get set (k x))
  end.

(** The loop of a [for] over a list. *)
Fixpoint for_each {S A B} (l : list A) (f : A → B → prog S B) (b : B) : prog S B :=
  match l with
  | [] => mret b
  | x :: l' => b ← f x b; for_each l' f b
  end.

(** ** Interleavings *)

(** A call starts, the [i]-th call in flight takes a step, or the environment
    does. A call that is done leaves with its next turn. *)
Inductive event (S : Type) : Type :=
| Call (m : prog S ())
| Turn (i : nat)
| Environment (f : S → S).
Arguments Call {S} m.
Arguments Turn {S} i.
Arguments Environment {S} f.

Definition machine (S : Type) : Type := S * list (prog S ()).

Definition machine_step {S} (c : machine S) (e : event S) : run (machine S) :=
  let '(s, pool) := c in
  match e with
  | Call m => Ret (s, pool ++ [m])
  | Turn i =>
      match pool !! i with
      | None => Ret (s, pool)
      | Some (Done _) => Ret (s, delete i pool)
      | Some (Atomic op k) => '(x, s) ← op s; Ret (s, <[i := k x]> pool)
      end
  | Environment f => Ret (f s, pool)
  end.

Fixpoint machine_run {S} (c : machine S) (events : list (event S)) : run (machine S) :=
  match events with
  | [] => Ret c
  | e :: events' => c ← machine_step c e; machine_run c events'
  end.

(** ** Reasoning about a call among others *)

Section wp.
Context {S Token : Type} (inv : S → list Token → Prop).

(** What one call may hold at a time. *)
Context (share : list Token → Prop).

(** [m], holding the tokens [r], keeps the invariant at each step, whatever the
    others hold, never panics, and ends with [Q]. *)
Fixpoint wp {A} (m : prog S A) (r : list Token) (Q : A → list Token → Prop) : Prop :=
  match m with
  | Done a => Q a r
  | Atomic op k =>
      ∀ s others, inv s (r ++ others) →
        match op s with
        | Panic => False
        | Ret (x, s') => ∃ r', share r' ∧ inv s' (r' ++ others) ∧ wp (k x) r' Q
        end
  end.

Lemma wp_mono {A} (m : prog S A) r (Q Q' : A → list Token → Prop) :
  wp m r Q → (∀ a r', Q a r' → Q' a r') → wp m r Q'.
Proof.
  revert r. induction m as [a|X op k IH]; intros r Hm HQ; [by apply HQ|]. intros s others Hi.
  specialize (Hm s others Hi). destruct (op s) as [[x s']|]; [|done].
  destruct Hm as (r' & Hs & Hi' & Hk). exists r'. split; [done|]. split; [done|]. by apply IH.
Qed.

Lemma wp_bind {A B} (m : prog S A) (f : A → prog S B) r (Q : B → list Token → Prop) :
  wp m r (λ a r', wp (f a) r' Q) → wp (m ≫= f) r Q.
Proof.
  revert r. induction m as [a|X op k IH]; intros r Hm; [done|]. intros s others Hi.
  specialize (Hm s others Hi). destruct (op s) as [[x s']|]; [|done].
  destruct Hm as (r' & Hs & Hi' & Hk). exists r'. split; [done|]. split; [done|]. by apply IH.
Qed.

Lemma wp_seq {A B} (m : prog S A) (f : A → prog S B) r (P : A → list Token → Prop)
    (Q : B → list Token → Prop) :
  wp m r P → (∀ a r', P a r' → wp (f a) r' Q) → wp (m ≫= f) r Q.
Proof. intros Hm Hf. apply wp_bind. eapply wp_mono; [exact Hm|]. apply Hf. Qed.

Lemma wp_load {X} (f : S → X) r (Q : X → list Token → Prop) :
  share r → (∀ s others, inv s (r ++ others) → Q (f s) r) → wp (load f) r Q.
Proof. intros Hr HQ s others Hi. exists r. split; [done|]. split; [done|]. by eapply HQ. Qed.

Lemma wp_store (f : S → S) r r' (Q : unit → list Token → Prop) :
  share r' → (∀ s others, inv s (r ++ others) → inv (f s) (r' ++ others)) → Q () r' → wp (store f) r Q.
Proof. intros Hr Hf HQ s others Hi. exists r'. split; [done|]. split; [by apply Hf|done]. Qed.

Lemma wp_act {X} (op : S → run (X * S)) r r' (Q : X → list Token → Prop) :
  share r' →
  (∀ s others, inv s (r ++ others) → ∃ x s', op s = Ret (x, s') ∧ inv s' (r' ++ others) ∧ Q x r') →
  wp (act op) r Q.
Proof.
  intros Hr Hop s others Hi. destruct (Hop s others Hi) as (x & s' & -> & Hi' & HQ). by exists r'.
Qed.

Lemma wp_for_each {A B} (l : list A) (f : A → B → prog S B) b (I : B → list Token → Prop) r :
  I b r → (∀ x b r, x ∈ l → I b r → wp (f x b) r I) → wp (for_each l f b) r I.
Proof.
  revert b r. induction l as [|x l IH]; intros b r Hb Hf; [done|]. cbn [for_each].
  eapply wp_seq; [apply Hf; [apply list_elem_of_here|done]|]. intros b' r' Hb'. apply IH; [done|].
  intros y b2 r2 Hy. apply Hf. by apply elem_of_cons; right.
Qed.

(** A call that nothing interleaves with, whatever tokens others hold. *)
Lemma wp_exec {A} (m : prog S A) s r others (Q : A → list Token → Prop) :
  inv s (r ++ others) → wp m r Q → ∃ a s' r', exec m s = Ret (a, s') ∧ inv s' (r' ++ others) ∧ Q a r'.
Proof.
  revert s r. induction m as [a|X op k IH]; intros s r Hi Hm; [by exists a, s, r|]. cbn [exec].
  specialize (Hm s others Hi). destruct (op s) as [[x s1]|]; [|done]. destruct Hm as (r1 & _ & Hi1 & Hk).
  cbn [mbind run_bind]. by eapply IH.
Qed.

(** *** Adequacy *)

Context (inv_perm : ∀ s l l', l ≡ₚ l' → inv s l → inv s l').

(** What a call may leave behind when it ends. *)
Context (leftover : Token → Prop) (share_nil : share []).
Context (inv_drop : ∀ s l l', Forall leftover l → inv s (l ++ l') → inv s l').

Definition call_ok (m : prog S ()) : Prop := wp m [] (λ _ r, Forall leftover r).

Definition pool_ok (pool : list (prog S ())) (rs : list (list Token)) : Prop :=
  Forall2 (λ m r, wp m r (λ _ r', Forall leftover r')) pool rs ∧ Forall share rs.

Definition event_ok (e : event S) : Prop :=
  match e with
  | Call m => call_ok m
  | Turn _ => True
  | Environment f => ∀ s l, inv s l → inv (f s) l
  end.

Lemma mjoin_insert (rs : list (list Token)) i r :
  rs !! i = Some r → ∃ others, mjoin rs ≡ₚ r ++ others ∧ (∀ r', mjoin (<[i := r']> rs) ≡ₚ r' ++ others) ∧
    mjoin (delete i rs) ≡ₚ others.
Proof.
  intros Hi. exists (mjoin (take i rs) ++ mjoin (drop (Datatypes.S i) rs)).
  assert (∀ r', mjoin (take i rs) ++ r' ++ mjoin (drop (Datatypes.S i) rs)
    ≡ₚ r' ++ mjoin (take i rs) ++ mjoin (drop (Datatypes.S i) rs)) as Hp.
  { intros r'. by rewrite !app_assoc, (Permutation_app_comm (mjoin (take i rs)) r'). }
  split_and!.
  - rewrite <-(take_drop_middle rs i r Hi) at 1. rewrite join_app. cbn [mjoin list_join]. apply Hp.
  - intros r'. rewrite insert_take_drop by (by eapply lookup_lt_Some). rewrite join_app.
    cbn [mjoin list_join]. apply Hp.
  - by rewrite delete_take_drop, join_app.
Qed.

Lemma machine_step_ok s pool rs e :
  pool_ok pool rs → inv s (mjoin rs) → event_ok e →
  ∃ s' pool' rs', machine_step (s, pool) e = Ret (s', pool') ∧ pool_ok pool' rs' ∧ inv s' (mjoin rs').
Proof.
  intros [Hp Hsh] Hi He. destruct e as [m|i|f]; cbn [machine_step].
  - exists s, (pool ++ [m]), (rs ++ [[]]). split; [done|]. split; [split|].
    + apply Forall2_app; [done|]. by constructor.
    + apply Forall_app. split; [done|]. by constructor.
    + eapply inv_perm; [|exact Hi]. rewrite join_app. cbn. by rewrite app_nil_r.
  - destruct (pool !! i) as [m|] eqn:Em; [|by exists s, pool, rs].
    destruct (Forall2_lookup_l _ _ _ _ _ Hp Em) as (r & Er & Hm).
    destruct (mjoin_insert rs i r Er) as (others & Hall & Hins & Hdel).
    apply (inv_perm _ _ _ Hall) in Hi. destruct m as [a|X op k].
    + exists s, (delete i pool), (delete i rs). split; [done|]. split; [split|].
      * by apply Forall2_delete.
      * by apply Forall_delete.
      * eapply inv_perm; [symmetry; exact Hdel|]. by eapply inv_drop.
    + specialize (Hm s others Hi). destruct (op s) as [[x s']|]; [|done].
      destruct Hm as (r' & Hr' & Hi' & Hk). exists s', (<[i := k x]> pool), (<[i := r']> rs).
      split; [done|]. split; [split|].
      * by apply Forall2_insert.
      * by apply Forall_insert.
      * eapply inv_perm; [symmetry; apply Hins|done].
  - exists (f s), pool, rs. split; [done|]. split; [done|]. by apply He.
Qed.

(** Any interleaving of calls that are [call_ok] keeps the invariant, with the
    tokens of the calls in flight, and panics nowhere. *)
Lemma machine_run_ok s pool rs events :
  pool_ok pool rs → inv s (mjoin rs) → Forall event_ok events →
  ∃ s' pool' rs', machine_run (s, pool) events = Ret (s', pool') ∧ pool_ok pool' rs' ∧ inv s' (mjoin rs').
Proof.
  revert s pool rs. induction events as [|e events IH]; intros s pool rs Hp Hi He.
  { by exists s, pool, rs. }
  apply Forall_cons in He as [He Hes]. cbn [machine_run].
  destruct (machine_step_ok s pool rs e Hp Hi He) as (s1 & pool1 & rs1 & -> & Hp1 & Hi1).
  cbn [mbind run_bind]. by eapply IH.
Qed.

Lemma machine_ok s events :
  inv s [] → Forall event_ok events →
  ∃ s' pool' rs', machine_run (s, []) events = Ret (s', pool') ∧ inv s' (mjoin rs') ∧
    length rs' = length pool' ∧ Forall share rs'.
Proof.
  intros Hi He. destruct (machine_run_ok s [] [] events) as (s' & pool' & rs' & Hr & [Hp Hs] & Hi').
  { split; constructor. } { done. } { done. }
  exists s', pool', rs'. split_and!; try done. symmetry. by eapply Forall2_length.
Qed.
End wp.

(** ** Reasoning about one call and what the others may do

    [among rely m s Q]: from [s], with steps of the others that [rely] allows before
    each of its own, [m] panics nowhere and ends with [Q]. *)
Section among.
Context {S : Type} (rely : S → S → Prop).

Fixpoint among {A} (m : prog S A) (s : S) (Q : A → S → Prop) : Prop :=
  match m with
  | Done a => Q a s
  | Atomic op k =>
      ∀ s1, rely s s1 →
        match op s1 with
        | Panic => False
        | Ret (x, s2) => among (k x) s2 Q
        end
  end.

Lemma among_mono {A} (m : prog S A) s (Q Q' : A → S → Prop) :
  among m s Q → (∀ a s', Q a s' → Q' a s') → among m s Q'.
Proof.
  revert s. induction m as [a|X op k IH]; intros s Hm HQ; [by apply HQ|]. intros s1 H1.
  specialize (Hm s1 H1). destruct (op s1) as [[x s2]|]; [|done]. by apply IH.
Qed.

Lemma among_bind {A B} (m : prog S A) (f : A → prog S B) s (Q : B → S → Prop) :
  among m s (λ a s', among (f a) s' Q) → among (m ≫= f) s Q.
Proof.
  revert s. induction m as [a|X op k IH]; intros s Hm; [done|]. intros s1 H1.
  specialize (Hm s1 H1). destruct (op s1) as [[x s2]|]; [|done]. by apply IH.
Qed.

Lemma among_for_each {A B} (l : list A) (f : A → B → prog S B) b s (I : B → S → Prop) :
  I b s → (∀ x b s, x ∈ l → I b s → among (f x b) s I) → among (for_each l f b) s I.
Proof.
  revert b s. induction l as [|x l IH]; intros b s Hb Hf; [done|]. cbn [for_each].
  apply among_bind. eapply among_mono; [apply Hf; [by left|done]|]. intros b' s' Hb'.
  apply IH; [done|]. intros y b2 s2 Hy. apply Hf. by right.
Qed.

(** What [among] promises is what a run among any allowed steps does. *)
Lemma among_exec {A} (m : prog S A) s others (Q : A → S → Prop) :
  (∀ s, rely s s) → Forall (λ f, ∀ s, rely s (f s)) others → among m s Q →
  ∃ a s' others', exec_among others m s = Ret (a, s', others') ∧ Q a s' ∧ Forall (λ f, ∀ s, rely s (f s)) others'.
Proof.
  intros Hrefl. revert s others. induction m as [a|X op k IH]; intros s others Ho Hm; [by exists a, s, others|].
  cbn [exec_among]. set (s1 := match others with f :: _ => f s | [] => s end).
  assert (rely s s1) as H1 by (destruct Ho as [|f others Hf _]; [apply Hrefl|apply Hf]).
  specialize (Hm s1 H1). destruct (op s1) as [[x s2]|]; [|done]. cbn [mbind run_bind].
  apply IH; [|done]. destruct Ho; [constructor|done].
Qed.
End among.
