(* ===== verification/Ranges.v ===== *)
(** * Ranges: sorted lists of disjoint ranges and the search in them

    What [engine/src/direct_list.rs] and the selector table of
    [engine/src/split_capture.rs] share: [partition_point] on a sorted vector finds
    the one range that can hold an address. *)
From S2P Require Import Prelude.

(** [slice::partition_point] of a slice that [p] partitions. *)
Fixpoint partition_point {A} (p : A → bool) (l : list A) : nat :=
  match l with
  | [] => O
  | x :: l' => if p x then S (partition_point p l') else O
  end.

(** The element before the partition point. *)
Definition last_before {A} (p : A → bool) (l : list A) : option A :=
  match partition_point p l with O => None | S i => l !! i end.

Section ranges.
Context {A : Type} (lo hi : A → Z).
Implicit Types (l k : list A) (x y : A) (a : Z).

(** In order, and no two of them share an address. *)
Definition apart l : Prop := Forall (λ x, lo x <= hi x) l ∧ StronglySorted (λ x y, hi x < lo y) l.

Definition range_of l a : option A :=
  match last_before (λ x, lo x <=? a) l with
  | Some x => if a <=? hi x then Some x else None
  | None => None
  end.

Lemma apart_nil : apart [].
Proof. split; constructor. Qed.

Lemma apart_cons x l : apart (x :: l) ↔ lo x <= hi x ∧ Forall (λ y, hi x < lo y) l ∧ apart l.
Proof.
  unfold apart. split.
  - intros [Hf Hs]. apply Forall_cons in Hf as [? ?]. by apply StronglySorted_inv in Hs as [? ?].
  - intros (? & ? & [? ?]). split; constructor; done.
Qed.

Lemma apart_app l k : apart (l ++ k) ↔ apart l ∧ apart k ∧ ∀ x y, x ∈ l → y ∈ k → hi x < lo y.
Proof.
  induction l as [|z l IH]; cbn [app].
  - split; [intros ?; split_and!; [apply apart_nil|done|by intros x y ?%elem_of_nil]|by intros (_ & ? & _)].
  - rewrite !apart_cons, Forall_app, IH. rewrite !Forall_forall. split.
    + intros (? & [? Hk] & ? & ? & Hx). split_and!; try done. intros x y [->|Hl]%elem_of_cons Hy; auto.
    + intros ((? & ? & ?) & ? & Hx). split_and!; try done.
      * intros y Hy. apply Hx; [apply list_elem_of_here|done].
      * intros x y Hl. apply Hx. by apply elem_of_cons; right.
Qed.

(** One range at most holds an address. *)
Lemma apart_unique l x y a :
  apart l → x ∈ l → y ∈ l → lo x <= a <= hi x → lo y <= a <= hi y → x = y.
Proof.
  induction l as [|z l IH]; intros Hl Hx Hy Hax Hay; [by apply elem_of_nil in Hx|].
  apply apart_cons in Hl as (_ & Hz & Hl). rewrite Forall_forall in Hz.
  apply elem_of_cons in Hx as [->|Hx], Hy as [->|Hy]; [done| | |by apply IH].
  - apply Hz in Hy. lia.
  - apply Hz in Hx. lia.
Qed.

Lemma last_before_cons (p : A → bool) x l :
  last_before p (x :: l) = if p x then match last_before p l with Some y => Some y | None => Some x end else None.
Proof.
  unfold last_before. cbn [partition_point]. destruct (p x); [|done]. cbn [lookup list_lookup].
  destruct (partition_point p l) as [|i] eqn:E; [done|]. cbn [lookup list_lookup].
  destruct (l !! i) as [y|] eqn:Ei; [done|]. exfalso. apply lookup_ge_None in Ei.
  assert (∀ k, (partition_point p k <= length k)%nat) as Hle.
  { induction k as [|z k IH]; cbn [partition_point length]; [lia|]. case_match; lia. }
  specialize (Hle l). lia.
Qed.

(** The search finds what holds the address. *)
Lemma range_of_spec l a x : apart l → range_of l a = Some x ↔ x ∈ l ∧ lo x <= a <= hi x.
Proof.
  intros Hl. split.
  - unfold range_of. intros Hr. destruct (last_before _ l) as [y|] eqn:E; [|done].
    destruct (Z.leb_spec a (hi y)); [|done]. injection Hr as ->.
    clear Hl. induction l as [|z l IH]; [done|]. rewrite last_before_cons in E.
    destruct (Z.leb_spec (lo z) a); [|done]. destruct (last_before _ l) as [w|]; injection E as ->.
    + destruct IH as [? ?]; [done|]. split; [by apply elem_of_cons; right|done].
    + split; [apply list_elem_of_here|lia].
  - intros [Hx Ha]. unfold range_of. assert (last_before (λ y, lo y <=? a) l = Some x) as ->.
    + induction l as [|z l IH]; [by apply elem_of_nil in Hx|]. apply apart_cons in Hl as (Hz0 & Hz & Hl).
      rewrite last_before_cons. apply elem_of_cons in Hx as [->|Hx].
      * destruct (Z.leb_spec (lo z) a); [|lia]. destruct l as [|w l]; [done|].
        rewrite last_before_cons. apply Forall_cons in Hz as [Hw _].
        destruct (Z.leb_spec (lo w) a); [lia|done].
      * assert (hi z < lo x) by (rewrite Forall_forall in Hz; auto).
        destruct (Z.leb_spec (lo z) a); [|lia]. by rewrite IH.
    + destruct (Z.leb_spec a (hi x)); [done|lia].
Qed.

Lemma range_of_none l a : apart l → range_of l a = None ↔ ∀ x, x ∈ l → ¬ lo x <= a <= hi x.
Proof.
  intros Hl. destruct (range_of l a) as [x|] eqn:E.
  - apply range_of_spec in E; [|done]. split; [done|]. intros Hn. by destruct E as [Hx []%(Hn x)].
  - split; [|done]. intros _ x Hx Ha. assert (range_of l a = Some x) by (by apply range_of_spec). congruence.
Qed.
End ranges.

(** ** Networks: an address and its leading bits *)

Definition u32_max : Z := 2 ^ 32 - 1.

(** [u32::MAX << (32 - prefix)]. *)
Definition prefix_mask (prefix : Z) : Z := Z.land (Z.shiftl u32_max (32 - prefix)) u32_max.

Lemma prefix_mask_eq p : 1 <= p <= 32 → prefix_mask p = 2 ^ 32 - 2 ^ (32 - p).
Proof.
  intros Hp. unfold prefix_mask. set (k := 32 - p). change u32_max with (Z.ones 32) at 2. rewrite Z.land_ones by lia.
  rewrite Z.shiftl_mul_pow2 by lia. unfold u32_max. assert (0 < 2 ^ k < 2 ^ 32) as Hk.
  { split; [apply Z.pow_pos_nonneg; lia|apply Z.pow_lt_mono_r; lia]. }
  symmetry. apply Z.mod_unique with (2 ^ k - 1); lia.
Qed.

Lemma land_prefix_mask x p :
  0 <= x < 2 ^ 32 → 1 <= p <= 32 → Z.land x (prefix_mask p) = x / 2 ^ (32 - p) * 2 ^ (32 - p).
Proof.
  intros Hx Hp. unfold prefix_mask. rewrite (Z.land_comm (Z.shiftl _ _)), Z.land_assoc.
  change (Z.land x u32_max) with (Z.land x (Z.ones 32)). rewrite Z.land_ones, Z.mod_small by lia.
  rewrite <-Z.shiftr_div_pow2, <-Z.shiftl_mul_pow2 by lia. apply Z.bits_inj'. intros i Hi.
  rewrite Z.land_spec, !Z.shiftl_spec by lia. change u32_max with (Z.ones 32).
  destruct (Z.lt_ge_cases i (32 - p)).
  - rewrite !(Z.testbit_neg_r _ (i - (32 - p))) by lia. by rewrite andb_false_r.
  - rewrite Z.shiftr_spec by lia. replace (i - (32 - p) + (32 - p)) with i by lia. destruct (Z.lt_ge_cases i 32).
    + rewrite Z.ones_spec_low by lia. apply andb_true_r.
    + rewrite (bits_high 32 x i) by lia. done.
Qed.

(** The first and the last address of a network. *)
Lemma network_block x p :
  0 <= x < 2 ^ 32 → 1 <= p <= 32 →
  Z.lor (Z.land x (prefix_mask p)) (u32_max - prefix_mask p) = x / 2 ^ (32 - p) * 2 ^ (32 - p) + 2 ^ (32 - p) - 1.
Proof.
  intros Hx Hp. rewrite land_prefix_mask, prefix_mask_eq by done.
  replace (u32_max - (2 ^ 32 - 2 ^ (32 - p))) with (Z.ones (32 - p)).
  - rewrite <-Z.add_nocarry_lor; [rewrite Z.ones_equiv; lia|].
    rewrite Z.land_ones by lia. apply Z.mod_mul. lia.
  - unfold u32_max. rewrite Z.ones_equiv. lia.
Qed.

(** Membership in a block is agreement of the leading bits. *)
Lemma in_network a x k : 0 <= k → x / 2 ^ k * 2 ^ k <= a <= x / 2 ^ k * 2 ^ k + 2 ^ k - 1 ↔ a / 2 ^ k = x / 2 ^ k.
Proof.
  intros Hk. pose proof (Z.pow_pos_nonneg 2 k ltac:(lia) Hk) as Hp. set (n := 2 ^ k) in *. clearbody n.
  pose proof (Z.div_mod a n ltac:(lia)). pose proof (Z.mod_pos_bound a n ltac:(lia)). split; [|nia].
  intros Ha. symmetry. apply Z.div_unique with (a - x / n * n); lia.
Qed.
