(* ===== verification/DirectList.v ===== *)
(** * DirectList: destinations that keep the normal connection

    [engine/src/direct_list.rs]: the networks and domains of a direct list, the
    lookup of an address or a name, the routes that cover the ranges, and the
    addresses a DNS reply gives for a listed name. An [Ipv4Addr] is the list of its
    octets, its [u32] their big-endian number. *)
From S2P Require Import Prelude Text Ranges.

Definition MAX_NETWORKS : Z := 65536.
Definition MAX_DOMAINS : Z := 65536.
Definition MAX_LEARNED : Z := 4096.
Definition MIN_PREFIX : Z := 8.

Record DirectSpec := mk_spec { networks : list (list byte); domains : list (list byte) }.

Record DirectList := mk_list {
  ranges : list (Z * Z);
  exact : gset (list byte);
  suffixes : gset (list byte);
  skipped : Z
}.

Definition empty_list : DirectList := mk_list [] ∅ ∅ 0.
Definition with_ranges (l : DirectList) (r : list (Z * Z)) : DirectList :=
  mk_list r (exact l) (suffixes l) (skipped l).
Definition skip_more (l : DirectList) (n : Z) : DirectList :=
  mk_list (ranges l) (exact l) (suffixes l) (skipped l + n).

(** [iter().take(n)]. *)
Fixpoint take_z {A} (n : Z) (l : list A) : list A :=
  match l with
  | [] => []
  | x :: l' => if n <=? 0 then [] else x :: take_z (n - 1) l'
  end.

(** ** Reading a list *)

Definition parse_network (value : list byte) : option (Z * Z) :=
  let value := trim value in
  '(address, prefix) ← (match split_once x2f value with
                        | Some (address, prefix) => p ← parse_u8 prefix; Some (address, p)
                        | None => Some (value, 32)
                        end);
  address ← parse_ipv4 address;
  if negb ((MIN_PREFIX <=? prefix) && (prefix <=? 32)) then None else
  let mask := prefix_mask prefix in
  let first := Z.land (be_Z address) mask in
  Some (first, Z.lor first (u32_max - mask)).

Definition is_alphanumeric (b : byte) : bool := in_range b 48 57 || in_range b 65 90 || in_range b 97 122.

Definition label_ok (label : list byte) : bool :=
  negb (bool_decide (label = [])) && (zlen label <=? 63)
  && forallb (λ b, is_alphanumeric b || bool_decide (b = x2d) || bool_decide (b = x5f)) label.

Definition parse_domain (value : list byte) : option (list byte * bool) :=
  let value := to_ascii_lowercase (trim_end_matches x2e (trim value)) in
  let '(name, suffix) := match strip_prefix (str "*.") value with
                         | Some name => (name, true)
                         | None => (value, false)
                         end in
  if negb (bool_decide (name = [])) && (zlen name <=? 253) && forallb label_ok (split_on x2e name)
  then Some (name, suffix) else None.

(** The order of pairs. *)
Definition pair_le (x y : Z * Z) : bool := (x.1 <? y.1) || ((x.1 =? y.1) && (x.2 <=? y.2)).

Definition sat_succ (z : Z) : Z := Z.min u32_max (z + 1).

Definition merge_step (merged : list (Z * Z)) (r : Z * Z) : list (Z * Z) :=
  match last merged with
  | Some (previous, previous_last) =>
      if r.1 <=? sat_succ previous_last
      then removelast merged ++ [(previous, Z.max previous_last r.2)]
      else merged ++ [r]
  | None => merged ++ [r]
  end.

Definition merge (ranges : list (Z * Z)) : list (Z * Z) := foldl merge_step [] (stable_sort pair_le ranges).

Definition take_network (acc : DirectList * list (Z * Z)) (network : list byte) : DirectList * list (Z * Z) :=
  match parse_network network with
  | Some r => (acc.1, acc.2 ++ [r])
  | None => (skip_more acc.1 1, acc.2)
  end.

Definition take_domain (l : DirectList) (domain : list byte) : DirectList :=
  match parse_domain domain with
  | Some (name, true) => mk_list (ranges l) (exact l) ({[name]} ∪ suffixes l) (skipped l)
  | Some (name, false) => mk_list (ranges l) ({[name]} ∪ exact l) (suffixes l) (skipped l)
  | None => skip_more l 1
  end.

Definition compile (spec : DirectSpec) : DirectList :=
  let '(l, r) := foldl take_network (empty_list, []) (take_z MAX_NETWORKS (networks spec)) in
  let l := skip_more l (sat_sub (zlen (networks spec)) MAX_NETWORKS) in
  let l := with_ranges l (merge r) in
  let l := foldl take_domain l (take_z MAX_DOMAINS (domains spec)) in
  skip_more l (sat_sub (zlen (domains spec)) MAX_DOMAINS).

Definition has_domains (l : DirectList) : bool :=
  negb (bool_decide (exact l = ∅)) || negb (bool_decide (suffixes l = ∅)).
Definition is_empty (l : DirectList) : bool := bool_decide (ranges l = []) && negb (has_domains l).
Definition range_count (l : DirectList) : Z := zlen (ranges l).
Definition domain_count (l : DirectList) : Z :=
  Z.of_nat (size (exact l)) + Z.of_nat (size (suffixes l)).

(** ** Asking it *)

Definition contains (l : DirectList) (address : list byte) : bool :=
  match last_before (λ r, r.1 <=? be_Z address) (ranges l) with
  | Some (_, last) => be_Z address <=? last
  | None => false
  end.

(** What follows each dot. *)
Fixpoint after_dots (name : list byte) : list (list byte) :=
  match name with
  | [] => []
  | c :: rest => (if bool_decide (c = x2e) then [rest] else []) ++ after_dots rest
  end.

Definition matches_name (l : DirectList) (name : list byte) : bool :=
  bool_decide (name ∈ exact l) || bool_decide (name ∈ suffixes l)
  || existsb (λ rest, bool_decide (rest ∈ suffixes l)) (after_dots name).

Definition exclude (l : DirectList) (address : list byte) : DirectList :=
  let address := be_Z address in
  match partition_point (λ r, r.1 <=? address) (ranges l) with
  | O => l
  | S index =>
      match ranges l !! index with
      | None => l
      | Some (first, last) =>
          if last <? address then l else
          let pieces := (if first <? address then [(first, address - 1)] else [])
                        ++ (if address <? last then [(address + 1, last)] else []) in
          with_ranges l (take index (ranges l) ++ pieces ++ drop (S index) (ranges l))
      end
  end.

(** ** Routes *)

Fixpoint pos_zeros (p : positive) : Z := match p with xO p' => 1 + pos_zeros p' | _ => 0 end.
Definition trailing_zeros (z : Z) : Z := match z with Zpos p => pos_zeros p | _ => 64 end.
Definition leading_zeros (z : Z) : Z := if z <=? 0 then 64 else 63 - Z.log2 z.

Definition block_bits (start end_ : Z) : Z :=
  let alignment := if start =? 0 then 32 else trailing_zeros start in
  let span := 63 - leading_zeros (end_ - start + 1) in
  Z.min alignment span.

(** Sixty-eight blocks cover any range. *)
Fixpoint blocks (fuel : nat) (start end_ : Z) : run (list (list byte * Z)) :=
  match fuel with
  | O => Panic
  | S fuel' =>
      if end_ <? start then Ret [] else
      let bits := block_bits start end_ in
      rest ← blocks fuel' (start + Z.shiftl 1 bits) end_;
      Ret ((be_bytes 4 start, 32 - bits) :: rest)
  end.

Fixpoint range_blocks (ranges : list (Z * Z)) : run (list (list byte * Z)) :=
  match ranges with
  | [] => Ret []
  | (first, last) :: ranges' =>
      block ← blocks 68 first last;
      rest ← range_blocks ranges';
      Ret (block ++ rest)
  end.

Definition prefixes (l : DirectList) : run (list (list byte * Z)) := range_blocks (ranges l).

(** ** DNS replies *)

Definition udp_dns_reply (packet : list byte) : option (list byte) :=
  if (zlen packet <? 20) || negb (nz packet 0 / 16 =? 4) || negb (nz packet 9 =? 17) then None else
  if negb (Z.land (nz16 packet 6) 0x3fff =? 0) then None else
  let header := Z.land (nz packet 0) 0x0f * 4 in
  udp ← get_range packet header (header + 8);
  if negb (nz16 udp 0 =? 53) then None else get_range packet (header + 8) (zlen packet).

Definition is_dns_reply (packet : list byte) : bool := bool_decide (is_Some (udp_dns_reply packet)).

(** Three hundred turns are more than a name of 253 bytes and sixteen jumps take. *)
Fixpoint read_name_loop (fuel : nat) (message : list byte) (offset : Z) (name : list byte)
    (resume : option Z) (jumps : Z) : option (list byte * Z) :=
  match fuel with
  | O => None
  | S fuel' =>
      length ← b2z <$> get message offset;
      if Z.land length 0xc0 =? 0xc0 then
        low ← b2z <$> get message (offset + 1);
        let resume := Some (default (offset + 2) resume) in
        let offset := Z.lor (Z.shiftl (Z.land length 0x3f) 8) low in
        if 16 <? jumps + 1 then None else read_name_loop fuel' message offset name resume (jumps + 1)
      else if 63 <? length then None
      else
        let offset := offset + 1 in
        if length =? 0 then Some (name, default offset resume) else
        label ← get_range message offset (offset + length);
        let name := match name with [] => [] | _ => name ++ [x2e] end
                    ++ to_ascii_lowercase (from_utf8_lossy label) in
        if 253 <? zlen name then None else
        read_name_loop fuel' message (offset + length) name resume jumps
  end.
Definition read_name (message : list byte) (offset : Z) : option (list byte * Z) :=
  read_name_loop 300 message offset [] None 0.

Definition reply_question (packet : list byte) : option (list byte) :=
  message ← udp_dns_reply packet;
  fst <$> read_name message 12.

Record Answer := mk_answer { names : list (list byte); addresses : list (list byte) }.

Fixpoint read_questions (n : nat) (message : list byte) (offset : Z) : option (list (list byte) * Z) :=
  match n with
  | O => Some ([], offset)
  | S n' =>
      '(name, next) ← read_name message offset;
      '(rest, offset) ← read_questions n' message (next + 4);
      Some (name :: rest, offset)
  end.

Fixpoint read_answers (n : nat) (message : list byte) (offset : Z) (answer : Answer) : option Answer :=
  match n with
  | O => Some answer
  | S n' =>
      '(owner, next) ← read_name message offset;
      header ← get_range message next (next + 10);
      let kind := nz16 header 0 in
      let length := nz16 header 8 in
      let data_start := next + 10 in
      data ← get_range message data_start (data_start + length);
      let answer :=
        if (kind =? 1) && (length =? 4) then mk_answer (names answer) (addresses answer ++ [data])
        else if kind =? 5 then
          mk_answer (names answer ++ [owner]
                     ++ match read_name message data_start with Some (target, _) => [target] | None => [] end)
            (addresses answer)
        else answer in
      read_answers n' message (data_start + length) answer
  end.

Definition read_answer (message : list byte) : option Answer :=
  if (zlen message <? 12) || (Z.land (nz message 2) 0x80 =? 0) || negb (Z.land (nz message 3) 0x0f =? 0)
  then None else
  '(questions, offset) ← read_questions (Z.to_nat (nz16 message 4)) message 12;
  read_answers (Z.to_nat (nz16 message 6)) message offset (mk_answer questions []).

Definition answered_addresses (l : DirectList) (packet : list byte) : list (list byte) :=
  if negb (has_domains l) then [] else
  match udp_dns_reply packet with
  | None => []
  | Some message =>
      match read_answer message with
      | None => []
      | Some answer => if existsb (matches_name l) (names answer) then addresses answer else []
      end
  end.

(** ** The ranges of a list *)

(** Addresses as numbers. *)
Definition in_ranges (l : list (Z * Z)) (a : Z) : Prop := ∃ f e, (f, e) ∈ l ∧ f <= a <= e.
Definition range_wf (r : Z * Z) : Prop := 0 <= r.1 <= r.2 ∧ r.2 < 2 ^ 32.
Definition ranges_wf (l : list (Z * Z)) : Prop := apart fst snd l ∧ Forall range_wf l.

Lemma in_ranges_nil a : ¬ in_ranges [] a.
Proof. intros (f & e & Hin & _). by apply elem_of_nil in Hin. Qed.

Lemma in_ranges_app l k a : in_ranges (l ++ k) a ↔ in_ranges l a ∨ in_ranges k a.
Proof. unfold in_ranges. setoid_rewrite elem_of_app. naive_solver. Qed.

Lemma in_ranges_cons f e l a : in_ranges ((f, e) :: l) a ↔ f <= a <= e ∨ in_ranges l a.
Proof. unfold in_ranges. setoid_rewrite elem_of_cons. naive_solver. Qed.

Lemma in_ranges_perm l k a : l ≡ₚ k → in_ranges l a ↔ in_ranges k a.
Proof. intros Hp. unfold in_ranges. by setoid_rewrite Hp. Qed.

Lemma contains_spec l address :
  apart fst snd (ranges l) → contains l address = true ↔ in_ranges (ranges l) (be_Z address).
Proof.
  intros Ha. transitivity (∃ r, range_of fst snd (ranges l) (be_Z address) = Some r).
  - unfold contains, range_of. destruct (last_before _ _) as [[f e]|]; cbn [snd]; [|naive_solver].
    destruct (be_Z address <=? e); naive_solver.
  - setoid_rewrite range_of_spec; [|done]. unfold in_ranges. split.
    + intros ([f e] & ? & ?). by exists f, e.
    + intros (f & e & ? & ?). by exists (f, e).
Qed.

(** *** Merging *)

Lemma pair_le_spec x y : pair_le x y = true ↔ x.1 < y.1 ∨ x.1 = y.1 ∧ x.2 <= y.2.
Proof. unfold pair_le. rewrite orb_true_iff, andb_true_iff, Z.ltb_lt, Z.eqb_eq, Z.leb_le. done. Qed.

Lemma pair_le_total x y : pair_le x y = false → pair_le y x = true.
Proof. intros H%not_true_iff_false. apply pair_le_spec. rewrite pair_le_spec in H. lia. Qed.
Lemma pair_le_trans x y z : pair_le x y = true → pair_le y z = true → pair_le x z = true.
Proof. rewrite !pair_le_spec. lia. Qed.

Lemma apart_singleton r : range_wf r → ranges_wf [r].
Proof.
  intros Hr. split; [|by constructor]. apply apart_cons. destruct Hr. split_and!; [lia|constructor|apply apart_nil].
Qed.

Lemma merge_step_spec merged r :
  ranges_wf merged → range_wf r → (∀ x, x ∈ merged → x.1 <= r.1) →
  ranges_wf (merge_step merged r) ∧ (∀ x, x ∈ merge_step merged r → x.1 <= r.1) ∧
  ∀ a, in_ranges (merge_step merged r) a ↔ in_ranges merged a ∨ r.1 <= a <= r.2.
Proof.
  destruct r as [f e]. cbn [fst snd]. intros [Ha Hw] Hr Hle. unfold merge_step. rewrite Forall_forall in Hw.
  assert (last merged = None → ranges_wf (merged ++ [(f, e)]) ∧
    (∀ x, x ∈ merged ++ [(f, e)] → x.1 <= f) ∧
    ∀ a, in_ranges (merged ++ [(f, e)]) a ↔ in_ranges merged a ∨ f <= a <= e) as Hnone.
  { intros ->%last_None. split; [by apply apart_singleton|]. cbn [app]. split.
    - intros x ->%list_elem_of_singleton. cbn. lia.
    - intros a. rewrite in_ranges_cons. pose proof (in_ranges_nil a); tauto. }
  destruct (last merged) as [[pf pe]|] eqn:El; [|by apply Hnone].
  apply last_Some in El as [init ->]. rewrite removelast_last. cbn [fst snd].
  pose proof (Hle (pf, pe) ltac:(apply elem_of_app; right; by apply list_elem_of_singleton)) as Hpf. cbn in Hpf.
  pose proof (Hw (pf, pe) ltac:(apply elem_of_app; right; by apply list_elem_of_singleton)) as Hpw.
  destruct Hr as [Hr1 Hr2]. destruct Hpw as [Hp1 Hp2]. cbn in Hr1, Hr2, Hp1, Hp2.
  assert (∀ x, x ∈ init → x ∈ init ++ [(pf, pe)]) as Hinit by (intros; apply elem_of_app; by left).
  apply apart_app in Ha as (Hai & Hal & Hx).
  destruct (Z.leb_spec f (sat_succ pe)) as [Hf|Hf]; unfold sat_succ in Hf.
  - split; [split|split].
    + apply apart_app. split_and!; [done| |].
      * apply apart_cons. split_and!; [cbn; lia|constructor|apply apart_nil].
      * intros x y Hi ->%list_elem_of_singleton. apply (Hx x (pf, pe)); [done|by apply list_elem_of_singleton].
    + apply Forall_app. split; [apply Forall_forall; auto|]. constructor; [|constructor]. split; cbn; lia.
    + intros x [Hi| ->%list_elem_of_singleton]%elem_of_app; [by apply Hle, Hinit|cbn; lia].
    + intros a. rewrite !in_ranges_app, !in_ranges_cons.
      assert (pf <= a <= Z.max pe e ↔ pf <= a <= pe ∨ f <= a <= e) as -> by (unfold u32_max in Hf; lia).
      pose proof (in_ranges_nil a); tauto.
  - unfold u32_max in Hf. assert (pe < f) as Hpef by lia. split; [split|split].
    + apply apart_app. split_and!; [apply apart_app; done| |].
      * apply apart_cons. split_and!; [cbn; lia|constructor|apply apart_nil].
      * intros x y [Hi| ->%list_elem_of_singleton]%elem_of_app ->%list_elem_of_singleton; cbn; [|lia].
        pose proof (Hx x (pf, pe) Hi ltac:(by apply list_elem_of_singleton)) as Hxp. cbn in Hxp. lia.
    + apply Forall_app. split; [apply Forall_forall; auto|]. constructor; [|constructor]. split; cbn; lia.
    + intros x [Hi| ->%list_elem_of_singleton]%elem_of_app; [by apply Hle|cbn; lia].
    + intros a. rewrite in_ranges_app, in_ranges_cons. pose proof (in_ranges_nil a); tauto.
Qed.

Lemma merge_fold l merged :
  ranges_wf merged → Forall range_wf l → StronglySorted (λ x y, pair_le x y = true) l →
  (∀ x y, x ∈ merged → y ∈ l → x.1 <= y.1) →
  ranges_wf (foldl merge_step merged l) ∧
  ∀ a, in_ranges (foldl merge_step merged l) a ↔ in_ranges merged a ∨ in_ranges l a.
Proof.
  revert merged. induction l as [|r l IH]; intros merged Hm Hl Hs Hle; cbn [foldl].
  - split; [done|]. intros a. pose proof (in_ranges_nil a); tauto.
  - apply Forall_cons in Hl as [Hr Hl]. apply StronglySorted_inv in Hs as [Hs Hrs].
    destruct (merge_step_spec merged r Hm Hr) as (Hm' & Hle' & Hc').
    { intros x Hx. apply Hle; [done|apply list_elem_of_here]. }
    destruct (IH (merge_step merged r) Hm' Hl Hs) as [Hw Hc].
    + intros x y Hx Hy. rewrite Forall_forall in Hrs. apply Hrs in Hy. apply Hle' in Hx.
      apply pair_le_spec in Hy. lia.
    + split; [done|]. intros a. rewrite Hc, Hc'. destruct r as [f e]. rewrite in_ranges_cons. cbn. pose proof (in_ranges_nil a); tauto.
Qed.

Lemma merge_spec l :
  Forall range_wf l → ranges_wf (merge l) ∧ ∀ a, in_ranges (merge l) a ↔ in_ranges l a.
Proof.
  intros Hl. unfold merge. destruct (merge_fold (stable_sort pair_le l) []) as [Hw Hc].
  - split; [apply apart_nil|constructor].
  - by rewrite stable_sort_perm.
  - apply stable_sort_sorted; [apply pair_le_total|apply pair_le_trans].
  - by intros x y Hx%elem_of_nil.
  - split; [done|]. intros a. rewrite Hc, (in_ranges_perm (stable_sort _ _) l); [|apply stable_sort_perm].
    pose proof (in_ranges_nil a); tauto.
Qed.

(** *** Excluding an address *)

Lemma partition_point_lookup {A} (p : A → bool) l i :
  partition_point p l = S i → ∃ x, l !! i = Some x ∧ last_before p l = Some x.
Proof.
  intros Hp. unfold last_before. rewrite Hp. destruct (l !! i) as [x|] eqn:E; [by exists x|].
  exfalso. apply lookup_ge_None in E. revert i Hp E.
  induction l as [|y l IH]; intros i Hp E; cbn [partition_point] in Hp; [done|].
  destruct (p y); [|done]. destruct (partition_point p l) as [|j] eqn:Ej; cbn [length] in E; [lia|].
  specialize (IH j eq_refl). lia.
Qed.

Lemma exclude_spec l address :
  ranges_wf (ranges l) → 0 <= be_Z address →
  ranges_wf (ranges (exclude l address)) ∧
  ∀ a, in_ranges (ranges (exclude l address)) a ↔ in_ranges (ranges l) a ∧ a ≠ be_Z address.
Proof.
  intros [Ha Hw] Hx. unfold exclude. set (x := be_Z address) in *. clearbody x.
  pose proof (contains_spec) as _.
  assert (last_before (λ r, r.1 <=? x) (ranges l) = None ∨
          (∃ r, last_before (λ r, r.1 <=? x) (ranges l) = Some r ∧ r.2 < x) →
    ∀ a, in_ranges (ranges l) a ↔ in_ranges (ranges l) a ∧ a ≠ x) as Habsent.
  { intros Hn a. split; [|tauto]. intros Hin. split; [done|]. intros ->.
    destruct Hin as (f & e & Hin & Hfe).
    assert (range_of fst snd (ranges l) x = Some (f, e)) as Hr by (by apply range_of_spec).
    unfold range_of in Hr. destruct Hn as [Hn|([f' e'] & Hn & He)]; rewrite Hn in Hr; [done|].
    cbn [snd] in *. destruct (Z.leb_spec x e'); [lia|done]. }
  destruct (partition_point _ (ranges l)) as [|i] eqn:Ep.
  { split; [done|]. apply Habsent. left. unfold last_before. by rewrite Ep. }
  destruct (partition_point_lookup _ _ i Ep) as ([f e] & Hi & Hl). rewrite Hi.
  destruct (Z.ltb_spec e x) as [He|He].
  { split; [done|]. apply Habsent. right. by exists (f, e). }
  assert (f <= x) as Hf.
  { assert (range_of fst snd (ranges l) x = Some (f, e)) as Hr.
    { unfold range_of. rewrite Hl. cbn [snd]. by destruct (Z.leb_spec x e); [|lia]. }
    apply range_of_spec in Hr as [_ Hr]; [cbn in Hr; lia|done]. }
  apply take_drop_middle in Hi. cbn [with_ranges ranges].
  set (before := take i (ranges l)) in *. set (after := drop (S i) (ranges l)) in *. clearbody before after.
  rewrite <-Hi in Ha, Hw |- *. clear Hl Ep Habsent Hi.
  apply apart_app in Ha as (Hb & Ha & Hba). apply apart_cons in Ha as (_ & Hea & Haa).
  apply Forall_app in Hw as [Hwb [[Hw1 Hw2] Hwa]%Forall_cons]. rewrite Forall_forall in Hea. cbn in Hw1, Hw2, Hea.
  assert (∀ y, y ∈ before → y.2 < f) as Hbf.
  { intros y Hy. apply (Hba y (f, e)); [done|apply list_elem_of_here]. }
  set (pieces := (if f <? x then _ else _) ++ _).
  assert (ranges_wf pieces ∧ (∀ y, y ∈ pieces → f <= y.1 ∧ y.2 <= e) ∧
    ∀ a, in_ranges pieces a ↔ f <= a <= e ∧ a ≠ x) as ([Hpa Hpw] & Hpb & Hpc).
  { unfold pieces. clear -Hw1 Hw2 Hf He.
    destruct (Z.ltb_spec f x), (Z.ltb_spec x e); cbn [app]; (split; [split|split]).
    all: rewrite ?apart_cons, ?Forall_cons, ?Forall_nil; unfold range_wf; cbn [fst snd].
    all: try (intros y; rewrite ?elem_of_cons, elem_of_nil; intros; destruct_or?; subst; cbn; by (done || lia)).
    all: try (intros a; rewrite ?in_ranges_cons; assert (in_ranges [] a ↔ False) as -> by (by split; [apply in_ranges_nil|]); lia).
    all: repeat (split; try lia); try constructor; try apply apart_nil. }
  split; [split|].
  - apply apart_app. split_and!; [done| |].
    + apply apart_app. split_and!; [done..|]. intros y z Hy%Hpb Hz%Hea. lia.
    + intros y z Hy [Hz|Hz]%elem_of_app; [apply Hpb in Hz; apply Hbf in Hy; lia|].
      apply Hba; [done|]. by apply elem_of_cons; right.
  - by rewrite !Forall_app.
  - intros a. rewrite !in_ranges_app, in_ranges_cons, Hpc.
    assert (in_ranges before a → a ≠ x) as H1.
    { intros (f' & e' & Hin & Hfe) ->. apply Hbf in Hin. cbn in Hin. lia. }
    assert (in_ranges after a → a ≠ x) as H2.
    { intros (f' & e' & Hin & Hfe) ->. apply Hea in Hin. cbn in Hin. lia. }
    tauto.
Qed.

(** *** Covering a range with blocks *)

Lemma pos_zeros_spec p : ∃ m, 0 <= m ∧ 0 <= pos_zeros p ∧ Zpos p = (2 * m + 1) * 2 ^ pos_zeros p.
Proof.
  induction p as [p IH|p IH|].
  - exists (Zpos p). cbn [pos_zeros]. lia.
  - destruct IH as (m & Hm & Hz & IH). exists m. cbn [pos_zeros].
    split_and!; [lia|lia|]. rewrite Pos2Z.inj_xO, Z.pow_add_r by lia. lia.
  - exists 0. cbn. lia.
Qed.

Lemma trailing_zeros_spec z :
  0 < z → ∃ m, 0 <= m ∧ 0 <= trailing_zeros z ∧ z = (2 * m + 1) * 2 ^ trailing_zeros z.
Proof. destruct z as [|p|p]; [lia| |lia]. intros _. apply pos_zeros_spec. Qed.

Lemma trailing_zeros_divide z k : 0 < z → 0 <= k → (2 ^ k | z) → k <= trailing_zeros z.
Proof.
  intros Hz Hk [q Hq]. destruct (trailing_zeros_spec z Hz) as (m & Hm & Ht & He).
  destruct (Z.le_gt_cases k (trailing_zeros z)) as [?|Hlt]; [done|]. exfalso.
  set (t := trailing_zeros z) in *. clearbody t.
  replace k with ((k - t - 1) + 1 + t) in Hq by lia. rewrite Z.pow_add_r, Z.pow_add_r in Hq by lia.
  rewrite Hq in He. pose proof (Z.pow_pos_nonneg 2 t ltac:(lia) Ht) as Hp.
  assert (q * (2 ^ (k - t - 1) * 2 ^ 1) = 2 * m + 1) as Hodd by (apply (Z.mul_reg_r _ _ (2 ^ t)); lia).
  change (2 ^ 1) with 2 in Hodd. lia.
Qed.

Lemma leading_zeros_span n : 0 < n → 63 - leading_zeros n = Z.log2 n.
Proof. intros. unfold leading_zeros. destruct (Z.leb_spec n 0); lia. Qed.

(** How many blocks are left: aligned blocks grow, then shrink. *)
Definition alignment (start : Z) : Z := if start =? 0 then 32 else trailing_zeros start.
Definition blocks_left (start end_ : Z) : Z :=
  let span := Z.log2 (end_ - start + 1) in
  if span <=? alignment start then span + 1 else 67 - alignment start.

Lemma alignment_spec start :
  0 <= start < 2 ^ 32 → 0 <= alignment start <= 32 ∧ (2 ^ alignment start | start) ∧
  (0 < start → alignment start < 32).
Proof.
  intros Hs. unfold alignment. destruct (Z.eqb_spec start 0) as [->|]; [split_and!; try lia; by exists 0|].
  destruct (trailing_zeros_spec start) as (m & Hm & Ht & He); [lia|].
  assert (trailing_zeros start < 32).
  { destruct (Z.le_gt_cases 32 (trailing_zeros start)); [|lia].
    assert (2 ^ 32 <= 2 ^ trailing_zeros start) by (apply Z.pow_le_mono_r; lia). nia. }
  split_and!; try lia. by exists (2 * m + 1).
Qed.

Lemma alignment_divide start k : 0 < start → 0 <= k → (2 ^ k | start) → k <= alignment start.
Proof.
  intros. unfold alignment. destruct (Z.eqb_spec start 0); [lia|]. by apply trailing_zeros_divide.
Qed.

Lemma block_bits_eq start end_ :
  start <= end_ → block_bits start end_ = Z.min (alignment start) (Z.log2 (end_ - start + 1)).
Proof. intros. unfold block_bits. by rewrite leading_zeros_span by lia. Qed.

Lemma block_fits start end_ :
  0 <= start <= end_ → end_ < 2 ^ 32 →
  let b := block_bits start end_ in
  0 <= b <= 32 ∧ (2 ^ b | start) ∧ start + 2 ^ b <= end_ + 1.
Proof.
  intros Hs He b. destruct (alignment_spec start) as (Ha & [q Hq] & _); [lia|].
  pose proof (Z.log2_spec (end_ - start + 1) ltac:(lia)) as [Hl _].
  pose proof (Z.log2_nonneg (end_ - start + 1)).
  assert (b = Z.min (alignment start) (Z.log2 (end_ - start + 1))) as -> by (apply block_bits_eq; lia).
  split_and!; try lia.
  - exists (q * 2 ^ (alignment start - Z.min (alignment start) (Z.log2 (end_ - start + 1)))).
    rewrite <-Z.mul_assoc, <-Z.pow_add_r by lia. rewrite Hq at 1. f_equal. f_equal. lia.
  - assert (2 ^ Z.min (alignment start) (Z.log2 (end_ - start + 1)) <= 2 ^ Z.log2 (end_ - start + 1)) as Hle
      by (apply Z.pow_le_mono_r; lia). lia.
Qed.

Lemma blocks_left_step start end_ :
  0 <= start <= end_ → end_ < 2 ^ 32 →
  let start' := start + 2 ^ block_bits start end_ in
  start' <= end_ → 0 <= blocks_left start' end_ < blocks_left start end_.
Proof.
  intros Hs He start' Hs'. destruct (alignment_spec start) as (Ha & [q Hq] & Ha32); [lia|].
  pose proof (Z.log2_spec (end_ - start + 1) ltac:(lia)) as [Hl Hu].
  pose proof (Z.log2_nonneg (end_ - start + 1)) as Hl0. pose proof (Z.log2_nonneg (end_ - start' + 1)) as Hl0'.
  assert (0 < start') as Hpos by
    (destruct (block_fits start end_) as (Hb & _); [lia..|]; unfold start';
     pose proof (Z.pow_pos_nonneg 2 (block_bits start end_)); lia).
  destruct (alignment_spec start') as (Ha' & _ & Ha32'); [lia|].
  assert (Z.log2 (end_ - start' + 1) <= 32).
  { apply Z.lt_succ_r. apply Z.log2_lt_pow2; [lia|]. change (2 ^ Z.succ 32) with (2 * 2 ^ 32). lia. }
  unfold blocks_left. unfold start' in *. rewrite block_bits_eq in * by lia.
  set (a := alignment start) in *. set (n := Z.log2 (end_ - start + 1)) in *.
  destruct (Z.leb_spec n a) as [Hna|Hna].
  - rewrite Z.min_r in * by lia.
    assert (Z.log2 (end_ - (start + 2 ^ n) + 1) < n) as Hlt.
    { apply Z.log2_lt_pow2; [lia|]. rewrite Z.pow_succ_r in Hu by lia. lia. }
    assert (n <= alignment (start + 2 ^ n)) as Hal.
    { apply alignment_divide; [lia..|]. exists (q * 2 ^ (a - n) + 1).
      rewrite Hq at 1. replace a with (a - n + n) at 1 by lia. rewrite Z.pow_add_r by lia. lia. }
    destruct (Z.leb_spec (Z.log2 (end_ - (start + 2 ^ n) + 1)) (alignment (start + 2 ^ n))); lia.
  - rewrite Z.min_l in * by lia.
    assert (0 < start) as Hp.
    { destruct (Z.eq_dec start 0) as [E|]; [|lia]. unfold a, alignment in Hna. rewrite E in Hna. cbn in Hna.
      assert (n <= 32); [|lia]. apply Z.lt_succ_r, Z.log2_lt_pow2; [lia|]. change (2 ^ Z.succ 32) with (2 * 2 ^ 32). lia. }
    assert (a + 1 <= alignment (start + 2 ^ a)) as Hal.
    { apply alignment_divide; [lia..|]. destruct (trailing_zeros_spec start Hp) as (m & Hm & Ht & Heq).
      assert (a = trailing_zeros start) as Hat by (unfold a, alignment; destruct (Z.eqb_spec start 0); [lia|done]).
      rewrite <-Hat in Heq. exists (m + 1). rewrite Z.pow_add_r by lia. lia. }
    destruct (Z.leb_spec (Z.log2 (end_ - (start + 2 ^ a) + 1)) (alignment (start + 2 ^ a))); lia.
Qed.

(** The addresses of a block. *)
Definition in_block (block : list byte * Z) (a : Z) : Prop :=
  be_Z block.1 <= a < be_Z block.1 + 2 ^ (32 - block.2).
Definition block_wf (block : list byte * Z) : Prop :=
  length block.1 = 4%nat ∧ 0 <= block.2 <= 32 ∧ (2 ^ (32 - block.2) | be_Z block.1).

Lemma blocks_cover fuel start end_ :
  0 <= start → end_ < 2 ^ 32 → (start <= end_ → blocks_left start end_ < Z.of_nat fuel) → (0 < fuel)%nat →
  ∃ l, blocks fuel start end_ = Ret l ∧ Forall block_wf l ∧
    ∀ a, (∃ b, b ∈ l ∧ in_block b a) ↔ start <= a <= end_.
Proof.
  revert start. induction fuel as [|fuel IH]; intros start Hs He Hf H0; [lia|]. cbn [blocks].
  destruct (Z.ltb_spec end_ start) as [Hlt|Hle].
  { exists []. split; [done|]. split; [constructor|]. intros a. split; [|lia]. by intros (b & Hb%elem_of_nil & _). }
  destruct (block_fits start end_) as (Hb & Hd & Hfit); [lia..|].
  pose proof (blocks_left_step start end_ ltac:(lia) He) as Hstep. cbn zeta in Hstep.
  set (b := block_bits start end_) in *. rewrite Z.shiftl_1_l.
  destruct (IH (start + 2 ^ b)) as (l & -> & Hw & Hc); [lia|lia|lia| |].
  { destruct fuel as [|fuel]; [|lia]. specialize (Hf Hle). unfold blocks_left in Hf.
    pose proof (Z.log2_nonneg (end_ - start + 1)).
    destruct (alignment_spec start) as (Ha & _ & _); [lia|].
    destruct (Z.leb_spec (Z.log2 (end_ - start + 1)) (alignment start)); lia. }
  cbn [mbind run_bind]. eexists. split; [done|].
  assert (be_Z (be_bytes 4 start) = start) as Hbe.
  { rewrite be_Z_be_bytes. apply Z.mod_small. change (256 ^ Z.of_nat 4) with (2 ^ 32). lia. }
  assert (32 - (32 - b) = b) as Hbb by lia. split.
  - constructor; [|done]. split_and!; cbn [fst snd]; [done|lia|lia|]. by rewrite Hbb, Hbe.
  - intros a. setoid_rewrite elem_of_cons. unfold in_block in *. split.
    + intros (x & [->|Hx] & Ha); cbn [fst snd] in Ha; [rewrite Hbb, Hbe in Ha; lia|].
      assert (start + 2 ^ b <= a <= end_); [|lia]. apply Hc. by exists x.
    + intros Ha. destruct (Z.lt_ge_cases a (start + 2 ^ b)).
      * eexists. split; [by left|]. cbn [fst snd]. rewrite Hbb, Hbe. lia.
      * destruct (Hc a) as [_ (x & Hx & Hxa)]; [lia|]. exists x. split; [by right|done].
Qed.

Lemma range_blocks_cover l :
  Forall range_wf l → ∃ k, range_blocks l = Ret k ∧ Forall block_wf k ∧
    ∀ a, (∃ b, b ∈ k ∧ in_block b a) ↔ in_ranges l a.
Proof.
  induction 1 as [|[f e] l [Hf He] Hl IH].
  - exists []. split; [done|]. split; [constructor|]. intros a. split; [by intros (b & Hb%elem_of_nil & _)|].
    by intros ?%in_ranges_nil.
  - destruct IH as (k & Hk & Hw & Hc). cbn [range_blocks fst snd] in *.
    destruct (blocks_cover 68 f e) as (j & -> & Hwj & Hcj); [lia|lia| |lia|].
    { intros _. unfold blocks_left. destruct (alignment_spec f) as (Ha & _ & _); [lia|].
      assert (Z.log2 (e - f + 1) <= 32).
      { apply Z.lt_succ_r, Z.log2_lt_pow2; [lia|]. change (2 ^ Z.succ 32) with (2 * 2 ^ 32). lia. }
      destruct (Z.leb_spec (Z.log2 (e - f + 1)) (alignment f)); lia. }
    rewrite Hk. cbn [mbind run_bind]. exists (j ++ k). split; [done|]. split; [by apply Forall_app|].
    intros a. rewrite in_ranges_cons, <-Hc, <-Hcj. setoid_rewrite elem_of_app. naive_solver.
Qed.

(** ** What a list holds *)

(** A network as it is written: four octets, and a prefix of eight bits at least
    or a whole address. *)
Definition names_network (text : list byte) (octets : list byte) (prefix : Z) : Prop :=
  MIN_PREFIX <= prefix <= 32 ∧
  (split_once x2f (trim text) = None ∧ parse_ipv4 (trim text) = Some octets ∧ prefix = 32 ∨
   ∃ address digits, split_once x2f (trim text) = Some (address, digits) ∧
     parse_ipv4 address = Some octets ∧ parse_u8 digits = Some prefix).

(** The addresses that share the network's leading bits. *)
Definition in_network_of (octets : list byte) (prefix a : Z) : Prop :=
  a / 2 ^ (32 - prefix) = be_Z octets / 2 ^ (32 - prefix).

Lemma octets_bound a : length a = 4%nat → 0 <= be_Z a < 2 ^ 32.
Proof. intros Ha. pose proof (be_Z_bound a). unfold zlen in *. rewrite Ha in *. change (256 ^ Z.of_nat 4) with (2 ^ 32) in *. lia. Qed.

Lemma parse_network_inv text r :
  parse_network text = Some r →
  ∃ octets prefix, names_network text octets prefix ∧ range_wf r ∧
    ∀ a, r.1 <= a <= r.2 ↔ in_network_of octets prefix a.
Proof.
  unfold parse_network, names_network. intros Hp.
  assert (∃ address prefix octets, (split_once x2f (trim text) = None ∧ address = trim text ∧ prefix = 32 ∨
     ∃ digits, split_once x2f (trim text) = Some (address, digits) ∧ parse_u8 digits = Some prefix) ∧
     parse_ipv4 address = Some octets ∧ MIN_PREFIX <= prefix <= 32 ∧
     r = (Z.land (be_Z octets) (prefix_mask prefix),
          Z.lor (Z.land (be_Z octets) (prefix_mask prefix)) (u32_max - prefix_mask prefix)))
    as (address & prefix & octets & Htext & Ho & Hm & ->).
  { destruct (split_once x2f (trim text)) as [[address digits]|]; cbn [mbind option_bind] in Hp.
    - destruct (parse_u8 digits) as [p|] eqn:Ed; cbn [mbind option_bind] in Hp; [|done].
      destruct (parse_ipv4 address) as [o|] eqn:Ea; cbn [mbind option_bind] in Hp; [|done].
      destruct (negb _) eqn:Eb; [done|]. b2p. injection Hp as <-. exists address, p, o. split; [right; by exists digits|done].
    - destruct (parse_ipv4 (trim text)) as [o|] eqn:Ea; cbn [mbind option_bind] in Hp; [|done].
      injection Hp as <-. exists (trim text), 32, o. split; [by left|]. unfold MIN_PREFIX. split_and!; [done|lia..|done]. }
  exists octets, prefix. pose proof (octets_bound octets (parse_ipv4_octets _ _ Ho)) as Hb. unfold MIN_PREFIX in Hm.
  rewrite network_block, land_prefix_mask by lia. split; [|split].
  - split; [done|]. destruct Htext as [(? & -> & ->)|(digits & ? & ?)]; [by left|right; by exists address, digits].
  - pose proof (Z.pow_pos_nonneg 2 (32 - prefix) ltac:(lia) ltac:(lia)) as Hpow.
    assert ((2 ^ (32 - prefix) | 2 ^ 32)) as [q Hq].
    { exists (2 ^ prefix). rewrite <-Z.pow_add_r by lia. f_equal. lia. }
    pose proof (Z.div_lt_upper_bound (be_Z octets) (2 ^ (32 - prefix)) q Hpow ltac:(lia)) as Hlt.
    pose proof (Z.div_pos (be_Z octets) (2 ^ (32 - prefix)) ltac:(lia) Hpow).
    split; cbn [fst snd]; nia.
  - intros a. cbn [fst snd]. apply in_network. lia.
Qed.

(** The addresses that the networks of a specification name. *)
Definition listed (spec : DirectSpec) (a : Z) : Prop :=
  ∃ text octets prefix, text ∈ take_z MAX_NETWORKS (networks spec) ∧
    is_Some (parse_network text) ∧ names_network text octets prefix ∧ in_network_of octets prefix a.

Lemma take_networks_spec l acc :
  Forall range_wf acc.2 →
  let out := foldl take_network acc l in
  Forall range_wf out.2 ∧ ∀ r, r ∈ out.2 ↔ r ∈ acc.2 ∨ ∃ text, text ∈ l ∧ parse_network text = Some r.
Proof.
  revert acc. induction l as [|text l IH]; intros acc Hw; cbn [foldl].
  - split; [done|]. intros r. split; [by left|]. intros [?|(text & ?%elem_of_nil & _)]; done.
  - destruct (IH (take_network acc text)) as [Hw' Hin].
    + unfold take_network. destruct (parse_network text) as [r|] eqn:E; [|done]. cbn [snd].
      apply Forall_app. split; [done|]. constructor; [|constructor].
      by apply parse_network_inv in E as (? & ? & _ & ? & _).
    + split; [done|]. intros r. rewrite Hin. unfold take_network. setoid_rewrite elem_of_cons.
      destruct (parse_network text) as [r'|] eqn:E; cbn [snd]; [rewrite elem_of_app, list_elem_of_singleton|]; naive_solver.
Qed.

Lemma take_domains_ranges l acc : ranges (foldl take_domain acc l) = ranges acc.
Proof.
  revert acc. induction l as [|d l IH]; intros acc; cbn [foldl]; [done|]. rewrite IH. unfold take_domain.
  by destruct (parse_domain d) as [[? []]|].
Qed.

Lemma parse_network_block text r octets prefix :
  parse_network text = Some r → names_network text octets prefix →
  ∀ a, r.1 <= a <= r.2 ↔ in_network_of octets prefix a.
Proof.
  intros Hr [Hp Hn]. destruct (parse_network_inv text r Hr) as (o & p & [Hp' Hn'] & _ & Hin).
  assert (o = octets ∧ p = prefix) as [-> ->]; [|done].
  destruct Hn as [(E & Ho & ->)|(ad & dg & E & Ho & Hd)], Hn' as [(E' & Ho' & ->)|(ad' & dg' & E' & Ho' & Hd')];
    rewrite E in E'; simplify_eq; by simplify_eq.
Qed.

Lemma compile_ranges spec :
  ranges_wf (ranges (compile spec)) ∧ ∀ a, in_ranges (ranges (compile spec)) a ↔ listed spec a.
Proof.
  unfold compile. pose proof (take_networks_spec (take_z MAX_NETWORKS (networks spec)) (empty_list, [])) as Hn.
  destruct (foldl take_network _ _) as [l r]. cbn [snd] in Hn. destruct Hn as [Hw Hin]; [constructor|].
  cbn [skip_more ranges]. rewrite take_domains_ranges. cbn [with_ranges ranges].
  destruct (merge_spec r Hw) as [Hm Hc]. split; [done|]. intros a. rewrite Hc. unfold in_ranges, listed. split.
  - intros (f & e & Hfe & Ha). apply Hin in Hfe as [?%elem_of_nil|(text & Ht & Hp)]; [done|].
    destruct (parse_network_inv text _ Hp) as (o & p & Hname & _ & Hb). exists text, o, p.
    split_and!; [done|by eexists|done|]. by apply Hb.
  - intros (text & o & p & Ht & [[f e] Hp] & Hname & Ha). exists f, e. split.
    + apply Hin. right. by exists text.
    + by apply (parse_network_block text (f, e) o p).
Qed.

Lemma exclude_all l excluded :
  ranges_wf (ranges l) →
  ranges_wf (ranges (foldl exclude l excluded)) ∧
  ∀ a, in_ranges (ranges (foldl exclude l excluded)) a ↔ in_ranges (ranges l) a ∧ a ∉ be_Z <$> excluded.
Proof.
  revert l. induction excluded as [|x excluded IH]; intros l Hl; cbn [foldl fmap list_fmap].
  - split; [done|]. intros a. rewrite elem_of_nil. tauto.
  - destruct (exclude_spec l x Hl) as [Hw Hc]; [apply be_Z_bound|]. destruct (IH (exclude l x) Hw) as [Hw' Hc'].
    split; [done|]. intros a. rewrite Hc', Hc, not_elem_of_cons. tauto.
Qed.

(** ** Reading a name ends *)

Lemma lossy_not_empty b l : 1 <= zlen (from_utf8_lossy (b :: l)).
Proof.
  unfold from_utf8_lossy. rewrite runs_cons, fmap_cons. cbn [mjoin list_join fst snd].
  match goal with |- _ <= zlen (_ ++ ?t) => generalize t end. intros t. rewrite zlen_app.
  pose proof (zlen_nonneg t). pose proof (utf8_step_width b l).
  assert (1 <= zlen (take (utf8_step b l).2 (b :: l))) by (unfold zlen; rewrite length_take; cbn [length]; lia).
  assert (zlen [xef; xbf; xbd] = 3) by done. destruct (utf8_step b l).1; lia.
Qed.

(** Every turn uses up a jump or adds to the name. *)
Lemma read_name_fuel f1 f2 message offset name resume jumps :
  0 <= jumps <= 16 → zlen name <= 253 →
  (16 - jumps) + (253 - zlen name) < Z.of_nat f1 → (16 - jumps) + (253 - zlen name) < Z.of_nat f2 →
  read_name_loop f1 message offset name resume jumps = read_name_loop f2 message offset name resume jumps.
Proof.
  revert f2 offset name resume jumps. induction f1 as [|f1 IH]; intros f2 offset name resume jumps Hj Hn H1 H2; [lia|].
  destruct f2 as [|f2]; [lia|]. cbn [read_name_loop].
  destruct (get message offset) as [b|]; cbn [fmap option_fmap option_map mbind option_bind]; [|done].
  destruct (Z.land (b2z b) 0xc0 =? 0xc0).
  { destruct (get message (offset + 1)) as [c|]; cbn [fmap option_fmap option_map mbind option_bind]; [|done].
    destruct (Z.ltb_spec 16 (jumps + 1)); [done|]. apply IH; lia. }
  destruct (63 <? b2z b); [done|]. destruct (Z.eqb_spec (b2z b) 0); [done|].
  pose proof (b2z_range b).
  destruct (get_range message (offset + 1) (offset + 1 + b2z b)) as [label|] eqn:El; cbn [mbind option_bind]; [|done].
  set (grown := _ ++ to_ascii_lowercase _). destruct (Z.ltb_spec 253 (zlen grown)); [done|].
  assert (zlen name < zlen grown); [|apply IH; lia].
  assert (1 <= zlen label) as Hl.
  { apply get_range_Some in El as (? & ? & ->). rewrite zlen_sub by lia. lia. }
  unfold grown. rewrite zlen_app. unfold to_ascii_lowercase. rewrite zlen_fmap.
  destruct label as [|c label]; [unfold zlen in Hl; cbn in Hl; lia|]. pose proof (lossy_not_empty c label).
  destruct name; [unfold zlen at 1 2; cbn [length]; lia|]. rewrite zlen_app. pose proof (zlen_nonneg [x2e]). lia.
Qed.

(** *** Properties *)

(** Three hundred turns are enough. *)
Lemma read_name_ends fuel message offset :
  (300 <= fuel)%nat → read_name_loop fuel message offset [] None 0 = read_name message offset.
Proof. intros. unfold read_name. apply read_name_fuel; unfold zlen; cbn [length]; lia. Qed.

(** C35. A direct list is exactly its networks, however they overlap: an address is
    direct iff it shares the leading bits of a network of the list that could be
    read, and is not one of the tunnel's own addresses that were excluded. The
    routes that are installed for it are well-formed blocks of addresses that cover
    exactly the direct ones, and computing them ends. *)
Theorem direct_routes_are_the_listed_networks spec excluded :
  let l := foldl exclude (compile spec) excluded in
  let direct a := listed spec a ∧ a ∉ be_Z <$> excluded in
  (∀ address, contains l address = true ↔ direct (be_Z address)) ∧
  ∃ routes, prefixes l = Ret routes ∧ Forall block_wf routes ∧
    ∀ a, (∃ b, b ∈ routes ∧ in_block b a) ↔ direct a.
Proof.
  destruct (compile_ranges spec) as [Hw Hc]. destruct (exclude_all (compile spec) excluded Hw) as [[Ha Hr] He].
  split.
  - intros address. by rewrite contains_spec, He, Hc.
  - destruct (range_blocks_cover _ Hr) as (routes & Hroutes & Hwf & Hcover). exists routes.
    split; [done|]. split; [done|]. intros a. by rewrite Hcover, He, Hc.
Qed.
