(* ===== verification/FragmentRouter.v ===== *)
(** * FragmentRouter: one verdict for all the fragments of a datagram

    [engine/src/fragment_router.rs]: the capture threads reserve a datagram before
    its first fragment is classified, hold what arrives meanwhile, and release it
    under the first fragment's verdict. The callers pass fragments, whose header is
    whole; [A] is what a packet is put back with. *)
From S2P Require Import Prelude.

Definition PENDING_TTL : Z := ms 100.
Definition VERDICT_TTL : Z := secs 5.
Definition MAX_DATAGRAMS : Z := 64.
Definition MAX_PIECES : Z := 64.
Definition MAX_PENDING_BYTES : Z := 1024 * 1024.

(** [Tunnel] has the resolver of a redirected lookup and the node. *)
Inductive Route : Type :=
| Tunnel (redirect : option (list byte)) (node : Z)
| Bypass
| Drop.

#[export] Instance Route_eq_dec : EqDecision Route.
Proof. solve_decision. Defined.

(** Source, destination, protocol and identification. *)
Definition Key : Type := list byte * list byte * Z * Z.

Definition key_of (packet : list byte) : Key :=
  (sub packet 12 16, sub packet 16 20, nz packet 9, nz16 packet 4).

Record Ticket := mk_ticket { ticket_key : Key; ticket_generation : Z }.

Record Datagram (A : Type) := mk_datagram {
  started : Z;
  generation : Z;
  route : option Route;
  waiting : list (list byte * A)
}.
Arguments mk_datagram {A} started generation route waiting.
Arguments started {A} d.
Arguments generation {A} d.
Arguments route {A} d.
Arguments waiting {A} d.

Inductive Action : Type := Routed (route : Route) | Held.

Record FragmentRouter (A : Type) := mk_router {
  datagrams : gmap Key (Datagram A);
  last_generation : Z;
  pending_bytes : Z;
  discarded : Z
}.
Arguments mk_router {A} datagrams last_generation pending_bytes discarded.
Arguments datagrams {A} f.
Arguments last_generation {A} f.
Arguments pending_bytes {A} f.
Arguments discarded {A} f.

Section router.
Context {A : Type}.
Implicit Types (r : FragmentRouter A) (d : Datagram A) (m : gmap Key (Datagram A)).
Notation piece := (list byte * A)%type.

Definition default_router : FragmentRouter A := mk_router ∅ 0 0 0.

Definition piece_bytes (l : list piece) : Z := foldr (λ p acc, zlen p.1 + acc) 0 l.

Definition alive (now : Z) d : bool :=
  since now (started d) <? match route d with Some _ => VERDICT_TTL | None => PENDING_TTL end.

(** The pieces that the datagrams of a map hold. *)
Definition held_by m : list piece := mjoin ((waiting ∘ snd) <$> map_to_list m).

(** Pieces that will not be released. *)
Definition forget r (datagrams : gmap Key (Datagram A)) (lost : list piece) : FragmentRouter A :=
  mk_router datagrams (last_generation r) (pending_bytes r - piece_bytes lost) (discarded r + zlen lost).

Definition expire r (now : Z) : FragmentRouter A :=
  forget r (filter (λ kd, alive now kd.2 = true) (datagrams r))
    (held_by (filter (λ kd, alive now kd.2 = false) (datagrams r))).

Definition make_room r (key : Key) : FragmentRouter A :=
  if bool_decide (datagrams r !! key = None) && (MAX_DATAGRAMS <=? zsize (datagrams r)) then
    match min_by (λ kd, started kd.2) (map_to_list (datagrams r)) with
    | Some (oldest, old) => forget r (delete oldest (datagrams r)) (waiting old)
    | None => r
    end
  else r.

(** [wrapping_add(1).max(1)]. *)
Definition next_generation (g : Z) : Z := Z.max 1 (wrap64 (g + 1)).

Definition begin r (first : list byte) (now : Z) : Ticket * FragmentRouter A :=
  let r := expire r now in
  let key := key_of first in
  let r := make_room r key in
  let g := next_generation (last_generation r) in
  let r := mk_router (datagrams r) g (pending_bytes r) (discarded r) in
  let '(waiting, r) := match datagrams r !! key with
                       | Some old => if generation old =? 0 then (waiting old, r)
                                     else ([], forget r (datagrams r) (waiting old))
                       | None => ([], r)
                       end in
  (mk_ticket key g,
   mk_router (<[key := mk_datagram now g None waiting]> (datagrams r)) g (pending_bytes r) (discarded r)).

Definition later r (packet : list byte) (address : A) (now : Z) : Action * FragmentRouter A :=
  let r := expire r now in
  let key := key_of packet in
  let r := make_room r key in
  let d := default (mk_datagram now 0 None []) (datagrams r !! key) in
  match route d with
  | Some ro => (Routed ro, r)
  | None =>
      if (MAX_PIECES <=? zlen (waiting d)) || (MAX_PENDING_BYTES <? pending_bytes r + zlen packet) then
        (Routed Drop,
         forget r (<[key := mk_datagram (started d) (generation d) (Some Drop) []]> (datagrams r)) (waiting d))
      else
        (Held, mk_router (<[key := mk_datagram (started d) (generation d) None (waiting d ++ [(packet, address)])]>
                            (datagrams r))
                 (last_generation r) (pending_bytes r + zlen packet) (discarded r))
  end.

Definition finish r (ticket : Ticket) (ro : Route) (now : Z) : list piece * FragmentRouter A :=
  match datagrams r !! ticket_key ticket with
  | None => ([], r)
  | Some d =>
      if negb (generation d =? ticket_generation ticket) then ([], r) else
      let ro := if bool_decide (route d = Some Drop) then Drop else ro in
      let after := <[ticket_key ticket := mk_datagram now (generation d) (Some ro) []]> (datagrams r) in
      if bool_decide (ro = Drop) then ([], forget r after (waiting d))
      else (waiting d, mk_router after (last_generation r) (pending_bytes r - piece_bytes (waiting d)) (discarded r))
  end.

Definition take_discarded r : Z * FragmentRouter A :=
  (discarded r, mk_router (datagrams r) (last_generation r) (pending_bytes r) 0).
End router.

(** ** What the datagrams hold *)

Section held.
Context {A : Type}.
Implicit Types (m : gmap Key (Datagram A)) (d : Datagram A) (r : FragmentRouter A).
Notation piece := (list byte * A)%type.

Lemma piece_bytes_app (l k : list piece) : piece_bytes (l ++ k) = piece_bytes l + piece_bytes k.
Proof. induction l as [|p l IH]; cbn [app piece_bytes foldr]; [done|]. unfold piece_bytes in *. lia. Qed.

#[export] Instance piece_bytes_perm : Proper ((≡ₚ) ==> (=)) (piece_bytes (A := A)).
Proof. induction 1; cbn [piece_bytes foldr] in *; unfold piece_bytes in *; lia. Qed.

Lemma held_by_empty : held_by (∅ : gmap Key (Datagram A)) = [].
Proof. unfold held_by. by rewrite map_to_list_empty. Qed.

Lemma held_by_insert m k d : m !! k = None → held_by (<[k := d]> m) ≡ₚ waiting d ++ held_by m.
Proof. intros Hk. unfold held_by. by rewrite map_to_list_insert. Qed.

Lemma held_by_delete m k d : m !! k = Some d → held_by m ≡ₚ waiting d ++ held_by (delete k m).
Proof. intros Hk. rewrite <-(insert_delete_id m k d) at 1 by done. by rewrite held_by_insert by (apply lookup_delete_eq). Qed.

Lemma held_by_set m k d :
  held_by (<[k := d]> m) ≡ₚ waiting d ++ held_by (delete k m).
Proof. rewrite <-insert_delete_eq. by rewrite held_by_insert by (apply lookup_delete_eq). Qed.

Lemma held_by_absent m k : m !! k = None → held_by (delete k m) = held_by m.
Proof. intros. by rewrite delete_id. Qed.

Lemma held_by_split m (P : Key * Datagram A → bool) :
  held_by m ≡ₚ held_by (filter (λ kd, P kd = false) m) ++ held_by (filter (λ kd, P kd = true) m).
Proof.
  induction m as [|k d m Hk IH] using map_ind.
  - by rewrite !map_filter_empty, held_by_empty.
  - rewrite held_by_insert by done. rewrite !map_filter_insert. destruct (P (k, d)) eqn:E.
    + rewrite decide_False by congruence. rewrite decide_True by done.
      rewrite map_filter_delete_not by (intros y Hy; congruence).
      rewrite held_by_insert by (by apply map_lookup_filter_None; left). rewrite IH. solve_Permutation.
    + rewrite decide_True by done. rewrite decide_False by congruence.
      rewrite map_filter_delete_not by (intros y Hy; congruence).
      rewrite held_by_insert by (by apply map_lookup_filter_None; left). rewrite IH. solve_Permutation.
Qed.

Lemma held_by_lookup m k d p : m !! k = Some d → p ∈ waiting d → p ∈ held_by m.
Proof. intros Hk Hp. rewrite (held_by_delete m k d Hk). apply elem_of_app. by left. Qed.
End held.

(** ** Runs of the router *)

Section run.
Context {A : Type}.
Implicit Types (m : gmap Key (Datagram A)) (d : Datagram A) (r : FragmentRouter A).
Notation piece := (list byte * A)%type.

(** The calls of the capture threads, each under the router's lock. [FinishOp n]
    uses the [n]-th ticket that was issued. *)
Inductive op : Type :=
| BeginOp (first : list byte) (now : Z)
| LaterOp (packet : list byte) (address : A) (now : Z)
| FinishOp (n : nat) (ro : Route) (now : Z).

Inductive event : Type :=
| Began (key : Key) (generation : Z)
| Answered (packet : list byte) (address : A) (answer : Action)
| Finished (key : Key) (generation : Z) (ro : Route) (released : list piece).

(** The events, the last one first, and the tickets, the first one first. *)
Record machine := mk_machine { router : FragmentRouter A; tickets : list Ticket; trace : list event }.

Definition start : machine := mk_machine default_router [] [].

Definition step (s : machine) (o : op) : machine :=
  match o with
  | BeginOp first now =>
      let '(ticket, r) := begin (router s) first now in
      mk_machine r (tickets s ++ [ticket]) (Began (ticket_key ticket) (ticket_generation ticket) :: trace s)
  | LaterOp packet address now =>
      let '(answer, r) := later (router s) packet address now in
      mk_machine r (tickets s) (Answered packet address answer :: trace s)
  | FinishOp n ro now =>
      match tickets s !! n with
      | None => s
      | Some ticket =>
          let '(released, r) := finish (router s) ticket ro now in
          mk_machine r (tickets s) (Finished (ticket_key ticket) (ticket_generation ticket) ro released :: trace s)
      end
  end.

Definition run_router (ops : list op) : machine := foldl step start ops.

(** The newest first fragment of a datagram. *)
Fixpoint newest (t : list event) (key : Key) : option Z :=
  match t with
  | [] => None
  | Began k g :: t' => if bool_decide (k = key) then Some g else newest t' key
  | _ :: t' => newest t' key
  end.

Fixpoint held_pieces (t : list event) : list piece :=
  match t with
  | [] => []
  | Answered packet address Held :: t' => (packet, address) :: held_pieces t'
  | _ :: t' => held_pieces t'
  end.

Fixpoint released_pieces (t : list event) : list piece :=
  match t with
  | [] => []
  | Finished _ _ _ released :: t' => released ++ released_pieces t'
  | _ :: t' => released_pieces t'
  end.

(** What an event may be, after the events before it. *)
Definition event_ok (before : list event) (e : event) : Prop :=
  match e with
  | Began _ _ => True
  | Answered packet _ (Routed ro) =>
      ro ≠ Drop → ∃ g released, newest before (key_of packet) = Some g ∧
        Finished (key_of packet) g ro released ∈ before
  | Answered _ _ Held => True
  | Finished key g ro released =>
      released ≠ [] → newest before key = Some g ∧ ro ≠ Drop ∧ ∀ p, p ∈ released → key_of p.1 = key
  end.

Fixpoint trace_ok (t : list event) : Prop :=
  match t with [] => True | e :: t' => event_ok t' e ∧ trace_ok t' end.

(** *** The invariant *)

Record datagram_ok (t : list event) (key : Key) d : Prop := {
  ok_newest : generation d ≠ 0 → newest t key = Some (generation d);
  ok_route : ∀ ro, route d = Some ro → ro ≠ Drop →
    generation d ≠ 0 ∧ ∃ released, Finished key (generation d) ro released ∈ t;
  ok_keys : ∀ p, p ∈ waiting d → key_of p.1 = key;
  ok_pieces : zlen (waiting d) <= MAX_PIECES
}.

Record router_ok (t : list event) r : Prop := {
  ok_datagrams : map_Forall (datagram_ok t) (datagrams r);
  ok_pending : pending_bytes r = piece_bytes (held_by (datagrams r));
  ok_bytes : pending_bytes r <= MAX_PENDING_BYTES;
  ok_size : zsize (datagrams r) <= MAX_DATAGRAMS;
  ok_released : released_pieces t ++ held_by (datagrams r) ⊆+ held_pieces t
}.

Lemma piece_bytes_nonneg (l : list piece) : 0 <= piece_bytes l.
Proof. induction l as [|p l IH]; cbn [piece_bytes foldr]; [lia|]. pose proof (zlen_nonneg p.1). unfold piece_bytes in *. lia. Qed.

Lemma forget_ok t r m lost :
  router_ok t r → map_Forall (datagram_ok t) m → zsize m <= MAX_DATAGRAMS →
  held_by (datagrams r) ≡ₚ lost ++ held_by m → router_ok t (forget r m lost).
Proof.
  intros [] Hm Hz Hp. pose proof (piece_bytes_nonneg lost).
  split; cbn [forget datagrams pending_bytes]; [done| |lia|done|].
  - rewrite ok_pending0, Hp, piece_bytes_app. lia.
  - etrans; [|exact ok_released0]. rewrite Hp. apply submseteq_app; [done|]. by apply submseteq_inserts_l.
Qed.

Lemma expire_ok t r now : router_ok t r → router_ok t (expire r now).
Proof.
  intros Hr. apply forget_ok; [done|..].
  - apply map_Forall_lookup. intros k d [Hk _]%map_lookup_filter_Some. by apply (ok_datagrams t r Hr).
  - destruct Hr. unfold zsize in *. pose proof (map_size_filter (λ kd, alive now kd.2 = true) (datagrams r)). lia.
  - apply (held_by_split (datagrams r) (λ kd, alive now kd.2)).
Qed.

Lemma make_room_ok t r key :
  router_ok t r → router_ok t (make_room r key) ∧
  (datagrams (make_room r key) !! key = None → zsize (datagrams (make_room r key)) < MAX_DATAGRAMS) ∧
  last_generation (make_room r key) = last_generation r.
Proof.
  intros Hr. unfold make_room. destruct (bool_decide _ && _) eqn:E.
  - apply andb_true_iff in E as [Hk%bool_decide_eq_true Hz%Z.leb_le].
    pose proof (min_by_spec (λ kd : Key * Datagram A, started kd.2) (map_to_list (datagrams r))) as Hmin.
    destruct (min_by _ _) as [[oldest old]|].
    + destruct Hmin as [Hin%elem_of_map_to_list _]. pose proof (ok_size t r Hr).
      assert (zsize (delete oldest (datagrams r)) < MAX_DATAGRAMS).
      { unfold zsize, MAX_DATAGRAMS in *. rewrite map_size_delete, Hin. cbn in *. lia. }
      split; [|done]. apply forget_ok; [done|by apply map_Forall_delete, ok_datagrams|lia|by apply held_by_delete].
    + apply map_to_list_empty_iff in Hmin. rewrite Hmin in Hz. unfold zsize, MAX_DATAGRAMS in Hz. rewrite map_size_empty in Hz. lia.
  - split_and!; [done| |done]. intros Hk. rewrite Hk in E. cbn in E. by apply Z.leb_gt in E.
Qed.

Lemma zsize_set m k d :
  zsize m <= MAX_DATAGRAMS → (m !! k = None → zsize m < MAX_DATAGRAMS) → zsize (<[k := d]> m) <= MAX_DATAGRAMS.
Proof.
  intros Hm Hk. unfold zsize in *. rewrite map_size_insert. destruct (m !! k); cbn; [lia|].
  specialize (Hk eq_refl). lia.
Qed.

(** An event other than a new first fragment leaves what was known. *)
Lemma datagram_ok_more t e key d :
  (∀ g, e ≠ Began key g) → datagram_ok t key d → datagram_ok (e :: t) key d.
Proof.
  intros He []. split; try done.
  - intros Hg. cbn [newest]. destruct e; auto. case_bool_decide; [|auto]. subst. by destruct (He generation0).
  - intros ro Hro Hd. destruct (ok_route0 ro Hro Hd) as (? & ps & ?). split; [done|]. exists ps. by apply elem_of_cons; right.
Qed.

Lemma began_ok r first now t :
  router_ok t r →
  let '(ticket, r') := begin r first now in
  1 <= ticket_generation ticket ∧ router_ok (Began (ticket_key ticket) (ticket_generation ticket) :: t) r'.
Proof.
  intros Hr. unfold begin. set (key := key_of first).
  destruct (make_room_ok t (expire r now) key (expire_ok t r now Hr)) as (Hr1 & Hz & _).
  set (r1 := make_room (expire r now) key) in *. clearbody r1. clear Hr.
  set (g := next_generation _). assert (1 <= g) as Hg by (unfold g, next_generation; lia). clearbody g.
  set (r2 := mk_router (datagrams r1) g _ _).
  assert (router_ok t r2) as Hr2 by (by destruct Hr1; split). assert (datagrams r2 = datagrams r1) as Hd by done.
  clearbody r2. rewrite Hd in *.
  assert (∃ w lost, (match datagrams r1 !! key with
      | Some old => if generation old =? 0 then (waiting old, r2) else ([], forget r2 (datagrams r1) (waiting old))
      | None => ([], r2) end) = (w, mk_router (datagrams r1) (last_generation r2) (pending_bytes r2 - piece_bytes lost)
                                      (discarded r2 + zlen lost)) ∧
      held_by (datagrams r1) ≡ₚ lost ++ w ++ held_by (delete key (datagrams r1)) ∧
      (∀ p, p ∈ w → key_of p.1 = key) ∧ zlen w <= MAX_PIECES)
    as (w & lost & -> & Hp & Hw & Hn).
  { destruct (datagrams r1 !! key) as [old|] eqn:Eo.
    - pose proof (held_by_delete _ _ _ Eo) as Hp. destruct (ok_datagrams t r1 Hr1 key old Eo) as [_ _ Hk Hl].
      destruct (generation old =? 0).
      + exists (waiting old), []. split; [|done]. f_equal. rewrite <-Hd. destruct r2; unfold zlen; cbn. f_equal; lia.
      + exists [], (waiting old). split; [done|]. split; [done|]. split; [by intros p ?%elem_of_nil|].
        rewrite zlen_nil. unfold MAX_PIECES. lia.
    - exists [], []. split; [f_equal; rewrite <-Hd; destruct r2; unfold zlen; cbn; f_equal; lia|]. rewrite held_by_absent by done.
      split; [done|]. split; [by intros p ?%elem_of_nil|]. rewrite zlen_nil. unfold MAX_PIECES. lia. }
  split; [done|]. destruct Hr2. rewrite Hd in *. pose proof (piece_bytes_nonneg lost).
  split; cbn [datagrams pending_bytes ticket_key ticket_generation].
  - apply map_Forall_lookup. intros k d [[<- <-]|[Hne Hk]]%lookup_insert_Some.
    + split; cbn [generation route waiting]; try done. intros _. cbn [newest]. by rewrite bool_decide_true.
    + apply datagram_ok_more; [by intros ? [= -> _]|by apply ok_datagrams0].
  - rewrite held_by_set. cbn [waiting]. rewrite ok_pending0, Hp, !piece_bytes_app. lia.
  - lia.
  - by apply zsize_set.
  - rewrite held_by_set. cbn [waiting released_pieces held_pieces]. etrans; [|exact ok_released0].
    rewrite Hp. apply submseteq_app; [done|]. by apply submseteq_inserts_l.
Qed.

Lemma submseteq_swap (a b c l : list piece) : b ≡ₚ c → a ++ b ⊆+ l → a ++ c ⊆+ l.
Proof. intros Hp Hs. etrans; [|exact Hs]. by rewrite Hp. Qed.

(** What holds of a datagram without pieces. *)
Ltac no_pieces :=
  first [ done | by intros ? ?%elem_of_nil | by intros ? [= <-] [] | by unfold zlen, MAX_PIECES; cbn; lia ].

(** A datagram is replaced by one that holds the same pieces or fewer. *)
Lemma set_ok t r key d lost :
  router_ok t r → datagram_ok t key d →
  (datagrams r !! key = None → zsize (datagrams r) < MAX_DATAGRAMS) →
  waiting (default (mk_datagram 0 0 None []) (datagrams r !! key)) ≡ₚ lost ++ waiting d →
  router_ok t (forget r (<[key := d]> (datagrams r)) lost).
Proof.
  intros Hr Hd Hz Hp. apply forget_ok; [done| | |].
  - apply map_Forall_insert_2; [done|by apply ok_datagrams].
  - apply zsize_set; [by eapply ok_size|done].
  - rewrite held_by_set, app_assoc, <-Hp. destruct (datagrams r !! key) as [old|] eqn:Eo; cbn [default option_map].
    + by apply held_by_delete.
    + by rewrite held_by_absent.
Qed.

Lemma answered_ok t r packet address answer :
  (match answer with Held => False | _ => True end) → router_ok t r → router_ok (Answered packet address answer :: t) r.
Proof.
  intros Ha []. split; try done.
  - intros k d Hk. apply datagram_ok_more; [done|]. by apply ok_datagrams0.
  - destruct answer; [done|by destruct Ha].
Qed.

Lemma later_ok t r packet address now :
  router_ok t r →
  let '(answer, r') := later r packet address now in
  event_ok t (Answered packet address answer) ∧ router_ok (Answered packet address answer :: t) r'.
Proof.
  intros Hr. unfold later. set (key := key_of packet).
  destruct (make_room_ok t (expire r now) key (expire_ok t r now Hr)) as (Hr1 & Hz & _).
  set (r1 := make_room (expire r now) key) in *. clearbody r1. clear Hr.
  set (d := default _ (datagrams r1 !! key)).
  assert (datagram_ok t key d) as Hd.
  { unfold d. destruct (datagrams r1 !! key) as [old|] eqn:Eo; cbn [default]; [by apply (ok_datagrams t r1 Hr1)|].
    split; cbn [generation route waiting]; no_pieces. }
  assert (waiting (default (mk_datagram 0 0 None []) (datagrams r1 !! key)) = waiting d) as Hwait.
  { unfold d. by destruct (datagrams r1 !! key). }
  clearbody d. destruct (route d) as [ro|] eqn:Ero.
  { split; [|by apply answered_ok]. cbn [event_ok]. intros Hdrop.
    destruct (ok_route t key d Hd ro Ero Hdrop) as (Hg & ps & Hin). exists (generation d), ps.
    split; [by apply (ok_newest t key d Hd)|done]. }
  destruct (_ || _) eqn:Efull.
  - split; [by intros []|]. apply answered_ok; [done|]. apply set_ok; [done| |done|].
    + destruct Hd. split; cbn [generation route waiting]; no_pieces.
    + rewrite Hwait. cbn [waiting]. by rewrite app_nil_r.
  - apply orb_false_iff in Efull as [Hn%Z.leb_gt Hb%Z.ltb_ge]. split; [done|].
    set (d' := mk_datagram _ _ _ _).
    assert (held_by (<[key := d']> (datagrams r1)) ≡ₚ (packet, address) :: held_by (datagrams r1)) as Hheld.
    { rewrite held_by_set. cbn [d' waiting]. destruct (datagrams r1 !! key) as [old|] eqn:Eo; cbn in Hwait.
      - rewrite (held_by_delete _ _ _ Eo), Hwait. solve_Permutation.
      - rewrite held_by_absent, <-Hwait by done. done. }
    destruct Hr1. split; cbn [datagrams pending_bytes].
    + apply map_Forall_insert_2.
      * destruct Hd. split; cbn [d' generation route waiting newest]; try done.
        -- intros p [Hp|Hp]%elem_of_app; [by apply ok_keys0|]. by apply list_elem_of_singleton in Hp as ->.
        -- rewrite zlen_app. change (zlen [(packet, address)]) with 1. lia.
      * intros k d0 Hk. apply datagram_ok_more; [done|by apply ok_datagrams0].
    + rewrite Hheld, ok_pending0. cbn [piece_bytes foldr fst]. unfold piece_bytes. lia.
    + lia.
    + by apply zsize_set.
    + cbn [released_pieces held_pieces]. rewrite Hheld, <-Permutation_middle. by apply submseteq_skip.
Qed.

Lemma finish_ok t r ticket ro now :
  1 <= ticket_generation ticket → router_ok t r →
  let '(released, r') := finish r ticket ro now in
  let e := Finished (ticket_key ticket) (ticket_generation ticket) ro released in
  event_ok t e ∧ router_ok (e :: t) r'.
Proof.
  intros Hg Hr. unfold finish. set (key := ticket_key ticket). set (g := ticket_generation ticket) in *.
  assert (router_ok (Finished key g ro [] :: t) r) as Hsame.
  { destruct Hr. split; try done. intros k d Hk. apply datagram_ok_more; [done|by apply ok_datagrams0]. }
  destruct (datagrams r !! key) as [d|] eqn:Ed; [|split; [by intros []|done]].
  destruct (Z.eqb_spec (generation d) g) as [Hgen|]; cbn [negb]; [|split; [by intros []|done]].
  pose proof (ok_datagrams t r Hr key d Ed) as Hd.
  assert (newest t key = Some g) as Hnew by (rewrite <-Hgen; apply (ok_newest t key d Hd); lia).
  set (verdict := if bool_decide (route d = Some Drop) then Drop else ro).
  destruct (bool_decide (verdict = Drop)) eqn:Ev.
  - apply bool_decide_eq_true in Ev. split; [by intros []|]. apply set_ok; [done| |by rewrite Ed|].
    + destruct (ok_datagrams _ r Hsame key d Ed). split; cbn [generation route waiting]; no_pieces.
    + rewrite Ed. cbn. by rewrite app_nil_r.
  - apply bool_decide_eq_false in Ev.
    assert (verdict = ro) as Hro by (unfold verdict in *; by case_bool_decide). rewrite Hro in *. split.
    { cbn [event_ok]. intros _. split; [done|]. split; [done|]. apply (ok_keys t key d Hd). }
    set (d' := mk_datagram _ _ _ _). pose proof (held_by_delete _ _ _ Ed) as Hheld.
    destruct Hr. split; cbn [datagrams pending_bytes].
    + apply map_Forall_insert_2.
      * split; cbn [d' generation route waiting newest]; try done.
        -- by rewrite Hgen.
        -- intros ro' [= <-] _. split; [lia|]. exists (waiting d). rewrite Hgen. apply list_elem_of_here.
        -- no_pieces.
      * intros k d0 Hk. apply datagram_ok_more; [done|by apply ok_datagrams0].
    + rewrite held_by_set, ok_pending0, Hheld, piece_bytes_app. cbn [d' waiting app]. lia.
    + pose proof (piece_bytes_nonneg (waiting d)). lia.
    + apply zsize_set; [done|]. by rewrite Ed.
    + cbn [released_pieces held_pieces]. rewrite held_by_set. cbn [d' waiting app].
      etrans; [|exact ok_released0]. rewrite Hheld. by rewrite <-!app_assoc, (Permutation_app_comm (waiting d)), <-!app_assoc, (Permutation_app_comm (held_by (delete _ _))).
Qed.

Definition machine_ok (s : machine) : Prop :=
  trace_ok (trace s) ∧ router_ok (trace s) (router s) ∧ Forall (λ ticket, 1 <= ticket_generation ticket) (tickets s).

Lemma step_ok s o : machine_ok s → machine_ok (step s o).
Proof.
  intros (Ht & Hr & Hk). destruct o as [first now|packet address now|n ro now]; cbn [step].
  - pose proof (began_ok (router s) first now (trace s) Hr) as Hb. destruct (begin (router s) first now) as [ticket r].
    destruct Hb as [Hg Hb]. split_and!; cbn [trace router tickets trace_ok]; [done|done|]. apply Forall_app. by repeat constructor.
  - pose proof (later_ok (trace s) (router s) packet address now Hr) as Hl.
    destruct (later (router s) packet address now) as [answer r]. destruct Hl. by split_and!.
  - destruct (tickets s !! n) as [ticket|] eqn:En; [|done].
    pose proof (finish_ok (trace s) (router s) ticket ro now) as Hf.
    rewrite Forall_forall in Hk. specialize (Hf (Hk ticket (list_elem_of_lookup_2 _ _ _ En)) Hr).
    destruct (finish (router s) ticket ro now) as [released r]. destruct Hf. split_and!; try done. by apply Forall_forall.
Qed.

Lemma start_ok : machine_ok start.
Proof.
  split; [done|]. split; [|constructor]. split; cbn [start router trace default_router datagrams pending_bytes].
  - apply map_Forall_empty.
  - by rewrite held_by_empty.
  - unfold MAX_PENDING_BYTES. lia.
  - unfold zsize, MAX_DATAGRAMS. rewrite map_size_empty. lia.
  - by rewrite held_by_empty.
Qed.

Lemma run_router_ok ops : machine_ok (run_router ops).
Proof.
  unfold run_router. pose proof start_ok as Hs. revert Hs. generalize start as s.
  induction ops as [|o ops IH]; intros s Hs; cbn [foldl]; [done|]. by apply IH, step_ok.
Qed.

(** The fragments of a datagram leave by one way: whatever the capture threads
    interleave, a later fragment is put on a way (and not dropped) only after the
    newest first fragment of its datagram was put there, held pieces are released
    only by that first fragment's own verdict and only those of its datagram, none
    is released twice or from nowhere, and what is held stays within its bounds,
    counted to the byte. *)
Theorem fragments_follow_their_first ops :
  let s := run_router ops in
  trace_ok (trace s) ∧
  released_pieces (trace s) ⊆+ held_pieces (trace s) ∧
  zsize (datagrams (router s)) <= MAX_DATAGRAMS ∧
  pending_bytes (router s) = piece_bytes (held_by (datagrams (router s))) ∧
  pending_bytes (router s) <= MAX_PENDING_BYTES.
Proof.
  destruct (run_router_ok ops) as (Ht & [] & _). split_and!; try done.
  etrans; [|exact ok_released0]. by apply submseteq_inserts_r.
Qed.
End run.
