(* ===== verification/TcpMss.v ===== *)
(** * TcpMss: clamping what a TCP handshake advertises

    [engine/src/tcp_mss.rs]: the options of a SYN are walked to its maximum segment
    size, which is lowered to what the link carries whole. *)
From S2P Require Import Prelude Icmp.

(** The options of a TCP header are 40 bytes at most, and each turn takes one. *)
Definition OPTION_ROUNDS : nat := 41.

Fixpoint clamp_options (fuel : nat) (packet : list byte) (maximum offset end_ : Z) : run (bool * list byte) :=
  match fuel with
  | O => Panic
  | S fuel' =>
      if end_ <=? offset then Ret (false, packet) else
      kind ← idx packet offset;
      if b2z kind =? 0 then Ret (false, packet)
      else if b2z kind =? 1 then clamp_options fuel' packet maximum (offset + 1) end_
      else match get packet (offset + 1) with
      | None => Ret (false, packet)
      | Some length =>
          let length := b2z length in
          if (length <? 2) || (end_ <? offset + length) then Ret (false, packet)
          else if (b2z kind =? 2) && (length =? 4) then
            current ← slice packet (offset + 2) (offset + 4);
            if maximum <? be_Z current then
              packet ← copy_at packet (offset + 2) (be_bytes 2 maximum);
              Ret (true, packet)
            else Ret (false, packet)
          else clamp_options fuel' packet maximum (offset + length) end_
      end
  end.

Definition clamp (packet : list byte) (maximum : Z) : run (bool * list byte) :=
  if (zlen packet <? 20) || negb (nz packet 0 / 16 =? 4) || negb (nz packet 9 =? 6) then Ret (false, packet) else
  let ip_header := Z.land (nz packet 0) 0x0f * 4 in
  if zlen packet <? ip_header + 20 then Ret (false, packet) else
  flags ← idx packet (ip_header + 13);
  if Z.land (b2z flags) 0x02 =? 0 then Ret (false, packet) else
  words ← idx packet (ip_header + 12);
  let tcp_header := b2z words / 16 * 4 in
  if (tcp_header <? 20) || (zlen packet <? ip_header + tcp_header) then Ret (false, packet) else
  clamp_options OPTION_ROUNDS packet maximum (ip_header + 20) (ip_header + tcp_header).

(** The checksum of the pseudo header and the segment. *)
Definition clamp_with_checksum (packet : list byte) (maximum : Z) : run (bool * list byte) :=
  '(changed, packet) ← clamp packet maximum;
  if negb changed then Ret (false, packet) else
  let ip_header := Z.land (nz packet 0) 0x0f * 4 in
  let total_length := Z.min (nz16 packet 2) (zlen packet) in
  let segment_length := sat_sub total_length ip_header in
  packet ← copy_at packet (ip_header + 16) [x00; x00];
  addresses ← slice packet 12 20;
  segment ← slice packet ip_header total_length;
  let sum := fold_carry CARRY_ROUNDS (word_sum addresses + (6 + segment_length) + word_sum segment) in
  packet ← copy_at packet (ip_header + 16) (be_bytes 2 (not16 sum));
  Ret (true, packet).

(** ** No packet makes it panic *)

Lemma clamp_options_total fuel packet maximum offset end_ :
  0 <= offset <= end_ → end_ <= zlen packet → end_ - offset < Z.of_nat fuel →
  ∃ changed packet', clamp_options fuel packet maximum offset end_ = Ret (changed, packet') ∧
    zlen packet' = zlen packet ∧ ∀ i, i < offset → get packet' i = get packet i.
Proof.
  revert offset. induction fuel as [|fuel IH]; intros offset Ho He Hf; [lia|].
  cbn [clamp_options]. assert (∀ b : bool, ∃ changed packet', Ret (b, packet) = Ret (changed, packet') ∧
    zlen packet' = zlen packet ∧ ∀ i, i < offset → get packet' i = get packet i) as Hstop by (intros b; by exists b, packet).
  destruct (Z.leb_spec end_ offset); [apply Hstop|].
  destruct (idx_in packet offset) as (kind & _ & ->); [lia|]. cbn [mbind run_bind].
  destruct (_ =? 0); [apply Hstop|].
  assert (∀ n, 1 <= n <= end_ - offset → ∃ changed packet',
    clamp_options fuel packet maximum (offset + n) end_ = Ret (changed, packet') ∧
    zlen packet' = zlen packet ∧ ∀ i, i < offset → get packet' i = get packet i) as Hnext.
  { intros n Hn. destruct (IH (offset + n)) as (c & p & -> & ? & Hp); [lia..|]. exists c, p. split_and!; [done|done|].
    intros i Hi. apply Hp. lia. }
  destruct (_ =? 1); [apply Hnext; lia|].
  destruct (get packet (offset + 1)) as [length|]; [|apply Hstop].
  destruct (_ || _) eqn:Hb; [apply Hstop|]. b2p.
  destruct (_ && _) eqn:Hm; [|apply Hnext; lia]. b2p.
  rewrite slice_in by lia. cbn [mbind run_bind]. destruct (_ <? _); [|apply Hstop].
  rewrite copy_at_in by (rewrite ?zlen_be_bytes; lia). cbn [mbind run_bind]. eexists _, _. split; [done|].
  split; [apply zlen_paste; rewrite ?zlen_be_bytes; lia|]. intros i Hi. apply get_paste_out; rewrite ?zlen_be_bytes; lia.
Qed.

(** Whatever the packet, its length and its first 20 bytes stay. *)
Lemma clamp_total packet maximum :
  ∃ changed packet', clamp packet maximum = Ret (changed, packet') ∧
    zlen packet' = zlen packet ∧ ∀ i, i < 20 → get packet' i = get packet i.
Proof.
  assert (∀ b : bool, ∃ changed packet', Ret (b, packet) = Ret (changed, packet') ∧
    zlen packet' = zlen packet ∧ ∀ i, i < 20 → get packet' i = get packet i) as Hstop by (intros b; by exists b, packet).
  unfold clamp. destruct (_ || _); [apply Hstop|].
  assert (0 <= Z.land (nz packet 0) 0x0f) by (apply Z.land_nonneg; right; lia).
  destruct (Z.ltb_spec (zlen packet) (Z.land (nz packet 0) 15 * 4 + 20)); [apply Hstop|].
  destruct (idx_in packet (Z.land (nz packet 0) 15 * 4 + 13)) as (flags & _ & ->); [lia|]. cbn [mbind run_bind].
  destruct (_ =? 0); [apply Hstop|].
  destruct (idx_in packet (Z.land (nz packet 0) 15 * 4 + 12)) as (words & _ & ->); [lia|]. cbn [mbind run_bind].
  destruct (_ || _) eqn:Hb; [apply Hstop|]. b2p. pose proof (b2z_range words).
  assert (b2z words / 16 < 16) by (apply Z.div_lt_upper_bound; lia).
  destruct (clamp_options_total OPTION_ROUNDS packet maximum (Z.land (nz packet 0) 15 * 4 + 20)
    (Z.land (nz packet 0) 15 * 4 + b2z words / 16 * 4)) as (c & p & -> & ? & Hp); [lia|lia|unfold OPTION_ROUNDS; lia|].
  exists c, p. split_and!; [done|done|]. intros i Hi. apply Hp. lia.
Qed.

(** ** What it does to a handshake *)

Inductive tcp_option : Type :=
| Nop
| Opt (kind : byte) (data : list byte).

#[export] Instance tcp_option_eq_dec : EqDecision tcp_option.
Proof. solve_decision. Defined.

Definition option_bytes (o : tcp_option) : list byte :=
  match o with Nop => [x01] | Opt kind data => kind :: z2b (zlen data + 2) :: data end.
Definition options_bytes (options : list tcp_option) : list byte := options ≫= option_bytes.

Definition option_wf (o : tcp_option) : Prop :=
  match o with Nop => True | Opt kind data => 2 <= b2z kind ∧ zlen data + 2 < 256 end.

(** What may follow the last option: nothing, or the end of the list and padding. *)
Definition padding_wf (padding : list byte) : Prop := padding = [] ∨ head padding = Some x00.

Fixpoint lower (maximum : Z) (options : list tcp_option) : list tcp_option :=
  match options with
  | [] => []
  | Nop :: os => Nop :: lower maximum os
  | Opt kind data :: os =>
      if (b2z kind =? 2) && (zlen data =? 2)
      then Opt kind (if maximum <? be_Z data then be_bytes 2 maximum else data) :: os
      else Opt kind data :: lower maximum os
  end.

Lemma paste_middle (a b c d : list byte) : zlen b = zlen d → paste (a ++ b ++ c) (zlen a) d = a ++ d ++ c.
Proof.
  intros Hl. pose proof (zlen_nonneg c). rewrite paste_app_r, Z.sub_diag by (rewrite ?zlen_app; lia). f_equal.
  rewrite paste_app_l by lia. f_equal. by apply paste_all.
Qed.

Lemma clamp_options_spec fuel pre options padding post maximum :
  0 <= maximum < 65536 → Forall option_wf options → padding_wf padding →
  zlen (options_bytes options ++ padding) < Z.of_nat fuel →
  clamp_options fuel (pre ++ options_bytes options ++ padding ++ post) maximum (zlen pre)
    (zlen pre + zlen (options_bytes options ++ padding)) =
  Ret (bool_decide (lower maximum options ≠ options), pre ++ options_bytes (lower maximum options) ++ padding ++ post).
Proof.
  intros Hmax Hwf Hpad. revert fuel pre. induction Hwf as [|o options Ho _ IH]; intros fuel pre Hf.
  - destruct fuel as [|fuel]; [pose proof (zlen_nonneg (options_bytes [] ++ padding)); lia|].
    rewrite bool_decide_eq_false_2 by naive_solver. cbn [clamp_options options_bytes mbind list_bind app lower].
    destruct Hpad as [->|Hh].
    + change (zlen (@nil byte)) with 0. by rewrite Z.add_0_r, Z.leb_refl.
    + destruct padding as [|z padding]; [done|]. injection Hh as ->. rewrite zlen_cons.
      pose proof (zlen_nonneg padding). rewrite (proj2 (Z.leb_gt _ _)) by lia.
      by rewrite (idx_eq _ pre x00 (padding ++ post)).
  - destruct fuel as [|fuel]; [pose proof (zlen_nonneg (options_bytes (o :: options) ++ padding)); lia|].
    change (options_bytes (o :: options)) with (option_bytes o ++ options_bytes options) in *.
    set (rest := options_bytes options ++ padding) in *.
    assert (zlen ((option_bytes o ++ options_bytes options) ++ padding) = zlen (option_bytes o) + zlen rest) as Hlen
      by (unfold rest; rewrite <-app_assoc, zlen_app; done).
    rewrite Hlen in *. pose proof (zlen_nonneg rest) as Hrest.
    assert (1 <= zlen (option_bytes o)) as Hob.
    { destruct o; [done|]. cbn [option_bytes]. rewrite !zlen_cons. pose proof (zlen_nonneg data). lia. }
    assert (∀ fuel', (fuel' = fuel)%nat → lower maximum (o :: options) = o :: lower maximum options →
      clamp_options fuel' (pre ++ (option_bytes o ++ options_bytes options) ++ padding ++ post) maximum
        (zlen pre + zlen (option_bytes o)) (zlen pre + (zlen (option_bytes o) + zlen rest)) =
      Ret (bool_decide (lower maximum (o :: options) ≠ o :: options),
        pre ++ options_bytes (lower maximum (o :: options)) ++ padding ++ post)) as Hnext.
    { intros ? -> ->. rewrite <-!app_assoc, (app_assoc pre), Z.add_assoc, <-zlen_app. unfold rest.
      rewrite IH by (fold rest; lia). f_equal. rewrite <-app_assoc.
      change (options_bytes (o :: lower maximum options)) with (option_bytes o ++ options_bytes (lower maximum options)).
      rewrite <-!app_assoc. f_equal. apply bool_decide_ext. split; intros Hne Heq; apply Hne; [by injection Heq|by f_equal]. }
    cbn [clamp_options]. rewrite (proj2 (Z.leb_gt _ _)) by lia.
    destruct o as [|kind data]; cbn [option_bytes] in *.
    + rewrite (idx_eq _ pre x01 (options_bytes options ++ padding ++ post)) by done. cbn [mbind run_bind].
      change (b2z x01 =? 0) with false. change (b2z x01 =? 1) with true. cbv iota. by apply Hnext.
    + destruct Ho as [Hk Hd]. rewrite zlen_cons, zlen_cons in *. pose proof (zlen_nonneg data) as Hdn.
      set (packet := pre ++ _). assert (packet = pre ++ kind :: z2b (zlen data + 2) :: data ++ options_bytes options ++ padding ++ post) as Hp
        by (unfold packet; cbn; by rewrite <-?app_assoc).
      rewrite (idx_eq packet pre kind (z2b (zlen data + 2) :: data ++ options_bytes options ++ padding ++ post)) by done.
      cbn [mbind run_bind]. rewrite !(proj2 (Z.eqb_neq (b2z kind) _)) by lia.
      assert (get packet (zlen pre + 1) = Some (z2b (zlen data + 2))) as ->.
      { rewrite Hp, get_app_r, Z.add_simpl_l by lia. done. }
      rewrite b2z_z2b, Z.mod_small by lia.
      rewrite (proj2 (Z.ltb_ge _ 2)), (proj2 (Z.ltb_ge _ (zlen pre + _))) by lia. cbn [orb].
      replace (zlen data + 2 =? 4) with (zlen data =? 2) by (apply eq_true_iff_eq; rewrite !Z.eqb_eq; lia).
      destruct (_ && _) eqn:Hm; [|replace (zlen data + 2) with (zlen data + 1 + 1) by lia; apply Hnext; [done|cbn [lower]; by rewrite Hm]].
      cbn [lower]. rewrite Hm. b2p.
      assert (zlen (pre ++ [kind; z2b (zlen data + 2)]) = zlen pre + 2) as Hpre by (by rewrite zlen_app).
      rewrite (slice_eq packet (pre ++ [kind; z2b (zlen data + 2)]) data (options_bytes options ++ padding ++ post));
        [|by rewrite Hp, <-app_assoc|lia|lia].
      cbn [mbind run_bind]. destruct (Z.ltb_spec maximum (be_Z data)).
      * rewrite copy_at_in by (rewrite ?Hp, ?zlen_be_bytes; pose proof (zlen_nonneg pre);
          pose proof (zlen_nonneg (options_bytes options ++ padding ++ post)); rewrite ?zlen_app, ?zlen_cons, ?zlen_app in *; lia).
        cbn [mbind run_bind]. f_equal. f_equal.
        -- symmetry. apply bool_decide_eq_true_2. intros Heq.
           assert (be_bytes 2 maximum = data) as Hdata by (by inversion Heq).
           assert (be_Z data = maximum); [|lia]. rewrite <-Hdata, be_Z_be_bytes. apply Z.mod_small. lia.
        -- rewrite Hp. change (options_bytes (Opt kind (be_bytes 2 maximum) :: options))
             with ((kind :: z2b (zlen (be_bytes 2 maximum) + 2) :: be_bytes 2 maximum) ++ options_bytes options).
           rewrite zlen_be_bytes. replace (Z.of_nat 2 + 2) with (zlen data + 2) by lia.
           replace (zlen pre + 2) with (zlen (pre ++ [kind; z2b (zlen data + 2)])) by (by rewrite zlen_app).
           replace (pre ++ kind :: z2b (zlen data + 2) :: data ++ options_bytes options ++ padding ++ post)
             with ((pre ++ [kind; z2b (zlen data + 2)]) ++ data ++ options_bytes options ++ padding ++ post) by (by rewrite <-app_assoc).
           rewrite paste_middle by (rewrite zlen_be_bytes; lia). by rewrite <-!app_assoc.
      * rewrite bool_decide_eq_false_2 by (by intros []). done.
Qed.

(** A handshake's first maximum segment size is lowered to what the link
    carries when it asked for more, every other option and byte stays, and what does
    not need clamping comes back as it was. *)
Theorem mss_is_lowered ip tcp options padding payload maximum :
  0 <= maximum < 65536 → Forall option_wf options → padding_wf padding →
  20 <= zlen ip → nz ip 0 / 16 = 4 → Z.land (nz ip 0) 0x0f * 4 = zlen ip → nz ip 9 = 6 →
  zlen tcp = 20 → Z.land (nz tcp 13) 0x02 ≠ 0 →
  nz tcp 12 / 16 * 4 = 20 + zlen (options_bytes options ++ padding) →
  clamp (ip ++ tcp ++ options_bytes options ++ padding ++ payload) maximum =
  Ret (bool_decide (lower maximum options ≠ options),
       ip ++ tcp ++ options_bytes (lower maximum options) ++ padding ++ payload).
Proof.
  intros Hmax Hopts Hpad Hip Hv Hihl Hproto Htcp Hsyn Hoff. set (area := options_bytes options ++ padding) in *.
  set (packet := ip ++ _). assert (packet = ip ++ tcp ++ area ++ payload) as Hp by (unfold packet, area; by rewrite <-!app_assoc).
  pose proof (zlen_nonneg area). pose proof (zlen_nonneg payload).
  assert (zlen packet = zlen ip + 20 + zlen area + zlen payload) as Hlen by (rewrite Hp, !zlen_app; lia).
  assert (∀ i, i < 20 → nz packet i = nz ip i) as Hnz by (intros i Hi; unfold nz; rewrite Hp, get_app_l by lia; done).
  assert (∀ i, 0 <= i < 20 → ∃ b, idx packet (zlen ip + i) = Ret b ∧ b2z b = nz tcp i) as Hidx.
  { intros i Hi. destruct (idx_in packet (zlen ip + i)) as (b & Hb & ->); [lia|]. exists b. split; [done|].
    rewrite Hp, get_app_r, get_app_l in Hb by lia. unfold nz. replace (zlen ip + i - zlen ip) with i in Hb by lia. by rewrite Hb. }
  unfold clamp. rewrite !Hnz, Hv, Hihl, Hproto by lia. rewrite (proj2 (Z.ltb_ge (zlen packet) 20)) by lia. cbn [orb negb].
  change (4 =? 4) with true. change (6 =? 6) with true. cbn [negb orb]. rewrite (proj2 (Z.ltb_ge (zlen packet) _)) by lia.
  destruct (Hidx 13) as (flags & -> & Hf); [lia|]. cbn [mbind run_bind]. rewrite Hf, (proj2 (Z.eqb_neq _ 0)) by done.
  destruct (Hidx 12) as (words & -> & Hw); [lia|]. cbn [mbind run_bind]. rewrite Hw, Hoff.
  rewrite (proj2 (Z.ltb_ge _ 20)), (proj2 (Z.ltb_ge (zlen packet) _)) by lia. cbn [orb].
  unfold packet. rewrite !(app_assoc ip tcp). replace (zlen ip + (20 + zlen area)) with (zlen (ip ++ tcp) + zlen area) by (rewrite zlen_app; lia).
  replace (zlen ip + 20) with (zlen (ip ++ tcp)) by (rewrite zlen_app; lia).
  apply clamp_options_spec; [done|done|done|]. fold area. pose proof (nz_range tcp 12).
  assert (nz tcp 12 / 16 < 16) by (apply Z.div_lt_upper_bound; lia). unfold OPTION_ROUNDS. lia.
Qed.

Definition sample_ip : list byte :=
  z2b 0x45 :: be_bytes 8 44 ++ z2b 6 :: be_bytes 10 0.
Definition sample_tcp : list byte := be_bytes 12 0 ++ [z2b 0x70; x02] ++ be_bytes 6 0.
Definition sample_options : list tcp_option := [Nop; Opt x03 [x08]; Opt x02 (be_bytes 2 1460)].

Lemma mss_is_lowered_witness :
  clamp (sample_ip ++ sample_tcp ++ options_bytes sample_options ++ [] ++ []) 1200 =
  Ret (true, sample_ip ++ sample_tcp ++ options_bytes [Nop; Opt x03 [x08]; Opt x02 (be_bytes 2 1200)] ++ [] ++ []).
Proof.
  refine (mss_is_lowered sample_ip sample_tcp sample_options [] [] 1200 _ _ _ _ _ _ _ _ _ _); try by vm_compute.
  - repeat constructor; by vm_compute.
  - by left.
Defined.
