(* ===== verification/SplitTable.v ===== *)
(** * SplitTable: which captured packets the rules select, and for which node

    The classification of [engine/src/split_capture.rs]: the fields read from a
    packet, the selectors compiled from the rules and learned as sockets open and
    names are answered, and the table that is looked up for every packet. A
    [BTreeMap] of ranges is the list of its entries in order; an [Ipv4Addr] is the
    list of its octets. *)
From S2P Require Import Prelude Text Policy Ranges.

(** ** Fields *)

Record Ipv4Fields := mk_fields {
  source : list byte;
  destination : list byte;
  protocol : Z;
  source_port : Z;
  destination_port : Z
}.

Definition ipv4_fields (packet : list byte) : option Ipv4Fields :=
  if (zlen packet <? 20) || negb (nz packet 0 / 16 =? 4) then None else
  let header := Z.land (nz packet 0) 0x0f * 4 in
  if (header <? 20) || (zlen packet <? header + 4) then None else
  let protocol := nz packet 9 in
  let '(source_port, destination_port) :=
    if (protocol =? 6) || (protocol =? 17) then (nz16 packet header, nz16 packet (header + 2))
    else if (protocol =? 1) && (header + 8 <=? zlen packet)
    then (nz16 packet (header + 4), nz16 packet (header + 4))
    else (0, 0) in
  Some (mk_fields (sub packet 12 16) (sub packet 16 20) protocol source_port destination_port).

Definition is_tcp_syn (packet : list byte) : bool :=
  if (zlen packet <? 20) || negb (nz packet 0 / 16 =? 4) || negb (nz packet 9 =? 6) then false else
  let header := Z.land (nz packet 0) 0x0f * 4 in
  match get packet (header + 13) with
  | Some flags => negb (Z.land (b2z flags) 0x02 =? 0)
  | None => false
  end.

(** ** Rules *)

Definition folder_contains (folder path : list byte) : bool :=
  bool_decide (path = folder)
  || match strip_prefix folder path with Some suffix => starts_with [x5c] suffix | None => false end.

Definition path_matches (path : list byte) (applications folders : list (list byte)) : bool :=
  existsb (λ target, bool_decide (target = path)) applications
  || existsb (λ folder, folder_contains folder path) folders.

Definition hostname_matches (name target : list byte) : bool :=
  match strip_prefix (str "*.") target with
  | None => bool_decide (name = target)
  | Some suffix => bool_decide (name = suffix) || ends_with (x2e :: suffix) name
  end.

(** The key [(!starts_with, len)] as a number: an exact rule beats any wildcard;
    [max_by_key] keeps the last of equals. *)
Definition specificity (rule : list byte) : bool * Z := (negb (starts_with (str "*.") rule), zlen rule).

Definition specific_le (a b : bool * Z) : bool :=
  match a.1, b.1 with
  | false, true => true
  | true, false => false
  | _, _ => a.2 <=? b.2
  end.

Definition most_specific_rule (name : list byte) (rules : list (list byte)) : option (list byte) :=
  foldl (λ best rule,
    match best with
    | None => Some rule
    | Some held => if specific_le (specificity held) (specificity rule) then Some rule else Some held
    end) None (filter (λ rule, hostname_matches name rule = true) rules).

Record TargetNodes := mk_targets {
  target_applications : gmap (list byte) Z;
  target_folders : list (list byte * Z);
  target_hostnames : list (list byte * Z)
}.

Definition no_targets : TargetNodes := mk_targets ∅ [] [].

(** Longest folder first. *)
Definition targets_of (plan : InterceptionPlan) : TargetNodes :=
  mk_targets
    (foldl (λ m path, <[path := node_of plan path]> m) ∅ (application_paths plan))
    (sort_by (λ folder, - zlen folder.1) ((λ folder, (folder, node_of plan folder)) <$> folder_prefixes plan))
    ((λ hostname, (hostname, node_of plan hostname)) <$> hostnames plan).

Definition for_path (t : TargetNodes) (path : list byte) : Z :=
  match target_applications t !! path with
  | Some node => node
  | None =>
      match list_find (λ folder, folder_contains folder.1 path = true) (target_folders t) with
      | Some (_, (_, node)) => node
      | None => 0
      end
  end.

Definition for_rule (t : TargetNodes) (rule : list byte) : option Z :=
  (λ found, found.2.2) <$> list_find (λ hostname, hostname.1 = rule) (target_hostnames t).

Definition for_name (t : TargetNodes) (name : list byte) : option Z :=
  rule ← most_specific_rule name (fst <$> target_hostnames t);
  for_rule t rule.

(** ** Selectors *)

Inductive TrafficSelector : Type :=
| Destination (first last : Z)
| Flow (protocol local_port : Z) (remote_port : option Z).

#[export] Instance TrafficSelector_eq_dec : EqDecision TrafficSelector.
Proof. solve_decision. Defined.

#[export] Program Instance TrafficSelector_countable : Countable TrafficSelector :=
  inj_countable'
    (λ s, match s with Destination f l => inl (f, l) | Flow p lp rp => inr (p, lp, rp) end)
    (λ s, match s with inl (f, l) => Destination f l | inr (p, lp, rp) => Flow p lp rp end) _.
Next Obligation. by intros []. Qed.

(** The plain definition of a match. *)
Definition selector_matches (s : TrafficSelector) (fields : Ipv4Fields) : bool :=
  match s with
  | Destination first last =>
      let destination := be_Z (destination fields) in
      (first <=? destination) && (destination <=? last)
  | Flow p local_port remote_port =>
      (protocol fields =? p) && (source_port fields =? local_port)
      && match remote_port with None => true | Some port => destination_port fields =? port end
  end.

(** [u32::MAX << (32 - prefix)], and [0] of an empty prefix. *)
Definition network_mask (prefix : Z) : Z := if prefix =? 0 then 0 else prefix_mask prefix.

(** A network of a plan is an address and a prefix; the IPv6 ones are left out.
    [is_ipv6] is whether the text reads as an IPv6 address. *)
Fixpoint destination_selectors (plan : InterceptionPlan) (is_ipv6 : list byte → bool)
    (networks : list (list byte)) : run (result (list byte) (list (TrafficSelector * Z))) :=
  match networks with
  | [] => Ret (Ok [])
  | network :: networks' =>
      '(address, prefix) ← unwrap (split_once x2f network);
      match parse_ipv4 address with
      | None =>
          if is_ipv6 address then destination_selectors plan is_ipv6 networks'
          else Ret (Err (str "invalid IP target: " ++ network))
      | Some address =>
          match parse_unsigned u32_max prefix with
          | None => Ret (Err (str "invalid CIDR target: " ++ network))
          | Some prefix =>
              if 32 <? prefix then Panic else
              let mask := network_mask prefix in
              let first := Z.land (be_Z address) mask in
              rest ← destination_selectors plan is_ipv6 networks';
              Ret (match rest with
                   | Ok rest => Ok ((Destination first (Z.lor first (u32_max - mask)), node_of plan network) :: rest)
                   | Err e => Err e
                   end)
          end
      end
  end.

(** ** Layers of ranges *)

(** First and last address, and the node. *)
Notation Layer := (Z * Z * Z)%type.
Definition lo (x : Layer) : Z := x.1.1.
Definition hi (x : Layer) : Z := x.1.2.
Definition held (x : Layer) : Z := x.2.

(** [BTreeMap::insert] and [remove] by the first address. *)
Fixpoint tree_insert (x : Layer) (l : list Layer) : list Layer :=
  match l with
  | [] => [x]
  | y :: l' =>
      if lo x <? lo y then x :: l
      else if lo x =? lo y then x :: l'
      else y :: tree_insert x l'
  end.
Definition tree_remove (first : Z) (l : list Layer) : list Layer := filter (λ y, lo y ≠ first) l.

Fixpoint take_while {A} (p : A → bool) (l : list A) : list A :=
  match l with
  | [] => []
  | x :: l' => if p x then x :: take_while p l' else []
  end.

(** The entries that a range overlaps: the last ones that start at or before its
    end. *)
Definition covered_by (first last : Z) (layered : list Layer) : list Layer :=
  take_while (λ y, first <=? hi y) (rev (filter (λ y, lo y <= last) layered)).

Definition cut (first last : Z) (layered : list Layer) (y : Layer) : list Layer :=
  let layered := tree_remove (lo y) layered in
  let layered := if lo y <? first then tree_insert (lo y, first - 1, held y) layered else layered in
  if last <? hi y then tree_insert (last + 1, hi y, held y) layered else layered.

Definition lay (layered : list Layer) (x : Layer) : list Layer :=
  tree_insert x (foldl (cut (lo x) (hi x)) layered (covered_by (lo x) (hi x) layered)).

Definition merge_layer (merged : list Layer) (x : Layer) : list Layer :=
  match last merged with
  | Some previous =>
      if (held previous =? held x) && (lo x <=? Z.min u32_max (hi previous + 1))
      then removelast merged ++ [(lo previous, Z.max (hi previous) (hi x), held previous)]
      else merged ++ [x]
  | None => merged ++ [x]
  end.

(** Widest first, so that a narrower range is laid over a wider one. *)
Definition layer_destinations (ranges : list Layer) : list Layer :=
  foldl merge_layer [] (foldl lay [] (sort_by (λ x, - (hi x - lo x)) ranges)).

(** ** The table *)

Record Selection := mk_selection {
  application : option (list byte);
  process_id : option Z;
  node : Z
}.

Record FlowOwner := mk_owner {
  endpoint_id : option Z;
  owner_process : Z;
  owner_path : list byte;
  stale_observations : Z
}.

Record SelectorState := mk_state {
  selectors : gmap TrafficSelector (option (list byte));
  flow_owners : gmap TrafficSelector (list FlowOwner);
  destination_nodes : gmap TrafficSelector Z
}.

Record SelectorTable := mk_table {
  destinations : list Layer;
  flows : gmap (Z * Z * option Z) Selection;
  table_len : Z
}.

Definition selection_of (s : SelectorState) (targets : TargetNodes) (selector : TrafficSelector)
    (application : option (list byte)) : Selection :=
  let owner := owners ← flow_owners s !! selector; last owners in
  mk_selection application (owner_process <$> owner)
    (match owner with Some owner => for_path targets (owner_path owner) | None => 0 end).

(** One turn of the loop over the selectors. *)
Definition add_entry (s : SelectorState) (targets : TargetNodes)
    (acc : list Layer * gmap (Z * Z * option Z) Selection) (entry : TrafficSelector * option (list byte))
    : list Layer * gmap (Z * Z * option Z) Selection :=
  let '(selector, application) := entry in
  match selector with
  | Destination first last =>
      (acc.1 ++ [(first, last, default 0 (destination_nodes s !! selector))], acc.2)
  | Flow protocol local_port remote_port =>
      (acc.1, <[(protocol, local_port, remote_port) := selection_of s targets selector application]> acc.2)
  end.

Definition build_state (s : SelectorState) (targets : TargetNodes) : SelectorTable :=
  let '(ranges, flows) := foldl (add_entry s targets) ([], ∅) (map_to_list (selectors s)) in
  mk_table (layer_destinations ranges) flows (zsize (selectors s)).

Definition destination_node (t : SelectorTable) (address : list byte) : option Z :=
  let destination := be_Z address in
  x ← last_before (λ x, lo x <=? destination) (destinations t);
  if destination <=? hi x then Some (held x) else None.

(** The application, the process and the node. *)
Definition lookup (t : SelectorTable) (fields : Ipv4Fields) : option Selection :=
  let destination := destination_node t (destination fields) in
  let flow :=
    match flows t !! (protocol fields, source_port fields, Some (destination_port fields)) with
    | Some flow => Some flow
    | None => flows t !! (protocol fields, source_port fields, None)
    end in
  match flow with
  | Some flow => Some (mk_selection (application flow) (process_id flow) (default (node flow) destination))
  | None => (λ node, mk_selection None None node) <$> destination
  end.

(** ** Laying ranges over each other *)

Definition layer_wf (x : Layer) : Prop := lo x <= hi x.
Definition inside (a : Z) (x : Layer) : Prop := lo x <= a <= hi x.
#[export] Instance inside_dec a x : Decision (inside a x).
Proof. unfold inside. apply _. Defined.

(** The node that a list of layers gives an address. *)
Definition covers (l : list Layer) (a n : Z) : Prop := ∃ x, x ∈ l ∧ inside a x ∧ held x = n.
Definition overlaps (first last : Z) (x : Layer) : Prop := lo x <= last ∧ first <= hi x.

Lemma covers_app l k a n : covers (l ++ k) a n ↔ covers l a n ∨ covers k a n.
Proof. unfold covers. setoid_rewrite elem_of_app. naive_solver. Qed.
Lemma covers_cons x l a n : covers (x :: l) a n ↔ inside a x ∧ held x = n ∨ covers l a n.
Proof. unfold covers. setoid_rewrite elem_of_cons. naive_solver. Qed.
Lemma covers_nil a n : covers [] a n ↔ False.
Proof. unfold covers. setoid_rewrite elem_of_nil. naive_solver. Qed.

Lemma apart_keys l x y : apart lo hi l → x ∈ l → y ∈ l → lo x = lo y → x = y.
Proof.
  intros Hl Hx Hy Heq. destruct Hl as [Hw Hs]. rewrite Forall_forall in Hw.
  eapply (apart_unique lo hi l x y (lo x)); [by split; [apply Forall_forall|]|done|done| |].
  - specialize (Hw x Hx). lia.
  - specialize (Hw y Hy). lia.
Qed.

Lemma apart_filter (P : Layer → Prop) `{!∀ x, Decision (P x)} l : apart lo hi l → apart lo hi (filter P l).
Proof.
  induction l as [|x l IH]; intros Hl; [done|]. apply apart_cons in Hl as (Hx & Hall & Hl).
  rewrite filter_cons. case_decide; [|by apply IH]. apply apart_cons. split_and!; [done| |by apply IH].
  rewrite Forall_forall in *. intros y [_ Hy]%list_elem_of_filter. by apply Hall.
Qed.

Lemma filter_sorted {A} (R : A → A → Prop) (P : A → Prop) `{!∀ x, Decision (P x)} l :
  StronglySorted R l → StronglySorted R (filter P l).
Proof.
  induction 1 as [|x l Hl IH Hall]; [constructor|]. rewrite filter_cons. case_decide; [|done].
  constructor; [done|]. rewrite Forall_forall in *. intros y [_ Hy]%list_elem_of_filter. auto.
Qed.

Lemma tree_insert_spec x l :
  layer_wf x → apart lo hi l → (∀ y, y ∈ l → ¬ overlaps (lo x) (hi x) y) →
  apart lo hi (tree_insert x l) ∧ ∀ y, y ∈ tree_insert x l ↔ y = x ∨ y ∈ l.
Proof.
  intros Hx. induction l as [|z l IH]; intros Hl Hno; cbn [tree_insert].
  - split; [|intros y; rewrite !elem_of_cons; tauto]. apply apart_cons. split_and!; [done|constructor|apply apart_nil].
  - pose proof Hl as (Hz & Hall & Hl')%apart_cons. rewrite Forall_forall in Hall.
    assert (¬ overlaps (lo x) (hi x) z) as Hoz by (apply Hno, list_elem_of_here). unfold overlaps, layer_wf in *.
    destruct (Z.ltb_spec (lo x) (lo z)).
    + split; [|intros y; rewrite !elem_of_cons; tauto]. apply apart_cons. split_and!; [done| |done].
      apply Forall_forall. intros y [->|Hy]%elem_of_cons; [lia|]. apply Hall in Hy. lia.
    + destruct (Z.eqb_spec (lo x) (lo z)); [lia|]. destruct IH as [Ha Hin]; [done| |].
      * intros y Hy. apply Hno. by apply elem_of_cons; right.
      * split; [|intros y; rewrite !elem_of_cons, Hin; tauto]. apply apart_cons. split_and!; [done| |done].
        apply Forall_forall. intros y [->|Hy]%Hin; [lia|by apply Hall].
Qed.

Lemma cut_spec first last l y :
  first <= last → apart lo hi l → y ∈ l → overlaps first last y →
  apart lo hi (cut first last l y) ∧
  ∀ z, z ∈ cut first last l y ↔
    z ∈ l ∧ z ≠ y ∨ lo y < first ∧ z = (lo y, first - 1, held y) ∨ last < hi y ∧ z = (last + 1, hi y, held y).
Proof.
  intros Hfl Hl Hy Ho. unfold cut, overlaps in *.
  assert (∀ z, z ∈ tree_remove (lo y) l ↔ z ∈ l ∧ z ≠ y) as Hr.
  { intros z. unfold tree_remove. rewrite list_elem_of_filter. split; intros [H1 H2].
    - split; [done|]. by intros ->.
    - split; [|done]. intros Heq. apply H2. by apply (apart_keys l). }
  assert (∀ z, z ∈ l → z ≠ y → hi z < lo y ∨ hi y < lo z) as Hapart.
  { intros z Hz Hne. destruct (Z.lt_ge_cases (hi z) (lo y)); [by left|].
    destruct (Z.lt_ge_cases (hi y) (lo z)); [by right|]. exfalso. apply Hne.
    destruct Hl as [Hw Hs]. rewrite Forall_forall in Hw. pose proof (Hw y Hy). pose proof (Hw z Hz).
    apply (apart_unique lo hi l z y (Z.max (lo z) (lo y))); [split; [by apply Forall_forall|done]|done|done|lia|lia]. }
  assert (lo y <= hi y) as Hyw by (destruct Hl as [Hw _]; rewrite Forall_forall in Hw; by apply Hw).
  pose proof (apart_filter (λ z, lo z ≠ lo y) l Hl) as Ha. change (filter _ l) with (tree_remove (lo y) l) in Ha.
  set (l1 := tree_remove (lo y) l) in *. clearbody l1.
  assert (∃ l2, (if lo y <? first then tree_insert (lo y, first - 1, held y) l1 else l1) = l2 ∧ apart lo hi l2 ∧
    ∀ z, z ∈ l2 ↔ z ∈ l ∧ z ≠ y ∨ lo y < first ∧ z = (lo y, first - 1, held y)) as (l2 & -> & Ha2 & Hr2).
  { destruct (Z.ltb_spec (lo y) first).
    - destruct (tree_insert_spec (lo y, first - 1, held y) l1) as [? Hin]; [unfold layer_wf; cbn; lia|done| |].
      + intros z [Hz Hne]%Hr. unfold overlaps. cbn. specialize (Hapart z Hz Hne). lia.
      + eexists. split; [done|]. split; [done|]. intros z. rewrite Hin, Hr. tauto.
    - exists l1. split; [done|]. split; [done|]. intros z. rewrite Hr. split; [tauto|]. intros [?|[? _]]; [done|lia]. }
  destruct (Z.ltb_spec last (hi y)).
  - destruct (tree_insert_spec (last + 1, hi y, held y) l2) as [? Hin]; [unfold layer_wf; cbn; lia|done| |].
    + intros z [[Hz Hne]|[Hlt ->]]%Hr2; unfold overlaps; cbn; [specialize (Hapart z Hz Hne); lia|lia].
    + split; [done|]. intros z. rewrite Hin, Hr2. tauto.
  - split; [done|]. intros z. rewrite Hr2. split; [tauto|]. intros [?|[?|[? _]]]; [tauto|tauto|lia].
Qed.

(** What is left of [y] around a range. *)
Definition piece (first last : Z) (y z : Layer) : Prop :=
  lo y < first ∧ z = (lo y, first - 1, held y) ∨ last < hi y ∧ z = (last + 1, hi y, held y).

Lemma piece_apart first last y z : piece first last y z → ¬ overlaps first last z.
Proof. unfold overlaps. intros [[? ->]|[? ->]]; cbn; lia. Qed.

Lemma cut_all_spec first last cs l :
  first <= last → apart lo hi l → NoDup cs → (∀ y, y ∈ cs → y ∈ l ∧ overlaps first last y) →
  apart lo hi (foldl (cut first last) l cs) ∧
  ∀ z, z ∈ foldl (cut first last) l cs ↔ z ∈ l ∧ z ∉ cs ∨ ∃ y, y ∈ cs ∧ piece first last y z.
Proof.
  intros Hfl. revert l. induction cs as [|y cs IH]; intros l Hl Hnd Hcs; cbn [foldl].
  - split; [done|]. intros z. rewrite elem_of_nil. setoid_rewrite elem_of_nil. split; [tauto|].
    intros [[? _]|(? & [] & _)]; done.
  - apply NoDup_cons in Hnd as [Hy Hnd]. destruct (Hcs y) as [Hyl Ho]; [apply list_elem_of_here|].
    destruct (cut_spec first last l y) as [Ha Hin]; try done. destruct (IH (cut first last l y)) as [Ha' Hin']; try done.
    + intros y' Hy'. destruct (Hcs y') as [? ?]; [by apply elem_of_cons; right|]. split; [|done].
      apply Hin. left. split; [done|]. by intros ->.
    + split; [done|]. intros z. rewrite Hin', Hin. setoid_rewrite elem_of_cons.
      assert (z ∈ cs → ¬ piece first last y z) as Hno.
      { intros Hz Hp. apply (piece_apart _ _ _ _ Hp). apply Hcs. by apply elem_of_cons; right. }
      change (lo y < first ∧ z = (lo y, first - 1, held y) ∨ last < hi y ∧ z = (last + 1, hi y, held y)) with (piece first last y z).
      split.
      * intros [[[[? ?]|Hp] Hn]|(y' & ? & ?)]; [left; tauto|right; exists y; tauto|right; exists y'; tauto].
      * intros [[? Hn]|(y' & [->|?] & Hp)].
        -- left. split; [|tauto]. left. tauto.
        -- left. split; [by right|]. intros ?. by apply Hno.
        -- right. by exists y'.
Qed.

Lemma covered_by_spec first last l :
  apart lo hi l → NoDup (covered_by first last l) ∧
  ∀ y, y ∈ covered_by first last l ↔ y ∈ l ∧ overlaps first last y.
Proof.
  unfold covered_by. induction l as [|z l IH] using rev_ind; intros Hl; cbn [filter].
  - split; [constructor|]. intros y. cbn. rewrite elem_of_nil. tauto.
  - apply apart_app in Hl as (Hl & Hz & Hlt). destruct (IH Hl) as [Hnd Hin]. apply apart_cons in Hz as (Hz & _ & _).
    assert (∀ x, x ∈ l → hi x < lo z) as Hlt' by (intros x Hx; apply Hlt; [done|apply list_elem_of_here]).
    assert (z ∉ l) as Hzl by (intros Hzl; specialize (Hlt' z Hzl); lia).
    assert (∀ x, x ∈ l → lo x <= hi x) as Hw by (destruct Hl as [Hw _]; by rewrite Forall_forall in Hw).
    rewrite filter_app, filter_cons. unfold overlaps in *. setoid_rewrite elem_of_app. setoid_rewrite list_elem_of_singleton.
    case_decide as Hlz; cbn [filter list_filter].
    + rewrite rev_app_distr. cbn [rev app take_while]. destruct (Z.leb_spec first (hi z)).
      * split; [constructor; [rewrite Hin; tauto|done]|]. intros y. rewrite elem_of_cons, Hin. split; [intros [->|?]; tauto|].
        intros [[?| ->] ?]; tauto.
      * split; [constructor|]. intros y. rewrite elem_of_nil. split; [done|].
        intros [[Hy| ->] [? ?]]; [|lia]. specialize (Hlt' y Hy). lia.
    + rewrite app_nil_r. split; [done|]. intros y. rewrite Hin. split; [tauto|]. intros [[?| ->] ?]; [tauto|lia].
Qed.

(** A range laid over others hides what they say of its addresses. *)
Lemma lay_spec l x :
  layer_wf x → apart lo hi l →
  apart lo hi (lay l x) ∧ ∀ a n, covers (lay l x) a n ↔ inside a x ∧ held x = n ∨ ¬ inside a x ∧ covers l a n.
Proof.
  intros Hx Hl. unfold lay. destruct (covered_by_spec (lo x) (hi x) l Hl) as [Hnd Hcov].
  destruct (cut_all_spec (lo x) (hi x) _ l Hx Hl Hnd) as [Ha Hin]; [intros y; apply Hcov|].
  set (l1 := foldl _ _ _) in *. clearbody l1. destruct (tree_insert_spec x l1) as [Ha' Hin']; [done|done| |].
  - intros y [[Hy Hn]|(z & _ & Hp)]%Hin; [|by eapply piece_apart]. intros Ho. apply Hn. by apply Hcov.
  - split; [done|]. intros a n. assert (covers l1 a n ↔ ¬ inside a x ∧ covers l a n) as Hc.
    + unfold covers. setoid_rewrite Hin. split.
      * intros (z & [[Hz Hn]|(y & Hy & Hp)] & Ha0 & Hheld).
        -- split; [|by exists z]. intros Hax. apply Hn, Hcov. split; [done|]. unfold inside, overlaps in *. lia.
        -- apply Hcov in Hy as [Hy Ho]. unfold inside, piece, overlaps in *.
           split; [destruct Hp as [[? ->]|[? ->]]; cbn in *; lia|]. exists y. split; [done|].
           destruct Hp as [[? ->]|[? ->]]; cbn in *; lia.
      * intros (Hax & y & Hy & Hay & Hheld). destruct (decide (y ∈ covered_by (lo x) (hi x) l)) as [Hc|Hc].
        -- unfold inside in *. destruct (Z.lt_ge_cases a (lo x)).
           ++ exists (lo y, lo x - 1, held y). split; [|unfold layer_wf in *; cbn; lia]. right. exists y. split; [done|].
              left. split; [lia|done].
           ++ exists (hi x + 1, hi y, held y). split; [|unfold layer_wf in *; cbn; lia]. right. exists y. split; [done|].
              right. split; [lia|done].
        -- exists y. tauto.
    + unfold covers at 1. setoid_rewrite Hin'. rewrite <-Hc. unfold covers. split.
      * intros (z & [->|?] & ? & ?); [by left|right; by exists z].
      * intros [[? ?]|(z & ? & ? & ?)]; [exists x; tauto|exists z; tauto].
Qed.

(** Joining neighbours on the same node changes nothing. *)
Lemma merge_layers_spec m l :
  apart lo hi (m ++ l) →
  apart lo hi (foldl merge_layer m l) ∧ ∀ a n, covers (foldl merge_layer m l) a n ↔ covers (m ++ l) a n.
Proof.
  revert m. induction l as [|x l IH]; intros m Hl; cbn [foldl]; [by rewrite app_nil_r in *|].
  assert (∀ m', m ++ [x] ++ l = m' ++ l → apart lo hi (foldl merge_layer m' l)
    ∧ ∀ a n, covers (foldl merge_layer m' l) a n ↔ covers (m ++ x :: l) a n) as Hpush.
  { intros m' Hm. cbn in Hm. rewrite Hm in *. by apply IH. }
  unfold merge_layer at 2 4. destruct (last m) as [p|] eqn:Hp; [|apply Hpush; by rewrite <-app_assoc].
  destruct (Z.eqb_spec (held p) (held x)) as [Hh|]; [|cbn [andb]; apply Hpush; by rewrite <-app_assoc].
  destruct (Z.leb_spec (lo x) (Z.min u32_max (hi p + 1))) as [Hle|]; [|cbn [andb]; apply Hpush; by rewrite <-app_assoc]. clear Hpush. cbn [andb].
  apply last_Some in Hp as [m' ->]. rewrite removelast_last.
  assert (hi p < lo x ∧ lo p <= hi p ∧ lo x <= hi x ∧ hi p < lo x) as (Hpx & Hpw & Hxw & _).
  { rewrite <-app_assoc in Hl. apply apart_app in Hl as (_ & Hl & _). cbn in Hl.
    apply apart_cons in Hl as (? & Hall & Hl). apply apart_cons in Hl as (? & _ & _). apply Forall_cons in Hall as [? _]. lia. }
  assert (lo x = hi p + 1) as Hadj by lia. rewrite Z.max_r by lia. set (q := (lo p, hi x, held p) : Layer).
  destruct (IH (m' ++ [q])) as [Ha Hc].
  - rewrite <-!app_assoc in *. cbn [app] in *. rewrite !apart_app, !apart_cons in *.
    destruct Hl as (? & (? & Hpl & _ & Hxl & ?) & Hmp). split_and!; try done; [cbn; lia|].
    intros y z Hy [->|Hz]%elem_of_cons; [apply (Hmp y p); [done|apply list_elem_of_here]|].
    apply Hmp; [done|]. apply elem_of_cons. right. by apply elem_of_cons; right.
  - split; [done|]. intros a n. rewrite Hc, <-!app_assoc. cbn [app]. rewrite !covers_app, !covers_cons.
    assert (inside a q ∧ held q = n ↔ inside a p ∧ held p = n ∨ inside a x ∧ held x = n); [|tauto].
    unfold inside, q. cbn [lo hi held fst snd]. unfold lo, hi, held in *. cbn [fst snd]. lia.
Qed.

(** The node of an address is that of the last range laid over it. *)
Lemma lay_all_spec l :
  Forall layer_wf l →
  apart lo hi (foldl lay [] l) ∧
  ∀ a n, covers (foldl lay [] l) a n ↔ held <$> last (filter (inside a) l) = Some n.
Proof.
  induction l as [|x l IH] using rev_ind; intros Hw; cbn [foldl].
  - split; [apply apart_nil|]. intros a n. rewrite covers_nil. done.
  - apply Forall_app in Hw as [Hw Hx]. rewrite Forall_singleton in Hx. destruct (IH Hw) as [Ha Hc].
    rewrite foldl_snoc. destruct (lay_spec _ x Hx Ha) as [Ha' Hc']. split; [done|]. intros a n.
    rewrite Hc', Hc, filter_app, filter_cons. case_decide; cbn [filter list_filter].
    + rewrite last_snoc. cbn. split; [intros [[_ ->]|[? _]]; done|]. intros [= ->]. by left.
    + rewrite app_nil_r. tauto.
Qed.

Lemma layers_spec ranges :
  Forall layer_wf ranges →
  apart lo hi (layer_destinations ranges) ∧
  ∀ a n, covers (layer_destinations ranges) a n ↔
    held <$> last (filter (inside a) (sort_by (λ x, - (hi x - lo x)) ranges)) = Some n.
Proof.
  intros Hw. unfold layer_destinations. destruct (lay_all_spec (sort_by (λ x, - (hi x - lo x)) ranges)) as [Ha Hc].
  - by rewrite sort_by_perm.
  - destruct (merge_layers_spec [] _ Ha) as [Ha' Hc']. split; [done|]. intros a n. rewrite Hc'. apply Hc.
Qed.

(** ** What the table answers *)

Section table.
Context (s : SelectorState) (targets : TargetNodes).

Definition range_node (first last : Z) : Z := default 0 (destination_nodes s !! Destination first last).

Lemma add_entries_spec l :
  NoDup l.*1 →
  (∀ x, x ∈ (foldl (add_entry s targets) ([], ∅) l).1 ↔
     Destination (lo x) (hi x) ∈ l.*1 ∧ held x = range_node (lo x) (hi x)) ∧
  ∀ p lp rp v, (foldl (add_entry s targets) ([], ∅) l).2 !! (p, lp, rp) = Some v ↔
     ∃ a, (Flow p lp rp, a) ∈ l ∧ v = selection_of s targets (Flow p lp rp) a.
Proof.
  induction l as [|[sel a] l IH] using rev_ind; intros Hnd.
  - cbn. setoid_rewrite elem_of_nil. split; [tauto|]. intros *. rewrite lookup_empty. split; [done|]. by intros (? & [] & _).
  - rewrite fmap_app in *. cbn [fmap list_fmap fst] in *. apply NoDup_app in Hnd as (Hnd & Hsel & _).
    destruct (IH Hnd) as [Hr Hf]. rewrite foldl_snoc. destruct (foldl _ _ l) as [ranges fl]. cbn [fst snd] in Hr, Hf.
    setoid_rewrite elem_of_app. setoid_rewrite list_elem_of_singleton. destruct sel as [first last|p0 lp0 rp0]; cbn [add_entry fst snd].
    + setoid_rewrite elem_of_app. setoid_rewrite list_elem_of_singleton. split.
      * intros x. rewrite Hr. unfold range_node. split; [intros [?| ->]; cbn; tauto|].
        intros [[?|[= <- <-]] He]; [by left|right]. destruct x as [[f l'] n]. cbn in *. by subst.
      * intros *. rewrite Hf. split; [intros (b & ? & ?); exists b; tauto|]. intros (b & [?|[= ]] & ?). by exists b.
    + split.
      * intros x. rewrite Hr. split; [tauto|]. intros [[?|[= ]] ?]. done.
      * intros *. rewrite lookup_insert_Some, Hf. split.
        -- intros [[[= -> -> ->] <-]|[Hne (b & ? & ?)]]; [exists a; tauto|exists b; tauto].
        -- intros (b & [Hb|[= -> -> -> ->]] & ->); [|by left]. right. split; [|by exists b].
           intros [= -> -> ->]. apply (Hsel (Flow p lp rp)); [by apply (list_elem_of_fmap_2 fst) in Hb|apply list_elem_of_here].
Qed.

(** The state's ranges are in order: the code builds each from a network. *)
Definition ranges_wf : Prop := ∀ first last, is_Some (selectors s !! Destination first last) → first <= last.

Definition table_flow (fields : Ipv4Fields) (remote_port : option Z) : option Selection :=
  let selector := Flow (protocol fields) (source_port fields) remote_port in
  selection_of s targets selector <$> selectors s !! selector.

Lemma build_flows p lp rp :
  flows (build_state s targets) !! (p, lp, rp) = selection_of s targets (Flow p lp rp) <$> selectors s !! Flow p lp rp.
Proof.
  unfold build_state. destruct (add_entries_spec (map_to_list (selectors s))) as [_ Hf]; [apply NoDup_fst_map_to_list|].
  destruct (foldl _ _ _) as [ranges fl]. cbn [flows snd] in *. apply option_eq. intros v. rewrite Hf.
  setoid_rewrite elem_of_map_to_list. rewrite fmap_Some. naive_solver.
Qed.

Lemma build_destinations :
  ranges_wf → ∃ ranges, destinations (build_state s targets) = layer_destinations ranges ∧ Forall layer_wf ranges ∧
  ∀ x, x ∈ ranges ↔ is_Some (selectors s !! Destination (lo x) (hi x)) ∧ held x = range_node (lo x) (hi x).
Proof.
  intros Hwf. unfold build_state.
  destruct (add_entries_spec (map_to_list (selectors s))) as [Hr _]; [apply NoDup_fst_map_to_list|].
  destruct (foldl _ _ _) as [ranges fl]. cbn [fst] in *. exists ranges. split; [done|].
  assert (∀ x, x ∈ ranges ↔ is_Some (selectors s !! Destination (lo x) (hi x)) ∧ held x = range_node (lo x) (hi x)) as Hx.
  { intros x. rewrite Hr, list_elem_of_fmap. split.
    - intros [([sel a] & Heq & Hin) ?]. cbn in Heq. subst sel. apply elem_of_map_to_list in Hin. by rewrite Hin.
    - intros [[a Ha] ?]. split; [|done]. exists (Destination (lo x) (hi x), a). split; [done|]. by apply elem_of_map_to_list. }
  split; [|done]. apply Forall_forall. intros x [Hs _]%Hx. by apply Hwf.
Qed.

(** The node of an address: that of a narrowest range that holds it. *)
Lemma destination_node_spec address :
  ranges_wf →
  let holds first last := is_Some (selectors s !! Destination first last) ∧ first <= be_Z address <= last in
  match destination_node (build_state s targets) address with
  | Some node => ∃ first last, holds first last ∧ node = range_node first last ∧
      ∀ first' last', holds first' last' → last - first <= last' - first'
  | None => ∀ first last, ¬ holds first last
  end.
Proof.
  intros Hwf holds. set (a := be_Z address). destruct (build_destinations Hwf) as (ranges & Hd & Hw & Hin).
  destruct (layers_spec ranges Hw) as [Ha Hc].
  assert (destination_node (build_state s targets) address = held <$> range_of lo hi (layer_destinations ranges) a) as ->.
  { unfold destination_node, range_of. rewrite Hd. fold a. cbn. destruct (last_before _ _) as [x|]; [|done].
    cbn. by case_match. }
  set (key := λ x, - (hi x - lo x)) in *. pose proof (sort_by_sorted key ranges) as Hsorted.
  assert (∀ x, x ∈ sort_by key ranges ↔ x ∈ ranges) as Hp by (intros x; by rewrite sort_by_perm).
  destruct (range_of lo hi _ a) as [x|] eqn:Hx; cbn [fmap option_fmap option_map].
  - apply range_of_spec in Hx as [Hx Hax]; [|done].
    assert (held <$> last (filter (inside a) (sort_by key ranges)) = Some (held x)) as (y & Hy & Hyx)%fmap_Some
      by (apply Hc; by exists x).
    apply last_Some in Hy as [k Hk].
    assert (y ∈ filter (inside a) (sort_by key ranges)) as [Hay Hyr]%list_elem_of_filter
      by (rewrite Hk; apply elem_of_app; right; apply list_elem_of_here).
    apply Hp, Hin in Hyr as [Hys Hyn]. exists (lo y), (hi y). split; [by split|]. split; [congruence|].
    intros f l [Hs Hfl]. set (z := (f, l, range_node f l) : Layer).
    assert (z ∈ filter (inside a) (sort_by key ranges)) as Hz by (apply list_elem_of_filter; split; [done|]; apply Hp, Hin; by split).
    assert (StronglySorted (λ x y, key x <= key y) (filter (inside a) (sort_by key ranges))) as Hsf
      by (by apply filter_sorted).
    rewrite Hk in Hz, Hsf. apply elem_of_app in Hz as [Hz|Hz%list_elem_of_singleton]; [|rewrite <-Hz; cbn; lia].
    enough (key z <= key y) by (unfold key, z in *; cbn in *; lia).
    apply StronglySorted_app in Hsf as (Hsf & _ & _). apply Hsf; [done|apply list_elem_of_here].
  - intros f l [Hs Hfl]. set (z := (f, l, range_node f l) : Layer).
    assert (z ∈ filter (inside a) (sort_by key ranges)) as Hz by (apply list_elem_of_filter; split; [done|]; apply Hp, Hin; by split).
    destruct (last (filter (inside a) (sort_by key ranges))) as [y|] eqn:Hy.
    + destruct (proj2 (Hc a (held y))) as (w & Hw1 & Hw2 & _); [by rewrite Hy|].
      assert (range_of lo hi (layer_destinations ranges) a = Some w) by (by apply range_of_spec). congruence.
    + apply last_None in Hy. rewrite Hy in Hz. by apply elem_of_nil in Hz.
Qed.

End table.

(** The flow selector of a packet: the one of its remote port before the one of any. *)
Definition flow_of (s : SelectorState) (targets : TargetNodes) (fields : Ipv4Fields) : option Selection :=
  match table_flow s targets fields (Some (destination_port fields)) with
  | Some flow => Some flow
  | None => table_flow s targets fields None
  end.

Lemma table_flow_some s targets fields rp :
  is_Some (table_flow s targets fields rp) ↔ is_Some (selectors s !! Flow (protocol fields) (source_port fields) rp).
Proof. unfold table_flow. by rewrite fmap_is_Some. Qed.

Lemma flow_of_some s targets fields :
  is_Some (flow_of s targets fields) ↔
  ∃ rp, is_Some (selectors s !! Flow (protocol fields) (source_port fields) rp) ∧
    selector_matches (Flow (protocol fields) (source_port fields) rp) fields = true.
Proof.
  unfold flow_of, selector_matches. rewrite !Z.eqb_refl. cbn [andb]. split.
  - destruct (table_flow s targets fields (Some _)) eqn:E; intros H.
    + exists (Some (destination_port fields)). split; [by eapply table_flow_some; rewrite E|apply Z.eqb_refl].
    + exists None. split; [by eapply table_flow_some|done].
  - intros ([port|] & Hs & Hm).
    + apply Z.eqb_eq in Hm as <-. apply (table_flow_some s targets) in Hs. by destruct (table_flow _ _ _ (Some _)).
    + apply (table_flow_some s targets) in Hs. by case_match.
Qed.

Lemma selector_matches_cases s fields :
  (∃ selector, is_Some (selectors s !! selector) ∧ selector_matches selector fields = true) ↔
  (∃ first last, is_Some (selectors s !! Destination first last) ∧ first <= be_Z (destination fields) <= last) ∨
  ∃ rp, is_Some (selectors s !! Flow (protocol fields) (source_port fields) rp) ∧
    selector_matches (Flow (protocol fields) (source_port fields) rp) fields = true.
Proof.
  split.
  - intros ([first last|p lp rp] & Hs & Hm).
    + left. exists first, last. split; [done|]. cbn in Hm. b2p. lia.
    + right. exists rp. pose proof Hm as Hm'. cbn in Hm'. b2p. subst. by split.
  - intros [(first & last & Hs & Hm)|(rp & Hs & Hm)]; [|by eexists].
    exists (Destination first last). split; [done|]. cbn. apply andb_true_iff. rewrite !Z.leb_le. lia.
Qed.

(** C34. A packet is selected if and only if some selector matches it by the plain
    definition; the application and the process are those of its flow, the exact
    one before the one of any remote port; and the node is that of a narrowest
    range that holds its destination, or the flow's when none does. *)
Theorem the_narrowest_rule_decides s targets fields :
  ranges_wf s →
  let found := lookup (build_state s targets) fields in
  let holds first last :=
    is_Some (selectors s !! Destination first last) ∧ first <= be_Z (destination fields) <= last in
  (is_Some found ↔
     ∃ selector, is_Some (selectors s !! selector) ∧ selector_matches selector fields = true) ∧
  match found with
  | None => True
  | Some selection =>
      application selection = (flow_of s targets fields ≫= application) ∧
      process_id selection = (flow_of s targets fields ≫= process_id) ∧
      ((∃ first last, holds first last ∧ node selection = range_node s first last ∧
          ∀ first' last', holds first' last' → last - first <= last' - first')
       ∨ (∀ first last, ¬ holds first last) ∧ Some (node selection) = node <$> flow_of s targets fields)
  end.
Proof.
  intros Hwf found holds. pose proof (destination_node_spec s targets (destination fields) Hwf) as Hd.
  fold holds in Hd. rewrite selector_matches_cases, <-(flow_of_some s targets). fold holds.
  subst found. unfold lookup. rewrite !build_flows.
  change (match selection_of s targets _ <$> _ with Some flow => Some flow | None => _ end) with (flow_of s targets fields).
  destruct (destination_node _ _) as [n|].
  - destruct Hd as (f & l & Hh & -> & Hmin). destruct (flow_of s targets fields) as [flow|]; cbn.
    + split; [split; [by right|done]|]. split_and!; try done. left. by exists f, l.
    + split; [split; [left; by exists f, l|done]|]. split_and!; try done. left. by exists f, l.
  - destruct (flow_of s targets fields) as [flow|]; cbn.
    + split; [split; [by right|done]|]. split_and!; try done. right. by split.
    + split; [|done]. split; [by intros []|]. intros [(f & l & Hh)|[? ?]]; [by destruct (Hd f l)|done].
Qed.

(** A website's address inside an IP rule's network is carried by its own node. *)
Definition two_rules : SelectorState :=
  mk_state {[ Destination 0x0a000000 0x0affffff := None; Destination 0x0a000001 0x0a000001 := None ]} ∅
    {[ Destination 0x0a000000 0x0affffff := 1; Destination 0x0a000001 0x0a000001 := 2 ]}.
Definition to_the_site : Ipv4Fields :=
  mk_fields [x7f; x00; x00; x01] [x0a; x00; x00; x01] 6 1000 443.

Definition in_order (k : TrafficSelector) : Prop := match k with Destination f l => f <= l | Flow _ _ _ => True end.
#[export] Instance in_order_dec k : Decision (in_order k).
Proof. destruct k; apply _. Defined.

Lemma the_narrowest_rule_decides_witness :
  lookup (build_state two_rules no_targets) to_the_site = Some (mk_selection None None 2) ∧
  is_Some (lookup (build_state two_rules no_targets) to_the_site).
Proof.
  assert (ranges_wf two_rules) as Hwf.
  { assert (map_Forall (λ k _, in_order k) (selectors two_rules)) as Hall by (eapply bool_decide_unpack; by vm_compute).
    intros f l [x Hx]. exact (Hall _ _ Hx). }
  assert (is_Some (selectors two_rules !! Destination 0x0a000001 0x0a000001)) as Hs by (exists None; by vm_compute).
  split; [by vm_compute|].
  destruct (the_narrowest_rule_decides two_rules no_targets to_the_site Hwf) as [[_ Hfound] _].
  apply Hfound. exists (Destination 0x0a000001 0x0a000001). split; [exact Hs|by vm_compute].
Defined.
