(* ===== verification/PolicyTheorems.v ===== *)
(** * PolicyTheorems: what a compiled plan captures, and for which node

    The plan of [Policy] against a rule-by-rule reference, its normal forms, and the
    selectors that the capture ([SplitTable]) builds from it. *)
From S2P Require Import Prelude Text Ranges DirectList SplitTable Policy.

Section plans.
Context `{!Platform}.

(** ** The reference: one rule at a time *)

Inductive TargetKind : Type := Application | Folder | Hostname | Network.
#[local] Instance TargetKind_eq_dec : EqDecision TargetKind.
Proof. solve_decision. Defined.

Definition ok {A} (r : result (list byte) A) : option A := match r with Ok a => Some a | Err _ => None end.

(** What a rule names, if it names anything. *)
Definition target_of (rule : RuleSpec) : option (TargetKind * list byte) :=
  let v := trim (value rule) in
  if bool_decide (v = []) then None
  else if bool_decide (kind rule = str "application") then
    guard (is_absolute v = true);;
    e ← extension v;
    guard (eq_ignore_ascii_case e (str "exe") = true);;
    Some (Application, normalize_windows_path v)
  else if bool_decide (kind rule = str "folder") then
    guard (is_absolute v = true);; Some (Folder, trim_end_matches x5c (normalize_windows_path v))
  else if bool_decide (kind rule = str "hostname") then
    h ← ok (normalize_hostname v); Some (Hostname, h)
  else if bool_decide (kind rule = str "ip") then
    n ← ok (normalize_ip_network v); Some (Network, n)
  else None.

Definition pick (k : TargetKind) (rule : RuleSpec) : option (list byte) :=
  '(k', t) ← target_of rule; if decide (k = k') then Some t else None.

(** The node of the last rule that names [t]. *)
Definition node_after (t : list byte) (rules : list RuleSpec) (n : Z) : Z :=
  foldl (λ n rule, match target_of rule with
                   | Some (_, t') => if decide (t' = t) then node rule else n
                   | None => n
                   end) n rules.

Definition push (k : TargetKind) : InterceptionPlan → list byte → InterceptionPlan :=
  match k with
  | Application => push_application
  | Folder => push_folder
  | Hostname => push_hostname
  | Network => push_network
  end.

Definition targets (k : TargetKind) (plan : InterceptionPlan) : list (list byte) :=
  match k with
  | Application => application_paths plan
  | Folder => folder_prefixes plan
  | Hostname => hostnames plan
  | Network => ip_networks plan
  end.

Lemma compile_rule_spec plan rule :
  match target_of rule with
  | Some (k, t) => compile_rule plan rule = Ok (assign_node (push k plan t) t (node rule))
  | None => ∃ e, compile_rule plan rule = Err e
  end.
Proof.
  unfold target_of, compile_rule, add_target.
  destruct (bool_decide (trim (value rule) = [])); [by eexists|].
  repeat case_bool_decide; cbn [mbind option_bind ok].
  - destruct (is_absolute _); cbn; [|by eexists]. destruct (extension _) as [e|]; cbn; [|by eexists].
    destruct (eq_ignore_ascii_case e _); cbn; [done|by eexists].
  - destruct (is_absolute _); cbn; [done|by eexists].
  - destruct (normalize_hostname _); cbn; [done|by eexists].
  - destruct (normalize_ip_network _); cbn; [done|by eexists].
  - by eexists.
Qed.

Lemma targets_push k plan t k' n :
  targets k' (assign_node (push k plan t) t n) = targets k' plan ++ (if decide (k' = k) then [t] else []).
Proof. destruct k, k'; cbn; rewrite ?app_nil_r; done. Qed.

Lemma node_of_push k plan t n t' :
  node_of (assign_node (push k plan t) t n) t' = if decide (t = t') then n else node_of plan t'.
Proof.
  assert (nodes (push k plan t) = nodes plan) as E by by destruct k.
  unfold node_of, assign_node. cbn [nodes]. rewrite E. destruct (Z.eqb_spec n 0) as [->|Hn].
  - destruct (decide (t = t')) as [->|]; [by rewrite lookup_delete_eq|by rewrite lookup_delete_ne].
  - destruct (decide (t = t')) as [->|]; [by rewrite lookup_insert_eq|by rewrite lookup_insert_ne].
Qed.

(** Everything of a plan but its targets and their nodes. *)
Definition frame_of (plan : InterceptionPlan) := (mode plan, backend plan, protocols plan).

Lemma compile_rules_spec rules plan :
  (Forall (λ rule, is_Some (target_of rule)) rules ∧
   ∃ plan', compile_rules plan rules = Ok plan' ∧ frame_of plan' = frame_of plan ∧
     (∀ k, targets k plan' = targets k plan ++ omap (pick k) rules) ∧
     (∀ t, node_of plan' t = node_after t rules (node_of plan t)) ∧
     (map_Forall (λ _ n, n ≠ 0) (nodes plan) → map_Forall (λ _ n, n ≠ 0) (nodes plan')))
  ∨ (¬ Forall (λ rule, is_Some (target_of rule)) rules ∧ ∃ e, compile_rules plan rules = Err e).
Proof.
  revert plan. induction rules as [|rule rules IH]; intros plan.
  { left. split; [done|]. exists plan. split_and!; try done. intros k. by rewrite app_nil_r. }
  cbn [compile_rules]. pose proof (compile_rule_spec plan rule) as Hrule.
  rewrite Forall_cons. cbn [omap list_omap node_after foldl]. unfold pick at 1.
  destruct (target_of rule) as [[k t]|] eqn:Et.
  - rewrite Hrule. set (plan1 := assign_node _ _ _).
    destruct (IH plan1) as [(Hall & plan' & Hc & Hf & Ht & Hn & Hz)|(Hno & e & He)].
    + left. split; [by split|]. exists plan'. split_and!; [done| | | |].
      * rewrite Hf. by destruct k.
      * intros k'. rewrite Ht. unfold plan1. rewrite targets_push, <-app_assoc. f_equal. cbn.
        by case_decide.
      * intros t'. rewrite Hn. unfold plan1. rewrite node_of_push. done.
      * intros Hnz. apply Hz. unfold plan1, assign_node. cbn [nodes].
        assert (nodes (push k plan t) = nodes plan) as -> by by destruct k.
        destruct (Z.eqb_spec (node rule) 0); [by apply map_Forall_delete|by apply map_Forall_insert_2].
    + right. split; [tauto|by exists e].
  - destruct Hrule as [e ->]. right. split; [|by exists e]. intros [[? ?] _]. congruence.
Qed.

(** A split session's plan is made of its rules one at a time: it compiles exactly
    when there is a rule and every rule names a target, each list then holds what
    the rules of its kind name, in their order, and a target's node is that of the
    last rule that names it; only nodes other than the default are kept. *)
Theorem compile_is_rule_by_rule rules :
  let valid := rules ≠ [] ∧ Forall (λ rule, is_Some (target_of rule)) rules in
  (valid ∧ ∃ plan, compile (str "split") rules = Ok plan
     ∧ application_paths plan = omap (pick Application) rules
     ∧ folder_prefixes plan = omap (pick Folder) rules
     ∧ hostnames plan = omap (pick Hostname) rules
     ∧ ip_networks plan = omap (pick Network) rules
     ∧ (∀ t, node_of plan t = node_after t rules 0)
     ∧ map_Forall (λ _ n, n ≠ 0) (nodes plan))
  ∨ (¬ valid ∧ ∃ e, compile (str "split") rules = Err e).
Proof.
  intros valid. unfold compile. cbn [bool_decide decide_rel].
  rewrite bool_decide_eq_false_2, bool_decide_eq_true_2 by done. cbn [negb].
  case_bool_decide as Hr; [right; split; [by intros [? _]|by eexists]|].
  destruct (compile_rules_spec rules (new_plan (str "split") (str "wfp")))
    as [(Hall & plan & Hc & _ & Ht & Hn & Hz)|(Hno & e & He)].
  - left. split; [by split|]. exists plan. split; [done|].
    pose proof (Ht Application). pose proof (Ht Folder). pose proof (Ht Hostname). pose proof (Ht Network).
    split_and!; [done..| |by apply Hz]. intros t. by rewrite Hn.
  - right. split; [by intros [_ ?]|by exists e].
Qed.
End plans.

(** ** Networks *)

Section networks.
Context `{!Platform} `{!PlatformLaws}.

Definition is_ipv6 (t : list byte) : bool := bool_decide (is_Some (parse_ipv6 t)).

(** An IPv4 network as a rule writes it: four octets, alone or with a prefix. *)
Definition names_cidr (v octets : list byte) (prefix : Z) : Prop :=
  0 <= prefix <= 32 ∧
  (split_once x2f v = None ∧ parse_ipv4 v = Some octets ∧ prefix = 32 ∨
   ∃ address digits, split_once x2f v = Some (address, digits) ∧
     parse_ipv4 address = Some octets ∧ parse_u8 digits = Some prefix).

Definition cidr (octets : list byte) (prefix : Z) : list byte := dotted octets ++ x2f :: decimal prefix.

Lemma normalize_cidr v octets prefix :
  names_cidr v octets prefix → normalize_ip_network v = Ok (cidr octets prefix).
Proof.
  intros [Hp [(Hs & Ha & ->)|(address & digits & Hs & Ha & Hd)]]; unfold normalize_ip_network, parse_ip;
    rewrite Hs, Ha; [done|]. rewrite Hd. cbn [max_prefix]. by rewrite (proj2 (Z.ltb_ge _ _)) by lia.
Qed.

Lemma normalize_shape v n :
  normalize_ip_network v = Ok n →
  ∃ a p t, parse_ip t = Some a ∧ n = print_ip a ++ x2f :: decimal p ∧ 0 <= p <= max_prefix a ∧
    (split_once x2f v = None ∧ t = v ∧ p = max_prefix a
     ∨ ∃ digits, split_once x2f v = Some (t, digits) ∧ parse_u8 digits = Some p).
Proof.
  unfold normalize_ip_network. destruct (split_once x2f v) as [[address digits]|].
  - destruct (parse_ip address) as [a|] eqn:Ea; [|done]. destruct (parse_u8 digits) as [p|] eqn:Ep; [|done].
    destruct (Z.ltb_spec (max_prefix a) p); [done|]. intros [= <-]. exists a, p, address.
    pose proof (parse_unsigned_nonneg _ _ _ Ep). split_and!; [done..| |]; [lia|]. right. by exists digits.
  - destruct (parse_ip v) as [a|] eqn:Ea; [|done]. rewrite Z.ltb_irrefl.
    intros [= <-]. exists a, (max_prefix a), v. split_and!; [done..|by destruct a|lia|by left].
Qed.

Lemma normalize_network_inv v n :
  normalize_ip_network v = Ok n →
  (∃ octets prefix, names_cidr v octets prefix ∧ n = cidr octets prefix)
  ∨ (∃ octets prefix t, parse_ipv6 t = Some octets ∧ n = print_ipv6 octets ++ x2f :: decimal prefix).
Proof.
  intros (a & p & t & Ha & -> & Hp & Hs)%normalize_shape.
  unfold parse_ip in Ha. destruct (parse_ipv4 t) as [o|] eqn:E4.
  - injection Ha as <-. left. exists o, p. cbn [max_prefix] in *. split; [split; [done|]|done].
    destruct Hs as [(Hs & -> & ->)|(digits & Hs & Hd)]; [by left|right; by exists t, digits].
  - destruct (parse_ipv6 t) as [o|] eqn:E6; cbn in Ha; [|done]. injection Ha as <-.
    right. by exists o, p, t.
Qed.

Lemma text_graphic l : Forall (λ b, graphic b = true ∧ b ≠ x2f) l → Forall (λ b, graphic b = true) l.
Proof. intros Hl. eapply Forall_impl; [exact Hl|]. by intros b []. Qed.

Lemma text_no_slash l : Forall (λ b, graphic b = true ∧ b ≠ x2f) l → x2f ∉ l.
Proof. rewrite Forall_forall. intros Hl Hin. by destruct (Hl _ Hin). Qed.

Lemma split_cidr octets prefix :
  length octets = 4%nat → split_once x2f (cidr octets prefix) = Some (dotted octets, decimal prefix).
Proof. intros Ho. by apply split_once_here, text_no_slash, dotted_text. Qed.

Lemma parse_cidr octets : length octets = 4%nat → parse_ipv4 (dotted octets) = Some octets.
Proof. destruct octets as [|w [|x [|y [|z [|? ?]]]]]; try done. intros _. apply parse_ipv4_dotted. Qed.

Lemma parse_prefix p : 0 <= p <= 32 → parse_unsigned u32_max (decimal p) = Some p.
Proof.
  intros Hp. assert (Forall (λ p, parse_unsigned u32_max (decimal p) = Some p) (seqZ 0 33)) as Hall
    by (apply (bool_decide_unpack _); by vm_compute).
  rewrite Forall_forall in Hall. apply Hall, elem_of_seqZ. lia.
Qed.

(** The first and the last address of a network, the empty prefix included. *)
Lemma network_span x p a :
  0 <= x < 2 ^ 32 → 0 <= p <= 32 → 0 <= a < 2 ^ 32 →
  let first := Z.land x (network_mask p) in
  first <= a <= Z.lor first (u32_max - network_mask p) ↔ in_network_of (be_bytes 4 x) p a.
Proof.
  intros Hx Hp Ha. cbn zeta. unfold network_mask, in_network_of.
  rewrite be_Z_be_bytes. change (256 ^ Z.of_nat 4) with (2 ^ 32). rewrite (Z.mod_small x) by lia.
  destruct (Z.eqb_spec p 0) as [->|Hne].
  - rewrite Z.land_0_r, Z.lor_0_l, Z.sub_0_r, Z.sub_0_r. unfold u32_max.
    rewrite !Z.div_small by lia. lia.
  - rewrite network_block, land_prefix_mask by lia. apply in_network. lia.
Qed.

(** Every network that a rule can name gives a selector, or is an IPv6 one. *)
Lemma destination_selectors_spec plan networks :
  Forall (λ n, ∃ v, normalize_ip_network v = Ok n) networks →
  ∃ l, destination_selectors plan is_ipv6 networks = Ret (Ok l) ∧
    ∀ x, x ∈ l ↔ ∃ octets prefix, cidr octets prefix ∈ networks ∧ length octets = 4%nat ∧ 0 <= prefix <= 32 ∧
      let mask := network_mask prefix in
      let first := Z.land (be_Z octets) mask in
      x = (Destination first (Z.lor first (u32_max - mask)), node_of plan (cidr octets prefix)).
Proof.
  induction 1 as [|n networks [v Hv] _ (l & Hl & Hin)].
  { exists []. split; [done|]. intros x. split; [by intros ?%elem_of_nil|by intros (? & ? & ?%elem_of_nil & _)]. }
  cbn [destination_selectors]. apply normalize_network_inv in Hv as [(o & p & Hn & ->)|(o & p & t & Ht & ->)].
  - assert (length o = 4%nat ∧ 0 <= p <= 32) as [Ho Hp].
    { destruct Hn as [Hp [(_ & Ha & _)|(? & ? & _ & Ha & _)]]; split; try done; by eapply parse_ipv4_octets. }
    rewrite split_cidr by done. cbn [unwrap mbind run_bind]. rewrite parse_cidr, parse_prefix by done.
    rewrite (proj2 (Z.ltb_ge _ _)) by lia. rewrite Hl. cbn [mbind run_bind]. eexists. split; [done|].
    intros x. rewrite elem_of_cons, Hin. split.
    + intros [->|(o' & p' & ? & ?)]; [exists o, p|exists o', p']; (split; [|done]); by rewrite elem_of_cons; auto.
    + intros (o' & p' & [Heq|Hx]%elem_of_cons & Ho' & Hp' & ->); [|right; by exists o', p'].
      left. apply (f_equal (split_once x2f)) in Heq. rewrite !split_cidr in Heq by done.
      injection Heq as Hd Hdec. apply (f_equal parse_ipv4) in Hd. rewrite !parse_cidr in Hd by done.
      apply (f_equal (parse_unsigned u32_max)) in Hdec. rewrite !parse_prefix in Hdec by done. by simplify_eq.
  - assert (split_once x2f (print_ipv6 o ++ x2f :: decimal p) = Some (print_ipv6 o, decimal p)) as Hs
      by (apply split_once_here; by eapply text_no_slash, ipv6_graphic).
    rewrite Hs. cbn [unwrap mbind run_bind]. rewrite (ipv6_not_ipv4 o t) by done.
    unfold is_ipv6 at 1. rewrite bool_decide_eq_true_2 by (erewrite parse_print_ipv6; [by eexists|done]).
    exists l. split; [done|]. intros x. rewrite Hin. split.
    + intros (o' & p' & ? & ?). exists o', p'. by rewrite elem_of_cons; auto.
    + intros (o' & p' & [Heq|Hx]%elem_of_cons & Ho' & Hp' & ->); [|by exists o', p'].
      rewrite <-Heq in Hs. rewrite split_cidr in Hs by done. injection Hs as Hd _.
      pose proof (ipv6_not_ipv4 o t Ht) as H4. rewrite <-Hd, parse_cidr in H4 by done. done.
Qed.

Lemma picked_network (rules : list RuleSpec) n :
  n ∈ omap (pick Network) rules ↔
  ∃ rule, rule ∈ rules ∧ kind rule = str "ip" ∧ trim (value rule) ≠ [] ∧ normalize_ip_network (trim (value rule)) = Ok n.
Proof.
  rewrite list_elem_of_omap. split; intros (rule & Hin & Hn); exists rule; (split; [done|]);
    unfold pick, target_of in *.
  - case_bool_decide; [done|]. repeat case_bool_decide; cbn [mbind option_bind] in Hn;
      repeat (case_guard; cbn in Hn; [|done]); try (destruct (extension _); cbn in Hn; [|done]);
      repeat (case_guard; cbn in Hn; [|done]); try done.
    + by destruct (normalize_hostname _).
    + destruct (normalize_ip_network _); cbn in Hn; [|done]. by injection Hn as ->.
  - destruct Hn as (Hk & Hv & Hn). rewrite bool_decide_eq_false_2 by done. rewrite Hk.
    do 3 (rewrite bool_decide_eq_false_2 by done). rewrite bool_decide_eq_true_2 by done.
    rewrite Hn. cbn. by rewrite decide_True.
Qed.

(** C33. The capture can read the address selectors of every plan that compiles, and
    what it selects by address is what the rules say: a node's selectors cover an
    IPv4 address exactly when some rule writes a network, as an address and a prefix,
    whose leading bits the address shares, and the node is that of the last rule that
    writes the same address and the same prefix, the bits past the prefix included. So
    two rules that write one network from two of its addresses are two targets, and
    the selectors of both nodes cover it. *)
Theorem capture_covers_the_rules rules plan :
  compile (str "split") rules = Ok plan →
  ∃ l, destination_selectors plan is_ipv6 (ip_networks plan) = Ret (Ok l) ∧
    ∀ a n, 0 <= a < 2 ^ 32 →
      ((∃ first last, (Destination first last, n) ∈ l ∧ first <= a <= last)
       ↔ ∃ rule octets prefix, rule ∈ rules ∧ kind rule = str "ip" ∧ names_cidr (trim (value rule)) octets prefix
           ∧ in_network_of octets prefix a ∧ n = node_after (cidr octets prefix) rules 0).
Proof.
  intros Hc. destruct (compile_is_rule_by_rule rules) as [(_ & p & Hp & _ & _ & _ & Hnet & Hnode & _)|(_ & e & He)];
    [|congruence]. rewrite Hp in Hc. injection Hc as ->.
  destruct (destination_selectors_spec plan (ip_networks plan)) as (l & Hl & Hin).
  { apply Forall_forall. rewrite Hnet. intros n (rule & _ & _ & _ & Hn)%picked_network. by eexists. }
  exists l. split; [done|]. intros a n Ha. split.
  - intros (f & e & Hx & Hr). apply Hin in Hx as (o & p & Hmem & Ho & Hpr & [= -> -> ->]).
    rewrite Hnet in Hmem. apply picked_network in Hmem as (rule & Hrule & Hk & _ & Hn).
    apply normalize_network_inv in Hn as [(o' & p' & Hnames & Heq)|(o' & p' & t & Ht & Heq)].
    + assert (o' = o ∧ p' = p) as [-> ->].
      { assert (length o' = 4%nat ∧ 0 <= p' <= 32) as [Ho' Hp'].
        { destruct Hnames as [? [(_ & ? & _)|(? & ? & _ & ? & _)]]; split; try done; by eapply parse_ipv4_octets. }
        apply (f_equal (split_once x2f)) in Heq. rewrite !split_cidr in Heq by done. injection Heq as Hd Hdec.
        apply (f_equal parse_ipv4) in Hd. rewrite !parse_cidr in Hd by done.
        apply (f_equal (parse_unsigned u32_max)) in Hdec. rewrite !parse_prefix in Hdec by done. by simplify_eq. }
      exists rule, o, p. split_and!; try done.
      apply network_span in Hr; [|by apply octets_bound|done|done].
      unfold in_network_of in *. by rewrite be_Z_be_bytes, Z.mod_small in Hr by (by apply octets_bound).
    + exfalso. apply (f_equal (split_once x2f)) in Heq. rewrite split_cidr in Heq by done.
      rewrite split_once_here in Heq by (by eapply text_no_slash, ipv6_graphic). injection Heq as Hd _.
      pose proof (ipv6_not_ipv4 o' t Ht) as H4. by rewrite <-Hd, parse_cidr in H4.
  - intros (rule & o & p & Hrule & Hk & Hnames & Hnet_in & ->).
    assert (length o = 4%nat ∧ 0 <= p <= 32 ∧ trim (value rule) ≠ []) as (Ho & Hpr & Hne).
    { destruct Hnames as [? [(_ & Ha4 & _)|(? & ? & Hs & Ha4 & _)]]; (split; [by eapply parse_ipv4_octets|]; split; [done|]).
      - intros E. by rewrite E in Ha4.
      - intros E. by rewrite E in Hs. }
    eexists _, _. split.
    + apply Hin. exists o, p. split; [|split; [done|split; [done|]]].
      * rewrite Hnet. apply picked_network. exists rule. split_and!; try done. by apply normalize_cidr.
      * cbn zeta. by rewrite Hnode.
    + apply network_span; [by apply octets_bound|done|done|].
      unfold in_network_of in *. by rewrite be_Z_be_bytes, Z.mod_small by (by apply octets_bound).
Qed.

(** One network written from two of its addresses: both nodes' selectors cover it. *)
Definition two_spellings : list RuleSpec :=
  [mk_rule (str "ip") (str "10.0.0.1/8") 1; mk_rule (str "ip") (str "10.0.0.0/8") 2].

Lemma spellings_are_two_targets :
  match compile (str "split") two_spellings with
  | Ok plan => destination_selectors plan is_ipv6 (ip_networks plan)
  | Err _ => Panic
  end = Ret (Ok [(Destination 167772160 184549375, 1); (Destination 167772160 184549375, 2)]).
Proof. by vm_compute. Qed.

(** *** Normal forms are settled *)

Lemma split_on_last c s : split_on c (s ++ [c]) = split_on c s ++ [[]].
Proof.
  induction s as [l Hl|l k Hl IH] using (split_ind c).
  - rewrite split_on_app by done. by rewrite (split_on_none c l) by done.
  - rewrite <-app_assoc. cbn [app]. rewrite (split_on_app c l (k ++ [c])), (split_on_app c l k) by done. cbn [app]. by rewrite IH.
Qed.

Lemma label_char b : is_ascii_alphanumeric b || bool_decide (b = x2d) = true → graphic b = true.
Proof.
  intros [Hb|Hb%bool_decide_eq_true]%orb_true_iff; [|by subst].
  unfold is_ascii_alphanumeric, graphic, in_range in *. b2p. lia.
Qed.

Lemma good_host_chars host :
  bad_host host = false → Forall (λ b, graphic b = true) host ∧ host ≠ [] ∧ ∀ s, host ≠ s ++ [x2e].
Proof.
  unfold bad_host. intros Hb. apply orb_false_iff in Hb as [Hb Hlabels]. apply orb_false_iff in Hb as [Hb _].
  apply orb_false_iff in Hb as [Hne _]. apply bool_decide_eq_false in Hne.
  assert (∀ label, label ∈ split_on x2e host → bad_label label = false) as Hgood.
  { intros label Hin. apply not_true_iff_false. intros Hbad. apply not_true_iff_false in Hlabels. apply Hlabels.
    apply existsb_exists. exists label. by rewrite list_elem_of_In in Hin. }
  split_and!; [|done|].
  - assert (Forall (Forall (λ b, graphic b = true)) (split_on x2e host)) as Hall.
    { apply Forall_forall. intros label Hin%Hgood. unfold bad_label in Hin. apply orb_false_iff in Hin as [_ Hc].
      apply negb_false_iff in Hc. rewrite forallb_forall in Hc. apply Forall_forall. intros b Hb.
      apply list_elem_of_In in Hb. by apply label_char, Hc. }
    rewrite <-(join_split x2e host). clear Hgood Hlabels. induction Hall as [|part [|next parts] Hp _ IH]; [constructor|done|].
    change (Forall (λ b, graphic b = true) (part ++ x2e :: join_with x2e (next :: parts))).
    apply Forall_app. split; [done|]. constructor; [done|exact IH].
  - intros s ->. specialize (Hgood []). rewrite split_on_last in Hgood.
    assert (bad_label [] = true) as Hbad by done. rewrite Hgood in Hbad; [done|].
    apply elem_of_app. right. by left.
Qed.

Lemma trim_end_none c s : (∀ s', s ≠ s' ++ [c]) → trim_end_matches c s = s.
Proof.
  intros Hs. unfold trim_end_matches. destruct s as [|b s _] using rev_ind; [done|].
  rewrite reverse_snoc. cbn [drop_while]. rewrite bool_decide_eq_false_2 by (intros ->; by eapply Hs).
  by rewrite <-reverse_snoc, reverse_involutive.
Qed.

(** What [normalize_hostname] returns is what it lowered, and is its own normal form. *)
Lemma normal_hostname v h :
  normalize_hostname v = Ok h → trim h = h ∧ h ≠ [] ∧ normalize_hostname h = Ok h.
Proof.
  unfold normalize_hostname. set (w := to_lowercase _). set (host := default w _).
  destruct (bad_host host) eqn:Eb; [done|]. intros Hok.
  assert ((if starts_with (str "*.") w then str "*." ++ host else host) = w) as Hw.
  { unfold starts_with, host. destruct (strip_prefix (str "*.") w) as [k|] eqn:Es; [|by cbn].
    rewrite bool_decide_eq_true_2 by by eexists. by apply strip_prefix_Some in Es as ->. }
  destruct (good_host_chars host Eb) as (Hg & Hne & Hdot).
  assert (Forall (λ b, graphic b = true) w ∧ w ≠ [] ∧ ∀ s, w ≠ s ++ [x2e]) as (Hgw & Hnew & Hdotw).
  { rewrite <-Hw. destruct (starts_with _ w); [|done]. split_and!; [|done|].
    - apply Forall_app. split; [by repeat constructor|done].
    - intros s. destruct host as [|b k _] using rev_ind; [done|]. rewrite app_assoc. intros [_ [= ->]]%app_inj_tail.
      by eapply Hdot. }
  rewrite Hw in Hok. injection Hok as <-. rewrite graphic_trim by done. split_and!; [done..|].
  rewrite trim_end_none by done. assert (to_lowercase w = w) as -> by apply lowercase_idempotent.
  fold host. by rewrite Eb, Hw.
Qed.

(** So is what [normalize_ip_network] returns. *)
Lemma normal_network v n :
  normalize_ip_network v = Ok n → trim n = n ∧ n ≠ [] ∧ normalize_ip_network n = Ok n.
Proof.
  intros (a & p & t & Ht & -> & Hp & _)%normalize_shape.
  assert (Forall (λ b, graphic b = true) (print_ip a) ∧ x2f ∉ print_ip a ∧ parse_ip (print_ip a) = Some a)
    as (Hg & Hslash & Hparse).
  { unfold parse_ip in *. destruct (parse_ipv4 t) as [o|] eqn:E4.
    - injection Ht as <-. apply parse_ipv4_octets in E4. cbn [print_ip]. rewrite parse_cidr by done.
      split_and!; [by apply text_graphic, dotted_text|by apply text_no_slash, dotted_text|done].
    - destruct (parse_ipv6 t) as [o|] eqn:E6; [|done]. injection Ht as <-. cbn [print_ip].
      erewrite ipv6_not_ipv4, parse_print_ipv6 by done. split_and!; [by eapply text_graphic, ipv6_graphic|by eapply text_no_slash, ipv6_graphic|done]. }
  assert (0 <= p < 256) as Hp' by (destruct a; cbn [max_prefix] in Hp; lia).
  split_and!.
  - apply graphic_trim, Forall_app. split; [done|]. constructor; [done|by apply text_graphic, decimal_text].
  - by destruct (print_ip a).
  - unfold normalize_ip_network. rewrite split_once_here, Hparse by done.
    assert (parse_u8 (decimal p) = Some p) as ->.
    { replace p with (b2z (z2b p)) by (rewrite b2z_z2b; apply Z.mod_small; lia). apply parse_u8_decimal. }
    by rewrite (proj2 (Z.ltb_ge _ _)) by lia.
Qed.

Lemma picked_hostname (rules : list RuleSpec) h :
  h ∈ omap (pick Hostname) rules → ∃ v, normalize_hostname v = Ok h.
Proof.
  rewrite list_elem_of_omap. intros (rule & _ & Hn). unfold pick, target_of in Hn. exists (trim (value rule)).
  repeat case_bool_decide; cbn [mbind option_bind] in Hn;
    repeat (case_guard; cbn in Hn; [|done]); try (destruct (extension _); cbn in Hn; [|done]);
    repeat (case_guard; cbn in Hn; [|done]); try done.
  - destruct (normalize_hostname _); cbn in Hn; [|done]. by injection Hn as ->.
  - by destruct (normalize_ip_network _).
Qed.

(** The names and networks of a plan, written as rules again. *)
Definition restated (plan : InterceptionPlan) : list RuleSpec :=
  ((λ h, mk_rule (str "hostname") h (node_of plan h)) <$> hostnames plan)
  ++ ((λ n, mk_rule (str "ip") n (node_of plan n)) <$> ip_networks plan).

Lemma restated_target plan rule :
  Forall (λ h, ∃ v, normalize_hostname v = Ok h) (hostnames plan) →
  Forall (λ n, ∃ v, normalize_ip_network v = Ok n) (ip_networks plan) →
  rule ∈ restated plan →
  (∃ h, h ∈ hostnames plan ∧ rule = mk_rule (str "hostname") h (node_of plan h) ∧ target_of rule = Some (Hostname, h))
  ∨ (∃ n, n ∈ ip_networks plan ∧ rule = mk_rule (str "ip") n (node_of plan n) ∧ target_of rule = Some (Network, n)).
Proof.
  rewrite !Forall_forall. intros Hh Hn Hin. unfold restated in Hin.
  apply elem_of_app in Hin as [(h & -> & Hin)%list_elem_of_fmap|(n & -> & Hin)%list_elem_of_fmap]; [left|right].
  - exists h. split_and!; [done..|]. destruct (Hh h Hin) as [v (Htrim & Hne & Hnorm)%normal_hostname].
    unfold target_of. cbn [value kind]. rewrite Htrim, bool_decide_eq_false_2 by done.
    do 2 (rewrite bool_decide_eq_false_2 by done). rewrite bool_decide_eq_true_2 by done. by rewrite Hnorm.
  - exists n. split_and!; [done..|]. destruct (Hn n Hin) as [v (Htrim & Hne & Hnorm)%normal_network].
    unfold target_of. cbn [value kind]. rewrite Htrim, bool_decide_eq_false_2 by done.
    do 3 (rewrite bool_decide_eq_false_2 by done). rewrite bool_decide_eq_true_2 by done. by rewrite Hnorm.
Qed.

Lemma omap_fmap_Some {A B} (f : B → option A) (g : A → B) (l : list A) :
  (∀ x, x ∈ l → f (g x) = Some x) → omap f (g <$> l) = l.
Proof.
  induction l as [|x l IH]; intros Hf; [done|]. cbn [fmap list_fmap omap list_omap].
  rewrite Hf by by left. f_equal. apply IH. intros y Hy. apply Hf. by right.
Qed.
Lemma omap_fmap_None {A B C} (f : B → option C) (g : A → B) (l : list A) :
  (∀ x, x ∈ l → f (g x) = None) → omap f (g <$> l) = [].
Proof.
  induction l as [|x l IH]; intros Hf; [done|]. cbn [fmap list_fmap omap list_omap].
  rewrite Hf by by left. apply IH. intros y Hy. apply Hf. by right.
Qed.

(** When every rule that names [t] gives it the same node. *)
Lemma node_after_same t n rules n0 :
  (∀ rule k, rule ∈ rules → target_of rule = Some (k, t) → node rule = n) →
  (∃ rule k, rule ∈ rules ∧ target_of rule = Some (k, t)) ∨ n0 = n → node_after t rules n0 = n.
Proof.
  revert n0. induction rules as [|rule rules IH]; intros n0 Hall Hex; cbn [node_after foldl].
  { by destruct Hex as [(? & ? & ?%elem_of_nil & _)|]. }
  apply IH; [intros; eapply Hall; [by right|done]|].
  destruct (target_of rule) as [[k t']|] eqn:Et; [destruct (decide (t' = t)) as [->|Hne]|].
  - right. eapply Hall; [by left|done].
  - destruct Hex as [(r & k' & [->|Hr]%elem_of_cons & Hk)|]; [congruence|left; by exists r, k'|by right].
  - destruct Hex as [(r & k' & [->|Hr]%elem_of_cons & Hk)|]; [congruence|left; by exists r, k'|by right].
Qed.

(** What a plan holds is settled: its names and networks, written as rules again,
    compile to the same lists with the same nodes. *)
Theorem plans_are_stable rules plan :
  compile (str "split") rules = Ok plan → hostnames plan ++ ip_networks plan ≠ [] →
  ∃ plan', compile (str "split") (restated plan) = Ok plan'
    ∧ hostnames plan' = hostnames plan ∧ ip_networks plan' = ip_networks plan
    ∧ ∀ t, t ∈ hostnames plan ++ ip_networks plan → node_of plan' t = node_of plan t.
Proof.
  intros Hc Hsome. destruct (compile_is_rule_by_rule rules) as [(_ & p & Hp & _ & _ & Hhost & Hnet & _)|(_ & e & He)];
    [|congruence]. rewrite Hp in Hc. injection Hc as ->.
  assert (Forall (λ h, ∃ v, normalize_hostname v = Ok h) (hostnames plan)) as Hh.
  { apply Forall_forall. rewrite Hhost. apply picked_hostname. }
  assert (Forall (λ n, ∃ v, normalize_ip_network v = Ok n) (ip_networks plan)) as Hn.
  { apply Forall_forall. rewrite Hnet. intros n (rule & _ & _ & _ & Hn)%picked_network. by eexists. }
  pose proof (λ rule, restated_target plan rule Hh Hn) as Ht.
  assert (∀ h, h ∈ hostnames plan → target_of (mk_rule (str "hostname") h (node_of plan h)) = Some (Hostname, h)) as Htarget_h.
  { intros h Hin. destruct (Ht (mk_rule (str "hostname") h (node_of plan h))) as [(h' & _ & [= <- _] & ->)|(? & _ & [=] & _)]; [|done].
    apply elem_of_app. left. apply list_elem_of_fmap. by exists h. }
  assert (∀ n, n ∈ ip_networks plan → target_of (mk_rule (str "ip") n (node_of plan n)) = Some (Network, n)) as Htarget_n.
  { intros n Hin. destruct (Ht (mk_rule (str "ip") n (node_of plan n))) as [(? & _ & [=] & _)|(n' & _ & [= <- _] & ->)]; [|done].
    apply elem_of_app. right. apply list_elem_of_fmap. by exists n. }
  destruct (compile_is_rule_by_rule (restated plan)) as [(_ & plan' & Hp' & _ & _ & Hhost' & Hnet' & Hnode' & _)|(Hno & _)].
  - exists plan'. split; [done|]. unfold restated in Hhost', Hnet'. rewrite omap_app in Hhost', Hnet'. split_and!.
    + rewrite Hhost', omap_fmap_Some, omap_fmap_None, app_nil_r; [done|..]; intros x Hx; unfold pick.
      * by rewrite Htarget_n.
      * by rewrite Htarget_h.
    + rewrite Hnet', omap_fmap_None, omap_fmap_Some; [done|..]; intros x Hx; unfold pick.
      * by rewrite Htarget_n.
      * by rewrite Htarget_h.
    + intros t Hin. rewrite Hnode'. apply node_after_same.
      * intros rule k Hrule Hk. by destruct (Ht rule Hrule) as [(x & _ & -> & Hx)|(x & _ & -> & Hx)];
          rewrite Hx in Hk; injection Hk as _ ->.
      * left. apply elem_of_app in Hin as [Hin|Hin]; eexists _, _; (split; [|by auto]); apply elem_of_app;
          [left|right]; apply list_elem_of_fmap; by exists t.
  - exfalso. apply Hno. split.
    + unfold restated. intros E. apply Hsome. apply app_eq_nil in E as [E1 E2].
      by rewrite (fmap_nil_inv _ _ E1), (fmap_nil_inv _ _ E2).
    + apply Forall_forall. intros rule Hrule. by destruct (Ht rule Hrule) as [(? & _ & _ & ->)|(? & _ & _ & ->)].
Qed.
End networks.

(** ** A plan *)

#[local] Instance demo_platform : Platform := {|
  is_absolute path := match path with _ :: x3a :: _ => true | _ => false end;
  extension path := snd <$> rsplit_once x2e path;
  to_lowercase := to_ascii_lowercase;
  parse_ipv6 s := if bool_decide (s = str "::1") then Some (replicate 15 x00 ++ [x01]) else None;
  print_ipv6 a := str "::1"
|}.

#[local] Instance demo_laws : PlatformLaws.
Proof.
  split.
  - intros a t Ht. cbn in *. by case_bool_decide; simplify_eq.
  - done.
  - intros a t _. apply (bool_decide_unpack _). by vm_compute.
  - intros s. cbn. unfold to_ascii_lowercase. rewrite <-list_fmap_compose. apply list_fmap_ext. intros _ b _. by destruct b.
Qed.

Definition demo_rules : list RuleSpec :=
  [mk_rule (str "application") (str "C:\Games\Demo\game.EXE") 2; mk_rule (str "folder") (str "C:/Games/Demo/") 0;
   mk_rule (str "hostname") (str " *.Game.Example.COM. ") 1; mk_rule (str "ip") (str "203.0.113.7/24") 1;
   mk_rule (str "ip") (str "::1") 0; mk_rule (str "ip") (str "203.0.113.7/24") 3].

Definition demo_plan : InterceptionPlan :=
  match compile (str "split") demo_rules with Ok plan => plan | Err _ => new_plan [] [] end.

Example demo_plan_targets :
  (application_paths demo_plan, folder_prefixes demo_plan, hostnames demo_plan, ip_networks demo_plan)
  = ([str "c:\games\demo\game.exe"], [str "c:\games\demo"], [str "*.game.example.com"],
     [str "203.0.113.7/24"; str "::1/128"; str "203.0.113.7/24"]).
Proof. by vm_compute. Qed.

Lemma demo_compiles : compile (str "split") demo_rules = Ok demo_plan.
Proof.
  unfold demo_plan. assert (bool_decide (is_Some (ok (compile (str "split") demo_rules))) = true) as Hok by by vm_compute.
  apply bool_decide_eq_true in Hok as [plan Hok]. by destruct (compile _ _).
Qed.

Lemma capture_covers_the_rules_witness :
  compile (str "split") demo_rules = Ok demo_plan ∧
  ∃ l, destination_selectors demo_plan is_ipv6 (ip_networks demo_plan) = Ret (Ok l) ∧
    ∀ a n, 0 <= a < 2 ^ 32 →
      ((∃ first last, (Destination first last, n) ∈ l ∧ first <= a <= last)
       ↔ ∃ rule octets prefix, rule ∈ demo_rules ∧ kind rule = str "ip" ∧ names_cidr (trim (value rule)) octets prefix
           ∧ in_network_of octets prefix a ∧ n = node_after (cidr octets prefix) demo_rules 0).
Proof. split; [exact demo_compiles|]. apply (capture_covers_the_rules demo_rules demo_plan). exact demo_compiles. Defined.

Lemma plans_are_stable_witness :
  ∃ plan', compile (str "split") (restated demo_plan) = Ok plan'
    ∧ hostnames plan' = hostnames demo_plan ∧ ip_networks plan' = ip_networks demo_plan
    ∧ ∀ t, t ∈ hostnames demo_plan ++ ip_networks demo_plan → node_of plan' t = node_of demo_plan t.
Proof. apply (plans_are_stable demo_rules demo_plan); [exact demo_compiles|done]. Defined.
