(* ===== verification/WireGuardConfig.v ===== *)
(** * WireGuardConfig: reading and narrowing a WireGuard configuration

    [engine/src/wireguard_runtime.rs], which checks a provider's file and can rewrite
    it so that its tunnel carries the relay's traffic only, and the reader of one value
    in [engine/src/userspace_wireguard.rs]. A count of sections stays below 2^32. *)
From S2P Require Import Prelude Text Policy.

(** What [section] holds while the file is read. *)
Inductive Section_ : Type := Nowhere | Interface | Peer | Other.

#[export] Instance section_eq_dec : EqDecision Section_.
Proof. solve_decision. Defined.

Record RuntimeWireGuardConfig := mk_runtime {
  source : list byte;
  tunnel_address : IpAddr;
  endpoint : list byte
}.

(** The locals of [parse]. *)
Record Reading := mk_reading {
  section : Section_;
  output : list (list byte);
  read_address : option IpAddr;
  read_endpoint : option (list byte);
  private_key : bool;
  public_key : bool;
  peer_count : Z;
  peer_allowed_ips_written : bool
}.

Definition new_reading : Reading := mk_reading Nowhere [] None None false false 0 false.

Definition is_section (line : list byte) : bool := starts_with [x5b] line && ends_with [x5d] line.
Definition section_of (line : list byte) : Section_ :=
  let name := to_ascii_lowercase line in
  if bool_decide (name = str "[interface]") then Interface
  else if bool_decide (name = str "[peer]") then Peer else Other.

Definition allowed_ips (route : list byte) : list byte := str "AllowedIPs = " ++ route.
Definition allowed_ips_line (relay_route : option (list byte)) : list (list byte) :=
  match relay_route with Some route => [allowed_ips route] | None => [] end.

Definition keep_line (r : Reading) (line : list byte) : Reading :=
  mk_reading (section r) (output r ++ [line]) (read_address r) (read_endpoint r) (private_key r) (public_key r)
    (peer_count r) (peer_allowed_ips_written r).

(** The route a peer's section is closed with when none of its lines was replaced. *)
Definition close_section (relay_route : option (list byte)) (r : Reading) : Reading :=
  if bool_decide (section r = Peer) && negb (peer_allowed_ips_written r)
  then mk_reading (section r) (output r ++ allowed_ips_line relay_route) (read_address r) (read_endpoint r)
         (private_key r) (public_key r) (peer_count r) (peer_allowed_ips_written r)
  else r.

Definition open_section (relay_route : option (list byte)) (original line : list byte) (r : Reading) : Reading :=
  let r := close_section relay_route r in
  let opened := section_of line in
  let is_peer := bool_decide (opened = Peer) in
  keep_line
    (mk_reading opened (output r) (read_address r) (read_endpoint r) (private_key r) (public_key r)
       (if is_peer then peer_count r + 1 else peer_count r)
       (if is_peer then false else peer_allowed_ips_written r))
    original.

Definition side_effects : list (list byte) :=
  [str "dns"; str "mtu"; str "table"; str "preup"; str "postup"; str "predown"; str "postdown"].

Section parse.
Context `{!Platform}.

Definition first_address (value : list byte) : list byte :=
  let first := trim (default value (head (split_on x2c value))) in
  default first (head (split_on x2f first)).

Definition interface_line (key value original : list byte) (r : Reading) : result (list byte) Reading :=
  if bool_decide (key = str "address") then
    match read_address r with
    | Some _ => Ok (keep_line r original)
    | None =>
        match parse_ip (first_address value) with
        | None => Err (str "WireGuard interface has an invalid Address")
        | Some address =>
            Ok (keep_line (mk_reading (section r) (output r) (Some address) (read_endpoint r) (private_key r)
                             (public_key r) (peer_count r) (peer_allowed_ips_written r)) original)
        end
    end
  else if bool_decide (key = str "privatekey") then
    Ok (keep_line (mk_reading (section r) (output r) (read_address r) (read_endpoint r) (negb (bool_decide (value = [])))
                     (public_key r) (peer_count r) (peer_allowed_ips_written r)) original)
  else if bool_decide (key ∈ side_effects) then Ok r
  else Ok (keep_line r original).

(** A direct session keeps the provider's own routes. *)
Definition allowed_line (relay_route : option (list byte)) (original : list byte) (r : Reading) : Reading :=
  match relay_route with
  | None => keep_line r original
  | Some route =>
      if peer_allowed_ips_written r then r
      else mk_reading (section r) (output r ++ [allowed_ips route]) (read_address r) (read_endpoint r) (private_key r)
             (public_key r) (peer_count r) true
  end.

Definition peer_line (relay_route : option (list byte)) (key value original : list byte) (r : Reading) : Reading :=
  if bool_decide (key = str "publickey") then
    keep_line (mk_reading (section r) (output r) (read_address r) (read_endpoint r) (private_key r)
                 (negb (bool_decide (value = []))) (peer_count r) (peer_allowed_ips_written r)) original
  else if bool_decide (key = str "endpoint") then
    keep_line (mk_reading (section r) (output r) (read_address r) (Some value) (private_key r) (public_key r)
                 (peer_count r) (peer_allowed_ips_written r)) original
  else if bool_decide (key = str "allowedips") then allowed_line relay_route original r
  else keep_line r original.

Definition read_line (relay_route : option (list byte)) (original : list byte) (r : Reading)
    : result (list byte) Reading :=
  let line := trim original in
  if is_section line then Ok (open_section relay_route original line r) else
  match split_once x3d line with
  | None => Ok (keep_line r original)
  | Some (raw_key, raw_value) =>
      let key := to_ascii_lowercase (trim raw_key) in
      let value := trim raw_value in
      match section r with
      | Interface => interface_line key value original r
      | Peer => Ok (peer_line relay_route key value original r)
      | _ => Ok (keep_line r original)
      end
  end.

Fixpoint read_lines (relay_route : option (list byte)) (lines : list (list byte)) (r : Reading)
    : result (list byte) Reading :=
  match lines with
  | [] => Ok r
  | line :: rest => match read_line relay_route line r with Ok r => read_lines relay_route rest r | Err e => Err e end
  end.

Definition relay_route (relay : IpAddr) : list byte :=
  print_ip relay ++ match relay with V4 _ => str "/32" | V6 _ => str "/128" end.

Definition finish (r : Reading) : result (list byte) RuntimeWireGuardConfig :=
  if negb (private_key r) then Err (str "WireGuard configuration is missing Interface PrivateKey")
  else if negb (peer_count r =? 1) then Err (str "GamePath currently requires exactly one Peer per WireGuard route")
  else if negb (public_key r) then Err (str "WireGuard configuration is missing Peer PublicKey")
  else match read_address r, read_endpoint r with
       | None, _ => Err (str "WireGuard configuration is missing Interface Address")
       | Some _, None => Err (str "WireGuard configuration is missing Peer Endpoint")
       | Some address, Some endpoint => Ok (mk_runtime (join_with x0a (output r ++ [[]])) address endpoint)
       end.

Definition parse (input : list byte) (relay : option IpAddr) : result (list byte) RuntimeWireGuardConfig :=
  let route := relay_route <$> relay in
  match read_lines route (str_lines input) new_reading with
  | Ok r => finish (close_section route r)
  | Err e => Err e
  end.

Definition narrow_to_relay (input : list byte) (relay : IpAddr) : result (list byte) RuntimeWireGuardConfig :=
  parse input (Some relay).
Definition inspect (input : list byte) : result (list byte) RuntimeWireGuardConfig := parse input None.

(** ** One value *)

Fixpoint find_mtu (lines : list (list byte)) (in_interface : bool) : option Z :=
  match lines with
  | [] => None
  | original :: rest =>
      let line := trim original in
      if is_section line then find_mtu rest (eq_ignore_ascii_case line (str "[interface]"))
      else if negb in_interface then find_mtu rest in_interface
      else match split_once x3d line with
           | None => find_mtu rest in_interface
           | Some (raw_key, raw_value) =>
               if eq_ignore_ascii_case (trim raw_key) (str "mtu") then parse_u16 (trim raw_value)
               else find_mtu rest in_interface
           end
  end.
Definition interface_mtu (input : list byte) : option Z := find_mtu (str_lines input) false.

(** [section_value]: [inside] is whether [section] is the wanted one. *)
Fixpoint find_value (wanted_section wanted_key : list byte) (lines : list (list byte)) (inside : bool)
    : option (list byte) :=
  match lines with
  | [] => None
  | original :: rest =>
      let line := trim original in
      if is_section line then
        find_value wanted_section wanted_key rest
          (eq_ignore_ascii_case (sub line 1 (zlen line - 1)) wanted_section)
      else if negb inside then find_value wanted_section wanted_key rest inside
      else match split_once x3d line with
           | None => find_value wanted_section wanted_key rest inside
           | Some (key, value) =>
               if eq_ignore_ascii_case (trim key) wanted_key then Some (trim value)
               else find_value wanted_section wanted_key rest inside
           end
  end.
Definition section_value (source wanted_section wanted_key : list byte) : option (list byte) :=
  find_value wanted_section wanted_key (str_lines source) false.
Definition required_value (source section key : list byte) : result (list byte) (list byte) :=
  match section_value source section key with
  | Some value => Ok value
  | None => Err (str "WireGuard configuration is missing " ++ section ++ [x20] ++ key)
  end.
Definition configured_endpoint (source : list byte) : option (list byte) :=
  section_value source (str "peer") (str "endpoint").
End parse.

(** ** What a configuration says

    The settings of a file in order, each under the section it stands in: the
    reference that the rewriting is compared with. *)

Record setting := mk_setting { place : Section_; key : list byte; value : list byte }.

Definition section_after (s : Section_) (line : list byte) : Section_ :=
  if is_section (trim line) then section_of (trim line) else s.
Definition setting_of (s : Section_) (line : list byte) : list setting :=
  if is_section (trim line) then [] else
  match split_once x3d (trim line) with
  | Some (k, v) => [mk_setting s (to_ascii_lowercase (trim k)) (trim v)]
  | None => []
  end.

Fixpoint settings_from (s : Section_) (lines : list (list byte)) : list setting :=
  match lines with
  | [] => []
  | line :: rest => setting_of s line ++ settings_from (section_after s line) rest
  end.
Definition settings (text : list byte) : list setting := settings_from Nowhere (str_lines text).

Definition peers (lines : list (list byte)) : Z :=
  zlen (filter (λ line, is_section (trim line) = true ∧ section_of (trim line) = Peer) lines).

Definition stands (s : Section_) (k : list byte) (d : setting) : Prop := place d = s ∧ key d = k.
#[export] Instance stands_dec s k d : Decision (stands s k d).
Proof. unfold stands. apply _. Defined.

Definition values (s : Section_) (k : list byte) (l : list setting) : list (list byte) := value <$> filter (stands s k) l.

(** What the rewriting takes out: settings that act on the machine and, when there is
    a relay, the provider's own routes. *)
Definition dropped (narrow : bool) (d : setting) : Prop :=
  place d = Interface ∧ key d ∈ side_effects ∨ narrow = true ∧ stands Peer (str "allowedips") d.
#[export] Instance dropped_dec narrow d : Decision (dropped narrow d).
Proof. unfold dropped. apply _. Defined.
Definition kept (narrow : bool) (d : setting) : Prop := ¬ dropped narrow d.
#[export] Instance kept_dec narrow d : Decision (kept narrow d).
Proof. unfold kept. apply _. Defined.

(** The values that a file must give, and what is read from them. *)
Record usable `{!Platform} (lines : list (list byte)) (a : IpAddr) (e : list byte) : Prop := {
  us_key : ∃ v, last (values Interface (str "privatekey") (settings_from Nowhere lines)) = Some v ∧ v ≠ [];
  us_peer : peers lines = 1;
  us_public : ∃ v, last (values Peer (str "publickey") (settings_from Nowhere lines)) = Some v ∧ v ≠ [];
  us_address : ∃ v, head (values Interface (str "address") (settings_from Nowhere lines)) = Some v
    ∧ parse_ip (first_address v) = Some a;
  us_endpoint : last (values Peer (str "endpoint") (settings_from Nowhere lines)) = Some e
}.

Lemma sections_app s l l' :
  settings_from s (l ++ l') = settings_from s l ++ settings_from (foldl section_after s l) l'.
Proof.
  revert s. induction l as [|line l IH]; intros s; [done|]. cbn [app settings_from foldl]. by rewrite IH, app_assoc.
Qed.

Lemma settings_snoc s l line :
  settings_from s (l ++ [line]) = settings_from s l ++ setting_of (foldl section_after s l) line.
Proof. rewrite sections_app. cbn. by rewrite app_nil_r. Qed.

Lemma section_snoc s l line :
  foldl section_after s (l ++ [line]) = section_after (foldl section_after s l) line.
Proof. by rewrite foldl_app. Qed.

Lemma peers_snoc l line :
  peers (l ++ [line]) = peers l + (if is_section (trim line) && bool_decide (section_of (trim line) = Peer) then 1 else 0).
Proof.
  unfold peers. rewrite filter_app, zlen_app. f_equal. rewrite filter_cons, filter_nil.
  destruct (is_section (trim line)); cbn [andb].
  - case_bool_decide; case_decide; tauto.
  - case_decide; [by destruct H|done].
Qed.

Lemma values_app s k l l' : values s k (l ++ l') = values s k l ++ values s k l'.
Proof. unfold values. by rewrite filter_app, fmap_app. Qed.

(** ** Rewriting, line by line *)

Section rewriting.
Context `{!Platform}.
Context (route : option (list byte)).
Notation narrow := (bool_decide (is_Some route)).
Notation said lines := (settings_from Nowhere lines).
Notation ends lines := (foldl section_after Nowhere lines).

Hypothesis route_clean : ∀ r, route = Some r → Forall (λ b, graphic b = true) r ∧ r ≠ [].

Definition route_settings (n : Z) : list setting :=
  match route with Some r => replicate (Z.to_nat n) (mk_setting Peer (str "allowedips") r) | None => [] end.

(** The lines written for the lines [p]. *)
Record carried (p out : list (list byte)) (sec : Section_) (written : bool) : Prop := {
  ca_section : sec = ends p;
  ca_ends : ends out = ends p;
  ca_kept : filter (kept narrow) (said out) = filter (kept narrow) (said p);
  ca_dropped : filter (dropped narrow) (said out) =
    route_settings (peers p - (if bool_decide (sec = Peer) && negb written then 1 else 0))
}.

(** What is read from settings [l]. *)
Record noted (l : list setting) (r : Reading) : Prop := {
  no_address : match head (values Interface (str "address") l) with
               | Some v => ∃ a, parse_ip (first_address v) = Some a ∧ read_address r = Some a
               | None => read_address r = None
               end;
  no_endpoint : read_endpoint r = last (values Peer (str "endpoint") l);
  no_private : private_key r = true ↔ ∃ v, last (values Interface (str "privatekey") l) = Some v ∧ v ≠ [];
  no_public : public_key r = true ↔ ∃ v, last (values Peer (str "publickey") l) = Some v ∧ v ≠ []
}.

Definition rewritten (p : list (list byte)) (r : Reading) : Prop :=
  carried p (output r) (section r) (peer_allowed_ips_written r) ∧ noted (said p) r ∧ peer_count r = peers p.

(** A line that is written as it was read. *)
Lemma carried_line p out sec written line :
  carried p out sec written → is_section (trim line) = false →
  filter (dropped narrow) (setting_of (ends p) line) = [] →
  carried (p ++ [line]) (out ++ [line]) sec written.
Proof.
  intros [Hs He Hk Hd] Hline Hdrop. split; rewrite ?section_snoc, ?settings_snoc, ?peers_snoc, ?filter_app, ?He.
  - unfold section_after. by rewrite Hline.
  - done.
  - by rewrite Hk.
  - by rewrite Hd, Hdrop, app_nil_r, Hline, Z.add_0_r.
Qed.

(** A line that is left out. *)
Lemma carried_dropped p out sec written line :
  carried p out sec written → is_section (trim line) = false →
  filter (kept narrow) (setting_of (ends p) line) = [] →
  carried (p ++ [line]) out sec written.
Proof.
  intros [Hs He Hk Hd] Hline Hdrop. split; rewrite ?section_snoc, ?settings_snoc, ?peers_snoc, ?filter_app.
  - unfold section_after. by rewrite Hline.
  - unfold section_after. by rewrite Hline.
  - by rewrite Hk, Hdrop, app_nil_r.
  - by rewrite Hd, Hline, Z.add_0_r.
Qed.

Lemma peers_nonneg p : 0 <= peers p.
Proof. unfold peers. apply zlen_nonneg. Qed.

Lemma ends_peer s p : foldl section_after s p = Peer → s = Peer ∨ 1 <= peers p.
Proof.
  induction p as [|line p IH] using rev_ind; [by left|]. rewrite section_snoc, peers_snoc. unfold section_after at 1.
  pose proof (peers_nonneg p). destruct (is_section (trim line)); cbn [andb]; intros E.
  - right. rewrite E, bool_decide_eq_true_2 by done. lia.
  - destruct (IH E) as [|]; [by left|right; lia].
Qed.

Lemma allowed_reads s r :
  route = Some r → is_section (trim (allowed_ips r)) = false ∧
    setting_of s (allowed_ips r) = [mk_setting s (str "allowedips") r].
Proof.
  intros Hr. destruct (route_clean r Hr) as (Hg & Hne).
  assert (trim (allowed_ips r) = allowed_ips r) as Ht.
  { destruct (last_is_Some r) as [_ [c Hc]%(λ H, H Hne)]. apply (trim_tight _ x41 c); [| |..|done|].
    - apply Forall_app. split; [by repeat constructor|by apply graphic_ascii].
    - done.
    - unfold allowed_ips. by rewrite last_app, Hc.
    - apply graphic_not_white. apply last_Some in Hc as [r' ->]. apply Forall_app in Hg as [_ [Hg _]%Forall_cons]. done. }
  assert (is_section (trim (allowed_ips r)) = false) as Hsec by by rewrite Ht.
  split; [done|]. unfold setting_of. rewrite Hsec, Ht.
  change (allowed_ips r) with (str "AllowedIPs " ++ x3d :: [x20] ++ r).
  rewrite split_once_here by (vm_compute; set_solver). f_equal. f_equal.
  rewrite trim_ascii; [|constructor; [done|by apply graphic_ascii]].
  cbn [app drop_while]. change (white_byte x20) with true. cbv iota. rewrite <-trim_ascii by by apply graphic_ascii.
  by apply graphic_trim.
Qed.

(** The relay's route, written into the section of a peer that has none yet. *)
Lemma carried_route p out r :
  route = Some r → carried p out Peer false → carried p (out ++ [allowed_ips r]) Peer true.
Proof.
  intros Hr [Hs He Hk Hd]. destruct (allowed_reads Peer r Hr) as [Hline Hset].
  assert (1 <= peers p) as Hp by (by destruct (ends_peer Nowhere p (eq_sym Hs))).
  assert (bool_decide (is_Some route) = true) as Hn by (apply bool_decide_eq_true; by rewrite Hr).
  split; rewrite ?section_snoc, ?settings_snoc, ?filter_app, ?He, <-?Hs, ?Hset; [done| |..].
  - unfold section_after. by rewrite Hline.
  - rewrite Hk, filter_cons_False, filter_nil, app_nil_r; [done|]. intros Hkeep. apply Hkeep. rewrite Hn. by right.
  - rewrite Hd, filter_cons_True, filter_nil by (rewrite Hn; by right). unfold route_settings. rewrite Hr.
    rewrite bool_decide_eq_true_2 by done. cbn [andb negb].
    replace (Z.to_nat (peers p - 0)) with (Z.to_nat (peers p - 1) + 1)%nat by lia. by rewrite replicate_add.
Qed.

Lemma carried_close p r :
  carried p (output r) (section r) (peer_allowed_ips_written r) →
  ∃ written, carried p (output (close_section route r)) (section r) written ∧
    (is_Some route → section r = Peer → written = true) ∧ (section r ≠ Peer → written = peer_allowed_ips_written r).
Proof.
  intros Hc. unfold close_section. case_bool_decide as Hs; cbn [andb].
  - destruct (peer_allowed_ips_written r) eqn:Ew; cbn [negb]; [by exists true|]. cbn [output].
    unfold allowed_ips_line. destruct (decide (is_Some route)) as [[x Hx]|Hno].
    + exists true. split; [|done]. rewrite Hs in *. rewrite Hx. by apply carried_route.
    + exists false. assert (route = None) as -> by by apply eq_None_not_Some. by rewrite app_nil_r.
  - exists (peer_allowed_ips_written r). done.
Qed.

Lemma close_fields r :
  let r' := close_section route r in
  read_address r' = read_address r ∧ read_endpoint r' = read_endpoint r ∧ private_key r' = private_key r
  ∧ public_key r' = public_key r ∧ peer_count r' = peer_count r
  ∧ peer_allowed_ips_written r' = peer_allowed_ips_written r.
Proof. cbn. unfold close_section. by destruct (bool_decide _ && negb _). Qed.

Lemma rewritten_header p r original :
  rewritten p r → is_section (trim original) = true →
  rewritten (p ++ [original]) (open_section route original (trim original) r).
Proof.
  intros (Hc & [Ha He Hp Hq] & Hn) Hline. destruct (carried_close p r Hc) as (w & [Hs Hends Hk Hd] & Hw & Hw').
  assert (filter (dropped narrow) (said (output (close_section route r))) = route_settings (peers p)) as Hd'.
  { rewrite Hd. unfold route_settings. destruct (decide (is_Some route)) as [Hr|Hno].
    - assert ((if bool_decide (section r = Peer) && negb w then 1 else 0) = 0) as ->; [|by rewrite Z.sub_0_r].
      destruct (decide (section r = Peer)) as [Hsec|Hsec].
      + rewrite bool_decide_eq_true_2 by done. by rewrite (Hw Hr Hsec).
      + by rewrite bool_decide_eq_false_2.
    - assert (route = None) as -> by by apply eq_None_not_Some. done. }
  assert (setting_of (ends p) original = []) as Hset by (unfold setting_of; by rewrite Hline).
  destruct (close_fields r) as (F1 & F2 & F3 & F4 & F5 & F6). unfold open_section. split; [|split].
  - cbn. rewrite F6. split; rewrite ?section_snoc, ?settings_snoc, ?peers_snoc, ?filter_app, ?Hends, ?Hset, ?app_nil_r, ?Hline;
      [unfold section_after; by rewrite Hline|done|done|].
    cbn [andb]. rewrite Hd'. f_equal. destruct (bool_decide (section_of _ = Peer)); cbn [andb negb]; lia.
  - rewrite settings_snoc, Hset, app_nil_r. split; cbn; by rewrite ?F1, ?F2, ?F3, ?F4.
  - cbn. rewrite peers_snoc, Hline, F5. cbn [andb]. destruct (bool_decide (section_of _ = Peer)); lia.
Qed.

Lemma noted_more l d r r' :
  noted l r →
  (if decide (stands Interface (str "address") d) then
     match read_address r with
     | Some _ => read_address r' = read_address r
     | None => ∃ a, parse_ip (first_address (value d)) = Some a ∧ read_address r' = Some a
     end
   else read_address r' = read_address r) →
  read_endpoint r' = (if decide (stands Peer (str "endpoint") d) then Some (value d) else read_endpoint r) →
  private_key r' = (if decide (stands Interface (str "privatekey") d) then negb (bool_decide (value d = [])) else private_key r) →
  public_key r' = (if decide (stands Peer (str "publickey") d) then negb (bool_decide (value d = [])) else public_key r) →
  noted (l ++ [d]) r'.
Proof.
  intros [Ha He Hp Hq] Ha' He' Hp' Hq'.
  assert (∀ s k, values s k (l ++ [d]) = values s k l ++ if decide (stands s k d) then [value d] else []) as Hv.
  { intros s k. rewrite values_app. f_equal. unfold values. rewrite filter_cons, filter_nil. by destruct (decide (stands s k d)). }
  assert (∀ v, negb (bool_decide (v = [])) = true ↔ ∃ v' : list byte, Some v = Some v' ∧ v' ≠ []) as Hne.
  { intros v. rewrite negb_true_iff, bool_decide_eq_false. naive_solver. }
  split; rewrite Hv.
  - destruct (decide (stands Interface (str "address") d)); [|by rewrite app_nil_r, Ha'].
    destruct (values _ _ l) as [|v vs]; cbn [head app] in *; [by rewrite Ha in Ha'|].
    destruct Ha as (a & ? & Ha). rewrite Ha in Ha'. by exists a.
  - rewrite He'. destruct (decide (stands Peer (str "endpoint") d)); [by rewrite last_snoc|by rewrite app_nil_r].
  - rewrite Hp'. destruct (decide (stands Interface (str "privatekey") d)); [rewrite last_snoc; apply Hne|by rewrite app_nil_r].
  - rewrite Hq'. destruct (decide (stands Peer (str "publickey") d)); [rewrite last_snoc; apply Hne|by rewrite app_nil_r].
Qed.

Lemma line_kept p r r' original d :
  rewritten p r → is_section (trim original) = false → setting_of (ends p) original = [d] → kept narrow d →
  output r' = output r ++ [original] → section r' = section r →
  peer_allowed_ips_written r' = peer_allowed_ips_written r → peer_count r' = peer_count r → noted (said p ++ [d]) r' →
  rewritten (p ++ [original]) r'.
Proof.
  intros (Hc & _ & Hn) Hline Hset Hk Hout Hsec Hw Hcount Hnoted. split; [|split].
  - rewrite Hout, Hsec, Hw. apply carried_line; [done|done|]. rewrite Hset, filter_cons_False by exact Hk. done.
  - by rewrite settings_snoc, Hset.
  - by rewrite Hcount, peers_snoc, Hline, Hn, Z.add_0_r.
Qed.

Lemma line_dropped p r original d :
  rewritten p r → is_section (trim original) = false → setting_of (ends p) original = [d] → dropped narrow d →
  noted (said p ++ [d]) r → rewritten (p ++ [original]) r.
Proof.
  intros (Hc & _ & Hn) Hline Hset Hk Hnoted. split; [|split].
  - apply carried_dropped; [done|done|]. rewrite Hset, filter_cons_False; [done|]. intros Hkeep. by apply Hkeep.
  - by rewrite settings_snoc, Hset.
  - by rewrite peers_snoc, Hline, Hn, Z.add_0_r.
Qed.

(** Which of the values read a setting is. *)
Ltac reads_setting Hnoted :=
  eapply noted_more; [exact Hnoted|..]; cbn [place key value];
  repeat first [rewrite decide_True by (split; done)
               |rewrite decide_False by (intros [E1 E2]; cbn [place key] in E1, E2; first [discriminate | congruence])]; try done.

Lemma kept_interface k v : bool_decide (k ∈ side_effects) = false → kept narrow (mk_setting Interface k v).
Proof. intros Hk%bool_decide_eq_false [[_ ?]|[_ [[=] _]]]. done. Qed.

Lemma interface_line_ok p r original k v :
  rewritten p r → section r = Interface → is_section (trim original) = false →
  setting_of (ends p) original = [mk_setting Interface k v] →
  match interface_line k v original r with
  | Ok r' => rewritten (p ++ [original]) r'
  | Err _ => head (values Interface (str "address") (said p)) = None ∧ k = str "address" ∧ parse_ip (first_address v) = None
  end.
Proof.
  intros Hr Hs Hline Hset. pose proof Hr as (_ & Hnoted & _). unfold interface_line.
  case_bool_decide as E; [subst k|case_bool_decide as E'; [subst k|case_bool_decide as E'']].
  - destruct (read_address r) as [a|] eqn:Ea.
    + eapply line_kept; try done; [by apply kept_interface|]. reads_setting Hnoted. by rewrite Ea.
    + destruct (parse_ip (first_address v)) as [a|] eqn:Ep.
      * eapply line_kept; try done; [by apply kept_interface|]. reads_setting Hnoted. rewrite Ea. by exists a.
      * split; [|done]. destruct Hnoted as [Ha _ _ _]. destruct (head _); [|done].
        destruct Ha as (a & _ & Ha). congruence.
  - eapply line_kept; try done; [by apply kept_interface|]. by reads_setting Hnoted.
  - eapply line_dropped; try done; [by left|]. reads_setting Hnoted.
  - eapply line_kept; try done; [by apply kept_interface, bool_decide_eq_false|]. by reads_setting Hnoted.
Qed.

Lemma kept_peer k v : k ≠ str "allowedips" → kept narrow (mk_setting Peer k v).
Proof. intros Hk [[[=] _]|[_ [_ ?]]]. done. Qed.

Lemma peer_line_ok p r original k v :
  rewritten p r → section r = Peer → is_section (trim original) = false →
  setting_of (ends p) original = [mk_setting Peer k v] → rewritten (p ++ [original]) (peer_line route k v original r).
Proof.
  intros Hr Hs Hline Hset. pose proof Hr as (Hc & Hnoted & Hn). unfold peer_line.
  case_bool_decide as E; [subst k|case_bool_decide as E'; [subst k|case_bool_decide as E''; [subst k|]]].
  - eapply line_kept; try done; [by apply kept_peer|]. by reads_setting Hnoted.
  - eapply line_kept; try done; [by apply kept_peer|]. by reads_setting Hnoted.
  - assert (noted (said p ++ [mk_setting Peer (str "allowedips") v]) r) as Hsame by by reads_setting Hnoted.
    unfold allowed_line. destruct (decide (is_Some route)) as [[x Hx]|Hno].
    + assert (dropped narrow (mk_setting Peer (str "allowedips") v)) as Hdrop
        by (right; rewrite bool_decide_eq_true_2 by (by eexists); done).
      rewrite Hx. destruct (peer_allowed_ips_written r) eqn:Ew; [by eapply line_dropped|].
      pose proof (line_dropped p r original _ Hr Hline Hset Hdrop Hsame) as (Hc' & Hn' & Hp').
      split; [|split; [|exact Hp']]; cbn.
      * rewrite Hs, Ew in *. by apply carried_route.
      * destruct Hn'. by split.
    + assert (route = None) as Hnone by by apply eq_None_not_Some.
      rewrite Hnone. eapply line_kept; try done; [|by destruct Hsame].
      intros [[[=] _]|[Hnarrow%bool_decide_eq_true _]]. done.
  - eapply line_kept; try done; [by apply kept_peer|]. by reads_setting Hnoted.
Qed.

Lemma read_line_ok p r original :
  rewritten p r →
  match read_line route original r with
  | Ok r' => rewritten (p ++ [original]) r'
  | Err _ => ∃ v, head (values Interface (str "address") (said (p ++ [original]))) = Some v ∧ parse_ip (first_address v) = None
  end.
Proof.
  intros Hr. unfold read_line. destruct (is_section (trim original)) eqn:Hline; [by apply rewritten_header|].
  pose proof Hr as ([Hs _ _ _] & Hnoted & Hn).
  destruct (split_once x3d (trim original)) as [[raw_key raw_value]|] eqn:Esplit.
  - set (k := to_ascii_lowercase (trim raw_key)). set (v := trim raw_value).
    assert (setting_of (ends p) original = [mk_setting (section r) k v]) as Hset
      by (unfold setting_of; by rewrite Hline, Esplit, Hs).
    destruct (section r) eqn:Es.
    + eapply line_kept; try done; [by intros [[[=] _]|[_ [[=] _]]]|]. by reads_setting Hnoted.
    + pose proof (interface_line_ok p r original k v Hr Es Hline Hset) as Hi.
      destruct (interface_line k v original r); [done|]. destruct Hi as (Hnone & -> & Hbad). exists v. split; [|done].
      rewrite settings_snoc, Hset, values_app. by destruct (values _ _ (said p)).
    + by apply peer_line_ok.
    + eapply line_kept; try done; [by intros [[[=] _]|[_ [[=] _]]]|]. by reads_setting Hnoted.
  - assert (setting_of (ends p) original = []) as Hset by (unfold setting_of; by rewrite Hline, Esplit).
    split; [|split]; cbn.
    + apply carried_line; [by apply Hr|done|by rewrite Hset].
    + rewrite settings_snoc, Hset, app_nil_r. destruct Hnoted. by split.
    + by rewrite peers_snoc, Hline, Hn, Z.add_0_r.
Qed.

Lemma read_lines_ok p lines r :
  rewritten p r →
  match read_lines route lines r with
  | Ok r' => rewritten (p ++ lines) r'
  | Err _ => ∃ v, head (values Interface (str "address") (said (p ++ lines))) = Some v ∧ parse_ip (first_address v) = None
  end.
Proof.
  revert p r. induction lines as [|line rest IH]; intros p r Hr; cbn [read_lines]; [by rewrite app_nil_r|].
  pose proof (read_line_ok p r line Hr) as Hl. destruct (read_line route line r) as [r'|e].
  - specialize (IH _ _ Hl). by rewrite <-app_assoc in IH.
  - destruct Hl as (v & Hv & Hbad). exists v. split; [|done].
    replace (p ++ line :: rest) with ((p ++ [line]) ++ rest) by by rewrite <-app_assoc.
    rewrite sections_app, values_app. by destruct (values _ _ (said (p ++ [line]))).
Qed.
End rewriting.

(** ** The whole file *)

Definition strip_return (line : list byte) : list byte := default line (strip_suffix [x0d] line).

Lemma trim_strip line : trim (strip_return line) = trim line.
Proof.
  unfold strip_return. destruct (strip_suffix [x0d] line) as [l|] eqn:E; [|done].
  apply strip_suffix_Some in E as ->. cbn. by rewrite trim_white_r.
Qed.

Lemma settings_strip s lines : settings_from s (strip_return <$> lines) = settings_from s lines.
Proof.
  revert s. induction lines as [|line rest IH]; intros s; [done|]. cbn [fmap list_fmap settings_from].
  unfold setting_of, section_after. by rewrite trim_strip, IH.
Qed.

Lemma lines_of_join lines :
  Forall (λ line, x0a ∉ line) lines → str_lines (join_with x0a (lines ++ [[]])) = strip_return <$> lines.
Proof.
  intros Hl. unfold str_lines. rewrite split_join.
  - clear Hl. induction lines as [|line [|next rest] IH]; [done..|]. cbn [app line_pieces fmap list_fmap] in *.
    by rewrite IH.
  - by destruct lines.
  - apply Forall_app. split; [done|]. repeat constructor. by intros ?%elem_of_nil.
Qed.

Lemma str_lines_clean text : Forall (λ line, x0a ∉ line) (str_lines text).
Proof.
  unfold str_lines. pose proof (split_on_clean x0a text) as Hc. induction Hc as [|piece [|next rest] Hp _ IH]; [constructor| |].
  - cbn. destruct piece; [constructor|by repeat constructor].
  - cbn [line_pieces] in *. constructor; [|exact IH]. fold (strip_return piece). unfold strip_return.
    destruct (strip_suffix [x0d] piece) as [l|] eqn:E; [|done]. apply strip_suffix_Some in E as ->. cbn. set_solver.
Qed.

Section files.
Context `{!Platform}.

(** Every line that is written was read, or is the relay's. *)
Lemma output_kept (P : list byte → Prop) route lines r r' :
  (∀ x, route = Some x → P (allowed_ips x)) → Forall P lines → Forall P (output r) →
  read_lines route lines r = Ok r' → Forall P (output (close_section route r')).
Proof.
  intros Hroute Hlines.
  assert (∀ r, Forall P (output r) → Forall P (output (close_section route r))) as Hclose.
  { intros r0 H0. unfold close_section. destruct (bool_decide _ && negb _); [|done]. cbn. apply Forall_app. split; [done|].
    destruct route; cbn; [|constructor]. constructor; [by apply Hroute|constructor]. }
  revert r. induction Hlines as [|line rest Hline _ IH]; intros r Hr; cbn [read_lines]; [intros [= <-]; by apply Hclose|].
  assert (∀ r0, output r0 = output r → Forall P (output (keep_line r0 line))) as Hkeep.
  { intros r0 E. cbn. apply Forall_app. rewrite E. split; [done|]. by repeat constructor. }
  destruct (read_line route line r) as [r1|] eqn:E; [|done]. apply IH. unfold read_line in E.
  destruct (is_section (trim line)).
  - injection E as <-. unfold open_section. cbn. apply Forall_app. split; [by apply Hclose|by repeat constructor].
  - destruct (split_once x3d (trim line)) as [[k v]|]; [|injection E as <-; by apply Hkeep].
    destruct (section r); try (injection E as <-; by apply Hkeep).
    + unfold interface_line in E. repeat case_bool_decide; try (injection E as <-; done || by apply Hkeep).
      destruct (read_address r); [injection E as <-; by apply Hkeep|].
      destruct (parse_ip _); [|done]. injection E as <-. by apply Hkeep.
    + injection E as <-. unfold peer_line. repeat case_bool_decide; try by apply Hkeep.
      unfold allowed_line. destruct route as [x|]; [|by apply Hkeep].
      destruct (peer_allowed_ips_written r); [done|]. cbn. apply Forall_app. split; [done|].
      constructor; [by apply Hroute|constructor].
Qed.
End files.

(** ** What the engine finds *)

(** The name of a section as the engine compares it. *)
Definition named (s : Section_) : list byte :=
  match s with Interface => str "interface" | Peer => str "peer" | _ => [] end.

Lemma section_named s line :
  s = Interface ∨ s = Peer → is_section line = true →
  eq_ignore_ascii_case (sub line 1 (zlen line - 1)) (named s) = bool_decide (section_of line = s).
Proof.
  intros Hs [Ho Hc]%andb_true_iff. apply bool_decide_eq_true in Ho as [m Ho], Hc as [m' Hc].
  apply strip_prefix_Some in Ho as ->. cbn [app] in *. apply strip_suffix_Some in Hc.
  destruct m' as [|b m']; [done|]. injection Hc as <- ->.
  assert (sub (x5b :: m' ++ [x5d]) 1 (zlen (x5b :: m' ++ [x5d]) - 1) = m') as ->.
  { change (x5b :: m' ++ [x5d]) with ([x5b] ++ m' ++ [x5d]). unfold sub, zlen. rewrite !length_app. cbn [length].
    rewrite drop_app_length' by done. apply take_app_length'. lia. }
  unfold eq_ignore_ascii_case, section_of. apply bool_decide_ext.
  assert (to_ascii_lowercase (x5b :: m' ++ [x5d]) = x5b :: to_ascii_lowercase m' ++ [x5d]) as ->
    by (unfold to_ascii_lowercase; by rewrite fmap_cons, fmap_app).
  assert (∀ name, x5b :: to_ascii_lowercase m' ++ [x5d] = x5b :: name ++ [x5d] ↔ to_ascii_lowercase m' = name) as Hname.
  { intros name. split; [|by intros ->]. intros [= E]. by apply (inj (.++ [x5d])) in E. }
  change (str "[interface]") with (x5b :: str "interface" ++ [x5d]).
  change (str "[peer]") with (x5b :: str "peer" ++ [x5d]).
  destruct Hs as [-> | ->]; cbn [named]; change (to_ascii_lowercase (str ?x)) with (str x).
  - case_bool_decide as E; rewrite Hname in E; [done|]. case_bool_decide; by split; intros ?.
  - case_bool_decide as E; rewrite Hname in E; [rewrite E; by split|].
    case_bool_decide as E'; rewrite Hname in E'; by split.
Qed.

Lemma values_found s k lines at_ :
  s = Interface ∨ s = Peer → to_ascii_lowercase k = k →
  find_value (named s) k lines (bool_decide (at_ = s)) = head (values s k (settings_from at_ lines)).
Proof.
  intros Hs Hk. revert at_. induction lines as [|line rest IH]; intros at_; [done|].
  cbn [find_value settings_from]. unfold setting_of, section_after. destruct (is_section (trim line)) eqn:Hline.
  - rewrite section_named by done. apply IH.
  - rewrite values_app. destruct (decide (at_ = s)) as [->|Hne].
    + rewrite bool_decide_eq_true_2 by done. cbn [negb].
      specialize (IH s). rewrite bool_decide_eq_true_2 in IH by done.
      destruct (split_once x3d (trim line)) as [[key value]|]; [|exact IH].
      unfold eq_ignore_ascii_case. rewrite Hk. unfold values at 1. rewrite filter_cons, filter_nil.
      case_bool_decide as E.
      * rewrite decide_True by done. done.
      * rewrite decide_False by by intros [_ ?]. exact IH.
    + rewrite bool_decide_eq_false_2 by done. cbn [negb]. specialize (IH at_). rewrite bool_decide_eq_false_2 in IH by done.
      destruct (split_once x3d (trim line)) as [[key value]|]; [|exact IH].
      unfold values at 1. rewrite filter_cons, filter_nil, decide_False by by intros [? _]. exact IH.
Qed.

Section narrowing.
Context `{!Platform} `{!PlatformLaws}.

Definition is_address (a : IpAddr) : Prop :=
  match a with V4 octets => zlen octets = 4 | V6 octets => ∃ text, parse_ipv6 text = Some octets end.

Lemma route_graphic a : is_address a → Forall (λ b, graphic b = true) (relay_route a) ∧ relay_route a ≠ [].
Proof.
  intros Ha. split.
  - unfold relay_route. apply Forall_app. split; [|by destruct a; repeat constructor].
    destruct a as [o|o]; cbn in *.
    + eapply Forall_impl; [apply dotted_text; unfold zlen in Ha; lia|by intros b []].
    + destruct Ha as [t Ht]. eapply Forall_impl; [by eapply ipv6_graphic|]. by intros b [? _].
  - unfold relay_route. destruct a; by intros [_ ?]%app_eq_nil.
Qed.

(** The values the engine requires of a file. *)
Definition required : list (Section_ * list byte) :=
  [(Interface, str "privatekey"); (Interface, str "address"); (Peer, str "publickey"); (Peer, str "endpoint")].

Lemma usable_is_found config a e :
  usable (str_lines config) a e →
  Forall (λ sk, ∃ v, required_value config (named sk.1) sk.2 = Ok v) required.
Proof.
  intros [(k & Hk & _) _ (p & Hp & _) (v & Hv & _) He].
  assert (∀ s key, s = Interface ∨ s = Peer → to_ascii_lowercase key = key →
    values s key (settings config) ≠ [] → ∃ x, required_value config (named s) key = Ok x) as Hfound.
  { intros s key Hs Hkey Hne. unfold required_value, section_value.
    pose proof (values_found s key (str_lines config) Nowhere Hs Hkey) as Hf.
    rewrite bool_decide_eq_false_2 in Hf by (by destruct Hs; subst). rewrite Hf. unfold settings in Hne.
    destruct (values s key (settings_from Nowhere (str_lines config))) as [|x]; [done|]. by exists x. }
  unfold required. repeat apply Forall_cons_2; [..|constructor]; cbn [fst snd]; (apply Hfound; [tauto|done|]);
    unfold settings; intros E; first [by rewrite E in Hk|by rewrite E in Hv|by rewrite E in Hp|by rewrite E in He].
Qed.

(** What [parse] makes of any file. *)
Lemma parse_narrows config relay (Hrelay : from_option is_address True relay) :
  let narrow := bool_decide (is_Some relay) in
  match parse config relay with
  | Ok r =>
      usable (str_lines config) (tunnel_address r) (endpoint r) ∧
      Forall (λ sk, ∃ v, required_value config (named sk.1) sk.2 = Ok v) required ∧
      filter (kept narrow) (settings (source r)) = filter (kept narrow) (settings config) ∧
      filter (dropped narrow) (settings (source r)) =
        from_option (λ a, [mk_setting Peer (str "allowedips") (relay_route a)]) [] relay
  | Err _ => ¬ ∃ a e, usable (str_lines config) a e
  end.
Proof.
  intros narrow. unfold parse. set (route := relay_route <$> relay).
  assert (∀ r, route = Some r → Forall (λ b, graphic b = true) r ∧ r ≠ []) as Hclean.
  { intros r (a & -> & ->)%fmap_Some. by apply route_graphic. }
  assert (bool_decide (is_Some route) = narrow) as Hnarrow by (unfold narrow, route; by destruct relay).
  assert (rewritten route [] new_reading) as Hstart.
  { split; [|split; [|done]]; split; try done; cbn; [by destruct route|by split; [|intros (? & ? & _)]..]. }
  pose proof (read_lines_ok route Hclean [] (str_lines config) new_reading Hstart) as Hread.
  pose proof (output_kept (λ line, x0a ∉ line) route (str_lines config) new_reading) as Hlines.
  destruct (read_lines route (str_lines config) new_reading) as [r|e].
  - destruct Hread as (Hc & [Ha He Hp Hq] & Hn). cbn [app] in *.
    destruct (carried_close route Hclean _ r Hc) as (w & [_ _ Hk Hd] & Hw & _).
    destruct (close_fields route r) as (F1 & F2 & F3 & F4 & F5 & _). unfold finish. rewrite F1, F2, F3, F4, F5.
    assert (∀ a, private_key r = true → peer_count r = 1 → public_key r = true → read_address r = Some a →
      ∀ e, read_endpoint r = Some e → usable (str_lines config) a e) as Husable.
    { intros a Hp' Hn' Hq' Ha' e He'. split; [by apply Hp|congruence|by apply Hq| |congruence].
      destruct (head _) as [v|]; [|congruence]. exists v. split; [done|]. destruct Ha as (a' & ? & ?). congruence. }
    assert ((∃ a e, usable (str_lines config) a e) → private_key r = true ∧ peer_count r = 1 ∧ public_key r = true
      ∧ is_Some (read_address r) ∧ is_Some (read_endpoint r)) as Hneeds.
    { intros (a & e & [Uk Up Upub (v & Hv & _) Ue]). split_and!; [by apply Hp|congruence|by apply Hq| |by rewrite He, Ue].
      rewrite Hv in Ha. destruct Ha as (a' & _ & ->). done. }
    destruct (private_key r); cbn [negb]; [|by intros (? & _)%Hneeds].
    destruct (Z.eqb_spec (peer_count r) 1) as [E1|]; cbn [negb]; [|by intros (_ & ? & _)%Hneeds].
    destruct (public_key r); cbn [negb]; [|by intros (_ & _ & ? & _)%Hneeds].
    destruct (read_address r) as [a|]; [|by intros (_ & _ & _ & [? ?] & _)%Hneeds].
    destruct (read_endpoint r) as [e|]; [|by intros (_ & _ & _ & _ & [? ?])%Hneeds].
    cbn [tunnel_address endpoint source]. split; [by apply Husable|]. split; [by eapply usable_is_found, Husable|].
    unfold settings. rewrite lines_of_join, settings_strip, <-Hnarrow; [|eapply Hlines; [..|reflexivity]].
    + split; [exact Hk|]. rewrite Hd, <-Hn, E1. unfold route_settings, route. destruct relay as [a'|]; [|done].
      destruct (decide (section r = Peer)) as [Hs|Hs].
      * rewrite (Hw ltac:(by eexists) Hs). by rewrite andb_false_r.
      * by rewrite bool_decide_eq_false_2.
    + intros x Hx. destruct (Hclean x Hx) as [Hg _]. unfold allowed_ips. intros [Hin|Hin]%elem_of_app.
      * by apply (bool_decide_pack _) in Hin.
      * rewrite Forall_forall in Hg. specialize (Hg _ Hin). done.
    + apply str_lines_clean.
    + constructor.
  - intros (a & e' & [_ _ _ (v & Hv & Ha) _]). destruct Hread as (v' & Hv' & Hbad). cbn [app] in Hv'. congruence.
Qed.
(** C31. A configuration is accepted exactly when it gives a private key, one peer with its
    public key and endpoint, and an interface whose first address can be read, and the
    address and endpoint returned are those; the engine then finds each value that it
    requires. Read back, the file that is written says
    what the provider's said, in order, without the settings that act on the machine;
    and when there is a relay its peer routes the relay's address and nothing else. *)
Theorem configurations_are_narrowed config relay (Hrelay : from_option is_address True relay) :
  let narrow := bool_decide (is_Some relay) in
  match parse config relay with
  | Ok r =>
      usable (str_lines config) (tunnel_address r) (endpoint r) ∧
      Forall (λ sk, ∃ v, required_value config (named sk.1) sk.2 = Ok v) required ∧
      filter (kept narrow) (settings (source r)) = filter (kept narrow) (settings config) ∧
      filter (dropped narrow) (settings (source r)) =
        from_option (λ a, [mk_setting Peer (str "allowedips") (relay_route a)]) [] relay
  | Err _ => ¬ ∃ a e, usable (str_lines config) a e
  end.
Proof. by apply parse_narrows. Qed.
End narrowing.

(** *** A provider's file *)

Module ToyPlatform.
#[export] Instance platform : Platform :=
  {| is_absolute _ := false; extension _ := None; to_lowercase := to_ascii_lowercase; parse_ipv6 _ := None;
     print_ipv6 a := a |}.
#[export] Instance laws : PlatformLaws.
Proof.
  split; [done..|]. intros s. cbn. unfold to_ascii_lowercase. rewrite <-list_fmap_compose. apply list_fmap_ext.
  intros _ b _. by destruct b.
Qed.
End ToyPlatform.
Import ToyPlatform.

Definition toy_config : list byte :=
  str "[Interface]" ++ [x0d; x0a] ++ str "PrivateKey = private-value" ++ [x0a] ++ str "Address = 10.88.0.2/32, fd00::2"
  ++ [x0a] ++ str "DNS = 1.1.1.1" ++ [x0a] ++ str "MTU = 1280" ++ [x0a; x0a] ++ str "[Peer]" ++ [x0a]
  ++ str "PublicKey = public-value" ++ [x0a] ++ str "AllowedIPs = 0.0.0.0/0, ::/0" ++ [x0a]
  ++ str "Endpoint = vpn.example:51820" ++ [x0a].

Lemma toy_config_narrowed :
  narrow_to_relay toy_config (V4 [xcb; x00; x71; x08]) = Ok (mk_runtime
    (str "[Interface]" ++ [x0a] ++ str "PrivateKey = private-value" ++ [x0a] ++ str "Address = 10.88.0.2/32, fd00::2"
     ++ [x0a; x0a] ++ str "[Peer]" ++ [x0a] ++ str "PublicKey = public-value" ++ [x0a] ++ str "AllowedIPs = 203.0.113.8/32"
     ++ [x0a] ++ str "Endpoint = vpn.example:51820" ++ [x0a])
    (V4 [x0a; x58; x00; x02]) (str "vpn.example:51820"))
  ∧ interface_mtu toy_config = Some 1280.
Proof. by vm_compute. Qed.

Lemma configurations_are_narrowed_witness :
  match parse toy_config (Some (V4 [xcb; x00; x71; x08])) with
  | Ok r =>
      usable (str_lines toy_config) (tunnel_address r) (endpoint r) ∧
      Forall (λ sk, ∃ v, required_value toy_config (named sk.1) sk.2 = Ok v) required ∧
      filter (kept true) (settings (source r)) = filter (kept true) (settings toy_config) ∧
      filter (dropped true) (settings (source r)) =
        [mk_setting Peer (str "allowedips") (relay_route (V4 [xcb; x00; x71; x08]))]
  | Err _ => ¬ ∃ a e, usable (str_lines toy_config) a e
  end.
Proof. apply (configurations_are_narrowed toy_config (Some (V4 [xcb; x00; x71; x08]))). by vm_compute. Defined.
