(* ===== verification/WireGuardOpen.v ===== *)
(** * WireGuardOpen: what a WireGuard node's own transport reads of its file

    [UserSpaceWireGuardPath::from_config] of [engine/src/userspace_wireguard.rs], up to
    the sockets and the tunnel of the boringtun crate. It reads the provider's file by
    itself, and not what [WireGuardConfig] made of it; the theorem here says which of
    the files that the service accepts it can refuse, and with what. *)
From S2P Require Import Prelude Text Policy WireGuardConfig.

(** The [base64] crate's [STANDARD.decode]. *)
Class Base64 : Type := { decode64 : list byte → option (list byte) }.

Definition not_base64 : list byte := str "WireGuard key is not valid base64".
Definition not_32_bytes : list byte := str "WireGuard key must contain 32 bytes".
Definition not_ipv4 : list byte := str "user-space WireGuard currently requires an IPv4 Interface Address".
Definition invalid_keepalive : list byte := str "invalid PersistentKeepalive".

(** What the socket and the tunnel are made of. *)
Record Opening := mk_opening {
  own_key : list byte;
  server_key : list byte;
  preshared_key : option (list byte);
  own_address : list byte;
  endpoint_text : list byte;
  persistent_keepalive : option Z
}.

(** [Option::map(f).transpose()]. *)
Definition transposed {A B} (f : A → result (list byte) B) (o : option A) : result (list byte) (option B) :=
  match o with None => Ok None | Some a => b ← f a; Ok (Some b) end.

Definition read_keepalive (value : list byte) : result (list byte) Z :=
  match parse_u16 value with Some seconds => Ok seconds | None => Err invalid_keepalive end.

Definition read_own_address (value : list byte) : result (list byte) (list byte) :=
  match parse_ipv4 (first_address value) with Some address => Ok address | None => Err not_ipv4 end.

Section opening.
Context `{!Base64}.

Definition decode_key (value : list byte) : result (list byte) (list byte) :=
  match decode64 (trim value) with
  | None => Err not_base64
  | Some decoded => if zlen decoded =? 32 then Ok decoded else Err not_32_bytes
  end.

(** [from_config] up to its socket. The endpoint is resolved just before the keepalive
    is read: that is the network's, and an error of its may come first. *)
Definition read_opening (source : list byte) : result (list byte) Opening :=
  private ← required_value source (str "interface") (str "privatekey");
  own_key ← decode_key private;
  public ← required_value source (str "peer") (str "publickey");
  server_key ← decode_key public;
  preshared ← transposed decode_key (section_value source (str "peer") (str "presharedkey"));
  address ← required_value source (str "interface") (str "address");
  own_address ← read_own_address address;
  endpoint ← required_value source (str "peer") (str "endpoint");
  keepalive ← transposed read_keepalive (section_value source (str "peer") (str "persistentkeepalive"));
  Ok (mk_opening own_key server_key preshared own_address endpoint keepalive).

(** What the transport can refuse in a file that gives the values it requires. *)
Definition unreadable : list (list byte) :=
  [str "WireGuard key is not valid base64"; str "WireGuard key must contain 32 bytes";
   str "user-space WireGuard currently requires an IPv4 Interface Address"; str "invalid PersistentKeepalive"].

Lemma decode_key_refuses value e : decode_key value = Err e → e ∈ unreadable.
Proof.
  unfold decode_key. destruct (decode64 _) as [d|]; [destruct (zlen d =? 32)|]; intros [= <-].
  - by right; left.
  - by left.
Qed.

Lemma transposed_refuses {A B} (f : A → result (list byte) B) o e :
  transposed f o = Err e → ∃ a, o = Some a ∧ f a = Err e.
Proof. destruct o as [a|]; cbn; [|done]. destruct (f a) eqn:E; cbn; [done|]. intros [= <-]. by exists a. Qed.

(** A file that is usable has all the values that the transport requires. *)
Lemma usable_opens `{!Platform} config a e error :
  usable (str_lines config) a e → read_opening config = Err error → error ∈ unreadable.
Proof.
  intros Hu Hopen. pose proof (usable_is_found config a e Hu) as Hf. unfold required in Hf.
  rewrite !Forall_cons in Hf. destruct Hf as ((k & Hk) & (v & Hv) & (p & Hp) & (t & Ht) & _). cbn [fst snd named] in *.
  unfold read_opening in Hopen. rewrite Hk, Hp, Hv, Ht in Hopen. cbn [mbind result_bind] in Hopen.
  destruct (decode_key k) as [own|] eqn:E1; cbn [mbind result_bind] in Hopen;
    [|injection Hopen as <-; by eapply decode_key_refuses].
  destruct (decode_key p) as [server|] eqn:E2; cbn [mbind result_bind] in Hopen;
    [|injection Hopen as <-; by eapply decode_key_refuses].
  destruct (transposed decode_key _) as [shared|] eqn:E3; cbn [mbind result_bind] in Hopen;
    [|injection Hopen as <-; apply transposed_refuses in E3 as (? & _ & ?); by eapply decode_key_refuses].
  unfold read_own_address in Hopen.
  destruct (parse_ipv4 _) as [own_ip|]; cbn [mbind result_bind] in Hopen;
    [|injection Hopen as <-; by right; right; left].
  destruct (transposed read_keepalive _) as [alive|] eqn:E4; cbn [mbind result_bind] in Hopen; [done|].
  injection Hopen as <-. apply transposed_refuses in E4 as (t' & _ & Et). unfold read_keepalive in Et.
  destruct (parse_u16 t'); [done|]. injection Et as <-. by right; right; right; left.
Qed.
End opening.
