(* ===== verification/SplitState.v ===== *)
(** * SplitState: what the threads of a split capture share

    The state of [engine/src/split_capture.rs]: the fields of [Registry] that change
    and the return paths, each mutex or atomic a field, with what Windows answers
    ([World], which the environment changes at will). [log] records what was handed
    to WinDivert and to the session, and each return path as it was recorded; no
    operation reads it. The registry's fixed fields are [Registry]. Log lines, packet
    diagnostics and timings are left out. *)
From S2P Require Import Prelude Text Mtu Fragments FragmentRouter DirectList Threads SplitTable.

(** ** What Windows answers *)

(** The network part of a [WINDIVERT_ADDRESS]; [outbound] is its flag. *)
Record Address := mk_address { outbound : bool; interface_index : Z; subinterface_index : Z }.
Definition inbound_address (interface subinterface : Z) : Address := mk_address false interface subinterface.

(** Rows of the socket tables, as the [DWORD]s they are. *)
Record UdpRow := mk_udp_row { udp_dwLocalAddr : Z; udp_dwLocalPort : Z; udp_dwOwningPid : Z }.
Record TcpRow := mk_tcp_row {
  tcp_dwLocalAddr : Z;
  tcp_dwLocalPort : Z;
  tcp_dwRemoteAddr : Z;
  tcp_dwRemotePort : Z;
  tcp_dwOwningPid : Z
}.

(** [now] and [unix_time] are [Instant::now] and [SystemTime::now] (in seconds);
    [handle_send] and [helper_checksums] are WinDivert's, [tunnel] the senders of the
    running session, [process_path] the image of a process in lower case. *)
Record World := mk_world {
  now : Z;
  unix_time : Z;
  handle_send : list byte → Address → bool;
  helper_checksums : Z → list byte → option (list byte);
  tunnel : list byte → Z → result (list byte) bool;
  udp_rows : option (list UdpRow);
  tcp_rows : option (list TcpRow);
  tcp_listeners : option (list TcpRow);
  process_path : Z → option (list byte);
  exit_sockets : gmap (Z * list byte * Z) (option Z)
}.

(** ** Flows *)

Record ReturnKey := mk_return_key {
  key_protocol : Z;
  key_remote_ip : list byte;
  key_local_port : Z;
  key_remote_port : Z
}.
#[export] Instance ReturnKey_eq_dec : EqDecision ReturnKey.
Proof. solve_decision. Defined.
#[export] Instance ReturnKey_countable : Countable ReturnKey :=
  inj_countable' (λ k, (key_protocol k, key_remote_ip k, key_local_port k, key_remote_port k))
    (λ t, mk_return_key t.1.1.1 t.1.1.2 t.1.2 t.2) (λ '(mk_return_key _ _ _ _), eq_refl).

Definition outbound_key (fields : Ipv4Fields) : ReturnKey :=
  mk_return_key (SplitTable.protocol fields) (SplitTable.destination fields) (source_port fields) (destination_port fields).
Definition inbound_key (fields : Ipv4Fields) : ReturnKey :=
  mk_return_key (SplitTable.protocol fields) (SplitTable.source fields) (destination_port fields) (source_port fields).

(** [usage] is the key of the shared [AppUsage]. *)
Record ReturnPath := mk_return_path {
  local_ip : list byte;
  path_interface : Z;
  path_subinterface : Z;
  path_process : option Z;
  usage : list byte;
  last_seen : Z;
  resolver : option (list byte);
  path_node : Z
}.

Record HandledConnection := mk_handled {
  handled_application : list byte;
  destination_ip : list byte;
  handled_port : Z;
  handled_protocol : list byte;
  started_at : Z;
  handled_process : option Z;
  handled_node : Z
}.

Record DestinationLog := mk_destination_log { window_started : Z; logged : gset (Z * list byte * Z) }.

Record Bypass := mk_bypass { bypass_packet : list byte; bypass_address : Address }.

Record PendingSyn := mk_pending {
  pending_packet : list byte;
  pending_address : Address;
  pending_fields : Ipv4Fields;
  deadline : Z
}.

(** The process that listens on a proxy's port and when that was checked, and the
    owners of sockets looked up before. *)
Record ProxyIdentity := mk_proxy {
  proxy_process : option Z * option Z;
  proxy_udp_owners : gmap Z (bool * Z);
  proxy_tcp_flows : gmap (list byte * Z * list byte * Z) (bool * Z)
}.

(** ** Counters and outputs *)

Inductive Count : Type :=
| held_packets | redirected_dns | fake_ip_packets | direct_packets | capture_receive_errors
| pending_syn_depth | pending_syn_peak | pending_syn_overflow | matched_sockets | bypass_queue_full
| fragmentation_needed_sent | fragmentation_needed_failed | fragments_discarded | icmp_errors_delivered
| outbound_fragments_followed | captured_packets | captured_bytes | relayed_packets | bypassed_packets
| relay_return_packets | tunnelled_dns | local_destinations | injected_return_packets
| reassembled_return_packets | return_not_ipv4 | return_wrong_destination | return_without_flow
| unmatched_return_packets | return_injection_errors.

#[export] Instance Count_eq_dec : EqDecision Count.
Proof. solve_decision. Defined.

(** [Bypassed] is a captured packet put back as it was, [Injected] one delivered to
    this machine, [Tunnelled] one handed to the session; [Recorded] and [Forgotten]
    are a return path's beginning and end, and [Exempted] says that the code found a
    packet to be GamePath's or a proxy's own. *)
Inductive Output : Type :=
| Bypassed (packet : list byte) (address : Address)
| Injected (packet : list byte) (address : Address)
| Tunnelled (packet : list byte) (node : Z)
| Recorded (key : ReturnKey) (path : ReturnPath)
| Forgotten (key : ReturnKey)
| Exempted (fields : Ipv4Fields).

(** ** The registry *)

Record NodeLimits := mk_limits { limit_mss : Z; limit_mtu : Z }.
Definition limits_of (mtu : EffectiveMtu) : NodeLimits := mk_limits (unfragmented mtu - 40) (unfragmented mtu).

(** The fields of [Registry] that stay as they are; a proxy is its node, its
    address and its port. *)
Record Registry := mk_registry {
  kill_switch : bool;
  relay_reassembles : bool;
  node_limits : list NodeLimits;
  targets : TargetNodes;
  proxy_nodes : Z;
  fake_ip_node : option Z;
  proxies : list (Z * list byte * Z);
  own_hostnames : gset (list byte);
  direct : DirectList;
  applications : list (list byte);
  folders : list (list byte);
  rule_hostnames : list (list byte);
  system_root : list byte
}.

(** ** The shared state *)

Record Capture := mk_capture {
  world : World;
  stop : bool;
  redirect_dns : bool;
  dns_own_apps_only : bool;
  yield_foreign_lookups : bool;
  addresses : list (list byte);
  lookup_ports : gmap (Z * Z) (bool * Z);
  lookup_processes : gmap Z (bool * Z);
  udp_bypassed : gmap (list byte * Z) Z;
  fragments : FragmentRouter Address;
  proxy_identities : list ProxyIdentity;
  destination_labels : gmap (list byte) (list byte);
  direct_learned : gmap (list byte) (list byte);
  selector_state : SelectorState;
  table : SelectorTable;
  table_version : Z;
  return_paths : gmap ReturnKey ReturnPath;
  handled_connections : gmap ReturnKey HandledConnection;
  app_usage : gmap (list byte) (Z * Z);
  logged_destinations : DestinationLog;
  bypass : list Bypass;
  bypass_queued_bytes : Z;
  pending_syns : list PendingSyn;
  counts : Count → Z;
  log : list Output
}.

Definition with_world (s : Capture) (x : World) : Capture :=
  mk_capture x (stop s) (redirect_dns s) (dns_own_apps_only s) (yield_foreign_lookups s)
  (addresses s) (lookup_ports s) (lookup_processes s) (udp_bypassed s) (fragments s)
  (proxy_identities s) (destination_labels s) (direct_learned s) (selector_state s) (table s)
  (table_version s) (return_paths s) (handled_connections s) (app_usage s) (logged_destinations s)
  (bypass s) (bypass_queued_bytes s) (pending_syns s) (counts s) (log s).
Definition with_stop (s : Capture) (x : bool) : Capture :=
  mk_capture (world s) x (redirect_dns s) (dns_own_apps_only s) (yield_foreign_lookups s)
  (addresses s) (lookup_ports s) (lookup_processes s) (udp_bypassed s) (fragments s)
  (proxy_identities s) (destination_labels s) (direct_learned s) (selector_state s) (table s)
  (table_version s) (return_paths s) (handled_connections s) (app_usage s) (logged_destinations s)
  (bypass s) (bypass_queued_bytes s) (pending_syns s) (counts s) (log s).
Definition with_redirect_dns (s : Capture) (x : bool) : Capture :=
  mk_capture (world s) (stop s) x (dns_own_apps_only s) (yield_foreign_lookups s) (addresses s)
  (lookup_ports s) (lookup_processes s) (udp_bypassed s) (fragments s) (proxy_identities s)
  (destination_labels s) (direct_learned s) (selector_state s) (table s) (table_version s)
  (return_paths s) (handled_connections s) (app_usage s) (logged_destinations s) (bypass s)
  (bypass_queued_bytes s) (pending_syns s) (counts s) (log s).
Definition with_dns_own_apps_only (s : Capture) (x : bool) : Capture :=
  mk_capture (world s) (stop s) (redirect_dns s) x (yield_foreign_lookups s) (addresses s)
  (lookup_ports s) (lookup_processes s) (udp_bypassed s) (fragments s) (proxy_identities s)
  (destination_labels s) (direct_learned s) (selector_state s) (table s) (table_version s)
  (return_paths s) (handled_connections s) (app_usage s) (logged_destinations s) (bypass s)
  (bypass_queued_bytes s) (pending_syns s) (counts s) (log s).
Definition with_yield_foreign_lookups (s : Capture) (x : bool) : Capture :=
  mk_capture (world s) (stop s) (redirect_dns s) (dns_own_apps_only s) x (addresses s)
  (lookup_ports s) (lookup_processes s) (udp_bypassed s) (fragments s) (proxy_identities s)
  (destination_labels s) (direct_learned s) (selector_state s) (table s) (table_version s)
  (return_paths s) (handled_connections s) (app_usage s) (logged_destinations s) (bypass s)
  (bypass_queued_bytes s) (pending_syns s) (counts s) (log s).
Definition with_addresses (s : Capture) (x : list (list byte)) : Capture :=
  mk_capture (world s) (stop s) (redirect_dns s) (dns_own_apps_only s) (yield_foreign_lookups s) x
  (lookup_ports s) (lookup_processes s) (udp_bypassed s) (fragments s) (proxy_identities s)
  (destination_labels s) (direct_learned s) (selector_state s) (table s) (table_version s)
  (return_paths s) (handled_connections s) (app_usage s) (logged_destinations s) (bypass s)
  (bypass_queued_bytes s) (pending_syns s) (counts s) (log s).
Definition with_lookup_ports (s : Capture) (x : gmap (Z * Z) (bool * Z)) : Capture :=
  mk_capture (world s) (stop s) (redirect_dns s) (dns_own_apps_only s) (yield_foreign_lookups s)
  (addresses s) x (lookup_processes s) (udp_bypassed s) (fragments s) (proxy_identities s)
  (destination_labels s) (direct_learned s) (selector_state s) (table s) (table_version s)
  (return_paths s) (handled_connections s) (app_usage s) (logged_destinations s) (bypass s)
  (bypass_queued_bytes s) (pending_syns s) (counts s) (log s).
Definition with_lookup_processes (s : Capture) (x : gmap Z (bool * Z)) : Capture :=
  mk_capture (world s) (stop s) (redirect_dns s) (dns_own_apps_only s) (yield_foreign_lookups s)
  (addresses s) (lookup_ports s) x (udp_bypassed s) (fragments s) (proxy_identities s)
  (destination_labels s) (direct_learned s) (selector_state s) (table s) (table_version s)
  (return_paths s) (handled_connections s) (app_usage s) (logged_destinations s) (bypass s)
  (bypass_queued_bytes s) (pending_syns s) (counts s) (log s).
Definition with_udp_bypassed (s : Capture) (x : gmap (list byte * Z) Z) : Capture :=
  mk_capture (world s) (stop s) (redirect_dns s) (dns_own_apps_only s) (yield_foreign_lookups s)
  (addresses s) (lookup_ports s) (lookup_processes s) x (fragments s) (proxy_identities s)
  (destination_labels s) (direct_learned s) (selector_state s) (table s) (table_version s)
  (return_paths s) (handled_connections s) (app_usage s) (logged_destinations s) (bypass s)
  (bypass_queued_bytes s) (pending_syns s) (counts s) (log s).
Definition with_fragments (s : Capture) (x : FragmentRouter Address) : Capture :=
  mk_capture (world s) (stop s) (redirect_dns s) (dns_own_apps_only s) (yield_foreign_lookups s)
  (addresses s) (lookup_ports s) (lookup_processes s) (udp_bypassed s) x (proxy_identities s)
  (destination_labels s) (direct_learned s) (selector_state s) (table s) (table_version s)
  (return_paths s) (handled_connections s) (app_usage s) (logged_destinations s) (bypass s)
  (bypass_queued_bytes s) (pending_syns s) (counts s) (log s).
Definition with_proxy_identities (s : Capture) (x : list ProxyIdentity) : Capture :=
  mk_capture (world s) (stop s) (redirect_dns s) (dns_own_apps_only s) (yield_foreign_lookups s)
  (addresses s) (lookup_ports s) (lookup_processes s) (udp_bypassed s) (fragments s) x
  (destination_labels s) (direct_learned s) (selector_state s) (table s) (table_version s)
  (return_paths s) (handled_connections s) (app_usage s) (logged_destinations s) (bypass s)
  (bypass_queued_bytes s) (pending_syns s) (counts s) (log s).
Definition with_destination_labels (s : Capture) (x : gmap (list byte) (list byte)) : Capture :=
  mk_capture (world s) (stop s) (redirect_dns s) (dns_own_apps_only s) (yield_foreign_lookups s)
  (addresses s) (lookup_ports s) (lookup_processes s) (udp_bypassed s) (fragments s)
  (proxy_identities s) x (direct_learned s) (selector_state s) (table s) (table_version s)
  (return_paths s) (handled_connections s) (app_usage s) (logged_destinations s) (bypass s)
  (bypass_queued_bytes s) (pending_syns s) (counts s) (log s).
Definition with_direct_learned (s : Capture) (x : gmap (list byte) (list byte)) : Capture :=
  mk_capture (world s) (stop s) (redirect_dns s) (dns_own_apps_only s) (yield_foreign_lookups s)
  (addresses s) (lookup_ports s) (lookup_processes s) (udp_bypassed s) (fragments s)
  (proxy_identities s) (destination_labels s) x (selector_state s) (table s) (table_version s)
  (return_paths s) (handled_connections s) (app_usage s) (logged_destinations s) (bypass s)
  (bypass_queued_bytes s) (pending_syns s) (counts s) (log s).
Definition with_selector_state (s : Capture) (x : SelectorState) : Capture :=
  mk_capture (world s) (stop s) (redirect_dns s) (dns_own_apps_only s) (yield_foreign_lookups s)
  (addresses s) (lookup_ports s) (lookup_processes s) (udp_bypassed s) (fragments s)
  (proxy_identities s) (destination_labels s) (direct_learned s) x (table s) (table_version s)
  (return_paths s) (handled_connections s) (app_usage s) (logged_destinations s) (bypass s)
  (bypass_queued_bytes s) (pending_syns s) (counts s) (log s).
Definition with_table (s : Capture) (x : SelectorTable) : Capture :=
  mk_capture (world s) (stop s) (redirect_dns s) (dns_own_apps_only s) (yield_foreign_lookups s)
  (addresses s) (lookup_ports s) (lookup_processes s) (udp_bypassed s) (fragments s)
  (proxy_identities s) (destination_labels s) (direct_learned s) (selector_state s) x
  (table_version s) (return_paths s) (handled_connections s) (app_usage s) (logged_destinations s)
  (bypass s) (bypass_queued_bytes s) (pending_syns s) (counts s) (log s).
Definition with_table_version (s : Capture) (x : Z) : Capture :=
  mk_capture (world s) (stop s) (redirect_dns s) (dns_own_apps_only s) (yield_foreign_lookups s)
  (addresses s) (lookup_ports s) (lookup_processes s) (udp_bypassed s) (fragments s)
  (proxy_identities s) (destination_labels s) (direct_learned s) (selector_state s) (table s) x
  (return_paths s) (handled_connections s) (app_usage s) (logged_destinations s) (bypass s)
  (bypass_queued_bytes s) (pending_syns s) (counts s) (log s).
Definition with_return_paths (s : Capture) (x : gmap ReturnKey ReturnPath) : Capture :=
  mk_capture (world s) (stop s) (redirect_dns s) (dns_own_apps_only s) (yield_foreign_lookups s)
  (addresses s) (lookup_ports s) (lookup_processes s) (udp_bypassed s) (fragments s)
  (proxy_identities s) (destination_labels s) (direct_learned s) (selector_state s) (table s)
  (table_version s) x (handled_connections s) (app_usage s) (logged_destinations s) (bypass s)
  (bypass_queued_bytes s) (pending_syns s) (counts s) (log s).
Definition with_handled_connections (s : Capture) (x : gmap ReturnKey HandledConnection) : Capture :=
  mk_capture (world s) (stop s) (redirect_dns s) (dns_own_apps_only s) (yield_foreign_lookups s)
  (addresses s) (lookup_ports s) (lookup_processes s) (udp_bypassed s) (fragments s)
  (proxy_identities s) (destination_labels s) (direct_learned s) (selector_state s) (table s)
  (table_version s) (return_paths s) x (app_usage s) (logged_destinations s) (bypass s)
  (bypass_queued_bytes s) (pending_syns s) (counts s) (log s).
Definition with_app_usage (s : Capture) (x : gmap (list byte) (Z * Z)) : Capture :=
  mk_capture (world s) (stop s) (redirect_dns s) (dns_own_apps_only s) (yield_foreign_lookups s)
  (addresses s) (lookup_ports s) (lookup_processes s) (udp_bypassed s) (fragments s)
  (proxy_identities s) (destination_labels s) (direct_learned s) (selector_state s) (table s)
  (table_version s) (return_paths s) (handled_connections s) x (logged_destinations s) (bypass s)
  (bypass_queued_bytes s) (pending_syns s) (counts s) (log s).
Definition with_logged_destinations (s : Capture) (x : DestinationLog) : Capture :=
  mk_capture (world s) (stop s) (redirect_dns s) (dns_own_apps_only s) (yield_foreign_lookups s)
  (addresses s) (lookup_ports s) (lookup_processes s) (udp_bypassed s) (fragments s)
  (proxy_identities s) (destination_labels s) (direct_learned s) (selector_state s) (table s)
  (table_version s) (return_paths s) (handled_connections s) (app_usage s) x (bypass s)
  (bypass_queued_bytes s) (pending_syns s) (counts s) (log s).
Definition with_bypass (s : Capture) (x : list Bypass) : Capture :=
  mk_capture (world s) (stop s) (redirect_dns s) (dns_own_apps_only s) (yield_foreign_lookups s)
  (addresses s) (lookup_ports s) (lookup_processes s) (udp_bypassed s) (fragments s)
  (proxy_identities s) (destination_labels s) (direct_learned s) (selector_state s) (table s)
  (table_version s) (return_paths s) (handled_connections s) (app_usage s) (logged_destinations s)
  x (bypass_queued_bytes s) (pending_syns s) (counts s) (log s).
Definition with_bypass_queued_bytes (s : Capture) (x : Z) : Capture :=
  mk_capture (world s) (stop s) (redirect_dns s) (dns_own_apps_only s) (yield_foreign_lookups s)
  (addresses s) (lookup_ports s) (lookup_processes s) (udp_bypassed s) (fragments s)
  (proxy_identities s) (destination_labels s) (direct_learned s) (selector_state s) (table s)
  (table_version s) (return_paths s) (handled_connections s) (app_usage s) (logged_destinations s)
  (bypass s) x (pending_syns s) (counts s) (log s).
Definition with_pending_syns (s : Capture) (x : list PendingSyn) : Capture :=
  mk_capture (world s) (stop s) (redirect_dns s) (dns_own_apps_only s) (yield_foreign_lookups s)
  (addresses s) (lookup_ports s) (lookup_processes s) (udp_bypassed s) (fragments s)
  (proxy_identities s) (destination_labels s) (direct_learned s) (selector_state s) (table s)
  (table_version s) (return_paths s) (handled_connections s) (app_usage s) (logged_destinations s)
  (bypass s) (bypass_queued_bytes s) x (counts s) (log s).
Definition with_counts (s : Capture) (x : Count → Z) : Capture :=
  mk_capture (world s) (stop s) (redirect_dns s) (dns_own_apps_only s) (yield_foreign_lookups s)
  (addresses s) (lookup_ports s) (lookup_processes s) (udp_bypassed s) (fragments s)
  (proxy_identities s) (destination_labels s) (direct_learned s) (selector_state s) (table s)
  (table_version s) (return_paths s) (handled_connections s) (app_usage s) (logged_destinations s)
  (bypass s) (bypass_queued_bytes s) (pending_syns s) x (log s).
Definition with_log (s : Capture) (x : list Output) : Capture :=
  mk_capture (world s) (stop s) (redirect_dns s) (dns_own_apps_only s) (yield_foreign_lookups s)
  (addresses s) (lookup_ports s) (lookup_processes s) (udp_bypassed s) (fragments s)
  (proxy_identities s) (destination_labels s) (direct_learned s) (selector_state s) (table s)
  (table_version s) (return_paths s) (handled_connections s) (app_usage s) (logged_destinations s)
  (bypass s) (bypass_queued_bytes s) (pending_syns s) (counts s) x.

Definition with_log_entry (s : Capture) (o : Output) : Capture := with_log s (o :: log s).
Definition set_count (c : Count) (f : Z → Z) (s : Capture) : Capture :=
  with_counts s (λ c', if decide (c' = c) then f (counts s c) else counts s c').

Notation program := (prog Capture).
Definition note (o : Output) : program unit := store (λ s, with_log_entry s o).

Definition clock : program Z := load (λ s, now (world s)).

(** [fetch_add] on an [AtomicU64], with a relaxed result nobody uses. *)
Definition count_by (c : Count) (n : Z) : program unit := store (set_count c (λ v, wrap64 (v + n))).
Definition count (c : Count) : program unit := count_by c 1.

(** [Handle::send] and the two ways a checksum is asked for. *)
Definition send_out (packet : list byte) (address : Address) : program bool :=
  act (λ s, Ret (handle_send (world s) packet address, with_log_entry s (Bypassed packet address))).
Definition send_in (packet : list byte) (address : Address) : program bool :=
  act (λ s, Ret (handle_send (world s) packet address, with_log_entry s (Injected packet address))).
Definition checksums (packet : list byte) : program (option (list byte)) :=
  load (λ s, helper_checksums (world s) 0 packet).
Definition ip_checksum (packet : list byte) : program (option (list byte)) :=
  load (λ s, helper_checksums (world s) (2 + 8 + 16) packet).
