(* ===== verification/SplitOwners.v ===== *)
(** * SplitOwners: whose socket a packet comes from

    What [engine/src/split_capture.rs], [engine/src/udp_classifier.rs],
    [engine/src/proxy_identity.rs] and [engine/src/tun2socks/exit.rs] read from
    Windows' socket tables, with the verdicts they keep for a while, and the
    process names and paths that rules are compared with. *)
From S2P Require Import Prelude Text Dns Threads DirectList SplitTable SplitState.

Definition BYPASS_TTL : Z := secs 2.
Definition LOOKUP_PORT_TTL : Z := secs 2.
Definition LOOKUP_PROCESS_TTL : Z := secs 60.
Definition OWNER_TTL : Z := secs 2.
Definition PROCESS_TTL : Z := secs 5.
Definition RELEASED_LINGER : Z := secs 240.

(** ** Rows *)

(** A port and an address as Windows keeps them, on a little-endian machine. *)
Definition port_from_dword (value : Z) : Z := value mod 256 * 256 + value / 256 mod 256.
Definition address_octets (value : Z) : list byte := rev (be_bytes 4 value).
Definition is_unspecified (a : list byte) : bool := bool_decide (a = [x00; x00; x00; x00]).

(** The UDP socket bound to [port] that can send from [source]. *)
Definition sends_from (source : list byte) (port : Z) (row : UdpRow) : bool :=
  let bound := address_octets (udp_dwLocalAddr row) in
  (port_from_dword (udp_dwLocalPort row) =? port) && (is_unspecified bound || bool_decide (bound = source)).

Definition find {A} (p : A → bool) (l : list A) : option A := (λ found, found.2) <$> list_find (λ x, p x = true) l.

(** [proxy_identity::udp_owner]. *)
Definition udp_owner (w : World) (port : Z) : option Z :=
  rows ← udp_rows w;
  udp_dwOwningPid <$> find (λ row, port_from_dword (udp_dwLocalPort row) =? port) rows.

(** ** Names of processes *)

(** [Path::file_name] of a rooted path, as [process_path] gives it: what follows the
    last separator, when something does. *)
Definition process_name (path : list byte) : list byte :=
  match rsplit_once x5c (trim_end_matches x5c path) with
  | Some (_, name) => name
  | None => path
  end.

Definition is_application_path (root path : list byte) : bool :=
  negb (starts_with (trim_end_matches x5c (to_ascii_lowercase root) ++ [x5c]) path).

Definition carries_certificate_check (root path : list byte) (protocol remote_port : Z) : bool :=
  (protocol =? 6) && (remote_port =? 80)
  && eq_ignore_ascii_case path (trim_end_matches x5c root ++ str "\System32\lsass.exe").

Section owners.
Context (registry : Registry).

Definition selected_path (w : World) (pid : Z) : option (list byte) :=
  path ← process_path w pid;
  if path_matches path (applications registry) (folders registry) then Some path else None.

Definition dns_socket_process (fields : Ipv4Fields) (w : World) : option (Z * list byte) :=
  pid ← (if SplitTable.protocol fields =? 17 then
           rows ← udp_rows w;
           udp_dwOwningPid <$> find (sends_from (SplitTable.source fields) (source_port fields)) rows
         else
           rows ← tcp_rows w;
           tcp_dwOwningPid <$> find (λ row,
             (port_from_dword (tcp_dwLocalPort row) =? source_port fields)
             && bool_decide (address_octets (tcp_dwLocalAddr row) = SplitTable.source fields)
             && (port_from_dword (tcp_dwRemotePort row) =? destination_port fields)) rows);
  path ← process_path w pid;
  Some (pid, path).

(** [find_map] over the rows. *)
Fixpoint tcp_socket_rows (fields : Ipv4Fields) (w : World) (rows : list TcpRow) : option (Z * list byte) :=
  match rows with
  | [] => None
  | row :: rows' =>
      let found :=
        if negb (port_from_dword (tcp_dwLocalPort row) =? source_port fields)
           || negb (port_from_dword (tcp_dwRemotePort row) =? destination_port fields)
           || negb (bool_decide (address_octets (tcp_dwRemoteAddr row) = SplitTable.destination fields))
        then None
        else path ← process_path w (tcp_dwOwningPid row);
             if path_matches path (applications registry) (folders registry)
                || carries_certificate_check (system_root registry) path 6 (destination_port fields)
             then Some (tcp_dwOwningPid row, path) else None in
      match found with Some answer => Some answer | None => tcp_socket_rows fields w rows' end
  end.

Definition tcp_socket_process (fields : Ipv4Fields) (w : World) : option (Z * list byte) :=
  rows ← tcp_rows w; tcp_socket_rows fields w rows.

(** ** [UdpClassifier] *)

Fixpoint first_selected (w : World) (source : list byte) (port : Z) (rows : list UdpRow) (found : bool)
    : bool * option (Z * list byte) :=
  match rows with
  | [] => (found, None)
  | row :: rows' =>
      if negb (sends_from source port row) then first_selected w source port rows' found
      else match selected_path w (udp_dwOwningPid row) with
           | Some path => (true, Some (udp_dwOwningPid row, path))
           | None => first_selected w source port rows' true
           end
  end.

(** The whole call, under its lock. *)
Definition selected_owner (source : list byte) (port : Z) (s : Capture) : option (Z * list byte) * Capture :=
  let now := now (world s) in
  let key := (source, port) in
  let fresh := λ at_, since now at_ <? BYPASS_TTL in
  if match udp_bypassed s !! key with Some at_ => fresh at_ | None => false end then (None, s) else
  match udp_rows (world s) with
  | None => (None, s)
  | Some rows =>
      match first_selected (world s) source port rows false with
      | (_, Some owner) => (Some owner, s)
      | (true, None) =>
          (None, with_udp_bypassed s (<[key := now]> (filter (λ kv, fresh kv.2 = true) (udp_bypassed s))))
      | (false, None) => (None, s)
      end
  end.

Definition socket_changed (port : Z) (s : Capture) : Capture :=
  with_udp_bypassed s (filter (λ kv, kv.1.2 ≠ port) (udp_bypassed s)).

(** ** Lookups of ordinary applications *)

Definition lookup_verdict (process : option Z) (s : Capture) : bool * Capture :=
  let now := now (world s) in
  match process with
  | None => (false, s)
  | Some pid =>
      let ask :=
        let verdict := match process_path (world s) pid with
                       | Some path => is_application_path (system_root registry) path
                       | None => false
                       end in
        (verdict, with_lookup_processes s (<[pid := (verdict, now)]> (lookup_processes s))) in
      match lookup_processes s !! pid with
      | Some (verdict, at_) => if since now at_ <? LOOKUP_PROCESS_TTL then (verdict, s) else ask
      | None => ask
      end
  end.

(** The whole call, under its lock. *)
Definition lookup_is_from_an_application (protocol port : Z) (s : Capture) : bool * Capture :=
  let now := now (world s) in
  let ask :=
    let process :=
      if protocol =? 17 then udp_owner (world s) port
      else rows ← tcp_rows (world s);
           tcp_dwOwningPid <$> find (λ row, port_from_dword (tcp_dwLocalPort row) =? port) rows in
    let '(verdict, s) := lookup_verdict process s in
    let ports := filter (λ kv, (since now kv.2.2 <? LOOKUP_PORT_TTL) = true) (lookup_ports s) in
    let processes := filter (λ kv, (since now kv.2.2 <? LOOKUP_PROCESS_TTL) = true) (lookup_processes s) in
    (verdict, with_lookup_processes (with_lookup_ports s (<[(protocol, port) := (verdict, now)]> ports)) processes) in
  match lookup_ports s !! (protocol, port) with
  | Some (verdict, at_) => if since now at_ <? LOOKUP_PORT_TTL then (verdict, s) else ask
  | None => ask
  end.

(** ** The proxies' own processes *)

Definition set_proxy (i : nat) (p : ProxyIdentity) (s : Capture) : Capture :=
  with_proxy_identities s (<[i := p]> (proxy_identities s)).

(** The process listening on [address] or on every address. *)
Definition listener_owner (w : World) (address : list byte) (port : Z) : option Z :=
  rows ← tcp_listeners w;
  tcp_dwOwningPid <$> find (λ row,
    let bound := address_octets (tcp_dwLocalAddr row) in
    (is_unspecified bound || bool_decide (bound = address))
    && (port_from_dword (tcp_dwLocalPort row) =? port)) rows.

(** Under the lock of [process]. *)
Definition process_id (i : nat) (endpoint : list byte * Z) (s : Capture) : option Z * Capture :=
  match proxy_identities s !! i with
  | None => (None, s)
  | Some p =>
      let stale := match (proxy_process p).2 with
                   | None => true
                   | Some at_ => PROCESS_TTL <=? since (now (world s)) at_
                   end in
      if negb stale then ((proxy_process p).1, s) else
      let found := listener_owner (world s) endpoint.1 endpoint.2 in
      (found, set_proxy i (mk_proxy (found, Some (now (world s))) (proxy_udp_owners p) (proxy_tcp_flows p)) s)
  end.

Definition udp_verdict (i : nat) (port : Z) (s : Capture) : option bool :=
  p ← proxy_identities s !! i;
  '(owned, at_) ← proxy_udp_owners p !! port;
  if since (now (world s)) at_ <? OWNER_TTL then Some owned else None.

Definition keep_udp_verdict (i : nat) (port : Z) (owned : bool) (s : Capture) : Capture :=
  match proxy_identities s !! i with
  | None => s
  | Some p =>
      let owners := filter (λ kv, (since (now (world s)) kv.2.2 <? OWNER_TTL) = true) (proxy_udp_owners p) in
      set_proxy i (mk_proxy (proxy_process p) (<[port := (owned, now (world s))]> owners) (proxy_tcp_flows p)) s
  end.

Definition owns_udp_port (i : nat) (endpoint : list byte * Z) (port : Z) : program bool :=
  held ← load (udp_verdict i port);
  match held with
  | Some owned => mret owned
  | None =>
      owner ← load (λ s, udp_owner (world s) port);
      process ← act (λ s, Ret (process_id i endpoint s));
      let owned := match process with Some pid => bool_decide (owner = Some pid) | None => false end in
      _ ← store (keep_udp_verdict i port owned);
      mret owned
  end.

Definition flow_key (fields : Ipv4Fields) : list byte * Z * list byte * Z :=
  (SplitTable.source fields, source_port fields, SplitTable.destination fields, destination_port fields).

Definition tcp_verdict (i : nat) (fields : Ipv4Fields) (s : Capture) : option bool :=
  p ← proxy_identities s !! i;
  '(owned, at_) ← proxy_tcp_flows p !! flow_key fields;
  if since (now (world s)) at_ <? OWNER_TTL then Some owned else None.

Definition tcp_flow_owner (fields : Ipv4Fields) (w : World) : option Z :=
  rows ← tcp_rows w;
  tcp_dwOwningPid <$> find (λ row,
    bool_decide (address_octets (tcp_dwLocalAddr row) = SplitTable.source fields)
    && (port_from_dword (tcp_dwLocalPort row) =? source_port fields)
    && bool_decide (address_octets (tcp_dwRemoteAddr row) = SplitTable.destination fields)
    && (port_from_dword (tcp_dwRemotePort row) =? destination_port fields)) rows.

Definition keep_tcp_verdict (i : nat) (fields : Ipv4Fields) (owned : bool) (s : Capture) : Capture :=
  match proxy_identities s !! i with
  | None => s
  | Some p =>
      let flows :=
        if 4096 <=? zsize (proxy_tcp_flows p)
        then filter (λ kv, (since (now (world s)) kv.2.2 <? OWNER_TTL) = true) (proxy_tcp_flows p)
        else proxy_tcp_flows p in
      let flows := if zsize flows <? 4096 then <[flow_key fields := (owned, now (world s))]> flows else flows in
      set_proxy i (mk_proxy (proxy_process p) (proxy_udp_owners p) flows) s
  end.

Definition owns_tcp_flow (i : nat) (endpoint : list byte * Z) (fields : Ipv4Fields) : program bool :=
  held ← load (tcp_verdict i fields);
  match held with
  | Some owned => mret owned
  | None =>
      owner ← load (λ s, tcp_flow_owner fields (world s));
      process ← act (λ s, Ret (process_id i endpoint s));
      let owned := match process with Some pid => bool_decide (owner = Some pid) | None => false end in
      _ ← store (keep_tcp_verdict i fields owned);
      mret owned
  end.

(** [any] over the proxies. *)
Fixpoint any_proxy (i : nat) (l : list (Z * list byte * Z)) (test : nat → Z * list byte * Z → program bool)
    : program bool :=
  match l with
  | [] => mret false
  | proxy :: l' =>
      held ← test i proxy;
      if held : bool then mret true else any_proxy (S i) l' test
  end.

Definition is_proxy_upstream (node : Z) (fields : Ipv4Fields) : program bool :=
  if negb (SplitTable.protocol fields =? 6) then mret false else
  any_proxy O (proxies registry) (λ i proxy,
    if proxy.1.1 =? node then owns_tcp_flow i (proxy.1.2, proxy.2) fields else mret false).

(** Whether a lookup is a proxy's own. *)
Definition is_proxy_lookup (fields : Ipv4Fields) : program bool :=
  if negb (destination_port fields =? 53) then mret false else
  any_proxy O (proxies registry) (λ i proxy,
    if SplitTable.protocol fields =? 6 then owns_tcp_flow i (proxy.1.2, proxy.2) fields
    else if SplitTable.protocol fields =? 17 then owns_udp_port i (proxy.1.2, proxy.2) (source_port fields)
    else mret false).
End owners.

(** ** Sockets of this process's own exits *)

Definition still_counts (now : Z) (released : option Z) : bool :=
  match released with None => true | Some at_ => since now at_ <? RELEASED_LINGER end.

Definition is_exit_socket (fields : Ipv4Fields) (w : World) : bool :=
  if negb ((SplitTable.protocol fields =? 6) || (SplitTable.protocol fields =? 17)) then false else
  match exit_sockets w !! (SplitTable.protocol fields, SplitTable.source fields, source_port fields) with
  | Some released => still_counts (now w) released
  | None => false
  end.
