(* ===== verification/SplitFlows.v ===== *)
(** * SplitFlows: selectors come and go with sockets and names

    The selectors of [engine/src/split_capture.rs] and the table published from
    them: added for a rule's network, a name's answer or a socket of a selected
    process, removed when the socket closes or has been gone long enough, with the
    return paths that only it owned. *)
From S2P Require Import Prelude Text Dns Threads DirectList SplitTable SplitState SplitOwners.

Definition STALE_FLOW_CONFIRMATIONS : Z := 15.
Definition ACTIVE_CONNECTION_WINDOW : Z := secs 30.
Definition MAX_DESTINATION_LABELS : Z := 4096.
Definition MAX_LEARNED : Z := DirectList.MAX_LEARNED.

Definition with_selectors (s : SelectorState) x : SelectorState := mk_state x (flow_owners s) (destination_nodes s).
Definition with_flow_owners (s : SelectorState) x : SelectorState := mk_state (selectors s) x (destination_nodes s).

(** [globally routable], [engine/src/netutil.rs]. *)
Definition is_fake_ip (a : list byte) : bool := (nz a 0 =? 198) && (Z.land (nz a 1) 0xfe =? 18).

Definition is_documentation (a : list byte) : bool :=
  ((nz a 0 =? 192) && (nz a 1 =? 0) && (nz a 2 =? 2))
  || ((nz a 0 =? 198) && (nz a 1 =? 51) && (nz a 2 =? 100))
  || ((nz a 0 =? 203) && (nz a 1 =? 0) && (nz a 2 =? 113)).

Definition is_globally_routable_ipv4 (a : list byte) : bool :=
  negb (is_private a) && negb (is_loopback a) && negb (is_link_local a)
  && negb (bool_decide (a = [xff; xff; xff; xff]))
  && negb ((224 <=? nz a 0) && (nz a 0 <=? 239))
  && negb (is_unspecified a) && negb (is_documentation a)
  && negb ((nz a 0 =? 100) && (64 <=? nz a 1) && (nz a 1 <? 128))
  && negb (is_fake_ip a).

Section flows.
Context (registry : Registry).

(** ** Adding *)

Definition publish_selectors (s : Capture) : Capture :=
  with_table_version (with_table s (build_state (selector_state s) (targets registry)))
    (wrap64 (table_version s + 1)).

(** Under the selector lock. *)
Definition add_selector (selector : TrafficSelector) (node : Z) (s : Capture) : Capture :=
  let state := selector_state s in
  let added := bool_decide (selectors state !! selector = None) in
  let moved := negb (bool_decide (destination_nodes state !! selector = Some node)) in
  let s := with_selector_state s
    (mk_state (<[selector := None]> (selectors state)) (flow_owners state)
       (<[selector := node]> (destination_nodes state))) in
  if added || moved then publish_selectors s else s.

Definition same_owner (a b : FlowOwner) : bool :=
  bool_decide (endpoint_id a = endpoint_id b) && (owner_process a =? owner_process b)
  && bool_decide (owner_path a = owner_path b).

Definition seen_again (o : FlowOwner) : FlowOwner :=
  mk_owner (endpoint_id o) (owner_process o) (owner_path o) 0.

(** [find] by identity resets the count of the first one. *)
Fixpoint hold_owner (owner : FlowOwner) (owners : list FlowOwner) : option (list FlowOwner) :=
  match owners with
  | [] => None
  | held :: owners' =>
      if same_owner held owner then Some (seen_again held :: owners')
      else cons held <$> hold_owner owner owners'
  end.

(** A record by process only gives way to that of an endpoint. *)
Definition without_fallback (process : Z) (owners : list FlowOwner) : list FlowOwner :=
  filter (λ o, ¬ (endpoint_id o = None ∧ owner_process o = process)) owners.

Definition add_process_selector (selector : TrafficSelector) (path : list byte) (process : Z)
    (endpoint : option Z) (s : Capture) : Capture :=
  let application := process_name path in
  let owner := mk_owner endpoint process path 0 in
  let state := selector_state s in
  let owners := default [] (flow_owners state !! selector) in
  let owners := match endpoint with Some _ => without_fallback process owners | None => owners end in
  let '(owner_added, owners) := match hold_owner owner owners with
                                | Some owners => (false, owners)
                                | None => (true, owners ++ [owner])
                                end in
  let label_changed := negb (bool_decide (selectors state !! selector = Some (Some application))) in
  let s := with_selector_state s
    (mk_state (<[selector := Some application]> (selectors state)) (<[selector := owners]> (flow_owners state))
       (destination_nodes state)) in
  if owner_added || label_changed then publish_selectors s else s.

Definition process_socket_selector (protocol local_port remote_port : Z) : TrafficSelector :=
  Flow protocol local_port (if (protocol =? 6) && negb (remote_port =? 0) then Some remote_port else None).

(** ** Names *)

(** Under the lock of the labels; the selector follows. *)
Definition keep_label (address hostname : list byte) (s : Capture) : Capture :=
  let labels := destination_labels s in
  if (zsize labels <? MAX_DESTINATION_LABELS) || bool_decide (is_Some (labels !! address))
  then with_destination_labels s (<[address := hostname]> labels) else s.

Definition add_hostname_address (address hostname : list byte) : program unit :=
  _ ← store (keep_label address hostname);
  store (add_selector (Destination (be_Z address) (be_Z address)) (default 0 (for_rule (targets registry) hostname))).

(** The addresses under the lock of what was learned. *)
Definition learn_address (name : list byte) (s : Capture) (address : list byte) : Capture :=
  let learned := direct_learned s in
  if is_globally_routable_ipv4 address && negb (contains (direct registry) address)
     && ((zsize learned <? MAX_LEARNED) || bool_decide (is_Some (learned !! address)))
  then with_direct_learned s (<[address := name]> learned) else s.

Definition learn_direct (packet : list byte) : program unit :=
  if negb (has_domains (direct registry)) || negb (is_dns_reply packet) then mret () else
  let addresses := answered_addresses (direct registry) packet in
  if bool_decide (addresses = []) then mret () else
  let name := default [] (reply_question packet) in
  store (λ s, foldl (learn_address name) s addresses).

Definition is_direct (destination : list byte) : program bool :=
  if contains (direct registry) destination then mret true
  else if has_domains (direct registry)
  then load (λ s, bool_decide (is_Some (direct_learned s !! destination)))
  else mret false.

(** ** Removing *)

(** What is left of a selector's owners, and the rest forgotten: its selector goes
    with its last owner, and takes the name of the last one otherwise. *)
Definition relabel (before : gmap TrafficSelector (list FlowOwner)) (state : SelectorState)
    (kept : TrafficSelector * list FlowOwner) : SelectorState :=
  let '(selector, owners) := kept in
  match last owners with
  | None => mk_state (delete selector (selectors state)) (delete selector (flow_owners state)) (destination_nodes state)
  | Some owner =>
      mk_state
        (if bool_decide (length <$> before !! selector = Some (length owners)) then selectors state
         else <[selector := Some (process_name (owner_path owner))]> (selectors state))
        (<[selector := owners]> (flow_owners state)) (destination_nodes state)
  end.

Definition keep_owners (keep : TrafficSelector → FlowOwner → bool) (update : TrafficSelector → FlowOwner → FlowOwner)
    (state : SelectorState) : SelectorState :=
  foldl (relabel (flow_owners state)) state
    ((λ entry : TrafficSelector * list FlowOwner,
       (entry.1, filter (λ o, keep entry.1 o = true) (update entry.1 <$> entry.2)))
      <$> map_to_list (flow_owners state)).

(** The owners that are gone and the selectors they held. *)
Definition gone_owners (keep : TrafficSelector → FlowOwner → bool) (update : TrafficSelector → FlowOwner → FlowOwner)
    (state : SelectorState) : list (Z * TrafficSelector) :=
  map_to_list (flow_owners state) ≫= λ entry : TrafficSelector * list FlowOwner,
    (λ o, (owner_process o, entry.1)) <$> filter (λ o, keep entry.1 o = false) (update entry.1 <$> entry.2).

(** Reply state stays while any owner from the same process survives. *)
Definition unowned (state : SelectorState) (gone : list (Z * TrafficSelector)) : list (Z * TrafficSelector) :=
  filter (λ ps, ps.1 ∉ owner_process <$> default [] (flow_owners state !! ps.2)) gone.

Definition stale_owner_matches_return_key (stale : list (Z * TrafficSelector)) (process : Z) (key : ReturnKey) : bool :=
  bool_decide ((process, Flow (key_protocol key) (key_local_port key) (Some (key_remote_port key))) ∈ stale)
  || bool_decide ((process, Flow (key_protocol key) (key_local_port key) None) ∈ stale).

Definition keeps_route (removed : list (Z * TrafficSelector)) (process : option Z) (key : ReturnKey) : bool :=
  match process with None => true | Some p => negb (stale_owner_matches_return_key removed p key) end.

(** Under the lock of the return paths. *)
Definition forget_routes (removed : list (Z * TrafficSelector)) (s : Capture) : Capture :=
  let keeps := λ kp : ReturnKey * ReturnPath, keeps_route removed (path_process kp.2) kp.1 in
  with_log
    (with_return_paths s (filter (λ kp, keeps kp = true) (return_paths s)))
    ((Forgotten ∘ fst <$> filter (λ kp, keeps kp = false) (map_to_list (return_paths s))) ++ log s).

Definition remove_owned_routes (removed : list (Z * TrafficSelector)) : program unit :=
  if bool_decide (removed = []) then mret () else
  _ ← store (forget_routes removed);
  store (λ s, with_handled_connections s
        (filter (λ kc, keeps_route removed (handled_process kc.2) kc.1 = true) (handled_connections s))).

(** The part under the selector lock answers which owners leave routes behind. *)
Definition close_endpoint (endpoint : Z) (s : Capture) : list (Z * TrafficSelector) * Capture :=
  let keep := λ (_ : TrafficSelector) o,
    negb (negb (endpoint =? 0) && bool_decide (endpoint_id o = Some endpoint)) in
  let update := λ (_ : TrafficSelector) o, o in
  let state := selector_state s in
  let gone := gone_owners keep update state in
  let state := keep_owners keep update state in
  let s := with_selector_state s state in
  (unowned state gone, if bool_decide (gone = []) then s else publish_selectors s).

Definition remove_closed_socket (endpoint : Z) : program unit :=
  removed ← act (λ s, Ret (close_endpoint endpoint s));
  remove_owned_routes removed.

(** ** Reaping *)

Record ExistingSocket := mk_socket {
  socket_process : Z;
  socket_protocol : Z;
  socket_local_port : Z;
  socket_remote_port : Z
}.
#[export] Instance ExistingSocket_eq_dec : EqDecision ExistingSocket.
Proof. solve_decision. Defined.

Definition existing_ipv4_udp_sockets (w : World) : option (list ExistingSocket) :=
  match udp_rows w with
  | None => None
  | Some rows => Some ((λ row, mk_socket (udp_dwOwningPid row) 17 (port_from_dword (udp_dwLocalPort row)) 0)
    <$> filter (λ row, port_from_dword (udp_dwLocalPort row) ≠ 0) rows)
  end.

Definition existing_ipv4_process_sockets (w : World) : option (list ExistingSocket) :=
  match existing_ipv4_udp_sockets w, tcp_rows w with
  | Some udp, Some rows => Some (udp ++ ((λ row, mk_socket (tcp_dwOwningPid row) 6 (port_from_dword (tcp_dwLocalPort row))
                          (port_from_dword (tcp_dwRemotePort row)))
    <$> filter (λ row, tcp_dwOwningPid row ≠ 0 ∧ port_from_dword (tcp_dwLocalPort row) ≠ 0) rows))
  | _, _ => None
  end.

Definition socket_is_active (selector : TrafficSelector) (process : Z) (sockets : list ExistingSocket) : bool :=
  match selector with
  | Destination _ _ => true
  | Flow protocol local_port remote_port =>
      if (protocol =? 17) || bool_decide (is_Some remote_port)
      then bool_decide (mk_socket process protocol local_port (default 0 remote_port) ∈ sockets)
      else existsb (λ socket, (socket_process socket =? process) && (socket_protocol socket =? protocol)
                              && (socket_local_port socket =? local_port)) sockets
  end.

(** What the routes that carried a packet lately say of the sockets behind them. *)
Definition recently_routed (observed_at : Z) (paths : gmap ReturnKey ReturnPath) : list (Z * TrafficSelector) :=
  map_to_list paths ≫= λ '(key, path),
    match path_process path with
    | Some process =>
        if since observed_at (last_seen path) <=? ACTIVE_CONNECTION_WINDOW
        then [(process, Flow (key_protocol key) (key_local_port key) (Some (key_remote_port key)));
              (process, Flow (key_protocol key) (key_local_port key) None)]
        else []
    | None => []
    end.

Definition owning_processes (state : SelectorState) : list Z :=
  remove_dups (map_to_list (flow_owners state) ≫= λ entry : TrafficSelector * list FlowOwner, owner_process <$> entry.2).

Fixpoint read_paths (pids : list Z) (paths : gmap Z (option (list byte))) : program (gmap Z (option (list byte))) :=
  match pids with
  | [] => mret paths
  | pid :: pids' => path ← load (λ s, process_path (world s) pid); read_paths pids' (<[pid := path]> paths)
  end.

Section reap.
Context (active : list ExistingSocket) (routed : list (Z * TrafficSelector)) (paths : gmap Z (option (list byte))).

Definition looks_stale (selector : TrafficSelector) (o : FlowOwner) : bool :=
  let socket_missing := negb (socket_is_active selector (owner_process o) active) in
  let identity_changed := match paths !! owner_process o with
                          | Some (Some current) => negb (eq_ignore_ascii_case current (owner_path o))
                          | _ => false
                          end in
  let recent_traffic := bool_decide ((owner_process o, selector) ∈ routed) in
  identity_changed || (socket_missing && negb recent_traffic).

Definition observe_owner (selector : TrafficSelector) (o : FlowOwner) : FlowOwner :=
  mk_owner (endpoint_id o) (owner_process o) (owner_path o)
    (if looks_stale selector o then Z.min 255 (stale_observations o + 1) else 0).

Definition is_kept (_ : TrafficSelector) (o : FlowOwner) : bool := stale_observations o <? STALE_FLOW_CONFIRMATIONS.

Definition reap (s : Capture) : list (Z * TrafficSelector) * Capture :=
  let state := selector_state s in
  let gone := gone_owners is_kept observe_owner state in
  let state := keep_owners is_kept observe_owner state in
  let s := with_selector_state s state in
  (unowned state gone, if bool_decide (gone = []) then s else publish_selectors s).
End reap.

Definition reap_stale_flows : program unit :=
  sockets ← load (λ s, existing_ipv4_process_sockets (world s));
  match sockets with
  | None => mret ()
  | Some active =>
      observed_at ← clock;
      routed ← load (λ s, recently_routed observed_at (return_paths s));
      pids ← load (λ s, owning_processes (selector_state s));
      paths ← read_paths pids ∅;
      removed ← act (λ s, Ret (reap active routed paths s));
      remove_owned_routes removed
  end.

(** ** Names in answers *)

(** A name is read across at most 16 jumps, and between two of them each turn takes a
    byte at least. *)
Definition name_rounds (packet : list byte) : nat := 18 * (length packet + 2).

Fixpoint dns_name_loop (fuel : nat) (packet : list byte) (offset : Z) (labels : list (list byte)) (next : option Z) (jumps : Z)
    : run (option (list (list byte) * Z)) :=
  match fuel with
  | O => Panic
  | S fuel' =>
      match get packet offset with
      | None => Ret None
      | Some length =>
          if Z.land (b2z length) 0xc0 =? 0xc0 then
            match get packet (offset + 1) with
            | None => Ret None
            | Some low =>
                if 16 <? jumps + 1 then Ret None
                else dns_name_loop fuel' packet (Z.land (b2z length) 0x3f * 256 + b2z low) labels
                       (Some (default (offset + 2) next)) (jumps + 1)
            end
          else if b2z length =? 0 then Ret (Some (labels, default (offset + 1) next))
          else match get_range packet (offset + 1) (offset + 1 + b2z length) with
               | None => Ret None
               | Some label =>
                   if negb (valid_utf8 label) then Ret None
                   else dns_name_loop fuel' packet (offset + 1 + b2z length) (labels ++ [label]) next jumps
               end
      end
  end.

(** [to_lowercase] is [str::to_lowercase], over Unicode's tables. *)
Definition dns_name (to_lowercase : list byte → list byte) (packet : list byte) (offset : Z)
    : run (option (list byte * Z)) :=
  found ← dns_name_loop (name_rounds packet) packet offset [] None 0;
  Ret (match found with
       | Some (labels, next) => Some (to_lowercase (join_with x2e labels), next)
       | None => None
       end).

Section answers.
Context (to_lowercase : list byte → list byte) (dns : list byte) (hostnames : list (list byte)).

(** The rule of the first question that falls under one. *)
Fixpoint matched_rule (questions : nat) (offset : Z) (matched : option (list byte)) : run (option (option (list byte) * Z)) :=
  match questions with
  | O => Ret (Some (matched, offset))
  | S questions' =>
      name ← dns_name to_lowercase dns offset;
      match name with
      | None => Ret None
      | Some (name, next) =>
          let matched := match matched with Some rule => Some rule | None => most_specific_rule name hostnames end in
          if zlen dns <? next + 4 then Ret None else matched_rule questions' (next + 4) matched
      end
  end.

Fixpoint answer_addresses (answers : nat) (offset : Z) (rule : list byte) : run (list (list byte * list byte)) :=
  match answers with
  | O => Ret []
  | S answers' =>
      name ← dns_name to_lowercase dns offset;
      match name with
      | None => Ret []
      | Some (_, offset) =>
          if zlen dns <? offset + 10 then Ret [] else
          let kind := nz16 dns offset in
          let length := nz16 dns (offset + 8) in
          let offset := offset + 10 in
          if zlen dns <? offset + length then Ret [] else
          rest ← answer_addresses answers' (offset + length) rule;
          Ret (if (kind =? 1) && (length =? 4) then (sub dns offset (offset + 4), rule) :: rest else rest)
      end
  end.
End answers.

Definition dns_addresses (to_lowercase : list byte → list byte) (packet : list byte) (hostnames : list (list byte))
    : run (list (list byte * list byte)) :=
  match ipv4_fields packet with
  | None => Ret []
  | Some fields =>
      if negb (SplitTable.protocol fields =? 17) || negb (source_port fields =? 53) then Ret [] else
      let header := Z.land (nz packet 0) 0x0f * 4 in
      match get_range packet (header + 8) (zlen packet) with
      | None => Ret []
      | Some dns =>
          if (zlen dns <? 12) || (Z.land (nz dns 2) 0x80 =? 0) then Ret [] else
          matched ← matched_rule to_lowercase dns hostnames (Z.to_nat (nz16 dns 4)) 12 None;
          match matched with
          | Some (Some rule, offset) => answer_addresses to_lowercase dns (Z.to_nat (nz16 dns 6)) offset rule
          | _ => Ret []
          end
      end
  end.

(** ** The trackers *)

(** One socket event: its kind, process, endpoint, protocol and ports. *)
Definition track_socket (kind process endpoint protocol local_port remote_port : Z) : program unit :=
  _ ← (if protocol =? 17 then store (socket_changed local_port) else mret ());
  if kind =? 7 then remove_closed_socket endpoint else
  if negb ((kind =? 3) || (kind =? 4)) then mret () else
  path ← load (λ s, process_path (world s) process);
  match path with
  | None => mret ()
  | Some path =>
      if negb (path_matches path (applications registry) (folders registry)
               || carries_certificate_check (system_root registry) path protocol remote_port) then mret () else
      if local_port =? 0 then mret () else
      if negb ((protocol =? 6) || (protocol =? 17)) then mret () else
      _ ← count matched_sockets;
      store (add_process_selector (process_socket_selector protocol local_port remote_port) path process
        (if endpoint =? 0 then None else Some endpoint))
  end.

(** A UDP socket that was open before the capture. *)
Definition seed_socket (socket : ExistingSocket) : program unit :=
  path ← load (λ s, selected_path registry (world s) (socket_process socket));
  match path with
  | None => mret ()
  | Some path =>
      _ ← count matched_sockets;
      store (add_process_selector
        (process_socket_selector (socket_protocol socket) (socket_local_port socket) (socket_remote_port socket))
        path (socket_process socket) None)
  end.

Fixpoint add_addresses (l : list (list byte * list byte)) : program unit :=
  match l with
  | [] => mret ()
  | (address, hostname) :: l' => _ ← add_hostname_address address hostname; add_addresses l'
  end.

(** One answer that the DNS tracker saw. *)
Definition track_answer (to_lowercase : list byte → list byte) (packet : list byte) : program unit :=
  found ← act (λ s, a ← dns_addresses to_lowercase packet (rule_hostnames registry); Ret (a, s));
  _ ← add_addresses found;
  learn_direct packet.

(** [resolve] is what the machine's resolver answers for each hostname. *)
Fixpoint seed_hostname_rules (hostnames : list (list byte)) (resolve : list byte → list (list byte)) : program unit :=
  match hostnames with
  | [] => mret ()
  | hostname :: hostnames' =>
      stopping ← load stop;
      if stopping : bool then mret () else
      let host := default hostname (strip_prefix (str "*.") hostname) in
      let addresses := resolve host in
      stopping ← load stop;
      if stopping : bool then mret () else
      _ ← add_addresses ((λ a, (a, hostname)) <$> addresses);
      seed_hostname_rules hostnames' resolve
  end.
End flows.

(** Labels outlive a rule edit while a rule still names them. *)
Definition retained_hostname_addresses (labels : gmap (list byte) (list byte)) (hostnames : list (list byte))
    : gmap (list byte) (list byte) := filter (λ kv, kv.2 ∈ hostnames) labels.

(** ** Reading ends *)

Section names.
Context (to_lowercase : list byte → list byte) (dns : list byte).

(** A jump costs one of 17 rounds over the message. *)
Lemma dns_name_loop_total fuel offset labels next jumps :
  0 <= jumps <= 16 → (∀ n, next = Some n → 0 <= n) →
  (17 - jumps) * (zlen dns + 2) + Z.max 0 (Z.min (zlen dns) (zlen dns - offset)) < Z.of_nat fuel →
  ∃ found, dns_name_loop fuel dns offset labels next jumps = Ret found ∧ ∀ l n, found = Some (l, n) → 0 <= n.
Proof.
  revert offset labels next jumps. induction fuel as [|fuel IH]; intros offset labels next jumps Hj Hn Hf.
  { pose proof (zlen_nonneg dns). nia. }
  cbn [dns_name_loop]. destruct (get dns offset) as [b|] eqn:Hb; [|by exists None]. apply get_Some in Hb as Ho.
  assert (∀ d, 0 <= d → 0 <= default d next) as Hd by (intros d ?; destruct next; cbn; auto).
  destruct (Z.land (b2z b) 192 =? 192).
  - destruct (get dns (offset + 1)) as [low|]; [|by exists None]. destruct (Z.ltb_spec 16 (jumps + 1)); [by exists None|].
    apply IH; [lia| |lia]. intros n [= <-]. apply Hd. lia.
  - destruct (Z.eqb_spec (b2z b) 0).
    { eexists. split; [done|]. intros l n [= _ <-]. apply Hd. lia. }
    destruct (get_range _ _ _); [|by exists None].
    destruct (valid_utf8 _); cbn [negb]; [|by exists None]. pose proof (b2z_range b). apply IH; [lia|done|]. lia.
Qed.

Lemma dns_name_total offset :
  ∃ found, dns_name to_lowercase dns offset = Ret found ∧ ∀ l n, found = Some (l, n) → 0 <= n.
Proof.
  unfold dns_name. destruct (dns_name_loop_total (name_rounds dns) offset [] None 0) as (found & -> & Hn); [lia|done| |].
  - unfold name_rounds, zlen. lia.
  - cbn [mbind run_bind]. eexists. split; [done|]. destruct found as [[l n]|]; [|done]. intros ? ? [= _ <-]. by apply (Hn l).
Qed.

Lemma most_specific_rule_in name rules rule : most_specific_rule name rules = Some rule → rule ∈ rules.
Proof.
  unfold most_specific_rule. set (l := filter _ rules).
  assert (∀ k best, (∀ r, best = Some r → r ∈ rules) → (∀ r, r ∈ k → r ∈ rules) → ∀ r,
    foldl (λ best rule, match best with
      | None => Some rule
      | Some held => if specific_le (specificity held) (specificity rule) then Some rule else Some held
      end) best k = Some r → r ∈ rules) as H.
  { induction k as [|x k IH]; intros best Hb Hk r; [apply Hb|]. cbn [foldl]. apply IH.
    - intros r'. destruct best as [held|]; [destruct (specific_le _ _)|]; intros [= <-]; auto; apply Hk, list_elem_of_here.
    - intros r' Hr. apply Hk. by apply elem_of_cons; right. }
  apply H; [done|]. intros r [_ ?]%list_elem_of_filter. done.
Qed.

Lemma matched_rule_total hostnames n offset matched :
  (∀ rule, matched = Some rule → rule ∈ hostnames) →
  ∃ found, matched_rule to_lowercase dns hostnames n offset matched = Ret found ∧
    ∀ rule o, found = Some (Some rule, o) → rule ∈ hostnames.
Proof.
  revert offset matched. induction n as [|n IH]; intros offset matched Hm; cbn [matched_rule].
  { eexists. split; [done|]. intros rule o [= -> _]. auto. }
  destruct (dns_name_total offset) as ([[name next]|] & -> & _); cbn [mbind run_bind]; [|by exists None].
  destruct (_ <? _); [by exists None|]. apply IH. destruct matched as [rule|]; [done|]. intros rule Hr.
  by apply most_specific_rule_in in Hr.
Qed.

Lemma answer_addresses_total n offset rule :
  ∃ l, answer_addresses to_lowercase dns n offset rule = Ret l ∧ ∀ a h, (a, h) ∈ l → zlen a = 4 ∧ h = rule.
Proof.
  revert offset. induction n as [|n IH]; intros offset; cbn [answer_addresses].
  { exists []. split; [done|]. by intros a h ?%elem_of_nil. }
  assert (∃ l : list (list byte * list byte), Ret [] = Ret l ∧ ∀ a h, (a, h) ∈ l → zlen a = 4 ∧ h = rule) as Hnil.
  { exists []. split; [done|]. by intros a h ?%elem_of_nil. }
  destruct (dns_name_total offset) as ([[name next]|] & -> & Hn); cbn [mbind run_bind]; [|done]. specialize (Hn _ _ eq_refl).
  destruct (Z.ltb_spec (zlen dns) (next + 10)); [done|]. destruct (Z.ltb_spec (zlen dns) (next + 10 + nz16 dns (next + 8))); [done|].
  destruct (IH (next + 10 + nz16 dns (next + 8))) as (l & -> & Hl). cbn [mbind run_bind].
  destruct (_ && _) eqn:Hk; [|by exists l]. eexists. split; [done|]. intros a h [[= -> ->]|?]%elem_of_cons; [|by apply Hl].
  split; [|done]. b2p. rewrite zlen_sub; lia.
Qed.
End names.

Lemma dns_addresses_total to_lowercase packet hostnames :
  ∃ l, dns_addresses to_lowercase packet hostnames = Ret l ∧
    ∀ a h, (a, h) ∈ l → zlen a = 4 ∧ h ∈ hostnames.
Proof.
  assert (∃ l : list (list byte * list byte), Ret [] = Ret l ∧ ∀ a h, (a, h) ∈ l → zlen a = 4 ∧ h ∈ hostnames) as Hnil.
  { exists []. split; [done|]. by intros a h ?%elem_of_nil. }
  unfold dns_addresses. destruct (ipv4_fields packet); [|done]. destruct (_ || _); [done|].
  destruct (get_range _ _ _) as [dns|]; [|done]. destruct (_ || _); [done|].
  destruct (matched_rule_total to_lowercase dns hostnames (Z.to_nat (nz16 dns 4)) 12 None) as (found & -> & Hf); [done|].
  cbn [mbind run_bind]. destruct found as [[[rule|] offset]|]; [|done..].
  destruct (answer_addresses_total to_lowercase dns (Z.to_nat (nz16 dns 6)) offset rule) as (l & -> & Hl).
  exists l. split; [done|]. intros a h Ha. destruct (Hl a h Ha) as [? ->]. split; [done|]. by eapply Hf.
Qed.

(** Reading a DNS answer for the rules always ends and never panics, whatever the packet
    and however its names point at each other: a name follows 16 pointers at most. It
    yields addresses of four bytes, each under a hostname of the rules. *)
Theorem dns_answers_are_read to_lowercase packet hostnames :
  ∃ l, dns_addresses to_lowercase packet hostnames = Ret l ∧
    Forall (λ found : list byte * list byte, zlen found.1 = 4 ∧ found.2 ∈ hostnames) l.
Proof.
  destruct (dns_addresses_total to_lowercase packet hostnames) as (l & Hl & Hall). exists l. split; [done|].
  apply Forall_forall. intros [a h] Hin. by apply Hall.
Qed.
