(* ===== verification/SplitCapture.v ===== *)
(** * SplitCapture: the threads of a split capture

    The capture loop, the held SYNs, the bypass injector and the replies of
    [engine/src/split_capture.rs], with the route of name lookups
    ([engine/src/dns_policy.rs]) and the nodes of a session
    ([engine/src/session/nodes.rs]). Each function is a program of atomic steps; a
    turn of a loop is the program of one packet. *)
From S2P Require Import Prelude Text Icmp Fragments Mtu Dns Threads DirectList FragmentRouter TcpMss SplitTable SplitState SplitOwners SplitFlows.

Definition BYPASS_QUEUE_DEPTH : Z := 2048.
Definition BYPASS_QUEUE_BYTES : Z := 4 * 1024 * 1024.
Definition PENDING_DEPTH : Z := 256.
Definition PENDING_WAIT : Z := ms 3.
Definition RETURN_PATH_TARGET : Z := 4096.
Definition DESTINATION_LOG_LIMIT : Z := 64.
Definition DESTINATION_LOG_WINDOW : Z := secs (10 * 60).
Definition TUNNEL_RESOLVER : list byte := [x08; x08; x08; x08].

(** ** [dns_policy] *)

Inductive DnsRoute : Type := Normal | Remote.

#[export] Instance DnsRoute_eq_dec : EqDecision DnsRoute.
Proof. solve_decision. Defined.

Definition dns_route (remote_enabled own_apps_only yield_foreign_apps rule_selected application_owned bootstrap : bool)
    : DnsRoute :=
  if negb remote_enabled || bootstrap then Normal
  else if rule_selected || (negb own_apps_only && negb (yield_foreign_apps && application_owned)) then Remote
  else Normal.

(** ** [SessionNodes] *)

(** An index past the end is the default node's, which every session has. *)
Definition node_address (node : Z) : program (list byte) :=
  act (λ s, a ← unwrap (match get (addresses s) node with Some a => Some a | None => head (addresses s) end); Ret (a, s)).

Definition set_address (node : Z) (address : list byte) : program unit :=
  store (λ s, with_addresses s
    (if (0 <=? node) && (node <? zlen (addresses s)) then <[Z.to_nat node := address]> (addresses s) else addresses s)).

(** [any] loads one address at a time. *)
Fixpoint owns_from (i n : nat) (address : list byte) : program bool :=
  match n with
  | O => mret false
  | S n' =>
      held ← load (λ s, bool_decide (addresses s !! i = Some address));
      if held : bool then mret true else owns_from (S i) n' address
  end.
Definition owns (address : list byte) : program bool :=
  n ← load (λ s, length (addresses s)); owns_from O n address.

(** ** Small parts *)

Definition is_name_lookup (fields : Ipv4Fields) : bool :=
  ((SplitTable.protocol fields =? 6) || (SplitTable.protocol fields =? 17)) && (destination_port fields =? 53).

Definition is_outside_name_resolution (fields : Ipv4Fields) : bool :=
  is_name_lookup fields && negb (is_globally_routable_ipv4 (SplitTable.destination fields)).

Definition lookup_name (packet : list byte) (fields : Ipv4Fields) : option (list byte) :=
  if negb (SplitTable.protocol fields =? 17) || negb (destination_port fields =? 53) then None else
  let header := Z.land (nz packet 0) 0x0f * 4 in
  match get_range packet (header + 8) (zlen packet) with
  | Some message => question_name message
  | None => None
  end.

Definition with_destination (fields : Ipv4Fields) (address : list byte) : Ipv4Fields :=
  mk_fields (SplitTable.source fields) address (SplitTable.protocol fields) (source_port fields) (destination_port fields).

Definition protocol_name (protocol : Z) : list byte :=
  if protocol =? 6 then str "TCP" else if protocol =? 17 then str "UDP" else if protocol =? 1 then str "ICMP" else str "IP".

(** [1_u64.checked_shl(node)]. *)
Definition is_proxy_node (registry : Registry) (node : Z) : bool :=
  if node <? 64 then Z.testbit (proxy_nodes registry) node else false.

(** A computation that touches nothing shared. *)
Definition lift {A} (r : run A) : program A := act (λ s, a ← r; Ret (a, s)).

Section capture.
Context (registry : Registry).

Definition limits (node : Z) : run NodeLimits :=
  unwrap (match get (node_limits registry) node with Some l => Some l | None => head (node_limits registry) end).

(** ** Putting packets back *)

Definition send_bypass (packet : list byte) (address : Address) : program unit :=
  _ ← send_out packet address; mret ().

(** [fetch_update]: room for the packet in bytes. *)
Definition reserve (packet : list byte) (s : Capture) : bool * Capture :=
  if bypass_queued_bytes s + zlen packet <=? BYPASS_QUEUE_BYTES
  then (true, with_bypass_queued_bytes s (bypass_queued_bytes s + zlen packet))
  else (false, s).

Definition release (packet : list byte) (s : Capture) : Capture :=
  with_bypass_queued_bytes s (bypass_queued_bytes s - zlen packet).

(** [try_send] to the injector, which outlives the capture threads. *)
Definition enqueue_bypass (item : SplitState.Bypass) (s : Capture) : bool * Capture :=
  if zlen (SplitState.bypass s) <? BYPASS_QUEUE_DEPTH then (true, with_bypass s (SplitState.bypass s ++ [item])) else (false, s).

Definition reinject (packet : list byte) (address : Address) : program unit :=
  reserved ← act (λ s, Ret (reserve packet s));
  queued ← (if reserved : bool then
              taken ← act (λ s, Ret (enqueue_bypass (mk_bypass packet address) s));
              if taken : bool then mret true else _ ← store (release packet); mret false
            else mret false);
  if queued : bool then mret () else
  _ ← count bypass_queue_full;
  send_bypass packet address.

(** One turn of the injector: what it took off the queue goes out before its bytes
    are given back. *)
Definition inject_bypass : program unit :=
  item ← act (λ s, Ret (head (SplitState.bypass s), with_bypass s (tail (SplitState.bypass s))));
  match item with
  | None => mret ()
  | Some item =>
      _ ← send_bypass (bypass_packet item) (bypass_address item);
      store (release (bypass_packet item))
  end.

(** ** Into the tunnel *)

(** [SenderCache::send], to whichever session runs. *)
Definition tunnel_send (packet : list byte) (node : Z) : program (result (list byte) bool) :=
  act (λ s, Ret (tunnel (world s) packet node, with_log_entry s (Tunnelled packet node))).

Fixpoint send_pieces (pieces : list (list byte)) (node : Z) (sent : bool) : program (result (list byte) bool) :=
  match pieces with
  | [] => mret (Ok sent)
  | piece :: pieces' =>
      outcome ← tunnel_send piece node;
      match outcome with
      | Ok accepted => send_pieces pieces' node (sent || accepted)
      | Err e => mret (Err e)
      end
  end.

Definition send_within (packet : list byte) (node mtu : Z) : program (result (list byte) bool) :=
  match (if relay_reassembles registry then split_for_tunnel packet mtu else fragment packet mtu) with
  | None => tunnel_send packet node
  | Some pieces => send_pieces pieces node false
  end.

Definition signal_fragmentation_needed (reply : list byte) (address : Address) : program bool :=
  checksummed ← checksums reply;
  sent ← match checksummed with
         | Some reply => send_in reply (inbound_address (interface_index address) (subinterface_index address))
         | None => mret false
         end;
  _ ← count (if sent : bool then fragmentation_needed_sent else fragmentation_needed_failed);
  mret sent.

(** The source becomes the node's address, and a redirected lookup's destination the
    resolver of the tunnel. *)
Definition readdress (packet node_address : list byte) (redirect : option (list byte)) : run (list byte) :=
  packet ← copy_at packet 12 node_address;
  match redirect with Some _ => copy_at packet 16 TUNNEL_RESOLVER | None => Ret packet end.

(** Never fails open: half a datagram on each path reassembles nowhere. *)
Definition route_later_fragment (packet : list byte) (redirect : option (list byte)) (node : Z) : program unit :=
  address ← node_address node;
  tunneled ← lift (readdress packet address redirect);
  checksummed ← ip_checksum tunneled;
  forwarded ← match checksummed with
              | None => mret false
              | Some packet =>
                  limits ← lift (limits node);
                  outcome ← send_within packet node (limit_mtu limits);
                  mret (match outcome with Ok _ => true | Err _ => false end)
              end;
  if forwarded : bool then _ ← count outbound_fragments_followed; count relayed_packets
  else count fragments_discarded.

(** ** Return paths *)

(** Past the target, the oldest route that no process owns and nothing used lately
    makes room. *)
Definition evictable (now : Z) (paths : gmap ReturnKey ReturnPath) : option ReturnKey :=
  fst <$> min_by (λ kp, last_seen kp.2)
    (filter (λ kp, path_process kp.2 = None ∧ ACTIVE_CONNECTION_WINDOW < since now (last_seen kp.2)) (map_to_list paths)).

Definition usage_name (label application : option (list byte)) : list byte :=
  match application, label with
  | Some name, _ => name
  | None, Some label => label
  | None, None => str "Unattributed"
  end.

(** The block under the lock of the return paths: whether the flow is new, the node
    that carries it, and where it is counted. *)
Definition record_path (now : Z) (fields : Ipv4Fields) (address : Address) (application : option (list byte))
    (process : option Z) (node : Z) (redirect : option (list byte)) (s : Capture) : (bool * Z * list byte) * Capture :=
  let key := outbound_key fields in
  let paths := return_paths s in
  let evicted := if bool_decide (paths !! key = None) && (RETURN_PATH_TARGET <=? zsize paths)
                 then evictable now paths else None in
  let s := match evicted with
           | Some oldest => with_log_entry (with_handled_connections s (delete oldest (handled_connections s))) (Forgotten oldest)
           | None => s
           end in
  let paths := match evicted with Some oldest => delete oldest paths | None => paths end in
  let carried := p ← paths !! key; if bool_decide (path_process p = process) then Some p else None in
  let node := match carried with Some p => path_node p | None => node end in
  let name := match carried with
              | Some p => usage p
              | None => usage_name (destination_labels s !! SplitTable.destination fields) application
              end in
  let s := match app_usage s !! name with
           | Some _ => s
           | None => with_app_usage s (<[name := (0, 0)]> (app_usage s))
           end in
  let path := mk_return_path (SplitTable.source fields) (interface_index address) (subinterface_index address)
                process name now redirect node in
  let is_new := match paths !! key with Some p => negb (bool_decide (path_process p = process)) | None => true end in
  ((is_new, node, name), with_log_entry (with_return_paths s (<[key := path]> paths)) (Recorded key path)).

Definition first_seen (now : Z) (destination : Z * list byte * Z) (s : Capture) : Capture :=
  let l := logged_destinations s in
  let l := if DESTINATION_LOG_WINDOW <=? since now (window_started l) then mk_destination_log now ∅ else l in
  with_logged_destinations s
    (if Z.of_nat (size (logged l)) <? DESTINATION_LOG_LIMIT
     then mk_destination_log (window_started l) ({[destination]} ∪ logged l) else l).

Definition record_handled_connection (fields : Ipv4Fields) (application : option (list byte)) (process : option Z)
    (node : Z) : program unit :=
  label ← load (λ s, destination_labels s !! SplitTable.destination fields);
  let application := match application, label with
                     | Some name, _ => name
                     | None, Some label => label
                     | None, None => str "Matched destination"
                     end in
  _ ← store (λ s, first_seen (now (world s))
        (SplitTable.protocol fields, SplitTable.destination fields, destination_port fields) s);
  store (λ s, with_handled_connections s
    (<[outbound_key fields := mk_handled application (SplitTable.destination fields) (destination_port fields)
        (protocol_name (SplitTable.protocol fields)) (unix_time (world s)) process node]> (handled_connections s))).

(** [usage.sent.fetch_add] and [received]. *)
Definition add_usage (name : list byte) (sent received : Z) (s : Capture) : Capture :=
  with_app_usage s (alter (λ u, (wrap64 (u.1 + sent), wrap64 (u.2 + received))) name (app_usage s)).

(** ** A selected packet *)

(** The counters of a packet that was handed to the session or could not be. *)
Definition settle (packet : list byte) (address : Address) (name : list byte) (hold_on_failure : bool)
    (forwarded : option bool) : program unit :=
  match forwarded with
  | None =>
      if hold_on_failure then count held_packets
      else _ ← count bypassed_packets; send_bypass packet address
  | Some accepted =>
      _ ← count relayed_packets;
      if accepted then store (add_usage name (zlen packet) 0) else mret ()
  end.

(** The packet as it enters the tunnel, or nothing when its checksums could not be
    updated. *)
Definition prepare (packet : list byte) (node : Z) (limits : NodeLimits) (redirect : option (list byte))
    : program (option (list byte)) :=
  address ← node_address node;
  tunneled ← lift (readdress packet address redirect);
  if is_first_fragment packet then
    match readdress_transport_checksum tunneled packet with
    | (true, tunneled) => ip_checksum tunneled
    | (false, _) => mret None
    end
  else
    '(_, tunneled) ← lift (clamp tunneled (limit_mss limits));
    checksums tunneled.

(** Whether the sender was told the size that fits instead. *)
Definition told_size (packet : list byte) (address : Address) (limits : NodeLimits) : program bool :=
  if relay_reassembles registry then mret false else
  reply ← lift (fragmentation_needed packet (limit_mtu limits));
  match reply with
  | Some reply => signal_fragmentation_needed reply address
  | None => mret false
  end.

Definition route_selected_packet (packet : list byte) (address : Address) (fields : Ipv4Fields)
    (application : option (list byte)) (process : option Z) (node : Z) (hold_on_failure : bool)
    (redirect : option (list byte)) : program (option Z) :=
  let fields := match redirect with Some _ => with_destination fields TUNNEL_RESOLVER | None => fields end in
  now ← clock;
  '(is_new, node, name) ← act (λ s, Ret (record_path now fields address application process node redirect s));
  _ ← (if is_new : bool then record_handled_connection fields application process node else mret ());
  _ ← count captured_packets;
  _ ← count_by captured_bytes (zlen packet);
  limits ← lift (limits node);
  told ← told_size packet address limits;
  if told : bool then mret (Some node) else
  tunneled ← prepare packet node limits redirect;
  forwarded ← match tunneled with
              | None => mret None
              | Some tunneled =>
                  outcome ← send_within tunneled node (limit_mtu limits);
                  mret (match outcome with Ok accepted => Some accepted | Err _ => None end)
              end;
  _ ← settle packet address name hold_on_failure forwarded;
  mret (match forwarded with Some _ => Some node | None => None end).

(** ** Fragments *)

Definition dispatch_fragment (packet : list byte) (address : Address) (route : Route) : program unit :=
  match route with
  | Tunnel redirect node => route_later_fragment packet redirect node
  | FragmentRouter.Bypass => reinject packet address
  | Drop => count fragments_discarded
  end.

(** An operation of the router under its lock, and the count of what it gave up. *)
Definition with_router {A} (op : Z → FragmentRouter Address → A * FragmentRouter Address) (s : Capture) : A * Z * Capture :=
  let '(a, r) := op (now (world s)) (SplitState.fragments s) in
  let '(n, r) := FragmentRouter.take_discarded r in
  (a, n, with_fragments s r).

Fixpoint dispatch_all (pieces : list (list byte * Address)) (route : Route) : program unit :=
  match pieces with
  | [] => mret ()
  | (packet, address) :: pieces' => _ ← dispatch_fragment packet address route; dispatch_all pieces' route
  end.

Definition finish_fragments (ticket : Ticket) (route : Route) : program unit :=
  '(waiting, n) ← act (λ s, Ret (with_router (λ now r, finish r ticket route now) s));
  _ ← count_by fragments_discarded n;
  dispatch_all waiting route.

Definition finish_if (ticket : option Ticket) (route : Route) : program unit :=
  match ticket with Some ticket => finish_fragments ticket route | None => mret () end.

(** A later fragment goes where its first one went. *)
Definition capture_later (packet : list byte) (address : Address) : program unit :=
  '(action, n) ← act (λ s, Ret (with_router (λ now r, later r packet address now) s));
  _ ← count_by fragments_discarded n;
  match action with
  | Routed route => dispatch_fragment packet address route
  | Held => mret ()
  end.

Definition begin_first (packet : list byte) : program (option Ticket) :=
  if is_first_fragment packet then
    act (λ s, let '(ticket, r) := begin (SplitState.fragments s) packet (now (world s)) in
              Ret (Some ticket, with_fragments s r))
  else mret None.

(** ** The capture loop *)

(** Whether a packet is taken into the tunnel, for what and by which node. *)
Record Claim := mk_claim {
  selected : bool;
  claim_application : option (list byte);
  claim_process : option Z;
  claim_node : Z
}.
Definition no_claim : Claim := mk_claim false None None 0.
Definition claim_of (found : option Selection) : Claim :=
  match found with
  | Some found => mk_claim true (SplitTable.application found) (SplitTable.process_id found) (SplitTable.node found)
  | None => no_claim
  end.
Definition unselected (c : Claim) : Claim := mk_claim false (claim_application c) (claim_process c) (claim_node c).
Definition at_node (c : Claim) (node : Z) : Claim := mk_claim true (claim_application c) (claim_process c) node.

(** A packet of a process that the rules name: its flow is selected from now on. *)
Definition claim_socket (selector : TrafficSelector) (process : Z) (path : list byte) : program Claim :=
  _ ← store (add_process_selector registry selector path process None);
  mret (mk_claim true (Some (process_name path)) (Some process) (for_path (targets registry) path)).

(** The owner of an unselected lookup's socket; the flag says that it is not known. *)
Definition claim_lookup (fields : Ipv4Fields) (exit : bool) (c : Claim) : program (Claim * bool) :=
  if selected c || exit || negb (is_name_lookup fields) then mret (c, false) else
  owner ← load (λ s, dns_socket_process fields (world s));
  match owner with
  | Some (process, path) =>
      if path_matches path (applications registry) (folders registry) then
        c ← claim_socket (process_socket_selector (SplitTable.protocol fields) (source_port fields) (destination_port fields))
              process path;
        mret (c, false)
      else mret (c, false)
  | None => mret (c, true)
  end.

(** The first datagram of a socket is looked up before any notification of it. *)
Definition claim_udp (fields : Ipv4Fields) (exit direct : bool) (c : Claim) : program Claim :=
  if selected c || direct || exit || negb (SplitTable.protocol fields =? 17)
     || (bool_decide (applications registry = []) && bool_decide (folders registry = []))
     || negb (is_globally_routable_ipv4 (SplitTable.destination fields) || (destination_port fields =? 53))
  then mret c else
  owner ← act (λ s, Ret (selected_owner registry (SplitTable.source fields) (source_port fields) s));
  match owner with
  | Some (process, path) =>
      c ← claim_socket (process_socket_selector 17 (source_port fields) (destination_port fields)) process path;
      _ ← count matched_sockets;
      mret c
  | None => mret c
  end.

Definition from_an_application (fields : Ipv4Fields) : program bool :=
  act (λ s, Ret (lookup_is_from_an_application registry (SplitTable.protocol fields) (source_port fields) s)).

(** GamePath resolving its own nodes. *)
Definition own_lookup (fields : Ipv4Fields) (exit : bool) (question : option (list byte)) : program bool :=
  if exit then mret true else
  proxy ← is_proxy_lookup registry fields;
  if proxy : bool then mret true else
  match question with
  | Some name =>
      if bool_decide (name ∈ own_hostnames registry) then
        foreign ← from_an_application fields; mret (negb foreign)
      else mret false
  | None => mret false
  end.

(** Whether a lookup goes through the tunnel. *)
Definition remote_lookup (fields : Ipv4Fields) (remote_enabled own_apps_only rule_selected own : bool) : program bool :=
  if negb (is_name_lookup fields) then mret false else
  yields ← (if rule_selected then mret false else load SplitState.yield_foreign_lookups);
  foreign ← (if yields : bool then from_an_application fields else mret false);
  yields ← load SplitState.yield_foreign_lookups;
  mret (bool_decide (dns_route remote_enabled own_apps_only yields rule_selected foreign own = Remote)).

(** A website's names resolve through its node, an application's through its own,
    everything else through the default node. *)
Definition lookup_node (question : option (list byte)) (rule_selected : bool) (c : Claim) : Z :=
  match question ≫= for_name (targets registry) with
  | Some node => node
  | None => if rule_selected then claim_node c else 0
  end.

(** The claim of a lookup, and the resolver that a redirected one was sent to. *)
Definition claim_remote (fields : Ipv4Fields) (question : option (list byte)) (remote : bool) (c : Claim)
    : program (Claim * option (list byte)) :=
  if negb (is_name_lookup fields) then mret (c, None) else
  if negb remote then mret (unselected c, None) else
  _ ← count tunnelled_dns;
  let c := at_node c (lookup_node question (selected c) c) in
  if is_outside_name_resolution fields then _ ← count redirected_dns; mret (c, Some (SplitTable.destination fields))
  else mret (c, None).

Definition is_fake_destination (fields : Ipv4Fields) : bool :=
  bool_decide (is_Some (fake_ip_node registry)) && is_fake_ip (SplitTable.destination fields).

(** An address that the proxy invented reaches nothing but the proxy. *)
Definition claim_fake_ip (fields : Ipv4Fields) (c : Claim) : program Claim :=
  if negb (is_fake_destination fields) then mret c else
  _ ← count fake_ip_packets;
  mret (if selected c && is_proxy_node registry (claim_node c) then c
        else at_node c (default 0 (fake_ip_node registry))).

(** [fetch_add] and [fetch_max]. *)
Definition raise_depth : program Z :=
  act (λ s, Ret (counts s pending_syn_depth + 1, set_count pending_syn_depth (λ v, wrap64 (v + 1)) s)).
Definition lower_depth : program unit := store (set_count pending_syn_depth (λ v, wrap64 (v - 1))).
Definition raise_peak (depth : Z) : program unit := store (set_count pending_syn_peak (Z.max depth)).

Definition hold_syn (packet : list byte) (address : Address) (fields : Ipv4Fields) : program unit :=
  now ← clock;
  depth ← raise_depth;
  held ← act (λ s, Ret (if zlen (pending_syns s) <? PENDING_DEPTH
                         then (true, with_pending_syns s
                                (pending_syns s ++ [mk_pending packet address fields (now + PENDING_WAIT)]))
                         else (false, s)));
  if held : bool then raise_peak depth else
  _ ← lower_depth;
  _ ← count pending_syn_overflow;
  send_bypass packet address.

(** An unmatched SYN whose socket is known is claimed; [None] says that it waits for
    the socket observer. *)
Definition claim_syn (packet : list byte) (address : Address) (fields : Ipv4Fields) (exit direct first : bool) (c : Claim)
    : program (option Claim) :=
  if selected c || direct || is_name_lookup fields || exit || first || negb (is_tcp_syn packet) then mret (Some c) else
  owner ← load (λ s, tcp_socket_process registry fields (world s));
  match owner with
  | Some (process, path) =>
      c ← claim_socket (Flow 6 (source_port fields) (Some (destination_port fields))) process path;
      _ ← count matched_sockets;
      mret (Some c)
  | None => _ ← hold_syn packet address fields; mret None
  end.

(** What no rule can send into the tunnel: a proxy's own upstream, an exit's socket,
    an address that means something else at its end, and a direct destination that
    the tunnel does not carry already. *)
Definition keep_out (fields : Ipv4Fields) (exit direct : bool) (redirect : option (list byte)) (c : Claim) : program Claim :=
  upstream ← (if negb (selected c) then mret false
              else if exit then mret true
              else if is_name_lookup fields then mret false
              else is_proxy_upstream registry (claim_node c) fields);
  _ ← (if upstream : bool then note (Exempted fields) else mret ());
  let c := if upstream : bool then unselected c else c in
  let exempt := is_fake_destination fields || bool_decide (is_Some redirect) in
  c ← (if selected c && negb exempt && negb (is_globally_routable_ipv4 (SplitTable.destination fields))
       then _ ← count local_destinations; mret (unselected c)
       else mret c);
  if negb (selected c && direct && negb exempt) then mret c else
  carried ← load (λ s, bool_decide (is_Some (return_paths s !! outbound_key fields)));
  if carried : bool then mret c else _ ← count direct_packets; mret (unselected c).

(** A held first fragment counts as tunnelled. *)
Definition fragment_route (carried : option Z) (hold_on_failure : bool) (redirect : option (list byte)) : Route :=
  match carried with
  | Some node => Tunnel redirect node
  | None => if hold_on_failure then Drop else FragmentRouter.Bypass
  end.

Definition deliver_captured (packet : list byte) (address : Address) (fields : Ipv4Fields) (ticket : option Ticket)
    (remote : bool) (redirect : option (list byte)) (c : Claim) : program unit :=
  if negb (selected c) then
    _ ← reinject packet address; finish_if ticket FragmentRouter.Bypass
  else
    let hold_on_failure := kill_switch registry || remote in
    carried ← route_selected_packet packet address fields (claim_application c) (claim_process c) (claim_node c)
                hold_on_failure redirect;
    finish_if ticket (fragment_route carried hold_on_failure redirect).

(** A packet whose fields were read. *)
Definition capture_fields (table : SelectorTable) (packet : list byte) (address : Address) (ticket : option Ticket)
    (fields : Ipv4Fields) : program unit :=
  let c := claim_of (lookup table fields) in
  direct ← (if is_name_lookup fields then mret false else is_direct registry (SplitTable.destination fields));
  exit ← load (λ s, is_exit_socket fields (world s));
  '(c, uncertain) ← claim_lookup fields exit c;
  c ← claim_udp fields exit direct c;
  let question := lookup_name packet fields in
  own ← own_lookup fields exit question;
  _ ← (if own : bool then note (Exempted fields) else mret ());
  own_apps_only ← load dns_own_apps_only;
  remote_enabled ← load redirect_dns;
  if is_name_lookup fields && remote_enabled && own_apps_only && uncertain && negb own && negb (selected c) then
    _ ← count held_packets; finish_if ticket Drop
  else
  remote ← remote_lookup fields remote_enabled own_apps_only (selected c) own;
  '(c, redirect) ← claim_remote fields question remote c;
  c ← claim_fake_ip fields c;
  claimed ← claim_syn packet address fields exit direct (bool_decide (is_Some ticket)) c;
  match claimed with
  | None => mret ()
  | Some c =>
      c ← keep_out fields exit direct redirect c;
      deliver_captured packet address fields ticket remote redirect c
  end.

Definition capture_packet (table : SelectorTable) (packet : list byte) (address : Address) : program unit :=
  if is_later_fragment packet then capture_later packet address else
  ticket ← begin_first packet;
  match ipv4_fields packet with
  | Some fields => capture_fields table packet address ticket fields
  | None => match ticket with
            | Some ticket => finish_fragments ticket Drop
            | None => reinject packet address
            end
  end.

(** One turn: the loop's own copy of the table is renewed when its version moved. *)
Definition capture_turn (version : Z) (table : SelectorTable) (packet : list byte) (address : Address)
    : program (Z * SelectorTable) :=
  current ← load table_version;
  table ← (if current =? version then mret table else load SplitState.table);
  _ ← capture_packet table packet address;
  mret (current, table).

(** A capture thread, by the packets it receives. *)
Fixpoint capture_loop (packets : list (list byte * Address)) (version : Z) (table : SelectorTable) : program unit :=
  match packets with
  | [] => mret ()
  | (packet, address) :: packets' =>
      '(version, table) ← capture_turn version table packet address;
      capture_loop packets' version table
  end.

Definition run_selected_capture (packets : list (list byte * Address)) : program unit :=
  version ← load table_version;
  table ← load SplitState.table;
  capture_loop packets version table.

(** ** Held SYNs *)

(** One turn, once the wait is over. *)
Definition pending_turn : program unit :=
  item ← act (λ s, Ret (head (pending_syns s), with_pending_syns s (tail (pending_syns s))));
  match item with
  | None => mret ()
  | Some item =>
      _ ← lower_depth;
      stopping ← load SplitState.stop;
      if stopping : bool then send_bypass (pending_packet item) (pending_address item) else
      table ← load SplitState.table;
      match lookup table (pending_fields item) with
      | None => send_bypass (pending_packet item) (pending_address item)
      | Some found =>
          upstream ← is_proxy_upstream registry (SplitTable.node found) (pending_fields item);
          if upstream : bool then send_bypass (pending_packet item) (pending_address item) else
          _ ← route_selected_packet (pending_packet item) (pending_address item) (pending_fields item)
                (SplitTable.application found) (SplitTable.process_id found) (SplitTable.node found)
                (kill_switch registry) None;
          mret ()
      end
  end.

(** ** Replies *)

Definition icmp_error_quote (packet : list byte) : option (option Ipv4Fields) :=
  let header := Z.land (nz packet 0) 0x0f * 4 in
  if negb (nz packet 9 =? 1) then None else
  match get packet header with
  | None => None
  | Some kind =>
      if negb ((b2z kind =? 3) || (b2z kind =? 11) || (b2z kind =? 12)) then None
      else Some (match get_range packet (header + 8) (zlen packet) with
                 | Some quote => ipv4_fields quote
                 | None => None
                 end)
  end.

(** The quote is what follows the ICMP header. *)
Definition readdress_quote (quoted local_ip : list byte) (resolver : option (list byte)) : run (list byte) :=
  let original := quoted in
  quoted ← copy_at quoted 12 local_ip;
  quoted ← match resolver with Some a => copy_at quoted 16 a | None => Ret quoted end;
  let header := Z.land (nz quoted 0) 0x0f * 4 in
  quoted ← (if header <=? zlen quoted then
              quoted ← copy_at quoted 10 [x00; x00];
              copy_at quoted 10 (be_bytes 2 (internet_checksum (sub quoted 0 header)))
            else Ret quoted);
  Ret (readdress_transport_checksum quoted original).2.

Definition readdress_icmp_error (packet local_ip : list byte) (resolver : option (list byte)) : run (list byte) :=
  let quote := Z.land (nz packet 0) 0x0f * 4 + 8 in
  quoted ← slice packet quote (zlen packet);
  packet ← copy_at packet 16 local_ip;
  quoted ← readdress_quote quoted local_ip resolver;
  Ret (sub packet 0 quote ++ quoted).

(** [checksums] and then [send]. *)
Definition inject_reply (packet : list byte) (path : ReturnPath) : program bool :=
  checksummed ← checksums packet;
  match checksummed with
  | Some packet => send_in packet (inbound_address (path_interface path) (path_subinterface path))
  | None => mret false
  end.

Definition deliver_icmp_error (packet : list byte) : program bool :=
  match icmp_error_quote packet with
  | None => mret false
  | Some None => mret true
  | Some (Some flow) =>
      ours ← owns (SplitTable.source flow);
      if negb (ours : bool) then mret true else
      path ← load (λ s, return_paths s !! outbound_key flow);
      match path with
      | None => mret true
      | Some path =>
          packet ← lift (readdress_icmp_error packet (local_ip path) (resolver path));
          injected ← inject_reply packet path;
          _ ← count (if injected : bool then icmp_errors_delivered else return_injection_errors);
          mret true
      end
  end.

(** Under the lock of the return paths. *)
Definition touch_path (key : ReturnKey) (s : Capture) : option ReturnPath * Capture :=
  match return_paths s !! key with
  | None => (None, s)
  | Some p =>
      let p := mk_return_path (local_ip p) (path_interface p) (path_subinterface p) (path_process p) (usage p)
                 (now (world s)) (resolver p) (path_node p) in
      (Some p, with_return_paths s (<[key := p]> (return_paths s)))
  end.

Definition readdress_reply (packet : list byte) (path : ReturnPath) : run (list byte) :=
  packet ← copy_at packet 16 (local_ip path);
  packet ← match resolver path with Some a => copy_at packet 12 a | None => Ret packet end;
  limits ← limits (path_node path);
  '(_, packet) ← clamp packet (limit_mss limits);
  Ret packet.

Definition unmatched (cause : Count) : program unit := _ ← count cause; count unmatched_return_packets.

(** A whole reply. *)
Definition deliver_reply (packet : list byte) : program unit :=
  _ ← learn_direct registry packet;
  match ipv4_fields packet with
  | None => unmatched return_not_ipv4
  | Some fields =>
      ours ← owns (SplitTable.destination fields);
      if negb (ours : bool) then unmatched return_wrong_destination else
      delivered ← deliver_icmp_error packet;
      if delivered : bool then mret () else
      path ← act (λ s, Ret (touch_path (inbound_key fields) s));
      match path with
      | None => unmatched return_without_flow
      | Some path =>
          packet ← lift (readdress_reply packet path);
          injected ← inject_reply packet path;
          if injected : bool then
            _ ← count injected_return_packets;
            store (add_usage (usage path) 0 (zlen packet))
          else count return_injection_errors
      end
  end.

(** One turn of the injector with a packet from the tunnel, and its reassembler. *)
Definition reply_turn (reassembler : Reassembler) (packet : list byte) : program Reassembler :=
  _ ← count relay_return_packets;
  if is_fragment packet then
    now ← clock;
    '(rebuilt, r) ← lift (push reassembler packet now);
    let '(n, r) := Fragments.take_discarded r in
    _ ← count_by fragments_discarded n;
    match rebuilt with
    | None => mret r
    | Some datagram => _ ← count reassembled_return_packets; _ ← deliver_reply datagram; mret r
    end
  else _ ← deliver_reply packet; mret reassembler.

Fixpoint reply_loop (packets : list (list byte)) (reassembler : Reassembler) : program unit :=
  match packets with
  | [] => mret ()
  | packet :: packets' => reassembler ← reply_turn reassembler packet; reply_loop packets' reassembler
  end.
Definition run_reply_injector (packets : list (list byte)) : program unit := reply_loop packets default_reassembler.

Fixpoint turns (n : nat) (turn : program unit) : program unit :=
  match n with O => mret () | S n' => _ ← turn; turns n' turn end.
Definition run_pending_syns (n : nat) : program unit := turns n pending_turn.
Definition run_bypass_injector (n : nat) : program unit := turns n inject_bypass.

(** ** Settings changed while it runs *)

Definition set_redirect_dns (redirect own_apps_only : bool) : program unit :=
  _ ← store (λ s, with_dns_own_apps_only s own_apps_only);
  store (λ s, with_redirect_dns s redirect).
Definition set_yield_foreign_lookups (yield_lookups : bool) : program unit :=
  store (λ s, with_yield_foreign_lookups s yield_lookups).
End capture.
