(* ===== verification/SplitSafety.v ===== *)
(** * SplitSafety: what any interleaving of a split capture's threads keeps

    The invariant of the shared state with the tokens of the calls in flight: bytes
    reserved in the bypass queue, and what a thread knows of the log. Every thread of
    [SplitCapture] and [SplitFlows] keeps it at each step, and none panics. *)
From S2P Require Import Prelude Text Icmp Fragments Mtu Dns Threads Ranges DirectList FragmentRouter TcpMss SplitTable SplitState SplitOwners SplitFlows SplitCapture.

Inductive Token : Type :=
| Reserved (bytes : Z)
| Knows (o : Output)
| Leaves (packet : list byte).

Fixpoint reserved (tokens : list Token) : Z :=
  match tokens with
  | [] => 0
  | Reserved n :: l => n + reserved l
  | _ :: l => reserved l
  end.

Definition is_knowledge (t : Token) : Prop := match t with Reserved _ => False | _ => True end.
Notation plain := (Forall is_knowledge).

Lemma reserved_app a b : reserved (a ++ b) = reserved a + reserved b.
Proof. induction a as [|[] a IH]; cbn [app reserved]; lia. Qed.
Lemma reserved_perm a b : a ≡ₚ b → reserved a = reserved b.
Proof. induction 1 as [|[] a b _ IH|[] [] a|a b c _ IH1 _ IH2]; cbn [reserved]; lia. Qed.
Lemma plain_reserved a : plain a → reserved a = 0.
Proof. induction 1 as [|t a Ht _ IH]; [done|]. by destruct t; cbn [reserved]. Qed.

Definition queue_bytes (l : list SplitState.Bypass) : Z := foldr (λ b acc, zlen (bypass_packet b) + acc) 0 l.

Lemma queue_bytes_app a b : queue_bytes (a ++ b) = queue_bytes a + queue_bytes b.
Proof. induction a as [|x a IH]; cbn [app queue_bytes foldr]; [done|]. unfold queue_bytes in *. lia. Qed.
Lemma queue_bytes_nonneg l : 0 <= queue_bytes l.
Proof. induction l as [|x l IH]; cbn [queue_bytes foldr]; [done|]. pose proof (zlen_nonneg (bypass_packet x)). unfold queue_bytes in *. lia. Qed.

(** WinDivert's checksums change checksums only, and an exit's sockets send only the
    packets of [may_exit]. *)
Definition world_ok (may_exit : Ipv4Fields → Prop) (w : World) : Prop :=
  (∀ flags p p', helper_checksums w flags p = Some p' →
    zlen p' = zlen p ∧ ∀ i, i < 10 ∨ 12 <= i < 20 → get p' i = get p i)
  ∧ ∀ fields, is_exit_socket fields w = true → may_exit fields.

(** ** The log *)

(** The process and the node of the last route recorded for a flow. *)
Fixpoint newest (log : list Output) (key : ReturnKey) : option ReturnPath :=
  match log with
  | [] => None
  | Recorded k p :: log' => if decide (k = key) then Some p else newest log' key
  | Forgotten k :: log' => if decide (k = key) then None else newest log' key
  | _ :: log' => newest log' key
  end.

Definition same_route (p q : ReturnPath) : Prop :=
  local_ip p = local_ip q ∧ path_interface p = path_interface q ∧ path_subinterface p = path_subinterface q
  ∧ path_process p = path_process q ∧ resolver p = resolver q ∧ path_node p = path_node q.

(** A route of the same process keeps the node of the one before it. *)
Definition stays (before : list Output) (key : ReturnKey) (p : ReturnPath) : Prop :=
  ∀ q, newest before key = Some q → path_process q = path_process p → path_node q = path_node p.

Fixpoint stays_all (log : list Output) : Prop :=
  match log with
  | [] => True
  | Recorded k p :: log' => stays log' k p ∧ stays_all log'
  | _ :: log' => stays_all log'
  end.

(** A reply goes where its flow began: to the local address, over the interface, and
    from the peer unless it is ICMP. *)
Definition reply_of (k : ReturnKey) (p : ReturnPath) (packet : list byte) (address : Address) : Prop :=
  sub packet 16 20 = local_ip p ∧ address = inbound_address (path_interface p) (path_subinterface p)
  ∧ (nz packet 9 = 1 ∨ sub packet 12 16 = default (key_remote_ip k) (resolver p)).

Section safety.
Context (registry : Registry).

(** The lookups that may not leave, and the addresses that the rules cover. *)
Context (dns_closed : bool) (covered : list byte → Prop) (may_exit : Ipv4Fields → Prop).

Definition protected (fields : Ipv4Fields) : Prop :=
  dns_closed = true ∧ is_name_lookup fields = true
  ∨ kill_switch registry = true ∧ is_name_lookup fields = false ∧ covered (SplitTable.destination fields)
    ∧ is_globally_routable_ipv4 (SplitTable.destination fields) = true
    ∧ contains (direct registry) (SplitTable.destination fields) = false ∧ has_domains (direct registry) = false.

(** What can be GamePath's own: an exit's packets, a proxy's, and lookups of the
    session's own names. *)
Definition exempt (fields : Ipv4Fields) : Prop :=
  may_exit fields ∨ proxies registry ≠ []
  ∨ is_name_lookup fields = true ∧ own_hostnames registry ≠ ∅.

(** What may be put back as it was. *)
Definition may_leave (log : list Output) (packet : list byte) : Prop :=
  is_later_fragment packet = true
  ∨ ∀ fields, ipv4_fields packet = Some fields → protected fields → Exempted fields ∈ log.

Definition output_ok (log : list Output) (o : Output) : Prop :=
  match o with
  | Bypassed packet _ => may_leave log packet
  | Injected packet address => ∃ k p, Recorded k p ∈ log ∧ reply_of k p packet address
  | Exempted fields => exempt fields
  | _ => True
  end.

Definition path_ok (p : ReturnPath) : Prop :=
  zlen (local_ip p) = 4 ∧ match resolver p with Some a => zlen a = 4 | None => True end.

Definition selects (t : SelectorTable) : Prop :=
  ∀ fields, covered (SplitTable.destination fields) → is_Some (lookup t fields).

Record selectors_ok (state : SelectorState) : Prop := {
  so_ranges : ranges_wf state;
  so_covered : ∀ a, covered a → ∃ f l, is_Some (selectors state !! Destination f l) ∧ f <= be_Z a <= l;
  so_owners : ∀ f l, flow_owners state !! Destination f l = None
}.

Definition token_ok (s : Capture) (t : Token) : Prop :=
  match t with Reserved n => 0 <= n | Knows o => o ∈ log s | Leaves packet => may_leave (log s) packet end.

Record inv (s : Capture) (tokens : list Token) : Prop := {
  iv_world : world_ok may_exit (world s);
  iv_nodes : addresses s ≠ [] ∧ Forall (λ a, zlen a = 4) (addresses s);
  iv_bytes : bypass_queued_bytes s = queue_bytes (SplitState.bypass s) + reserved tokens;
  iv_room : bypass_queued_bytes s <= BYPASS_QUEUE_BYTES;
  iv_depth : zlen (SplitState.bypass s) <= BYPASS_QUEUE_DEPTH;
  iv_paths : ∀ k p, return_paths s !! k = Some p → path_ok p;
  iv_newest : ∀ k, match return_paths s !! k, newest (log s) k with
                   | Some p, Some q => same_route p q
                   | None, None => True
                   | _, _ => False
                   end;
  iv_stays : stays_all (log s);
  iv_log : ∀ o, o ∈ log s → output_ok (log s) o;
  iv_queue : ∀ b, b ∈ SplitState.bypass s → may_leave (log s) (bypass_packet b);
  iv_pending : ∀ b, b ∈ pending_syns s →
    20 <= zlen (pending_packet b) ∧ ipv4_fields (pending_packet b) = Some (pending_fields b)
    ∧ is_later_fragment (pending_packet b) = false ∧ may_leave (log s) (pending_packet b);
  iv_fragments : ∀ k d x, datagrams (SplitState.fragments s) !! k = Some d → x ∈ waiting d → is_later_fragment x.1 = true;
  iv_selectors : selectors_ok (selector_state s);
  iv_table : selects (SplitState.table s);
  iv_settings : dns_closed = true →
    redirect_dns s = true ∧ dns_own_apps_only s = false ∧ SplitState.yield_foreign_lookups s = false;
  iv_tokens : Forall (token_ok s) tokens
}.

Lemma capture_perm s l l' : l ≡ₚ l' → inv s l → inv s l'.
Proof. intros Hp []. split; try done; [|by rewrite <-Hp]. by rewrite <-(reserved_perm l l' Hp). Qed.

Lemma capture_drop s l l' : plain l → inv s (l ++ l') → inv s l'.
Proof.
  intros Hl []. split; try done; [|by eapply Forall_app].
  rewrite reserved_app, (plain_reserved l Hl) in iv_bytes0. done.
Qed.

(** ** The log grows *)

Lemma may_leave_mono log log' p : (∀ o, o ∈ log → o ∈ log') → may_leave log p → may_leave log' p.
Proof. intros Hl [?|H]; [by left|right]. intros f Hf Hp. apply Hl. auto. Qed.

Lemma output_ok_mono log log' o : (∀ o, o ∈ log → o ∈ log') → output_ok log o → output_ok log' o.
Proof.
  intros Hl. destruct o as [| |packet node| | |]; cbn; try done; [by apply may_leave_mono|].
  intros (k & p & ? & ?). exists k, p. auto.
Qed.

Lemma token_ok_mono s s' t : (∀ o, o ∈ log s → o ∈ log s') → token_ok s t → token_ok s' t.
Proof. intros Hl. destruct t; cbn; [done|by apply Hl|by apply may_leave_mono]. Qed.

Definition is_route (o : Output) : bool := match o with Recorded _ _ | Forgotten _ => true | _ => false end.

Lemma newest_cons o log k : is_route o = false → newest (o :: log) k = newest log k.
Proof. by destruct o. Qed.
Lemma stays_cons o log : is_route o = false → stays_all (o :: log) ↔ stays_all log.
Proof. by destruct o. Qed.

Lemma inv_note s l l' o :
  inv s l → is_route o = false → output_ok (o :: log s) o → reserved l' = reserved l →
  Forall (token_ok (with_log_entry s o)) l' → inv (with_log_entry s o) l'.
Proof.
  intros [] Hr Ho Hres Ht. assert (∀ x, x ∈ log s → x ∈ o :: log s) as Hin by (intros x Hx; by apply elem_of_cons; right).
  split; try done; unfold with_log_entry; cbn [with_log SplitState.log return_paths].
  - by rewrite Hres.
  - intros k. rewrite newest_cons by done. apply iv_newest0.
  - by apply stays_cons.
  - intros x [->|Hx]%elem_of_cons; [done|]. eapply output_ok_mono; [exact Hin|auto].
  - intros b Hb. eapply may_leave_mono; [exact Hin|auto].
  - intros b Hb. destruct (iv_pending0 b Hb) as (? & ? & ? & ?). split_and!; try done. by eapply may_leave_mono.
Qed.

(** ** Programs and what they learn *)

Definition share (_ : list Token) : Prop := True.
Notation wp := (wp inv share).

(** [orderly m P]: holding knowledge only, [m] ends with no less, and [P] of its answer
    and what is known then. *)
Definition orderly {A} (m : program A) (P : A → list Token → Prop) (r : list Token) : Prop :=
  plain r → wp m r (λ a r', plain r' ∧ r ⊆ r' ∧ P a r').

Lemma orderly_mono {A} (m : program A) (P Q : A → list Token → Prop) r :
  orderly m P r → (∀ a r', r ⊆ r' → P a r' → Q a r') → orderly m Q r.
Proof. intros Hm HPQ Hr. eapply wp_mono; [by apply Hm|]. intros a r' (? & ? & ?). auto. Qed.

Lemma orderly_ret {A} (a : A) (P : A → list Token → Prop) r : P a r → orderly (mret a) P r.
Proof. intros HP Hr. by split_and!. Qed.

Lemma orderly_bind {A B} (m : program A) (f : A → program B) (P : A → list Token → Prop) (Q : B → list Token → Prop) r :
  orderly m P r → (∀ a r', r ⊆ r' → P a r' → orderly (f a) Q r') → orderly (m ≫= f) Q r.
Proof.
  intros Hm Hf Hr. eapply wp_seq; [by apply Hm|]. intros a r' (Hr' & Hsub & Ha).
  eapply wp_mono; [by apply Hf|]. intros b r'' (? & ? & ?). split_and!; try done. by etransitivity.
Qed.

(** What a call does not need stays. *)
Lemma wp_frame {A} (m : program A) f r (Q : A → list Token → Prop) :
  wp m r Q → wp m (f ++ r) (λ a r', ∃ r'', r' = f ++ r'' ∧ Q a r'').
Proof.
  revert r. induction m as [a|X op k IH]; intros r Hm; [by exists r|]. intros s others Hi.
  assert (∀ x, (f ++ x) ++ others ≡ₚ x ++ f ++ others) as Hp by (intros x; rewrite app_assoc; f_equiv; apply Permutation_app_comm).
  apply (capture_perm _ _ _ (Hp r)) in Hi. specialize (Hm s (f ++ others) Hi). destruct (op s) as [[x s']|]; [|done].
  destruct Hm as (r' & _ & Hi' & Hk). exists (f ++ r'). split; [done|]. split; [|by apply IH].
  eapply capture_perm; [symmetry; apply Hp|done].
Qed.

(** A step that keeps the invariant with what is known. *)
Lemma orderly_act {A} (op : Capture → run (A * Capture)) (P : A → list Token → Prop) r :
  (∀ s l, inv s l → r ⊆ l → ∃ a s', op s = Ret (a, s') ∧ inv s' l ∧ P a r) → orderly (act op) P r.
Proof.
  intros Hop Hr. apply wp_act with r; [done|]. intros s others Hi.
  destruct (Hop s (r ++ others) Hi) as (a & s' & ? & ? & ?); [set_solver|]. exists a, s'. by split_and!.
Qed.

(** One that learns something. *)
Lemma orderly_learn {A} (op : Capture → run (A * Capture)) (P : A → list Token → Prop) r :
  (∀ s l, inv s l → r ⊆ l → ∃ a s' o, op s = Ret (a, s') ∧ plain o ∧ inv s' (o ++ l) ∧ P a (o ++ r)) → orderly (act op) P r.
Proof.
  intros Hop Hr s others Hi. destruct (Hop s (r ++ others) Hi) as (a & s' & o & -> & Ho & Hi' & Ha); [set_solver|].
  exists (o ++ r). split; [done|]. split; [by rewrite <-app_assoc|]. cbn. split_and!; [by apply Forall_app|set_solver|done].
Qed.

Lemma orderly_load {A} (f : Capture → A) (P : A → list Token → Prop) r :
  (∀ s l, inv s l → r ⊆ l → P (f s) r) → orderly (load f) P r.
Proof. intros HP. apply orderly_act. intros s l Hi Hl. exists (f s), s. by split_and!; [| |eapply HP]. Qed.

Lemma orderly_store (f : Capture → Capture) (P : unit → list Token → Prop) r :
  (∀ s l, inv s l → r ⊆ l → inv (f s) l) → P () r → orderly (store f) P r.
Proof. intros Hf HP. apply orderly_act. intros s l Hi Hl. exists (), (f s). by split_and!; [|eapply Hf|]. Qed.

Lemma orderly_lift {A} (c : run A) a (P : A → list Token → Prop) r : c = Ret a → P a r → orderly (lift c) P r.
Proof. intros -> HP. apply orderly_act. intros s l Hi _. by exists a, s. Qed.

Lemma orderly_note o r : is_route o = false → (∀ s l, inv s l → r ⊆ l → output_ok (o :: log s) o) → orderly (note o) (λ _ r', Knows o ∈ r') r.
Proof.
  intros Hr Ho. apply orderly_learn. intros s l Hi Hl. exists (), (with_log_entry s o), [Knows o]. split; [done|].
  split; [by repeat constructor|]. split; [|apply list_elem_of_here]. eapply inv_note; [done|done|by eapply Ho|done|].
  constructor; [apply list_elem_of_here|]. destruct Hi. eapply Forall_impl; [done|]. intros t. apply token_ok_mono.
  intros x Hx. by apply elem_of_cons; right.
Qed.

(** What a thread knows is in the log. *)
Lemma knows_log s l o : inv s l → Knows o ∈ l → o ∈ log s.
Proof. intros [] Ho. rewrite Forall_forall in iv_tokens0. by apply iv_tokens0 in Ho. Qed.

(** ** Steps that change nothing of the invariant's *)

Definition core (s : Capture) :=
  (world s, addresses s, SplitState.bypass s, bypass_queued_bytes s, return_paths s, log s, pending_syns s,
   (SplitState.fragments s, selector_state s, SplitState.table s,
    (redirect_dns s, dns_own_apps_only s, SplitState.yield_foreign_lookups s))).

Lemma inv_core s s' l : core s' = core s → inv s l → inv s' l.
Proof.
  unfold core. intros [= Hw Ha Hb Hq Hp Hl Hs Hf Hst Ht Hr Hd Hy] [].
  split; rewrite ?Hw, ?Ha, ?Hb, ?Hq, ?Hp, ?Hl, ?Hs, ?Hf, ?Hst, ?Ht, ?Hr, ?Hd, ?Hy; try done.
  eapply Forall_impl; [done|]. intros t. apply token_ok_mono. by rewrite Hl.
Qed.

Lemma orderly_quiet {A} (op : Capture → A * Capture) r :
  (∀ s, core (op s).2 = core s) → orderly (act (λ s, Ret (op s))) (λ _ _, True) r.
Proof.
  intros Hop. apply orderly_act. intros s l Hi _. exists (op s).1, (op s).2. split; [by destruct (op s)|].
  split; [|done]. eapply inv_core; [apply Hop|done].
Qed.

Lemma orderly_quiet_store (f : Capture → Capture) r : (∀ s, core (f s) = core s) → orderly (store f) (λ _ _, True) r.
Proof. intros Hf. apply orderly_store; [|done]. intros s l Hi _. eapply inv_core; [apply Hf|done]. Qed.

Lemma orderly_any_load {A} (f : Capture → A) r : orderly (load f) (λ _ _, True) r.
Proof. by apply orderly_load. Qed.

Lemma orderly_count_by c n r : orderly (count_by c n) (λ _ _, True) r.
Proof. by apply orderly_quiet_store. Qed.

Lemma core_selected_owner source port s : core (selected_owner registry source port s).2 = core s.
Proof. unfold selected_owner. repeat case_match; done. Qed.
Lemma core_lookup_verdict process s : core (lookup_verdict registry process s).2 = core s.
Proof. unfold lookup_verdict. repeat case_match; done. Qed.
Lemma core_lookup_owner protocol port s : core (lookup_is_from_an_application registry protocol port s).2 = core s.
Proof.
  unfold lookup_is_from_an_application. repeat case_match; try done;
    match goal with H : lookup_verdict _ ?p ?s = _ |- _ =>
      pose proof (core_lookup_verdict p s) as Hc; rewrite H in Hc; exact Hc
    end.
Qed.
Lemma core_process_id i endpoint s : core (process_id i endpoint s).2 = core s.
Proof. unfold process_id. repeat case_match; done. Qed.
Lemma core_keep_udp i port owned s : core (keep_udp_verdict i port owned s) = core s.
Proof. unfold keep_udp_verdict. repeat case_match; done. Qed.
Lemma core_keep_tcp i fields owned s : core (keep_tcp_verdict i fields owned s) = core s.
Proof. unfold keep_tcp_verdict. repeat case_match; done. Qed.
Lemma core_keep_label address hostname s : core (keep_label address hostname s) = core s.
Proof. unfold keep_label. repeat case_match; done. Qed.
Lemma core_learn name addresses s : core (foldl (learn_address registry name) s addresses) = core s.
Proof.
  revert s. induction addresses as [|a l IH]; intros s; [done|]. cbn [foldl]. rewrite IH.
  unfold learn_address. by case_match.
Qed.

Lemma orderly_owns_tcp i endpoint fields r : orderly (owns_tcp_flow i endpoint fields) (λ _ _, True) r.
Proof.
  unfold owns_tcp_flow. eapply orderly_bind; [apply orderly_any_load|]. intros [owned|] r1 _ _; [by apply orderly_ret|].
  eapply orderly_bind; [apply orderly_any_load|]. intros owner r2 _ _.
  eapply orderly_bind; [apply orderly_quiet, core_process_id|]. intros process r3 _ _.
  eapply orderly_bind; [apply orderly_quiet_store, core_keep_tcp|]. intros _ r4 _ _. by apply orderly_ret.
Qed.

Lemma orderly_owns_udp i endpoint port r : orderly (owns_udp_port i endpoint port) (λ _ _, True) r.
Proof.
  unfold owns_udp_port. eapply orderly_bind; [apply orderly_any_load|]. intros [owned|] r1 _ _; [by apply orderly_ret|].
  eapply orderly_bind; [apply orderly_any_load|]. intros owner r2 _ _.
  eapply orderly_bind; [apply orderly_quiet, core_process_id|]. intros process r3 _ _.
  eapply orderly_bind; [apply orderly_quiet_store, core_keep_udp|]. intros _ r4 _ _. by apply orderly_ret.
Qed.

Lemma orderly_any_proxy l i test r :
  (∀ i proxy r, orderly (test i proxy) (λ _ _, True) r) → orderly (any_proxy i l test) (λ b _, b = true → l ≠ []) r.
Proof.
  intros Htest. revert i r. induction l as [|proxy l IH]; intros i r; cbn [any_proxy]; [by apply orderly_ret|].
  eapply orderly_bind; [apply Htest|]. intros [] r1 _ _; [by apply orderly_ret|]. eapply orderly_mono; [apply IH|done].
Qed.

Lemma orderly_proxy_upstream node fields r :
  orderly (is_proxy_upstream registry node fields) (λ b _, b = true → proxies registry ≠ []) r.
Proof.
  unfold is_proxy_upstream. case_match; [by apply orderly_ret|]. apply orderly_any_proxy. intros i proxy r1.
  case_match; [apply orderly_owns_tcp|by apply orderly_ret].
Qed.

Lemma orderly_proxy_lookup fields r : orderly (is_proxy_lookup registry fields) (λ b _, b = true → proxies registry ≠ []) r.
Proof.
  unfold is_proxy_lookup. case_match; [by apply orderly_ret|]. apply orderly_any_proxy. intros i proxy r1.
  case_match; [apply orderly_owns_tcp|]. case_match; [apply orderly_owns_udp|by apply orderly_ret].
Qed.

Lemma orderly_from_application fields r : orderly (from_an_application registry fields) (λ _ _, True) r.
Proof. apply orderly_quiet. intros s. apply core_lookup_owner. Qed.

Lemma orderly_learn_direct packet r : orderly (learn_direct registry packet) (λ _ _, True) r.
Proof.
  unfold learn_direct. case_match; [by apply orderly_ret|]. case_match; [by apply orderly_ret|].
  apply orderly_quiet_store. intros s. apply core_learn.
Qed.

Lemma orderly_is_direct destination r :
  orderly (is_direct registry destination)
    (λ d _, contains (direct registry) destination = false → has_domains (direct registry) = false → d = false) r.
Proof.
  unfold is_direct. destruct (contains _ _); [by apply orderly_ret|]. destruct (has_domains _); [|by apply orderly_ret].
  by apply orderly_load.
Qed.

(** ** Selectors *)

Lemma build_selects state : selectors_ok state → selects (build_state state (targets registry)).
Proof.
  intros [Hr Hc _] fields Hf. destruct (Hc _ Hf) as (f & l & Hs & Hin).
  pose proof (destination_node_spec state (targets registry) (SplitTable.destination fields) Hr) as Hd.
  unfold lookup. destruct (destination_node _ _) as [n|].
  - by destruct (match flows _ !! _ with Some _ => _ | None => _ end).
  - exfalso. by apply (Hd f l).
Qed.

Lemma inv_state s l state (publish : bool) :
  inv s l → selectors_ok state →
  inv (if publish then publish_selectors registry (with_selector_state s state) else with_selector_state s state) l.
Proof. intros [] Hs. destruct publish; split; try done. by apply build_selects. Qed.

Lemma selectors_ok_add state selector a owners nodes :
  selectors_ok state → (∀ f l, selector = Destination f l → f <= l ∧ owners !! Destination f l = None) →
  (∀ f l, flow_owners state !! Destination f l = None → owners !! Destination f l = None) →
  selectors_ok (mk_state (<[selector := a]> (selectors state)) owners nodes).
Proof.
  intros [Hr Hc Ho] Hs Hown. split; cbn [selectors flow_owners].
  - intros f l [x Hx]. cbn in Hx. apply lookup_insert_Some in Hx as [[Hx _]|[_ Hx]]; [by apply (Hs f l)|apply Hr; by exists x].
  - intros x Hx. destruct (Hc x Hx) as (f & l & [y Hy] & Hin). exists f, l. split; [|done].
    destruct (decide (selector = Destination f l)) as [->|Hne]; [by rewrite lookup_insert_eq|by rewrite lookup_insert_ne by done; exists y].
  - intros f l. auto.
Qed.

Lemma orderly_add_address a node r :
  orderly (store (add_selector registry (Destination (be_Z a) (be_Z a)) node)) (λ _ _, True) r.
Proof.
  apply orderly_store; [|done]. intros s l Hi _. unfold add_selector. apply inv_state; [done|]. destruct Hi.
  apply selectors_ok_add; [done| |done]. intros f e [= <- <-]. split; [lia|]. apply so_owners. done.
Qed.

Lemma inv_add_process selector path process endpoint s l :
  (∀ f e, selector ≠ Destination f e) → inv s l → inv (add_process_selector registry selector path process endpoint s) l.
Proof.
  intros Hs Hi. unfold add_process_selector. destruct (match hold_owner _ _ with Some _ => _ | None => _ end) as [added owners].
  apply inv_state; [done|]. destruct Hi. apply selectors_ok_add; [done|intros f e Heq; by destruct (Hs f e)|].
  intros f e Hfe. by rewrite lookup_insert_ne by done.
Qed.

Lemma orderly_claim_socket selector process path r :
  (∀ f e, selector ≠ Destination f e) → orderly (claim_socket registry selector process path) (λ c _, selected c = true) r.
Proof.
  intros Hs. unfold claim_socket. eapply (orderly_bind _ _ (λ _ _, True)).
  - apply orderly_store; [|done]. intros s l Hi _. by apply inv_add_process.
  - intros _ r1 _ _. by apply orderly_ret.
Qed.

Lemma relabel_ok before state kept :
  (∀ f l, kept.1 ≠ Destination f l) → selectors_ok state → selectors_ok (relabel before state kept).
Proof.
  destruct kept as [selector owners]. cbn [fst]. intros Hs [Hr Hc Ho]. unfold relabel.
  assert (∀ m, (∀ f l, m !! Destination f l = selectors state !! Destination f l) →
    ∀ own nodes, (∀ f l, own !! Destination f l = None) → selectors_ok (mk_state m own nodes)) as Hok.
  { intros m Hm own nodes Hown. split; cbn [selectors flow_owners]; [| |done].
    - intros f l. cbn [selectors]. rewrite Hm. apply Hr.
    - intros a Ha. destruct (Hc a Ha) as (f & l & Hx & Hin). exists f, l. by rewrite Hm. }
  destruct (last owners) as [owner|]; apply Hok.
  - intros f l. case_bool_decide; [done|]. by rewrite lookup_insert_ne by done.
  - intros f l. by rewrite lookup_insert_ne by done.
  - intros f l. by rewrite lookup_delete_ne by done.
  - intros f l. by rewrite lookup_delete_ne by done.
Qed.

Lemma keep_owners_ok keep update state : selectors_ok state → selectors_ok (keep_owners keep update state).
Proof.
  intros Hs. unfold keep_owners.
  assert (∀ kept, kept ∈ (λ entry : TrafficSelector * list FlowOwner,
      (entry.1, filter (λ o, keep entry.1 o = true) (update entry.1 <$> entry.2))) <$> map_to_list (flow_owners state) →
    ∀ f l, kept.1 ≠ Destination f l) as Hkeys.
  { intros kept (entry & -> & Hin)%list_elem_of_fmap f l Heq. cbn in Heq. destruct entry as [selector owners].
    apply elem_of_map_to_list in Hin. cbn in Heq. subst selector. by rewrite (so_owners _ Hs) in Hin. }
  generalize (flow_owners state) at 1. intros before. revert Hkeys. generalize (fmap (M := list)
    (λ entry : TrafficSelector * list FlowOwner, (entry.1, filter (λ o, keep entry.1 o = true) (update entry.1 <$> entry.2)))
    (map_to_list (flow_owners state))). intros l. revert state Hs.
  induction l as [|kept l IH]; intros state Hs Hl; [done|]. cbn [foldl]. apply IH.
  - apply relabel_ok; [|done]. apply Hl, list_elem_of_here.
  - intros k Hk. apply Hl. by apply elem_of_cons; right.
Qed.

(** ** Routes *)

Lemma inv_routes s l l' paths new :
  inv s l → let s' := with_log (with_return_paths s paths) (new ++ log s) in
  (∀ k p, paths !! k = Some p → path_ok p) →
  (∀ k, match paths !! k, newest (new ++ log s) k with
        | Some p, Some q => same_route p q
        | None, None => True
        | _, _ => False
        end) →
  stays_all (new ++ log s) → (∀ o, o ∈ new → output_ok (new ++ log s) o) →
  reserved l' = reserved l → (∀ t, t ∈ l' → t ∈ l ∨ ∃ o, t = Knows o ∧ o ∈ new) → inv s' l'.
Proof.
  intros [] s' Hp Hn Hst Ho Hres Ht. assert (∀ x, x ∈ log s → x ∈ new ++ log s) as Hin by (intros x Hx; apply elem_of_app; by right).
  subst s'. split; try done.
  - cbn. by rewrite Hres.
  - intros o [?|?]%elem_of_app; [auto|]. eapply output_ok_mono; [exact Hin|auto].
  - intros b Hb. eapply may_leave_mono; [exact Hin|auto].
  - intros b Hb. destruct (iv_pending0 b Hb) as (? & ? & ? & ?). split_and!; try done. by eapply may_leave_mono.
  - apply Forall_forall. intros t Hx. rewrite Forall_forall in iv_tokens0.
    destruct (Ht t Hx) as [Hx'|(o & -> & Hx')]; [|apply elem_of_app; by left].
    by eapply token_ok_mono; [|apply iv_tokens0].
Qed.

Lemma newest_forgotten ks log k :
  newest ((Forgotten <$> ks) ++ log) k = if decide (k ∈ ks) then None else newest log k.
Proof.
  induction ks as [|k' ks IH]; cbn [fmap list_fmap app newest]; [by rewrite decide_False by apply not_elem_of_nil|].
  rewrite IH. destruct (decide (k' = k)) as [->|Hne]; [by rewrite decide_True by apply list_elem_of_here|].
  apply decide_ext. rewrite elem_of_cons. naive_solver.
Qed.

Lemma stays_forgotten ks log : stays_all log → stays_all ((Forgotten <$> ks) ++ log).
Proof. induction ks; [done|]. done. Qed.

Lemma inv_forget removed s l : inv s l → inv (forget_routes removed s) l.
Proof.
  intros Hi. unfold forget_routes. rewrite list_fmap_compose. pose proof Hi as []. apply (inv_routes s l l); try done.
  - intros k p [Hk _]%map_lookup_filter_Some. by eapply iv_paths0.
  - intros k. rewrite newest_forgotten. specialize (iv_newest0 k). set (ks := fst <$> _).
    assert (∀ p, return_paths s !! k = Some p → k ∈ ks ↔ keeps_route removed (path_process p) k = false) as Hks.
    { intros p E. unfold ks. rewrite list_elem_of_fmap. split.
      - intros ([k' p'] & Hk & [Hkeep Hin]%list_elem_of_filter). apply elem_of_map_to_list in Hin.
        cbn [fst snd] in *. subst k'. rewrite E in Hin. by injection Hin as ->.
      - intros Hk. exists (k, p). split; [done|]. apply list_elem_of_filter. split; [done|]. by apply elem_of_map_to_list. }
    destruct (filter _ _ !! k) as [p|] eqn:F.
    + apply map_lookup_filter_Some in F as [E Hk]. cbn in Hk. rewrite E in iv_newest0.
      rewrite decide_False; [done|]. rewrite (Hks p E). congruence.
    + apply map_lookup_filter_None in F as [E|Hk].
      * rewrite E in iv_newest0. case_decide; [done|]. by destruct (newest (log s) k).
      * destruct (return_paths s !! k) as [p|] eqn:E.
        -- specialize (Hk p eq_refl). cbn in Hk. rewrite decide_True; [done|]. apply (Hks p eq_refl). by destruct (keeps_route _ _ _).
        -- case_decide; [done|]. by destruct (newest (log s) k).
  - by apply stays_forgotten.
  - intros o (k & -> & _)%list_elem_of_fmap. done.
  - intros t Ht. by left.
Qed.

Lemma orderly_remove_routes removed r : orderly (remove_owned_routes removed) (λ _ _, True) r.
Proof.
  unfold remove_owned_routes. case_match; [by apply orderly_ret|].
  eapply (orderly_bind _ _ (λ _ _, True)); [apply orderly_store; [|done]; intros s l Hi _; by apply inv_forget|].
  intros _ r1 _ _. by apply orderly_quiet_store.
Qed.

Lemma orderly_remove_closed endpoint r : orderly (remove_closed_socket registry endpoint) (λ _ _, True) r.
Proof.
  unfold remove_closed_socket. eapply (orderly_bind _ _ (λ _ _, True)).
  - apply orderly_act. intros s l Hi _. eexists _, _. split; [done|]. split; [|done]. unfold close_endpoint. cbn [snd].
    destruct (bool_decide _); apply (inv_state _ _ _ false) || apply (inv_state _ _ _ true); try done;
      apply keep_owners_ok; by destruct Hi.
  - intros removed r1 _ _. apply orderly_remove_routes.
Qed.

(** ** Putting packets back *)

(** What is known allows the packet to leave. *)
Definition leaves (r : list Token) (packet : list byte) : Prop :=
  ∀ s l, inv s l → r ⊆ l → may_leave (log s) packet.

Lemma leaves_mono r r' packet : r ⊆ r' → leaves r packet → leaves r' packet.
Proof. intros Hr Hl s l Hi Hs. apply (Hl s l Hi). by etransitivity. Qed.

Lemma leaves_token r packet : Leaves packet ∈ r → leaves r packet.
Proof. intros Hr s l [] Hs. rewrite Forall_forall in iv_tokens0. by apply Hs, iv_tokens0 in Hr. Qed.

Lemma leaves_later r packet : is_later_fragment packet = true → leaves r packet.
Proof. intros Hl s l _ _. by left. Qed.

Lemma orderly_send_bypass packet address r : leaves r packet → orderly (send_bypass packet address) (λ _ _, True) r.
Proof.
  intros Hp. unfold send_bypass. eapply (orderly_bind _ _ (λ _ _, True)); [|intros b r1 _ _; by apply orderly_ret].
  apply orderly_act. intros s l Hi Hl. eexists _, _. split; [done|]. split; [|done]. apply inv_note with l; [done|done| |done|].
  - cbn. eapply may_leave_mono; [|by apply (Hp s l)]. intros x Hx. by apply elem_of_cons; right.
  - destruct Hi. eapply Forall_impl; [done|]. intros t. apply token_ok_mono. intros x Hx. by apply elem_of_cons; right.
Qed.

Lemma inv_bytes s l l' queue bytes :
  inv s l → bytes = queue_bytes queue + reserved l' → bytes <= BYPASS_QUEUE_BYTES → zlen queue <= BYPASS_QUEUE_DEPTH →
  (∀ b, b ∈ queue → may_leave (log s) (bypass_packet b)) → Forall (token_ok s) l' →
  inv (with_bypass_queued_bytes (with_bypass s queue) bytes) l'.
Proof. intros [] -> ? ? ? ?. by split. Qed.

Lemma wp_reserve packet r (Q : bool → list Token → Prop) :
  Q true (Reserved (zlen packet) :: r) → Q false r → wp (act (λ s, Ret (reserve packet s))) r Q.
Proof.
  intros Ht Hf s others Hi. unfold reserve. destruct (Z.leb_spec (bypass_queued_bytes s + zlen packet) BYPASS_QUEUE_BYTES).
  - exists (Reserved (zlen packet) :: r). split; [done|]. split; [|done]. pose proof Hi as [].
    apply (inv_bytes s (r ++ others) _ (SplitState.bypass s)); [done|cbn [app reserved]; lia|done|done|done|].
    constructor; [apply zlen_nonneg|done].
  - by exists r.
Qed.

Lemma wp_unreserve packet r (Q : unit → list Token → Prop) :
  Q () r → wp (store (release packet)) (Reserved (zlen packet) :: r) Q.
Proof.
  intros HQ s others Hi. exists r. split; [done|]. split; [|done]. pose proof Hi as []. cbn [app reserved] in *.
  unfold release. pose proof (zlen_nonneg packet).
  apply (inv_bytes s (Reserved (zlen packet) :: r ++ others) _ (SplitState.bypass s)); [done|lia|lia|done|done|]. by inversion iv_tokens0.
Qed.

Lemma wp_enqueue packet address r (Q : bool → list Token → Prop) :
  leaves r packet → Q true r → Q false (Reserved (zlen packet) :: r) →
  wp (act (λ s, Ret (enqueue_bypass (mk_bypass packet address) s))) (Reserved (zlen packet) :: r) Q.
Proof.
  intros Hp Ht Hf s others Hi. unfold enqueue_bypass. destruct (Z.ltb_spec (zlen (SplitState.bypass s)) BYPASS_QUEUE_DEPTH).
  - exists r. split; [done|]. split; [|done]. pose proof Hi as []. cbn [app reserved] in *.
    apply (inv_bytes s (Reserved (zlen packet) :: r ++ others) _ (SplitState.bypass s ++ [mk_bypass packet address])
      (bypass_queued_bytes s)); [done| |done| | |by inversion iv_tokens0].
    + rewrite queue_bytes_app. unfold queue_bytes at 2. cbn. lia.
    + rewrite zlen_app. change (zlen [mk_bypass packet address]) with 1. lia.
    + intros b [Hb| ->%list_elem_of_singleton]%elem_of_app; [auto|]. cbn. eapply Hp; [exact Hi|]. set_solver.
  - by exists (Reserved (zlen packet) :: r).
Qed.

Lemma orderly_reinject packet address r : leaves r packet → orderly (reinject packet address) (λ _ _, True) r.
Proof.
  intros Hp Hr. unfold reinject.
  assert (wp (_ ← count bypass_queue_full; send_bypass packet address) r (λ _ r', plain r' ∧ r ⊆ r' ∧ True)) as Hinline.
  { apply (orderly_bind _ _ (λ _ _, True) (λ _ _, True)); [apply orderly_count_by| |done]. intros _ r1 Hs _.
    apply orderly_send_bypass. by eapply leaves_mono. }
  apply wp_bind, wp_reserve; [|exact Hinline]. apply wp_bind, wp_bind, wp_enqueue; [done|by split_and!|].
  apply wp_bind, wp_unreserve. exact Hinline.
Qed.

Lemma orderly_inject_bypass r : orderly inject_bypass (λ _ _, True) r.
Proof.
  intros Hr s others Hi. destruct (SplitState.bypass s) as [|b queue] eqn:Eq.
  - exists r. split; [done|]. split; [|by split_and!]. pose proof Hi as []. rewrite Eq in *.
    apply (inv_bytes s (r ++ others) _ [] (bypass_queued_bytes s)); try done.
  - exists (Reserved (zlen (bypass_packet b)) :: Leaves (bypass_packet b) :: r). split; [done|]. pose proof Hi as []. rewrite Eq in *.
    change (queue_bytes (b :: queue)) with (zlen (bypass_packet b) + queue_bytes queue) in *. rewrite zlen_cons in *. split.
    + apply (inv_bytes s (r ++ others) _ queue (bypass_queued_bytes s)); try done; [cbn [app reserved]; lia|lia| |].
      * intros b' Hb'. apply iv_queue0. by apply elem_of_cons; right.
      * constructor; [apply zlen_nonneg|]. constructor; [|done]. cbn. apply iv_queue0, list_elem_of_here.
    + apply (wp_bind _ _ (send_bypass (bypass_packet b) (bypass_address b)) (λ _, store (release (bypass_packet b)))).
      assert (orderly (send_bypass (bypass_packet b) (bypass_address b)) (λ _ _, True) (Leaves (bypass_packet b) :: r)) as Hsend
        by (apply orderly_send_bypass, leaves_token, list_elem_of_here).
      eapply wp_mono; [apply (wp_frame _ [Reserved (zlen (bypass_packet b))]), Hsend; by constructor|].
      intros _ r' (r'' & -> & ? & Hs & _). apply wp_unreserve. split_and!; [done|set_solver|done].
Qed.

(** ** Into the tunnel and back *)

(** What WinDivert's checksums leave of a packet. *)
Definition similar (p p' : list byte) : Prop :=
  zlen p' = zlen p ∧ ∀ i, i < 10 ∨ 12 <= i < 20 → get p' i = get p i.

Lemma sub_ext (p p' : list byte) a b :
  0 <= a <= b → b <= zlen p → zlen p' = zlen p → (∀ i, a <= i < b → get p' i = get p i) → sub p' a b = sub p a b.
Proof.
  intros Ha Hb Hl Hget. apply list_eq. intros j.
  destruct (decide (Z.of_nat j < b - a)) as [Hj|Hj].
  - pose proof (get_sub p a b (Z.of_nat j) ltac:(lia) ltac:(lia)) as H1.
    pose proof (get_sub p' a b (Z.of_nat j) ltac:(lia) ltac:(lia)) as H2.
    rewrite get_lookup, Nat2Z.id in H1, H2 by lia. rewrite H1, H2. apply Hget. lia.
  - rewrite !lookup_ge_None_2; [done| |]; pose proof (zlen_sub p a b) as H1; pose proof (zlen_sub p' a b) as H2; unfold zlen in *; lia.
Qed.

Lemma reply_of_similar k p packet packet' address :
  20 <= zlen packet → similar packet packet' → reply_of k p packet address → reply_of k p packet' address.
Proof.
  intros Hl [Hlen Hget] (Hd & Ha & Hs). unfold reply_of. rewrite (sub_ext packet packet' 16 20), (sub_ext packet packet' 12 16) by (done || lia || (intros i Hi; apply Hget; lia)).
  split_and!; [done|done|]. destruct Hs as [Hp|Hs]; [left|by right]. unfold nz in *. by rewrite Hget by lia.
Qed.

Lemma orderly_checksums packet r : orderly (checksums packet) (λ c _, ∀ p', c = Some p' → similar packet p') r.
Proof. apply orderly_load. intros s l [] _ p' Hp. destruct iv_world0 as [Hw _]. by eapply Hw. Qed.
Lemma orderly_ip_checksum packet r : orderly (ip_checksum packet) (λ c _, ∀ p', c = Some p' → similar packet p') r.
Proof. apply orderly_load. intros s l [] _ p' Hp. destruct iv_world0 as [Hw _]. by eapply Hw. Qed.

Definition route_known (r : list Token) (packet : list byte) (address : Address) : Prop :=
  ∃ k p, Knows (Recorded k p) ∈ r ∧ reply_of k p packet address.

Lemma orderly_send_in packet address r : route_known r packet address → orderly (send_in packet address) (λ _ _, True) r.
Proof.
  intros (k & p & Hk & Hr). apply orderly_act. intros s l Hi Hl. eexists _, _. split; [done|]. split; [|done].
  apply inv_note with l; [done|done| |done|].
  - exists k, p. split; [|done]. apply elem_of_cons. right. apply (knows_log s l); [done|]. by apply Hl.
  - destruct Hi. eapply Forall_impl; [done|]. intros t. apply token_ok_mono. intros x Hx. by apply elem_of_cons; right.
Qed.

Lemma orderly_tunnel_send packet node r : orderly (tunnel_send packet node) (λ _ _, True) r.
Proof.
  apply orderly_act. intros s l Hi Hl. eexists _, _. split; [done|]. split; [|done]. apply inv_note with l; try done.
  destruct Hi. eapply Forall_impl; [done|]. intros t. apply token_ok_mono. intros x Hx. by apply elem_of_cons; right.
Qed.

Lemma orderly_send_pieces pieces node sent r : orderly (send_pieces pieces node sent) (λ _ _, True) r.
Proof.
  revert sent r. induction pieces as [|p l IH]; intros sent r; cbn [send_pieces]; [by apply orderly_ret|].
  eapply orderly_bind; [apply orderly_tunnel_send|]. intros [?|?] r1 _ _; [apply IH|by apply orderly_ret].
Qed.

Lemma orderly_send_within packet node mtu r : orderly (send_within registry packet node mtu) (λ _ _, True) r.
Proof. unfold send_within. destruct (if relay_reassembles registry then _ else _); [apply orderly_send_pieces|apply orderly_tunnel_send]. Qed.

Lemma orderly_signal reply address r :
  20 <= zlen reply → route_known r reply (inbound_address (interface_index address) (subinterface_index address)) →
  orderly (signal_fragmentation_needed reply address) (λ _ _, True) r.
Proof.
  intros Hl (k & p & Hk & Hr). unfold signal_fragmentation_needed. eapply orderly_bind; [apply orderly_checksums|].
  intros c r1 Hs Hc. eapply (orderly_bind _ _ (λ _ _, True)).
  - destruct c as [reply'|]; [|by apply orderly_ret]. apply orderly_send_in. exists k, p. split; [by apply Hs|].
    by eapply reply_of_similar; [|apply Hc|].
  - intros sent r2 _ _. eapply orderly_bind; [apply orderly_count_by|]. intros _ r3 _ _. by apply orderly_ret.
Qed.

Lemma orderly_node_address node r : orderly (node_address node) (λ a _, zlen a = 4) r.
Proof.
  apply orderly_act. intros s l Hi _. pose proof Hi as []. destruct iv_nodes0 as [Hne Hall].
  assert (∃ a, match get (addresses s) node with Some a => Some a | None => head (addresses s) end = Some a ∧ zlen a = 4) as (a & -> & Ha).
  { destruct (get (addresses s) node) as [a|] eqn:E.
    - exists a. split; [done|]. pose proof (get_Some _ _ _ E). rewrite get_lookup in E by lia. by eapply Forall_lookup_1 in Hall.
    - destruct (addresses s) as [|a l']; [done|]. exists a. split; [done|]. by inversion Hall. }
  by exists a, s.
Qed.

Lemma readdress_ok packet address redirect :
  20 <= zlen packet → zlen address = 4 → ∃ p, readdress packet address redirect = Ret p ∧ zlen p = zlen packet.
Proof.
  intros Hl Ha. unfold readdress. rewrite copy_at_in by lia. cbn [mbind run_bind].
  assert (zlen (paste packet 12 address) = zlen packet) as Hp by (apply zlen_paste; lia).
  destruct redirect; [|by eexists]. change TUNNEL_RESOLVER with [x08; x08; x08; x08].
  rewrite copy_at_in by (change (zlen [x08; x08; x08; x08]) with 4; lia). eexists. split; [done|].
  rewrite zlen_paste; [done|lia|]. change (zlen [x08; x08; x08; x08]) with 4. lia.
Qed.

Definition registry_ok : Prop := node_limits registry ≠ [] ∧ Forall (λ l, 20 <= limit_mtu l < 2 ^ 16) (node_limits registry).
Context (registry_fine : registry_ok).

Lemma limits_ok node : ∃ l, limits registry node = Ret l ∧ 20 <= limit_mtu l < 2 ^ 16.
Proof.
  destruct registry_fine as [Hne Hall]. unfold limits. destruct (get (node_limits registry) node) as [l|] eqn:E.
  - exists l. split; [done|]. pose proof (get_Some _ _ _ E). rewrite get_lookup in E by lia. by eapply Forall_lookup_1 in Hall.
  - destruct (node_limits registry) as [|l k]; [done|]. exists l. split; [done|]. by inversion Hall.
Qed.

Lemma orderly_later_fragment packet redirect node r :
  20 <= zlen packet → orderly (route_later_fragment registry packet redirect node) (λ _ _, True) r.
Proof.
  intros Hl. unfold route_later_fragment. eapply orderly_bind; [apply orderly_node_address|]. intros a r1 _ Ha.
  destruct (readdress_ok packet a redirect Hl Ha) as (p & Hp & _).
  eapply (orderly_bind _ _ (λ _ _, True)); [by eapply orderly_lift|]. intros tunneled r2 _ _.
  eapply orderly_bind; [apply orderly_ip_checksum|]. intros c r3 _ _.
  eapply (orderly_bind _ _ (λ _ _, True)).
  - destruct c as [p'|]; [|by apply orderly_ret]. destruct (limits_ok node) as (lim & Hlim & _).
    eapply (orderly_bind _ _ (λ _ _, True)); [by eapply orderly_lift|]. intros lim' r4 _ _.
    eapply orderly_bind; [apply orderly_send_within|]. intros outcome r5 _ _. by apply orderly_ret.
  - intros forwarded r4 _ _. destruct forwarded; [|apply orderly_count_by].
    eapply orderly_bind; [apply orderly_count_by|]. intros _ r5 _ _. apply orderly_count_by.
Qed.

(** ** Fragments *)

Definition later_only (r : FragmentRouter Address) : Prop :=
  ∀ k d x, datagrams r !! k = Some d → x ∈ waiting d → is_later_fragment x.1 = true.

Lemma later_only_expire r now : later_only r → later_only (FragmentRouter.expire r now).
Proof. intros Hr k d x [Hk _]%map_lookup_filter_Some Hx. by eapply Hr. Qed.

Lemma later_only_room r key : later_only r → later_only (FragmentRouter.make_room r key).
Proof.
  intros Hr. unfold FragmentRouter.make_room. destruct (_ && _); [|done]. destruct (min_by _ _) as [[k0 d0]|]; [|done].
  intros k' d x Hk Hx. cbn in Hk. apply lookup_delete_Some in Hk as [_ Hk]. by eapply Hr.
Qed.

Lemma later_only_insert r key d generation bytes discarded :
  later_only r → (∀ x, x ∈ waiting d → is_later_fragment x.1 = true) →
  later_only (mk_router (<[key := d]> (datagrams r)) generation bytes discarded).
Proof. intros Hr Hd k d' x Hk Hx. cbn in Hk. apply lookup_insert_Some in Hk as [[_ <-]|[_ Hk]]; [auto|by eapply Hr]. Qed.

Lemma later_only_begin r first now : later_only r → later_only (FragmentRouter.begin r first now).2.
Proof.
  intros Hr. unfold FragmentRouter.begin. pose proof (later_only_room _ (FragmentRouter.key_of first) (later_only_expire r now Hr)) as Hr'.
  set (r' := FragmentRouter.make_room _ _) in *. clearbody r'. cbn [datagrams].
  destruct (datagrams r' !! FragmentRouter.key_of first) as [old|] eqn:Eo.
  - destruct (generation old =? 0); apply later_only_insert; try done; cbn.
    + intros x Hx. by eapply Hr'.
    + intros x Hx. by apply elem_of_nil in Hx.
  - apply later_only_insert; [done|]. intros x Hx. by apply elem_of_nil in Hx.
Qed.

Lemma later_only_later r packet address now :
  is_later_fragment packet = true → later_only r → later_only (FragmentRouter.later r packet address now).2.
Proof.
  intros Hp Hr. unfold FragmentRouter.later. pose proof (later_only_room _ (FragmentRouter.key_of packet) (later_only_expire r now Hr)) as Hr'.
  set (r' := FragmentRouter.make_room _ _) in *. clearbody r'. cbv zeta. set (d := default _ _).
  assert (∀ x, x ∈ waiting d → is_later_fragment x.1 = true) as Hd.
  { intros x Hx. unfold d in Hx. destruct (datagrams r' !! FragmentRouter.key_of packet) as [d'|] eqn:Ed; [by eapply Hr'|by apply elem_of_nil in Hx]. }
  destruct (FragmentRouter.route d); [done|]. destruct (_ || _).
  - unfold forget. cbn [snd]. apply later_only_insert; [done|]. intros x Hx. by apply elem_of_nil in Hx.
  - cbn [snd]. apply later_only_insert; [done|]. cbn [waiting]. intros x [Hx| ->%list_elem_of_singleton]%elem_of_app; [auto|done].
Qed.

Lemma later_only_finish r ticket ro now :
  later_only r → later_only (FragmentRouter.finish r ticket ro now).2 ∧
  ∀ x, x ∈ (FragmentRouter.finish r ticket ro now).1 → is_later_fragment x.1 = true.
Proof.
  intros Hr. unfold FragmentRouter.finish. destruct (datagrams r !! ticket_key ticket) as [d|] eqn:Ed.
  2: { split; [done|]. intros x Hx. by apply elem_of_nil in Hx. }
  destruct (negb _); [split; [done|intros x Hx; by apply elem_of_nil in Hx]|].
  assert (∀ ro' b c, later_only (mk_router (<[ticket_key ticket := mk_datagram now (generation d) ro' []]> (datagrams r))
    (last_generation r) b c)) as Hins by (intros *; apply later_only_insert; [done|intros x Hx; by apply elem_of_nil in Hx]).
  destruct (bool_decide (FragmentRouter.route d = Some Drop)); cbv zeta; destruct (bool_decide _); cbn [fst snd]; unfold forget;
    (split; [apply Hins|]); intros x Hx; try (by apply elem_of_nil in Hx); by eapply Hr.
Qed.

Lemma inv_set_fragments s l r : inv s l → later_only r → inv (with_fragments s r) l.
Proof. intros [] Hr. by split. Qed.

Lemma orderly_router {A} (op : Z → FragmentRouter Address → A * FragmentRouter Address) (P : A → Prop) r :
  (∀ now f, later_only f → later_only (op now f).2 ∧ P (op now f).1) →
  orderly (act (λ s, Ret (with_router op s))) (λ answer _, P answer.1) r.
Proof.
  intros Hop. apply orderly_act. intros s l Hi _. unfold with_router. destruct (Hop (now (world s)) (SplitState.fragments s)) as [Hl HP].
  { by destruct Hi. }
  destruct (op _ _) as [a f] eqn:E. cbn [fst snd] in *. eexists (a, _), _. split; [done|]. split; [|done].
  by apply inv_set_fragments.
Qed.

Lemma later_length packet : is_later_fragment packet = true → 20 <= zlen packet.
Proof. unfold is_later_fragment, is_fragment. intros H. b2p. lia. Qed.

Lemma orderly_dispatch packet address route r :
  is_later_fragment packet = true → orderly (dispatch_fragment registry packet address route) (λ _ _, True) r.
Proof.
  intros Hp. destruct route; cbn [dispatch_fragment].
  - by apply orderly_later_fragment, later_length.
  - by apply orderly_reinject, leaves_later.
  - apply orderly_count_by.
Qed.

Lemma orderly_dispatch_all pieces route r :
  (∀ x, x ∈ pieces → is_later_fragment x.1 = true) → orderly (dispatch_all registry pieces route) (λ _ _, True) r.
Proof.
  revert r. induction pieces as [|[p a] l IH]; intros r Hl; cbn [dispatch_all]; [by apply orderly_ret|].
  eapply orderly_bind; [apply orderly_dispatch, (Hl (p, a)), list_elem_of_here|]. intros _ r1 _ _. apply IH.
  intros x Hx. apply Hl. by apply elem_of_cons; right.
Qed.

Lemma orderly_finish ticket route r : orderly (finish_fragments registry ticket route) (λ _ _, True) r.
Proof.
  unfold finish_fragments. eapply orderly_bind; [apply (orderly_router _ (λ pieces, ∀ x, x ∈ pieces → is_later_fragment x.1 = true))|].
  - intros now f Hf. by apply later_only_finish.
  - intros [pieces n] r1 _ Hp. eapply orderly_bind; [apply orderly_count_by|]. intros _ r2 _ _. by apply orderly_dispatch_all.
Qed.

Lemma orderly_finish_if ticket route r : orderly (finish_if registry ticket route) (λ _ _, True) r.
Proof. destruct ticket; [apply orderly_finish|by apply orderly_ret]. Qed.

Lemma orderly_capture_later packet address r :
  is_later_fragment packet = true → orderly (capture_later registry packet address) (λ _ _, True) r.
Proof.
  intros Hp. unfold capture_later. eapply orderly_bind; [apply (orderly_router _ (λ _, True))|].
  - intros now f Hf. split; [|done]. by apply later_only_later.
  - intros [action n] r1 _ _. eapply orderly_bind; [apply orderly_count_by|]. intros _ r2 _ _.
    destruct action; [by apply orderly_dispatch|by apply orderly_ret].
Qed.

Lemma orderly_begin packet r : orderly (begin_first packet) (λ _ _, True) r.
Proof.
  unfold begin_first. case_match; [|by apply orderly_ret]. apply orderly_act. intros s l Hi _.
  pose proof (later_only_begin (SplitState.fragments s) packet (now (world s))) as Hb.
  destruct (begin _ _ _) as [ticket f]. eexists _, _. split; [done|]. split; [|done]. apply inv_set_fragments; [done|].
  apply Hb. by destruct Hi.
Qed.

(** ** Return paths *)

Lemma inv_evict s l oldest :
  inv s l → inv (with_log_entry (with_return_paths s (delete oldest (return_paths s))) (Forgotten oldest)) l.
Proof.
  intros Hi. pose proof Hi as []. apply (inv_routes s l l _ [Forgotten oldest]); try done; [| | |intros t; auto].
  - intros k p [_ Hk]%lookup_delete_Some. by eapply iv_paths0.
  - intros k. cbn [app newest]. destruct (decide (oldest = k)) as [->|Hne]; [by rewrite lookup_delete_eq|].
    rewrite lookup_delete_ne by done. apply iv_newest0.
  - by intros o ->%list_elem_of_singleton.
Qed.

Lemma inv_record s l k path :
  inv s l → path_ok path → stays (log s) k path →
  inv (with_log_entry (with_return_paths s (<[k := path]> (return_paths s))) (Recorded k path)) (Knows (Recorded k path) :: l).
Proof.
  intros Hi Hp Hst. pose proof Hi as []. apply (inv_routes s l _ _ [Recorded k path]); try done.
  - intros k' p [[_ <-]|[_ Hk]]%lookup_insert_Some; [done|by eapply iv_paths0].
  - intros k'. cbn [app newest]. destruct (decide (k = k')) as [->|Hne]; [by rewrite lookup_insert_eq|].
    rewrite lookup_insert_ne by done. apply iv_newest0.
  - by intros o ->%list_elem_of_singleton.
  - intros t [->|Ht]%elem_of_cons; [right|by left]. exists (Recorded k path). split; [done|apply list_elem_of_here].
Qed.

(** The route just recorded for a flow. *)
Definition path_known (r : list Token) (fields : Ipv4Fields) (address : Address) (redirect : option (list byte)) (node : Z) : Prop :=
  ∃ p, Knows (Recorded (outbound_key fields) p) ∈ r ∧ local_ip p = SplitTable.source fields
    ∧ path_interface p = interface_index address ∧ path_subinterface p = subinterface_index address
    ∧ resolver p = redirect ∧ path_node p = node.

Lemma orderly_record now fields address application process node redirect r :
  zlen (SplitTable.source fields) = 4 → match redirect with Some a => zlen a = 4 | None => True end →
  orderly (act (λ s, Ret (record_path now fields address application process node redirect s)))
    (λ a r', path_known r' fields address redirect a.1.2) r.
Proof.
  intros Hsrc Hred. apply orderly_learn. intros s l Hi _.
  set (k := outbound_key fields).
  set (evicted := if bool_decide (return_paths s !! k = None) && (RETURN_PATH_TARGET <=? zsize (return_paths s))
                  then evictable now (return_paths s) else None).
  set (s1 := match evicted with
             | Some oldest => with_log_entry (with_return_paths s (delete oldest (return_paths s))) (Forgotten oldest)
             | None => s
             end).
  assert (inv s1 l) as Hi1 by (unfold s1; destruct evicted; [by apply inv_evict|done]).
  unfold record_path. fold k. fold evicted. cbv zeta.
  assert (match evicted with Some oldest => delete oldest (return_paths s) | None => return_paths s end = return_paths s1) as ->
    by (unfold s1; by destruct evicted).
  set (carried := p ← return_paths s1 !! k; if bool_decide (path_process p = process) then Some p else None).
  set (node' := match carried with Some p => path_node p | None => node end).
  set (name := match carried with Some p => usage p | None => _ end).
  set (path := mk_return_path _ _ _ _ _ _ _ _).
  eexists _, _, [Knows (Recorded k path)]. split; [reflexivity|]. split; [by repeat constructor|]. split.
  - eapply inv_core; [|apply (inv_record s1 l k path Hi1)].
    + unfold s1. clearbody evicted. unfold core, with_log_entry. destruct evicted; cbn; by destruct (app_usage s !! name).
    + by split.
    + intros q Hq Hproc. destruct Hi1. specialize (iv_newest0 k). rewrite Hq in iv_newest0.
      destruct (return_paths s1 !! k) as [p|] eqn:E; [|done]. destruct iv_newest0 as (_ & _ & _ & Hpp & _ & Hpn).
      rewrite <-Hpn. unfold path. cbn [path_node]. unfold node', carried. cbn [mbind option_bind].
      rewrite bool_decide_true; [done|]. rewrite Hpp, Hproc. done.
  - exists path. split; [apply list_elem_of_here|]. done.
Qed.

Lemma path_known_mono r r' fields address redirect node :
  r ⊆ r' → path_known r fields address redirect node → path_known r' fields address redirect node.
Proof. intros Hr (p & Hp & H). exists p. split; [by apply Hr|done]. Qed.

Lemma orderly_record_handled fields application process node r :
  orderly (record_handled_connection fields application process node) (λ _ _, True) r.
Proof.
  unfold record_handled_connection. eapply orderly_bind; [apply orderly_any_load|]. intros label r1 _ _.
  eapply orderly_bind; [by apply orderly_quiet_store|]. intros _ r2 _ _. by apply orderly_quiet_store.
Qed.

(** ** A selected packet *)

Lemma orderly_lift_ok {A} (c : run A) (P : A → Prop) r : (∃ a, c = Ret a ∧ P a) → orderly (lift c) (λ a _, P a) r.
Proof. intros (a & Hc & Ha). by eapply orderly_lift. Qed.

Lemma orderly_limits node r : orderly (lift (limits registry node)) (λ l _, 20 <= limit_mtu l < 2 ^ 16) r.
Proof. apply orderly_lift_ok, limits_ok. Qed.

Lemma orderly_told packet address fields lim redirect node r :
  20 <= limit_mtu lim < 2 ^ 16 → SplitTable.source fields = sub packet 12 16 →
  path_known r fields address redirect node → orderly (told_size registry packet address lim) (λ _ _, True) r.
Proof.
  intros Hm Hsrc Hk. unfold told_size. destruct (relay_reassembles registry); [by apply orderly_ret|].
  eapply orderly_bind; [by apply orderly_lift_ok, fragmentation_needed_back|]. intros [reply|] r1 Hr1 Hback; [|by apply orderly_ret].
  destruct (Hback reply eq_refl) as (Hl & Hdst & Hproto). apply orderly_signal; [lia|].
  destruct Hk as (p & Hp & Hloc & Hif & Hsub & _). exists (outbound_key fields), p. split; [by apply Hr1|].
  split; [by rewrite Hloc, Hsrc|]. split; [by rewrite Hif, Hsub|by left].
Qed.

Lemma orderly_prepare packet node lim redirect r :
  20 <= zlen packet → orderly (prepare packet node lim redirect) (λ _ _, True) r.
Proof.
  intros Hl. unfold prepare. eapply orderly_bind; [apply orderly_node_address|]. intros a r1 _ Ha.
  eapply orderly_bind; [by apply orderly_lift_ok, readdress_ok|]. intros p r2 _ Hp.
  destruct (is_first_fragment packet).
  - destruct (readdress_transport_checksum p packet) as [[] p']; [|by apply orderly_ret].
    eapply orderly_mono; [apply orderly_ip_checksum|done].
  - destruct (clamp_total p (limit_mss lim)) as (c & p' & Hc & _).
    eapply (orderly_bind _ _ (λ _ _, True)); [by eapply orderly_lift|]. intros [c' p''] r3 _ _.
    eapply orderly_mono; [apply orderly_checksums|done].
Qed.

Lemma orderly_settle packet address name hold forwarded r :
  (hold = false → leaves r packet) → orderly (settle packet address name hold forwarded) (λ _ _, True) r.
Proof.
  intros Hh. destruct forwarded as [accepted|]; cbn [settle].
  - eapply orderly_bind; [apply orderly_count_by|]. intros _ r1 _ _. destruct accepted; [by apply orderly_quiet_store|by apply orderly_ret].
  - destruct hold; [apply orderly_count_by|]. eapply orderly_bind; [apply orderly_count_by|]. intros _ r1 Hr1 _.
    apply orderly_send_bypass. by eapply leaves_mono; [|apply Hh].
Qed.

(** What [ipv4_fields] read. *)
Lemma fields_read packet fields :
  ipv4_fields packet = Some fields →
  20 <= zlen packet ∧ SplitTable.source fields = sub packet 12 16 ∧ zlen (SplitTable.source fields) = 4
  ∧ zlen (SplitTable.destination fields) = 4 ∧ 20 <= Z.land (nz packet 0) 0x0f * 4.
Proof.
  unfold ipv4_fields. intros H. destruct (_ || _) eqn:E; [done|]. b2p.
  assert (∃ p q, (if (nz packet 9 =? 6) || (nz packet 9 =? 17)
    then (nz16 packet (Z.land (nz packet 0) 15 * 4), nz16 packet (Z.land (nz packet 0) 15 * 4 + 2))
    else if (nz packet 9 =? 1) && (Z.land (nz packet 0) 15 * 4 + 8 <=? zlen packet)
         then (nz16 packet (Z.land (nz packet 0) 15 * 4 + 4), nz16 packet (Z.land (nz packet 0) 15 * 4 + 4)) else (0, 0)) = (p, q))
    as (p & q & Hpq) by (by eexists _, _; apply surjective_pairing).
  rewrite Hpq in H. cbv beta iota zeta in H. destruct (_ || _) eqn:E' in H; [done|]. b2p. injection H as <-. cbn [SplitTable.source SplitTable.destination]. rewrite !zlen_sub by lia. split_and!; [lia|done|lia..].
Qed.

Lemma orderly_route packet address fields application process node hold redirect r :
  ipv4_fields packet = Some fields → match redirect with Some a => zlen a = 4 | None => True end →
  (hold = false → leaves r packet) →
  orderly (route_selected_packet registry packet address fields application process node hold redirect) (λ _ _, True) r.
Proof.
  intros Hf Hred Hh. destruct (fields_read packet fields Hf) as (Hl & Hsrc & Hsrc4 & _). unfold route_selected_packet.
  set (f := match redirect with Some _ => _ | None => _ end).
  assert (SplitTable.source f = SplitTable.source fields) as Hsf by (unfold f; by destruct redirect). clearbody f.
  eapply orderly_bind; [apply orderly_any_load|]. intros t r1 Hr1 _.
  eapply orderly_bind; [by apply orderly_record; [rewrite Hsf|]|]. intros [[new n] name] r2 Hr2 Hk. cbn [fst snd] in Hk.
  eapply (orderly_bind _ _ (λ _ _, True)); [destruct new; [apply orderly_record_handled|by apply orderly_ret]|]. intros _ r3 Hr3 _.
  eapply orderly_bind; [apply orderly_count_by|]. intros _ r4 Hr4 _.
  eapply orderly_bind; [apply orderly_count_by|]. intros _ r5 Hr5 _.
  eapply orderly_bind; [apply orderly_limits|]. intros lim r6 Hr6 Hlim.
  eapply orderly_bind; [eapply orderly_told; [done|by rewrite Hsf|]|]. { eapply path_known_mono; [|exact Hk]. set_solver. }
  intros [] r7 Hr7 _; [by apply orderly_ret|].
  eapply orderly_bind; [by apply orderly_prepare|]. intros tunneled r8 Hr8 _.
  eapply (orderly_bind _ _ (λ _ _, True)).
  { destruct tunneled; [|by apply orderly_ret]. eapply orderly_bind; [apply orderly_send_within|]. intros o r9 _ _. by apply orderly_ret. }
  intros forwarded r9 Hr9 _. eapply orderly_bind; [apply orderly_settle|].
  - intros Hhold. eapply leaves_mono; [|by apply Hh]. set_solver.
  - intros _ r10 _ _. by apply orderly_ret.
Qed.

(** ** Claims *)

Lemma leaves_fields r packet fields :
  ipv4_fields packet = Some fields → (protected fields → Knows (Exempted fields) ∈ r) → leaves r packet.
Proof.
  intros Hf Hp s l Hi Hl. right. intros f Hf' Hprot. assert (f = fields) as -> by congruence.
  apply (knows_log s l); [done|]. by apply Hl, Hp.
Qed.

Lemma socket_selector_flow protocol source destination f l : process_socket_selector protocol source destination ≠ Destination f l.
Proof. unfold process_socket_selector. by case_match. Qed.

Lemma orderly_claim_lookup fields exit c r :
  orderly (claim_lookup registry fields exit c) (λ a _, selected c = true → selected a.1 = true) r.
Proof.
  unfold claim_lookup. destruct (selected c) eqn:Hs; [by apply orderly_ret|]. destruct (_ || _); [by apply orderly_ret|].
  eapply orderly_bind; [apply orderly_any_load|]. intros [[process path]|] r1 _ _; [|by apply orderly_ret].
  destruct (path_matches _ _ _); [|by apply orderly_ret].
  eapply orderly_bind; [apply orderly_claim_socket, socket_selector_flow|]. intros c' r2 _ Hc. by apply orderly_ret.
Qed.

Lemma orderly_claim_udp fields exit direct c r :
  orderly (claim_udp registry fields exit direct c) (λ a _, selected c = true → selected a = true) r.
Proof.
  unfold claim_udp. destruct (selected c) eqn:Hs; [by apply orderly_ret|]. destruct (_ || _); [by apply orderly_ret|].
  eapply orderly_bind; [apply orderly_quiet, core_selected_owner|]. intros [[process path]|] r1 _ _; [|by apply orderly_ret].
  eapply orderly_bind; [apply orderly_claim_socket, socket_selector_flow|]. intros c' r2 _ Hc.
  eapply orderly_bind; [apply orderly_count_by|]. intros _ r3 _ _. by apply orderly_ret.
Qed.

Lemma orderly_own_lookup fields exit question r :
  orderly (own_lookup registry fields exit question)
    (λ own _, own = true → exit = true ∨ proxies registry ≠ [] ∨ is_Some question ∧ own_hostnames registry ≠ ∅) r.
Proof.
  unfold own_lookup. destruct exit; [apply orderly_ret; auto|].
  eapply orderly_bind; [apply orderly_proxy_lookup|]. intros [] r1 _ Hp; [apply orderly_ret; auto|].
  destruct question as [name|]; [|by apply orderly_ret]. case_bool_decide as Hname; [|by apply orderly_ret].
  eapply orderly_bind; [apply orderly_from_application|]. intros foreign r2 _ _. apply orderly_ret. intros _. right. right. split; [done|set_solver].
Qed.

Lemma lookup_name_lookup packet fields : is_Some (lookup_name packet fields) → is_name_lookup fields = true.
Proof.
  unfold lookup_name, is_name_lookup. intros [name Hn]. destruct (_ || _) eqn:E in Hn; [done|]. b2p.
  by repeat (rewrite ?orb_true_r, ?andb_true_r; try match goal with H : _ = _ |- _ => rewrite H end).
Qed.

(** A lookup that is not GamePath's own is remote, when lookups may not leave. *)
Lemma orderly_remote fields rule own r :
  orderly (remote_lookup registry fields true false rule own)
    (λ remote _, is_name_lookup fields = true → dns_closed = true → own = false → remote = true) r.
Proof.
  unfold remote_lookup. destruct (is_name_lookup fields); [|by apply orderly_ret]. cbn [negb].
  apply (orderly_bind _ _ (λ _ _, True)); [destruct rule; [by apply orderly_ret|apply orderly_any_load]|]. intros yields r1 _ _.
  apply (orderly_bind _ _ (λ _ _, True)); [destruct yields; [apply orderly_from_application|by apply orderly_ret]|]. intros foreign r2 _ _.
  apply (orderly_bind _ _ (λ y _, dns_closed = true → y = false)).
  - apply orderly_load. intros s l [] _ Hd. by destruct (iv_settings0 Hd) as (_ & _ & ?).
  - intros y r3 _ Hy. apply orderly_ret. intros _ Hd ->. rewrite (Hy Hd). by destruct rule.
Qed.

Lemma orderly_any_remote fields remote_enabled own_apps_only rule own r :
  orderly (remote_lookup registry fields remote_enabled own_apps_only rule own) (λ _ _, True) r.
Proof.
  unfold remote_lookup. destruct (negb _); [by apply orderly_ret|].
  apply (orderly_bind _ _ (λ _ _, True)); [destruct rule; [by apply orderly_ret|apply orderly_any_load]|]. intros yields r1 _ _.
  apply (orderly_bind _ _ (λ _ _, True)); [destruct yields; [apply orderly_from_application|by apply orderly_ret]|]. intros foreign r2 _ _.
  eapply orderly_bind; [apply orderly_any_load|]. intros y r3 _ _. by apply orderly_ret.
Qed.

Definition address_ok (a : option (list byte)) : Prop := match a with Some a => zlen a = 4 | None => True end.

Lemma orderly_claim_remote fields question remote c r :
  zlen (SplitTable.destination fields) = 4 →
  orderly (claim_remote registry fields question remote c)
    (λ a _, address_ok a.2 ∧ (is_name_lookup fields = false → a = (c, None))
      ∧ (is_name_lookup fields = true → remote = true → selected a.1 = true
           ∧ (a.2 = None → is_globally_routable_ipv4 (SplitTable.destination fields) = true))) r.
Proof.
  intros Hd. unfold claim_remote, is_outside_name_resolution. destruct (is_name_lookup fields); [|by apply orderly_ret]. cbn [negb andb].
  destruct remote; cbn [negb]; [|by apply orderly_ret].
  eapply orderly_bind; [apply orderly_count_by|]. intros _ r1 _ _.
  destruct (is_globally_routable_ipv4 _); cbn [negb]; [by apply orderly_ret|].
  eapply orderly_bind; [apply orderly_count_by|]. intros _ r2 _ _. by apply orderly_ret.
Qed.

Lemma orderly_claim_fake fields c r :
  orderly (claim_fake_ip registry fields c) (λ a _, selected c = true → selected a = true) r.
Proof.
  unfold claim_fake_ip. destruct (negb _); [by apply orderly_ret|]. eapply orderly_bind; [apply orderly_count_by|]. intros _ r1 _ _.
  apply orderly_ret. by destruct (selected c && _).
Qed.

Lemma inv_pend s l item :
  inv s l → 20 <= zlen (pending_packet item) → ipv4_fields (pending_packet item) = Some (pending_fields item) →
  is_later_fragment (pending_packet item) = false → may_leave (log s) (pending_packet item) →
  inv (with_pending_syns s (pending_syns s ++ [item])) l.
Proof.
  intros [] ? ? ? ?. split; try done. intros b [Hb| ->%list_elem_of_singleton]%elem_of_app; [auto|done].
Qed.

Lemma orderly_hold packet address fields r :
  ipv4_fields packet = Some fields → is_later_fragment packet = false → leaves r packet →
  orderly (hold_syn packet address fields) (λ _ _, True) r.
Proof.
  intros Hf Hlater Hp. unfold hold_syn. eapply orderly_bind; [apply orderly_any_load|]. intros t r1 Hr1 _.
  eapply (orderly_bind _ _ (λ _ _, True)); [by apply (orderly_quiet (λ s, (_, _)))|]. intros depth r2 Hr2 _.
  eapply (orderly_bind _ _ (λ _ _, True)).
  - apply orderly_act. intros s l Hi Hl. destruct (zlen (pending_syns s) <? PENDING_DEPTH); eexists _, _; split; try reflexivity; [|done].
    split; [|done]. apply inv_pend; cbn; try done; [by apply (fields_read packet fields)|].
    apply (Hp s l); [done|]. set_solver.
  - intros [] r3 Hr3 _; [by apply orderly_quiet_store|].
    eapply (orderly_bind _ _ (λ _ _, True)); [by apply orderly_quiet_store|]. intros _ r4 Hr4 _.
    eapply orderly_bind; [apply orderly_count_by|]. intros _ r5 Hr5 _.
    apply orderly_send_bypass. eapply leaves_mono; [|exact Hp]. set_solver.
Qed.

Lemma orderly_claim_syn packet address fields exit direct first c r :
  ipv4_fields packet = Some fields → is_later_fragment packet = false →
  (selected c = false → is_name_lookup fields = false → leaves r packet) →
  orderly (claim_syn registry packet address fields exit direct first c)
    (λ a _, match a with Some c' => selected c = true → selected c' = true | None => True end) r.
Proof.
  intros Hf Hlater Hp. unfold claim_syn. destruct (selected c) eqn:Hs; [by apply orderly_ret|]. destruct direct; [by apply orderly_ret|].
  destruct (is_name_lookup fields); [by apply orderly_ret|]. destruct (_ || _); [by apply orderly_ret|].
  eapply orderly_bind; [apply orderly_any_load|]. intros [[process path]|] r1 Hr1 _.
  - eapply orderly_bind; [by apply orderly_claim_socket|]. intros c' r2 _ Hc.
    eapply orderly_bind; [apply orderly_count_by|]. intros _ r3 _ _. by apply orderly_ret.
  - eapply orderly_bind; [apply orderly_hold; [done|done|]|]. { eapply leaves_mono; [exact Hr1|auto]. }
    intros _ r2 _ _. by apply orderly_ret.
Qed.

(** The first test of [keep_out] holds of exempt packets only. *)
Lemma orderly_upstream fields exit c r :
  (exit = true → may_exit fields) →
  orderly (if negb (selected c) then mret false else if exit then mret true
        else if is_name_lookup fields then mret false else is_proxy_upstream registry (claim_node c) fields)
    (λ upstream _, upstream = true → exempt fields) r.
Proof.
  intros He. destruct (selected c); cbn [negb]; [|by apply orderly_ret]. destruct exit; [apply orderly_ret; left; auto|].
  destruct (is_name_lookup fields); [by apply orderly_ret|]. eapply orderly_mono; [apply orderly_proxy_upstream|].
  intros b r1 _ Hb ?. right. left. auto.
Qed.

Lemma orderly_keep_out_selected fields exit direct redirect c r :
  (exit = true → may_exit fields) → (redirect = None → is_globally_routable_ipv4 (SplitTable.destination fields) = true) → direct = false →
  orderly (keep_out registry fields exit direct redirect c)
    (λ c' r', selected c = true → selected c' = true ∨ Knows (Exempted fields) ∈ r') r.
Proof.
  intros He Hg ->. unfold keep_out. eapply orderly_bind; [by apply orderly_upstream|].
  intros upstream r1 _ Hup. apply (orderly_bind _ _ (λ _ r', upstream = true → Knows (Exempted fields) ∈ r')).
  { destruct upstream; [|by apply orderly_ret]. eapply orderly_mono; [by apply orderly_note; [|intros s l _ _; apply Hup]|]. auto. }
  intros _ r2 _ Hn. set (c1 := if upstream then unselected c else c).
  set (exempt := is_fake_destination registry fields || bool_decide (is_Some redirect)).
  assert (negb exempt && negb (is_globally_routable_ipv4 (SplitTable.destination fields)) = false) as Hlocal.
  { unfold exempt. destruct redirect as [a|].
    - rewrite (bool_decide_eq_true_2 (is_Some (Some a))) by done. by rewrite orb_true_r.
    - rewrite Hg by done. by rewrite andb_false_r. }
  rewrite <-!andb_assoc, Hlocal, !andb_false_r. cbn [negb].
  eapply (orderly_bind _ _ (λ c2 _, c2 = c1)); [by apply orderly_ret|]. intros c2 r3 Hr3 ->. rewrite andb_false_r. cbn [negb].
  apply orderly_ret. unfold c1. destruct upstream; [right; auto|by left].
Qed.

Lemma orderly_keep_out_any fields exit direct redirect c r :
  (exit = true → may_exit fields) → orderly (keep_out registry fields exit direct redirect c) (λ _ _, True) r.
Proof.
  intros He. unfold keep_out. eapply orderly_bind; [by apply orderly_upstream|].
  intros upstream r1 _ Hup. apply (orderly_bind _ _ (λ _ _, True)).
  { destruct upstream; [|by apply orderly_ret]. eapply orderly_mono; [by apply orderly_note; [|intros s l _ _; apply Hup]|done]. }
  intros _ r2 _ _. apply (orderly_bind _ _ (λ _ _, True)).
  { destruct (_ && _); [|by apply orderly_ret]. eapply orderly_bind; [apply orderly_count_by|]. intros _ r3 _ _. by apply orderly_ret. }
  intros c' r3 _ _. destruct (negb _); [by apply orderly_ret|].
  eapply orderly_bind; [apply orderly_any_load|]. intros [] r4 _ _; [by apply orderly_ret|].
  eapply orderly_bind; [apply orderly_count_by|]. intros _ r5 _ _. by apply orderly_ret.
Qed.

(** Only an exemption, a direct destination or an address of the local network takes
    a selected packet out. *)
Lemma orderly_keep_out fields exit direct redirect c r :
  (exit = true → may_exit fields) → orderly (keep_out registry fields exit direct redirect c)
    (λ c' r', direct = false → (redirect = None → is_globally_routable_ipv4 (SplitTable.destination fields) = true) →
       selected c = true → selected c' = true ∨ Knows (Exempted fields) ∈ r') r.
Proof.
  intros He. destruct (decide (direct = false ∧ (redirect = None → is_globally_routable_ipv4 (SplitTable.destination fields) = true))) as [[Hd Hg]|Hn].
  - eapply orderly_mono; [by apply orderly_keep_out_selected|]. auto.
  - eapply orderly_mono; [by apply orderly_keep_out_any|]. naive_solver.
Qed.

Lemma orderly_deliver packet address fields ticket remote redirect c r :
  ipv4_fields packet = Some fields → address_ok redirect →
  (protected fields → selected c = true ∧ kill_switch registry || remote = true ∨ Knows (Exempted fields) ∈ r) →
  orderly (deliver_captured registry packet address fields ticket remote redirect c) (λ _ _, True) r.
Proof.
  intros Hf Hred Hp. unfold deliver_captured. destruct (selected c); cbn [negb].
  - eapply orderly_bind; [apply orderly_route; [done|done|]|].
    + intros Hh. apply (leaves_fields r packet fields Hf). intros Hprot. destruct (Hp Hprot) as [[_ Hx]|Hx]; [congruence|done].
    + intros carried r1 _ _. apply orderly_finish_if.
  - eapply orderly_bind; [apply orderly_reinject|].
    + apply (leaves_fields r packet fields Hf). intros Hprot. by destruct (Hp Hprot) as [[Hx _]|Hx].
    + intros _ r1 _ _. apply orderly_finish_if.
Qed.

Lemma orderly_remote_lookup fields remote_enabled own_apps_only rule own r :
  orderly (remote_lookup registry fields remote_enabled own_apps_only rule own)
    (λ remote _, is_name_lookup fields = true → dns_closed = true → own = false → remote_enabled = true →
       own_apps_only = false → remote = true) r.
Proof.
  destruct remote_enabled, own_apps_only; try (eapply orderly_mono; [apply orderly_any_remote|done]).
  eapply orderly_mono; [apply orderly_remote|]. auto.
Qed.

Lemma orderly_dns_setting (f : Capture → bool) (v : bool) r :
  (∀ s l, inv s l → dns_closed = true → f s = v) → orderly (load f) (λ b _, dns_closed = true → b = v) r.
Proof. intros Hf. apply orderly_load. intros s l Hi _. by apply (Hf s l). Qed.

Lemma orderly_capture_fields t packet address ticket fields r :
  selects t → ipv4_fields packet = Some fields → is_later_fragment packet = false →
  orderly (capture_fields registry t packet address ticket fields) (λ _ _, True) r.
Proof.
  intros Ht Hf Hlater. destruct (fields_read packet fields Hf) as (_ & _ & _ & Hd4 & _). unfold capture_fields.
  apply (orderly_bind _ _ (λ d _, protected fields → d = false)).
  { destruct (is_name_lookup fields) eqn:Hn; [by apply orderly_ret|]. eapply orderly_mono; [apply orderly_is_direct|].
    intros d r1 _ Hd [[_ ?]|(_ & _ & _ & _ & ? & ?)]; [congruence|auto]. }
  intros direct r1 Hr1 Hdirect. apply (orderly_bind _ _ (λ exit _, exit = true → may_exit fields)).
  { apply orderly_load. intros s l [] _. apply iv_world0. }
  intros exit r2 Hr2 Hexit.
  eapply orderly_bind; [apply orderly_claim_lookup|]. intros [c uncertain] r3 Hr3 Hc. cbn [fst] in Hc.
  eapply orderly_bind; [apply orderly_claim_udp|]. intros c1 r4 Hr4 Hc1.
  assert (protected fields → is_name_lookup fields = false → selected c1 = true) as Hsel.
  { intros [[_ ?]|(_ & _ & Hcov & _)] ?; [congruence|]. apply Hc1, Hc. destruct (Ht fields Hcov) as [x ->]. done. }
  eapply orderly_bind; [apply orderly_own_lookup|]. intros own r5 Hr5 Hexempt.
  apply (orderly_bind _ _ (λ _ r', own = true → Knows (Exempted fields) ∈ r')).
  { destruct own; [|by apply orderly_ret]. eapply orderly_mono; [apply orderly_note; [done|intros s l _ _]|auto].
    destruct Hexempt as [?|[?|[? ?]]]; [done|left; auto|by right; left|]. right. right. split; [by eapply lookup_name_lookup|done]. }
  intros _ r6 Hr6 Hown.
  eapply orderly_bind; [apply (orderly_dns_setting _ false); by intros s l [] (_ & ? & _)%iv_settings0|]. intros own_apps_only r7 Hr7 Happs.
  eapply orderly_bind; [apply (orderly_dns_setting _ true); by intros s l [] (? & _)%iv_settings0|]. intros remote_enabled r8 Hr8 Henabled.
  destruct (_ && _); [eapply orderly_bind; [apply orderly_count_by|]; intros _ r9 _ _; apply orderly_finish_if|].
  eapply orderly_bind; [apply orderly_remote_lookup|]. intros remote r9 Hr9 Hremote.
  eapply orderly_bind; [by apply orderly_claim_remote|]. intros [c2 redirect] r10 Hr10 (Hred & Hother & Hlookup). cbn [fst snd] in *.
  eapply orderly_bind; [apply orderly_claim_fake|]. intros c3 r11 Hr11 Hc3.
  assert (protected fields → Knows (Exempted fields) ∈ r11 ∨ selected c3 = true ∧ kill_switch registry || remote = true
    ∧ (redirect = None → is_globally_routable_ipv4 (SplitTable.destination fields) = true)) as Hp.
  { intros Hprot. destruct own; [left; assert (r6 ⊆ r11) by set_solver; auto|right]. pose proof Hprot as [[Hdns Hn]|(Hk & Hn & _ & Hg & _)].
    - assert (remote = true) as -> by auto. destruct (Hlookup Hn eq_refl) as [Hs Hg]. rewrite orb_true_r. auto.
    - rewrite Hk. pose proof (Hother Hn) as [= -> ->]. auto. }
  eapply orderly_bind; [apply orderly_claim_syn; [done|done|]|].
  { intros Hs _. apply (leaves_fields r11 packet fields Hf). intros Hprot. destruct (Hp Hprot) as [?|[? _]]; [done|congruence]. }
  intros [c4|] r12 Hr12 Hc4; [|by apply orderly_ret].
  eapply orderly_bind; [by apply orderly_keep_out|]. intros c5 r13 Hr13 Hc5. apply orderly_deliver; [done|done|].
  intros Hprot. destruct (Hp Hprot) as [Hx|(Hs & Hh & Hg)]; [right; set_solver|].
  destruct (Hc5 (Hdirect Hprot) Hg (Hc4 Hs)); auto.
Qed.

Lemma orderly_capture_packet t packet address r :
  selects t → orderly (capture_packet registry t packet address) (λ _ _, True) r.
Proof.
  intros Ht. unfold capture_packet. destruct (is_later_fragment packet) eqn:Hl; [by apply orderly_capture_later|].
  eapply orderly_bind; [apply orderly_begin|]. intros ticket r1 _ _. destruct (ipv4_fields packet) as [fields|] eqn:Hf.
  - by apply orderly_capture_fields.
  - destruct ticket; [apply orderly_finish|]. apply orderly_reinject. intros s l _ _. right. congruence.
Qed.

Lemma orderly_table r : orderly (load SplitState.table) (λ t _, selects t) r.
Proof. apply orderly_load. by intros s l [] _. Qed.

Lemma orderly_capture_loop packets version t r :
  selects t → orderly (capture_loop registry packets version t) (λ _ _, True) r.
Proof.
  revert version t r. induction packets as [|[p a] packets IH]; intros version t r Ht; cbn [capture_loop]; [by apply orderly_ret|].
  apply (orderly_bind _ _ (λ x _, selects x.2)); [|intros [v t'] r1 _ Ht'; by apply IH]. unfold capture_turn.
  eapply orderly_bind; [apply orderly_any_load|]. intros current r1 _ _.
  apply (orderly_bind _ _ (λ t _, selects t)); [destruct (current =? version); [by apply orderly_ret|apply orderly_table]|]. intros t' r2 _ Ht'.
  eapply orderly_bind; [by apply orderly_capture_packet|]. intros _ r3 _ _. by apply orderly_ret.
Qed.

Lemma orderly_run_capture packets r : orderly (run_selected_capture registry packets) (λ _ _, True) r.
Proof.
  unfold run_selected_capture. eapply orderly_bind; [apply orderly_any_load|]. intros version r1 _ _.
  eapply orderly_bind; [apply orderly_table|]. intros t r2 _ Ht. by apply orderly_capture_loop.
Qed.

Lemma orderly_turns n turn r : (∀ r, orderly turn (λ _ _, True) r) → orderly (turns n turn) (λ _ _, True) r.
Proof.
  intros Ht. revert r. induction n as [|n IH]; intros r; cbn [turns]; [by apply orderly_ret|].
  eapply orderly_bind; [apply Ht|]. intros _ r1 _ _. apply IH.
Qed.

(** ** Held SYNs *)

Lemma orderly_pending r : orderly (pending_turn registry) (λ _ _, True) r.
Proof.
  unfold pending_turn. apply (orderly_bind _ _ (λ item r', ∀ b, item = Some b →
    20 <= zlen (pending_packet b) ∧ ipv4_fields (pending_packet b) = Some (pending_fields b) ∧ Leaves (pending_packet b) ∈ r')).
  - apply orderly_learn. intros s l Hi _.
    eexists _, _, (match head (pending_syns s) with Some b => [Leaves (pending_packet b)] | None => [] end).
    split; [reflexivity|]. pose proof Hi as []. destruct (pending_syns s) as [|b q] eqn:E; cbn [head tail app].
    + split; [by constructor|]. split; [|done]. rewrite <-E. by destruct s.
    + split; [by repeat constructor|]. destruct (iv_pending0 b) as (? & ? & ? & ?); [apply list_elem_of_here|]. split.
      * split; try done; [|by constructor]. intros b' Hb'. apply iv_pending0. by apply elem_of_cons; right.
      * intros ? [= <-]. split_and!; [done|done|apply list_elem_of_here].
  - intros [b|] r1 _ Hb; [|by apply orderly_ret]. destruct (Hb b eq_refl) as (Hl & Hf & Hleaves). clear Hb.
    eapply (orderly_bind _ _ (λ _ _, True)); [by apply orderly_quiet_store|]. intros _ r2 Hr2 _.
    eapply orderly_bind; [apply orderly_any_load|]. intros stopping r3 Hr3 _.
    assert (∀ r', r3 ⊆ r' → leaves r' (pending_packet b)) as Hout by (intros r' Hr'; apply leaves_token; set_solver).
    destruct stopping; [by apply orderly_send_bypass, Hout|].
    eapply orderly_bind; [apply orderly_table|]. intros t r4 Hr4 _.
    destruct (lookup t (pending_fields b)) as [found|]; [|by apply orderly_send_bypass, Hout].
    eapply orderly_bind; [apply orderly_proxy_upstream|]. intros [] r5 Hr5 _.
    + apply orderly_send_bypass, Hout. by etransitivity.
    + eapply orderly_bind; [apply orderly_route; [done|done|]|]. { intros _. apply Hout. by etransitivity. }
      intros _ r6 _ _. by apply orderly_ret.
Qed.

(** ** Replies *)

Lemma orderly_owns address r : orderly (owns address) (λ _ _, True) r.
Proof.
  unfold owns. eapply orderly_bind; [apply orderly_any_load|]. intros n r1 _ _. generalize O as i. revert r1.
  induction n as [|n IH]; intros r1 i; cbn [owns_from]; [by apply orderly_ret|].
  eapply orderly_bind; [apply orderly_any_load|]. intros [] r2 _ _; [by apply orderly_ret|apply IH].
Qed.

Lemma newest_in log k q : newest log k = Some q → Recorded k q ∈ log.
Proof.
  induction log as [|o log IH]; [done|]. intros H. destruct o; cbn [newest] in H;
    try (apply elem_of_cons; right; by apply IH); case_decide; simplify_eq;
    try apply list_elem_of_here; apply elem_of_cons; right; by apply IH.
Qed.

Lemma inv_know s l o : inv s l → o ∈ log s → inv s (Knows o :: l).
Proof. intros [] Ho. split; try done. by constructor. Qed.

(** The route that a return path stands for. *)
Definition path_of (r : list Token) (k : ReturnKey) (p : ReturnPath) : Prop :=
  path_ok p ∧ ∃ q, Knows (Recorded k q) ∈ r ∧ same_route p q.

Lemma inv_path s l k p :
  inv s l → return_paths s !! k = Some p → ∃ q, Recorded k q ∈ log s ∧ same_route p q.
Proof.
  intros [] Hp. specialize (iv_newest0 k). rewrite Hp in iv_newest0. destruct (newest (log s) k) as [q|] eqn:E; [|done].
  exists q. split; [by apply newest_in|done].
Qed.

Lemma orderly_path k r : orderly (load (λ s, return_paths s !! k)) (λ p r', ∀ p', p = Some p' → path_of r' k p') r.
Proof.
  apply orderly_learn. intros s l Hi _. destruct (return_paths s !! k) as [p|] eqn:E.
  - destruct (inv_path s l k p Hi E) as (q & Hq & Hs). exists (Some p), s, [Knows (Recorded k q)]. split; [done|].
    split; [by repeat constructor|]. split; [by apply inv_know|]. intros ? [= <-]. split; [by destruct Hi; eapply iv_paths0|].
    exists q. split; [apply list_elem_of_here|done].
  - exists None, s, []. by split_and!.
Qed.

Lemma orderly_touch k r : orderly (act (λ s, Ret (touch_path k s))) (λ p r', ∀ p', p = Some p' → path_of r' k p') r.
Proof.
  apply orderly_learn. intros s l Hi _. unfold touch_path. destruct (return_paths s !! k) as [p|] eqn:E.
  - destruct (inv_path s l k p Hi E) as (q & Hq & Hs).
    set (p' := mk_return_path _ _ _ _ _ _ _ _).
    exists (Some p'), (with_return_paths s (<[k := p']> (return_paths s))), [Knows (Recorded k q)]. split; [done|].
    split; [by repeat constructor|]. pose proof Hi as []. assert (path_ok p') as Hp' by (by apply (iv_paths0 k p)). split.
    + apply inv_know; [|done]. eapply inv_core; [|apply (inv_routes s l l (<[k := p']> (return_paths s)) [])]; try done; [| |by intros o Ho%elem_of_nil|intros t; auto].
      * intros k' p1 [[_ <-]|[_ Hk]]%lookup_insert_Some; [done|by eapply iv_paths0].
      * intros k'. cbn [app]. destruct (decide (k = k')) as [<-|Hne].
        -- rewrite lookup_insert_eq. specialize (iv_newest0 k). rewrite E in iv_newest0. by destruct (newest (log s) k).
        -- rewrite lookup_insert_ne by done. apply iv_newest0.
    + intros ? [= <-]. split; [done|]. exists q. split; [apply list_elem_of_here|done].
  - exists None, s, []. by split_and!.
Qed.

Lemma sub_paste_in (l bs : list byte) i : 0 <= i → i + zlen bs <= zlen l → sub (paste l i bs) i (i + zlen bs) = bs.
Proof.
  intros Hi Hl. apply (sub_eq _ (take (Z.to_nat i) l) bs (drop (Z.to_nat (i + zlen bs)) l)); [done| |done].
  unfold zlen in *. rewrite length_take. lia.
Qed.

Lemma sub_paste_out (l bs : list byte) i a b :
  0 <= i → i + zlen bs <= zlen l → 0 <= a <= b → b <= zlen l → b <= i ∨ i + zlen bs <= a →
  sub (paste l i bs) a b = sub l a b.
Proof.
  intros Hi Hl Ha Hb Ho. apply sub_ext; [done|done|by apply zlen_paste|]. intros j Hj. apply get_paste_out; lia.
Qed.

Lemma sub_prefix (l : list byte) q a b : 0 <= a <= b → b <= q <= zlen l → sub (sub l 0 q) a b = sub l a b.
Proof.
  intros Ha Hq. rewrite <-(sub_app_l (sub l 0 q) (sub l q (zlen l))) by (rewrite ?zlen_sub by lia; lia).
  by rewrite <-sub_split, sub_all by lia.
Qed.

Lemma orderly_inject packet path k r :
  20 <= zlen packet → path_of r k path →
  reply_of k path packet (inbound_address (path_interface path) (path_subinterface path)) →
  orderly (inject_reply packet path) (λ _ _, True) r.
Proof.
  intros Hl (_ & q & Hq & Hloc & Hif & Hsub & _ & Hres & _) Hr. unfold inject_reply.
  eapply orderly_bind; [apply orderly_checksums|]. intros [packet'|] r1 Hr1 Hs; [|by apply orderly_ret].
  apply orderly_send_in. exists k, q. split; [by apply Hr1|].
  destruct (reply_of_similar k path packet packet' _ Hl (Hs _ eq_refl) Hr) as (Hd & Ha & Hsrc).
  unfold reply_of. by rewrite <-Hloc, <-Hif, <-Hsub, <-Hres.
Qed.

Lemma readdress_reply_ok packet path :
  20 <= zlen packet → path_ok path →
  ∃ packet', readdress_reply registry packet path = Ret packet' ∧ zlen packet' = zlen packet
    ∧ sub packet' 16 20 = local_ip path ∧ sub packet' 12 16 = default (sub packet 12 16) (resolver path).
Proof.
  intros Hl [Hloc Hres]. unfold readdress_reply. rewrite copy_at_in by lia. cbn [mbind run_bind].
  set (p1 := paste packet 16 (local_ip path)).
  assert (zlen p1 = zlen packet) as Hp1 by (apply zlen_paste; lia).
  assert (sub p1 16 20 = local_ip path) as Hd by (pose proof (sub_paste_in packet (local_ip path) 16) as H; rewrite Hloc in H; apply H; lia).
  assert (sub p1 12 16 = sub packet 12 16) as Hs by (apply sub_paste_out; lia).
  destruct (limits_ok (path_node path)) as (lim & Hlim & _).
  assert (∃ p2, match resolver path with Some a => copy_at p1 12 a | None => Ret p1 end = Ret p2 ∧ zlen p2 = zlen packet
    ∧ sub p2 16 20 = local_ip path ∧ sub p2 12 16 = default (sub packet 12 16) (resolver path)) as (p2 & -> & Hp2 & Hd2 & Hs2).
  { destruct (resolver path) as [a|]; [|by exists p1]. rewrite copy_at_in by lia. eexists. split; [done|]. split_and!.
    - rewrite zlen_paste; lia.
    - rewrite sub_paste_out by lia. done.
    - pose proof (sub_paste_in p1 a 12) as H. rewrite Hres in H. apply H; lia. }
  cbn [mbind run_bind]. rewrite Hlim. cbn [mbind run_bind].
  destruct (clamp_total p2 (limit_mss lim)) as (c & p3 & -> & Hp3 & Hg). cbn [mbind run_bind].
  exists p3. split; [done|]. split; [lia|]. rewrite !(sub_ext p2 p3) by (lia || (intros i Hi; apply Hg; lia)). done.
Qed.

Lemma readdress_quote_total quoted local_ip resolver :
  20 <= zlen quoted → zlen local_ip = 4 → address_ok resolver → ∃ q, readdress_quote quoted local_ip resolver = Ret q.
Proof.
  intros Hl Hloc Hres. unfold readdress_quote. rewrite copy_at_in by lia. cbn [mbind run_bind].
  set (q1 := paste quoted 12 local_ip). assert (zlen q1 = zlen quoted) as Hq1 by (apply zlen_paste; lia).
  assert (∃ q2, match resolver with Some a => copy_at q1 16 a | None => Ret q1 end = Ret q2 ∧ zlen q2 = zlen quoted) as (q2 & -> & Hq2).
  { destruct resolver as [a|]; [|by exists q1]. cbn in Hres. rewrite copy_at_in by lia. eexists. split; [done|]. rewrite zlen_paste; lia. }
  cbn [mbind run_bind]. destruct (_ <=? _); [|by eexists].
  rewrite copy_at_in by (change (zlen [x00; x00]) with 2; lia). cbn [mbind run_bind].
  assert (zlen (paste q2 10 [x00; x00]) = zlen q2) as Hq3 by (apply zlen_paste; [lia|change (zlen [x00; x00]) with 2; lia]).
  rewrite copy_at_in by (rewrite ?zlen_be_bytes; lia). by eexists.
Qed.

Lemma readdress_icmp_ok packet quote local_ip resolver :
  get_range packet (Z.land (nz packet 0) 0x0f * 4 + 8) (zlen packet) = Some quote → 20 <= zlen quote →
  20 <= Z.land (nz packet 0) 0x0f * 4 → zlen local_ip = 4 → address_ok resolver →
  ∃ packet', readdress_icmp_error packet local_ip resolver = Ret packet' ∧ 20 <= zlen packet'
    ∧ sub packet' 16 20 = local_ip ∧ nz packet' 9 = nz packet 9.
Proof.
  intros Hq Hl Hh Hloc Hres. unfold readdress_icmp_error. set (q := Z.land (nz packet 0) 0x0f * 4 + 8) in *.
  apply get_range_Some in Hq as (Hq & Hqn & ->). rewrite zlen_sub in Hl by lia.
  rewrite slice_in by lia. cbn [mbind run_bind]. rewrite copy_at_in by lia. cbn [mbind run_bind].
  destruct (readdress_quote_total (sub packet q (zlen packet)) local_ip resolver) as (quoted & ->); [rewrite zlen_sub by lia; lia|done|done|].
  cbn [mbind run_bind]. set (p1 := paste packet 16 local_ip).
  assert (zlen p1 = zlen packet) as Hp1 by (apply zlen_paste; lia).
  assert (zlen (sub p1 0 q) = q) as Hz by (rewrite zlen_sub by lia; lia).
  eexists. split; [done|]. split; [rewrite zlen_app, Hz; pose proof (zlen_nonneg quoted); lia|]. split.
  - rewrite sub_app_l, sub_prefix by lia. pose proof (sub_paste_in packet local_ip 16) as H. rewrite Hloc in H. apply H; lia.
  - unfold nz. rewrite get_app_l by lia. rewrite get_sub, Z.add_0_l by lia. unfold p1. by rewrite get_paste_out by lia.
Qed.

Lemma orderly_icmp_error packet fields r :
  ipv4_fields packet = Some fields → orderly (deliver_icmp_error packet) (λ _ _, True) r.
Proof.
  intros Hf. destruct (fields_read packet fields Hf) as (_ & _ & _ & _ & Hh). unfold deliver_icmp_error.
  destruct (icmp_error_quote packet) as [[flow|]|] eqn:Hq; [|by apply orderly_ret..].
  unfold icmp_error_quote in Hq. destruct (nz packet 9 =? 1) eqn:H1; [|done]. cbn [negb] in Hq.
  destruct (get packet _) as [kind|]; [|done]. destruct (negb _); [done|].
  destruct (get_range _ _ _) as [quote|] eqn:Hrange; [|done]. injection Hq as Hquote.
  destruct (fields_read quote flow Hquote) as (Hql & _).
  eapply orderly_bind; [apply orderly_owns|]. intros [] r1 _ _; [|by apply orderly_ret]. cbn [negb].
  eapply orderly_bind; [apply orderly_path|]. intros [path|] r2 _ Hp; [|by apply orderly_ret]. specialize (Hp path eq_refl).
  destruct (readdress_icmp_ok packet quote (local_ip path) (resolver path) Hrange Hql Hh) as (p' & Hp' & Hl & Hd & Hn);
    [by apply Hp..|].
  eapply (orderly_bind _ _ (λ p _, p = p')); [by eapply orderly_lift|]. intros p r3 Hr3 ->.
  eapply orderly_bind; [eapply (orderly_inject _ _ (outbound_key flow)); [done| |]|].
  - destruct Hp as [Ho (q & Hq & Hs)]. split; [done|]. exists q. split; [by apply Hr3|done].
  - split_and!; [done|done|]. left. rewrite Hn. lia.
  - intros injected r4 _ _. eapply orderly_bind; [apply orderly_count_by|]. intros _ r5 _ _. by apply orderly_ret.
Qed.

Lemma orderly_unmatched cause r : orderly (unmatched cause) (λ _ _, True) r.
Proof. unfold unmatched. eapply orderly_bind; [apply orderly_count_by|]. intros _ r1 _ _. apply orderly_count_by. Qed.

Lemma orderly_deliver_reply packet r : orderly (deliver_reply registry packet) (λ _ _, True) r.
Proof.
  unfold deliver_reply. eapply orderly_bind; [apply orderly_learn_direct|]. intros _ r1 _ _.
  destruct (ipv4_fields packet) as [fields|] eqn:Hf; [|apply orderly_unmatched].
  destruct (fields_read packet fields Hf) as (Hl & Hsrc & _).
  eapply orderly_bind; [apply orderly_owns|]. intros [] r2 _ _; cbn [negb]; [|apply orderly_unmatched].
  eapply orderly_bind; [by eapply orderly_icmp_error|]. intros [] r3 _ _; [by apply orderly_ret|].
  eapply orderly_bind; [apply orderly_touch|]. intros [path|] r4 _ Hp; [|apply orderly_unmatched]. specialize (Hp path eq_refl).
  destruct (readdress_reply_ok packet path Hl) as (p' & Hp' & Hl' & Hd & Hs); [by apply Hp|].
  eapply (orderly_bind _ _ (λ p _, p = p')); [by eapply orderly_lift|]. intros p r5 Hr5 ->.
  eapply orderly_bind; [eapply (orderly_inject _ _ (inbound_key fields)); [lia| |]|].
  - destruct Hp as [Ho (q & Hq & Hsame)]. split; [done|]. exists q. split; [by apply Hr5|done].
  - split_and!; [done|done|]. right. rewrite Hs. unfold inbound_key. cbn [key_remote_ip]. by rewrite Hsrc.
  - intros injected r6 _ _. destruct injected; [|apply orderly_count_by].
    eapply orderly_bind; [apply orderly_count_by|]. intros _ r7 _ _. by apply orderly_quiet_store.
Qed.

Lemma orderly_reply_loop packets reassembler r :
  bounded reassembler → orderly (reply_loop registry packets reassembler) (λ _ _, True) r.
Proof.
  revert reassembler r. induction packets as [|packet packets IH]; intros reassembler r Hb; cbn [reply_loop]; [by apply orderly_ret|].
  apply (orderly_bind _ _ (λ a _, bounded a)); [|intros a r1 _ Ha; by apply IH]. unfold reply_turn.
  eapply orderly_bind; [apply orderly_count_by|]. intros _ r1 _ _. destruct (is_fragment packet) eqn:Hf.
  - eapply orderly_bind; [apply orderly_any_load|]. intros t r2 _ _.
    destruct (push_bounded reassembler packet t Hb) as (out & a & Hpush & Ha & _); [unfold is_fragment in Hf; b2p; lia|].
    eapply (orderly_bind _ _ (λ x _, x = (out, a))); [by eapply orderly_lift|]. intros ? r3 _ ->.
    unfold Fragments.take_discarded. eapply orderly_bind; [apply orderly_count_by|]. intros _ r4 _ _.
    destruct out as [d|]; [|by apply orderly_ret].
    eapply orderly_bind; [apply orderly_count_by|]. intros _ r5 _ _.
    eapply orderly_bind; [apply orderly_deliver_reply|]. intros _ r6 _ _. by apply orderly_ret.
  - eapply orderly_bind; [apply orderly_deliver_reply|]. intros _ r2 _ _. by apply orderly_ret.
Qed.

Lemma orderly_replies packets r : orderly (run_reply_injector registry packets) (λ _ _, True) r.
Proof. by apply orderly_reply_loop. Qed.

(** ** The trackers *)

Lemma orderly_add_process selector path process endpoint r :
  (∀ f e, selector ≠ Destination f e) → orderly (store (add_process_selector registry selector path process endpoint)) (λ _ _, True) r.
Proof. intros Hs. apply orderly_store; [|done]. intros s l Hi _. by apply inv_add_process. Qed.

Lemma orderly_track_socket kind process endpoint protocol local_port remote_port r :
  orderly (track_socket registry kind process endpoint protocol local_port remote_port) (λ _ _, True) r.
Proof.
  unfold track_socket. eapply (orderly_bind _ _ (λ _ _, True)).
  { destruct (protocol =? 17); [by apply orderly_quiet_store|by apply orderly_ret]. }
  intros _ r1 _ _. destruct (kind =? 7); [apply orderly_remove_closed|]. destruct (negb _); [by apply orderly_ret|].
  eapply orderly_bind; [apply orderly_any_load|]. intros [path|] r2 _ _; [|by apply orderly_ret].
  destruct (negb _); [by apply orderly_ret|]. destruct (_ =? _); [by apply orderly_ret|]. destruct (negb _); [by apply orderly_ret|].
  eapply orderly_bind; [apply orderly_count_by|]. intros _ r3 _ _. apply orderly_add_process, socket_selector_flow.
Qed.

Lemma orderly_seed_socket socket r : orderly (seed_socket registry socket) (λ _ _, True) r.
Proof.
  unfold seed_socket. eapply orderly_bind; [apply orderly_any_load|]. intros [path|] r1 _ _; [|by apply orderly_ret].
  eapply orderly_bind; [apply orderly_count_by|]. intros _ r2 _ _. apply orderly_add_process, socket_selector_flow.
Qed.

Lemma orderly_add_hostname address hostname r : orderly (add_hostname_address registry address hostname) (λ _ _, True) r.
Proof.
  unfold add_hostname_address. eapply (orderly_bind _ _ (λ _ _, True)); [apply orderly_quiet_store, core_keep_label|].
  intros _ r1 _ _. apply orderly_add_address.
Qed.

Lemma orderly_add_addresses l r : orderly (add_addresses registry l) (λ _ _, True) r.
Proof.
  revert r. induction l as [|[a h] l IH]; intros r; cbn [add_addresses]; [by apply orderly_ret|].
  eapply orderly_bind; [apply orderly_add_hostname|]. intros _ r1 _ _. apply IH.
Qed.

Lemma orderly_track_answer to_lowercase packet r : orderly (track_answer registry to_lowercase packet) (λ _ _, True) r.
Proof.
  unfold track_answer. destruct (dns_addresses_total to_lowercase packet (rule_hostnames registry)) as (l & Hl & _).
  eapply (orderly_bind _ _ (λ _ _, True)); [by apply (orderly_lift _ l)|]. intros found r1 _ _.
  eapply orderly_bind; [apply orderly_add_addresses|]. intros _ r2 _ _. apply orderly_learn_direct.
Qed.

Lemma orderly_seed_hostnames hostnames resolve r : orderly (seed_hostname_rules registry hostnames resolve) (λ _ _, True) r.
Proof.
  revert r. induction hostnames as [|h l IH]; intros r; cbn [seed_hostname_rules]; [by apply orderly_ret|].
  eapply orderly_bind; [apply orderly_any_load|]. intros [] r1 _ _; [by apply orderly_ret|].
  eapply orderly_bind; [apply orderly_any_load|]. intros [] r2 _ _; [by apply orderly_ret|].
  eapply orderly_bind; [apply orderly_add_addresses|]. intros _ r3 _ _. apply IH.
Qed.

Lemma orderly_read_paths pids paths r : orderly (read_paths pids paths) (λ _ _, True) r.
Proof.
  revert paths r. induction pids as [|pid pids IH]; intros paths r; cbn [read_paths]; [by apply orderly_ret|].
  eapply orderly_bind; [apply orderly_any_load|]. intros path r1 _ _. apply IH.
Qed.

Lemma orderly_reap r : orderly (reap_stale_flows registry) (λ _ _, True) r.
Proof.
  unfold reap_stale_flows. eapply orderly_bind; [apply orderly_any_load|]. intros [active|] r1 _ _; [|by apply orderly_ret].
  eapply orderly_bind; [apply orderly_any_load|]. intros t r2 _ _.
  eapply orderly_bind; [apply orderly_any_load|]. intros routed r3 _ _.
  eapply orderly_bind; [apply orderly_any_load|]. intros pids r4 _ _.
  eapply orderly_bind; [apply orderly_read_paths|]. intros paths r5 _ _.
  eapply (orderly_bind _ _ (λ _ _, True)); [|intros removed r6 _ _; apply orderly_remove_routes].
  apply orderly_act. intros s l Hi _. eexists _, _. split; [done|]. split; [|done]. unfold reap. cbn [snd].
  destruct (bool_decide _); apply (inv_state _ _ _ false) || apply (inv_state _ _ _ true); try done;
    apply keep_owners_ok; by destruct Hi.
Qed.

(** ** Settings *)

Lemma orderly_set_address node address r : zlen address = 4 → orderly (set_address node address) (λ _ _, True) r.
Proof.
  intros Ha. apply orderly_store; [|done]. intros s l [] _. split; try done. cbn [with_addresses addresses].
  destruct iv_nodes0 as [Hne Hall]. destruct (_ && _); [|done]. split; [|by apply Forall_insert].
  intros H. apply (f_equal length) in H. rewrite length_insert in H. by destruct (addresses s).
Qed.

Lemma orderly_set_redirect redirect own_apps_only r :
  (dns_closed = true → redirect = true ∧ own_apps_only = false) → orderly (set_redirect_dns redirect own_apps_only) (λ _ _, True) r.
Proof.
  intros Hd. unfold set_redirect_dns. apply (orderly_bind _ _ (λ _ _, True)).
  - apply orderly_store; [|done]. intros s l [] _. split; try done. intros H. destruct (Hd H), (iv_settings0 H) as (? & _ & ?). done.
  - intros _ r1 _ _. apply orderly_store; [|done]. intros s l [] _. split; try done. intros H.
    destruct (Hd H), (iv_settings0 H) as (_ & ? & ?). done.
Qed.

Lemma orderly_set_yield y r : (dns_closed = true → y = false) → orderly (set_yield_foreign_lookups y) (λ _ _, True) r.
Proof.
  intros Hd. apply orderly_store; [|done]. intros s l [] _. split; try done. intros H.
  by destruct (iv_settings0 H) as (? & ? & _); auto.
Qed.
End safety.
