(* ===== verification/SplitStart.v ===== *)
(** * SplitStart: how a split capture begins and what it hands on

    [SplitPacketCapture::start] and [into_carried] of
    [engine/src/split_capture.rs]: the registry and the shared state built from the
    compiled rules, the options and the flows of the capture that this one replaces,
    up to the threads that it spawns; and the connections that opened before it. *)
From S2P Require Import Prelude Text Policy Fragments Mtu Threads DirectList FragmentRouter SplitTable SplitState SplitOwners SplitFlows SplitCapture.

(** ** What a capture is started with *)

Record CarriedFlows := mk_carried {
  carried_paths : gmap ReturnKey ReturnPath;
  carried_handled : gmap ReturnKey HandledConnection;
  carried_usage : gmap (list byte) (Z * Z);
  carried_fragments : FragmentRouter Address;
  carried_labels : gmap (list byte) (list byte);
  carried_learned : gmap (list byte) (list byte)
}.

Definition no_flows : CarriedFlows := mk_carried ∅ ∅ ∅ default_router ∅ ∅.

Record SplitOptions := mk_options {
  option_kill_switch : bool;
  option_remote_dns : bool;
  option_own_apps_only : bool;
  option_yield_foreign_lookups : bool;
  option_own_hostnames : list (list byte);
  option_carried : option CarriedFlows;
  option_direct : DirectSpec;
  option_relay_reassembles : bool
}.

(** An endpoint is the bytes of its address and its port; [is_interface] says that an
    address is one of this machine's. *)
Notation SocketAddr := (list byte * Z)%type.

Section start.
Context (is_interface : list byte → bool) (is_ipv6 : list byte → bool) (system_root : list byte).

Definition for_endpoint (endpoint : SocketAddr) : option (list byte * Z) :=
  if negb (zlen endpoint.1 =? 4) then None
  else if (nz endpoint.1 0 =? 127) || is_interface endpoint.1 then Some endpoint else None.

(** [socks_proxies] of the nodes, with their numbers. *)
Definition socks_proxies (nodes : list (option SocketAddr)) : list (Z * SocketAddr) :=
  omap (λ entry : Z * option SocketAddr, pair entry.1 <$> entry.2)
    (imap (λ i proxy, (Z.of_nat i mod 256, proxy)) nodes).

(** [mask | 1_u64 << node]. *)
Definition proxy_mask (proxies : list (Z * SocketAddr)) : run Z :=
  foldl (λ mask proxy, mask ← mask; if proxy.1 <? 64 then Ret (Z.lor mask (Z.shiftl 1 proxy.1)) else Panic) (Ret 0) proxies.

Definition registry_of (plan : InterceptionPlan) (proxies : list (Z * SocketAddr)) (mask : Z) (limits : list NodeLimits)
    (options : SplitOptions) : Registry :=
  mk_registry (option_kill_switch options) (option_relay_reassembles options) limits (targets_of plan)
    mask (fst <$> head proxies)
    (omap (λ proxy : Z * SocketAddr, (λ e : list byte * Z, (proxy.1, e.1, e.2)) <$> for_endpoint proxy.2) proxies)
    (list_to_set ((λ name, to_ascii_lowercase (trim_end_matches x2e name)) <$> option_own_hostnames options))
    (compile (option_direct options)) (application_paths plan) (folder_prefixes plan) (hostnames plan) system_root.

(** Learned addresses outlive a list edit only while the list names what they were
    learned for. *)
Definition kept_learned (d : DirectList) (learned : gmap (list byte) (list byte)) : gmap (list byte) (list byte) :=
  filter (λ an, matches_name d an.2 && negb (contains d an.1) = true) learned.

(** The log begins with the routes carried over. *)
Definition capture_of (w : World) (registry : Registry) (options : SplitOptions) (flows : CarriedFlows)
    (addresses : list (list byte)) : Capture :=
  mk_capture w false (option_remote_dns options) (option_own_apps_only options) (option_yield_foreign_lookups options)
    addresses ∅ ∅ ∅ (carried_fragments flows) ((λ _, mk_proxy (None, None) ∅ ∅) <$> proxies registry) ∅
    (kept_learned (direct registry) (carried_learned flows)) (mk_state ∅ ∅ ∅) (mk_table [] ∅ 0) 0
    (carried_paths flows) (carried_handled flows) (carried_usage flows) (mk_destination_log (now w) ∅)
    [] 0 [] (λ _, 0) ((λ kp, Recorded kp.1 kp.2) <$> map_to_list (carried_paths flows)).

Definition add_destinations (registry : Registry) (selectors : list (TrafficSelector * Z)) (s : Capture) : Capture :=
  foldl (λ s selector, add_selector registry selector.1 selector.2 s) s selectors.

(** Up to the threads: the errors are those of the rules and of a session without
    nodes. *)
Definition start (plan : InterceptionPlan) (nodes : list (list byte * option SocketAddr)) (mtus : list EffectiveMtu)
    (options : SplitOptions) (w : World) : run (result (list byte) (Registry * Capture)) :=
  let flows := default no_flows (option_carried options) in
  let proxies := socks_proxies (snd <$> nodes) in
  mask ← proxy_mask proxies;
  if bool_decide (mtus = []) then Ret (Err (str "the session has no node to capture into")) else
  let registry := registry_of plan proxies mask (limits_of <$> mtus) options in
  let s := capture_of w registry options flows (fst <$> nodes) in
  selectors ← destination_selectors plan is_ipv6 (ip_networks plan);
  match selectors with
  | Err e => Ret (Err e)
  | Ok selectors =>
      '(_, s) ← exec (add_addresses registry
                        (map_to_list (retained_hostname_addresses (carried_labels flows) (hostnames plan))))
                  (add_destinations registry selectors s);
      Ret (Ok (registry, s))
  end.
End start.

(** What the replaced capture hands on once its threads have ended. *)
Definition into_carried (s : Capture) : CarriedFlows :=
  mk_carried (return_paths s) (handled_connections s) (app_usage s) (fragments s) (destination_labels s) (direct_learned s).

(** ** Connections that opened before *)

Record Connection := mk_connection {
  connection_local : list byte * Z;
  connection_remote : list byte * Z;
  connection_process : Z
}.

(** The paths read so far answer again for the same process. *)
Definition owner_path_of (process : Z) (paths : gmap Z (option (list byte)))
    : program (option (list byte) * gmap Z (option (list byte))) :=
  match paths !! process with
  | Some path => mret (path, paths)
  | None => path ← load (λ s, process_path (world s) process); mret (path, <[process := path]> paths)
  end.

(** [close] ends a connection of the system's; each one that it ended is answered. *)
Fixpoint close_selected (registry : Registry) (close : Connection → bool) (t : SelectorTable)
    (carried : gmap ReturnKey ReturnPath) (connections : list Connection) (paths : gmap Z (option (list byte)))
    : program (list Connection) :=
  match connections with
  | [] => mret []
  | c :: connections' =>
      let fields := mk_fields (connection_local c).1 (connection_remote c).1 6 (connection_local c).2 (connection_remote c).2 in
      if negb (is_globally_routable_ipv4 (SplitTable.destination fields)) || bool_decide (is_Some (carried !! outbound_key fields))
      then close_selected registry close t carried connections' paths else
      '(owner, paths) ← owner_path_of (connection_process c) paths;
      let by_process := match owner with
                        | Some path => path_matches path (applications registry) (folders registry)
                        | None => false
                        end in
      let found := lookup t fields in
      let node := match found with
                  | Some found => SplitTable.node found
                  | None => match owner with Some path => for_path (targets registry) path | None => 0 end
                  end in
      ours ← (if by_process || bool_decide (is_Some found) then
                upstream ← is_proxy_upstream registry node fields;
                if upstream : bool then mret false else
                exit ← load (λ s, is_exit_socket fields (world s)); mret (negb exit)
              else mret false);
      closed ← close_selected registry close t carried connections' paths;
      mret (if (ours : bool) && close c then c :: closed else closed)
  end.

Definition close_preexisting_connections (registry : Registry) (close : Connection → bool) (connections : list Connection)
    : program (list Connection) :=
  t ← load SplitState.table;
  carried ← load return_paths;
  close_selected registry close t carried connections ∅.
