(* ===== verification/SplitTheorems.v ===== *)
(** * SplitTheorems: the promises of a split capture

    From the start, whatever its threads do in any order: what may leave around the
    tunnel, where replies are delivered, on which node a flow stays, how much waits to
    be put back; and no thread panics. *)
From S2P Require Import Prelude Text Policy Icmp Fragments Mtu Dns Threads Ranges DirectList FragmentRouter TcpMss SplitTable SplitState SplitOwners SplitFlows SplitCapture SplitSafety SplitStart.

(** ** The threads *)

Section calls.
Context (registry : Registry) (dns_closed : bool) (may_exit : Ipv4Fields → Prop).

(** A thread or an event of one, with whatever it reads. [dns_closed] says that the
    session's name lookups were asked to be remote, all of them, and nobody changes
    that. *)
Inductive capture_call : program unit → Prop :=
| call_capture packets : capture_call (run_selected_capture registry packets)
| call_pending n : capture_call (run_pending_syns registry n)
| call_bypass n : capture_call (run_bypass_injector n)
| call_replies packets : capture_call (run_reply_injector registry packets)
| call_socket kind process endpoint protocol local_port remote_port :
    capture_call (track_socket registry kind process endpoint protocol local_port remote_port)
| call_seed socket : capture_call (seed_socket registry socket)
| call_answer to_lowercase packet : capture_call (track_answer registry to_lowercase packet)
| call_hostnames hostnames resolve : capture_call (seed_hostname_rules registry hostnames resolve)
| call_reap : capture_call (reap_stale_flows registry)
| call_address node address : zlen address = 4 → capture_call (set_address node address)
| call_redirect redirect own_apps_only :
    (dns_closed = true → redirect = true ∧ own_apps_only = false) → capture_call (set_redirect_dns redirect own_apps_only)
| call_close close connections :
    capture_call (_ ← close_preexisting_connections registry close connections; mret ())
| call_yield y : (dns_closed = true → y = false) → capture_call (set_yield_foreign_lookups y).

(** The clock, the system's tables, the tunnel and the driver change, and the capture
    is told to stop. *)
Inductive surroundings : (Capture → Capture) → Prop :=
| world_changes w : world_ok may_exit w → surroundings (λ s, with_world s w)
| stopped : surroundings (λ s, with_stop s true).

Inductive capture_event : Threads.event Capture → Prop :=
| event_call m : capture_call m → capture_event (Call m)
| event_turn i : capture_event (Turn i)
| event_outside f : surroundings f → capture_event (Environment f).

Context (covered : list byte → Prop) (registry_fine : registry_ok registry).
Notation inv := (inv registry dns_closed covered may_exit).
Notation event_ok := (Threads.event_ok inv share is_knowledge).

Lemma orderly_call m (P : unit → list Token → Prop) : orderly registry dns_closed covered may_exit m P [] → call_ok inv share is_knowledge m.
Proof. intros Hm. eapply wp_mono; [by apply Hm|]. by intros a r' (? & _). Qed.

Lemma orderly_close_selected close t carried connections paths r :
  orderly registry dns_closed covered may_exit (close_selected registry close t carried connections paths) (λ _ _, True) r.
Proof.
  revert paths r. induction connections as [|c connections IH]; intros paths r; cbn [close_selected]; [by apply orderly_ret|].
  destruct (_ || _); [apply IH|]. apply (orderly_bind _ _ _ _ _ _ (λ _ _, True)).
  { unfold owner_path_of. destruct (paths !! _); [by apply orderly_ret|].
    eapply orderly_bind; [apply orderly_any_load|]. intros path r1 _ _. by apply orderly_ret. }
  intros [owner paths'] r1 _ _. apply (orderly_bind _ _ _ _ _ _ (λ _ _, True)).
  { destruct (_ || _); [|by apply orderly_ret]. eapply orderly_bind; [apply orderly_proxy_upstream|].
    intros [] r2 _ _; [by apply orderly_ret|]. eapply orderly_bind; [apply orderly_any_load|]. intros exit r3 _ _. by apply orderly_ret. }
  intros ours r2 _ _. eapply orderly_bind; [apply IH|]. intros closed r3 _ _. by apply orderly_ret.
Qed.

Lemma orderly_close close connections r :
  orderly registry dns_closed covered may_exit (close_preexisting_connections registry close connections) (λ _ _, True) r.
Proof.
  unfold close_preexisting_connections. eapply orderly_bind; [apply orderly_any_load|]. intros t r1 _ _.
  eapply orderly_bind; [apply orderly_any_load|]. intros carried r2 _ _. apply orderly_close_selected.
Qed.

Lemma capture_call_ok m : capture_call m → call_ok inv share is_knowledge m.
Proof.
  intros Hm. destruct Hm; apply (orderly_call _ (λ _ _, True)).
  - by apply orderly_run_capture.
  - apply orderly_turns. intros r. by apply orderly_pending.
  - apply orderly_turns. intros r. by apply orderly_inject_bypass.
  - by apply orderly_replies.
  - by apply orderly_track_socket.
  - by apply orderly_seed_socket.
  - by apply orderly_track_answer.
  - by apply orderly_seed_hostnames.
  - by apply orderly_reap.
  - by apply orderly_set_address.
  - by apply orderly_set_redirect.
  - eapply orderly_bind; [by apply orderly_close|]. intros closed r _ _. by apply orderly_ret.
  - by apply orderly_set_yield.
Qed.

Lemma capture_event_ok e : capture_event e → event_ok e.
Proof.
  intros [m Hm|i|f [w Hw|]]; [by apply capture_call_ok|done| |].
  - intros s l []. by split.
  - intros s l Hi. eapply inv_core; [|apply Hi]. done.
Qed.

Lemma capture_run_ok s events :
  inv s [] → Forall capture_event events →
  ∃ s' pool tokens, Threads.machine_run (s, []) events = Ret (s', pool) ∧ inv s' tokens.
Proof.
  intros Hi He. destruct (Threads.machine_ok inv share (capture_perm registry dns_closed covered may_exit) is_knowledge I
    (capture_drop registry dns_closed covered may_exit) s events Hi) as (s' & pool & rs & Hr & Hi' & _).
  { eapply Forall_impl; [exact He|]. apply capture_event_ok. }
  by exists s', pool, (mjoin rs).
Qed.
End calls.

(** ** The start *)

(** The addresses that a plan's networks cover. *)
Definition selector_covers (state : SelectorState) (a : list byte) : Prop :=
  ∃ f l, is_Some (selectors state !! Destination f l) ∧ f <= be_Z a <= l.

Definition plan_covers (plan : InterceptionPlan) (is_ipv6 : list byte → bool) (a : list byte) : Prop :=
  ∃ l x f e, destination_selectors plan is_ipv6 (ip_networks plan) = Ret (Ok l) ∧ x ∈ l
    ∧ x.1 = Destination f e ∧ f <= be_Z a <= e.

Definition carried_ok (flows : CarriedFlows) : Prop :=
  (∀ k p, carried_paths flows !! k = Some p → path_ok p) ∧ later_only (carried_fragments flows).

Lemma into_carried_ok registry dns_closed covered may_exit s l :
  inv registry dns_closed covered may_exit s l → carried_ok (into_carried s).
Proof. intros []. by split. Qed.

Lemma network_ends address prefix :
  0 <= address < 2 ^ 32 → 0 <= prefix <= 32 → let mask := network_mask prefix in
  Z.land address mask <= Z.lor (Z.land address mask) (u32_max - mask).
Proof.
  intros Ha Hp mask. unfold mask, network_mask. destruct (Z.eqb_spec prefix 0); [by rewrite Z.land_0_r|].
  rewrite network_block, land_prefix_mask by lia. pose proof (Z.pow_pos_nonneg 2 (32 - prefix)). lia.
Qed.

Lemma selectors_are_networks plan is_ipv6 networks l :
  destination_selectors plan is_ipv6 networks = Ret (Ok l) → ∀ x, x ∈ l → ∃ f e, x.1 = Destination f e ∧ f <= e.
Proof.
  revert l. induction networks as [|network networks IH]; intros l; cbn [destination_selectors].
  { intros [= <-] x Hx. by apply elem_of_nil in Hx. }
  destruct (split_once _ _) as [[address prefix]|]; [|done]. cbn [unwrap mbind run_bind].
  destruct (parse_ipv4 address) as [octets|] eqn:Ho; [|by destruct (is_ipv6 address); [apply IH|]].
  destruct (parse_unsigned u32_max prefix) as [p|] eqn:Hp; [|done]. destruct (Z.ltb_spec 32 p); [done|].
  destruct (destination_selectors plan is_ipv6 networks) as [[rest|]|] eqn:Hrest; cbn [mbind run_bind]; [|done..].
  intros [= <-] x [->|Hx]%elem_of_cons; [|by eapply IH]. eexists _, _. split; [done|]. apply network_ends.
  - by apply octets_bound, (parse_ipv4_octets address).
  - split; [by eapply parse_unsigned_nonneg|done].
Qed.

(** Everything but the selectors and their table. *)
Definition rest (s : Capture) :=
  (world s, addresses s, SplitState.bypass s, bypass_queued_bytes s, return_paths s, log s, pending_syns s,
   (SplitState.fragments s, redirect_dns s, dns_own_apps_only s, SplitState.yield_foreign_lookups s)).

Definition table_fresh (s : Capture) : Prop :=
  selectors_ok (selector_covers (selector_state s)) (selector_state s)
  ∧ selects (selector_covers (selector_state s)) (SplitState.table s).

Lemma add_destination_ok registry f e node s :
  f <= e → table_fresh s → let s' := add_selector registry (Destination f e) node s in
  table_fresh s' ∧ rest s' = rest s ∧ is_Some (selectors (selector_state s') !! Destination f e)
  ∧ ∀ k, is_Some (selectors (selector_state s) !! k) → is_Some (selectors (selector_state s') !! k).
Proof.
  intros Hfe [Hok Hsel] s'. set (state := selector_state s).
  set (state' := mk_state (<[Destination f e := None]> (selectors state)) (flow_owners state)
    (<[Destination f e := node]> (destination_nodes state))).
  assert (selector_state s' = state') as Hstate by (unfold s', add_selector; by destruct (_ || _)).
  assert (∀ k, is_Some (selectors state !! k) → is_Some (selectors state' !! k)) as Hmono.
  { intros k Hk. cbn. destruct (decide (k = Destination f e)) as [->|Hne]; [by rewrite lookup_insert_eq|by rewrite lookup_insert_ne]. }
  assert (selectors_ok (selector_covers state') state') as Hok'.
  { destruct Hok. split; [|by intros a|done]. intros f' e' Hx. destruct (decide (Destination f' e' = Destination f e)) as [[= -> ->]|Hne]; [done|].
    apply so_ranges. cbn in Hx. by rewrite lookup_insert_ne in Hx by done. }
  unfold table_fresh. rewrite Hstate. split_and!; [done| | | |done].
  - unfold s', add_selector. fold state. destruct (_ || _) eqn:Hpub; [by apply build_selects|].
    apply orb_false_iff in Hpub as [Hin _]. apply bool_decide_eq_false in Hin.
    intros fields (f' & e' & Hx & Hr). apply Hsel. exists f', e'. split; [|done].
    destruct (decide (Destination f' e' = Destination f e)) as [->|Hne]; [by apply not_eq_None_Some in Hin|].
    cbn in Hx. by rewrite lookup_insert_ne in Hx by done.
  - unfold s', add_selector. by destruct (_ || _).
  - cbn. rewrite lookup_insert_eq. by eexists.
Qed.

Lemma add_destinations_ok registry l s :
  (∀ x, x ∈ l → ∃ f e, x.1 = Destination f e ∧ f <= e) → table_fresh s →
  let s' := add_destinations registry l s in
  table_fresh s' ∧ rest s' = rest s ∧ (∀ x, x ∈ l → is_Some (selectors (selector_state s') !! x.1))
  ∧ ∀ k, is_Some (selectors (selector_state s) !! k) → is_Some (selectors (selector_state s') !! k).
Proof.
  revert s. induction l as [|[sel node] l IH]; intros s Hl Hs; cbn zeta.
  { split_and!; try done. by intros x ?%elem_of_nil. }
  destruct (Hl (sel, node)) as (f & e & Hsel & Hfe); [apply list_elem_of_here|]. cbn [fst] in Hsel. subst sel.
  cbn [add_destinations foldl fst snd]. destruct (add_destination_ok registry f e node s Hfe Hs) as (Hs1 & Hr1 & Hin & Hm1).
  destruct (IH (add_selector registry (Destination f e) node s)) as (Hs2 & Hr2 & Hin2 & Hm2); [|done|].
  { intros x Hx. apply Hl. by apply elem_of_cons; right. }
  split_and!; [done|by etransitivity| |auto]. intros x [->|Hx]%elem_of_cons; [by apply Hm2|auto].
Qed.

Lemma newest_carried l k : newest ((λ kp : ReturnKey * ReturnPath, Recorded kp.1 kp.2) <$> l) k = list_to_map (M := gmap ReturnKey ReturnPath) l !! k.
Proof.
  induction l as [|[k' p] l IH]; [done|]. cbn [fmap list_fmap newest fst snd list_to_map foldr].
  destruct (decide (k' = k)) as [->|Hne]; [by rewrite lookup_insert_eq|by rewrite lookup_insert_ne].
Qed.

Lemma stays_carried l : NoDup l.*1 → stays_all ((λ kp : ReturnKey * ReturnPath, Recorded kp.1 kp.2) <$> l).
Proof.
  induction l as [|[k p] l IH]; [done|]. intros [Hk Hl]%NoDup_cons. split; [|by apply IH].
  intros q. by rewrite newest_carried, not_elem_of_list_to_map_1.
Qed.

Section started.
Context (is_interface is_ipv6 : list byte → bool) (system_root : list byte).
Context (plan : InterceptionPlan) (nodes : list (list byte * option SocketAddr)) (mtus : list EffectiveMtu)
  (options : SplitOptions) (w : World) (registry : Registry) (s : Capture).

(** What a start that succeeds was given. *)
Record started (may_exit : Ipv4Fields → Prop) : Prop := {
  st_start : start is_interface is_ipv6 system_root plan nodes mtus options w = Ret (Ok (registry, s));
  st_world : world_ok may_exit w;
  st_nodes : nodes ≠ [] ∧ Forall (λ n : list byte * option SocketAddr, zlen n.1 = 4) nodes;
  st_mtus : Forall (λ m, 20 <= unfragmented m < 2 ^ 16) mtus;
  st_carried : carried_ok (default no_flows (option_carried options))
}.

(** Every name lookup is the tunnel's. *)
Definition all_remote : Prop :=
  option_remote_dns options = true ∧ option_own_apps_only options = false ∧ option_yield_foreign_lookups options = false.

Lemma started_inv may_exit dns_closed :
  started may_exit → (dns_closed = true → all_remote) →
  registry_ok registry ∧ kill_switch registry = option_kill_switch options
  ∧ direct registry = compile (option_direct options) ∧ inv registry dns_closed (plan_covers plan is_ipv6) may_exit s [].
Proof.
  intros [Hstart Hw [Hne Hn] Hm [Hp Hf]] Hdns. unfold start in Hstart.
  set (flows := default no_flows (option_carried options)) in *.
  destruct (proxy_mask _) as [mask|]; [|done]. cbn [mbind run_bind] in Hstart. case_bool_decide as Hmtus; [done|].
  set (r := registry_of _ _ _ _ _ _ _) in *. set (s0 := capture_of w r options flows (fst <$> nodes)) in *.
  destruct (destination_selectors plan is_ipv6 (ip_networks plan)) as [[l|]|] eqn:Hl; cbn [mbind run_bind] in Hstart; [|done..].
  assert (registry_ok r) as Hr.
  { split; [by destruct mtus|]. unfold r. cbn [registry_of node_limits]. apply Forall_fmap. done. }
  destruct (add_destinations_ok r l s0) as ([Hok Hsel] & Hrest & Hin & _).
  { by eapply selectors_are_networks. }
  { split; [split|].
    - by intros f e [x Hx].
    - by intros a.
    - by intros f e.
    - by intros fields (f & e & [x Hx] & _). }
  set (s1 := add_destinations r l s0) in *.
  assert (∀ a, plan_covers plan is_ipv6 a → selector_covers (selector_state s1) a) as Hcov.
  { intros a (l' & x & f & e & Hl' & Hx & Hd & Ha). assert (l' = l) as -> by congruence. exists f, e. split; [|done].
    rewrite <-Hd. auto. }
  assert (inv r dns_closed (plan_covers plan is_ipv6) may_exit s1 []) as Hi.
  { unfold rest in Hrest. injection Hrest as H1 H2 H3 H4 H5 H6 H7 H8 H9 H10 H11. destruct Hok.
    split; rewrite ?H1, ?H2, ?H3, ?H4, ?H5, ?H6, ?H7, ?H8, ?H9, ?H10, ?H11; unfold s0, capture_of;
      cbn [world addresses SplitState.bypass bypass_queued_bytes return_paths log pending_syns SplitState.fragments redirect_dns
           dns_own_apps_only SplitState.yield_foreign_lookups]; try done.
    - split; [by destruct nodes|]. by apply Forall_fmap.
    - intros k. rewrite newest_carried, list_to_map_to_list. by destruct (carried_paths flows !! k).
    - apply stays_carried, NoDup_fst_map_to_list.
    - by intros o (kp & -> & _)%list_elem_of_fmap.
    - by intros b ?%elem_of_nil.
    - by intros b ?%elem_of_nil.
    - intros fields Hc. auto. }
  destruct (wp_exec (inv r dns_closed (plan_covers plan is_ipv6) may_exit) share
    (add_addresses r (map_to_list (retained_hostname_addresses (carried_labels flows) (hostnames plan)))) s1 [] []
    (λ _ r', plain r' ∧ [] ⊆ r' ∧ True) Hi) as (u & s2 & tokens & Hexec & Hi2 & Hplain & _).
  { by apply orderly_add_addresses. }
  rewrite Hexec in Hstart. cbn [mbind run_bind] in Hstart. injection Hstart as <- <-.
  split_and!; [done|done|done|]. by eapply capture_drop.
Qed.
End started.

Lemma stays_suffix later earlier key path :
  stays_all (later ++ Recorded key path :: earlier) → stays earlier key path ∧ stays_all earlier.
Proof. induction later as [|[] later IH]; cbn [app stays_all]; [done|try done..]. by intros [_ ?]; auto. Qed.

Lemma reserved_nonneg s tokens registry dns_closed covered may_exit :
  Forall (token_ok registry dns_closed covered s) tokens → inv registry dns_closed covered may_exit s tokens → 0 <= reserved tokens.
Proof. intros Ht _. induction Ht as [|[] l Ht _ IH]; cbn [reserved token_ok] in *; lia. Qed.

Section promises.
Context (is_interface is_ipv6 : list byte → bool) (system_root : list byte).
Context (plan : InterceptionPlan) (nodes : list (list byte * option SocketAddr)) (mtus : list EffectiveMtu)
  (options : SplitOptions) (w : World) (registry : Registry) (s : Capture) (may_exit : Ipv4Fields → Prop).
Notation started := (started is_interface is_ipv6 system_root plan nodes mtus options w registry s may_exit).

(** Whatever the threads do from a start, they end in a state of the invariant. *)
Lemma runs_keep (dns_closed : bool) events :
  started → (dns_closed = true → all_remote options) → Forall (capture_event registry dns_closed may_exit) events →
  kill_switch registry = option_kill_switch options ∧ direct registry = compile (option_direct options)
  ∧ ∃ s' pool tokens, Threads.machine_run (s, []) events = Ret (s', pool)
      ∧ inv registry dns_closed (plan_covers plan is_ipv6) may_exit s' tokens.
Proof.
  intros Hs Hd He. destruct (started_inv _ _ _ _ _ _ _ _ _ _ _ dns_closed Hs Hd) as (Hr & Hk & Hdir & Hi).
  split; [done|]. split; [done|]. by apply (capture_run_ok registry dns_closed may_exit _ Hr s events).
Qed.

(** What left as it was and is protected was found to be GamePath's own. *)
Lemma left_is_exempt dns_closed covered s' tokens packet address fields :
  inv registry dns_closed covered may_exit s' tokens → Bypassed packet address ∈ log s' →
  is_later_fragment packet = false → ipv4_fields packet = Some fields → protected registry dns_closed covered fields →
  Exempted fields ∈ log s' ∧ exempt registry may_exit fields.
Proof.
  intros [] Hb Hl Hf Hp. destruct (iv_log _ Hb) as [?|Ho]; [congruence|].
  specialize (Ho fields Hf Hp). split; [done|]. by apply iv_log in Ho.
Qed.

(** C5. Remote name resolution fails closed: from a start that asked for every lookup to be
    remote, and while nobody changes that, a captured DNS query is put back on the
    machine's own network only if it was found to be GamePath's own, which needs an
    exit's socket, a local proxy or a hostname of the session's. That holds in every
    interleaving of the capture's threads, with failing checksums, a failing tunnel
    and full queues, and no thread panics. *)
Theorem remote_lookups_fail_closed events
  (Hs : started) (Hd : all_remote options) (He : Forall (capture_event registry true may_exit) events) :
  ∃ s' pool, Threads.machine_run (s, []) events = Ret (s', pool) ∧
    ∀ packet address fields, Bypassed packet address ∈ log s' → is_later_fragment packet = false →
      ipv4_fields packet = Some fields → is_name_lookup fields = true →
      Exempted fields ∈ log s' ∧ exempt registry may_exit fields.
Proof.
  destruct (runs_keep true events Hs (λ _, Hd) He) as (_ & _ & s' & pool & tokens & Hrun & Hi).
  exists s', pool. split; [done|]. intros packet address fields Hb Hl Hf Hn.
  eapply left_is_exempt; [exact Hi|exact Hb|done|done|]. by left.
Qed.

(** C6. The kill switch holds: with it on, and no direct hostnames, a packet to a globally
    routable address that the networks of the rules cover and the direct list does not
    is never put back on the machine's own network, unless it was found to be an
    exit's or a local proxy's own; in every interleaving of the threads, and none
    panics. Two kinds of packet are not spoken of: lookups of names (to port 53), which
    the remote resolver's own setting closes and not this one, and later fragments,
    which carry no ports and go the way of their first fragment. *)
Theorem kill_switch_holds events
  (Hs : started) (Hk : option_kill_switch options = true)
  (Hd : has_domains (compile (option_direct options)) = false)
  (He : Forall (capture_event registry false may_exit) events) :
  ∃ s' pool, Threads.machine_run (s, []) events = Ret (s', pool) ∧
    ∀ packet address fields, Bypassed packet address ∈ log s' → is_later_fragment packet = false →
      ipv4_fields packet = Some fields → is_name_lookup fields = false →
      plan_covers plan is_ipv6 (SplitTable.destination fields) →
      is_globally_routable_ipv4 (SplitTable.destination fields) = true →
      contains (compile (option_direct options)) (SplitTable.destination fields) = false →
      Exempted fields ∈ log s' ∧ exempt registry may_exit fields.
Proof.
  destruct (runs_keep false events Hs ltac:(done) He) as (Hkill & Hdir & s' & pool & tokens & Hrun & Hi).
  exists s', pool. split; [done|]. intros packet address fields Hb Hl Hf Hn Hc Hg Hin.
  eapply left_is_exempt; [exact Hi|exact Hb|done|done|]. right. rewrite Hkill, Hdir. by split_and!.
Qed.

(** C7. Replies reach the sender of their flow: whatever is injected into the machine goes to
    the local address and interface that a captured packet of that flow came from,
    and, unless it is ICMP, comes from the peer that the application addressed, or
    from the resolver that a redirected lookup was sent to. *)
Theorem replies_reach_their_sender events
  (Hs : started) (He : Forall (capture_event registry false may_exit) events) :
  ∃ s' pool, Threads.machine_run (s, []) events = Ret (s', pool) ∧
    ∀ packet address, Injected packet address ∈ log s' →
      ∃ key path, Recorded key path ∈ log s' ∧ reply_of key path packet address.
Proof.
  destruct (runs_keep false events Hs ltac:(done) He) as (_ & _ & s' & pool & tokens & Hrun & Hi).
  exists s', pool. split; [done|]. intros packet address Hp. destruct Hi. by apply iv_log in Hp.
Qed.

(** A flow stays on its node: while its route is not forgotten, every packet of a process's
    flow is recorded for the node that carried the one before it, even when the rules
    or the names behind them change meanwhile. *)
Theorem flows_stay_on_their_node events
  (Hs : started) (He : Forall (capture_event registry false may_exit) events) :
  ∃ s' pool, Threads.machine_run (s, []) events = Ret (s', pool) ∧
    ∀ later earlier key path, log s' = later ++ Recorded key path :: earlier →
      stays earlier key path.
Proof.
  destruct (runs_keep false events Hs ltac:(done) He) as (_ & _ & s' & pool & tokens & Hrun & Hi).
  exists s', pool. split; [done|]. intros later earlier key path Hlog. destruct Hi. rewrite Hlog in iv_stays.
  by apply stays_suffix in iv_stays as [? _].
Qed.

(** What waits to be put back is bounded: in every interleaving no thread panics, the queue
    holds at most 2048 packets, and they and the packet being sent amount to what the
    counter says, at most 4 MiB. *)
Theorem bypass_queue_is_bounded events
  (Hs : started) (He : Forall (capture_event registry false may_exit) events) :
  ∃ s' pool sending, Threads.machine_run (s, []) events = Ret (s', pool) ∧
    zlen (SplitState.bypass s') <= BYPASS_QUEUE_DEPTH ∧ 0 <= sending ∧
    bypass_queued_bytes s' = queue_bytes (SplitState.bypass s') + sending ∧
    bypass_queued_bytes s' <= BYPASS_QUEUE_BYTES.
Proof.
  destruct (runs_keep false events Hs ltac:(done) He) as (_ & _ & s' & pool & tokens & Hrun & Hi).
  exists s', pool, (reserved tokens). destruct Hi. split_and!; try done. by eapply reserved_nonneg.
Qed.
End promises.

(** ** A session *)

Definition demo_plan : InterceptionPlan := mk_plan (str "split") (str "wfp") [] [] [str "example.com"] [str "1.2.3.0/24"] [str "udp"; str "tcp"] ∅.
Definition demo_options : SplitOptions :=
  mk_options true true false false [str "node.example.net"] None (mk_spec [str "9.9.9.0/24"] []) true.
Definition demo_world : World :=
  mk_world 0 0 (λ _ _, true) (λ _ p, Some p) (λ _ _, Ok true) (Some []) (Some []) (Some []) (λ _, None) ∅.
Definition demo_nodes : list (list byte * option SocketAddr) := [([x0a; x08; x00; x02], None)].
Definition demo_mtus : list EffectiveMtu := [for_session Relay [str "wireguard"] 1500].

Definition demo_start := start (λ _, false) (λ _, false) [] demo_plan demo_nodes demo_mtus demo_options demo_world.
Definition demo : Registry * Capture :=
  match demo_start with
  | Ret (Ok x) => x
  | _ => (mk_registry false false [] no_targets 0 None [] ∅ empty_list [] [] [] [],
          capture_of demo_world (mk_registry false false [] no_targets 0 None [] ∅ empty_list [] [] [] []) demo_options no_flows [])
  end.

(** A lookup to a resolver of the local network, and a datagram to an address of the
    rules. *)
Definition demo_lookup : list byte :=
  [x45; x00; x00; x39; x00; x01; x00; x00; x40; x11; x00; x00; xc0; xa8; x01; x05; xc0; xa8; x01; x01;
   xd0; x01; x00; x35; x00; x25; x00; x00; x12; x34; x01; x00; x00; x01; x00; x00; x00; x00; x00; x00;
   x07; x65; x78; x61; x6d; x70; x6c; x65; x03; x63; x6f; x6d; x00; x00; x01; x00; x01].
Definition demo_datagram : list byte :=
  [x45; x00; x00; x20; x00; x02; x00; x00; x40; x11; x00; x00; xc0; xa8; x01; x05; x01; x02; x03; x04;
   xd0; x02; x1f; x90; x00; x0c; x00; x00; x01; x02; x03; x04].
Definition demo_reply : list byte :=
  [x45; x00; x00; x20; x00; x02; x00; x00; x40; x11; x00; x00; x01; x02; x03; x04; x0a; x08; x00; x02;
   x1f; x90; xd0; x02; x00; x0c; x00; x00; x01; x02; x03; x04].

(** Two packets are captured while the answer to one comes back. *)
Definition demo_calls : list (program unit) :=
  [run_selected_capture demo.1 [(demo_lookup, mk_address true 7 0); (demo_datagram, mk_address true 7 0)];
   run_reply_injector demo.1 [demo_reply]; run_bypass_injector 1].
Definition demo_events : list (Threads.event Capture) :=
  (Call <$> demo_calls) ++ replicate 100 (Turn 0) ++ replicate 40 (Turn 1) ++ replicate 40 (Turn 0).

Lemma demo_started : started (λ _, false) (λ _, false) [] demo_plan demo_nodes demo_mtus demo_options demo_world demo.1 demo.2 (λ _, False).
Proof.
  split.
  - by vm_compute.
  - split; [by intros flags p p' [= <-]|]. intros fields. unfold is_exit_socket. by destruct (negb _).
  - split; [done|]. by repeat constructor.
  - by repeat constructor.
  - split; [done|]. by intros k d x Hk.
Qed.

Lemma demo_events_allowed dns_closed : Forall (capture_event demo.1 dns_closed (λ _, False)) demo_events.
Proof.
  unfold demo_events, demo_calls. repeat apply Forall_app_2; [repeat constructor|apply Forall_replicate; constructor..].
Qed.

Lemma remote_lookups_fail_closed_witness :
  ∃ s' pool, Threads.machine_run (demo.2, []) demo_events = Ret (s', pool) ∧
    ∀ packet address fields, Bypassed packet address ∈ log s' → is_later_fragment packet = false →
      ipv4_fields packet = Some fields → is_name_lookup fields = true →
      Exempted fields ∈ log s' ∧ exempt demo.1 (λ _, False) fields.
Proof.
  exact (remote_lookups_fail_closed (λ _, false) (λ _, false) [] demo_plan demo_nodes demo_mtus demo_options demo_world demo.1 demo.2 (λ _, False) demo_events demo_started ltac:(by split_and!) (demo_events_allowed true)).
Defined.

Lemma kill_switch_holds_witness :
  ∃ s' pool, Threads.machine_run (demo.2, []) demo_events = Ret (s', pool) ∧
    ∀ packet address fields, Bypassed packet address ∈ log s' → is_later_fragment packet = false →
      ipv4_fields packet = Some fields → is_name_lookup fields = false →
      plan_covers demo_plan (λ _, false) (SplitTable.destination fields) →
      is_globally_routable_ipv4 (SplitTable.destination fields) = true →
      contains (compile (option_direct demo_options)) (SplitTable.destination fields) = false →
      Exempted fields ∈ log s' ∧ exempt demo.1 (λ _, False) fields.
Proof.
  exact (kill_switch_holds (λ _, false) (λ _, false) [] demo_plan demo_nodes demo_mtus demo_options demo_world demo.1 demo.2 (λ _, False) demo_events demo_started eq_refl ltac:(by vm_compute) (demo_events_allowed false)).
Defined.

Lemma replies_reach_their_sender_witness :
  ∃ s' pool, Threads.machine_run (demo.2, []) demo_events = Ret (s', pool) ∧
    ∀ packet address, Injected packet address ∈ log s' →
      ∃ key path, Recorded key path ∈ log s' ∧ reply_of key path packet address.
Proof. exact (replies_reach_their_sender (λ _, false) (λ _, false) [] demo_plan demo_nodes demo_mtus demo_options demo_world demo.1 demo.2 (λ _, False) demo_events demo_started (demo_events_allowed false)). Defined.

Lemma flows_stay_on_their_node_witness :
  ∃ s' pool, Threads.machine_run (demo.2, []) demo_events = Ret (s', pool) ∧
    ∀ later earlier key path, log s' = later ++ Recorded key path :: earlier → stays earlier key path.
Proof. exact (flows_stay_on_their_node (λ _, false) (λ _, false) [] demo_plan demo_nodes demo_mtus demo_options demo_world demo.1 demo.2 (λ _, False) demo_events demo_started (demo_events_allowed false)). Defined.

Lemma bypass_queue_is_bounded_witness :
  ∃ s' pool sending, Threads.machine_run (demo.2, []) demo_events = Ret (s', pool) ∧
    zlen (SplitState.bypass s') <= BYPASS_QUEUE_DEPTH ∧ 0 <= sending ∧
    bypass_queued_bytes s' = queue_bytes (SplitState.bypass s') + sending ∧
    bypass_queued_bytes s' <= BYPASS_QUEUE_BYTES.
Proof. exact (bypass_queue_is_bounded (λ _, false) (λ _, false) [] demo_plan demo_nodes demo_mtus demo_options demo_world demo.1 demo.2 (λ _, False) demo_events demo_started (demo_events_allowed false)). Defined.
