(* ===== verification/PathMtu.v ===== *)
(** * Measuring the path MTU

    Models [engine/src/path_mtu.rs] (echo requests that may not be fragmented,
    narrowed by bisection until one gets through) and
    [engine/src/session/path_mtu.rs] (one measurement per endpoint on a thread of
    its own, the narrowest path refining the session's MTU, and the capture side
    that waits for it). The clock, [sleep] and the system's ICMP call are the
    class [EchoHost] over a world of its own; [EchoLaws] is what their
    documentation says of them. *)
From S2P Require Import SplitFlows Prelude Mtu.

Definition FLOOR : Z := MIN_TUNNEL_MTU.
Definition PRECISION : Z := 8.
Definition ECHO_HEADERS : Z := 28.
Definition FIRST_ECHO_TIMEOUT : Z := ms 800.
Definition MIN_ECHO_TIMEOUT : Z := ms 150.
Definition RETRY_DELAY : Z := ms 100.

(** ** search

    [fits] is the closure: it threads a state of its own. *)

Section search.
Context {S : Type} (fits : Z → S → option bool * S).

(** The [while] loop, [None] for no fuel left (see [bisect_spec]). *)
Fixpoint bisect (fuel : nat) (fitting too_big : Z) (s : S) : option (option Z * S) :=
  match fuel with
  | O => None
  | Datatypes.S fuel =>
      if too_big - fitting <=? PRECISION then Some (Some fitting, s) else
      let middle := fitting + (too_big - fitting) / 2 in
      match fits middle s with
      | (None, s) => Some (Some fitting, s)
      | (Some true, s) => bisect fuel middle too_big s
      | (Some false, s) => bisect fuel fitting middle s
      end
  end.

(** Sixteen halvings bring any [u16] interval under [PRECISION]. *)
Definition BISECT_FUEL : nat := 16.

Definition search (link_mtu : Z) (s : S) : option (option Z * S) :=
  if link_mtu <=? FLOOR then Some (Some link_mtu, s) else
  match fits link_mtu s with
  | (None, s) => Some (None, s)
  | (Some true, s) => Some (Some link_mtu, s)
  | (Some false, s) =>
      match fits FLOOR s with
      | (Some true, s) => bisect BISECT_FUEL FLOOR link_mtu s
      | (_, s) => Some (None, s)
      end
  end.
End search.

(** ** echo, measure *)

(** What the process asks of the system. [icmp] is [IcmpSendEcho] with Don't
    Fragment set: [None] when no handle could be had, [Some None] for no reply,
    or the reply's status, data size and round trip in milliseconds. *)
Class EchoHost (W : Type) : Type := {
  now : W → Z * W;
  sleep : Z → W → W;
  icmp : list byte → Z → Z → W → option (option (Z * Z * Z)) * W
}.

(** [time w] is the moment world [w] is at: [Instant] never goes back, [sleep]
    lasts at least as long as asked, and a whole reply to an unfragmentable
    request of [size] bytes means the path carries [size]. *)
Class EchoLaws (W : Type) `{EchoHost W} : Type := {
  time : W → Z;
  carries : list byte → Z → Prop;
  now_law : ∀ w, time w <= (now w).1 <= time (now w).2;
  sleep_law : ∀ d w, time w + d <= time (sleep d w);
  icmp_time : ∀ a p t w, time w <= time (icmp a p t w).2;
  icmp_whole : ∀ a p t w rtt, (icmp a p t w).1 = Some (Some (0, p, rtt)) → carries a (p + 28)
}.

Section measure.
Context {W : Type} `{EchoHost W}.

Definition timeout_ms (timeout : Z) : Z := Z.max 1 (Z.min (timeout / ms 1) (2 ^ 32 - 1)).

Definition echo (destination : list byte) (size timeout : Z) (w : W) : option (option Z) * W :=
  if size <? ECHO_HEADERS then (None, w) else
  let payload := size - ECHO_HEADERS in
  match icmp destination payload (timeout_ms timeout) w with
  | (None, w) => (None, w)
  | (Some None, w) => (Some None, w)
  | (Some (Some (status, data_size, rtt)), w) =>
      (Some (if (status =? 0) && (data_size =? payload) then Some (ms rtt) else None), w)
  end.

(** The closure [measure] hands to [search]; its state is [timeout] and the world. *)
Definition probe_size (destination : list byte) (deadline size : Z) (s : Z * W) : option bool * (Z * W) :=
  let '(timeout, w) := s in
  let '(t, w) := now w in
  if deadline <=? t then (None, (timeout, w)) else
  match echo destination size (Z.min timeout (deadline - t)) w with
  | (None, w) => (None, (timeout, w))
  | (Some (Some round_trip), w) =>
      (Some true, (clamp (round_trip * 3) MIN_ECHO_TIMEOUT FIRST_ECHO_TIMEOUT, w))
  | (Some None, w) => (Some false, (timeout, w))
  end.

Fixpoint retry_unknown (fuel : nat) (deadline : Z) (attempt : Z * W → option (option Z * (Z * W)))
    (s : Z * W) : option (option Z * (Z * W)) :=
  match fuel with
  | O => None
  | S fuel =>
      match attempt s with
      | None => None
      | Some (Some mtu, s) => Some (Some mtu, s)
      | Some (None, (timeout, w)) =>
          let '(t, w) := now w in
          if Z.max 0 (deadline - t) <=? RETRY_DELAY then Some (None, (timeout, w))
          else retry_unknown fuel deadline attempt (timeout, sleep RETRY_DELAY w)
      end
  end.

(** Every attempt but the last costs [RETRY_DELAY] of the budget. *)
Definition attempts (budget : Z) : nat := Z.to_nat (budget / RETRY_DELAY + 2).

Definition measure (destination : list byte) (link_mtu budget : Z) (w : W) : option (option Z * W) :=
  let '(t, w) := now w in
  let deadline := t + budget in
  match retry_unknown (attempts budget) deadline (search (probe_size destination deadline) link_mtu)
          (FIRST_ECHO_TIMEOUT, w) with
  | Some (r, (_, w)) => Some (r, w)
  | None => None
  end.
End measure.

(** ** SessionMtu

    [OnceLock] is [measured]; [completion] says whether the receiver is still
    there to wait on. The measuring thread's progress is part of the state: it
    publishes at most once and then drops its sender, which is also what a panic
    does. [clock] is the time. *)

Definition MEASURE_BUDGET : Z := secs 2.
Definition PROBE_BUDGET : Z := ms 1800.

Inductive Measuring : Type := Measures | Published | Dropped.

Record SessionMtu : Type := mk_session_mtu {
  derived : EffectiveMtu;
  measured : option EffectiveMtu;
  completion : bool;
  deadline : Z;
  thread : Measuring;
  clock : Z
}.

(** [dedup] of a sorted vector. *)
Fixpoint dedup (l : list (list byte)) : list (list byte) :=
  match l with
  | a :: ((b :: _) as l') => if bool_decide (a = b) then dedup l' else a :: dedup l'
  | _ => l
  end.

Definition measured_endpoints (endpoints : list (list byte)) : list (list byte) :=
  dedup (sort_by be_Z (filter (λ a, is_globally_routable_ipv4 a = true) endpoints)).

(** [probe] is what one endpoint's thread came back with, a panic being [None]. *)
Definition measure_paths (probe : list byte → option Z) (endpoints : list (list byte))
    : list (list byte * option Z) := (λ a, (a, probe a)) <$> endpoints.

Definition narrowest (l : list (list byte * option Z)) : option (list byte * Z) :=
  min_by snd (omap (λ p, (λ m, (p.1, m)) <$> p.2) l).

(** What the measuring thread leaves in the slot. *)
Definition refine (derive : Z → EffectiveMtu) (from : EffectiveMtu)
    (l : list (list byte * option Z)) : option EffectiveMtu :=
  match narrowest l with
  | None => None
  | Some (_, path) =>
      let refined := derive path in
      if unfragmented from <=? unfragmented refined then None else Some refined
  end.

(** [SessionMtu::measure] at time [t]; [spawned] is whether the thread started. *)
Definition start_measuring (from : EffectiveMtu) (endpoints : list (list byte)) (spawned : bool) (t : Z)
    : SessionMtu :=
  let waits := negb (bool_decide (measured_endpoints endpoints = [])) in
  mk_session_mtu from None waits (t + MEASURE_BUDGET) (if waits && spawned then Measures else Dropped) t.

(** What happens beside the session: time passes, the thread with outcome
    [refined] publishes it and ends, or panics. *)
Inductive beside (refined : option EffectiveMtu) : SessionMtu → SessionMtu → Prop :=
  | Passes m d : 0 <= d →
      beside refined m (mk_session_mtu (derived m) (measured m) (completion m) (deadline m) (thread m) (clock m + d))
  | Publishes m : thread m = Measures →
      beside refined m (mk_session_mtu (derived m) (match measured m with Some e => Some e | None => refined end)
                          (completion m) (deadline m) Published (clock m))
  | Drops m : thread m = Published →
      beside refined m (mk_session_mtu (derived m) (measured m) (completion m) (deadline m) Dropped (clock m))
  | Panics m : thread m = Measures →
      beside refined m (mk_session_mtu (derived m) (measured m) (completion m) (deadline m) Dropped (clock m)).

Definition current (m : SessionMtu) : EffectiveMtu := default (derived m) (measured m).

Definition take_completion (m : SessionMtu) : SessionMtu :=
  mk_session_mtu (derived m) (measured m) false (deadline m) (thread m) (clock m).

(** [recv_timeout] comes back as soon as the sender is gone, or the clock reads
    [limit]: until then what happens beside it goes on, and no step of that reaches
    past the limit (the timer is exact; what the operating system adds to a timeout
    is not the code's). *)
Inductive wait_until (refined : option EffectiveMtu) (limit : Z) : SessionMtu → SessionMtu → Prop :=
  | Hung_up m : thread m = Dropped → wait_until refined limit m m
  | Timed_out m : limit <= clock m → wait_until refined limit m m
  | Waiting m m1 m' :
      thread m ≠ Dropped → clock m < limit → beside refined m m1 → clock m1 <= limit →
      wait_until refined limit m1 m' → wait_until refined limit m m'.

Definition recv_timeout (refined : option EffectiveMtu) (timeout : Z) (m m' : SessionMtu) : Prop :=
  wait_until refined (clock m + timeout) m m'.

Inductive for_capture (refined : option EffectiveMtu) (m : SessionMtu) : SessionMtu → EffectiveMtu → Prop :=
  | Captures_at_once : completion m = false → for_capture refined m m (current m)
  | Captures_after m' :
      completion m = true →
      (let remaining := sat_sub (deadline m) (clock m) in
       recv_timeout refined remaining (take_completion m) m') →
      for_capture refined m m' (current m').

(** The session's life: what happens beside it, and captures being started. *)
Inductive session_step (refined : option EffectiveMtu) : SessionMtu → SessionMtu → Prop :=
  | Beside m m' : beside refined m m' → session_step refined m m'
  | Capture m m' e : for_capture refined m m' e → session_step refined m m'.

(** [probe.join().ok().flatten()] of the thread measuring [a] in a world of its own. *)
Definition join_probe {W} `{EchoHost W} (link_mtu : Z) (worlds : list byte → W) (a : list byte) : option Z :=
  match measure a link_mtu PROBE_BUDGET (worlds a) with Some (r, _) => r | None => None end.

(** ** Proofs *)

Section search_proofs.
Context {S : Type} (fits : Z → S → option bool * S) (ok : Z → Prop) (count : S → Z).
Hypothesis fits_ok : ∀ m s, (fits m s).1 = Some true → ok m.
Hypothesis fits_count : ∀ m s, count (fits m s).2 <= count s + 1.

(** The path answers every probe and carries exactly the sizes up to [real]. *)
Definition steady (real : Z) : Prop := ∀ m s, (fits m s).1 = Some (m <=? real).

Lemma bisect_spec n : ∀ fuel f t s,
  (n < fuel)%nat → f < t → t - f <= 8 * 2 ^ Z.of_nat n → ok f →
  ∃ r s', bisect fits fuel f t s = Some (Some r, s') ∧ ok r ∧ f <= r < t ∧ count s' <= count s + Z.of_nat n ∧
    ∀ real, steady real → f <= real < t → real - 8 < r <= real.
Proof.
  induction n as [|n IH]; intros [|fuel] f t s Hn Hft Hd Hok; try lia; cbn [bisect].
  - rewrite (proj2 (Z.leb_le (t - f) PRECISION)) by (unfold PRECISION; lia).
    exists f, s. repeat split; try done; lia.
  - destruct (Z.leb_spec (t - f) PRECISION) as [Hp|Hp].
    { unfold PRECISION in Hp. exists f, s. repeat split; try done; lia. }
    unfold PRECISION in Hp. set (mid := f + (t - f) / 2).
    assert (f + 1 <= mid /\ mid + 1 <= t /\ 2 * (mid - f) <= t - f /\ 2 * (t - mid) <= t - f + 1) as Hm
      by (subst mid; pose proof (Z.div_mod (t - f) 2 ltac:(lia)); pose proof (Z.mod_pos_bound (t - f) 2); lia).
    assert (2 ^ Z.of_nat (Datatypes.S n) = 2 * 2 ^ Z.of_nat n) as E
      by (rewrite Nat2Z.inj_succ, Z.pow_succ_r; lia).
    pose proof (fits_ok mid s) as Ho. pose proof (fits_count mid s) as Hc.
    destruct (fits mid s) as [[[]|] s1] eqn:Ef; cbn [fst snd] in Ho, Hc.
    + destruct (IH fuel mid t s1) as (r & s' & -> & Hr & Hb & Hk & Hs); [lia|lia|lia|by apply Ho|].
      exists r, s'. split_and!; try done; [lia..|]. intros real Hreal Hin. apply Hs; [done|].
      pose proof (Hreal mid s) as Hx. rewrite Ef in Hx. cbn [fst] in Hx. injection Hx as Hx. b2p. lia.
    + destruct (IH fuel f mid s1) as (r & s' & -> & Hr & Hb & Hk & Hs); [lia|lia|lia|done|].
      exists r, s'. split_and!; try done; [lia..|]. intros real Hreal Hin. apply Hs; [done|].
      pose proof (Hreal mid s) as Hx. rewrite Ef in Hx. cbn [fst] in Hx. injection Hx as Hx. b2p. lia.
    + exists f, s1. split_and!; try done; [lia..|]. intros real Hreal Hin.
      pose proof (Hreal mid s) as Hx. by rewrite Ef in Hx.
Qed.

(** [search] comes back, within [n + 2] echoes for a link [8 * 2^n] above the
    floor; a size it returns was confirmed, unless the link is already there. *)
Lemma search_spec n link s :
  (n < BISECT_FUEL)%nat → link - FLOOR <= 8 * 2 ^ Z.of_nat n →
  ∃ r s', search fits link s = Some (r, s') ∧ count s' <= count s + Z.of_nat n + 2 ∧
    (∀ m, r = Some m → m <= link ∧ (m = link ∧ link <= FLOOR ∨ ok m ∧ FLOOR <= m)) ∧
    ∀ real, steady real → FLOOR <= real →
      ∃ m, r = Some m ∧ Z.min link real - 8 < m <= link ∧ (FLOOR < link → m <= real).
Proof.
  intros Hn Hl. unfold search. destruct (Z.leb_spec link FLOOR) as [Hf|Hf].
  { exists (Some link), s. split; [done|]. split; [lia|]. split.
    - intros m [= <-]. split; [lia|by left].
    - intros real _ Hr. exists link. split; [done|]. split; lia. }
  pose proof (fits_ok link s) as Ho. pose proof (fits_count link s) as Hc.
  pose proof (λ real (H : steady real), H link s) as Hx.
  destruct (fits link s) as [[[]|] s1] eqn:Ef; cbn [fst snd] in Ho, Hc, Hx.
  - exists (Some link), s1. split; [done|]. split; [lia|]. split.
    + intros m [= <-]. split; [lia|]. right. split; [by apply Ho|lia].
    + intros real Hreal Hr. exists link. specialize (Hx _ Hreal). injection Hx as Hx. b2p.
      split; [done|]. split; lia.
  - pose proof (fits_ok FLOOR s1) as Ho'. pose proof (fits_count FLOOR s1) as Hc'.
    pose proof (λ real (H : steady real), H FLOOR s1) as Hx'.
    destruct (fits FLOOR s1) as [[[]|] s2] eqn:Ef'; cbn [fst snd] in Ho', Hc', Hx'.
    + destruct (bisect_spec n BISECT_FUEL FLOOR link s2) as (r & s' & -> & Hr & Hb & Hk & Hs);
        [done|lia|lia|by apply Ho'|].
      exists (Some r), s'. split; [done|]. split; [lia|]. split.
      * intros m [= <-]. split; [lia|]. right. split; [done|lia].
      * intros real Hreal Hfl. exists r. specialize (Hx _ Hreal). injection Hx as Hx. b2p.
        destruct (Hs real Hreal); [lia|]. split; [done|]. split; lia.
    + exists None, s2. split; [done|]. split; [lia|]. split; [done|].
      intros real Hreal Hfl. specialize (Hx' _ Hreal). injection Hx' as Hx'. b2p. lia.
    + exists None, s2. split; [done|]. split; [lia|]. split; [done|].
      intros real Hreal Hfl. specialize (Hx' _ Hreal). done.
  - exists None, s1. split; [done|]. split; [lia|]. split; [done|].
    intros real Hreal Hfl. specialize (Hx _ Hreal). done.
Qed.
End search_proofs.

(** Whatever every probe does to the state, the whole search does. *)
Section search_steps.
Context {S : Type} (fits : Z → S → option bool * S) (R : relation S) `{!PreOrder R}.
Hypothesis fits_steps : ∀ m s, R s (fits m s).2.

Lemma bisect_steps fuel : ∀ f t s r s', bisect fits fuel f t s = Some (r, s') → R s s'.
Proof.
  induction fuel as [|fuel IH]; intros f t s r s'; cbn [bisect]; [done|].
  destruct (_ <=? _); [by intros [= _ ->]|]. pose proof (fits_steps (f + (t - f) / 2) s) as Hs.
  destruct (fits _ s) as [[[]|] s1]; cbn [snd] in Hs.
  - intros Hb%IH. by etrans.
  - intros Hb%IH. by etrans.
  - by intros [= _ <-].
Qed.

Lemma search_steps link s r s' : search fits link s = Some (r, s') → R s s'.
Proof.
  unfold search. destruct (_ <=? _); [by intros [= _ ->]|].
  pose proof (fits_steps link s) as Hs. destruct (fits link s) as [[[]|] s1]; cbn [snd] in Hs.
  - by intros [= _ <-].
  - pose proof (fits_steps FLOOR s1) as Hs'. destruct (fits FLOOR s1) as [[[]|] s2]; cbn [snd] in Hs'.
    + intros Hb%bisect_steps. by do 2 (etrans; [done|]).
    + intros [= _ <-]. by etrans.
    + intros [= _ <-]. by etrans.
  - by intros [= _ <-].
Qed.
End search_steps.

Section measure_proofs.
Context {W : Type} `{EchoLaws W}.

Lemma echo_spec a size timeout w :
  time w <= time (echo a size timeout w).2 ∧
  (∀ rtt, (echo a size timeout w).1 = Some (Some rtt) → carries a size).
Proof.
  unfold echo. destruct (_ <? _); [done|]. set (p := size - ECHO_HEADERS).
  pose proof (icmp_time a p (timeout_ms timeout) w) as Ht.
  pose proof (icmp_whole a p (timeout_ms timeout) w) as Hw.
  destruct (icmp a p _ w) as [[[[[status size'] rtt]|]|] w']; cbn [fst snd] in *; try done.
  split; [done|]. intros rtt' [= E]. destruct (_ && _) eqn:Eb; [|done]. b2p. subst status size'.
  replace size with (p + 28) by (subst p; unfold ECHO_HEADERS; lia). by apply (Hw rtt).
Qed.

Lemma probe_size_spec a deadline size s :
  time s.2 <= time (probe_size a deadline size s).2.2 ∧
  ((probe_size a deadline size s).1 = Some true → carries a size).
Proof.
  destruct s as [timeout w]. unfold probe_size. pose proof (now_law w) as Hn.
  destruct (now w) as [t w1]. cbn [fst snd] in Hn. destruct (_ <=? _); [cbn; split; [lia|done]|].
  destruct (echo_spec a size (Z.min timeout (deadline - t)) w1) as [Ht Hc].
  destruct (echo a size _ w1) as [[[rtt|]|] w2]; cbn [fst snd] in *; (split; [lia|]); try done.
  intros _. by apply (Hc rtt).
Qed.

Lemma retry_unknown_eq fuel dl attempt s :
  retry_unknown (Datatypes.S fuel) dl attempt s =
  match attempt s with
  | None => None
  | Some (Some mtu, s) => Some (Some mtu, s)
  | Some (None, (timeout, w)) =>
      let '(t, w) := now w in
      if Z.max 0 (dl - t) <=? RETRY_DELAY then Some (None, (timeout, w))
      else retry_unknown fuel dl attempt (timeout, sleep RETRY_DELAY w)
  end.
Proof. done. Qed.

(** Each attempt comes back without going back in time; the fuel is then a
    number of retries the budget has room for. *)
Lemma retry_unknown_returns deadline attempt (Q : Z → Prop) :
  (∀ s, ∃ r s', attempt s = Some (r, s') ∧ time s.2 <= time s'.2 ∧ ∀ m, r = Some m → Q m) →
  ∀ n timeout w, deadline - time w <= RETRY_DELAY * (Z.of_nat n + 1) →
  ∃ r s', retry_unknown (Datatypes.S n) deadline attempt (timeout, w) = Some (r, s') ∧
    time w <= time s'.2 ∧ ∀ m, r = Some m → Q m.
Proof.
  intros Ha. assert (0 < RETRY_DELAY) as Hr by done. set (R := RETRY_DELAY) in *.
  induction n as [|n IH]; intros timeout w Hd; rewrite retry_unknown_eq;
    destruct (Ha (timeout, w)) as ([m|] & [timeout' w1] & -> & Ht & Hq); cbn [snd] in Ht;
    try (by exists (Some m), (timeout', w1));
    pose proof (now_law w1) as Hn; destruct (now w1) as [t w2]; cbn [fst snd] in Hn; fold R.
  - rewrite (proj2 (Z.leb_le (Z.max 0 (deadline - t)) R)) by lia.
    exists None, (timeout', w2). split; [done|]. cbn [snd]. split; [lia|done].
  - destruct (_ <=? R); [exists None, (timeout', w2); split; [done|]; cbn [snd]; split; [lia|done]|].
    pose proof (sleep_law R w2) as Hs.
    destruct (IH timeout' (sleep R w2)) as (r & s' & -> & Ht' & Hq'); [lia|].
    exists r, s'. split; [done|]. split; [lia|done].
Qed.

Definition later (s s' : Z * W) : Prop := time s.2 <= time s'.2.

#[local] Instance later_preorder : PreOrder later.
Proof. unfold later. split; [intros s|intros s1 s2 s3]; lia. Qed.

(** What [measure] settles on: a confirmed size, or a link already at the floor. *)
Definition got_through (a : list byte) (link m : Z) : Prop :=
  m <= link ∧ (carries a m ∧ FLOOR <= m ∨ m = link ∧ link <= FLOOR).

Lemma measure_returns a link budget w :
  link <= 65535 → 0 <= budget →
  ∃ r w', measure a link budget w = Some (r, w') ∧ time w <= time w' ∧ ∀ m, r = Some m → got_through a link m.
Proof.
  intros Hl Hb. unfold measure. pose proof (now_law w) as Hn. destruct (now w) as [t w1]. cbn [fst snd] in Hn.
  destruct (retry_unknown_returns (t + budget) (search (probe_size a (t + budget)) link) (got_through a link))
    with (n := Z.to_nat (budget / RETRY_DELAY + 1)) (timeout := FIRST_ECHO_TIMEOUT) (w := w1)
    as (r & [timeout' w'] & E & Ht & Hq).
  - intros s. destruct (search_spec (probe_size a (t + budget)) (carries a) (λ _, 0)) with (n := 15%nat) (link := link) (s := s)
      as (r & s' & E & _ & Hm & _); [intros ? ?; apply probe_size_spec|done|unfold BISECT_FUEL; lia| |].
    { change (8 * 2 ^ Z.of_nat 15) with 262144. change FLOOR with 1280. lia. }
    exists r, s'. split; [done|]. split.
    + apply (search_steps _ later) in E; [done|]. intros. apply probe_size_spec.
    + intros m Er. destruct (Hm m Er) as (? & [[-> ?]|?]); (split; [lia|]); [by right|by left].
  - pose proof (Z.div_pos budget RETRY_DELAY Hb ltac:(done)).
    rewrite Z2Nat.id by lia. pose proof (Z.mul_succ_div_gt budget RETRY_DELAY ltac:(done)).
    unfold RETRY_DELAY, ms in *. lia.
  - replace (attempts budget) with (Datatypes.S (Z.to_nat (budget / RETRY_DELAY + 1))).
    + rewrite E. exists r, w'. split; [done|]. cbn [snd] in Ht. split; [lia|done].
    + unfold attempts. pose proof (Z.div_pos budget RETRY_DELAY Hb ltac:(done)). lia.
Qed.
End measure_proofs.

(** ** The session's slot *)

Lemma dedup_elem l a : a ∈ dedup l ↔ a ∈ l.
Proof.
  induction l as [|b [|c l] IH]; [done..|]. change (dedup (b :: c :: l)) with
    (if bool_decide (b = c) then dedup (c :: l) else b :: dedup (c :: l)).
  case_bool_decide as E.
  - subst b. rewrite IH, !elem_of_cons. tauto.
  - rewrite elem_of_cons, IH, (elem_of_cons (c :: l)). done.
Qed.

Lemma measured_endpoints_elem l a : a ∈ measured_endpoints l ↔ a ∈ l ∧ is_globally_routable_ipv4 a = true.
Proof.
  unfold measured_endpoints. rewrite dedup_elem, (sort_by_perm be_Z), list_elem_of_filter. tauto.
Qed.

Lemma narrowest_least probe l a p :
  a ∈ l → probe a = Some p →
  ∃ a' q, narrowest (measure_paths probe l) = Some (a', q) ∧ a' ∈ l ∧ probe a' = Some q ∧ q <= p.
Proof.
  intros Ha Hp. unfold narrowest, measure_paths.
  set (k := omap _ _). assert (∀ x, x ∈ k ↔ x.1 ∈ l ∧ probe x.1 = Some x.2) as Hk.
  { intros [b q]. subst k. rewrite list_elem_of_omap. cbn [fst snd]. split.
    - intros ([b' r] & Hb & E). apply list_elem_of_fmap in Hb as (c & [= -> ->] & Hc). cbn [fst snd] in E.
      destruct (probe c) eqn:Ec; [|done]. by injection E as -> ->.
    - intros [Hb Eb]. exists (b, Some q). split; [|done]. apply list_elem_of_fmap. exists b. by rewrite Eb. }
  pose proof (min_by_spec snd k) as Hm. destruct (min_by snd k) as [[a' q]|].
  - destruct Hm as [Hin Hle]. exists a', q. apply Hk in Hin as [? ?]. split_and!; try done.
    apply (Hle (a, p)). by apply Hk.
  - exfalso. assert ((a, p) ∈ k) as Hin by by apply Hk. rewrite Hm in Hin. by apply elem_of_nil in Hin.
Qed.

(** The slot is empty or holds what the thread found, and what a session
    derived never changes. *)
Definition slot_ok (from : EffectiveMtu) (refined : option EffectiveMtu) (m : SessionMtu) : Prop :=
  derived m = from ∧ (measured m = None ∨ measured m = refined).

(** What was published stays, and the deadline is fixed at the start. *)
Definition kept (m m' : SessionMtu) : Prop :=
  (∀ e, measured m = Some e → measured m' = Some e) ∧ deadline m' = deadline m ∧ clock m <= clock m'.

#[local] Instance kept_preorder : PreOrder kept.
Proof.
  unfold kept. split; [by intros m|].
  intros m1 m2 m3 (Ha & Hb & Hc) (Ha' & Hb' & Hc'). split; [by eauto|]. split; [congruence|lia].
Qed.

Section slot.
Context (from : EffectiveMtu) (refined : option EffectiveMtu).

Lemma beside_ok m m' : beside refined m m' → slot_ok from refined m → slot_ok from refined m' ∧ kept m m'.
Proof.
  unfold slot_ok, kept. intros Hb [Hd Hs]. destruct Hb as [m d Hd'|m Ht|m Ht|m Ht]; cbn [derived measured deadline clock];
    (split; [split; [done|]|split; [|split; [done|lia]]]); try done.
  - destruct Hs as [->| ->]; [by right|]. by destruct refined; right.
  - intros e ->. done.
Qed.

Lemma besides_ok m m' : rtc (beside refined) m m' → slot_ok from refined m → slot_ok from refined m' ∧ kept m m'.
Proof.
  induction 1 as [m|m1 m2 m3 Hb _ IH]; intros Hs; [by split|].
  destruct (beside_ok _ _ Hb Hs) as [Hs' Hk]. destruct (IH Hs') as [Hs'' Hk']. split; [done|by etrans].
Qed.

(** A wait is steps of what is beside, ends for a reason, and ends in time. *)
Lemma wait_spec limit m m' : wait_until refined limit m m' →
  rtc (beside refined) m m' ∧ (thread m' = Dropped ∨ limit <= clock m') ∧ clock m' <= Z.max (clock m) limit.
Proof.
  induction 1 as [m Hd|m Hl|m m1 m' _ Hlt Hb Hle _ (IH1 & IH2 & IH3)].
  - split_and!; [done|by left|lia].
  - split_and!; [done|by right|lia].
  - split_and!; [by eapply rtc_l|done|]. lia.
Qed.

(** It can always end. *)
Lemma wait_ends limit m : ∃ m', wait_until refined limit m m'.
Proof.
  destruct (decide (limit <= clock m)) as [Hl|Hl]; [exists m; by constructor 2|].
  destruct (thread m) eqn:Hd; [..|exists m; by constructor 1].
  all: eexists; eapply Waiting; [congruence|lia|apply (Passes _ _ (limit - clock m)); lia|cbn; lia|].
  all: constructor 2; cbn; lia.
Qed.

Lemma capture_returns m : ∃ m' e, for_capture refined m m' e.
Proof.
  destruct (completion m) eqn:E; [|exists m, (current m); by constructor].
  destruct (wait_ends (clock (take_completion m) + sat_sub (deadline m) (clock m)) (take_completion m)) as [m' Hm'].
  exists m', (current m'). by constructor.
Qed.

Lemma capture_ok m m' e : for_capture refined m m' e → slot_ok from refined m →
  slot_ok from refined m' ∧ kept m m' ∧ e = current m'.
Proof.
  intros [Hc|m1 Hc (Hr & _)%wait_spec] Hs; [by split_and!|].
  destruct (besides_ok (take_completion m) m1 Hr Hs) as [Hs' Hk]. by split_and!.
Qed.

Lemma session_ok m m' : rtc (session_step refined) m m' → slot_ok from refined m → slot_ok from refined m' ∧ kept m m'.
Proof.
  induction 1 as [m|m1 m2 m3 Hb _ IH]; intros Hs; [by split|].
  assert (slot_ok from refined m2 ∧ kept m1 m2) as [Hs' Hk].
  { destruct Hb as [m1 m2 Hb|m1 m2 e Hb]; [by apply beside_ok|].
    by destruct (capture_ok _ _ _ Hb Hs) as (? & ? & _). }
  destruct (IH Hs') as [Hs'' Hk']. split; [done|by etrans].
Qed.
End slot.

(** ** Properties *)

(** [search] is exact to [PRECISION] in seven echoes: over a path that answers
    every echo and carries exactly the sizes up to [real], whatever the closure's
    state does, a link of at most 1500 bytes is settled with a size the path
    carries that is less than eight bytes below the largest it could be. *)
Theorem search_is_precise {S} (fits : Z → S → option bool * S) (count : S → Z) real link s
  (Hcount : ∀ m s, count (fits m s).2 <= count s + 1)
  (Hsteady : ∀ m s, (fits m s).1 = Some (m <=? real))
  (Hreal : FLOOR <= real) (Hlink : FLOOR < link <= LINK_MTU) :
  ∃ m s', search fits link s = Some (Some m, s') ∧ Z.min link real - PRECISION < m <= Z.min link real ∧
    count s' <= count s + 7.
Proof.
  destruct (search_spec fits (λ _, True) count (λ _ _ _, I) Hcount 5 link s) as (r & s' & -> & Hc & _ & Hs).
  - unfold BISECT_FUEL. lia.
  - change FLOOR with 1280 in *. change LINK_MTU with 1500 in *. change (8 * 2 ^ Z.of_nat 5) with 256. lia.
  - destruct (Hs real Hsteady Hreal) as (m & -> & Hm & Hml). exists m, s'. split; [done|].
    change PRECISION with 8. specialize (Hml ltac:(lia)). split; lia.
Qed.

Lemma search_is_precise_witness :
  ∃ m s', search (λ m (n : Z), (Some (m <=? 1380), n + 1)) 1500 0 = Some (Some m, s') ∧
    Z.min 1500 1380 - PRECISION < m <= Z.min 1500 1380 ∧ s' <= 0 + 7.
Proof.
  apply (search_is_precise (λ m (n : Z), (Some (m <=? 1380), n + 1)) id 1380 1500 0).
  - intros m n. cbn. unfold id. lia.
  - done.
  - done.
  - done.
Defined.

(** C40. A measurement always comes back, whatever the network answers: within its
    retries for any clock that moves on, and only with a size that an
    unfragmented echo of exactly that size confirmed, never above the link and
    never below the tunnel's floor, unless the link is already there. *)
Theorem measurement_settles {W} `{EchoLaws W} a link budget (w : W)
  (Hlink : link <= 65535) (Hbudget : 0 <= budget) :
  ∃ r w', measure a link budget w = Some (r, w') ∧ time w <= time w' ∧
    ∀ m, r = Some m → m <= link ∧ (carries a m ∧ FLOOR <= m ∨ m = link ∧ link <= FLOOR).
Proof. by apply measure_returns. Qed.

(** C39. The size capture starts with fits every measured path, of an interface of more
    than 1,280 and at most 1,500 bytes: for any order of measuring, publishing,
    panicking and waiting, each capture gets the MTU the session derived or the
    refined one, never a larger one, a published figure stays, and a capture always
    comes back, at the latest by the deadline fixed when measuring began, or at once
    when that has passed, and earlier only when the measuring has ended or another
    capture had waited for it. Once the slot holds the outcome, every packet up to the
    size capture was given goes out whole on every measured endpoint's path, whatever
    the transport, provided the narrowest path leaves the tunnel as much as the least
    size that is signalled. *)
Theorem capture_fits_every_measured_path {W} `{EchoLaws W} (worlds : list byte → W)
  mode kinds provider link endpoints spawned t
  (Hlink : FLOOR < link <= LINK_MTU) :
  let derive l := with_tunnel_limit (for_session mode kinds l) provider in
  let paths := measure_paths (join_probe link worlds) (measured_endpoints endpoints) in
  let refined := refine derive (derive link) paths in
  ∀ m m' e,
    rtc (session_step refined) (start_measuring (derive link) endpoints spawned t) m →
    for_capture refined m m' e →
    (e = derive link ∨ refined = Some e) ∧ unfragmented e <= unfragmented (derive link) ∧
    (∀ e', measured m = Some e' → e = e') ∧
    (thread m' = Dropped ∨ completion m = false ∨ t + MEASURE_BUDGET <= clock m') ∧
    clock m <= clock m' <= Z.max (clock m) (t + MEASURE_BUDGET) ∧
    (∀ m1, ∃ m2 e2, for_capture refined m1 m2 e2) ∧
    (measured m' = refined →
     (∀ a q, narrowest paths = Some (a, q) → MIN_SIGNALLED_MTU <= budget (derive q)) →
     ∀ a p, a ∈ endpoints → is_globally_routable_ipv4 a = true → join_probe link worlds a = Some p →
       carries a p ∧ ∀ kind n, kind ∈ kinds → 0 <= n <= unfragmented e → wire_length mode kind n <= p).
Proof.
  intros derive paths refined m m' e Hr Hc.
  assert (slot_ok (derive link) refined (start_measuring (derive link) endpoints spawned t)) as H1 by (split; [done|by left]).
  destruct (session_ok _ _ _ _ Hr H1) as [Hm (_ & Hd & _)].
  destruct (capture_ok _ _ _ _ _ Hc Hm) as ([Hfrom Hslot] & (Hkeep & Hd' & Ht) & He).
  assert (∀ e0, refined = Some e0 → unfragmented e0 < unfragmented (derive link)) as Hlt.
  { intros e0. unfold refined, refine. destruct (narrowest paths) as [[a0 q]|]; [|done].
    destruct (Z.leb_spec (unfragmented (derive link)) (unfragmented (derive q))); [done|]. by intros [= <-]. }
  assert (e = derive link ∨ refined = Some e) as Hwhich.
  { subst e. unfold current. rewrite Hfrom. destruct Hslot as [->| ->]; [by left|].
    destruct refined; [by right|by left]. }
  split; [done|]. split; [destruct Hwhich as [->|Hw]; [done|specialize (Hlt _ Hw); lia]|].
  split; [intros e' He'; subst e; unfold current; by rewrite (Hkeep _ He')|]. split.
  { destruct Hc as [?|m' ? (_ & Hw & _)%wait_spec]; [by right; left|]. destruct Hw as [?|Hw]; [by left|]. right; right.
    unfold sat_sub in Hw. cbn [start_measuring deadline take_completion clock] in *. lia. }
  split.
  { split; [done|]. destruct Hc as [?|m' ? (_ & _ & Hw)%wait_spec]; [lia|].
    unfold sat_sub in Hw. cbn [start_measuring deadline take_completion clock] in *. lia. }
  split; [apply capture_returns|].
  intros Hdone Hroom a p Ha Hg Hp.
  assert (∀ b r, join_probe link worlds b = Some r → carries b r ∧ FLOOR <= r <= link) as Hconf.
  { intros b r. unfold join_probe. destruct (measure_returns b link PROBE_BUDGET (worlds b)) as (o & w' & -> & _ & Hq).
    - change LINK_MTU with 1500 in Hlink. lia.
    - done.
    - intros ->. destruct (Hq r eq_refl) as (? & [[? ?]|[? ?]]); [by split; [|lia]|lia]. }
  split; [by apply Hconf|]. intros kind n Hk Hn.
  assert (a ∈ measured_endpoints endpoints) as Ha' by by apply measured_endpoints_elem.
  destruct (narrowest_least (join_probe link worlds) _ a p Ha' Hp) as (a0 & q & En & _ & Hq & Hqp).
  fold paths in En. destruct (Hconf _ _ Hq) as [_ Hfl]. specialize (Hroom _ _ En).
  assert (unfragmented e <= unfragmented (derive q)) as Hu.
  { subst e. unfold current. rewrite Hdone, Hfrom. unfold refined, refine. rewrite En.
    destruct (Z.leb_spec (unfragmented (derive link)) (unfragmented (derive q))); cbn; lia. }
  destruct (session_sizes_in_range mode kinds q provider) as (_ & _ & Hb & _). fold (derive q) in Hb.
  unfold unfragmented at 2, clamp in Hu.
  destruct (budget_fits_the_link mode kinds q kind n Hk) as [Hw _]; [lia|].
  assert (normalize_link_mtu q = q) as Enorm; [|lia].
  unfold normalize_link_mtu, clamp. change MIN_TUNNEL_MTU with FLOOR. lia.
Qed.

(** A network for the witnesses: every echo takes 20 ms, and no path carries
    more than 1400 bytes. *)
Module Narrow.
#[local] Instance host : EchoHost Z := {|
  now w := (w, w);
  sleep d w := w + Z.max 0 d;
  icmp _ p _ w := (Some (if p + 28 <=? 1400 then Some (0, p, 20) else None), w + ms 20)
|}.

#[local] Instance laws : EchoLaws Z.
Proof.
  refine {| time := λ w, w; carries := λ _ m, m <= 1400 |}.
  - intros w. cbn. lia.
  - intros d w. cbn. lia.
  - intros a p t w. cbn. unfold ms. lia.
  - intros a p t w rtt. cbn. destruct (p + 28 <=? 1400) eqn:E; [b2p; lia|done].
Defined.
End Narrow.

#[local] Existing Instances Narrow.host Narrow.laws.

Lemma measurement_settles_witness :
  (∃ w', measure [z2b 9; z2b 9; z2b 9; z2b 9] 1500 PROBE_BUDGET (5 : Z) = Some (Some 1396, w')) ∧
  ∃ r w', measure [z2b 9; z2b 9; z2b 9; z2b 9] 1500 PROBE_BUDGET (5 : Z) = Some (r, w') ∧ 5 <= w' ∧
    ∀ m, r = Some m → m <= 1500 ∧ (m <= 1400 ∧ FLOOR <= m ∨ m = 1500 ∧ 1500 <= FLOOR).
Proof.
  split; [eexists; vm_compute; reflexivity|].
  apply (@measurement_settles Z Narrow.host Narrow.laws); vm_compute; discriminate.
Defined.

(** Two routes through one node and one through another: capture waits for the
    thread, and a 1269-byte packet fits both. *)
Lemma capture_fits_every_measured_path_witness :
  let ends := [[z2b 9; z2b 9; z2b 9; z2b 9]; [z2b 8; z2b 8; z2b 8; z2b 8]; [z2b 9; z2b 9; z2b 9; z2b 9]] in
  let derive l := with_tunnel_limit (for_session Direct [str "wireguard"] l) None in
  unfragmented (derive 1500) = 1440 ∧ unfragmented (derive 1396) = 1328 ∧
  wire_length Direct (str "wireguard") 1328 <= 1396.
Proof.
  intros ends derive. split; [vm_compute; reflexivity|]. split; [vm_compute; reflexivity|].
  set (m0 := start_measuring (derive 1500) ends true 0).
  set (refined := refine derive (derive 1500) (measure_paths (join_probe 1500 (λ _, 0)) (measured_endpoints ends))).
  set (m1 := mk_session_mtu (derive 1500) refined false (secs 2) Dropped 0).
  pose proof (capture_fits_every_measured_path (λ _ : list byte, 0) Direct [str "wireguard"] None 1500 ends true 0) as Hx.
  cbn zeta in Hx. specialize (Hx ltac:(by split)).
  fold refined in Hx. specialize (Hx m0 m1 (current m1) (rtc_refl _ _)).
  destruct Hx as (_ & _ & _ & _ & _ & _ & Hfit).
  - apply Captures_after; [vm_compute; reflexivity|].
    eapply Waiting; [done|done|by apply Publishes|done|]. eapply Waiting; [done|done|by apply Drops|done|].
    by constructor 1.
  - apply (Hfit eq_refl) with (a := [z2b 9; z2b 9; z2b 9; z2b 9]).
    + intros a q E. assert (q = 1396) as ->; [|vm_compute; discriminate].
      vm_compute in E. by injection E as _ <-.
    + apply list_elem_of_here.
    + vm_compute. reflexivity.
    + vm_compute. reflexivity.
    + apply list_elem_of_here.
    + vm_compute. split; discriminate.
Defined.
