(* ===== verification/Session.v ===== *)
(** * Session: what the threads of a running session share, and the dispatcher

    [engine/src/session/dispatch.rs], the telemetry and queues of
    [engine/src/session/worker.rs], the current MTU of
    [engine/src/session/path_mtu.rs] and the shared part of [ActiveWireGuardSession]
    ([engine/src/session/state.rs]). An atomic is a cell, a vector of atomics a
    counter per path, and what a mutex guards a field; the operations are programs
    of atomic steps ([Threads]).

    [sealed], [draws] and [wire] record what was sealed and what the transports
    were handed; no operation reads them. *)
From S2P Require Import Prelude Protocol Fec FecPolicy Mtu Auth Scheduler Health Uplink Dialer Diagnostics LocalTap Ingress Threads.

(** ** The shared state *)

Record PathCommand := mk_command { frame : list byte; queued_at : Z }.

(** The two ends of a path's [mpsc::sync_channel]. *)
Record CommandQueue := mk_commands { waiting : list PathCommand; receiver_alive : bool }.

Inductive Cell : Type :=
| Sequences | DecisionMask | HealthyMask | UserBytesSent
| OfferedMtu | MultipathGroup | Support | DownlinkGroup | OffersUnanswered | LastOfferMs | RepairsSent.

#[export] Instance Cell_eq_dec : EqDecision Cell.
Proof. solve_decision. Defined.

(** The vectors of [PathTelemetry]. *)
Inductive Counter : Type :=
| Iterations | QueueDepth | QueuePeak | Dropped | QueueFullDropped | StaleDropped | InboundDropped
| SendFailed | StreamStale | StreamFull | WorkerGapPeakMs.

#[export] Instance Counter_eq_dec : EqDecision Counter.
Proof. solve_decision. Defined.

Record Sealed := mk_sealed {
  draw : Z;
  sealed_header : FrameHeader;
  sealed_plaintext : list byte;
  sealed_frame : list byte
}.

Record Shared (T L : Type) := mk_shared {
  clock : Z;
  stop : bool;
  cells : Cell → Z;
  telemetry : Counter → list Z;
  commands : list CommandQueue;
  encoder : Encoder.t;
  histories : list ProbeHistory;
  policy : MultipathPolicy;
  derived_mtu : EffectiveMtu;
  measured_mtu : option EffectiveMtu;
  diagnostics : Counters;
  statuses : list PathSessionStatus;
  scheduler_metrics : list PathMetrics;
  ingress : RelayIngress;
  inbound : InboundSink L;
  uplink : UplinkMonitor;
  cheap_reopen : list bool;
  dials : list (Channel T);
  spawn_error : option (list byte);
  sealed : list Sealed;
  draws : Z;
  wire : list (Z * list byte)
}.
Arguments mk_shared {T L} clock stop cells telemetry commands encoder histories policy derived_mtu measured_mtu diagnostics statuses scheduler_metrics ingress inbound uplink cheap_reopen dials spawn_error sealed draws wire.
Arguments clock {T L} s.
Arguments stop {T L} s.
Arguments cells {T L} s.
Arguments telemetry {T L} s.
Arguments commands {T L} s.
Arguments encoder {T L} s.
Arguments histories {T L} s.
Arguments policy {T L} s.
Arguments derived_mtu {T L} s.
Arguments measured_mtu {T L} s.
Arguments diagnostics {T L} s.
Arguments statuses {T L} s.
Arguments scheduler_metrics {T L} s.
Arguments ingress {T L} s.
Arguments inbound {T L} s.
Arguments uplink {T L} s.
Arguments cheap_reopen {T L} s.
Arguments dials {T L} s.
Arguments spawn_error {T L} s.
Arguments sealed {T L} s.
Arguments draws {T L} s.
Arguments wire {T L} s.

Section setters.
Context {T L : Type}.
Implicit Types (s : Shared T L).

Definition with_cells s (x : Cell → Z) : Shared T L :=
  mk_shared (clock s) (stop s) x (telemetry s) (commands s) (encoder s) (histories s) (policy s)
    (derived_mtu s) (measured_mtu s) (diagnostics s) (statuses s) (scheduler_metrics s)
    (ingress s) (inbound s) (uplink s) (cheap_reopen s) (dials s) (spawn_error s) (sealed s)
    (draws s) (wire s).
Definition with_telemetry s (x : Counter → list Z) : Shared T L :=
  mk_shared (clock s) (stop s) (cells s) x (commands s) (encoder s) (histories s) (policy s)
    (derived_mtu s) (measured_mtu s) (diagnostics s) (statuses s) (scheduler_metrics s)
    (ingress s) (inbound s) (uplink s) (cheap_reopen s) (dials s) (spawn_error s) (sealed s)
    (draws s) (wire s).
Definition with_commands s (x : list CommandQueue) : Shared T L :=
  mk_shared (clock s) (stop s) (cells s) (telemetry s) x (encoder s) (histories s) (policy s)
    (derived_mtu s) (measured_mtu s) (diagnostics s) (statuses s) (scheduler_metrics s)
    (ingress s) (inbound s) (uplink s) (cheap_reopen s) (dials s) (spawn_error s) (sealed s)
    (draws s) (wire s).
Definition with_encoder s (x : Encoder.t) : Shared T L :=
  mk_shared (clock s) (stop s) (cells s) (telemetry s) (commands s) x (histories s) (policy s)
    (derived_mtu s) (measured_mtu s) (diagnostics s) (statuses s) (scheduler_metrics s)
    (ingress s) (inbound s) (uplink s) (cheap_reopen s) (dials s) (spawn_error s) (sealed s)
    (draws s) (wire s).
Definition with_histories s (x : list ProbeHistory) : Shared T L :=
  mk_shared (clock s) (stop s) (cells s) (telemetry s) (commands s) (encoder s) x (policy s)
    (derived_mtu s) (measured_mtu s) (diagnostics s) (statuses s) (scheduler_metrics s)
    (ingress s) (inbound s) (uplink s) (cheap_reopen s) (dials s) (spawn_error s) (sealed s)
    (draws s) (wire s).
Definition with_policy s (x : MultipathPolicy) : Shared T L :=
  mk_shared (clock s) (stop s) (cells s) (telemetry s) (commands s) (encoder s) (histories s) x
    (derived_mtu s) (measured_mtu s) (diagnostics s) (statuses s) (scheduler_metrics s)
    (ingress s) (inbound s) (uplink s) (cheap_reopen s) (dials s) (spawn_error s) (sealed s)
    (draws s) (wire s).
Definition with_diagnostics s (x : Counters) : Shared T L :=
  mk_shared (clock s) (stop s) (cells s) (telemetry s) (commands s) (encoder s) (histories s)
    (policy s) (derived_mtu s) (measured_mtu s) x (statuses s) (scheduler_metrics s) (ingress s)
    (inbound s) (uplink s) (cheap_reopen s) (dials s) (spawn_error s) (sealed s) (draws s) (wire s).
Definition with_statuses s (x : list PathSessionStatus) : Shared T L :=
  mk_shared (clock s) (stop s) (cells s) (telemetry s) (commands s) (encoder s) (histories s)
    (policy s) (derived_mtu s) (measured_mtu s) (diagnostics s) x (scheduler_metrics s)
    (ingress s) (inbound s) (uplink s) (cheap_reopen s) (dials s) (spawn_error s) (sealed s)
    (draws s) (wire s).
Definition with_scheduler_metrics s (x : list PathMetrics) : Shared T L :=
  mk_shared (clock s) (stop s) (cells s) (telemetry s) (commands s) (encoder s) (histories s)
    (policy s) (derived_mtu s) (measured_mtu s) (diagnostics s) (statuses s) x (ingress s)
    (inbound s) (uplink s) (cheap_reopen s) (dials s) (spawn_error s) (sealed s) (draws s) (wire s).
Definition with_ingress s (x : RelayIngress) : Shared T L :=
  mk_shared (clock s) (stop s) (cells s) (telemetry s) (commands s) (encoder s) (histories s)
    (policy s) (derived_mtu s) (measured_mtu s) (diagnostics s) (statuses s)
    (scheduler_metrics s) x (inbound s) (uplink s) (cheap_reopen s) (dials s) (spawn_error s)
    (sealed s) (draws s) (wire s).
Definition with_inbound s (x : InboundSink L) : Shared T L :=
  mk_shared (clock s) (stop s) (cells s) (telemetry s) (commands s) (encoder s) (histories s)
    (policy s) (derived_mtu s) (measured_mtu s) (diagnostics s) (statuses s)
    (scheduler_metrics s) (ingress s) x (uplink s) (cheap_reopen s) (dials s) (spawn_error s)
    (sealed s) (draws s) (wire s).
Definition with_cheap_reopen s (x : list bool) : Shared T L :=
  mk_shared (clock s) (stop s) (cells s) (telemetry s) (commands s) (encoder s) (histories s)
    (policy s) (derived_mtu s) (measured_mtu s) (diagnostics s) (statuses s)
    (scheduler_metrics s) (ingress s) (inbound s) (uplink s) x (dials s) (spawn_error s) (sealed s)
    (draws s) (wire s).
Definition with_dials s (x : list (Channel T)) : Shared T L :=
  mk_shared (clock s) (stop s) (cells s) (telemetry s) (commands s) (encoder s) (histories s)
    (policy s) (derived_mtu s) (measured_mtu s) (diagnostics s) (statuses s)
    (scheduler_metrics s) (ingress s) (inbound s) (uplink s) (cheap_reopen s) x (spawn_error s)
    (sealed s) (draws s) (wire s).
Definition with_sealed s (x : list Sealed) : Shared T L :=
  mk_shared (clock s) (stop s) (cells s) (telemetry s) (commands s) (encoder s) (histories s)
    (policy s) (derived_mtu s) (measured_mtu s) (diagnostics s) (statuses s)
    (scheduler_metrics s) (ingress s) (inbound s) (uplink s) (cheap_reopen s) (dials s)
    (spawn_error s) x (draws s) (wire s).
Definition with_wire s (x : list (Z * list byte)) : Shared T L :=
  mk_shared (clock s) (stop s) (cells s) (telemetry s) (commands s) (encoder s) (histories s)
    (policy s) (derived_mtu s) (measured_mtu s) (diagnostics s) (statuses s)
    (scheduler_metrics s) (ingress s) (inbound s) (uplink s) (cheap_reopen s) (dials s)
    (spawn_error s) (sealed s) (draws s) x.
Definition with_clock s (x : Z) : Shared T L :=
  mk_shared x (stop s) (cells s) (telemetry s) (commands s) (encoder s) (histories s) (policy s)
    (derived_mtu s) (measured_mtu s) (diagnostics s) (statuses s) (scheduler_metrics s)
    (ingress s) (inbound s) (uplink s) (cheap_reopen s) (dials s) (spawn_error s) (sealed s)
    (draws s) (wire s).
Definition with_stop s (x : bool) : Shared T L :=
  mk_shared (clock s) x (cells s) (telemetry s) (commands s) (encoder s) (histories s) (policy s)
    (derived_mtu s) (measured_mtu s) (diagnostics s) (statuses s) (scheduler_metrics s)
    (ingress s) (inbound s) (uplink s) (cheap_reopen s) (dials s) (spawn_error s) (sealed s)
    (draws s) (wire s).
Definition with_measured_mtu s (x : option EffectiveMtu) : Shared T L :=
  mk_shared (clock s) (stop s) (cells s) (telemetry s) (commands s) (encoder s) (histories s)
    (policy s) (derived_mtu s) x (diagnostics s) (statuses s) (scheduler_metrics s) (ingress s)
    (inbound s) (uplink s) (cheap_reopen s) (dials s) (spawn_error s) (sealed s) (draws s) (wire s).
Definition with_uplink s (x : UplinkMonitor) : Shared T L :=
  mk_shared (clock s) (stop s) (cells s) (telemetry s) (commands s) (encoder s) (histories s)
    (policy s) (derived_mtu s) (measured_mtu s) (diagnostics s) (statuses s)
    (scheduler_metrics s) (ingress s) (inbound s) x (cheap_reopen s) (dials s) (spawn_error s)
    (sealed s) (draws s) (wire s).
Definition with_spawn_error s (x : option (list byte)) : Shared T L :=
  mk_shared (clock s) (stop s) (cells s) (telemetry s) (commands s) (encoder s) (histories s)
    (policy s) (derived_mtu s) (measured_mtu s) (diagnostics s) (statuses s)
    (scheduler_metrics s) (ingress s) (inbound s) (uplink s) (cheap_reopen s) (dials s) x
    (sealed s) (draws s) (wire s).
Definition with_draws s (x : Z) : Shared T L :=
  mk_shared (clock s) (stop s) (cells s) (telemetry s) (commands s) (encoder s) (histories s)
    (policy s) (derived_mtu s) (measured_mtu s) (diagnostics s) (statuses s)
    (scheduler_metrics s) (ingress s) (inbound s) (uplink s) (cheap_reopen s) (dials s)
    (spawn_error s) (sealed s) x (wire s).
End setters.

Section session.
Context {T L : Type}.
Implicit Types (s : Shared T L).
Notation prog := (prog (Shared T L)).

(** ** Atomics *)

Definition now : prog Z := load clock.

Definition set_cell (c : Cell) (v : Z) s : Shared T L :=
  with_cells s (λ c', if decide (c' = c) then v else cells s c').
Definition load_cell (c : Cell) : prog Z := load (λ s, cells s c).
Definition store_cell (c : Cell) (v : Z) : prog unit := store (set_cell c v).
(** [swap], and [fetch_add] of an atomic of [width] bits. *)
Definition swap_cell (c : Cell) (v : Z) : prog Z := act (λ s, Ret (cells s c, set_cell c v s)).
Definition fetch_add (c : Cell) (width n : Z) : prog Z :=
  act (λ s, Ret (cells s c, set_cell c ((cells s c + n) mod 2 ^ width) s)).
(** Whether [compare_exchange] succeeded. *)
Definition compare_exchange (c : Cell) (current new : Z) : prog bool :=
  act (λ s, Ret (if cells s c =? current then (true, set_cell c new s) else (false, s))).

(** [vector.get(index)] and the update that follows, nothing past the end. *)
Definition set_counter (c : Counter) (index : nat) (f : Z → Z) s : Shared T L :=
  with_telemetry s (λ c', if decide (c' = c) then alter f index (telemetry s c') else telemetry s c').
Definition counter_at (c : Counter) (index : nat) s : option Z := telemetry s c !! index.
(** The value before. *)
Definition count_fetch (c : Counter) (index : nat) (f : Z → Z) : prog (option Z) :=
  act (λ s, Ret (counter_at c index s, set_counter c index f s)).
Definition count_add (c : Counter) (index : nat) (n : Z) : prog unit :=
  store (set_counter c index (λ v, wrap64 (v + n))).
Definition count_max (c : Counter) (index : nat) (n : Z) : prog unit :=
  store (set_counter c index (Z.max n)).

(** [vector[index]]. *)
Definition count_here (c : Counter) (index : nat) (f : Z → Z) : prog unit :=
  act (λ s,
    match counter_at c index s with
    | None => Panic
    | Some _ => Ret ((), set_counter c index f s)
    end).
Definition add_here (c : Counter) (index : nat) (n : Z) : prog unit :=
  count_here c index (λ v, wrap64 (v + n)).

Definition record_failure (reason : Reason) (packet : list byte) : prog unit :=
  store (λ s, with_diagnostics s (Diagnostics.record (diagnostics s) reason packet)).

(** [SessionMtu::current]. *)
Definition current_mtu s : EffectiveMtu := default (derived_mtu s) (measured_mtu s).

(** ** Sealing

    A number is drawn and the frame sealed under it; sealing reads nothing shared,
    so the two are one step. *)
Section seal.
Context `{!Cipher} (client_id : list byte) (session_id : Z) (crypto : SessionCrypto.t).

Definition seal_next (flags : Z) (payload : Z → list byte) : prog (Z * result Error (list byte)) :=
  act (λ s,
    let sequence := cells s Sequences in
    let header := mk_header flags client_id session_id sequence in
    let s' := set_cell Sequences (wrap64 (sequence + 1)) s in
    let outcome := SessionCrypto.seal_client crypto header (payload sequence) in
    let log := match outcome with
               | Ok f => [mk_sealed (draws s) header (payload sequence) f]
               | Err _ => []
               end in
    Ret ((sequence, outcome), with_draws (with_sealed s' (log ++ sealed s')) (draws s' + 1))).
End seal.

(** ** Queues *)

Definition PATH_SEND_BATCH : nat := 128.
Definition PATH_QUEUE_DEPTH : Z := 1024.
Definition INBOUND_QUEUE_DEPTH : Z := 2048.
Definition PATH_QUEUE_MAX_AGE : Z := ms 50.

Inductive Sent : Type := Accepted | Full | ReceiverGone.

Definition try_send_command (index : nat) (command : PathCommand) : prog Sent :=
  act (λ s,
    match commands s !! index with
    | None => Panic
    | Some q =>
        if negb (receiver_alive q) then Ret (ReceiverGone, s)
        else if PATH_QUEUE_DEPTH <=? zlen (waiting q) then Ret (Full, s)
        else Ret (Accepted, with_commands s
               (<[index := mk_commands (waiting q ++ [command]) (receiver_alive q)]> (commands s)))
    end).

Definition try_recv_command (index : nat) : prog (option PathCommand) :=
  act (λ s,
    match commands s !! index with
    | None => Panic
    | Some q =>
        match waiting q with
        | [] => Ret (None, s)
        | command :: rest =>
            Ret (Some command, with_commands s
                   (<[index := mk_commands rest (receiver_alive q)]> (commands s)))
        end
    end).

(** ** [Dispatch::send] *)

Record Dispatched := mk_dispatched { selected : Z; accepted : Z; disconnected : Z }.

Definition select (o : Dispatched) : Dispatched := mk_dispatched (selected o + 1) (accepted o) (disconnected o).

(** One turn of the loop over the queues. *)
Definition dispatch_to (f : list byte) (at_instant mask : Z) (index : nat) (outcome : Dispatched)
    : prog Dispatched :=
  if Z.land mask (bit (Z.of_nat index)) =? 0 then mret outcome else
  let outcome := select outcome in
  before ← count_fetch QueueDepth index (λ depth, wrap64 (depth + 1));
  sent ← try_send_command index (mk_command f at_instant);
  match sent with
  | Accepted =>
      _ ← (match before with
           | Some depth => count_max QueuePeak index (wrap64 (depth + 1))
           | None => mret ()
           end);
      mret (mk_dispatched (selected outcome) (accepted outcome + 1) (disconnected outcome))
  | Full =>
      _ ← count_add QueueDepth index (-1);
      _ ← count_add Dropped index 1;
      _ ← count_add QueueFullDropped index 1;
      mret outcome
  | ReceiverGone =>
      _ ← count_add QueueDepth index (-1);
      mret (mk_dispatched (selected outcome) (accepted outcome) (disconnected outcome + 1))
  end.

(** [routes] is the number of queues, which does not change. *)
Definition dispatch_send (routes : nat) (f : list byte) (mask : Z) : prog Dispatched :=
  at_instant ← now;
  for_each (seq 0 routes) (dispatch_to f at_instant mask) (mk_dispatched 0 0 0).

(** ** [drain_send_queue] *)

(** [send] hands the frame to the transport and [record] takes its answer; both
    may change what the worker keeps. [false] ends the loop. *)
Definition drain_one {W} (max_age : option Z) (index : nat)
    (send : list byte → W → prog (Z * result (list byte) unit * W))
    (record : Z → result (list byte) unit → prog unit) (w : W) : prog (bool * W) :=
  command ← try_recv_command index;
  match command with
  | None => mret (false, w)
  | Some command =>
      _ ← count_add QueueDepth index (-1);
      at_instant ← now;
      if match max_age with Some age => age <? since at_instant (queued_at command) | None => false end
      then
        _ ← count_add Dropped index 1;
        _ ← count_add StaleDropped index 1;
        mret (true, w)
      else
        '(length, outcome, w) ← send (frame command) w;
        _ ← record length outcome;
        mret (true, w)
  end.

Fixpoint drain_loop {W} (batch : nat) (max_age : option Z) (index : nat)
    (send : list byte → W → prog (Z * result (list byte) unit * W))
    (record : Z → result (list byte) unit → prog unit) (w : W) : prog W :=
  match batch with
  | O => mret w
  | S batch' =>
      '(more, w) ← drain_one max_age index send record w;
      if more : bool then drain_loop batch' max_age index send record w else mret w
  end.
Definition drain_send_queue {W} := @drain_loop W PATH_SEND_BATCH.

(** [PathTelemetry::record_transport_drops]. *)
Definition record_transport_drops (index : nat) (stale full : Z) : prog unit :=
  if stale + full =? 0 then mret () else
  _ ← add_here StreamStale index stale;
  _ ← add_here StreamFull index full;
  add_here Dropped index (stale + full).

Lemma counter_set c i f c' j (s : Shared T L) :
  counter_at c' j (set_counter c i f s)
  = if decide (c' = c ∧ j = i) then f <$> counter_at c' j s else counter_at c' j s.
Proof.
  unfold counter_at, set_counter. cbn [with_telemetry telemetry]. destruct (decide (c' = c)) as [->|].
  - destruct (decide (j = i)) as [->|].
    + rewrite decide_True by done. apply list_lookup_alter_eq.
    + rewrite decide_False by tauto. by apply list_lookup_alter_ne.
  - by rewrite decide_False by tauto.
Qed.

Lemma length_set_counter c i f c' (s : Shared T L) : length (telemetry (set_counter c i f s) c') = length (telemetry s c').
Proof. unfold set_counter. cbn [with_telemetry telemetry]. case_decide; [apply length_alter|done]. Qed.
End session.
