(* ===== verification/LossRepair.v ===== *)
(** * LossRepair: loss repair on the client side of a relay session

    [engine/src/session/repair.rs]. The encoder, the histories with the policy, and
    the atomics are cells and fields of the shared state of [Session]; a block under
    one of its locks is a step. *)
From S2P Require Import Prelude Float64 Protocol FecPolicy Fec Mtu Auth Health Threads Session.

Definition UNKNOWN : Z := 0.
Definition SUPPORTED : Z := 1.
Definition LEGACY : Z := 2.
Definition OFFER_RETRY : Z := ms 250.
Definition OFFER_LIMIT : Z := 12.
Definition OFFER_REFRESH : Z := secs 5.
Definition LEGACY_OFFER_RETRY : Z := secs 10.
Definition IDLE_WAIT : Z := ms 250.
Definition REPAIR_QUEUE_LIMIT : Z := PATH_QUEUE_DEPTH / 4.
Definition NEVER : Z := u64_max.

Inductive Probe : Type :=
| Lost
| Answered (after_outage : bool).

Record RepairStatus := mk_repair_status {
  state : list byte;
  uplink_group : Z;
  status_downlink_group : option Z;
  status_repairs_sent : Z
}.

(** ** The one path a repair takes *)

(** [pool &= pool - 1], which needs a bit to clear. *)
Definition clear_lowest (pool : Z) : run Z := if pool =? 0 then Panic else Ret (Z.land pool (pool - 1)).

Fixpoint clear_many (n : nat) (pool : Z) : run Z :=
  match n with
  | O => Ret pool
  | S n' => pool ← clear_lowest pool; clear_many n' pool
  end.

(** [turn % count] panics on an empty mask. *)
Definition repair_target (mask carrying turn : Z) : run Z :=
  let spare := Z.land mask (complement carrying) in
  let pool := if negb (spare =? 0) then spare else mask in
  if count_ones pool =? 0 then Panic else
  pool ← clear_many (Z.to_nat (turn mod count_ones pool)) pool;
  Ret (lowest_bit pool).

Section repair.
Context {T L : Type} `{!Cipher} (client_id : list byte) (session_id : Z) (crypto : SessionCrypto.t).
Context (routes : nat) (started : Z).
Implicit Types (s : Shared T L).
Notation prog := (prog (Shared T L)).
Notation seal_next := (seal_next client_id session_id crypto).

(** The cells of [LossRepair::new]. *)
Definition new_cells (c : Cell) : option Z :=
  match c with
  | OfferedMtu => Some 0
  | MultipathGroup => Some MULTIPATH_GROUP
  | Support => Some UNKNOWN
  | DownlinkGroup => Some 0
  | OffersUnanswered => Some 0
  | LastOfferMs => Some NEVER
  | RepairsSent => Some 0
  | _ => None
  end.
Definition new_encoder (derived : EffectiveMtu) : Encoder.t := Encoder.new SINGLE_PATH_GROUP (unfragmented derived).
Definition new_histories : list ProbeHistory := replicate routes default_history.

Definition healthy : prog Z := load_cell HealthyMask.

Definition desired_group : prog Z :=
  healthy ← healthy;
  decision ← load_cell DecisionMask;
  let carrying := Z.land (selected_paths decision healthy) healthy in
  multipath ← load_cell MultipathGroup;
  mret (group_size_for (count_ones carrying) multipath).

(** ** Probes *)

Definition record_history (healthy : Z) (index : nat) (probe : Probe) (h : ProbeHistory) : ProbeHistory :=
  match probe with
  | Lost =>
      if Z.land healthy (bit (Z.of_nat index)) =? 0 then forget_outage h else FecPolicy.record h true
  | Answered after_outage =>
      FecPolicy.record (if after_outage then forget_outage h else h) false
  end.

(** The least loss of the carrying paths, from [f64::INFINITY]. *)
Fixpoint best_loss (carrying : Z) (path : nat) (l : list ProbeHistory) (best : f64) : f64 :=
  match l with
  | [] => best
  | h :: l' =>
      best_loss carrying (S path) l'
        (if negb (Z.land carrying (bit (Z.of_nat path)) =? 0)
         then fmin best (default (of_int 0) (loss h)) else best)
  end.

(** The block under the locks: [None] when nothing is carrying. *)
Definition observe_probe (healthy : Z) (index : nat) (probe : Probe) s : option Z * Shared T L :=
  let s := with_histories s (alter (record_history healthy index probe) index (histories s)) in
  let decision := cells s DecisionMask in
  let carrying := if negb (Z.land decision healthy =? 0) then Z.land decision healthy else healthy in
  if carrying =? 0 then (None, with_policy s (interrupt (policy s))) else
  let '(group, p) := FecPolicy.observe (policy s) (best_loss carrying 0 (histories s) infinity) (clock s) in
  (Some group, with_policy s p).

Definition record_probe (index : nat) (probe : Probe) : prog unit :=
  healthy ← healthy;
  group ← act (λ s, Ret (observe_probe healthy index probe s));
  match group with
  | None => mret ()
  | Some group => _ ← swap_cell MultipathGroup group; mret ()
  end.

(** ** Repairs *)

(** The paths of [mask] whose queue is not backing up: each depth is read on its
    own. *)
Definition room_at (index : nat) (mask : Z) : prog Z :=
  depth ← load (counter_at QueueDepth index);
  mret (match depth with
        | Some depth => if REPAIR_QUEUE_LIMIT <=? depth
                        then Z.land mask (complement (bit (Z.of_nat index))) else mask
        | None => mask
        end).
Definition with_room (mask : Z) : prog Z := for_each (seq 0 routes) room_at mask.

Definition send (repair : list byte) : prog unit :=
  healthy ← healthy;
  candidates ← (if negb (healthy =? 0) then mret healthy else load_cell DecisionMask);
  mask ← with_room candidates;
  if mask =? 0 then mret () else
  carrying ← load_cell DecisionMask;
  turn ← load_cell RepairsSent;
  mask ← act (λ s, '(m) ← repair_target mask carrying turn; Ret (m, s));
  '(_, outcome) ← seal_next FLAG_REPAIR (λ _, repair);
  match outcome with
  | Err _ => mret ()
  | Ok frame =>
      dispatched ← dispatch_send routes frame mask;
      if 0 <? accepted dispatched then _ ← fetch_add RepairsSent 64 1; mret () else mret ()
  end.

(** The block under the encoder's lock: the repairs it closed. *)
Definition push_packet (group sequence : Z) (packet : list byte) s : run (list (list byte) * Shared T L) :=
  let e := Encoder.set_max_packet (encoder s) (unfragmented (current_mtu s)) in
  '(resized, e) ← Encoder.set_group_size e group;
  '(closed, e) ← Encoder.push e sequence packet (clock s);
  Ret (option_list resized ++ option_list closed, with_encoder s e).

Fixpoint send_all (repairs : list (list byte)) : prog unit :=
  match repairs with
  | [] => mret ()
  | repair :: repairs' => _ ← send repair; send_all repairs'
  end.

Definition protect (sequence : Z) (packet : list byte) : prog unit :=
  support ← load_cell Support;
  if negb (support =? SUPPORTED) then mret () else
  group ← desired_group;
  repairs ← act (push_packet group sequence packet);
  send_all repairs.

(** One turn of the flusher's loop: how long it waits, or nothing when it had a
    group to close. *)
Definition flush_turn : prog (option Z) :=
  due ← act (λ s,
    match Encoder.deadline (encoder s) with
    | None => Ret ((Some IDLE_WAIT, None), s)
    | Some deadline =>
        if clock s <? deadline then Ret ((Some (deadline - clock s), None), s)
        else '(repair, e) ← Encoder.flush_due (encoder s) (clock s);
             Ret ((None, repair), with_encoder s e)
    end);
  match due with
  | (Some wait, _) => mret (Some wait)
  | (None, None) => mret None
  | (None, Some repair) => _ ← send repair; mret None
  end.

(** ** Offers *)

Definition retry_after (support : Z) (in_step : bool) : Z :=
  if in_step then OFFER_REFRESH
  else if support =? LEGACY then LEGACY_OFFER_RETRY
  else OFFER_RETRY.

(** [as_millis() as u64]. *)
Definition millis (duration : Z) : Z := wrap64 (duration / 1000000).

Definition offer_due (path_healthy : bool) : prog (option Offer) :=
  if negb path_healthy then mret None else
  support ← load_cell Support;
  desired ← desired_group;
  mtu ← load (λ s, unfragmented (current_mtu s));
  in_step ← (if negb (support =? SUPPORTED) then mret false else
             group ← load_cell DownlinkGroup;
             if negb (group =? desired) then mret false else
             offered ← load_cell OfferedMtu;
             mret (offered =? mtu));
  at_instant ← now;
  let now_ms := millis (since at_instant started) in
  last ← load_cell LastOfferMs;
  if negb (last =? NEVER) && (now_ms <? Z.min u64_max (last + millis (retry_after support in_step)))
  then mret None else
  won ← compare_exchange LastOfferMs last now_ms;
  if negb (won : bool) then mret None else
  _ ← (if support =? UNKNOWN then
         unanswered ← fetch_add OffersUnanswered 32 1;
         if OFFER_LIMIT <=? (unanswered + 1) mod 2 ^ 32
         then _ ← compare_exchange Support UNKNOWN LEGACY; mret ()
         else mret ()
       else mret ());
  _ ← store_cell OfferedMtu mtu;
  mret (Some (mk_offer desired mtu)).

Definition accepted (group : Z) : prog unit :=
  _ ← store_cell OffersUnanswered 0;
  _ ← store_cell DownlinkGroup group;
  _ ← swap_cell Support SUPPORTED;
  mret ().

Definition status : prog RepairStatus :=
  support ← load_cell Support;
  group ← desired_group;
  downlink ← load_cell DownlinkGroup;
  sent ← load_cell RepairsSent;
  mret (mk_repair_status
    (if support =? SUPPORTED then str "active"
     else if support =? LEGACY then str "unsupported" else str "negotiating")
    group (if downlink =? 0 then None else Some downlink) sent).
End repair.

(** ** The path of a repair *)

(** Subtracting one clears the lowest bit and sets those below it. *)
Lemma pred_bits z :
  0 < z → ∃ k, 0 <= k ∧ Z.testbit z k = true ∧
    ∀ j, 0 <= j → Z.testbit (z - 1) j = if decide (j = k) then false
                                        else if decide (j < k) then true else Z.testbit z j.
Proof.
  destruct z as [|p|]; [lia| |lia]. intros _. induction p as [p _|p IH|].
  - exists 0. split; [lia|]. split; [done|]. intros j Hj.
    replace (Z.pos p~1 - 1) with (2 * Z.pos p) by lia.
    destruct (decide (j = 0)) as [->|]; [apply Z.testbit_even_0|]. rewrite decide_False by lia.
    replace j with (Z.succ (j - 1)) by lia. rewrite Z.testbit_even_succ by lia.
    change (Z.pos p~1) with (2 * Z.pos p + 1). by rewrite Z.testbit_odd_succ by lia.
  - destruct IH as (k & Hk & Ht & Hb). exists (k + 1). split; [lia|]. split.
    { change (Z.pos p~0) with (2 * Z.pos p). replace (k + 1) with (Z.succ k) by lia.
      by rewrite Z.testbit_even_succ. }
    intros j Hj. replace (Z.pos p~0 - 1) with (2 * (Z.pos p - 1) + 1) by lia.
    destruct (decide (j = 0)) as [->|].
    { rewrite Z.testbit_odd_0, decide_False, decide_True by lia. done. }
    replace j with (Z.succ (j - 1)) by lia. rewrite Z.testbit_odd_succ, Hb by lia.
    change (Z.pos p~0) with (2 * Z.pos p). rewrite Z.testbit_even_succ by lia.
    repeat case_decide; done || lia.
  - exists 0. split; [lia|]. split; [done|]. intros j Hj. change (1 - 1) with 0. rewrite Z.bits_0.
    case_decide; [done|]. rewrite decide_False by lia. symmetry. change 1 with (2 ^ 0).
    apply Z.pow2_bits_false. lia.
Qed.

Lemma clear_lowest_spec z :
  0 < z < 2 ^ 64 →
  ∃ z', clear_lowest z = Ret z' ∧ 0 <= z' < 2 ^ 64 ∧ count_ones z' = count_ones z - 1 ∧
    ∀ j, 0 <= j → Z.testbit z' j = true → Z.testbit z j = true.
Proof.
  intros Hz. unfold clear_lowest. rewrite (proj2 (Z.eqb_neq _ _)) by lia.
  exists (Z.land z (z - 1)). split; [done|]. split; [apply (land_bound 64); lia|]. split.
  - destruct z as [|p|]; [lia| |lia]. clear Hz. induction p as [p _|p IH|].
    + replace (Z.land (Z.pos p~1) (Z.pos p~1 - 1)) with (Z.pos p~0); [cbn [count_ones pos_ones]; lia|].
      replace (Z.pos p~1 - 1) with (Z.pos p~0) by lia.
      change (Z.pos p~1) with (2 * Z.pos p + 1). change (Z.pos p~0) with (2 * Z.pos p).
      apply Z.bits_inj'. intros j Hj. rewrite Z.land_spec.
      destruct (decide (j = 0)) as [->|]; [by rewrite Z.testbit_even_0, andb_false_r|].
      replace j with (Z.succ (j - 1)) by lia.
      rewrite !Z.testbit_even_succ, Z.testbit_odd_succ by lia. by rewrite andb_diag.
    + replace (Z.land (Z.pos p~0) (Z.pos p~0 - 1)) with (2 * Z.land (Z.pos p) (Z.pos p - 1) + Z.b2z false).
      * rewrite count_ones_double by (apply Z.land_nonneg; lia). rewrite IH. cbn [Z.b2z count_ones pos_ones]. lia.
      * cbn [Z.b2z]. rewrite Z.add_0_r. apply Z.bits_inj'. intros j Hj. rewrite Z.land_spec.
        replace (Z.pos p~0 - 1) with (2 * (Z.pos p - 1) + 1) by lia. change (Z.pos p~0) with (2 * Z.pos p).
        destruct (decide (j = 0)) as [->|]; [by rewrite !Z.testbit_even_0|].
        replace j with (Z.succ (j - 1)) by lia.
        rewrite !Z.testbit_even_succ, Z.testbit_odd_succ, Z.land_spec by lia. done.
    + done.
  - intros j Hj. rewrite Z.land_spec. by intros [? _]%andb_true_iff.
Qed.

Lemma count_ones_nonneg z : 0 <= count_ones z.
Proof. destruct z as [|p|]; simpl; [lia| |lia]. induction p; simpl; lia. Qed.

Lemma count_ones_pos z : 0 < z → 0 < count_ones z.
Proof. destruct z as [|p|]; [lia| |lia]. intros _. induction p; simpl in *; lia. Qed.

Lemma clear_many_spec n z :
  0 < z < 2 ^ 64 → (Z.of_nat n < count_ones z) →
  ∃ z', clear_many n z = Ret z' ∧ 0 < z' < 2 ^ 64 ∧
    ∀ j, 0 <= j → Z.testbit z' j = true → Z.testbit z j = true.
Proof.
  revert z. induction n as [|n IH]; intros z Hz Hn; [by exists z|]. cbn [clear_many].
  destruct (clear_lowest_spec z Hz) as (z1 & -> & Hz1 & Hc & Hb). cbn [mbind run_bind].
  assert (z1 ≠ 0) by (intros ->; change (count_ones 0) with 0 in Hc; lia).
  destruct (IH z1) as (z2 & -> & Hz2 & Hb2); [lia|lia|]. exists z2. split; [done|]. split; [done|]. auto.
Qed.

Lemma complement_sub m : 0 <= m < 2 ^ 64 → u64_max - m = complement m.
Proof.
  intros Hm. unfold complement, u64_max. change (2 ^ 64 - 1) with (Z.ones 64).
  rewrite Z.sub_nocarry_ldiff.
  - apply Z.bits_inj'. intros j Hj. rewrite Z.lxor_spec, Z.ldiff_spec.
    destruct (decide (j < 64)); [rewrite Z.ones_spec_low by lia; by destruct (Z.testbit _ _)|].
    rewrite Z.ones_spec_high, (bits_high 64 m) by lia. done.
  - apply Z.bits_inj'. intros j Hj. rewrite Z.ldiff_spec, Z.bits_0.
    destruct (decide (j < 64)); [rewrite Z.ones_spec_low by lia; by rewrite andb_false_r|].
    rewrite (bits_high 64 m) by lia. done.
Qed.

Lemma lowest_bit_spec z :
  0 < z < 2 ^ 64 → ∃ k, 0 <= k < 64 ∧ Z.testbit z k = true ∧ lowest_bit z = bit k.
Proof.
  intros Hz. destruct (pred_bits z) as (k & Hk & Ht & Hb); [lia|].
  assert (k < 64) as Hk64.
  { apply Z.nle_gt. intros Hge. by rewrite (bits_high 64) in Ht by lia. }
  exists k. split; [lia|]. split; [done|]. unfold lowest_bit.
  assert (wrap64 (- z) = complement (z - 1)) as ->.
  { rewrite <-complement_sub by lia. unfold wrap64. symmetry.
    apply Z.mod_unique_pos with (q := -1); unfold u64_max; lia. }
  apply Z.bits_inj'. intros j Hj. rewrite Z.land_spec, bit_testbit by lia.
  destruct (decide (j < 64)).
  - rewrite complement_testbit, Hb by lia. destruct (decide (j = k)) as [->|].
    + rewrite Ht, bool_decide_eq_true_2 by lia. done.
    + rewrite bool_decide_eq_false_2 by lia. case_decide; [apply andb_false_r|]. by destruct (Z.testbit z j).
  - rewrite (bits_high 64 z) by lia. rewrite bool_decide_eq_false_2 by lia. done.
Qed.

(** A repair takes one path that has room, and one that carries no data if there
    is one. *)
Lemma repair_target_spec mask carrying turn :
  0 < mask < 2 ^ 64 → 0 <= carrying < 2 ^ 64 → 0 <= turn →
  ∃ k, 0 <= k < 64 ∧ repair_target mask carrying turn = Ret (bit k) ∧ Z.testbit mask k = true ∧
    ((∃ j, 0 <= j < 64 ∧ Z.testbit mask j = true ∧ Z.testbit carrying j = false) →
     Z.testbit carrying k = false).
Proof.
  intros Hm Hc Ht. unfold repair_target. set (spare := Z.land mask (complement carrying)).
  assert (0 <= spare < 2 ^ 64) as Hs.
  { apply (land_bound 64); [lia..|]. by apply complement_range. }
  assert (∀ j, 0 <= j < 64 → Z.testbit spare j = Z.testbit mask j && negb (Z.testbit carrying j)) as Hbits.
  { intros j Hj. unfold spare. by rewrite Z.land_spec, complement_testbit. }
  set (pool := if negb (spare =? 0) then spare else mask).
  assert (0 < pool < 2 ^ 64) as Hp.
  { unfold pool. destruct (Z.eqb_spec spare 0); cbn [negb]; lia. }
  pose proof (count_ones_pos pool (proj1 Hp)) as Hones.
  rewrite (proj2 (Z.eqb_neq (count_ones pool) 0)) by lia.
  pose proof (Z.mod_pos_bound turn (count_ones pool) Hones) as Hmod.
  destruct (clear_many_spec (Z.to_nat (turn mod count_ones pool)) pool Hp) as (z & -> & Hz & Hzb); [lia|].
  cbn [mbind run_bind]. destruct (lowest_bit_spec z Hz) as (k & Hk & Hzk & ->). exists k.
  apply Hzb in Hzk; [|lia]. split; [done|]. split; [done|]. unfold pool in Hzk.
  destruct (Z.eqb_spec spare 0) as [H0|Hne]; cbn [negb] in Hzk.
  - split; [done|]. intros (j & Hj & Hmj & Hcj). specialize (Hbits j Hj).
    rewrite H0, Z.bits_0, Hmj, Hcj in Hbits. done.
  - rewrite Hbits in Hzk by done. b2p. split; [done|]. intros _. done.
Qed.
