(* ===== verification/Sender.v ===== *)
(** * Sender: from a captured packet to the queues of the paths

    [engine/src/session/sender.rs]: [DataSender] seals a packet, hands the frame to
    the paths chosen for it and protects it; [SenderCache] renews the sender when
    its session has stopped. *)
From S2P Require Import Prelude Protocol Auth Health Diagnostics Threads Session LossRepair.

(** [SessionOverlay]. *)
Inductive SessionOverlay `{!Cipher} : Type :=
| Relay (client_id : list byte) (crypto : SessionCrypto.t)
| Direct.

Section sender.
Context {T L : Type} `{!Cipher} (overlay : SessionOverlay) (session_id : Z) (routes : nat).
Notation prog := (prog (Shared T L)).

Definition is_live : prog bool := stop ← load Session.stop; mret (negb stop).

(** What [send] hands to the dispatcher, and the sequence a repair covers it by. *)
Definition wrap (packet : list byte) : prog (result (list byte) (list byte * option Z)) :=
  match overlay with
  | Relay client_id crypto =>
      '(sequence, outcome) ← seal_next client_id session_id crypto 0 (λ _, packet);
      mret (match outcome with Ok frame => Ok (frame, Some sequence) | Err e => Err e end)
  | Direct => mret (Ok (packet, None))
  end.

Definition chosen_paths (node : Z) : prog Z :=
  match overlay with
  | Relay _ _ =>
      decision ← load_cell DecisionMask;
      healthy ← load_cell HealthyMask;
      mret (selected_paths decision healthy)
  | Direct => mret (bit node)
  end.

(** [loss_repair] is there for relay sessions only. *)
Definition protect_sent (sequence : option Z) (packet : list byte) : prog unit :=
  match overlay, sequence with
  | Relay client_id crypto, Some sequence => protect client_id session_id crypto routes sequence packet
  | _, _ => mret ()
  end.

Definition send (packet : list byte) (node : Z) : prog (result (list byte) bool) :=
  live ← is_live;
  if negb (live : bool) then mret (Err (str "the session has stopped")) else
  wrapped ← wrap packet;
  match wrapped with
  | Err e => mret (Err e)
  | Ok (frame, sequence) =>
      mask ← chosen_paths node;
      dispatched ← dispatch_send routes frame mask;
      if selected dispatched =? 0 then
        _ ← record_failure OutboundNoWorker packet;
        mret (Err (str "no active path workers accepted the packet"))
      else
        _ ← (if Session.accepted dispatched =? 0
             then record_failure (if disconnected dispatched =? selected dispatched
                                  then OutboundNoWorker else OutboundNoQueue) packet
             else mret ());
        _ ← protect_sent sequence packet;
        if 0 <? Session.accepted dispatched
        then _ ← fetch_add UserBytesSent 64 (zlen packet); mret (Ok true)
        else mret (Ok false)
  end.
End sender.

(** ** [SenderCache] *)

(** The manager's lock gives the sender of the session now active; [send_with] is
    what sending through one does. *)
Section cache.
Context {S D : Type} (is_live : D → prog S bool) (data_sender : S → option D).
Context (send_with : D → list byte → Z → prog S (result (list byte) bool)).

Definition cached_send (sender : option D) (packet : list byte) (node : Z)
    : prog S (result (list byte) bool * option D) :=
  live ← (match sender with Some d => is_live d | None => mret false end);
  sender ← (if live : bool then mret sender else load data_sender);
  match sender with
  | None => mret (Err (str "start the WireGuard session before sending packets"), sender)
  | Some d => outcome ← send_with d packet node; mret (outcome, sender)
  end.
End cache.
