(* ===== verification/RelayWorker.v ===== *)
(** * RelayWorker: one thread per relay path

    [run_path] of [engine/src/session/relay_worker.rs]: a turn of its loop, which
    collects a redial, announces the path, sends what the dispatcher queued, probes
    the relay, offers loss repair, handles what arrived and judges the path's
    health. A [Worker] is what the loop keeps between turns; the transport is any
    [RelayPath], and a redial's outcome is put in [dials] by the dialling thread.
    Log lines, and the variables that only they read, are left out. *)
From S2P Require Import Prelude Text Float64 Protocol FecPolicy Fec Mtu Auth Scheduler Rtt Health Uplink Dialer Latency Diagnostics LocalTap Ingress Threads Session LossRepair.

(** [RelayPath]; [send_probe] and [health_note] have their own implementations in
    some transports. *)
Class RelayPath (T : Type) : Type := {
  send_frame : T → list byte → result (list byte) unit * T;
  send_probe : T → list byte → result (list byte) unit * T;
  receive_frames : T → Z → result (list byte) (list (list byte)) * T;
  take_transport_drops : T → Z * Z * T;
  path_endpoint : T → list byte;
  setup_latency_ms : T → option f64;
  setup_round_trips : T → option Z;
  bypass_ipv4 : T → option (list byte);
  health_note : T → option (list byte) * T;
  probe_deadline_floor : T → Z;
  transport_failed : T → bool
}.

Record Worker (T : Type) := mk_worker {
  path : T;
  next_probe : Z;
  pending_probe : option (Z * Z);
  announced_selection : option (bool * bool);
  next_selection_refresh : Z;
  expired_probes : list (Z * Z);
  correlated_probes : bool;
  published_setup_latency : option f64;
  rtt : RttEstimator;
  latency_watch : LatencyWatch;
  last_iteration : Z;
  failures : Z;
  backoff : Z;
  next_redial : option Z;
  reported_transport_failure : bool;
  common_mode_since : option Z;
  carried_traffic : bool;
  dialing : option bool
}.
Arguments mk_worker {T} path next_probe pending_probe announced_selection next_selection_refresh
  expired_probes correlated_probes published_setup_latency rtt latency_watch last_iteration failures
  backoff next_redial reported_transport_failure common_mode_since carried_traffic dialing.
Arguments path {T} w.
Arguments next_probe {T} w.
Arguments pending_probe {T} w.
Arguments announced_selection {T} w.
Arguments next_selection_refresh {T} w.
Arguments expired_probes {T} w.
Arguments correlated_probes {T} w.
Arguments published_setup_latency {T} w.
Arguments rtt {T} w.
Arguments latency_watch {T} w.
Arguments last_iteration {T} w.
Arguments failures {T} w.
Arguments backoff {T} w.
Arguments next_redial {T} w.
Arguments reported_transport_failure {T} w.
Arguments common_mode_since {T} w.
Arguments carried_traffic {T} w.
Arguments dialing {T} w.

Section setters.
Context {T : Type}.
Implicit Types (w : Worker T).

Definition set_path w (x : T) : Worker T :=
  mk_worker x (next_probe w) (pending_probe w) (announced_selection w) (next_selection_refresh w)
    (expired_probes w) (correlated_probes w) (published_setup_latency w) (rtt w)
    (latency_watch w) (last_iteration w) (failures w) (backoff w) (next_redial w)
    (reported_transport_failure w) (common_mode_since w) (carried_traffic w) (dialing w).
Definition set_next_probe w (x : Z) : Worker T :=
  mk_worker (path w) x (pending_probe w) (announced_selection w) (next_selection_refresh w)
    (expired_probes w) (correlated_probes w) (published_setup_latency w) (rtt w)
    (latency_watch w) (last_iteration w) (failures w) (backoff w) (next_redial w)
    (reported_transport_failure w) (common_mode_since w) (carried_traffic w) (dialing w).
Definition set_pending_probe w (x : option (Z * Z)) : Worker T :=
  mk_worker (path w) (next_probe w) x (announced_selection w) (next_selection_refresh w)
    (expired_probes w) (correlated_probes w) (published_setup_latency w) (rtt w)
    (latency_watch w) (last_iteration w) (failures w) (backoff w) (next_redial w)
    (reported_transport_failure w) (common_mode_since w) (carried_traffic w) (dialing w).
Definition set_announced_selection w (x : option (bool * bool)) : Worker T :=
  mk_worker (path w) (next_probe w) (pending_probe w) x (next_selection_refresh w)
    (expired_probes w) (correlated_probes w) (published_setup_latency w) (rtt w)
    (latency_watch w) (last_iteration w) (failures w) (backoff w) (next_redial w)
    (reported_transport_failure w) (common_mode_since w) (carried_traffic w) (dialing w).
Definition set_next_selection_refresh w (x : Z) : Worker T :=
  mk_worker (path w) (next_probe w) (pending_probe w) (announced_selection w) x
    (expired_probes w) (correlated_probes w) (published_setup_latency w) (rtt w)
    (latency_watch w) (last_iteration w) (failures w) (backoff w) (next_redial w)
    (reported_transport_failure w) (common_mode_since w) (carried_traffic w) (dialing w).
Definition set_expired_probes w (x : list (Z * Z)) : Worker T :=
  mk_worker (path w) (next_probe w) (pending_probe w) (announced_selection w)
    (next_selection_refresh w) x (correlated_probes w) (published_setup_latency w) (rtt w)
    (latency_watch w) (last_iteration w) (failures w) (backoff w) (next_redial w)
    (reported_transport_failure w) (common_mode_since w) (carried_traffic w) (dialing w).
Definition set_correlated_probes w (x : bool) : Worker T :=
  mk_worker (path w) (next_probe w) (pending_probe w) (announced_selection w)
    (next_selection_refresh w) (expired_probes w) x (published_setup_latency w) (rtt w)
    (latency_watch w) (last_iteration w) (failures w) (backoff w) (next_redial w)
    (reported_transport_failure w) (common_mode_since w) (carried_traffic w) (dialing w).
Definition set_published_setup_latency w (x : option f64) : Worker T :=
  mk_worker (path w) (next_probe w) (pending_probe w) (announced_selection w)
    (next_selection_refresh w) (expired_probes w) (correlated_probes w) x (rtt w)
    (latency_watch w) (last_iteration w) (failures w) (backoff w) (next_redial w)
    (reported_transport_failure w) (common_mode_since w) (carried_traffic w) (dialing w).
Definition set_rtt w (x : RttEstimator) : Worker T :=
  mk_worker (path w) (next_probe w) (pending_probe w) (announced_selection w)
    (next_selection_refresh w) (expired_probes w) (correlated_probes w)
    (published_setup_latency w) x (latency_watch w) (last_iteration w) (failures w) (backoff w)
    (next_redial w) (reported_transport_failure w) (common_mode_since w) (carried_traffic w)
    (dialing w).
Definition set_latency_watch w (x : LatencyWatch) : Worker T :=
  mk_worker (path w) (next_probe w) (pending_probe w) (announced_selection w)
    (next_selection_refresh w) (expired_probes w) (correlated_probes w)
    (published_setup_latency w) (rtt w) x (last_iteration w) (failures w) (backoff w)
    (next_redial w) (reported_transport_failure w) (common_mode_since w) (carried_traffic w)
    (dialing w).
Definition set_last_iteration w (x : Z) : Worker T :=
  mk_worker (path w) (next_probe w) (pending_probe w) (announced_selection w)
    (next_selection_refresh w) (expired_probes w) (correlated_probes w)
    (published_setup_latency w) (rtt w) (latency_watch w) x (failures w) (backoff w)
    (next_redial w) (reported_transport_failure w) (common_mode_since w) (carried_traffic w)
    (dialing w).
Definition set_failures w (x : Z) : Worker T :=
  mk_worker (path w) (next_probe w) (pending_probe w) (announced_selection w)
    (next_selection_refresh w) (expired_probes w) (correlated_probes w)
    (published_setup_latency w) (rtt w) (latency_watch w) (last_iteration w) x (backoff w)
    (next_redial w) (reported_transport_failure w) (common_mode_since w) (carried_traffic w)
    (dialing w).
Definition set_backoff w (x : Z) : Worker T :=
  mk_worker (path w) (next_probe w) (pending_probe w) (announced_selection w)
    (next_selection_refresh w) (expired_probes w) (correlated_probes w)
    (published_setup_latency w) (rtt w) (latency_watch w) (last_iteration w) (failures w) x
    (next_redial w) (reported_transport_failure w) (common_mode_since w) (carried_traffic w)
    (dialing w).
Definition set_next_redial w (x : option Z) : Worker T :=
  mk_worker (path w) (next_probe w) (pending_probe w) (announced_selection w)
    (next_selection_refresh w) (expired_probes w) (correlated_probes w)
    (published_setup_latency w) (rtt w) (latency_watch w) (last_iteration w) (failures w)
    (backoff w) x (reported_transport_failure w) (common_mode_since w) (carried_traffic w)
    (dialing w).
Definition set_reported_transport_failure w (x : bool) : Worker T :=
  mk_worker (path w) (next_probe w) (pending_probe w) (announced_selection w)
    (next_selection_refresh w) (expired_probes w) (correlated_probes w)
    (published_setup_latency w) (rtt w) (latency_watch w) (last_iteration w) (failures w)
    (backoff w) (next_redial w) x (common_mode_since w) (carried_traffic w) (dialing w).
Definition set_common_mode_since w (x : option Z) : Worker T :=
  mk_worker (path w) (next_probe w) (pending_probe w) (announced_selection w)
    (next_selection_refresh w) (expired_probes w) (correlated_probes w)
    (published_setup_latency w) (rtt w) (latency_watch w) (last_iteration w) (failures w)
    (backoff w) (next_redial w) (reported_transport_failure w) x (carried_traffic w) (dialing w).
Definition set_carried_traffic w (x : bool) : Worker T :=
  mk_worker (path w) (next_probe w) (pending_probe w) (announced_selection w)
    (next_selection_refresh w) (expired_probes w) (correlated_probes w)
    (published_setup_latency w) (rtt w) (latency_watch w) (last_iteration w) (failures w)
    (backoff w) (next_redial w) (reported_transport_failure w) (common_mode_since w) x
    (dialing w).
Definition set_dialing w (x : option bool) : Worker T :=
  mk_worker (path w) (next_probe w) (pending_probe w) (announced_selection w)
    (next_selection_refresh w) (expired_probes w) (correlated_probes w)
    (published_setup_latency w) (rtt w) (latency_watch w) (last_iteration w) (failures w)
    (backoff w) (next_redial w) (reported_transport_failure w) (common_mode_since w)
    (carried_traffic w) x.
End setters.

Definition WORKER_RECEIVE_TIMEOUT : Z := ms 1.

Definition wrap32 (z : Z) : Z := z mod 2 ^ 32.

(** [Duration::as_secs_f64]. *)
Definition as_secs_f64 (d : Z) : f64 :=
  fadd (of_int (d / 1000000000)) (fdiv (of_int (d mod 1000000000)) (of_int 1000000000)).

(** [!=] of two [Option<f64>]. *)
Definition opt_f64_ne (a b : option f64) : bool :=
  match a, b with
  | Some x, Some y => negb (feq x y)
  | None, None => false
  | _, _ => true
  end.

Section worker.
Context {T L : Type} `{!Cipher} `{!RelayPath T} `{!LocalStackSink L}.
Context (client_id : list byte) (session_id : Z) (crypto : SessionCrypto.t).
Context (routes : nat) (started : Z) (fallback_mask : Z) (strategy : Strategy) (index : nat).
Implicit Types (s : Shared T L) (w : Worker T).
Notation prog := (prog (Shared T L)).
Notation seal_next := (seal_next client_id session_id crypto).

Definition lift {A} (m : run A) : prog A := act (λ s, a ← m; Ret (a, s)).

(** *** What the worker shares *)

(** [statuses.lock().unwrap()[index]]. *)
Definition update_status (f : PathSessionStatus → PathSessionStatus) : prog unit :=
  act (λ s,
    match statuses s !! index with
    | None => Panic
    | Some st => Ret ((), with_statuses s (<[index := f st]> (statuses s)))
    end).

Definition set_metrics_endpoint (endpoint : option (list byte)) : prog unit :=
  act (λ s,
    match scheduler_metrics s !! index with
    | None => Panic
    | Some m =>
        let m := Scheduler.mk_metrics (Scheduler.id m) endpoint (active m) (Scheduler.samples m)
                   (latency_ms m) (jitter_ms m) (loss_ratio m) (last_latency_ms m)
                   (consecutive_losses m) (unsettled_probes m) in
        Ret ((), with_scheduler_metrics s (<[index := m]> (scheduler_metrics s)))
    end).

Definition publish_health (up : bool) : prog unit :=
  store (λ s, set_cell HealthyMask (publish_path_health (cells s HealthyMask) (Z.of_nat index) up) s).

Definition update_scheduler (latency : option f64) : prog unit :=
  store (λ s,
    let '(metrics, decision) :=
      update_scheduler_probe (scheduler_metrics s) (cells s DecisionMask) fallback_mask (Z.of_nat index)
        latency strategy in
    set_cell DecisionMask decision (with_scheduler_metrics s metrics)).

(** *** The transport *)

Definition log_wire (f : list byte) s : Shared T L := with_wire s (wire s ++ [(Z.of_nat index, f)]).

Definition transmit (call : T → list byte → result (list byte) unit * T) (f : list byte) w
    : prog (result (list byte) unit * Worker T) :=
  act (λ s, let '(outcome, p) := call (path w) f in Ret ((outcome, set_path w p), log_wire f s)).

(** A control frame of its own number, sealed and sent as a probe is. *)
Definition send_control (flags : Z) (payload : Z → list byte) w
    : prog (Z * result (list byte) unit * Worker T) :=
  '(sequence, outcome) ← seal_next flags payload;
  match outcome with
  | Err e => mret (sequence, Err e, w)
  | Ok f => '(outcome, w) ← transmit send_probe f w; mret (sequence, outcome, w)
  end.

(** *** The start of the loop *)

(** The state of the worker when its path is open. *)
Definition open_worker (p : T) : prog (Worker T) :=
  _ ← set_metrics_endpoint (bypass_ipv4 p);
  next_probe ← now;
  refresh ← now;
  last ← now;
  mret (mk_worker p next_probe None None refresh [] false None (with_floor (probe_deadline_floor p))
          default_watch last 0 RECONNECT_BACKOFF_MIN None false None false None).

Definition measure_gap w : prog (Worker T) :=
  at_instant ← now;
  let gap_ms := Z.min u64_max (since at_instant (last_iteration w) / 1000000) in
  _ ← count_here WorkerGapPeakMs index (Z.max gap_ms);
  _ ← add_here Iterations index 1;
  mret (set_last_iteration w at_instant).

(** *** Redials *)

(** [try_recv] on the dialling thread's channel. *)
Definition take_dial : prog (Channel T) :=
  act (λ s,
    match dials s !! index with
    | None => Panic
    | Some c => Ret (c, with_dials s (match c with
                                      | Received _ => <[index := Disconnected]> (dials s)
                                      | _ => dials s
                                      end))
    end).

Definition adopt_path (replacement : T) w : prog (Worker T) :=
  let same_route := bool_decide (path_endpoint replacement = path_endpoint (path w))
                    && (probe_deadline_floor replacement =? probe_deadline_floor (path w)) in
  let w := set_path (set_dialing w None) replacement in
  _ ← set_metrics_endpoint (bypass_ipv4 replacement);
  let w := set_reported_transport_failure (set_announced_selection w None) false in
  _ ← publish_health false;
  let w := if same_route then w else set_rtt w (with_floor (probe_deadline_floor replacement)) in
  let w := set_failures (set_latency_watch w default_watch) 0 in
  let w := set_next_redial (set_backoff w (next_backoff (backoff w))) None in
  let w := set_published_setup_latency (set_pending_probe w None) None in
  at_instant ← now;
  _ ← update_status (λ st,
        set_reachable (Health.set_endpoint st (path_endpoint replacement)) false (status_latency_ms st)
          (Some (str "reconnected; waiting for a probe")));
  mret (set_next_probe w at_instant).

Definition redial_later (error : list byte) w : prog (Worker T) :=
  let w := set_backoff w (next_backoff (backoff w)) in
  at_instant ← now;
  _ ← update_status (λ st, set_error st error);
  mret (set_next_redial w (Some (at_instant + backoff w))).

Definition collect_dial w : prog (Worker T) :=
  match dialing w with
  | None => mret w
  | Some superseded =>
      received ← take_dial;
      match Dialer.poll superseded received with
      | Finished (Ok replacement) => adopt_path replacement w
      | Finished (Err error) =>
          redial_later (str "reconnect failed, retrying: " ++ error) (set_dialing w None)
      | Discarded => mret (set_dialing w None)
      | Pending => mret w
      end
  end.

Definition due (at_instant : Z) (deadline : option Z) : bool :=
  match deadline with Some at_ => at_ <=? at_instant | None => false end.

(** How long every path has been down at once. *)
Definition common_mode w : prog (option Z * Worker T) :=
  healthy ← load_cell HealthyMask;
  let w := set_carried_traffic w (carried_traffic w || negb (healthy =? 0)) in
  alone ← (if (1 <? Z.of_nat routes) && carried_traffic w
           then healthy ← load_cell HealthyMask; mret (negb (another_path_is_up healthy (Z.of_nat index)))
           else mret false);
  if alone : bool then
    first ← now;
    let since_ := default first (common_mode_since w) in
    at_instant ← now;
    mret (Some (since at_instant since_), set_common_mode_since w (Some since_))
  else mret (None, set_common_mode_since w None).

Definition start_redial w : prog (Worker T) :=
  let w := set_next_redial w None in
  spawned ← act (λ s, Ret (spawn_error s, match spawn_error s with
                                          | None => with_dials s (<[index := Empty]> (dials s))
                                          | Some _ => s
                                          end));
  match spawned with
  | None =>
      _ ← update_status (λ st, set_error st (str "reconnecting"));
      mret (set_dialing w (Some false))
  | Some error => redial_later (str "could not start a reconnect attempt: " ++ error) w
  end.

Definition redial w : prog (Worker T) :=
  '(common_mode_for, w) ← common_mode w;
  monitor ← load uplink;
  let uplink_down := hold_redial_for_common_mode (Uplink.state monitor) common_mode_for in
  if bool_decide (is_Some (dialing w)) then mret w else
  at_instant ← now;
  if negb (due at_instant (next_redial w)) then mret w else
  if uplink_down then
    at_instant ← now; mret (set_next_redial w (Some (at_instant + UPLINK_DOWN_BACKOFF)))
  else start_redial w.

(** *** Announcing the path *)

Definition announce w : prog (Worker T) :=
  healthy_mask ← load_cell HealthyMask;
  let own_bit := bit (Z.of_nat index) in
  let path_healthy := negb (Z.land healthy_mask own_bit =? 0) in
  decision ← load_cell DecisionMask;
  let carrying := negb (Z.land (selected_paths decision healthy_mask) own_bit =? 0) in
  stale ← (if bool_decide (announced_selection w = Some (carrying, path_healthy))
           then at_instant ← now; mret (next_selection_refresh w <=? at_instant)
           else mret true);
  if negb (stale : bool) then mret w else
  '(_, outcome, w) ←
    send_control (Z.lor FLAG_CONTROL (if path_healthy then 0 else FLAG_PATH_UNHEALTHY))
      (λ _, PathPolicy.request (PathPolicy.mk (Z.of_nat index mod 256) carrying)) w;
  let w := set_announced_selection w (Some (carrying, path_healthy)) in
  at_instant ← now;
  mret (set_next_selection_refresh w
          (at_instant + match outcome with
                        | Ok _ => healthy_probe_interval carrying
                        | Err _ => PROBE_INTERVAL_DEGRADED
                        end)).

(** *** Sending *)

Definition send_queued (f : list byte) w : prog (Z * result (list byte) unit * Worker T) :=
  '(outcome, w) ← transmit send_frame f w;
  _ ← (match outcome with
       | Ok _ => mret ()
       | Err error =>
           _ ← add_here Dropped index 1;
           _ ← add_here SendFailed index 1;
           store (λ s, with_diagnostics s (record_error (diagnostics s) TransportSend [] error true))
       end);
  mret (zlen f, outcome, w).

Definition record_sent (length : Z) (outcome : result (list byte) unit) : prog unit :=
  update_status (λ st, record_path_send st length outcome).

Definition drain w : prog (Worker T) :=
  drain_send_queue (Some PATH_QUEUE_MAX_AGE) index send_queued record_sent w.

(** *** Health *)

Definition take_out_of_service (error : list byte) : prog unit :=
  _ ← publish_health false;
  update_status (λ st, update_path_status st (Err error)).

Definition plan_redial w : prog (Worker T) :=
  at_instant ← now;
  mret (set_next_redial w (schedule_redial (failures w) (backoff w) (next_redial w) at_instant)).

Definition notice_transport w : prog (Worker T) :=
  if negb (transport_failed (path w)) || reported_transport_failure w then mret w else
  let w := set_reported_transport_failure w true in
  let w := set_failures w (Z.max (failures w) HEALTH_FAILURE_THRESHOLD) in
  _ ← take_out_of_service (str "the transport underneath this route is gone");
  plan_redial w.

(** A probe that was lost counts against the path's score until the path is down. *)
Definition score_loss w : prog unit :=
  if failures w <? HEALTH_FAILURE_THRESHOLD then update_scheduler None else mret ().

Definition probe_failed (error : list byte) w : prog (Worker T) :=
  _ ← update_status (λ st, add_probes st 0 0 1);
  _ ← score_loss w;
  _ ← record_probe index Lost;
  _ ← update_status (λ st, update_path_status st (Err error));
  let w := set_failures w (wrap32 (failures w + 1)) in
  _ ← (if HEALTH_FAILURE_THRESHOLD <=? failures w then publish_health false else mret ());
  w ← plan_redial w;
  at_instant ← now;
  mret (set_next_probe w (at_instant + PROBE_INTERVAL_DEGRADED)).

Definition send_health_probe w : prog (Worker T) :=
  at_instant ← now;
  if (at_instant <? next_probe w) || bool_decide (is_Some (pending_probe w)) then mret w else
  '(sequence, sealed) ← seal_next FLAG_CONTROL probe_request;
  '(outcome, w) ←
    (match sealed with
     | Err e => mret (Err e, w)
     | Ok f =>
         _ ← update_status (λ st, add_probes (add_packets st 1 0 0 0) 1 0 0);
         transmit send_probe f w
     end);
  match outcome with
  | Ok _ => at_instant ← now; mret (set_pending_probe w (Some (sequence, at_instant)))
  | Err error => probe_failed error w
  end.

Definition send_offer w : prog (Worker T) :=
  healthy ← load_cell HealthyMask;
  offer ← offer_due started (negb (Z.land healthy (bit (Z.of_nat index)) =? 0));
  match offer with
  | None => mret w
  | Some o => '(_, _, w) ← send_control FLAG_CONTROL (λ _, Fec.offer o) w; mret w
  end.

(** *** Receiving *)

Definition late_reply (plaintext : list byte) w : prog (Worker T) :=
  at_instant ← now;
  let '(elapsed, expired) := take_late_probe_reply (expired_probes w) plaintext at_instant in
  let w := set_expired_probes w expired in
  match elapsed with
  | None => mret w
  | Some elapsed => e ← lift (Rtt.record (rtt w) elapsed); mret (set_rtt w e)
  end.

Definition probe_answered (plaintext : list byte) (sent_at : Z) w : prog (Worker T) :=
  let w := if zlen plaintext =? 12 then set_correlated_probes w true else w in
  let w := set_pending_probe w None in
  at_instant ← now;
  let elapsed := since at_instant sent_at in
  e ← lift (Rtt.record (rtt w) elapsed);
  let w := set_rtt w e in
  let latency := fmul (as_secs_f64 elapsed) (of_int 1000) in
  _ ← update_status (λ st, add_probes st 0 1 0);
  _ ← update_status (λ st, update_path_status st (Ok latency));
  _ ← publish_health true;
  let after_outage := HEALTH_FAILURE_THRESHOLD <=? failures w in
  let w := set_next_redial (set_backoff (set_failures w 0) RECONNECT_BACKOFF_MIN) None in
  _ ← store (λ s, with_cheap_reopen s (<[index := true]> (cheap_reopen s)));
  let w := match dialing w with Some _ => set_dialing w (Some true) | None => w end in
  _ ← update_scheduler (Some latency);
  _ ← record_probe index (Answered after_outage);
  observed_at ← now;
  let w := set_latency_watch w (Latency.observe (latency_watch w) latency observed_at).2 in
  at_instant ← now;
  decision ← load_cell DecisionMask;
  mret (set_next_probe w
          (at_instant + healthy_probe_interval (negb (Z.land decision (bit (Z.of_nat index)) =? 0)))).

Definition handle_control (header : FrameHeader) (plaintext : list byte) w : prog (Worker T) :=
  let from_relay := has_flag (flags header) FLAG_SERVER_TO_CLIENT in
  if from_relay && PathPolicy.accepted plaintext then
    _ ← update_status set_selection; mret w
  else
  match (if from_relay then accepted_group plaintext else None) with
  | Some group => _ ← accepted group; mret w
  | None =>
      match pending_probe w with
      | Some (sequence, sent_at) =>
          if negb from_relay || negb (probe_reply_matches plaintext sequence (negb (correlated_probes w)))
          then if from_relay then late_reply plaintext w else mret w
          else probe_answered plaintext sent_at w
      | None => if from_relay then late_reply plaintext w else mret w
      end
  end.

Definition deliver_repair (header : FrameHeader) (plaintext : list byte) : prog unit :=
  act (λ s,
    '(_, i, q) ← enqueue_repair (λ _, clock s) (Ingress.with_diagnostics (ingress s) (diagnostics s))
                   header plaintext (inbound s);
    Ret ((), Session.with_diagnostics (with_inbound (with_ingress s i) q) (Ingress.diagnostics i))).

Definition deliver_data (header : FrameHeader) (plaintext : list byte) : prog (result TrySendError bool) :=
  act (λ s,
    '(outcome, i, q) ← enqueue_authenticated (λ _, clock s)
                         (Ingress.with_diagnostics (ingress s) (diagnostics s)) header plaintext (inbound s);
    Ret (outcome, Session.with_diagnostics (with_inbound (with_ingress s i) q) (Ingress.diagnostics i))).

Definition handle_frame (f : list byte) w : prog (Worker T) :=
  opened ← lift (SessionCrypto.open_server crypto f);
  match opened with
  | Err _ => _ ← record_failure RelayAuthentication []; mret w
  | Ok (header, plaintext) =>
      if negb (bool_decide (Protocol.client_id header = client_id))
         || negb (Protocol.session_id header =? session_id) then mret w
      else if has_flag (flags header) FLAG_CONTROL then handle_control header plaintext w
      else if has_flag (flags header) FLAG_REPAIR then
        _ ← update_status (λ st, record_path_receive st (zlen f));
        _ ← deliver_repair header plaintext;
        mret w
      else if has_flag (flags header) FLAG_SERVER_TO_CLIENT then
        _ ← update_status (λ st, record_path_receive st (zlen f));
        outcome ← deliver_data header plaintext;
        match outcome with
        | Err (QueueFull _) =>
            _ ← add_here Dropped index 1;
            _ ← add_here InboundDropped index 1;
            mret w
        | _ => mret w
        end
      else mret w
  end.

Definition receive w : prog (Worker T) :=
  let '(received, p) := receive_frames (path w) WORKER_RECEIVE_TIMEOUT in
  let w := set_path w p in
  match received with
  | Ok frames => for_each frames handle_frame w
  | Err error => _ ← update_status (λ st, update_path_status st (Err error)); mret w
  end.

(** *** The end of a turn *)

Definition publish_transport w : prog (Worker T) :=
  let '(stale, full, p) := take_transport_drops (path w) in
  let w := set_path w p in
  _ ← record_transport_drops index stale full;
  let setup := setup_latency_ms (path w) in
  if opt_f64_ne setup (published_setup_latency w) then
    _ ← update_status (λ st, set_handshake st setup (setup_round_trips (path w)));
    mret (set_published_setup_latency w setup)
  else mret w.

Definition timed_out_error (note : option (list byte)) : list byte :=
  match note with
  | Some note => str "path health check timed out: " ++ note
  | None => str "path health check timed out"
  end.

Definition expire (sequence sent_at : Z) w : prog (Worker T) :=
  let w := set_pending_probe w None in
  at_instant ← now;
  let w := set_expired_probes w (remember_expired_probe (expired_probes w) sequence sent_at at_instant) in
  _ ← update_status (λ st, add_probes st 0 0 1);
  _ ← score_loss w;
  _ ← record_probe index Lost;
  let '(note, p) := health_note (path w) in
  let w := set_failures (set_path w p) (wrap32 (failures w + 1)) in
  w ← plan_redial w;
  _ ← (if HEALTH_FAILURE_THRESHOLD <=? failures w then take_out_of_service (timed_out_error note)
       else mret ());
  at_instant ← now;
  mret (set_next_probe w (at_instant + PROBE_INTERVAL_DEGRADED)).

Definition expire_probe w : prog (Worker T) :=
  match pending_probe w with
  | None => mret w
  | Some (sequence, sent_at) =>
      at_instant ← now;
      deadline ← lift (timeout (rtt w));
      if deadline <? since at_instant sent_at then expire sequence sent_at w else mret w
  end.

(** One turn of the loop. *)
Definition turn w : prog (Worker T) :=
  w ← measure_gap w;
  w ← collect_dial w;
  w ← redial w;
  w ← announce w;
  w ← drain w;
  w ← notice_transport w;
  w ← send_health_probe w;
  w ← send_offer w;
  w ← receive w;
  w ← publish_transport w;
  expire_probe w.

(** [turns] turns of the loop, or fewer once the session stops. *)
Fixpoint run_turns (turns : nat) w : prog (Worker T) :=
  match turns with
  | O => mret w
  | S turns' =>
      stopped ← load Session.stop;
      if stopped : bool then mret w else w ← turn w; run_turns turns' w
  end.

Definition run_path (turns : nat) (p : T) : prog (Worker T) :=
  w ← open_worker p;
  run_turns turns w.
End worker.

(** ** The session that [start_relay] brings up *)

Definition initial_mask (open_routes : list bool) (strategy : Strategy) : Z :=
  initial_selection
    (foldr (λ '(i, open) mask, if open : bool then Z.lor mask (bit (Z.of_nat i)) else mask) 0
       (imap pair open_routes)) strategy.

Definition start_cells (decision : Z) (c : Cell) : Z :=
  match c with
  | Sequences => 1
  | DecisionMask => decision
  | HealthyMask => 0
  | UserBytesSent => 0
  | _ => default 0 (new_cells c)
  end.

Definition new_telemetry (routes : nat) (c : Counter) : list Z := replicate routes 0.

Definition path_id (index : nat) : list byte := decimal (Z.of_nat index).

Section start.
Context {T L : Type} `{!LocalStackSink L}.

(** [statuses] are the routes' first statuses; the clock reads [at_instant]. *)
Definition start_session (client_id : list byte) (session_id : Z) (decision : Z) (derived : EffectiveMtu)
    (statuses : list PathSessionStatus) (at_instant : Z) : Shared T L :=
  let routes := length statuses in
  mk_shared at_instant false (start_cells decision) (new_telemetry routes)
    (replicate routes (mk_commands [] true)) (new_encoder derived) (new_histories routes) default_policy
    derived None new_diagnostics statuses
    ((λ i, Scheduler.new (path_id i)) <$> seq 0 routes)
    (new_ingress client_id session_id new_diagnostics)
    (mk_inbound (LocalTap.mk_queue [] INBOUND_QUEUE_DEPTH true) default_tap (mk_gauge 0 0))
    new_monitor (replicate routes true) (replicate routes Disconnected) None [] 0 [].
End start.
