(* ===== verification/DirectWorker.v ===== *)
(** * DirectWorker: one thread per node of a direct session

    [run_direct_path] of [engine/src/session/direct_worker.rs] with [DirectPath] of
    [engine/src/relay_path.rs]. There is no relay here to answer control frames, so a
    node's health comes from its own handshake, from echoes sent through the tunnel
    and from what comes back. A [PathWatch] is the health of one open transport, a
    [Worker] what the loop keeps between turns. A watch also carries the record of what
    was seen of its transport ([sightings], with the clock read before and after each
    packet): no part of the code, and read by none of it. Log lines, and what only they
    read, are left out. *)
From S2P Require Import Prelude Text Float64 Icmp Scheduler Rtt Health Uplink Dialer Latency Diagnostics LocalTap Threads Session RelayWorker.

(** ** Transports *)

Class WireGuardTunnel (W : Type) : Type := {
  wireguard_address : W → list byte;
  wireguard_endpoint : W → list byte;
  wireguard_handshake : W → option f64;
  wireguard_send : W → list byte → result (list byte) unit * W;
  wireguard_receive : W → Z → result (list byte) (list (list byte)) * W
}.

Class OpenVpnTunnel (V : Type) : Type := {
  openvpn_address : V → list byte;
  openvpn_endpoint : V → list byte;
  openvpn_streamed : V → bool;
  openvpn_handshake : V → option f64;
  openvpn_send : V → list byte → result (list byte) unit * V;
  openvpn_probe : V → list byte → result (list byte) unit * V;
  openvpn_receive : V → Z → result (list byte) (list (list byte)) * V;
  openvpn_drops : V → Z * Z * V
}.

(** [tun2socks::ForwardingStack]. *)
Class ForwardingStack (F : Type) : Type := {
  forwarding_kind : F → list byte;
  forwarding_address : F → list byte;
  forwarding_endpoint : F → list byte;
  forwarding_handshake : F → option f64;
  forwarding_send : F → list byte → result (list byte) unit * F;
  forwarding_receive : F → Z → result (list byte) (list (list byte)) * F;
  forwarding_activity : F → bool * F
}.

Inductive DirectPath (W V F : Type) : Type :=
| WireGuard (p : W)
| OpenVpn (p : V)
| Forwarding (p : F).
Arguments WireGuard {W V F} p.
Arguments OpenVpn {W V F} p.
Arguments Forwarding {W V F} p.

Definition KIND_WIREGUARD : list byte := str "wireguard".
Definition KIND_OPENVPN : list byte := str "openvpn".

Definition ipv4_destination (packet : list byte) : option (list byte) :=
  if (zlen packet <? 20) || negb (Z.shiftr (nz packet 0) 4 =? 4) then None else Some (sub packet 16 20).

Section paths.
Context {W V F : Type} `{!WireGuardTunnel W} `{!OpenVpnTunnel V} `{!ForwardingStack F}.
Implicit Types (p : DirectPath W V F).

Definition in_wireguard {A} (r : A * W) : A * DirectPath W V F := (r.1, WireGuard r.2).
Definition in_openvpn {A} (r : A * V) : A * DirectPath W V F := (r.1, OpenVpn r.2).
Definition in_forwarding {A} (r : A * F) : A * DirectPath W V F := (r.1, Forwarding r.2).

Definition take_upstream_activity p : bool * DirectPath W V F :=
  match p with Forwarding q => in_forwarding (forwarding_activity q) | _ => (false, p) end.
Definition take_transport_drops p : Z * Z * DirectPath W V F :=
  match p with OpenVpn q => in_openvpn (openvpn_drops q) | _ => (0, 0, p) end.
Definition probe_deadline_floor p : Z :=
  match p with
  | OpenVpn q => if openvpn_streamed q then STREAMED_MIN_TIMEOUT else MIN_TIMEOUT
  | _ => MIN_TIMEOUT
  end.
Definition needs_redial_when_lost p : bool := match p with OpenVpn _ => true | _ => false end.
Definition terminates_locally p : bool := match p with Forwarding _ => true | _ => false end.
Definition send_probe p (packet : list byte) : result (list byte) unit * DirectPath W V F :=
  match p with
  | WireGuard q => in_wireguard (wireguard_send q packet)
  | OpenVpn q => in_openvpn (openvpn_probe q packet)
  | Forwarding q => in_forwarding (forwarding_send q packet)
  end.
Definition kind p : list byte :=
  match p with
  | WireGuard _ => KIND_WIREGUARD
  | OpenVpn _ => KIND_OPENVPN
  | Forwarding q => forwarding_kind q
  end.
Definition address p : list byte :=
  match p with
  | WireGuard q => wireguard_address q
  | OpenVpn q => openvpn_address q
  | Forwarding q => forwarding_address q
  end.
Definition endpoint p : list byte :=
  match p with
  | WireGuard q => wireguard_endpoint q
  | OpenVpn q => openvpn_endpoint q
  | Forwarding q => forwarding_endpoint q
  end.
Definition handshake_latency_ms p : option f64 :=
  match p with
  | WireGuard q => wireguard_handshake q
  | OpenVpn q => openvpn_handshake q
  | Forwarding q => forwarding_handshake q
  end.
Definition send_packet p (packet : list byte) : result (list byte) unit * DirectPath W V F :=
  match p with
  | WireGuard q => in_wireguard (wireguard_send q packet)
  | OpenVpn q => in_openvpn (openvpn_send q packet)
  | Forwarding q => in_forwarding (forwarding_send q packet)
  end.

(** A provider's tunnel carries its own network's traffic as well as our replies. *)
Definition receive_packets p (timeout : Z) : result (list byte) (list (list byte)) * DirectPath W V F :=
  match p with
  | WireGuard q => in_wireguard (wireguard_receive q timeout)
  | OpenVpn q =>
      let '(received, q) := openvpn_receive q timeout in
      (match received with
       | Ok packets => Ok (filter (λ packet, ipv4_destination packet = Some (openvpn_address q)) packets)
       | Err e => Err e
       end, OpenVpn q)
  | Forwarding q => in_forwarding (forwarding_receive q timeout)
  end.
End paths.

(** ** The health of one open transport *)

Definition DIRECT_PROBE_ATTEMPTS : Z := 3.
Definition DIRECT_LOSS_LIMIT : Z := 3.
Definition DIRECT_LIVENESS_WINDOW : Z := secs 5.
Definition SOCKS5_PROBE_INTERVAL : Z := secs 5.
Definition SOCKS5_PROBE_TIMEOUT : Z := secs 5.
Definition DIRECT_QUIET_PROBE_INTERVAL : Z := secs 15.
(** [BENCHMARK_TARGET]. *)
Definition DIRECT_PROBE_TARGET : list byte := [x08; x08; x08; x08].

Definition take_matching_probe (pending : option (Z * Z)) (sequence : Z) : option Z * option (Z * Z) :=
  match pending with
  | Some (expected, started) => if expected =? sequence then (Some started, None) else (None, pending)
  | None => (None, None)
  end.

Definition probe_outage (requires_probe answered : bool) (losses : Z) (carrying : bool) : bool :=
  (requires_probe || answered) && (DIRECT_LOSS_LIMIT <=? losses) && negb carrying.

(** What has been seen of a transport, which the code keeps no record of: a probe that
    the transport took; a packet that it handed over, and when the worker began and
    ended with it; its own word that something came back from beyond it; and a probe
    whose time was up. *)
Inductive Sighting : Type :=
| Sent (sequence : Z)
| Arrived (packet : list byte) (began ended : Z)
| Stirred (at_instant : Z)
| Overdue.

(** The health of an open transport; [sightings] is the record of what was seen of it,
    newest first, and nothing reads it. *)
Record PathWatch := mk_path_watch {
  watch_address : list byte;
  watch_endpoint : list byte;
  max_age : option Z;
  requires_probe : bool;
  probe_interval : Z;
  probe_sequence : Z;
  next_probe : Z;
  pending_probe : option (Z * Z);
  rtt : RttEstimator;
  latency_watch : LatencyWatch;
  probes_attempted : Z;
  consecutive_losses : Z;
  icmp_answered : bool;
  published_health : option f64 * bool;
  published_error : bool;
  verdict : bool;
  started : Z;
  reported_silence : bool;
  last_authenticated_receive : option Z;
  published_healthy : bool;
  sightings : list Sighting
}.

Definition set_probe_sequence (h : PathWatch) (x : Z) : PathWatch :=
  mk_path_watch (watch_address h) (watch_endpoint h) (max_age h) (requires_probe h)
    (probe_interval h) x (next_probe h) (pending_probe h) (rtt h) (latency_watch h)
    (probes_attempted h) (consecutive_losses h) (icmp_answered h) (published_health h)
    (published_error h) (verdict h) (started h) (reported_silence h) (last_authenticated_receive
    h) (published_healthy h) (sightings h).
Definition set_next_probe (h : PathWatch) (x : Z) : PathWatch :=
  mk_path_watch (watch_address h) (watch_endpoint h) (max_age h) (requires_probe h)
    (probe_interval h) (probe_sequence h) x (pending_probe h) (rtt h) (latency_watch h)
    (probes_attempted h) (consecutive_losses h) (icmp_answered h) (published_health h)
    (published_error h) (verdict h) (started h) (reported_silence h) (last_authenticated_receive
    h) (published_healthy h) (sightings h).
Definition set_pending_probe (h : PathWatch) (x : option (Z * Z)) : PathWatch :=
  mk_path_watch (watch_address h) (watch_endpoint h) (max_age h) (requires_probe h)
    (probe_interval h) (probe_sequence h) (next_probe h) x (rtt h) (latency_watch h)
    (probes_attempted h) (consecutive_losses h) (icmp_answered h) (published_health h)
    (published_error h) (verdict h) (started h) (reported_silence h) (last_authenticated_receive
    h) (published_healthy h) (sightings h).
Definition set_rtt (h : PathWatch) (x : RttEstimator) : PathWatch :=
  mk_path_watch (watch_address h) (watch_endpoint h) (max_age h) (requires_probe h)
    (probe_interval h) (probe_sequence h) (next_probe h) (pending_probe h) x (latency_watch h)
    (probes_attempted h) (consecutive_losses h) (icmp_answered h) (published_health h)
    (published_error h) (verdict h) (started h) (reported_silence h) (last_authenticated_receive
    h) (published_healthy h) (sightings h).
Definition set_latency_watch (h : PathWatch) (x : LatencyWatch) : PathWatch :=
  mk_path_watch (watch_address h) (watch_endpoint h) (max_age h) (requires_probe h)
    (probe_interval h) (probe_sequence h) (next_probe h) (pending_probe h) (rtt h) x
    (probes_attempted h) (consecutive_losses h) (icmp_answered h) (published_health h)
    (published_error h) (verdict h) (started h) (reported_silence h) (last_authenticated_receive
    h) (published_healthy h) (sightings h).
Definition set_probes_attempted (h : PathWatch) (x : Z) : PathWatch :=
  mk_path_watch (watch_address h) (watch_endpoint h) (max_age h) (requires_probe h)
    (probe_interval h) (probe_sequence h) (next_probe h) (pending_probe h) (rtt h)
    (latency_watch h) x (consecutive_losses h) (icmp_answered h) (published_health h)
    (published_error h) (verdict h) (started h) (reported_silence h) (last_authenticated_receive
    h) (published_healthy h) (sightings h).
Definition set_consecutive_losses (h : PathWatch) (x : Z) : PathWatch :=
  mk_path_watch (watch_address h) (watch_endpoint h) (max_age h) (requires_probe h)
    (probe_interval h) (probe_sequence h) (next_probe h) (pending_probe h) (rtt h)
    (latency_watch h) (probes_attempted h) x (icmp_answered h) (published_health h)
    (published_error h) (verdict h) (started h) (reported_silence h) (last_authenticated_receive
    h) (published_healthy h) (sightings h).
Definition set_icmp_answered (h : PathWatch) (x : bool) : PathWatch :=
  mk_path_watch (watch_address h) (watch_endpoint h) (max_age h) (requires_probe h)
    (probe_interval h) (probe_sequence h) (next_probe h) (pending_probe h) (rtt h)
    (latency_watch h) (probes_attempted h) (consecutive_losses h) x (published_health h)
    (published_error h) (verdict h) (started h) (reported_silence h) (last_authenticated_receive
    h) (published_healthy h) (sightings h).
Definition set_published_health (h : PathWatch) (x : option f64 * bool) : PathWatch :=
  mk_path_watch (watch_address h) (watch_endpoint h) (max_age h) (requires_probe h)
    (probe_interval h) (probe_sequence h) (next_probe h) (pending_probe h) (rtt h)
    (latency_watch h) (probes_attempted h) (consecutive_losses h) (icmp_answered h) x
    (published_error h) (verdict h) (started h) (reported_silence h) (last_authenticated_receive
    h) (published_healthy h) (sightings h).
Definition set_published_error (h : PathWatch) (x : bool) : PathWatch :=
  mk_path_watch (watch_address h) (watch_endpoint h) (max_age h) (requires_probe h)
    (probe_interval h) (probe_sequence h) (next_probe h) (pending_probe h) (rtt h)
    (latency_watch h) (probes_attempted h) (consecutive_losses h) (icmp_answered h)
    (published_health h) x (verdict h) (started h) (reported_silence h)
    (last_authenticated_receive h) (published_healthy h) (sightings h).
Definition set_verdict (h : PathWatch) (x : bool) : PathWatch :=
  mk_path_watch (watch_address h) (watch_endpoint h) (max_age h) (requires_probe h)
    (probe_interval h) (probe_sequence h) (next_probe h) (pending_probe h) (rtt h)
    (latency_watch h) (probes_attempted h) (consecutive_losses h) (icmp_answered h)
    (published_health h) (published_error h) x (started h) (reported_silence h)
    (last_authenticated_receive h) (published_healthy h) (sightings h).
Definition set_reported_silence (h : PathWatch) (x : bool) : PathWatch :=
  mk_path_watch (watch_address h) (watch_endpoint h) (max_age h) (requires_probe h)
    (probe_interval h) (probe_sequence h) (next_probe h) (pending_probe h) (rtt h)
    (latency_watch h) (probes_attempted h) (consecutive_losses h) (icmp_answered h)
    (published_health h) (published_error h) (verdict h) (started h) x
    (last_authenticated_receive h) (published_healthy h) (sightings h).
Definition set_last_authenticated_receive (h : PathWatch) (x : option Z) : PathWatch :=
  mk_path_watch (watch_address h) (watch_endpoint h) (max_age h) (requires_probe h)
    (probe_interval h) (probe_sequence h) (next_probe h) (pending_probe h) (rtt h)
    (latency_watch h) (probes_attempted h) (consecutive_losses h) (icmp_answered h)
    (published_health h) (published_error h) (verdict h) (started h) (reported_silence h) x
    (published_healthy h) (sightings h).
Definition set_published_healthy (h : PathWatch) (x : bool) : PathWatch :=
  mk_path_watch (watch_address h) (watch_endpoint h) (max_age h) (requires_probe h)
    (probe_interval h) (probe_sequence h) (next_probe h) (pending_probe h) (rtt h)
    (latency_watch h) (probes_attempted h) (consecutive_losses h) (icmp_answered h)
    (published_health h) (published_error h) (verdict h) (started h) (reported_silence h)
    (last_authenticated_receive h) x (sightings h).
Definition set_sightings (h : PathWatch) (x : list Sighting) : PathWatch :=
  mk_path_watch (watch_address h) (watch_endpoint h) (max_age h) (requires_probe h)
    (probe_interval h) (probe_sequence h) (next_probe h) (pending_probe h) (rtt h)
    (latency_watch h) (probes_attempted h) (consecutive_losses h) (icmp_answered h)
    (published_health h) (published_error h) (verdict h) (started h) (reported_silence h)
    (last_authenticated_receive h) (published_healthy h) x.
Definition saw (x : Sighting) (h : PathWatch) : PathWatch := set_sightings h (x :: sightings h).

(** What the loop keeps between turns; [dialing] is whether a dial is under way, its
    outcome comes through [dials]. *)
Record Worker (T : Type) := mk_worker {
  path : option T;
  watch : option PathWatch;
  dialing : bool;
  backoff : Z;
  next_redial : option Z;
  last_iteration : Z
}.
Arguments mk_worker {T} path watch dialing backoff next_redial last_iteration.
Arguments path {T} w.
Arguments watch {T} w.
Arguments dialing {T} w.
Arguments backoff {T} w.
Arguments next_redial {T} w.
Arguments last_iteration {T} w.

Definition set_next_redial {T} (w : Worker T) (x : option Z) : Worker T :=
  mk_worker (path w) (watch w) (dialing w) (backoff w) x (last_iteration w).
Definition set_last_iteration {T} (w : Worker T) (x : Z) : Worker T :=
  mk_worker (path w) (watch w) (dialing w) (backoff w) (next_redial w) x.
Definition set_open {T} (w : Worker T) (p : T) (h : PathWatch) : Worker T :=
  mk_worker (Some p) (Some h) (dialing w) (backoff w) (next_redial w) (last_iteration w).

(** ** Status *)

Definition clear_error (st : PathSessionStatus) : PathSessionStatus :=
  set_reachable st (reachable st) (status_latency_ms st) None.
Definition dialled (st : PathSessionStatus) (endpoint : list byte) : PathSessionStatus :=
  mk_status (route st) (path_kind st) (label st) endpoint false (return_path_selection st) false
    (status_latency_ms st) (handshake_ms st) (handshake_round_trips st) (packets_sent st)
    (packets_received st) (bytes_sent st) (bytes_received st) (probes_sent st) (probes_received st)
    (probes_lost st) (loss_percent st) None.
(** The handshake stands in for the end-to-end latency until a probe answers. *)
Definition judged (st : PathSessionStatus) (reachable wireguard : bool) (handshake : option f64)
    (error : option (list byte)) : PathSessionStatus :=
  let latency := match status_latency_ms st with Some l => Some l | None => handshake end in
  set_handshake (set_reachable st reachable latency error) handshake (if wireguard then Some 1 else None).
Definition answered_status (st : PathSessionStatus) (sent : Z) (latency : f64) : PathSessionStatus :=
  let st := add_probes st sent 1 0 in set_reachable st (reachable st) (Some latency) (last_error st).

(** The session and the addresses that its nodes send from. *)
Record Direct (T L : Type) := mk_direct { shared : Shared T L; addresses : list (list byte) }.
Arguments mk_direct {T L} shared addresses.
Arguments shared {T L} d.
Arguments addresses {T L} d.

Section worker.
Context {W V F L : Type} `{!WireGuardTunnel W} `{!OpenVpnTunnel V} `{!ForwardingStack F} `{!LocalStackSink L}.
Context (index : nat) (identifier : Z).
Notation T := (DirectPath W V F).
Notation prog := (prog (Shared T L)).
Notation outer := (Threads.prog (Direct T L)).
Implicit Types (w : Worker T) (h : PathWatch) (p : T).

Definition with_shared (d : Direct T L) (s : Shared T L) : Direct T L := mk_direct s (addresses d).
Definition inner {A} (m : prog A) : outer A := zoom shared with_shared m.

(** [SessionNodes::set_address]. *)
Definition set_address (address : list byte) : outer unit :=
  store (λ d, mk_direct (shared d) (<[index := address]> (addresses d))).

(** *** Opening *)

Definition new_watch p : prog PathWatch :=
  let requires_probe := terminates_locally p in
  next ← now;
  opened ← now;
  mret (mk_path_watch (address p) (endpoint p) (if requires_probe then None else Some PATH_QUEUE_MAX_AGE)
          requires_probe (if requires_probe then SOCKS5_PROBE_INTERVAL else PROBE_INTERVAL) 0 next None
          (with_floor (probe_deadline_floor p)) default_watch 0 0 false (None, false) false false opened false
          None false []).

Definition open_worker (p : option T) : prog (Worker T) :=
  h ← (match p with Some p => h ← new_watch p; mret (Some h) | None => mret None end);
  let backoff := match p with Some _ => RECONNECT_BACKOFF_MIN | None => next_backoff RECONNECT_BACKOFF_MIN end in
  next ← (match p with
          | Some _ => mret None
          | None => at_instant ← now; mret (Some (at_instant + backoff))
          end);
  last ← now;
  mret (mk_worker p h false backoff next last).

(** *** Dials *)

Definition adopt_path (opened : T) w : outer (Worker T) :=
  fresh ← inner (new_watch opened);
  _ ← set_address (watch_address fresh);
  _ ← inner (publish_health index false);
  _ ← inner (update_status index (λ st, dialled st (watch_endpoint fresh)));
  mret (mk_worker (Some opened) (Some fresh) false RECONNECT_BACKOFF_MIN (next_redial w) (last_iteration w)).

Definition dial_failed (error : list byte) w : prog (Worker T) :=
  let backoff := next_backoff (backoff w) in
  at_instant ← now;
  _ ← update_status index (λ st, set_error st error);
  mret (mk_worker (path w) ((λ h, set_published_error h true) <$> watch w) false backoff
          (Some (at_instant + backoff)) (last_iteration w)).

Definition collect_dial w : outer (Worker T) :=
  if negb (dialing w) then mret w else
  received ← inner (take_dial index);
  match received with
  | Empty => mret w
  | Received (Ok opened) => adopt_path opened w
  | Received (Err error) => inner (dial_failed error w)
  | Disconnected => inner (dial_failed (str "the dial stopped without a result") w)
  end.

(** [begin_dial]: whether the dialling thread started. *)
Definition begin_dial : prog bool :=
  act (λ s, Ret (match spawn_error s with
                 | None => (true, with_dials s (<[index := Empty]> (dials s)))
                 | Some _ => (false, s)
                 end)).

(** A dial has nowhere to go while the uplink itself is down. *)
Definition start_dial w : prog (Worker T) :=
  if dialing w then mret w else
  match next_redial w with
  | None => mret w
  | Some due =>
      at_instant ← now;
      if at_instant <? due then mret w else
      monitor ← load uplink;
      if bool_decide (Uplink.state monitor = Down) then mret w else
      spawned ← begin_dial;
      if spawned : bool
      then mret (mk_worker (path w) (watch w) true (backoff w) None (last_iteration w))
      else
        at_instant ← now;
        mret (set_next_redial w (Some (at_instant + next_backoff (backoff w))))
  end.

(** *** Without a node to carry them *)

Definition shed_queued : prog unit :=
  drain_send_queue None index (λ frame u, mret (zlen frame, Err (str "the node is not open"), u))
    (λ _ _, add_here Dropped index 1) ().

(** *** Health *)

Definition measure_gap w : prog (Worker T) :=
  at_instant ← now;
  let gap_ms := Z.min u64_max (since at_instant (last_iteration w) / 1000000) in
  _ ← count_here WorkerGapPeakMs index (Z.max gap_ms);
  _ ← add_here Iterations index 1;
  mret (set_last_iteration w at_instant).

Definition notice_activity p h : prog (T * PathWatch) :=
  let '(active, p) := take_upstream_activity p in
  if active : bool then
    at_instant ← now;
    mret (p, saw (Stirred at_instant) (set_last_authenticated_receive h (Some at_instant)))
  else mret (p, h).

(** Authenticated return traffic outranks the verdict of the probes. *)
Definition is_carrying h : prog bool :=
  match last_authenticated_receive h with
  | Some seen => at_instant ← now; mret (since at_instant seen <=? DIRECT_LIVENESS_WINDOW)
  | None => mret false
  end.

Definition plan_redial (losing : bool) p w : prog (Worker T) :=
  if losing && needs_redial_when_lost p && negb (dialing w) && bool_decide (next_redial w = None)
  then at_instant ← now; mret (set_next_redial w (Some (at_instant + backoff w)))
  else mret w.

Definition stopped_error h : list byte :=
  watch_endpoint h ++ str " stopped answering probes sent through the tunnel".

Definition publish_verdict (handshake : option f64) (losing : bool) p h : prog PathWatch :=
  let reachable := bool_decide (is_Some handshake) && negb losing in
  h ← (if negb (eqb reachable (published_healthy h))
       then _ ← publish_health index reachable; mret (set_published_healthy h reachable)
       else mret h);
  if opt_f64_ne handshake (published_health h).1 || negb (eqb reachable (published_health h).2) then
    _ ← update_status index (λ st,
          judged st reachable (bool_decide (kind p = KIND_WIREGUARD)) handshake
            (if losing then Some (stopped_error h) else None));
    mret (set_published_health (set_verdict (set_published_error h losing) losing) (handshake, reachable))
  else mret h.

(** The verdict of the turn: whether the node is reachable. *)
Definition judge p h w : prog (bool * Worker T) :=
  let handshake := handshake_latency_ms p in
  '(p, h) ← notice_activity p h;
  carrying ← is_carrying h;
  let losing := probe_outage (requires_probe h) (icmp_answered h) (consecutive_losses h) carrying in
  w ← plan_redial losing p w;
  h ← publish_verdict handshake losing p h;
  mret (bool_decide (is_Some handshake) && negb losing, set_open w p h).

(** *** Sending *)

Definition send_queued (frame : list byte) p : prog (Z * result (list byte) unit * T) :=
  '(outcome, p) ← act (λ s, let '(outcome, p) := send_packet p frame in
                            Ret ((outcome, p), with_wire s (wire s ++ [(Z.of_nat index, frame)])));
  _ ← (match outcome with
       | Ok _ => mret ()
       | Err error =>
           _ ← add_here Dropped index 1;
           _ ← add_here SendFailed index 1;
           store (λ s, with_diagnostics s (record_error (diagnostics s) TransportSend frame error true))
       end);
  mret (zlen frame, outcome, p).

Definition drain p h : prog T :=
  drain_send_queue (max_age h) index send_queued
    (λ length outcome, update_status index (λ st, record_path_send st length outcome)) p.

(** An error is shown unless there is a better answer. *)
Definition show_error (error : list byte) h : prog PathWatch :=
  if verdict h then mret h else
  _ ← update_status index (λ st, set_error st error);
  mret (set_published_error h true).

Definition wrap16 (z : Z) : Z := z mod 2 ^ 16.

Definition send_health_probe p h : prog (T * PathWatch) :=
  if bool_decide (is_Some (pending_probe h)) then mret (p, h) else
  at_instant ← now;
  if at_instant <? next_probe h then mret (p, h) else
  let h := set_probe_sequence h (wrap16 (probe_sequence h + 1)) in
  let probe := icmp_echo_packet (watch_address h) DIRECT_PROBE_TARGET identifier (probe_sequence h) false in
  let '(outcome, p) := send_probe p probe in
  h ← (match outcome with
       | Ok _ =>
           let h := set_probes_attempted h (probes_attempted h + 1) in
           _ ← (if icmp_answered h || requires_probe h
                then update_status index (λ st, add_probes st 1 0 0) else mret ());
           at_instant ← now;
           mret (saw (Sent (probe_sequence h)) (set_pending_probe h (Some (probe_sequence h, at_instant))))
       | Err error => show_error error h
       end);
  at_instant ← now;
  mret (p, set_next_probe h (at_instant + probe_interval h)).

(** *** Receiving *)

Definition score (f : PathMetrics → PathMetrics) : prog unit :=
  act (λ s,
    match scheduler_metrics s !! index with
    | None => Panic
    | Some m => Ret ((), with_scheduler_metrics s (<[index := f m]> (scheduler_metrics s)))
    end).

Definition probe_answered (sent_at : Z) h : prog PathWatch :=
  at_instant ← now;
  let elapsed := since at_instant sent_at in
  e ← lift (Rtt.record (rtt h) elapsed);
  let h := set_rtt h e in
  let latency := fmul (as_secs_f64 elapsed) (of_int 1000) in
  let first := negb (icmp_answered h) in
  let h := set_consecutive_losses (set_icmp_answered h true) 0 in
  _ ← update_status index (λ st,
        answered_status st (if first && negb (requires_probe h) then 1 else 0) latency);
  _ ← score (λ m, Scheduler.record_probe m latency);
  observed_at ← now;
  let h := set_latency_watch h (Latency.observe (latency_watch h) latency observed_at).2 in
  at_instant ← now;
  mret (set_last_authenticated_receive h (Some at_instant)).

Definition deliver (packet : list byte) : prog (result TrySendError unit) :=
  act (λ s, let '(outcome, q) := inbound_try_send (inbound s) packet (clock s) in
            Ret (outcome, with_inbound s q)).

Definition handle_data (packet : list byte) h : prog PathWatch :=
  _ ← update_status index (λ st, record_path_receive st (zlen packet));
  h ← (if requires_probe h then mret h
       else at_instant ← now; mret (set_last_authenticated_receive h (Some at_instant)));
  outcome ← deliver packet;
  match outcome with
  | Err (QueueFull _) =>
      _ ← add_here Dropped index 1;
      _ ← add_here InboundDropped index 1;
      mret h
  | _ => mret h
  end.

Definition handle_packet (packet : list byte) h : prog PathWatch :=
  match icmp_reply_sequence packet DIRECT_PROBE_TARGET (watch_address h) identifier with
  | Some sequence =>
      let '(found, pending) := take_matching_probe (pending_probe h) sequence in
      let h := set_pending_probe h pending in
      match found with
      | Some sent_at => probe_answered sent_at h
      | None => mret h
      end
  | None => handle_data packet h
  end.

(** One packet from the transport, recorded as it arrived. *)
Definition hear (packet : list byte) h : prog PathWatch :=
  began ← now;
  h ← handle_packet packet h;
  ended ← now;
  mret (saw (Arrived packet began ended) h).

(** An error that the next packet disproves is cleared. *)
Definition receive (reachable : bool) p h : prog (T * PathWatch) :=
  let '(received, p) := receive_packets p WORKER_RECEIVE_TIMEOUT in
  match received with
  | Ok packets =>
      h ← for_each packets hear h;
      if published_error h && reachable then
        _ ← update_status index clear_error;
        mret (p, set_published_error h false)
      else mret (p, h)
  | Err error => h ← show_error error h; mret (p, h)
  end.

(** *** The end of a turn *)

Definition publish_transport p : prog T :=
  let '(stale, full, p) := take_transport_drops p in
  _ ← record_transport_drops index stale full;
  mret p.

Definition silent_error h : list byte :=
  str "no WireGuard handshake reply from " ++ watch_endpoint h
  ++ str "; check the configuration's Endpoint, PrivateKey and Peer PublicKey".

Definition report_silence p h : prog PathWatch :=
  if negb (reported_silence h) && bool_decide (kind p = KIND_WIREGUARD) && bool_decide (handshake_latency_ms p = None)
  then
    at_instant ← now;
    if secs 3 <? since at_instant (started h) then
      let h := set_verdict (set_published_error (set_reported_silence h true) true) true in
      _ ← update_status index (λ st, set_error st (silent_error h));
      mret h
    else mret h
  else mret h.

Definition probe_timed_out h : prog PathWatch :=
  let h := set_pending_probe h None in
  if icmp_answered h || requires_probe h then
    let h := set_consecutive_losses h (consecutive_losses h + 1) in
    _ ← update_status index (λ st, add_probes st 0 0 1);
    _ ← score Scheduler.record_loss;
    mret h
  else if DIRECT_PROBE_ATTEMPTS <=? probes_attempted h then
    at_instant ← now; mret (set_next_probe h (at_instant + DIRECT_QUIET_PROBE_INTERVAL))
  else mret h.

Definition expire_probe h : prog PathWatch :=
  probe_timeout ← (if requires_probe h then mret SOCKS5_PROBE_TIMEOUT else lift (timeout (rtt h)));
  match pending_probe h with
  | None => mret h
  | Some (_, sent_at) =>
      at_instant ← now;
      if probe_timeout <? since at_instant sent_at
      then h ← probe_timed_out h; mret (saw Overdue h)
      else mret h
  end.

(** *** The loop *)

Definition carry p h w : prog (Worker T) :=
  w ← measure_gap w;
  '(reachable, w) ← judge p h w;
  match path w, watch w with
  | Some p, Some h =>
      p ← drain p h;
      '(p, h) ← send_health_probe p h;
      '(p, h) ← receive reachable p h;
      p ← publish_transport p;
      h ← report_silence p h;
      h ← expire_probe h;
      mret (set_open w p h)
  | _, _ => mret w
  end.

Definition turn w : outer (Worker T) :=
  w ← collect_dial w;
  w ← inner (start_dial w);
  match path w, watch w with
  | Some p, Some h => inner (carry p h w)
  | _, _ => _ ← inner shed_queued; mret w
  end.

Fixpoint run_turns (turns : nat) w : outer (Worker T) :=
  match turns with
  | O => mret w
  | S turns' =>
      stopped ← load (λ d, Session.stop (shared d));
      if stopped : bool then mret w else w ← turn w; run_turns turns' w
  end.

Definition run_direct_path (turns : nat) (p : option T) : outer (Worker T) :=
  w ← inner (open_worker p);
  run_turns turns w.
End worker.
