(* ===== verification/DirectTheorems.v ===== *)
(** * DirectTheorems: what a direct session's worker reports, whatever runs beside it

    The worker of [DirectWorker] among any steps of the other threads of the session:
    they leave its own row of the statuses, its bit of the health mask and the clock's
    direction alone, and may do anything else between its steps. *)
From S2P Require Import Prelude Text Float64 Mtu Icmp Scheduler Rtt Health Uplink Dialer Latency Diagnostics LocalTap Threads Session RelayWorker DirectWorker.

Section direct.
Context {W V F L : Type} `{!WireGuardTunnel W} `{!OpenVpnTunnel V} `{!ForwardingStack F} `{!LocalStackSink L}.
Context (index : nat) (identifier : Z) (routes : nat) (local : bool).
Context (Hindex : (index < routes)%nat) (Hroutes : (routes <= 64)%nat).
Notation T := (DirectPath W V F).
Notation prog := (prog (Shared T L)).
Notation outer := (Threads.prog (Direct T L)).
Implicit Types (s : Shared T L) (st : PathSessionStatus) (h : PathWatch) (w : Worker T) (p : T).

(** ** The state and the others *)

(** [local] is whether the node is a stack in this process; redialling a node opens
    the same kind again. *)
Record fits (s : Shared T L) : Prop := {
  fi_commands : length (commands s) = routes;
  fi_telemetry : ∀ c, length (telemetry s c) = routes;
  fi_statuses : length (statuses s) = routes;
  fi_metrics : length (scheduler_metrics s) = routes;
  fi_dials : length (dials s) = routes;
  fi_healthy : 0 <= cells s HealthyMask < 2 ^ 64;
  fi_clock : 0 <= clock s <= LONGEST_SAMPLE;
  fi_kind : ∀ p, dials s !! index = Some (Received (Ok p)) → terminates_locally p = local
}.

Definition own_status s : option PathSessionStatus := statuses s !! index.
Definition own_bit s : bool := Z.testbit (cells s HealthyMask) (Z.of_nat index).

Definition others (s s' : Shared T L) : Prop :=
  fits s → fits s' ∧ own_status s' = own_status s ∧ own_bit s' = own_bit s ∧ clock s <= clock s'.

(** What the worker knows: its status, its bit, and that the clock reads [c] at least. *)
Definition at_ (st : PathSessionStatus) (up : bool) (c : Z) (s : Shared T L) : Prop :=
  fits s ∧ own_status s = Some st ∧ own_bit s = up ∧ c <= clock s.

Lemma at_others st up c s s' : at_ st up c s → others s s' → at_ st up c s'.
Proof.
  intros (Hf & Hs & Hb & Hc) Ho. destruct (Ho Hf) as (Hf' & Hs' & Hb' & Hc'). split; [done|].
  split_and!; [congruence..|lia].
Qed.

(** ** Rules *)

Definition does {A} (m : prog A) st (up : bool) (c : Z) (Q : A → PathSessionStatus → bool → Z → Prop) : Prop :=
  ∀ s, at_ st up c s → among others m s (λ a s', ∃ st' up' c', at_ st' up' c' s' ∧ Q a st' up' c').

Lemma does_ret {A} (a : A) st up c (Q : A → PathSessionStatus → bool → Z → Prop) :
  Q a st up c → does (mret a) st up c Q.
Proof. intros HQ s Hs. by exists st, up, c. Qed.

Lemma does_bind {A B} (m : prog A) (f : A → prog B) st up c (Q : B → PathSessionStatus → bool → Z → Prop) :
  does m st up c (λ a st' up' c', does (f a) st' up' c' Q) → does (m ≫= f) st up c Q.
Proof.
  intros Hm s Hs. apply among_bind. eapply among_mono; [by apply Hm|].
  intros a s' (st' & up' & c' & Hat & Hf). by apply Hf.
Qed.

Lemma does_mono {A} (m : prog A) st up c (Q Q' : A → PathSessionStatus → bool → Z → Prop) :
  does m st up c Q → (∀ a st' up' c', Q a st' up' c' → Q' a st' up' c') → does m st up c Q'.
Proof.
  intros Hm HQ s Hs. eapply among_mono; [by apply Hm|]. intros a s' (st' & up' & c' & Hat & Hq).
  exists st', up', c'. auto.
Qed.

Lemma does_act {X} (op : Shared T L → run (X * Shared T L)) st up c (Q : X → PathSessionStatus → bool → Z → Prop) :
  (∀ s, at_ st up c s → ∃ x s' st' up' c', op s = Ret (x, s') ∧ at_ st' up' c' s' ∧ Q x st' up' c') →
  does (act op) st up c Q.
Proof.
  intros Hop s Hs s1 H1. destruct (Hop s1 (at_others _ _ _ _ _ Hs H1)) as (x & s' & st' & up' & c' & -> & Hat & HQ).
  by exists st', up', c'.
Qed.

Lemma does_now st up c (Q : Z → PathSessionStatus → bool → Z → Prop) :
  (∀ t, c <= t → 0 <= t <= LONGEST_SAMPLE → Q t st up t) → does now st up c Q.
Proof.
  intros HQ. apply does_act. intros s (Hf & Hs & Hb & Hc). exists (clock s), s, st, up, (clock s).
  split; [done|]. split; [done|]. apply HQ; [done|]. apply Hf.
Qed.

Lemma does_load {X} (f : Shared T L → X) st up c (Q : X → PathSessionStatus → bool → Z → Prop) :
  (∀ s, at_ st up c s → Q (f s) st up c) → does (load f) st up c Q.
Proof. intros HQ. apply does_act. intros s Hs. exists (f s), s, st, up, c. auto. Qed.

(** A step that changes nothing of the worker's own. *)
Definition keeps_own (s s' : Shared T L) : Prop :=
  fits s' ∧ statuses s' = statuses s ∧ cells s' HealthyMask = cells s HealthyMask ∧ clock s' = clock s.

Lemma does_aside {X} (op : Shared T L → run (X * Shared T L)) (P : X → Prop) st up c (Q : X → PathSessionStatus → bool → Z → Prop) :
  (∀ s, fits s → ∃ x s', op s = Ret (x, s') ∧ keeps_own s s' ∧ P x) →
  (∀ x, P x → Q x st up c) → does (act op) st up c Q.
Proof.
  intros Hop HQ. apply does_act. intros s (Hf & Hs & Hb & Hc).
  destruct (Hop s Hf) as (x & s' & E & (Hf' & Hst & Hm & Hcl) & HP).
  exists x, s', st, up, c. split; [done|]. split; [|auto]. split; [done|].
  unfold own_status, own_bit in *. rewrite Hst, Hm, Hcl. done.
Qed.

Lemma does_store (f : Shared T L → Shared T L) st up c (Q : unit → PathSessionStatus → bool → Z → Prop) :
  (∀ s, fits s → keeps_own s (f s)) → Q () st up c → does (store f) st up c Q.
Proof.
  intros Hf HQ. apply (does_aside _ (λ _, True)); [|by intros []]. intros s Hs. exists (), (f s). auto.
Qed.

Lemma does_lift {A} (m : run A) a st up c (Q : A → PathSessionStatus → bool → Z → Prop) :
  m = Ret a → Q a st up c → does (lift m) st up c Q.
Proof.
  intros -> HQ. apply (does_aside _ (λ x, x = a)); [|by intros ? ->]. intros s Hs. by exists a, s.
Qed.

Lemma does_for_each {A B} (l : list A) (f : A → B → prog B) b st up c (I : B → PathSessionStatus → bool → Z → Prop) :
  I b st up c → (∀ x b st up c, x ∈ l → I b st up c → does (f x b) st up c I) → does (for_each l f b) st up c I.
Proof.
  intros Hb Hf s Hs. apply (among_for_each others l f b s (λ b s, ∃ st' up' c', at_ st' up' c' s ∧ I b st' up' c')).
  - by exists st, up, c.
  - intros x b' s' Hx (st' & up' & c' & Hat & HI). exact (Hf x b' st' up' c' Hx HI s' Hat).
Qed.

(** *** The steps of the worker *)

Lemma keeps_cell x v s : fits s → x ≠ HealthyMask → keeps_own s (set_cell x v s).
Proof.
  intros Hf Hx. split_and!; try done; [destruct Hf; split; try done|];
    unfold set_cell; cbn [with_cells cells]; by rewrite decide_False by congruence.
Qed.

Lemma keeps_counter x i f s : fits s → keeps_own s (set_counter x i f s).
Proof.
  intros Hf. split_and!; try done. destruct Hf; split; try done. intros c. by rewrite length_set_counter.
Qed.

Lemma keeps_commands s x : fits s → length x = routes → keeps_own s (with_commands s x).
Proof. intros [] Hx. by split. Qed.
Lemma keeps_metrics s x : fits s → length x = routes → keeps_own s (with_scheduler_metrics s x).
Proof. intros [] Hx. by split. Qed.
Lemma keeps_inbound s x : fits s → keeps_own s (with_inbound s x).
Proof. intros []. by split. Qed.
Lemma keeps_wire s x : fits s → keeps_own s (with_wire s x).
Proof. intros []. by split. Qed.
Lemma keeps_diagnostics s x : fits s → keeps_own s (with_diagnostics s x).
Proof. intros []. by split. Qed.

Lemma does_count x n st up c (Q : unit → PathSessionStatus → bool → Z → Prop) :
  Q () st up c → does (count_add x index n) st up c Q.
Proof. apply does_store. intros s Hs. by apply keeps_counter. Qed.

Lemma does_here x f st up c (Q : unit → PathSessionStatus → bool → Z → Prop) :
  Q () st up c → does (count_here x index f) st up c Q.
Proof.
  intros HQ. apply (does_aside _ (λ _, True)); [|by intros []]. intros s Hs. unfold counter_at.
  destruct (lookup_lt_is_Some_2 (telemetry s x) index) as [v ->]; [by rewrite (fi_telemetry s Hs)|].
  eexists _, _. split; [done|]. split; [by apply keeps_counter|done].
Qed.

Lemma does_status f st up c (Q : unit → PathSessionStatus → bool → Z → Prop) :
  Q () (f st) up c → does (update_status index f) st up c Q.
Proof.
  intros HQ. apply does_act. intros s (Hf & Hs & Hb & Hc). unfold own_status in Hs. rewrite Hs.
  eexists _, _, _, _, _. split; [done|]. split; [|exact HQ]. assert (index < length (statuses s))%nat as Hlt
    by (by eapply lookup_lt_Some). split; [|split; [|done]].
  - destruct Hf. split; try done. cbn. by rewrite length_insert.
  - unfold own_status. cbn. by apply list_lookup_insert_eq.
Qed.

Lemma does_health b st up c (Q : unit → PathSessionStatus → bool → Z → Prop) :
  Q () st b c → does (publish_health index b) st up c Q.
Proof.
  intros HQ. apply does_act. intros s (Hf & Hs & Hb & Hc).
  eexists _, _, _, _, _. split; [done|]. split; [|exact HQ]. pose proof (fi_healthy s Hf) as Hm. split; [|split; [done|split; [|done]]].
  - destruct Hf. split; try done. unfold set_cell. cbn [with_cells cells]. rewrite decide_True by done.
    apply publish_range; [done|lia].
  - unfold own_bit, set_cell. cbn [with_cells cells]. rewrite decide_True by done.
    rewrite publish_testbit by lia. by rewrite decide_True.
Qed.

Lemma does_score f st up c (Q : unit → PathSessionStatus → bool → Z → Prop) :
  Q () st up c → does (score index f) st up c Q.
Proof.
  intros HQ. apply (does_aside _ (λ _, True)); [|by intros []]. intros s Hs.
  destruct (lookup_lt_is_Some_2 (scheduler_metrics s) index) as [m ->]; [by rewrite (fi_metrics s Hs)|].
  eexists _, _. split; [done|]. split; [|done]. apply keeps_metrics; [done|].
  rewrite length_insert. apply Hs.
Qed.

Lemma does_deliver packet st up c (Q : result TrySendError unit → PathSessionStatus → bool → Z → Prop) :
  (∀ outcome, Q outcome st up c) → does (deliver packet) st up c Q.
Proof.
  intros HQ. apply (does_aside _ (λ _, True)); [|auto]. intros s Hs.
  destruct (inbound_try_send (inbound s) packet (clock s)) as [outcome q].
  eexists _, _. split; [done|]. split; [by apply keeps_inbound|done].
Qed.

Lemma does_drops stale full st up c (Q : unit → PathSessionStatus → bool → Z → Prop) :
  Q () st up c → does (record_transport_drops index stale full) st up c Q.
Proof.
  intros HQ. unfold record_transport_drops. destruct (_ =? 0); [by apply does_ret|].
  apply does_bind, does_here, does_bind, does_here, does_here, HQ.
Qed.

Lemma does_take_dial st up c (Q : Channel T → PathSessionStatus → bool → Z → Prop) :
  (∀ received, (∀ p, received = Received (Ok p) → terminates_locally p = local) → Q received st up c) →
  does (take_dial index) st up c Q.
Proof.
  intros HQ. apply (does_aside _ (λ received, ∀ p, received = Received (Ok p) → terminates_locally p = local)); [|done].
  intros s Hs. destruct (lookup_lt_is_Some_2 (dials s) index) as [x Hx]; [by rewrite (fi_dials s Hs)|]. rewrite Hx.
  eexists _, _. split; [done|]. split.
  - split_and!; try done. destruct Hs as [??????? Hk]. split; try done; cbn.
    + destruct x; try done. by rewrite length_insert.
    + intros p Hp. apply Hk. destruct x; try done.
      rewrite list_lookup_insert_eq in Hp; [done|by eapply lookup_lt_Some].
  - intros p ->. by apply (fi_kind s Hs).
Qed.

Lemma does_begin_dial st up c (Q : bool → PathSessionStatus → bool → Z → Prop) :
  (∀ spawned, Q spawned st up c) → does (begin_dial index) st up c Q.
Proof.
  intros HQ. apply (does_aside _ (λ _, True)); [|auto]. intros s Hs. destruct (spawn_error s).
  - by eexists _, _.
  - eexists _, _. split; [done|]. split; [|done]. split_and!; try done. destruct Hs as [????? ?? Hk].
    split; try done; cbn; [by rewrite length_insert|]. intros p Hp.
    destruct (decide (index < length (dials s))%nat); [by rewrite list_lookup_insert_eq in Hp|].
    rewrite list_insert_ge in Hp by lia. by apply Hk.
Qed.

Lemma does_drain {X} max_age (send : list byte → X → prog (Z * result (list byte) unit * X))
    (record : Z → result (list byte) unit → prog unit) x st up c
    (I : X → PathSessionStatus → bool → Z → Prop) :
  I x st up c →
  (∀ x st up c c', c <= c' → I x st up c → I x st up c') →
  (∀ frame x st up c, I x st up c →
     does (send frame x) st up c (λ r st up c, does (record r.1.1 r.1.2) st up c (λ _ st up c, I r.2 st up c))) →
  does (drain_send_queue max_age index send record x) st up c I.
Proof.
  intros HI Hlater Hstep. unfold drain_send_queue. generalize PATH_SEND_BATCH as batch. intros batch.
  revert x st up c HI. induction batch as [|batch IH]; intros x st up c HI; cbn [drain_loop]; [by apply does_ret|].
  apply does_bind. apply does_mono with (λ r st up c, I r.2 st up c);
    [|intros [more x'] st' up' c' HI'; destruct more; [by apply IH|by apply does_ret]].
  unfold drain_one. apply does_bind. apply (does_aside _ (λ _, True)).
  { intros s Hs. destruct (lookup_lt_is_Some_2 (commands s) index) as [q Hq]; [by rewrite (fi_commands s Hs)|].
    rewrite Hq. destruct (waiting q) as [|command rest]; [by eexists _, _|].
    eexists _, _. split; [done|]. split; [|done]. apply keeps_commands; [done|]. rewrite length_insert. apply Hs. }
  intros [command|] _; [|by apply does_ret]. apply does_bind, does_count, does_bind, does_now.
  intros t Ht _. apply (Hlater _ _ _ _ t Ht) in HI. case_match.
  - apply does_bind, does_count, does_bind, does_count, does_ret, HI.
  - apply does_bind. eapply does_mono; [by apply Hstep|]. intros [[length outcome] x'] st' up' c' Hrec.
    apply does_bind. eapply does_mono; [exact Hrec|]. intros [] st2 up2 c2 HI2. by apply does_ret.
Qed.

(** ** What was seen of a transport

    Read off the record of what happened, newest first, and not off the worker's
    counters: which probe waits for an answer, whether one was ever answered, how many
    were left unanswered since the last answer, and when something last came back that
    only the far end can have sent. *)

Definition replies (a packet : list byte) : option Z := icmp_reply_sequence packet DIRECT_PROBE_TARGET a identifier.

Fixpoint outstanding (a : list byte) (seen : list Sighting) : option Z :=
  match seen with
  | [] | Overdue :: _ => None
  | Sent q :: _ => Some q
  | Stirred _ :: seen => outstanding a seen
  | Arrived packet _ _ :: seen =>
      if bool_decide (is_Some (replies a packet) ∧ replies a packet = outstanding a seen) then None
      else outstanding a seen
  end.

(** A packet answers the probe that was outstanding before it came. *)
Definition answers (a : list byte) (x : Sighting) (before : list Sighting) : bool :=
  match x with
  | Arrived packet _ _ => bool_decide (is_Some (replies a packet) ∧ replies a packet = outstanding a before)
  | _ => false
  end.

Fixpoint answered (a : list byte) (seen : list Sighting) : bool :=
  match seen with [] => false | x :: seen => answers a x seen || answered a seen end.

Fixpoint unanswered (a : list byte) (seen : list Sighting) : Z :=
  match seen with
  | [] => 0
  | Overdue :: seen => 1 + unanswered a seen
  | x :: seen => if answers a x seen then 0 else unanswered a seen
  end.

(** Of a node beyond this process every packet counts but a reply to a probe that no
    longer waits; of a stack in this process only answers do, and its own word. *)
Definition comes_back (a : list byte) (x : Sighting) (before : list Sighting) : option (Z * Z) :=
  match x with
  | Arrived packet began ended =>
      if answers a x before || negb local && bool_decide (replies a packet = None) then Some (began, ended) else None
  | Stirred at_instant => Some (at_instant, at_instant)
  | _ => None
  end.

Fixpoint last_return (a : list byte) (seen : list Sighting) : option (Z * Z) :=
  match seen with
  | [] => None
  | x :: seen => match comes_back a x seen with Some t => Some t | None => last_return a seen end
  end.

(** The worker's counters are what the record says. *)
Record recorded (a : list byte) h : Prop := {
  re_pending : outstanding a (sightings h) = fst <$> pending_probe h;
  re_answered : answered a (sightings h) = icmp_answered h;
  re_losses : local = true ∨ icmp_answered h = true → consecutive_losses h = unanswered a (sightings h);
  re_return :
    match last_authenticated_receive h, last_return a (sightings h) with
    | Some t, Some (t1, t2) => t1 <= t <= t2
    | None, None => True
    | _, _ => False
    end
}.

(** ** The invariant *)

(** A probe that was counted as sent and has neither answer nor deadline yet. *)
Definition owed h : Z :=
  if bool_decide (is_Some (pending_probe h)) && (icmp_answered h || requires_probe h) then 1 else 0.

(** Every answer and loss was sent before; until a node beyond this process answers
    once, nothing is counted. *)
Definition tally (owed : Z) st : Prop :=
  0 <= probes_received st ∧ 0 <= probes_lost st ∧ probes_received st + probes_lost st + owed <= probes_sent st ∧
  (local = false → probes_received st = 0 → probes_sent st = 0).

Record watch_ok (a : list byte) h st : Prop := {
  wo_address : watch_address h = a;
  wo_local : requires_probe h = local;
  wo_rtt : within 0 LONGEST_SAMPLE (rtt h);
  wo_pending : ∀ q t, pending_probe h = Some (q, t) → 0 <= t;
  wo_tally : tally (owed h) st;
  wo_answered : icmp_answered h = true → 0 < probes_received st;
  wo_losses : 0 <= consecutive_losses h;
  wo_quiet : local = false → icmp_answered h = false → consecutive_losses h = 0
}.

(** What is shown of the node is what was last found. *)
Definition shown h st (up : bool) : Prop :=
  reachable st = published_healthy h ∧ (published_health h).2 = published_healthy h ∧ up = published_healthy h.

Definition fair (a : list byte) h st (up : bool) : Prop := watch_ok a h st ∧ shown h st up.
Definition good (a : list byte) h st (up : bool) : Prop := fair a h st up ∧ recorded a h.

(** The kind of a transport does not change. *)
Definition like p p' : Prop :=
  terminates_locally p' = terminates_locally p ∧ needs_redial_when_lost p' = needs_redial_when_lost p.

Definition opened p : Prop := terminates_locally p = local.

(** A dial is under way or planned for a node that is not open or that lost its link. *)
Definition dials_for_cause w : Prop :=
  (dialing w = true → next_redial w = None) ∧
  (dialing w = true ∨ next_redial w ≠ None → match path w with None => True | Some p => needs_redial_when_lost p = true end).

Definition worker_ok (a : list byte) w st (up : bool) : Prop :=
  dials_for_cause w ∧
  match path w, watch w with
  | Some p, Some h => opened p ∧ good a h st up
  | None, None => tally 0 st ∧ reachable st = false ∧ up = false
  | _, _ => False
  end.

(** A change of a status that no count and no verdict is part of. *)
Definition same_counts st st' : Prop :=
  probes_sent st' = probes_sent st ∧ probes_received st' = probes_received st ∧ probes_lost st' = probes_lost st.

Lemma tally_same o st st' : same_counts st st' → tally o st → tally o st'.
Proof. intros (H1 & H2 & H3). unfold tally. by rewrite H1, H2, H3. Qed.

Lemma watch_ok_same a h st st' : same_counts st st' → watch_ok a h st → watch_ok a h st'.
Proof.
  intros Hs []. split; try done; [by eapply tally_same|]. destruct Hs as (_ & -> & _). done.
Qed.

Lemma good_same_status a h st st' up : same_counts st st' → reachable st' = reachable st → good a h st up → good a h st' up.
Proof. intros Hs Hr [[Hw (H1 & H2 & H3)] Hre]. split; [|done]. split; [by eapply watch_ok_same|]. by split; [congruence|]. Qed.

(** A change of a watch that only what is logged, shown or timed depends on. *)
Definition same_watch h h' : Prop :=
  watch_address h' = watch_address h ∧
  requires_probe h' = requires_probe h ∧ rtt h' = rtt h ∧ pending_probe h' = pending_probe h ∧
  icmp_answered h' = icmp_answered h ∧ consecutive_losses h' = consecutive_losses h ∧
  published_healthy h' = published_healthy h ∧ (published_health h').2 = (published_health h).2 ∧
  sightings h' = sightings h ∧ last_authenticated_receive h' = last_authenticated_receive h.

Lemma good_watch a h h' st up : same_watch h h' → good a h st up → good a h' st up.
Proof.
  intros (H0 & H1 & H2 & H3 & H4 & H5 & H6 & H7 & H8 & H9) [[[] (S1 & S2 & S3)] []]. split; [split|].
  - split; unfold owed; rewrite ?H0, ?H1, ?H2, ?H3, ?H4, ?H5; done.
  - split_and!; congruence.
  - split; rewrite ?H3, ?H4, ?H5, ?H8, ?H9; done.
Qed.

(** *** The record follows the worker *)

Lemma recorded_sent a h q t : recorded a h → recorded a (saw (Sent q) (set_pending_probe h (Some (q, t)))).
Proof. intros []. by split. Qed.

Lemma recorded_stirred a h t :
  recorded a h → recorded a (saw (Stirred t) (set_last_authenticated_receive h (Some t))).
Proof. intros []. by split. Qed.

(** A probe whose time is up. *)
Lemma recorded_overdue a h :
  recorded a h →
  recorded a (saw Overdue (set_consecutive_losses (set_pending_probe h None) (consecutive_losses h + 1))) ∧
  (local = false → icmp_answered h = false → recorded a (saw Overdue (set_pending_probe h None))).
Proof.
  intros []. split.
  - split; try done. cbn. intros H. rewrite re_losses0 by done. lia.
  - intros Hl Ha. split; try done. cbn. intros [H|H]; congruence.
Qed.

(** What the worker does with a packet: an answer, a reply that comes late, or data. *)
Definition took (a packet : list byte) h h' (c c' : Z) : Prop :=
  sightings h' = sightings h ∧ ∃ t, c <= t <= c' ∧
  match replies a packet with
  | Some q =>
      if bool_decide (fst <$> pending_probe h = Some q)
      then pending_probe h' = None ∧ icmp_answered h' = true ∧ consecutive_losses h' = 0 ∧
           last_authenticated_receive h' = Some t
      else pending_probe h' = pending_probe h ∧ icmp_answered h' = icmp_answered h ∧
           consecutive_losses h' = consecutive_losses h ∧
           last_authenticated_receive h' = last_authenticated_receive h
  | None =>
      pending_probe h' = pending_probe h ∧ icmp_answered h' = icmp_answered h ∧
      consecutive_losses h' = consecutive_losses h ∧
      last_authenticated_receive h' = if local then last_authenticated_receive h else Some t
  end.

Lemma recorded_arrived a packet h h' began c c' ended :
  recorded a h → took a packet h h' c c' → began <= c → c' <= ended →
  recorded a (saw (Arrived packet began ended) h').
Proof.
  intros [H1 H2 H3 H4] (Es & t & Ht & Hp) Hb He. unfold saw.
  destruct (replies a packet) as [q|] eqn:Er.
  - rewrite <-H1 in Hp. case_bool_decide as Eq; destruct Hp as (P1 & P2 & P3 & P4).
    + assert (∀ b e, answers a (Arrived packet b e) (sightings h) = true) as Ha.
      { intros b e. cbn. by rewrite Er, Eq, bool_decide_true. }
      split; cbn -[answers]; rewrite ?Es, ?P1, ?P2, ?P3, ?P4, ?Ha; try done.
      * cbn. by rewrite Er, Eq, bool_decide_true.
      * cbn. lia.
    + assert (∀ b e, answers a (Arrived packet b e) (sightings h) = false) as Ha.
      { intros b e. cbn. rewrite Er, bool_decide_false; [done|]. naive_solver. }
      split; cbn -[answers]; rewrite ?Es, ?P1, ?P2, ?P3, ?P4, ?Ha; try done.
      * cbn. rewrite Er, bool_decide_false; [done|]. naive_solver.
      * rewrite Er, bool_decide_false, andb_false_r by done. done.
  - destruct Hp as (P1 & P2 & P3 & P4).
    assert (∀ b e, answers a (Arrived packet b e) (sightings h) = false) as Ha.
    { intros b e. cbn. rewrite Er, bool_decide_false; [done|]. by intros [[] _]. }
    split; cbn -[answers]; rewrite ?Es, ?P1, ?P2, ?P3, ?P4, ?Ha; try done.
    + cbn. rewrite Er, bool_decide_false; [done|]. by intros [[] _].
    + rewrite Er, bool_decide_true by done. destruct local; cbn; [done|lia].
Qed.

#[local] Ltac watched H := eapply good_watch; [|exact H]; done.

Lemma like_refl p : like p p.
Proof. done. Qed.
Lemma like_trans p p' p'' : like p p' → like p' p'' → like p p''.
Proof. intros [] []. split; congruence. Qed.

Lemma like_send p packet : like p (send_packet p packet).2.
Proof. by destruct p. Qed.
Lemma like_probe p packet : like p (send_probe p packet).2.
Proof. by destruct p. Qed.
Lemma like_receive p timeout : like p (receive_packets p timeout).2.
Proof. destruct p as [q|q|q]; try done. cbn. by destruct (openvpn_receive q timeout). Qed.
Lemma like_drops p : like p (take_transport_drops p).2.
Proof. destruct p as [q|q|q]; try done. Qed.
Lemma like_activity p : like p (take_upstream_activity p).2.
Proof. by destruct p. Qed.
Lemma like_opened p p' : like p p' → opened p → opened p'.
Proof. unfold opened. intros [-> _]. done. Qed.

(** ** A turn *)

Lemma does_show_error a error h st up c :
  good a h st up → does (show_error index error h) st up c (λ h' st up _, good a h' st up).
Proof.
  intros Hg. unfold show_error. case_match; [by apply does_ret|].
  apply does_bind, does_status, does_ret. eapply good_watch; [|eapply good_same_status; [..|exact Hg]]; done.
Qed.

Lemma does_send_probe a p h st up c :
  good a h st up →
  does (send_health_probe index identifier p h) st up c (λ r st up _, like p r.1 ∧ good a r.2 st up).
Proof.
  intros Hg. unfold send_health_probe. case_bool_decide as Hp; [by apply does_ret|].
  apply does_bind, does_now. intros t Ht _. case_match; [by apply does_ret|].
  set (h1 := set_probe_sequence h _). set (packet := icmp_echo_packet _ _ _ _ _).
  assert (good a h1 st up) as Hg1 by watched Hg. clearbody packet.
  pose proof (like_probe p packet) as Hl. destruct (send_probe p packet) as [outcome p']. cbn [snd] in Hl.
  apply does_bind. apply does_mono with (λ h' st' up' _, good a h' st' up').
  - destruct outcome as [[]|error]; [|by apply does_show_error].
    set (h2 := set_probes_attempted h1 _). assert (good a h2 st up) as [[Hw2 Hs2] Hre2] by watched Hg1.
    destruct Hw2. assert (owed h2 = 0) as Ho.
    { unfold owed. by rewrite bool_decide_eq_false_2 by done. }
    rewrite Ho in wo_tally0. destruct wo_tally0 as (Hr & Hl0 & Hsum & Hq).
    assert (∀ st', probes_received st' = probes_received st → probes_lost st' = probes_lost st →
      probes_sent st' = probes_sent st + (if icmp_answered h2 || requires_probe h2 then 1 else 0) →
      reachable st' = reachable st → ∀ t, 0 <= t →
      good a (saw (Sent (probe_sequence h2)) (set_pending_probe h2 (Some (probe_sequence h2, t)))) st' up) as Hnew.
    { intros st' E1 E2 E3 E4 t' Ht'. split; [|by apply recorded_sent].
      split; [|by destruct Hs2 as (? & ? & ?); split_and!; cbn in *; congruence].
      split; cbn -[set_probes_attempted]; try done; [by intros q t2 [= _ <-]| |by rewrite E1].
      assert (owed (saw (Sent (probe_sequence h2)) (set_pending_probe h2 (Some (probe_sequence h2, t'))))
        = if icmp_answered h2 || requires_probe h2 then 1 else 0) as -> by done.
      unfold tally. rewrite E1, E2, E3. split_and!; [done|done|destruct (_ || _); lia|].
      intros Hloc Hz. destruct (icmp_answered h2) eqn:Ea; [specialize (wo_answered0 eq_refl); lia|].
      rewrite wo_local0, Hloc. cbn. rewrite Hq by done. done. }
    apply does_bind. destruct (icmp_answered h2 || requires_probe h2) eqn:Ea.
    + apply does_status, does_bind, does_now. intros t2 _ Ht2. apply does_ret. apply Hnew; cbn; lia || done.
    + apply does_ret, does_bind, does_now. intros t2 _ Ht2. apply does_ret. apply Hnew; cbn; lia || done.
  - intros h' st' up' c' Hg'. apply does_bind, does_now. intros t' _ _. apply does_ret. split; [done|].
    watched Hg'.
Qed.

(** A probe that is pending leaves with an answer. *)
Lemma does_probe_answered a h q sent_at st up c :
  fair a h st up → pending_probe h = Some (q, sent_at) →
  does (probe_answered index sent_at (set_pending_probe h None)) st up c (λ h' st up c', fair a h' st up ∧
    sightings h' = sightings h ∧ pending_probe h' = None ∧ icmp_answered h' = true ∧ consecutive_losses h' = 0 ∧
    ∃ t, c <= t <= c' ∧ last_authenticated_receive h' = Some t).
Proof.
  intros [[] Hs] Hp. pose proof (wo_pending0 _ _ Hp) as Hsent. destruct wo_tally0 as (Hr & Hl & Hsum & Hq).
  assert (owed h = if icmp_answered h || requires_probe h then 1 else 0) as Ho.
  { unfold owed. rewrite Hp. by rewrite bool_decide_eq_true_2 by by eexists. }
  rewrite Ho in Hsum. unfold probe_answered. apply does_bind, does_now. intros t Hct Ht.
  destruct (record_within 0 LONGEST_SAMPLE (rtt h) (since t sent_at)) as (e & He & Hw & _); [done..|unfold since; lia|].
  apply does_bind. eapply does_lift; [exact He|]. apply does_bind, does_status, does_bind, does_score.
  apply does_bind, does_now. intros t2 Ht2 _. apply does_bind, does_now. intros t3 Ht3 _. apply does_ret.
  cbn [set_pending_probe icmp_answered requires_probe]. split; [|by split_and!; [..|exists t3; split; [lia|]]].
  split; [|by destruct Hs as (? & ? & ?)].
  assert (∀ n, n = (if negb (icmp_answered h) && negb (requires_probe h) then 1 else 0) →
    probes_received st + 1 + probes_lost st <= probes_sent st + n) as Hsum'.
  { intros n ->. destruct (icmp_answered h), (requires_probe h); cbn in *; lia. }
  split; try done; cbn; [|lia].
  unfold tally. cbn. split_and!; [lia|lia| |intros; lia]. specialize (Hsum' _ eq_refl). lia.
Qed.

Lemma fair_data a h st up x :
  fair a h st up → fair a (if requires_probe h then h else set_last_authenticated_receive h x) st up.
Proof. intros [[] Hs]. by destruct (requires_probe h) eqn:E; split; try done; split; try done; cbn; rewrite E. Qed.

Lemma does_data a packet h st up c :
  fair a h st up → replies a packet = None →
  does (handle_data index packet h) st up c (λ h' st up c', fair a h' st up ∧ took a packet h h' c c').
Proof.
  intros Hg Hr. unfold handle_data. apply does_bind, does_status.
  assert (fair a h (record_path_receive st (zlen packet)) up) as Hg1.
  { destruct Hg as [Hw Hs]. split; [by apply (watch_ok_same a h st)|done]. }
  apply does_bind. apply does_mono with (λ h' st up c', fair a h' st up ∧ took a packet h h' c c').
  - pose proof (wo_local _ _ _ (proj1 Hg)) as Hl. pose proof (λ x, fair_data a h _ up x Hg1) as Hd. rewrite Hl in Hd |- *. destruct local eqn:El.
    + apply does_ret. split; [done|]. split; [done|]. exists c. rewrite Hr, El. by split; [lia|].
    + apply does_bind, does_now. intros t Ht _. apply does_ret. split; [apply Hd|].
      split; [done|]. exists t. rewrite Hr, El. by split; [lia|].
  - intros h' st' up' c' [Hg' Ht]. apply does_bind, does_deliver.
    intros [[]|[]]; [by apply does_ret| |by apply does_ret].
    by apply does_bind, does_here, does_bind, does_here, does_ret.
Qed.

Lemma does_packet a packet h st up c :
  good a h st up →
  does (handle_packet index identifier packet h) st up c (λ h' st up c', fair a h' st up ∧ took a packet h h' c c').
Proof.
  intros [Hg Hre]. unfold handle_packet. rewrite (wo_address _ _ _ (proj1 Hg)). fold (replies a packet).
  destruct (replies a packet) as [q|] eqn:Er; [|by apply does_data].
  assert (∀ x, x = pending_probe h → bool_decide (fst <$> pending_probe h = Some q) = false →
    does (mret (set_pending_probe h x)) st up c (λ h' st up c', fair a h' st up ∧ took a packet h h' c c')) as Hsame.
  { intros ? -> Hno. apply does_ret. replace (set_pending_probe h (pending_probe h)) with h by by destruct h.
    split; [done|]. split; [done|]. exists c. rewrite Er, Hno. by split; [lia|]. }
  destruct (pending_probe h) as [[expected sent_at]|] eqn:Hp; cbn [take_matching_probe]; [|by apply Hsame].
  destruct (Z.eqb_spec expected q) as [->|Hne]; [|apply Hsame; [done|]; apply bool_decide_false; cbn; congruence].
  eapply does_mono; [by eapply does_probe_answered|].
  intros h' st' up' c' (Hf & H1 & H2 & H3 & H4 & t & Ht & H5). split; [done|]. split; [done|]. exists t.
  rewrite Er, Hp, bool_decide_true by done. split; [done|by split_and!].
Qed.

Lemma does_hear a packet h st up c :
  good a h st up → does (hear index identifier packet h) st up c (λ h' st up _, good a h' st up).
Proof.
  intros Hg. unfold hear. apply does_bind, does_now. intros began Hb _.
  apply does_bind. eapply does_mono; [by apply does_packet|]. intros h' st' up' c' [Hf Ht].
  apply does_bind, does_now. intros ended He _. apply does_ret.
  split; [|eapply recorded_arrived; [apply Hg|exact Ht|lia|lia]].
  destruct Hf as [[] Hs]. by split.
Qed.

Lemma does_receive a reachable_now p h st up c :
  good a h st up →
  does (receive index identifier reachable_now p h) st up c (λ r st up _, like p r.1 ∧ good a r.2 st up).
Proof.
  intros Hg. unfold receive. pose proof (like_receive p WORKER_RECEIVE_TIMEOUT) as Hl.
  destruct (receive_packets p WORKER_RECEIVE_TIMEOUT) as [[packets|error] p']; cbn [snd] in Hl.
  - apply does_bind. apply does_mono with (λ h' st up _, good a h' st up).
    { apply does_for_each; [done|]. intros packet h' st' up' c' _. apply does_hear. }
    intros h' st' up' c' Hg'. case_match; [|by apply does_ret].
    apply does_bind, does_status, does_ret. split; [done|].
    eapply good_watch; [|eapply good_same_status; [..|exact Hg']]; done.
  - apply does_bind. eapply does_mono; [by apply does_show_error|]. intros h' st' up' c' Hg'. by apply does_ret.
Qed.

Lemma does_transport p st up c (Q : T → PathSessionStatus → bool → Z → Prop) :
  (∀ p', like p p' → Q p' st up c) → does (publish_transport index p) st up c Q.
Proof.
  intros HQ. unfold publish_transport. pose proof (like_drops p) as Hl.
  destruct (take_transport_drops p) as [[stale full] p']. apply does_bind, does_drops, does_ret, HQ, Hl.
Qed.

Lemma does_silence a p h st up c :
  good a h st up → does (report_silence index p h) st up c (λ h' st up _, good a h' st up).
Proof.
  intros Hg. unfold report_silence. case_match; [|by apply does_ret].
  apply does_bind, does_now. intros t _ _. case_match; [|by apply does_ret].
  apply does_bind, does_status, does_ret. eapply good_watch; [|eapply good_same_status; [..|exact Hg]]; done.
Qed.

Lemma does_expire a h st up c :
  good a h st up → does (expire_probe index h) st up c (λ h' st up _, good a h' st up).
Proof.
  intros Hg. pose proof Hg as [[[] Hs] Hre]. destruct (recorded_overdue a h Hre) as [Hlost Hquiet]. unfold expire_probe. apply does_bind. apply does_mono with (λ _ st' up' _, st' = st ∧ up' = up).
  { case_match; [by apply does_ret|]. destruct (timeout_within 0 LONGEST_SAMPLE (rtt h)) as (t & Ht & _); [done..|].
    by apply (does_lift _ t). }
  intros limit st1 up1 c1 [-> ->]. destruct (pending_probe h) as [[q sent_at]|] eqn:Hp; [|by apply does_ret].
  apply does_bind, does_now. intros t _ _. case_match; [|by apply does_ret].
  destruct wo_tally0 as (Hr & Hl & Hsum & Hq). unfold owed in Hsum. rewrite Hp in Hsum.
  rewrite bool_decide_eq_true_2 in Hsum by by eexists. cbn [andb] in Hsum.
  apply does_bind. unfold probe_timed_out. cbn [set_pending_probe icmp_answered requires_probe].
  assert (tally 0 st) as Htally by (unfold tally; split_and!; try done; destruct (_ || _); lia).
  assert (fair a (saw Overdue (set_pending_probe h None)) st up) as Hg0.
  { split; [|done]. split; try done. }
  destruct (icmp_answered h || requires_probe h) eqn:Ea; rewrite ?Ea in Hsum.
  - apply does_bind, does_status, does_bind, does_score, does_ret, does_ret. split; [|done].
    split; [|by destruct Hs as (? & ? & ?)]. split; try done; cbn.
    + unfold tally, owed. cbn. split_and!; [lia..|]. intros Hloc Hz. specialize (Hq Hloc). lia.
    + intros Ha. specialize (wo_answered0 Ha). lia.
    + lia.
    + intros Hloc Hans. rewrite wo_local0, Hloc, Hans in Ea. done.
  - apply orb_false_iff in Ea as [Ea Eb]. rewrite wo_local0 in Eb.
    assert (good a (saw Overdue (set_pending_probe h None)) st up) as Hg1 by (split; [done|by apply Hquiet]).
    case_match; [|by apply does_ret, does_ret].
    apply does_bind, does_now. intros t2 _ _. apply does_ret, does_ret. watched Hg1.
Qed.

Lemma does_drain_queue a p h st up c :
  good a h st up →
  does (drain index p h) st up c (λ p' st up _, like p p' ∧ good a h st up).
Proof.
  intros Hg. unfold drain. apply does_drain; [done|by auto|].
  intros frame p1 st1 up1 c1 [Hl1 Hg1]. unfold send_queued.
  pose proof (like_send p1 frame) as Hl. apply does_bind.
  apply (does_aside _ (λ r, r = send_packet p1 frame)).
  { intros s Hs. destruct (send_packet p1 frame) as [outcome p2]. eexists _, _. split; [done|]. split; [by apply keeps_wire|done]. }
  intros r ->. destruct (send_packet p1 frame) as [outcome p2]. cbn [snd] in Hl.
  assert (does (_ ← match outcome with
     | Ok _ => mret ()
     | Err error => _ ← add_here Dropped index 1; _ ← add_here SendFailed index 1;
         store (λ s : Shared T L, with_diagnostics s (record_error (diagnostics s) TransportSend frame error true))
     end; mret (zlen frame, outcome, p2)) st1 up1 c1 (λ r st up c, r = (zlen frame, outcome, p2) ∧ st = st1 ∧ up = up1)) as Hcount.
  { apply does_bind. destruct outcome as [[]|error]; [by apply does_ret, does_ret|].
    apply does_bind, does_here, does_bind, does_here, does_store; [intros s Hs; by apply keeps_diagnostics|]. by apply does_ret. }
  eapply does_mono; [exact Hcount|]. intros r st2 up2 c2 (-> & -> & ->). cbn [fst snd].
  apply does_status. split; [by eapply like_trans|]. eapply good_same_status; [..|exact Hg1]; by destruct outcome.
Qed.

(** *** The verdict *)

Lemma does_plan losing p w st up c (Q : Worker T → PathSessionStatus → bool → Z → Prop) :
  (∀ next c', c <= c' → next = next_redial w
     ∨ losing = true ∧ needs_redial_when_lost p = true ∧ dialing w = false ∧ is_Some next →
     (losing = true → needs_redial_when_lost p = true → dialing w = true ∨ is_Some next) →
     Q (set_next_redial w next) st up c') →
  does (plan_redial losing p w) st up c Q.
Proof.
  intros HQ. unfold plan_redial.
  destruct (losing && needs_redial_when_lost p && negb (dialing w) && bool_decide (next_redial w = None)) eqn:E.
  - b2p. apply does_bind, does_now. intros t Ht _. apply does_ret. apply HQ; [done| |].
    + right. by destruct (dialing w).
    + intros _ _. right. by eexists.
  - apply does_ret. destruct w as [wp wh wd wb wn wl]. cbn [next_redial dialing] in *.
    apply (HQ wn); [lia|by left|]. intros -> Hn. rewrite Hn in E. cbn in E. destruct wd; [by left|right].
    cbn in E. apply bool_decide_eq_false in E. by apply not_eq_None_Some.
Qed.

Lemma does_verdict handshake losing p h st up c (Q : PathWatch → PathSessionStatus → bool → Z → Prop) :
  shown h st up →
  (∀ h' st' c', let found := bool_decide (is_Some handshake) && negb losing in
     same_counts st st' → published_healthy h' = found → shown h' st' found →
     watch_address h' = watch_address h → requires_probe h' = requires_probe h → rtt h' = rtt h → pending_probe h' = pending_probe h →
     icmp_answered h' = icmp_answered h → consecutive_losses h' = consecutive_losses h →
     last_authenticated_receive h' = last_authenticated_receive h → sightings h' = sightings h →
     c <= c' → Q h' st' found c') →
  does (publish_verdict index handshake losing p h) st up c Q.
Proof.
  intros (S1 & S2 & S3) HQ. unfold publish_verdict. set (found := bool_decide (is_Some handshake) && negb losing) in *.
  apply does_bind. apply does_mono with (λ h' st' up' c', st' = st ∧ up' = found ∧ c' = c ∧ h' = set_published_healthy h found).
  { destruct (eqb found (published_healthy h)) eqn:E; cbn [negb].
    - apply does_ret. apply eqb_prop in E. split_and!; [done|congruence|done|]. rewrite E. by destruct h.
    - by apply does_bind, does_health, does_ret. }
  intros h' st' up' c' (-> & -> & -> & ->).
  destruct (opt_f64_ne _ _ || negb (eqb found (published_health (set_published_healthy h found)).2)) eqn:E.
  - apply does_bind, does_status, does_ret. apply HQ; done || lia.
  - apply does_ret. apply orb_false_iff in E as [_ E]. apply negb_false_iff, eqb_prop in E. cbn in E.
    apply HQ; try done; try lia. split_and!; cbn; congruence.
Qed.

(** What can count against a node: three probes in a row that it left unanswered,
    when it answered one before or is a stack in this process. *)
Definition suspect (a : list byte) (seen : list Sighting) : Prop :=
  (local = true ∨ answered a seen = true) ∧ DIRECT_LOSS_LIMIT <= unanswered a seen.

(** The evidence of a turn that began when the clock read [c] and ended at [c'], with
    [seen] of the transport by then. *)
Definition evidence (found : bool) p (a : list byte) (seen : list Sighting) w w' (c c' : Z) : Prop :=
  if found then
    is_Some (handshake_latency_ms p) ∧
    (suspect a seen → ∃ began ended, last_return a seen = Some (began, ended) ∧ c <= ended + DIRECT_LIVENESS_WINDOW)
  else
    handshake_latency_ms p = None
    ∨ suspect a seen ∧ (∀ began ended, last_return a seen = Some (began, ended) → began + DIRECT_LIVENESS_WINDOW < c')
      ∧ (needs_redial_when_lost p = true → dialing w = true ∨ is_Some (next_redial w')).

Lemma does_activity a p h st up c (Q : T * PathWatch → PathSessionStatus → bool → Z → Prop) :
  good a h st up →
  (∀ p' h' c', like p p' → c <= c' → good a h' st up → Q (p', h') st up c') →
  does (notice_activity p h) st up c Q.
Proof.
  intros Hg HQ. unfold notice_activity. pose proof (like_activity p) as Hl.
  destruct (take_upstream_activity p) as [[] p']; cbn [snd] in Hl.
  - apply does_bind, does_now. intros t Ht _. apply does_ret, HQ; [done..|].
    destruct Hg as [[[] Hs] Hre]. split; [by split|by apply recorded_stirred].
  - apply does_ret. apply HQ; [done|lia|done].
Qed.

Lemma does_judge a p h w st up c :
  path w = Some p → watch w = Some h → opened p → good a h st up → dials_for_cause w →
  does (judge index p h w) st up c (λ r st' up' c', ∃ p' h',
    path r.2 = Some p' ∧ watch r.2 = Some h' ∧ like p p' ∧ good a h' st' up' ∧ dials_for_cause r.2 ∧
    up' = r.1 ∧ same_counts st st' ∧ evidence r.1 p a (sightings h') w r.2 c c').
Proof.
  intros Hp Hh Ho Hg Hd. unfold judge. apply does_bind. eapply does_activity; [exact Hg|]. intros p1 h1 c1 Hl Hc1 Hg1.
  apply does_bind. apply does_mono with (λ carrying st' up' c', st' = st ∧ up' = up ∧ c1 <= c' ∧
    if carrying : bool then ∃ seen, last_authenticated_receive h1 = Some seen ∧ c1 <= seen + DIRECT_LIVENESS_WINDOW
    else ∀ seen, last_authenticated_receive h1 = Some seen → seen + DIRECT_LIVENESS_WINDOW < c').
  { unfold is_carrying. destruct (last_authenticated_receive h1) as [seen'|] eqn:Es; [|apply does_ret; split_and!; [done..|lia|done]].
    apply does_bind, does_now. intros t Ht _. apply does_ret. split; [done|]. split; [done|]. split; [lia|].
    destruct (Z.leb_spec (since t seen') DIRECT_LIVENESS_WINDOW) as [Hle|Hgt]; unfold since in *.
    - exists seen'. split; [done|lia].
    - intros ? [= <-]. unfold DIRECT_LIVENESS_WINDOW, secs in *. lia. }
  intros carrying st1 up1 c2 (-> & -> & Hc2 & Hcarry). set (losing := probe_outage _ _ _ carrying).
  assert (losing = true ↔ suspect a (sightings h1) ∧ carrying = false) as Hlosing.
  { destruct Hg1 as [[[] _] []]. unfold losing, probe_outage, suspect.
    rewrite re_answered0, <-wo_local0, !andb_true_iff, orb_true_iff, negb_true_iff, Z.leb_le.
    rewrite <-wo_local0 in re_losses0. split; intros [[H1 H2] H3]; rewrite re_losses0 in *; done. }
  clearbody losing. apply does_bind, does_plan. intros next c3 Hc3 Hnext Hplan.
  apply does_bind, does_verdict; [apply Hg1|]. intros h2 st2 c4. cbn zeta. destruct Hg1 as [[Hw1 Hs1] Hre1].
  set (found := bool_decide (is_Some (handshake_latency_ms p)) && negb losing).
  intros Hsame Hpub Hshown E0 E1 E2 E3 E4 E5 E6 E7 Hc4.
  apply does_ret. exists p1, h2. split; [done|]. split; [done|]. split; [done|]. split_and!; [| |done|done|].
  - split; [split; [|done]|].
    + apply (watch_ok_same a h2 st st2 Hsame). destruct Hw1.
      split; unfold owed; rewrite ?E0, ?E1, ?E2, ?E3, ?E4, ?E5; done.
    + destruct Hre1. split; rewrite ?E3, ?E4, ?E5, ?E6, ?E7; done.
  - destruct Hd as [Hone Hd]. rewrite Hp in Hd. split; cbn.
    + intros Hdial. destruct Hnext as [->|(_ & _ & Hno & _)]; [by apply Hone|congruence].
    + intros Hdial. destruct Hnext as [->|(_ & Hn & _)]; [|done]. destruct Hl as [_ ->]. by apply Hd.
  - pose proof (re_return _ _ Hre1) as Hret.
    unfold evidence. rewrite E7. cbn [fst snd set_open next_redial set_next_redial].
    destruct found eqn:Ef; unfold found in Ef.
    + apply andb_true_iff in Ef as [Hs Hnl%negb_true_iff]. apply bool_decide_eq_true in Hs. split; [done|].
      intros Hsus. destruct carrying; [|by rewrite (proj2 Hlosing (conj Hsus eq_refl)) in Hnl].
      destruct Hcarry as (x & Ex & ?). rewrite Ex in Hret. destruct (last_return a _) as [[t1 t2]|]; [|done].
      exists t1, t2. split; [done|lia].
    + destruct (handshake_latency_ms p); [|by left]. right. cbn in Ef. apply negb_false_iff in Ef.
      rewrite Ef in *. destruct (proj1 Hlosing eq_refl) as [Hsus ->]. split; [done|]. split.
      * intros t1 t2 E. rewrite E in Hret. destruct (last_authenticated_receive h1) as [x|]; [|done].
        specialize (Hcarry x eq_refl). lia.
      * intros Hneed. apply Hplan; [done|]. by destruct Hl as [_ ->].
Qed.

(** *** A whole turn *)

Lemma does_gap w st up c (Q : Worker T → PathSessionStatus → bool → Z → Prop) :
  (∀ t, c <= t → Q (set_last_iteration w t) st up t) → does (measure_gap index w) st up c Q.
Proof.
  intros HQ. unfold measure_gap. apply does_bind, does_now. intros t Ht _.
  apply does_bind, does_here, does_bind, does_here, does_ret, HQ, Ht.
Qed.

Lemma does_carry a p h w st up c :
  path w = Some p → watch w = Some h → opened p → good a h st up → dials_for_cause w →
  does (carry index identifier p h w) st up c (λ w' st' up' _, worker_ok a w' st' up').
Proof.
  intros Hp Hh Ho Hg Hd. unfold carry. apply does_bind, does_gap. intros t Ht.
  apply does_bind. eapply does_mono; [by apply (does_judge a p h (set_last_iteration w t))|].
  intros [found w1] st1 up1 c1 (p1 & h1 & Hp1 & Hh1 & Hl1 & Hg1 & Hd1 & _). cbn [fst snd] in *. rewrite Hp1, Hh1.
  apply does_bind. eapply does_mono; [by apply (does_drain_queue a)|]. intros p2 st2 up2 c2 [Hl2 Hg2].
  apply does_bind. eapply does_mono; [by apply (does_send_probe a)|]. intros [p3 h3] st3 up3 c3 [Hl3 Hg3].
  apply does_bind. eapply does_mono; [by apply (does_receive a)|]. intros [p4 h4] st4 up4 c4 [Hl4 Hg4].
  apply does_bind, does_transport. intros p5 Hl5.
  apply does_bind. eapply does_mono; [by apply (does_silence a)|]. intros h6 st6 up6 c6 Hg6.
  apply does_bind. eapply does_mono; [by apply (does_expire a)|]. intros h7 st7 up7 c7 Hg7.
  apply does_ret. cbn [fst snd] in *.
  assert (like p p5) as Hl by (repeat (eapply like_trans; [eassumption|]); done).
  split; [|split; [by eapply like_opened|done]].
  destruct Hd1 as [Hone Hd1]. split; [done|]. intros Hdial. cbn in *. specialize (Hd1 Hdial). rewrite Hp1 in Hd1.
  assert (like p1 p5) as [_ ->] by (repeat (eapply like_trans; [eassumption|]); done). done.
Qed.

(** ** The loop *)

(** What the others may do to the session and the addresses of its nodes. *)
Definition beside (d d' : Direct T L) : Prop :=
  others (shared d) (shared d') ∧ addresses d' !! index = addresses d !! index
  ∧ length (addresses d') = length (addresses d).

Lemma among_inner {A} (m : prog A) d (R : A → Shared T L → Prop) (Q : A → Direct T L → Prop) :
  among others m (shared d) R →
  (∀ a d', R a (shared d') → addresses d' !! index = addresses d !! index →
     length (addresses d') = length (addresses d) → Q a d') →
  among beside (inner m) d Q.
Proof.
  revert d. induction m as [a|X op k IH]; intros d Hm HQ; [by apply HQ|].
  intros d1 (Hs & Ha & Hn). specialize (Hm _ Hs). cbn.
  destruct (op (shared d1)) as [[x s2]|]; [|done]. cbn [mbind run_bind].
  apply IH; [done|]. intros a d' HR H1 H2. apply HQ; [done|..]; cbn in *; congruence.
Qed.

Definition sound w (d : Direct T L) : Prop :=
  ∃ a st up c, at_ st up c (shared d) ∧ worker_ok a w st up ∧ length (addresses d) = routes
    ∧ (is_Some (watch w) → addresses d !! index = Some a).

(** A call within the worker's thread. *)
Lemma among_does {A} (m : prog A) d st up c (P : A → PathSessionStatus → bool → Z → Prop) (Q : A → Direct T L → Prop) :
  does m st up c P → at_ st up c (shared d) →
  (∀ a d' st' up' c', at_ st' up' c' (shared d') → P a st' up' c' →
     addresses d' !! index = addresses d !! index → length (addresses d') = length (addresses d) → Q a d') →
  among beside (inner m) d Q.
Proof.
  intros Hm Hd HQ. eapply among_inner; [by apply Hm|]. intros a d' (st' & up' & c' & Hat & HP) H1 H2. by eapply HQ.
Qed.

Lemma does_new_watch p st up c :
  opened p →
  does (new_watch p) st up c (λ h st' up' _, st' = st ∧ up' = up ∧ watch_address h = address p ∧
    ∀ st', tally 0 st' → reachable st' = false → good (address p) h st' false).
Proof.
  intros Ho. unfold new_watch. apply does_bind, does_now. intros t1 _ _. apply does_bind, does_now. intros t2 _ _.
  apply does_ret. split_and!; [done..|]. intros st' Ht Hr. split; [|by split]. split; [|by split].
  split; try done. apply with_floor_within. done.
Qed.

Lemma among_adopt p w d :
  opened p → sound w d → dialing w = true → among beside (adopt_path index p w) d sound.
Proof.
  intros Ho (a & st & up & c & Hat & Hw & Hn & Ha) Hdialing. unfold adopt_path.
  pose proof (proj1 (proj1 Hw) Hdialing) as Hnext.
  assert (tally 0 st) as Htally.
  { destruct Hw as [_ Hw]. destruct (path w), (watch w) as [h|]; try done; [|by destruct Hw].
    destruct Hw as [_ [[[] _] _]]. unfold tally, owed in *. destruct (_ && _); split_and!; try tauto; lia. }
  apply among_bind. eapply among_does; [by apply does_new_watch|done|].
  intros h d1 st1 up1 c1 Hat1 (-> & -> & Haddr & Hgood) E1 N1.
  apply among_bind. intros d2 (Hs2 & E2 & N2). cbn [mbind among].
  set (d3 := mk_direct _ _). assert (at_ st up c1 (shared d3)) as Hat3 by by eapply at_others.
  assert (addresses d3 !! index = Some (watch_address h)) as Ha3 by (cbn; apply list_lookup_insert_eq; lia).
  assert (length (addresses d3) = routes) as Hn3 by (cbn; rewrite length_insert; lia).
  apply among_bind. eapply among_does; [by apply (does_health false _ _ _ (λ _ st' up' _, st' = st ∧ up' = false))|done|].
  intros [] d4 st4 up4 c4 Hat4 [-> ->] E4 N4.
  apply among_bind. eapply among_does.
  { by apply (does_status _ _ _ _ (λ _ st' up' _, st' = dialled st (watch_endpoint h) ∧ up' = false)). }
  { done. }
  intros [] d5 st5 up5 c5 Hat5 [-> ->] E5 N5. exists (address p), (dialled st (watch_endpoint h)), false, c5.
  split; [done|]. split; [|split; [congruence|]].
  - split; [|split; [done|]]; [by split; [|intros [[=]|]]|]. apply Hgood; [|done]. eapply tally_same; [|exact Htally]. done.
  - intros _. rewrite E5, E4, Ha3. by rewrite Haddr.
Qed.

Lemma does_dial_failed a error w st up c :
  worker_ok a w st up → dialing w = true →
  does (dial_failed index error w) st up c (λ w' st' up' _, worker_ok a w' st' up' ∧ (is_Some (watch w') → is_Some (watch w))).
Proof.
  intros [[Hone Hd] Hw] Hdial. unfold dial_failed. apply does_bind, does_now. intros t _ _.
  apply does_bind, does_status, does_ret. split; [split; [split; [done|]|]|]; cbn.
  - intros _. apply Hd. by left.
  - destruct (path w), (watch w) as [h|]; try done. destruct Hw as [Ho Hg]. split; [done|].
    eapply good_watch; [|eapply good_same_status; [..|exact Hg]]; done.
  - by intros ?%fmap_is_Some.
Qed.

Lemma does_start_dial a w st up c :
  worker_ok a w st up →
  does (start_dial index w) st up c (λ w' st' up' _, worker_ok a w' st' up' ∧ watch w' = watch w ∧ path w' = path w).
Proof.
  intros Hw. unfold start_dial. destruct (dialing w) eqn:Ed; [by apply does_ret|].
  destruct (next_redial w) as [due|] eqn:En; [|by apply does_ret]. pose proof Hw as [[Hone Hd] Hok].
  apply does_bind, does_now. intros t _ _. destruct (t <? due); [by apply does_ret|].
  apply does_bind, does_load. intros s _. destruct (bool_decide (Uplink.state _ = _)); [by apply does_ret|].
  apply does_bind, does_begin_dial. intros [].
  - apply does_ret. split; [|done]. split; [|done]. split; [done|]. intros _. cbn. apply Hd. right. by rewrite En.
  - apply does_bind, does_now. intros t2 _ _. apply does_ret. split; [|done]. split; [|done].
    split; cbn; [congruence|]. intros _. apply Hd. right. by rewrite En.
Qed.

Lemma does_shed st up c (Q : unit → PathSessionStatus → bool → Z → Prop) :
  (∀ c', Q () st up c') → does (shed_queued index) st up c Q.
Proof.
  intros HQ. unfold shed_queued. eapply does_mono.
  - apply (does_drain _ _ _ _ _ _ _ (λ _ st' up' _, st' = st ∧ up' = up)); [done|done|].
    intros frame [] st1 up1 c1 [-> ->]. apply does_ret. cbn [fst snd]. by apply does_here.
  - intros [] st' up' c' [-> ->]. apply HQ.
Qed.

(** [sound] from what a call within the thread leaves. *)
Lemma sound_after a w st up c (d d' : Direct T L) :
  at_ st up c (shared d') → worker_ok a w st up → length (addresses d) = routes →
  (is_Some (watch w) → addresses d !! index = Some a) →
  addresses d' !! index = addresses d !! index → length (addresses d') = length (addresses d) → sound w d'.
Proof. intros Hat Hw Hn Ha E N. exists a, st, up, c. split_and!; [done|done|congruence|]. by rewrite E. Qed.

Lemma among_collect w d : sound w d → among beside (collect_dial index w) d sound.
Proof.
  intros Hs. unfold collect_dial. destruct (dialing w) eqn:Ed; cbn [negb]; [|done].
  pose proof Hs as (a & st & up & c & Hat & Hw & Hn & Ha). apply among_bind. eapply among_does; [|done|].
  { apply (does_take_dial _ _ _ (λ received st' up' _, st' = st ∧ up' = up ∧
      ∀ p, received = Received (Ok p) → terminates_locally p = local)). by intros received Hr. }
  intros received d1 st1 up1 c1 Hat1 (-> & -> & Hkind) E1 N1.
  assert (sound w d1) as Hs1 by (eapply sound_after; [exact Hat1|exact Hw|exact Hn|done..]).
  assert (∀ error, among beside (inner (dial_failed index error w)) d1 sound) as Hfailed.
  { intros error. eapply among_does; [by apply (does_dial_failed a)|done|].
    intros w' d2 st2 up2 c2 Hat2 [Hw' Hsub] E2 N2. eapply sound_after; [exact Hat2|exact Hw'|exact Hn| |congruence..].
    auto. }
  destruct received as [|[p|error]|]; [done| |apply Hfailed..]. apply among_adopt; [|done..]. by apply Hkind.
Qed.

Lemma among_turn w d : sound w d → among beside (turn index identifier w) d sound.
Proof.
  intros Hs. unfold turn. apply among_bind. eapply among_mono; [by apply among_collect|]. clear w d Hs.
  intros w d (a & st & up & c & Hat & Hw & Hn & Ha). apply among_bind.
  eapply among_does; [by apply (does_start_dial a)|done|].
  intros w1 d1 st1 up1 c1 Hat1 (Hw1 & Eh & Ep) E1 N1. destruct (path w1) as [p|] eqn:Hp, (watch w1) as [h|] eqn:Hh.
  - eapply among_does; [|done|].
    { apply (does_carry a); [done|done|..]; destruct Hw1 as [Hd Hok]; rewrite Hp, Hh in Hok; [by apply Hok..|done]. }
    intros w2 d2 st2 up2 c2 Hat2 Hw2 E2 N2. eapply sound_after; [exact Hat2|exact Hw2|exact Hn| |congruence..].
    intros _. apply Ha. rewrite <-Eh. by eexists.
  - exfalso. destruct Hw1 as [_ Hok]. by rewrite Hp, Hh in Hok.
  - exfalso. destruct Hw1 as [_ Hok]. by rewrite Hp, Hh in Hok.
  - apply among_bind. eapply among_does; [|done|].
    { by apply (does_shed _ _ _ (λ _ st' up' _, st' = st1 ∧ up' = up1)). }
    intros [] d2 st2 up2 c2 Hat2 [-> ->] E2 N2. eapply sound_after; [exact Hat2|exact Hw1|exact Hn| |congruence..].
    rewrite Hh. by intros [].
Qed.

Lemma among_turns turns w d : sound w d → among beside (run_turns index identifier turns w) d sound.
Proof.
  revert w d. induction turns as [|turns IH]; intros w d Hs; cbn [run_turns]; [done|].
  intros d1 (Ho & E1 & N1). cbn [mbind].
  assert (sound w d1) as Hs1.
  { destruct Hs as (a & st & up & c & Hat & Hw & Hn & Ha). eapply sound_after; [by eapply at_others|done..]. }
  change (among beside (if Session.stop (shared d1) then mret w
    else w ← turn index identifier w; run_turns index identifier turns w) d1 sound).
  destruct (Session.stop (shared d1)); [done|]. apply among_bind. eapply among_mono; [by apply among_turn|]. done.
Qed.

Lemma beside_refl d : beside d d.
Proof. split_and!; [|done..]. intros Hf. by split_and!. Qed.

(** The session as its threads start: room for every route, the node's counters at
    zero, and, of a node that opened with the session, its address. *)
Definition begins (p : option T) (d : Direct T L) : Prop :=
  fits (shared d) ∧ length (addresses d) = routes
  ∧ (∃ st, own_status (shared d) = Some st ∧ probes_sent st = 0 ∧ probes_received st = 0 ∧ probes_lost st = 0
       ∧ reachable st = false)
  ∧ own_bit (shared d) = false
  ∧ match p with Some p => opened p ∧ addresses d !! index = Some (address p) | None => True end.

Lemma does_open (p : option T) st up c :
  (∀ q, p = Some q → opened q) →
  does (open_worker p) st up c (λ w st' up' _, st' = st ∧ up' = up ∧ path w = p ∧ dialing w = false ∧
    (is_Some p → next_redial w = None) ∧
    match p, watch w with
    | Some p, Some h => watch_address h = address p ∧ ∀ st', tally 0 st' → reachable st' = false → good (address p) h st' false
    | None, None => True
    | _, _ => False
    end).
Proof.
  intros Ho. unfold open_worker. apply does_bind. destruct p as [p|].
  - apply does_bind. eapply does_mono; [by apply does_new_watch, Ho|].
    intros h st' up' c' (-> & -> & Haddr & Hgood). apply does_ret, does_bind, does_ret, does_bind, does_now.
    intros t _ _. by apply does_ret.
  - apply does_ret, does_bind, does_bind, does_now. intros t _ _. apply does_ret, does_bind, does_now.
    intros t2 _ _. apply does_ret. by split_and!.
Qed.

Lemma among_run turns (p : option T) d : begins p d → among beside (run_direct_path index identifier turns p) d sound.
Proof.
  intros (Hf & Hn & (st & Hst & Hsent & Hrec & Hlost & Hreach) & Hbit & Hp). unfold run_direct_path.
  assert (tally 0 st) as Htally by (unfold tally; split_and!; lia).
  apply among_bind. eapply among_does.
  - apply (does_open p st false (clock (shared d))). intros q ->. apply Hp.
  - by split_and!.
  - intros w d1 st1 up1 c1 Hat1 (-> & -> & Hpath & Hdial & Hnone & Hwatch) E1 N1. apply among_turns.
    exists (match p with Some p => address p | None => [] end), st, false, c1. split; [done|]. split; [split|split; [lia|]].
    + split; [congruence|]. rewrite Hpath. destruct p; [|done]. intros [?|Hnext]; [congruence|].
      by rewrite (Hnone ltac:(by eexists)) in Hnext.
    + rewrite Hpath. destruct p as [p|], (watch w) as [h|]; try done. destruct Hp as [Ho _], Hwatch as [_ Hgood].
      split; [done|]. by apply Hgood.
    + intros [h Hh]. rewrite Hh in Hwatch. destruct p as [p|]; [|done]. rewrite E1. apply Hp.
Qed.

(** ** What is reported *)

Record honest w (d : Direct T L) : Prop := {
  ho_status : ∃ st, statuses (shared d) !! index = Some st
    ∧ Z.testbit (cells (shared d) HealthyMask) (Z.of_nat index) = reachable st
    ∧ (reachable st = true → is_Some (path w))
    ∧ probes_received st + probes_lost st <= probes_sent st
    ∧ (local = false → probes_received st = 0 → probes_sent st = 0 ∧ probes_lost st = 0);
  ho_address : ∀ h, watch w = Some h → addresses d !! index = Some (watch_address h);
  ho_redial : dialing w = true ∨ next_redial w ≠ None → ∀ p, path w = Some p → needs_redial_when_lost p = true
}.

Lemma sound_honest w d : sound w d → honest w d.
Proof.
  intros (a & st & up & c & (Hf & Hst & Hbit & _) & [[_ Hd] Hw] & Hn & Ha). split.
  - exists st. split; [done|]. unfold own_bit in Hbit. rewrite Hbit.
    destruct (path w) as [p|], (watch w) as [h|]; try done.
    + destruct Hw as (_ & [[] (H1 & H2 & H3)] & _). destruct wo_tally0 as (Hr & Hl & Hsum & Hq).
      assert (0 <= owed h) by (unfold owed; by destruct (_ && _)).
      split_and!; [congruence|by eexists|lia|]. intros Hloc Hz. specialize (Hq Hloc Hz). lia.
    + destruct Hw as ((Hr & Hl & Hsum & Hq) & H1 & H2). split_and!; [congruence|congruence|lia|].
      intros Hloc Hz. specialize (Hq Hloc Hz). lia.
  - intros h Hh. destruct (path w) as [p|]; rewrite Hh in Hw; [|done]. destruct Hw as (_ & [[] _] & _).
    rewrite wo_address0. apply Ha. rewrite Hh. by eexists.
  - intros Hdial p Hp. specialize (Hd Hdial). by rewrite Hp in Hd.
Qed.

(** C26. Whatever the other threads do, a direct session's worker never panics, and what
    the session shows of its node is true to it: the bit that packets are dispatched
    by is the status shown and is only set while the node is open; answered and lost
    probes never outnumber those sent, and a node beyond this process, a tunnel, that
    never answered one is charged with none, sent or lost, however many it filtered (of
    a stack in this process every probe is counted); the address captured packets leave
    with is that of the transport now open; and only a node that did not open, or one
    that cannot come back by itself, is dialled again. *)
Theorem direct_worker_reports_honestly turns (p : option T) d environment :
  begins p d → Forall (λ f, ∀ d, beside d (f d)) environment →
  ∃ w d' rest, exec_among environment (run_direct_path index identifier turns p) d = Ret (w, d', rest) ∧ honest w d'.
Proof.
  intros Hb He. destruct (among_exec beside _ d environment _ beside_refl He (among_run turns p d Hb))
    as (w & d' & rest & Hrun & Hs & _). exists w, d', rest. split; [done|]. by apply sound_honest.
Qed.

(** A turn up to its verdict. *)
Definition about_to_judge w : outer (Worker T) :=
  w ← collect_dial index w;
  w ← inner (start_dial index w);
  match path w with Some _ => inner (measure_gap index w) | None => mret w end.

Lemma among_about w d : sound w d → among beside (about_to_judge w) d sound.
Proof.
  intros Hs. unfold about_to_judge. apply among_bind. eapply among_mono; [by apply among_collect|]. clear w d Hs.
  intros w d (a & st & up & c & Hat & Hw & Hn & Ha). apply among_bind.
  eapply among_does; [by apply (does_start_dial a)|done|].
  intros w1 d1 st1 up1 c1 Hat1 (Hw1 & Eh & Ep) E1 N1. rewrite <-Eh in Ha.
  destruct (path w1) eqn:Hp; [|by eapply sound_after; [exact Hat1|exact Hw1|exact Hn|..]].
  eapply among_does; [|done|].
  { apply (does_gap _ _ _ _ (λ w' st' up' _, worker_ok a w' st' up' ∧ watch w' = watch w1)). intros t _. by split. }
  intros w2 d2 st2 up2 c2 Hat2 [Hw2 Eh2] E2 N2. rewrite <-Eh2 in Ha.
  eapply sound_after; [exact Hat2|exact Hw2|exact Hn|done|congruence..].
Qed.

(** C27. The verdict of every turn follows what was seen of the transport since it
    opened, whatever came before: the record of the probes that it took, of the packets
    that arrived and when, of what the stack itself noticed and of the probes whose time
    was up. An open node is reported down only without a handshake, or when the record
    has three probes or more left unanswered since the last answer, of a node that had
    answered one or that is a stack in this process, and nothing in it came back from
    beyond within the last five seconds, be it an answer to the probe that waited, a
    packet out of a tunnel, or a stack's own word; and a link that cannot come back by
    itself is then due to be dialled again. It is reported up only with a handshake and
    without such a record. *)
Theorem verdicts_follow_the_evidence turns (p0 : option T) d0 environment :
  begins p0 d0 → Forall (λ f, ∀ d, beside d (f d)) environment →
  ∃ w d rest,
    exec_among environment (w ← run_direct_path index identifier turns p0; about_to_judge w) d0 = Ret (w, d, rest) ∧
    ∀ p h, path w = Some p → watch w = Some h →
      ∃ found w' d' rest' h' st, exec_among rest (inner (judge index p h w)) d = Ret ((found, w'), d', rest')
        ∧ watch w' = Some h'
        ∧ statuses (shared d') !! index = Some st ∧ reachable st = found
        ∧ Z.testbit (cells (shared d') HealthyMask) (Z.of_nat index) = found
        ∧ evidence found p (watch_address h) (sightings h') w w' (clock (shared d)) (clock (shared d')).
Proof.
  intros Hb He. destruct (among_exec beside (w ← run_direct_path index identifier turns p0; about_to_judge w) d0 environment sound
    beside_refl He ltac:(apply among_bind; eapply among_mono; [by apply among_run|intros ??; apply among_about]))
    as (w & d & rest & Hrun & Hs & Hrest). exists w, d, rest. split; [done|]. intros p h Hp Hh.
  destruct Hs as (a & st & up & c & (Hf & Hst & Hbit & Hc) & [Hd Hw] & Hn & Ha). rewrite Hp, Hh in Hw. destruct Hw as [Ho Hg].
  rewrite (wo_address _ _ _ (proj1 (proj1 Hg))).
  assert (among beside (inner (judge index p h w)) d (λ r d', ∃ h' st', watch r.2 = Some h'
    ∧ statuses (shared d') !! index = Some st' ∧ reachable st' = r.1
    ∧ Z.testbit (cells (shared d') HealthyMask) (Z.of_nat index) = r.1
    ∧ evidence r.1 p a (sightings h') w r.2 (clock (shared d)) (clock (shared d')))) as Hj.
  { eapply among_does; [by apply (does_judge a p h w st up (clock (shared d)))|by split_and!|].
    intros [found w'] d' st' up' c' (Hf' & Hst' & Hbit' & Hc') (p' & h' & _ & Hh' & _ & [[_ (S1 & S2 & S3)] _] & _ & Hup & _ & Hev) _ _.
    cbn [fst snd] in *. exists h', st'. split_and!; [done|done|congruence|unfold own_bit in Hbit'; congruence|].
    unfold evidence in *. destruct found; [done|]. destruct Hev as [?|(? & Hseen & ?)]; [by left|right].
    split_and!; [done| |done]. intros t1 t2 E. specialize (Hseen t1 t2 E). lia. }
  destruct (among_exec beside _ d rest _ beside_refl Hrest Hj) as ([found w'] & d' & rest' & Hexec & (h' & st' & Hall) & _).
  exists found, w', d', rest', h', st'. by split.
Qed.
End direct.

(** *** A concrete session *)

Module ToyDirect.
(** A WireGuard transport that has its handshake, sends everything and hands over
    what its script says. *)
Definition Script : Type := list (list (list byte)).
#[export] Instance script_tunnel : WireGuardTunnel Script := {|
  wireguard_address _ := [x0a; x00; x00; x02];
  wireguard_endpoint _ := str "node";
  wireguard_handshake _ := Some (of_int 20);
  wireguard_send p _ := (Ok (), p);
  wireguard_receive p _ := (Ok (default [] (head p)), tail p)
|}.
#[export] Instance no_openvpn : OpenVpnTunnel Empty_set.
Proof. split; intros []. Defined.
#[export] Instance no_stack : ForwardingStack Empty_set.
Proof. split; intros []. Defined.
#[export] Instance no_sink : LocalStackSink () := λ _ _, None.

Notation node_path := (DirectPath Script Empty_set Empty_set).
Definition node : node_path := WireGuard [[]; [replicate 20 x45]; []].
Definition first_status (route : Z) : PathSessionStatus := initial_status route (str "wireguard") [] (str "node").
Definition session : Direct node_path () :=
  mk_direct (start_session (replicate 16 x07) 5 3 (mk_mtu 1400 80 false 1400) [first_status 1; first_status 2] 0)
    [[x0a; x00; x00; x02]; [x0a; x00; x00; x03]].

(** A second passes between the worker's steps. *)
Definition a_second_passes (d : Direct node_path ()) : Direct node_path () :=
  with_shared d (with_clock (shared d) (Z.min (clock (shared d) + secs 1) LONGEST_SAMPLE)).

Lemma session_begins : begins 0 2 false (Some node) session.
Proof.
  split.
  { by split. }
  split; [done|]. split; [by eexists|]. done.
Qed.

Lemma seconds_pass n : Forall (λ f, ∀ d, beside 0 2 false d (f d)) (replicate n a_second_passes).
Proof.
  apply Forall_replicate. intros d. split; [|done]. intros [? ? ? ? ? ? Hc ?]. split; [|split_and!; [done..|]].
  - split; try done. cbn. unfold LONGEST_SAMPLE, secs in *. lia.
  - cbn. unfold secs. lia.
Qed.
End ToyDirect.
Import ToyDirect.

Lemma direct_worker_reports_honestly_witness :
  ∃ w d rest, exec_among (replicate 40 a_second_passes) (run_direct_path 0 9 3 (Some node)) session = Ret (w, d, rest) ∧
    honest 0 false w d.
Proof.
  apply (direct_worker_reports_honestly 0 9 2 false); [lia|lia|apply session_begins|apply seconds_pass].
Defined.

Lemma verdicts_follow_the_evidence_witness :
  ∃ w d rest, exec_among (replicate 60 a_second_passes)
      (w ← run_direct_path 0 9 2 (Some node); about_to_judge 0 w) session = Ret (w, d, rest) ∧
    ∀ p h, path w = Some p → watch w = Some h →
      ∃ found w' d' rest' h' st, exec_among rest (inner (judge 0 p h w)) d = Ret ((found, w'), d', rest')
        ∧ watch w' = Some h' ∧ statuses (shared d') !! 0%nat = Some st ∧ reachable st = found
        ∧ Z.testbit (cells (shared d') HealthyMask) 0 = found
        ∧ evidence 9 false found p (watch_address h) (sightings h') w w' (clock (shared d)) (clock (shared d')).
Proof.
  apply (verdicts_follow_the_evidence 0 9 2 false); [lia|lia|apply session_begins|apply seconds_pass].
Defined.
