(* ===== verification/SessionSafety.v ===== *)
(** * SessionSafety: what any interleaving of a session's calls keeps

    The invariant of the shared state, with the tokens of the calls in flight: a
    call that reserved room in a queue holds it, one that sealed a frame knows it,
    one that closed a repair group knows the repair. Each call of [Session],
    [LossRepair], [Sender] and [RelayWorker] keeps it at every step. *)
From S2P Require Import Prelude Text Float64 Protocol Replay FecPolicy Fec Mtu Auth Scheduler Rtt Health Uplink Dialer Latency Diagnostics LocalTap Ingress Threads Session LossRepair Sender RelayWorker.

Inductive Token : Type :=
| Knows (e : Sealed)
| Holds (index : nat)
| Closed (repair : list byte).

(** How many reservations of [index] are held. *)
Fixpoint held (index : nat) (tokens : list Token) : Z :=
  match tokens with
  | [] => 0
  | Holds i :: l => (if decide (i = index) then 1 else 0) + held index l
  | _ :: l => held index l
  end.

(** A call holds one reservation at most. *)
Fixpoint all_held (tokens : list Token) : Z :=
  match tokens with
  | [] => 0
  | Holds _ :: l => 1 + all_held l
  | _ :: l => all_held l
  end.
Definition share (tokens : list Token) : Prop := all_held tokens <= 1.
Definition plain (tokens : list Token) : Prop := all_held tokens = 0.
Definition leftover (t : Token) : Prop := match t with Holds _ => False | _ => True end.

Lemma held_app i a b : held i (a ++ b) = held i a + held i b.
Proof. induction a as [|[] a IH]; cbn [app held]; lia. Qed.

Lemma held_perm i a b : a ≡ₚ b → held i a = held i b.
Proof. induction 1 as [|[] a b _ IH|[] [] a|a b c _ IH1 _ IH2]; cbn [held]; try lia. Qed.

Lemma held_bounds i l : 0 <= held i l <= all_held l.
Proof. induction l as [|[] l IH]; cbn [held all_held]; try lia. case_decide; lia. Qed.

Lemma plain_held i l : plain l → held i l = 0.
Proof. unfold plain. pose proof (held_bounds i l). lia. Qed.

Lemma leftover_plain l : plain l ↔ Forall leftover l.
Proof.
  unfold plain. induction l as [|t l IH]; [done|]. rewrite Forall_cons, <-IH.
  destruct t; cbn [all_held leftover]; [tauto| |tauto]. pose proof (held_bounds 0 l). split; [intros; exfalso; lia|tauto].
Qed.

Lemma all_held_mjoin (rs : list (list Token)) i :
  Forall share rs → 0 <= held i (mjoin rs) <= Z.of_nat (length rs).
Proof.
  induction 1 as [|r rs Hr _ IH]; [done|]. change (mjoin (r :: rs)) with (r ++ mjoin rs).
  rewrite held_app. pose proof (held_bounds i r). unfold share in Hr. cbn [length]. lia.
Qed.

Section safety.
Context {T L : Type} `{!Cipher} (client_id : list byte) (session_id : Z) (crypto : SessionCrypto.t).
Context (routes : nat) (first : Z).
(** What the captured packets may be. *)
Context (submitted : list byte → Prop).
Implicit Types (s : Shared T L).

(** The packet [p] was sealed as data under the number [q]. *)
Definition data_sealed (log : list Sealed) (q : Z) (p : list byte) : Prop :=
  ∃ e, e ∈ log ∧ sealed_header e = mk_header 0 client_id session_id q ∧ sealed_plaintext e = p.

(** A repair of packets that were sent as data. *)
Definition honest_payload (log : list Sealed) (payload : list byte) : Prop :=
  ∃ g, group_wf g ∧ payload = encode_group g ∧ ∀ q p, (q, p) ∈ g → data_sealed log q p.

Record sealed_ok (log : list Sealed) (draws : Z) (e : Sealed) : Prop := {
  se_draw : 0 <= draw e < draws;
  se_header : ∃ fl, 0 <= fl < 256 ∧
    sealed_header e = mk_header fl client_id session_id (wrap64 (first + draw e));
  se_seal : SessionCrypto.seal_client crypto (sealed_header e) (sealed_plaintext e) = Ok (sealed_frame e);
  se_data : flags (sealed_header e) = 0 → submitted (sealed_plaintext e);
  se_repair : has_flag (flags (sealed_header e)) FLAG_REPAIR = true → honest_payload log (sealed_plaintext e)
}.

Definition token_ok (s : Shared T L) (t : Token) : Prop :=
  match t with
  | Knows e => e ∈ sealed s
  | Holds i => (i < routes)%nat
  | Closed payload => honest_payload (sealed s) payload
  end.

Definition sealed_as_frame (s : Shared T L) (f : list byte) : Prop :=
  ∃ e, e ∈ sealed s ∧ sealed_frame e = f.

Record inv (s : Shared T L) (tokens : list Token) : Prop := {
  iv_commands : length (commands s) = routes;
  iv_telemetry : ∀ c, length (telemetry s c) = routes;
  iv_statuses : length (statuses s) = routes;
  iv_metrics : length (scheduler_metrics s) = routes;
  iv_dials : length (dials s) = routes;
  iv_depth : ∀ i q, commands s !! i = Some q →
    counter_at QueueDepth i s = Some (wrap64 (zlen (waiting q) + held i tokens));
  iv_capacity : ∀ i q, commands s !! i = Some q → zlen (waiting q) <= PATH_QUEUE_DEPTH;
  iv_healthy : 0 <= cells s HealthyMask < 2 ^ 64;
  iv_decision : 0 <= cells s DecisionMask < 2 ^ 64;
  iv_repairs : 0 <= cells s RepairsSent;
  iv_sequences : cells s Sequences = wrap64 (first + draws s);
  iv_draws : 0 <= draws s;
  iv_sealed : ∀ e, e ∈ sealed s → sealed_ok (sealed s) (draws s) e;
  iv_numbers : NoDup (draw <$> sealed s);
  iv_queued : ∀ i q c, commands s !! i = Some q → c ∈ waiting q → sealed_as_frame s (frame c);
  iv_wire : ∀ i f, (i, f) ∈ wire s → sealed_as_frame s f;
  iv_encoder : ∃ g, opens (encoder s) g ∧ ∀ q p, (q, p) ∈ g → data_sealed (sealed s) q p;
  iv_clock : 0 <= clock s <= LONGEST_SAMPLE;
  iv_ingress : ingress_safe (ingress s);
  iv_tokens : Forall (token_ok s) tokens
}.

Lemma inv_perm s l l' : l ≡ₚ l' → inv s l → inv s l'.
Proof.
  intros Hp []. split; try done; [|by rewrite <-Hp].
  intros i q Hq. rewrite <-(held_perm i l l' Hp). auto.
Qed.

Lemma inv_drop s l l' : Forall leftover l → inv s (l ++ l') → inv s l'.
Proof.
  intros Hl%leftover_plain []. split; try done; [|by eapply Forall_app].
  intros i q Hq. rewrite <-(Z.add_0_l (held i l')), <-(plain_held i l Hl), <-held_app. auto.
Qed.

(** ** Steps that change one thing *)

Lemma inv_cell c v s l :
  inv s l → c ≠ Sequences →
  (c = HealthyMask ∨ c = DecisionMask → 0 <= v < 2 ^ 64) → (c = RepairsSent → 0 <= v) →
  inv (set_cell c v s) l.
Proof.
  intros [] Hc Hm Hr. split; try done; unfold set_cell; cbn [with_cells cells draws].
  - case_decide; auto.
  - case_decide; auto.
  - case_decide; auto.
  - rewrite decide_False by congruence. done.
Qed.

Lemma inv_counter c i f s l : inv s l → c ≠ QueueDepth → inv (set_counter c i f s) l.
Proof.
  intros [] Hc. split; try done.
  - intros c'. by rewrite length_set_counter.
  - intros j q Hq. rewrite counter_set, decide_False by (intros [? _]; congruence). by apply iv_depth0.
Qed.

Lemma inv_depth_add i n s l l' :
  inv s l → held i l' = held i l + n → (∀ j, j ≠ i → held j l' = held j l) → Forall (token_ok s) l' →
  inv (set_counter QueueDepth i (λ v, wrap64 (v + n)) s) l'.
Proof.
  intros [] Hi Hj Ht. split; try done.
  - intros c'. by rewrite length_set_counter.
  - intros j q Hq. rewrite counter_set. specialize (iv_depth0 j q Hq). rewrite iv_depth0.
    case_decide as E.
    + destruct E as [_ ->]. cbn [fmap option_fmap option_map]. f_equal. unfold wrap64.
      rewrite Zplus_mod_idemp_l. f_equal. lia.
    + rewrite Hj by tauto. done.
Qed.

Lemma inv_status s l x : inv s l → length x = routes → inv (with_statuses s x) l.
Proof. intros [] Hx. by split. Qed.
Lemma inv_metrics_set s l x : inv s l → length x = routes → inv (with_scheduler_metrics s x) l.
Proof. intros [] Hx. by split. Qed.
Lemma inv_dials_set s l x : inv s l → length x = routes → inv (with_dials s x) l.
Proof. intros [] Hx. by split. Qed.
Lemma inv_diagnostics s l x : inv s l → inv (Session.with_diagnostics s x) l.
Proof. intros []. by split. Qed.
Lemma inv_ingress s l i q x :
  inv s l → ingress_safe i → inv (Session.with_diagnostics (with_inbound (with_ingress s i) q) x) l.
Proof. intros [] Hi. by split. Qed.
Lemma inv_cheap s l x : inv s l → inv (with_cheap_reopen s x) l.
Proof. intros []. by split. Qed.
Lemma inv_histories s l x p : inv s l → inv (with_policy (with_histories s x) p) l.
Proof. intros []. by split. Qed.

(** ** Calls that hold nothing between their steps

    A [steady] one keeps what its thread knows; a [calm] one may learn and forget. *)

Notation prog := (prog (Shared T L)).
Notation wp := (wp inv share).

Definition steady {A} (m : prog A) (P : A → Prop) : Prop :=
  ∀ r, plain r → wp m r (λ a r', r' = r ∧ P a).
Definition calm {A} (m : prog A) (P : A → Prop) : Prop :=
  ∀ r, plain r → wp m r (λ a r', plain r' ∧ P a).

Lemma plain_share r : plain r → share r.
Proof. unfold plain, share. lia. Qed.

Lemma steady_calm {A} (m : prog A) (P Q : A → Prop) : steady m P → (∀ a, P a → Q a) → calm m Q.
Proof. intros Hm HPQ r Hr. eapply wp_mono; [by apply Hm|]. intros a r' [-> ?]. split; [done|]. auto. Qed.

Lemma steady_ret {A} (a : A) (P : A → Prop) : P a → steady (mret a) P.
Proof. intros HP r Hr. by split. Qed.
Lemma calm_ret {A} (a : A) (P : A → Prop) : P a → calm (mret a) P.
Proof. intros HP r Hr. by split. Qed.

Lemma steady_bind {A B} (m : prog A) (f : A → prog B) (P : A → Prop) (Q : B → Prop) :
  steady m P → (∀ a, P a → steady (f a) Q) → steady (m ≫= f) Q.
Proof.
  intros Hm Hf r Hr. eapply wp_seq; [by apply Hm|]. intros a r' [-> Ha]. by apply Hf.
Qed.
Lemma calm_bind {A B} (m : prog A) (f : A → prog B) (P : A → Prop) (Q : B → Prop) :
  calm m P → (∀ a, P a → calm (f a) Q) → calm (m ≫= f) Q.
Proof.
  intros Hm Hf r Hr. eapply wp_seq; [by apply Hm|]. intros a r' [Hr' Ha]. by apply Hf.
Qed.

(** Within a call that knows [r]. *)
Lemma wp_steady {A B} (m : prog A) (f : A → prog B) (P : A → Prop) r (Q : B → list Token → Prop) :
  steady m P → plain r → (∀ a, P a → wp (f a) r Q) → wp (m ≫= f) r Q.
Proof. intros Hm Hr Hf. eapply wp_seq; [by apply Hm|]. intros a r' [-> Ha]. by apply Hf. Qed.

Lemma calm_mono {A} (m : prog A) (P Q : A → Prop) : calm m P → (∀ a, P a → Q a) → calm m Q.
Proof. intros Hm HPQ r Hr. eapply wp_mono; [by apply Hm|]. intros a r' [? ?]. auto. Qed.

Lemma steady_act {X} (op : Shared T L → run (X * Shared T L)) (P : X → Prop) :
  (∀ s l, inv s l → ∃ x s', op s = Ret (x, s') ∧ inv s' l ∧ P x) → steady (act op) P.
Proof.
  intros Hop r Hr. apply (wp_act _ _ op r r); [by apply plain_share|]. intros s l Hi.
  destruct (Hop s _ Hi) as (x & s' & E & Hi' & HP). by exists x, s'.
Qed.

Lemma steady_load {X} (f : Shared T L → X) (P : X → Prop) :
  (∀ s l, inv s l → P (f s)) → steady (load f) P.
Proof. intros HP. apply steady_act. intros s l Hi. exists (f s), s. eauto. Qed.

Lemma steady_store (f : Shared T L → Shared T L) :
  (∀ s l, inv s l → inv (f s) l) → steady (store f) (λ _, True).
Proof. intros Hf. apply steady_act. intros s l Hi. exists (), (f s). eauto. Qed.

Lemma steady_for_each {A B} (l : list A) (f : A → B → prog B) (b : B) (P : B → Prop) :
  P b → (∀ x b, P b → steady (f x b) P) → steady (for_each l f b) P.
Proof.
  revert b. induction l as [|x l IH]; intros b Hb Hf; [by apply steady_ret|]. cbn [for_each].
  eapply steady_bind; [by apply Hf|]. intros b' Hb'. by apply IH.
Qed.
Lemma calm_for_each {A B} (l : list A) (f : A → B → prog B) (b : B) (P : B → Prop) :
  P b → (∀ x b, P b → calm (f x b) P) → calm (for_each l f b) P.
Proof.
  revert b. induction l as [|x l IH]; intros b Hb Hf; [by apply calm_ret|]. cbn [for_each].
  eapply calm_bind; [by apply Hf|]. intros b' Hb'. by apply IH.
Qed.

Lemma steady_lift {A} (m : run A) (P : A → Prop) : (∃ a, m = Ret a ∧ P a) → steady (lift m) P.
Proof. intros (a & -> & Ha). apply steady_act. intros s l Hi. by exists a, s. Qed.

Definition instant (t : Z) : Prop := 0 <= t <= LONGEST_SAMPLE.
Definition mask (m : Z) : Prop := 0 <= m < 2 ^ 64.

Lemma steady_now : steady now instant.
Proof. apply steady_load. intros s l Hi. by eapply iv_clock. Qed.

Lemma steady_cell c : steady (load_cell c) (λ _, True).
Proof. by apply steady_load. Qed.
Lemma steady_mask c : c = HealthyMask ∨ c = DecisionMask → steady (load_cell c) mask.
Proof. intros [-> | ->]; apply steady_load; intros s l []; done. Qed.
Lemma steady_turn : steady (load_cell RepairsSent) (λ n, 0 <= n).
Proof. apply steady_load. intros s l []. done. Qed.

(** A cell that nothing depends on. *)
Definition free_cell (c : Cell) : Prop := c ≠ Sequences ∧ c ≠ HealthyMask ∧ c ≠ DecisionMask ∧ c ≠ RepairsSent.

Lemma inv_free c v s l : inv s l → free_cell c → inv (set_cell c v s) l.
Proof. intros Hi (H1 & H2 & H3 & H4). apply inv_cell; [done..|by intros [->| ->]|done]. Qed.

Lemma steady_store_cell c v : free_cell c → steady (store_cell c v) (λ _, True).
Proof. intros Hc. apply steady_store. intros. by apply inv_free. Qed.
Lemma steady_swap c v : free_cell c → steady (swap_cell c v) (λ _, True).
Proof. intros Hc. apply steady_act. intros s l Hi. eexists _, _. split; [done|]. split; [by apply inv_free|done]. Qed.
Lemma steady_fetch_add c width n : free_cell c → steady (fetch_add c width n) (λ _, True).
Proof. intros Hc. apply steady_act. intros s l Hi. eexists _, _. split; [done|]. split; [by apply inv_free|done]. Qed.
Lemma steady_compare c a b : free_cell c → steady (compare_exchange c a b) (λ _, True).
Proof.
  intros Hc. apply steady_act. intros s l Hi. destruct (cells s c =? a).
  - eexists _, _. split; [done|]. split; [by apply inv_free|done].
  - eexists _, _. split; [done|]. by split.
Qed.

Lemma steady_count c i n : c ≠ QueueDepth → steady (count_add c i n) (λ _, True).
Proof. intros Hc. apply steady_store. intros. by apply inv_counter. Qed.
Lemma steady_max c i n : c ≠ QueueDepth → steady (count_max c i n) (λ _, True).
Proof. intros Hc. apply steady_store. intros. by apply inv_counter. Qed.
Lemma steady_here c i f : c ≠ QueueDepth → (i < routes)%nat → steady (count_here c i f) (λ _, True).
Proof.
  intros Hc Hi. apply steady_act. intros s l Hv. unfold counter_at.
  destruct (lookup_lt_is_Some_2 (telemetry s c) i) as [v ->]; [by rewrite (iv_telemetry s l Hv)|].
  eexists _, _. split; [done|]. split; [by apply inv_counter|done].
Qed.
Lemma steady_failure reason p : steady (record_failure reason p) (λ _, True).
Proof. apply steady_store. intros. by apply inv_diagnostics. Qed.

(** ** Sealing *)

Lemma seal_log s l header payload f q fl :
  inv s l → q = cells s Sequences → header = mk_header fl client_id session_id q → 0 <= fl < 256 →
  SessionCrypto.seal_client crypto header payload = Ok f →
  (fl = 0 → submitted payload) → (has_flag fl FLAG_REPAIR = true → honest_payload (sealed s) payload) →
  inv (with_draws (with_sealed (set_cell Sequences (wrap64 (q + 1)) s)
         (mk_sealed (draws s) header payload f :: sealed s)) (draws s + 1))
      (Knows (mk_sealed (draws s) header payload f) :: l).
Proof.
  intros [] -> -> Hfl Hseal Hdata Hrep. set (e := mk_sealed _ _ _ _).
  assert (∀ q p, data_sealed (sealed s) q p → data_sealed (e :: sealed s) q p) as Hmono.
  { intros q p (x & Hx & ?). exists x. split; [by apply elem_of_cons; right|done]. }
  assert (∀ p, honest_payload (sealed s) p → honest_payload (e :: sealed s) p) as Hhonest.
  { intros p (g & Hg & Hp & Hin). exists g. eauto. }
  split; try done; cbn -[wrap64].
  - rewrite iv_sequences0. unfold wrap64. rewrite Zplus_mod_idemp_l. f_equal. lia.
  - lia.
  - intros x [->|Hx]%elem_of_cons.
    + split; cbn; [lia| |done|done|auto]. exists fl. split; [done|]. by rewrite iv_sequences0.
    + destruct (iv_sealed0 x Hx). split; [lia|done..|auto].
  - apply NoDup_cons. split; [|done]. intros (x & Hd & Hx)%list_elem_of_fmap.
    destruct (iv_sealed0 x Hx) as [Hlt _ _ _ _]. cbn in Hd. lia.
  - intros i q c Hq Hc. destruct (iv_queued0 i q c Hq Hc) as (x & Hx & ?). exists x.
    split; [by apply elem_of_cons; right|done].
  - intros i g Hg. destruct (iv_wire0 i g Hg) as (x & Hx & ?). exists x.
    split; [by apply elem_of_cons; right|done].
  - destruct iv_encoder0 as (g & Ho & Hg). exists g. eauto.
  - constructor; [apply list_elem_of_here|]. eapply Forall_impl; [done|].
    intros [x|i|p]; cbn; [by right|done|auto].
Qed.

Lemma seal_none s l q :
  inv s l → q = cells s Sequences →
  inv (with_draws (with_sealed (set_cell Sequences (wrap64 (q + 1)) s) (sealed s)) (draws s + 1)) l.
Proof.
  intros [] ->. split; try done; cbn -[wrap64].
  - rewrite iv_sequences0. unfold wrap64. rewrite Zplus_mod_idemp_l. f_equal. lia.
  - lia.
  - intros x Hx. destruct (iv_sealed0 x Hx). split; [lia|done..].
Qed.

Lemma token_in s r others t : inv s (r ++ others) → t ∈ r → token_ok s t.
Proof.
  intros Hi Ht. pose proof (iv_tokens s _ Hi) as Hall. rewrite Forall_forall in Hall.
  apply Hall. apply elem_of_app. by left.
Qed.

Lemma wp_seal fl payload r (Q : Z * result (list byte) (list byte) → list Token → Prop) :
  share r → 0 <= fl < 256 → (fl = 0 → ∀ q, submitted (payload q)) →
  (has_flag fl FLAG_REPAIR = true → ∃ p, (∀ q, payload q = p) ∧ Closed p ∈ r) →
  (∀ q f e, sealed_frame e = f → sealed_header e = mk_header fl client_id session_id q →
     sealed_plaintext e = payload q → Q (q, Ok f) (Knows e :: r)) →
  (∀ q e, Q (q, Err e) r) →
  wp (seal_next client_id session_id crypto fl payload) r Q.
Proof.
  intros Hr Hfl Hdata Hrep Hok Herr s others Hi. unfold seal_next. cbn -[wrap64].
  set (q := cells s Sequences). set (h := mk_header fl client_id session_id q).
  destruct (SessionCrypto.seal_client crypto h (payload q)) as [f|err] eqn:Es.
  - exists (Knows (mk_sealed (draws s) h (payload q) f) :: r). split; [done|]. split.
    + cbn [app]. eapply seal_log; try done; [by auto|]. intros Hf. destruct (Hrep Hf) as (p & Hp & Hin).
      rewrite Hp. apply (token_in s r others _ Hi Hin).
    + by apply Hok.
  - exists r. split; [done|]. split; [by apply seal_none|apply Herr].
Qed.

(** ** The dispatcher *)

Lemma command_step s l i q q' :
  inv s l → commands s !! i = Some q → zlen (waiting q') = zlen (waiting q) →
  (∀ c, c ∈ waiting q' → c ∈ waiting q) → inv (with_commands s (<[i := q']> (commands s))) l.
Proof.
  intros [] Hq Hlen Hin. assert (i < length (commands s))%nat as Hlt by (by eapply lookup_lt_Some).
  split; try done; cbn.
  - by rewrite length_insert.
  - intros j x Hx. destruct (decide (j = i)) as [->|].
    + rewrite list_lookup_insert_eq in Hx by done. injection Hx as <-. rewrite Hlen. by apply iv_depth0.
    + rewrite list_lookup_insert_ne in Hx by done. by apply iv_depth0.
  - intros j x Hx. destruct (decide (j = i)) as [->|].
    + rewrite list_lookup_insert_eq in Hx by done. injection Hx as <-. rewrite Hlen. by eapply iv_capacity0.
    + rewrite list_lookup_insert_ne in Hx by done. by eapply iv_capacity0.
  - intros j x c Hx Hc. destruct (decide (j = i)) as [->|].
    + rewrite list_lookup_insert_eq in Hx by done. injection Hx as <-. eapply iv_queued0; eauto.
    + rewrite list_lookup_insert_ne in Hx by done. by eapply iv_queued0.
Qed.

(** A reservation becomes the place of the command in the queue. *)
Lemma inv_enqueue s l i q c e :
  inv s (Holds i :: l) → commands s !! i = Some q → zlen (waiting q) < PATH_QUEUE_DEPTH →
  e ∈ sealed s → sealed_frame e = frame c →
  inv (with_commands s (<[i := mk_commands (waiting q ++ [c]) (receiver_alive q)]> (commands s))) l.
Proof.
  intros [] Hq Hroom He Hf. assert (i < length (commands s))%nat as Hlt by (by eapply lookup_lt_Some).
  split; try done; cbn.
  - by rewrite length_insert.
  - intros j x Hx. destruct (decide (j = i)) as [->|].
    + rewrite list_lookup_insert_eq in Hx by done. injection Hx as <-. specialize (iv_depth0 i q Hq).
      cbn [held] in iv_depth0. rewrite decide_True in iv_depth0 by done.
      change (counter_at QueueDepth i s = Some (wrap64 (zlen (waiting q ++ [c]) + held i l))).
      rewrite iv_depth0, zlen_app. change (zlen [c]) with 1. do 2 f_equal. lia.
    + rewrite list_lookup_insert_ne in Hx by done. specialize (iv_depth0 j x Hx).
      cbn [held] in iv_depth0. rewrite decide_False in iv_depth0 by done. done.
  - intros j x Hx. destruct (decide (j = i)) as [->|].
    + rewrite list_lookup_insert_eq in Hx by done. injection Hx as <-. cbn. rewrite zlen_app.
      change (zlen [c]) with 1. lia.
    + rewrite list_lookup_insert_ne in Hx by done. by eapply iv_capacity0.
  - intros j x c' Hx Hc. destruct (decide (j = i)) as [->|].
    + rewrite list_lookup_insert_eq in Hx by done. injection Hx as <-. cbn in Hc.
      apply elem_of_app in Hc as [Hc|Hc%list_elem_of_singleton]; [by eapply iv_queued0|]. subst c'. by exists e.
    + rewrite list_lookup_insert_ne in Hx by done. by eapply iv_queued0.
  - by apply Forall_cons in iv_tokens0 as [_ ?].
Qed.

(** A command taken out of the queue is a reservation until it is counted off. *)
Lemma inv_dequeue s l i q c rest :
  inv s l → commands s !! i = Some q → waiting q = c :: rest →
  ∃ e, sealed_frame e = frame c ∧
    inv (with_commands s (<[i := mk_commands rest (receiver_alive q)]> (commands s))) (Holds i :: Knows e :: l).
Proof.
  intros Hi Hq Hw. destruct (iv_queued s l Hi i q c Hq) as (e & He & Hf); [rewrite Hw; apply list_elem_of_here|].
  exists e. split; [done|]. destruct Hi. assert (i < length (commands s))%nat as Hlt by (by eapply lookup_lt_Some).
  split; try done; cbn.
  - by rewrite length_insert.
  - intros j x Hx. destruct (decide (j = i)) as [->|].
    + rewrite list_lookup_insert_eq in Hx by done. injection Hx as <-. specialize (iv_depth0 i q Hq).
      rewrite decide_True by done.
      change (counter_at QueueDepth i s = Some (wrap64 (zlen rest + (1 + held i l)))).
      rewrite iv_depth0, Hw, zlen_cons. do 2 f_equal. lia.
    + rewrite list_lookup_insert_ne in Hx by done. rewrite decide_False by done. by apply iv_depth0.
  - intros j x Hx. destruct (decide (j = i)) as [->|].
    + rewrite list_lookup_insert_eq in Hx by done. injection Hx as <-. cbn.
      specialize (iv_capacity0 i q Hq). rewrite Hw, zlen_cons in iv_capacity0. lia.
    + rewrite list_lookup_insert_ne in Hx by done. by eapply iv_capacity0.
  - intros j x c' Hx Hc. destruct (decide (j = i)) as [->|].
    + rewrite list_lookup_insert_eq in Hx by done. injection Hx as <-. eapply iv_queued0; [done|].
      rewrite Hw. by apply elem_of_cons; right.
    + rewrite list_lookup_insert_ne in Hx by done. by eapply iv_queued0.
  - constructor; [cbn; lia|]. by constructor.
Qed.

Lemma plain_hold i r : plain r → share (Holds i :: r).
Proof. unfold plain, share. cbn [all_held]. lia. Qed.

(** Counting a reservation off. *)
Lemma wp_release i r (Q : unit → list Token → Prop) :
  plain r → Q () r → wp (count_add QueueDepth i (-1)) (Holds i :: r) Q.
Proof.
  intros Hr HQ. apply wp_store with (r' := r); [by apply plain_share| |done].
  intros s others Hi. eapply inv_depth_add; [exact Hi|..]; cbn [app held].
  - rewrite decide_True by done. lia.
  - intros j Hj. rewrite decide_False by congruence. lia.
  - pose proof (iv_tokens s _ Hi) as Ht. by apply Forall_cons in Ht as [_ ?].
Qed.

(** Steps of a call that holds nothing may be taken with what it knows kept. *)
Lemma wp_count c i n r (Q : unit → list Token → Prop) :
  c ≠ QueueDepth → share r → Q () r → wp (count_add c i n) r Q.
Proof. intros Hc Hr HQ. apply wp_store with (r' := r); [done| |done]. intros s o Hi. by apply inv_counter. Qed.

Lemma wp_ret {A} (a : A) r (Q : A → list Token → Prop) : Q a r → wp (mret a) r Q.
Proof. done. Qed.

Lemma wp_dispatch_to f e at_instant m i o r :
  (i < routes)%nat → plain r → Knows e ∈ r → sealed_frame e = f →
  wp (dispatch_to f at_instant m i o) r (λ _ r', r' = r).
Proof.
  intros Hi Hr He Hf. unfold dispatch_to. case_match; [by apply wp_ret|].
  apply wp_bind. apply wp_act with (r' := Holds i :: r); [by apply plain_hold|].
  intros s others Hv. eexists _, _. split; [done|]. split.
  { eapply inv_depth_add; [exact Hv|..]; cbn [app held].
    - rewrite decide_True by done. lia.
    - intros j Hj. rewrite decide_False by congruence. lia.
    - constructor; [done|]. apply (iv_tokens s _ Hv). }
  apply wp_bind. intros s2 others2 Hv2. cbn [app] in Hv2.
  destruct (lookup_lt_is_Some_2 (commands s2) i) as [q Hq]; [by rewrite (iv_commands s2 _ Hv2)|].
  rewrite Hq. destruct (receiver_alive q) eqn:Ealive; cbn [negb].
  - destruct (Z.leb_spec PATH_QUEUE_DEPTH (zlen (waiting q))).
    + exists (Holds i :: r). split; [by apply plain_hold|]. split; [done|].
      apply wp_bind, wp_release; [done|].
      apply wp_bind, wp_count; [done|by apply plain_share|].
      apply wp_bind, wp_count; [done|by apply plain_share|]. by apply wp_ret.
    + exists r. split; [by apply plain_share|]. split.
      { rewrite <-Ealive.
        eapply (inv_enqueue s2 _ i q (mk_command f at_instant) e); [exact Hv2|done|done| |done].
        apply (token_in s2 (Holds i :: r) others2 (Knows e) Hv2). by right. }
      apply wp_bind. destruct (counter_at QueueDepth i s) as [depth|]; [|by apply wp_ret].
      apply wp_store with (r' := r); [by apply plain_share| |by apply wp_ret].
      intros s3 o3 Hv3. by apply inv_counter.
  - exists (Holds i :: r). split; [by apply plain_hold|]. split; [done|].
    apply wp_bind, wp_release; [done|]. by apply wp_ret.
Qed.

Lemma wp_dispatch f e m r :
  plain r → Knows e ∈ r → sealed_frame e = f →
  wp (dispatch_send routes f m) r (λ _ r', r' = r).
Proof.
  intros Hr He Hf. unfold dispatch_send. apply wp_bind, wp_load; [by apply plain_share|].
  intros s others Hv. apply wp_for_each; [done|]. intros i o r' Hin ->.
  apply elem_of_seq in Hin. eapply wp_dispatch_to; [lia|done..].
Qed.


(** ** Loss repair *)

Lemma land_mask a b : mask a → mask b → mask (Z.land a b).
Proof. unfold mask. intros. apply (land_bound 64); lia. Qed.

Lemma selected_mask d h : mask d → mask h → mask (selected_paths d h).
Proof. intros Hd Hh. unfold selected_paths. repeat case_match; [by apply land_mask|done|done]. Qed.

Lemma steady_desired_group : steady desired_group (λ _, True).
Proof.
  eapply steady_bind; [by apply steady_mask; left|]. intros h Hh.
  eapply steady_bind; [by apply steady_mask; right|]. intros d Hd.
  eapply steady_bind; [by apply steady_cell|]. intros g _. by apply steady_ret.
Qed.

Lemma steady_record_probe index probe : steady (record_probe index probe) (λ _, True).
Proof.
  eapply steady_bind; [by apply steady_mask; left|]. intros h _.
  eapply steady_bind; [apply (steady_act _ (λ _, True))|].
  - intros s l Hi. unfold observe_probe. cbn zeta. case_match.
    + eexists _, _. split; [done|]. split; [by apply inv_histories|done].
    + destruct (FecPolicy.observe _ _ _) as [g p]. eexists _, _. split; [done|]. split; [|done].
      by apply inv_histories.
  - intros [group|] _; [|by apply steady_ret]. eapply steady_bind; [by apply steady_swap|].
    intros _ _. by apply steady_ret.
Qed.

Lemma steady_with_room m : mask m → steady (with_room routes m) mask.
Proof.
  intros Hm. apply steady_for_each; [done|]. intros i m' Hm'. eapply steady_bind; [by apply (steady_load _ (λ _, True))|].
  intros [depth|] _; apply steady_ret; [|done]. case_match; [|done]. apply land_mask; [done|].
  apply complement_range, bit_range. lia.
Qed.

(** What a call knows is kept, and it may learn more. *)
Definition learns (r : list Token) (r' : list Token) : Prop := plain r' ∧ ∀ t, t ∈ r → t ∈ r'.

Lemma learns_refl r : plain r → learns r r.
Proof. by split. Qed.

Lemma wp_send_repair repair r :
  plain r → Closed repair ∈ r →
  wp (LossRepair.send client_id session_id crypto routes repair) r (λ _ r', learns r r').
Proof.
  intros Hr Hc. unfold LossRepair.send.
  apply (wp_steady _ _ mask); [by apply steady_mask; left|done|]. intros h Hh.
  apply (wp_steady _ _ mask); [by destruct (negb _); [apply steady_ret|apply steady_mask; right]|done|].
  intros candidates Hcand.
  apply (wp_steady _ _ mask); [by apply steady_with_room|done|]. intros m Hm.
  destruct (Z.eqb_spec m 0) as [|Hm0]; [by apply wp_ret, learns_refl|].
  apply (wp_steady _ _ mask); [by apply steady_mask; right|done|]. intros carrying Hcar.
  apply (wp_steady _ _ (λ n, 0 <= n)); [by apply steady_turn|done|]. intros turn Ht.
  apply (wp_steady _ _ (λ _, True)); [|done|].
  { apply steady_act. intros s l Hi.
    destruct (repair_target_spec m carrying turn) as (k & Hk & -> & _); [unfold mask in *; lia|done|done|].
    cbn [mbind run_bind]. eexists _, _. by split. }
  intros target _. apply wp_bind, wp_seal; [by apply plain_share|done|done|by exists repair| |].
  - intros q f e Hf Hh' Hp. assert (plain (Knows e :: r)) as Hr' by done.
    apply (wp_seq _ _ _ _ _ (λ _ r', r' = Knows e :: r)); [by eapply wp_dispatch; [|apply list_elem_of_here|]|].
    intros d r' ->. assert (learns r (Knows e :: r)) by (split; [done|]; intros t Hin; by right).
    case_match; [|done]. apply wp_bind. apply wp_act with (r' := Knows e :: r); [by apply plain_share|].
    intros s o Hi. eexists _, _. split; [done|]. split; [|done].
    apply inv_cell; [done|done|by intros [?|?]|]. intros _. apply Z.mod_pos_bound. lia.
  - intros q e. by apply learns_refl.
Qed.

Lemma encoder_data (log : list Sealed) e g o :
  opens e g → op_wf o → (∀ q p, (q, p) ∈ g → data_sealed log q p) →
  (∀ q p now, o = Fec.Push q p now → data_sealed log q p) →
  ∃ r e' g', encoder_step e o = Ret (r, e') ∧ opens e' g' ∧ (∀ q p, (q, p) ∈ g' → data_sealed log q p) ∧
    Forall (honest_payload log) (option_list r).
Proof.
  intros Ho Hwf Hg Hpush.
  destruct (encoder_step_opens e g o Ho Hwf) as (r & e' & g' & Hs & Ho' & gs & Hr & Hgs & Hcover).
  exists r, e', g'. split; [done|]. split; [done|].
  assert (∀ m, m ∈ mjoin gs ++ g' → data_sealed log m.1 m.2) as Hall.
  { intros [q p] Hin. specialize (Hcover []). cbn [protected] in Hcover. rewrite app_nil_r in Hcover.
    rewrite Hcover in Hin. apply elem_of_app in Hin as [Hin|Hin]; [by apply Hg|].
    destruct o as [q' p' now|now|n|n]; cbn [protected] in Hin; rewrite ?app_nil_r in Hin;
      try by apply elem_of_nil in Hin.
    destruct (_ || _); [by apply elem_of_nil in Hin|]. apply list_elem_of_singleton in Hin as [= -> ->].
    by eapply Hpush. }
  split.
  - intros q p Hin. apply (Hall (q, p)). apply elem_of_app. by right.
  - rewrite Hr. apply Forall_fmap, Forall_forall. intros k Hk. exists k.
    split; [by rewrite Forall_forall in Hgs; apply Hgs|]. split; [done|].
    intros q p Hin. apply (Hall (q, p)). apply elem_of_app. left. by apply list_elem_of_join; exists k.
Qed.

Lemma inv_encoder_set s l e g :
  inv s l → opens e g → (∀ q p, (q, p) ∈ g → data_sealed (sealed s) q p) → inv (with_encoder s e) l.
Proof. intros [] Ho Hg. split; try done. by exists g. Qed.

Lemma inv_learn s l t : inv s l → leftover t → token_ok s t → inv s (t :: l).
Proof.
  intros [] Hl Ht. split; try done; [|by constructor].
  intros i q Hq. destruct t; [by apply iv_depth0|done|by apply iv_depth0].
Qed.

Lemma inv_learn_closed s l ps :
  inv s l → Forall (honest_payload (sealed s)) ps → inv s ((Closed <$> ps) ++ l).
Proof.
  intros Hi. induction 1 as [|p ps Hp _ IH]; [done|]. cbn [fmap list_fmap app]. by apply inv_learn.
Qed.

Lemma plain_closed ps r : plain r → plain ((Closed <$> ps) ++ r).
Proof. intros Hr. by induction ps. Qed.

Lemma wp_send_all repairs r :
  plain r → (∀ p, p ∈ repairs → Closed p ∈ r) →
  wp (send_all client_id session_id crypto routes repairs) r (λ _ r', plain r').
Proof.
  revert r. induction repairs as [|p repairs IH]; intros r Hr Hall; [by apply wp_ret|]. cbn [send_all].
  apply (wp_seq _ _ _ _ _ (λ _ r', learns r r')); [apply wp_send_repair; [done|]; apply Hall, list_elem_of_here|].
  intros _ r' [Hr' Hk]. apply IH; [done|]. intros p' Hp'. apply Hk, Hall. by right.
Qed.

Lemma wp_protect q packet e r :
  plain r → Knows e ∈ r → sealed_header e = mk_header 0 client_id session_id q → sealed_plaintext e = packet →
  wp (protect client_id session_id crypto routes q packet) r (λ _ r', plain r').
Proof.
  intros Hr He Hh Hp. unfold protect.
  apply (wp_steady _ _ (λ _, True)); [by apply steady_cell|done|]. intros support _.
  case_match; [by apply wp_ret|].
  apply (wp_steady _ _ (λ _, True)); [by apply steady_desired_group|done|]. intros group _.
  apply wp_bind. intros s others Hi.
  pose proof (token_in s r others _ Hi He) as Hin. cbn in Hin.
  assert (0 <= q < 2 ^ 64) as Hq.
  { destruct (iv_sealed s _ Hi e Hin) as [_ (fl & _ & Hfl) _ _ _]. rewrite Hh in Hfl. injection Hfl as _ ->.
    apply Z.mod_pos_bound. lia. }
  assert (data_sealed (sealed s) q packet) as Hdata by (by exists e).
  destruct (iv_encoder s _ Hi) as (g & Ho & Hg). unfold push_packet.
  apply (opens_max _ _ (unfragmented (current_mtu s))) in Ho.
  destruct (encoder_data (sealed s) _ g (SetGroup group) Ho I Hg) as (r1 & e1 & g1 & E1 & Ho1 & Hg1 & Hr1); [done|].
  cbn [encoder_step] in E1. rewrite E1. cbn [mbind run_bind].
  destruct (encoder_data (sealed s) e1 g1 (Fec.Push q packet (clock s)) Ho1 Hq Hg1) as (r2 & e2 & g2 & E2 & Ho2 & Hg2 & Hr2).
  { by intros ? ? ? [= <- <- <-]. }
  cbn [encoder_step] in E2. rewrite E2. cbn [mbind run_bind]. set (ps := option_list r1 ++ option_list r2).
  exists ((Closed <$> ps) ++ r). split; [by apply plain_share, plain_closed|]. split.
  - rewrite <-app_assoc. apply inv_learn_closed; [by eapply inv_encoder_set|]. by apply Forall_app.
  - apply wp_send_all; [by apply plain_closed|]. intros p Hps. apply elem_of_app. left.
    by apply list_elem_of_fmap; exists p.
Qed.

Lemma calm_flush : calm (flush_turn client_id session_id crypto routes) (λ _, True).
Proof.
  intros r Hr. unfold flush_turn. apply wp_bind. intros s others Hi.
  assert (inv s (r ++ others) → ∀ x, ∃ r' : list Token, share r' ∧ inv s (r' ++ others) ∧
    wp (mret x : prog (option Z)) r' (λ _ r', plain r' ∧ True)) as Hwait.
  { intros _ x. exists r. split; [by apply plain_share|]. by split. }
  destruct (Encoder.deadline (encoder s)) as [deadline|]; [|by apply Hwait].
  destruct (clock s <? deadline); [by apply Hwait|].
  destruct (iv_encoder s _ Hi) as (g & Ho & Hg).
  destruct (encoder_data (sealed s) _ g (Flush (clock s)) Ho I Hg) as (p & e1 & g1 & E1 & Ho1 & Hg1 & Hp); [done|].
  cbn [encoder_step] in E1. rewrite E1. cbn [mbind run_bind]. destruct p as [p|].
  - exists (Closed p :: r). split; [by apply plain_share|].
    apply Forall_cons in Hp as [Hp _]. split.
    + cbn [app]. apply (inv_learn (with_encoder s e1) _ (Closed p)); [by eapply inv_encoder_set|done|done].
    + apply wp_bind. eapply wp_mono; [apply wp_send_repair; [done|apply list_elem_of_here]|].
      intros _ r' [Hr' _]. by split.
  - exists r. split; [by apply plain_share|]. split; [by eapply inv_encoder_set|done].
Qed.

Lemma steady_offer_due started path_healthy : steady (offer_due started path_healthy) (λ _, True).
Proof.
  unfold offer_due. case_match; [by apply steady_ret|].
  eapply steady_bind; [by apply steady_cell|]. intros support _.
  eapply steady_bind; [by apply steady_desired_group|]. intros desired _.
  eapply steady_bind; [by apply (steady_load _ (λ _, True))|]. intros mtu _.
  eapply (steady_bind _ _ (λ _, True)).
  { case_match; [by apply steady_ret|]. eapply steady_bind; [by apply steady_cell|]. intros group _.
    case_match; [by apply steady_ret|]. eapply steady_bind; [by apply steady_cell|]. intros offered _.
    by apply steady_ret. }
  intros in_step _. eapply steady_bind; [by apply steady_now|]. intros at_instant _.
  eapply steady_bind; [by apply steady_cell|]. intros last _. case_match; [by apply steady_ret|].
  eapply steady_bind; [by apply steady_compare|]. intros won _. case_match; [by apply steady_ret|].
  eapply (steady_bind _ _ (λ _, True)).
  { case_match; [|by apply steady_ret]. eapply steady_bind; [by apply steady_fetch_add|]. intros n _.
    case_match; [|by apply steady_ret]. eapply steady_bind; [by apply steady_compare|]. intros _ _. by apply steady_ret. }
  intros _ _. eapply steady_bind; [by apply steady_store_cell|]. intros _ _. by apply steady_ret.
Qed.

Lemma steady_accepted group : steady (LossRepair.accepted group) (λ _, True).
Proof.
  do 2 (eapply steady_bind; [by apply steady_store_cell|]; intros _ _).
  eapply steady_bind; [by apply steady_swap|]. intros _ _. by apply steady_ret.
Qed.

Lemma steady_status : steady LossRepair.status (λ _, True).
Proof.
  eapply steady_bind; [by apply steady_cell|]. intros support _.
  eapply steady_bind; [by apply steady_desired_group|]. intros group _.
  do 2 (eapply steady_bind; [by apply steady_cell|]; intros ? _). by apply steady_ret.
Qed.

(** ** The sender of a relay session *)

Lemma calm_send packet node :
  submitted packet →
  calm (Sender.send (Sender.Relay client_id crypto) session_id routes packet node) (λ _, True).
Proof.
  intros Hsub r Hr. unfold Sender.send.
  apply (wp_steady _ _ (λ _, True)); [|done|].
  { eapply steady_bind; [by apply (steady_load _ (λ _, True))|]. intros stop _. by apply steady_ret. }
  intros live _. case_match; [by apply wp_ret|]. unfold wrap. apply wp_bind, wp_bind.
  apply wp_seal; [by apply plain_share|lia|by intros _ _|by intros E; vm_compute in E| |intros q e; by apply wp_ret].
  intros q f e Hf Hh Hp. apply wp_ret. assert (plain (Knows e :: r)) as Hr' by done.
  assert (Knows e ∈ Knows e :: r) as Hin by apply list_elem_of_here.
  apply (wp_steady _ _ (λ _, True)); [|done|].
  { unfold chosen_paths. do 2 (eapply steady_bind; [by apply steady_cell|]; intros ? _). by apply steady_ret. }
  intros m _. apply (wp_seq _ _ _ _ _ (λ _ r', r' = Knows e :: r)); [by eapply wp_dispatch|].
  intros d r' ->. case_match.
  { apply (wp_steady _ _ (λ _, True)); [by apply steady_failure|done|]. intros _ _. by apply wp_ret. }
  apply (wp_steady _ _ (λ _, True)); [by case_match; [apply steady_failure|apply steady_ret]|done|]. intros _ _.
  apply (wp_seq _ _ _ _ _ (λ _ r', plain r')); [by eapply wp_protect|].
  intros _ r' Hr2. case_match; [|by apply wp_ret].
  apply (wp_steady _ _ (λ _, True)); [by apply steady_fetch_add|done|]. intros _ _. by apply wp_ret.
Qed.

(** ** The queue's other end *)

Section drain.
Context {W : Type} (ok : W → Prop) (send_one : list byte → W → prog (Z * result (list byte) unit * W)).
Context (record : Z → result (list byte) unit → prog unit) (index : nat).
Context (Hsend : ∀ f w e r, ok w → plain r → Knows e ∈ r → sealed_frame e = f →
  wp (send_one f w) r (λ a r', plain r' ∧ ok a.2)).
Context (Hrecord : ∀ n o, steady (record n o) (λ _, True)).

Lemma wp_drain_one max_age w r :
  ok w → (index < routes)%nat → plain r →
  wp (drain_one max_age index send_one record w) r (λ a r', plain r' ∧ ok a.2).
Proof.
  intros Hw Hi Hr. unfold drain_one. apply wp_bind. intros s others Hv.
  destruct (lookup_lt_is_Some_2 (commands s) index) as [q Hq]; [by rewrite (iv_commands s _ Hv)|].
  rewrite Hq. destruct (waiting q) as [|c rest] eqn:Ew.
  { exists r. split; [by apply plain_share|]. by split. }
  destruct (inv_dequeue s _ index q c rest Hv Hq Ew) as (e & Hf & Hv').
  exists (Holds index :: Knows e :: r). assert (plain (Knows e :: r)) as Hr' by done.
  split; [by apply plain_hold|]. split; [done|]. apply wp_bind, wp_release; [done|].
  apply (wp_steady _ _ instant); [by apply steady_now|done|]. intros at_instant _. case_match.
  - apply wp_bind, wp_count; [done|by apply plain_share|].
    apply wp_bind, wp_count; [done|by apply plain_share|]. by apply wp_ret.
  - apply (wp_seq _ _ _ _ _ (λ a r', plain r' ∧ ok a.2)).
    { eapply Hsend; [done|done|apply list_elem_of_here|done]. }
    intros [[n o] w'] r' [Hr2 Hw']. apply (wp_steady _ _ (λ _, True)); [apply Hrecord|done|]. intros _ _. by apply wp_ret.
Qed.

Lemma calm_drain max_age w :
  ok w → (index < routes)%nat → calm (drain_send_queue max_age index send_one record w) ok.
Proof.
  intros Hw Hi. unfold drain_send_queue. generalize PATH_SEND_BATCH. intros n. revert w Hw.
  induction n as [|n IH]; intros w Hw; [by apply calm_ret|]. cbn [drain_loop].
  eapply (calm_bind _ _ (λ a, ok a.2)); [intros r Hr; by apply wp_drain_one|].
  intros [[] w'] Hw'; [by apply IH|by apply calm_ret].
Qed.
End drain.

(** ** The path worker *)

Section worker.
Context `{!RelayPath T} `{!LocalStackSink L} (started fallback_mask : Z) (strategy : Strategy) (index : nat).
Context (Hindex : (index < routes)%nat) (Hfallback : mask fallback_mask).
Implicit Types (w : Worker T).

Record worker_ok (w : Worker T) : Prop := {
  wk_rtt : within 0 LONGEST_SAMPLE (rtt w);
  wk_pending : ∀ q t, pending_probe w = Some (q, t) → 0 <= t;
  wk_expired : Forall (λ e, 0 <= e.2) (expired_probes w)
}.

(** Same probes and estimator. *)
Definition same_probes w w' : Prop :=
  rtt w' = rtt w ∧ pending_probe w' = pending_probe w ∧ expired_probes w' = expired_probes w.

Lemma worker_same w w' : worker_ok w → same_probes w w' → worker_ok w'.
Proof. intros [Wr Wp We] (E1 & E2 & E3). split; by rewrite ?E1, ?E2, ?E3. Qed.

Lemma worker_no_probe w : worker_ok w → worker_ok (set_pending_probe w None).
Proof. intros [Wr Wp We]. by split. Qed.

Lemma since_instant t t0 : instant t → 0 <= t0 → 0 <= since t t0 <= LONGEST_SAMPLE.
Proof. unfold instant, since. lia. Qed.

Lemma steady_status_update f : steady (update_status index f) (λ _, True).
Proof.
  apply steady_act. intros s l Hi.
  destruct (lookup_lt_is_Some_2 (statuses s) index) as [st ->]; [by rewrite (iv_statuses s l Hi)|].
  eexists _, _. split; [done|]. split; [|done]. apply inv_status; [done|].
  rewrite length_insert. by apply (iv_statuses s l).
Qed.

Lemma steady_metrics_endpoint e : steady (set_metrics_endpoint index e) (λ _, True).
Proof.
  apply steady_act. intros s l Hi.
  destruct (lookup_lt_is_Some_2 (scheduler_metrics s) index) as [m ->]; [by rewrite (iv_metrics s l Hi)|].
  eexists _, _. split; [done|]. split; [|done]. apply inv_metrics_set; [done|].
  rewrite length_insert. by apply (iv_metrics s l).
Qed.

Lemma steady_publish up : steady (publish_health index up) (λ _, True).
Proof.
  apply steady_store. intros s l Hi. apply inv_cell; [done|done| |done]. intros _.
  apply publish_range; [apply (iv_healthy s l Hi)|lia].
Qed.

Lemma bits_mask (ids : list (list byte)) start :
  mask start → mask (foldl (λ m path_id, Z.lor m (bit_for_path path_id)) start ids).
Proof.
  revert start. induction ids as [|i ids IH]; intros start Hs; [done|]. cbn [foldl]. apply IH.
  assert (mask (bit_for_path i)).
  { unfold bit_for_path. destruct (parse_unsigned u32_max i) as [n|] eqn:E; [|unfold mask; lia].
    apply bit_range. by eapply parse_unsigned_nonneg. }
  unfold mask in *. apply (lor_bound 64); lia.
Qed.

Lemma decision_mask_range d : mask (mask_for_decision d fallback_mask).
Proof.
  unfold mask_for_decision. case_match; [done|]. destruct d as [|i|ids]; [unfold mask; lia| |].
  - apply (bits_mask [i] 0). unfold mask. lia.
  - apply bits_mask. unfold mask. lia.
Qed.

Lemma steady_update_scheduler latency : steady (update_scheduler fallback_mask strategy index latency) (λ _, True).
Proof.
  apply steady_store. intros s l Hi. unfold update_scheduler_probe.
  destruct (get (scheduler_metrics s) (Z.of_nat index)) as [m|] eqn:Em.
  - apply inv_cell; [|done|intros _; apply decision_mask_range|done].
    apply inv_metrics_set; [done|]. rewrite length_insert. by apply (iv_metrics s l).
  - apply inv_cell; [|done|intros _; by apply (iv_decision s l Hi)|done].
    apply inv_metrics_set; [done|]. by apply (iv_metrics s l).
Qed.

Lemma wp_transmit call f e w r :
  plain r → Knows e ∈ r → sealed_frame e = f → worker_ok w →
  wp (transmit index call f w) r (λ a r', r' = r ∧ worker_ok a.2).
Proof.
  intros Hr He Hf Hw s others Hi. unfold transmit. destruct (call (path w) f) as [o p].
  exists r. split; [by apply plain_share|]. split; [|split; [done|by apply (worker_same w)]].
  pose proof (token_in s r others _ Hi He) as Hin. destruct Hi. split; try done; cbn.
  intros i g [Hg|Hg%list_elem_of_singleton]%elem_of_app; [by eapply iv_wire0|]. injection Hg as -> ->. by exists e.
Qed.

Lemma calm_control fl payload w :
  worker_ok w → 0 < fl < 256 → has_flag fl FLAG_REPAIR = false →
  calm (send_control client_id session_id crypto index fl payload w) (λ a, worker_ok a.2).
Proof.
  intros Hw Hfl Hrep r Hr. unfold send_control. apply wp_bind, wp_seal; [by apply plain_share|lia|lia|by rewrite Hrep| |].
  - intros q f e Hf _ _. eapply wp_seq; [eapply wp_transmit; [|apply list_elem_of_here|done|done]; done|].
    intros [o w'] r' [-> Hw']. by apply wp_ret.
  - intros q e. by apply wp_ret.
Qed.

Lemma calm_steady {A B} (m : prog A) (f : A → prog B) (P : A → Prop) (Q : B → Prop) :
  steady m P → (∀ a, P a → calm (f a) Q) → calm (m ≫= f) Q.
Proof. intros Hm. apply calm_bind. by eapply steady_calm. Qed.

Lemma steady_skip : steady (mret ()) (λ _, True).
Proof. by apply steady_ret. Qed.

Lemma steady_add_here c n : c ≠ QueueDepth → steady (add_here c index n) (λ _, True).
Proof. intros Hc. by apply steady_here. Qed.

Lemma steady_if (b : bool) (m m' : prog unit) :
  steady m (λ _, True) → steady m' (λ _, True) → steady (if b then m else m') (λ _, True).
Proof. by destruct b. Qed.

(** [step] runs a steady step of a call, [finish] ends one whose worker kept its
    probes. *)
Ltac steady_op :=
  first
    [ apply steady_now | apply steady_status_update | apply steady_publish | apply steady_metrics_endpoint
    | apply steady_update_scheduler | apply steady_record_probe | apply steady_skip | apply steady_failure
    | apply steady_accepted | apply steady_cell
    | apply steady_add_here; done
    | apply steady_here; done
    | apply steady_if; steady_op ].
Ltac step := eapply calm_steady; [steady_op|intros ? ?].
Ltac finish := apply calm_ret; (done || by eapply worker_same).

Lemma calm_measure_gap w : worker_ok w → calm (measure_gap index w) worker_ok.
Proof. intros Hw. unfold measure_gap. do 3 step. finish. Qed.

Lemma calm_redial_later e w : worker_ok w → calm (redial_later index e w) worker_ok.
Proof. intros Hw. unfold redial_later. do 2 step. finish. Qed.

Lemma calm_adopt p w : worker_ok w → calm (adopt_path index p w) worker_ok.
Proof.
  intros Hw. unfold adopt_path. do 4 step. apply calm_ret.
  destruct (_ && _); destruct Hw as [Wr Wp We]; split; try done. cbn. apply with_floor_within. unfold LONGEST_SAMPLE, secs. lia.
Qed.

Lemma calm_collect w : worker_ok w → calm (collect_dial index w) worker_ok.
Proof.
  intros Hw. unfold collect_dial. destruct (dialing w) as [superseded|]; [|finish].
  eapply (calm_steady _ _ (λ _, True)).
  { apply steady_act. intros s l Hi.
    destruct (lookup_lt_is_Some_2 (dials s) index) as [c Hc]; [by rewrite (iv_dials s l Hi)|]. rewrite Hc.
    eexists _, _. split; [done|]. split; [|done]. apply inv_dials_set; [done|].
    destruct c; rewrite ?length_insert; by apply (iv_dials s l). }
  intros received _. destruct (Dialer.poll superseded received) as [| |[p|e]]; [finish|finish|..].
  - by apply calm_adopt.
  - apply calm_redial_later. by eapply worker_same.
Qed.

Lemma calm_redial w : worker_ok w → calm (redial routes index w) worker_ok.
Proof.
  intros Hw. unfold redial. eapply (calm_bind _ _ (λ a, same_probes w a.2)).
  { unfold common_mode. step. eapply (calm_steady _ _ (λ _, True)).
    { case_match; [|by apply steady_ret]. eapply steady_bind; [by apply steady_cell|]. intros ? _. by apply steady_ret. }
    intros alone _. case_match; [do 2 step|]; by apply calm_ret. }
  intros [common w1] Hsame. cbn [snd] in Hsame. apply (worker_same w w1 Hw) in Hsame as Hw1.
  eapply (calm_steady _ _ (λ _, True)); [by apply steady_load|]. intros monitor _.
  case_match; [finish|]. step. case_match; [finish|]. case_match; [step; finish|].
  unfold start_redial. eapply (calm_steady _ _ (λ _, True)).
  { apply steady_act. intros s l Hi. eexists _, _. split; [done|]. split; [|done].
    case_match; [done|]. apply inv_dials_set; [done|]. rewrite length_insert. by apply (iv_dials s l). }
  intros [error|] _; [apply calm_redial_later; by eapply worker_same|]. step. finish.
Qed.

Lemma calm_announce w : worker_ok w → calm (announce client_id session_id crypto index w) worker_ok.
Proof.
  intros Hw. unfold announce. do 2 step. eapply (calm_steady _ _ (λ _, True)).
  { case_match; [|by apply steady_ret]. eapply steady_bind; [by apply steady_now|]. intros ? _. by apply steady_ret. }
  intros stale _. case_match; [finish|].
  eapply (calm_bind _ _ (λ a, worker_ok a.2)).
  { apply calm_control; [done| |]; by case_match. }
  intros [[q o] w'] Hw'. cbn [snd] in Hw'. step. finish.
Qed.

Lemma calm_drain_worker w : worker_ok w → calm (drain index w) worker_ok.
Proof.
  intros Hw. unfold drain. apply (calm_drain worker_ok); [| |done|done].
  - intros f w1 e r Hw1 Hr He Hf. unfold send_queued.
    eapply wp_seq; [eapply wp_transmit; done|]. intros [o w2] r' [-> Hw2]. destruct o as [u|err].
    + apply (wp_steady _ _ (λ _, True)); [apply steady_skip|done|]. intros _ _. by apply wp_ret.
    + apply (wp_steady _ _ (λ _, True)); [|done|intros _ _; by apply wp_ret].
      do 2 (eapply steady_bind; [by apply steady_add_here|]; intros _ _).
      apply steady_store. intros s l Hi. by apply inv_diagnostics.
  - intros n o. apply steady_status_update.
Qed.

Lemma calm_out_of_service e : calm (take_out_of_service index e) (λ _, True).
Proof. unfold take_out_of_service. step. eapply steady_calm; [apply steady_status_update|done]. Qed.

Lemma calm_plan w : worker_ok w → calm (plan_redial w) worker_ok.
Proof. intros Hw. unfold plan_redial. step. finish. Qed.

Lemma calm_notice w : worker_ok w → calm (notice_transport index w) worker_ok.
Proof.
  intros Hw. unfold notice_transport. case_match; [finish|].
  eapply calm_bind; [apply calm_out_of_service|]. intros _ _. apply calm_plan. by eapply worker_same.
Qed.

Lemma steady_score_loss w : steady (score_loss fallback_mask strategy index w) (λ _, True).
Proof. unfold score_loss. apply steady_if; [apply steady_update_scheduler|apply steady_skip]. Qed.

Lemma calm_probe_failed e w :
  worker_ok w → calm (probe_failed fallback_mask strategy index e w) worker_ok.
Proof.
  intros Hw. unfold probe_failed. step. eapply calm_steady; [apply steady_score_loss|intros _ _].
  do 2 step. step. eapply calm_bind; [apply calm_plan; by eapply worker_same|]. intros w' Hw'. step. finish.
Qed.

Lemma calm_probe_sent sequence (o : result (list byte) unit) w :
  worker_ok w →
  calm (match o with
        | Ok _ => at_instant ← now; mret (set_pending_probe w (Some (sequence, at_instant)))
        | Err error => probe_failed fallback_mask strategy index error w
        end) worker_ok.
Proof.
  intros Hw. destruct o as [u|e]; [|by apply calm_probe_failed]. step. apply calm_ret.
  destruct Hw as [Wr Wp We]. split; [done| |done]. intros q t [= <- <-].
  match goal with Ht : instant _ |- _ => apply Ht end.
Qed.

Lemma calm_send_probe w :
  worker_ok w → calm (send_health_probe client_id session_id crypto fallback_mask strategy index w) worker_ok.
Proof.
  intros Hw. unfold send_health_probe. step. case_match; [finish|]. intros r Hr. apply wp_bind, wp_seal.
  - by apply plain_share.
  - done.
  - done.
  - by intros E; vm_compute in E.
  - intros q f e Hf _ _. apply (wp_seq _ _ _ _ _ (λ a r', plain r' ∧ worker_ok a.2)).
    + apply (wp_steady _ _ (λ _, True)); [apply steady_status_update|done|]. intros _ _.
      eapply wp_mono; [eapply wp_transmit; [|apply list_elem_of_here|done|done]; done|]. intros [o w'] r' [-> ?]. by split.
    + intros [o w'] r' [Hr' Hw']. by apply calm_probe_sent.
  - intros q e. apply wp_bind, wp_ret. exact (calm_probe_failed e w Hw r Hr).
Qed.

Lemma calm_offer w : worker_ok w → calm (send_offer client_id session_id crypto started index w) worker_ok.
Proof.
  intros Hw. unfold send_offer. step. eapply calm_steady; [apply steady_offer_due|]. intros [o|] _; [|finish].
  eapply (calm_bind _ _ (λ a, worker_ok a.2)); [by apply calm_control|]. intros [[q r] w'] Hw'. finish.
Qed.

(** *** Receiving *)

Lemma calm_late plaintext w : worker_ok w → calm (late_reply plaintext w) worker_ok.
Proof.
  intros Hw. unfold late_reply. eapply calm_steady; [apply steady_now|]. intros t Ht.
  destruct (take_late_probe_reply (expired_probes w) plaintext t) as [elapsed expired] eqn:E.
  assert (Forall (λ e, 0 <= e.2) expired ∧ ∀ d, elapsed = Some d → 0 <= d <= LONGEST_SAMPLE) as [He Hd].
  { pose proof (wk_expired w Hw) as Hall. unfold take_late_probe_reply in E.
    destruct (list_find _ _) as [[i [q t0]]|] eqn:Ef; injection E as <- <-; [|done].
    apply list_find_Some in Ef as (Hl & _). split; [by apply Forall_delete|]. intros d [= <-].
    apply since_instant; [done|]. by apply (Forall_lookup_1 _ _ _ _ Hall Hl). }
  assert (worker_ok (set_expired_probes w expired)) as Hw' by (destruct Hw; by split).
  destruct elapsed as [d|]; [|finish].
  destruct (record_within 0 LONGEST_SAMPLE (rtt w) d) as (e & Hrec & Hin & _); [lia|done|apply Hw|by apply Hd|].
  eapply calm_steady; [apply (steady_lift _ (within 0 LONGEST_SAMPLE)); by exists e|].
  intros e' He'. apply calm_ret. destruct Hw'. by split.
Qed.

Lemma calm_answered plaintext sent_at w :
  worker_ok w → 0 <= sent_at → calm (probe_answered fallback_mask strategy index plaintext sent_at w) worker_ok.
Proof.
  intros Hw Hsent. unfold probe_answered. cbn zeta.
  set (w1 := set_pending_probe _ None).
  assert (worker_ok w1) as Hw1 by (apply worker_no_probe; destruct (_ =? _); [by eapply worker_same|done]).
  assert (rtt w1 = rtt w) as Hrtt by (subst w1; by destruct (_ =? _)). clearbody w1.
  eapply calm_steady; [apply steady_now|]. intros t Ht.
  pose proof (since_instant t sent_at Ht Hsent) as Hd. set (d := since t sent_at) in *. clearbody d.
  destruct (record_within 0 LONGEST_SAMPLE (rtt w1) d) as (e & Hrec & Hin & _); [lia|done|apply Hw1|done|].
  eapply calm_steady; [apply (steady_lift _ (within 0 LONGEST_SAMPLE)); by exists e|].
  intros e' He'. assert (worker_ok (set_rtt w1 e')) as Hw2 by (destruct Hw1; by split).
  clear Hrec Hin e. do 3 step. eapply calm_steady; [apply steady_store; intros; by apply inv_cheap|intros _ _].
  set (w3 := match dialing _ with Some _ => _ | None => _ end).
  assert (worker_ok w3) as Hw3 by (subst w3; case_match; by apply (worker_same _ _ Hw2)). clearbody w3.
  do 5 step. finish.
Qed.

Lemma calm_handle_control header plaintext w :
  worker_ok w → calm (handle_control fallback_mask strategy index header plaintext w) worker_ok.
Proof.
  intros Hw. unfold handle_control. cbn zeta. case_match; [step; finish|].
  destruct (if has_flag _ _ then accepted_group plaintext else None) as [g|]; [step; finish|].
  destruct (pending_probe w) as [[q t]|] eqn:Ep.
  - case_match; [case_match; [by apply calm_late|finish]|].
    apply calm_answered; [done|]. by eapply wk_pending.
  - case_match; [by apply calm_late|finish].
Qed.

Lemma with_diagnostics_safe i d : ingress_safe i → ingress_safe (Ingress.with_diagnostics i d).
Proof. intros []. by split. Qed.

Lemma steady_repair header plaintext :
  0 <= Protocol.sequence header → steady (deliver_repair header plaintext) (λ _, True).
Proof.
  intros H0. apply steady_act. intros s l Hi.
  destruct (enqueue_repair_safe (λ _, clock s) (Ingress.with_diagnostics (ingress s) (diagnostics s)) (inbound s)
    header plaintext (with_diagnostics_safe _ _ (iv_ingress s l Hi)) H0) as (b & i & q & -> & Hs).
  cbn [mbind run_bind]. eexists _, _. split; [done|]. split; [by apply inv_ingress|done].
Qed.

Lemma steady_data header plaintext :
  0 <= Protocol.sequence header → steady (deliver_data header plaintext) (λ _, True).
Proof.
  intros H0. apply steady_act. intros s l Hi.
  destruct (enqueue_authenticated_safe (λ _, clock s) (Ingress.with_diagnostics (ingress s) (diagnostics s)) (inbound s)
    header plaintext (with_diagnostics_safe _ _ (iv_ingress s l Hi)) H0) as (b & i & q & -> & Hs).
  cbn [mbind run_bind]. eexists _, _. split; [done|]. split; [by apply inv_ingress|done].
Qed.

Lemma calm_handle_frame f w :
  worker_ok w → calm (handle_frame client_id session_id crypto fallback_mask strategy index f w) worker_ok.
Proof.
  intros Hw. unfold handle_frame.
  destruct (open_total (SessionCrypto.server_to_client crypto) SERVER_TO_CLIENT_NONCE f) as [opened Ho].
  eapply (calm_steady _ _ (λ o, o = opened)); [apply steady_lift; by exists opened|]. intros ? ->.
  destruct opened as [[header plaintext]|e]; [|step; finish].
  apply open_wf in Ho as (_ & _ & _ & Hq). case_match; [finish|].
  case_match; [by apply calm_handle_control|].
  case_match; [step; eapply calm_steady; [apply steady_repair; lia|]; intros _ _; finish|].
  case_match; [|finish]. step. eapply calm_steady; [apply steady_data; lia|]. intros [b|[p|p]] _; try finish.
  do 2 step. finish.
Qed.

Lemma calm_receive w :
  worker_ok w → calm (receive client_id session_id crypto fallback_mask strategy index w) worker_ok.
Proof.
  intros Hw. unfold receive. destruct (receive_frames _ _) as [received p].
  assert (worker_ok (set_path w p)) as Hw' by (by eapply worker_same). destruct received as [frames|e].
  - apply calm_for_each; [done|]. intros f w1 Hw1. by apply calm_handle_frame.
  - step. finish.
Qed.

(** *** The end of a turn *)

Lemma calm_publish_transport w : worker_ok w → calm (publish_transport index w) worker_ok.
Proof.
  intros Hw. unfold publish_transport. destruct (take_transport_drops (path w)) as [[stale full] p].
  eapply (calm_steady _ _ (λ _, True)).
  { unfold record_transport_drops. case_match; [by apply steady_ret|].
    do 2 (eapply steady_bind; [by apply steady_add_here|]; intros _ _). by apply steady_add_here. }
  intros _ _. case_match; [step|]; finish.
Qed.

Lemma calm_expire q sent_at w :
  worker_ok w → 0 <= sent_at → calm (expire fallback_mask strategy index q sent_at w) worker_ok.
Proof.
  intros Hw Hsent. unfold expire. step. cbn zeta.
  set (w1 := set_expired_probes _ _).
  assert (worker_ok w1) as Hw1.
  { destruct Hw as [Ha Hb Hc]. split; [done|done|]. cbn. unfold remember_expired_probe.
    apply Forall_app. split; [|by constructor].
    assert (Forall (λ e : Z * Z, 0 <= e.2) (filter (λ e, since a e.2 < LATE_REPLY_WINDOW) (expired_probes w))) as Hf.
    { apply Forall_forall. intros e He%list_elem_of_filter. rewrite Forall_forall in Hc. apply Hc, He. }
    case_match; [|done]. by destruct Hf; [constructor|]. }
  clearbody w1. step. eapply calm_steady; [apply steady_score_loss|intros _ _]. step.
  destruct (health_note (path w1)) as [note p].
  eapply calm_bind; [apply calm_plan; by eapply worker_same|]. intros w2 Hw2.
  eapply (calm_bind _ _ (λ _, True)); [case_match; [apply calm_out_of_service|by apply calm_ret]|].
  intros _ _. step. finish.
Qed.

Lemma calm_expire_probe w : worker_ok w → calm (expire_probe fallback_mask strategy index w) worker_ok.
Proof.
  intros Hw. unfold expire_probe. destruct (pending_probe w) as [[q t]|] eqn:Ep; [|finish]. step.
  destruct (timeout_within 0 LONGEST_SAMPLE (rtt w)) as (d & Hd & _); [lia|done|apply Hw|].
  eapply (calm_steady _ _ (λ _, True)); [apply steady_lift; by exists d|]. intros deadline _.
  case_match; [|finish]. apply calm_expire; [done|]. by eapply wk_pending.
Qed.

Lemma calm_turn w :
  worker_ok w → calm (turn client_id session_id crypto routes started fallback_mask strategy index w) worker_ok.
Proof.
  intros Hw. unfold turn.
  eapply calm_bind; [by apply calm_measure_gap|]. intros w1 H1'.
  eapply calm_bind; [by apply calm_collect|]. intros w2 H2'.
  eapply calm_bind; [by apply calm_redial|]. intros w3 H3'.
  eapply calm_bind; [by apply calm_announce|]. intros w4 H4'.
  eapply calm_bind; [by apply calm_drain_worker|]. intros w5 H5'.
  eapply calm_bind; [by apply calm_notice|]. intros w6 H6'.
  eapply calm_bind; [by apply calm_send_probe|]. intros w7 H7'.
  eapply calm_bind; [by apply calm_offer|]. intros w8 H8'.
  eapply calm_bind; [by apply calm_receive|]. intros w9 H9'.
  eapply calm_bind; [by apply calm_publish_transport|]. intros w10 H10'.
  by apply calm_expire_probe.
Qed.

Lemma calm_run_path turns p :
  calm (run_path client_id session_id crypto routes started fallback_mask strategy index turns p) worker_ok.
Proof.
  unfold run_path. eapply (calm_bind _ _ worker_ok).
  - unfold open_worker. do 4 step. apply calm_ret. split; [|done|constructor].
    apply with_floor_within. unfold LONGEST_SAMPLE, secs. lia.
  - induction turns as [|n IH]; intros w Hw; [finish|]. cbn [run_turns].
    eapply (calm_steady _ _ (λ _, True)); [by apply steady_load|]. intros stopped _.
    case_match; [finish|]. eapply calm_bind; [by apply calm_turn|]. apply IH.
Qed.
End worker.
End safety.
