(* ===== verification/SessionTheorems.v ===== *)
(** * SessionTheorems: a running relay session, whatever the interleaving

    The calls of a session's threads ([send] of a captured packet, the flusher, the
    path workers with any number of turns, the status query) start at any time and
    interleave step by step with each other and with the world outside. *)
From S2P Require Import Prelude Protocol Replay FecPolicy Fec Mtu Auth Scheduler Rtt Health Uplink Dialer Diagnostics LocalTap Ingress Threads Session LossRepair Sender RelayWorker SessionSafety.

Inductive session_call (T : Type) : Type :=
| SendPacket (packet : list byte) (node : Z)
| FlushTurn
| RunPath (index turns : nat) (transport : T)
| RepairStatusQuery.
Arguments SendPacket {T} packet node.
Arguments FlushTurn {T}.
Arguments RunPath {T} index turns transport.
Arguments RepairStatusQuery {T}.

(** What the rest of the world does: the clock moves on, the session is told to
    stop, a measurement lands, the uplink monitor publishes, a dial ends, the next
    thread cannot be spawned, a worker's thread is gone, the game reads. *)
Inductive outside (T : Type) : Type :=
| ClockReads (t : Z)
| StopRequested
| MtuMeasured (m : EffectiveMtu)
| UplinkPublished (m : UplinkMonitor)
| DialEnded (index : nat) (outcome : result (list byte) T)
| SpawnFails (error : option (list byte))
| WorkerGone (index : nat)
| GameReads.
Arguments ClockReads {T} t.
Arguments StopRequested {T}.
Arguments MtuMeasured {T} m.
Arguments UplinkPublished {T} m.
Arguments DialEnded {T} index outcome.
Arguments SpawnFails {T} error.
Arguments WorkerGone {T} index.
Arguments GameReads {T}.

Inductive session_event (T : Type) : Type :=
| Starts (call : session_call T)
| Steps (i : nat)
| Outside (o : outside T).
Arguments Starts {T} call.
Arguments Steps {T} i.
Arguments Outside {T} o.

Section session.
Context {T L : Type} `{!Cipher} `{!RelayPath T} `{!LocalStackSink L}.
Context (client_id : list byte) (session_id : Z) (crypto : SessionCrypto.t).
Context (routes : nat) (started fallback_mask : Z) (strategy : Strategy).
Implicit Types (s : Shared T L).

Definition call_prog (c : session_call T) : prog (Shared T L) () :=
  match c with
  | SendPacket packet node =>
      _ ← send (Relay client_id crypto) session_id routes packet node; mret ()
  | FlushTurn => _ ← flush_turn client_id session_id crypto routes; mret ()
  | RunPath index turns p =>
      _ ← run_path client_id session_id crypto routes started fallback_mask strategy index turns p; mret ()
  | RepairStatusQuery => _ ← LossRepair.status; mret ()
  end.

(** Time does not run backwards, and what a dropped receiver left behind can no
    longer be seen. *)
Definition apply_outside (o : outside T) s : Shared T L :=
  match o with
  | ClockReads t => with_clock s (Z.max (clock s) t)
  | StopRequested => with_stop s true
  | MtuMeasured m => with_measured_mtu s (Some m)
  | UplinkPublished m => with_uplink s m
  | DialEnded index outcome => with_dials s (<[index := Received outcome]> (dials s))
  | SpawnFails error => with_spawn_error s error
  | WorkerGone index =>
      match commands s !! index with
      | Some q => with_commands s (<[index := mk_commands (waiting q) false]> (commands s))
      | None => s
      end
  | GameReads =>
      with_inbound s (mk_inbound (recv (inbound_queue (inbound s))).2 (inbound_tap (inbound s))
                        (gauge_taken (inbound_gauge (inbound s))))
  end.

Definition machine_event (e : session_event T) : event (Shared T L) :=
  match e with
  | Starts call => Call (call_prog call)
  | Steps i => Turn i
  | Outside o => Environment (apply_outside o)
  end.

(** A path's number is below the number of routes; the clock stays within a
    century. *)
Definition event_wf (e : session_event T) : Prop :=
  match e with
  | Starts (RunPath index _ _) => (index < routes)%nat
  | Outside (ClockReads t) => t <= LONGEST_SAMPLE
  | _ => True
  end.

Definition captured (events : list (session_event T)) (packet : list byte) : Prop :=
  ∃ node, Starts (SendPacket packet node) ∈ events.

(** ** Every event keeps the invariant *)

Section events.
Context (first : Z) (submitted : list byte → Prop) (Hfallback : mask fallback_mask).
Notation inv := (inv client_id session_id crypto routes first submitted).

Lemma outside_ok o s l :
  event_wf (Outside o) → inv s l → inv (apply_outside o s) l.
Proof.
  intros Ho Hi. destruct o as [t| |m|m|index outcome|error|index|]; cbn [apply_outside].
  - destruct Hi. split; try done. cbn in *. lia.
  - by destruct Hi.
  - by destruct Hi.
  - by destruct Hi.
  - apply inv_dials_set; [done|]. rewrite length_insert. by eapply iv_dials.
  - by destruct Hi.
  - destruct (commands s !! index) as [q|] eqn:Eq; [|done]. by eapply command_step.
  - by destruct Hi.
Qed.

Lemma call_ok_of_calm {A} (m : prog (Shared T L) A) (P : A → Prop) :
  calm client_id session_id crypto routes first submitted m P →
  Threads.call_ok inv share leftover (_ ← m; mret ()).
Proof.
  intros Hm. apply wp_bind. eapply wp_mono; [by apply Hm|]. intros a r [Hr _]. by apply leftover_plain.
Qed.

Lemma event_wf_ok e :
  event_wf e → (∀ packet node, e = Starts (SendPacket packet node) → submitted packet) →
  event_ok inv share leftover (machine_event e).
Proof.
  intros He Hsub. destruct e as [[packet node| |index turns p|]|i|o]; cbn [machine_event event_ok call_prog].
  - eapply call_ok_of_calm, calm_send. by eapply Hsub.
  - eapply call_ok_of_calm, calm_flush.
  - eapply call_ok_of_calm, calm_run_path; done.
  - eapply (call_ok_of_calm _ (λ _, True)), steady_calm; [apply steady_status|done].
  - done.
  - intros s l. by apply outside_ok.
Qed.
End events.

(** ** The session that [start_relay] brings up *)

Section start.
Context (decision : Z) (derived : EffectiveMtu) (first_statuses : list PathSessionStatus).
Context (Hroutes : length first_statuses = routes).

Definition started_session : Shared T L :=
  start_session client_id session_id decision derived first_statuses started.

Lemma start_inv submitted :
  mask decision → 0 <= started <= LONGEST_SAMPLE →
  inv client_id session_id crypto routes 1 submitted started_session [].
Proof.
  intros Hd Ht. unfold started_session, start_session. rewrite Hroutes.
  split; cbn -[LONGEST_SAMPLE]; try done; rewrite ?length_replicate, ?length_fmap, ?length_seq; try done.
  - intros c. unfold new_telemetry. by rewrite length_replicate.
  - intros i q [-> Hi]%lookup_replicate. unfold counter_at. cbn. by apply lookup_replicate.
  - intros i q [-> _]%lookup_replicate. done.
  - intros e He. by apply elem_of_nil in He.
  - constructor.
  - intros i q c [-> _]%lookup_replicate Hc. by apply elem_of_nil in Hc.
  - intros i f Hf. by apply elem_of_nil in Hf.
  - exists []. split; [apply opens_new|]. intros q p Hin. by apply elem_of_nil in Hin.
  - split; [eexists; apply represents_default|by left|constructor].
Qed.

(** What any interleaving leads to. *)
Lemma session_runs_with (submitted : list byte → Prop) events :
  mask decision → mask fallback_mask → 0 <= started <= LONGEST_SAMPLE → Forall event_wf events →
  (∀ packet, captured events packet → submitted packet) →
  ∃ s pool rs, machine_run (started_session, []) (machine_event <$> events) = Ret (s, pool) ∧
    inv client_id session_id crypto routes 1 submitted s (mjoin rs) ∧
    length rs = length pool ∧ Forall share rs.
Proof.
  intros Hd Hf Ht Hev Hsub.
  destruct (machine_ok (inv client_id session_id crypto routes 1 submitted) share
    ltac:(intros; by eapply inv_perm) leftover ltac:(done) ltac:(intros; by eapply inv_drop)
    started_session (machine_event <$> events)) as (s & pool & rs & Hr & Hi & Hl & Hs).
  - by apply start_inv.
  - apply Forall_fmap, Forall_forall. intros e He. apply event_wf_ok; [done| |].
    + rewrite Forall_forall in Hev. by apply Hev.
    + intros packet node ->. apply Hsub. by exists node.
  - by exists s, pool, rs.
Qed.

Lemma session_runs events :
  mask decision → mask fallback_mask → 0 <= started <= LONGEST_SAMPLE → Forall event_wf events →
  ∃ s pool rs, machine_run (started_session, []) (machine_event <$> events) = Ret (s, pool) ∧
    inv client_id session_id crypto routes 1 (captured events) s (mjoin rs) ∧
    length rs = length pool ∧ Forall share rs.
Proof. intros. by apply session_runs_with. Qed.
End start.
End session.

(** ** Properties *)

(** Within 2^64 draws, a number belongs to one frame. *)
Lemma sealed_once `{!Cipher} {T L} client_id session_id crypto routes first submitted (s : Shared T L) l i j f g :
  zlen client_id = 16 → 0 <= session_id < 2 ^ 64 →
  inv client_id session_id crypto routes first submitted s l → draws s <= 2 ^ 64 →
  (i, f) ∈ wire s → (j, g) ∈ wire s →
  ∃ h1 h2, decode f = Ret (Ok h1) ∧ decode g = Ret (Ok h2) ∧
    0 <= sequence h1 < 2 ^ 64 ∧ 0 <= sequence h2 < 2 ^ 64 ∧ (sequence h1 = sequence h2 → f = g).
Proof.
  intros Hc Hsid Hi Hdraws Hf Hg.
  destruct (iv_wire _ _ _ _ _ _ s l Hi i f Hf) as (e1 & He1 & <-).
  destruct (iv_wire _ _ _ _ _ _ s l Hi j g Hg) as (e2 & He2 & <-).
  assert (∀ e, e ∈ sealed s → decode (sealed_frame e) = Ret (Ok (sealed_header e)) ∧
    0 <= draw e < draws s ∧ sequence (sealed_header e) = wrap64 (first + draw e)) as Hall.
  { intros e He. destruct (iv_sealed _ _ _ _ _ _ s l Hi e He) as [Hdr (fl & Hfl & Hh) Hseal _ _].
    assert (header_wf (sealed_header e)) as Hwf.
    { rewrite Hh. split; [done|]. split; [done|]. split; [done|]. apply Z.mod_pos_bound. lia. }
    split; [|by rewrite Hh]. revert Hseal Hwf. generalize (sealed_header e). intros h Hseal Hwf.
    unfold SessionCrypto.seal_client, SessionCrypto.seal in Hseal.
    destruct (encrypt _ _ _ _) as [ct|]; [|done].
    assert (sealed_frame e = encode h ++ ct) as -> by congruence. by apply decode_encode. }
  destruct (Hall e1 He1) as (D1 & B1 & Q1), (Hall e2 He2) as (D2 & B2 & Q2).
  exists (sealed_header e1), (sealed_header e2). split; [done|]. split; [done|]. rewrite Q1, Q2.
  split; [by apply Z.mod_pos_bound|]. split; [by apply Z.mod_pos_bound|].
  intros Heq. assert (draw e1 = draw e2) as Hd.
  { unfold wrap64 in Heq. apply (f_equal (λ x, (x - first) mod 2 ^ 64)) in Heq.
    rewrite !Zminus_mod_idemp_l in Heq. replace (first + draw e1 - first) with (draw e1) in Heq by lia.
    replace (first + draw e2 - first) with (draw e2) in Heq by lia. rewrite !Z.mod_small in Heq by lia. done. }
  apply list_elem_of_lookup in He1 as [a Ha], He2 as [b Hb].
  pose proof (iv_numbers _ _ _ _ _ _ s l Hi) as Hnd. rewrite NoDup_alt in Hnd.
  assert (a = b) as ->; [|congruence].
  apply (Hnd a b (draw e1)); rewrite list_lookup_fmap; [by rewrite Ha|by rewrite Hb, Hd].
Qed.

Section theorems.
Context {T L : Type} `{!Cipher} `{!RelayPath T} `{!LocalStackSink L}.
Context (client_id : list byte) (session_id : Z) (crypto : SessionCrypto.t).
Context (decision : Z) (derived : EffectiveMtu) (statuses : list PathSessionStatus).
Context (started fallback : Z) (strategy : Strategy).

(** A run of the session from its start. *)
Definition session_run (events : list (session_event T)) : run (Shared T L * list (prog (Shared T L) ())) :=
  machine_run (started_session client_id session_id started decision derived statuses, [])
    (machine_event client_id session_id crypto (length statuses) started fallback strategy <$> events).

Context (Hdecision : mask decision) (Hfallback : mask fallback) (Hstarted : 0 <= started <= LONGEST_SAMPLE).

(** C1. No nonce is used twice under a client's key: whatever the calls of a
    session's threads and however their steps interleave, nothing panics, and two
    frames handed to transports, be they data, repairs, probes, offers or
    announcements, have different nonces unless they are copies of one frame, as
    long as fewer than 2^64 numbers were drawn. *)
Theorem no_client_nonce_is_reused events
    (Hc : zlen client_id = 16) (Hs : 0 <= session_id < 2 ^ 64)
    (Hevents : Forall (event_wf (length statuses)) events) :
  ∃ s pool, session_run events = Ret (s, pool) ∧
    (draws s <= 2 ^ 64 → ∀ i f j g, (i, f) ∈ wire s → (j, g) ∈ wire s →
      ∃ h1 h2, decode f = Ret (Ok h1) ∧ decode g = Ret (Ok h2) ∧
        (nonce CLIENT_TO_SERVER_NONCE (sequence h1) = nonce CLIENT_TO_SERVER_NONCE (sequence h2) → f = g)).
Proof.
  destruct (session_runs client_id session_id crypto (length statuses) started fallback strategy decision
    derived statuses eq_refl events Hdecision Hfallback Hstarted Hevents) as (s & pool & rs & Hr & Hi & _).
  exists s, pool. split; [done|]. intros Hd i f j g Hf Hg.
  destruct (sealed_once client_id session_id crypto _ _ _ s _ i j f g Hc Hs Hi Hd Hf Hg)
    as (h1 & h2 & D1 & D2 & B1 & B2 & Heq).
  exists h1, h2. split; [done|]. split; [done|]. intros Hn. apply Heq. by apply nonce_inj in Hn as [_ ?].
Qed.

(** The queue depths that the scheduler of repairs and the status read are
    exact: whatever the interleaving, a path's depth is the number of commands in
    its queue plus those that calls in flight have reserved or are just taking, one
    a call at most, so it never wraps, and it is exact when no call is in flight.
    The queue stays within its bound. *)
Theorem queue_depth_is_exact events (Hevents : Forall (event_wf (length statuses)) events) :
  ∃ s pool, session_run events = Ret (s, pool) ∧
    (Z.of_nat (length pool) < 2 ^ 63 → ∀ i q, commands s !! i = Some q →
      zlen (waiting q) <= PATH_QUEUE_DEPTH ∧
      ∃ n, 0 <= n <= Z.of_nat (length pool) ∧ counter_at QueueDepth i s = Some (zlen (waiting q) + n)).
Proof.
  destruct (session_runs client_id session_id crypto (length statuses) started fallback strategy decision
    derived statuses eq_refl events Hdecision Hfallback Hstarted Hevents) as (s & pool & rs & Hr & Hi & Hl & Hsh).
  exists s, pool. split; [done|]. intros Hp i q Hq.
  pose proof (iv_capacity _ _ _ _ _ _ s _ Hi i q Hq) as Hcap. split; [done|].
  pose proof (all_held_mjoin rs i Hsh) as Hheld. exists (held i (mjoin rs)). rewrite <-Hl. split; [done|].
  rewrite (iv_depth _ _ _ _ _ _ s _ Hi i q Hq). f_equal. apply Z.mod_small.
  pose proof (zlen_nonneg (waiting q)). unfold PATH_QUEUE_DEPTH in Hcap. lia.
Qed.

(** C16. Repairs cover what was sent: every repair frame that a transport was
    handed, whatever the interleaving that grew and closed its group, is the
    sealed encoding of a well-formed group whose members are captured packets, each
    sealed as a data frame under the number that the repair names it by. *)
Theorem client_repairs_are_honest events
    (Hc : zlen client_id = 16) (Hs : 0 <= session_id < 2 ^ 64)
    (Hevents : Forall (event_wf (length statuses)) events) :
  ∃ s pool, session_run events = Ret (s, pool) ∧
    ∀ i f h, (i, f) ∈ wire s → decode f = Ret (Ok h) → has_flag (flags h) FLAG_REPAIR = true →
      ∃ g, group_wf g ∧ SessionCrypto.seal_client crypto h (encode_group g) = Ok f ∧
        ∀ q p, (q, p) ∈ g → captured events p ∧
          ∃ e, e ∈ sealed s ∧ sealed_header e = mk_header 0 client_id session_id q ∧ sealed_plaintext e = p.
Proof.
  destruct (session_runs client_id session_id crypto (length statuses) started fallback strategy decision
    derived statuses eq_refl events Hdecision Hfallback Hstarted Hevents) as (s & pool & rs & Hr & Hi & _).
  exists s, pool. split; [done|]. intros i f h Hf Hdec Hrep.
  destruct (iv_wire _ _ _ _ _ _ s _ Hi i f Hf) as (e & He & <-).
  destruct (iv_sealed _ _ _ _ _ _ s _ Hi e He) as [_ (fl & Hfl & Hh) Hseal _ Hhonest].
  assert (sealed_header e = h) as Heq.
  { assert (header_wf (sealed_header e)) as Hwf.
    { rewrite Hh. split; [done|]. split; [done|]. split; [done|]. apply Z.mod_pos_bound. lia. }
    clear Hh Hhonest. unfold SessionCrypto.seal_client, SessionCrypto.seal in Hseal.
    destruct (encrypt _ _ _ _) as [ct|]; [|done].
    assert (sealed_frame e = encode (sealed_header e) ++ ct) as Hfr by congruence.
    rewrite Hfr, decode_encode in Hdec by done. congruence. }
  rewrite Heq in *. destruct (Hhonest Hrep) as (g & Hg & Hp & Hin). exists g. split; [done|].
  rewrite Hp in Hseal. split; [done|]. intros q p Hqp. destruct (Hin q p Hqp) as (e' & He' & Hh' & Hp').
  split; [|by exists e']. destruct (iv_sealed _ _ _ _ _ _ s _ Hi e' He') as [_ _ _ Hsub _].
  rewrite Hh', Hp' in Hsub. by apply Hsub.
Qed.
End theorems.

(** *** A concrete session *)

(** A transport that sends everything and hands over what its script says. *)
Definition Script : Type := list (list (list byte)).
#[export] Instance script_path : RelayPath Script := {|
  send_frame p _ := (Ok (), p);
  send_probe p _ := (Ok (), p);
  receive_frames p _ := (Ok (default [] (head p)), tail p);
  take_transport_drops p := (0, 0, p);
  path_endpoint _ := str "node";
  setup_latency_ms _ := None;
  setup_round_trips _ := None;
  bypass_ipv4 _ := None;
  health_note p := (None, p);
  probe_deadline_floor _ := 0;
  transport_failed _ := false
|}.
#[export] Instance no_sink : LocalStackSink () := λ _ _, None.

Definition toy_id : list byte := replicate 16 x07.
Definition toy_crypto : SessionCrypto.t := SessionCrypto.mk (replicate 32 x01) (replicate 32 x02).
Definition toy_status (route : Z) : PathSessionStatus := initial_status route (str "wireguard") [] [].
Definition toy_mtu : EffectiveMtu := mk_mtu 1400 80 false 1400.

(** The relay's confirmation that it repairs its replies. *)
Definition toy_accept : list byte :=
  match SessionCrypto.seal_server (H := Toy.cipher) toy_crypto
          (mk_header (Z.lor FLAG_SERVER_TO_CLIENT FLAG_CONTROL) toy_id 5 1) (accept 1) with
  | Ok f => f
  | Err _ => []
  end.

(** Path 0 runs a turn, which reads the confirmation; two packets are sent while
    path 1 takes turns between their steps; then the flusher and path 1 go on. *)
Definition toy_events : list (session_event Script) :=
  Starts (RunPath 0 1 [[toy_accept]]) :: replicate 60 (Steps 0) ++
  [Starts (SendPacket (str "first") 0); Starts (SendPacket (str "second") 0); Starts (RunPath 1 3 [])] ++
  mjoin (replicate 60 [Steps 0; Steps 1; Steps 2; Steps 1]) ++
  Outside (ClockReads (ms 40)) :: Starts FlushTurn :: mjoin (replicate 60 [Steps 0; Steps 1]) ++
  Starts (RunPath 0 1 []) :: replicate 90 (Steps 0).

Definition toy_session_run :=
  session_run (L := ()) (H := Toy.cipher) toy_id 5 toy_crypto 3 toy_mtu [toy_status 1; toy_status 2] 0 3
    AllPaths toy_events.

(** Both packets and a repair reach a transport. *)
Lemma toy_session_repairs :
  match toy_session_run with
  | Ret (s, pool) =>
      length pool = 0%nat ∧ telemetry s QueueDepth = [0; 1] ∧
      existsb (λ w, match decode w.2 with Ret (Ok h) => has_flag (flags h) FLAG_REPAIR | _ => false end)
        (wire s) = true
  | Panic => False
  end.
Proof. vm_compute. done. Qed.

Lemma toy_events_wf : Forall (event_wf 2) toy_events.
Proof.
  unfold toy_events. repeat (apply Forall_cons; split; [cbn; lia|] || apply Forall_app; split);
    try apply Forall_join; repeat (apply Forall_replicate || constructor); done.
Qed.

Lemma no_client_nonce_is_reused_witness :
  ∃ s pool, toy_session_run = Ret (s, pool) ∧
    (draws s <= 2 ^ 64 → ∀ i f j g, (i, f) ∈ wire s → (j, g) ∈ wire s →
      ∃ h1 h2, decode f = Ret (Ok h1) ∧ decode g = Ret (Ok h2) ∧
        (nonce CLIENT_TO_SERVER_NONCE (sequence h1) = nonce CLIENT_TO_SERVER_NONCE (sequence h2) → f = g)).
Proof.
  apply (no_client_nonce_is_reused (L := ()) (H := Toy.cipher) toy_id 5 toy_crypto 3 toy_mtu
    [toy_status 1; toy_status 2] 0 3 AllPaths);
    [unfold mask; lia|unfold mask; lia|unfold LONGEST_SAMPLE, secs; lia|done|lia|apply toy_events_wf].
Defined.

Lemma queue_depth_is_exact_witness :
  ∃ s pool, toy_session_run = Ret (s, pool) ∧
    (Z.of_nat (length pool) < 2 ^ 63 → ∀ i q, commands s !! i = Some q →
      zlen (waiting q) <= PATH_QUEUE_DEPTH ∧
      ∃ n, 0 <= n <= Z.of_nat (length pool) ∧ counter_at QueueDepth i s = Some (zlen (waiting q) + n)).
Proof.
  apply (queue_depth_is_exact (L := ()) (H := Toy.cipher) toy_id 5 toy_crypto 3 toy_mtu
    [toy_status 1; toy_status 2] 0 3 AllPaths);
    [unfold mask; lia|unfold mask; lia|unfold LONGEST_SAMPLE, secs; lia|apply toy_events_wf].
Defined.

Lemma client_repairs_are_honest_witness :
  ∃ s pool, toy_session_run = Ret (s, pool) ∧
    ∀ i f h, (i, f) ∈ wire s → decode f = Ret (Ok h) → has_flag (flags h) FLAG_REPAIR = true →
      ∃ g, group_wf g ∧ SessionCrypto.seal_client (H := Toy.cipher) toy_crypto h (encode_group g) = Ok f ∧
        ∀ q p, (q, p) ∈ g → captured toy_events p ∧
          ∃ e, e ∈ sealed s ∧ sealed_header e = mk_header 0 toy_id 5 q ∧ sealed_plaintext e = p.
Proof.
  apply (client_repairs_are_honest (L := ()) (H := Toy.cipher) toy_id 5 toy_crypto 3 toy_mtu
    [toy_status 1; toy_status 2] 0 3 AllPaths);
    [unfold mask; lia|unfold mask; lia|unfold LONGEST_SAMPLE, secs; lia|done|lia|apply toy_events_wf].
Defined.
