(* ===== verification/DispatchTheorems.v ===== *)
(** * DispatchTheorems: which paths take a packet, and what its sender is told

    [Dispatch::send] and [DataSender::send] run alone, from any state that a
    session reaches. *)
From S2P Require Import Prelude Protocol Fec Mtu Auth Scheduler Rtt Health Diagnostics LocalTap Ingress Threads Session LossRepair Sender RelayWorker SessionSafety SessionTheorems.

(** What becomes of a frame at one queue. *)
Inductive Verdict : Type := Skipped | Taken | Shed | Gone.

#[export] Instance Verdict_eq_dec : EqDecision Verdict.
Proof. solve_decision. Defined.

Definition verdict (m : Z) (i : nat) (q : CommandQueue) : Verdict :=
  if Z.land m (bit (Z.of_nat i)) =? 0 then Skipped
  else if negb (receiver_alive q) then Gone
  else if PATH_QUEUE_DEPTH <=? zlen (waiting q) then Shed
  else Taken.

Definition place (v : Verdict) (c : PathCommand) (q : CommandQueue) : CommandQueue :=
  match v with Taken => mk_commands (waiting q ++ [c]) (receiver_alive q) | _ => q end.

(** The verdicts over all the queues, and how many of them are [v]. *)
Definition verdicts (m : Z) (queues : list CommandQueue) : list Verdict := imap (verdict m) queues.
Definition tally (v : Verdict) (l : list Verdict) : Z := zlen (filter (λ x, x = v) l).
Definition outcome_of (l : list Verdict) : Dispatched :=
  mk_dispatched (tally Taken l + tally Shed l + tally Gone l) (tally Taken l) (tally Gone l).

Definition add_verdict (o : Dispatched) (v : Verdict) : Dispatched :=
  match v with
  | Skipped => o
  | Taken => mk_dispatched (selected o + 1) (Session.accepted o + 1) (disconnected o)
  | Shed => mk_dispatched (selected o + 1) (Session.accepted o) (disconnected o)
  | Gone => mk_dispatched (selected o + 1) (Session.accepted o) (disconnected o + 1)
  end.

(** The change of a counter, as a number added modulo 2^64. *)
Definition counted (v : Verdict) (c : Counter) : Z :=
  match v, c with
  | Taken, QueueDepth => 1
  | Shed, Dropped | Shed, QueueFullDropped => 1
  | _, _ => 0
  end.

Section dispatch.
Context {T L : Type}.
Implicit Types (s : Shared T L).

(** Counters of [u64]s. *)
Definition counters_wf s : Prop := ∀ c i n, counter_at c i s = Some n → 0 <= n < 2 ^ 64.

Definition counts s s' (i : nat) (by_ : Counter → Z) : Prop :=
  ∀ c j n, c ≠ QueuePeak → counter_at c j s = Some n →
    counter_at c j s' = Some (if decide (j = i) then wrap64 (n + by_ c) else n).

Lemma wrap_small n : 0 <= n < 2 ^ 64 → wrap64 (n + 0) = n.
Proof. intros. unfold wrap64. rewrite Z.add_0_r. by apply Z.mod_small. Qed.

Lemma counts_none s i : counters_wf s → counts s s i (λ _, 0).
Proof. intros Hwf c j n _ Hn. case_decide; [|done]. rewrite Hn, wrap_small; [done|]. by eapply Hwf. Qed.

Lemma counts_add s s' i by_ c n :
  counters_wf s' → counts s s' i by_ →
  counts s (set_counter c i (λ v, wrap64 (v + n)) s') i (λ c', by_ c' + if decide (c' = c) then n else 0) ∧
  counters_wf (set_counter c i (λ v, wrap64 (v + n)) s').
Proof.
  intros Hwf Hc. split.
  - intros c' j x Hp Hx. rewrite counter_set. rewrite (Hc c' j x Hp Hx).
    destruct (decide (c' = c)) as [->|], (decide (j = i)) as [->|].
    + rewrite decide_True by done. cbn. f_equal. unfold wrap64. rewrite Zplus_mod_idemp_l. f_equal. lia.
    + by rewrite decide_False by tauto.
    + rewrite decide_False by tauto. do 2 f_equal. lia.
    + by rewrite decide_False by tauto.
  - intros c' j x. rewrite counter_set. case_decide; [|by apply Hwf].
    destruct (counter_at c' j s'); [|done]. intros [= <-]. by apply Z.mod_pos_bound.
Qed.

Lemma counts_peak s s' i by_ n :
  0 <= n < 2 ^ 64 → counters_wf s' → counts s s' i by_ →
  counts s (set_counter QueuePeak i (Z.max n) s') i by_ ∧ counters_wf (set_counter QueuePeak i (Z.max n) s').
Proof.
  intros Hn Hwf Hc. split.
  - intros c' j x Hp Hx. rewrite counter_set, decide_False by tauto. by apply Hc.
  - intros c' j x. rewrite counter_set. case_decide; [|by apply Hwf].
    destruct (counter_at c' j s') as [y|] eqn:Ey; [|done]. intros [= <-]. apply Hwf in Ey. lia.
Qed.

Lemma counts_ext s s' i by_ by' : counts s s' i by_ → (∀ c, by_ c = by' c) → counts s s' i by'.
Proof. intros Hc He c j n Hp Hn. rewrite <-He. by apply Hc. Qed.

Lemma counts_shed s i :
  counters_wf s →
  let s1 := set_counter QueueDepth i (λ v, wrap64 (v + -1)) (set_counter QueueDepth i (λ v, wrap64 (v + 1)) s) in
  let s2 := set_counter QueueFullDropped i (λ v, wrap64 (v + 1)) (set_counter Dropped i (λ v, wrap64 (v + 1)) s1) in
  (counts s s1 i (counted Gone) ∧ counters_wf s1) ∧ (counts s s2 i (counted Shed) ∧ counters_wf s2).
Proof.
  intros Hwf. destruct (counts_add s s i _ QueueDepth 1 Hwf (counts_none s i Hwf)) as [H1 W1].
  destruct (counts_add s _ i _ QueueDepth (-1) W1 H1) as [H2 W2].
  destruct (counts_add s _ i _ Dropped 1 W2 H2) as [H3 W3].
  destruct (counts_add s _ i _ QueueFullDropped 1 W3 H3) as [H4 W4].
  split; (split; [eapply counts_ext; [eassumption|by intros []]|done]).
Qed.

Lemma counts_taken s i d queues :
  counters_wf s → 0 <= d < 2 ^ 64 →
  let s1 := with_commands (set_counter QueueDepth i (λ v, wrap64 (v + 1)) s) queues in
  (counts s s1 i (counted Taken) ∧ counters_wf s1) ∧
  (counts s (set_counter QueuePeak i (Z.max d) s1) i (counted Taken) ∧
   counters_wf (set_counter QueuePeak i (Z.max d) s1)).
Proof.
  intros Hwf Hd s1. destruct (counts_add s s i _ QueueDepth 1 Hwf (counts_none s i Hwf)) as [H1 W1].
  assert (counts s s1 i (counted Taken)) as H2 by (eapply counts_ext; [exact H1|by intros []]).
  split; [done|]. by apply counts_peak.
Qed.

Lemma dispatch_one f t m i q o s :
  commands s !! i = Some q →
  ∃ s', exec (dispatch_to f t m i o) s = Ret (add_verdict o (verdict m i q), s') ∧
    commands s' = <[i := place (verdict m i q) (mk_command f t) q]> (commands s) ∧
    (counters_wf s → counts s s' i (counted (verdict m i q)) ∧ counters_wf s').
Proof.
  intros Hq. unfold dispatch_to, verdict.
  assert (<[i := q]> (commands s) = commands s) as Hsame by (by apply list_insert_id).
  destruct (Z.land m (bit (Z.of_nat i)) =? 0).
  { exists s. split_and!; [done|by cbn; rewrite Hsame|intros Hwf; by split; [apply counts_none|]]. }
  set (s1 := set_counter QueueDepth i (λ v, wrap64 (v + 1)) s).
  assert (commands s1 = commands s) as Hcmd by done.
  cbn [exec mbind prog_bind act count_fetch run_bind select]. fold s1.
  unfold try_send_command. cbn [exec mbind prog_bind act]. rewrite Hcmd, Hq.
  destruct (receiver_alive q) eqn:Ea; cbn [negb].
  - destruct (PATH_QUEUE_DEPTH <=? zlen (waiting q)).
    + eexists. split; [done|]. split; [by cbn; rewrite Hsame|]. intros Hwf. by apply (counts_shed s i).
    + destruct (counter_at QueueDepth i s) as [d|].
      all: eexists; split; [done|]; split; [by cbn; rewrite Ea|]; intros Hwf.
      * by apply (counts_taken s i (wrap64 (d + 1))); [|apply Z.mod_pos_bound].
      * by apply (counts_taken s i 0).
  - eexists. split; [done|]. split; [by cbn; rewrite Hsame|]. intros Hwf. by apply (counts_shed s i).
Qed.

Lemma tally_cons v x l : tally v (x :: l) = (if decide (x = v) then 1 else 0) + tally v l.
Proof. unfold tally. rewrite filter_cons. case_decide; [unfold zlen; cbn [length]; lia|lia]. Qed.

Lemma fold_verdicts l o :
  foldl add_verdict o l
  = mk_dispatched (selected o + selected (outcome_of l)) (Session.accepted o + Session.accepted (outcome_of l))
      (disconnected o + disconnected (outcome_of l)).
Proof.
  revert o. induction l as [|v l IH]; intros [a b c]; cbn [foldl].
  - unfold outcome_of, tally. rewrite filter_nil. unfold zlen. cbn. f_equal; lia.
  - rewrite IH. unfold outcome_of. cbn [selected Session.accepted disconnected]. rewrite !tally_cons.
    destruct v; repeat case_decide; try congruence; cbn [add_verdict selected Session.accepted disconnected]; f_equal; lia.
Qed.

Lemma verdicts_after m k q queues :
  drop (S k) (verdicts m (<[k := q]> queues)) = drop (S k) (verdicts m queues).
Proof.
  apply list_eq. intros j. unfold verdicts. rewrite !lookup_drop, !list_lookup_imap.
  by rewrite list_lookup_insert_ne by lia.
Qed.

(** What the loop over the queues from [k] on has changed. *)
Definition reached (c : PathCommand) (m : Z) (k : nat) s s' : Prop :=
  length (commands s') = length (commands s) ∧
  (∀ j q, commands s !! j = Some q →
    commands s' !! j = Some (if decide (k ≤ j)%nat then place (verdict m j q) c q else q)) ∧
  (counters_wf s → ∀ x j q n, commands s !! j = Some q → x ≠ QueuePeak → counter_at x j s = Some n →
    counter_at x j s' = Some (if decide (k ≤ j)%nat then wrap64 (n + counted (verdict m j q) x) else n)).

Lemma dispatch_loop f t m n k o s :
  (k + n = length (commands s))%nat →
  ∃ s', exec (for_each (seq k n) (dispatch_to f t m) o) s
        = Ret (foldl add_verdict o (drop k (verdicts m (commands s))), s') ∧
    reached (mk_command f t) m k s s'.
Proof.
  revert k o s. induction n as [|n IH]; intros k o s Hlen; cbn [seq for_each].
  - exists s. rewrite drop_ge by (unfold verdicts; rewrite length_imap; lia). split; [done|].
    split_and!; try done.
    + intros j q Hq. apply lookup_lt_Some in Hq as ?. by rewrite decide_False by lia.
    + intros _ x j q n0 Hq _ ?. apply lookup_lt_Some in Hq as ?. by rewrite decide_False by lia.
  - destruct (lookup_lt_is_Some_2 (commands s) k) as [q Hq]; [lia|].
    destruct (dispatch_one f t m k q o s Hq) as (s1 & He & Hc & Hn).
    rewrite exec_bind, He. cbn [mbind run_bind].
    destruct (IH (S k) (add_verdict o (verdict m k q)) s1) as (s' & He' & Hl' & Hc' & Hn');
      [rewrite Hc, length_insert; lia|].
    exists s'. split; [|split_and!].
    + rewrite He', Hc, verdicts_after.
      by rewrite (drop_S _ (verdict m k q) k) by (unfold verdicts; by rewrite list_lookup_imap, Hq).
    + by rewrite Hl', Hc, length_insert.
    + intros j q' Hq'. destruct (decide (j = k)) as [->|Hjk].
      * rewrite (Hc' k (place (verdict m k q) (mk_command f t) q)).
        -- rewrite decide_False, decide_True by lia. by simplify_eq.
        -- rewrite Hc. apply list_lookup_insert_eq. lia.
      * rewrite (Hc' j q') by (by rewrite Hc, list_lookup_insert_ne by done).
        by repeat case_decide; try lia.
    + intros Hwf x j q' v Hq' Hx Hv. destruct (Hn Hwf) as [Hn1 Hwf1]. clear Hn. pose proof (Hn' Hwf1) as Hn2. clear Hn'.
      pose proof (Hn1 x j v Hx Hv) as Hv1. destruct (decide (j = k)) as [->|Hjk].
      * assert (q' = q) as -> by congruence.
        rewrite (Hn2 x k (place (verdict m k q) (mk_command f t) q) _) with (2 := Hx) (3 := Hv1).
        -- by rewrite decide_False, decide_True by lia.
        -- rewrite Hc. apply list_lookup_insert_eq. lia.
      * rewrite (Hn2 x j q' v) by (done || by rewrite Hc, list_lookup_insert_ne by done).
        by repeat case_decide; try lia.
Qed.

(** C18. [Dispatch::send] gives one frame to every path of the mask whose worker is
    there and whose queue has room, at the back of its queue and with the time of
    the call; it changes no other queue. It answers with how many paths were
    selected, how many took the frame and how many have no worker, and it leaves
    [queue_depth] one higher where the frame was taken and [dropped] and
    [queue_full_dropped] one higher where the queue was full, every other counter of
    the path (the peak apart) as it was. *)
Theorem dispatch_reaches_selected_paths f m s :
  counters_wf s →
  ∃ s', exec (dispatch_send (length (commands s)) f m) s = Ret (outcome_of (verdicts m (commands s)), s') ∧
    commands s' = imap (λ i q, place (verdict m i q) (mk_command f (clock s)) q) (commands s) ∧
    ∀ x i q n, commands s !! i = Some q → x ≠ QueuePeak → counter_at x i s = Some n →
      counter_at x i s' = Some (wrap64 (n + counted (verdict m i q) x)).
Proof.
  intros Hwf. unfold dispatch_send. cbn [exec mbind prog_bind now load act run_bind].
  destruct (dispatch_loop f (clock s) m (length (commands s)) 0 (mk_dispatched 0 0 0) s)
    as (s' & He & Hl & Hc & Hn); [lia|].
  exists s'. split_and!.
  - rewrite He, fold_verdicts, drop_0. by destruct (outcome_of _).
  - apply list_eq. intros j. rewrite list_lookup_imap.
    destruct (commands s !! j) as [q|] eqn:Eq; [by rewrite (Hc j q Eq)|].
    apply lookup_ge_None. rewrite Hl. by apply lookup_ge_None in Eq.
  - intros x i q n Hq Hx Hv. by rewrite (Hn Hwf x i q n Hq Hx Hv).
Qed.
End dispatch.

(** ** What the sender is told *)

Section verdict.
Context {T L : Type} `{!Cipher} `{!RelayPath T} `{!LocalStackSink L}.
Context (client_id : list byte) (session_id : Z) (crypto : SessionCrypto.t).
Context (decision : Z) (derived : EffectiveMtu) (statuses : list PathSessionStatus).
Context (started fallback : Z) (strategy : Strategy).
Notation routes := (length statuses).
Notation session_run := (session_run (L := L) client_id session_id crypto decision derived statuses started fallback
  strategy).

(** What sealing the next data frame gives. *)
Definition next_frame (s : Shared T L) (packet : list byte) : result Error (list byte) :=
  SessionCrypto.seal_client crypto (mk_header 0 client_id session_id (cells s Sequences)) packet.

Definition answer (o : Dispatched) : result (list byte) bool :=
  if selected o =? 0 then Err (str "no active path workers accepted the packet")
  else Ok (0 <? Session.accepted o).

Lemma length_started : length (commands (started_session (T := T) (L := L) client_id session_id started decision derived statuses)) = routes.
Proof. unfold started_session, start_session. cbn. by rewrite length_replicate. Qed.

Lemma send_answers s s' packet node r :
  length (commands s) = routes →
  exec (Sender.send (Sender.Relay client_id crypto) session_id routes packet node) s = Ret (r, s') →
  match Session.stop s, next_frame s packet with
  | true, _ => r = Err (str "the session has stopped")
  | false, Ok _ => r = answer (outcome_of (verdicts (selected_paths (cells s DecisionMask) (cells s HealthyMask)) (commands s)))
  | false, Err e => r = Err e
  end.
Proof.
  intros Hlen. unfold Sender.send, is_live, next_frame.
  cbn [exec mbind prog_bind load act run_bind mret prog_ret].
  destruct (Session.stop s) eqn:Es; cbn [negb exec mbind prog_bind mret prog_ret].
  { intros [= <- _]. done. }
  unfold wrap, seal_next. cbn [exec mbind prog_bind load act run_bind mret prog_ret].
  set (s0 := with_draws _ _). assert (cells s0 DecisionMask = cells s DecisionMask) as Hd by done.
  assert (cells s0 HealthyMask = cells s HealthyMask) as Hh by done.
  assert (commands s0 = commands s) as Hc by done. clearbody s0.
  destruct (SessionCrypto.seal_client _ _ _) as [f|e]; cbn [exec]; [|by intros [= <- _]].
  unfold chosen_paths, load_cell. cbn [exec mbind prog_bind load act run_bind mret prog_ret].
  rewrite exec_bind, Hd, Hh. unfold dispatch_send. cbn [exec mbind prog_bind load now act run_bind].
  set (m := selected_paths _ _). rewrite <-Hlen, <-Hc.
  destruct (dispatch_loop f (clock s0) m (length (commands s0)) 0 (mk_dispatched 0 0 0) s0) as (s1 & -> & _); [done|].
  rewrite fold_verdicts, drop_0. cbn [run_bind mbind].
  set (o := mk_dispatched _ _ _). assert (o = outcome_of (verdicts m (commands s0))) as -> by (by unfold o; destruct (outcome_of _)).
  set (o := outcome_of _). clearbody o. unfold answer.
  destruct (selected o =? 0); rewrite !exec_bind.
  { unfold record_failure, store, act. cbn. by intros [= <- _]. }
  destruct (exec (if _ =? 0 then _ else _) s1) as [[[] s2]|]; cbn [run_bind mbind]; [|done].
  rewrite exec_bind. destruct (exec (protect_sent _ _ _ _ _) s2) as [[[] s3]|]; cbn [run_bind mbind]; [|done].
  destruct (0 <? Session.accepted o); cbn; by intros [= <- _].
Qed.

(** C19. Sending on a session, in whatever state its threads have brought it to,
    returns. A stopped session is an error, and so is a sealing that fails;
    otherwise the selected paths are those that the decision and the health of the
    paths name, and [send] answers with an error when they name no path, [true]
    when some path's queue took the frame and [false] when all of them shed it. *)
Theorem sender_hears_the_truth events packet node
    (Hdecision : mask decision) (Hfallback : mask fallback) (Hstarted : 0 <= started <= LONGEST_SAMPLE)
    (Hevents : Forall (event_wf routes) events) :
  ∃ s pool r s', session_run events = Ret (s, pool) ∧
    exec (Sender.send (Sender.Relay client_id crypto) session_id routes packet node) s = Ret (r, s') ∧
    match Session.stop s, next_frame s packet with
    | true, _ => r = Err (str "the session has stopped")
    | false, Err e => r = Err e
    | false, Ok _ =>
        let paths := selected_paths (cells s DecisionMask) (cells s HealthyMask) in
        r = answer (outcome_of (verdicts paths (commands s)))
    end.
Proof.
  destruct (session_runs_with client_id session_id crypto routes started fallback strategy decision
    derived statuses eq_refl (λ _, True) events Hdecision Hfallback Hstarted Hevents) as (s & pool & rs & Hr & Hi & _);
    [done|].
  destruct (wp_exec _ _ _ s [] (mjoin rs) _ Hi
    (calm_send (T := T) (L := L) client_id session_id crypto routes 1 (λ _, True) packet node I [] eq_refl))
    as (r & s' & r' & Hs' & _).
  exists s, pool, r, s'. split; [done|]. split; [done|].
  by eapply send_answers; [eapply iv_commands|].
Qed.
End verdict.

(** *** Concrete senders *)

(** The toy session with a full queue on one path and no worker on another. *)
Definition toy_queues : Shared Script () :=
  with_commands (started_session toy_id 5 0 3 toy_mtu [toy_status 1; toy_status 2; toy_status 3; toy_status 4])
    [mk_commands [] true; mk_commands (replicate (Z.to_nat PATH_QUEUE_DEPTH) (mk_command (str "older") 0)) true;
     mk_commands [] false; mk_commands [] true].

Lemma dispatch_reaches_selected_paths_witness :
  ∃ s', exec (dispatch_send (length (commands toy_queues)) (str "f") 7) toy_queues = Ret (mk_dispatched 3 1 1, s') ∧
    commands s' = imap (λ i q, place (verdict 7 i q) (mk_command (str "f") (clock toy_queues)) q) (commands toy_queues) ∧
    ∀ x i q n, commands toy_queues !! i = Some q → x ≠ QueuePeak → counter_at x i toy_queues = Some n →
      counter_at x i s' = Some (wrap64 (n + counted (verdict 7 i q) x)).
Proof.
  assert (mk_dispatched 3 1 1 = outcome_of (verdicts 7 (commands toy_queues))) as -> by (vm_compute; done).
  apply (dispatch_reaches_selected_paths (str "f") 7 toy_queues).
  intros c i n Hn. unfold counter_at, toy_queues in Hn. cbn in Hn.
  apply (lookup_replicate 4) in Hn as [-> _]. lia.
Defined.

Lemma sender_hears_the_truth_witness :
  ∃ s pool r s', toy_session_run = Ret (s, pool) ∧
    exec (Sender.send (H := Toy.cipher) (Sender.Relay (H := Toy.cipher) toy_id toy_crypto) 5 2 (str "third") 0) s
    = Ret (r, s') ∧
    match Session.stop s, next_frame (H := Toy.cipher) toy_id 5 toy_crypto s (str "third") with
    | true, _ => r = Err (str "the session has stopped")
    | false, Err e => r = Err e
    | false, Ok _ =>
        let paths := selected_paths (cells s DecisionMask) (cells s HealthyMask) in
        r = answer (outcome_of (verdicts paths (commands s)))
    end.
Proof.
  apply (sender_hears_the_truth (L := ()) (H := Toy.cipher) toy_id 5 toy_crypto 3 toy_mtu
    [toy_status 1; toy_status 2] 0 3 AllPaths toy_events (str "third") 0);
    [unfold mask; lia|unfold mask; lia|unfold LONGEST_SAMPLE, secs; lia|apply toy_events_wf].
Defined.
