(* ===== verification/OvpnX509.v ===== *)
(** * The name in an OpenVPN server's certificate

    Models [engine/src/openvpn/x509_name.rs]: the [verify-x509-name] directive and
    the reading of a DER certificate's subject it is checked against. *)
From S2P Require Import Prelude Text.

Notation Error := (list byte) (only parsing).

Inductive ServerNameCheck : Type :=
| Subject (name : list byte)
| Name (name : list byte)
| NamePrefix (name : list byte).

Definition parse_check (arguments : list (list byte)) : result Error ServerNameCheck :=
  match arguments with
  | name :: rest =>
      match name with
      | [] => Err (str "`verify-x509-name` needs the name the server's certificate must carry")
      | _ =>
          let kind := default (str "subject") (head rest) in
          if bool_decide (kind = str "subject") then Ok (Subject name)
          else if bool_decide (kind = str "name") then Ok (Name name)
          else if bool_decide (kind = str "name-prefix") then Ok (NamePrefix name)
          else Err (str "`verify-x509-name` type `" ++ kind
                    ++ str "` is not one of subject, name or name-prefix")
      end
  | [] => Err (str "`verify-x509-name` needs the name the server's certificate must carry")
  end.

(** A relative distinguished name: its attributes, in certificate order. *)
Notation Rdn := (list (list byte * list byte)).

Definition COMMON_NAME : list byte := [x55; x04; x03].

Definition last_common_name (subject : list Rdn) : option (list byte) :=
  last (snd <$> filter (λ a, a.1 = COMMON_NAME) (mjoin subject)).

Definition short_name (oid : list byte) : option (list byte) :=
  match oid with
  | [x55; x04; x03] => Some (str "CN")
  | [x55; x04; x04] => Some (str "SN")
  | [x55; x04; x05] => Some (str "serialNumber")
  | [x55; x04; x06] => Some (str "C")
  | [x55; x04; x07] => Some (str "L")
  | [x55; x04; x08] => Some (str "ST")
  | [x55; x04; x09] => Some (str "street")
  | [x55; x04; x0a] => Some (str "O")
  | [x55; x04; x0b] => Some (str "OU")
  | [x55; x04; x0c] => Some (str "title")
  | [x55; x04; x29] => Some (str "name")
  | [x55; x04; x2a] => Some (str "GN")
  | [x55; x04; x2b] => Some (str "initials")
  | [x2a; x86; x48; x86; xf7; x0d; x01; x09; x01] => Some (str "emailAddress")
  | [x09; x92; x26; x89; x93; xf2; x2c; x64; x01; x01] => Some (str "UID")
  | [x09; x92; x26; x89; x93; xf2; x2c; x64; x01; x19] => Some (str "DC")
  | _ => None
  end.

(** [parts.join(separator)]. *)
Fixpoint join (separator : list byte) (parts : list (list byte)) : list byte :=
  match parts with
  | [] => []
  | [part] => part
  | part :: rest => part ++ separator ++ join separator rest
  end.

Definition format_attribute (a : list byte * list byte) : option (list byte) :=
  name ← short_name a.1; Some (name ++ str "=" ++ a.2).

Definition format_subject (subject : list Rdn) : option (list byte) :=
  names ← mapM (λ rdn, join (str " + ") <$> mapM format_attribute rdn) subject;
  Some (join (str ", ") names).

(** ** DER *)

Definition SEQUENCE : byte := x30.
Definition SET : byte := x31.
Definition OBJECT_IDENTIFIER : byte := x06.
Definition EXPLICIT_VERSION : byte := xa0.

(** One element: its tag, its contents and whatever follows it. *)
Definition read (input : list byte) : option (byte * list byte * list byte) :=
  match input with
  | tag :: first :: input =>
      '(length, input) ←
        (if b2z first <? 0x80 then Some (b2z first, input) else
         let count := Z.land (b2z first) 0x7f in
         if (count =? 0) || (4 <? count) || (zlen input <? count) then None
         else Some (foldl (λ length byte, Z.lor (Z.shiftl length 8) (b2z byte)) 0
                      (take (Z.to_nat count) input),
                    drop (Z.to_nat count) input));
      if length <=? zlen input
      then Some (tag, take (Z.to_nat length) input, drop (Z.to_nat length) input)
      else None
  | _ => None
  end.

(** [String::push(char)]: the UTF-8 bytes of a scalar value. *)
Definition utf8_char (c : Z) : list byte :=
  if c <? 0x80 then [z2b c]
  else if c <? 0x800 then [z2b (0xc0 + c / 64); z2b (0x80 + c mod 64)]
  else if c <? 0x10000 then
    [z2b (0xe0 + c / 4096); z2b (0x80 + c / 64 mod 64); z2b (0x80 + c mod 64)]
  else [z2b (0xf0 + c / 262144); z2b (0x80 + c / 4096 mod 64);
        z2b (0x80 + c / 64 mod 64); z2b (0x80 + c mod 64)].

(** [char::decode_utf16], where an unpaired surrogate fails. *)
Fixpoint decode_utf16 (units : list Z) : option (list byte) :=
  match units with
  | [] => Some []
  | u :: rest =>
      if (u <? 0xd800) || (0xdfff <? u) then
        more ← decode_utf16 rest; Some (utf8_char u ++ more)
      else if 0xdc00 <=? u then None
      else match rest with
           | v :: rest' =>
               if (0xdc00 <=? v) && (v <=? 0xdfff) then
                 more ← decode_utf16 rest';
                 Some (utf8_char (0x10000 + (u - 0xd800) * 1024 + (v - 0xdc00)) ++ more)
               else None
           | [] => None
           end
  end.

Fixpoint pairs (l : list byte) : list Z :=
  match l with
  | a :: b :: l' => (b2z a * 256 + b2z b) :: pairs l'
  | _ => []
  end.

Definition decode_string (tag : byte) (value : list byte) : option (list byte) :=
  if bool_decide (tag = x0c ∨ tag = x13 ∨ tag = x16) then
    if valid_utf8 value then Some value else None
  else if bool_decide (tag = x14) then Some (mjoin ((λ b, utf8_char (b2z b)) <$> value))
  else if bool_decide (tag = x1e) && (zlen value mod 2 =? 0) then decode_utf16 (pairs value)
  else None.

(** The two [while] loops of [subject]; every turn takes an element off. *)
Fixpoint read_rdn (fuel : nat) (set : list byte) : option Rdn :=
  match set, fuel with
  | [], _ => Some []
  | _, O => None
  | _, S fuel' =>
      '(tag, attribute, next) ← read set;
      '(oid_tag, oid, value) ← read attribute;
      if bool_decide (tag ≠ SEQUENCE ∨ oid_tag ≠ OBJECT_IDENTIFIER) then None else
      '(string_tag, value, _) ← read value;
      text ← decode_string string_tag value;
      rdn ← read_rdn fuel' next;
      Some ((oid, text) :: rdn)
  end.

Fixpoint read_name (fuel : nat) (name : list byte) : option (list Rdn) :=
  match name, fuel with
  | [], _ => Some []
  | _, O => None
  | _, S fuel' =>
      '(tag, set, rest) ← read name;
      if bool_decide (tag ≠ SET) then None else
      rdn ← read_rdn (length set) set;
      rdns ← read_name fuel' rest;
      Some (rdn :: rdns)
  end.

(** What follows the next [n] elements. *)
Fixpoint skip_fields (n : nat) (fields : list byte) : option (list byte) :=
  match n with
  | O => Some fields
  | S n' => '(_, _, rest) ← read fields; skip_fields n' rest
  end.

Definition subject (certificate : list byte) : option (list Rdn) :=
  '(tag, certificate, _) ← read certificate;
  if bool_decide (tag ≠ SEQUENCE) then None else
  '(tag, fields, _) ← read certificate;
  if bool_decide (tag ≠ SEQUENCE) then None else
  fields ← (if bool_decide (head fields = Some EXPLICIT_VERSION)
            then skip_fields 1 fields else Some fields);
  fields ← skip_fields 4 fields;
  '(tag, name, _) ← read fields;
  if bool_decide (tag ≠ SEQUENCE) then None else read_name (length name) name.

Definition matches (check : ServerNameCheck) (certificate : list byte) : bool :=
  match subject certificate with
  | None => false
  | Some s =>
      match check with
      | Subject expected => bool_decide (format_subject s = Some expected)
      | Name expected => bool_decide (last_common_name s = Some expected)
      | NamePrefix prefix =>
          match last_common_name s with
          | Some name => starts_with prefix name
          | None => false
          end
      end
  end.

#[export] Instance ServerNameCheck_eq_dec : EqDecision ServerNameCheck.
Proof. solve_decision. Defined.

(** ** What the grammar of DER says *)

(** [e] is an element: its length in the short form, or in 1 to 4 bytes. *)
Inductive element (tag : byte) (contents : list byte) : list byte → Prop :=
| short_form : zlen contents < 128 →
    element tag contents (tag :: z2b (zlen contents) :: contents)
| long_form n : (1 <= n <= 4)%nat → zlen contents < 256 ^ Z.of_nat n →
    element tag contents (tag :: z2b (128 + Z.of_nat n) :: be_bytes n (zlen contents) ++ contents).

(** An attribute: its object identifier, then its value in one of the string types. *)
Definition is_attribute (a : list byte * list byte) (e : list byte) : Prop :=
  ∃ oid tag value text trailer,
    element OBJECT_IDENTIFIER a.1 oid ∧ element tag value text ∧
    decode_string tag value = Some a.2 ∧ element SEQUENCE (oid ++ text ++ trailer) e.

(** The attributes of a set, and the sets of a name, one after the other. *)
Inductive is_sequence {A} (is_item : A → list byte → Prop) : list A → list byte → Prop :=
| no_items : is_sequence is_item [] []
| more_items x e l k : is_item x e → is_sequence is_item l k → is_sequence is_item (x :: l) (e ++ k).

Definition is_rdn (rdn : Rdn) (e : list byte) : Prop :=
  ∃ set, is_sequence is_attribute rdn set ∧ element SET set e.

(** A certificate of [s]: version, serial, signature, issuer, validity, subject,
    and whatever else the signed part and the signature hold. *)
Definition is_certificate (s : list Rdn) (e : list byte) : Prop :=
  ∃ version fields name subject rest more signed trailer,
    (version = [] ∨ ∃ v, element EXPLICIT_VERSION v version) ∧
    length fields.*2 = 4%nat ∧ (∀ f, f ∈ fields → ∃ c, element f.1 c f.2) ∧
    (version = [] → head fields.*1 ≠ Some EXPLICIT_VERSION) ∧
    is_sequence is_rdn s name ∧ element SEQUENCE name subject ∧
    element SEQUENCE (version ++ mjoin fields.*2 ++ subject ++ rest) signed ∧
    element SEQUENCE (signed ++ more) trailer ∧ e = trailer.

Lemma fold_length l n :
  foldl (λ length byte, Z.lor (Z.shiftl length 8) (b2z byte)) n l = n * 256 ^ zlen l + be_Z l.
Proof.
  revert n. induction l as [|b l IH]; intros n; simpl; [change (zlen (@nil byte)) with 0; lia|].
  pose proof (b2z_range b). rewrite IH, lor_shift, zlen_cons, Z.pow_add_r by (done || apply zlen_nonneg).
  change (2 ^ 8) with 256. change (256 ^ 1) with 256. lia.
Qed.

Lemma read_element tag contents e rest :
  element tag contents e → read (e ++ rest) = Some (tag, contents, rest).
Proof.
  pose proof (zlen_nonneg contents). destruct 1 as [Hl|n Hn Hl].
  - cbn [app read]. rewrite b2z_z2b, Z.mod_small by lia.
    destruct (Z.ltb_spec (zlen contents) 0x80); [|lia]. cbn.
    destruct (Z.leb_spec (zlen contents) (zlen (contents ++ rest))); [|len].
    unfold zlen. by rewrite Nat2Z.id, take_app_length, drop_app_length.
  - cbn [app read]. rewrite b2z_z2b, Z.mod_small by lia.
    destruct (Z.ltb_spec (128 + Z.of_nat n) 0x80); [lia|].
    replace (Z.land (128 + Z.of_nat n) 0x7f) with (Z.of_nat n)
      by (do 5 (destruct n as [|n]; [vm_compute; try done|]); lia).
    rewrite <-app_assoc.
    rewrite (proj2 (Z.eqb_neq _ _)), (proj2 (Z.ltb_ge 4 _)), (proj2 (Z.ltb_ge _ _)) by len.
    cbn [orb]. unfold mbind, option_bind. rewrite Nat2Z.id.
    rewrite take_app_length', drop_app_length' by (symmetry; apply length_be_bytes).
    rewrite fold_length, be_Z_be_bytes, Z.mul_0_l, Z.add_0_l, Z.mod_small by lia.
    destruct (Z.leb_spec (zlen contents) (zlen (contents ++ rest))); [|len].
    unfold zlen. by rewrite Nat2Z.id, take_app_length, drop_app_length.
Qed.

Lemma read_element_alone tag contents e :
  element tag contents e → read e = Some (tag, contents, []).
Proof. intros He. rewrite <-(app_nil_r e). by apply read_element. Qed.

Lemma element_not_nil tag contents e : element tag contents e → (2 <= length e)%nat.
Proof. destruct 1; simpl; lia. Qed.

Lemma read_rdn_sequence rdn set :
  is_sequence is_attribute rdn set → ∀ fuel, (length set <= fuel)%nat → read_rdn fuel set = Some rdn.
Proof.
  induction 1 as [|[oid text] e l k Ha Hk IH]; intros fuel Hf; [by destruct fuel|].
  destruct Ha as (o & tag & value & t & trailer & Ho & Ht & Hd & He).
  pose proof (element_not_nil _ _ _ He). rewrite length_app in Hf.
  destruct fuel as [|fuel]; [lia|]. destruct (e ++ k) eqn:E; [apply app_nil in E as [-> _]; simpl in *; lia|].
  cbn [read_rdn]. rewrite <-E, (read_element _ _ _ k He). cbn.
  rewrite (read_element _ _ _ _ Ho). cbn. rewrite bool_decide_false by naive_solver.
  rewrite (read_element _ _ _ _ Ht). cbn. cbn in Hd. rewrite Hd. cbn.
  by rewrite IH by lia.
Qed.

Lemma read_name_sequence s name :
  is_sequence is_rdn s name → ∀ fuel, (length name <= fuel)%nat → read_name fuel name = Some s.
Proof.
  induction 1 as [|rdn e l k Ha Hk IH]; intros fuel Hf; [by destruct fuel|].
  destruct Ha as (set & Hs & He).
  pose proof (element_not_nil _ _ _ He). rewrite length_app in Hf.
  destruct fuel as [|fuel]; [lia|]. destruct (e ++ k) eqn:E; [apply app_nil in E as [-> _]; simpl in *; lia|].
  cbn [read_name]. rewrite <-E, (read_element _ _ _ k He). cbn.
  rewrite bool_decide_false by naive_solver.
  rewrite (read_rdn_sequence _ _ Hs) by done. cbn. by rewrite IH by lia.
Qed.

Lemma skip_elements (fields : list (byte * list byte)) rest :
  (∀ f, f ∈ fields → ∃ c, element f.1 c f.2) →
  skip_fields (length fields) (mjoin fields.*2 ++ rest) = Some rest.
Proof.
  induction fields as [|[tag e] fields IH]; intros Hf; [done|].
  destruct (Hf (tag, e)) as [c Hc]; [apply list_elem_of_here|].
  cbn [length skip_fields fmap list_fmap]. simpl mjoin. rewrite <-app_assoc.
  rewrite (read_element _ _ _ _ Hc). cbn. apply IH. intros f Hin. apply Hf. by apply list_elem_of_further.
Qed.

Lemma head_element tag contents e rest : element tag contents e → head (e ++ rest) = Some tag.
Proof. by destruct 1. Qed.

Lemma subject_of_certificate s e : is_certificate s e → subject e = Some s.
Proof.
  intros (version & fields & name & subj & rest & more & signed & trailer &
    Hv & Hn & Hf & Hh & Hs & Hsubj & Hsigned & Htrailer & ->).
  unfold subject. rewrite (read_element_alone _ _ _ Htrailer). cbn [mbind option_bind].
  rewrite bool_decide_false by naive_solver. rewrite (read_element _ _ _ _ Hsigned). cbn [mbind option_bind].
  rewrite bool_decide_false by naive_solver. rewrite length_fmap in Hn.
  assert ((if bool_decide (head (version ++ mjoin fields.*2 ++ subj ++ rest) = Some EXPLICIT_VERSION)
           then skip_fields 1 (version ++ mjoin fields.*2 ++ subj ++ rest)
           else Some (version ++ mjoin fields.*2 ++ subj ++ rest))
          = Some (mjoin fields.*2 ++ subj ++ rest)) as ->.
  { destruct Hv as [->|[v Hv]].
    - rewrite bool_decide_false; [done|]. intros Hhead. destruct fields as [|[tag f] fields]; [done|].
      destruct (Hf (tag, f)) as [c Hc]; [apply list_elem_of_here|].
      simpl in Hhead. rewrite <-app_assoc, (head_element _ _ _ _ Hc) in Hhead. by apply (Hh eq_refl).
    - rewrite bool_decide_true by apply (head_element _ _ _ _ Hv).
      cbn [skip_fields]. by rewrite (read_element _ _ _ _ Hv). }
  cbn [mbind option_bind]. rewrite <-Hn, skip_elements by done. cbn.
  rewrite (read_element _ _ _ _ Hsubj). cbn. rewrite bool_decide_false by naive_solver.
  by apply read_name_sequence.
Qed.

(** ** Property *)

(** The [verify-x509-name] check compares what the certificate says: on every
    DER certificate, in either length form of each element and whatever its other
    fields hold, [subject] compares the whole formatted subject, [name] the last
    common name of the subject, and [name-prefix] asks that it starts with the
    name given. *)
Theorem server_name_is_the_certificates s e check (Hcert : is_certificate s e) :
  matches check e = true ↔
  match check with
  | Subject expected => format_subject s = Some expected
  | Name expected => last_common_name s = Some expected
  | NamePrefix prefix => ∃ tail, last_common_name s = Some (prefix ++ tail)
  end.
Proof.
  unfold matches. rewrite (subject_of_certificate _ _ Hcert).
  destruct check as [n|n|n]; [apply bool_decide_eq_true..|].
  destruct (last_common_name s) as [name|]; [|naive_solver].
  rewrite starts_with_spec. naive_solver.
Qed.

Module Demo.

Definition tlv (tag : byte) (contents : list byte) : list byte :=
  tag :: z2b (zlen contents) :: contents.

Definition attribute : list byte :=
  tlv SEQUENCE (tlv OBJECT_IDENTIFIER COMMON_NAME ++ tlv x0c (str "vpn.example") ++ []).
Definition name : list byte := tlv SET (attribute ++ []) ++ [].
Definition fields : list (byte * list byte) :=
  [(x02, tlv x02 [x07]); (x30, tlv x30 []); (x30, tlv x30 []); (x30, tlv x30 [])].
Definition signed : list byte :=
  tlv SEQUENCE (tlv EXPLICIT_VERSION [x02] ++ mjoin fields.*2 ++ tlv SEQUENCE name ++ [x05; x00]).
Definition certificate : list byte := tlv SEQUENCE (signed ++ [x03; x00]).

Lemma tlv_element tag contents : zlen contents < 128 → element tag contents (tlv tag contents).
Proof. apply short_form. Qed.

Lemma certificate_ok : is_certificate [[(COMMON_NAME, str "vpn.example")]] certificate.
Proof.
  exists (tlv EXPLICIT_VERSION [x02]), fields, name, (tlv SEQUENCE name), [x05; x00], [x03; x00], signed, certificate.
  split_and!; [right; exists [x02]; by apply tlv_element|done| |done| |by apply tlv_element..|done].
  - intros f Hf. unfold fields in Hf.
    repeat (apply elem_of_cons in Hf as [->|Hf]; [eexists; by apply tlv_element|]). by apply elem_of_nil in Hf.
  - apply more_items; [|apply no_items]. exists (attribute ++ []). split; [|by apply tlv_element].
    apply more_items; [|apply no_items].
    exists (tlv OBJECT_IDENTIFIER COMMON_NAME), x0c, (str "vpn.example"), (tlv x0c (str "vpn.example")), [].
    split_and!; [by apply tlv_element..|done|by apply tlv_element].
Qed.

End Demo.

Lemma server_name_is_the_certificates_witness :
  matches (NamePrefix (str "vpn.")) Demo.certificate = true ↔
  ∃ tail, last_common_name [[(COMMON_NAME, str "vpn.example")]] = Some (str "vpn." ++ tail).
Proof.
  exact (server_name_is_the_certificates _ _ (NamePrefix (str "vpn.")) Demo.certificate_ok).
Defined.
