(* ===== verification/OvpnConfig.v ===== *)
(** * OpenVPN configuration files

    Models [engine/src/openvpn/config.rs]: the parser of a provider's [.ovpn] file,
    the strings both ends compare, and the static keys of [tls-auth] and
    [tls-crypt]. The PEM reader is another crate, the interface [Pem]; resolving a
    host name is the system's. [items] is the reference reading of a file, line by
    line, that the parser's loop is compared with. *)
From S2P Require Import Prelude Text OvpnX509.

(** ** Ciphers, digests and static keys *)

Inductive Digest : Type := Md5 | Sha1 | Sha256 | Sha512.

Definition output_len (d : Digest) : Z :=
  match d with Md5 => 16 | Sha1 => 20 | Sha256 => 32 | Sha512 => 64 end.

Definition digest_name (d : Digest) : list byte :=
  match d with
  | Md5 => str "MD5" | Sha1 => str "SHA1" | Sha256 => str "SHA256" | Sha512 => str "SHA512"
  end.

Definition parse_digest (name : list byte) : option Digest :=
  let name := filter (.≠ x2d) (to_ascii_uppercase name) in
  if bool_decide (name = str "MD5") then Some Md5
  else if bool_decide (name = str "SHA1") then Some Sha1
  else if bool_decide (name = str "SHA256") then Some Sha256
  else if bool_decide (name = str "SHA512") then Some Sha512
  else None.

Inductive DataCipher : Type :=
| Aes256Gcm
| Aes128Gcm
| ChaCha20Poly1305
| Aes256Cbc
| Aes192Cbc
| Aes128Cbc.

#[export] Instance Digest_eq_dec : EqDecision Digest.
Proof. solve_decision. Defined.
#[export] Instance DataCipher_eq_dec : EqDecision DataCipher.
Proof. solve_decision. Defined.

Definition cipher_name (c : DataCipher) : list byte :=
  match c with
  | Aes256Gcm => str "AES-256-GCM"
  | Aes128Gcm => str "AES-128-GCM"
  | ChaCha20Poly1305 => str "CHACHA20-POLY1305"
  | Aes256Cbc => str "AES-256-CBC"
  | Aes192Cbc => str "AES-192-CBC"
  | Aes128Cbc => str "AES-128-CBC"
  end.

Definition key_len (c : DataCipher) : Z :=
  match c with
  | Aes256Gcm | ChaCha20Poly1305 | Aes256Cbc => 32
  | Aes192Cbc => 24
  | Aes128Gcm | Aes128Cbc => 16
  end.

Definition is_aead (c : DataCipher) : bool :=
  match c with Aes256Gcm | Aes128Gcm | ChaCha20Poly1305 => true | _ => false end.

Definition parse_cipher (name : list byte) : option DataCipher :=
  let name := to_ascii_uppercase name in
  if bool_decide (name = str "AES-256-GCM") then Some Aes256Gcm
  else if bool_decide (name = str "AES-128-GCM") then Some Aes128Gcm
  else if bool_decide (name = str "CHACHA20-POLY1305" ∨ name = str "CHACHA20POLY1305")
    then Some ChaCha20Poly1305
  else if bool_decide (name = str "AES-256-CBC") then Some Aes256Cbc
  else if bool_decide (name = str "AES-192-CBC") then Some Aes192Cbc
  else if bool_decide (name = str "AES-128-CBC") then Some Aes128Cbc
  else None.

Definition SUPPORTED_CIPHERS : list byte :=
  str "AES-256-GCM, AES-128-GCM, CHACHA20-POLY1305 and AES-128/192/256-CBC".

(** 256 bytes: two keys, each 64 bytes of cipher key and 64 of HMAC key. *)
Definition StaticKey : Type := list byte.

Definition static_cipher (key : StaticKey) (index : Z) : run (list byte) :=
  slice key (index * 128) (index * 128 + 64).
Definition static_hmac (key : StaticKey) (index : Z) : run (list byte) :=
  slice key (index * 128 + 64) (index * 128 + 128).

Inductive KeyDirection : Type := Normal | Inverse | Bidirectional.

Definition indexes (d : KeyDirection) : Z * Z :=
  match d with Normal => (0, 1) | Inverse => (1, 0) | Bidirectional => (0, 0) end.

Inductive ControlAuth : Type :=
| AuthNone
| TlsAuth (key : StaticKey) (direction : KeyDirection) (digest : Digest)
| TlsCrypt (key : StaticKey).

(** ** The configuration *)

Inductive Protocol : Type := Udp | Tcp.

#[export] Instance Protocol_eq_dec : EqDecision Protocol.
Proof. solve_decision. Defined.

Definition protocol_name (p : Protocol) : list byte :=
  match p with Udp => str "udp" | Tcp => str "tcp" end.
Definition options_name (p : Protocol) : list byte :=
  match p with Udp => str "UDPv4" | Tcp => str "TCPv4_CLIENT" end.

Module Remote.

Record t : Type := mk { host : list byte; port : Z; protocol : Protocol }.

Definition endpoint (r : t) : list byte := host r ++ str ":" ++ number (port r).

End Remote.

Record OpenVpnConfig : Type := mk_config {
  remotes : list Remote.t;
  ca : list (list byte);
  client_certs : list (list byte);
  client_key : option (list byte);
  control_auth : ControlAuth;
  data_ciphers : list DataCipher;
  fallback_cipher : DataCipher;
  digest : Digest;
  wants_credentials : bool;
  server_name : option ServerNameCheck;
  reneg_seconds : option Z;
  tun_mtu : Z
}.

Definition options_string (c : OpenVpnConfig) (protocol : Protocol) : list byte :=
  let cipher := fallback_cipher c in
  str "V4,dev-type tun,link-mtu 1549"
  ++ str ",tun-mtu " ++ number (tun_mtu c)
  ++ str ",proto " ++ options_name protocol
  ++ str ",cipher " ++ cipher_name cipher
  ++ str ",auth " ++ digest_name (digest c)
  ++ str ",keysize " ++ number (key_len cipher * 8)
  ++ str ",key-method 2,tls-client".

Definition PEER_INFO_IV_PROTO : Z := Z.lor (Z.lor 2 4) 16.

Definition peer_info (c : OpenVpnConfig) (remote : Remote.t) : list byte :=
  let line text := text ++ [x0a] in
  line (str "IV_VER=2.6.0") ++ line (str "IV_PLAT=win") ++ line (str "IV_TCPNL=1")
  ++ line (str "IV_MTU=" ++ number (tun_mtu c)) ++ line (str "IV_NCP=2")
  ++ line (str "IV_CIPHERS=" ++ join (str ":") (cipher_name <$> data_ciphers c))
  ++ line (str "IV_PROTO=" ++ number PEER_INFO_IV_PROTO)
  ++ line (str "IV_LZO_STUB=1") ++ line (str "IV_COMP_STUB=1") ++ line (str "IV_COMP_STUBv2=1")
  ++ line (str "UV_ENDPOINT=" ++ Remote.endpoint remote).

Definition DEFAULT_CIPHERS : list DataCipher := [Aes256Gcm; Aes128Gcm; ChaCha20Poly1305].

(** ** Lines and tokens *)

Definition strip_comment (line : list byte) : list byte :=
  let line := trim line in
  if starts_with (str "#") line || starts_with (str ";") line then [] else line.

Definition inline_open_tag (line : list byte) : option (list byte) :=
  inner ← strip_prefix (str "<") line;
  inner ← strip_suffix (str ">") inner;
  if starts_with (str "/") inner || bool_decide (inner = []) then None else Some inner.

Definition closing_tag (tag : list byte) : list byte := str "</" ++ tag ++ str ">".

(** The body of a block and the lines after it. *)
Fixpoint collect_inline (lines : list (list byte)) (tag body : list byte)
    : result Error (list byte * list (list byte)) :=
  match lines with
  | [] => Err (str "the OpenVPN configuration opens `<" ++ tag ++ str ">` but never closes it")
  | line :: rest =>
      if bool_decide (trim line = closing_tag tag) then Ok (body, rest)
      else collect_inline rest tag (body ++ line ++ [x0a])
  end.

(** The tokens, the one being read, and whether a quote is open. *)
Definition token_step (state : list (list byte) * list byte * bool) (c : list byte)
    : list (list byte) * list byte * bool :=
  let '(tokens, current, quoted) := state in
  if bool_decide (c = [x22]) then (tokens, current, negb quoted)
  else if is_white c && negb quoted then
    match current with [] => (tokens, [], quoted) | _ => (tokens ++ [current], [], quoted) end
  else (tokens, current ++ c, quoted).

Definition tokenize (line : list byte) : list (list byte) :=
  let '(tokens, current, _) := foldl token_step ([], [], false) (snd <$> Text.runs line) in
  match current with [] => tokens | _ => tokens ++ [current] end.

(** ** Values *)

Definition parse_protocol (name : list byte) : result Error Protocol :=
  let name := to_ascii_lowercase name in
  if bool_decide (name ∈ [str "udp"; str "udp4"; str "udp6"]) then Ok Udp
  else if bool_decide (name ∈ [str "tcp"; str "tcp4"; str "tcp6"; str "tcp-client";
                               str "tcp4-client"; str "tcp6-client"]) then Ok Tcp
  else if bool_decide (name ∈ [str "tcp-server"; str "udp-server"]) then
    Err (str "this is a server configuration, not a client one; it listens rather than connecting")
  else Err (str "`" ++ name ++ str "` is not a protocol GamePath understands").

Definition parse_port (value : list byte) : result Error Z :=
  match parse_u16 value with
  | Some port => if port =? 0 then Err (str "`" ++ value ++ str "` is not a usable port number") else Ok port
  | None => Err (str "`" ++ value ++ str "` is not a usable port number")
  end.

(** [rustls_pemfile::certs] and [rustls_pemfile::private_key]; an error is its text. *)
Class Pem : Type := {
  pem_certs : list byte → result Error (list (list byte));
  pem_private_key : list byte → result Error (option (list byte))
}.

Definition read_certificates `{!Pem} (body tag : list byte) : result Error (list (list byte)) :=
  match pem_certs body with
  | Err e => Err (str "the `<" ++ tag ++ str ">` block is not readable PEM: " ++ e)
  | Ok [] => Err (str "the `<" ++ tag ++ str ">` block does not contain a certificate")
  | Ok certificates => Ok certificates
  end.

Definition read_private_key `{!Pem} (body : list byte) : result Error (list byte) :=
  match pem_private_key body with
  | Err e => Err (str "the `<key>` block is not readable PEM: " ++ e)
  | Ok None =>
      Err (str "the `<key>` block does not contain a private key GamePath can read. A              passphrase-protected key has to be decrypted first.")
  | Ok (Some _) => Ok body
  end.

Definition hex_digit (b : byte) : option Z :=
  if in_range b 48 57 then Some (b2z b - 48)
  else if in_range b 97 102 then Some (b2z b - 87)
  else if in_range b 65 70 then Some (b2z b - 55)
  else None.

Definition hex_pair (pair : list byte) : option byte :=
  match pair with
  | [a; b] => x ← hex_digit a; y ← hex_digit b; Some (z2b (x * 16 + y))
  | _ => None
  end.

Definition read_static_key (body tag : list byte) : result Error StaticKey :=
  let keep line := bool_decide (line ≠ []) && negb (starts_with (str "-") line)
                   && negb (starts_with (str "#") line) in
  let hex := mjoin (filter keep (trim <$> str_lines body)) in
  if negb (zlen hex =? 512) || negb (forallb (λ b, bool_decide (is_Some (hex_digit b))) hex) then
    Err (str "the `<" ++ tag ++ str ">` block is not an OpenVPN static key; it should hold 2048 bits written as 512 hex digits")
  else match mapM hex_pair (chunks 2 hex) with
       | Some key => Ok key
       | None => Err (str "the `<" ++ tag ++ str ">` block holds a bad pair of hex digits")
       end.

(** ** The parser *)

Module PendingRemote.

Record t : Type := mk { host : list byte; port : option Z; protocol : option Protocol }.

End PendingRemote.

Module Parser.

Record t : Type := mk {
  remotes : list PendingRemote.t;
  protocol : option Protocol;
  port : option Z;
  ca : list (list byte);
  client_certs : list (list byte);
  client_key : option (list byte);
  tls_auth : option StaticKey;
  key_direction : option Z;
  tls_crypt : option StaticKey;
  ciphers : option (list DataCipher);
  legacy_cipher : option DataCipher;
  digest : option Digest;
  wants_credentials : bool;
  server_name : option ServerNameCheck;
  reneg_seconds : option Z;
  tun_mtu : option Z
}.

Definition empty : t :=
  mk [] None None [] [] None None None None None None None false None None None.

Definition with_remotes (p : t) v := mk v (protocol p) (port p) (ca p) (client_certs p) (client_key p)
  (tls_auth p) (key_direction p) (tls_crypt p) (ciphers p) (legacy_cipher p) (digest p)
  (wants_credentials p) (server_name p) (reneg_seconds p) (tun_mtu p).
Definition with_protocol (p : t) v := mk (remotes p) v (port p) (ca p) (client_certs p) (client_key p)
  (tls_auth p) (key_direction p) (tls_crypt p) (ciphers p) (legacy_cipher p) (digest p)
  (wants_credentials p) (server_name p) (reneg_seconds p) (tun_mtu p).
Definition with_port (p : t) v := mk (remotes p) (protocol p) v (ca p) (client_certs p) (client_key p)
  (tls_auth p) (key_direction p) (tls_crypt p) (ciphers p) (legacy_cipher p) (digest p)
  (wants_credentials p) (server_name p) (reneg_seconds p) (tun_mtu p).
Definition with_ca (p : t) v := mk (remotes p) (protocol p) (port p) v (client_certs p) (client_key p)
  (tls_auth p) (key_direction p) (tls_crypt p) (ciphers p) (legacy_cipher p) (digest p)
  (wants_credentials p) (server_name p) (reneg_seconds p) (tun_mtu p).
Definition with_certs (p : t) v := mk (remotes p) (protocol p) (port p) (ca p) v (client_key p)
  (tls_auth p) (key_direction p) (tls_crypt p) (ciphers p) (legacy_cipher p) (digest p)
  (wants_credentials p) (server_name p) (reneg_seconds p) (tun_mtu p).
Definition with_key (p : t) v := mk (remotes p) (protocol p) (port p) (ca p) (client_certs p) v
  (tls_auth p) (key_direction p) (tls_crypt p) (ciphers p) (legacy_cipher p) (digest p)
  (wants_credentials p) (server_name p) (reneg_seconds p) (tun_mtu p).
Definition with_tls_auth (p : t) v := mk (remotes p) (protocol p) (port p) (ca p) (client_certs p)
  (client_key p) v (key_direction p) (tls_crypt p) (ciphers p) (legacy_cipher p) (digest p)
  (wants_credentials p) (server_name p) (reneg_seconds p) (tun_mtu p).
Definition with_direction (p : t) v := mk (remotes p) (protocol p) (port p) (ca p) (client_certs p)
  (client_key p) (tls_auth p) v (tls_crypt p) (ciphers p) (legacy_cipher p) (digest p)
  (wants_credentials p) (server_name p) (reneg_seconds p) (tun_mtu p).
Definition with_tls_crypt (p : t) v := mk (remotes p) (protocol p) (port p) (ca p) (client_certs p)
  (client_key p) (tls_auth p) (key_direction p) v (ciphers p) (legacy_cipher p) (digest p)
  (wants_credentials p) (server_name p) (reneg_seconds p) (tun_mtu p).
Definition with_ciphers (p : t) v := mk (remotes p) (protocol p) (port p) (ca p) (client_certs p)
  (client_key p) (tls_auth p) (key_direction p) (tls_crypt p) v (legacy_cipher p) (digest p)
  (wants_credentials p) (server_name p) (reneg_seconds p) (tun_mtu p).
Definition with_legacy (p : t) v := mk (remotes p) (protocol p) (port p) (ca p) (client_certs p)
  (client_key p) (tls_auth p) (key_direction p) (tls_crypt p) (ciphers p) v (digest p)
  (wants_credentials p) (server_name p) (reneg_seconds p) (tun_mtu p).
Definition with_digest (p : t) v := mk (remotes p) (protocol p) (port p) (ca p) (client_certs p)
  (client_key p) (tls_auth p) (key_direction p) (tls_crypt p) (ciphers p) (legacy_cipher p) v
  (wants_credentials p) (server_name p) (reneg_seconds p) (tun_mtu p).
Definition with_credentials (p : t) v := mk (remotes p) (protocol p) (port p) (ca p) (client_certs p)
  (client_key p) (tls_auth p) (key_direction p) (tls_crypt p) (ciphers p) (legacy_cipher p) (digest p)
  v (server_name p) (reneg_seconds p) (tun_mtu p).
Definition with_server_name (p : t) v := mk (remotes p) (protocol p) (port p) (ca p) (client_certs p)
  (client_key p) (tls_auth p) (key_direction p) (tls_crypt p) (ciphers p) (legacy_cipher p) (digest p)
  (wants_credentials p) v (reneg_seconds p) (tun_mtu p).
Definition with_reneg (p : t) v := mk (remotes p) (protocol p) (port p) (ca p) (client_certs p)
  (client_key p) (tls_auth p) (key_direction p) (tls_crypt p) (ciphers p) (legacy_cipher p) (digest p)
  (wants_credentials p) (server_name p) v (tun_mtu p).
Definition with_mtu (p : t) v := mk (remotes p) (protocol p) (port p) (ca p) (client_certs p)
  (client_key p) (tls_auth p) (key_direction p) (tls_crypt p) (ciphers p) (legacy_cipher p) (digest p)
  (wants_credentials p) (server_name p) (reneg_seconds p) v.

End Parser.

Definition UNSUPPORTED_CERTIFICATE_CHECKS : list (list byte) :=
  [str "peer-fingerprint"; str "verify-hash"; str "crl-verify"; str "tls-verify"].

(** [name.strip_prefix("--").unwrap_or(name)]. *)
Definition bare (name : list byte) : list byte := default name (strip_prefix (str "--") name).

(** [option.map(f).transpose()]. *)
Definition transpose {A B} (f : A → result Error B) (o : option A) : result Error (option B) :=
  match o with None => Ok None | Some a => b ← f a; Ok (Some b) end.

(** [argument(0).ok_or(message)]. *)
Definition first_argument (arguments : list (list byte)) (message : string)
    : result Error (list byte) :=
  match arguments with a :: _ => Ok a | [] => Err (str message) end.

Section parser.
Import Parser.
Implicit Types (p : Parser.t) (name : list byte) (arguments : list (list byte)).

Definition remote_directive p arguments : result Error Parser.t :=
  host ← first_argument arguments "a `remote` line in the OpenVPN configuration has no host";
  port ← transpose parse_port (arguments !! 1%nat);
  protocol ← transpose parse_protocol (arguments !! 2%nat);
  Ok (with_remotes p (remotes p ++ [PendingRemote.mk host port protocol])).

Definition auth_directive p arguments : result Error Parser.t :=
  name ← first_argument arguments "`auth` needs a digest name";
  match parse_digest name with
  | Some d => Ok (with_digest p (Some d))
  | None => Err (str "this configuration asks for the `" ++ name
                 ++ str "` digest, which GamePath does not implement")
  end.

Definition ciphers_directive p arguments : result Error Parser.t :=
  list ← first_argument arguments "`data-ciphers` needs a list";
  match omap parse_cipher (split_on x3a list) with
  | [] => Err (str "none of the ciphers in `data-ciphers " ++ list
               ++ str "` are implemented by GamePath, which supports " ++ SUPPORTED_CIPHERS)
  | ciphers => Ok (with_ciphers p (Some ciphers))
  end.

Definition directive p name arguments : result Error Parser.t :=
  let name := bare name in
  let named s := bool_decide (name = str s) in
  if bool_decide (name ∈ UNSUPPORTED_CERTIFICATE_CHECKS) then
    Err (str "GamePath cannot enforce the `" ++ name
         ++ str "` certificate verification requirement in this configuration. Use a client that supports this check.")
  else if named "remote" then remote_directive p arguments
  else if named "verify-x509-name" then
    check ← parse_check arguments; Ok (with_server_name p (Some check))
  else if named "proto" then
    value ← first_argument arguments "`proto` needs udp or tcp";
    protocol ← parse_protocol value; Ok (with_protocol p (Some protocol))
  else if named "port" || named "rport" then
    value ← first_argument arguments "`port` needs a number";
    port ← parse_port value; Ok (with_port p (Some port))
  else if named "dev" || named "dev-type" then
    match arguments with
    | dev :: _ =>
        if starts_with (str "tun") dev then Ok p
        else Err (str "this configuration uses `dev " ++ dev
                  ++ str "`. GamePath carries IP packets, so it needs a `tun` configuration; ask the provider for one.")
    | [] => Ok p
    end
  else if named "auth" then auth_directive p arguments
  else if named "cipher" then Ok (with_legacy p (parse_cipher (default [] (head arguments))))
  else if named "data-ciphers" || named "ncp-ciphers" then ciphers_directive p arguments
  else if named "auth-user-pass" then
    match arguments with
    | path :: _ =>
        Err (str "this configuration reads its username and password from `" ++ path
             ++ str "`. Remove that filename and enter the credentials in GamePath instead.")
    | [] => Ok (with_credentials p true)
    end
  else if named "reneg-sec" then Ok (with_reneg p (v ← head arguments; parse_unsigned u64_max v))
  else if named "tun-mtu" then Ok (with_mtu p (v ← head arguments; parse_u16 v))
  else if named "key-direction" then
    match v ← head arguments; parse_u8 v with
    | Some d => Ok (with_direction p (Some d))
    | None => Err (str "`key-direction` needs 0 or 1")
    end
  else if bool_decide (name ∈ [str "ca"; str "cert"; str "key"; str "tls-auth"; str "tls-crypt";
                               str "tls-crypt-v2"; str "pkcs12"]) then
    Err (str "this configuration keeps its `" ++ name
         ++ str "` in a separate file. GamePath needs one self-contained file, with the certificates and keys inline between `<"
         ++ name ++ str ">` and `</" ++ name ++ str ">` tags.")
  else if named "secret" then
    Err (str "this configuration uses OpenVPN's static-key mode, which has no TLS handshake and is removed in current OpenVPN releases. Ask the provider for a normal TLS configuration.")
  else if named "comp-lzo" || named "compress" then
    match arguments with
    | mode :: _ =>
        if bool_decide (mode ∈ [str "no"; str "stub"; str "stub-v2"]) then Ok p
        else Err (str "this configuration turns on `" ++ name ++ str " " ++ mode
                  ++ str "`. GamePath does not compress tunnelled traffic, because compression leaks information about it and adds latency. Ask the provider for a configuration without compression.")
    | [] => Ok p
    end
  else if named "fragment" then
    Err (str "this configuration uses `--fragment`, OpenVPN's own packet splitting, which GamePath does not implement. Ask the provider for a configuration without it.")
  else if named "http-proxy" || named "socks-proxy" then
    Err (str "this configuration reaches its server through `" ++ name
         ++ str "`. Add that proxy as its own GamePath node instead of naming it inside the OpenVPN file.")
  else if named "static-challenge" then
    Err (str "this configuration asks for a one-time code at connect time, which GamePath cannot prompt for.")
  else Ok p.

Definition in_connection name : bool :=
  bool_decide (name ∈ [str "remote"; str "proto"; str "port"; str "rport"])
  || bool_decide (name ∈ UNSUPPORTED_CERTIFICATE_CHECKS).

Fixpoint connection_lines p (lines : list (list byte)) : result Error Parser.t :=
  match lines with
  | [] => Ok p
  | line :: rest =>
      let line := strip_comment line in
      if bool_decide (line = []) then connection_lines p rest else
      match tokenize line with
      | [] => connection_lines p rest
      | name :: arguments =>
          p ← (if in_connection (bare name) then directive p name arguments else Ok p);
          connection_lines p rest
      end
  end.

Context `{!Pem}.

Definition inline p (tag body : list byte) : result Error Parser.t :=
  let named s := bool_decide (tag = str s) in
  if bool_decide (tag ∈ UNSUPPORTED_CERTIFICATE_CHECKS) then directive p tag []
  else if named "ca" then v ← read_certificates body (str "ca"); Ok (with_ca p v)
  else if named "cert" then v ← read_certificates body (str "cert"); Ok (with_certs p v)
  else if named "key" then v ← read_private_key body; Ok (with_key p (Some v))
  else if named "tls-auth" then v ← read_static_key body tag; Ok (with_tls_auth p (Some v))
  else if named "tls-crypt" then v ← read_static_key body tag; Ok (with_tls_crypt p (Some v))
  else if named "tls-crypt-v2" then
    Err (str "this configuration uses `tls-crypt-v2`, which GamePath does not implement yet. A `tls-crypt` or plain configuration from the same provider will work.")
  else if named "connection" then connection_lines p (str_lines body)
  else Ok p.

(** The key direction is resolved at the end, where both it and its key are known. *)
Definition resolve_control_auth p (digest : Digest) : result Error ControlAuth :=
  match tls_crypt p, tls_auth p with
  | Some key, _ => Ok (TlsCrypt key)
  | None, Some key =>
      direction ←
        match key_direction p with
        | Some 0 => Ok Normal
        | Some 1 => Ok Inverse
        | Some other => Err (str "`key-direction " ++ number other
            ++ str "` is neither 0 nor 1, so GamePath cannot tell which half of the `<tls-auth>` key to sign with")
        | None => Ok Bidirectional
        end;
      Ok (TlsAuth key direction digest)
  | None, None => Ok AuthNone
  end.

Definition offered_ciphers p : list DataCipher :=
  match ciphers p, legacy_cipher p with
  | Some list, _ => list
  | None, Some cipher => cipher :: filter (.≠ cipher) DEFAULT_CIPHERS
  | None, None => DEFAULT_CIPHERS
  end.

(** [a.or(b)]. *)
Definition or_else {A} (a b : option A) : option A := match a with Some _ => a | None => b end.

Definition finish p : result Error OpenVpnConfig :=
  if bool_decide (remotes p = []) then
    Err (str "this OpenVPN configuration has no `remote` line, so there is no server to connect to")
  else if bool_decide (ca p = []) then
    Err (str "this OpenVPN configuration has no `<ca>` block, so the server's certificate cannot be checked against anything.")
  else if negb (Bool.eqb (bool_decide (client_certs p = [])) (bool_decide (client_key p = None))) then
    Err (str "this OpenVPN configuration has only one of `<cert>` and `<key>`. Certificate authentication needs both.")
  else if negb (wants_credentials p) && bool_decide (client_key p = None) then
    Err (str "this OpenVPN configuration has neither `auth-user-pass` nor a client certificate, so there is no way to authenticate to the server.")
  else
    let digest := default Sha1 (digest p) in
    control_auth ← resolve_control_auth p digest;
    let data_ciphers := offered_ciphers p in
    let fallback_cipher := default Aes256Gcm (or_else (legacy_cipher p) (head data_ciphers)) in
    let default_protocol := default Udp (protocol p) in
    let resolve (r : PendingRemote.t) :=
      Remote.mk (PendingRemote.host r)
        (default 1194 (or_else (port p) (PendingRemote.port r)))
        (default default_protocol (PendingRemote.protocol r)) in
    Ok (mk_config (resolve <$> remotes p) (ca p) (client_certs p) (client_key p) control_auth
          data_ciphers fallback_cipher digest (wants_credentials p) (server_name p)
          (reneg_seconds p) (default 1500 (tun_mtu p))).

(** The loop over the lines, with the number of lines as its fuel. *)
Fixpoint read_lines (fuel : nat) p (lines : list (list byte)) : result Error Parser.t :=
  match lines, fuel with
  | [], _ => Ok p
  | _, O => Err (str "out of fuel")
  | line :: rest, S fuel' =>
      let line := strip_comment line in
      if bool_decide (line = []) then read_lines fuel' p rest else
      match inline_open_tag line with
      | Some tag =>
          '(body, rest) ← collect_inline rest tag [];
          p ← inline p tag body;
          read_lines fuel' p rest
      | None =>
          match tokenize line with
          | [] => read_lines fuel' p rest
          | name :: arguments => p ← directive p name arguments; read_lines fuel' p rest
          end
      end
  end.

Definition parse (source : list byte) : result Error OpenVpnConfig :=
  let lines := str_lines source in
  p ← read_lines (length lines) empty lines;
  finish p.

(** What [UserSpaceOpenVpnPath::from_config] asks of a node's settings before it dials. *)
Definition configured (source : list byte) (username : option (list byte)) : result Error OpenVpnConfig :=
  config ← parse source;
  if OvpnConfig.wants_credentials config && bool_decide (username = None)
  then Err (str "this OpenVPN configuration needs a username and password, which have not been                  entered for this node")
  else Ok config.

Lemma configured_parses source username config : configured source username = Ok config → parse source = Ok config.
Proof.
  unfold configured. destruct (parse source) as [c|]; cbn [mbind result_bind]; [|done].
  by destruct (_ && _); [|intros [= ->]].
Qed.

End parser.

(** ** The reference reading of a file *)

(** A directive, a block with its body, or a block that nothing closes. *)
Inductive item : Type :=
| Directive (name : list byte) (arguments : list (list byte))
| Block (tag body : list byte)
| Unclosed (tag : list byte).

Fixpoint items (open : option (list byte * list byte)) (lines : list (list byte)) : list item :=
  match lines, open with
  | [], None => []
  | [], Some (tag, _) => [Unclosed tag]
  | line :: rest, Some (tag, body) =>
      if bool_decide (trim line = closing_tag tag) then Block tag body :: items None rest
      else items (Some (tag, body ++ line ++ [x0a])) rest
  | line :: rest, None =>
      match strip_comment line with
      | [] => items None rest
      | line =>
          match inline_open_tag line, tokenize line with
          | Some tag, _ => items (Some (tag, [])) rest
          | None, name :: arguments => Directive name arguments :: items None rest
          | None, [] => items None rest
          end
      end
  end.

Definition file_items (source : list byte) : list item := items None (str_lines source).

(** The directives in the body of a block. *)
Definition line_directive (line : list byte) : option item :=
  match strip_comment line with
  | [] => None
  | line =>
      match tokenize line with
      | name :: arguments => Some (Directive name arguments)
      | [] => None
      end
  end.
Definition body_directives (body : list byte) : list item := omap line_directive (str_lines body).

Section reading.
Context `{!Pem}.

Definition interpret (p : Parser.t) (i : item) : result Error Parser.t :=
  match i with
  | Directive name arguments => directive p name arguments
  | Block tag body => inline p tag body
  | Unclosed tag => Err (str "the OpenVPN configuration opens `<" ++ tag ++ str ">` but never closes it")
  end.

Fixpoint interpret_all (p : Parser.t) (its : list item) : result Error Parser.t :=
  match its with
  | [] => Ok p
  | i :: its => p ← interpret p i; interpret_all p its
  end.

End reading.

(** The checks of the server's certificate that OpenVPN has and this client has not,
    by the names of its manual. *)
Definition checks_not_made : list (list byte) :=
  [str "peer-fingerprint"; str "verify-hash"; str "crl-verify"; str "tls-verify"].

(** A directive is written with its dashes or without. *)
Definition spells (name directive : list byte) : Prop := name = directive ∨ name = str "--" ++ directive.

(** An item that asks for a certificate check the client does not make. *)
Definition asks_for_check (i : item) : Prop :=
  match i with
  | Directive name _ => ∃ check, check ∈ checks_not_made ∧ spells name check
  | Block tag body =>
      tag ∈ checks_not_made ∨
      (tag = str "connection" ∧
       ∃ name arguments check, Directive name arguments ∈ body_directives body ∧
         check ∈ checks_not_made ∧ spells name check)
  | Unclosed _ => True
  end.

#[export] Instance spells_decision name directive : Decision (spells name directive).
Proof. unfold spells. apply _. Defined.

(** The name that a line outside the blocks requires of the server's certificate. *)
Definition item_server_name (i : item) : option ServerNameCheck :=
  match i with
  | Directive name arguments =>
      if bool_decide (spells name (str "verify-x509-name")) then
        match parse_check arguments with Ok check => Some check | Err _ => None end
      else None
  | _ => None
  end.

(** Such a line is never one that cannot be read. *)
Definition server_name_read (i : item) : Prop :=
  match i with
  | Directive name arguments =>
      spells name (str "verify-x509-name") → ∃ check, parse_check arguments = Ok check
  | _ => True
  end.

Lemma bare_spells name directive :
  strip_prefix (str "--") directive = None → bare name = directive ↔ spells name directive.
Proof.
  intros Hn. unfold bare, spells. split.
  - destruct (strip_prefix _ name) eqn:E; cbn; [|by left]. apply strip_prefix_Some in E as ->.
    intros ->. by right.
  - intros [->| ->]; [by rewrite Hn|by rewrite strip_prefix_app].
Qed.

Lemma bare_check name :
  bare name ∈ UNSUPPORTED_CERTIFICATE_CHECKS ↔ ∃ check, check ∈ checks_not_made ∧ spells name check.
Proof.
  change UNSUPPORTED_CERTIFICATE_CHECKS with checks_not_made.
  assert (∀ check, check ∈ checks_not_made → strip_prefix (str "--") check = None) as Hc.
  { apply Forall_forall. by repeat constructor. }
  split; [intros H; exists (bare name); split; [done|]; by apply bare_spells; [apply Hc|]|].
  intros (check & Hin & Hs). apply bare_spells in Hs as ->; [done|by apply Hc].
Qed.

Definition static_key_wf (key : StaticKey) : Prop := zlen key = 256.

Definition control_auth_wf (c : ControlAuth) : Prop :=
  match c with
  | AuthNone => True
  | TlsAuth key _ _ | TlsCrypt key => static_key_wf key
  end.

(** What the client relies on of a configuration. *)
Record config_wf (c : OpenVpnConfig) : Prop := {
  cw_remotes : remotes c ≠ [] ∧ Forall (λ r, 0 < Remote.port r <= 65535) (remotes c);
  cw_ca : ca c ≠ [];
  cw_key : client_certs c = [] ↔ client_key c = None;
  cw_login : wants_credentials c = true ∨ is_Some (client_key c);
  cw_auth : control_auth_wf (control_auth c);
  cw_digest : ∀ key d h, control_auth c = TlsAuth key d h → h = digest c;
  cw_ciphers : data_ciphers c ≠ [];
  cw_mtu : 0 <= tun_mtu c <= 65535
}.

Record parser_wf (p : Parser.t) : Prop := {
  pw_remotes : Forall (λ r, ∀ n, PendingRemote.port r = Some n → 0 < n <= 65535) (Parser.remotes p);
  pw_port : ∀ n, Parser.port p = Some n → 0 < n <= 65535;
  pw_auth : ∀ k, Parser.tls_auth p = Some k → static_key_wf k;
  pw_crypt : ∀ k, Parser.tls_crypt p = Some k → static_key_wf k;
  pw_ciphers : ∀ l, Parser.ciphers p = Some l → l ≠ [];
  pw_mtu : ∀ n, Parser.tun_mtu p = Some n → 0 <= n <= 65535
}.

(** ** The loop is the reference reading *)

Lemma collect_inline_items lines tag body :
  match collect_inline lines tag body with
  | Ok (b, rest) =>
      items (Some (tag, body)) lines = Block tag b :: items None rest ∧ (length rest < length lines)%nat
  | Err e =>
      items (Some (tag, body)) lines = [Unclosed tag] ∧
      e = str "the OpenVPN configuration opens `<" ++ tag ++ str ">` but never closes it"
  end.
Proof.
  revert body. induction lines as [|line lines IH]; intros body; [done|].
  cbn [collect_inline items]. case_bool_decide; [split; [done|simpl; lia]|].
  specialize (IH (body ++ line ++ [x0a])).
  destruct (collect_inline lines _ _) as [[b rest]|e]; [|done].
  destruct IH as [-> Hl]. split; [done|simpl; lia].
Qed.

Section read.
Context `{!Pem}.

Lemma read_lines_items fuel p lines :
  (length lines <= fuel)%nat → read_lines fuel p lines = interpret_all p (items None lines).
Proof.
  revert p lines. induction fuel as [|fuel IH]; intros p [|line lines] Hl; simpl in Hl; [done|lia|done|].
  cbn [read_lines items]. destruct (strip_comment line) as [|c line'] eqn:El; cbn zeta.
  { apply IH. lia. }
  rewrite bool_decide_false by done.
  destruct (inline_open_tag (c :: line')) as [tag|].
  - pose proof (collect_inline_items lines tag []) as Hc.
    destruct (collect_inline lines tag []) as [[b rest]|e].
    + destruct Hc as [-> Hr]. cbn. destruct (inline p tag b) as [p'|e]; [|done].
      cbn. apply IH. lia.
    + destruct Hc as [-> ->]. done.
  - destruct (tokenize (c :: line')) as [|name arguments]; [apply IH; lia|].
    cbn. destruct (directive p name arguments) as [p'|e]; [|done]. cbn. apply IH. lia.
Qed.

Lemma interpret_all_inv (I : Parser.t → Prop) p q its :
  (∀ p p' i, I p → interpret p i = Ok p' → I p') →
  I p → interpret_all p its = Ok q → I q.
Proof.
  intros Hstep. revert p. induction its as [|i its IH]; intros p Hp; simpl; [by intros [= <-]|].
  destruct (interpret p i) as [p'|e] eqn:E; [|done]. apply IH. by apply (Hstep p p' i).
Qed.

Lemma interpret_all_items p q its i :
  interpret_all p its = Ok q → i ∈ its → ∃ p' q', interpret p' i = Ok q'.
Proof.
  revert p. induction its as [|j its IH]; intros p; simpl; [by intros _ ?%elem_of_nil|].
  destruct (interpret p j) as [p'|e] eqn:E; [|done]. intros Hq [->|Hi]%elem_of_cons; [eauto|].
  by apply (IH p').
Qed.

End read.

(** ** What each directive may change *)

Definition port_ok (n : Z) : Prop := 0 < n <= 65535.

Inductive effect (p : Parser.t) (name : list byte) (arguments : list (list byte)) : Parser.t → Prop :=
| no_effect : name ≠ str "key-direction" → name ≠ str "auth" → name ≠ str "verify-x509-name" → effect p name arguments p
| sets_remote r : name = str "remote" → (∀ n, PendingRemote.port r = Some n → port_ok n) →
    effect p name arguments (Parser.with_remotes p (Parser.remotes p ++ [r]))
| sets_name v : name = str "verify-x509-name" → parse_check arguments = Ok v →
    effect p name arguments (Parser.with_server_name p (Some v))
| sets_protocol v : name = str "proto" → effect p name arguments (Parser.with_protocol p v)
| sets_port n : name = str "port" ∨ name = str "rport" → port_ok n →
    effect p name arguments (Parser.with_port p (Some n))
| sets_digest d : name = str "auth" → head arguments ≫= parse_digest = Some d →
    effect p name arguments (Parser.with_digest p (Some d))
| sets_legacy v : name = str "cipher" → effect p name arguments (Parser.with_legacy p v)
| sets_ciphers l : name = str "data-ciphers" ∨ name = str "ncp-ciphers" → l ≠ [] →
    effect p name arguments (Parser.with_ciphers p (Some l))
| sets_credentials : name = str "auth-user-pass" → effect p name arguments (Parser.with_credentials p true)
| sets_reneg v : name = str "reneg-sec" → effect p name arguments (Parser.with_reneg p v)
| sets_mtu v : name = str "tun-mtu" → (∀ n, v = Some n → 0 <= n <= 65535) →
    effect p name arguments (Parser.with_mtu p v)
| sets_direction d : name = str "key-direction" → head arguments ≫= parse_u8 = Some d →
    effect p name arguments (Parser.with_direction p (Some d)).

Lemma parse_unsigned_bound max s n : parse_unsigned max s = Some n → 0 <= n <= max.
Proof.
  intros Hn. pose proof (parse_unsigned_nonneg _ _ _ Hn). revert Hn. unfold parse_unsigned.
  destruct (match s with x2b :: s' => s' | _ => s end); [done|].
  destruct (read_digits _ 0) as [v|]; [|done]. cbn. destruct (Z.leb_spec v max); [|done].
  intros [= <-]. lia.
Qed.

Lemma parse_port_ok value n : parse_port value = Ok n → port_ok n.
Proof.
  unfold parse_port, parse_u16. destruct (parse_unsigned 65535 value) eqn:E; [|done].
  apply parse_unsigned_bound in E. case_match; [done|]. b2p. intros [= <-]. unfold port_ok. lia.
Qed.

Lemma remote_effect p arguments p' :
  remote_directive p arguments = Ok p' →
  ∃ r, (∀ n, PendingRemote.port r = Some n → port_ok n) ∧
       p' = Parser.with_remotes p (Parser.remotes p ++ [r]).
Proof.
  unfold remote_directive. destruct (first_argument _ _) as [host|]; [|done]. cbn.
  unfold transpose. destruct (arguments !! 1%nat) as [a|]; cbn.
  - destruct (parse_port a) as [n|] eqn:E; [|done]. cbn.
    destruct (match arguments !! 2%nat with Some _ => _ | None => _ end); [|done].
    intros [= <-]. eexists. split; [|done]. intros ? [= <-]. by eapply parse_port_ok.
  - destruct (match arguments !! 2%nat with Some _ => _ | None => _ end); [|done].
    intros [= <-]. eexists. by split; [|done].
Qed.

(** Walks down the chain of tests. *)
Ltac next_test :=
  lazymatch goal with
  | |- (if ?a || ?b then _ else _) = _ → _ =>
      let E := fresh "E" in
      destruct (a || b) eqn:E;
        [rewrite orb_true_iff, !bool_decide_eq_true in E
        |rewrite orb_false_iff, !bool_decide_eq_false in E]
  | |- (if bool_decide ?P then _ else _) = _ → _ =>
      let E := fresh "E" in case_bool_decide as E
  end.

Lemma directive_effect p name arguments p' :
  directive p name arguments = Ok p' →
  bare name ∉ UNSUPPORTED_CERTIFICATE_CHECKS ∧ effect p (bare name) arguments p'.
Proof.
  unfold directive. cbv zeta. case_bool_decide as Hc; [done|]. intros H. split; [done|]. revert H.
  repeat next_test; try done.
  - intros (r & Hr & ->)%remote_effect. by apply sets_remote.
  - destruct (parse_check arguments) eqn:Ec; [|done]. intros [= <-]. by apply sets_name.
  - destruct (first_argument _ _) as [v|]; [|done]. cbn.
    destruct (parse_protocol v); [|done]. intros [= <-]. by apply sets_protocol.
  - destruct (first_argument _ _) as [v|]; [|done]. cbn.
    destruct (parse_port v) eqn:Ep; [|done]. intros [= <-]. apply sets_port; [done|by eapply parse_port_ok].
  - destruct arguments as [|dev more]; [|destruct (starts_with _ dev); [|done]];
      intros [= <-]; apply no_effect; by match goal with H : _ ∨ _ |- _ => destruct H as [-> | ->] end.
  - unfold auth_directive. destruct arguments as [|v more]; [done|]. cbn.
    destruct (parse_digest v) eqn:Ed; [|done]. intros [= <-]. by apply sets_digest.
  - intros [= <-]. by apply sets_legacy.
  - unfold ciphers_directive. destruct (first_argument _ _) as [v|]; [|done]. cbn.
    destruct (omap _ _) eqn:Eo; [done|]. intros [= <-]. by apply sets_ciphers.
  - destruct arguments; [|done]. intros [= <-]. by apply sets_credentials.
  - intros [= <-]. by apply sets_reneg.
  - intros [= <-]. apply sets_mtu; [done|]. intros n Hn.
    destruct (head arguments) as [v|]; [|done]. by eapply parse_unsigned_bound.
  - destruct (head arguments ≫= _) eqn:Ed; [|done]. intros [= <-]. by apply sets_direction.
  - destruct arguments as [|mode more]; [|case_bool_decide; [|done]];
      intros [= <-]; apply no_effect; by match goal with H : _ ∨ _ |- _ => destruct H as [-> | ->] end.
  - intros [= <-]. by apply no_effect.
Qed.

Lemma chunks_loop_pairs {A} (l : list A) n fuel :
  length l = (2 * n)%nat → (n <= fuel)%nat → length (chunks_loop fuel 2 l) = n.
Proof.
  revert l fuel. induction n as [|n IH]; intros l fuel Hl Hf.
  - destruct l; [by destruct fuel|simpl in Hl; lia].
  - destruct l as [|a [|b l]]; [simpl in Hl; lia..|]. destruct fuel as [|fuel]; [lia|].
    simpl. rewrite skipn_O. f_equal. apply IH; simpl in Hl; lia.
Qed.

Lemma read_static_key_wf body tag key : read_static_key body tag = Ok key → static_key_wf key.
Proof.
  unfold read_static_key. set (hex := mjoin _).
  destruct (Z.eqb_spec (zlen hex) 512) as [Hl|]; [|done]. cbn [negb orb].
  destruct (forallb _ hex); [|done]. cbn [negb].
  destruct (mapM hex_pair (chunks 2 hex)) as [k|] eqn:Ek; [|done]. intros [= <-].
  apply length_mapM in Ek. unfold static_key_wf, zlen in *. rewrite <-Ek.
  assert (length hex = 512%nat) as Hn by lia. clearbody hex. clear Ek Hl.
  unfold chunks. change (Z.to_nat 2) with 2%nat.
  rewrite (chunks_loop_pairs hex 256 (length hex)) by (rewrite Hn; lia). done.
Qed.

Lemma effect_wf p name arguments p' : parser_wf p → effect p name arguments p' → parser_wf p'.
Proof.
  intros [Hr Hp Ha Hc Hl Hm]. destruct 1; split; cbn; try assumption; try (by intros ? [= <-]).
  apply Forall_app. split; [done|]. by apply Forall_singleton.
Qed.

(** What the items say that the control channel's protection depends on. *)
Definition item_direction (i : item) : option Z :=
  match i with
  | Directive name arguments =>
      if bool_decide (bare name = str "key-direction") then head arguments ≫= parse_u8 else None
  | _ => None
  end.
Definition item_digest (i : item) : option Digest :=
  match i with
  | Directive name arguments =>
      if bool_decide (bare name = str "auth") then head arguments ≫= parse_digest else None
  | _ => None
  end.
Definition item_static_key (kind : list byte) (i : item) : option StaticKey :=
  match i with
  | Block tag body =>
      if bool_decide (tag = kind) then
        match read_static_key body tag with Ok key => Some key | Err _ => None end
      else None
  | _ => None
  end.

(** The parser holds the last of each. *)
Definition updated {A} (before now after : option A) : Prop :=
  after = match now with Some a => Some a | None => before end.

Record follows (p : Parser.t) (i : item) (p' : Parser.t) : Prop := {
  fo_direction : updated (Parser.key_direction p) (item_direction i) (Parser.key_direction p');
  fo_digest : updated (Parser.digest p) (item_digest i) (Parser.digest p');
  fo_auth : updated (Parser.tls_auth p) (item_static_key (str "tls-auth") i) (Parser.tls_auth p');
  fo_crypt : updated (Parser.tls_crypt p) (item_static_key (str "tls-crypt") i) (Parser.tls_crypt p');
  fo_name : updated (Parser.server_name p) (item_server_name i) (Parser.server_name p');
  fo_read : server_name_read i
}.

(** The rest of a parser's state may change. *)
Definition keeps_control (p p' : Parser.t) : Prop :=
  Parser.key_direction p' = Parser.key_direction p ∧ Parser.digest p' = Parser.digest p ∧
  Parser.tls_auth p' = Parser.tls_auth p ∧ Parser.tls_crypt p' = Parser.tls_crypt p ∧
  Parser.server_name p' = Parser.server_name p.

Lemma item_server_name_bare name arguments :
  item_server_name (Directive name arguments) =
  if bool_decide (bare name = str "verify-x509-name") then
    match parse_check arguments with Ok check => Some check | Err _ => None end
  else None.
Proof. cbn -[bare str]. by rewrite (bool_decide_ext _ _ (bare_spells name (str "verify-x509-name") eq_refl)). Qed.

Lemma server_name_read_bare name arguments :
  server_name_read (Directive name arguments) ↔
  (bare name = str "verify-x509-name" → ∃ check, parse_check arguments = Ok check).
Proof. cbn -[bare str]. by rewrite (bare_spells name (str "verify-x509-name") eq_refl). Qed.

Lemma directive_follows p name arguments p' :
  effect p (bare name) arguments p' → follows p (Directive name arguments) p'.
Proof.
  intros He. assert (∀ s t, bare name = s → s ≠ t → bool_decide (bare name = t) = false) as Hne.
  { intros s t -> ?. by apply bool_decide_false. }
  split; unfold updated; rewrite ?item_server_name_bare, ?server_name_read_bare;
    unfold item_direction, item_digest, item_static_key;
    destruct He as [Hd Ha Hv| | | |? [|]| | |? [|]| | | |]; cbn -[bare];
    try (by rewrite ?(bool_decide_false _ Hd), ?(bool_decide_false _ Ha), ?(bool_decide_false _ Hv));
    try (by erewrite Hne by done); try done.
  all: try (intros Hb; first [by eexists|exfalso; rewrite Hb in *; naive_solver]).
  all: rewrite bool_decide_true by done.
  all: match goal with H : _ = Some _ |- _ => by rewrite H | H : _ = Ok _ |- _ => by rewrite H end.
Qed.

Lemma connection_effect p name arguments p' :
  in_connection name = true → name ∉ UNSUPPORTED_CERTIFICATE_CHECKS →
  effect p name arguments p' → keeps_control p p'.
Proof.
  unfold in_connection. intros [Hin%bool_decide_eq_true|Hin%bool_decide_eq_true]%orb_true_iff Hu; [|done].
  unfold keeps_control. destruct 1 as [| |? ->| | |? ->| | | | | |? ->]; try done;
    (repeat (apply elem_of_cons in Hin as [Hin|Hin]; [done|])); by apply elem_of_nil in Hin.
Qed.

Lemma connection_lines_effect p lines p' :
  parser_wf p → connection_lines p lines = Ok p' →
  parser_wf p' ∧ keeps_control p p' ∧
  ∀ name arguments, Directive name arguments ∈ omap line_directive lines →
    bare name ∉ UNSUPPORTED_CERTIFICATE_CHECKS.
Proof.
  revert p. induction lines as [|line lines IH]; intros p Hwf; cbn [connection_lines].
  { intros [= <-]. split_and!; [done..|]. by intros n a ?%elem_of_nil. }
  change (omap line_directive (line :: lines)) with
    (match line_directive line with Some i => i :: omap line_directive lines | None => omap line_directive lines end).
  unfold line_directive at 1 2. destruct (strip_comment line) as [|c l]; [by apply IH|]. cbn zeta.
  rewrite bool_decide_false by done. destruct (tokenize (c :: l)) as [|name arguments]; [by apply IH|].
  destruct (in_connection (bare name)) eqn:Ein; cbn.
  - destruct (directive p name arguments) as [q|] eqn:Ed; [|done]. cbn. intros Hq.
    apply directive_effect in Ed as [Hn He].
    destruct (IH q) as (Hwf' & Hk & Hrest); [by eapply effect_wf|done|].
    apply connection_effect in He; [|done..].
    split_and!; [done|unfold keeps_control in *; intuition congruence|].
    intros n a [[= -> ->]|Hin]%elem_of_cons; [done|by eapply Hrest].
  - intros Hq. destruct (IH p Hwf Hq) as (Hwf' & Hk & Hrest). split_and!; [done..|].
    intros n a [[= -> ->]|Hin]%elem_of_cons; [|by eapply Hrest].
    apply orb_false_iff in Ein as [_ Hn%bool_decide_eq_false]. done.
Qed.

Section interpret.
Context `{!Pem}.

(** A block that touches no static key. *)
Lemma other_block p p' tag body :
  keeps_control p p' → tag ≠ str "tls-auth" → tag ≠ str "tls-crypt" → follows p (Block tag body) p'.
Proof.
  intros (Hk & Hd & Ha & Hc & Hs) Hna Hnc. split; unfold updated; cbn; rewrite ?bool_decide_false by done; done.
Qed.

Lemma static_key_here kind body :
  item_static_key kind (Block kind body) =
  match read_static_key body kind with Ok key => Some key | Err _ => None end.
Proof. cbn. by rewrite bool_decide_true. Qed.

Lemma static_key_elsewhere kind tag body : tag ≠ kind → item_static_key kind (Block tag body) = None.
Proof. intros. cbn. by rewrite bool_decide_false. Qed.

Lemma no_check tag body :
  tag ∉ UNSUPPORTED_CERTIFICATE_CHECKS → tag ≠ str "connection" → ¬ asks_for_check (Block tag body).
Proof. by intros ?? [?|[? _]]. Qed.

Lemma inline_effect p tag body p' :
  parser_wf p → inline p tag body = Ok p' →
  parser_wf p' ∧ follows p (Block tag body) p' ∧ ¬ asks_for_check (Block tag body).
Proof.
  intros Hwf. unfold inline. cbv zeta. case_bool_decide as Hc.
  { intros [Hn _]%directive_effect. exfalso. apply Hn.
    unfold UNSUPPORTED_CERTIFICATE_CHECKS in Hc.
    repeat (apply elem_of_cons in Hc as [->|Hc]; [vm_compute; set_solver|]). by apply elem_of_nil in Hc. }
  repeat next_test; try done.
  1-2: destruct (read_certificates body _) as [v|]; [|done]; intros [= <-].
  3: destruct (read_private_key body) as [v|]; [|done]; intros [= <-].
  1-3: subst tag; split_and!; [by destruct Hwf|by apply other_block|by apply no_check].
  1-2: destruct (read_static_key body tag) as [v|] eqn:Ek; [|done]; intros [= <-];
    pose proof (read_static_key_wf _ _ _ Ek); subst tag; destruct Hwf.
  1-2: (split_and!; [split; cbn; done || by intros ? [= <-]| |by apply no_check]);
    (split; unfold updated; [done|done| | |done|done];
     first [by rewrite static_key_here, Ek|by rewrite static_key_elsewhere]).
  - intros Hl. destruct (connection_lines_effect p _ p' Hwf Hl) as (Hwf' & Hk & Hn).
    split_and!; [done|by subst; apply other_block|].
    intros [?|(_ & name & arguments & check & Hin & Hu & Hs)]; [done|].
    apply (Hn name arguments Hin), bare_check. eauto.
  - intros [= <-]. split_and!; [done|by apply other_block|by apply no_check].
Qed.

Lemma interpret_effect p i p' :
  parser_wf p → interpret p i = Ok p' → parser_wf p' ∧ follows p i p' ∧ ¬ asks_for_check i.
Proof.
  intros Hwf. destruct i as [name arguments|tag body|tag]; cbn [interpret]; [|by apply inline_effect|done].
  intros [Hn He]%directive_effect.
  split_and!; [by eapply effect_wf|by apply directive_follows|by intros ?%bare_check].
Qed.

(** The last [Some] that [f] finds. *)
Definition last_of {A} (f : item → option A) (l : list item) : option A := last (omap f l).

Lemma last_of_cons {A} (f : item → option A) i l :
  last_of f (i :: l) = match last_of f l with Some a => Some a | None => f i end.
Proof.
  unfold last_of.
  change (omap f (i :: l)) with (match f i with Some a => a :: omap f l | None => omap f l end).
  destruct (f i) as [a|]; [|by destruct (last _)].
  rewrite last_cons. by destruct (last _).
Qed.

Lemma updated_last {A} (f : item → option A) i l before now after :
  updated before (f i) now → after = match last_of f l with Some a => Some a | None => now end →
  after = match last_of f (i :: l) with Some a => Some a | None => before end.
Proof. unfold updated. rewrite last_of_cons. intros -> ->. by destruct (last_of f l), (f i). Qed.

Lemma interpret_all_effect p l q :
  parser_wf p → interpret_all p l = Ok q →
  parser_wf q ∧ (∀ i, i ∈ l → ¬ asks_for_check i) ∧
  updated (Parser.key_direction p) (last_of item_direction l) (Parser.key_direction q) ∧
  updated (Parser.digest p) (last_of item_digest l) (Parser.digest q) ∧
  updated (Parser.tls_auth p) (last_of (item_static_key (str "tls-auth")) l) (Parser.tls_auth q) ∧
  updated (Parser.tls_crypt p) (last_of (item_static_key (str "tls-crypt")) l) (Parser.tls_crypt q) ∧
  updated (Parser.server_name p) (last_of item_server_name l) (Parser.server_name q) ∧
  (∀ i, i ∈ l → server_name_read i).
Proof.
  revert p. induction l as [|i l IH]; intros p Hwf; cbn [interpret_all].
  { intros [= <-]. split_and!; [done|by intros i ?%elem_of_nil|done..|by intros i ?%elem_of_nil]. }
  destruct (interpret p i) as [p'|] eqn:Ei; [|done]. cbn. intros Hq.
  destruct (interpret_effect p i p' Hwf Ei) as (Hwf' & [F1 F2 F3 F4 F5 F6] & Hn).
  destruct (IH p' Hwf' Hq) as (Hq' & Hl & G1 & G2 & G3 & G4 & G5 & G6).
  split_and!; [done| |by eapply updated_last..|]; intros j [->|Hj]%elem_of_cons; auto.
Qed.

Lemma empty_parser_wf : parser_wf Parser.empty.
Proof. by split. Qed.

(** How the control channel is protected, by what the whole file says. *)
Definition control_auth_of (l : list item) : option ControlAuth :=
  match last_of (item_static_key (str "tls-crypt")) l, last_of (item_static_key (str "tls-auth")) l with
  | Some key, _ => Some (TlsCrypt key)
  | None, Some key =>
      direction ← match last_of item_direction l with
                  | None => Some Bidirectional
                  | Some 0 => Some Normal
                  | Some 1 => Some Inverse
                  | Some _ => None
                  end;
      Some (TlsAuth key direction (default Sha1 (last_of item_digest l)))
  | None, None => Some AuthNone
  end.

Lemma offered_not_nil p : parser_wf p → offered_ciphers p ≠ [].
Proof.
  intros Hwf. unfold offered_ciphers.
  destruct (Parser.ciphers p) as [l|] eqn:E; [by apply (pw_ciphers p Hwf)|]. by destruct (Parser.legacy_cipher p).
Qed.

Lemma finish_effect p c :
  parser_wf p → finish p = Ok c →
  config_wf c ∧ resolve_control_auth p (default Sha1 (Parser.digest p)) = Ok (control_auth c) ∧
  digest c = default Sha1 (Parser.digest p) ∧ server_name c = Parser.server_name p.
Proof.
  intros Hwf. unfold finish. case_bool_decide as Hr; [done|]. case_bool_decide as Ha; [done|].
  destruct (Bool.eqb _ _) eqn:Ek; [|done]. cbn [negb].
  destruct (negb _ && _) eqn:Eu; [done|]. cbv zeta.
  destruct (resolve_control_auth p _) as [auth|] eqn:Eauth; [|done]. intros [= <-].
  split; [|done]. pose proof Hwf as [W1 W2 W3 W4 W5 W6]. split; cbn.
  - split; [by intros ?%fmap_nil_inv|]. apply Forall_fmap. eapply Forall_impl; [exact W1|].
    intros r Hn. cbn. destruct (Parser.port p) as [n|] eqn:En; cbn; [by apply W2|].
    destruct (PendingRemote.port r) as [n|] eqn:En'; cbn; [by apply Hn|lia].
  - done.
  - apply eqb_prop in Ek. case_bool_decide; case_bool_decide; tauto || done.
  - apply andb_false_iff in Eu as [Hw%negb_false_iff|Hn%bool_decide_eq_false]; [by left|right].
    by apply not_eq_None_Some.
  - revert Eauth. unfold resolve_control_auth.
    destruct (Parser.tls_crypt p) eqn:E1; [intros [= <-]; by apply W4|].
    destruct (Parser.tls_auth p) eqn:E2; [|by intros [= <-]].
    destruct (match Parser.key_direction p with Some _ => _ | None => _ end); [|done].
    intros [= <-]. by apply W3.
  - intros key d h. revert Eauth. unfold resolve_control_auth.
    destruct (Parser.tls_crypt p); [by intros [= <-]|]. destruct (Parser.tls_auth p); [|by intros [= <-]].
    destruct (match Parser.key_direction p with Some _ => _ | None => _ end); [|done]. cbn.
    intros [= <-] [= _ _ <-]. done.
  - by apply offered_not_nil.
  - destruct (Parser.tun_mtu p) as [n|] eqn:En; cbn; [by apply W6|lia].
Qed.

Lemma parse_effect source c :
  parse source = Ok c →
  config_wf c ∧ (∀ i, i ∈ file_items source → ¬ asks_for_check i) ∧
  Some (control_auth c) = control_auth_of (file_items source) ∧
  digest c = default Sha1 (last_of item_digest (file_items source)) ∧
  server_name c = last_of item_server_name (file_items source) ∧
  (∀ i, i ∈ file_items source → server_name_read i).
Proof.
  unfold parse. cbv zeta. rewrite read_lines_items by done. fold (file_items source).
  destruct (interpret_all _ _) as [p|] eqn:Ep; [|done]. cbn. intros Hf.
  destruct (interpret_all_effect _ _ _ empty_parser_wf Ep) as (Hwf & Hn & F1 & F2 & F3 & F4 & F5 & Hread).
  destruct (finish_effect p c Hwf Hf) as (Hc & Hauth & Hd & Hname). unfold updated, Parser.empty in F1, F2, F3, F4, F5.
  cbn [Parser.key_direction Parser.digest Parser.tls_auth Parser.tls_crypt Parser.server_name] in F1, F2, F3, F4, F5.
  assert (∀ A (o : option A), match o with Some a => Some a | None => None end = o) as Hid by by intros A [].
  rewrite Hid in F1, F2, F3, F4, F5. split_and!; [done..| |by rewrite Hd, F2|by rewrite Hname, F5|done].
  revert Hauth. unfold resolve_control_auth, control_auth_of. rewrite F1, F2, F3, F4.
  destruct (last_of (item_static_key (str "tls-crypt")) _); [by intros [= <-]|].
  destruct (last_of (item_static_key (str "tls-auth")) _); [|by intros [= <-]].
  destruct (last_of item_direction _) as [d|]; [|by cbn; intros [= <-]].
  destruct (decide (d = 0)) as [->|]; [by cbn; intros [= <-]|].
  destruct (decide (d = 1)) as [->|]; [by cbn; intros [= <-]|].
  destruct d as [|[]|]; done.
Qed.

End interpret.

(** ** Properties *)

Section properties.
Context `{!Pem}.

(** C24. Every configuration the parser accepts can be connected with: it has a server
    to dial on a usable port, a certificate authority, a certificate exactly when it
    has a key, some way to log in, ciphers to offer, a static key of 2048 bits where it
    has one, an MTU of 16 bits. And of what the file asks to be checked of the server's
    certificate: none of [peer-fingerprint], [verify-hash], [crl-verify] and
    [tls-verify] is asked for, by a line or a block, inside a [<connection>] block or
    out of one, with or without its dashes; and every [verify-x509-name] outside the
    blocks can be read, and the last of them is the name that the configuration
    requires. A [verify-x509-name] inside a [<connection>] block is not read at all, and
    directives that the client does not know are ignored. *)
Theorem parsed_configuration_is_usable source c (Hparse : parse source = Ok c) :
  config_wf c ∧ (∀ i, i ∈ file_items source → ¬ asks_for_check i ∧ server_name_read i) ∧
  server_name c = last_of item_server_name (file_items source).
Proof. destruct (parse_effect source c Hparse) as (Hc & Hn & _ & _ & Hs & Hr). auto. Qed.

(** How control packets are protected depends on the whole file and not on the
    order of its lines: [tls-crypt] is preferred to [tls-auth], the direction is the
    last [key-direction] of the file whichever side of the key it stands on, and the
    digest the last [auth], SHA1 when there is none. *)
Theorem control_protection_ignores_order source c (Hparse : parse source = Ok c) :
  Some (control_auth c) = control_auth_of (file_items source) ∧
  digest c = default Sha1 (last_of item_digest (file_items source)).
Proof. destruct (parse_effect source c Hparse) as (_ & _ & Hc & Hd & _). done. Qed.

End properties.

(** A PEM reader for the witnesses: a body is its own certificate. *)
Module ToyPem.

#[export] Instance pem : Pem := {|
  pem_certs body := Ok (match body with [] => [] | _ => [body] end);
  pem_private_key body := Ok (Some body)
|}.

End ToyPem.

Module Demo.

Definition static_key_lines : list (list byte) := replicate 16 (replicate 32 x61).

Definition file : list byte :=
  join [x0a]
    ([str "remote vpn.example 443 tcp # the server"; str "auth-user-pass"; str "auth sha256";
      str "--verify-x509-name vpn.example name";
      str "<ca>"; str "certificate"; str "</ca>"; str "<tls-auth>"]
     ++ static_key_lines ++ [str "</tls-auth>"; str "--key-direction 1"]).

Definition configuration : OpenVpnConfig :=
  mk_config [Remote.mk (str "vpn.example") 443 Tcp] [str "certificate" ++ [x0a]] [] None
    (TlsAuth (replicate 256 xaa) Inverse Sha256) DEFAULT_CIPHERS Aes256Gcm Sha256 true
    (Some (Name (str "vpn.example"))) None 1500.

End Demo.

Lemma parsed_configuration_is_usable_witness :
  config_wf Demo.configuration ∧
  (∀ i, i ∈ file_items Demo.file → ¬ asks_for_check i ∧ server_name_read i) ∧
  server_name Demo.configuration = last_of item_server_name (file_items Demo.file).
Proof.
  exact (@parsed_configuration_is_usable ToyPem.pem Demo.file Demo.configuration ltac:(by vm_compute)).
Defined.

Lemma control_protection_ignores_order_witness :
  Some (control_auth Demo.configuration) = control_auth_of (file_items Demo.file) ∧
  digest Demo.configuration = default Sha1 (last_of item_digest (file_items Demo.file)).
Proof.
  exact (@control_protection_ignores_order ToyPem.pem Demo.file Demo.configuration ltac:(by vm_compute)).
Defined.
