(* ===== verification/Node.v ===== *)
(** * Node: the nodes a session uses

    [NodeSpec] of [engine/src/relay_path.rs] and [Socks5NodeConfig] of
    [engine/src/socks5.rs]. Opening a node is followed up to the sockets: a transport's
    own checks of its settings are here, and what it is then made of is data ([Dial],
    [DirectDial]); the answer of the network to it is the caller's. *)
From S2P Require Import Prelude Text Float64 Mtu Policy WireGuardConfig WireGuardOpen Dialer PathMtu OvpnConfig.

#[export] Existing Instance Role.t_eq_dec.

Definition KIND_WIREGUARD : list byte := str "wireguard".
Definition KIND_SOCKS5 : list byte := str "socks5".
Definition KIND_L2TP : list byte := str "l2tp".
Definition KIND_ADAPTER : list byte := str "adapter".
Definition KIND_OPENVPN : list byte := str "openvpn".

Record L2tpRuntime := mk_l2tp_runtime {
  local_address : list byte;
  virtual_address : list byte;
  server_address : list byte;
  interface_index : Z;
  runtime_mtu : Z;
  setup_latency_ms : f64;
  profile_name : list byte;
  phonebook_path : list byte
}.

Inductive NodeSpec : Type :=
| WireGuard (config : list byte) (label : option (list byte))
| Socks5 (host : list byte) (port : Z) (username password label : option (list byte))
| OpenVpn (config : list byte) (username password label : option (list byte))
| Adapter (adapter : list byte) (label : option (list byte))
| L2tp (server username password pre_shared_key : list byte) (label : option (list byte))
    (runtime : option L2tpRuntime) (dial_error : option (list byte)) (pending : bool).

(** ** SOCKS5 settings *)

Module Socks5NodeConfig.
Record t : Type := mk { host : list byte; port : Z; username : option (list byte); password : option (list byte) }.

Definition too_long (value : option (list byte)) : bool :=
  match value with Some value => 255 <? zlen value | None => false end.

Definition validate (c : t) : result (list byte) unit :=
  if bool_decide (trim (host c) = []) then Err (str "SOCKS5 node is missing a host")
  else if port c =? 0 then Err (str "SOCKS5 node port must be between 1 and 65535")
  else if too_long (username c) then Err (str "SOCKS5 username must be at most 255 bytes")
  else if too_long (password c) then Err (str "SOCKS5 password must be at most 255 bytes")
  else
    let username := default [] (username c) in
    let password := default [] (password c) in
    if negb (eqb (bool_decide (username = [])) (bool_decide (password = [])))
    then Err (str "SOCKS5 authentication needs both a username and a password")
    else Ok ().

Definition credentials (c : t) : option (list byte * list byte) :=
  match username c, password c with
  | Some username, Some password =>
      if bool_decide (username = []) || bool_decide (password = []) then None else Some (username, password)
  | _, _ => None
  end.
End Socks5NodeConfig.

(** ** Names *)

Definition kind (n : NodeSpec) : list byte :=
  match n with
  | WireGuard _ _ => KIND_WIREGUARD
  | Socks5 _ _ _ _ _ => KIND_SOCKS5
  | L2tp _ _ _ _ _ _ _ _ => KIND_L2TP
  | Adapter _ _ => KIND_ADAPTER
  | OpenVpn _ _ _ _ => KIND_OPENVPN
  end.

Definition describe (n : NodeSpec) : list byte :=
  match n with
  | WireGuard _ _ => str "WireGuard configuration"
  | Socks5 host port _ _ _ => str "SOCKS5 proxy " ++ host ++ [x3a] ++ number port
  | L2tp server _ _ _ _ _ _ _ => str "L2TP/IPsec server " ++ server
  | Adapter adapter _ => str "network adapter " ++ trim adapter
  | OpenVpn _ _ _ _ => str "OpenVPN configuration"
  end.

Definition label (n : NodeSpec) : option (list byte) :=
  match n with
  | WireGuard _ label | Socks5 _ _ _ _ label | Adapter _ label | L2tp _ _ _ _ label _ _ _ | OpenVpn _ _ _ label =>
      label ← label;
      let label := trim label in
      if bool_decide (label = []) then None else Some label
  end.

Definition default_label (n : NodeSpec) (route : Z) : list byte :=
  (match n with
   | WireGuard _ _ => str "WireGuard route "
   | Socks5 _ _ _ _ _ => str "SOCKS5 route "
   | L2tp _ _ _ _ _ _ _ _ => str "L2TP route "
   | Adapter _ _ => str "Adapter route "
   | OpenVpn _ _ _ _ => str "OpenVPN route "
   end) ++ number route.

Definition socks5_config (n : NodeSpec) : option Socks5NodeConfig.t :=
  match n with
  | Socks5 host port username password _ => Some (Socks5NodeConfig.mk host port username password)
  | _ => None
  end.

(** ** Where a node's own connection goes *)

(** [IpAddr::is_loopback]. *)
Definition is_loopback (a : IpAddr) : bool :=
  match a with
  | V4 octets => nz octets 0 =? 127
  | V6 octets => bool_decide (octets = replicate 15 x00 ++ [x01])
  end.

(** What a name is resolved from: an address with its port in one text, or apart. *)
Inductive Target : Type := Joined (text : list byte) | Apart (host : list byte) (port : Z).

Section node.
Context `{!Platform} `{!Pem} `{!Base64}.
(** The addresses of this PC's interfaces, and what a name resolves to. *)
Context (assigned : list byte → bool) (resolve : Target → list (list byte)).

Definition is_loopback_proxy (n : NodeSpec) : bool :=
  match n with
  | Socks5 host _ _ _ _ =>
      let host := trim host in
      eq_ignore_ascii_case host (str "localhost")
      || match parse_ip host with Some a => is_loopback a | None => false end
  | _ => false
  end.

Definition is_this_pc (host : list byte) : bool :=
  match parse_ipv4 (trim host) with Some a => assigned a | None => false end.

Definition exits_through_this_pc (n : NodeSpec) : bool :=
  match n with
  | Adapter _ _ => true
  | Socks5 host _ _ _ _ => is_loopback_proxy n || is_this_pc host
  | _ => false
  end.

Definition endpoint_ipv4s (n : NodeSpec) : list (list byte) :=
  let addresses :=
    match n with
    | WireGuard config _ => from_option (λ text, resolve (Joined text)) [] (configured_endpoint config)
    | Socks5 host port _ _ _ => if is_loopback_proxy n then [] else resolve (Apart (trim host) port)
    | Adapter _ _ => []
    | L2tp server _ _ _ _ runtime _ _ =>
        resolve (Apart (trim server) 0) ++ from_option (λ r, [server_address r]) [] runtime
    | OpenVpn config _ _ _ =>
        match OvpnConfig.parse config with
        | Ok parsed => remotes parsed ≫= λ remote, resolve (Apart (Remote.host remote) (Remote.port remote))
        | Err _ => []
        end
    end in
  dedup (sort_by be_Z addresses).

Definition node_tunnel_mtu (n : NodeSpec) : option Z :=
  value ← (match n with
           | WireGuard config _ => interface_mtu config
           | OpenVpn config _ _ _ =>
               match OvpnConfig.parse config with Ok parsed => Some (OvpnConfig.tun_mtu parsed) | Err _ => None end
           | _ => None
           end);
  configured_tunnel_mtu value.

(** ** Opening *)

(** What a transport is made of once its own checks have passed. *)
Inductive Dial : Type :=
| DialWireGuard (opening : Opening)
| DialSocks5 (config : Socks5NodeConfig.t)
| DialAdapter (adapter : list byte)
| DialL2tp (server username password : list byte) (runtime : L2tpRuntime)
| RedialL2tp (server username password : list byte) (runtime : L2tpRuntime) (effort : ReopenEffort)
| DialOpenVpn (config : OpenVpnConfig) (username password : option (list byte)).

Definition not_connected : list byte := str "the L2TP node has not been connected by the Windows service".

(** [open] up to the sockets: each transport checks its own settings first. What the
    network, Windows and the server make of it is not here. *)
Definition open_dial (n : NodeSpec) : result (list byte) Dial :=
  match n with
  | WireGuard config _ => opening ← read_opening config; Ok (DialWireGuard opening)
  | Socks5 _ _ _ _ _ =>
      match socks5_config n with
      | Some config => _ ← Socks5NodeConfig.validate config; Ok (DialSocks5 config)
      | None => Err (str "node is not a SOCKS5 node")
      end
  | Adapter adapter _ => Ok (DialAdapter adapter)
  | L2tp _ _ _ _ _ _ (Some error) _ => Err error
  | L2tp _ _ _ _ _ _ None true => Err (str "the Windows service is still dialling this L2TP node")
  | L2tp server username password _ _ runtime None false =>
      match runtime with Some runtime => Ok (DialL2tp server username password runtime) | None => Err not_connected end
  | OpenVpn config username password _ =>
      parsed ← configured config username; Ok (DialOpenVpn parsed username password)
  end.

Definition reopen_dial (n : NodeSpec) (effort : ReopenEffort) : result (list byte) Dial :=
  match n with
  | L2tp server username password _ _ runtime _ _ =>
      match runtime with
      | Some runtime => Ok (RedialL2tp server username password runtime effort)
      | None => Err not_connected
      end
  | _ => open_dial n
  end.

Definition supports_direct (n : NodeSpec) : bool :=
  match n with WireGuard _ _ | L2tp _ _ _ _ _ _ _ _ | OpenVpn _ _ _ _ => true | Socks5 _ _ _ _ _ | Adapter _ _ => false end.

Inductive DirectDial : Type :=
| OpenWireGuard (opening : Opening)
| OpenOpenVpn (config : OpenVpnConfig) (username password : option (list byte))
| ForwardSocks5 (config : Socks5NodeConfig.t)
| ForwardAdapter (adapter : list byte).

(** [open_direct] up to the sockets, in the process with the role [role]. *)
Definition open_direct_dial (role : Role.t) (n : NodeSpec) : result (list byte) DirectDial :=
  match n with
  | WireGuard config _ => opening ← read_opening config; Ok (OpenWireGuard opening)
  | OpenVpn config username password _ =>
      parsed ← configured config username; Ok (OpenOpenVpn parsed username password)
  | Socks5 _ _ _ _ _ =>
      if bool_decide (role = Role.Vpn) then
        match socks5_config n with
        | Some config => _ ← Socks5NodeConfig.validate config; Ok (ForwardSocks5 config)
        | None => Err (str "node is not a SOCKS5 node")
        end
      else Err (str "a SOCKS5 proxy cannot carry a direct session on its own. Use a WireGuard, OpenVPN or L2TP/IPsec node for direct mode, or set up a relay to reach this proxy through.")
  | Adapter adapter _ =>
      if bool_decide (role = Role.Vpn) then Ok (ForwardAdapter adapter)
      else Err (str "a network adapter node cannot carry a direct game session, because game traffic would have to be re-sent rather than routed. Use it in relay mode, or as a VPN node.")
  | L2tp _ _ _ _ _ _ _ _ =>
      Err (str "L2TP/IPsec direct mode is owned by the Windows routing service, not the userspace packet engine")
  end.

Definition awaits_service_dial (n : NodeSpec) : bool :=
  match n with L2tp _ _ _ _ _ _ _ pending => pending | _ => false end.

Definition with_service_dial (n : NodeSpec) (dial : result (list byte) L2tpRuntime) : NodeSpec :=
  match n with
  | L2tp server username password key label runtime dial_error _ =>
      match dial with
      | Ok dialled => L2tp server username password key label (Some dialled) dial_error false
      | Err error => L2tp server username password key label runtime (Some error) false
      end
  | _ => n
  end.

(** ** Checks *)

Definition validate (n : NodeSpec) : result (list byte) unit :=
  match n with
  | WireGuard config _ =>
      if bool_decide (trim config = []) then Err (str "WireGuard node is missing its configuration") else Ok ()
  | Socks5 _ _ _ _ _ =>
      match socks5_config n with
      | Some config => Socks5NodeConfig.validate config
      | None => Err (str "node is not a SOCKS5 node")
      end
  | Adapter adapter _ =>
      if bool_decide (trim adapter = []) then Err (str "network adapter node is missing the adapter's name") else Ok ()
  | L2tp server username password key _ runtime _ _ =>
      if bool_decide (trim server = []) then Err (str "L2TP node is missing its server")
      else if bool_decide (trim username = []) || bool_decide (password = [])
      then Err (str "L2TP node needs a username and password")
      else if bool_decide (key = []) && bool_decide (runtime = None)
      then Err (str "L2TP/IPsec node needs a pre-shared key")
      else Ok ()
  | OpenVpn config username password _ =>
      match OvpnConfig.parse config with
      | Err error => Err error
      | Ok parsed =>
          if OvpnConfig.wants_credentials parsed && bool_decide (default [] username = [])
          then Err (str "this OpenVPN configuration uses `auth-user-pass`, so it needs the username and password the provider gave you")
          else if OvpnConfig.wants_credentials parsed && bool_decide (default [] password = [])
          then Err (str "this OpenVPN node has a username but no password")
          else Ok ()
      end
  end.
End node.
