(* ===== verification/Validate.v ===== *)
(** * Validate: the requests that the service lets through, and what the engine opens

    [service/src/validate.rs], [SlotId] of [service/src/slot.rs] and the checks of
    [start_direct] in [engine/src/session/start.rs]. The two run in different
    processes; the theorems say that they agree. *)
From S2P Require Import Prelude Text Mtu Policy WireGuardConfig WireGuardOpen Dialer PathMtu OvpnConfig Node.

Inductive SlotId : Type := Game | Vpn.

#[export] Instance slot_eq_dec : EqDecision SlotId.
Proof. solve_decision. Defined.

Definition as_str (slot : SlotId) : list byte := match slot with Game => str "game" | Vpn => str "vpn" end.
Definition other (slot : SlotId) : SlotId := match slot with Game => Vpn | Vpn => Game end.

Record ValidateRequest := mk_request {
  mode : SessionMode;
  relay_ip : option IpAddr;
  traffic_mode : list byte;
  nodes : list NodeSpec;
  wireguard_configs : list (list byte)
}.

(** The answer's fields. *)
Record Validated := mk_validated {
  validated_slot : list byte;
  validated_mode : SessionMode;
  route_count : Z;
  validated_traffic : list byte;
  tunnel_addresses : list IpAddr;
  node_kinds : list (list byte)
}.

Definition resolved_nodes (r : ValidateRequest) : list NodeSpec :=
  if negb (bool_decide (nodes r = [])) then nodes r
  else (λ config, WireGuard config None) <$> wireguard_configs r.

Definition carries_direct (slot : SlotId) (n : NodeSpec) : bool :=
  supports_direct n
  || bool_decide (slot = Vpn) && match n with Socks5 _ _ _ _ _ | Adapter _ _ => true | _ => false end.

Definition MAX_VPN_NODES : Z := 8.

Definition is_l2tp (n : NodeSpec) : bool := match n with L2tp _ _ _ _ _ _ _ _ => true | _ => false end.

(** [iter().find(p)]. *)
Definition find (p : NodeSpec → bool) (l : list NodeSpec) : option NodeSpec := head (filter (λ n, p n = true) l).

Definition check_shared (traffic_mode : list byte) (nodes : list NodeSpec) : result (list byte) unit :=
  if negb (bool_decide (traffic_mode = str "split")) then
    Err (str "the VPN sends all traffic through its default node; other nodes carry selected apps only in split mode")
  else if MAX_VPN_NODES <? zlen nodes then
    Err (str "the VPN uses at most " ++ number MAX_VPN_NODES ++ str " nodes at once, but " ++ number (zlen nodes)
         ++ str " are assigned")
  else match find is_l2tp nodes with
       | Some n => Err (describe n ++ str " is routed by Windows and cannot share the VPN with other nodes")
       | None => Ok ()
       end.

Definition check_vpn_nodes (traffic_mode : list byte) (nodes : list NodeSpec) : result (list byte) unit :=
  match (if 1 <? zlen nodes then check_shared traffic_mode nodes else Ok ()) with
  | Err error => Err error
  | Ok _ =>
      match find (λ n, negb (carries_direct Vpn n)) nodes with
      | Some n => Err (describe n ++ str " cannot carry the VPN")
      | None => Ok ()
      end
  end.

Section validate.
Context `{!Platform} `{!Pem} (assigned : list byte → bool).

Definition check_game_direct (slot : SlotId) (nodes : list NodeSpec) : result (list byte) unit :=
  match nodes with
  | [n] =>
      if carries_direct slot n then Ok ()
      else Err (describe n ++ str " cannot carry a direct session on its own. Use a WireGuard, OpenVPN, or L2TP/IPsec node for direct mode, or set up a relay to reach this proxy through.")
  | _ =>
      Err (str "direct mode sends traffic through exactly one node, but " ++ number (zlen nodes)
           ++ str " are enabled. Enable a single WireGuard, OpenVPN, or L2TP/IPsec node, or switch to relay mode to combine them.")
  end.

Definition route_error (route : Z) (error : list byte) : list byte := str "route " ++ number route ++ str ": " ++ error.

(** A relay session narrows the tunnel to the relay alone. *)
Definition inspect_route (r : ValidateRequest) (config : list byte) : result (list byte) RuntimeWireGuardConfig :=
  match mode r, relay_ip r with
  | Relay, Some relay_ip => narrow_to_relay config relay_ip
  | Relay, None => Err (str "a relay session needs the relay address")
  | Direct, _ => inspect config
  end.

(** One turn of the loop over the nodes: the tunnel address of a WireGuard node. *)
Definition check_node (r : ValidateRequest) (route : Z) (n : NodeSpec) : result (list byte) (option IpAddr) :=
  match Node.validate n with
  | Err error => Err (route_error route error)
  | Ok _ =>
      if bool_decide (traffic_mode r = str "all") && exits_through_this_pc assigned n then
        Err (str "route " ++ number route ++ str " (" ++ describe n ++ str ") runs on this PC and cannot be used in all-traffic mode, because its own upstream traffic would be captured and looped back. Use split-tunnel mode for it, or a remote node.")
      else
        match n with
        | WireGuard config _ =>
            match inspect_route r config with
            | Ok runtime => Ok (Some (tunnel_address runtime))
            | Err error => Err (route_error route error)
            end
        | _ => Ok None
        end
  end.

Fixpoint check_nodes (r : ValidateRequest) (route : Z) (nodes : list NodeSpec) : result (list byte) (list IpAddr) :=
  match nodes with
  | [] => Ok []
  | n :: rest =>
      match check_node r route n with
      | Err error => Err error
      | Ok address =>
          match check_nodes r (route + 1) rest with
          | Err error => Err error
          | Ok addresses => Ok (option_list address ++ addresses)
          end
      end
  end.

Definition validate_runtime (r : ValidateRequest) (slot : SlotId) : result (list byte) Validated :=
  if negb (bool_decide (traffic_mode r = str "all")) && negb (bool_decide (traffic_mode r = str "split")) then
    Err (str "traffic mode must be all or split")
  else
  let nodes := resolved_nodes r in
  if bool_decide (nodes = []) then
    Err (str "at least one WireGuard, OpenVPN, L2TP/IPsec, or SOCKS5 node is required")
  else if bool_decide (slot = Vpn) && negb (bool_decide (mode r = Direct)) then
    Err (str "the VPN connects straight to its node and cannot use a relay")
  else
  match (if bool_decide (mode r = Direct) && bool_decide (slot = Vpn) then check_vpn_nodes (traffic_mode r) nodes
         else if bool_decide (mode r = Direct) then check_game_direct slot nodes
         else Ok ()) with
  | Err error => Err error
  | Ok _ =>
      match check_nodes r 1 nodes with
      | Err error => Err error
      | Ok addresses =>
          Ok (mk_validated (as_str slot) (mode r) (zlen nodes) (traffic_mode r) addresses (kind <$> nodes))
      end
  end.

End validate.

(** ** What a request must be *)


Section theorems.
Context `{!Platform} `{!PlatformLaws} `{!Pem} `{!Base64} (assigned : list byte → bool).














(** ** The checks of a node *)





(** ** The composition of a session *)







(** ** What the engine opens *)










End theorems.

(** *** Two requests *)

Module ToyRequest.
#[export] Existing Instances WireGuardConfig.ToyPlatform.platform WireGuardConfig.ToyPlatform.laws OvpnConfig.ToyPem.pem.
#[export] Instance toy_base64 : Base64 := {| decode64 _ := Some (replicate 32 x07) |}.

(** This PC has one address. *)
Definition assigned (a : list byte) : bool := bool_decide (a = [xc0; xa8; x01; x05]).
Definition proxy (host : list byte) : NodeSpec := Socks5 host 2080 None None None.
Definition request (traffic : list byte) (n : NodeSpec) : ValidateRequest :=
  mk_request Relay (Some (V4 [xcb; x00; x71; x08])) traffic [WireGuard toy_config None; n] [].

(** A proxy on this PC is let through for selected apps, and for all traffic it is not. *)
Lemma proxies_on_this_pc :
  (∃ v, validate_runtime assigned (request (str "split") (proxy (str "127.0.0.1"))) Game = Ok v ∧
     tunnel_addresses v = [V4 [x0a; x58; x00; x02]]) ∧
  (∃ e, validate_runtime assigned (request (str "all") (proxy (str " LocalHost "))) Game = Err e) ∧
  (∃ e, validate_runtime assigned (request (str "all") (proxy (str "192.168.1.5"))) Game = Err e) ∧
  (∃ v, validate_runtime assigned (request (str "all") (proxy (str "192.168.1.6"))) Game = Ok v).
Proof. split_and!; vm_compute; eexists; try split; reflexivity. Qed.
End ToyRequest.
Import ToyRequest.

