(* ===== verification/Join.v ===== *)
(** * Join: the routes a relay session starts with, and those that join it

    [engine/src/session/join.rs] and the route half of [start_relay] in
    [engine/src/session/start.rs]: what is made of the outcome of each dial, the
    addresses kept outside the capture, and the worker that waits for its route's dial
    and passes the gate. *)
From S2P Require Import Prelude Text Float64 Mtu Policy WireGuardConfig Dialer PathMtu OvpnConfig Node.
From S2P Require Import Scheduler Health Uplink Diagnostics LocalTap Threads Session RelayWorker.

(** The rest of the trait [RelayPath]: who a path is, and what it travels in. *)
Inductive PathIdentity : Type :=
| WireGuardIdentity (endpoint fingerprint : list byte)
| Socks5Identity (proxy : list byte)
| L2tpIdentity (server : list byte)
| AdapterIdentity (name : list byte)
| OpenVpnIdentity (endpoint fingerprint : list byte).

#[export] Instance identity_eq_dec : EqDecision PathIdentity.
Proof. solve_decision. Defined.

Class RoutePath (T : Type) : Type := {
  identity : T → PathIdentity;
  transport_kind : T → list byte;
  carried_by_stream : T → bool
}.

Definition JOIN_POLL : Z := ms 20.
Definition JOIN_ATTEMPTS : Z := 5.
Definition JOIN_RETRY_STEP : Z := secs 1.
Definition START_RETRY_WINDOW : Z := secs 10.

Definition retry_delay (failed : Z) : Z := JOIN_RETRY_STEP * 2 ^ Z.min (sat_sub failed 1) 4.

Definition retrying_note (attempt : Z) (error : list byte) : list byte :=
  str "attempt " ++ number attempt ++ str " of " ++ number JOIN_ATTEMPTS ++ str " failed: " ++ error ++ str "; retrying".

Record SkippedRoute := mk_skipped { skipped_route : Z; skipped_label : list byte; skipped_reason : list byte }.

Record Joined (T : Type) := mk_joined { joined_path : T; joined_node : NodeSpec }.
Arguments mk_joined {T} joined_path joined_node.
Arguments joined_path {T} j.
Arguments joined_node {T} j.

Inductive DialUpdate (T : Type) : Type :=
| Retrying (attempt : Z) (error : list byte)
| Finished_ (outcome : result (list byte) (Joined T)).
Arguments Retrying {T} attempt error.
Arguments Finished_ {T} outcome.

(** The updates of a dial that its receiver has not read, and whether the dial's
    thread still holds the sender. *)
Record Line (T : Type) := mk_line { updates : list (DialUpdate T); dialling : bool }.
Arguments mk_line {T} updates dialling.
Arguments updates {T} l.
Arguments dialling {T} l.

Inductive Heard (T : Type) : Type := Update (u : DialUpdate T) | Silence | HungUp.
Arguments Update {T} u.
Arguments Silence {T}.
Arguments HungUp {T}.

(** [try_recv], and [recv_timeout] at its deadline. *)
Definition hear {T} (l : Line T) : Heard T * Line T :=
  match updates l with
  | u :: rest => (Update u, mk_line rest (dialling l))
  | [] => (if dialling l then Silence else HungUp, l)
  end.

(** ** The start of a session *)

Inductive RouteStart (T : Type) : Type :=
| Open (joined : Joined T)
| Failed (reason : list byte)
| Joining (line : Line T).
Arguments Open {T} joined.
Arguments Failed {T} reason.
Arguments Joining {T} line.

Record DialledRoute (T : Type) := mk_dialled {
  dialled_index : Z;
  dialled_endpoints : list (list byte);
  dialled_retrying : option (list byte);
  start : RouteStart T
}.
Arguments mk_dialled {T} dialled_index dialled_endpoints dialled_retrying start.
Arguments dialled_index {T} d.
Arguments dialled_endpoints {T} d.
Arguments dialled_retrying {T} d.
Arguments start {T} d.

Inductive RouteTransport (T : Type) : Type := OpenTransport (path : T) | JoiningTransport (line : Line T).
Arguments OpenTransport {T} path.
Arguments JoiningTransport {T} line.

Record SessionRoute (T : Type) := mk_session_route {
  route_number : Z;
  route_label : list byte;
  route_node : NodeSpec;
  transport : RouteTransport T;
  route_endpoints : list (list byte);
  route_retrying : option (list byte)
}.
Arguments mk_session_route {T} route_number route_label route_node transport route_endpoints route_retrying.
Arguments route_number {T} s.
Arguments route_label {T} s.
Arguments route_node {T} s.
Arguments transport {T} s.
Arguments route_endpoints {T} s.
Arguments route_retrying {T} s.

Definition same_endpoint_reason : list byte := str "another enabled route already uses this endpoint and key".

Section start.
Context {T : Type} `{!RelayPath T} `{!RoutePath T}.
Implicit Types (r : SessionRoute T) (d : DialledRoute T).

Definition open_path r : option T :=
  match transport r with OpenTransport p => Some p | JoiningTransport _ => None end.
Definition is_open r : bool := bool_decide (is_Some (open_path r)).
Definition route_kind r : list byte := from_option transport_kind (kind (route_node r)) (open_path r).

(** The outer address a route's traffic leaves by: the one it opened on, or each one
    it may open on. *)
Definition link_endpoints r : list (list byte) :=
  match open_path r with Some p => option_list (bypass_ipv4 p) | None => route_endpoints r end.

(** A stream-carried path never sends a datagram that the link has to fit. *)
Definition measured_endpoints r : list (list byte) :=
  match open_path r with
  | Some p => if carried_by_stream p then [] else link_endpoints r
  | None => link_endpoints r
  end.

Definition joining_note r : list byte :=
  match route_retrying r with
  | Some note => note
  | None =>
      if awaits_service_dial (route_node r)
      then str "Windows is still connecting L2TP/IPsec; joins the session when it is up"
      else str "still connecting; joins the session when it opens"
  end.

Definition set_joining (st : PathSessionStatus) (joining : bool) (endpoint : list byte) (error : option (list byte))
    : PathSessionStatus :=
  mk_status (Health.route st) (path_kind st) (Health.label st) endpoint (reachable st) (return_path_selection st) joining
    (status_latency_ms st) (handshake_ms st) (handshake_round_trips st) (packets_sent st) (packets_received st)
    (bytes_sent st) (bytes_received st) (probes_sent st) (probes_received st) (probes_lost st) (loss_percent st) error.

Definition route_status r : PathSessionStatus :=
  match open_path r with
  | Some p => initial_status (route_number r) (transport_kind p) (route_label r) (path_endpoint p)
  | None =>
      let status := initial_status (route_number r) (kind (route_node r)) (route_label r) (describe (route_node r)) in
      set_joining status true (Health.endpoint status) (Some (joining_note r))
  end.

(** The user's name for a route, the client's, or a default. *)
Definition label_of (route_labels : list (list byte)) (n : NodeSpec) (index : Z) : list byte :=
  match Node.label n with
  | Some label => label
  | None =>
      match trim <$> get route_labels index with
      | Some label => if bool_decide (label = []) then default_label n (index + 1) else label
      | None => default_label n (index + 1)
      end
  end.

(** The locals of [start_relay] while the dials' outcomes are gone through. *)
Record Starting := mk_starting {
  routes : list (SessionRoute T);
  skipped_routes : list SkippedRoute;
  claimed : list PathIdentity
}.

Definition skip_route (s : Starting) (index : Z) (n : NodeSpec) (reason : list byte) : Starting :=
  mk_starting (routes s) (skipped_routes s ++ [mk_skipped (index + 1) (describe n) reason]) (claimed s).
Definition add_route (s : Starting) (r : SessionRoute T) (claimed : list PathIdentity) : Starting :=
  mk_starting (routes s ++ [r]) (skipped_routes s) claimed.

Definition take_dialled (nodes : list NodeSpec) (route_labels : list (list byte)) (s : Starting) d : run Starting :=
  n ← idx nodes (dialled_index d);
  let index := dialled_index d in
  let label := label_of route_labels n index in
  match start d with
  | Failed reason => Ret (skip_route s index n reason)
  | Open joined =>
      let id := identity (joined_path joined) in
      if bool_decide (id ∈ claimed s) then Ret (skip_route s index n same_endpoint_reason)
      else Ret (add_route s (mk_session_route (index + 1) label (joined_node joined) (OpenTransport (joined_path joined))
                               (dialled_endpoints d) (dialled_retrying d)) (claimed s ++ [id]))
  | Joining line =>
      Ret (add_route s (mk_session_route (index + 1) label n (JoiningTransport line) (dialled_endpoints d)
                          (dialled_retrying d)) (claimed s))
  end.

Fixpoint take_all (nodes : list NodeSpec) (route_labels : list (list byte)) (l : list (DialledRoute T)) (s : Starting)
    : run Starting :=
  match l with
  | [] => Ret s
  | d :: rest => s ← take_dialled nodes route_labels s d; take_all nodes route_labels rest s
  end.

Definition reason_line (number_ : Z) (label reason : list byte) : list byte :=
  str "route " ++ number number_ ++ str " (" ++ label ++ str "): " ++ reason.

Fixpoint join_semicolon (parts : list (list byte)) : list byte :=
  match parts with
  | [] => []
  | [part] => part
  | part :: rest => part ++ str "; " ++ join_semicolon rest
  end.

Definition nothing_open (s : Starting) : list byte :=
  str "no route could be opened: " ++
  join_semicolon
    (((λ k, reason_line (skipped_route k) (skipped_label k) (skipped_reason k)) <$> skipped_routes s)
     ++ ((λ r, reason_line (route_number r) (route_label r) (default (str "still connecting") (route_retrying r)))
         <$> routes s)).

(** Every address a route may dial, not only the one it opened on. *)
Definition bypass_addresses (relay_ip : list byte) (l : list (SessionRoute T)) : list (list byte) :=
  dedup (sort_by be_Z (relay_ip :: (l ≫= λ r, link_endpoints r ++ route_endpoints r))).

(** The routes that are open, as bits; a joining one has nothing to carry with. *)
Definition open_mask (l : list (SessionRoute T)) : Z :=
  foldl (λ mask ir, if is_open ir.2 then Z.lor mask (if ir.1 <? 64 then Z.shiftl 1 ir.1 else 0) else mask) 0
    (zip (seqZ 0 (zlen l)) l).

(** What a relay session starts on: the routes, the gate that the others pass, and the
    first selection. *)
Record RelayStart := mk_relay_start {
  session_routes : list (SessionRoute T);
  start_skipped : list SkippedRoute;
  start_identities : list PathIdentity;
  bypass_ips : list (list byte);
  initial_mask : Z
}.

Definition start_routes (nodes : list NodeSpec) (route_labels : list (list byte)) (relay_ip : list byte)
    (strategy : Strategy) (dialled : list (DialledRoute T)) : run (result (list byte) RelayStart) :=
  s ← take_all nodes route_labels dialled (mk_starting [] [] []);
  if negb (existsb is_open (routes s)) then Ret (Err (nothing_open s))
  else Ret (Ok (mk_relay_start (routes s) (skipped_routes s) (claimed s) (bypass_addresses relay_ip (routes s))
                  (initial_selection (open_mask (routes s)) strategy))).
End start.

(** ** Joining a running session *)

(** The session, the channels its joining workers listen to, and its gate. [entered] is
    the record of the transports that routes began with: those the session opened with
    and, in order, each that a joining worker went on with. What a worker replaces its
    transport with later is not recorded. *)
Record Lobby (T L : Type) := mk_lobby {
  session : Shared T L;
  lines : list (Line T);
  identities : list PathIdentity;
  gate_skipped : list SkippedRoute;
  entered : list T
}.
Arguments mk_lobby {T L} session lines identities gate_skipped entered.
Arguments session {T L} l.
Arguments lines {T L} l.
Arguments identities {T L} l.
Arguments gate_skipped {T L} l.
Arguments entered {T L} l.

Inductive JoinOutcome (T : Type) : Type :=
| StillWaiting
| NotJoining
| JoinedWith (joined : Joined T).
Arguments StillWaiting {T}.
Arguments NotJoining {T}.
Arguments JoinedWith {T} joined.

Section join.
Context {T L : Type} `{!RelayPath T} `{!RoutePath T}.
Context (bypass : list (list byte)).
Notation outer := (prog (Lobby T L)).

Definition with_session (l : Lobby T L) (s : Shared T L) : Lobby T L :=
  mk_lobby s (lines l) (identities l) (gate_skipped l) (entered l).
Definition in_session {A} (m : prog (Shared T L) A) : outer A := zoom session with_session m.

Definition outside_reason (address : list byte) : list byte :=
  str "it resolved to " ++ dotted address
  ++ str ", which the session did not route around the tunnel; it joins the next session".

(** What the lock on the identities is held for. *)
Definition register_identity (p : T) : outer (result (list byte) unit) :=
  act (λ l, Ret (if bool_decide (identity p ∈ identities l) then (Err same_endpoint_reason, l)
                 else (Ok (), mk_lobby (session l) (lines l) (identities l ++ [identity p]) (gate_skipped l)
                                (entered l)))).

(** [JoinGate]'s check. *)
Definition admit_path (p : T) : outer (result (list byte) unit) :=
  match bypass_ipv4 p with
  | Some address =>
      if bool_decide (address ∈ bypass) then register_identity p else mret (Err (outside_reason address))
  | None => register_identity p
  end.

Definition listen (index : nat) : outer (Heard T) :=
  act (λ l, match lines l !! index with
            | None => Panic
            | Some line =>
                let '(heard, line) := hear line in
                Ret (heard, mk_lobby (session l) (<[index := line]> (lines l)) (identities l) (gate_skipped l) (entered l))
            end).

(** What the lock on the statuses is held for once the dial is over. *)
Definition settle_join (index : nat) (joined : result (list byte) (Joined T)) : outer (JoinOutcome T) :=
  act (λ l,
    match statuses (session l) !! index with
    | None => Panic
    | Some status =>
        let put status skipped :=
          mk_lobby (with_statuses (session l) (<[index := status]> (statuses (session l)))) (lines l) (identities l)
            skipped (entered l) in
        Ret match joined with
            | Ok joined =>
                (JoinedWith joined,
                 put (set_joining status false (path_endpoint (joined_path joined)) (Some (str "joined; waiting for a probe")))
                     (gate_skipped l))
            | Err reason =>
                (NotJoining,
                 put (set_joining status false (Health.endpoint status) (Some reason))
                     (gate_skipped l ++ [mk_skipped (Health.route status) (Health.label status) reason]))
            end
    end).

Definition finish_dial (index : nat) (outcome : result (list byte) (Joined T)) : outer (JoinOutcome T) :=
  admitted ← (match outcome with
              | Err reason => mret (Err reason)
              | Ok joined => passed ← admit_path (joined_path joined);
                             mret (match passed with Ok _ => Ok joined | Err reason => Err reason end)
              end);
  settle_join index admitted.

(** Nothing is dispatched to a route that has not joined, but what is leaves its queue. *)
Definition shed_waiting (index : nat) : outer unit :=
  in_session (drain_send_queue (Some 0) index (λ _ u, mret (0, Ok (), u)) (λ _ _, mret ()) ()).

Fixpoint await_join (turns : nat) (index : nat) : outer (JoinOutcome T) :=
  match turns with
  | O => mret StillWaiting
  | S turns' =>
      stopped ← load (λ l, Session.stop (session l));
      if stopped : bool then mret NotJoining else
      _ ← shed_waiting index;
      heard ← listen index;
      match heard with
      | Update (Retrying attempt error) =>
          _ ← in_session (update_status index (λ st, set_error st (retrying_note attempt error)));
          await_join turns' index
      | Update (Finished_ outcome) => finish_dial index outcome
      | Silence => await_join turns' index
      | HungUp => mret NotJoining
      end
  end.

(** A path worker that starts without a transport. *)
Definition join_worker (turns : nat) (index : nat) : outer unit :=
  outcome ← await_join turns index;
  match outcome with
  | JoinedWith joined =>
      store (λ l, mk_lobby (session l) (lines l) (identities l) (gate_skipped l) (entered l ++ [joined_path joined]))
  | _ => mret ()
  end.
End join.

(** ** The session as the workers find it *)

(** The channel that a route's worker listens to; the one of an open route never had a
    sender. *)
Definition line_of {T} (r : SessionRoute T) : Line T :=
  match transport r with JoiningTransport line => line | OpenTransport _ => mk_line [] false end.

Definition open_lobby {T L} `{!RelayPath T} `{!RoutePath T} (client_id : list byte) (session_id : Z)
    (derived : EffectiveMtu) (at_instant : Z) (rs : @RelayStart T) : Lobby T L :=
  mk_lobby
    (start_session client_id session_id (initial_mask rs) derived (route_status <$> session_routes rs) at_instant)
    (line_of <$> session_routes rs) (start_identities rs) (start_skipped rs) (omap open_path (session_routes rs)).
