(* ===== verification/JoinTheorems.v ===== *)
(** * JoinTheorems: who enters a session

    The routes that [start_routes] begins with and the ones that [join_worker] adds to
    them, whatever runs between the steps of the workers: none begins with the identity
    of another, and every one begins on an address kept out of the capture. *)
From S2P Require Import Prelude Text Float64 Mtu WireGuardConfig Dialer OvpnConfig Node.
From S2P Require Import Scheduler Health Uplink Diagnostics LocalTap Threads Session RelayWorker Join.

(** ** A call on a part of the state

    [safe inner m]: [m] panics nowhere and keeps [inner], at each of its steps. *)
Definition safe {S A} (inner : S → Prop) (m : prog S A) : Prop :=
  wp (λ s (_ : list Empty_set), inner s) (λ _, True) m [] (λ _ _, True).

Lemma safe_bind {S A B} (inner : S → Prop) (m : prog S A) (f : A → prog S B) :
  safe inner m → (∀ a, safe inner (f a)) → safe inner (m ≫= f).
Proof.
  intros Hm Hf. eapply wp_seq; [exact Hm|]. intros a r _. destruct r as [|[]]. apply Hf.
Qed.

Lemma safe_act {S X} (inner : S → Prop) (op : S → run (X * S)) :
  (∀ s, inner s → match op s with Panic => False | Ret (_, s') => inner s' end) → safe inner (act op).
Proof.
  intros Hop s others Hs. specialize (Hop s Hs). destruct (op s) as [[x s']|]; [|done]. by exists [].
Qed.

Lemma wp_zoom {S R A Token} (inner : S → Prop) (inv : R → list Token → Prop) (share : list Token → Prop)
    (get : R → S) (set : R → S → R) (m : prog S A) r :
  share r → (∀ x l, inv x l → inner (get x)) → (∀ x l s, inv x l → inner s → inv (set x s) l) →
  safe inner m → wp inv share (zoom get set m) r (λ _ r', r' = r).
Proof.
  intros Hr Hget Hset Hm. unfold safe in Hm. revert Hm. generalize (@nil Empty_set).
  induction m as [a|X op k IH]; intros toks Hm; [done|]. intros x others Hi.
  specialize (Hm (get x) [] (Hget _ _ Hi)). destruct (op (get x)) as [[y s']|]; [|done].
  destruct Hm as (toks' & _ & Hs & Hk). exists r. split; [done|]. split; [by eapply Hset|]. by apply (IH y toks').
Qed.

(** ** The start *)

Section start.
Context {T : Type} `{!RelayPath T} `{!RoutePath T}.
Implicit Types (r : SessionRoute T) (d : DialledRoute T) (s : @Starting T).

Definition opened (l : list (SessionRoute T)) : list T := omap open_path l.

Definition claims (ids : list PathIdentity) d : Prop :=
  match start d with Open joined => identity (joined_path joined) ∈ ids | _ => True end.

(** What the loop over the dials keeps: who is open is who is claimed, once each, and
    every dial is accounted for. *)
Definition started (taken : list (DialledRoute T)) s : Prop :=
  claimed s = identity <$> opened (routes s) ∧ NoDup (claimed s) ∧ Forall (claims (claimed s)) taken ∧
  (route_number <$> routes s) ++ (skipped_route <$> skipped_routes s) ≡ₚ (λ d, dialled_index d + 1) <$> taken.

Lemma started_skip taken s d n reason :
  started taken s → claims (claimed s) d → started (taken ++ [d]) (skip_route s (dialled_index d) n reason).
Proof.
  intros (Hc & Hn & Ht & Hp) Hd. split_and!; [done..| |]; [by apply Forall_app; split; [|constructor]|]. cbn [skip_route routes skipped_routes].
  rewrite !fmap_app, app_assoc, Hp. done.
Qed.

Lemma started_add taken s d r ids :
  started taken s → route_number r = dialled_index d + 1 →
  ids = claimed s ++ (identity <$> option_list (open_path r)) →
  NoDup ids → claims ids d → started (taken ++ [d]) (add_route s r ids).
Proof.
  intros (Hc & Hn & Ht & Hp) Hr -> Hi Hd. split_and!; cbn [add_route routes skipped_routes claimed]; [|done| |].
  - unfold opened. rewrite omap_app, fmap_app, Hc. f_equal.
  - apply Forall_app. split; [|by constructor]. eapply Forall_impl; [exact Ht|]. intros d' Hd'. unfold claims in *.
    destruct (start d'); [|done..]. apply elem_of_app. by left.
  - rewrite !fmap_app. cbn [fmap list_fmap]. rewrite <-Hp, <-Hr, <-!app_assoc. apply Permutation_app_head.
    apply Permutation_app_comm.
Qed.

Lemma take_dialled_started nodes labels taken s d :
  0 <= dialled_index d < zlen nodes → started taken s →
  ∃ s', take_dialled nodes labels s d = Ret s' ∧ started (taken ++ [d]) s'.
Proof.
  intros Hi Hs. unfold take_dialled. destruct (idx_in nodes (dialled_index d) Hi) as (n & _ & ->). cbn [mbind run_bind].
  destruct (start d) as [joined|reason|line] eqn:Ed; [case_bool_decide as Hid|..]; eexists; (split; [done|]).
  - apply started_skip; [done|]. unfold claims. by rewrite Ed.
  - eapply started_add; [done..| |].
    + destruct Hs as (_ & Hn & _). apply NoDup_app. split; [done|]. split; [|apply NoDup_singleton].
      by intros x Hx ->%list_elem_of_singleton.
    + unfold claims. rewrite Ed. apply elem_of_app. right. by left.
  - apply started_skip; [done|]. unfold claims. by rewrite Ed.
  - eapply started_add; [done|done| | |].
    + cbn. by rewrite app_nil_r.
    + by destruct Hs as (_ & Hn & _).
    + unfold claims. by rewrite Ed.
Qed.

Lemma take_all_started nodes labels l taken s :
  Forall (λ d, 0 <= dialled_index d < zlen nodes) l → started taken s →
  ∃ s', take_all nodes labels l s = Ret s' ∧ started (taken ++ l) s'.
Proof.
  intros Hl. revert taken s. induction Hl as [|d l Hd Hl IH]; intros taken s Hs; cbn [take_all].
  { exists s. by rewrite app_nil_r. }
  destruct (take_dialled_started nodes labels taken s d Hd Hs) as (s1 & -> & Hs1). cbn [mbind run_bind].
  rewrite cons_middle, app_assoc. by apply IH.
Qed.

Lemma started_first : started [] (mk_starting [] [] []).
Proof. split_and!; by constructor. Qed.

Lemma opened_none l : existsb is_open l = false → opened l = [].
Proof.
  induction l as [|r l IH]; [done|]. cbn. unfold is_open. destruct (open_path r); [done|]. apply IH.
Qed.

Lemma opened_some l : existsb is_open l = true → opened l ≠ [].
Proof.
  induction l as [|r l IH]; [done|]. cbn. unfold is_open at 1. by destruct (open_path r); [|apply IH].
Qed.

Lemma bypass_addresses_open relay_ip l p address :
  p ∈ opened l → bypass_ipv4 p = Some address → address ∈ bypass_addresses relay_ip l.
Proof.
  intros Hp Ha. unfold bypass_addresses. rewrite PathMtu.dedup_elem, sort_by_perm. apply elem_of_cons. right.
  unfold opened in Hp. apply list_elem_of_omap in Hp as (r & Hr & Ep). apply list_elem_of_bind. exists r. split; [|done].
  apply elem_of_app. left. unfold link_endpoints. rewrite Ep, Ha. by left.
Qed.
End start.

(** ** The sessions that the workers keep *)

Section joins.
Context {T L : Type} `{!RelayPath T} `{!RoutePath T}.
Context (bypass : list (list byte)) (routes : nat).
Implicit Types (l : Lobby T L) (p : T) (s : Shared T L).

(** A row of each table for every route. *)
Definition rows s : Prop := length (statuses s) = routes ∧ length (commands s) = routes.
Definition fits l : Prop := rows (session l) ∧ length (lines l) = routes.

Definition bypassed p : Prop := ∀ address, bypass_ipv4 p = Some address → address ∈ bypass.

(** The gate knows the transports that entered and those admitted, whose workers have
    not gone on yet: the tokens. *)
Definition guarded l (admitted : list T) : Prop :=
  fits l ∧ identities l ≡ₚ identity <$> (entered l ++ admitted) ∧ NoDup (identities l) ∧
  Forall bypassed (entered l ++ admitted).

Notation wp := (wp guarded (λ _, True)).

Lemma guarded_perm l admitted admitted' : admitted ≡ₚ admitted' → guarded l admitted → guarded l admitted'.
Proof. intros Hp (Hf & Hi & Hn & Hb). split_and!; [done|by rewrite <-Hp|done|by rewrite <-Hp]. Qed.

Lemma safe_update_status index f : (index < routes)%nat → safe rows (RelayWorker.update_status index f).
Proof.
  intros Hi. apply safe_act. intros s [Hs Hc]. destruct (lookup_lt_is_Some_2 (statuses s) index) as [st ->]; [lia|].
  split; [|done]. cbn. by rewrite length_insert.
Qed.

Lemma safe_try_recv index : (index < routes)%nat → safe rows (try_recv_command index).
Proof.
  intros Hi. apply safe_act. intros s [Hs Hc]. destruct (lookup_lt_is_Some_2 (commands s) index) as [q ->]; [lia|].
  destruct (waiting q); [done|]. split; [done|]. cbn. by rewrite length_insert.
Qed.

Lemma safe_count_add c index n : safe rows (count_add c index n).
Proof. by apply safe_act. Qed.

Lemma safe_drain {W} max_age index send record (w : W) :
  (index < routes)%nat → (∀ f w, safe rows (send f w)) → (∀ n o, safe rows (record n o)) →
  safe rows (drain_send_queue max_age index send record w).
Proof.
  intros Hi Hsend Hrecord. unfold drain_send_queue. generalize PATH_SEND_BATCH. intros batch. revert w.
  induction batch as [|batch IH]; intros w; [done|]. cbn [drain_loop]. apply safe_bind; [|by intros [[] ?]; [apply IH|]].
  unfold drain_one. apply safe_bind; [by apply safe_try_recv|]. intros [command|]; [|done].
  apply safe_bind; [apply safe_count_add|]. intros _. apply safe_bind; [by apply safe_act|]. intros at_instant.
  destruct (match max_age with Some _ => _ | None => _ end).
  - do 2 (apply safe_bind; [apply safe_count_add|]; intros _). done.
  - apply safe_bind; [apply Hsend|]. intros [[length outcome] w']. apply safe_bind; [apply Hrecord|]. done.
Qed.

Lemma wp_in_session {A} (m : prog (Shared T L) A) admitted (Q : A → list T → Prop) :
  safe rows m → (∀ a, Q a admitted) → wp (in_session m) admitted Q.
Proof.
  intros Hm HQ. eapply wp_mono; [apply (wp_zoom rows); [done| | |exact Hm]|].
  - by intros l ad [[? ?] _].
  - intros l ad s ((_ & Hl) & Hr) Hs. split; [by split|done].
  - intros a r ->. apply HQ.
Qed.

Lemma wp_register p (Q : result (list byte) unit → list T → Prop) :
  bypassed p → Q (Ok ()) [p] → Q (Err same_endpoint_reason) [] →
  wp (register_identity p) [] Q.
Proof.
  intros Hb Hok Herr l others Hg. case_bool_decide as Hid; [by exists []|]. exists [p]. split; [done|].
  split; [|done]. destruct Hg as (Hf & Hi & Hn & Ho). split_and!; [done| | |]; cbn [identities entered app].
  - rewrite Hi. cbn [app]. rewrite !fmap_app. cbn [fmap list_fmap]. rewrite <-app_assoc. apply Permutation_app_head.
    apply Permutation_app_comm.
  - apply NoDup_app. split; [done|]. split; [|apply NoDup_singleton]. by intros x Hx ->%list_elem_of_singleton.
  - cbn [app] in Ho. apply Forall_app in Ho as [? ?]. apply Forall_app. split; [done|]. by constructor.
Qed.

Lemma wp_admit_path p (Q : result (list byte) unit → list T → Prop) :
  Q (Ok ()) [p] → (∀ reason, Q (Err reason) []) → wp (admit_path bypass p) [] Q.
Proof.
  intros Hok Herr. unfold admit_path. destruct (bypass_ipv4 p) as [address|] eqn:Ea.
  - case_bool_decide as Hin; [|apply Herr]. apply wp_register; [|done..]. intros a Ha. congruence.
  - apply wp_register; [|done..]. intros a Ha. congruence.
Qed.

Lemma wp_settle_join index joined admitted :
  (index < routes)%nat →
  wp (settle_join index joined) admitted
    (λ o r, r = admitted ∧ o = match joined with Ok j => JoinedWith j | Err _ => NotJoining end).
Proof.
  intros Hi l others Hg. pose proof Hg as (((Hs & Hc) & Hl) & Hr).
  destruct (lookup_lt_is_Some_2 (statuses (session l)) index) as [st ->]; [lia|].
  destruct joined; (exists admitted; split; [done|]; split; [|done]; split; [|done]; split; [|done]; split; [|done];
    cbn; by rewrite length_insert).
Qed.

Lemma wp_listen index admitted (Q : Heard T → list T → Prop) :
  (index < routes)%nat → (∀ h, Q h admitted) → wp (listen index) admitted Q.
Proof.
  intros Hi HQ l others Hg. pose proof Hg as ((Hs & Hl) & Hr).
  destruct (lookup_lt_is_Some_2 (lines l) index) as [line ->]; [lia|]. destruct (hear line) as [heard line'].
  exists admitted. split; [done|]. split; [|apply HQ]. split; [|done]. split; [done|]. cbn. by rewrite length_insert.
Qed.

(** A worker that goes on holds its path admitted; one that does not holds nothing. *)
Definition outcome_held (o : JoinOutcome T) (admitted : list T) : Prop :=
  admitted = match o with JoinedWith j => [joined_path j] | _ => [] end.

Lemma wp_finish_dial index outcome :
  (index < routes)%nat → wp (finish_dial bypass index outcome) [] outcome_held.
Proof.
  intros Hi. unfold finish_dial.
  eapply (wp_seq _ _ _ _ _ (λ a r, r = match a with Ok j => [joined_path j] | Err _ => [] end)).
  - destruct outcome as [joined|reason]; [|done]. apply wp_bind, wp_admit_path; done.
  - intros a r ->. eapply wp_mono; [by apply wp_settle_join|]. intros o r [-> ->]. by destruct a.
Qed.

Lemma wp_await_join turns index : (index < routes)%nat → wp (await_join bypass turns index) [] outcome_held.
Proof.
  intros Hi. induction turns as [|turns IH]; [done|]. cbn [await_join]. apply wp_bind, wp_load; [done|].
  intros l others _. destruct (Session.stop (session l)); [done|].
  apply wp_bind, wp_in_session; [by apply safe_drain|]. intros _. apply wp_bind, wp_listen; [done|].
  intros [[attempt error|outcome]| |]; [|by apply wp_finish_dial|done..].
  apply wp_bind, wp_in_session; [by apply safe_update_status|]. by intros _.
Qed.

Lemma wp_join_worker turns index :
  (index < routes)%nat → wp (join_worker bypass turns index) [] (λ _ r, Forall (λ _, False) r).
Proof.
  intros Hi. unfold join_worker. eapply wp_seq; [by apply wp_await_join|]. intros o r ->.
  destruct o as [| |j]; [by constructor..|]. eapply wp_store; [done| |by constructor].
  intros l others (Hf & Hid & Hn & Hb). cbn [app] in *. split_and!; [done| |done|];
    cbn [entered identities]; by rewrite <-(app_assoc (entered l)).
Qed.

(** What may happen beside the workers that wait: their calls, each other's turns, and
    anything that leaves the gate, the record of who entered and the sizes of the tables
    alone: dials report, the user's traffic is queued, routes that run redial and swap
    their transports, the session stops. *)
Definition allowed (e : event (Lobby T L)) : Prop :=
  match e with
  | Call m => ∃ turns index, (index < routes)%nat ∧ m = join_worker bypass turns index
  | Turn _ => True
  | Environment f => ∀ l, fits l → fits (f l) ∧ identities (f l) = identities l ∧ entered (f l) = entered l
  end.

Lemma allowed_ok e : allowed e → event_ok guarded (λ _, True) (λ _, False) e.
Proof.
  destruct e as [m|i|f]; [|done|].
  - intros (turns & index & Hi & ->). by apply wp_join_worker.
  - intros Hf l admitted (Hl & Hr). destruct (Hf l Hl) as (Hl' & Hid & Hc). split; [done|]. by rewrite Hid, Hc.
Qed.

Lemma joins_keep l events :
  guarded l [] → Forall allowed events →
  ∃ l' pool, machine_run (l, []) events = Ret (l', pool) ∧ NoDup (identity <$> entered l') ∧ Forall bypassed (entered l').
Proof.
  intros Hl He. destruct (machine_ok guarded (λ _, True) guarded_perm (λ _, False) I) with (s := l) (events := events)
    as (l' & pool & rs & Hr & (_ & Hi & Hn & Hb) & _); [| done| |].
  - intros l1 [|x a] a' Ha Hg; [done|]. by apply Forall_cons in Ha as [[] _].
  - eapply Forall_impl; [exact He|]. apply allowed_ok.
  - exists l', pool. split; [done|]. rewrite Hi, fmap_app in Hn. apply NoDup_app in Hn as [Hn _].
    by apply Forall_app in Hb as [Hb _].
Qed.
End joins.

(** ** The property *)

Section theorem.
Context {T L : Type} `{!RelayPath T} `{!RoutePath T}.

Lemma open_lobby_guarded client_id session_id derived at_instant relay_ip taken (s : @Starting T) mask :
  started taken s →
  let rs := mk_relay_start (routes s) (skipped_routes s) (claimed s) (bypass_addresses relay_ip (routes s)) mask in
  guarded (bypass_ips rs) (length (session_routes rs))
    (open_lobby (L := L) client_id session_id derived at_instant rs) [].
Proof.
  intros (Hc & Hn & _) rs. split_and!.
  - split; [split|]; cbn; by rewrite ?length_replicate, length_fmap.
  - cbn. by rewrite app_nil_r, Hc.
  - done.
  - rewrite app_nil_r. apply Forall_forall. intros p Hp address Ha. by eapply bypass_addresses_open.
Qed.

(** C28. The routes of a relay session. Of the outcomes of the dials, each is made a
    route or reported as skipped, once; the start fails only when no dial is open. From
    the session that starts, with any number of workers waiting for their dials, in any
    interleaving with each other and with the rest of the session, nothing panics; the
    transports that its routes enter it with, at the start or by joining, always have
    different identities (endpoint and key); and each of these leaves by an address
    that was kept out of the capture when the session started, or has no address of its
    own. This is about the transport that a route begins with: the one that a worker
    redials later replaces it without passing the gate, and is not spoken of. *)
Theorem routes_are_distinct_and_bypassed nodes labels relay_ip strategy (dialled : list (DialledRoute T)) :
  Forall (λ d, 0 <= dialled_index d < zlen nodes) dialled →
  ∃ outcome, start_routes nodes labels relay_ip strategy dialled = Ret outcome ∧
    match outcome with
    | Err _ => ∀ d joined, d ∈ dialled → start d ≠ Open joined
    | Ok rs =>
        (route_number <$> session_routes rs) ++ (skipped_route <$> start_skipped rs)
          ≡ₚ (λ d, dialled_index d + 1) <$> dialled ∧
        ∀ client_id session_id derived at_instant events,
          let opening := open_lobby (L := L) client_id session_id derived at_instant rs in
          Forall (allowed (bypass_ips rs) (length (session_routes rs))) events →
          entered opening ≠ [] ∧
          ∃ l pool, machine_run (opening, []) events = Ret (l, pool) ∧
            NoDup (identity <$> entered l) ∧ Forall (bypassed (bypass_ips rs)) (entered l)
    end.
Proof.
  intros Hd. destruct (take_all_started nodes labels dialled [] _ Hd started_first) as (s & Hr & Hs).
  cbn [app] in Hs. unfold start_routes. rewrite Hr. cbn [mbind run_bind].
  pose proof Hs as (Hc & _ & Ht & Hp). destruct (existsb is_open (routes s)) eqn:Eo; cbn [negb]; eexists; (split; [done|]).
  - split; [exact Hp|]. intros client_id session_id derived at_instant events He.
    split; [by apply opened_some|]. eapply joins_keep; [|exact He]. by eapply open_lobby_guarded.
  - intros d joined Hin Ed. rewrite Forall_forall in Ht. specialize (Ht d Hin). unfold claims in Ht.
    rewrite Ed, Hc, (opened_none _ Eo) in Ht. by apply elem_of_nil in Ht.
Qed.
End theorem.

(** *** A concrete session *)

Module ToyJoin.
(** A transport by its number: its key, and the last byte of its server's address. *)
#[export] Instance numbered_path : RelayPath Z := {|
  send_frame p _ := (Ok (), p);
  send_probe p _ := (Ok (), p);
  receive_frames p _ := (Ok [], p);
  take_transport_drops p := (0, 0, p);
  path_endpoint p := str "server " ++ number p;
  setup_latency_ms _ := None;
  setup_round_trips _ := None;
  bypass_ipv4 p := Some [x0a; x00; x00; z2b p];
  health_note p := (None, p);
  probe_deadline_floor _ := 0;
  transport_failed _ := false
|}.
#[export] Instance numbered_route : RoutePath Z := {|
  identity p := WireGuardIdentity (str "server " ++ number p) [z2b p];
  transport_kind _ := str "wireguard";
  carried_by_stream _ := false
|}.

Definition node : NodeSpec := WireGuard (str "[Interface]") (Some (str "route")).
Definition open_on (p : Z) : Joined Z := mk_joined p node.
Definition address (p : Z) : list byte := [x0a; x00; x00; z2b p].

(** Two routes are open on one server, a third fails, and three still dial: one opens
    after an attempt that fails, one on a server in use, one on an address that nobody
    kept out of the capture. *)
Definition outcomes : list (DialledRoute Z) :=
  [mk_dialled 0 [address 1] None (Open (open_on 1));
   mk_dialled 1 [address 1] None (Open (open_on 1));
   mk_dialled 2 [] None (Failed (str "refused"));
   mk_dialled 3 [address 2] (Some (str "attempt 1 of 5 failed: refused; retrying"))
     (Joining (mk_line [Retrying 2 (str "refused"); Finished_ (Ok (open_on 2))] true));
   mk_dialled 4 [address 1] None (Joining (mk_line [Finished_ (Ok (open_on 1))] true));
   mk_dialled 5 [address 3] None (Joining (mk_line [Finished_ (Ok (open_on 9))] true))].

Definition started_session : run (result (list byte) (@RelayStart Z)) :=
  start_routes (replicate 6 node) [] [x0a; x00; x00; xff] AllPaths outcomes.

Definition joins (bypass : list (list byte)) : list (event (Lobby Z ())) :=
  [Call (join_worker bypass 4 1); Call (join_worker bypass 4 2); Call (join_worker bypass 4 3)]
  ++ mjoin (replicate 40 [Turn 2; Turn 0; Turn 1]).

(** Of the three that wait only the first joins; every other one is reported. *)
Lemma only_one_joins :
  match started_session with
  | Ret (Ok rs) =>
      match machine_run (open_lobby (L := ()) (replicate 16 x07) 5 (mk_mtu 1400 80 false 1400) 0 rs, [])
              (joins (bypass_ips rs)) with
      | Ret (l, pool) =>
          entered l = [1; 2] ∧ pool = [] ∧ skipped_route <$> gate_skipped l = [2; 3; 6; 5]
      | Panic => False
      end
  | _ => False
  end.
Proof. vm_compute. done. Qed.
End ToyJoin.
Import ToyJoin.

Lemma routes_are_distinct_and_bypassed_witness :
  ∃ outcome, started_session = Ret outcome ∧
    match outcome with
    | Err _ => ∀ d joined, d ∈ outcomes → start d ≠ Open joined
    | Ok rs =>
        (route_number <$> session_routes rs) ++ (skipped_route <$> start_skipped rs)
          ≡ₚ (λ d, dialled_index d + 1) <$> outcomes ∧
        ∀ client_id session_id derived at_instant events,
          let opening := open_lobby (L := ()) client_id session_id derived at_instant rs in
          Forall (allowed (bypass_ips rs) (length (session_routes rs))) events →
          entered opening ≠ [] ∧
          ∃ l pool, machine_run (opening, []) events = Ret (l, pool) ∧
            NoDup (identity <$> entered l) ∧ Forall (bypassed (bypass_ips rs)) (entered l)
    end.
Proof.
  apply (routes_are_distinct_and_bypassed (L := ()) (replicate 6 node)).
  repeat (apply Forall_cons; split; [vm_compute; done|]). constructor.
Defined.
