(* ===== verification/Dialling.v ===== *)
(** * Dialling: every node at once, and the wait for the first

    [begin_dial] and [dial_routes] of [engine/src/session/join.rs]: a thread for each
    node, which resolves it, opens it and tries again, and the start of the session,
    which listens to all of them until it can go. Every channel operation, every look
    at the clock or the stop flag, every attempt to open and the resolving of a node is
    one step; a wait that has
    not ended after its fuel of turns is a thread that still waits. Starting the threads
    does not fail. *)
From S2P Require Import Prelude Text Policy WireGuardConfig WireGuardOpen OvpnConfig Node.
From S2P Require Import Threads Join.

Inductive DialEvent : Type := Resolved (index : nat) (addresses : list (list byte)) | Progress.

(** What the service has said of an L2TP node: nothing yet, its dial, or that nobody
    will. *)
Inductive ServiceDial : Type := Pending | Dialled (dial : result (list byte) L2tpRuntime) | Withdrawn.

(** What a name resolves to at some moment. *)
Notation Names := (Target → list (list byte)).

(** What the threads share: the clock and the session's flag, the channels of updates
    with whether each is listened to, the channel of events with its senders, what the
    service says of each node, what opening each would come to now, what names resolve
    to now, and the result of the start. [lookups] is the record of the lookups made:
    whose, and what names resolved to at the time; nothing reads it. *)
Record Dials (T : Type) := mk_dials {
  dial_clock : Z;
  dial_stop : bool;
  dial_lines : list (Line T);
  listening : nat → bool;
  dial_events : list DialEvent;
  senders : Z;
  service : nat → ServiceDial;
  network : nat → result (list byte) T;
  names : Names;
  lookups : list (nat * Names);
  outcome : option (list (DialledRoute T))
}.
Arguments mk_dials {T} dial_clock dial_stop dial_lines listening dial_events senders service network names lookups outcome.
Arguments dial_clock {T} d.
Arguments dial_stop {T} d.
Arguments dial_lines {T} d.
Arguments listening {T} d.
Arguments dial_events {T} d.
Arguments senders {T} d.
Arguments service {T} d.
Arguments network {T} d.
Arguments names {T} d.
Arguments lookups {T} d.
Arguments outcome {T} d.

(** How the loop over the attempts ends: on its last turn, with a [return], or not yet. *)
Inductive Fate : Type := Over | Abandoned | Asleep.

(** The locals of [dial_routes]. *)
Record Start (T : Type) := mk_start {
  endpoints : list (option (list (list byte)));
  retrying : list (option (list byte));
  finished : list (option (result (list byte) (Joined T)))
}.
Arguments mk_start {T} endpoints retrying finished.
Arguments endpoints {T} s.
Arguments retrying {T} s.
Arguments finished {T} s.

Inductive NextEvent : Type := Event (e : DialEvent) | TimedOut | NoSenders.

Definition stopped_without_result : list byte := str "the dial stopped without a result".

Definition gave_up (attempts : Z) (error : list byte) : list byte :=
  if 1 <? attempts then error ++ str " (gave up after " ++ number attempts ++ str " attempts)" else error.

Definition dial_attempts (n : NodeSpec) : Z := match n with L2tp _ _ _ _ _ _ _ _ => 1 | _ => JOIN_ATTEMPTS end.

Section dialling.
Context {T : Type} `{!Platform} `{!Pem} `{!Base64}.
Implicit Types (s : Dials T) (w : Start T).
Notation prog := (prog (Dials T)).

Definition with_channels s (lines : list (Line T)) (events : list DialEvent) (senders : Z) : Dials T :=
  mk_dials (dial_clock s) (dial_stop s) lines (listening s) events senders (service s) (network s) (names s)
    (lookups s) (outcome s).

(** ** The thread of a dial *)

Definition send_event (e : DialEvent) : prog unit :=
  store (λ s, with_channels s (dial_lines s) (dial_events s ++ [e]) (senders s)).

(** [node.endpoint_ipv4s()]. *)
Definition look_up (index : nat) (n : NodeSpec) : prog (list (list byte)) :=
  act (λ s, Ret (endpoint_ipv4s (names s) n,
    mk_dials (dial_clock s) (dial_stop s) (dial_lines s) (listening s) (dial_events s) (senders s) (service s)
      (network s) (names s) (lookups s ++ [(index, names s)]) (outcome s))).

Definition push_update (u : DialUpdate T) (l : Line T) : Line T := mk_line (updates l ++ [u]) (dialling l).
(** Whether somebody listens. *)
Definition send_update (index : nat) (u : DialUpdate T) : prog bool :=
  act (λ s, Ret (if listening s index
                 then (true, with_channels s (alter (push_update u) index (dial_lines s)) (dial_events s) (senders s))
                 else (false, s))).

(** The thread's two senders go, one after the other. *)
Definition hang_up (index : nat) : prog unit :=
  _ ← store (λ s, with_channels s (alter (λ l, mk_line (updates l) false) index (dial_lines s)) (dial_events s)
                    (senders s));
  store (λ s, with_channels s (dial_lines s) (dial_events s) (senders s - 1)).

Fixpoint wait_loop (turns : nat) (deadline : Z) : prog (option bool) :=
  match turns with
  | O => mret None
  | S turns' =>
      at_instant ← load dial_clock;
      stop ← load dial_stop;
      if at_instant <? deadline then
        if stop : bool then mret (Some false) else wait_loop turns' deadline
      else mret (Some (negb stop))
  end.
Definition wait_unless_stopped (turns : nat) (delay : Z) : prog (option bool) :=
  at_instant ← load dial_clock; wait_loop turns (at_instant + delay).

Definition open_node (index : nat) (n : NodeSpec) : prog (result (list byte) T) :=
  load (λ s, match open_dial n with Ok _ => network s index | Err error => Err error end).

(** [left] attempts are left, the next is the [attempt]-th. *)
Fixpoint try_opening (turns left : nat) (attempt attempts : Z) (index : nat) (n : NodeSpec) : prog Fate :=
  match left with
  | O => mret Over
  | S left' =>
      stop ← load dial_stop;
      if stop : bool then mret Abandoned else
      opened ← open_node index n;
      match opened with
      | Ok path => _ ← send_update index (Finished_ (Ok (mk_joined path n))); mret Over
      | Err error =>
          if attempt =? attempts then _ ← send_update index (Finished_ (Err (gave_up attempts error))); mret Over else
          heard ← send_update index (Retrying attempt error);
          if negb heard then mret Abandoned else
          _ ← send_event Progress;
          went_on ← wait_unless_stopped turns (retry_delay attempt);
          match went_on with
          | None => mret Asleep
          | Some false => mret Abandoned
          | Some true => try_opening turns left' (attempt + 1) attempts index n
          end
      end
  end.

(** The node to open, nothing if the service gave up on it, or not yet. *)
Fixpoint receive_dial (turns : nat) (index : nat) (n : NodeSpec) : prog (option (option NodeSpec)) :=
  match turns with
  | O => mret None
  | S turns' =>
      dial ← load (λ s, service s index);
      match dial with
      | Pending => receive_dial turns' index n
      | Dialled dial => mret (Some (Some (with_service_dial n dial)))
      | Withdrawn => mret (Some None)
      end
  end.

Definition dial_thread (turns : nat) (index : nat) (n : NodeSpec) : prog unit :=
  addresses ← look_up index n;
  _ ← send_event (Resolved index addresses);
  ready ← (if awaits_service_dial n then receive_dial turns index n else mret (Some (Some n)));
  match ready with
  | None => mret ()
  | Some None => hang_up index
  | Some (Some opened) =>
      fate ← try_opening turns (Z.to_nat (dial_attempts n)) 1 (dial_attempts n) index opened;
      match fate with
      | Asleep => mret ()
      | Abandoned => hang_up index
      | Over => _ ← send_event Progress; hang_up index
      end
  end.

(** ** The start *)

Definition try_recv (index : nat) : prog (Heard T) :=
  act (λ s, match dial_lines s !! index with
            | None => Panic
            | Some line =>
                let '(heard, line) := hear line in
                Ret (heard, with_channels s (<[index := line]> (dial_lines s)) (dial_events s) (senders s))
            end).

Definition set_retrying w (index : nat) (note : list byte) : Start T :=
  mk_start (endpoints w) (<[index := Some note]> (retrying w)) (finished w).
Definition set_finished w (index : nat) (r : result (list byte) (Joined T)) : Start T :=
  mk_start (endpoints w) (retrying w) (<[index := Some r]> (finished w)).
Definition set_endpoints w (index : nat) (addresses : list (list byte)) : Start T :=
  mk_start (<[index := Some addresses]> (endpoints w)) (retrying w) (finished w).

Definition is_finished w (index : nat) : bool := match finished w !! index with Some (Some _) => true | _ => false end.
Definition is_resolved w (index : nat) : bool := match endpoints w !! index with Some (Some _) => true | _ => false end.
Definition is_retrying w (index : nat) : bool := match retrying w !! index with Some (Some _) => true | _ => false end.
Definition is_opened (r : option (result (list byte) (Joined T))) : bool :=
  match r with Some (Ok _) => true | _ => false end.

Fixpoint sweep_route (turns : nat) (index : nat) (n : NodeSpec) w : prog (option (Start T)) :=
  if is_finished w index || awaits_service_dial n then mret (Some w) else
  match turns with
  | O => mret None
  | S turns' =>
      heard ← try_recv index;
      match heard with
      | Update (Retrying attempt error) => sweep_route turns' index n (set_retrying w index (retrying_note attempt error))
      | Update (Finished_ r) => sweep_route turns' index n (set_finished w index r)
      | HungUp => sweep_route turns' index n (set_finished w index (Err stopped_without_result))
      | Silence => mret (Some w)
      end
  end.

Fixpoint sweep (turns : nat) (l : list (nat * NodeSpec)) w : prog (option (Start T)) :=
  match l with
  | [] => mret (Some w)
  | (index, n) :: rest =>
      swept ← sweep_route turns index n w;
      match swept with None => mret None | Some w => sweep turns rest w end
  end.

Definition unfinished w (route : nat * NodeSpec) : bool :=
  negb (is_finished w route.1) && negb (awaits_service_dial route.2).

(** Whether the start need not wait any longer. *)
Definition can_start (l : list (nat * NodeSpec)) (window_over : bool) w : bool :=
  let resolved := forallb (λ r, is_resolved w r.1 || is_finished w r.1) l in
  let opened := existsb is_opened (finished w) in
  let first_attempts := existsb (λ r, unfinished w r && negb (is_retrying w r.1)) l in
  let retries := existsb (λ r, unfinished w r && is_retrying w r.1) l in
  resolved && (opened || negb first_attempts && (negb retries || window_over)).

Definition next_event : prog NextEvent :=
  act (λ s, Ret match dial_events s with
                | e :: rest => (Event e, with_channels s (dial_lines s) rest (senders s))
                | [] => (if senders s =? 0 then NoSenders else TimedOut, s)
                end).

Definition in_range (index count : nat) : prog unit :=
  act (λ s, if bool_decide (index < count)%nat then Ret ((), s) else Panic).

Fixpoint await_start (turns : nat) (l : list (nat * NodeSpec)) (retry_window started : Z) w : prog (option (Start T)) :=
  match turns with
  | O => mret None
  | S turns' =>
      swept ← sweep turns l w;
      match swept with
      | None => mret None
      | Some w =>
          at_instant ← load dial_clock;
          if can_start l (retry_window <=? since at_instant started) w then mret (Some w) else
          e ← next_event;
          match e with
          | Event (Resolved index addresses) =>
              _ ← in_range index (length (endpoints w));
              await_start turns' l retry_window started (set_endpoints w index addresses)
          | Event Progress | TimedOut => await_start turns' l retry_window started w
          | NoSenders => mret (Some w)
          end
      end
  end.

Definition collect_one w (lines : list (Line T)) (index : nat) : DialledRoute T :=
  mk_dialled (Z.of_nat index) (default [] (default None (endpoints w !! index))) (default None (retrying w !! index))
    match finished w !! index with
    | Some (Some (Ok joined)) => Open joined
    | Some (Some (Err reason)) => Failed reason
    | _ => Joining (default (mk_line [] false) (lines !! index))
    end.

Definition dial_routes (turns : nat) (nodes : list NodeSpec) (retry_window : Z) : prog unit :=
  started ← load dial_clock;
  let count := length nodes in
  w ← await_start turns (imap pair nodes) retry_window started
        (mk_start (replicate count None) (replicate count None) (replicate count None));
  match w with
  | None => mret ()
  | Some w =>
      store (λ s, mk_dials (dial_clock s) (dial_stop s) (dial_lines s) (listening s) (dial_events s) (senders s)
                    (service s) (network s) (names s) (lookups s) (Some (collect_one w (dial_lines s) <$> seq 0 count)))
  end.

(** The threads of a start that has just begun its dials, and what they share. *)
Definition dial_pool (turns : nat) (nodes : list NodeSpec) (retry_window : Z) : list (prog unit) :=
  imap (dial_thread turns) nodes ++ [dial_routes turns nodes retry_window].
Definition first_dials (count : nat) (at_instant : Z) (service : nat → ServiceDial)
    (network : nat → result (list byte) T) (names : Names) : Dials T :=
  mk_dials at_instant false (replicate count (mk_line [] true)) (λ _, true) [] (Z.of_nat count) service network names
    [] None.
End dialling.
