(* ===== verification/DialTheorems.v ===== *)
(** * DialTheorems: what a session knows of its routes when it starts

    The threads of [Dialling] in any interleaving, with whatever the clock, the network,
    the service and the rest of the program do: a start that has gone on knows the
    addresses of every route that is still dialling. *)
From S2P Require Import Prelude Text Policy WireGuardConfig WireGuardOpen PathMtu OvpnConfig Node.
From S2P Require Import Scheduler RelayWorker Threads Join JoinTheorems Dialling.

Section dialling.
Context {T : Type} `{!RelayPath T} `{!RoutePath T} `{!Platform} `{!Pem} `{!Base64}.
Context (nodes : list NodeSpec).
Implicit Types (s : Dials T) (w : Start T) (n : NodeSpec) (u : DialUpdate T).

(** ** The invariant *)

(** A node as its thread opens it: as it was set, or with what the service said. *)
Definition prepared n opened : Prop :=
  opened = n ∨ awaits_service_dial n = true ∧ ∃ dial, opened = with_service_dial n dial.

(** What a route's dial may report. *)
Definition honest n u : Prop :=
  match u with
  | Retrying attempt _ => 1 <= attempt < dial_attempts n
  | Finished_ (Ok j) => prepared n (joined_node j) ∧ ∃ d, open_dial (joined_node j) = Ok d
  | Finished_ (Err _) => True
  end.

Definition told n (l : Line T) : Prop := Forall (honest n) (updates l).

(** The addresses that a lookup of the dial of this index found, by the record. *)
Definition found (log : list (nat * Names)) (index : nat) (a : list (list byte)) : Prop :=
  ∃ names n, (index, names) ∈ log ∧ nodes !! index = Some n ∧ a = endpoint_ipv4s names n.

(** What a call holds: a dial that has not looked its node up, one that has and not
    said where its route goes, one that has said so, and the start with the addresses
    that it knows. *)
Inductive Token : Type :=
| Fresh (index : nat)
| Found (index : nat) (addresses : list (list byte))
| Dialler
| Known (endpoints : list (option (list (list byte)))).

Definition sends (t : Token) : bool := match t with Known _ => false | _ => true end.
Definition listens (t : Token) : bool := negb (sends t).

Definition queued (index : nat) s : Prop := ∃ a, Resolved index a ∈ dial_events s.
Definition known (index : nat) (endpoints : list (option (list (list byte)))) : Prop :=
  ∃ a, endpoints !! index = Some (Some a).

(** A dial that has not looked its node up yet, by its index. *)
Definition fresh (t : Token) : option nat := match t with Fresh index => Some index | _ => None end.

Record settled (log : list (nat * Names)) (d : DialledRoute T) (index : nat) n : Prop := {
  se_index : dialled_index d = Z.of_nat index;
  se_endpoints : dialled_endpoints d = [] ∨ found log index (dialled_endpoints d);
  se_start : match start d with
             | Open j => prepared n (joined_node j) ∧ ∃ dial, open_dial (joined_node j) = Ok dial
             | Failed _ => awaits_service_dial n = false
             | Joining l => found log index (dialled_endpoints d) ∧ told n l
             end
}.

Definition outcome_ok (log : list (nat * Names)) (ds : list (DialledRoute T)) : Prop :=
  length ds = length nodes ∧
  ∀ index n, nodes !! index = Some n → ∃ d, ds !! index = Some d ∧ settled log d index n.

Lemma found_later log x index a : found log index a → found (log ++ [x]) index a.
Proof. intros (names & n & Hin & ? & ?). exists names, n. split_and!; [|done..]. apply elem_of_app. by left. Qed.

Lemma outcome_later log x ds : outcome_ok log ds → outcome_ok (log ++ [x]) ds.
Proof.
  intros [Hl Ho]. split; [done|]. intros index n Hn. destruct (Ho index n Hn) as (d & Hd & [Hone Htwo Hthree]). exists d.
  split; [done|]. split; [done|destruct Htwo; [by left|right; by apply found_later]|].
  destruct (start d); [done|done|]. destruct Hthree. split; [by apply found_later|done].
Qed.

Record inv s (toks : list Token) : Prop := {
  iv_lines : Forall2 told nodes (dial_lines s);
  iv_events : ∀ index a, Resolved index a ∈ dial_events s → found (lookups s) index a;
  iv_found : ∀ index a, Found index a ∈ toks → found (lookups s) index a;
  iv_once : NoDup (omap fresh toks ++ (fst <$> lookups s));
  iv_senders : Z.of_nat (length (filter (λ t, sends t = true) toks)) <= senders s;
  iv_one : (length (filter (λ t, listens t = true) toks) <= 1)%nat;
  iv_known : ∀ endpoints, Known endpoints ∈ toks → ∀ index, (index < length nodes)%nat →
    Fresh index ∈ toks ∨ (∃ a, Found index a ∈ toks) ∨ queued index s ∨ known index endpoints;
  iv_right : ∀ endpoints, Known endpoints ∈ toks → ∀ index a, endpoints !! index = Some (Some a) → found (lookups s) index a;
  iv_outcome : ∀ ds, outcome s = Some ds → outcome_ok (lookups s) ds
}.

Notation wp := (wp inv (λ _, True)).

Lemma dials_perm s l l' : l ≡ₚ l' → inv s l → inv s l'.
Proof.
  intros Hp [? ? Hf Ho Hs Hone Hk Hr ?]. split; try done.
  - intros index a. rewrite <-Hp. apply Hf.
  - by rewrite <-Hp.
  - by rewrite <-Hp.
  - by rewrite <-Hp.
  - intros endpoints. setoid_rewrite <-Hp. apply Hk.
  - intros endpoints. rewrite <-Hp. apply Hr.
Qed.

(** What a call may leave when it ends or waits for ever. *)
Definition leftover (t : Token) : Prop := match t with Fresh _ | Found _ _ => False | _ => True end.

Lemma dials_drop s l l' : Forall leftover l → inv s (l ++ l') → inv s l'.
Proof.
  intros Hl [? ? Hf Ho Hs Hone Hk Hr ?]. rewrite Forall_forall in Hl. split; try done.
  - intros index a Hin. apply Hf, elem_of_app. by right.
  - rewrite omap_app, <-app_assoc in Ho. by apply NoDup_app in Ho as (_ & _ & ?).
  - rewrite filter_app, length_app in Hs. lia.
  - rewrite filter_app, length_app in Hone. lia.
  - intros endpoints Hin index Hi. destruct (Hk endpoints) with (index := index) as [Hx|[[a Hx]|?]]; try done.
    + apply elem_of_app. by right.
    + apply elem_of_app in Hx as [Hx|?]; [by apply Hl in Hx|by left].
    + apply elem_of_app in Hx as [Hx|?]; [by apply Hl in Hx|right; left; by exists a].
    + by right; right.
  - intros endpoints Hin. apply Hr, elem_of_app. by right.
Qed.

(** A step that leaves the queue of events alone. *)
Lemma inv_lines s l lines : inv s l → Forall2 told nodes lines → inv (with_channels s lines (dial_events s) (senders s)) l.
Proof. intros [] Hl. by split. Qed.

Lemma told_alter f index lines :
  Forall2 told nodes lines → (∀ n l, nodes !! index = Some n → told n l → told n (f l)) →
  Forall2 told nodes (alter f index lines).
Proof.
  intros Hl Hf. apply Forall2_same_length_lookup_2; [by rewrite length_alter; eapply Forall2_length|].
  intros i n l Hn Hi. destruct (decide (i = index)) as [->|].
  - rewrite list_lookup_alter_eq in Hi. apply fmap_Some in Hi as (l0 & Hl0 & ->). apply Hf; [done|].
    by eapply Forall2_lookup_lr.
  - rewrite list_lookup_alter_ne in Hi by done. by eapply Forall2_lookup_lr.
Qed.

(** ** The threads of the dials *)

Definition sender (r : list Token) : Prop := r = [Dialler].

Lemma wp_look {X} (f : Dials T → X) r (Q : X → list Token → Prop) : (∀ x, Q x r) → wp (load f) r Q.
Proof. intros HQ. by apply wp_load. Qed.

Lemma wp_progress r : wp (send_event (T := T) Progress) r (λ _ r', r' = r).
Proof.
  eapply wp_store; [done| |done]. intros s others [? He ? ? ? ? Hk ? ?]. split; try done; cbn.
  - intros index a [Hin|Hin%list_elem_of_singleton]%elem_of_app; [by apply He|done].
  - intros endpoints Hin index Hi. destruct (Hk _ Hin index Hi) as [?|[?|[[a Ha]|?]]]; [by left|by right; left| |by right; right; right].
    right. right. left. exists a. apply elem_of_app. by left.
Qed.

(** The node is looked up, and the addresses are held. *)
Lemma wp_look_up index n :
  nodes !! index = Some n →
  wp (look_up (T := T) index n) [Fresh index] (λ a r, r = [Found index a]).
Proof.
  intros Hn s others [? He Hf Ho Hs Hone Hk Hr Hout]. cbn. eexists. split; [done|]. split; [|done].
  assert (found (lookups s ++ [(index, names s)]) index (endpoint_ipv4s (names s) n)) as Hnow.
  { exists (names s), n. split_and!; [|done..]. apply elem_of_app. right. by left. }
  split; cbn [app] in *; try done; cbn [lookups dial_events].
  - intros i a Hin. by apply found_later, He.
  - intros i a [[= -> ->]|Hin]%elem_of_cons; [done|]. apply found_later, Hf. by right.
  - change (omap fresh (Fresh index :: others)) with (index :: omap fresh others) in Ho.
    match goal with |- NoDup (omap fresh (?t :: others) ++ _) => change (omap fresh (t :: others)) with (omap fresh others) end.
    rewrite fmap_app, app_assoc. by rewrite (Permutation_app_comm _ [index]).
  - intros endpoints [?|Hin]%elem_of_cons i Hi; [done|].
    destruct (Hk endpoints) with (index := i) as [[[= ->]|Hx]%elem_of_cons|[[a [?|Hx]%elem_of_cons]|?]]; try done.
    + by right.
    + right. left. eexists. by left.
    + left. by right.
    + right. left. exists a. by right.
    + by right; right.
  - intros endpoints [?|Hin]%elem_of_cons i a Hi; [done|]. apply found_later. apply (Hr endpoints); [by right|done].
  - intros ds Hds. by apply outcome_later, Hout.
Qed.

Lemma wp_resolved index a :
  wp (send_event (T := T) (Resolved index a)) [Found index a] (λ _ r, sender r).
Proof.
  eapply wp_store; [done| |done]. intros s others [? He Hf Ho Hs ? Hk Hr ?]. cbn [app] in *. split; try done; cbn.
  - intros i b [Hin|Hin%list_elem_of_singleton]%elem_of_app; [by apply He|]. injection Hin as -> ->. apply Hf. by left.
  - intros i b [?|Hin]%elem_of_cons; [done|]. apply Hf. by right.
  - intros endpoints [?|Hin]%elem_of_cons i Hi; [done|].
    destruct (Hk endpoints) with (index := i) as [[?|Hx]%elem_of_cons|[[b [[= -> ->]|Hx]%elem_of_cons]|[[b Hb]|?]]]; try done.
    + by right.
    + left. by right.
    + right. right. left. exists a. apply elem_of_app. right. by left.
    + right. left. exists b. by right.
    + right. right. left. exists b. apply elem_of_app. by left.
    + by right; right; right.
  - intros endpoints [?|Hin]%elem_of_cons; [done|]. apply Hr. by right.
Qed.

Lemma wp_send_update index n u r :
  nodes !! index = Some n → honest n u → wp (send_update index u) r (λ _ r', r' = r).
Proof.
  intros Hn Hu s others Hi. cbn. destruct (listening s index); exists r; (split; [done|]; split; [|done]); [|done].
  apply inv_lines; [done|]. apply told_alter; [apply Hi|]. intros n' l Hn' Hl. assert (n' = n) as -> by congruence.
  apply Forall_app. split; [done|]. by constructor.
Qed.

Lemma wp_hang_up index : wp (hang_up (T := T) index) [Dialler] (λ _ r, r = []).
Proof.
  eapply wp_seq; [eapply (wp_store _ _ _ _ [Dialler] (λ _ r, sender r)); [done| |done]|].
  - intros s others Hi. apply inv_lines; [done|]. apply told_alter; [apply Hi|]. by intros n l _ Hl.
  - intros _ r ->. eapply wp_store; [done| |done]. intros s others [? ? Hf ? Hs ? Hk Hr ?]. cbn [app] in *. split; try done.
    + intros i a Hin. apply Hf. by right.
    + cbn [app with_channels senders] in *. rewrite filter_cons_True in Hs by done. cbn [length] in Hs. lia.
    + intros endpoints Hin index' Hi.
      destruct (Hk endpoints) with (index := index') as [[?|?]%elem_of_cons|[[a [?|?]%elem_of_cons]|?]]; try done.
      * by right.
      * by left.
      * right. left. by exists a.
      * by right; right.
    + intros endpoints Hin. apply Hr. by right.
Qed.

Lemma wp_wait turns delay r : wp (wait_unless_stopped (T := T) turns delay) r (λ _ r', r' = r).
Proof.
  unfold wait_unless_stopped. apply wp_bind, wp_look. intros at_instant. generalize (at_instant + delay). intros deadline.
  induction turns as [|turns IH]; [done|]. cbn [wait_loop]. apply wp_bind, wp_look. intros now'.
  apply wp_bind, wp_look. intros stop. destruct (now' <? deadline); [|done]. by destruct stop.
Qed.

Lemma wp_try_opening turns left attempt index n opened r :
  nodes !! index = Some n → prepared n opened → 1 <= attempt → attempt + Z.of_nat left = dial_attempts n + 1 →
  wp (try_opening (T := T) turns left attempt (dial_attempts n) index opened) r (λ _ r', r' = r).
Proof.
  intros Hn Hp. revert attempt. induction left as [|left IH]; intros attempt Hone Hl; [done|]. cbn [try_opening].
  apply wp_bind, wp_look. intros stop. destruct stop; [done|]. unfold open_node.
  apply wp_bind, wp_load; [done|]. intros s others _.
  assert (∀ o : result (list byte) T, (∀ p, o = Ok p → ∃ d, open_dial opened = Ok d) → wp (match o with
    | Ok path => _ ← send_update index (Finished_ (Ok (mk_joined path opened))); mret Over
    | Err error =>
        if attempt =? dial_attempts n
        then _ ← send_update index (Finished_ (Err (gave_up (dial_attempts n) error))); mret Over else
        heard ← send_update index (Retrying attempt error);
        if negb heard then mret Abandoned else
        _ ← send_event Progress;
        went_on ← wait_unless_stopped turns (retry_delay attempt);
        match went_on with
        | None => mret Asleep
        | Some false => mret Abandoned
        | Some true => try_opening turns left (attempt + 1) (dial_attempts n) index opened
        end
    end) r (λ _ r', r' = r)) as Hgo; [|apply Hgo; intros p; destruct (open_dial opened) as [d|]; [by exists d|done]].
  intros [path|error] Hopen.
  - eapply wp_seq; [by apply (wp_send_update index n); [|split; [|by apply (Hopen path)]]|]. by intros _ r' ->.
  - destruct (Z.eqb_spec attempt (dial_attempts n)) as [|Hne].
    { eapply wp_seq; [by apply (wp_send_update index n)|]. by intros _ r' ->. }
    eapply wp_seq; [apply (wp_send_update index n); [done|]; cbn; lia|]. intros heard r' ->. destruct heard; [|done].
    eapply wp_seq; [apply wp_progress|]. intros _ r' ->. eapply wp_seq; [apply wp_wait|]. intros went r' ->.
    destruct went as [[]|]; [|done..]. apply IH; lia.
Qed.

Lemma dial_attempts_pos n : 1 <= dial_attempts n.
Proof. by destruct n. Qed.

Lemma wp_receive_dial turns index n r :
  awaits_service_dial n = true →
  wp (receive_dial (T := T) turns index n) r
    (λ o r', r' = r ∧ ∀ opened, o = Some (Some opened) → prepared n opened).
Proof.
  intros Ha. induction turns as [|turns IH]; [done|]. cbn [receive_dial]. apply wp_bind, wp_look.
  intros [|dial|]; [done| |done]. split; [done|]. intros opened [= <-]. right. split; [done|]. by exists dial.
Qed.

Lemma wp_dial_thread turns index n :
  nodes !! index = Some n → wp (dial_thread (T := T) turns index n) [Fresh index] (λ _ r, Forall leftover r).
Proof.
  intros Hn. unfold dial_thread. eapply wp_seq; [by apply wp_look_up|]. intros a r ->.
  eapply wp_seq; [apply wp_resolved|]. intros _ r ->.
  eapply (wp_seq _ _ _ _ _ (λ o r', r' = [Dialler] ∧ ∀ opened, o = Some (Some opened) → prepared n opened)).
  { destruct (awaits_service_dial n) eqn:Ea; [by apply wp_receive_dial|]. split; [done|]. intros opened [= <-]. by left. }
  intros ready r [-> Hready]. destruct ready as [[opened|]|]; [| |by repeat constructor].
  - eapply wp_seq; [apply wp_try_opening; [done|by apply Hready|lia|]|].
    + pose proof (dial_attempts_pos n). lia.
    + intros fate r ->. destruct fate; [| |by repeat constructor].
      * eapply wp_seq; [apply wp_progress|]. intros _ r ->. eapply wp_mono; [apply wp_hang_up|]. intros _ r ->. constructor.
      * eapply wp_mono; [apply wp_hang_up|]. intros _ r ->. constructor.
  - eapply wp_mono; [apply wp_hang_up|]. intros _ r ->. constructor.
Qed.

(** ** The start *)

Record fair w : Prop := {
  fa_endpoints : length (endpoints w) = length nodes;
  fa_finished : length (finished w) = length nodes;
  fa_ends : ∀ index n r, nodes !! index = Some n → finished w !! index = Some (Some r) →
    honest n (Finished_ r) ∧ awaits_service_dial n = false
}.

Definition known_by w : list Token := [Known (endpoints w)].

(** What the start knows when it goes on. *)
Definition informed w : Prop :=
  ∀ index n, nodes !! index = Some n → is_finished w index = false → known index (endpoints w).

Lemma fair_first (count := length nodes) : fair (mk_start (replicate count None) (replicate count None) (replicate count None)).
Proof.
  split; cbn; [by rewrite length_replicate..|]. intros index n r _ [? _]%lookup_replicate. done.
Qed.

Lemma fair_finished w index n r :
  fair w → nodes !! index = Some n → honest n (Finished_ r) → awaits_service_dial n = false →
  fair (set_finished w index r).
Proof.
  intros [He Hf Hr] Hn Hh Ha. split; cbn; [done|by rewrite length_insert|].
  intros i n' r' Hn' [(<- & [= ->] & _)|[_ Hi]]%list_lookup_insert_Some; [|by apply (Hr i)].
  by assert (n' = n) as -> by congruence.
Qed.

Lemma fair_endpoints w index a : fair w → fair (set_endpoints w index a).
Proof. intros [He Hf Hr]. split; cbn; [by rewrite length_insert|done..]. Qed.

Lemma wp_try_recv index n r (Q : Heard T → list Token → Prop) :
  nodes !! index = Some n →
  (∀ u, honest n u → Q (Update u) r) → Q Silence r → Q HungUp r → wp (try_recv index) r Q.
Proof.
  intros Hn Hu Hs Hh s others Hi. destruct (Forall2_lookup_l _ _ _ _ _ (iv_lines _ _ Hi) Hn) as (line & -> & Ht).
  assert (∀ line', told n line' → Forall2 told nodes (<[index := line']> (dial_lines s))) as Hset.
  { intros line' Ht'. rewrite <-(list_insert_id nodes index n Hn). apply Forall2_insert; [apply Hi|done]. }
  destruct line as [[|u rest] dials]; cbn; exists r; (split; [done|]).
  - split; [by apply inv_lines, Hset|]. by destruct dials.
  - apply Forall_cons in Ht as [Hhu Ht]. split; [by apply inv_lines, Hset|by apply Hu].
Qed.

Lemma wp_sweep_route turns index n w :
  nodes !! index = Some n → fair w →
  wp (sweep_route (T := T) turns index n w) (known_by w)
    (λ o r, r = known_by w ∧ ∀ w', o = Some w' → fair w' ∧ endpoints w' = endpoints w).
Proof.
  intros Hn. revert w. induction turns as [|turns IH]; intros w Hw; cbn [sweep_route].
  { destruct (_ || _); [|done]. split; [done|]. by intros w' [= <-]. }
  destruct (is_finished w index || awaits_service_dial n) eqn:Eg.
  { split; [done|]. by intros w' [= <-]. }
  apply orb_false_iff in Eg as [_ Ha]. apply wp_bind, (wp_try_recv index n); [done| | |].
  - intros [attempt error|r] Hu; [by apply (IH (set_retrying w index _)); destruct Hw|].
    apply (IH (set_finished w index r)). by eapply fair_finished.
  - split; [done|]. by intros w' [= <-].
  - apply (IH (set_finished w index _)). by eapply fair_finished.
Qed.

Lemma wp_sweep turns l w :
  Forall (λ r, nodes !! r.1 = Some r.2) l → fair w →
  wp (sweep (T := T) turns l w) (known_by w)
    (λ o r, r = known_by w ∧ ∀ w', o = Some w' → fair w' ∧ endpoints w' = endpoints w).
Proof.
  intros Hl. revert w. induction Hl as [|[index n] l Hn Hl IH]; intros w Hw; cbn [sweep].
  { split; [done|]. by intros w' [= <-]. }
  eapply wp_seq; [by apply wp_sweep_route|]. intros [w1|] r [-> Hone]; [|by split].
  destruct (Hone w1 eq_refl) as [Hw1 E1]. eapply wp_mono; [unfold known_by; rewrite <-E1; by apply IH|].
  intros o r [-> Ho]. unfold known_by. rewrite E1. split; [done|]. intros w' Hw'. destruct (Ho w' Hw'). split; [done|congruence].
Qed.

Lemma numbered : Forall (λ r, nodes !! r.1 = Some r.2) (imap pair nodes).
Proof.
  apply Forall_forall. intros [i n] (j & n' & [= -> ->] & Hn)%elem_of_lookup_imap. done.
Qed.

Lemma can_start_informed over w : fair w → can_start (imap pair nodes) over w = true → informed w.
Proof.
  intros Hw [Hr _]%andb_true_iff index n Hn Hf. rewrite forallb_forall in Hr.
  assert (In (index, n) (imap pair nodes)) as Hin.
  { apply list_elem_of_In, elem_of_lookup_imap. by exists index, n. }
  specialize (Hr _ Hin). cbn in Hr. rewrite Hf, orb_false_r in Hr. unfold is_resolved in Hr.
  destruct (endpoints w !! index) as [[a|]|] eqn:Ea; [|done..]. by exists a.
Qed.

(** No other call holds what the start knows. *)
Lemma only_start endpoints endpoints' others :
  (length (filter (λ t, listens t = true) (Known endpoints :: others)) <= 1)%nat → Known endpoints' ∉ others.
Proof.
  rewrite filter_cons_True by done. cbn [length]. intros Hone Hin.
  assert (Known endpoints' ∈ filter (λ t, listens t = true) others) as Hf by by apply list_elem_of_filter.
  destruct (filter _ others); [by apply elem_of_nil in Hf|cbn [length] in Hone; lia].
Qed.

(** Once every sender is gone and the channel is empty, every dial has been heard. *)
Lemma no_senders_informed s w others :
  fair w → inv s (known_by w ++ others) → dial_events s = [] → senders s = 0 → informed w.
Proof.
  intros Hw [_ _ _ _ Hs _ Hk _ _] He E0 index n Hn _.
  assert (∀ t, t ∈ known_by w ++ others → sends t = true → False) as Hnone.
  { intros t Ht Et. assert (t ∈ filter (λ t, sends t = true) (known_by w ++ others)) as Hin by by apply list_elem_of_filter.
    destruct (filter _ _); [by apply elem_of_nil in Hin|]. cbn in Hs. lia. }
  destruct (Hk (endpoints w)) with (index := index) as [Hx|[[a Hx]|[[a Ha]|?]]];
    [by left|by eapply lookup_lt_Some|exfalso; by eapply Hnone..| |done].
  rewrite He in Ha. by apply elem_of_nil in Ha.
Qed.

Lemma wp_next_event w (Q : NextEvent → list Token → Prop) :
  fair w →
  (∀ index a, (index < length nodes)%nat → Q (Event (Resolved index a)) (known_by (set_endpoints w index a))) →
  Q (Event Progress) (known_by w) → Q TimedOut (known_by w) → (informed w → Q NoSenders (known_by w)) →
  wp (next_event (T := T)) (known_by w) Q.
Proof.
  intros Hw Hres Hp Ht Hn s others Hi. pose proof Hi as [Hl He Hf Ho Hs Hone Hk Hr Hout]. cbn.
  destruct (dial_events s) as [|e rest] eqn:Ee.
  { exists (known_by w). split; [done|]. split; [done|]. destruct (Z.eqb_spec (senders s) 0); [|done].
    apply Hn. by eapply no_senders_informed. }
  assert (∀ i a, Resolved i a ∈ rest → found (lookups s) i a) as Hrest.
  { intros i a Hin. apply He. by right. }
  destruct e as [index a|].
  - assert (found (lookups s) index a) as Ha by (apply He; by left).
    assert (index < length nodes)%nat as Hlt by (destruct Ha as (? & ? & _ & Hx & _); by eapply lookup_lt_Some).
    exists (known_by (set_endpoints w index a)). split; [done|]. split; [|by apply Hres].
    cbn [known_by app] in *. split; try done.
    + intros i b [?|Hin]%elem_of_cons; [done|]. apply Hf. by right.
    + intros known Hin i Hilt. apply elem_of_cons in Hin as [[= ->]|Hin].
      * destruct (Hk (endpoints w)) with (index := i)
          as [[?|Hx]%elem_of_cons|[[b [?|Hx]%elem_of_cons]|[[b Hb]|[b Hb]]]]; [by left|done|done| |done| | |].
        -- left. by right.
        -- right. left. exists b. by right.
        -- rewrite Ee in Hb. apply elem_of_cons in Hb as [[= -> ->]|Hb]; [|right; right; left; by exists b].
           right. right. right. exists a. apply list_lookup_insert_eq. by rewrite (fa_endpoints _ Hw).
        -- right. right. right. destruct (decide (i = index)) as [->|];
             [exists a; apply list_lookup_insert_eq; by eapply lookup_lt_Some|].
           exists b. cbn. by rewrite list_lookup_insert_ne.
      * exfalso. by apply (only_start (endpoints w) known others).
    + intros known [[= ->]|Hin]%elem_of_cons i b; [|by exfalso; apply (only_start (endpoints w) known others)].
      intros [(<- & [= ->] & _)|[_ Hb]]%list_lookup_insert_Some; [done|]. apply (Hr (endpoints w)); [by left|done].
  - exists (known_by w). split; [done|]. split; [|done]. split; try done. intros known Hin i Hlt.
    destruct (Hk known Hin i Hlt) as [?|[?|[[a Ha]|?]]]; [by left|by right; left| |by right; right; right].
    right. right. left. exists a. rewrite Ee in Ha. by apply elem_of_cons in Ha as [?|?].
Qed.

Lemma wp_await_start turns window started w :
  fair w →
  wp (await_start (T := T) turns (imap pair nodes) window started w) (known_by w)
    (λ o r, (∃ known, r = [Known known]) ∧ ∀ w', o = Some w' → fair w' ∧ informed w' ∧ r = known_by w').
Proof.
  revert w. induction turns as [|turns IH]; intros w Hw; cbn [await_start]; [by split; [eexists|]|].
  eapply wp_seq; [apply wp_sweep; [apply numbered|done]|]. intros [w1|] r [-> Hone]; [|by split; [eexists|]].
  destruct (Hone w1 eq_refl) as [Hw1 E1]. replace (known_by w) with (known_by w1) by (unfold known_by; by rewrite E1).
  apply wp_bind, wp_look. intros at_instant. destruct (can_start _ _ w1) eqn:Ec.
  { split; [by eexists|]. intros w' [= <-]. split; [done|]. split; [by eapply can_start_informed|done]. }
  apply wp_bind, wp_next_event; [done| |by apply IH|by apply IH|].
  - intros index a Ha. apply wp_bind. eapply wp_act; [done|]. intros s others Hi. exists (), s. split; [|split; [done|]].
    + rewrite bool_decide_eq_true_2; [done|]. by rewrite (fa_endpoints _ Hw1).
    + apply IH. by apply fair_endpoints.
  - intros Hn. split; [by eexists|]. by intros w' [= <-].
Qed.

Lemma collect_settled log w lines :
  fair w → informed w → (∀ index a, endpoints w !! index = Some (Some a) → found log index a) →
  Forall2 told nodes lines → outcome_ok log (collect_one w lines <$> seq 0 (length nodes)).
Proof.
  intros Hw Hi Hk Hl. split; [by rewrite length_fmap, length_seq|]. intros index n Hn.
  pose proof (lookup_lt_Some _ _ _ Hn) as Hlt. exists (collect_one w lines index). split.
  { rewrite list_lookup_fmap, lookup_seq_lt by done. done. }
  split; [done| |].
  { cbn. destruct (endpoints w !! index) as [[a|]|] eqn:Ea; [|by left..]. right. by apply Hk. }
  destruct (Forall2_lookup_l _ _ _ _ _ Hl Hn) as (line & El & Ht).
  destruct (lookup_lt_is_Some_2 (finished w) index) as [f Ef]; [by rewrite (fa_finished _ Hw)|].
  unfold collect_one. cbn. rewrite Ef. destruct f as [[j|e]|].
  - by destruct (fa_ends _ Hw _ _ _ Hn Ef) as [Hj _].
  - by destruct (fa_ends _ Hw _ _ _ Hn Ef) as [_ Ha].
  - rewrite El. destruct (Hi index n Hn) as [a Ha]; [unfold is_finished; by rewrite Ef|]. rewrite Ha. split; [by apply Hk|done].
Qed.

Lemma wp_dial_routes turns window known :
  known = replicate (length nodes) None →
  wp (dial_routes (T := T) turns nodes window) [Known known] (λ _ r, Forall leftover r).
Proof.
  intros ->. unfold dial_routes. apply wp_bind, wp_look. intros started.
  eapply wp_seq; [apply wp_await_start, fair_first|]. intros [w|] r [[known ->] Hr]; [|by repeat constructor].
  destruct (Hr w eq_refl) as (Hw & Hi & [= ->]). eapply (wp_store _ _ _ _ [Known (endpoints w)]); [done| |by repeat constructor].
  intros s others [Hl He Hf Ho Hs Hone Hk Hright _]. split; try done.
  intros ds [= <-]. apply collect_settled; [done|done| |done]. apply Hright. by left.
Qed.

(** ** The whole start *)

(** The clock, the session's flag, the listeners, the service, the network and what
    names resolve to are others', and may change at any moment; the channels, the record
    of the lookups and the outcome are not. *)
Definition beside (e : event (Dials T)) : Prop :=
  match e with
  | Call _ => False
  | Turn _ => True
  | Environment f => ∀ s, dial_lines (f s) = dial_lines s ∧ dial_events (f s) = dial_events s ∧
      senders (f s) = senders s ∧ lookups (f s) = lookups s ∧ outcome (f s) = outcome s
  end.

Lemma dials_beside_ok e : beside e → event_ok inv (λ _, True) leftover e.
Proof.
  destruct e as [m|i|f]; [done|done|]. intros Hf s toks [].
  destruct (Hf s) as (El & Ee & Es & Ek & Eo). split; unfold queued; by rewrite ?El, ?Ee, ?Es, ?Ek, ?Eo.
Qed.

Definition first_tokens : list (list Token) :=
  ((λ index, [Fresh index]) <$> seq 0 (length nodes)) ++ [[Known (replicate (length nodes) None)]].

Lemma mjoin_first : mjoin first_tokens = (Fresh <$> seq 0 (length nodes)) ++ [Known (replicate (length nodes) None)].
Proof.
  unfold first_tokens. rewrite join_app. f_equal. induction (seq 0 (length nodes)) as [|i l IH]; [done|].
  cbn [fmap list_fmap mjoin list_join app]. by f_equal.
Qed.

Lemma omap_fresh (l : list nat) : omap fresh (Fresh <$> l) = l.
Proof. induction l as [|i l IH]; [done|]. cbn. by f_equal. Qed.

Lemma first_inv at_instant service network names :
  inv (first_dials (T := T) (length nodes) at_instant service network names) (mjoin first_tokens).
Proof.
  rewrite mjoin_first. split; cbn.
  - apply Forall2_same_length_lookup_2; [by rewrite length_replicate|]. intros i n l _ [-> _]%lookup_replicate. constructor.
  - by intros index a ?%elem_of_nil.
  - intros index a [(i & ? & _)%list_elem_of_fmap|?%list_elem_of_singleton]%elem_of_app; done.
  - rewrite app_nil_r, omap_app, app_nil_r, omap_fresh. apply NoDup_seq.
  - rewrite filter_app, length_app, (filter_all _ (Fresh <$> _)) by (by intros t (i & -> & _)%list_elem_of_fmap).
    rewrite filter_cons_False, filter_nil, length_fmap, length_seq by done. cbn [length]. lia.
  - by rewrite filter_app, length_app, (filter_none _ (Fresh <$> _)) by (by intros t (i & -> & _)%list_elem_of_fmap).
  - intros known Hin index Hlt. left. apply elem_of_app. left. apply list_elem_of_fmap. exists index. split; [done|].
    apply elem_of_seq. lia.
  - intros known Hin index a Ha. apply elem_of_app in Hin as [(i & ? & _)%list_elem_of_fmap|Hin%list_elem_of_singleton]; [done|].
    injection Hin as ->. by apply lookup_replicate in Ha as [? _].
  - done.
Qed.

Lemma first_pool turns window :
  pool_ok inv (λ _, True) leftover (dial_pool (T := T) turns nodes window) first_tokens.
Proof.
  split; [|by apply Forall_true]. unfold dial_pool, first_tokens. apply Forall2_app.
  - apply Forall2_same_length_lookup_2; [by rewrite length_imap, length_fmap, length_seq|].
    intros i m r Hm Hr. rewrite list_lookup_imap in Hm. apply fmap_Some in Hm as (n & Hn & ->).
    rewrite list_lookup_fmap, lookup_seq_lt in Hr by (by eapply lookup_lt_Some). injection Hr as <-. by apply wp_dial_thread.
  - constructor; [by apply wp_dial_routes|constructor].
Qed.

(** ** What the session makes of it *)

Definition from_dial (ds : list (DialledRoute T)) (r : SessionRoute T) : Prop :=
  ∃ d, d ∈ ds ∧ route_number r = dialled_index d + 1 ∧ route_endpoints r = dialled_endpoints d ∧
    (open_path r = None → ∃ l, start d = Joining l).

Lemma take_all_from labels l (st st' : @Starting T) :
  take_all nodes labels l st = Ret st' → ∀ r, r ∈ routes st' → r ∈ routes st ∨ from_dial l r.
Proof.
  revert st. induction l as [|d l IH]; intros st; cbn [take_all]; [by intros [= <-]; left|].
  unfold take_dialled at 1. destruct (idx nodes (dialled_index d)) as [n|]; [|done]. cbn [mbind run_bind].
  assert (∀ s1 : @Starting T, take_all nodes labels l s1 = Ret st' → (∀ r, r ∈ routes s1 → r ∈ routes st ∨ from_dial [d] r) →
    ∀ r, r ∈ routes st' → r ∈ routes st ∨ from_dial (d :: l) r) as Hstep.
  { intros s1 Hs1 Hr r Hin. destruct (IH s1 Hs1 r Hin) as [[?|(d' & ->%list_elem_of_singleton & ?)]%Hr|(d' & ? & ?)];
      [by left|..]; right; [exists d|exists d']; (split; [|done]); [by left|by right]. }
  destruct (start d) as [joined|reason|line] eqn:Ed; [case_bool_decide|..]; intros Hs; (eapply Hstep; [exact Hs|]);
    intros r Hin; cbn in Hin; [by left| |by left|];
    (apply elem_of_app in Hin as [?| ->%list_elem_of_singleton]; [by left|]); right; exists d;
    (split; [by left|]); split_and!; try done; intros _; by eexists.
Qed.

Lemma link_endpoints_bypassed relay_ip (l : list (SessionRoute T)) r a :
  r ∈ l → a ∈ route_endpoints r → a ∈ bypass_addresses relay_ip l.
Proof.
  intros Hr Ha. unfold bypass_addresses. rewrite PathMtu.dedup_elem, sort_by_perm. apply elem_of_cons. right.
  apply list_elem_of_bind. exists r. split; [|done]. apply elem_of_app. by right.
Qed.

(** Where a node's own connection may go while names resolve as they do: the endpoint
    of its file, a proxy that is not this PC's own, a server and the address that
    Windows reached it by, every remote of a provider's file. *)
Definition may_dial (names : Names) n (a : list byte) : Prop :=
  match n with
  | WireGuard config _ => ∃ text, configured_endpoint config = Some text ∧ a ∈ names (Node.Joined text)
  | Socks5 host port _ _ _ => is_loopback_proxy n = false ∧ a ∈ names (Apart (trim host) port)
  | Adapter _ _ => False
  | L2tp server _ _ _ _ runtime _ _ =>
      a ∈ names (Apart (trim server) 0) ∨ ∃ dialled, runtime = Some dialled ∧ a = server_address dialled
  | OpenVpn config _ _ _ =>
      ∃ parsed remote, OvpnConfig.parse config = Ok parsed ∧ remote ∈ remotes parsed ∧
        a ∈ names (Apart (Remote.host remote) (Remote.port remote))
  end.

Lemma endpoints_may_dial names n a : a ∈ endpoint_ipv4s names n ↔ may_dial names n a.
Proof.
  unfold endpoint_ipv4s. rewrite PathMtu.dedup_elem, sort_by_perm. destruct n; cbn [may_dial].
  - destruct (configured_endpoint config) as [text|]; cbn; [|by split; [intros ?%elem_of_nil|intros (? & ? & _)]].
    split; [by exists text|]. by intros (? & [= ->] & ?).
  - destruct (is_loopback_proxy _); [|by split; [|intros [_ ?]]]. by split; [intros ?%elem_of_nil|intros [? _]].
  - destruct (OvpnConfig.parse config) as [parsed|]; [|by split; [intros ?%elem_of_nil|intros (? & ? & ? & _)]].
    rewrite list_elem_of_bind. split.
    + intros (remote & Ha & Hr). by exists parsed, remote.
    + intros (? & remote & [= <-] & Hr & Ha). by exists remote.
  - by split; [intros ?%elem_of_nil|].
  - rewrite elem_of_app. destruct runtime as [dialled|]; cbn.
    + rewrite list_elem_of_singleton. split; [intros [?| ->]; [by left|right; by exists dialled]|].
      intros [?|(? & [= <-] & ->)]; auto.
    + split; [intros [?|?%elem_of_nil]; [by left|done]|]. intros [?|(? & ? & _)]; [by left|done].
Qed.

(** C29. The start of a session. Every node is dialled on a thread of its own; in any
    interleaving of these threads and of the one that waits for them, whatever the clock,
    the network, the service and the names' addresses do meanwhile, nothing panics. When
    the wait is over there is one outcome for each node, in order: a transport, with the
    node it can be opened by again; a failure; or a dial that goes on, whose reports so
    far are honest. Each dial has looked its node up at most once, and, in the session
    that is then started, every address that this lookup found for a route that is still
    dialling, of every server that the node names, is kept out of the capture. Of a route
    that is open already, and of addresses that a later lookup finds, this says nothing:
    a route that joins from one of those is refused by the gate. *)
Theorem joining_routes_are_bypassed turns window at_instant service network names events :
  Forall beside events →
  ∃ s pool,
    machine_run (first_dials (T := T) (length nodes) at_instant service network names, dial_pool turns nodes window)
      events = Ret (s, pool) ∧
    NoDup (fst <$> lookups s) ∧
    ∀ ds, outcome s = Some ds →
      outcome_ok (lookups s) ds ∧
      ∀ labels relay_ip strategy, ∃ started,
        start_routes nodes labels relay_ip strategy ds = Ret started ∧
        ∀ rs, started = Ok rs → ∀ r, r ∈ session_routes rs → open_path r = None →
          ∃ index n names_then, route_number r = Z.of_nat index + 1 ∧ nodes !! index = Some n ∧
            (index, names_then) ∈ lookups s ∧ ∀ a, may_dial names_then n a → a ∈ bypass_ips rs.
Proof.
  intros He. destruct (machine_run_ok inv (λ _, True) dials_perm leftover I dials_drop) with (pool :=
    dial_pool (T := T) turns nodes window) (rs := first_tokens) (events := events)
    (s := first_dials (T := T) (length nodes) at_instant service network names) as (s & pool & rs & Hrun & _ & Hi).
  { apply first_pool. } { apply first_inv. } { eapply Forall_impl; [exact He|]. apply dials_beside_ok. }
  exists s, pool. split; [done|]. split; [by pose proof (iv_once _ _ Hi) as (_ & _ & ?)%NoDup_app|].
  intros ds Hds. pose proof (iv_outcome _ _ Hi ds Hds) as Hok. split; [done|].
  intros labels relay_ip strategy. destruct Hok as [Hlen Hok].
  assert (∀ i d, ds !! i = Some d → ∃ n, nodes !! i = Some n ∧ settled (lookups s) d i n) as Hds'.
  { intros i d Hd. destruct (lookup_lt_is_Some_2 nodes i) as [n Hn]; [rewrite <-Hlen; by eapply lookup_lt_Some|].
    destruct (Hok i n Hn) as (d' & Hd' & Hs). exists n. split; [done|]. by replace d with d' by congruence. }
  destruct (take_all_started nodes labels ds [] (@mk_starting T [] [] [])) as (st & Hst & _).
  { apply Forall_forall. intros d [i Hd]%list_elem_of_lookup. destruct (Hds' i d Hd) as (n & Hn & [-> _ _]).
    apply lookup_lt_Some in Hn. unfold zlen. lia. }
  { apply started_first. }
  unfold start_routes. rewrite Hst. cbn [mbind run_bind].
  destruct (negb (existsb is_open (routes st))); (eexists; split; [done|]); [done|].
  intros rs' [= <-] r Hr Hopen. cbn [session_routes] in Hr.
  destruct (take_all_from _ _ _ _ Hst r Hr) as [Hnil|(d & Hd & Hnum & Hep & Hj)]; [by apply elem_of_nil in Hnil|].
  apply list_elem_of_lookup in Hd as [i Hd]. destruct (Hds' i d Hd) as (n & Hn & [Hix _ Hstart]).
  destruct (Hj Hopen) as [l El]. rewrite El in Hstart. destruct Hstart as [(names_then & n' & Hin & Hn' & Ha) _].
  assert (n' = n) as -> by congruence. exists i, n, names_then. split_and!; [by rewrite Hnum, Hix|done|done|].
  intros a Hmay%endpoints_may_dial. eapply link_endpoints_bypassed; [done|]. by rewrite Hep, Ha.
Qed.
End dialling.

(** *** A concrete start *)

Module ToyDial.
Export JoinTheorems.ToyJoin.
#[export] Existing Instances WireGuardConfig.ToyPlatform.platform OvpnConfig.ToyPem.pem.

(** Every key that is written here is one of 32 bytes. *)
#[export] Instance toy_base64 : Base64 := {| decode64 _ := Some (replicate 32 x07) |}.

(** A name with two addresses, and what it resolves to later. *)
Definition resolve (t : Target) : list (list byte) := [address 1; address 2].
Definition resolve_later (t : Target) : list (list byte) := [address 7].

Definition proxy : NodeSpec := Socks5 (str "proxy.example") 1080 None None None.
Definition provider : NodeSpec := WireGuard toy_config None.

(** The provider's server answers on its first address; the proxy refuses. *)
Definition answers (index : nat) : result (list byte) Z :=
  match index with O => Ok 1 | _ => Err (str "refused") end.

(** A tenth of a second passes; after the first second names resolve anew. *)
Definition time_passes (d : Dials Z) : Dials Z :=
  mk_dials (dial_clock d + ms 100) (dial_stop d) (dial_lines d) (listening d) (dial_events d) (senders d) (service d)
    (network d) (if dial_clock d <? secs 1 then names d else resolve_later) (lookups d) (outcome d).

(** Each thread takes its turns; the threads that are done leave the pool. *)
Definition fair_turns : list (event (Dials Z)) :=
  mjoin (replicate 12 [Turn 2; Turn 1; Turn 0; Environment time_passes])
  ++ mjoin (replicate 20 [Turn 1; Turn 0; Environment time_passes]).

Definition toy_run (nodes : list NodeSpec) (events : list (event (Dials Z))) :=
  machine_run (first_dials (length nodes) 0 (λ _, Pending) answers resolve, dial_pool 30 nodes START_RETRY_WINDOW)
    events.

(** One node is open, and the other dials on with both of its addresses known. *)
Lemma toy_start :
  match toy_run [provider; proxy] fair_turns with
  | Ret (s, _) =>
      match outcome s with
      | Some [mk_dialled 0 _ _ (Open j); mk_dialled 1 addresses (Some note) (Joining _)] =>
          joined_path j = 1 ∧ addresses = [address 1; address 2] ∧ note = retrying_note 1 (str "refused")
      | _ => False
      end
  | Panic => False
  end.
Proof. vm_compute. done. Qed.

(** A dial that is over before the start first looks: the start goes on at once, since
    a finished dial need not be resolved, and drops the addresses that wait in the
    channel of events. The session keeps the address that the route opened on out of
    the capture, and not the other one that a redial may land on. *)
Lemma open_route_may_forget_its_addresses :
  match toy_run [provider] (replicate 40 (Turn 0)) with
  | Ret (s, _) =>
      head (dial_events s) = Some (Resolved 0 [address 1; address 2]) ∧
      match outcome s with
      | Some ds =>
          dialled_endpoints <$> ds = [[]] ∧
          match start_routes [provider] [] (address 255) AllPaths ds with
          | Ret (Ok rs) => bypass_ips rs = [address 1; address 255]
          | _ => False
          end
      | None => False
      end
  | Panic => False
  end.
Proof. by vm_compute. Qed.
End ToyDial.
Import ToyDial.

Lemma joining_routes_are_bypassed_witness :
  ∃ s pool, toy_run [provider; proxy] fair_turns = Ret (s, pool) ∧
    NoDup (fst <$> lookups s) ∧
    ∀ ds, outcome s = Some ds →
      outcome_ok [provider; proxy] (lookups s) ds ∧
      ∀ labels relay_ip strategy, ∃ started,
        start_routes [provider; proxy] labels relay_ip strategy ds = Ret started ∧
        ∀ rs, started = Ok rs → ∀ r, r ∈ session_routes rs → open_path r = None →
          ∃ index n names_then, route_number r = Z.of_nat index + 1 ∧ [provider; proxy] !! index = Some n ∧
            (index, names_then) ∈ lookups s ∧ ∀ a, may_dial names_then n a → a ∈ bypass_ips rs.
Proof.
  apply (joining_routes_are_bypassed [provider; proxy]). unfold fair_turns.
  apply Forall_app. split; apply Forall_join, Forall_replicate; repeat constructor.
Defined.
