(* ===== verification/OvpnCrypto.v ===== *)
(** * OpenVPN key derivation and the data channel

    Models [engine/src/openvpn/crypto.rs]. HMAC, the AEADs, the AES block cipher
    and its counter mode are other crates: the interface [Primitives] with its
    documented laws. Everything built on them is here: the TLS 1.0 PRF and the key
    expansion, CBC chaining with its padding and HMAC, the packet layouts, packet
    ids and the replay window of 64 ids. A random IV is an argument. *)
From S2P Require Import Prelude OvpnX509 OvpnConfig.

(** A message of several parts is their concatenation: every keyed hash reads them
    one after the other. Keys are those their constructors accept. *)
Class Primitives : Type := {
  mac : Digest → list byte → list byte → list byte;
  aead_seal : DataCipher → list byte → list byte → list byte → list byte → option (list byte * list byte);
  aead_open : DataCipher → list byte → list byte → list byte → list byte → list byte → option (list byte);
  block_encrypt : list byte → list byte → list byte;
  block_decrypt : list byte → list byte → list byte;
  ctr_apply : list byte → list byte → list byte → list byte
}.

Class PrimitiveLaws `{!Primitives} : Prop := {
  mac_length d k m : zlen (mac d k m) = output_len d;
  aead_open_iff c k n a t ct m :
    aead_open c k n a t ct = Some m ↔ aead_seal c k n a m = Some (t, ct);
  aead_length c k n a m t ct : aead_seal c k n a m = Some (t, ct) → zlen t = 16 ∧ zlen ct = zlen m;
  block_length k b : zlen b = 16 → zlen (block_encrypt k b) = 16 ∧ zlen (block_decrypt k b) = 16;
  block_inverse k b : zlen b = 16 → block_decrypt k (block_encrypt k b) = b;
  ctr_length k iv m : zlen (ctr_apply k iv m) = zlen m;
  ctr_involutive k iv m : ctr_apply k iv (ctr_apply k iv m) = m
}.

Definition TAG_LEN : Z := 16.

Definition PING : list byte :=
  [x2a; x18; x7b; xf3; x64; x1e; xb4; xcb; x07; xed; x2d; x0a; x98; x1f; xc7; x48].

(** The random material one side contributes. *)
Record KeySource : Type := mk_source {
  pre_master : list byte;
  random1 : list byte;
  random2 : list byte
}.

(** [l1.iter().zip(l2).map(^)]. *)
Definition xor_bytes (l k : list byte) : list byte := zip_with bxor l k.

(** ** Key derivation *)

Section derivation.
Context `{!Primitives}.

(** Every turn adds a whole output, so [length] turns are enough. *)
Fixpoint p_hash_loop (fuel : nat) (d : Digest) (secret seed a output : list byte) (length : Z) : list byte :=
  match fuel with
  | O => output
  | S fuel' =>
      if length <=? zlen output then output
      else p_hash_loop fuel' d secret seed (mac d secret a) (output ++ mac d secret (a ++ seed)) length
  end.

Definition p_hash (d : Digest) (secret seed : list byte) (length : Z) : list byte :=
  take (Z.to_nat length) (p_hash_loop (Z.to_nat length) d secret seed (mac d secret seed) [] length).

Definition tls1_prf (secret seed : list byte) (length : Z) : run (list byte) :=
  let half := (zlen secret + 1) / 2 in
  first ← slice secret 0 half;
  second ← slice secret (zlen secret - half) (zlen secret);
  Ret (xor_bytes (p_hash Md5 first seed length) (p_hash Sha1 second seed length)).

Definition openvpn_prf (secret label client_seed server_seed : list byte)
    (session_ids : option (list byte * list byte)) (length : Z) : run (list byte) :=
  let seed := label ++ client_seed ++ server_seed ++
    match session_ids with Some (client_sid, server_sid) => client_sid ++ server_sid | None => [] end in
  tls1_prf secret seed length.

(** 256 bytes: two keys of 64 bytes of cipher and 64 bytes of HMAC material. *)
Definition KeyMaterial : Type := list byte.

Definition derive (client : KeySource) (server_random1 server_random2 client_session_id server_session_id : list byte)
    : run KeyMaterial :=
  master ← openvpn_prf (pre_master client) (str "OpenVPN master secret") (random1 client) server_random1
             None 48;
  expanded ← openvpn_prf master (str "OpenVPN key expansion") (random2 client) server_random2
               (Some (client_session_id, server_session_id)) 256;
  if zlen expanded =? 256 then Ret expanded else Panic.

End derivation.

Definition cipher_key (material : KeyMaterial) (index length : Z) : run (list byte) :=
  slice material (index * 128) (index * 128 + length).
Definition hmac_key (material : KeyMaterial) (index length : Z) : run (list byte) :=
  slice material (index * 128 + 64) (index * 128 + 64 + length).
Definition implicit_iv (material : KeyMaterial) (index : Z) : run (list byte) :=
  slice material (index * 128 + 64) (index * 128 + 72).

(** ** CBC *)

Definition CBC_BLOCK : Z := 16.

Section cbc.
Context `{!Primitives}.

(** Whole blocks of the buffer; what is left of it stays as it is. *)
Fixpoint cbc_encrypt (fuel : nat) (key previous buffer : list byte) : list byte :=
  match fuel with
  | O => buffer
  | S fuel' =>
      if zlen buffer <? CBC_BLOCK then buffer else
      let block := block_encrypt key (xor_bytes (take 16 buffer) previous) in
      block ++ cbc_encrypt fuel' key block (drop 16 buffer)
  end.

Fixpoint cbc_decrypt (fuel : nat) (key previous buffer : list byte) : list byte :=
  match fuel with
  | O => buffer
  | S fuel' =>
      if zlen buffer <? CBC_BLOCK then buffer else
      let ciphertext := take 16 buffer in
      xor_bytes (block_decrypt key ciphertext) previous ++ cbc_decrypt fuel' key ciphertext (drop 16 buffer)
  end.

End cbc.

(** ** Protection of one direction *)

Inductive Protection : Type :=
| Aead (cipher : DataCipher) (key implicit_iv : list byte)
| Cbc (key : list byte) (digest : Digest) (hmac_key : list byte).

Definition WRONG_LENGTH : list byte := str "the derived data-channel key is the wrong length".

(** A cipher's [new_from_slice] accepts a key of its own length. *)
Definition new_protection (material : KeyMaterial) (index : Z) (cipher : DataCipher) (digest : Digest)
    : run (result Error Protection) :=
  key ← cipher_key material index (key_len cipher);
  if is_aead cipher then
    if negb (zlen key =? key_len cipher) then Ret (Err WRONG_LENGTH) else
    iv ← implicit_iv material index;
    Ret (Ok (Aead cipher key iv))
  else
    if negb (zlen key =? key_len cipher) then Ret (Err WRONG_LENGTH) else
    hmac ← hmac_key material index (output_len digest);
    Ret (Ok (Cbc key digest hmac)).

(** ** The replay window *)

Module Window.

Record t : Type := mk { highest : Z; seen : Z }.

Definition new : t := mk 0 0.

Definition accept (w : t) (packet_id : Z) : bool * t :=
  if packet_id =? 0 then (false, w)
  else if highest w <? packet_id then
    let shift := packet_id - highest w in
    let seen := if 64 <=? shift then 0 else wrap64 (Z.shiftl (seen w) shift) in
    (true, mk packet_id (Z.lor seen 1))
  else
    let behind := highest w - packet_id in
    if 64 <=? behind then (false, w) else
    let mask := Z.shiftl 1 behind in
    if negb (Z.land (seen w) mask =? 0) then (false, w)
    else (true, mk (highest w) (Z.lor (seen w) mask)).

End Window.

(** ** The data channel *)

Definition P_DATA_V1 : Z := 6.
Definition P_DATA_V2 : Z := 9.
Definition u32_max : Z := 2 ^ 32 - 1.

Record DataChannel : Type := mk_channel {
  seal_with : Protection;
  open_with : Protection;
  peer_id : option Z;
  key_id : Z;
  next_packet_id : Z;
  replay : Window.t
}.

Definition with_packet_id (c : DataChannel) (n : Z) : DataChannel :=
  mk_channel (seal_with c) (open_with c) (peer_id c) (key_id c) n (replay c).
Definition with_replay (c : DataChannel) (w : Window.t) : DataChannel :=
  mk_channel (seal_with c) (open_with c) (peer_id c) (key_id c) (next_packet_id c) w.

Definition new_channel (material : KeyMaterial) (cipher : DataCipher) (digest : Digest)
    (peer_id : option Z) (key_id : Z) : run (result Error DataChannel) :=
  seal ← new_protection material 0 cipher digest;
  match seal with
  | Err e => Ret (Err e)
  | Ok seal =>
      open ← new_protection material 1 cipher digest;
      match open with
      | Err e => Ret (Err e)
      | Ok open => Ret (Ok (mk_channel seal open peer_id key_id 1 Window.new))
      end
  end.

Definition nonce (implicit : list byte) (packet_id : Z) : list byte := be_bytes 4 packet_id ++ implicit.

Definition RENEGOTIATE : list byte :=
  str "this OpenVPN session has sent as many packets as its keys allow and has to be renegotiated".

(** The opcode and the peer id in front of a packet. *)
Definition data_header (c : DataChannel) : list byte :=
  match peer_id c with
  | Some peer_id =>
      be_bytes 4 (Z.lor (Z.shiftl (Z.lor (Z.shiftl P_DATA_V2 3) (key_id c)) 24) (Z.land peer_id 0xffffff))
  | None => [z2b (Z.lor (Z.shiftl P_DATA_V1 3) (key_id c))]
  end.

Section channel.
Context `{!Primitives}.

(** A call of the AEAD, and the key and the nonce that it was made with: what seals
    the bytes is what writes the record. *)
Definition aead_call (cipher : DataCipher) (key nonce header body : list byte)
    : option (list byte * list byte) * list (list byte * list byte) :=
  (aead_seal cipher key nonce header body, [(key, nonce)]).

(** One packet sealed, with the record of the calls of the AEAD that it took. *)
Definition seal_recorded (c : DataChannel) (iv packet : list byte)
    : (result Error (list byte) * DataChannel) * list (list byte * list byte) :=
  let packet_id := next_packet_id c in
  if packet_id =? u32_max then (Err RENEGOTIATE, c, []) else
  let c := with_packet_id c (packet_id + 1) in
  let framed := data_header c in
  match seal_with c with
  | Aead cipher key implicit =>
      let framed := framed ++ be_bytes 4 packet_id in
      match aead_call cipher key (nonce implicit packet_id) framed packet with
      | (None, calls) => (Err (str "could not encrypt an OpenVPN data packet"), c, calls)
      | (Some (tag, body), calls) => (Ok (framed ++ tag ++ body), c, calls)
      end
  | Cbc key digest hmac =>
      let plain_len := 4 + zlen packet in
      let padding := CBC_BLOCK - plain_len mod CBC_BLOCK in
      let body := be_bytes 4 packet_id ++ packet ++ replicate (Z.to_nat padding) (z2b padding) in
      let body := cbc_encrypt (length body) key iv body in
      (Ok (framed ++ mac digest hmac (iv ++ body) ++ iv ++ body), c, [])
  end.

Definition seal (c : DataChannel) (iv packet : list byte) : result Error (list byte) * DataChannel :=
  (seal_recorded c iv packet).1.

Definition TRUNCATED : list byte := str "an OpenVPN data packet was truncated".
Definition NOT_AUTHENTIC : list byte := str "an OpenVPN data packet did not authenticate".
Definition BAD_PADDING : list byte := str "an OpenVPN data packet had invalid padding".

(** The packet id and the body of a packet whose opcode takes [opcode_len] bytes. *)
Definition unwrap_aead (cipher : DataCipher) (key implicit : list byte) (opcode_len : Z) (packet : list byte)
    : run (result Error (Z * list byte)) :=
  let header_len := opcode_len + 4 in
  if zlen packet <? header_len + TAG_LEN then Ret (Err TRUNCATED) else
  id ← slice packet opcode_len header_len;
  let packet_id := be_Z id in
  header ← slice packet 0 header_len;
  tag ← slice packet header_len (header_len + TAG_LEN);
  ciphertext ← slice packet (header_len + TAG_LEN) (zlen packet);
  match aead_open cipher key (nonce implicit packet_id) header tag ciphertext with
  | None => Ret (Err NOT_AUTHENTIC)
  | Some body => Ret (Ok (packet_id, body))
  end.

Definition unwrap_cbc (key : list byte) (digest : Digest) (hmac : list byte) (opcode_len : Z) (packet : list byte)
    : run (result Error (Z * list byte)) :=
  rest ← slice packet opcode_len (zlen packet);
  let tag_len := output_len digest in
  let ciphertext_len := sat_sub (zlen rest) (tag_len + CBC_BLOCK) in
  if (ciphertext_len <? CBC_BLOCK) || negb (ciphertext_len mod CBC_BLOCK =? 0) then Ret (Err TRUNCATED) else
  tag ← slice rest 0 tag_len;
  iv ← slice rest tag_len (tag_len + CBC_BLOCK);
  ciphertext ← slice rest (tag_len + CBC_BLOCK) (zlen rest);
  if negb (bool_decide (mac digest hmac (iv ++ ciphertext) = tag)) then Ret (Err NOT_AUTHENTIC) else
  let body := cbc_decrypt (length ciphertext) key iv ciphertext in
  last ← unwrap (last body);
  let padding := b2z last in
  if (padding =? 0) || (CBC_BLOCK <? padding) || (zlen body <? 4 + padding) then Ret (Err BAD_PADDING) else
  pad ← slice body (zlen body - padding) (zlen body);
  if existsb (λ byte, negb (b2z byte =? padding)) pad then Ret (Err BAD_PADDING) else
  let body := take (Z.to_nat (zlen body - padding)) body in
  id ← slice body 0 4;
  Ret (Ok (be_Z id, drop 4 body)).

Definition open (c : DataChannel) (packet : list byte) : run (result Error (option (list byte)) * DataChannel) :=
  match packet with
  | [] => Ret (Err (str "an OpenVPN data packet was empty"), c)
  | first :: _ =>
      let opcode := Z.shiftr (b2z first) 3 in
      if negb (opcode =? P_DATA_V2) && negb (opcode =? P_DATA_V1) then
        Ret (Err (str "opcode " ++ Text.number opcode ++ str " is not an OpenVPN data packet"), c)
      else
        let opcode_len := if opcode =? P_DATA_V2 then 4 else 1 in
        unwrapped ← match open_with c with
                    | Aead cipher key implicit => unwrap_aead cipher key implicit opcode_len packet
                    | Cbc key digest hmac => unwrap_cbc key digest hmac opcode_len packet
                    end;
        match unwrapped with
        | Err e => Ret (Err e, c)
        | Ok (packet_id, body) =>
            let '(fresh, w) := Window.accept (replay c) packet_id in
            let c := with_replay c w in
            if negb fresh then Ret (Ok None, c)
            else if bool_decide (body = PING) then Ret (Ok None, c)
            else Ret (Ok (Some body), c)
        end
  end.

Definition keepalive (c : DataChannel) (iv : list byte) : result Error (list byte) * DataChannel :=
  seal c iv PING.

End channel.

(** ** Keys of the control channel's wrappings *)

Record TlsAuthKeys : Type := mk_auth { send_key : list byte; receive_key : list byte; auth_digest : Digest }.

Definition new_tls_auth (key : StaticKey) (direction : KeyDirection) (digest : Digest) : run TlsAuthKeys :=
  let '(send, receive) := indexes direction in
  let size := output_len digest in
  s ← static_hmac key send;
  s ← slice s 0 size;
  r ← static_hmac key receive;
  r ← slice r 0 size;
  Ret (mk_auth s r digest).

Record TlsCryptKeys : Type := mk_crypt {
  send_cipher : list byte;
  send_hmac : list byte;
  receive_cipher : list byte;
  receive_hmac : list byte
}.

Definition new_tls_crypt (key : StaticKey) : run TlsCryptKeys :=
  let half (s : run (list byte)) := s ← s; slice s 0 32 in
  sc ← half (static_cipher key 1);
  sh ← half (static_hmac key 1);
  rc ← half (static_cipher key 0);
  rh ← half (static_hmac key 0);
  Ret (mk_crypt sc sh rc rh).

(** The first half of a tag is the initial counter block. *)
Definition tls_crypt_apply `{!Primitives} (key tag payload : list byte) : run (list byte) :=
  iv ← slice tag 0 16;
  Ret (ctr_apply key iv payload).

(** ** The replay window stands for a set *)

Module Spec.

Record t : Type := mk { top : Z; accepted : gset Z }.

Definition empty : t := mk 0 ∅.

Definition fresh (s : t) (id : Z) : bool :=
  negb (id =? 0) && (top s - id <? 64) && bool_decide (id ∉ accepted s).

Definition step (s : t) (id : Z) : bool * t :=
  if fresh s id then (true, mk (Z.max id (top s)) ({[id]} ∪ accepted s)) else (false, s).

End Spec.

Record represents (w : Window.t) (s : Spec.t) : Prop := {
  rp_top : Window.highest w = Spec.top s ∧ 0 <= Spec.top s;
  rp_seen : 0 <= Window.seen w < 2 ^ 64;
  rp_bits : ∀ i, 0 <= i < 64 → Z.testbit (Window.seen w) i = bool_decide (Spec.top s - i ∈ Spec.accepted s);
  rp_below : ∀ q, q ∈ Spec.accepted s → 0 < q <= Spec.top s
}.

Lemma represents_new : represents Window.new Spec.empty.
Proof.
  split; cbn; [done|done| |set_solver].
  intros i Hi. rewrite Z.bits_0. symmetry. apply bool_decide_eq_false. set_solver.
Qed.

Section window.
Context (w : Window.t) (s : Spec.t) (id : Z).
Hypothesis (Hrep : represents w s) (Hid : 0 <= id).

Lemma accept_newer :
  Window.highest w < id →
  Window.accept w id = (true, (Window.accept w id).2) ∧
  represents (Window.accept w id).2 (Spec.mk id ({[id]} ∪ Spec.accepted s)).
Proof.
  destruct Hrep as [[Ht H0] Hs Hb Hl]. intros Hlt. unfold Window.accept.
  destruct (Z.eqb_spec id 0); [lia|]. destruct (Z.ltb_spec (Window.highest w) id); [|lia].
  split; [done|]. rewrite Ht in *. set (shift := id - Spec.top s).
  set (seen := if 64 <=? shift then 0 else wrap64 (Z.shiftl (Window.seen w) shift)).
  assert (0 <= seen < 2 ^ 64) as Hseen.
  { unfold seen. destruct (64 <=? shift); [lia|]. apply Z.mod_pos_bound. lia. }
  assert (∀ i, 0 <= i < 64 → Z.testbit seen i = (shift <=? i) && Z.testbit (Window.seen w) (i - shift)) as Hbits.
  { intros i Hi. unfold seen. destruct (Z.leb_spec 64 shift), (Z.leb_spec shift i); try lia.
    - by rewrite Z.bits_0.
    - unfold wrap64. by rewrite Z.mod_pow2_bits_low, Z.shiftl_spec by lia.
    - unfold wrap64. rewrite Z.mod_pow2_bits_low, Z.shiftl_spec, Z.testbit_neg_r by lia. done. }
  split; cbn [snd Window.highest Window.seen Spec.top Spec.accepted].
  - lia.
  - apply lor_bound; lia.
  - intros i Hi. rewrite Z.lor_spec, Hbits by lia.
    destruct (decide (i = 0)) as [->|].
    { rewrite bool_decide_true by set_solver by lia. by rewrite orb_true_r. }
    change 1 with (2 ^ 0). rewrite Z.pow2_bits_false by lia. rewrite orb_false_r.
    destruct (Z.leb_spec shift i).
    + rewrite Hb by lia. simpl. apply bool_decide_ext. rewrite elem_of_union, elem_of_singleton.
      replace (Spec.top s - (i - shift)) with (id - i) by lia. split; [by right|]. intros [?|?]; [lia|done].
    + symmetry. apply bool_decide_eq_false. rewrite elem_of_union, elem_of_singleton.
      intros [?|Hin%Hl]; lia.
  - intros q. rewrite elem_of_union, elem_of_singleton. intros [->|Hq%Hl]; lia.
Qed.

Lemma accept_step :
  (Window.accept w id).1 = (Spec.step s id).1 ∧ represents (Window.accept w id).2 (Spec.step s id).2.
Proof.
  pose proof accept_newer as Hnew. destruct Hrep as [[Ht H0] Hs Hb Hl].
  unfold Spec.step, Spec.fresh. destruct (Z.eqb_spec id 0) as [->|Hz]; [done|].
  destruct (Z.ltb_spec (Window.highest w) id) as [Hlt|Hge].
  { destruct (Hnew Hlt) as [-> Hr]. rewrite Ht in Hlt. rewrite (proj2 (Z.ltb_lt _ _)) by lia.
    rewrite bool_decide_true by (intros ?%Hl; lia). cbn [negb andb fst snd].
    by rewrite Z.max_l by lia. }
  unfold Window.accept. rewrite (proj2 (Z.eqb_neq _ _) Hz), (proj2 (Z.ltb_ge _ _) Hge).
  rewrite Ht in *. destruct (Z.leb_spec 64 (Spec.top s - id)).
  { by rewrite (proj2 (Z.ltb_ge _ _)) by lia. }
  rewrite (proj2 (Z.ltb_lt _ _)), land_bit, Hb by lia.
  replace (Spec.top s - (Spec.top s - id)) with id by lia. cbn [negb andb].
  case_bool_decide as Hin; [by rewrite bool_decide_false by naive_solver|].
  rewrite bool_decide_true by done. cbn [fst snd]. split; [done|]. rewrite Z.max_r by lia.
  split; cbn [snd Window.highest Window.seen Spec.top Spec.accepted]; [done| | |].
  - rewrite Z.shiftl_1_l. apply lor_bound; [lia..|]. split; [lia|]. apply Z.pow_lt_mono_r; lia.
  - intros i Hi. rewrite Z.lor_spec, Hb, Z.shiftl_1_l by lia.
    destruct (decide (i = Spec.top s - id)) as [->|].
    + rewrite Z.pow2_bits_true, orb_true_r by lia. symmetry. apply bool_decide_eq_true.
      replace (Spec.top s - (Spec.top s - id)) with id by lia. set_solver.
    + rewrite Z.pow2_bits_false, orb_false_r by lia. apply bool_decide_ext.
      rewrite elem_of_union, elem_of_singleton. split; [by right|]. intros [?|?]; [lia|done].
  - intros q. rewrite elem_of_union, elem_of_singleton. intros [->|Hq%Hl]; lia.
Qed.

End window.

(** ** Lengths and inverses *)

Lemma xor_bytes_length l k : zlen (xor_bytes l k) = Z.min (zlen l) (zlen k).
Proof. unfold xor_bytes, zlen. rewrite length_zip_with. lia. Qed.

Lemma xor_bytes_involutive l k : zlen l <= zlen k → xor_bytes (xor_bytes l k) k = l.
Proof.
  unfold xor_bytes, zlen. revert k. induction l as [|a l IH]; intros [|b k] Hl; simpl in *; [done..|lia|].
  rewrite IH by lia. f_equal. rewrite bxor_assoc, bxor_nilpotent, bxor_comm. apply bxor_0_l.
Qed.

Lemma zlen_taken {A} (l : list A) n : Z.of_nat n <= zlen l → zlen (take n l) = Z.of_nat n.
Proof. unfold zlen. rewrite length_take. lia. Qed.

Lemma zlen_drop {A} (l : list A) n : Z.of_nat n <= zlen l → zlen (drop n l) = zlen l - Z.of_nat n.
Proof. unfold zlen. rewrite length_drop. lia. Qed.

Section cbc_laws.
Context `{!Primitives, !PrimitiveLaws}.

Lemma cbc_encrypt_length fuel key previous l :
  zlen previous = 16 → zlen (cbc_encrypt fuel key previous l) = zlen l.
Proof.
  revert previous l. induction fuel as [|fuel IH]; intros previous l Hp; [done|].
  cbn [cbc_encrypt]. unfold CBC_BLOCK. destruct (Z.ltb_spec (zlen l) 16); [done|].
  assert (zlen (xor_bytes (take 16 l) previous) = 16) as Hx by (rewrite xor_bytes_length, zlen_taken; lia).
  destruct (block_length key _ Hx) as [Hb _].
  rewrite zlen_app, Hb, IH by done. rewrite zlen_drop; lia.
Qed.

Lemma cbc_decrypt_length fuel key previous l :
  zlen previous = 16 → zlen (cbc_decrypt fuel key previous l) = zlen l.
Proof.
  revert previous l. induction fuel as [|fuel IH]; intros previous l Hp; [done|].
  cbn [cbc_decrypt]. unfold CBC_BLOCK. destruct (Z.ltb_spec (zlen l) 16); [done|].
  assert (zlen (take 16 l) = 16) as Hx by (rewrite zlen_taken; lia).
  destruct (block_length key _ Hx) as [_ Hb].
  rewrite zlen_app, xor_bytes_length, Hb, IH by done. rewrite zlen_drop; lia.
Qed.

Lemma cbc_round_trip fuel key previous l :
  zlen previous = 16 → (length l <= fuel)%nat →
  cbc_decrypt fuel key previous (cbc_encrypt fuel key previous l) = l.
Proof.
  revert previous l. induction fuel as [|fuel IH]; intros previous l Hp Hf; [done|].
  cbn [cbc_encrypt]. unfold CBC_BLOCK. destruct (Z.ltb_spec (zlen l) 16) as [Hs|Hs].
  { cbn [cbc_decrypt]. unfold CBC_BLOCK. by rewrite (proj2 (Z.ltb_lt _ _)) by lia. }
  assert (zlen (xor_bytes (take 16 l) previous) = 16) as Hx by (rewrite xor_bytes_length, zlen_taken; lia).
  destruct (block_length key _ Hx) as [Hb _]. set (b := block_encrypt key _) in *.
  cbn [cbc_decrypt]. unfold CBC_BLOCK. rewrite (proj2 (Z.ltb_ge _ _)) by len.
  assert (length b = 16%nat) as Hb' by (unfold zlen in Hb; lia).
  rewrite take_app_length', drop_app_length' by done. unfold b.
  rewrite block_inverse, xor_bytes_involutive by (done || rewrite zlen_taken; lia).
  rewrite IH; [apply take_drop|done|]. rewrite length_drop. unfold zlen in Hs. lia.
Qed.

End cbc_laws.

(** ** What is sealed opens *)

(** A protection as [new_protection] makes it. *)
Definition protection_wf (p : Protection) : Prop :=
  match p with Aead _ _ implicit => zlen implicit = 8 | Cbc _ _ _ => True end.

Record channel_wf (c : DataChannel) : Prop := {
  ch_seal : protection_wf (seal_with c);
  ch_key : 0 <= key_id c < 8;
  ch_next : 1 <= next_packet_id c <= u32_max
}.

Definition header_len (c : DataChannel) : Z := match peer_id c with Some _ => 4 | None => 1 end.

Lemma data_header_shape c :
  0 <= key_id c < 8 →
  ∃ first rest, data_header c = first :: rest ∧ zlen (data_header c) = header_len c ∧
    Z.shiftr (b2z first) 3 = (if peer_id c then P_DATA_V2 else P_DATA_V1).
Proof.
  intros Hk. unfold data_header, header_len, P_DATA_V2, P_DATA_V1.
  destruct (peer_id c) as [peer|].
  - change 0xffffff with (Z.ones 24). rewrite Z.land_ones by done.
    pose proof (Z.mod_pos_bound peer (2 ^ 24)). rewrite !lor_shift by lia.
    set (word := _ * 2 ^ 24 + _).
    exists (z2b (word / 256 ^ Z.of_nat 3)), (be_bytes 3 word). split_and!; [done|apply zlen_be_bytes|].
    rewrite b2z_z2b. replace (word / 256 ^ Z.of_nat 3) with (9 * 2 ^ 3 + key_id c).
    + rewrite Z.mod_small, Z.shiftr_div_pow2 by lia. symmetry. apply (Z.div_unique _ _ _ (key_id c)); lia.
    + apply (Z.div_unique _ _ _ (peer mod 2 ^ 24)); unfold word; lia.
  - rewrite lor_shift by lia. eexists _, []. split_and!; [done..|].
    rewrite b2z_z2b, Z.mod_small, Z.shiftr_div_pow2 by lia. symmetry.
    apply (Z.div_unique _ _ _ (key_id c)); lia.
Qed.

Lemma be_Z_id id : 0 <= id <= u32_max → be_Z (be_bytes 4 id) = id.
Proof. unfold u32_max. intros. rewrite be_Z_be_bytes. apply Z.mod_small. lia. Qed.

(** The end of a body that [seal] padded. *)
Lemma padding_range n : 0 < CBC_BLOCK - n mod CBC_BLOCK <= 16.
Proof. unfold CBC_BLOCK. pose proof (Z.mod_pos_bound n 16). lia. Qed.

Lemma last_replicate {A} (l : list A) n x : (0 < n)%nat → last (l ++ replicate n x) = Some x.
Proof. destruct n as [|n]; [lia|]. intros _. by rewrite replicate_S_end, app_assoc, last_snoc. Qed.

(** The next slice the code takes is the middle of [a ++ b ++ c]. *)
Ltac next_slice a b c :=
  lazymatch goal with
  | |- mbind _ (slice ?l ?i ?j) = _ =>
      rewrite (slice_eq l a b c i j)
        by first [done|by cbn [app]; rewrite ?app_nil_r, <-?app_assoc|len];
      cbn [mbind run_bind]
  end.

Lemma existsb_replicate {A} (f : A → bool) n x : f x = false → existsb f (replicate n x) = false.
Proof. intros Hx. induction n as [|n IH]; [done|]. cbn. by rewrite Hx. Qed.

Section sealed.
Context `{!Primitives, !PrimitiveLaws}.

Lemma unwrap_sealed_aead cipher key implicit header id packet tag body :
  0 <= id <= u32_max →
  aead_seal cipher key (nonce implicit id) (header ++ be_bytes 4 id) packet = Some (tag, body) →
  unwrap_aead cipher key implicit (zlen header) ((header ++ be_bytes 4 id) ++ tag ++ body) = Ret (Ok (id, packet)).
Proof.
  intros Hid Hs. destruct (aead_length _ _ _ _ _ _ _ Hs) as [Ht Hb]. unfold unwrap_aead, TAG_LEN.
  rewrite (proj2 (Z.ltb_ge _ _)) by len.
  next_slice header (be_bytes 4 id) (tag ++ body). rewrite be_Z_id by done.
  next_slice (@nil byte) (header ++ be_bytes 4 id) (tag ++ body).
  next_slice (header ++ be_bytes 4 id) tag body.
  next_slice ((header ++ be_bytes 4 id) ++ tag) body (@nil byte).
  by rewrite (proj2 (aead_open_iff _ _ _ _ _ _ _) Hs).
Qed.

Lemma zlen_replicate {A} n (x : A) : 0 <= n → zlen (replicate (Z.to_nat n) x) = n.
Proof. unfold zlen. rewrite length_replicate. lia. Qed.

Lemma unwrap_sealed_cbc key digest hmac header iv id packet :
  0 <= id <= u32_max → zlen iv = 16 →
  let padding := CBC_BLOCK - (4 + zlen packet) mod CBC_BLOCK in
  let plain := be_bytes 4 id ++ packet ++ replicate (Z.to_nat padding) (z2b padding) in
  let body := cbc_encrypt (length plain) key iv plain in
  unwrap_cbc key digest hmac (zlen header) (header ++ mac digest hmac (iv ++ body) ++ iv ++ body)
  = Ret (Ok (id, packet)).
Proof.
  intros Hid Hiv padding plain body. pose proof (padding_range (4 + zlen packet)) as Hp. fold padding in Hp.
  set (pad := replicate (Z.to_nat padding) (z2b padding)) in *.
  assert (zlen pad = padding) as Hpad by (apply zlen_replicate; lia).
  assert (zlen plain = 4 + zlen packet + padding) as Hplain by (unfold plain; len).
  assert (zlen body = zlen plain) as Hbody by (by apply cbc_encrypt_length).
  assert (zlen plain mod 16 = 0) as Hmod.
  { rewrite Hplain. unfold padding, CBC_BLOCK. pose proof (Z.div_mod (4 + zlen packet) 16).
    symmetry. apply (Z.mod_unique _ _ ((4 + zlen packet) / 16 + 1)); lia. }
  pose proof (zlen_nonneg packet).
  assert (16 <= zlen plain).
  { destruct (Z.le_gt_cases 16 (zlen plain)); [done|]. rewrite Z.mod_small in Hmod; lia. }
  set (m := mac digest hmac (iv ++ body)).
  assert (zlen m = output_len digest) as Hm by apply mac_length.
  unfold unwrap_cbc. next_slice header (m ++ iv ++ body) (@nil byte).
  rewrite !zlen_app, Hm, Hiv. unfold sat_sub, CBC_BLOCK.
  rewrite Z.max_r by lia. replace (output_len digest + (16 + zlen body) - (output_len digest + 16)) with (zlen body) by lia.
  rewrite Hbody, (proj2 (Z.ltb_ge _ _)), Hmod by lia. cbn [orb negb Z.eqb].
  next_slice (@nil byte) m (iv ++ body). next_slice m iv body. next_slice (m ++ iv) body (@nil byte).
  rewrite bool_decide_true by done. cbn [negb].
  replace (length body) with (length plain) by (unfold zlen in Hbody; lia).
  unfold body. rewrite cbc_round_trip by done.
  assert (last plain = Some (z2b padding)) as ->.
  { unfold plain. rewrite app_assoc. apply last_replicate. lia. }
  cbn [unwrap mbind run_bind]. rewrite b2z_z2b, (Z.mod_small padding) by lia.
  rewrite (proj2 (Z.eqb_neq _ _)), !(proj2 (Z.ltb_ge _ _)) by lia. cbn [orb].
  next_slice (be_bytes 4 id ++ packet) pad (@nil byte).
  assert (existsb (λ byte, negb (b2z byte =? padding)) pad = false) as ->.
  { apply existsb_replicate. by rewrite b2z_z2b, Z.mod_small, Z.eqb_refl by lia. }
  replace (take (Z.to_nat (zlen plain - padding)) plain) with (be_bytes 4 id ++ packet).
  2: { unfold plain. rewrite app_assoc, take_app_length'; [done|]. unfold zlen in *. rewrite length_app in *. lia. }
  next_slice (@nil byte) (be_bytes 4 id) packet.
  rewrite be_Z_id by done. by rewrite drop_app_length' by (symmetry; apply length_be_bytes).
Qed.

Lemma Ok_inj {E A} (x y : A) : @Ok E A x = Ok y → x = y.
Proof. by intros [= ->]. Qed.

(** Sealing takes the next packet id, and only that. *)
Lemma seal_moves c iv packet :
  (seal c iv packet).2 =
  (if next_packet_id c =? u32_max then c else with_packet_id c (next_packet_id c + 1)) ∧
  (next_packet_id c = u32_max → (seal c iv packet).1 = Err RENEGOTIATE).
Proof.
  unfold seal, seal_recorded, aead_call. destruct (Z.eqb_spec (next_packet_id c) u32_max); [done|].
  split; [|done]. destruct (seal_with _) as [cipher key implicit|key digest hmac]; [|done].
  by destruct (aead_seal _ _ _ _ _) as [[tag body]|].
Qed.

Lemma sealed_opens a b iv packet frame :
  channel_wf a → open_with b = seal_with a → zlen iv = 16 →
  (seal a iv packet).1 = Ok frame →
  open b frame =
  Ret (let '(fresh, w) := Window.accept (replay b) (next_packet_id a) in
       (Ok (if fresh && bool_decide (packet ≠ PING) then Some packet else None), with_replay b w)).
Proof.
  intros [Hw Hk Hn] Hm Hiv. unfold seal, seal_recorded, aead_call. destruct (Z.eqb_spec (next_packet_id a) u32_max); [done|].
  destruct (data_header_shape a Hk) as (first & rest & Hh & Hlen & Hop).
  set (id := next_packet_id a) in *. cbn [seal_with with_packet_id].
  assert (0 <= id <= u32_max) as Hid by lia.
  change (data_header (with_packet_id a (id + 1))) with (data_header a).
  assert (∀ body, open b (data_header a ++ body) =
    unwrapped ← match seal_with a with
                | Aead cipher key implicit => unwrap_aead cipher key implicit (zlen (data_header a)) (data_header a ++ body)
                | Cbc key digest hmac => unwrap_cbc key digest hmac (zlen (data_header a)) (data_header a ++ body)
                end;
    match unwrapped with
    | Err e => Ret (Err e, b)
    | Ok (packet_id, body) =>
        let '(fresh, w) := Window.accept (replay b) packet_id in
        Ret (Ok (if fresh && bool_decide (body ≠ PING) then Some body else None), with_replay b w)
    end) as Hopen.
  { intros body. rewrite Hlen. rewrite Hh. cbn [app]. unfold open. rewrite Hop, Hm. unfold header_len, P_DATA_V1, P_DATA_V2.
    destruct (peer_id a); cbn -[unwrap_aead unwrap_cbc Window.accept];
      (destruct (seal_with a); [destruct (unwrap_aead _ _ _ _ _) as [[[i m]|]|]|destruct (unwrap_cbc _ _ _ _ _) as [[[i m]|]|]]); cbn -[Window.accept]; try done;
      destruct (Window.accept _ _) as [[] w]; cbn; try done;
      rewrite bool_decide_not; by destruct (bool_decide (m = PING)). }
  destruct (seal_with a) as [cipher key implicit|key digest hmac] eqn:Es.
  - destruct (aead_seal _ _ _ _ _) as [[tag body]|] eqn:Ea; [|done]. cbn [fst]. intros <-%Ok_inj.
    rewrite <-app_assoc, Hopen, (app_assoc (data_header a) (be_bytes 4 id)).
    rewrite (unwrap_sealed_aead _ _ _ _ _ _ _ _ Hid Ea). cbn. by destruct (Window.accept _ _).
  - cbn [fst]. intros <-%Ok_inj. rewrite Hopen.
    rewrite (unwrap_sealed_cbc key digest hmac (data_header a) iv id packet Hid Hiv). cbn. by destruct (Window.accept _ _).
Qed.

End sealed.

(** ** Runs of packets *)

Section runs.
Context `{!Primitives}.

(** The packets are sealed in turn, each with its IV. *)
Fixpoint seal_all (c : DataChannel) (packets : list (list byte * list byte))
    : list (result Error (list byte)) * DataChannel :=
  match packets with
  | [] => ([], c)
  | (iv, packet) :: rest =>
      let '(r, c) := seal c iv packet in
      let '(rs, c) := seal_all c rest in
      (r :: rs, c)
  end.

Fixpoint open_all (c : DataChannel) (frames : list (list byte))
    : run (list (result Error (option (list byte))) * DataChannel) :=
  match frames with
  | [] => Ret ([], c)
  | frame :: rest =>
      '(r, c) ← open c frame;
      '(rs, c) ← open_all c rest;
      Ret (r :: rs, c)
  end.

End runs.

(** The ids accepted of the packets that arrive, by their positions. *)
Definition after (s : Spec.t) (arrivals : list nat) : Spec.t :=
  foldl (λ s i, (Spec.step s (1 + Z.of_nat i)).2) s arrivals.

Section after.

Lemma step_accepted s id :
  ∀ q, q ∈ Spec.accepted (Spec.step s id).2 ↔ q ∈ Spec.accepted s ∨ (q = id ∧ Spec.fresh s id = true).
Proof. intros q. unfold Spec.step. destruct (Spec.fresh s id); set_solver. Qed.

Lemma after_mono s arrivals q : q ∈ Spec.accepted s → q ∈ Spec.accepted (after s arrivals).
Proof.
  revert s. induction arrivals as [|i arrivals IH]; intros s Hq; [done|].
  apply IH. apply step_accepted. by left.
Qed.

Lemma after_seen s arrivals q :
  q ∈ Spec.accepted (after s arrivals) →
  q ∈ Spec.accepted s ∨ ∃ i, i ∈ arrivals ∧ q = 1 + Z.of_nat i.
Proof.
  revert s. induction arrivals as [|i arrivals IH]; intros s; [by left|].
  intros [Hq|(j & Hj & ->)]%IH; [|right; exists j; by rewrite elem_of_cons; auto].
  apply step_accepted in Hq as [Hq|[-> _]]; [by left|].
  right. exists i. split; [apply list_elem_of_here|done].
Qed.

Lemma after_top s arrivals bound :
  Spec.top s <= bound → (∀ i, i ∈ arrivals → 1 + Z.of_nat i <= bound) → Spec.top (after s arrivals) <= bound.
Proof.
  revert s. induction arrivals as [|i arrivals IH]; intros s Hs Hb; [done|].
  apply IH; [|intros j Hj; apply Hb; by apply list_elem_of_further].
  unfold Spec.step. destruct (Spec.fresh s _); cbn; [|done].
  specialize (Hb i (list_elem_of_here _ _)). lia.
Qed.

Lemma fresh_here arrivals i :
  i ∉ arrivals → (∀ j, j ∈ arrivals → Z.of_nat j < Z.of_nat i + 64) →
  Spec.fresh (after Spec.empty arrivals) (1 + Z.of_nat i) = true.
Proof.
  intros Hi Hj. unfold Spec.fresh.
  rewrite (proj2 (Z.eqb_neq _ _)), bool_decide_true, andb_true_r by
    (lia || (intros [?|(j & Hin & E)]%after_seen; [set_solver|]; assert (i = j) by lia; by subst)).
  apply Z.ltb_lt. pose proof (after_top Spec.empty arrivals (Z.of_nat i + 64)) as Ht. cbn in Ht.
  assert (Spec.top (after Spec.empty arrivals) <= Z.of_nat i + 64); [|lia].
  apply Ht; [lia|]. intros j Hin. specialize (Hj j Hin). lia.
Qed.

Lemma fresh_once arrivals k1 k2 i s :
  (k1 < k2)%nat → arrivals !! k1 = Some i →
  Spec.fresh (after s (take k1 arrivals)) (1 + Z.of_nat i) = true →
  Spec.fresh (after s (take k2 arrivals)) (1 + Z.of_nat i) = false.
Proof.
  intros Hk Hi Hf. unfold Spec.fresh at 1. apply andb_false_iff. right. apply bool_decide_eq_false.
  intros Hn. apply Hn. clear Hn.
  rewrite <-(take_drop (S k1) (take k2 arrivals)), take_take, Nat.min_l by lia.
  unfold after. rewrite foldl_app. fold (after s (take (S k1) arrivals)).
  apply after_mono. rewrite (take_S_r _ _ _ Hi). unfold after. rewrite foldl_app. cbn.
  apply step_accepted. by right.
Qed.

End after.

Section delivery.
Context `{!Primitives, !PrimitiveLaws}.

Lemma seal_all_lookup a packets frames i iv packet frame :
  (seal_all a packets).1 = Ok <$> frames → packets !! i = Some (iv, packet) → frames !! i = Some frame →
  (seal (with_packet_id a (next_packet_id a + Z.of_nat i)) iv packet).1 = Ok frame ∧
  (next_packet_id a <= u32_max → next_packet_id a + Z.of_nat i < u32_max).
Proof.
  revert a frames i. induction packets as [|[iv0 p0] packets IH]; intros a frames i; [done|].
  cbn [seal_all]. destruct (seal a iv0 p0) as [r c] eqn:Es.
  specialize (IH c). destruct (seal_all c packets) as [rs c'] eqn:Er. cbn [fst] in *.
  destruct frames as [|f frames]; [done|]. cbn [fmap list_fmap]. intros [= -> Hrs].
  pose proof (seal_moves a iv0 p0) as [Hc Hmax]. rewrite Es in Hc, Hmax. cbn [fst snd] in *.
  destruct (Z.eqb_spec (next_packet_id a) u32_max) as [E|E]; [by specialize (Hmax E)|].
  destruct i as [|i]; cbn [lookup list_lookup].
  - intros [= -> ->] [= ->]. rewrite Z.add_0_r. split; [|lia].
    replace (with_packet_id a (next_packet_id a)) with a by by destruct a. by rewrite Es.
  - intros Hp Hf. destruct (IH frames i Hrs Hp Hf) as [Hs Hlt]. subst c.
    cbn [with_packet_id next_packet_id seal_with open_with peer_id key_id replay] in *.
    replace (next_packet_id a + 1 + Z.of_nat i) with (next_packet_id a + Z.of_nat (S i)) in * by lia.
    split; [done|]. lia.
Qed.

(** What a peer makes of the packets that arrive. *)
Definition delivered (packets : list (list byte * list byte)) (s : Spec.t) (i : nat)
    : result Error (option (list byte)) :=
  let packet := default [] (snd <$> packets !! i) in
  Ok (if Spec.fresh s (1 + Z.of_nat i) && bool_decide (packet ≠ PING) then Some packet else None).

Definition frame_at (frames : list (list byte)) (i : nat) : list byte := default [] (frames !! i).

Lemma open_all_delivers a packets frames b s arrivals :
  channel_wf a → next_packet_id a = 1 → open_with b = seal_with a →
  Forall (λ p, zlen p.1 = 16) packets → (seal_all a packets).1 = Ok <$> frames →
  Forall (λ i, (i < length frames)%nat) arrivals → represents (replay b) s →
  ∃ results b', open_all b (frame_at frames <$> arrivals) = Ret (results, b') ∧
    length results = length arrivals ∧
    ∀ k i, arrivals !! k = Some i → results !! k = Some (delivered packets (after s (take k arrivals)) i).
Proof.
  intros Ha H1 Hm Hiv Hall. revert b s Hm.
  assert (length packets = length frames) as Hlen.
  { apply (f_equal length) in Hall. rewrite length_fmap in Hall. rewrite <-Hall. clear.
    revert a. induction packets as [|[iv p] packets IH]; intros a; [done|]. cbn.
    destruct (seal a iv p) as [r c]. specialize (IH c). destruct (seal_all c packets). cbn in *. lia. }
  induction arrivals as [|i arrivals IH]; intros b s Hm Hi Hrep; [by exists [], b|].
  apply Forall_cons in Hi as [Hi Hrest].
  destruct (lookup_lt_is_Some_2 frames i Hi) as [f Hf].
  destruct (lookup_lt_is_Some_2 packets i ltac:(lia)) as [[iv p] Hp].
  destruct (seal_all_lookup a packets frames i iv p f Hall Hp Hf) as [Hs Hlt].
  pose proof (proj1 (Forall_lookup _ _) Hiv i _ Hp) as Hv. cbn in Hv. destruct Ha as [A1 A2 A3].
  rewrite H1 in *.
  pose proof (sealed_opens (with_packet_id a (1 + Z.of_nat i)) b iv p f) as Ho.
  cbn [with_packet_id next_packet_id seal_with key_id] in Ho.
  assert (0 <= 1 + Z.of_nat i) as Hpos by lia.
  destruct (accept_step (replay b) s (1 + Z.of_nat i) Hrep Hpos) as [Hv1 Hrep'].
  destruct (Window.accept (replay b) (1 + Z.of_nat i)) as [fresh w]. cbn [fst snd] in *.
  destruct (IH (with_replay b w) (Spec.step s (1 + Z.of_nat i)).2) as (rs & b' & Hrun & Hl & Hrs); [done..|].
  assert (frame_at frames i = f) as Ef by (unfold frame_at; by rewrite Hf).
  eexists (_ :: rs), b'. rewrite fmap_cons, Ef. cbn [open_all].
  rewrite Ho; [|split; cbn; lia || done|done|done|done]. cbn [mbind run_bind]. rewrite Hrun. cbn [mbind run_bind].
  split_and!; [done|by cbn; rewrite Hl|].
  intros [|k] j; cbn [lookup list_lookup take].
  - intros [= ->]. unfold delivered. rewrite Hp. cbn. rewrite Hv1.
    unfold Spec.step. by destruct (Spec.fresh s _).
  - intros Hj. by apply Hrs.
Qed.

End delivery.

(** ** Packet ids *)

Section ids.
Context `{!Primitives}.

(** The calls of the AEAD that sealing the packets in turn makes, as they were
    recorded. *)
Fixpoint calls_made (c : DataChannel) (packets : list (list byte * list byte))
    : list (list byte * list byte) :=
  match packets with
  | [] => []
  | (iv, packet) :: rest =>
      let '(_, c, calls) := seal_recorded c iv packet in calls ++ calls_made c rest
  end.

(** The calls that ought to be made: the key of the generation, with the nonces of
    the ids that follow one another until they run out. *)
Definition calls_due (c : DataChannel) (n : nat) : list (list byte * list byte) :=
  match seal_with c with
  | Aead _ key implicit =>
      (λ id, (key, nonce implicit id)) <$> seqZ (next_packet_id c) (Z.of_nat n `min` (u32_max - next_packet_id c))
  | Cbc _ _ _ => []
  end.

Lemma data_nonce_inj implicit i j :
  0 <= i <= u32_max → 0 <= j <= u32_max → nonce implicit i = nonce implicit j → i = j.
Proof.
  intros Hi Hj [E _]%app_inj_1; [|by rewrite !length_be_bytes].
  apply (f_equal be_Z) in E. by rewrite !be_Z_id in E.
Qed.

(** One packet: the call that its id calls for, and no other. *)
Lemma recorded_calls c iv packet :
  (seal_recorded c iv packet).2 =
  if next_packet_id c =? u32_max then [] else
  match seal_with c with
  | Aead _ key implicit => [(key, nonce implicit (next_packet_id c))]
  | Cbc _ _ _ => []
  end.
Proof.
  unfold seal_recorded, aead_call. destruct (_ =? _); [done|]. cbn [with_packet_id seal_with].
  destruct (seal_with c) as [cipher key implicit|]; [|done]. by destruct (aead_seal _ _ _ _ _) as [[]|].
Qed.

Lemma calls_made_due c packets :
  1 <= next_packet_id c <= u32_max → calls_made c packets = calls_due c (length packets).
Proof.
  unfold calls_due. revert c. induction packets as [|[iv p] packets IH]; intros c Hc; cbn [calls_made].
  - cbn [length]. rewrite Z.min_l, seqZ_nil by lia. by destruct (seal_with c).
  - pose proof (seal_moves c iv p) as [Hs _]. pose proof (recorded_calls c iv p) as Hr. unfold seal in Hs.
    destruct (seal_recorded c iv p) as [[r c'] calls]. cbn [fst snd] in Hs, Hr. subst c' calls.
    cbn [length]. destruct (Z.eqb_spec (next_packet_id c) u32_max) as [E|E].
    + rewrite IH by done. destruct (seal_with c); [|done]. by rewrite !Z.min_r by lia.
    + rewrite IH by (cbn; lia). cbn [with_packet_id next_packet_id seal_with].
      destruct (seal_with c); [|done].
      rewrite (seqZ_cons (next_packet_id c)) by lia. cbn [app fmap list_fmap]. do 2 f_equal.
      f_equal; lia.
Qed.

Lemma calls_due_distinct c n : 1 <= next_packet_id c <= u32_max → NoDup (calls_due c n).
Proof.
  intros Hc. unfold calls_due. destruct (seal_with c); [|constructor].
  apply NoDup_fmap_2_strong; [|apply NoDup_seqZ].
  intros i j Hi%elem_of_seqZ Hj%elem_of_seqZ E%(f_equal snd). cbn [snd] in E. eapply data_nonce_inj; [..|exact E]; lia.
Qed.

(** Once the ids have run out nothing more is sealed. *)
Lemma seal_all_exhausted c packets k r :
  1 <= next_packet_id c <= u32_max → u32_max <= next_packet_id c + Z.of_nat k →
  (seal_all c packets).1 !! k = Some r → r = Err RENEGOTIATE.
Proof.
  revert c k. induction packets as [|[iv p] packets IH]; intros c k Hc Hk; [done|].
  cbn [seal_all]. pose proof (seal_moves c iv p) as [Hs Hmax].
  destruct (seal c iv p) as [r0 c0]. cbn [fst snd] in *.
  specialize (IH c0). destruct (seal_all c0 packets) as [rs c1]. cbn [fst] in *.
  destruct k as [|k]; cbn [lookup list_lookup].
  - intros [= <-]. apply Hmax. lia.
  - apply IH; rewrite Hs; destruct (Z.eqb_spec (next_packet_id c) u32_max); cbn; lia.
Qed.

End ids.

(** ** Totality of [open] *)

Definition is_cbc (p : Protection) : bool := match p with Cbc _ _ _ => true | _ => false end.

Section total.
Context `{!Primitives, !PrimitiveLaws}.

(** The next slice of the code is in range. *)
Ltac slice_ok :=
  match goal with
  | |- mbind _ (slice ?l ?i ?j) ≠ Panic =>
      rewrite (slice_in l i j) by (unfold u32_max, TAG_LEN, CBC_BLOCK in *; lia || len); cbn [mbind run_bind]
  end.

Lemma unwrap_aead_total cipher key implicit n packet :
  0 <= n → unwrap_aead cipher key implicit n packet ≠ Panic.
Proof.
  intros Hn. unfold unwrap_aead, TAG_LEN. destruct (Z.ltb_spec (zlen packet) (n + 4 + 16)); [done|].
  do 4 slice_ok. by destruct (aead_open _ _ _ _ _ _).
Qed.

Lemma unwrap_cbc_total key digest hmac n packet :
  0 <= n <= zlen packet → unwrap_cbc key digest hmac n packet ≠ Panic.
Proof.
  intros Hn. unfold unwrap_cbc. slice_ok. set (rest := sub packet n (zlen packet)).
  assert (0 < output_len digest) by by destruct digest.
  unfold sat_sub, CBC_BLOCK. destruct (Z.ltb_spec (Z.max 0 (zlen rest - (output_len digest + 16))) 16); [done|].
  cbn [orb]. destruct (negb _); [done|]. do 3 slice_ok.
  destruct (negb _); [done|].
  set (iv := sub rest (output_len digest) (output_len digest + 16)).
  set (ct := sub rest (output_len digest + 16) (zlen rest)).
  assert (zlen iv = 16) as Hiv by (unfold iv; rewrite zlen_sub; lia).
  assert (16 <= zlen ct) as Hct by (unfold ct; rewrite zlen_sub; lia).
  pose proof (cbc_decrypt_length (length ct) key iv ct Hiv) as Hl.
  set (body := cbc_decrypt (length ct) key iv ct) in *.
  destruct (last body) as [b|] eqn:Eb.
  2: { apply last_None in Eb. rewrite Eb in Hl. change (zlen (@nil byte)) with 0 in Hl. lia. }
  cbn [unwrap mbind run_bind]. pose proof (b2z_range b).
  destruct (Z.eqb_spec (b2z b) 0), (Z.ltb_spec 16 (b2z b)), (Z.ltb_spec (zlen body) (4 + b2z b)); cbn [orb]; try done.
  slice_ok. destruct (existsb _ _); [done|].
  rewrite slice_in; [done|lia|]. rewrite zlen_taken; lia.
Qed.

Lemma data_open_total c packet :
  (is_cbc (open_with c) = true → zlen packet < 4 → Z.shiftr (nz packet 0) 3 ≠ P_DATA_V2) →
  open c packet ≠ Panic.
Proof.
  intros Hcbc. destruct packet as [|first rest]; [done|]. unfold open.
  change (nz (first :: rest) 0) with (b2z first) in Hcbc.
  destruct (negb _ && negb _); [done|]. cbv zeta.
  set (n := if Z.shiftr (b2z first) 3 =? P_DATA_V2 then 4 else 1).
  assert (0 <= n ∧ (is_cbc (open_with c) = true → n <= zlen (first :: rest))) as [Hn Hc].
  { unfold n. pose proof (zlen_nonneg rest). rewrite zlen_cons in *.
    destruct (Z.eqb_spec (Z.shiftr (b2z first) 3) P_DATA_V2); [|lia]. split; [lia|].
    intros Hi. destruct (Z.lt_ge_cases (zlen rest + 1) 4); [|done]. by specialize (Hcbc Hi ltac:(done)). }
  destruct (open_with c) as [cipher key implicit|key digest hmac].
  - pose proof (unwrap_aead_total cipher key implicit n (first :: rest) Hn).
    destruct (unwrap_aead _ _ _ _ _) as [[[i m]|]|]; [|done..]. cbn.
    destruct (Window.accept _ _) as [[] w]; cbn; [by case_bool_decide|done].
  - pose proof (unwrap_cbc_total key digest hmac n (first :: rest) (conj Hn (Hc eq_refl))).
    destruct (unwrap_cbc _ _ _ _ _) as [[[i m]|]|]; [|done..]. cbn.
    destruct (Window.accept _ _) as [[] w]; cbn; [by case_bool_decide|done].
Qed.

Lemma short_cbc_panics c packet :
  is_cbc (open_with c) = true → zlen packet < 4 → Z.shiftr (nz packet 0) 3 = P_DATA_V2 →
  open c packet = Panic.
Proof.
  destruct packet as [|first rest]; [done|]. unfold open.
  change (nz (first :: rest) 0) with (b2z first).
  intros Hc Hl ->. cbn -[unwrap_cbc unwrap_aead]. destruct (open_with c); [done|].
  unfold unwrap_cbc, slice, get_range.
  rewrite (proj2 (Z.leb_gt 4 (zlen (first :: rest)))) by done. done.
Qed.

End total.

(** ** The PRF of RFC 2246 *)

Section rfc.
Context `{!Primitives}.

(** A(0) is the seed, A(i) the HMAC of A(i - 1). *)
Fixpoint A (d : Digest) (secret seed : list byte) (i : nat) : list byte :=
  match i with O => seed | S i' => mac d secret (A d secret seed i') end.

(** HMAC(A(1) + seed) + HMAC(A(2) + seed) + ..., cut to [length]. *)
Definition P_hash (d : Digest) (secret seed : list byte) (length : nat) : list byte :=
  take length (mjoin ((λ i, mac d secret (A d secret seed (S i) ++ seed)) <$> seq 0 length)).

(** The secret's halves, which share its middle byte when its length is odd. *)
Definition PRF (secret seed : list byte) (n : nat) : list byte :=
  let half := ((length secret + 1) / 2)%nat in
  xor_bytes (P_hash Md5 (take half secret) seed n) (P_hash Sha1 (drop (length secret - half) secret) seed n).

Definition key_expansion (client : KeySource) (server_random1 server_random2 client_sid server_sid : list byte)
    : list byte :=
  let master := PRF (pre_master client)
                  (str "OpenVPN master secret" ++ random1 client ++ server_random1) 48 in
  PRF master (str "OpenVPN key expansion" ++ random2 client ++ server_random2 ++ client_sid ++ server_sid) 256.

End rfc.

Section prf.
Context `{!Primitives, !PrimitiveLaws}.

Lemma p_hash_loop_spec fuel d secret seed j output length :
  let blocks := mjoin ((λ i, mac d secret (A d secret seed (S i) ++ seed)) <$> seq j fuel) in
  length <= zlen output + Z.of_nat fuel →
  take (Z.to_nat length) (p_hash_loop fuel d secret seed (A d secret seed (S j)) output length)
  = take (Z.to_nat length) (output ++ blocks) ∧
  length <= zlen (p_hash_loop fuel d secret seed (A d secret seed (S j)) output length).
Proof.
  revert j output. induction fuel as [|fuel IH]; intros j output blocks Hl.
  - unfold blocks. cbn. rewrite app_nil_r. split; [done|lia].
  - unfold blocks. cbn [p_hash_loop seq fmap list_fmap]. destruct (Z.leb_spec length (zlen output)) as [Hd|Hd].
    + split; [|done]. rewrite take_app_le; [done|]. unfold zlen in Hd. lia.
    + pose proof (mac_length d secret (A d secret seed (S j) ++ seed)).
      assert (0 < output_len d) by by destruct d.
      specialize (IH (S j) (output ++ mac d secret (A d secret seed (S j) ++ seed))). cbn zeta in IH.
      rewrite <-app_assoc in IH. apply IH. rewrite zlen_app. lia.
Qed.

Lemma p_hash_spec d secret seed (n : nat) :
  p_hash d secret seed (Z.of_nat n) = P_hash d secret seed n ∧ zlen (P_hash d secret seed n) = Z.of_nat n.
Proof.
  unfold p_hash, P_hash. rewrite Nat2Z.id.
  destruct (p_hash_loop_spec n d secret seed 0 [] (Z.of_nat n)) as [He Hl]; [unfold zlen; simpl; lia|].
  rewrite Nat2Z.id in He. cbn [app] in He. change (mac d secret seed) with (A d secret seed 1).
  split; [done|]. rewrite <-He. rewrite zlen_taken; [done|exact Hl].
Qed.

Lemma tls1_prf_spec secret seed (n : nat) :
  tls1_prf secret seed (Z.of_nat n) = Ret (PRF secret seed n) ∧ zlen (PRF secret seed n) = Z.of_nat n.
Proof.
  unfold tls1_prf, PRF. set (half := (zlen secret + 1) / 2).
  assert (0 <= half <= zlen secret) as Hh.
  { unfold half. pose proof (zlen_nonneg secret). split; [apply Z.div_pos; lia|].
    destruct (decide (zlen secret = 0)) as [->|]; [done|]. apply Z.div_le_upper_bound; lia. }
  rewrite !slice_in by lia. cbn [mbind run_bind].
  assert (Z.to_nat half = ((length secret + 1) / 2)%nat) as He.
  { unfold half, zlen. rewrite <-(Nat2Z.id ((length secret + 1) / 2)), Nat2Z.inj_div. do 2 f_equal. lia. }
  rewrite sub_0_take, He. unfold sub. replace (Z.to_nat (zlen secret - (zlen secret - half))) with (Z.to_nat half) by lia.
  replace (Z.to_nat (zlen secret - half)) with (length secret - (length secret + 1) / 2)%nat
    by (rewrite <-He; unfold zlen in *; lia).
  rewrite (take_ge (drop _ secret)) by (rewrite length_drop, He; lia).
  destruct (p_hash_spec Md5 (take ((length secret + 1) / 2) secret) seed n) as [-> H1].
  destruct (p_hash_spec Sha1 (drop (length secret - (length secret + 1) / 2) secret) seed n) as [-> H2].
  split; [done|]. rewrite xor_bytes_length, H1, H2. lia.
Qed.

Lemma derive_spec client r1 r2 csid ssid :
  derive client r1 r2 csid ssid = Ret (key_expansion client r1 r2 csid ssid) ∧
  zlen (key_expansion client r1 r2 csid ssid) = 256.
Proof.
  unfold derive, openvpn_prf, key_expansion. rewrite app_nil_r. change 48 with (Z.of_nat 48). change 256 with (Z.of_nat 256).
  destruct (tls1_prf_spec (pre_master client) (str "OpenVPN master secret" ++ random1 client ++ r1) 48) as [-> _].
  cbn [mbind run_bind].
  destruct (tls1_prf_spec (PRF (pre_master client) (str "OpenVPN master secret" ++ random1 client ++ r1) 48)
    (str "OpenVPN key expansion" ++ random2 client ++ r2 ++ csid ++ ssid) 256) as [-> Hl].
  cbn [mbind run_bind]. rewrite Hl, Z.eqb_refl. done.
Qed.

End prf.

(** The protection that a direction's half of the material gives. *)
Definition protection_of (half : list byte) (cipher : DataCipher) (digest : Digest) : Protection :=
  let key := take (Z.to_nat (key_len cipher)) half in
  if is_aead cipher then Aead cipher key (sub half 64 72)
  else Cbc key digest (sub half 64 (64 + output_len digest)).

Lemma new_protection_spec material (index : Z) cipher digest :
  zlen material = 256 → index = 0 ∨ index = 1 →
  new_protection material index cipher digest =
  Ret (Ok (protection_of (drop (Z.to_nat (index * 128)) material) cipher digest)) ∧
  protection_wf (protection_of (drop (Z.to_nat (index * 128)) material) cipher digest).
Proof.
  intros Hm Hi. unfold new_protection, protection_of, cipher_key, hmac_key, implicit_iv.
  assert (16 <= key_len cipher <= 32) by by destruct cipher.
  assert (16 <= output_len digest <= 64) by by destruct digest.
  assert (∀ a b, 0 <= a <= b → b <= 128 →
    slice material (index * 128 + a) (index * 128 + b) = Ret (sub (drop (Z.to_nat (index * 128)) material) a b)) as Hs.
  { intros a b Hab Hb. rewrite slice_in by lia. unfold sub. rewrite drop_drop. do 2 f_equal; [lia|f_equal; lia]. }
  pose proof (Hs 0 (key_len cipher)) as Hkey. rewrite Z.add_0_r in Hkey.
  rewrite Hkey by lia. cbn [mbind run_bind].
  set (half := drop _ material). assert (128 <= zlen half) as Hh.
  { unfold half. rewrite zlen_drop; lia. }
  rewrite sub_0_take. rewrite zlen_taken by lia. rewrite Z2Nat.id, Z.eqb_refl by lia. cbn [negb].
  destruct (is_aead cipher).
  - rewrite Hs by lia. cbn. split; [done|]. rewrite zlen_sub; lia.
  - replace (index * 128 + 64 + output_len digest) with (index * 128 + (64 + output_len digest)) by lia.
    rewrite Hs by lia. done.
Qed.

Lemma new_channel_spec material cipher digest peer kid :
  zlen material = 256 → 0 <= kid < 8 →
  ∃ c, new_channel material cipher digest peer kid = Ret (Ok c) ∧ channel_wf c ∧
    seal_with c = protection_of material cipher digest ∧
    open_with c = protection_of (drop 128 material) cipher digest ∧
    next_packet_id c = 1 ∧ replay c = Window.new.
Proof.
  intros Hm Hk.
  destruct (new_protection_spec material 0 cipher digest Hm) as [H0 Hw]; [by left|].
  destruct (new_protection_spec material 1 cipher digest Hm) as [H1 _]; [by right|].
  change (drop (Z.to_nat (0 * 128)) material) with material in *. change (Z.to_nat (1 * 128)) with 128%nat in H1.
  eexists. unfold new_channel. rewrite H0. cbn [mbind run_bind]. rewrite H1. cbn [mbind run_bind].
  split_and!; [done| |done..]. split; cbn; [done|done|unfold u32_max; lia].
Qed.

(** ** Properties *)

Section properties.
Context `{!Primitives, !PrimitiveLaws}.

(** C13. Packets sealed at one end open at the other, whatever the network does to
    their order: with mirrored keys, for an AEAD or a CBC cipher and any headers,
    every frame that arrives opens as the packet that was sealed into it or as
    nothing; no packet is handed over twice, however often it arrives; and the
    first copy of a packet is handed over unless it is a keepalive or a packet 64
    or more ahead of it came first. *)
Theorem data_packets_arrive_once a b packets frames arrivals
    (Ha : channel_wf a) (Hfirst : next_packet_id a = 1)
    (Hmirror : open_with b = seal_with a) (Hnew : replay b = Window.new)
    (Hivs : Forall (λ p, zlen p.1 = 16) packets)
    (Hsealed : (seal_all a packets).1 = Ok <$> frames)
    (Harrive : Forall (λ i, (i < length frames)%nat) arrivals) :
  ∃ results b', open_all b (frame_at frames <$> arrivals) = Ret (results, b') ∧
    (∀ k i r, arrivals !! k = Some i → results !! k = Some r →
       r = Ok None ∨ ∃ iv packet, packets !! i = Some (iv, packet) ∧ r = Ok (Some packet)) ∧
    (∀ k1 k2 i m1 m2, arrivals !! k1 = Some i → arrivals !! k2 = Some i →
       results !! k1 = Some (Ok (Some m1)) → results !! k2 = Some (Ok (Some m2)) → k1 = k2) ∧
    (∀ k i iv packet, arrivals !! k = Some i → i ∉ take k arrivals →
       (∀ j, j ∈ take k arrivals → Z.of_nat j < Z.of_nat i + 64) →
       packets !! i = Some (iv, packet) → packet ≠ PING →
       results !! k = Some (Ok (Some packet))).
Proof.
  destruct (open_all_delivers a packets frames b Spec.empty arrivals) as (results & b' & Hrun & Hlen & Hat);
    [done..|by rewrite Hnew; apply represents_new|].
  exists results, b'. split_and!; [done| | |].
  - intros k i r Hk Hr. rewrite (Hat k i Hk) in Hr. injection Hr as <-. unfold delivered.
    destruct (_ && _) eqn:E; [|by left]. right.
    apply list_elem_of_lookup_2 in Hk. rewrite Forall_forall in Harrive. specialize (Harrive i Hk).
    assert (length packets = length frames) as Hl.
    { apply (f_equal length) in Hsealed. rewrite length_fmap in Hsealed. rewrite <-Hsealed. clear.
      revert a. induction packets as [|[iv p] l IH]; intros a; [done|]. cbn.
      destruct (seal a iv p) as [r c]. specialize (IH c). destruct (seal_all c l). cbn in *. lia. }
    destruct (lookup_lt_is_Some_2 packets i) as [[iv p] Hp]; [lia|]. rewrite Hp. by exists iv, p.
  - intros k1 k2 i m1 m2 Hk1 Hk2 Hr1 Hr2. rewrite (Hat _ _ Hk1) in Hr1. rewrite (Hat _ _ Hk2) in Hr2.
    unfold delivered in *. destruct (Spec.fresh _ _) eqn:F1 in Hr1; [|done].
    destruct (Spec.fresh _ _) eqn:F2 in Hr2; [|done].
    destruct (lt_eq_lt_dec k1 k2) as [[Hlt|]|Hlt]; [|done|].
    + by rewrite (fresh_once arrivals k1 k2 i Spec.empty Hlt Hk1 F1) in F2.
    + by rewrite (fresh_once arrivals k2 k1 i Spec.empty Hlt Hk2 F2) in F1.
  - intros k i iv packet Hk Hi Hj Hp Hping. rewrite (Hat k i Hk). unfold delivered.
    rewrite (fresh_here _ _ Hi Hj), Hp. cbn. by rewrite bool_decide_true.
Qed.

(** C14. No AEAD nonce of a key generation is used twice, however many packets are
    sealed and whatever becomes of them: the calls of the AEAD, each recorded with the
    key and the nonce that it is made with, are one for each packet while the ids
    last, with the nonces of the ids that follow one another, so no two are alike; a
    CBC cipher makes none. When the ids have run out the AEAD is not called again, and
    every packet is refused with the error that asks for a renegotiation. *)
Theorem data_nonces_are_never_reused c packets (Hwf : channel_wf c) :
  NoDup (calls_made c packets) ∧
  calls_made c packets = calls_due c (length packets) ∧
  (∀ k r, (seal_all c packets).1 !! k = Some r →
     u32_max <= next_packet_id c + Z.of_nat k → r = Err RENEGOTIATE).
Proof.
  destruct Hwf as [_ _ Hn]. rewrite calls_made_due by done.
  split_and!; [by apply calls_due_distinct|done|]. intros k r Hr Hk. by eapply seal_all_exhausted.
Qed.

(** Whatever arrives, opening it never panics, with one exception: under a CBC
    cipher a packet of fewer than 4 bytes whose first byte has the opcode of a
    packet with a peer id is sliced past its end. An error, whatever it is,
    leaves the channel as it was. *)
Theorem opening_panics_on_short_cbc_only c packet :
  (open c packet = Panic ↔
   is_cbc (open_with c) = true ∧ zlen packet < 4 ∧ Z.shiftr (nz packet 0) 3 = P_DATA_V2) ∧
  ∀ e c', open c packet = Ret (Err e, c') → c' = c.
Proof.
  split; [split|].
  - intros Hp. destruct (decide (is_cbc (open_with c) = true ∧ zlen packet < 4 ∧ Z.shiftr (nz packet 0) 3 = P_DATA_V2))
      as [|Hn]; [done|]. exfalso. by apply (data_open_total c packet); [naive_solver|].
  - intros (Hc & Hl & Ho). by apply short_cbc_panics.
  - intros e c'. unfold open. destruct packet as [|first rest]; [by intros [= _ <-]|].
    destruct (negb _ && negb _); [by intros [= _ <-]|]. cbv zeta.
    destruct (match open_with c with Aead _ _ _ => _ | Cbc _ _ _ => _ end) as [[[i m]|e']|]; cbn; [|by intros [= _ <-]|done].
    destruct (Window.accept _ _) as [[] w]; cbn; [by case_bool_decide|done].
Qed.

(** The data keys are those of the TLS 1.0 key expansion: deriving them never
    fails and gives the 256 bytes that the PRF of RFC 2246 defines; a channel over
    them exists for every cipher and digest, sends under the first half and opens
    under the second, and starts at packet id 1 with an empty window. *)
Theorem data_keys_follow_the_prf client r1 r2 csid ssid cipher digest peer kid (Hkid : 0 <= kid < 8) :
  ∃ material c, derive client r1 r2 csid ssid = Ret material ∧
    material = key_expansion client r1 r2 csid ssid ∧ zlen material = 256 ∧
    new_channel material cipher digest peer kid = Ret (Ok c) ∧ channel_wf c ∧
    seal_with c = protection_of material cipher digest ∧
    open_with c = protection_of (drop 128 material) cipher digest ∧
    next_packet_id c = 1 ∧ replay c = Window.new.
Proof.
  destruct (derive_spec client r1 r2 csid ssid) as [Hd Hl].
  destruct (new_channel_spec _ cipher digest peer kid Hl Hkid) as (c & Hc & Hrest).
  by exists (key_expansion client r1 r2 csid ssid), c.
Qed.

End properties.

(** ** A concrete instance for the witnesses *)

Module ToyCrypto.

Definition pad_to (n : nat) (l : list byte) : list byte := take n (l ++ replicate n x00).

Definition tag (k n a : list byte) : list byte := pad_to 16 (k ++ n ++ a).

#[export] Instance primitives : Primitives := {|
  mac d k m := pad_to (Z.to_nat (output_len d)) (k ++ m);
  aead_seal c k n a m := Some (tag k n a, m);
  aead_open c k n a t ct := if bool_decide (t = tag k n a) then Some ct else None;
  block_encrypt k b := reverse b;
  block_decrypt k b := reverse b;
  ctr_apply k iv m := bxor xff <$> m
|}.

Lemma pad_to_length n l : zlen (pad_to n l) = Z.of_nat n.
Proof. unfold zlen, pad_to. rewrite length_take, length_app, length_replicate. lia. Qed.

#[export] Instance laws : PrimitiveLaws.
Proof.
  split; cbn.
  - intros d k m. rewrite pad_to_length. destruct d; done.
  - intros c k n a t ct m. case_bool_decide as E; [subst|]; split; intros [= ?]; by subst.
  - intros c k n a m t ct [= <- <-]. split; [apply pad_to_length|done].
  - intros k b. unfold zlen. by rewrite length_reverse.
  - intros k b _. apply reverse_involutive.
  - intros k iv m. apply zlen_fmap.
  - intros k iv m. rewrite <-list_fmap_compose. rewrite <-(list_fmap_id m) at 2.
    apply list_fmap_ext. intros i b _. cbn. rewrite <-bxor_assoc, bxor_nilpotent. apply bxor_0_l.
Qed.

Definition iv : list byte := replicate 16 x07.
Definition client : DataChannel :=
  mk_channel (Cbc (replicate 32 x01) Sha1 (replicate 20 x02)) (Cbc (replicate 32 x03) Sha1 (replicate 20 x04))
    (Some 17) 0 1 Window.new.
Definition aead_client : DataChannel :=
  mk_channel (Aead Aes256Gcm (replicate 32 x01) (replicate 8 x05)) (Aead Aes256Gcm (replicate 32 x03) (replicate 8 x06))
    (Some 17) 0 1 Window.new.
Definition server : DataChannel :=
  mk_channel (Cbc (replicate 32 x03) Sha1 (replicate 20 x04)) (Cbc (replicate 32 x01) Sha1 (replicate 20 x02))
    (Some 17) 0 1 Window.new.
Definition packets : list (list byte * list byte) := [(iv, str "first"); (iv, PING); (iv, str "third")].
Definition frames : list (list byte) :=
  omap (λ r, match r with Ok f => Some f | Err _ => None end) (seal_all client packets).1.

Lemma client_wf : channel_wf client.
Proof. split; cbn; [done|lia|unfold u32_max; lia]. Qed.

Lemma aead_client_wf : channel_wf aead_client.
Proof. split; cbn; [done|lia|unfold u32_max; lia]. Qed.

End ToyCrypto.

Section witnesses.
#[local] Existing Instances ToyCrypto.primitives ToyCrypto.laws.

Lemma data_packets_arrive_once_witness :
  ∃ results b', open_all ToyCrypto.server (frame_at ToyCrypto.frames <$> [2; 0; 2; 1]%nat) = Ret (results, b') ∧
    results = [Ok (Some (str "third")); Ok (Some (str "first")); Ok None; Ok None].
Proof.
  destruct (data_packets_arrive_once ToyCrypto.client ToyCrypto.server ToyCrypto.packets ToyCrypto.frames
    [2; 0; 2; 1]%nat ToyCrypto.client_wf eq_refl eq_refl eq_refl
    ltac:(repeat constructor) ltac:(by vm_compute) ltac:(repeat constructor; vm_compute; lia))
    as (results & b' & Hrun & _).
  exists results, b'. split; [exact Hrun|]. vm_compute in Hrun. by injection Hrun as <- _.
Defined.

Lemma data_nonces_are_never_reused_witness :
  NoDup (calls_made ToyCrypto.aead_client ToyCrypto.packets) ∧
  length (calls_made ToyCrypto.aead_client ToyCrypto.packets) = 3%nat ∧
  (∀ k r, (seal_all ToyCrypto.aead_client ToyCrypto.packets).1 !! k = Some r →
     u32_max <= next_packet_id ToyCrypto.aead_client + Z.of_nat k → r = Err RENEGOTIATE).
Proof.
  destruct (data_nonces_are_never_reused _ ToyCrypto.packets ToyCrypto.aead_client_wf) as (H1 & _ & H3).
  exact (conj H1 (conj eq_refl H3)).
Defined.

Lemma opening_panics_on_short_cbc_only_witness :
  (open ToyCrypto.client [x48] = Panic ↔
   is_cbc (open_with ToyCrypto.client) = true ∧ zlen [x48] < 4 ∧ Z.shiftr (nz [x48] 0) 3 = P_DATA_V2) ∧
  ∀ e c', open ToyCrypto.client [x48] = Ret (Err e, c') → c' = ToyCrypto.client.
Proof. exact (opening_panics_on_short_cbc_only ToyCrypto.client [x48]). Defined.

Lemma data_keys_follow_the_prf_witness :
  ∃ material c, derive (mk_source (replicate 48 x01) (replicate 32 x02) (replicate 32 x03))
      (replicate 32 x04) (replicate 32 x05) (replicate 8 x06) (replicate 8 x07) = Ret material ∧
    material = key_expansion (mk_source (replicate 48 x01) (replicate 32 x02) (replicate 32 x03))
      (replicate 32 x04) (replicate 32 x05) (replicate 8 x06) (replicate 8 x07) ∧ zlen material = 256 ∧
    new_channel material Aes256Gcm Sha1 (Some 3) 0 = Ret (Ok c) ∧ channel_wf c ∧
    seal_with c = protection_of material Aes256Gcm Sha1 ∧
    open_with c = protection_of (drop 128 material) Aes256Gcm Sha1 ∧
    next_packet_id c = 1 ∧ replay c = Window.new.
Proof. apply data_keys_follow_the_prf. lia. Defined.

End witnesses.
