(* ===== verification/OvpnControl.v ===== *)
(** * OpenVPN's control channel

    Models [engine/src/openvpn/control.rs]: the framing of control packets under the
    three wrappings, and the reliability layer that numbers, acknowledges,
    retransmits and reorders them. The wall clock of the replay header ([stamp]),
    the instant of a call ([now]) and the random session id are arguments. *)
From S2P Require Import Prelude OvpnX509 OvpnConfig OvpnCrypto.

Definition P_CONTROL_SOFT_RESET_V1 : Z := 3.
Definition P_CONTROL_V1 : Z := 4.
Definition P_ACK_V1 : Z := 5.
Definition P_CONTROL_HARD_RESET_CLIENT_V2 : Z := 7.
Definition P_CONTROL_HARD_RESET_SERVER_V2 : Z := 8.

Definition MAX_CONTROL_PAYLOAD : Z := 1000.
Definition RETRANSMIT_AFTER : Z := ms 1200.
Definition MAX_ACKS : Z := 8.

Definition is_data (opcode : Z) : bool := (opcode =? P_DATA_V1) || (opcode =? P_DATA_V2).

Definition opcode_of (packet : list byte) : option Z :=
  first ← head packet; Some (Z.shiftr (b2z first) 3).

Inductive Wrapping : Type :=
| WrapNone
| WrapAuth (keys : TlsAuthKeys)
| WrapCrypt (keys : TlsCryptKeys).

Record Pending : Type := mk_pending { packet_id : Z; pending_packet : list byte; sent_at : Z }.

Inductive Received : Type :=
| Nothing
| ServerReset
| SoftReset (key_id : Z)
| Payload (bytes : list byte).

Record ControlChannel : Type := mk_control {
  wrapping : Wrapping;
  session_id : list byte;
  remote_session_id : option (list byte);
  control_key : Z;
  next_id : Z;
  next_replay_id : Z;
  unacknowledged : list Pending;
  pending_acks : list Z;
  expected : Z;
  reordered : gmap Z (list byte);
  outgoing : list (list byte)
}.

Definition new_wrapping (control_auth : ControlAuth) : run Wrapping :=
  match control_auth with
  | AuthNone => Ret WrapNone
  | TlsAuth key direction digest => WrapAuth <$> new_tls_auth key direction digest
  | TlsCrypt key => WrapCrypt <$> new_tls_crypt key
  end.

Definition new_control (control_auth : ControlAuth) (session_id : list byte) : run ControlChannel :=
  w ← new_wrapping control_auth;
  Ret (mk_control w session_id None 0 0 1 [] [] 0 ∅ []).

Section updates.
Implicit Types c : ControlChannel.

Definition with_remote c v := mk_control (wrapping c) (session_id c) v (control_key c) (next_id c)
  (next_replay_id c) (unacknowledged c) (pending_acks c) (expected c) (reordered c) (outgoing c).
Definition with_next_id c v := mk_control (wrapping c) (session_id c) (remote_session_id c) (control_key c) v
  (next_replay_id c) (unacknowledged c) (pending_acks c) (expected c) (reordered c) (outgoing c).
Definition with_replay_id c v := mk_control (wrapping c) (session_id c) (remote_session_id c) (control_key c)
  (next_id c) v (unacknowledged c) (pending_acks c) (expected c) (reordered c) (outgoing c).
Definition with_unacknowledged c v := mk_control (wrapping c) (session_id c) (remote_session_id c) (control_key c)
  (next_id c) (next_replay_id c) v (pending_acks c) (expected c) (reordered c) (outgoing c).
Definition with_acks c v := mk_control (wrapping c) (session_id c) (remote_session_id c) (control_key c)
  (next_id c) (next_replay_id c) (unacknowledged c) v (expected c) (reordered c) (outgoing c).
Definition with_reordered c e v := mk_control (wrapping c) (session_id c) (remote_session_id c) (control_key c)
  (next_id c) (next_replay_id c) (unacknowledged c) (pending_acks c) e v (outgoing c).
Definition with_outgoing c v := mk_control (wrapping c) (session_id c) (remote_session_id c) (control_key c)
  (next_id c) (next_replay_id c) (unacknowledged c) (pending_acks c) (expected c) (reordered c) v.

End updates.

Definition push_outgoing (c : ControlChannel) (packet : list byte) : ControlChannel :=
  with_outgoing c (outgoing c ++ [packet]).

Definition take_outgoing (c : ControlChannel) : option (list byte) * ControlChannel :=
  match outgoing c with
  | [] => (None, c)
  | packet :: rest => (Some packet, with_outgoing c rest)
  end.

Definition stale (now : Z) (p : Pending) : bool := RETRANSMIT_AFTER <=? since now (sent_at p).

Definition resend_stale (c : ControlChannel) (now : Z) : ControlChannel :=
  let due := pending_packet <$> filter (λ p, stale now p = true) (unacknowledged c) in
  let refreshed := (λ p, if stale now p then mk_pending (packet_id p) (pending_packet p) now else p)
                     <$> unacknowledged c in
  with_outgoing (with_unacknowledged c refreshed) (outgoing c ++ due).

Definition rekey (c : ControlChannel) (key_id : Z) : ControlChannel :=
  mk_control (wrapping c) (session_id c) (remote_session_id c) key_id 0 (next_replay_id c) [] [] 0 ∅ (outgoing c).

Definition wrap32 (z : Z) : Z := z mod 2 ^ 32.

Definition replay_header (c : ControlChannel) (stamp : Z) : list byte * ControlChannel :=
  (be_bytes 4 (next_replay_id c) ++ be_bytes 4 stamp, with_replay_id c (wrap32 (next_replay_id c + 1))).

(** The compared tags' differences, gathered over every byte. *)
Definition constant_time_eq (left right : list byte) : bool :=
  if negb (zlen left =? zlen right) then false
  else foldl (λ difference b, Z.lor difference (b2z b)) 0 (zip_with bxor left right) =? 0.

Section channel.
Context `{!Primitives}.

(** What goes in front of a body, and whether it travels in the clear. *)
Definition frame_body (w : Wrapping) (first : byte) (session_id replay body : list byte) : run (list byte) :=
  match w with
  | WrapNone => Ret ([first] ++ session_id ++ body)
  | WrapAuth keys =>
      let tag := mac (auth_digest keys) (send_key keys) (replay ++ [first] ++ session_id ++ body) in
      Ret ([first] ++ session_id ++ tag ++ replay ++ body)
  | WrapCrypt keys =>
      let header := [first] ++ session_id ++ replay in
      let tag := mac Sha256 (send_hmac keys) (header ++ body) in
      encrypted ← tls_crypt_apply (send_cipher keys) tag body;
      Ret (header ++ tag ++ encrypted)
  end.

(** The acknowledgements that ride on the next packet, and those that wait. *)
Definition take_acks (c : ControlChannel) (with_acks : bool) : list Z * list Z :=
  if with_acks && bool_decide (is_Some (remote_session_id c))
  then (take (Z.to_nat MAX_ACKS) (pending_acks c), drop (Z.to_nat MAX_ACKS) (pending_acks c))
  else ([], pending_acks c).

Definition wrap (c : ControlChannel) (opcode : Z) (payload : list byte) (ack : bool) (stamp : Z)
    : run (list byte * option Z * ControlChannel) :=
  let '(acks, waiting) := take_acks c ack in
  let c := with_acks c waiting in
  sid ← match acks with
        | [] => Ret []
        | _ => unwrap (remote_session_id c)
        end;
  let '(id, number, c) :=
    if opcode =? P_ACK_V1 then (None, [], c)
    else (Some (next_id c), be_bytes 4 (next_id c), with_next_id c (wrap32 (next_id c + 1))) in
  let body := [z2b (zlen acks)] ++ mjoin (be_bytes 4 <$> acks) ++ sid ++ number ++ payload in
  let first := z2b (Z.lor (Z.shiftl opcode 3) (control_key c)) in
  let '(replay, c) :=
    match wrapping c with WrapNone => (replicate 8 x00, c) | _ => replay_header c stamp end in
  packet ← frame_body (wrapping c) first (session_id c) replay body;
  Ret (packet, id, c).

Definition send (c : ControlChannel) (opcode : Z) (payload : list byte) (stamp now : Z) : run ControlChannel :=
  '(packet, id, c) ← wrap c opcode payload true stamp;
  let c := match id with
           | Some id => with_unacknowledged c (unacknowledged c ++ [mk_pending id packet now])
           | None => c
           end in
  Ret (push_outgoing c packet).

Definition start (c : ControlChannel) (stamp now : Z) : run ControlChannel :=
  send c P_CONTROL_HARD_RESET_CLIENT_V2 [] stamp now.

Definition restart (c : ControlChannel) (stamp now : Z) : run ControlChannel :=
  send c P_CONTROL_SOFT_RESET_V1 [] stamp now.

(** Each packet is stamped when it is made: [clock] gives the readings in turn. *)
Fixpoint send_chunks (c : ControlChannel) (pieces : list (list byte)) (clock : nat → Z * Z) : run ControlChannel :=
  match pieces with
  | [] => Ret c
  | piece :: rest =>
      c ← send c P_CONTROL_V1 piece (clock 0%nat).1 (clock 0%nat).2;
      send_chunks c rest (λ n, clock (S n))
  end.

Definition send_tls (c : ControlChannel) (bytes : list byte) (clock : nat → Z * Z) : run ControlChannel :=
  send_chunks c (chunks MAX_CONTROL_PAYLOAD bytes) clock.

Definition flush_acks (c : ControlChannel) (stamp : Z) : run ControlChannel :=
  if bool_decide (pending_acks c = []) || bool_decide (remote_session_id c = None) then Ret c else
  '(packet, _, c) ← wrap c P_ACK_V1 [] true stamp;
  Ret (push_outgoing c packet).

(** ** Receiving *)

Definition BAD_TLS_AUTH : list byte :=
  str "a control packet failed its tls-auth check, so the `<tls-auth>` key or its direction does not match the server's".
Definition BAD_TLS_CRYPT : list byte :=
  str "a control packet failed its tls-crypt check, so the `<tls-crypt>` key does not match the server's".

(** The body of a packet of at least 9 bytes, once its wrapping is taken off. *)
Definition open_body (w : Wrapping) (packet : list byte) : run (result Error (list byte)) :=
  match w with
  | WrapNone => body ← slice packet 9 (zlen packet); Ret (Ok body)
  | WrapAuth keys =>
      let size := output_len (auth_digest keys) in
      if zlen packet <? 9 + size + 8 then Ret (Err (str "a tls-auth control packet was truncated")) else
      tag ← slice packet 9 (9 + size);
      replay ← slice packet (9 + size) (9 + size + 8);
      body ← slice packet (9 + size + 8) (zlen packet);
      first ← slice packet 0 1;
      sid ← slice packet 1 9;
      let expected := mac (auth_digest keys) (receive_key keys) (replay ++ first ++ sid ++ body) in
      if negb (constant_time_eq expected tag) then Ret (Err BAD_TLS_AUTH) else Ret (Ok body)
  | WrapCrypt keys =>
      if zlen packet <? 49 then Ret (Err (str "a tls-crypt control packet was truncated")) else
      header ← slice packet 0 17;
      tag ← slice packet 17 49;
      encrypted ← slice packet 49 (zlen packet);
      body ← tls_crypt_apply (receive_cipher keys) tag encrypted;
      let expected := mac Sha256 (receive_hmac keys) (header ++ body) in
      if negb (constant_time_eq expected tag) then Ret (Err BAD_TLS_CRYPT) else Ret (Ok body)
  end.

Fixpoint read_acks (count : nat) (body : list byte) (cursor : Z) (acks : list Z)
    : run (result Error (list Z * Z)) :=
  match count with
  | O => Ret (Ok (acks, cursor))
  | S count' =>
      let stop := cursor + 4 in
      if zlen body <? stop then
        Ret (Err (str "a control packet's acknowledgement list was truncated"))
      else
        ack ← slice body cursor stop;
        read_acks count' body stop (acks ++ [be_Z ack])
  end.

(** The acknowledgements, the packet's own id and where its payload starts. *)
Definition read_body (opcode : Z) (body : list byte) : run (result Error (list Z * option Z * Z)) :=
  match body with
  | [] => Ret (Err (str "a control packet had no body"))
  | count :: _ =>
      let ack_count := b2z count in
      acks ← read_acks (Z.to_nat ack_count) body 1 [];
      match acks with
      | Err e => Ret (Err e)
      | Ok (acks, cursor) =>
          let cursor := if 0 <? ack_count then cursor + 8 else cursor in
          if (0 <? ack_count) && (zlen body <? cursor) then
            Ret (Err (str "a control packet's acknowledgement block was truncated"))
          else if opcode =? P_ACK_V1 then Ret (Ok (acks, None, cursor))
          else
            let stop := cursor + 4 in
            if zlen body <? stop then Ret (Err (str "a control packet had no packet id"))
            else id ← slice body cursor stop; Ret (Ok (acks, Some (be_Z id), stop))
      end
  end.

(** [while let Some(chunk) = reordered.remove(&expected)]. *)
Fixpoint drain (fuel : nat) (reordered : gmap Z (list byte)) (expected : Z) (payload : list byte)
    : run (gmap Z (list byte) * Z * list byte) :=
  match reordered !! expected with
  | None => Ret (reordered, expected, payload)
  | Some chunk =>
      match fuel with
      | O => Panic
      | S fuel' =>
          if expected =? u32_max then Panic
          else drain fuel' (delete expected reordered) (expected + 1) (payload ++ chunk)
      end
  end.

Definition acknowledge (c : ControlChannel) (acks : list Z) : ControlChannel :=
  with_unacknowledged c
    (foldl (λ l ack, filter (λ p, packet_id p ≠ ack) l) (unacknowledged c) acks).

(** A reset takes its place in the numbering when its turn has come. *)
Definition step_past (c : ControlChannel) (id : Z) : run ControlChannel :=
  if id =? expected c then
    if expected c =? u32_max then Panic else Ret (with_reordered c (expected c + 1) (reordered c))
  else Ret c.

Definition receive (c : ControlChannel) (packet : list byte) (stamp : Z)
    : run (result Error Received * ControlChannel) :=
  match opcode_of packet with
  | None => Ret (Err (str "an OpenVPN control packet was empty"), c)
  | Some opcode =>
      if zlen packet <? 9 then Ret (Err (str "an OpenVPN control packet was truncated"), c) else
      let key := Z.land (nz packet 0) 7 in
      if negb (key =? control_key c) && negb (opcode =? P_CONTROL_SOFT_RESET_V1) then Ret (Ok Nothing, c) else
      sid ← slice packet 1 9;
      body ← open_body (wrapping c) packet;
      match body with
      | Err e => Ret (Err e, c)
      | Ok body =>
          parsed ← read_body opcode body;
          match parsed with
          | Err e => Ret (Err e, c)
          | Ok (acks, id, cursor) =>
              let c := match remote_session_id c with None => with_remote c (Some sid) | Some _ => c end in
              let c := acknowledge c acks in
              match id with
              | None => Ret (Ok Nothing, c)
              | Some id =>
                  let c := with_acks c (pending_acks c ++ [id]) in
                  if opcode =? P_CONTROL_HARD_RESET_SERVER_V2 then
                    c ← step_past c id;
                    c ← flush_acks c stamp;
                    Ret (Ok ServerReset, c)
                  else if opcode =? P_CONTROL_SOFT_RESET_V1 then
                    c ← step_past c id;
                    c ← flush_acks c stamp;
                    Ret (Ok (SoftReset key), c)
                  else
                    chunk ← slice body cursor (zlen body);
                    let c := with_reordered c (expected c) (<[id := chunk]> (reordered c)) in
                    c ← flush_acks c stamp;
                    '(reordered, next, payload) ← drain (size (reordered c)) (reordered c) (expected c) [];
                    let c := with_reordered c next reordered in
                    Ret (Ok (match payload with [] => Nothing | _ => Payload payload end), c)
              end
          end
      end
  end.

End channel.

(** ** What a packet reads as *)

Record Message : Type := mk_message {
  opcode : Z;
  from : list byte;
  acks : list Z;
  number : option Z;
  payload : list byte
}.

(** A receiver with wrapping [w] on key [key] finds [m] in [p]. *)
Definition reads `{!Primitives} (w : Wrapping) (key : Z) (p : list byte) (m : Message) : Prop :=
  opcode_of p = Some (opcode m) ∧ 9 <= zlen p ∧ Z.land (nz p 0) 7 = key ∧ slice p 1 9 = Ret (from m) ∧
  ∃ body cursor, open_body w p = Ret (Ok body) ∧
    read_body (opcode m) body = Ret (Ok (acks m, number m, cursor)) ∧
    (is_Some (number m) → slice body cursor (zlen body) = Ret (payload m)).

(** The receiver's keys are those the sender seals with. *)
Definition mirrors (w w' : Wrapping) : Prop :=
  match w, w' with
  | WrapNone, WrapNone => True
  | WrapAuth k, WrapAuth k' => receive_key k' = send_key k ∧ auth_digest k' = auth_digest k
  | WrapCrypt k, WrapCrypt k' => receive_cipher k' = send_cipher k ∧ receive_hmac k' = send_hmac k
  | _, _ => False
  end.

Lemma lor_zero_iff a b : 0 <= a → 0 <= b → Z.lor a b = 0 ↔ a = 0 ∧ b = 0.
Proof. intros _ _. apply Z.lor_eq_0_iff. Qed.

Lemma differences_zero l d :
  0 <= d → foldl (λ difference b, Z.lor difference (b2z b)) d l = 0 ↔ d = 0 ∧ Forall (λ b, b2z b = 0) l.
Proof.
  revert d. induction l as [|b l IH]; intros d Hd; cbn [foldl]; [rewrite Forall_nil; tauto|].
  pose proof (b2z_range b). rewrite IH, lor_zero_iff, Forall_cons by (lia || by apply Z.lor_nonneg; lia). tauto.
Qed.

Lemma constant_time_eq_spec l k : constant_time_eq l k = true ↔ l = k.
Proof.
  unfold constant_time_eq. destruct (Z.eqb_spec (zlen l) (zlen k)) as [Hl|Hl]; cbn [negb].
  2: { split; [done|intros ->; done]. }
  rewrite Z.eqb_eq, differences_zero by done. unfold zlen in Hl. apply Nat2Z.inj in Hl. revert k Hl.
  induction l as [|a l IH]; intros [|b k] Hl; try done; cbn [zip_with].
  rewrite Forall_cons. injection Hl as Hl. specialize (IH k Hl). rewrite bxor_spec, Z.lxor_eq_0_iff.
  split; [intros (_ & ->%b2z_inj & Hf); f_equal; tauto|intros [= -> ->]; tauto].
Qed.

Section framing.
Context `{!Primitives, !PrimitiveLaws}.

Lemma frame_opens w w' first sid replay body :
  mirrors w w' → zlen sid = 8 → zlen replay = 8 →
  ∃ rest, frame_body w first sid replay body = Ret (first :: sid ++ rest) ∧
    open_body w' (first :: sid ++ rest) = Ret (Ok body).
Proof.
  intros Hm Hs Hr. destruct w as [|k|k], w' as [|k'|k']; try done; unfold frame_body, open_body.
  - exists body. split; [done|]. by next_slice ([first] ++ sid) body (@nil byte).
  - destruct Hm as [Hk Hd]. rewrite Hd, Hk.
    set (tag := mac _ _ _). assert (zlen tag = output_len (auth_digest k)) as Ht by apply mac_length.
    exists (tag ++ replay ++ body). split; [done|]. rewrite <-Ht.
    rewrite (proj2 (Z.ltb_ge _ _)) by len.
    next_slice (first :: sid) tag (replay ++ body).
    next_slice (first :: sid ++ tag) replay body.
    next_slice (first :: sid ++ tag ++ replay) body (@nil byte).
    next_slice (@nil byte) [first] (sid ++ tag ++ replay ++ body).
    next_slice [first] sid (tag ++ replay ++ body).
    fold tag. by rewrite (proj2 (constant_time_eq_spec tag tag)).
  - destruct Hm as [Hc Hh]. rewrite Hc, Hh. set (tag := mac _ _ _).
    assert (zlen tag = 32) as Ht by apply mac_length.
    unfold tls_crypt_apply. rewrite (slice_in tag) by lia. cbn [mbind run_bind].
    set (ct := ctr_apply _ _ body). assert (zlen ct = zlen body) as Hct by apply ctr_length.
    exists (replay ++ tag ++ ct). split; [by cbn; rewrite <-!app_assoc|].
    rewrite (proj2 (Z.ltb_ge _ _)) by len.
    next_slice (@nil byte) (first :: sid ++ replay) (tag ++ ct).
    next_slice (first :: sid ++ replay) tag ct.
    next_slice (first :: sid ++ replay ++ tag) ct (@nil byte).
    rewrite (slice_in tag) by lia. cbn [mbind run_bind]. unfold ct. rewrite ctr_involutive.
    change ([first] ++ sid ++ replay) with (first :: sid ++ replay) in tag. fold tag.
    by rewrite (proj2 (constant_time_eq_spec tag tag)).
Qed.

Lemma mjoin_be_length (l : list Z) : zlen (mjoin (be_bytes 4 <$> l)) = 4 * zlen l.
Proof.
  induction l as [|a l IH]; [done|]. rewrite fmap_cons. change (mjoin (?x :: ?y)) with (x ++ mjoin y).
  rewrite zlen_app, zlen_be_bytes, zlen_cons, IH. lia.
Qed.

Lemma read_acks_built head l tail done :
  Forall (λ a, 0 <= a <= u32_max) l →
  read_acks (length l) (head ++ mjoin (be_bytes 4 <$> l) ++ tail) (zlen head) done
  = Ret (Ok (done ++ l, zlen head + 4 * zlen l)).
Proof.
  revert head done. induction l as [|a l IH]; intros head done Hl.
  { cbn. rewrite app_nil_r. change (zlen (@nil Z)) with 0. do 3 f_equal. lia. }
  apply Forall_cons in Hl as [Ha Hl]. rewrite fmap_cons. change (mjoin (?x :: ?y)) with (x ++ mjoin y).
  cbn [length read_acks]. rewrite (proj2 (Z.ltb_ge _ _)) by len.
  next_slice head (be_bytes 4 a) (mjoin (be_bytes 4 <$> l) ++ tail).
  rewrite be_Z_id by done. replace (zlen head + 4) with (zlen (head ++ be_bytes 4 a)) by len.
  rewrite <-(app_assoc (be_bytes 4 a)), (app_assoc head), IH by done.
  do 3 f_equal; [by rewrite <-app_assoc|rewrite zlen_cons, zlen_app, zlen_be_bytes; lia].
Qed.

(** The body that [wrap] builds reads back. *)
Lemma read_body_built op l sid id payload :
  zlen l <= 8 → Forall (λ a, 0 <= a <= u32_max) l → (l = [] → sid = []) → (l ≠ [] → zlen sid = 8) →
  (op = P_ACK_V1 ↔ id = None) → (∀ i, id = Some i → 0 <= i <= u32_max) →
  let number := match id with Some i => be_bytes 4 i | None => [] end in
  let body := [z2b (zlen l)] ++ mjoin (be_bytes 4 <$> l) ++ sid ++ number ++ payload in
  ∃ cursor, read_body op body = Ret (Ok (l, id, cursor)) ∧
    (is_Some id → slice body cursor (zlen body) = Ret payload).
Proof.
  intros Hlen Hl Hnil Hsid Hop Hid number body. pose proof (zlen_nonneg l).
  assert (0 < zlen l ↔ l ≠ []) as Hpos by (destruct l; [done|rewrite zlen_cons; pose proof (zlen_nonneg l); split; [done|lia]]).
  unfold read_body, body. cbn [app]. rewrite b2z_z2b, Z.mod_small by lia.
  replace (Z.to_nat (zlen l)) with (length l) by (unfold zlen; lia).
  pose proof (read_acks_built [z2b (zlen l)] l (sid ++ number ++ payload) [] Hl) as Hr.
  change (zlen [z2b (zlen l)]) with 1 in Hr. cbn [app] in Hr. rewrite Hr. cbn [mbind run_bind].
  set (cursor := if 0 <? zlen l then 1 + 4 * zlen l + 8 else 1 + 4 * zlen l).
  pose proof (mjoin_be_length l) as Hm.
  assert (cursor = zlen ([z2b (zlen l)] ++ mjoin (be_bytes 4 <$> l) ++ sid)) as Hcur.
  { rewrite !zlen_app, Hm. change (zlen [z2b (zlen l)]) with 1. unfold cursor.
    destruct (Z.ltb_spec 0 (zlen l)) as [Hp|Hp].
    - rewrite Hsid by tauto. lia.
    - rewrite Hnil; [change (zlen (@nil byte)) with 0; lia|]. destruct (decide (l = [])) as [|Hne]; [done|]. apply Hpos in Hne. lia. }
  replace (z2b (zlen l) :: mjoin (be_bytes 4 <$> l) ++ sid ++ number ++ payload) with
    (([z2b (zlen l)] ++ mjoin (be_bytes 4 <$> l) ++ sid) ++ number ++ payload) by (by rewrite <-!app_assoc).
  set (front := [z2b (zlen l)] ++ mjoin (be_bytes 4 <$> l) ++ sid) in *.
  rewrite (proj2 (Z.ltb_ge (zlen (front ++ number ++ payload)) cursor)), andb_false_r by len.
  destruct (Z.eqb_spec op P_ACK_V1) as [E|E].
  - exists cursor. rewrite (proj1 Hop E). split; [done|]. by intros [? ?].
  - destruct id as [i|]; [|by rewrite (proj2 Hop eq_refl) in E]. specialize (Hid i eq_refl).
    assert (zlen number = 4) as Hn by apply zlen_be_bytes.
    exists (cursor + 4). split.
    { rewrite (proj2 (Z.ltb_ge _ _)) by len. next_slice front number payload.
      by unfold number; rewrite be_Z_id. }
    intros _.
    apply (slice_eq _ (front ++ number) payload []); [by rewrite app_nil_r, <-app_assoc|len|len].
Qed.

End framing.

(** ** Building a packet *)

(** What every operation keeps of a channel. *)
Record control_wf (c : ControlChannel) : Prop := {
  cc_session : zlen (session_id c) = 8;
  cc_remote : ∀ sid, remote_session_id c = Some sid → zlen sid = 8;
  cc_key : 0 <= control_key c < 8;
  cc_next : 0 <= next_id c <= u32_max;
  cc_acks : Forall (λ a, 0 <= a <= u32_max) (pending_acks c)
}.

Lemma first_byte op key :
  0 <= op < 32 → 0 <= key < 8 →
  let b := z2b (Z.lor (Z.shiftl op 3) key) in Z.shiftr (b2z b) 3 = op ∧ Z.land (b2z b) 7 = key.
Proof.
  intros Ho Hk b. unfold b. rewrite b2z_z2b, lor_shift, Z.mod_small by lia.
  change 7 with (Z.ones 3). rewrite Z.shiftr_div_pow2, Z.land_ones by lia.
  split; symmetry; [apply (Z.div_unique _ _ _ key)|apply (Z.mod_unique _ _ op)]; lia.
Qed.

(** The channel once a packet with the given acknowledgements was built. *)
Definition built (c : ControlChannel) (op : Z) (waiting : list Z) (replay_id : Z) : ControlChannel :=
  with_replay_id (with_next_id (with_acks c waiting)
    (if op =? P_ACK_V1 then next_id c else wrap32 (next_id c + 1))) replay_id.

Section building.
Context `{!Primitives, !PrimitiveLaws}.

Lemma wrap_reads c w' op payload stamp :
  control_wf c → mirrors (wrapping c) w' → 0 <= op < 32 →
  let '(l, waiting) := take_acks c true in
  let id := if op =? P_ACK_V1 then None else Some (next_id c) in
  ∃ p replay_id, wrap c op payload true stamp = Ret (p, id, built c op waiting replay_id) ∧
    reads w' (control_key c) p (mk_message op (session_id c) l id payload).
Proof.
  intros [Hs Hr Hk Hn Ha] Hm Ho. destruct (take_acks c true) as [l waiting] eqn:Et. cbn zeta.
  assert (zlen l <= 8 ∧ Forall (λ a, 0 <= a <= u32_max) l ∧ (l ≠ [] → is_Some (remote_session_id c))) as (Hl8 & Hl & Hsome).
  { revert Et. unfold take_acks. destruct (true && bool_decide (is_Some (remote_session_id c))) eqn:E; intros [= <- <-].
    - apply andb_true_iff in E as [_ E%bool_decide_eq_true]. split_and!; [|by apply Forall_take|done].
      unfold zlen, MAX_ACKS. rewrite length_take. lia.
    - split_and!; [done|constructor|done]. }
  unfold wrap. rewrite Et.
  set (sid := match l with [] => [] | _ => default [] (remote_session_id c) end).
  assert ((match l with [] => Ret [] | _ => unwrap (remote_session_id (with_acks c waiting)) end) = Ret sid) as ->.
  { unfold sid. destruct l as [|a l]; [done|]. cbn. by destruct Hsome as [s ->]. }
  cbn [mbind run_bind]. set (id := if op =? P_ACK_V1 then None else Some (next_id c)).
  set (number := match id with Some i => be_bytes 4 i | None => [] end).
  set (c1 := with_next_id (with_acks c waiting) (if op =? P_ACK_V1 then next_id c else wrap32 (next_id c + 1))).
  assert ((if op =? P_ACK_V1 then (None, [], with_acks c waiting)
           else (Some (next_id (with_acks c waiting)), be_bytes 4 (next_id (with_acks c waiting)),
                 with_next_id (with_acks c waiting) (wrap32 (next_id (with_acks c waiting) + 1))))
          = (id, number, c1)) as ->.
  { unfold number, id, c1. destruct (op =? P_ACK_V1); [by destruct c|done]. }
  cbv beta iota zeta. set (body := [z2b (zlen l)] ++ mjoin (be_bytes 4 <$> l) ++ sid ++ number ++ payload).
  set (first := z2b (Z.lor (Z.shiftl op 3) (control_key c1))).
  destruct (match wrapping c1 with WrapNone => (replicate 8 x00, c1) | _ => replay_header c1 stamp end)
    as [replay c2] eqn:Er.
  assert (zlen replay = 8 ∧ ∃ r, c2 = with_replay_id c1 r) as [Hrep [r ->]].
  { destruct (wrapping c1); injection Er as <- <-; (split; [by rewrite ?zlen_app, ?zlen_be_bytes|]).
    - exists (next_replay_id c1). by destruct c.
    - by eexists.
    - by eexists. }
  destruct (frame_opens (wrapping c) w' first (session_id c) replay body Hm Hs Hrep) as (rest & Hf & Hopen).
  change (wrapping (with_replay_id c1 r)) with (wrapping c).
  change (session_id (with_replay_id c1 r)) with (session_id c). rewrite Hf. cbn [mbind run_bind].
  exists (first :: session_id c ++ rest), r. split; [done|].
  destruct (first_byte op (control_key c) Ho Hk) as [Hop Hkey].
  destruct (read_body_built op l sid id payload Hl8 Hl) as (cursor & Hread & Hslice).
  - unfold sid. by intros ->.
  - unfold sid. intros Hne. destruct l as [|a l]; [done|]. destruct (Hsome Hne) as [s E]. rewrite E. by apply Hr.
  - unfold id. destruct (Z.eqb_spec op P_ACK_V1); naive_solver.
  - intros i. unfold id. destruct (op =? P_ACK_V1); [done|]. by intros [= <-].
  - split_and!; cbn.
    + change (opcode_of _) with (Some (Z.shiftr (b2z first) 3)). exact (f_equal Some Hop).
    + pose proof (zlen_nonneg rest). rewrite zlen_cons, zlen_app. lia.
    + exact Hkey.
    + apply (slice_eq _ [first] (session_id c) rest); [done|done|by rewrite Hs].
    + by exists body, cursor.
Qed.

End building.

(** ** Anything may arrive *)

(** The wrapping of a peer. *)
Definition flip (w : Wrapping) : Wrapping :=
  match w with
  | WrapNone => WrapNone
  | WrapAuth k => WrapAuth (mk_auth (receive_key k) (send_key k) (auth_digest k))
  | WrapCrypt k => WrapCrypt (mk_crypt (receive_cipher k) (receive_hmac k) (send_cipher k) (send_hmac k))
  end.

Lemma flip_mirrors w : mirrors w (flip w).
Proof. by destruct w. Qed.

Section hostile.
Context `{!Primitives, !PrimitiveLaws}.

Lemma open_body_total w packet : 9 <= zlen packet → ∃ r, open_body w packet = Ret r.
Proof.
  intros Hp. destruct w as [|k|k]; cbn [open_body].
  - rewrite slice_in by lia. by eexists.
  - assert (0 < output_len (auth_digest k)) by by destruct (auth_digest k).
    destruct (Z.ltb_spec (zlen packet) (9 + output_len (auth_digest k) + 8)); [by eexists|].
    rewrite !slice_in by lia. cbn [mbind run_bind]. destruct (negb _); by eexists.
  - destruct (Z.ltb_spec (zlen packet) 49); [by eexists|]. rewrite !slice_in by lia. cbn [mbind run_bind].
    unfold tls_crypt_apply. rewrite slice_in by (rewrite ?zlen_sub; lia). cbn [mbind run_bind].
    destruct (negb _); by eexists.
Qed.

Lemma be_Z_4 (l : list byte) i : 0 <= i → i + 4 <= zlen l → 0 <= be_Z (sub l i (i + 4)) <= u32_max.
Proof.
  intros Hi Hl. pose proof (be_Z_bound (sub l i (i + 4))) as Hb. rewrite zlen_sub in Hb by lia.
  replace (256 ^ (i + 4 - i)) with (2 ^ 32) in Hb by (replace (i + 4 - i) with 4 by lia; done).
  unfold u32_max. lia.
Qed.

Lemma read_acks_total count body cursor acks :
  0 <= cursor →
  ∃ r, read_acks count body cursor acks = Ret r ∧ ∀ l c, r = Ok (l, c) → cursor <= c.
Proof.
  revert cursor acks. induction count as [|count IH]; intros cursor acks Hc; cbn [read_acks].
  { eexists. split; [done|]. by intros l c [= <- <-]. }
  destruct (Z.ltb_spec (zlen body) (cursor + 4)); [by eexists|].
  rewrite slice_in by lia. cbn [mbind run_bind].
  destruct (IH (cursor + 4) (acks ++ [be_Z (sub body cursor (cursor + 4))])) as (r & Hr & Hl); [lia|].
  exists r. split; [done|]. intros l c E. specialize (Hl l c E). lia.
Qed.

Lemma read_body_total op body :
  ∃ r, read_body op body = Ret r ∧
    ∀ l id cursor, r = Ok (l, id, cursor) →
      ∀ i, id = Some i → 0 <= i <= u32_max ∧ 0 <= cursor <= zlen body.
Proof.
  unfold read_body. destruct body as [|count rest] eqn:Eb; [by eexists|]. rewrite <-Eb.
  pose proof (b2z_range count).
  destruct (read_acks_total (Z.to_nat (b2z count)) body 1 []) as (r & -> & Hr); [done|]. cbn [mbind run_bind].
  destruct r as [[l c]|e]; [|by eexists]. specialize (Hr l c eq_refl).
  set (cursor := if 0 <? b2z count then c + 8 else c).
  assert (0 <= cursor) by (unfold cursor; destruct (0 <? b2z count); lia).
  destruct (_ && _); [by eexists|]. destruct (op =? P_ACK_V1).
  { eexists. split; [done|]. by intros ? ? ? [= <- <- <-]. }
  destruct (Z.ltb_spec (zlen body) (cursor + 4)); [by eexists|].
  rewrite slice_in by lia. cbn [mbind run_bind]. eexists. split; [done|].
  intros ? ? ? [= <- <- <-] i [= <-]. split; [by apply be_Z_4|lia].
Qed.

Lemma flush_total c stamp :
  control_wf c → ∃ c', flush_acks c stamp = Ret c' ∧ control_wf c' ∧
    expected c' = expected c ∧ reordered c' = reordered c ∧ wrapping c' = wrapping c ∧
    control_key c' = control_key c.
Proof.
  intros Hwf. unfold flush_acks. destruct (_ || _); [by exists c|].
  pose proof (wrap_reads c (flip (wrapping c)) P_ACK_V1 [] stamp Hwf (flip_mirrors _) ltac:(done)) as Hw.
  destruct (take_acks c true) as [l waiting] eqn:Et. destruct Hw as (p & r & -> & _). cbn [mbind run_bind].
  eexists. split; [done|]. split; [|done]. destruct Hwf as [? ? ? ? Ha]. split; try done. cbn.
  revert Et. unfold take_acks. destruct (_ && _); intros [= <- <-]; [by apply Forall_drop|done].
Qed.

(** How far a channel is into its numbering, with what it holds out of order. *)
Definition room (c : ControlChannel) : Z := expected c + Z.of_nat (size (reordered c)).

Lemma step_past_total c id :
  control_wf c → expected c < u32_max →
  ∃ c', step_past c id = Ret c' ∧ control_wf c' ∧ room c' <= room c + 1 ∧ control_key c' = control_key c.
Proof.
  intros Hwf He. unfold step_past. destruct (id =? expected c); [|by exists c; split_and!; [|..|lia|]].
  rewrite (proj2 (Z.eqb_neq _ _)) by lia. eexists. split_and!; [done|by destruct Hwf| |done].
  unfold room. cbn [with_reordered expected reordered]. lia.
Qed.

Lemma drain_total fuel ro e out :
  (size ro <= fuel)%nat → e + Z.of_nat (size ro) <= u32_max →
  ∃ ro' e' out', drain fuel ro e out = Ret (ro', e', out') ∧ e' + Z.of_nat (size ro') = e + Z.of_nat (size ro).
Proof.
  revert ro e out. induction fuel as [|fuel IH]; intros ro e out Hf He.
  - assert (ro = ∅) as -> by (apply map_size_empty_inv; lia). cbn. rewrite lookup_empty. by eexists _, _, _.
  - cbn [drain]. destruct (ro !! e) as [d|] eqn:E; [|by eexists _, _, _].
    assert (size (delete e ro) = Nat.pred (size ro)) as Hs by (apply map_size_delete_Some; by rewrite E).
    assert (size ro ≠ 0%nat). { intros Hz%map_size_empty_inv. by rewrite Hz, lookup_empty in E. }
    rewrite (proj2 (Z.eqb_neq _ _)) by lia.
    destruct (IH (delete e ro) (e + 1) (out ++ d)) as (ro' & e' & out' & Hrun & Hs'); [lia..|].
    exists ro', e', out'. split; [done|]. lia.
Qed.

(** A payload goes in its place, and what is next in order comes out. *)
Lemma payload_runs c i chunk stamp :
  control_wf c → room c < u32_max →
  ∃ ro e out c', (c ← flush_acks (with_reordered c (expected c) (<[i := chunk]> (reordered c))) stamp;
    '(reordered, next, payload) ← drain (size (reordered c)) (reordered c) (expected c) [];
    let c := with_reordered c next reordered in
    Ret (Ok (E := Error) (match payload with [] => Nothing | _ => Payload payload end), c))
    = Ret (Ok (match out with [] => Nothing | _ => Payload out end), with_reordered c' e ro) ∧
    control_wf (with_reordered c' e ro) ∧ e + Z.of_nat (size ro) <= room c + 1 ∧ control_key c' = control_key c.
Proof.
  intros Hwf Hroom. set (c2 := with_reordered _ _ _). assert (control_wf c2) as Hc2 by (by destruct Hwf).
  destruct (flush_total c2 stamp Hc2) as (c3 & -> & Hc3 & E1 & E2 & _ & Hk). cbn [mbind run_bind].
  assert ((size (reordered c3) <= S (size (reordered c)))%nat) as Hsize.
  { rewrite E2. unfold c2. cbn [with_reordered reordered]. rewrite map_size_insert.
    destruct (reordered c !! i); unfold id; lia. }
  unfold room in *. change (expected c2) with (expected c) in E1.
  destruct (drain_total (size (reordered c3)) (reordered c3) (expected c3) []) as (ro & e & out & -> & Hs); [lia..|].
  cbn [mbind run_bind]. exists ro, e, out, c3. split_and!; [done|by destruct Hc3|lia|done].
Qed.

Lemma send_runs c op payload stamp now :
  control_wf c → 0 <= op < 32 →
  ∃ c', send c op payload stamp now = Ret c' ∧ control_wf c' ∧ room c' = room c ∧ control_key c' = control_key c.
Proof.
  intros Hwf Hop. pose proof (wrap_reads c (flip (wrapping c)) op payload stamp Hwf (flip_mirrors _) Hop) as Hw.
  unfold send. destruct (take_acks c true) as [l waiting] eqn:Et. destruct Hw as (p & r & -> & _). cbn [mbind run_bind].
  assert (control_wf (built c op waiting r)) as Hb.
  { destruct Hwf as [? ? ? ? Ha]. split; try done; cbn.
    - destruct (op =? P_ACK_V1); [done|]. unfold wrap32, u32_max. pose proof (Z.mod_pos_bound (next_id c + 1) (2 ^ 32)). lia.
    - revert Et. unfold take_acks. destruct (_ && _); intros [= <- <-]; [by apply Forall_drop|done]. }
  eexists. split; [done|]. destruct (op =? P_ACK_V1); (split_and!; [by destruct Hb|done|done]).
Qed.

Lemma send_tls_runs c bytes clock :
  control_wf c →
  ∃ c', send_tls c bytes clock = Ret c' ∧ control_wf c' ∧ room c' = room c ∧ control_key c' = control_key c.
Proof.
  unfold send_tls. generalize (chunks MAX_CONTROL_PAYLOAD bytes) as pieces. intros pieces.
  revert c clock. induction pieces as [|piece pieces IH]; intros c clock Hwf; [by exists c|].
  cbn [send_chunks]. destruct (send_runs c P_CONTROL_V1 piece (clock 0%nat).1 (clock 0%nat).2 Hwf) as (c1 & -> & H1 & Hr1 & Hk1); [done|].
  cbn [mbind run_bind]. destruct (IH c1 (λ n, clock (S n)) H1) as (c2 & -> & H2 & Hr2 & Hk2). exists c2.
  split_and!; [done|done|congruence|congruence].
Qed.

Lemma new_control_runs auth sid :
  control_auth_wf auth → zlen sid = 8 → ∃ c, new_control auth sid = Ret c ∧ control_wf c ∧ room c = 0.
Proof.
  intros Ha Hs. unfold new_control.
  assert (∃ w, new_wrapping auth = Ret w) as [w ->].
  { destruct auth as [|key direction digest|key]; cbn in *; [by eexists|..]; unfold static_key_wf in Ha.
    - unfold new_tls_auth, static_hmac. assert (0 < output_len digest <= 64) by by destruct digest.
      assert (∃ s r, indexes direction = (s, r) ∧ 0 <= s <= 1 ∧ 0 <= r <= 1) as (s & r & -> & Hsr & Hr)
        by (destruct direction; by eexists _, _).
      rewrite slice_in by lia. cbn [mbind run_bind]. rewrite slice_in by (rewrite ?zlen_sub; lia). cbn [mbind run_bind].
      rewrite slice_in by lia. cbn [mbind run_bind]. rewrite slice_in by (rewrite ?zlen_sub; lia). by eexists.
    - unfold new_tls_crypt, static_cipher, static_hmac.
      do 4 (rewrite slice_in by lia; cbn [mbind run_bind]; rewrite slice_in by (rewrite ?zlen_sub; lia); cbn [mbind run_bind]).
      by eexists. }
  cbn [mbind run_bind]. eexists. split; [done|]. by split.
Qed.

Lemma rekey_runs c key : control_wf c → 0 <= key < 8 → control_wf (rekey c key) ∧ room (rekey c key) = 0.
Proof. intros [? ? ? ? ?] Hk. by split; [split|]. Qed.

Lemma resend_runs c now :
  control_wf c → control_wf (resend_stale c now) ∧ room (resend_stale c now) = room c ∧
    control_key (resend_stale c now) = control_key c.
Proof. intros [? ? ? ? ?]. by split_and!. Qed.

End hostile.

(** ** Property *)

Section property.
Context `{!Primitives, !PrimitiveLaws}.

(** What [receive] answers, whatever the packet. *)
Definition received_ok (c : ControlChannel) (packet : list byte) (r : result Error Received) (c' : ControlChannel) : Prop :=
  control_wf c' ∧ (∀ e, r = Err e → c' = c) ∧
  (Z.land (nz packet 0) 7 ≠ control_key c → opcode_of packet ≠ Some P_CONTROL_SOFT_RESET_V1 → c' = c) ∧
  room c' <= room c + 1 ∧ control_key c' = control_key c ∧ (∀ k, r = Ok (SoftReset k) → 0 <= k < 8).

Lemma received_nothing c packet r : control_wf c → (∀ k, r ≠ Ok (SoftReset k)) → received_ok c packet r c.
Proof. intros Hwf Hr. split_and!; [done|done|done|lia|done|]. intros k E. by destruct (Hr k). Qed.

Lemma acknowledge_wf c sid l :
  control_wf c → zlen sid = 8 →
  control_wf (acknowledge (match remote_session_id c with None => with_remote c (Some sid) | Some _ => c end) l).
Proof.
  intros [W1 W2 W3 W4 W5] Hs. destruct (remote_session_id c) as [s|] eqn:Es; split; cbn; try done.
  - by rewrite Es.
  - by intros ? [= <-].
Qed.

Lemma receive_runs c packet stamp :
  control_wf c → room c < u32_max → ∃ r c', receive c packet stamp = Ret (r, c') ∧ received_ok c packet r c'.
Proof.
  intros Hwf Hroom. unfold receive.
  destruct (opcode_of packet) as [op|] eqn:Eop; [|by eexists _, c; split; [|apply received_nothing]].
  destruct (Z.ltb_spec (zlen packet) 9); [by eexists _, c; split; [|apply received_nothing]|]. cbv zeta.
  destruct (negb (Z.land (nz packet 0) 7 =? control_key c) && negb (op =? P_CONTROL_SOFT_RESET_V1)) eqn:Ekey;
    [by eexists _, c; split; [|apply received_nothing]|].
  assert (Z.land (nz packet 0) 7 ≠ control_key c → op = P_CONTROL_SOFT_RESET_V1) as Hkey.
  { intros Hk. apply andb_false_iff in Ekey as [E|E]; b2p; done. }
  rewrite slice_in by lia. cbn [mbind run_bind].
  destruct (open_body_total (wrapping c) packet) as [[body|e] ->]; [done| |by eexists _, c; split; [|apply received_nothing]].
  cbn [mbind run_bind].
  destruct (read_body_total op body) as ([[[l id] cursor]|e] & -> & Hr); [|by eexists _, c; split; [|apply received_nothing]].
  cbn [mbind run_bind]. set (c1 := acknowledge _ l).
  assert (control_wf c1) as Hwf1 by (apply acknowledge_wf; [done|rewrite zlen_sub; lia]).
  assert (expected c1 = expected c ∧ reordered c1 = reordered c ∧ control_key c1 = control_key c) as (He1 & Hro1 & Hk1)
    by (unfold c1; by destruct (remote_session_id c)).
  assert (∀ (r : result Error Received) c', control_wf c' → (∀ e, r ≠ Err e) → room c' <= room c + 1 →
    control_key c' = control_key c → (∀ k, r = Ok (SoftReset k) → 0 <= k < 8) →
    ∃ r0 c0, Ret (r, c') = Ret (r0, c0) ∧ received_ok c packet r0 c0) as Hdone.
  { intros r c' Hc' Hne Hrm Hck Hsr. exists r, c'. split; [done|]. split_and!; [done|intros e ->; by destruct (Hne e)| |done..].
    intros Hk Hop. rewrite Eop, (Hkey Hk) in Hop. done. }
  assert (room c1 = room c) as Hroom1 by (unfold room; by rewrite He1, Hro1).
  destruct id as [i|]; [|by apply Hdone; [..|lia| |]].
  destruct (Hr l (Some i) cursor eq_refl i eq_refl) as [Hi Hcur].
  assert (∀ k, Ok (E := Error) (SoftReset (Z.land (nz packet 0) 7)) = Ok (SoftReset k) → 0 <= k < 8) as Hsoft.
  { intros k [= <-]. change 7 with (Z.ones 3). rewrite Z.land_ones by done. by apply Z.mod_pos_bound. }
  set (c2 := with_acks c1 _).
  assert (control_wf c2) as Hwf2.
  { destruct Hwf1 as [? ? ? ? Ha]. split; try done. cbn. apply Forall_app. split; [done|by apply Forall_singleton]. }
  assert (room c2 = room c) as Hroom2 by done. assert (control_key c2 = control_key c) as Hk2 by done.
  assert (expected c2 < u32_max) as He2 by (unfold room in *; lia).
  clearbody c2. destruct (op =? P_CONTROL_HARD_RESET_SERVER_V2); [|destruct (op =? P_CONTROL_SOFT_RESET_V1)].
  1-2: destruct (step_past_total c2 i Hwf2 He2) as (c3 & -> & Hc3 & Hr3 & Hk3); cbn [mbind run_bind];
    destruct (flush_total c3 stamp Hc3) as (c4 & -> & Hc4 & Hx & Hy & _ & Hk4);
    apply Hdone; [done|done|unfold room in *; rewrite Hx, Hy; lia|congruence|done].
  rewrite slice_in by lia. cbn [mbind run_bind].
  destruct (payload_runs c2 i (sub body cursor (zlen body)) stamp) as (ro & e & out & c3 & Hrun & Hc3 & Hr3 & Hk3); [done|lia|].
  cbv zeta in Hrun |- *. rewrite Hrun.
  apply Hdone; [done|done|unfold room in *; cbn; lia|cbn; congruence|by destruct out].
Qed.

(** No packet can break the control channel, whoever made it: as long as the
    numbering has not run out, reading any bytes under any wrapping returns, an
    error leaves the channel exactly as it was, and otherwise it is still well
    formed; a packet of another key generation changes nothing unless it is the
    soft reset that announces it. *)
Theorem control_packets_are_read_safely c packet stamp (Hwf : control_wf c)
    (Hroom : room c < u32_max) :
  ∃ r c', receive c packet stamp = Ret (r, c') ∧ control_wf c' ∧
    (∀ e, r = Err e → c' = c) ∧
    (Z.land (nz packet 0) 7 ≠ control_key c → opcode_of packet ≠ Some P_CONTROL_SOFT_RESET_V1 → c' = c).
Proof. destruct (receive_runs c packet stamp Hwf Hroom) as (r & c' & H1 & H2 & H3 & H4 & _). by exists r, c'. Qed.

End property.

Section witness.
#[local] Existing Instances ToyCrypto.primitives ToyCrypto.laws.

Definition toy_control : ControlChannel := mk_control WrapNone (replicate 8 x01) None 0 0 1 [] [] 0 ∅ [].

Lemma control_packets_are_read_safely_witness :
  ∃ r c', receive toy_control (x40 :: replicate 12 x00) 0 = Ret (r, c') ∧ control_wf c' ∧
    (∀ e, r = Err e → c' = toy_control) ∧
    (Z.land (nz (x40 :: replicate 12 x00) 0) 7 ≠ control_key toy_control →
     opcode_of (x40 :: replicate 12 x00) ≠ Some P_CONTROL_SOFT_RESET_V1 → c' = toy_control).
Proof.
  apply control_packets_are_read_safely; [|done].
  split; cbn; [done|done|lia|unfold u32_max; lia|constructor].
Defined.

End witness.
