(* ===== verification/OvpnReliability.v ===== *)
(** * Reliability of OpenVPN's control channel

    Two channels of [OvpnControl] on a network that may lose, repeat and reorder
    what they put on it. An [event] is a call to one of them or the arrival of any
    packet its peer ever sent; [link] is the invariant between a sender and a
    receiver, and the theorems follow from it. One key generation is covered:
    [rekey] starts another from empty. *)
From S2P Require Import Prelude OvpnX509 OvpnConfig OvpnCrypto OvpnControl.

(** An end, the packets it numbered in order, the bytes it was given to send, the
    bytes it has delivered, and every packet it has put on the network. *)
Record endpoint : Type := mk_end {
  channel : ControlChannel;
  log : list (Z * list byte);
  sent : list byte;
  got : list byte;
  wire : list (list byte)
}.

Inductive event : Type :=
| Opens (op stamp now : Z)
| Sends (bytes : list byte) (clock : nat → Z * Z)
| Resends (now : Z)
| Emits
| Arrives (n : nat) (stamp : Z).

Section run.
Context `{!Primitives}.

(** One event at [x], whose peer has put [incoming] on the network. A session is
    opened once, with a reset, before anything is sent on it. *)
Definition act (e : event) (x : endpoint) (incoming : list (list byte)) : run (result Error endpoint) :=
  match e with
  | Opens op stamp now =>
      if bool_decide (log x ≠ []) then Ret (Ok x) else
      c ← send (channel x) op [] stamp now;
      Ret (Ok (mk_end c (log x ++ [(op, [])]) (sent x) (got x) (wire x)))
  | Sends bytes clock =>
      if bool_decide (log x = []) then Ret (Ok x) else
      c ← send_tls (channel x) bytes clock;
      Ret (Ok (mk_end c (log x ++ ((P_CONTROL_V1,.) <$> chunks MAX_CONTROL_PAYLOAD bytes))
                 (sent x ++ bytes) (got x) (wire x)))
  | Resends now => Ret (Ok (mk_end (resend_stale (channel x) now) (log x) (sent x) (got x) (wire x)))
  | Emits =>
      let '(packet, c) := take_outgoing (channel x) in
      Ret (Ok (mk_end c (log x) (sent x) (got x) (wire x ++ option_list packet)))
  | Arrives n stamp =>
      match incoming !! n with
      | None => Ret (Ok x)
      | Some packet =>
          '(r, c) ← receive (channel x) packet stamp;
          match r with
          | Err e => Ret (Err e)
          | Ok (Payload bytes) => Ret (Ok (mk_end c (log x) (sent x) (got x ++ bytes) (wire x)))
          | Ok _ => Ret (Ok (mk_end c (log x) (sent x) (got x) (wire x)))
          end
      end
  end.

(** [true] acts at the first end. *)
Fixpoint play (events : list (bool * event)) (x y : endpoint) : run (result Error (endpoint * endpoint)) :=
  match events with
  | [] => Ret (Ok (x, y))
  | (true, e) :: rest =>
      r ← act e x (wire y);
      match r with Ok x => play rest x y | Err e => Ret (Err e) end
  | (false, e) :: rest =>
      r ← act e y (wire x);
      match r with Ok y => play rest x y | Err e => Ret (Err e) end
  end.

End run.

Definition fresh_end (c : ControlChannel) : endpoint := mk_end c [] [] [] [].

(** The packets an event numbers. *)
Definition messages (e : event) : Z :=
  match e with
  | Opens _ _ _ => 1
  | Sends bytes _ => zlen (chunks MAX_CONTROL_PAYLOAD bytes)
  | _ => 0
  end.
Definition messages_of (side : bool) (events : list (bool * event)) : Z :=
  foldr (λ e n, (if Bool.eqb e.1 side then messages e.2 else 0) + n) 0 events.

(** Openers are the two hard resets. *)
Definition event_wf (e : bool * event) : Prop :=
  match e.2 with
  | Opens op _ _ => op = P_CONTROL_HARD_RESET_CLIENT_V2 ∨ op = P_CONTROL_HARD_RESET_SERVER_V2
  | _ => True
  end.

(** ** The invariant *)

(** [c] has taken in, or is holding, the packet numbered [a]. *)
Definition seen (c : ControlChannel) (a : Z) : Prop :=
  0 <= a ∧ (a < expected c ∨ is_Some (reordered c !! a)).

Definition log_wf (l : list (Z * list byte)) : Prop :=
  ∀ k op d, get l k = Some (op, d) →
    (k = 0 ∧ (op = P_CONTROL_HARD_RESET_CLIENT_V2 ∨ op = P_CONTROL_HARD_RESET_SERVER_V2) ∧ d = []) ∨
    (0 < k ∧ op = P_CONTROL_V1).

(** A packet that [s] made, as [r] reads it. *)
Definition genuine `{!Primitives} (s r : endpoint) (p : list byte) (id : option Z) : Prop :=
  ∃ m, reads (wrapping (channel r)) 0 p m ∧ Forall (seen (channel s)) (acks m) ∧ number m = id ∧
    match id with
    | None => opcode m = P_ACK_V1
    | Some i => get (log s) i = Some (opcode m, payload m)
    end.

(** What holds between a sender and the receiver of its packets. *)
Record link `{!Primitives} (s r : endpoint) : Prop := {
  lk_mirror : mirrors (wrapping (channel s)) (wrapping (channel r));
  lk_wf : control_wf (channel s) ∧ control_key (channel s) = 0;
  lk_id : next_id (channel s) = zlen (log s) ∧ zlen (log s) <= u32_max;
  lk_log : log_wf (log s);
  lk_sent : mjoin (snd <$> log s) = sent s;
  lk_wire : ∀ p, p ∈ wire s ++ outgoing (channel s) → ∃ id, genuine s r p id;
  lk_unacked : ∀ q, q ∈ unacknowledged (channel s) → genuine s r (pending_packet q) (Some (packet_id q));
  lk_pending : pending_acks (channel s) = [];
  lk_left : ∀ i, 0 <= i < zlen (log s) →
    (∃ q, q ∈ unacknowledged (channel s) ∧ packet_id q = i) ∨ seen (channel r) i;
  lk_expected : 0 <= expected (channel r) <= zlen (log s);
  lk_buffer : ∀ k d, reordered (channel r) !! k = Some d → ∃ op, get (log s) k = Some (op, d);
  lk_got : got r = mjoin (snd <$> take (Z.to_nat (expected (channel r))) (log s));
  lk_drained : (∀ op d, get (log s) 0 = Some (op, d) → op = P_CONTROL_HARD_RESET_CLIENT_V2) →
    reordered (channel r) !! expected (channel r) = None
}.

(** A receiver that took nothing in. *)
Lemma link_receiver `{!Primitives} s r r' :
  wrapping (channel r') = wrapping (channel r) → expected (channel r') = expected (channel r) →
  reordered (channel r') = reordered (channel r) → got r' = got r → link s r → link s r'.
Proof.
  intros E1 E2 E3 E4 [? ? ? ? ? H6 H7 ? H9 ? ? ? H13].
  assert (∀ p id, genuine s r p id → genuine s r' p id) as Hg by (unfold genuine; by rewrite E1).
  assert (∀ a, seen (channel r) a → seen (channel r') a) as Hs by (unfold seen; by rewrite E2, E3).
  split; rewrite ?E1, ?E2, ?E3, ?E4; try done.
  - intros p Hp. destruct (H6 p Hp) as [id ?]. exists id. by apply Hg.
  - intros q Hq. by apply Hg, H7.
  - intros i Hi. destruct (H9 i Hi); auto.
Qed.

Lemma genuine_mono `{!Primitives} s s' r p id :
  genuine s r p id → (∀ a, seen (channel s) a → seen (channel s') a) → log s `prefix_of` log s' →
  genuine s' r p id.
Proof.
  intros (m & Hr & Ha & Hn & Hl) Hs [k Hk]. exists m. split_and!; [done|by eapply Forall_impl|done|].
  destruct id as [i|]; [|done]. rewrite Hk. pose proof (get_Some _ _ _ Hl). rewrite get_app_l; [done|lia].
Qed.

(** ** Sending *)

Section sending.
Context `{!Primitives, !PrimitiveLaws}.

Lemma take_no_acks c ack : pending_acks c = [] → take_acks c ack = ([], []).
Proof. intros E. unfold take_acks. rewrite E. by destruct (_ && _). Qed.

(** The channel once [p] was numbered and queued. *)
Definition numbered (c : ControlChannel) (p : list byte) (now replay_id : Z) : ControlChannel :=
  mk_control (wrapping c) (session_id c) (remote_session_id c) (control_key c) (next_id c + 1) replay_id
    (unacknowledged c ++ [mk_pending (next_id c) p now]) [] (expected c) (reordered c) (outgoing c ++ [p]).

Lemma send_spec c w' op payload stamp now :
  control_wf c → mirrors (wrapping c) w' → 0 <= op < 32 → op ≠ P_ACK_V1 → pending_acks c = [] →
  next_id c < u32_max →
  ∃ p r, send c op payload stamp now = Ret (numbered c p now r) ∧
    reads w' (control_key c) p (mk_message op (session_id c) [] (Some (next_id c)) payload).
Proof.
  intros Hwf Hm Ho Hna Hp Hn. pose proof (wrap_reads c w' op payload stamp Hwf Hm Ho) as Hw.
  rewrite take_no_acks in Hw by done. rewrite (proj2 (Z.eqb_neq _ _) Hna) in Hw.
  destruct Hw as (p & r & Hwrap & Hreads). exists p, r. split; [|done].
  unfold send. rewrite Hwrap. cbn [mbind run_bind]. unfold push_outgoing, built, numbered.
  rewrite (proj2 (Z.eqb_neq _ _) Hna). unfold wrap32. pose proof (cc_next c Hwf).
  rewrite Z.mod_small by (unfold u32_max in *; lia). done.
Qed.

Lemma numbered_wf c p now r : control_wf c → next_id c < u32_max → control_wf (numbered c p now r).
Proof. intros [? ? ? ? ?] Hn. split; cbn; [done..|lia|constructor]. Qed.

Lemma get_snoc {A} (l : list A) x k y :
  get (l ++ [x]) k = Some y → get l k = Some y ∨ (k = zlen l ∧ y = x).
Proof.
  intros Hg. destruct (Z.lt_ge_cases k (zlen l)) as [Hk|Hk].
  - left. by rewrite get_app_l in Hg.
  - right. pose proof (get_Some _ _ _ Hg) as Hb. rewrite zlen_app in Hb. change (zlen [x]) with 1 in Hb.
    assert (k = zlen l) as -> by lia. rewrite get_app_r, Z.sub_diag in Hg by lia. by injection Hg as <-.
Qed.

Lemma get_at_end {A} (l : list A) x : get (l ++ [x]) (zlen l) = Some x.
Proof. by rewrite get_app_r, Z.sub_diag by lia. Qed.

(** An end that numbered one more packet. *)
Definition sent_one (s : endpoint) (op : Z) (data : list byte) (c : ControlChannel) : endpoint :=
  mk_end c (log s ++ [(op, data)]) (sent s ++ data) (got s) (wire s).

Lemma link_sends s r op data p now replay_id :
  link s r → zlen (log s) < u32_max → log_wf (log s ++ [(op, data)]) →
  reads (wrapping (channel r)) 0 p
    (mk_message op (session_id (channel s)) [] (Some (next_id (channel s))) data) →
  link (sent_one s op data (numbered (channel s) p now replay_id)) r.
Proof.
  intros [H1 [H2 H2'] [H3 H3'] H4 H5 H6 H7 H8 H9 H10 H11 H12 H13] Hroom Hlog Hreads.
  set (s' := sent_one _ _ _ _).
  assert (∀ q id, genuine s r q id → genuine s' r q id) as Hmono.
  { intros q id Hq. eapply genuine_mono; [exact Hq|done|by eexists]. }
  assert (genuine s' r p (Some (next_id (channel s)))) as Hnew.
  { eexists. split_and!; [exact Hreads|constructor|done|]. cbn. rewrite H3. apply get_at_end. }
  split; cbn; try done.
  - split; [|done]. apply numbered_wf; [done|lia].
  - rewrite zlen_app. change (zlen [(op, data)]) with 1. lia.
  - by rewrite fmap_app, join_app, H5; cbn; rewrite app_nil_r.
  - intros q. rewrite app_assoc. intros [Hq|Hq]%elem_of_app.
    + destruct (H6 q Hq) as [id Hg]. exists id. by apply Hmono.
    + apply list_elem_of_singleton in Hq as ->. eauto.
  - intros q [Hq|Hq]%elem_of_app; [by apply Hmono, H7|]. by apply list_elem_of_singleton in Hq as ->.
  - intros i. rewrite zlen_app. change (zlen [(op, data)]) with 1. intros Hi.
    destruct (decide (i = zlen (log s))) as [->|].
    + left. eexists. split; [apply elem_of_app; right; apply list_elem_of_here|by cbn].
    + destruct (H9 i) as [(q & Hq & E)|Hs]; [lia| |by right].
      left. exists q. split; [apply elem_of_app; by left|done].
  - rewrite zlen_app. change (zlen [(op, data)]) with 1. lia.
  - intros k d Hk. destruct (H11 k d Hk) as [o Ho]. exists o.
    pose proof (get_Some _ _ _ Ho). by rewrite get_app_l by lia.
  - rewrite take_app_le; [done|]. unfold zlen in H10. lia.
  - intros Hh. destruct (decide (zlen (log s) = 0)) as [Hz|Hz].
    + destruct (reordered (channel r) !! expected (channel r)) as [d|] eqn:E; [|done].
      destruct (H11 _ _ E) as [o Ho]. pose proof (get_Some _ _ _ Ho). lia.
    + apply H13. intros o d Ho. apply (Hh o d).
      change (get (log s ++ [(op, data)]) 0 = Some (o, d)). rewrite get_app_l; [done|]. pose proof (zlen_nonneg (log s)). lia.
Qed.

End sending.

(** ** Receiving *)

Lemma elem_of_acknowledged (l : list Pending) (q : Pending) (acks : list Z) :
  q ∈ foldl (λ l ack, filter (λ p, packet_id p ≠ ack) l) l acks ↔ q ∈ l ∧ packet_id q ∉ acks.
Proof.
  revert l. induction acks as [|a acks IH]; intros l; cbn [foldl]; [set_solver|].
  rewrite IH, list_elem_of_filter, not_elem_of_cons. tauto.
Qed.

(** The bytes a call hands to TLS. *)
Definition bytes_of (r : Received) : list byte := match r with Payload b => b | _ => [] end.

Definition learn (c : ControlChannel) (sid : list byte) : ControlChannel :=
  match remote_session_id c with None => with_remote c (Some sid) | Some _ => c end.

(** An end with another channel, and more bytes delivered. *)
Definition with_channel (x : endpoint) (c : ControlChannel) (bytes : list byte) : endpoint :=
  mk_end c (log x) (sent x) (got x ++ bytes) (wire x).

(** The channel after a numbered packet was taken in and acknowledged. *)
Definition taken (c : ControlChannel) (e : Z) (ro : gmap Z (list byte)) (replay_id : Z) (ack : list byte)
    : ControlChannel :=
  mk_control (wrapping c) (session_id c) (remote_session_id c) (control_key c) (next_id c) replay_id
    (unacknowledged c) [] e ro (outgoing c ++ [ack]).

Section receiving.
Context `{!Primitives, !PrimitiveLaws}.

Lemma links_acknowledge x y sid l :
  link x y → link y x → zlen sid = 8 → Forall (seen (channel y)) l →
  let x' := with_channel x (acknowledge (learn (channel x) sid) l) [] in link x' y ∧ link y x'.
Proof.
  intros Hxy Hyx Hsid Hl x'. assert (link y x') as Hyx'.
  { apply (link_receiver y x); [..|done]; unfold x', learn; cbn;
      (destruct (remote_session_id (channel x)); done || by rewrite app_nil_r). }
  split; [|done]. destruct Hxy as [H1 [H2 H2'] H3 H4 H5 H6 H7 H8 H9 H10 H11 H12 H13].
  assert (∀ p id, genuine x y p id → genuine x' y p id) as Hmono.
  { intros p id Hp. eapply genuine_mono; [exact Hp| |done]. unfold x', learn; cbn.
    by destruct (remote_session_id (channel x)). }
  split; try done; unfold x', learn; cbn.
  - by destruct (remote_session_id (channel x)).
  - destruct H2 as [W1 W2 W3 W4 W5]. destruct (remote_session_id (channel x)) as [s|] eqn:E; cbn.
    + split; [split; cbn; done || by rewrite E|done].
    + split; [split; cbn; try done; by intros ? [= <-]|done].
  - by destruct (remote_session_id (channel x)).
  - intros p Hp. assert (p ∈ wire x ++ outgoing (channel x)) as Hp'
      by (revert Hp; by destruct (remote_session_id (channel x))).
    destruct (H6 p Hp') as [id Hg]. exists id. by apply Hmono.
  - intros q [Hq _]%elem_of_acknowledged. apply Hmono, H7.
    revert Hq. by destruct (remote_session_id (channel x)).
  - by destruct (remote_session_id (channel x)).
  - intros i Hi. destruct (H9 i Hi) as [(q & Hq & E)|Hs]; [|by right].
    destruct (decide (i ∈ l)) as [Hin|Hout].
    + right. by apply (proj1 (Forall_forall _ _) Hl).
    + left. exists q. split; [|done]. apply elem_of_acknowledged. rewrite E. split; [|done].
      by destruct (remote_session_id (channel x)).
Qed.

Lemma links_take x y e ro replay_id ack bytes :
  link x y → link y x →
  let c := taken (channel x) e ro replay_id ack in
  (∀ a, seen (channel x) a → seen c a) → 0 <= e <= zlen (log y) →
  (∀ k d, ro !! k = Some d → ∃ op, get (log y) k = Some (op, d)) →
  got x ++ bytes = mjoin (snd <$> take (Z.to_nat e) (log y)) →
  ((∀ op d, get (log y) 0 = Some (op, d) → op = P_CONTROL_HARD_RESET_CLIENT_V2) → ro !! e = None) →
  (∃ m, reads (wrapping (channel y)) 0 ack m ∧ Forall (seen c) (acks m) ∧ number m = None ∧ opcode m = P_ACK_V1) →
  link (with_channel x c bytes) y ∧ link y (with_channel x c bytes).
Proof.
  intros [H1 [H2 H2'] H3 H4 H5 H6 H7 H8 H9 H10 H11 H12 H13] [G1 G2 G3 G4 G5 G6 G7 G8 G9 G10 G11 G12 G13]
    c Hseen He Hro Hgot Hdrain (m & Hm & Hacks & Hnum & Hop).
  set (x' := with_channel x c bytes).
  assert (∀ p id, genuine x y p id → genuine x' y p id) as Hmono.
  { intros p id Hp. eapply genuine_mono; [exact Hp|done|done]. }
  split; split; try done.
  - cbn. split; [|done]. destruct H2 as [W1 W2 W3 W4 W5]. by split; cbn.
  - cbn. intros p. rewrite app_assoc. intros [Hp|Hp]%elem_of_app.
    + destruct (H6 p Hp) as [id Hg]. exists id. by apply Hmono.
    + apply list_elem_of_singleton in Hp as ->. exists None, m. done.
  - cbn. intros q Hq. by apply Hmono, H7.
  - cbn. intros i Hi. destruct (G9 i Hi) as [Hq|Hs]; [by left|right; by apply Hseen].
Qed.

(** What [drain] takes out, over a buffer that agrees with the sender's log. *)
Lemma drain_spec lg fuel ro e out :
  (size ro <= fuel)%nat → zlen lg <= u32_max → 0 <= e <= zlen lg →
  (∀ k d, ro !! k = Some d → ∃ op : Z, get lg k = Some (op, d)) →
  ∃ ro' e' bytes, drain fuel ro e out = Ret (ro', e', out ++ bytes) ∧ e <= e' <= zlen lg ∧ ro' ⊆ ro ∧
    (∀ k, is_Some (ro !! k) → k < e' ∨ is_Some (ro' !! k)) ∧ ro' !! e' = None ∧
    mjoin (snd <$> take (Z.to_nat e') lg) = mjoin (snd <$> take (Z.to_nat e) lg) ++ bytes.
Proof.
  revert ro e out. induction fuel as [|fuel IH]; intros ro e out Hf Hlg He Hro.
  - assert (ro = ∅) as -> by (apply map_size_empty_inv; lia). cbn. rewrite lookup_empty.
    exists ∅, e, []. rewrite app_nil_r. split_and!; [done|lia|lia|done|naive_solver|by rewrite lookup_empty|by rewrite app_nil_r].
  - cbn [drain]. destruct (ro !! e) as [d|] eqn:E.
    + destruct (Hro e d E) as [op Hop]. pose proof (get_Some _ _ _ Hop).
      rewrite (proj2 (Z.eqb_neq _ _)) by lia.
      destruct (IH (delete e ro) (e + 1) (out ++ d)) as (ro' & e' & bytes & Hrun & He' & Hsub & Hk & Hn & Hj).
      * rewrite map_size_delete_Some by (by rewrite E). lia.
      * done.
      * lia.
      * intros k d' [_ Hk]%lookup_delete_Some. by apply Hro.
      * exists ro', e', (d ++ bytes). rewrite app_assoc. split_and!; [done|lia|lia| | |done|].
        -- etrans; [exact Hsub|apply delete_subseteq].
        -- intros k Hs. destruct (decide (k = e)) as [->|]; [left; lia|]. apply Hk. by rewrite lookup_delete_ne.
        -- rewrite Hj, app_assoc. f_equal. rewrite get_lookup in Hop by lia.
           replace (Z.to_nat (e + 1)) with (S (Z.to_nat e)) by lia.
           rewrite (take_S_r _ _ _ Hop), fmap_app, join_app. cbn. by rewrite app_nil_r.
    + exists ro, e, []. rewrite app_nil_r. split_and!; [done|lia|lia|done|by right|done|by rewrite app_nil_r].
Qed.

Lemma flush_one c w' i stamp :
  control_wf c → mirrors (wrapping c) w' → pending_acks c = [i] → is_Some (remote_session_id c) →
  ∃ p r, flush_acks c stamp = Ret (taken c (expected c) (reordered c) r p) ∧
    reads w' (control_key c) p (mk_message P_ACK_V1 (session_id c) [i] None []).
Proof.
  intros Hwf Hm Hp [sid Hr]. pose proof (wrap_reads c w' P_ACK_V1 [] stamp Hwf Hm ltac:(done)) as Hw.
  assert (take_acks c true = ([i], [])) as Et by (unfold take_acks; by rewrite Hp, Hr). rewrite Et in Hw.
  destruct Hw as (p & r & Hwrap & Hreads). exists p, r. split; [|done].
  unfold flush_acks. rewrite Hp, Hr. cbn [bool_decide]. rewrite !bool_decide_false by done. cbn [orb].
  rewrite Hwrap. done.
Qed.

End receiving.

Section receive.
Context `{!Primitives, !PrimitiveLaws}.

(** The rest of [receive] once a packet numbered [id] was read. *)
Definition take_in (c : ControlChannel) (op id key : Z) (chunk : list byte) (stamp : Z)
    : run (result Error Received * ControlChannel) :=
  let c := with_acks c (pending_acks c ++ [id]) in
  if op =? P_CONTROL_HARD_RESET_SERVER_V2 then
    c ← step_past c id; c ← flush_acks c stamp; Ret (Ok ServerReset, c)
  else if op =? P_CONTROL_SOFT_RESET_V1 then
    c ← step_past c id; c ← flush_acks c stamp; Ret (Ok (SoftReset key), c)
  else
    let c := with_reordered c (expected c) (<[id := chunk]> (reordered c)) in
    c ← flush_acks c stamp;
    '(reordered, next, payload) ← drain (size (reordered c)) (reordered c) (expected c) [];
    let c := with_reordered c next reordered in
    Ret (Ok (match payload with [] => Nothing | _ => Payload payload end), c).

Lemma receive_unfold c p m stamp :
  reads (wrapping c) (control_key c) p m →
  receive c p stamp =
  let c' := acknowledge (learn c (from m)) (acks m) in
  match number m with
  | None => Ret (Ok Nothing, c')
  | Some id => take_in c' (opcode m) id (control_key c) (payload m) stamp
  end.
Proof.
  intros (Hop & Hl & Hk & Hsid & body & cursor & Hopen & Hread & Hpay).
  unfold receive. rewrite Hop. rewrite (proj2 (Z.ltb_ge _ _)), Hk, Z.eqb_refl by done. cbn [negb andb].
  rewrite Hsid. cbn [mbind run_bind]. rewrite Hopen. cbn [mbind run_bind]. rewrite Hread. cbn [mbind run_bind].
  fold (learn c (from m)). cbv zeta. destruct (number m) as [id|]; [|done]. rewrite Hpay by done. done.
Qed.

(** Taking in a packet of the peer's log, in the state before its ack is built. *)
Lemma take_in_spec c op id data stamp lg w' :
  control_wf c → control_key c = 0 → is_Some (remote_session_id c) → mirrors (wrapping c) w' →
  pending_acks c = [] → log_wf lg → zlen lg <= u32_max → get lg id = Some (op, data) →
  0 <= expected c <= zlen lg →
  (∀ k d, reordered c !! k = Some d → ∃ op, get lg k = Some (op, d)) →
  ((∀ op d, get lg 0 = Some (op, d) → op = P_CONTROL_HARD_RESET_CLIENT_V2) →
     reordered c !! expected c = None) →
  ∃ r e ro replay_id ack, take_in c op id 0 data stamp = Ret (Ok r, taken c e ro replay_id ack) ∧
    reads w' 0 ack (mk_message P_ACK_V1 (session_id c) [id] None []) ∧
    (∀ a, seen c a → seen (taken c e ro replay_id ack) a) ∧ seen (taken c e ro replay_id ack) id ∧
    expected c <= e <= zlen lg ∧ (∀ k d, ro !! k = Some d → ∃ op, get lg k = Some (op, d)) ∧
    mjoin (snd <$> take (Z.to_nat e) lg)
      = mjoin (snd <$> take (Z.to_nat (expected c)) lg) ++ bytes_of r ∧
    ((∀ op d, get lg 0 = Some (op, d) → op = P_CONTROL_HARD_RESET_CLIENT_V2) → ro !! e = None).
Proof.
  intros Hwf Hkey Hrem Hm Hpend Hlog Hmax Hid Hexp Hbuf Hdrain.
  pose proof (get_Some _ _ _ Hid) as Hrange. unfold take_in. rewrite Hpend. cbn [app].
  assert (Forall (λ a, 0 <= a <= u32_max) [id]) as Hack by (apply Forall_singleton; lia).
  assert (∀ e ro, control_wf (with_reordered (with_acks c [id]) e ro)) as Hwf'.
  { intros e ro. destruct Hwf. by split. }
  assert (control_wf (with_acks c [id])) as Hwf'' by (destruct Hwf; by split).
  destruct (Z.eqb_spec op P_CONTROL_HARD_RESET_SERVER_V2) as [->|Hn8].
  - destruct (Hlog _ _ _ Hid) as [(-> & _ & ->)|[_ ?]]; [|done].
    unfold step_past. cbn [expected with_acks]. destruct (Z.eqb_spec 0 (expected c)) as [E|E].
    + rewrite <-E, (proj2 (Z.eqb_neq 0 u32_max)) by done. cbn [mbind run_bind].
      destruct (flush_one (with_reordered (with_acks c [0]) (0 + 1) (reordered (with_acks c [0]))) w' 0 stamp)
        as (p & r & Hf & Hr); [by apply Hwf'|done..|]. cbn in Hr. rewrite Hf. cbn [mbind run_bind].
      exists ServerReset, 1, (reordered c), r, p. rewrite Hkey in Hr. split_and!; [done|done| | |lia|lia|done| |].
      * intros a [Ha [Hs|Hs]]; (split; [done|]); cbn; [left; lia|by right].
      * split; cbn; [done|left; lia].
      * change (Z.to_nat 1) with 1%nat. change (Z.to_nat 0) with 0%nat. rewrite get_lookup in Hid by done.
        destruct lg as [|[o d] lg]; [done|]. injection Hid as -> ->. done.
      * intros Hh. specialize (Hh _ _ Hid). done.
    + cbn [mbind run_bind]. destruct (flush_one (with_acks c [0]) w' 0 stamp) as (p & r & Hf & Hr); [done..|].
      cbn in Hr. rewrite Hf. cbn [mbind run_bind]. rewrite Hkey in Hr.
      exists ServerReset, (expected c), (reordered c), r, p.
      split_and!; [done|done|done| |lia|lia|done|by rewrite app_nil_r|done].
      split; cbn; [done|left; lia].
  - assert (op ≠ P_CONTROL_SOFT_RESET_V1) as Hn3.
    { destruct (Hlog _ _ _ Hid) as [(_ & [->| ->] & _)|[_ ->]]; done. }
    rewrite (proj2 (Z.eqb_neq _ _) Hn3).
    set (ro1 := <[id := data]> (reordered c)).
    change (with_reordered (with_acks c [id]) (expected (with_acks c [id])) (<[id := data]> (reordered (with_acks c [id]))))
      with (with_reordered (with_acks c [id]) (expected c) ro1).
    destruct (flush_one (with_reordered (with_acks c [id]) (expected c) ro1) w' id stamp)
      as (p & r & Hf & Hr); [by apply Hwf'|done..|]. cbn in Hr. rewrite Hf. cbn [mbind run_bind].
    rewrite Hkey in Hr. cbn [taken with_reordered with_acks reordered expected].
    destruct (drain_spec lg (size ro1) ro1 (expected c) []) as (ro & e & bytes & Hd & He & Hsub & Hkeep & Hnone & Hjoin);
      [done..| |].
    { intros k d [[<- <-]|[_ Hk]]%lookup_insert_Some; [by exists op|by apply Hbuf]. }
    rewrite Hd. cbn [mbind run_bind app].
    exists (match bytes with [] => Nothing | _ => Payload bytes end), e, ro, r, p.
    assert (∀ a, 0 <= a → a < expected c ∨ is_Some (ro1 !! a) → seen (taken c e ro r p) a) as Hs.
    { intros a Ha [H1|H1]; (split; [done|]); cbn; [left; lia|]. by apply Hkeep. }
    split_and!; [done|done| | |lia|lia| | |done].
    + intros a [Ha [H1|H1]]; apply Hs; try done; [by left|right].
      unfold ro1. destruct (decide (a = id)) as [->|]; [by rewrite lookup_insert_eq|by rewrite lookup_insert_ne].
    + apply Hs; [lia|]. right. unfold ro1. by rewrite lookup_insert_eq.
    + intros k d Hk. eapply lookup_weaken in Hk; [|exact Hsub].
      apply lookup_insert_Some in Hk as [[<- <-]|[_ Hk]]; [by exists op|by apply Hbuf].
    + rewrite Hjoin. f_equal. by destruct bytes.
Qed.

End receive.

(** ** Every event keeps both links *)

Section events.
Context `{!Primitives, !PrimitiveLaws}.
Implicit Types x y : endpoint.

Definition linked x y : Prop := link x y ∧ link y x.

Lemma send_links x y op data stamp now :
  linked x y → zlen (log x) < u32_max → log_wf (log x ++ [(op, data)]) → 0 <= op < 32 → op ≠ P_ACK_V1 →
  ∃ c, send (channel x) op data stamp now = Ret c ∧ linked (sent_one x op data c) y.
Proof.
  intros [Hxy Hyx] Hroom Hlog Ho Hna. destruct (lk_wf _ _ Hxy) as [Hwf Hkey]. destruct (lk_id _ _ Hxy) as [Hid _].
  destruct (send_spec (channel x) (wrapping (channel y)) op data stamp now Hwf (lk_mirror _ _ Hxy) Ho Hna
    (lk_pending _ _ Hxy)) as (p & r & Hs & Hr); [lia|]. rewrite Hkey in Hr.
  exists (numbered (channel x) p now r). split; [done|]. split; [by apply link_sends|].
  by apply (link_receiver y x).
Qed.

Lemma log_wf_next l data : log_wf l → l ≠ [] → log_wf (l ++ [(P_CONTROL_V1, data)]).
Proof.
  intros Hl Hne k op d [Hk|[-> [= -> ->]]]%get_snoc; [by apply Hl|]. right. split; [|done].
  destruct l; [done|]. rewrite zlen_cons. pose proof (zlen_nonneg l). lia.
Qed.

Lemma send_chunks_links pieces clock x y :
  linked x y → log x ≠ [] → zlen (log x) + zlen pieces <= u32_max →
  ∃ c, send_chunks (channel x) pieces clock = Ret c ∧
    linked (mk_end c (log x ++ ((P_CONTROL_V1,.) <$> pieces)) (sent x ++ mjoin pieces) (got x) (wire x)) y.
Proof.
  revert clock x. induction pieces as [|d pieces IH]; intros clock x Hl Hne Hroom.
  { exists (channel x). cbn. rewrite !app_nil_r. split; [done|]. by destruct x. }
  rewrite zlen_cons in Hroom. pose proof (zlen_nonneg pieces). cbn [send_chunks].
  destruct (send_links x y P_CONTROL_V1 d (clock 0%nat).1 (clock 0%nat).2 Hl) as (c & Hs & Hl');
    [lia|apply log_wf_next; [by destruct Hl as [[]]|done]|done|done|].
  rewrite Hs. cbn [mbind run_bind].
  destruct (IH (λ n, clock (S n)) (sent_one x P_CONTROL_V1 d c) Hl') as (c' & Hc & Hl'').
  { intros [_ ?]%app_nil. done. }
  { cbn. rewrite zlen_app. change (zlen [(P_CONTROL_V1, d)]) with 1. lia. }
  exists c'. split; [exact Hc|]. cbn in Hl''. rewrite <-!app_assoc in Hl''. exact Hl''.
Qed.

Lemma resend_links x y now :
  linked x y → linked (mk_end (resend_stale (channel x) now) (log x) (sent x) (got x) (wire x)) y.
Proof.
  intros [Hxy Hyx]. set (x' := mk_end _ _ _ _ _). split; [|by apply (link_receiver y x)].
  destruct Hxy as [H1 [H2 H2'] H3 H4 H5 H6 H7 H8 H9 H10 H11 H12 H13].
  assert (∀ p id, genuine x y p id → genuine x' y p id) as Hmono.
  { intros p id Hp. by eapply genuine_mono. }
  split; try done; cbn.
  - split; [|done]. by destruct H2.
  - intros p. rewrite app_assoc. intros [Hp|Hp]%elem_of_app.
    + destruct (H6 p Hp) as [id Hg]. exists id. by apply Hmono.
    + apply list_elem_of_fmap in Hp as (q & -> & [_ Hq]%list_elem_of_filter). exists (Some (packet_id q)). by apply Hmono, H7.
  - intros q (q0 & -> & Hq)%list_elem_of_fmap. destruct (stale now q0); exact (Hmono _ _ (H7 q0 Hq)).
  - intros i Hi. destruct (H9 i Hi) as [(q & Hq & E)|Hs]; [left|by right].
    eexists. split; [apply list_elem_of_fmap; by exists q|]. cbn. by destruct (stale now q).
Qed.

Lemma emit_links x y :
  linked x y →
  let '(packet, c) := take_outgoing (channel x) in
  linked (mk_end c (log x) (sent x) (got x) (wire x ++ option_list packet)) y.
Proof.
  intros [Hxy Hyx]. unfold take_outgoing. destruct (outgoing (channel x)) as [|p rest] eqn:E.
  { cbn. rewrite app_nil_r. by destruct x. }
  cbn. set (x' := mk_end _ _ _ _ _). split; [|by apply (link_receiver y x)].
  destruct Hxy as [H1 [H2 H2'] H3 H4 H5 H6 H7 H8 H9 H10 H11 H12 H13].
  assert (∀ p id, genuine x y p id → genuine x' y p id) as Hmono.
  { intros q id Hp. by eapply genuine_mono. }
  split; try done; cbn.
  - split; [|done]. by destruct H2.
  - intros q Hq. rewrite <-app_assoc in Hq. rewrite E in H6. destruct (H6 q Hq) as [id Hg].
    exists id. by apply Hmono.
Qed.

(** What the arrival of a genuine packet does. *)
Lemma receive_links x y p id stamp :
  linked x y → genuine y x p id →
  ∃ r c, receive (channel x) p stamp = Ret (Ok r, c) ∧ linked (with_channel x c (bytes_of r)) y ∧
    (∃ m, reads (wrapping (channel x)) 0 p m ∧ unacknowledged c = unacknowledged (acknowledge (channel x) (acks m))) ∧
    (∀ i, id = Some i → seen c i ∧ ∃ ack, outgoing c = outgoing (channel x) ++ [ack] ∧
       reads (wrapping (channel y)) 0 ack (mk_message P_ACK_V1 (session_id (channel x)) [i] None [])).
Proof.
  intros [Hxy Hyx] (m & Hreads & Hacks & Hnum & Hm). destruct (lk_wf _ _ Hxy) as [Hwf Hkey].
  pose proof Hreads as Hreads'. rewrite <-Hkey in Hreads'.
  rewrite (receive_unfold _ _ _ _ Hreads'). cbv zeta. rewrite Hnum, Hkey.
  assert (zlen (from m) = 8) as Hfrom.
  { destruct Hreads as (_ & _ & _ & Hs & _). unfold slice, get_range in Hs.
    destruct (_ && _ && _) eqn:E in Hs; [|done]. b2p. cbn in Hs. injection Hs as <-. rewrite zlen_sub; lia. }
  destruct (links_acknowledge x y (from m) (acks m) Hxy Hyx Hfrom Hacks) as [Hxy1 Hyx1].
  set (c1 := acknowledge (learn (channel x) (from m)) (acks m)) in *.
  set (x1 := with_channel x c1 []) in *.
  assert (unacknowledged c1 = unacknowledged (acknowledge (channel x) (acks m))) as Hun.
  { unfold c1, learn. by destruct (remote_session_id (channel x)). }
  assert (outgoing c1 = outgoing (channel x)) as Hout by (unfold c1, learn; by destruct (remote_session_id (channel x))).
  destruct id as [i|].
  2: { exists Nothing, c1. split_and!; [done|by split|by exists m|done]. }
  destruct (lk_wf _ _ Hxy1) as [Hwf1 Hkey1]. destruct (lk_id _ _ Hyx) as [_ Hmax].
  destruct (take_in_spec c1 (opcode m) i (payload m) stamp (log y) (wrapping (channel y)))
    as (r & e & ro & rid & ack & Htake & Hack & Hmono & Hseen & He & Hro & Hjoin & Hdr).
  - done.
  - done.
  - unfold c1, learn. destruct (remote_session_id (channel x)) eqn:E; cbn; [by rewrite E|done].
  - exact (lk_mirror _ _ Hxy1).
  - exact (lk_pending _ _ Hxy1).
  - exact (lk_log _ _ Hyx).
  - done.
  - done.
  - exact (lk_expected _ _ Hyx1).
  - exact (lk_buffer _ _ Hyx1).
  - exact (lk_drained _ _ Hyx1).
  - exists r, (taken c1 e ro rid ack). split; [done|].
    destruct (links_take x1 y e ro rid ack (bytes_of r) Hxy1 Hyx1) as [Hxy2 Hyx2]; try done.
    + pose proof (lk_expected _ _ Hyx1). cbn in *. lia.
    + rewrite (lk_got _ _ Hyx1). cbn in *. by rewrite Hjoin.
    + eexists. split; [exact Hack|]. split_and!; [by apply Forall_singleton|done..].
    + split_and!; [|by exists m|].
      * unfold x1, with_channel in Hxy2, Hyx2. cbn in Hxy2, Hyx2. rewrite app_nil_r in Hxy2, Hyx2. by split.
      * intros j [= <-]. split; [done|]. exists ack.
        split; [exact (f_equal (λ l, l ++ [ack]) Hout)|].
        assert (session_id c1 = session_id (channel x)) as <- by (unfold c1, learn; by destruct (remote_session_id (channel x))).
        done.
Qed.

Lemma act_links e x y b :
  linked x y → event_wf (b, e) → zlen (log x) + messages e <= u32_max →
  ∃ x', act e x (wire y) = Ret (Ok x') ∧ linked x' y ∧ zlen (log x') <= zlen (log x) + messages e.
Proof.
  intros Hl Hwf Hroom. destruct e as [op stamp now|bytes clock|now| |n stamp]; cbn [act messages] in *.
  - case_bool_decide as Hne; [exists x; split_and!; [done..|lia]|].
    destruct (send_links x y op [] stamp now Hl) as (c & Hs & Hl');
      [lia| |by destruct Hwf as [-> | ->]|by destruct Hwf as [-> | ->]|].
    { rewrite Hne. intros k o d [Hk|[-> [= -> ->]]]%get_snoc; [by rewrite get_nil in Hk|]. by left. }
    rewrite Hs. cbn [mbind run_bind]. unfold sent_one in Hl'. rewrite app_nil_r in Hl'.
    eexists. split_and!; [done|done|]. cbn. rewrite zlen_app. change (zlen [(op, [] : list byte)]) with 1. lia.
  - pose proof (zlen_nonneg (chunks MAX_CONTROL_PAYLOAD bytes)).
    case_bool_decide as Hne; [exists x; split_and!; [done..|lia]|].
    destruct (send_chunks_links (chunks MAX_CONTROL_PAYLOAD bytes) clock x y Hl Hne Hroom) as (c & Hs & Hl').
    unfold send_tls. rewrite Hs. cbn [mbind run_bind]. rewrite mjoin_chunks in Hl' by done.
    eexists. split_and!; [done|done|]. cbn. rewrite zlen_app, zlen_fmap. lia.
  - eexists. split_and!; [done|by apply resend_links|cbn; lia].
  - pose proof (emit_links x y Hl) as He. destruct (take_outgoing (channel x)) as [packet c].
    eexists. split_and!; [done|done|cbn; lia].
  - destruct (wire y !! n) as [p|] eqn:Ep; [|exists x; split_and!; [done..|lia]].
    destruct (lk_wire _ _ (proj2 Hl) p) as [id Hg].
    { apply elem_of_app. left. by eapply list_elem_of_lookup_2. }
    destruct (receive_links x y p id stamp Hl Hg) as (r & c & Hr & Hl' & _).
    rewrite Hr. cbn [mbind run_bind]. exists (with_channel x c (bytes_of r)).
    split_and!; [|done|cbn; lia]. unfold with_channel. destruct r; cbn; by rewrite ?app_nil_r.
Qed.

Lemma messages_nonneg e : 0 <= messages e.
Proof. destruct e; cbn; [lia|apply zlen_nonneg|lia..]. Qed.

Lemma messages_of_nonneg b events : 0 <= messages_of b events.
Proof.
  unfold messages_of. induction events as [|[b' e] events IH]; cbn; [done|]. pose proof (messages_nonneg e).
  destruct (Bool.eqb _ _); lia.
Qed.

Lemma play_links events x y :
  linked x y → Forall event_wf events →
  zlen (log x) + messages_of true events <= u32_max → zlen (log y) + messages_of false events <= u32_max →
  ∃ x' y', play events x y = Ret (Ok (x', y')) ∧ linked x' y'.
Proof.
  revert x y. induction events as [|[b e] events IH]; intros x y Hl Hwf Hx Hy; [by exists x, y|].
  apply Forall_cons in Hwf as [He Hwf]. unfold messages_of in Hx, Hy. cbn in Hx, Hy.
  fold (messages_of true events) in Hx. fold (messages_of false events) in Hy.
  pose proof (messages_of_nonneg true events). pose proof (messages_of_nonneg false events).
  destruct b; cbn [play Bool.eqb] in *.
  - destruct (act_links e x y true Hl He) as (x' & Ha & Hl' & Hg); [lia|]. rewrite Ha. cbn [mbind run_bind].
    apply IH; [done|done|lia|lia].
  - destruct (act_links e y x false (conj (proj2 Hl) (proj1 Hl)) He) as (y' & Ha & Hl' & Hg); [lia|].
    rewrite Ha. cbn [mbind run_bind]. apply IH; [by split; destruct Hl'|done|lia|lia].
Qed.

(** Fresh channels with each other's keys. *)
Definition matched c d : Prop :=
  mirrors (wrapping c) (wrapping d) ∧ mirrors (wrapping d) (wrapping c) ∧
  ∃ w w' s s', zlen s = 8 ∧ zlen s' = 8 ∧
    c = mk_control w s None 0 0 1 [] [] 0 ∅ [] ∧ d = mk_control w' s' None 0 0 1 [] [] 0 ∅ [].

Lemma fresh_link c d : matched c d → linked (fresh_end c) (fresh_end d).
Proof.
  intros (Hm & Hm' & w & w' & s & s' & Hs & Hs' & -> & ->).
  assert (zlen (@nil (Z * list byte)) = 0) as Hz by done.
  split; split; cbn; rewrite ?Hz; try done; try (by intros ? ?%elem_of_nil);
    try (intros ? ? ?; by rewrite get_nil); try lia.
  all: split; [split; cbn; try done; unfold u32_max; lia|done].
Qed.

End events.

(** ** A schedule that completes a transfer *)

Section progress.
Context `{!Primitives, !PrimitiveLaws}.
Implicit Types x y : endpoint.

(** Retransmission, emission and arrival: nothing new is sent. *)
Definition is_delivery (e : bool * event) : Prop :=
  match e.2 with Resends _ | Emits | Arrives _ _ => True | _ => False end.

Lemma play_app events more x y :
  play (events ++ more) x y =
  r ← play events x y; match r with Ok (x', y') => play more x' y' | Err e => Ret (Err e) end.
Proof.
  revert x y. induction events as [|[[] e] events IH]; intros x y; cbn [app play]; [done|..].
  - destruct (act e x (wire y)) as [[x'|]|]; cbn; [apply IH|done..].
  - destruct (act e y (wire x)) as [[y'|]|]; cbn; [apply IH|done..].
Qed.

(** Everything queued goes out. *)
Definition emitted x : endpoint :=
  mk_end (with_outgoing (channel x) []) (log x) (sent x) (got x) (wire x ++ outgoing (channel x)).

Lemma emit_all x y :
  linked x y →
  play (replicate (length (outgoing (channel x))) (true, Emits)) x y = Ret (Ok (emitted x, y)) ∧
  play (replicate (length (outgoing (channel x))) (false, Emits)) y x = Ret (Ok (y, emitted x)) ∧
  linked (emitted x) y.
Proof.
  remember (outgoing (channel x)) as o eqn:Eo. revert x Eo. induction o as [|p o IH]; intros x Eo Hl.
  - assert (emitted x = x) as ->; [|done]. unfold emitted. rewrite <-Eo, app_nil_r.
    destruct x as [[] ? ? ? ?]. cbn in Eo. by subst.
  - pose proof (emit_links x y Hl) as He. unfold take_outgoing in He. rewrite <-Eo in He. cbn in He.
    set (x1 := mk_end _ _ _ _ _) in He. destruct (IH x1 eq_refl He) as (H1 & H2 & H3).
    assert (emitted x1 = emitted x) as E.
    { unfold emitted, x1. cbn. rewrite <-Eo. by rewrite <-app_assoc. }
    rewrite E in *. cbn [length replicate play act]. unfold take_outgoing. rewrite <-Eo. done.
Qed.

Lemma reads_same w key p m m' : reads w key p m → reads w key p m' → acks m = acks m'.
Proof.
  intros (H1 & _ & _ & _ & b & c & H2 & H3 & _) (H1' & _ & _ & _ & b' & c' & H2' & H3' & _).
  rewrite H1 in H1'. injection H1' as E. rewrite H2 in H2'. injection H2' as <-. rewrite <-E, H3 in H3'.
  by injection H3' as ->.
Qed.

(** One arrival of [p] at [x]. *)
Lemma arrive_links x y p id stamp :
  linked x y → p ∈ wire y → genuine y x p id →
  ∃ n x', play [(true, Arrives n stamp)] x y = Ret (Ok (x', y)) ∧
    play [(false, Arrives n stamp)] y x = Ret (Ok (y, x')) ∧ linked x' y ∧
    log x' = log x ∧ sent x' = sent x ∧ wire x' = wire x ∧
    (∃ m, reads (wrapping (channel x)) 0 p m ∧
       unacknowledged (channel x') = unacknowledged (acknowledge (channel x) (acks m))) ∧
    (∀ i, id = Some i → ∃ ack, ack ∈ outgoing (channel x') ∧
       reads (wrapping (channel y)) 0 ack (mk_message P_ACK_V1 (session_id (channel x)) [i] None [])).
Proof.
  intros Hl [n Hn]%list_elem_of_lookup Hg.
  destruct (receive_links x y p id stamp Hl Hg) as (r & c & Hr & Hl' & Hm & Hi).
  exists n, (with_channel x c (bytes_of r)). cbn [play act]. rewrite Hn, Hr. cbn [mbind run_bind].
  assert (∀ A (k : endpoint → run (result Error A)),
    (r0 ← match r with Payload b => Ret (Ok (mk_end c (log x) (sent x) (got x ++ b) (wire x)))
                    | _ => Ret (Ok (mk_end c (log x) (sent x) (got x) (wire x))) end;
     match r0 with Ok x' => k x' | Err e => Ret (Err e) end) = k (with_channel x c (bytes_of r))) as Hrun.
  { intros A k. unfold with_channel. by destruct r; cbn; rewrite ?app_nil_r. }
  split_and!; [exact (Hrun _ (λ x', Ret (Ok (x', y))))|exact (Hrun _ (λ x', Ret (Ok (y, x'))))|done..| |].
  - exact Hm.
  - intros i E. destruct (Hi i E) as [_ (ack & Ho & Hack)]. exists ack. split; [|done].
    cbn. rewrite Ho. apply elem_of_app. right. apply list_elem_of_here.
Qed.

(** Delivering one unacknowledged packet, and the acknowledgement that answers it. *)
Lemma settle_one x y q (stamp : Z) :
  linked x y → q ∈ unacknowledged (channel x) → pending_packet q ∈ wire x →
  ∃ events x' y', Forall is_delivery events ∧ play events x y = Ret (Ok (x', y')) ∧ linked x' y' ∧
    log x' = log x ∧ sent x' = sent x ∧ wire x' = wire x ∧
    unacknowledged (channel x') = filter (λ p, packet_id p ≠ packet_id q) (unacknowledged (channel x)).
Proof.
  intros [Hxy Hyx] Hq Hp. pose proof (lk_unacked _ _ Hxy q Hq) as Hg.
  destruct (arrive_links y x (pending_packet q) (Some (packet_id q)) stamp) as
    (n & y1 & _ & Hrun1 & Hl1 & _ & _ & _ & _ & Hack); [by split|done|done|].
  destruct (Hack _ eq_refl) as (ack & Hin & Hreads).
  destruct (emit_all y1 x Hl1) as (_ & Hrun2 & Hl2).
  assert (ack ∈ wire (emitted y1)) as Hw by (cbn; apply elem_of_app; by right).
  destruct (lk_wire _ _ (proj1 Hl2) ack) as [id Hg2]; [cbn; by rewrite app_nil_r|].
  destruct (arrive_links x (emitted y1) ack id stamp) as
    (n2 & x' & Hrun3 & _ & Hl3 & E1 & E2 & E3 & (m & Hm & Hun) & _); [by split; apply Hl2|done|done|].
  rewrite <-(reads_same _ _ _ _ _ Hreads Hm) in Hun.
  exists ([(false, Arrives n stamp)] ++ replicate (length (outgoing (channel y1))) (false, Emits)
          ++ [(true, Arrives n2 stamp)]), x', (emitted y1).
  split_and!; [|rewrite !play_app, Hrun1; cbn [mbind run_bind]; by rewrite play_app, Hrun2|done..].
  apply Forall_app. split; [by constructor|]. apply Forall_app. split; [by apply Forall_replicate|by constructor].
Qed.

Lemma settle k x y (stamp : Z) :
  linked x y → (∀ q, q ∈ unacknowledged (channel x) → pending_packet q ∈ wire x) →
  (length (unacknowledged (channel x)) <= k)%nat →
  ∃ events x' y', Forall is_delivery events ∧ play events x y = Ret (Ok (x', y')) ∧ linked x' y' ∧
    log x' = log x ∧ sent x' = sent x ∧ unacknowledged (channel x') = [].
Proof.
  revert x y. induction k as [|k IH]; intros x y Hl Hw Hk.
  { exists [], x, y. split_and!; [constructor|done..|]. apply nil_length_inv. lia. }
  destruct (unacknowledged (channel x)) as [|q l] eqn:E.
  { exists [], x, y. by split_and!; [constructor|..]. }
  destruct (settle_one x y q stamp Hl) as (ev & x1 & y1 & Hev & Hrun & Hl1 & E1 & E2 & E3 & Hun).
  - rewrite E. apply list_elem_of_here.
  - apply Hw. apply list_elem_of_here.
  - rewrite E in Hun. rewrite filter_cons, decide_False in Hun by tauto.
    destruct (IH x1 y1 Hl1) as (ev2 & x2 & y2 & Hev2 & Hrun2 & Hl2 & F1 & F2 & F3).
    + intros q'. rewrite Hun, E3. intros [_ Hq']%list_elem_of_filter. apply Hw. by apply list_elem_of_further.
    + rewrite Hun. pose proof (length_filter (λ p, packet_id p ≠ packet_id q) l). simpl in Hk. lia.
    + exists (ev ++ ev2), x2, y2. split_and!; [by apply Forall_app| |done|congruence..].
      rewrite play_app, Hrun. cbn [mbind run_bind]. done.
Qed.

Definition latest (l : list Pending) : Z := foldr (λ p t, Z.max (sent_at p) t) 0 l.

Lemma latest_bound l q : q ∈ l → sent_at q <= latest l.
Proof.
  unfold latest. induction l as [|p l IH]; [by intros ?%elem_of_nil|]. cbn [foldr].
  intros [->|Hq]%elem_of_cons; [lia|]. specialize (IH Hq). lia.
Qed.

Lemma complete_transfer x y :
  linked x y →
  ∃ events x' y', Forall is_delivery events ∧ play events x y = Ret (Ok (x', y')) ∧ linked x' y' ∧
    log x' = log x ∧ sent x' = sent x ∧ unacknowledged (channel x') = [].
Proof.
  intros Hl. set (now := latest (unacknowledged (channel x)) + RETRANSMIT_AFTER).
  pose proof (resend_links x y now Hl) as Hl1. set (x1 := mk_end _ _ _ _ _) in Hl1.
  destruct (emit_all x1 y Hl1) as (Hrun & _ & Hl2).
  destruct (settle (length (unacknowledged (channel x))) (emitted x1) y 0 Hl2) as
    (ev & x' & y' & Hev & Hrun2 & Hl3 & E1 & E2 & E3).
  - cbn. intros q (q0 & -> & Hq)%list_elem_of_fmap. pose proof (latest_bound _ _ Hq).
    assert (stale now q0 = true) as Hs.
    { apply Z.leb_le. unfold since, now, RETRANSMIT_AFTER, ms in *. lia. }
    rewrite Hs. cbn. rewrite !elem_of_app. do 2 right. apply list_elem_of_fmap. exists q0.
    split; [done|]. by apply list_elem_of_filter.
  - cbn. by rewrite length_fmap.
  - exists ((true, Resends now) :: replicate (length (outgoing (channel x1))) (true, Emits) ++ ev), x', y'.
    split_and!; [|cbn [play act]; cbn [mbind run_bind]; fold x1; rewrite play_app, Hrun; done|done..].
    constructor; [done|]. apply Forall_app. split; [by apply Forall_replicate|done].
Qed.

End progress.

(** ** Properties *)

Section properties.
Context `{!Primitives, !PrimitiveLaws}.
Implicit Types x y : endpoint.

(** What the receiver has, and all of it when nothing waits for an acknowledgement. *)
Lemma link_delivers s r :
  link s r →
  got r `prefix_of` sent s ∧
  (get (log s) 0 ≠ Some (P_CONTROL_HARD_RESET_SERVER_V2, []) → unacknowledged (channel s) = [] →
   got r = sent s).
Proof.
  intros Hl. pose proof (lk_expected _ _ Hl) as He. split.
  - rewrite (lk_got _ _ Hl), <-(lk_sent _ _ Hl).
    exists (mjoin (snd <$> drop (Z.to_nat (expected (channel r))) (log s))).
    by rewrite <-join_app, <-fmap_app, take_drop.
  - intros Hopen Hun. rewrite (lk_got _ _ Hl), <-(lk_sent _ _ Hl). do 2 f_equal.
    apply take_ge. destruct (Z.lt_ge_cases (expected (channel r)) (zlen (log s))) as [Hlt|Hge].
    + exfalso. destruct (lk_left _ _ Hl (expected (channel r))) as [(q & Hq & _)|[_ [?|Hs]]]; [lia| |lia|].
      * rewrite Hun in Hq. by apply elem_of_nil in Hq.
      * rewrite (lk_drained _ _ Hl) in Hs; [by destruct Hs|]. intros op d Hd.
        destruct (lk_log _ _ Hl _ _ _ Hd) as [(_ & [->| ->] & ->)|[? _]]; [done|done|lia].
    + unfold zlen in Hge. lia.
Qed.

(** C11. The control channel carries a byte stream over a network that may lose,
    repeat and reorder packets: whatever two channels with each other's keys are
    asked to send, and whichever of their packets arrive when, no call fails or
    panics, each end has handed TLS a prefix of the bytes its peer was given, in
    order and without gaps, and once an end that opened with a client's reset has
    nothing unacknowledged its peer has all of them. *)
Theorem control_stream_is_reliable c d events (Hmatch : matched c d)
    (Hwf : Forall event_wf events)
    (Hroom : messages_of true events <= u32_max ∧ messages_of false events <= u32_max) :
  ∃ x y, play events (fresh_end c) (fresh_end d) = Ret (Ok (x, y)) ∧
    got y `prefix_of` sent x ∧ got x `prefix_of` sent y ∧
    (get (log x) 0 ≠ Some (P_CONTROL_HARD_RESET_SERVER_V2, []) → unacknowledged (channel x) = [] → got y = sent x) ∧
    (get (log y) 0 ≠ Some (P_CONTROL_HARD_RESET_SERVER_V2, []) → unacknowledged (channel y) = [] → got x = sent y).
Proof.
  destruct (play_links events _ _ (fresh_link c d Hmatch) Hwf) as (x & y & Hrun & Hl); [unfold fresh_end, zlen; cbn [log length]; lia..|].
  destruct (link_delivers x y (proj1 Hl)), (link_delivers y x (proj2 Hl)). by exists x, y.
Qed.

(** C25. Retransmission completes every transfer: from any state that two channels
    can reach there is a schedule of retransmissions and arrivals alone, with
    nothing new sent, after which the first end has nothing unacknowledged and, if
    it opened with a client's reset, its peer has handed over every byte. *)
Theorem transfer_can_complete c d events (Hmatch : matched c d)
    (Hwf : Forall event_wf events)
    (Hroom : messages_of true events <= u32_max ∧ messages_of false events <= u32_max) :
  ∃ more x0 y0 x y, Forall is_delivery more ∧
    play events (fresh_end c) (fresh_end d) = Ret (Ok (x0, y0)) ∧
    play (events ++ more) (fresh_end c) (fresh_end d) = Ret (Ok (x, y)) ∧
    unacknowledged (channel x) = [] ∧ sent x = sent x0 ∧
    (get (log x0) 0 ≠ Some (P_CONTROL_HARD_RESET_SERVER_V2, []) → got y = sent x0).
Proof.
  destruct (play_links events _ _ (fresh_link c d Hmatch) Hwf) as (x0 & y0 & Hrun & Hl); [unfold fresh_end, zlen; cbn [log length]; lia..|].
  destruct (complete_transfer x0 y0 Hl) as (more & x & y & Hmore & Hrun2 & Hl2 & E1 & E2 & E3).
  exists more, x0, y0, x, y. split_and!; [done|done| |done|done|].
  - rewrite play_app, Hrun. cbn [mbind run_bind]. done.
  - intros Hopen. rewrite <-E2. apply (link_delivers x y (proj1 Hl2)); [by rewrite E1|done].
Qed.

End properties.

(** A client and a server under [tls-crypt], whose keys mirror each other. *)
Module Demo.

Definition client_keys : TlsCryptKeys :=
  mk_crypt (replicate 32 x01) (replicate 32 x02) (replicate 32 x03) (replicate 32 x04).
Definition server_keys : TlsCryptKeys :=
  mk_crypt (replicate 32 x03) (replicate 32 x04) (replicate 32 x01) (replicate 32 x02).

Definition client : ControlChannel :=
  mk_control (WrapCrypt client_keys) (replicate 8 x0a) None 0 0 1 [] [] 0 ∅ [].
Definition server : ControlChannel :=
  mk_control (WrapCrypt server_keys) (replicate 8 x0b) None 0 0 1 [] [] 0 ∅ [].

(** Two messages sent at once, the second arriving first and twice. *)
Definition events : list (bool * event) :=
  [(true, Opens P_CONTROL_HARD_RESET_CLIENT_V2 0 0); (true, Emits); (false, Arrives 0 0);
   (true, Sends (str "first") (λ _, (0, 0))); (true, Sends (str "second") (λ _, (0, 0)));
   (true, Emits); (true, Emits); (false, Arrives 2 0); (false, Arrives 2 0); (false, Arrives 1 0)].

Lemma keys_match : matched client server.
Proof.
  split_and!; [done|done|].
  by exists (WrapCrypt client_keys), (WrapCrypt server_keys), (replicate 8 x0a), (replicate 8 x0b).
Qed.

Lemma events_ok : Forall event_wf events.
Proof. repeat constructor. Qed.

End Demo.

Section witnesses.
#[local] Existing Instances ToyCrypto.primitives ToyCrypto.laws.

Lemma control_stream_is_reliable_witness :
  ∃ x y, play Demo.events (fresh_end Demo.client) (fresh_end Demo.server) = Ret (Ok (x, y)) ∧
    got y = str "firstsecond".
Proof.
  destruct (control_stream_is_reliable Demo.client Demo.server Demo.events Demo.keys_match Demo.events_ok
    ltac:(vm_compute; split; discriminate)) as (x & y & Hrun & _).
  exists x, y. split; [exact Hrun|]. vm_compute in Hrun. by injection Hrun as <- <-.
Defined.

Lemma transfer_can_complete_witness :
  ∃ more x0 y0 x y, Forall is_delivery more ∧
    play Demo.events (fresh_end Demo.client) (fresh_end Demo.server) = Ret (Ok (x0, y0)) ∧
    play (Demo.events ++ more) (fresh_end Demo.client) (fresh_end Demo.server) = Ret (Ok (x, y)) ∧
    unacknowledged (channel x) = [] ∧ sent x = sent x0 ∧
    (get (log x0) 0 ≠ Some (P_CONTROL_HARD_RESET_SERVER_V2, []) → got y = sent x0).
Proof.
  exact (transfer_can_complete Demo.client Demo.server Demo.events Demo.keys_match Demo.events_ok
    ltac:(vm_compute; split; discriminate)).
Defined.

End witnesses.
