(* ===== verification/OvpnLink.v ===== *)
(** * OpenVPN over TCP

    Models [engine/src/openvpn/link.rs]: the queue of length-prefixed packets in
    front of a stream, its shedding, partial writes, and the reader that cuts the
    stream back into packets. What the socket answers to each call is an argument,
    so the theorems hold whatever it does. A UDP link is the socket itself. *)
From S2P Require Import Prelude OvpnX509.

Definition MAX_OUTBOUND_BYTES : Z := 256 * 1024.
Definition MAX_OUTBOUND_AGE : Z := ms 50.

Inductive Urgency : Type := Realtime | Reliable.

#[export] Instance Urgency_eq_dec : EqDecision Urgency.
Proof. solve_decision. Defined.

Record Outbound : Type := mk_outbound { bytes : list byte; queued : Z; urgency : Urgency }.

Record TcpLink : Type := mk_link {
  pending : list byte;
  outbound : list Outbound;
  written : Z;
  queued_bytes : Z;
  dropped : Z * Z
}.

Definition connected : TcpLink := mk_link [] [] 0 0 (0, 0).

Definition take_drops (l : TcpLink) : Z * Z * TcpLink :=
  (dropped l, mk_link (pending l) (outbound l) (written l) (queued_bytes l) (0, 0)).

(** [a - b] on [usize]. *)
Definition usub (a b : Z) : run Z := if a <? b then Panic else Ret (a - b).

(** The loop of [shed] over the packets it may drop. *)
Fixpoint shed_loop (frames : list Outbound) (queued_bytes now : Z) (dropped : Z * Z)
    : run (list Outbound * Z * (Z * Z)) :=
  match frames with
  | [] => Ret ([], queued_bytes, dropped)
  | frame :: rest =>
      let stale := MAX_OUTBOUND_AGE <? since now (queued frame) in
      if bool_decide (urgency frame = Realtime) && (stale || (MAX_OUTBOUND_BYTES <? queued_bytes)) then
        queued_bytes ← usub queued_bytes (zlen (bytes frame));
        shed_loop rest queued_bytes now
          (if stale then (dropped.1 + 1, dropped.2) else (dropped.1, dropped.2 + 1))
      else
        '(kept, queued_bytes, dropped) ← shed_loop rest queued_bytes now dropped;
        Ret (frame :: kept, queued_bytes, dropped)
  end.

(** The packet at the head is spared once part of it is on the wire. *)
Definition shed (l : TcpLink) (now : Z) : run TcpLink :=
  let spared := if 0 <? written l then 1%nat else 0%nat in
  '(kept, q, d) ← shed_loop (drop spared (outbound l)) (queued_bytes l) now (0, 0);
  Ret (mk_link (pending l) (take spared (outbound l) ++ kept) (written l) q
         ((dropped l).1 + d.1, (dropped l).2 + d.2)).

Definition TOO_LARGE : list byte := str "an OpenVPN packet was too large for a TCP link".
Definition STOPPED : list byte := str "the OpenVPN link stopped accepting control traffic".

Definition frame_of (packet : list byte) : list byte := be_bytes 2 (zlen packet) ++ packet.

Definition enqueue (l : TcpLink) (packet : list byte) (urgency : Urgency) (now : Z)
    : run (result Error () * TcpLink) :=
  if u16_max <? zlen packet then Ret (Err TOO_LARGE, l) else
  let frame := frame_of packet in
  let l := mk_link (pending l) (outbound l ++ [mk_outbound frame now urgency]) (written l)
             (queued_bytes l + zlen frame) (dropped l) in
  l ← (if MAX_OUTBOUND_BYTES <? queued_bytes l then shed l now else Ret l);
  if MAX_OUTBOUND_BYTES <? queued_bytes l then Ret (Err STOPPED, l) else Ret (Ok (), l).

(** What the socket answers: it takes as much as it has room for, it would block,
    it was interrupted, or it fails with an error. *)
Inductive answer : Type :=
| Room (n : nat)
| WouldBlock
| Interrupted
| Fails (error : list byte).

(** The loop of [write_queued] over the answers of a socket, which ends by
    blocking; the bytes it took are returned too. *)
Fixpoint write_queued (answers : list answer) (l : TcpLink) (stream : list byte)
    : run (result Error () * TcpLink * list byte) :=
  match outbound l with
  | [] => Ret (Ok (), l, stream)
  | front :: rest =>
      match answers with
      | [] | WouldBlock :: _ => Ret (Ok (), l, stream)
      | Interrupted :: answers => write_queued answers l stream
      | Fails e :: _ => Ret (Err (str "could not send an OpenVPN packet: " ++ e), l, stream)
      | Room n :: answers =>
          remaining ← slice (bytes front) (written l) (zlen (bytes front));
          let taken := take n remaining in
          let count := zlen taken in
          if count =? 0 then Ret (Ok (), l, stream) else
          q ← usub (queued_bytes l) count;
          let complete := written l + count =? zlen (bytes front) in
          write_queued answers
            (mk_link (pending l) (if complete then rest else outbound l)
               (if complete then 0 else written l + count) q (dropped l))
            (stream ++ taken)
      end
  end.

Definition flush_outbound (l : TcpLink) (answers : list answer) (now : Z)
    : run (result Error () * TcpLink * list byte) :=
  match outbound l with
  | [] => Ret (Ok (), l, [])
  | _ =>
      l ← shed l now;
      match outbound l with
      | [] => Ret (Ok (), l, [])
      | _ => write_queued answers l []
      end
  end.

Definition send (l : TcpLink) (packet : list byte) (urgency : Urgency) (answers : list answer)
    (enqueued flushed : Z) : run (result Error () * TcpLink * list byte) :=
  '(r, l) ← enqueue l packet urgency enqueued;
  match r with
  | Err e => Ret (Err e, l, [])
  | Ok _ => flush_outbound l answers flushed
  end.

(** ** Reading *)

Definition ZERO_LENGTH : list byte := str "the OpenVPN server framed a zero-length packet".

Definition take_framed (pending : list byte) : run (result Error (option (list byte)) * list byte) :=
  if zlen pending <? 2 then Ret (Ok None, pending) else
  let length := nz16 pending 0 in
  if length =? 0 then Ret (Err ZERO_LENGTH, pending)
  else if zlen pending <? 2 + length then Ret (Ok None, pending)
  else
    packet ← slice pending 2 (2 + length);
    Ret (Ok (Some packet), drop (Z.to_nat (2 + length)) pending).

(** What a read of the stream gives. *)
Inductive reading : Type :=
| Data (chunk : list byte)
| Closed
| TimedOut
| ReadFails (error : list byte).

Definition with_pending (l : TcpLink) (p : list byte) : TcpLink :=
  mk_link p (outbound l) (written l) (queued_bytes l) (dropped l).

Definition receive (l : TcpLink) (r : reading) : run (result Error (option (list byte)) * TcpLink) :=
  '(framed, p) ← take_framed (pending l);
  match framed with
  | Err e => Ret (Err e, with_pending l p)
  | Ok (Some packet) => Ret (Ok (Some packet), with_pending l p)
  | Ok None =>
      match r with
      | Data [] | Closed => Ret (Err (str "the OpenVPN server closed the connection"), l)
      | Data chunk =>
          '(framed, p) ← take_framed (pending l ++ chunk);
          Ret (framed, with_pending l p)
      | TimedOut => Ret (Ok None, l)
      | ReadFails e => Ret (Err (str "could not read from the OpenVPN link: " ++ e), l)
      end
  end.

(** ** A link in use *)

(** Packets with their urgency. *)
Notation Packet := (list byte * Urgency)%type.

Inductive call : Type :=
| Sends (packet : list byte) (urgency : Urgency) (answers : list answer) (enqueued flushed : Z)
| Flushes (answers : list answer) (now : Z)
| Counts.

(** The link, the packets it was given that fit a frame, and what is on the wire. *)
Record state : Type := mk_state { link : TcpLink; accepted : list Packet; stream : list byte }.

Definition step (s : state) (c : call) : run state :=
  match c with
  | Sends packet urgency answers enqueued flushed =>
      '(_, l, taken) ← send (link s) packet urgency answers enqueued flushed;
      Ret (mk_state l
             (if u16_max <? zlen packet then accepted s else accepted s ++ [(packet, urgency)])
             (stream s ++ taken))
  | Flushes answers now =>
      '(_, l, taken) ← flush_outbound (link s) answers now;
      Ret (mk_state l (accepted s) (stream s ++ taken))
  | Counts => Ret (mk_state (take_drops (link s)).2 (accepted s) (stream s))
  end.

Fixpoint play (calls : list call) (s : state) : run state :=
  match calls with
  | [] => Ret s
  | c :: calls => s ← step s c; play calls s
  end.

Definition total (l : list Outbound) : Z := foldr (λ o n, zlen (bytes o) + n) 0 l.

(** [o] holds the packet [p]. *)
Definition holds (o : Outbound) (p : Packet) : Prop := bytes o = frame_of p.1 ∧ urgency o = p.2.

Definition reliable (p : Packet) : bool := bool_decide (p.2 = Reliable).

(** [kept] is what shedding left of [all]. *)
Definition shed_of (kept all : list Packet) : Prop :=
  kept `sublist_of` all ∧
  filter (λ p, reliable p = true) kept = filter (λ p, reliable p = true) all.

Definition head_bytes (l : list Outbound) : list byte := default [] (bytes <$> head l).

Record tracks (l : TcpLink) (gone queue : list Packet) (taken : list byte) : Prop := {
  tr_queue : Forall2 holds (outbound l) queue;
  tr_stream : taken = mjoin (frame_of ∘ fst <$> gone) ++ take (Z.to_nat (written l)) (head_bytes (outbound l));
  tr_written : 0 <= written l ∧
    (outbound l = [] → written l = 0) ∧ (outbound l ≠ [] → written l < zlen (head_bytes (outbound l)));
  tr_total : queued_bytes l + written l = total (outbound l)
}.

Lemma zlen_frame p : zlen (frame_of p) = 2 + zlen p.
Proof. unfold frame_of. rewrite zlen_app, zlen_be_bytes. lia. Qed.

Lemma total_app l k : total (l ++ k) = total l + total k.
Proof. unfold total. induction l as [|o l IH]; cbn; lia. Qed.

Lemma total_nonneg l : 0 <= total l.
Proof. unfold total. induction l as [|o l IH]; cbn; [done|]. pose proof (zlen_nonneg (bytes o)). lia. Qed.

Lemma shed_of_refl l : shed_of l l.
Proof. by split. Qed.

Lemma shed_of_app a b a' b' : shed_of a a' → shed_of b b' → shed_of (a ++ b) (a' ++ b').
Proof. intros [H1 H2] [H3 H4]. split; [by apply sublist_app|]. rewrite !filter_app. congruence. Qed.

Lemma shed_of_trans a b c : shed_of a b → shed_of b c → shed_of a c.
Proof. intros [H1 H2] [H3 H4]. split; [by etrans|congruence]. Qed.

Lemma shed_loop_spec frames queue base now d :
  Forall2 holds frames queue → 0 <= base →
  ∃ kept queue' d', shed_loop frames (base + total frames) now d = Ret (kept, base + total kept, d') ∧
    Forall2 holds kept queue' ∧ shed_of queue' queue.
Proof.
  intros Hq. revert base d. induction Hq as [|o p frames queue [Hb Hu] Hq IH]; intros base d Hbase.
  { exists [], [], d. split_and!; [done|constructor|apply shed_of_refl]. }
  cbn [shed_loop total foldr]. fold (total frames). pose proof (zlen_nonneg (bytes o)). pose proof (total_nonneg frames).
  destruct (bool_decide (urgency o = Realtime) && _) eqn:E.
  - apply andb_true_iff in E as [Er%bool_decide_eq_true _]. unfold usub.
    destruct (Z.ltb_spec (base + (zlen (bytes o) + total frames)) (zlen (bytes o))); [lia|]. cbn [mbind run_bind].
    replace (base + (zlen (bytes o) + total frames) - zlen (bytes o)) with (base + total frames) by lia.
    edestruct (IH base) as (kept & queue' & d' & Hrun & Hk & [Hs1 Hs2]); [done|]. rewrite Hrun.
    exists kept, queue', d'. split_and!; [done|done|]. split; [by apply sublist_cons|].
    rewrite Hs2, filter_cons, decide_False; [done|]. unfold reliable. rewrite <-Hu, Er. done.
  - replace (base + (zlen (bytes o) + total frames)) with ((base + zlen (bytes o)) + total frames) by lia.
    edestruct (IH (base + zlen (bytes o))) as (kept & queue' & d' & Hrun & Hk & [Hs1 Hs2]); [lia|]. rewrite Hrun.
    cbn [mbind run_bind]. exists (o :: kept), (p :: queue'), d'. split_and!.
    + do 3 f_equal. cbn [total foldr]. fold (total kept). lia.
    + by constructor.
    + split; [by apply sublist_skip|]. rewrite !filter_cons. by rewrite Hs2.
Qed.

Lemma shed_tracks l now gone queue taken :
  tracks l gone queue taken →
  ∃ l' queue', shed l now = Ret l' ∧ tracks l' gone queue' taken ∧ shed_of queue' queue ∧ pending l' = pending l.
Proof.
  intros [Hq Hs (Hw0 & Hw1 & Hw2) Ht]. unfold shed.
  destruct (Z.ltb_spec 0 (written l)) as [Hw|Hw].
  - destruct (outbound l) as [|o rest] eqn:Eo; [specialize (Hw1 eq_refl); lia|].
    apply Forall2_cons_inv_l in Hq as (p & queue' & Ho & Hq & ->). cbn [drop take].
    specialize (Hw2 ltac:(done)). unfold head_bytes in Hw2, Hs. cbn in Hw2, Hs.
    replace (queued_bytes l) with ((zlen (bytes o) - written l) + total rest) by (cbn in Ht; fold (total rest) in Ht; lia).
    destruct (shed_loop_spec rest queue' (zlen (bytes o) - written l) now (0, 0) Hq) as
      (kept & queue'' & d & Hrun & Hk & Hsh); [lia|]. rewrite drop_0, Hrun, take_0. cbn [mbind run_bind].
    eexists _, (p :: queue''). split_and!; [done| |by apply (shed_of_app [p] queue'' [p] queue')|done].
    split; cbn; [by constructor|done|split_and!; [done|done|intros _; exact Hw2]|]. unfold total; lia.
  - assert (written l = 0) as Hz by lia. cbn [drop take]. rewrite drop_0.
    replace (queued_bytes l) with (0 + total (outbound l)) by lia.
    destruct (shed_loop_spec (outbound l) queue 0 now (0, 0) Hq) as (kept & queue' & d & Hrun & Hk & Hsh); [done|].
    rewrite Hrun, take_0. cbn [mbind run_bind app]. eexists _, queue'. split_and!; [done| |done|done].
    rewrite Hz in *. split; cbn [outbound written queued_bytes]; rewrite ?Hz; [done|by rewrite Hs| |lia]. split_and!; [done|done|].
    intros Hne. destruct Hk as [|o p kept' queue'' [Hb _] _]; [done|]. unfold head_bytes. cbn. rewrite Hb, zlen_frame.
    pose proof (zlen_nonneg p.1). lia.
Qed.

(** Each turn of [write_queued] writes on, or ends. *)
Lemma write_tracks answers l gone queue taken out :
  tracks l gone queue (taken ++ out) →
  ∃ r l' out' gone' queue', write_queued answers l out = Ret (r, l', out') ∧
    tracks l' gone' queue' (taken ++ out') ∧ gone' ++ queue' = gone ++ queue ∧ pending l' = pending l.
Proof.
  revert l gone queue out. induction answers as [|a answers IH]; intros l gone queue out Htr;
    pose proof Htr as [Hq Hs (Hw0 & Hw1 & Hw2) Ht]; cbn [write_queued].
  { destruct (outbound l); by eexists _, l, out, gone, queue. }
  destruct (outbound l) as [|o rest] eqn:Eo; [by eexists _, l, out, gone, queue|].
  destruct a as [n| | |e]; [|by eexists _, l, out, gone, queue|by apply IH|by eexists _, l, out, gone, queue].
  specialize (Hw2 ltac:(done)). unfold head_bytes in Hw2, Hs. cbn in Hw2, Hs.
  rewrite slice_in by lia. cbn [mbind run_bind]. unfold sub.
  rewrite (take_ge (drop _ (bytes o))) by (rewrite length_drop; unfold zlen in *; lia).
  set (remaining := drop (Z.to_nat (written l)) (bytes o)). set (count := zlen (take n remaining)).
  destruct (Z.eqb_spec count 0) as [|Hc]; [by eexists _, l, out, gone, queue|].
  assert (0 <= count) by apply zlen_nonneg.
  assert (count <= zlen (bytes o) - written l) as Hle.
  { unfold count, zlen. rewrite length_take. unfold remaining. rewrite length_drop. unfold zlen in *. lia. }
  cbn in Ht. fold (total rest) in Ht. pose proof (total_nonneg rest).
  unfold usub. destruct (Z.ltb_spec (queued_bytes l) count); [lia|]. cbn [mbind run_bind].
  apply Forall2_cons_inv_l in Hq as (p & queue' & [Hb Hu] & Hq & ->).
  destruct (Z.eqb_spec (written l + count) (zlen (bytes o))) as [Hdone|Hmore].
  - destruct (IH (mk_link (pending l) rest 0 (queued_bytes l - count) (dropped l)) (gone ++ [p]) queue'
      (out ++ take n remaining)) as (r & l' & out' & gone' & q' & Hrun & Htr' & Hcat & Hp).
    + split; cbn [outbound written queued_bytes]; [done| |split_and!; [done|done|]|lia].
      * rewrite fmap_app, join_app. change (mjoin (frame_of ∘ fst <$> [p])) with (frame_of p.1 ++ []).
        change (Z.to_nat 0) with 0%nat. rewrite take_0, !app_nil_r, <-Hb, app_assoc, Hs, <-app_assoc. f_equal.
        rewrite <-(take_drop (Z.to_nat (written l)) (bytes o)) at 2. f_equal. apply take_ge.
        unfold count, zlen in *. rewrite length_take in *. unfold remaining in *. rewrite length_drop in *. lia.
      * intros Hne. destruct Hq as [|o' p' rest' queue'' [Hb' _] _]; [done|]. unfold head_bytes. cbn.
        rewrite Hb', zlen_frame. pose proof (zlen_nonneg p'.1). lia.
    + exists r, l', out', gone', q'. rewrite Hcat, <-app_assoc. done.
  - destruct (IH (mk_link (pending l) (o :: rest) (written l + count) (queued_bytes l - count) (dropped l)) gone
      (p :: queue') (out ++ take n remaining)) as (r & l' & out' & gone' & q' & Hrun & Htr' & Hcat & Hp).
    + split; cbn [outbound written queued_bytes];
        [by constructor| |split_and!; [lia|done|intros _; unfold head_bytes; cbn [head fmap option_fmap option_map default from_option id]; lia]|cbn [total foldr]; fold (total rest); lia].
      rewrite app_assoc, Hs, <-app_assoc. f_equal. unfold head_bytes. cbn.
      replace (Z.to_nat (written l + count)) with (Z.to_nat (written l) + Z.to_nat count)%nat by lia.
      rewrite <-take_take_drop. f_equal. fold remaining. unfold count, zlen. rewrite Nat2Z.id, length_take.
      destruct (Nat.min_spec n (length remaining)) as [[_ ->]|[Hge ->]]; [done|]. by rewrite !take_ge by lia.
    + by exists r, l', out', gone', q'.
Qed.

Lemma flush_tracks l answers now gone queue taken :
  tracks l gone queue taken →
  ∃ r l' out gone' queue', flush_outbound l answers now = Ret (r, l', out) ∧
    tracks l' gone' queue' (taken ++ out) ∧ shed_of (gone' ++ queue') (gone ++ queue).
Proof.
  intros Htr. unfold flush_outbound. destruct (outbound l) eqn:Eo.
  { eexists _, l, [], gone, queue. rewrite app_nil_r. split_and!; [done|done|apply shed_of_refl]. }
  destruct (shed_tracks l now gone queue taken Htr) as (l' & queue' & -> & Htr' & Hsh & _). cbn [mbind run_bind].
  destruct (outbound l') eqn:Eo'.
  { eexists _, l', [], gone, queue'. rewrite app_nil_r.
    split_and!; [done|done|apply shed_of_app; [apply shed_of_refl|done]]. }
  destruct (write_tracks answers l' gone queue' taken []) as (r & l2 & out & gone2 & queue2 & Hrun & Htr2 & Hcat & _);
    [by rewrite app_nil_r|]. rewrite Hrun. exists r, l2, out, gone2, queue2. split_and!; [done|done|].
  rewrite Hcat. apply shed_of_app; [apply shed_of_refl|done].
Qed.

Lemma enqueue_tracks l packet urgency now gone queue taken :
  tracks l gone queue taken →
  ∃ r l' queue', enqueue l packet urgency now = Ret (r, l') ∧ tracks l' gone queue' taken ∧
    shed_of queue' (queue ++ (if u16_max <? zlen packet then [] else [(packet, urgency)])).
Proof.
  intros Htr. unfold enqueue. destruct (u16_max <? zlen packet).
  { eexists _, l, queue. rewrite app_nil_r. split_and!; [done|done|apply shed_of_refl]. }
  set (o := mk_outbound (frame_of packet) now urgency). set (l1 := mk_link _ _ _ _ _).
  assert (tracks l1 gone (queue ++ [(packet, urgency)]) taken) as Htr1.
  { destruct Htr as [Hq Hs (Hw0 & Hw1 & Hw2) Ht]. split; unfold l1; cbn [outbound written queued_bytes].
    - apply Forall2_app; [done|]. by repeat constructor.
    - rewrite Hs. destruct (outbound l) eqn:Eo; [|done]. by rewrite Hw1.
    - pose proof (zlen_nonneg packet). split_and!; [done|by intros [_ ?]%app_nil|]. intros _.
      destruct (outbound l) eqn:Eo; [|exact (Hw2 ltac:(done))]. rewrite Hw1 by done.
      change (head_bytes ([] ++ [o])) with (frame_of packet). rewrite zlen_frame. lia.
    - rewrite total_app. change (total [o]) with (zlen (frame_of packet) + 0). lia. }
  destruct (MAX_OUTBOUND_BYTES <? queued_bytes l1).
  - destruct (shed_tracks l1 now gone _ taken Htr1) as (l2 & queue' & -> & Htr2 & Hsh & _). cbn [mbind run_bind].
    destruct (MAX_OUTBOUND_BYTES <? queued_bytes l2); by eexists _, l2, queue'.
  - cbn [mbind run_bind]. destruct (MAX_OUTBOUND_BYTES <? queued_bytes l1);
      eexists _, l1, _; (split_and!; [done|done|apply shed_of_refl]).
Qed.

Definition accounted (s : state) : Prop :=
  ∃ gone queue, tracks (link s) gone queue (stream s) ∧ shed_of (gone ++ queue) (accepted s).

Lemma step_accounted s c : accounted s → ∃ s', step s c = Ret s' ∧ accounted s'.
Proof.
  intros (gone & queue & Htr & Hsh). destruct c as [packet urgency answers enqueued flushed|answers now|]; cbn [step].
  - destruct (enqueue_tracks (link s) packet urgency enqueued gone queue (stream s) Htr) as (r & l & queue' & He & Htr1 & Hsh1).
    unfold send. rewrite He. cbn [mbind run_bind].
    set (accepted' := if u16_max <? zlen packet then accepted s else accepted s ++ [(packet, urgency)]).
    assert (shed_of (gone ++ queue') accepted') as Hacc.
    { eapply shed_of_trans; [apply shed_of_app; [apply shed_of_refl|exact Hsh1]|]. rewrite app_assoc.
      unfold accepted'. destruct (u16_max <? zlen packet); [by rewrite app_nil_r|].
      apply shed_of_app; [done|apply shed_of_refl]. }
    destruct r as [[]|e].
    + destruct (flush_tracks l answers flushed gone queue' (stream s) Htr1) as (r & l2 & out & gone2 & queue2 & -> & Htr2 & Hsh2).
      cbn [mbind run_bind]. eexists. split; [done|]. exists gone2, queue2. split; [done|]. by eapply shed_of_trans.
    + cbn [mbind run_bind]. eexists. split; [done|]. exists gone, queue'. cbn. by rewrite app_nil_r.
  - destruct (flush_tracks (link s) answers now gone queue (stream s) Htr) as (r & l2 & out & gone2 & queue2 & -> & Htr2 & Hsh2).
    cbn [mbind run_bind]. eexists. split; [done|]. exists gone2, queue2. split; [done|]. by eapply shed_of_trans.
  - eexists. split; [done|]. exists gone, queue. split; [|done]. by destruct Htr.
Qed.

Lemma play_accounted calls s : accounted s → ∃ s', play calls s = Ret s' ∧ accounted s'.
Proof.
  revert s. induction calls as [|c calls IH]; intros s Hs; [by exists s|].
  destruct (step_accounted s c Hs) as (s1 & Hrun & Hs1). cbn [play]. rewrite Hrun. cbn [mbind run_bind]. by apply IH.
Qed.

Lemma connected_accounted : accounted (mk_state connected [] []).
Proof. exists [], []. split; [|apply shed_of_refl]. split; cbn; [constructor|done|done|done]. Qed.

(** ** Reading the stream back *)

(** A reader: its link, the bytes read so far, and the packets returned. *)
Record reader : Type := mk_reader { source : TcpLink; consumed : list byte; packets : list (list byte) }.

(** One call of [receive]; a stream is only read when no whole packet waits. *)
Definition read_step (s : reader) (r : reading) : run (result Error (option (list byte)) * reader) :=
  '(framed, _) ← take_framed (pending (source s));
  let fresh := match framed, r with Ok None, Data chunk => chunk | _, _ => [] end in
  '(answer, l) ← receive (source s) r;
  Ret (answer, mk_reader l (consumed s ++ fresh)
                 (packets s ++ match answer with Ok (Some p) => [p] | _ => [] end)).

Fixpoint read_all (rs : list reading) (s : reader) : run (list (result Error (option (list byte))) * reader) :=
  match rs with
  | [] => Ret ([], s)
  | r :: rs =>
      '(a, s) ← read_step s r;
      '(more, s) ← read_all rs s;
      Ret (a :: more, s)
  end.

Definition readable (r : reading) : Prop :=
  match r with Data chunk => chunk ≠ [] | TimedOut => True | _ => False end.

Definition packet_wf (p : list byte) : Prop := 0 < zlen p <= u16_max.

Lemma nz16_frame p k : zlen p <= u16_max → nz16 (frame_of p ++ k) 0 = zlen p.
Proof.
  intros Hp. pose proof (zlen_nonneg p). unfold u16_max in *.
  rewrite nz16_be_Z by (rewrite ?zlen_app, ?zlen_frame; pose proof (zlen_nonneg k); lia).
  unfold frame_of. rewrite <-app_assoc. rewrite (sub_eq _ [] (be_bytes 2 (zlen p)) (p ++ k)) by done.
  rewrite be_Z_be_bytes. apply Z.mod_small. lia.
Qed.

Lemma take_framed_whole p k : packet_wf p → take_framed (frame_of p ++ k) = Ret (Ok (Some p), k).
Proof.
  intros [H0 Hp]. pose proof (zlen_nonneg k). unfold take_framed.
  rewrite (proj2 (Z.ltb_ge _ _)) by (rewrite zlen_app, zlen_frame; lia).
  rewrite nz16_frame by done. rewrite (proj2 (Z.eqb_neq _ _)) by lia.
  rewrite (proj2 (Z.ltb_ge _ _)) by (rewrite zlen_app, zlen_frame; lia).
  rewrite (slice_eq _ (be_bytes 2 (zlen p)) p k) by (unfold frame_of; rewrite <-?app_assoc; done). cbn [mbind run_bind].
  do 2 f_equal. apply drop_app_length'. unfold frame_of. rewrite length_app, length_be_bytes. unfold zlen. lia.
Qed.

(** A buffer that is too short, or starts with a whole packet. *)
Lemma take_framed_spec b :
  (∃ p k, b = frame_of p ++ k ∧ packet_wf p ∧ take_framed b = Ret (Ok (Some p), k)) ∨
  (take_framed b = Ret (Ok None, b) ∧ ∀ p k, packet_wf p → b ≠ frame_of p ++ k) ∨
  (2 <= zlen b ∧ nz16 b 0 = 0 ∧ take_framed b = Ret (Err ZERO_LENGTH, b)).
Proof.
  destruct (Z.lt_ge_cases (zlen b) 2) as [Hs|Hs].
  { right. left. unfold take_framed. rewrite (proj2 (Z.ltb_lt _ _)) by done. split; [done|].
    intros p k [H0 _] ->. rewrite zlen_app, zlen_frame in Hs. pose proof (zlen_nonneg k). lia. }
  pose proof (nz16_range b 0) as Hr. destruct (Z.eq_dec (nz16 b 0) 0) as [Hz|Hz].
  { right. right. unfold take_framed. rewrite (proj2 (Z.ltb_ge _ _)), Hz by done. done. }
  destruct (Z.lt_ge_cases (zlen b) (2 + nz16 b 0)) as [Hl|Hl].
  { right. left. unfold take_framed. rewrite (proj2 (Z.ltb_ge _ _)), (proj2 (Z.eqb_neq _ _)), (proj2 (Z.ltb_lt _ _)) by done.
    split; [done|]. intros p k [H0 Hp] ->. rewrite nz16_frame, zlen_app, zlen_frame in Hl by done.
    pose proof (zlen_nonneg k). lia. }
  left. set (n := nz16 b 0) in *. exists (sub b 2 (2 + n)), (drop (Z.to_nat (2 + n)) b).
  assert (zlen (sub b 2 (2 + n)) = n) as Hn by (rewrite zlen_sub; lia).
  assert (packet_wf (sub b 2 (2 + n))) as Hwf by (split; rewrite Hn; unfold u16_max; lia).
  assert (b = frame_of (sub b 2 (2 + n)) ++ drop (Z.to_nat (2 + n)) b) as Hb.
  { unfold frame_of. rewrite Hn. unfold n at 1. rewrite nz16_be_Z by lia.
    rewrite be_bytes_be_Z' by (rewrite zlen_sub; lia). rewrite <-app_assoc.
    assert (b = sub b 0 2 ++ sub b 2 (2 + n) ++ sub b (2 + n) (zlen b)) as Hsplit.
    { rewrite <-(sub_split b 2 (2 + n) (zlen b)), <-(sub_split b 0 2 (zlen b)), sub_all by lia. done. }
    rewrite Hsplit at 1. do 2 f_equal. unfold sub. apply take_ge. rewrite length_drop. unfold zlen in *. lia. }
  split_and!; [done|done|]. rewrite Hb at 1. by apply take_framed_whole.
Qed.

Definition frames (l : list (list byte)) : list byte := mjoin (frame_of <$> l).

Lemma frames_cons p l : frames (p :: l) = frame_of p ++ frames l.
Proof. done. Qed.

Lemma frames_app l k : frames (l ++ k) = frames l ++ frames k.
Proof. unfold frames. by rewrite fmap_app, join_app. Qed.

Lemma frame_inj p q x y : packet_wf p → packet_wf q → frame_of p ++ x = frame_of q ++ y → p = q ∧ x = y.
Proof.
  intros Hp Hq E. pose proof (take_framed_whole p x Hp) as H1. rewrite E, take_framed_whole in H1 by done.
  by injection H1 as -> ->.
Qed.

(** A stream that begins as the frames of [b] do is cut the way they are. *)
Lemma frames_prefix a b x :
  Forall packet_wf a → Forall packet_wf b → frames a ++ x `prefix_of` frames b →
  ∃ b', b = a ++ b' ∧ x `prefix_of` frames b'.
Proof.
  intros Ha. revert b. induction Ha as [|p a Hp Ha IH]; intros b Hb Hx; [by exists b|].
  rewrite frames_cons, <-app_assoc in Hx. destruct Hx as [k Hk].
  destruct b as [|q b].
  { exfalso. apply (f_equal zlen) in Hk. rewrite !zlen_app, zlen_frame in Hk.
    change (zlen (frames [])) with 0 in Hk. pose proof (zlen_nonneg p). pose proof (zlen_nonneg (frames a)).
    pose proof (zlen_nonneg x). pose proof (zlen_nonneg k). lia. }
  apply Forall_cons in Hb as [Hq Hb]. rewrite frames_cons, <-app_assoc in Hk.
  destruct (frame_inj q p _ _ Hq Hp Hk) as [-> Hrest].
  destruct (IH b Hb) as (b' & -> & Hx); [by exists k; rewrite <-Hrest|]. by exists b'.
Qed.

(** What is read so far is the returned packets and what waits. *)
Definition reader_wf (s : reader) : Prop :=
  consumed s = frames (packets s) ++ pending (source s) ∧ Forall packet_wf (packets s).

Definition is_ok (a : result Error (option (list byte))) : Prop := match a with Ok _ => True | Err _ => False end.

(** No zero length waits where the frames of packets do. *)
Lemma no_zero_length b (rest : list (list byte)) :
  Forall packet_wf rest → b `prefix_of` frames rest → 2 <= zlen b → nz16 b 0 ≠ 0.
Proof.
  intros Hrest [k Hk] Hl Hz. destruct rest as [|q rest].
  { apply (f_equal zlen) in Hk. rewrite zlen_app in Hk. change (zlen (frames [])) with 0 in Hk.
    pose proof (zlen_nonneg k). lia. }
  apply Forall_cons in Hrest as [[Hq0 Hq] _].
  assert (nz16 (frames (q :: rest)) 0 = zlen q) as Hn by (rewrite frames_cons; by apply nz16_frame).
  rewrite Hk in Hn. assert (nz16 (b ++ k) 0 = nz16 b 0) as He.
  { unfold nz16, nz. by rewrite !get_app_l by lia. }
  lia.
Qed.

Lemma read_step_spec s r (sent : list (list byte)) :
  reader_wf s → readable r → Forall packet_wf sent →
  ∃ a s', read_step s r = Ret (a, s') ∧ consumed s `prefix_of` consumed s' ∧
    (consumed s' `prefix_of` frames sent →
       reader_wf s' ∧ is_ok a ∧
       (a = Ok None → ∀ p k, packet_wf p → pending (source s') ≠ frame_of p ++ k)).
Proof.
  intros [Hc Hp] Hr Hsent. unfold read_step, receive.
  assert (∀ b, consumed s `prefix_of` frames sent → frames (packets s) ++ b `prefix_of` frames sent →
    ¬ (2 <= zlen b ∧ nz16 b 0 = 0)) as Hzero.
  { intros b _ Hb [H1 H2]. destruct (frames_prefix (packets s) sent b Hp Hsent Hb) as (rest & -> & Hx).
    apply Forall_app in Hsent as [_ Hrest]. by apply (no_zero_length b rest). }
  destruct (take_framed_spec (pending (source s))) as [(p & k & Hb & Hwf & ->)|[[-> Hnone]|(H1 & H2 & ->)]];
    cbn [mbind run_bind].
  - eexists _, _. split_and!; [done|by exists []; cbn; rewrite app_nil_r|]. intros _.
    split_and!; [|done|done]. split; cbn [consumed packets source with_pending pending]; [|by apply Forall_app; split; [done|apply Forall_singleton]].
    rewrite app_nil_r, Hc, Hb, frames_app, <-app_assoc. f_equal. unfold frames. cbn. by rewrite app_nil_r.
  - destruct r as [chunk| | |]; [|done| |done].
    + destruct chunk as [|c chunk]; [done|]. set (b := pending (source s) ++ c :: chunk).
      destruct (take_framed_spec b) as [(p & k & Hb & Hwf & ->)|[[-> Hnone']|(H1 & H2 & ->)]]; cbn [mbind run_bind].
      * eexists _, _. split_and!; [done|by eexists|]. intros _. split_and!; [|done|done].
        split; cbn [consumed packets source with_pending pending]; [|by apply Forall_app; split; [done|apply Forall_singleton]].
        rewrite Hc, <-app_assoc. fold b. rewrite Hb, frames_app, <-app_assoc. f_equal. unfold frames. cbn. by rewrite app_nil_r.
      * eexists _, _. split_and!; [done|by eexists|]. intros _. split_and!; [|done|done].
        split; cbn [consumed packets source with_pending pending]; rewrite !app_nil_r; [|done].
        by rewrite Hc, <-app_assoc.
      * eexists _, _. split_and!; [done|by eexists|]. cbn [consumed]. intros Hpre. exfalso.
        rewrite Hc, <-app_assoc in Hpre. fold b in Hpre. apply (Hzero b); [|done|done].
        rewrite Hc. etrans; [|exact Hpre]. unfold b. rewrite app_assoc. by eexists.
    + eexists _, _. split_and!; [done|by exists []; cbn; rewrite app_nil_r|]. intros _.
      split_and!; [|done|done]. split; cbn; by rewrite !app_nil_r.
  - eexists _, _. split_and!; [done|by exists []; cbn; rewrite app_nil_r|]. cbn [consumed]. rewrite app_nil_r.
    intros Hpre. exfalso. apply (Hzero (pending (source s))); [done|by rewrite <-Hc|done].
Qed.

(** Nothing more than what was read before waits, once a call found no packet. *)
Definition drained (s : reader) : Prop := ∀ p k, packet_wf p → pending (source s) ≠ frame_of p ++ k.

Lemma read_step_runs s r : ∃ a s', read_step s r = Ret (a, s') ∧ consumed s `prefix_of` consumed s'.
Proof.
  assert (∀ b, ∃ f k, take_framed b = Ret (f, k)) as Htotal.
  { intros b. destruct (take_framed_spec b) as [(p & k & _ & _ & ->)|[[-> _]|(_ & _ & ->)]]; eauto. }
  unfold read_step, receive. destruct (Htotal (pending (source s))) as (f & k & ->). cbn [mbind run_bind].
  destruct f as [[p|]|e]; [by eexists _, _; split; [|eexists]| |by eexists _, _; split; [|eexists]].
  destruct r as [[|c chunk]| | |]; [by eexists _, _; split; [|eexists]| |by eexists _, _; split; [|eexists]..].
  destruct (Htotal (pending (source s) ++ c :: chunk)) as (f & k' & ->). by eexists _, _; split; [|eexists].
Qed.

Lemma read_all_runs rs s : ∃ answers s', read_all rs s = Ret (answers, s') ∧ consumed s `prefix_of` consumed s'.
Proof.
  revert s. induction rs as [|r rs IH]; intros s; [by exists [], s|]. cbn [read_all].
  destruct (read_step_runs s r) as (a & s1 & -> & H1). cbn [mbind run_bind].
  destruct (IH s1) as (more & s2 & -> & H2). eexists _, s2. split; [done|]. by etrans.
Qed.

Lemma read_all_spec rs s answers s' (sent : list (list byte)) :
  read_all rs s = Ret (answers, s') → reader_wf s → Forall readable rs → Forall packet_wf sent →
  consumed s' `prefix_of` frames sent →
  reader_wf s' ∧ Forall is_ok answers ∧ (last answers = Some (Ok None) → drained s').
Proof.
  intros Hrun Hs Hrs Hsent Hpre. revert s answers Hrun Hs.
  induction Hrs as [|r rs Hr Hrs IH]; intros s answers Hrun Hs; cbn [read_all] in Hrun.
  { injection Hrun as <- <-. by split_and!. }
  destruct (read_step_spec s r sent Hs Hr Hsent) as (a & s1 & Hstep & Hmono & Hs1). rewrite Hstep in Hrun.
  cbn [mbind run_bind] in Hrun. destruct (read_all_runs rs s1) as (more & s2 & Hmore & Hmono').
  rewrite Hmore in Hrun. injection Hrun as <- <-.
  destruct Hs1 as (Hwf & Hok & Hnone); [by etrans|].
  destruct (IH s1 more Hmore Hwf) as (Hwf2 & Hoks & Hlast). split_and!; [done|by constructor|].
  destruct more as [|m more].
  - intros [= ->]. destruct rs; [|cbn in Hmore; destruct (read_step s1 _) as [[]|]; cbn in Hmore; [|done];
      destruct (read_all rs _) as [[]|]; by cbn in Hmore].
    injection Hmore as <-. exact (Hnone eq_refl).
  - exact Hlast.
Qed.

(** Every packet on the wire fits a frame. *)
Definition sendable (c : call) : Prop :=
  match c with Sends packet _ _ _ _ => 0 < zlen packet | _ => True end.

Lemma shed_of_Forall (P : Packet → Prop) kept all : shed_of kept all → Forall P all → Forall P kept.
Proof.
  intros [Hsub _] Hall. apply Forall_forall. intros p Hp. rewrite Forall_forall in Hall. apply Hall.
  by eapply elem_of_sublist.
Qed.

Lemma play_accepted calls s s' :
  Forall sendable calls → play calls s = Ret s' → Forall (packet_wf ∘ fst) (accepted s) →
  Forall (packet_wf ∘ fst) (accepted s').
Proof.
  intros Hc. revert s. induction Hc as [|c calls Hc _ IH]; intros s Hrun Hs; cbn [play] in Hrun; [by simplify_eq|].
  destruct (step s c) as [s1|] eqn:E; [|done]. apply (IH s1); [done|].
  destruct c as [packet u a t1 t2|a t|]; cbn [step] in E.
  - destruct (send _ _ _ _ _ _) as [[[? ?] ?]|]; [|done]. injection E as <-. cbn [accepted].
    destruct (Z.ltb_spec u16_max (zlen packet)); [done|]. apply Forall_app. split; [done|].
    apply Forall_singleton. by split.
  - destruct (flush_outbound _ _ _) as [[[? ?] ?]|]; [|done]. by injection E as <-.
  - by injection E as <-.
Qed.

(** The unfinished head of the queue is no whole frame. *)
Lemma head_not_whole (l : TcpLink) gone queue taken p k :
  tracks l gone queue taken → packet_wf p → Forall (packet_wf ∘ fst) queue →
  take (Z.to_nat (written l)) (head_bytes (outbound l)) ≠ frame_of p ++ k.
Proof.
  intros [Hq _ (Hw0 & Hw1 & Hw2) _] Hp Hqueue E. pose proof (zlen_nonneg p). pose proof (zlen_nonneg k).
  destruct Hq as [|o q out queue' [Hb _] _].
  { apply (f_equal zlen) in E. change (head_bytes []) with (@nil byte) in E. rewrite take_nil, zlen_app, zlen_frame in E. change (zlen (@nil byte)) with 0 in E. lia. }
  apply Forall_cons in Hqueue as [Hq' _]. specialize (Hw2 ltac:(done)). change (head_bytes (o :: out)) with (bytes o) in *.
  assert (frame_of p ++ k ++ drop (Z.to_nat (written l)) (bytes o) = frame_of q.1 ++ []) as Eq.
  { rewrite app_nil_r, <-Hb, app_assoc, <-E. by rewrite take_drop. }
  destruct (frame_inj p q.1 _ _ Hp Hq' Eq) as [-> [-> Hd]%app_nil].
  apply (f_equal length) in Hd. rewrite length_drop in Hd. unfold zlen in Hw2. cbn in Hd. lia.
Qed.

Lemma frames_fst (l : list Packet) : mjoin (frame_of ∘ fst <$> l) = frames l.*1.
Proof. unfold frames. by rewrite list_fmap_compose. Qed.

Lemma part_prefix l gone queue taken :
  tracks l gone queue taken → taken `prefix_of` frames (gone ++ queue).*1.
Proof.
  intros [Hq -> _ _]. rewrite frames_fst, fmap_app, frames_app. apply prefix_app. 
  destruct Hq as [|o q out queue' [Hb _] _].
  { cbn. rewrite take_nil. apply prefix_nil. }
  change (head_bytes (o :: out)) with (bytes o). rewrite Hb, fmap_cons, frames_cons. etrans; [apply prefix_take|by eexists].
Qed.

Lemma packets_read (gone queue : list Packet) l taken r :
  tracks l gone queue taken → Forall (packet_wf ∘ fst) (gone ++ queue) → reader_wf r → consumed r `prefix_of` taken →
  packets r `prefix_of` gone.*1 ∧ (consumed r = taken → drained r → packets r = gone.*1).
Proof.
  intros Htr Hwf [Hc Hp] Hpre. pose proof (part_prefix _ _ _ _ Htr) as Htaken.
  assert (Forall packet_wf (gone ++ queue).*1) as Hsent by by apply Forall_fmap.
  destruct (frames_prefix (packets r) (gone ++ queue).*1 (pending (source r)) Hp Hsent) as (rest & Hrest & _);
    [by rewrite <-Hc; etrans|].
  pose proof Htr as [_ Hstream _ _]. rewrite frames_fst in Hstream.
  set (part := take _ _) in Hstream. apply Forall_app in Hwf as [Hwg Hwq].
  assert (packets r `prefix_of` gone.*1) as Hprefix.
  { rewrite fmap_app in Hrest. destruct (app_eq_inv _ _ _ _ Hrest) as [(m & Hm & _)|(m & Hm & _)]; [rewrite Hm; by eexists|].
    destruct m as [|q m]; [rewrite app_nil_r in Hm; by rewrite Hm|]. exfalso.
    rewrite Hc, Hm, Hstream, frames_app, <-app_assoc in Hpre. apply prefix_app_inv in Hpre as [k Hk].
    rewrite frames_cons, <-!app_assoc in Hk. rewrite Hm in Hp. apply Forall_app in Hp as [_ [Hq _]%Forall_cons].
    by eapply (head_not_whole l gone queue taken q). }
  split; [done|]. intros Heq Hdrained. destruct Hprefix as [[|g rest'] Hg]; [by rewrite app_nil_r in Hg|]. exfalso.
  rewrite Hc, Hstream, Hg, frames_app, <-app_assoc in Heq. apply app_inv_head in Heq.
  rewrite frames_cons, <-app_assoc in Heq. eapply Hdrained; [|exact Heq].
  assert (Forall packet_wf gone.*1) as Hg' by by apply Forall_fmap.
  rewrite Hg in Hg'. by apply Forall_app in Hg' as [_ [? _]%Forall_cons].
Qed.

(** C15. Whatever is sent, whenever the link is flushed and whatever the socket
    answers, no call panics, and every packet accepted is on the wire or in the
    queue, in the order it was sent, but for [Realtime] packets that were shed:
    control traffic is never lost. A peer that reads what was written, in whatever
    chunks, meets no error, and gets exactly the packets that left the queue: a
    prefix of them, and all of them once it has read the stream to its end. Partial
    writes and shedding never put the reader out of step. *)
Theorem tcp_link_carries_packets calls readings :
  Forall sendable calls → Forall readable readings →
  ∃ s gone queue answers r,
    play calls (mk_state connected [] []) = Ret s ∧
    Forall2 holds (outbound (link s)) queue ∧ shed_of (gone ++ queue) (accepted s) ∧
    read_all readings (mk_reader connected [] []) = Ret (answers, r) ∧
    (consumed r `prefix_of` stream s →
       Forall is_ok answers ∧ packets r `prefix_of` gone.*1 ∧
       (consumed r = stream s → last answers = Some (Ok None) → packets r = gone.*1)).
Proof.
  intros Hcalls Hreadings.
  destruct (play_accounted calls _ connected_accounted) as (s & Hplay & gone & queue & Htr & Hsh).
  destruct (read_all_runs readings (mk_reader connected [] [])) as (answers & r & Hread & _).
  exists s, gone, queue, answers, r. split_and!; [done|by destruct Htr|done|done|]. intros Hpre.
  assert (Forall (packet_wf ∘ fst) (gone ++ queue)) as Hwf.
  { eapply shed_of_Forall; [exact Hsh|]. by eapply play_accepted. }
  destruct (read_all_spec _ _ _ _ (gone ++ queue).*1 Hread) as (Hr & Hok & Hlast);
    [by split|done|by apply Forall_fmap|by etrans; [|eapply part_prefix]|].
  destruct (packets_read _ _ _ _ r Htr Hwf Hr Hpre) as [H1 H2]. split_and!; [done|done|]. auto.
Qed.

(** Three packets over a socket that blocks: one game packet goes out in two
    writes, the next is shed as stale, and the control packet behind it arrives. *)
Lemma tcp_link_carries_packets_witness :
  let game := z2b <$> [7; 8; 9] in let control := z2b <$> [1; 2] in
  let calls := [Sends game Realtime [Room 3] 0 0; Sends game Realtime [] 0 0;
                Sends control Reliable [] 0 0; Flushes [Interrupted; Room 2; Room 100] (ms 60)] in
  let readings := [Data (z2b <$> [0]); TimedOut; Data (z2b <$> [3; 7; 8; 9; 0; 2]); Data (z2b <$> [1; 2]); TimedOut] in
  ∃ s answers r gone queue,
    play calls (mk_state connected [] []) = Ret s ∧ shed_of (gone ++ queue) (accepted s) ∧
    read_all readings (mk_reader connected [] []) = Ret (answers, r) ∧
    packets r = gone.*1 ∧ packets r = [game; control] ∧ (take_drops (link s)).1 = (1, 0).
Proof.
  intros game control calls readings.
  destruct (tcp_link_carries_packets calls readings) as (s & gone & queue & answers & r & Hplay & _ & Hsh & Hread & Hall).
  { by repeat constructor. }
  { by repeat constructor. }
  exists s, answers, r, gone, queue. split_and!; [exact Hplay|exact Hsh|exact Hread|..];
    vm_compute in Hplay, Hread; injection Hplay as <-; injection Hread as <- <-.
  - destruct Hall as (_ & _ & Hend); [by exists []|]. by apply Hend.
  - done.
  - done.
Defined.
