(* ===== verification/OvpnSession.v ===== *)
(** * An OpenVPN session

    Models [engine/src/openvpn/session.rs] and the attempts of
    [engine/src/openvpn/mod.rs]: the setup from the opening reset to the push of the
    tunnel's settings, the data path over two key generations, and renegotiation.
    TLS is rustls's, and the clock, the random numbers and the socket are the
    host's: the interfaces [Tls] and [Host], whose answers the theorems leave free.
    Feeding a TLS connection whose peer has closed it never ends, and is an outcome of
    its own ([Spins]).
    Durations are nanoseconds; the latency of the handshake is not divided into
    milliseconds. *)
From S2P Require Import Prelude Text OvpnX509 OvpnConfig OvpnCrypto OvpnControl OvpnLink.

Definition HANDSHAKE_TIMEOUT : Z := secs 20.
Definition PUSH_INTERVAL : Z := ms 1500.
Definition SILENCE_LIMIT : Z := secs 6.
Definition DRAIN : Z := ms 1.

Record Credentials : Type := mk_credentials { username : option (list byte); password : option (list byte) }.

Record Pushed : Type := mk_pushed {
  address : list byte;
  gateway : option (list byte);
  cipher : DataCipher;
  pushed_digest : Digest;
  pushed_peer : option Z;
  keepalive_every : option Z
}.

Inductive Stage : Type := Reset | Tls_ | KeyExchange | Push.

#[export] Instance Stage_eq_dec : EqDecision Stage.
Proof. solve_decision. Defined.

(** rustls: [read_tls] says how much of the stream it took and processes it,
    [peer_closed] is whether the peer's close_notify was processed, [plaintext] gives
    what [reader().read_to_end] collects, [backlog] bounds the writes that
    [wants_write] still asks for. *)
Class Tls : Type := {
  tls_configuration : Type;
  connection : Type;
  build_tls_config : OpenVpnConfig → result Error tls_configuration;
  new_connection : tls_configuration → result Error connection;
  read_tls : connection → list byte → result Error nat * connection;
  peer_closed : connection → bool;
  plaintext : connection → list byte * connection;
  is_handshaking : connection → bool;
  write_plain : connection → list byte → result Error () * connection;
  backlog : connection → nat;
  write_tls : connection → result Error (list byte) * connection
}.

(** What the code relies on: reading takes something until the peer has closed its
    side, and nothing from then on; every write of TLS records leaves less to write. *)
Class TlsLaws `{!Tls} : Prop := {
  read_tls_progress c bytes n c' :
    bytes ≠ [] → peer_closed c = false → read_tls c bytes = (Ok n, c') → (0 < n)%nat;
  read_tls_closed c bytes :
    peer_closed c = true → ∃ c', read_tls c bytes = (Ok 0%nat, c') ∧ peer_closed c' = true;
  write_tls_progress c out c' : (0 < backlog c)%nat → write_tls c = (Ok out, c') → (backlog c' < backlog c)%nat
}.

(** The machine: [readings] gives the wall clock and the instant, call after call,
    and the link to one server is part of it. *)
Class Host : Type := {
  host : Type;
  readings : host → (nat → Z * Z) * host;
  random : host → nat → list byte * host;
  resolve : host → Remote.t → result Error (list byte) * host;
  dial : host → Protocol → list byte → Z → result Error () * host;
  link_send : host → list byte → Urgency → result Error () * host;
  link_flush : host → result Error () * host;
  link_receive : host → Z → result Error (option (list byte)) * host;
  peer_addr : host → option (list byte)
}.

Class HostLaws `{!Host} : Prop := {
  random_length h n bytes h' : random h n = (bytes, h') → length bytes = n
}.

Section session.
Context `{!Primitives, !Tls, !Host}.

Record Session : Type := mk_session {
  config : OpenVpnConfig;
  credentials : Credentials;
  session_protocol : Protocol;
  world : host;
  control : ControlChannel;
  tls : option connection;
  tls_config : tls_configuration;
  stage : Stage;
  key_source : KeySource;
  material : option KeyMaterial;
  channels : list DataChannel;
  pushed : option Pushed;
  control_messages : list byte;
  server_material : bool;
  server_cipher : option (list byte);
  server_digest : option (list byte);
  last_push_request : option Z;
  last_inbound : Z;
  last_keepalive : Z;
  handshake_latency : option Z;
  inbound : list (list byte)
}.

(** Assignments to one field. *)
Section updates.
Implicit Types s : Session.

Definition with_world s v := mk_session (config s) (credentials s) (session_protocol s) v (control s) (tls s)
  (tls_config s) (stage s) (key_source s) (material s) (channels s) (pushed s) (control_messages s)
  (server_material s) (server_cipher s) (server_digest s) (last_push_request s) (last_inbound s)
  (last_keepalive s) (handshake_latency s) (inbound s).
Definition with_control s v := mk_session (config s) (credentials s) (session_protocol s) (world s) v (tls s)
  (tls_config s) (stage s) (key_source s) (material s) (channels s) (pushed s) (control_messages s)
  (server_material s) (server_cipher s) (server_digest s) (last_push_request s) (last_inbound s)
  (last_keepalive s) (handshake_latency s) (inbound s).
Definition with_tls s v := mk_session (config s) (credentials s) (session_protocol s) (world s) (control s) v
  (tls_config s) (stage s) (key_source s) (material s) (channels s) (pushed s) (control_messages s)
  (server_material s) (server_cipher s) (server_digest s) (last_push_request s) (last_inbound s)
  (last_keepalive s) (handshake_latency s) (inbound s).
Definition with_stage s v := mk_session (config s) (credentials s) (session_protocol s) (world s) (control s)
  (tls s) (tls_config s) v (key_source s) (material s) (channels s) (pushed s) (control_messages s)
  (server_material s) (server_cipher s) (server_digest s) (last_push_request s) (last_inbound s)
  (last_keepalive s) (handshake_latency s) (inbound s).
Definition with_key_source s v := mk_session (config s) (credentials s) (session_protocol s) (world s)
  (control s) (tls s) (tls_config s) (stage s) v (material s) (channels s) (pushed s) (control_messages s)
  (server_material s) (server_cipher s) (server_digest s) (last_push_request s) (last_inbound s)
  (last_keepalive s) (handshake_latency s) (inbound s).
Definition with_material s v := mk_session (config s) (credentials s) (session_protocol s) (world s) (control
  s) (tls s) (tls_config s) (stage s) (key_source s) v (channels s) (pushed s) (control_messages s)
  (server_material s) (server_cipher s) (server_digest s) (last_push_request s) (last_inbound s)
  (last_keepalive s) (handshake_latency s) (inbound s).
Definition with_channels s v := mk_session (config s) (credentials s) (session_protocol s) (world s) (control
  s) (tls s) (tls_config s) (stage s) (key_source s) (material s) v (pushed s) (control_messages s)
  (server_material s) (server_cipher s) (server_digest s) (last_push_request s) (last_inbound s)
  (last_keepalive s) (handshake_latency s) (inbound s).
Definition with_pushed s v := mk_session (config s) (credentials s) (session_protocol s) (world s) (control s)
  (tls s) (tls_config s) (stage s) (key_source s) (material s) (channels s) v (control_messages s)
  (server_material s) (server_cipher s) (server_digest s) (last_push_request s) (last_inbound s)
  (last_keepalive s) (handshake_latency s) (inbound s).
Definition with_control_messages s v := mk_session (config s) (credentials s) (session_protocol s) (world s)
  (control s) (tls s) (tls_config s) (stage s) (key_source s) (material s) (channels s) (pushed s) v
  (server_material s) (server_cipher s) (server_digest s) (last_push_request s) (last_inbound s)
  (last_keepalive s) (handshake_latency s) (inbound s).
Definition with_server_material s v := mk_session (config s) (credentials s) (session_protocol s) (world s)
  (control s) (tls s) (tls_config s) (stage s) (key_source s) (material s) (channels s) (pushed s)
  (control_messages s) v (server_cipher s) (server_digest s) (last_push_request s) (last_inbound s)
  (last_keepalive s) (handshake_latency s) (inbound s).
Definition with_server_cipher s v := mk_session (config s) (credentials s) (session_protocol s) (world s)
  (control s) (tls s) (tls_config s) (stage s) (key_source s) (material s) (channels s) (pushed s)
  (control_messages s) (server_material s) v (server_digest s) (last_push_request s) (last_inbound s)
  (last_keepalive s) (handshake_latency s) (inbound s).
Definition with_server_digest s v := mk_session (config s) (credentials s) (session_protocol s) (world s)
  (control s) (tls s) (tls_config s) (stage s) (key_source s) (material s) (channels s) (pushed s)
  (control_messages s) (server_material s) (server_cipher s) v (last_push_request s) (last_inbound s)
  (last_keepalive s) (handshake_latency s) (inbound s).
Definition with_last_push_request s v := mk_session (config s) (credentials s) (session_protocol s) (world s)
  (control s) (tls s) (tls_config s) (stage s) (key_source s) (material s) (channels s) (pushed s)
  (control_messages s) (server_material s) (server_cipher s) (server_digest s) v (last_inbound s)
  (last_keepalive s) (handshake_latency s) (inbound s).
Definition with_last_inbound s v := mk_session (config s) (credentials s) (session_protocol s) (world s)
  (control s) (tls s) (tls_config s) (stage s) (key_source s) (material s) (channels s) (pushed s)
  (control_messages s) (server_material s) (server_cipher s) (server_digest s) (last_push_request s) v
  (last_keepalive s) (handshake_latency s) (inbound s).
Definition with_last_keepalive s v := mk_session (config s) (credentials s) (session_protocol s) (world s)
  (control s) (tls s) (tls_config s) (stage s) (key_source s) (material s) (channels s) (pushed s)
  (control_messages s) (server_material s) (server_cipher s) (server_digest s) (last_push_request s)
  (last_inbound s) v (handshake_latency s) (inbound s).
Definition with_handshake_latency s v := mk_session (config s) (credentials s) (session_protocol s) (world s)
  (control s) (tls s) (tls_config s) (stage s) (key_source s) (material s) (channels s) (pushed s)
  (control_messages s) (server_material s) (server_cipher s) (server_digest s) (last_push_request s)
  (last_inbound s) (last_keepalive s) v (inbound s).
Definition with_inbound s v := mk_session (config s) (credentials s) (session_protocol s) (world s) (control
  s) (tls s) (tls_config s) (stage s) (key_source s) (material s) (channels s) (pushed s) (control_messages s)
  (server_material s) (server_cipher s) (server_digest s) (last_push_request s) (last_inbound s)
  (last_keepalive s) (handshake_latency s) v.

End updates.

(** What a call comes to short of a value: its error, or a loop that never ends, over
    bytes that TLS takes none of since the peer has closed its side. *)
Inductive stop : Type :=
| Fails (e : Error)
| Spins (c : connection) (first : byte) (rest : list byte) (closed : Is_true (peer_closed c)).

Definition failing {A} (r : result Error A) : result stop A :=
  match r with Ok a => Ok a | Err e => Err (Fails e) end.

(** A call on a session: it may panic, and an error keeps what it changed. *)
Definition M (A : Type) : Type := Session → run (result stop A * Session).

#[global] Instance M_ret : MRet M := λ A a s, Ret (Ok a, s).
#[global] Instance M_bind : MBind M := λ A B f m s,
  match m s with
  | Ret (Ok a, s) => f a s
  | Ret (Err e, s) => Ret (Err e, s)
  | Panic => Panic
  end.

Definition fails {A} (e : Error) : M A := λ s, Ret (Err (Fails e), s).
Definition get {A} (f : Session → A) : M A := λ s, Ret (Ok (f s), s).
Definition put (f : Session → Session) : M () := λ s, Ret (Ok (), f s).
Definition lift {A} (r : run A) : M A := λ s, a ← r; Ret (Ok a, s).
Definition check {A} (r : result Error A) : M A := λ s, Ret (failing r, s).

(** A call as the function that it is. *)
Definition call {A} (f : Session → run (result stop A * Session)) : M A := f.

(** A call of the host. *)
Definition asks {A} (f : host → A * host) : M A :=
  λ s, let '(a, h) := f (world s) in Ret (Ok a, with_world s h).
Definition asks_result {A} (f : host → result Error A * host) : M A :=
  λ s, let '(r, h) := f (world s) in Ret (failing r, with_world s h).

Definition now : M Z := clock ← asks readings; mret (clock 0%nat).2.

(** A call of the control channel, over the clock. *)
Definition on_control (f : ControlChannel → (nat → Z * Z) → run ControlChannel) : M () :=
  clock ← asks readings;
  call (λ s, c ← f (control s) clock; Ret (Ok (), with_control s c)).

(** ** Strings *)

(** One length-prefixed, NUL-terminated string, or an empty field. *)
Definition write_string (value : option (list byte)) : list byte :=
  match value with
  | Some (b :: rest) => be_bytes 2 (zlen (b :: rest) + 1) ++ (b :: rest) ++ [x00]
  | _ => be_bytes 2 0
  end.

Definition implemented_cipher (name : list byte) : result Error DataCipher :=
  match parse_cipher name with
  | Some c => Ok c
  | None => Err (str "the OpenVPN server uses the `" ++ name ++ str "` cipher, which GamePath does not implement. Ask the provider for a configuration using AES-GCM, CHACHA20-POLY1305 or AES-CBC.")
  end.

(** The argument of one [name value] entry in an options string. *)
Definition options_value (options name : list byte) : option (list byte) :=
  head (omap (λ entry,
          '(key, value) ← split_once x20 entry;
          if bool_decide (key = name) then Some (trim value) else None)
        (split_on x2c (trim_end_matches x00 options))).

Definition describe_refusal (message : list byte) : list byte :=
  let trimmed := trim message in
  match strip_prefix (str "AUTH_FAILED") trimmed with
  | Some detail =>
      let detail := trim (drop_while (λ b, bool_decide (b = x2c ∨ b = x20)) detail) in
      if bool_decide (detail = []) then str "the OpenVPN server rejected the username and password for this node"
      else str "the OpenVPN server rejected this node's login: " ++ detail
  | None =>
      if bool_decide (trimmed = []) then str "the OpenVPN server closed the session without saying why"
      else str "the OpenVPN server refused the session: " ++ trimmed
  end.

(** ** Keys and settings *)

(** The settings of a push reply, as far as they are read. *)
Record Options : Type := mk_options {
  o_address : option (list byte);
  o_gateway : option (list byte);
  o_cipher : option DataCipher;
  o_peer : option Z;
  o_ping : option Z
}.

Definition push_option (o : Options) (option : list byte) : result Error Options :=
  match split_whitespace option with
  | [] => Ok o
  | word :: words =>
      let value := head words in
      if bool_decide (word = str "ifconfig") then
        Ok (mk_options (v ← value; parse_ipv4 v) (o_gateway o) (o_cipher o) (o_peer o) (o_ping o))
      else if bool_decide (word = str "route-gateway") then
        Ok (mk_options (o_address o) (v ← value; parse_ipv4 v) (o_cipher o) (o_peer o) (o_ping o))
      else if bool_decide (word = str "cipher") then
        c ← implemented_cipher (default [] value);
        Ok (mk_options (o_address o) (o_gateway o) (Some c) (o_peer o) (o_ping o))
      else if bool_decide (word = str "peer-id") then
        Ok (mk_options (o_address o) (o_gateway o) (o_cipher o) (v ← value; parse_unsigned u32_max v) (o_ping o))
      else if bool_decide (word = str "ping") then
        Ok (mk_options (o_address o) (o_gateway o) (o_cipher o) (o_peer o)
              (secs <$> (v ← value; parse_unsigned (2 ^ 64 - 1) v)))
      else Ok o
  end.

Fixpoint push_options (o : Options) (options : list (list byte)) : result Error Options :=
  match options with
  | [] => Ok o
  | option :: rest => o ← push_option o option; push_options o rest
  end.

Definition NO_ADDRESS : list byte :=
  str "the OpenVPN server did not push a tunnel address, so there is nothing for inner packets to come from".

(** The cipher pushed, else the one the server's options name, else the file's. *)
Definition read_push (s : Session) (options : list byte) : result Error Pushed :=
  o ← push_options (mk_options None None None None None) (split_on x2c options);
  c ← match o_cipher o, server_cipher s with
      | Some pushed, _ => Ok pushed
      | None, Some name => implemented_cipher name
      | None, None => Ok (fallback_cipher (config s))
      end;
  let d := default (digest (config s)) (name ← server_digest s; parse_digest name) in
  match o_address o with
  | None => Err NO_ADDRESS
  | Some a => Ok (mk_pushed a (o_gateway o) c d (o_peer o) (o_ping o))
  end.

(** A generation goes into use once its material and the settings are known, and
    only the one it replaces is kept. *)
Definition install_keys : M () := λ s,
  match material s, pushed s with
  | Some material, Some pushed =>
      let id := control_key (control s) in
      if existsb (λ live, key_id live =? id) (channels s) then Ret (Ok (), s) else
      channel ← new_channel material (cipher pushed) (pushed_digest pushed) (pushed_peer pushed) id;
      match channel with
      | Err e => Ret (Err (Fails e), s)
      | Ok channel =>
          let live := channels s ++ [channel] in
          Ret (Ok (), with_channels s (if 2 <? zlen live then drop 1 live else live))
      end
  | _, _ => Ret (Ok (), s)
  end.

(** ** What TLS unlocks *)

Definition handle_message (message : list byte) : M () :=
  match strip_prefix (str "PUSH_REPLY,") message with
  | Some options =>
      known ← get pushed;
      match known with
      | Some _ => mret ()
      | None =>
          s ← get id;
          p ← check (read_push s options);
          m ← get material;
          match m with
          | None => fails (str "the OpenVPN server pushed its settings before its key material")
          | Some _ => put (λ s, with_pushed s (Some p));; install_keys
          end
      end
  | None =>
      if starts_with (str "AUTH_FAILED") message || starts_with (str "RESTART") message
         || starts_with (str "HALT") message
      then fails (describe_refusal message)
      else mret ()
  end.

(** Four zero bytes, the key method, two random values and a length. *)
Definition FIXED : Z := 4 + 1 + 32 + 32 + 2.

Definition NO_SESSION_ID : list byte := str "the OpenVPN server's session id is not known yet".

(** The server's half of the key exchange; [false] while it is incomplete. *)
Definition read_server_material : M bool :=
  buffer ← get control_messages;
  if zlen buffer <? FIXED then mret false else
  zeros ← lift (slice buffer 0 4);
  method ← lift (idx buffer 4);
  if negb (bool_decide (zeros = replicate 4 x00)) || negb (b2z method =? 2) then
    fails (describe_refusal (trim (filter (λ b, b ≠ x00) (from_utf8_lossy buffer))))
  else
    high ← lift (idx buffer 69);
    low ← lift (idx buffer 70);
    let options_len := b2z high * 256 + b2z low in
    if zlen buffer <? FIXED + options_len then mret false else
    random1 ← lift (slice buffer 5 37);
    random2 ← lift (slice buffer 37 69);
    options ← lift (slice buffer FIXED (FIXED + options_len));
    let options := from_utf8_lossy options in
    put (λ s, with_server_digest (with_server_cipher s (options_value options (str "cipher")))
                (options_value options (str "auth")));;
    c ← get control;
    match remote_session_id c with
    | None => fails NO_SESSION_ID
    | Some server_sid =>
        source ← get key_source;
        m ← lift (derive source random1 random2 (session_id c) server_sid);
        put (λ s, with_stage (with_server_material
                    (with_control_messages (with_material s (Some m))
                       (drop (Z.to_nat (FIXED + options_len)) buffer)) true) Push);;
        install_keys;;
        mret true
    end.

(** The messages, each ended by a zero byte. *)
Fixpoint read_messages (fuel : nat) : M () :=
  buffer ← get control_messages;
  match split_once x00 buffer with
  | None => mret ()
  | Some (message, rest) =>
      match fuel with
      | O => lift Panic
      | S fuel' =>
          put (λ s, with_control_messages s rest);;
          handle_message (from_utf8_lossy message);;
          read_messages fuel'
      end
  end.

Definition read_control_messages : M () :=
  known ← get server_material;
  ready ← (if (known : bool) then mret true else read_server_material : M bool);
  if (ready : bool) then buffer ← get control_messages; read_messages (length buffer) else mret ().

(** ** TLS *)

(** The client's half of the key exchange. *)
Definition key_exchange (s : Session) (remote : Remote.t) : list byte :=
  be_bytes 4 0 ++ [x02] ++ pre_master (key_source s) ++ random1 (key_source s) ++ random2 (key_source s)
  ++ write_string (Some (options_string (config s) (session_protocol s)))
  ++ write_string (username (credentials s)) ++ write_string (password (credentials s))
  ++ write_string (Some (peer_info (config s) remote)).

(** [tls.as_mut().expect(...)] and what it writes. *)
Definition write_to_tls (blob what : list byte) : M () := λ s,
  connection ← unwrap (tls s);
  let '(r, connection) := write_plain connection blob in
  let s := with_tls s (Some connection) in
  Ret (match r with Ok _ => Ok () | Err e => Err (Fails (what ++ e)) end, s).

Definition send_key_material : M () :=
  s ← get id;
  remote ← lift (unwrap (head (remotes (config s))));
  write_to_tls (key_exchange s remote) (str "could not send the OpenVPN key material: ");;
  put (λ s, with_stage s KeyExchange).

(** The loop of [feed_tls] over the bytes that TLS has not taken. With a turn for each
    of them it can only be over, or the peer has closed its side. *)
Fixpoint feed_loop (fuel : nat) (c : connection) (payload : list byte) : run (result stop () * connection) :=
  match payload with
  | [] => Ret (Ok (), c)
  | b :: rest =>
      match fuel with
      | O =>
          match decide (Is_true (peer_closed c)) with
          | left closed => Ret (Err (Spins c b rest closed), c)
          | right _ => Panic
          end
      | S fuel' =>
          match read_tls c payload with
          | (Err e, c) => Ret (Err (Fails e), c)
          | (Ok n, c) => feed_loop fuel' c (drop n payload)
          end
      end
  end.

Definition feed_tls (payload : list byte) : M () :=
  c ← get tls;
  match c with
  | None => mret ()
  | Some c =>
      '(r, c) ← lift (feed_loop (length payload) c payload);
      put (λ s, with_tls s (Some c));;
      call (λ s, Ret (r, s));;
      let '(received, c) := plaintext c in
      put (λ s, with_tls s (Some c));;
      let handshaking := is_handshaking c in
      (match received with
       | [] => mret ()
       | _ => put (λ s, with_control_messages s (control_messages s ++ received));; read_control_messages
       end);;
      stage ← get stage;
      if negb handshaking && bool_decide (stage = Tls_) then send_key_material else mret ()
  end.

Definition begin_tls : M () :=
  c ← get tls;
  match c with
  | Some _ => mret ()
  | None =>
      tls_config ← get tls_config;
      c ← check (new_connection tls_config);
      put (λ s, with_stage (with_tls s (Some c)) Tls_)
  end.

(** [KeySource::random]. *)
Definition random_source (h : host) : KeySource * host :=
  let '(pre_master, h) := random h 48 in
  let '(random1, h) := random h 32 in
  let '(random2, h) := random h 32 in
  (mk_source pre_master random1 random2, h).

(** A fresh handshake on a new key id, in the same session. *)
Definition renegotiate (key_id : Z) : M () :=
  c ← get control;
  if key_id =? control_key c then mret () else
  put (λ s, with_control s (rekey (control s) key_id));;
  on_control (λ c clock, restart c (clock 0%nat).1 (clock 0%nat).2);;
  put (λ s, with_control_messages (with_server_material (with_material (with_tls s None) None) false) []);;
  source ← asks random_source;
  put (λ s, with_key_source s source);;
  begin_tls.

(** ** Packets *)

(** A data packet under the generation that sealed it. *)
Fixpoint open_first (key : Z) (packet : list byte) (live : list DataChannel)
    : run (result Error (option (list byte)) * list DataChannel) :=
  match live with
  | [] => Ret (Ok None, [])
  | channel :: rest =>
      if key_id channel =? key then
        '(r, channel) ← OvpnCrypto.open channel packet; Ret (r, channel :: rest)
      else
        '(r, rest) ← open_first key packet rest; Ret (r, channel :: rest)
  end.

Definition open_data (packet : list byte) : M (option (list byte)) := λ s,
  first ← idx packet 0;
  '(r, live) ← open_first (Z.land (b2z first) 7) packet (channels s);
  Ret (failing r, with_channels s live).

Definition EMPTY_PACKET : list byte := str "an OpenVPN packet was empty".

Definition receive_control (packet : list byte) : M Received :=
  clock ← asks readings;
  call (λ s, '(r, c) ← OvpnControl.receive (control s) packet (clock 0%nat).1; Ret (failing r, with_control s c)).

(** One packet of the link, during setup. *)
Definition step (packet : list byte) : M () :=
  opcode ← check (from_option Ok (Err EMPTY_PACKET) (opcode_of packet));
  if is_data opcode then
    inner ← open_data packet;
    match inner with
    | Some inner => put (λ s, with_inbound s (inbound s ++ [inner]))
    | None => mret ()
    end
  else
    received ← receive_control packet;
    match received with
    | ServerReset => begin_tls
    | Payload payload => feed_tls payload
    | SoftReset key_id => renegotiate key_id
    | Nothing => mret ()
    end.

(** What TLS wants to send: one write after another, while it wants to. *)
Fixpoint collect_tls (fuel : nat) (c : connection) (outbound : list byte) : run (result Error (list byte) * connection) :=
  if (0 <? backlog c)%nat then
    match fuel with
    | O => Panic
    | S fuel' =>
        match write_tls c with
        | (Err e, c) => Ret (Err e, c)
        | (Ok out, c) => collect_tls fuel' c (outbound ++ out)
        end
    end
  else Ret (Ok outbound, c).

Fixpoint send_outgoing (fuel : nat) : M () :=
  c ← get control;
  match take_outgoing c with
  | (None, _) => mret ()
  | (Some packet, c) =>
      match fuel with
      | O => lift Panic
      | S fuel' =>
          put (λ s, with_control s c);;
          asks_result (λ h, link_send h packet Reliable);;
          send_outgoing fuel'
      end
  end.

Definition flush : M () :=
  c ← get tls;
  (match c with
   | None => mret ()
   | Some c =>
       '(r, c) ← lift (collect_tls (backlog c) c []);
       put (λ s, with_tls s (Some c));;
       outbound ← check r;
       match outbound with
       | [] => mret ()
       | _ => on_control (λ control clock, send_tls control outbound clock)
       end
   end);;
  queued ← get (λ s, outgoing (control s));
  send_outgoing (length queued);;
  asks_result link_flush.

(** One packet of the link, once the session is up. *)
Definition absorb (packet : list byte) : M (option (list byte)) :=
  opcode ← check (from_option Ok (Err EMPTY_PACKET) (opcode_of packet));
  if is_data opcode then open_data packet
  else step packet;; flush;; mret None.

(** ** Traffic *)

Definition NOT_UP : list byte := str "the OpenVPN data channel is not up".

(** Seals under the newest generation; a CBC cipher draws its IV. *)
Definition seal_newest (packet : list byte) : M (list byte) :=
  live ← get channels;
  match last live with
  | None => fails NOT_UP
  | Some channel =>
      iv ← (match seal_with channel with
             | Cbc _ _ _ => asks (λ h, random h 16)
             | Aead _ _ _ => mret []
             end : M (list byte));
      let '(r, channel) := OvpnCrypto.seal channel iv packet in
      put (λ s, with_channels s (removelast live ++ [channel]));;
      check r
  end.

Definition send_inner_with_urgency (packet : list byte) (urgency : Urgency) : M () :=
  sealed ← seal_newest packet;
  t ← now;
  put (λ s, with_last_keepalive s t);;
  asks_result (λ h, link_send h sealed urgency).

Definition send_inner (packet : list byte) : M () := send_inner_with_urgency packet Realtime.

Definition keepalive : M () :=
  p ← get pushed;
  match p ≫= keepalive_every with
  | None => mret ()
  | Some interval =>
      t ← now;
      sent ← get last_keepalive;
      if since t sent <? interval then mret () else
      ping ← seal_newest PING;
      t ← now;
      put (λ s, with_last_keepalive s t);;
      asks_result (λ h, link_send h ping Reliable)
  end.

(** What has already arrived, without waiting. *)
Fixpoint receive_burst (fuel : nat) (packets : list (list byte)) : M (option (list (list byte))) :=
  match fuel with
  | O => mret None
  | S fuel' =>
      packet ← asks_result (λ h, link_receive h DRAIN);
      match packet with
      | None => mret (Some packets)
      | Some packet =>
          inner ← absorb packet;
          receive_burst fuel' (packets ++ option_list inner)
      end
  end.

(** The loop of [receive_inner]; [None] is a loop that still turns. *)
Fixpoint receive_loop (fuel : nat) (deadline : Z) (packets : list (list byte)) : M (option (list (list byte))) :=
  match fuel with
  | O => mret None
  | S fuel' =>
      keepalive;;
      t ← now;
      put (λ s, with_control s (resend_stale (control s) t));;
      flush;;
      t ← now;
      let remaining := since deadline t in
      if remaining =? 0 then mret (Some packets) else
      packet ← asks_result (λ h, link_receive h (Z.min remaining (ms 50)));
      match packet with
      | None => match packets with [] => receive_loop fuel' deadline packets | _ => mret (Some packets) end
      | Some packet =>
          t ← now;
          put (λ s, with_last_inbound s t);;
          inner ← absorb packet;
          match inner with
          | None => receive_loop fuel' deadline packets
          | Some inner => receive_burst fuel' (packets ++ [inner])
          end
      end
  end.

Definition receive_inner (fuel : nat) (timeout : Z) : M (option (list (list byte))) :=
  t ← now;
  packets ← get inbound;
  put (λ s, with_inbound s []);;
  receive_loop fuel (t + timeout) packets.

(** ** Setup *)

(** Asks for the settings, until they arrive. *)
Definition request_push : M () :=
  s ← get id;
  if negb (server_material s) || bool_decide (is_Some (pushed s)) then mret () else
  due ← match last_push_request s with
        | None => mret true
        | Some last => t ← now; mret (PUSH_INTERVAL <=? since t last)
        end;
  if negb (due : bool) then mret () else
  t ← now;
  put (λ s, with_last_push_request s (Some t));;
  write_to_tls (str "PUSH_REQUEST" ++ [x00]) (str "could not ask the OpenVPN server for its settings: ").

Definition timeout_reason (s : Session) : list byte :=
  str "the OpenVPN session did not come up: " ++
  match stage s with
  | Reset => str "the server never answered the opening packet. Check the address, the port and whether this is a udp or tcp configuration."
  | Tls_ => str "the TLS handshake did not finish. Over UDP this usually means the server's handshake packets are too large for the path and are being dropped; the same provider's tcp configuration will normally connect."
  | KeyExchange => str "the server accepted the TLS handshake but never sent its key material."
  | Push => str "the server never pushed the tunnel's settings, which usually means it is still deciding whether to accept the credentials."
  end.

Definition check_silence : M () :=
  t ← now;
  s ← get id;
  if since t (last_inbound s) <? SILENCE_LIMIT then mret () else
  if bool_decide (stage s = Reset) then
    fails (str "the OpenVPN server at " ++ default (str "the configured address") (peer_addr (world s))
      ++ str " is not answering. Nothing has come back at all, so either the address and port are wrong or the connection is being blocked.")
  else
    fails (str "the OpenVPN server stopped answering part-way through the handshake. " ++
      match session_protocol s with
      | Udp => str "Its handshake packets are probably too large for this connection; try the provider's tcp configuration."
      | Tcp => str "The connection stayed open but the server went quiet."
      end).

(** One turn of [run_setup]'s loop. *)
Definition setup_turn : M () :=
  packet ← asks_result (λ h, link_receive h (ms 100));
  (match packet with
   | None => mret ()
   | Some packet => t ← now; put (λ s, with_last_inbound s t);; step packet
   end);;
  t ← now;
  put (λ s, with_control s (resend_stale (control s) t));;
  request_push;;
  flush;;
  check_silence.

(** [None] is a loop that still turns. *)
Fixpoint run_setup (fuel : nat) (started : Z) : M (option ()) :=
  match fuel with
  | O => mret None
  | S fuel' =>
      t ← now;
      s ← get id;
      if t <? started + HANDSHAKE_TIMEOUT then
        match pushed s with
        | Some _ =>
            t ← now;
            put (λ s, with_handshake_latency s (Some (since t started)));;
            mret (Some ())
        | None => setup_turn;; run_setup fuel' started
        end
      else fails (timeout_reason s)
  end.

Definition NO_CREDENTIALS : list byte :=
  str "this OpenVPN configuration needs a username and password, which have not been entered for this node".

(** Everything [connect] does on a session once it has one. *)
Definition set_up (fuel : nat) (started : Z) : M (option ()) :=
  on_control (λ c clock, start c (clock 0%nat).1 (clock 0%nat).2);;
  flush;;
  run_setup fuel started.

Definition connect (fuel : nat) (h : host) (config : OpenVpnConfig) (remote : Remote.t) (address : list byte)
    (credentials : Credentials) : run (result stop (option Session) * host) :=
  if wants_credentials config && bool_decide (username credentials = None) then Ret (Err (Fails NO_CREDENTIALS), h) else
  match build_tls_config config with
  | Err e => Ret (Err (Fails e), h)
  | Ok tls_config =>
      let '(dialled, h) := dial h (Remote.protocol remote) address (secs 10) in
      match dialled with
      | Err e => Ret (Err (Fails e), h)
      | Ok _ =>
          let '(clock, h) := readings h in
          let t := (clock 0%nat).2 in
          let '(session_id, h) := random h 8 in
          control ← new_control (control_auth config) session_id;
          let '(source, h) := random_source h in
          let s := mk_session config credentials (Remote.protocol remote) h control None tls_config Reset
                     source None [] None [] false None None None t t None [] in
          '(r, s) ← set_up fuel t s;
          Ret (match r with
               | Ok (Some _) => Ok (Some s)
               | Ok None => Ok None
               | Err e => Err e
               end, world s)
      end
  end.

(** ** The attempts of one node *)

(** Every remote, and over TCP too where it names UDP. *)
Fixpoint attempts (remotes : list Remote.t) : list Remote.t :=
  match remotes with
  | [] => []
  | remote :: rest =>
      remote ::
      (if bool_decide (Remote.protocol remote = Udp)
       then [Remote.mk (Remote.host remote) (Remote.port remote) Tcp] else [])
      ++ attempts rest
  end.

(** The first session that comes up, or the first failure; an attempt that never ends
    is the last one. *)
Fixpoint try_remotes (fuel : nat) (h : host) (config : OpenVpnConfig) (credentials : Credentials)
    (remaining : list Remote.t) (failures : list Error) : run (result stop (option (Session * list byte)) * host) :=
  match remaining with
  | [] =>
      Ret (Err (Fails (default (str "this OpenVPN configuration has nothing to connect to") (head failures))), h)
  | remote :: rest =>
      match resolve h remote with
      | (Err e, h) => try_remotes fuel h config credentials rest (failures ++ [e])
      | (Ok address, h) =>
          '(r, h) ← connect fuel h config remote address credentials;
          match r with
          | Ok (Some s) => Ret (Ok (Some (s, address)), h)
          | Ok None => Ret (Ok None, h)
          | Err (Spins c b rest closed) => Ret (Err (Spins c b rest closed), h)
          | Err (Fails e) =>
              try_remotes fuel h config credentials rest
                (failures ++ [Remote.endpoint remote ++ str " over " ++ protocol_name (Remote.protocol remote)
                              ++ str ": " ++ e])
          end
      end
  end.

Definition from_config `{!Pem} (fuel : nat) (h : host) (source : list byte) (credentials : Credentials)
    : run (result stop (option (Session * list byte)) * host) :=
  match configured source (username credentials) with
  | Err e => Ret (Err (Fails e), h)
  | Ok config => try_remotes fuel h config credentials (attempts (remotes config)) []
  end.

End session.
