(* ===== verification/OvpnSessionSafety.v ===== *)
(** * What every call of an OpenVPN session keeps

    The invariant of [OvpnSession]'s state, kept by every call of it whatever the
    network, the server and TLS answer, and what follows for a whole session. *)
From S2P Require Import Prelude Text OvpnX509 OvpnConfig OvpnCrypto OvpnControl OvpnLink OvpnSession.

(** ** Reasoning about a call *)

Section calls.
Context `{!Primitives, !Tls, !Host}.

Lemma failing_ok {A} (r : result Error A) a : failing r = Ok a → r = Ok a.
Proof. destruct r; [by intros [= <-]|done]. Qed.

(** [m] returns from [s], with a result and a session in [Q]. *)
Definition wps {A} (m : M A) (s : Session) (Q : result stop A → Session → Prop) : Prop :=
  ∃ r s', m s = Ret (r, s') ∧ Q r s'.

Lemma wps_mono {A} (m : M A) s (Q Q' : result stop A → Session → Prop) :
  wps m s Q → (∀ r s', Q r s' → Q' r s') → wps m s Q'.
Proof. intros (r & s' & Hm & Hq) HQ. exists r, s'. auto. Qed.

Lemma wps_bind {A B} (m : M A) (f : A → M B) s (Q : result stop B → Session → Prop) :
  wps m s (λ r s', match r with Ok a => wps (f a) s' Q | Err e => Q (Err e) s' end) → wps (m ≫= f) s Q.
Proof.
  intros ([a|e] & s' & Hm & Hq); unfold wps, mbind, M_bind; rewrite Hm; [done|]. by exists (Err e), s'.
Qed.

Lemma wps_ret {A} (a : A) s (Q : result stop A → Session → Prop) : Q (Ok a) s → wps (mret a) s Q.
Proof. intros Hq. by exists (Ok a), s. Qed.

Lemma wps_fails {A} e s (Q : result stop A → Session → Prop) : Q (Err (Fails e)) s → wps (fails e) s Q.
Proof. intros Hq. by exists (Err (Fails e)), s. Qed.

Lemma wps_check {A} (r : result Error A) s (Q : result stop A → Session → Prop) : Q (failing r) s → wps (check r) s Q.
Proof. intros Hq. by exists (failing r), s. Qed.

Lemma wps_answer {A} (r : result stop A) s (Q : result stop A → Session → Prop) :
  Q r s → wps (call (λ s, Ret (r, s))) s Q.
Proof. intros Hq. by exists r, s. Qed.

Lemma wps_get {A B} (f : Session → A) (k : A → M B) s Q : wps (k (f s)) s Q → wps (OvpnSession.get f ≫= k) s Q.
Proof. done. Qed.

Lemma wps_put {B} (f : Session → Session) (k : () → M B) s Q : wps (k ()) (f s) Q → wps (put f ≫= k) s Q.
Proof. done. Qed.

Lemma wps_last_put f s (Q : result stop () → Session → Prop) : Q (Ok ()) (f s) → wps (put f) s Q.
Proof. intros Hq. by exists (Ok ()), (f s). Qed.

Lemma wps_lift {A B} (a : A) (k : A → M B) s Q : wps (k a) s Q → wps (lift (Ret a) ≫= k) s Q.
Proof. done. Qed.

Lemma wps_asks {A} (f : host → A * host) s (Q : result stop A → Session → Prop) :
  (∀ a h, f (world s) = (a, h) → Q (Ok a) (with_world s h)) → wps (asks f) s Q.
Proof. intros Hq. unfold wps, asks. destruct (f (world s)) as [a h] eqn:E. eexists _, _. split; [done|]. by apply Hq. Qed.

Lemma wps_asks_result {A} (f : host → result Error A * host) s (Q : result stop A → Session → Prop) :
  (∀ r h, f (world s) = (r, h) → Q (failing r) (with_world s h)) → wps (asks_result f) s Q.
Proof. intros Hq. unfold wps, asks_result. destruct (f (world s)) as [r h] eqn:E. eexists _, _. split; [done|]. by apply Hq. Qed.

End calls.

(** ** The invariant *)

Section invariant.
Context `{!Primitives, !PrimitiveLaws, !Tls, !TlsLaws, !Host}.

(** A generation runs the cipher, the digest and the peer id that were pushed. *)
Definition uses (p : Pushed) (c : DataChannel) : Prop :=
  channel_wf c ∧ peer_id c = pushed_peer p ∧
  ∃ material, zlen material = 256 ∧
    seal_with c = protection_of material (cipher p) (pushed_digest p) ∧
    open_with c = protection_of (drop 128 material) (cipher p) (pushed_digest p).

(** [n] bounds the packets that the control channel has taken. *)
Record session_wf (n : Z) (s : Session) : Prop := {
  sw_control : control_wf (control s);
  sw_room : room (control s) <= n;
  sw_count : 0 <= n;
  sw_remotes : remotes (config s) ≠ [];
  sw_material : ∀ m, material s = Some m → zlen m = 256;
  sw_server : server_material s = true → is_Some (tls s);
  sw_up : channels s = [] ↔ pushed s = None;
  sw_uses : ∀ p, pushed s = Some p → Forall (uses p) (channels s);
  sw_keys : NoDup (key_id <$> channels s);
  sw_few : (length (channels s) <= 2)%nat
}.

(** Settings that were pushed stay. *)
Definition settled (s s' : Session) : Prop := ∀ p, pushed s = Some p → pushed s' = Some p.

Definition good (n : Z) (s0 s : Session) : Prop := session_wf n s ∧ settled s0 s.

Lemma good_refl n s : session_wf n s → good n s s.
Proof. intros Hs. split; [exact Hs|by intros p]. Qed.

Lemma good_more n n' s0 s : good n s0 s → n <= n' → good n' s0 s.
Proof. intros [[] Hs] Hn. split; [|done]. split; try done; lia. Qed.

(** Fields outside of the invariant. *)
Ltac aside := let H := fresh in let G := fresh in intros [H G]; split; [destruct H; split; assumption|exact G].

Lemma good_world n s0 s v : good n s0 s → good n s0 (with_world s v).
Proof. aside. Qed.
Lemma good_stage n s0 s v : good n s0 s → good n s0 (with_stage s v).
Proof. aside. Qed.
Lemma good_source n s0 s v : good n s0 s → good n s0 (with_key_source s v).
Proof. aside. Qed.
Lemma good_messages n s0 s v : good n s0 s → good n s0 (with_control_messages s v).
Proof. aside. Qed.
Lemma good_cipher n s0 s v : good n s0 s → good n s0 (with_server_cipher s v).
Proof. aside. Qed.
Lemma good_digest n s0 s v : good n s0 s → good n s0 (with_server_digest s v).
Proof. aside. Qed.
Lemma good_request n s0 s v : good n s0 s → good n s0 (with_last_push_request s v).
Proof. aside. Qed.
Lemma good_heard n s0 s v : good n s0 s → good n s0 (with_last_inbound s v).
Proof. aside. Qed.
Lemma good_said n s0 s v : good n s0 s → good n s0 (with_last_keepalive s v).
Proof. aside. Qed.
Lemma good_latency n s0 s v : good n s0 s → good n s0 (with_handshake_latency s v).
Proof. aside. Qed.
Lemma good_inbound n s0 s v : good n s0 s → good n s0 (with_inbound s v).
Proof. aside. Qed.

Lemma good_tls n s0 s c : good n s0 s → good n s0 (with_tls s (Some c)).
Proof. intros [[] Hs]. split; [|exact Hs]. by split. Qed.

Lemma good_control n s0 s c :
  good n s0 s → control_wf c → room c <= n → good n s0 (with_control s c).
Proof. intros [[] Hs] Hc Hr. split; [|exact Hs]. by split. Qed.

(** ** Installing keys *)

Lemma live_key_spec k (live : list DataChannel) :
  existsb (λ c, key_id c =? k) live = true ↔ k ∈ key_id <$> live.
Proof.
  induction live as [|c live IH]; cbn; [by rewrite elem_of_nil|].
  rewrite elem_of_cons, orb_true_iff, Z.eqb_eq, IH. naive_solver.
Qed.

Lemma install_new s m p :
  material s = Some m → pushed s = Some p → zlen m = 256 → control_wf (control s) →
  control_key (control s) ∉ key_id <$> channels s →
  ∃ c, uses p c ∧ key_id c = control_key (control s) ∧
    install_keys s = Ret (Ok (), with_channels s
      (let live := channels s ++ [c] in if 2 <? zlen live then drop 1 live else live)).
Proof.
  intros Hm Hp Hl Hc Hk. unfold install_keys. rewrite Hm, Hp.
  destruct (existsb _ _) eqn:E; [by apply live_key_spec in E|].
  destruct (new_channel_spec m (cipher p) (pushed_digest p) (pushed_peer p) (control_key (control s)) Hl)
    as (c & Hnew & Hwf & Hs & Ho & _); [by destruct Hc|].
  exists c. assert (peer_id c = pushed_peer p ∧ key_id c = control_key (control s)) as [Hpeer Hkey].
  { revert Hnew. unfold new_channel. destruct (new_protection m 0 _ _) as [[]|]; [|done..]. cbn.
    destruct (new_protection m 1 _ _) as [[]|]; [|done..]. cbn. by intros [= <-]. }
  split_and!; [|done|by rewrite Hnew]. split_and!; [done|done|]. by exists m.
Qed.

Lemma install_idle s :
  material s = None ∨ pushed s = None ∨ control_key (control s) ∈ key_id <$> channels s →
  install_keys s = Ret (Ok (), s).
Proof.
  unfold install_keys. intros [->|[->|Hk]]; [done|by destruct (material s)|].
  destruct (material s), (pushed s); try done. by rewrite (proj2 (live_key_spec _ _) Hk).
Qed.

(** A session whose newest generation was just put in. *)
Lemma good_installed n s0 s p c :
  session_wf n s ∨ channels s = [] → settled s0 s → pushed s = Some p →
  control_wf (control s) → room (control s) <= n → 0 <= n → remotes (config s) ≠ [] →
  (∀ m, material s = Some m → zlen m = 256) → (server_material s = true → is_Some (tls s)) →
  uses p c → key_id c ∉ key_id <$> channels s →
  good n s0 (with_channels s (let live := channels s ++ [c] in if 2 <? zlen live then drop 1 live else live)).
Proof.
  intros Hs Hset Hp Hc Hr Hn0 Hrem Hm Ht Huse Hk. split; [|exact Hset].
  set (live := channels s ++ [c]). set (kept := if 2 <? zlen live then drop 1 live else live).
  assert ((length (channels s) <= 2)%nat ∧ Forall (uses p) (channels s) ∧ NoDup (key_id <$> channels s)) as (Hf & Hu & Hn).
  { destruct Hs as [[]| ->]; [by split_and!; [|apply sw_uses0|]|]. split_and!; [cbn; lia|constructor|constructor]. }
  assert (Forall (uses p) live ∧ NoDup (key_id <$> live) ∧ (length live <= 3)%nat) as (Hu' & Hn' & Hf').
  { unfold live. split_and!.
    - apply Forall_app. by split; [|apply Forall_singleton].
    - rewrite fmap_app. apply NoDup_app. split_and!; [done| |apply NoDup_singleton].
      intros k Hin Hk'%list_elem_of_singleton. by subst.
    - rewrite length_app. cbn. lia. }
  assert (kept ≠ [] ∧ Forall (uses p) kept ∧ NoDup (key_id <$> kept) ∧ (length kept <= 2)%nat) as (K1 & K2 & K3 & K4).
  { assert (kept = live ∨ kept = drop 1 live) as Hkept by (unfold kept; destruct (2 <? _); auto).
    assert (length kept <= 2 ∧ 1 <= length kept)%nat as [Hle Hge].
    { unfold kept. destruct (Z.ltb_spec 2 (zlen live)) as [Hz|Hz]; unfold zlen in Hz; rewrite ?length_drop; [lia|].
      unfold live in *. rewrite length_app in *. cbn in *. lia. }
    split_and!; [by intros E; rewrite E in Hge; cbn in Hge; lia|..|done]; destruct Hkept as [->|Hd]; try done; rewrite Hd.
    - by apply Forall_drop.
    - rewrite fmap_drop. eapply sublist_NoDup; [exact Hn'|]. apply sublist_drop. }
  split; try done. 
  - cbn. rewrite Hp. split; [by intros ?%K1|done].
  - cbn. rewrite Hp. intros p' [= <-]. done.
Qed.

Lemma install_good n s0 s : good n s0 s → wps install_keys s (λ _, good n s0).
Proof.
  intros Hg. pose proof Hg as [Hs Hset]. unfold wps.
  destruct (material s) as [m|] eqn:Em; [|rewrite install_idle by (by left); by eexists _, _].
  destruct (pushed s) as [p|] eqn:Ep; [|rewrite install_idle by (by right; left); by eexists _, _].
  destruct (decide (control_key (control s) ∈ key_id <$> channels s)) as [Hk|Hk].
  { rewrite install_idle by (by right; right). by eexists _, _. }
  destruct (install_new s m p Em Ep) as (c & Hu & Hkey & ->); [by apply Hs|by apply Hs|done|].
  eexists _, _. split; [done|]. pose proof Hs as [].
  by apply (good_installed n s0 s p c); [left|..|rewrite Hkey].
Qed.

End invariant.

Create HintDb session.
#[export] Hint Resolve good_world good_stage good_source good_messages good_cipher good_digest good_request
  good_heard good_said good_latency good_inbound good_tls : session.

(** The next call of a sequence keeps the invariant; [tac] shows that it does. *)
Ltac next tac :=
  let G := fresh "Hnext" in apply wps_bind; eapply wps_mono; [tac|]; intros [?|?] ? G; [|exact G].

(** ** What TLS unlocks *)

Section unlocked.
Context `{!Primitives, !PrimitiveLaws, !Tls, !TlsLaws, !Host}.

Lemma handle_message_good n s0 s message : good n s0 s → wps (handle_message message) s (λ _, good n s0).
Proof.
  intros Hg. unfold handle_message. destruct (strip_prefix _ message) as [options|].
  2: { destruct (_ || _); [by apply wps_fails|by apply wps_ret]. }
  apply wps_get. destruct (pushed s) as [p|] eqn:Ep; [by apply wps_ret|]. apply wps_get.
  apply wps_bind, wps_check. destruct (read_push (id s) options) as [p|e]; [|done].
  apply wps_get. destruct (material s) as [m|] eqn:Em; [|by apply wps_fails]. apply wps_put.
  destruct Hg as [Hs Hset]. pose proof Hs as [].
  assert (channels s = []) as Hnone by by apply sw_up0.
  destruct (install_new (with_pushed s (Some p)) m p) as (c & Hu & Hkey & Hrun); [done|done|by apply sw_material0|done| |].
  { change (channels (with_pushed s (Some p))) with (channels s). rewrite Hnone. apply not_elem_of_nil. }
  unfold wps. rewrite Hrun. eexists _, _. split; [done|].
  apply (good_installed n s0 (with_pushed s (Some p)) p c); try done.
  - by right.
  - intros q Hq. specialize (Hset q Hq). congruence.
  - change (channels (with_pushed s (Some p))) with (channels s). rewrite Hnone. apply not_elem_of_nil.
Qed.

(** A call that leaves the buffer of messages alone, and does not look at it. *)
Definition blind {A} (m : M A) : Prop := ∀ s v,
  m (with_control_messages s v) = (λ x : result stop A * Session, (x.1, with_control_messages x.2 v)) <$> m s.

Lemma install_blind : blind install_keys.
Proof.
  intros s v. unfold install_keys. destruct s; cbn. destruct material as [m|], pushed as [p|]; try done.
  destruct (existsb _ _); [done|]. by destruct (new_channel _ _ _ _ _) as [[]|].
Qed.

Lemma handle_message_blind message : blind (handle_message message).
Proof.
  intros s v. unfold handle_message. destruct (strip_prefix _ message) as [options|].
  2: { by destruct (_ || _). }
  unfold mbind, M_bind, OvpnSession.get, check, put. destruct (pushed s) as [p|] eqn:Ep.
  { by replace (pushed (with_control_messages s v)) with (Some p). }
  replace (pushed (with_control_messages s v)) with (@None Pushed). cbv beta iota.
  change (read_push (id (with_control_messages s v)) options) with (read_push (id s) options).
  destruct (read_push (id s) options) as [p|e]; [|done]. cbn [failing].
  change (material (with_control_messages s v)) with (material s). destruct (material s); [|done].
  change (with_pushed (with_control_messages s v) (Some p)) with (with_control_messages (with_pushed s (Some p)) v).
  apply install_blind.
Qed.

Lemma messages_set s : with_control_messages s (control_messages s) = s.
Proof. by destruct s. Qed.

Lemma blind_keeps {A} (m : M A) s r s' : blind m → m s = Ret (r, s') → control_messages s' = control_messages s.
Proof.
  intros Hb Hm. pose proof (Hb s (control_messages s)) as E. rewrite messages_set, Hm in E. cbn in E.
  injection E as E. by rewrite E.
Qed.

Lemma split_once_shorter c l message rest : split_once c l = Some (message, rest) → (length rest < length l)%nat.
Proof.
  revert message rest. induction l as [|b l IH]; intros message rest E; [done|].
  cbn in E. case_bool_decide; [injection E as <- <-; cbn; lia|].
  destruct (split_once c l) as [[m' r']|]; [|done]. injection E as <- <-. specialize (IH _ _ eq_refl). cbn. lia.
Qed.

Lemma read_messages_good fuel n s0 s :
  (length (control_messages s) <= fuel)%nat → good n s0 s → wps (read_messages fuel) s (λ _, good n s0).
Proof.
  revert s. induction fuel as [|fuel IH]; intros s Hf Hg; cbn [read_messages]; apply wps_get.
  - destruct (control_messages s); [by apply wps_ret|cbn in Hf; lia].
  - destruct (split_once x00 (control_messages s)) as [[message rest]|] eqn:E; [|by apply wps_ret].
    apply split_once_shorter in E. apply wps_put, wps_bind.
    destruct (handle_message_good n s0 (with_control_messages s rest) (from_utf8_lossy message)) as (r & s' & Hrun & Hg');
      [eauto with session|].
    exists r, s'. split; [done|]. destruct r; [|done]. apply IH; [|done].
    apply blind_keeps in Hrun; [|apply handle_message_blind]. rewrite Hrun. cbn. lia.
Qed.

Lemma sliced {A} (l : list byte) a b (k : list byte → M A) s Q :
  0 <= a <= b → b <= zlen l → wps (k (sub l a b)) s Q → wps (lift (slice l a b) ≫= k) s Q.
Proof. intros Ha Hb Hk. by rewrite slice_in. Qed.

Lemma indexed {A} (l : list byte) i (k : byte → M A) s Q :
  0 <= i < zlen l → (∀ b, wps (k b) s Q) → wps (lift (idx l i) ≫= k) s Q.
Proof. intros Hi Hk. destruct (get_is_Some l i Hi) as [b E]. unfold idx. rewrite E. apply Hk. Qed.

Lemma read_server_material_good n s0 s : good n s0 s → is_Some (tls s) → wps read_server_material s (λ _, good n s0).
Proof.
  intros Hg Ht. unfold read_server_material. apply wps_get. set (buffer := control_messages s).
  destruct (Z.ltb_spec (zlen buffer) FIXED) as [Hl|Hl]; [by apply wps_ret|]. unfold FIXED in *.
  apply sliced; [lia..|]. apply indexed; [lia|]. intros method. destruct (_ || _); [by apply wps_fails|].
  apply indexed; [lia|]. intros high. apply indexed; [lia|]. intros low. cbv zeta.
  pose proof (b2z_range high). pose proof (b2z_range low).
  set (options_len := b2z high * 256 + b2z low). destruct (Z.ltb_spec (zlen buffer) (4 + 1 + 32 + 32 + 2 + options_len)); [by apply wps_ret|].
  apply sliced; [lia..|]. apply sliced; [lia..|]. apply sliced; [lia..|]. apply wps_put, wps_get.
  set (s1 := with_server_digest _ _). assert (good n s0 s1) as Hg1 by (unfold s1; eauto with session).
  destruct (remote_session_id (control s1)) as [sid|]; [|by apply wps_fails]. apply wps_get.
  match goal with |- context [derive ?a ?b ?c ?d ?e] => destruct (derive_spec a b c d e) as [-> Hm] end.
  apply wps_lift, wps_put. set (m := key_expansion _ _ _ _ _) in *. clearbody m. set (s2 := with_stage _ _).
  assert (good n s0 s2) as Hg2.
  { destruct Hg1 as [[] Hset]. split; [|exact Hset]. split; try done. by intros m' [= <-]. }
  next ltac:(by apply install_good). by apply wps_ret.
Qed.

Lemma read_control_messages_good n s0 s : good n s0 s → is_Some (tls s) → wps read_control_messages s (λ _, good n s0).
Proof.
  intros Hg Ht. unfold read_control_messages. apply wps_get.
  apply wps_bind, wps_mono with (Q := λ _, good n s0).
  { destruct (server_material s); [by apply wps_ret|by apply read_server_material_good]. }
  intros [[]|] s' Hg'; [|by apply wps_ret|done]. apply wps_get. by apply read_messages_good.
Qed.

End unlocked.


(** Calls that leave a field alone. *)
Section keeping.
Context `{!Primitives, !Tls, !Host} {X : Type} (f : Session → X).

Definition keeps {A} (m : M A) : Prop := ∀ s r s', m s = Ret (r, s') → f s' = f s.

Lemma keeps_bind {A B} (m : M A) (k : A → M B) : keeps m → (∀ a, keeps (k a)) → keeps (m ≫= k).
Proof.
  intros Hm Hk s r s' E. unfold mbind, M_bind in E. destruct (m s) as [[[a|e] s1]|] eqn:E1; [| |done].
  - rewrite (Hk a s1 r s' E). by apply (Hm s (Ok a)).
  - injection E as <- <-. by apply (Hm s (Err e)).
Qed.

Lemma keeps_get {A} (g : Session → A) : keeps (OvpnSession.get g).
Proof. by intros s r s' [= _ <-]. Qed.
Lemma keeps_ret {A} (a : A) : keeps (mret a).
Proof. by intros s r s' [= _ <-]. Qed.
Lemma keeps_check {A} (r : result Error A) : keeps (check r).
Proof. by intros s r' s' [= _ <-]. Qed.
Lemma keeps_fails {A} e : keeps (A := A) (fails e).
Proof. by intros s r' s' [= _ <-]. Qed.
Lemma keeps_put g : (∀ s, f (g s) = f s) → keeps (put g).
Proof. by intros Hg s r s' [= _ <-]. Qed.
Lemma keeps_lift {A} (r : run A) : keeps (lift r).
Proof. intros s r' s'. unfold lift. by destruct r; [intros [= _ <-]|]. Qed.
Lemma keeps_install : (∀ s live, f (with_channels s live) = f s) → keeps install_keys.
Proof.
  intros Hf s r s'. unfold install_keys. destruct (material s), (pushed s); try by intros [= _ <-].
  destruct (existsb _ _); [by intros [= _ <-]|].
  destruct (new_channel _ _ _ _ _) as [[]|]; [intros [= _ <-]; apply Hf|by intros [= _ <-]|done].
Qed.

End keeping.

Ltac keep := repeat first
  [ progress (unfold read_control_messages, read_server_material, handle_message)
  | apply keeps_install; done | apply keeps_put; intros; done | apply keeps_bind; [|intros]
  | apply keeps_get | apply keeps_ret | apply keeps_check | apply keeps_fails | apply keeps_lift
  | match goal with |- keeps _ (match ?x with _ => _ end) => destruct x end
  | progress cbv zeta ].

(** ** TLS and the control channel *)

Section handshake.
Context `{!Primitives, !PrimitiveLaws, !Tls, !TlsLaws, !Host}.

Lemma now_good n s0 s : good n s0 s → wps now s (λ _, good n s0).
Proof. intros Hg. unfold now. apply wps_bind, wps_asks. intros clock h _. apply wps_ret. eauto with session. Qed.

Lemma on_control_good n s0 s f :
  good n s0 s →
  (∀ c clock, control_wf c → ∃ c', f c clock = Ret c' ∧ control_wf c' ∧ room c' = room c ∧ control_key c' = control_key c) →
  wps (on_control f) s (λ _, good n s0).
Proof.
  intros Hg Hf. unfold on_control. apply wps_bind, wps_asks. intros clock h _.
  assert (good n s0 (with_world s h)) as Hg' by eauto with session. pose proof Hg' as [[] _].
  destruct (Hf (control (with_world s h)) clock) as (c' & Hrun & Hc & Hr & _); [done|].
  unfold wps, call. rewrite Hrun. eexists _, _. split; [done|]. apply good_control; [done|done|]. by rewrite Hr.
Qed.

Lemma write_to_tls_good n s0 s blob what :
  good n s0 s → is_Some (tls s) → wps (write_to_tls blob what) s (λ r s', good n s0 s' ∧ is_Some (tls s')).
Proof.
  intros Hg [c Hc]. unfold wps, write_to_tls. rewrite Hc. cbn [unwrap mbind run_bind].
  destruct (write_plain c blob) as [r c']. eexists _, _. split; [done|]. split; [by apply good_tls|by eexists].
Qed.

Lemma send_key_material_good n s0 s : good n s0 s → is_Some (tls s) → wps send_key_material s (λ _, good n s0).
Proof.
  intros Hg Ht. unfold send_key_material. apply wps_get. pose proof Hg as [[] _].
  change (config (id s)) with (config s). destruct (remotes (config s)) as [|remote l]; [done|]. apply wps_lift.
  apply wps_bind. eapply wps_mono; [by apply write_to_tls_good|]. intros [[]|e] s' [Hg' _]; [|done].
  apply wps_last_put. eauto with session.
Qed.

Lemma feed_loop_total fuel c payload : (length payload <= fuel)%nat → ∃ r c', feed_loop fuel c payload = Ret (r, c').
Proof.
  assert (∀ fuel c b rest, peer_closed c = true → ∃ r c', feed_loop fuel c (b :: rest) = Ret (r, c')) as Hclosed.
  { clear fuel c payload. induction fuel as [|fuel IH]; intros c b rest Hc; cbn [feed_loop].
    - destruct (decide _) as [closed|Hopen]; [by eexists _, _|]. by rewrite Hc in Hopen.
    - destruct (read_tls_closed c (b :: rest) Hc) as (c' & -> & Hc'). rewrite drop_0. by apply IH. }
  revert c payload. induction fuel as [|fuel IH]; intros c payload Hf.
  { destruct payload; [by eexists _, _|cbn in Hf; lia]. }
  destruct payload as [|b payload]; [by eexists _, _|]. destruct (peer_closed c) eqn:Ec; [by apply Hclosed|].
  cbn [feed_loop]. destruct (read_tls c (b :: payload)) as [[k|e] c'] eqn:E; [|by eexists _, _].
  apply read_tls_progress in E; [|done..]. apply IH. rewrite length_drop. cbn [length] in *. lia.
Qed.

(** [k] turns of the loop of [feed_tls], each with its read: the connection and the
    bytes that are left, if the loop has not ended by then. *)
Fixpoint feed_turns (k : nat) (c : connection) (payload : list byte) : option (connection * list byte) :=
  match k, payload with
  | O, _ => Some (c, payload)
  | S _, [] => None
  | S k, _ => match read_tls c payload with (Err _, _) => None | (Ok n, c) => feed_turns k c (drop n payload) end
  end.

(** After any number of turns the same bytes are left: the loop never ends. *)
Definition turns_for_ever (c : connection) (payload : list byte) : Prop :=
  payload ≠ [] ∧ ∀ k, ∃ c', feed_turns k c payload = Some (c', payload).

Lemma closed_turns_for_ever c b rest : Is_true (peer_closed c) → turns_for_ever c (b :: rest).
Proof.
  intros Hc%Is_true_eq_true. split; [done|]. intros k. revert c Hc. induction k as [|k IH]; intros c Hc; [by eexists|].
  cbn [feed_turns]. destruct (read_tls_closed c (b :: rest) Hc) as (c' & -> & Hc'). rewrite drop_0. by apply IH.
Qed.

Lemma keeps_messages fuel : keeps tls (read_messages fuel).
Proof. induction fuel as [|fuel IH]; cbn [read_messages]; keep; apply IH. Qed.

Lemma keeps_read : keeps tls read_control_messages.
Proof. keep; apply keeps_messages. Qed.

Lemma feed_tls_good n s0 s payload : good n s0 s → wps (feed_tls payload) s (λ _, good n s0).
Proof.
  intros Hg. unfold feed_tls. apply wps_get. destruct (tls s) as [c|]; [|by apply wps_ret].
  destruct (feed_loop_total (length payload) c payload ltac:(done)) as (r & c1 & ->). apply wps_lift, wps_put.
  apply wps_bind, wps_answer. destruct r; [|eauto with session]. destruct (plaintext c1) as [received c2]. apply wps_put.
  set (s2 := with_tls _ _). assert (good n s0 s2 ∧ is_Some (tls s2)) as [Hg2 Ht2] by (unfold s2; eauto with session).
  apply wps_bind, wps_mono with (Q := λ _ s', good n s0 s' ∧ is_Some (tls s')).
  { destruct received as [|b received]; [by apply wps_ret|]. apply wps_put.
    set (s3 := with_control_messages _ _). assert (good n s0 s3 ∧ is_Some (tls s3)) as [Hg3 Ht3] by (unfold s3; eauto with session).
    destruct (read_control_messages_good n s0 s3 Hg3 Ht3) as (r & s' & Hrun & Hg'). exists r, s'. split; [done|].
    split; [done|]. by rewrite (keeps_read s3 r s' Hrun). }
  intros [[]|e] s' [Hg' Ht']; [|done]. apply wps_get. destruct (_ && _); [by apply send_key_material_good|by apply wps_ret].
Qed.

Lemma begin_tls_good n s0 s : good n s0 s → wps begin_tls s (λ _, good n s0).
Proof.
  intros Hg. unfold begin_tls. apply wps_get. destruct (tls s); [by apply wps_ret|]. apply wps_get.
  apply wps_bind, wps_check. destruct (new_connection _) as [c|e]; [|done]. apply wps_last_put. eauto with session.
Qed.

Lemma renegotiate_good n s0 s key : good n s0 s → 0 <= key < 8 → wps (renegotiate key) s (λ _, good n s0).
Proof.
  intros Hg Hk. unfold renegotiate. apply wps_get. destruct (key =? _); [by apply wps_ret|]. apply wps_put.
  assert (good n s0 (with_control s (rekey (control s) key))) as Hg1.
  { pose proof Hg as [[] _]. destruct (rekey_runs (control s) key) as [Hc Hr]; [done..|].
    apply good_control; [done|done|]. by rewrite Hr. }
  next ltac:(apply on_control_good; [exact Hg1|]; intros; by apply send_runs). apply wps_put.
  set (s2 := with_control_messages _ _).
  assert (good n s0 s2) as Hg2 by (destruct Hnext as [[] Hset]; split; [by split|exact Hset]).
  apply wps_bind, wps_asks. intros source h _. apply wps_put. apply begin_tls_good. eauto with session.
Qed.

End handshake.

(** ** Packets *)

(** A data packet that the CBC arm of [open] does not survive. *)
Definition short_v2 (packet : list byte) : Prop := zlen packet < 4 ∧ Z.shiftr (nz packet 0) 3 = P_DATA_V2.

Section packets.
Context `{!Primitives, !PrimitiveLaws, !Tls, !TlsLaws, !Host}.

Lemma open_keeps c packet r c' : OvpnCrypto.open c packet = Ret (r, c') → ∃ w, c' = with_replay c w.
Proof.
  assert (∃ w, c = with_replay c w) as Hid by (exists (replay c); by destruct c).
  destruct packet as [|first rest]; [by intros [= _ <-]|]. unfold OvpnCrypto.open.
  destruct (negb _ && negb _); [by intros [= _ <-]|]. cbv zeta.
  destruct (match open_with c with Aead _ _ _ => _ | Cbc _ _ _ => _ end) as [[[id body]|e]|]; cbn [mbind run_bind]; [|by intros [= _ <-]|done].
  destruct (Window.accept _ _) as [[] w]; cbn [negb]; [case_bool_decide|]; intros [= _ <-]; by eexists.
Qed.

Lemma uses_replay p c w : uses p c → uses p (with_replay c w).
Proof. intros ([] & Hp & Hm). split_and!; [by split|done|exact Hm]. Qed.

Lemma open_first_good key packet live :
  ¬ short_v2 packet →
  ∃ r live', open_first key packet live = Ret (r, live') ∧ key_id <$> live' = key_id <$> live ∧
    ∀ p, Forall (uses p) live → Forall (uses p) live'.
Proof.
  intros Hq. induction live as [|c live IH]; [by eexists _, []|]. cbn [open_first]. destruct (key_id c =? key).
  - destruct (OvpnCrypto.open c packet) as [[r c']|] eqn:E.
    + apply open_keeps in E as [w ->]. eexists _, _. split_and!; [done|done|].
      intros p [Hc Hl]%Forall_cons. apply Forall_cons. split; [by apply uses_replay|done].
    + exfalso. eapply data_open_total; [|exact E]. intros _ Hl Hop. by apply Hq.
  - destruct IH as (r & live' & -> & Hk & Hu). eexists _, _. split_and!; [done| |].
    + change (key_id c :: (key_id <$> live') = key_id c :: (key_id <$> live)). by rewrite Hk.
    + intros p [Hc Hl]%Forall_cons. apply Forall_cons. auto.
Qed.

(** Generations that moved on, but are the same generations. *)
Lemma good_channels n s0 s live :
  good n s0 s → key_id <$> live = key_id <$> channels s →
  (∀ p, Forall (uses p) (channels s) → Forall (uses p) live) → good n s0 (with_channels s live).
Proof.
  intros [[] Hset] Hk Hu. split; [|exact Hset]. assert (length live = length (channels s)) as Hl.
  { apply (f_equal length) in Hk. by rewrite !length_fmap in Hk. }
  split; try done.
  - cbn. rewrite <-sw_up0, <-!length_zero_iff_nil, Hl. done.
  - intros p Hp. apply Hu. by apply sw_uses0.
  - cbn. by rewrite Hk.
  - cbn. by rewrite Hl.
Qed.

Lemma open_data_good n s0 s packet :
  good n s0 s → packet ≠ [] → ¬ short_v2 packet → wps (open_data packet) s (λ _, good n s0).
Proof.
  intros Hg Hne Hq. unfold wps, open_data. destruct packet as [|first rest]; [done|].
  change (idx (first :: rest) 0) with (Ret first). cbn [mbind run_bind].
  destruct (open_first_good (Z.land (b2z first) 7) (first :: rest) (channels s) Hq) as (r & live & -> & Hk & Hu).
  eexists _, _. split; [done|]. by apply good_channels.
Qed.

Lemma receive_control_good n s0 s packet :
  good n s0 s → n < u32_max →
  wps (receive_control packet) s (λ r s', good (n + 1) s0 s' ∧ ∀ k, r = Ok (SoftReset k) → 0 <= k < 8).
Proof.
  intros Hg Hn. unfold receive_control. apply wps_bind, wps_asks. intros clock h _.
  assert (good n s0 (with_world s h)) as Hg' by eauto with session. pose proof Hg' as [[] _].
  destruct (receive_runs (control (with_world s h)) packet (clock 0%nat).1) as (r & c' & Hrun & Hc & _ & _ & Hr & _ & Hk);
    [done|lia|]. unfold wps, call. rewrite Hrun. eexists _, _. split; [done|].
  split; [|by intros k ?%failing_ok; apply Hk]. apply good_control; [eapply good_more; [exact Hg'|lia]|done|].
  assert (room (control s) <= n) by done. change (control (with_world s h)) with (control s) in Hr. lia.
Qed.

Lemma step_good n s0 s packet :
  good n s0 s → n < u32_max → ¬ short_v2 packet → wps (step packet) s (λ _, good (n + 1) s0).
Proof.
  intros Hg Hn Hq. assert (good (n + 1) s0 s) as Hg' by (eapply good_more; [done|lia]).
  unfold step. apply wps_bind, wps_check. destruct (opcode_of packet) as [op|] eqn:Eop; [|done]. cbn.
  assert (packet ≠ []) as Hne by by intros ->.
  destruct (is_data op).
  - apply wps_bind. eapply wps_mono; [by apply (open_data_good (n + 1))|].
    intros [[inner|]|e] s' Hs'; [apply wps_last_put; eauto with session|by apply wps_ret|done].
  - apply wps_bind. eapply wps_mono; [by apply (receive_control_good n)|].
    intros [[| |k|payload]|e] s' [Hs' Hk]; [by apply wps_ret|by apply begin_tls_good|
      apply renegotiate_good; [done|by apply Hk]|by apply feed_tls_good|done].
Qed.

Lemma collect_total fuel c out : (backlog c <= fuel)%nat → ∃ r c', collect_tls fuel c out = Ret (r, c').
Proof.
  revert c out. induction fuel as [|fuel IH]; intros c out Hf; cbn [collect_tls];
    destruct (Nat.ltb_spec 0 (backlog c)) as [Hb|Hb]; [lia|by eexists _, _| |by eexists _, _].
  destruct (write_tls c) as [[o|e] c'] eqn:E; [|by eexists _, _].
  apply write_tls_progress in E; [|done]. apply IH. lia.
Qed.

Lemma send_outgoing_good fuel n s0 s :
  (length (outgoing (control s)) <= fuel)%nat → good n s0 s → wps (send_outgoing fuel) s (λ _, good n s0).
Proof.
  revert s. induction fuel as [|fuel IH]; intros s Hf Hg; cbn [send_outgoing]; apply wps_get; unfold take_outgoing.
  - destruct (outgoing (control s)); [by apply wps_ret|cbn in Hf; lia].
  - destruct (outgoing (control s)) as [|packet rest] eqn:E; [by apply wps_ret|]. apply wps_put.
    set (s1 := with_control s _). assert (good n s0 s1) as Hg1.
    { pose proof Hg as [[] _]. apply good_control; [done|by destruct sw_control0|exact sw_room0]. }
    apply wps_bind, wps_asks_result. intros [[]|e] h _; cbn [failing]; [|eauto with session].
    apply IH; [|eauto with session]. cbn in Hf |- *. lia.
Qed.

Lemma flush_good n s0 s : good n s0 s → wps flush s (λ _, good n s0).
Proof.
  intros Hg. unfold flush. apply wps_get.
  apply wps_bind, wps_mono with (Q := λ _, good n s0).
  { destruct (tls s) as [c|]; [|by apply wps_ret].
    destruct (collect_total (backlog c) c [] ltac:(done)) as (r & c' & ->). apply wps_lift, wps_put.
    apply wps_bind, wps_check. destruct r as [[|b out]|e]; cbn [failing]; [apply wps_ret; eauto with session| |eauto with session].
    apply on_control_good; [eauto with session|]. intros; by apply send_tls_runs. }
  intros [[]|e] s' Hs'; [|done]. apply wps_get. next ltac:(by apply send_outgoing_good).
  apply wps_asks_result. eauto with session.
Qed.

End packets.

(** ** Traffic *)

Section traffic.
Context `{!Primitives, !PrimitiveLaws, !Tls, !TlsLaws, !Host}.

(** The network never sends the packet that [short_v2] describes. *)
Context (Hquiet : ∀ h t p h', link_receive h t = (Ok (Some p), h') → ¬ short_v2 p).

Lemma hear_good n s0 s t :
  good n s0 s →
  wps (asks_result (λ h, link_receive h t)) s (λ r s', good n s0 s' ∧ ∀ p, r = Ok (Some p) → ¬ short_v2 p).
Proof.
  intros Hg. apply wps_asks_result. intros r h E. split; [eauto with session|].
  intros p ->%failing_ok. by eapply Hquiet.
Qed.

Lemma absorb_good n s0 s packet :
  good n s0 s → n < u32_max → ¬ short_v2 packet → wps (absorb packet) s (λ _, good (n + 1) s0).
Proof.
  intros Hg Hn Hq. assert (good (n + 1) s0 s) as Hg' by (eapply good_more; [done|lia]).
  unfold absorb. apply wps_bind, wps_check. destruct (opcode_of packet) as [op|] eqn:Eop; [|done]. cbn.
  assert (packet ≠ []) as Hne by by intros ->.
  destruct (is_data op); [by apply open_data_good|].
  next ltac:(by apply (step_good n)). next ltac:(by apply flush_good). by apply wps_ret.
Qed.

Lemma seal_newest_good n s0 s packet : good n s0 s → wps (seal_newest packet) s (λ _, good n s0).
Proof.
  intros Hg. unfold seal_newest. apply wps_get. destruct (last (channels s)) as [c|] eqn:El; [|by apply wps_fails].
  assert (∀ s1 iv, good n s0 s1 → channels s1 = channels s → wps (let '(r, c') := OvpnCrypto.seal c iv packet in
    put (λ s, with_channels s (removelast (channels s1) ++ [c']));; check r) s1 (λ _, good n s0)) as Hseal.
  { intros s1 iv Hg1 Hc. pose proof (seal_moves c iv packet) as [Hmove _].
    destruct (OvpnCrypto.seal c iv packet) as [r c']. cbn [snd] in Hmove. apply wps_put, wps_check.
    rewrite <-Hc in El. apply last_Some in El as [live El]. rewrite El, removelast_last.
    assert (key_id c' = key_id c ∧ ∀ p, uses p c → uses p c') as [Hk Hu].
    { rewrite Hmove. destruct (Z.eqb_spec (next_packet_id c) u32_max); [done|]. split; [done|].
      intros p ([] & Hp & Hm). split_and!; [|done|exact Hm]. split; cbn; [done|done|lia]. }
    apply good_channels; [done|by rewrite El, !fmap_app; cbn; rewrite Hk|].
    intros p. rewrite El, !Forall_app, !Forall_singleton. naive_solver. }
  apply wps_bind, wps_mono with (Q := λ _ s', good n s0 s' ∧ channels s' = channels s).
  { destruct (seal_with c); [by apply wps_ret|]. apply wps_asks. intros. split; [eauto with session|done]. }
  intros [iv|e] s' [Hg' Hc]; [|done]. specialize (Hseal s' iv Hg' Hc). by rewrite Hc in Hseal.
Qed.

Lemma send_good n s0 s packet urgency : good n s0 s → wps (send_inner_with_urgency packet urgency) s (λ _, good n s0).
Proof.
  intros Hg. unfold send_inner_with_urgency. next ltac:(by apply seal_newest_good). next ltac:(by apply now_good).
  apply wps_put, wps_asks_result. eauto with session.
Qed.

Lemma keepalive_good n s0 s : good n s0 s → wps keepalive s (λ _, good n s0).
Proof.
  intros Hg. unfold keepalive. apply wps_get. destruct (pushed s ≫= keepalive_every); [|by apply wps_ret].
  next ltac:(by apply now_good). apply wps_get. destruct (_ <? _); [by apply wps_ret|].
  next ltac:(by apply seal_newest_good). next ltac:(by apply now_good). apply wps_put, wps_asks_result. eauto with session.
Qed.

Lemma resend_good n s0 s t : good n s0 s → good n s0 (with_control s (resend_stale (control s) t)).
Proof.
  intros Hg. pose proof Hg as [[] _]. destruct (resend_runs (control s) t) as (Hc & Hr & _); [done|].
  apply good_control; [done|done|]. by rewrite Hr.
Qed.

Lemma burst_good fuel n s0 s packets :
  good n s0 s → n + Z.of_nat fuel < u32_max → wps (receive_burst fuel packets) s (λ _, good (n + Z.of_nat fuel) s0).
Proof.
  revert n s packets. induction fuel as [|fuel IH]; intros n s packets Hg Hn; cbn [receive_burst].
  { apply wps_ret. eapply good_more; [done|lia]. }
  apply wps_bind. eapply wps_mono; [by apply (hear_good n)|]. intros [[p|]|e] s' [Hg' Hp].
  - apply wps_bind. eapply wps_mono; [apply (absorb_good n); [done|lia|by apply Hp]|].
    intros [inner|e] s2 Hg2; [|eapply good_more; [done|lia]].
    replace (n + Z.of_nat (S fuel)) with (n + 1 + Z.of_nat fuel) by lia. apply IH; [done|lia].
  - apply wps_ret. eapply good_more; [done|lia].
  - eapply good_more; [done|lia].
Qed.

Lemma loop_good fuel n s0 s deadline packets :
  good n s0 s → n + Z.of_nat fuel < u32_max →
  wps (receive_loop fuel deadline packets) s (λ _, good (n + Z.of_nat fuel) s0).
Proof.
  revert n s packets. induction fuel as [|fuel IH]; intros n s packets Hg Hn; cbn [receive_loop].
  { apply wps_ret. eapply good_more; [done|lia]. }
  assert (∀ s', good n s0 s' → good (n + Z.of_nat (S fuel)) s0 s') as Hlater by (intros; eapply good_more; [done|lia]).
  assert (∀ s' packets, good n s0 s' → wps (receive_loop fuel deadline packets) s' (λ _, good (n + Z.of_nat (S fuel)) s0)) as Hagain.
  { intros s' l Hs'. eapply wps_mono; [apply (IH n); [done|lia]|]. intros r s'' Hr. eapply good_more; [exact Hr|lia]. }
  apply wps_bind. eapply wps_mono; [by apply keepalive_good|]. intros [[]|e] s1 Hg1; [|auto].
  apply wps_bind. eapply wps_mono; [by apply (now_good n s0)|]. intros [t1|e] s2 Hg2; [|auto]. apply wps_put.
  apply wps_bind. eapply wps_mono; [by apply (flush_good n s0), resend_good|]. intros [[]|e] s3 Hg3; [|auto].
  apply wps_bind. eapply wps_mono; [by apply (now_good n s0)|]. intros [t2|e] s4 Hg4; [|auto].
  destruct (_ =? 0); [apply wps_ret; auto|].
  apply wps_bind. eapply wps_mono; [by apply (hear_good n)|]. intros [[p|]|e] s5 [Hg5 Hp]; [| |auto].
  - apply wps_bind. eapply wps_mono; [by apply (now_good n s0)|]. intros [t3|e] s6 Hg6; [|auto]. apply wps_put.
    replace (n + Z.of_nat (S fuel)) with (n + 1 + Z.of_nat fuel) by lia.
    apply wps_bind. eapply wps_mono; [apply (absorb_good n s0); [by apply good_heard|lia|by apply Hp]|].
    intros [[inner|]|e] s7 Hg7; [apply burst_good; [done|lia]|apply IH; [done|lia]|eapply good_more; [done|lia]].
  - destruct packets; [by apply Hagain|]. apply wps_ret. auto.
Qed.

Lemma receive_good fuel n s0 s timeout :
  good n s0 s → n + Z.of_nat fuel < u32_max → wps (receive_inner fuel timeout) s (λ _, good (n + Z.of_nat fuel) s0).
Proof.
  intros Hg Hn. unfold receive_inner. apply wps_bind. eapply wps_mono; [by apply (now_good n s0)|].
  intros [t|e] s1 Hg1; [|eapply good_more; [done|lia]]. apply wps_get, wps_put. apply loop_good; [by apply good_inbound|done].
Qed.

(** ** Setup *)

Lemma request_good n s0 s : good n s0 s → wps request_push s (λ _, good n s0).
Proof.
  intros Hg. unfold request_push. apply wps_get. change (id s) with s.
  destruct (server_material s) eqn:Em; [|by apply wps_ret]. cbn [negb orb].
  case_bool_decide; [by apply wps_ret|].
  assert (∀ s', good n s0 s' ∧ server_material s' = true →
    wps (t ← now; put (λ s, with_last_push_request s (Some t));;
        write_to_tls (str "PUSH_REQUEST" ++ [x00]) (str "could not ask the OpenVPN server for its settings: ")) s' (λ _, good n s0)) as Hask.
  { intros s' [Hg' Hm]. unfold now. apply wps_bind, wps_bind, wps_asks. intros clock h _. apply wps_ret, wps_put.
    eapply wps_mono; [apply (write_to_tls_good n s0); [eauto with session|]|by intros ? ? [? _]].
    apply Hg'. done. }
  destruct (last_push_request s) as [last|].
  - unfold now at 1. apply wps_bind, wps_bind, wps_bind, wps_asks. intros clock h _. apply wps_ret, wps_ret.
    destruct (negb _); [apply wps_ret; eauto with session|]. apply Hask. split; [eauto with session|done].
  - by apply Hask.
Qed.

Lemma silence_good n s0 s : good n s0 s → wps check_silence s (λ _, good n s0).
Proof.
  intros Hg. unfold check_silence. next ltac:(by apply now_good). apply wps_get.
  destruct (_ <? _); [by apply wps_ret|]. case_bool_decide; by apply wps_fails.
Qed.

Lemma setup_turn_good n s0 s : good n s0 s → n < u32_max → wps setup_turn s (λ _, good (n + 1) s0).
Proof.
  intros Hg Hn. unfold setup_turn. assert (good (n + 1) s0 s) as Hg' by (eapply good_more; [done|lia]).
  apply wps_bind. eapply wps_mono; [by apply (hear_good n)|]. intros [packet|e] s1 [Hg1 Hp]; [|eapply good_more; [done|lia]].
  apply wps_bind, wps_mono with (Q := λ _, good (n + 1) s0).
  { destruct packet as [packet|]; [|apply wps_ret; eapply good_more; [done|lia]].
    apply wps_bind. eapply wps_mono; [by apply (now_good n s0)|]. intros [t|e] s2 Hg2; [|eapply good_more; [done|lia]].
    apply wps_put. apply step_good; [by apply good_heard|done|by apply Hp]. }
  intros [[]|e] s2 Hg2; [|done]. next ltac:(by apply now_good). apply wps_put.
  next ltac:(by apply request_good, resend_good). next ltac:(by apply flush_good). by apply silence_good.
Qed.

Lemma run_setup_good fuel n s0 s started :
  good n s0 s → n + Z.of_nat fuel < u32_max →
  wps (run_setup fuel started) s (λ r s', good (n + Z.of_nat fuel) s0 s' ∧ (r = Ok (Some ()) → is_Some (pushed s'))).
Proof.
  revert n s. induction fuel as [|fuel IH]; intros n s Hg Hn; cbn [run_setup].
  { apply wps_ret. split; [eapply good_more; [done|lia]|done]. }
  assert (∀ s', good n s0 s' → good (n + Z.of_nat (S fuel)) s0 s') as Hlater by (intros; eapply good_more; [done|lia]).
  apply wps_bind. eapply wps_mono; [by apply (now_good n s0)|]. intros [t|e] s1 Hg1; [|by split; [auto|]]. apply wps_get.
  change (id s1) with s1. destruct (t <? _); [|apply wps_fails; by split; [auto|]].
  destruct (pushed s1) as [p|] eqn:Ep.
  - apply wps_bind. unfold now. apply wps_bind, wps_asks. intros clock h _. apply wps_ret, wps_put, wps_ret.
    split; [apply Hlater; eauto with session|]. intros _. cbn. by rewrite Ep.
  - replace (n + Z.of_nat (S fuel)) with (n + 1 + Z.of_nat fuel) by lia.
    apply wps_bind. eapply wps_mono; [apply (setup_turn_good n s0); [done|lia]|].
    intros [[]|e] s2 Hg2; [apply IH; [done|lia]|]. split; [eapply good_more; [done|lia]|done].
Qed.

Lemma set_up_good fuel n s0 s started :
  good n s0 s → n + Z.of_nat fuel < u32_max →
  wps (set_up fuel started) s (λ r s', good (n + Z.of_nat fuel) s0 s' ∧ (r = Ok (Some ()) → is_Some (pushed s'))).
Proof.
  intros Hg Hn. unfold set_up.
  apply wps_bind. eapply wps_mono; [apply (on_control_good n s0); [done|]; intros; by apply send_runs|].
  intros [[]|e] s1 Hg1; [|split; [eapply good_more; [done|lia]|done]].
  apply wps_bind. eapply wps_mono; [by apply (flush_good n s0)|].
  intros [[]|e] s2 Hg2; [|split; [eapply good_more; [done|lia]|done]]. by apply run_setup_good.
Qed.

End traffic.

(** ** A session in use *)

Section use.
Context `{!Primitives, !PrimitiveLaws, !Tls, !TlsLaws, !Host, !HostLaws, !Pem}.

Lemma connect_runs fuel h config remote address credentials :
  (∀ h t p h', link_receive h t = (Ok (Some p), h') → ¬ short_v2 p) →
  remotes config ≠ [] → control_auth_wf (control_auth config) → Z.of_nat fuel < u32_max →
  ∃ r h', connect fuel h config remote address credentials = Ret (r, h') ∧
    ∀ s, r = Ok (Some s) → session_wf (Z.of_nat fuel) s ∧ is_Some (pushed s).
Proof.
  intros Hquiet Hrem Hauth Hfuel. unfold connect. destruct (_ && _); [by eexists _, _|].
  destruct (build_tls_config config) as [tc|e]; [|by eexists _, _].
  destruct (dial _ _ _ _) as [[[]|e] h1]; [|by eexists _, _].
  destruct (readings h1) as [clock h2]. destruct (random h2 8) as [sid h3] eqn:Er.
  apply random_length in Er.
  destruct (new_control_runs (control_auth config) sid Hauth) as (c & -> & Hc & Hroom); [unfold zlen; by rewrite Er|].
  cbn [mbind run_bind]. destruct (random_source h3) as [source h4]. set (s := mk_session _ _ _ _ _ _ _ _ _ _ _ _ _ _ _ _ _ _ _ _ _).
  assert (session_wf 0 s) as Hs.
  { split; try done; cbn; [by rewrite Hroom|constructor|lia]. }
  destruct (set_up_good Hquiet fuel 0 s s (clock 0%nat).2 (good_refl _ _ Hs)) as (r & s' & Hrun & [Hg _] & Hp); [done|].
  rewrite Hrun. cbn [mbind run_bind]. eexists _, _. split; [done|].
  intros s1. destruct r as [[[]|]|e]; [|done..]. intros [= <-]. split; [exact Hg|by apply Hp].
Qed.

Lemma try_remotes_runs fuel h config credentials l failures :
  (∀ h t p h', link_receive h t = (Ok (Some p), h') → ¬ short_v2 p) →
  remotes config ≠ [] → control_auth_wf (control_auth config) → Z.of_nat fuel < u32_max →
  ∃ r h', try_remotes fuel h config credentials l failures = Ret (r, h') ∧
    ∀ s address, r = Ok (Some (s, address)) → session_wf (Z.of_nat fuel) s ∧ is_Some (pushed s).
Proof.
  intros Hquiet Hrem Hauth Hfuel. revert h failures. induction l as [|remote l IH]; intros h failures; cbn [try_remotes].
  { by eexists _, _. }
  destruct (resolve h remote) as [[address|e] h1]; [|apply IH].
  destruct (connect_runs fuel h1 config remote address credentials Hquiet Hrem Hauth Hfuel) as (r & h2 & -> & Hs).
  cbn [mbind run_bind]. destruct r as [[s|]|[e|c b rest closed]]; [|by eexists _, _|apply IH|by eexists _, _].
  eexists _, _. split; [done|]. intros s' a' [= <- <-]. by apply Hs.
Qed.

(** What a path worker asks of its session. *)
Inductive use : Type :=
| Sends_ (packet : list byte) (urgency : Urgency)
| Receives (fuel : nat) (timeout : Z).

(** How far it got: the calls returned; one of them waits for the network still, after
    its turns; or it is in a loop over these bytes of TLS that does not end. *)
Inductive ending : Type := Returned | Waiting | Hung (c : connection) (payload : list byte).

Definition used (u : use) (s : Session) : run (ending * Session) :=
  match u with
  | Sends_ packet urgency =>
      '(r, s) ← send_inner_with_urgency packet urgency s;
      Ret (match r with Err (Spins c b rest _) => Hung c (b :: rest) | _ => Returned end, s)
  | Receives fuel timeout =>
      '(r, s) ← receive_inner fuel timeout s;
      Ret (match r with Err (Spins c b rest _) => Hung c (b :: rest) | Ok None => Waiting | _ => Returned end, s)
  end.

(** The calls of a worker, one after the other, up to one that has not returned. *)
Fixpoint used_all (l : list use) (s : Session) : run (ending * Session) :=
  match l with
  | [] => Ret (Returned, s)
  | u :: l =>
      '(e, s) ← used u s;
      match e with Returned => used_all l s | _ => Ret (e, s) end
  end.

(** How many packets may be read at most. *)
Definition reads_of (l : list use) : Z :=
  foldr (λ u n, match u with Receives fuel _ => Z.of_nat fuel + n | _ => n end) 0 l.

Lemma reads_nonneg l : 0 <= reads_of l.
Proof. induction l as [|[] l IH]; cbn; unfold reads_of in *; lia. Qed.

Lemma used_all_runs n s0 s l :
  (∀ h t p h', link_receive h t = (Ok (Some p), h') → ¬ short_v2 p) →
  good n s0 s → n + reads_of l < u32_max →
  ∃ e s' n', used_all l s = Ret (e, s') ∧ good n' s0 s' ∧ ∀ c payload, e = Hung c payload → turns_for_ever c payload.
Proof.
  intros Hquiet. revert n s. induction l as [|u l IH]; intros n s Hg Hn; [by exists Returned, s, n|]. cbn [used_all].
  pose proof (reads_nonneg l).
  assert (∃ e s' n', used u s = Ret (e, s') ∧ good n' s0 s' ∧ n' + reads_of l < u32_max ∧
    ∀ c payload, e = Hung c payload → turns_for_ever c payload) as (e & s' & n' & -> & Hg' & Hn' & He).
  { destruct u as [packet urgency|fuel timeout]; cbn [reads_of foldr] in Hn; fold (reads_of l) in Hn; cbn [used].
    - destruct (send_good n s0 s packet urgency Hg) as (r & s' & -> & Hg'). cbn [mbind run_bind]. eexists _, s', n.
      split_and!; [done..|]. intros c payload. destruct r as [[]|[]]; try done. intros [= <- <-]. by apply closed_turns_for_ever.
    - destruct (receive_good Hquiet fuel n s0 s timeout Hg) as (r & s' & -> & Hg'); [lia|]. cbn [mbind run_bind].
      eexists _, s', _. split_and!; [done|exact Hg'|lia|]. intros c payload. destruct r as [[]|[]]; try done.
      intros [= <- <-]. by apply closed_turns_for_ever. }
  cbn [mbind run_bind]. destruct e; [by apply (IH n')|by eexists _, _, _..].
Qed.

(** C12. A node's session survives whatever it is fed: for any configuration file, any
    answers of the network, of TLS and of the server's messages, and any calls made on
    the session that comes up, nothing panics. The loops over what TLS has to send, over
    the messages and over the packets to go out all end, and so does the loop that feeds
    TLS unless the server has closed its side of TLS: then it goes on for ever over
    whatever else the server sends, and takes none of it. The setup and the receiving
    wait for the network in loops of their own, which are followed here for any number
    of turns; that they end is not said. However far it got, the settings that the
    server pushed first stay; there is always a generation of keys to send with and at
    most two to receive with, told apart by their key ids, and each runs the cipher, the
    digest and the peer id pushed. Two things are asked of the network: fewer than 2^32
    packets, and none of the truncated ones that [opening_panics_on_short_cbc_only] is
    about. *)
Theorem session_survives_anything fuel h source credentials l
    (Hquiet : ∀ h t p h', link_receive h t = (Ok (Some p), h') → ¬ short_v2 p)
    (Hlong : Z.of_nat fuel + reads_of l < u32_max) :
  ∃ r h', from_config fuel h source credentials = Ret (r, h') ∧
    (∀ c b rest closed, r = Err (Spins c b rest closed) → turns_for_ever c (b :: rest)) ∧
    ∀ s address, r = Ok (Some (s, address)) →
      ∃ e s' p, used_all l s = Ret (e, s') ∧ (∀ c payload, e = Hung c payload → turns_for_ever c payload) ∧
        pushed s = Some p ∧ pushed s' = Some p ∧
        (1 <= length (channels s') <= 2)%nat ∧ NoDup (key_id <$> channels s') ∧ Forall (uses p) (channels s').
Proof.
  unfold from_config. pose proof (reads_nonneg l).
  destruct (configured source (username credentials)) as [config|e] eqn:Ep; [|by eexists _, _].
  apply configured_parses, parse_effect in Ep as ([[Hrem _] _ _ _ Hauth _ _ _] & _).
  destruct (try_remotes_runs fuel h config credentials (attempts (remotes config)) [] Hquiet Hrem Hauth) as (r & h' & Hrun & Hs); [lia|].
  exists r, h'. split; [done|]. split; [intros c b rest closed _; by apply closed_turns_for_ever|].
  intros s address E. destruct (Hs s address E) as [Hwf [p Hp]].
  destruct (used_all_runs (Z.of_nat fuel) s s l Hquiet (good_refl _ _ Hwf) Hlong) as (e & s' & n' & Hl & [Hg' Hset] & He).
  exists e, s', p. specialize (Hset p Hp). destruct Hg'. split_and!; [done|done|done|done| |done|done|by apply sw_uses0].
  destruct (channels s') eqn:E'; [|cbn; lia]. by rewrite (proj1 sw_up0 eq_refl) in Hset.
Qed.

End use.

(** ** A session over a scripted network *)

Module Scripted.

(** TLS that takes one flight from the server, and then passes bytes on until it is
    told that there will be no more. *)
Record pipe : Type := mk_pipe { to_send : list byte; received : list byte; shaking : bool; closed : bool }.

Definition farewell : list byte := str "close_notify".

#[export] Instance tls : Tls := {|
  tls_configuration := ();
  connection := pipe;
  build_tls_config _ := Ok ();
  new_connection _ := Ok (mk_pipe (str "hello") [] true false);
  read_tls c bytes :=
    if closed c then (Ok 0%nat, c)
    else (Ok (length bytes),
      if shaking c then mk_pipe (to_send c) [] false false
      else if bool_decide (bytes = farewell) then mk_pipe (to_send c) (received c) false true
      else mk_pipe (to_send c) (received c ++ bytes) false false);
  peer_closed := closed;
  plaintext c := (received c, mk_pipe (to_send c) [] (shaking c) (closed c));
  is_handshaking := shaking;
  write_plain c bytes := (Ok (), mk_pipe (to_send c ++ bytes) (received c) (shaking c) (closed c));
  backlog c := match to_send c with [] => 0%nat | _ => 1%nat end;
  write_tls c := (Ok (to_send c), mk_pipe [] (received c) (shaking c) (closed c))
|}.

#[export] Instance tls_laws : TlsLaws.
Proof.
  split; cbn.
  - intros c bytes n c' Hne ->. intros [= <- _]. destruct bytes; [done|cbn; lia].
  - intros c bytes E. exists c. by rewrite E.
  - intros [[] r h k] out c'; cbn; [lia|]. intros _ [= _ <-]. cbn. lia.
Qed.

(** A network that delivers a list of packets, but no truncated one. *)
#[export] Instance host : Host := {|
  OvpnSession.host := list (list byte);
  readings h := (λ _, (0, 0), h);
  random h n := (replicate n x07, h);
  resolve h _ := (Ok [x0a; x00; x00; x01], h);
  dial h _ _ _ := (Ok (), h);
  link_send h _ _ := (Ok (), h);
  link_flush h := (Ok (), h);
  link_receive h _ :=
    match h with
    | [] => (Ok None, [])
    | p :: h => (Ok (if bool_decide (zlen p < 4 ∧ Z.shiftr (nz p 0) 3 = P_DATA_V2) then None else Some p), h)
    end;
  peer_addr _ := None
|}.

#[export] Instance host_laws : HostLaws.
Proof. split. intros h n bytes h' [= <- _]. apply length_replicate. Qed.

Definition file : list byte :=
  join [x0a] [str "remote vpn.example 443 tcp"; str "auth-user-pass"; str "<ca>"; str "certificate"; str "</ca>"].

Definition credentials : Credentials := mk_credentials (Some (str "player")) (Some (str "secret")).

Definition options : list byte := str "V4,cipher AES-256-CBC,auth SHA256" ++ [x00].

(** What the server says inside TLS. *)
Definition answer : list byte :=
  replicate 4 x00 ++ [x02] ++ replicate 64 x05 ++ be_bytes 2 (zlen options) ++ options
  ++ str "PUSH_REPLY,ifconfig 10.8.0.2 255.255.255.0,cipher AES-256-GCM,peer-id 7,ping 10" ++ [x00].

(** The server's control packets: its reset, its flight of TLS and its answer. *)
Definition script_of `{!Primitives} (later : list (list byte)) : list (list byte) :=
  let server := mk_control WrapNone (replicate 8 x09) None 0 0 1 [] [] 0 ∅ [] in
  match (c ← OvpnControl.send server P_CONTROL_HARD_RESET_SERVER_V2 [] 0 0;
         c ← OvpnControl.send c P_CONTROL_V1 (str "flight") 0 0;
         c ← OvpnControl.send c P_CONTROL_V1 answer 0 0;
         foldl (λ c payload, c ← c; OvpnControl.send c P_CONTROL_V1 payload 0 0) (Ret c) later) with
  | Ret c => outgoing c
  | Panic => []
  end.
Definition script `{!Primitives} : list (list byte) := script_of [] ++ [[x48; x00]; [x48; x00; x00; x07]].

End Scripted.

Section witnesses.
#[local] Existing Instances ToyCrypto.primitives ToyCrypto.laws ToyPem.pem.
Import Scripted.

Definition network : @OvpnSession.host Scripted.host := Scripted.script.

(** A server that closes its TLS and then sends one more byte of it: receiving hangs. *)
Lemma closed_tls_hangs :
  match from_config 8 (Scripted.script_of [farewell; [x00]]) Scripted.file Scripted.credentials with
  | Ret (Ok (Some (s, _)), _) =>
      match used_all [Receives 5 (ms 10); Sends_ (str "packet") Realtime] s with
      | Ret (Hung c payload, _) => payload = [x00] ∧ peer_closed c = true
      | _ => False
      end
  | _ => False
  end.
Proof. by vm_compute. Qed.

Definition agreed : Pushed :=
  mk_pushed [x0a; x08; x00; x02] None Aes256Gcm Sha256 (Some 7) (Some (secs 10)).

Lemma network_agrees :
  match from_config 8 network Scripted.file Scripted.credentials with
  | Ret (Ok (Some (s, address)), _) => address = [x0a; x00; x00; x01] ∧ pushed s = Some agreed
  | _ => False
  end.
Proof. by vm_compute. Qed.

Lemma session_survives_anything_witness :
  let l := [Sends_ (str "packet") Realtime; Receives 5 (ms 10)] in
  ∃ e s s' h' p, from_config 8 network Scripted.file Scripted.credentials = Ret (Ok (Some (s, [x0a; x00; x00; x01])), h') ∧
    used_all l s = Ret (e, s') ∧ (∀ c payload, e = Hung c payload → turns_for_ever c payload) ∧
    pushed s = Some p ∧ pushed s' = Some p ∧
    p = agreed ∧ (1 <= length (channels s') <= 2)%nat ∧ NoDup (key_id <$> channels s') ∧ Forall (uses p) (channels s').
Proof.
  intros l.
  assert (∀ h t q h', link_receive h t = (Ok (Some q), h') → ¬ short_v2 q) as Hquiet.
  { intros [|q0 h] t q h'; cbn; [done|]. case_bool_decide as E; [done|]. by intros [= <- _]. }
  destruct (session_survives_anything 8 network Scripted.file Scripted.credentials l Hquiet) as (r & h' & Hrun & _ & Hall);
    [by vm_compute|].
  pose proof network_agrees as Hn. rewrite Hrun in Hn. destruct r as [[[s address]|]|e]; [|destruct Hn..].
  destruct Hn as [-> Hagreed]. destruct (Hall s _ eq_refl) as (e & s' & p & Hl & He & Hp & Hp' & H1 & H2 & H3).
  assert (p = agreed) as Ep by (rewrite Hp in Hagreed; by injection Hagreed).
  exists e, s, s', h', p.
  split_and!; [exact Hrun|exact Hl|exact He|exact Hp|exact Hp'|exact Ep|by apply H1|by apply H1|exact H2|exact H3].
Defined.

End witnesses.
