(* ===== verification/OvpnSettings.v ===== *)
(** * The settings of an OpenVPN session

    What the server says inside TLS, its key material and its messages, is read the
    same however it is cut into pieces, and a push reply is read as the settings
    that were written into it. *)
From S2P Require Import Prelude Text OvpnX509 OvpnConfig OvpnCrypto OvpnControl OvpnLink OvpnSession OvpnSessionSafety.

Section pieces.
Context `{!Primitives, !PrimitiveLaws, !Tls, !Host}.

(** What [feed_tls] does with the bytes that TLS gave it. *)
Definition hear (bytes : list byte) : M () :=
  put (λ s, with_control_messages s (control_messages s ++ bytes));; read_control_messages.

Fixpoint hear_all (pieces : list (list byte)) : M () :=
  match pieces with
  | [] => mret ()
  | piece :: rest => hear piece;; hear_all rest
  end.

(** The messages of a buffer, from [s]. *)
Definition messages (buffer : list byte) (s : Session) : run (result stop () * Session) :=
  read_messages (length buffer) (with_control_messages s buffer).

Lemma read_messages_fuel fuel s :
  (length (control_messages s) <= fuel)%nat → read_messages fuel s = messages (control_messages s) s.
Proof.
  unfold messages. rewrite messages_set.
  assert (∀ fuel1 fuel2 s, (length (control_messages s) <= fuel1)%nat → (length (control_messages s) <= fuel2)%nat →
    read_messages fuel1 s = read_messages fuel2 s) as Hf; [|intros; by apply Hf].
  clear. induction fuel1 as [|f1 IH]; intros [|f2] s Hl1 Hl2; cbn [read_messages]; unfold OvpnSession.get, mbind, M_bind.
  1-3: destruct (control_messages s) as [|b l] eqn:E; [done|cbn in *; lia].
  destruct (split_once x00 (control_messages s)) as [[message rest]|] eqn:E; [|done].
  apply split_once_shorter in E. unfold put. cbv beta iota.
  destruct (handle_message _ _) as [[[[]|e] s2]|] eqn:Eh; [|done..].
  apply blind_keeps in Eh; [|apply handle_message_blind]. apply IH; rewrite Eh; cbn; lia.
Qed.

Lemma messages_eq buffer s :
  messages buffer s =
  match split_once x00 buffer with
  | None => Ret (Ok (), with_control_messages s buffer)
  | Some (message, rest) =>
      match handle_message (from_utf8_lossy message) s with
      | Ret (Ok _, s') => messages rest s'
      | Ret (Err e, s') => Ret (Err e, with_control_messages s' rest)
      | Panic => Panic
      end
  end.
Proof.
  unfold messages at 1. destruct (length buffer) as [|fuel] eqn:El.
  { destruct buffer; [done|cbn in El; lia]. }
  cbn [read_messages]. unfold OvpnSession.get, mbind, M_bind, put. cbn [control_messages with_control_messages].
  destruct (split_once x00 buffer) as [[message rest]|] eqn:E; [|done]. apply split_once_shorter in E.
  change (with_control_messages (with_control_messages s buffer) rest) with (with_control_messages s rest).
  rewrite handle_message_blind. destruct (handle_message _ s) as [[[[]|e] s']|]; cbn [fmap run_fmap fst snd]; [|done..].
  rewrite read_messages_fuel by (cbn; lia). done.
Qed.

Lemma split_once_app c l k message rest :
  split_once c l = Some (message, rest) → split_once c (l ++ k) = Some (message, rest ++ k).
Proof.
  revert message rest. induction l as [|b l IH]; intros message rest E; [done|]. cbn in *.
  case_bool_decide; [by injection E as <- <-|].
  destruct (split_once c l) as [[m' r']|]; [|done]. injection E as <- <-. by rewrite (IH _ _ eq_refl).
Qed.

(** [m] and then [k] from where [m] stopped, as far as it goes without an error. *)
Definition ends (m : run (result stop () * Session)) (s' : Session) : Prop := m = Ret (Ok (), s').

Lemma messages_app a b s s' :
  ends (messages (a ++ b) s) s' ↔ ∃ s1, ends (messages a s) s1 ∧ ends (messages (control_messages s1 ++ b) s1) s'.
Proof.
  remember (length a) as n eqn:Hn. assert (length a <= n)%nat as Hle by lia. clear Hn.
  revert a s Hle. induction n as [|n IH]; intros a s Hle; rewrite (messages_eq a);
    (destruct (split_once x00 a) as [[message rest]|] eqn:E;
      [|split; [intros Hs; eexists; split; [done|exact Hs]|intros (s1 & [= <-] & Hs); exact Hs]]).
  { apply split_once_shorter in E. lia. }
  rewrite messages_eq, (split_once_app _ _ _ _ _ E). apply split_once_shorter in E.
  destruct (handle_message _ s) as [[[[]|e] s2]|]; [apply IH; lia|..]; by split; [|intros (s1 & ? & ?)].
Qed.

Lemma messages_known buffer s s1 :
  server_material s = true → ends (messages buffer s) s1 → server_material s1 = true.
Proof.
  intros Hs E. unfold ends, messages in E.
  assert (keeps server_material (read_messages (length buffer))) as Hk.
  { generalize (length buffer) as fuel. induction fuel as [|fuel IH]; cbn [read_messages]; keep; apply IH. }
  by rewrite (Hk _ _ _ E).
Qed.

(** ** The server's key material *)

Definition bad_header (buffer : list byte) : bool :=
  negb (bool_decide (sub buffer 0 4 = replicate 4 x00)) || negb (nz buffer 4 =? 2).
Definition options_length (buffer : list byte) : Z := nz buffer 69 * 256 + nz buffer 70.

(** The session that the material of a whole buffer makes, and what installing its
    keys comes to; the buffer is left out. *)
Definition accept_material (buffer : list byte) (s : Session) : run (result stop () * Session) :=
  let options := from_utf8_lossy (sub buffer FIXED (FIXED + options_length buffer)) in
  let s := with_server_digest (with_server_cipher s (options_value options (str "cipher")))
             (options_value options (str "auth")) in
  match remote_session_id (control s) with
  | None => Ret (Err (Fails NO_SESSION_ID), s)
  | Some server_sid =>
      m ← derive (key_source s) (sub buffer 5 37) (sub buffer 37 69) (session_id (control s)) server_sid;
      install_keys (with_stage (with_server_material (with_material s (Some m)) true) Push)
  end.

Definition whole (buffer : list byte) : bool :=
  (FIXED <=? zlen buffer) && (FIXED + options_length buffer <=? zlen buffer).

(** [read_control_messages] over a buffer. *)
Definition heard (buffer : list byte) (s : Session) : run (result stop () * Session) :=
  read_control_messages (with_control_messages s buffer).

Lemma heard_known buffer s : server_material s = true → heard buffer s = messages buffer s.
Proof. intros Hs. unfold heard, read_control_messages, mbind, M_bind, OvpnSession.get. cbn. by rewrite Hs. Qed.

Lemma get_bind {A B} (f : Session → A) (k : A → M B) s : (OvpnSession.get f ≫= k) s = k (f s) s.
Proof. done. Qed.

Lemma put_bind {B} (f : Session → Session) (k : () → M B) s : (put f ≫= k) s = k () (f s).
Proof. done. Qed.

Lemma lifted {A} (l : list byte) a b (k : list byte → M A) :
  0 <= a <= b → b <= zlen l → lift (slice l a b) ≫= k = k (sub l a b).
Proof. intros Ha Hb. by rewrite slice_in. Qed.

Lemma byte_at (l : list byte) i : 0 <= i < zlen l → ∃ b, idx l i = Ret b ∧ nz l i = b2z b.
Proof. intros Hi. destruct (get_is_Some l i Hi) as [b E]. exists b. unfold idx, nz. by rewrite E. Qed.

(** The error of a session, or what comes after a success. *)
Definition after {A B} (m : run (result stop A * Session)) (k : Session → run (result stop B * Session))
    (r : run (result stop B * Session)) : Prop :=
  match m with
  | Ret (Ok _, s) => r = k s
  | Ret (Err e, _) => ∃ s, r = Ret (Err e, s)
  | Panic => r = Panic
  end.

Lemma read_new buffer s :
  let s0 := with_control_messages s buffer in
  if zlen buffer <? FIXED then read_server_material s0 = Ret (Ok false, s0)
  else if bad_header buffer then ∃ e, read_server_material s0 = Ret (Err e, s0)
  else if zlen buffer <? FIXED + options_length buffer then read_server_material s0 = Ret (Ok false, s0)
  else after (accept_material buffer s)
         (λ s1, Ret (Ok true, with_control_messages s1 (drop (Z.to_nat (FIXED + options_length buffer)) buffer)))
         (read_server_material s0).
Proof.
  intros s0. unfold read_server_material. rewrite get_bind. change (control_messages s0) with buffer. destruct (Z.ltb_spec (zlen buffer) FIXED) as [Hl|Hl]; [done|].
  assert (71 <= zlen buffer) as Hl' by done. rewrite lifted by lia.
  destruct (byte_at buffer 4) as (method & Eb & En); [lia|]. rewrite Eb.
  destruct (byte_at buffer 69) as (high & Eh & Enh); [lia|]. rewrite Eh.
  destruct (byte_at buffer 70) as (low & Elo & Enl); [lia|]. rewrite Elo.
  change (lift (Ret method) ≫= ?k) with (k method). cbv beta. rewrite <-En. fold (bad_header buffer).
  destruct (bad_header buffer); [by eexists|].
  change (lift (Ret high) ≫= ?k) with (k high). cbv beta. change (lift (Ret low) ≫= ?k) with (k low). cbv beta zeta.
  rewrite <-Enh, <-Enl. fold (options_length buffer).
  assert (0 <= options_length buffer) as Ho by (unfold options_length; rewrite Enh, Enl; pose proof (b2z_range high); pose proof (b2z_range low); lia).
  destruct (Z.ltb_spec (zlen buffer) (FIXED + options_length buffer)) as [Hw|Hw]; [done|]. unfold FIXED in *.
  rewrite !lifted by lia. rewrite put_bind, get_bind. unfold accept_material, FIXED. cbv zeta.
  set (n := 4 + 1 + 32 + 32 + 2 + options_length buffer) in *.
  set (options := from_utf8_lossy _). set (cipher := options_value options (str "cipher")).
  set (auth := options_value options (str "auth")).
  change (remote_session_id (control _)) with (remote_session_id (control s)) at 1.
  change (remote_session_id (control (with_server_digest _ auth))) with (remote_session_id (control s)).
  destruct (remote_session_id (control s)) as [sid|]; [|by eexists]. rewrite get_bind.
  change (key_source (with_server_digest _ auth)) with (key_source s).
  change (session_id (control (with_server_digest _ auth))) with (session_id (control s)).
  destruct (derive _ _ _ _ _) as [m|]; [|done]. cbn [mbind run_bind].
  change (lift (Ret m) ≫= ?k) with (k m). cbv beta. rewrite put_bind.
  set (s1 := with_stage (with_server_material (with_material _ (Some m)) true) Push).
  match goal with |- after _ _ ((install_keys ≫= ?k) ?s2) =>
    change s2 with (with_control_messages s1 (drop (Z.to_nat n) buffer)) end.
  unfold mbind, M_bind. rewrite install_blind. destruct (install_keys s1) as [[[[]|e] s2]|]; [done|by eexists|done].
Qed.

Lemma heard_new buffer s s' :
  server_material s = false →
  ends (heard buffer s) s' ↔
  (FIXED <= zlen buffer → bad_header buffer = false) ∧
  (if whole buffer then
     ∃ s1, ends (accept_material buffer s) s1 ∧
       ends (messages (drop (Z.to_nat (FIXED + options_length buffer)) buffer) s1) s'
   else s' = with_control_messages s buffer).
Proof.
  intros Hs. unfold heard, read_control_messages, whole, ends. rewrite get_bind.
  change (server_material (with_control_messages s buffer)) with (server_material s). rewrite Hs.
  pose proof (read_new buffer s) as Hn. cbv zeta in Hn. unfold mbind at 1, M_bind.
  destruct (Z.ltb_spec (zlen buffer) FIXED) as [Hl|Hl].
  { rewrite Hn, (proj2 (Z.leb_gt _ _) Hl). cbn [andb]. split; [intros [= <-]; split; [lia|done]|by intros [_ ->]]. }
  rewrite (proj2 (Z.leb_le _ _) Hl). cbn [andb].
  destruct (bad_header buffer) eqn:Eb.
  { destruct Hn as [e ->]. split; [done|]. intros [Hb _]. by specialize (Hb Hl). }
  destruct (Z.ltb_spec (zlen buffer) (FIXED + options_length buffer)) as [Hw|Hw].
  { rewrite Hn, (proj2 (Z.leb_gt _ _) Hw). split; [by intros [= <-]|by intros [_ ->]]. }
  rewrite (proj2 (Z.leb_le _ _) Hw).
  destruct (accept_material buffer s) as [[[[]|e] s1]|]; cbn [after] in Hn.
  - rewrite Hn, get_bind. split.
    + intros E. split; [done|]. by exists s1.
    + intros (_ & s2 & [= <-] & E). exact E.
  - destruct Hn as [s2 ->]. split; [done|]. by intros (_ & ? & ? & _).
  - rewrite Hn. split; [done|]. by intros (_ & ? & ? & _).
Qed.

(** What decides about a prefix of a buffer is already in the prefix. *)
Lemma prefix_header a b :
  FIXED <= zlen a →
  bad_header (a ++ b) = bad_header a ∧ options_length (a ++ b) = options_length a.
Proof.
  unfold FIXED. intros Hl. unfold bad_header, options_length, nz.
  rewrite !get_app_l, sub_app_l by lia. done.
Qed.

Lemma accept_prefix a b s : whole a = true → accept_material (a ++ b) s = accept_material a s.
Proof.
  unfold whole. intros [Ha1 Ha2]%andb_true_iff. b2p. destruct (prefix_header a b) as [_ Ho]; [done|].
  unfold accept_material. rewrite Ho. unfold FIXED in *.
  assert (0 <= options_length a). { unfold options_length, nz. pose proof (b2z_range (default x00 (Prelude.get a 69))). pose proof (b2z_range (default x00 (Prelude.get a 70))). lia. }
  by rewrite !sub_app_l by lia.
Qed.

Lemma accept_known buffer s s1 : ends (accept_material buffer s) s1 → server_material s1 = true.
Proof.
  unfold ends, accept_material. cbv zeta. destruct (remote_session_id _); [|done].
  destruct (derive _ _ _ _ _); [|done]. cbn [mbind run_bind]. intros E.
  eapply keeps_install in E; [exact E|done].
Qed.

(** A buffer whose material is incomplete is only kept. *)
Lemma heard_kept a b s s' :
  server_material s = false → whole a = false → (FIXED <= zlen a → bad_header a = false) →
  ends (heard (a ++ b) s) s' ↔ ∃ s1, ends (heard a s) s1 ∧ ends (heard (control_messages s1 ++ b) s1) s'.
Proof.
  intros Es Hw Hb. assert (ends (heard a s) (with_control_messages s a)) as Ha.
  { apply heard_new; [done|]. by rewrite Hw. }
  split.
  - intros E. eexists. split; [exact Ha|exact E].
  - intros (s1 & E1 & E2). unfold ends in Ha, E1. rewrite Ha in E1. injection E1 as <-. exact E2.
Qed.

Lemma heard_app a b s s' :
  ends (heard (a ++ b) s) s' ↔ ∃ s1, ends (heard a s) s1 ∧ ends (heard (control_messages s1 ++ b) s1) s'.
Proof.
  assert (∀ s1, server_material s1 = true →
    ends (heard (control_messages s1 ++ b) s1) s' ↔ ends (messages (control_messages s1 ++ b) s1) s') as Hknown
    by (intros s1 H1'; by rewrite heard_known).
  destruct (server_material s) eqn:Es.
  { rewrite heard_known, messages_app by done.
    split; intros (s1 & Ea & Eb); exists s1; (rewrite heard_known in Ea || rewrite heard_known); try done;
      (split; [done|]); apply Hknown; try done; by eapply messages_known. }
  destruct (whole a) eqn:Ew.
  - pose proof Ew as [Hl Hw]%andb_true_iff. b2p. destruct (prefix_header a b) as [Hbad Hopt]; [done|].
    assert (whole (a ++ b) = true) as Ew'.
    { unfold whole. rewrite Hopt, zlen_app. pose proof (zlen_nonneg b).
      apply andb_true_iff. split; apply Z.leb_le; lia. }
    rewrite (heard_new (a ++ b)), Ew', accept_prefix, Hbad, Hopt by done. rewrite zlen_app. pose proof (zlen_nonneg b).
    assert (0 <= FIXED + options_length a) as Hn.
    { unfold options_length, nz, FIXED. pose proof (b2z_range (default x00 (Prelude.get a 69))).
      pose proof (b2z_range (default x00 (Prelude.get a 70))). lia. }
    rewrite drop_app_le by (unfold zlen in *; lia). split.
    + intros (Hb & s1 & E1 & (s2 & E2 & E3)%messages_app). exists s2. split.
      * apply heard_new; [done|]. rewrite Ew. split; [intros _; apply Hb; lia|]. by exists s1.
      * apply Hknown; [|done]. eapply messages_known; [|exact E2]. by eapply accept_known.
    + intros (s2 & E2 & E3). apply heard_new in E2; [|done]. rewrite Ew in E2. destruct E2 as (Hb & s1 & E1 & E2).
      split; [intros _; by apply Hb|]. exists s1. split; [done|]. apply messages_app. exists s2. split; [done|].
      apply Hknown; [|done]. eapply messages_known; [|exact E2]. by eapply accept_known.
  - destruct (Z.le_gt_cases FIXED (zlen a)) as [Hl|Hl]; [|apply heard_kept; [done|done|lia]].
    destruct (bad_header a) eqn:Eb; [|by apply heard_kept].
    split.
    + intros E. apply heard_new in E as [Hb _]; [|done]. rewrite (proj1 (prefix_header a b Hl)), Eb in Hb.
      rewrite zlen_app in Hb. pose proof (zlen_nonneg b). by specialize (Hb ltac:(lia)).
    + intros (s1 & E & _). apply heard_new in E as [Hb _]; [|done]. rewrite Eb in Hb. by specialize (Hb Hl).
Qed.

Lemma hear_heard bytes s : hear bytes s = heard (control_messages s ++ bytes) s.
Proof. done. Qed.

Lemma hear_all_ends pieces s s' :
  ends (hear_all pieces s) s' ↔
  match pieces with
  | [] => s' = s
  | piece :: rest => ∃ s1, ends (hear piece s) s1 ∧ ends (hear_all rest s1) s'
  end.
Proof.
  unfold ends. destruct pieces as [|piece rest]; cbn [hear_all].
  - split; [by intros [= <-]|by intros ->].
  - unfold mbind, M_bind. destruct (hear piece s) as [[[[]|e] s1]|]; split; [|by intros (? & [= <-] & E)| |by intros (? & ? & _)|done|by intros (? & ? & _)].
    + intros E. by exists s1.
    + done.
Qed.

(** What the server says inside TLS is read the same however TLS and the network
    cut it: reading the whole at once succeeds exactly when reading it piece by piece
    does, and both end in the same session. No piece boundary, inside the key
    material, its options or a message, loses or repeats anything. *)
Theorem answers_are_read_in_any_pieces s pieces s' (Hsome : pieces ≠ []) :
  hear (mjoin pieces) s = Ret (Ok (), s') ↔ hear_all pieces s = Ret (Ok (), s').
Proof.
  revert s. induction pieces as [|piece rest IH]; intros s; [done|].
  fold (ends (hear (mjoin (piece :: rest)) s) s'). fold (ends (hear_all (piece :: rest) s) s').
  rewrite hear_all_ends, hear_heard. change (mjoin (piece :: rest)) with (piece ++ mjoin rest).
  destruct rest as [|piece' rest].
  - change (mjoin []) with (@nil byte). rewrite app_nil_r. split.
    + intros E. exists s'. split; [exact E|]. by apply hear_all_ends.
    + intros (s1 & E & E'). apply (hear_all_ends []) in E' as ->. exact E.
  - rewrite app_assoc, heard_app. specialize (IH ltac:(done)).
    split; intros (s1 & E1 & E2); exists s1; (split; [exact E1|]); apply IH; exact E2.
Qed.

End pieces.

(** ** A push reply *)

(** What a server can push: a setting with its value; one whose value is missing or
    cannot be read; a cipher that this client has not; and some option that is not
    read. *)
Inductive setting : Type :=
| Ifconfig (a mask : list byte)
| RouteGateway (a : list byte)
| CipherIs (c : DataCipher)
| PeerId (n : Z)
| PingEvery (n : Z)
| BadIfconfig (words : list (list byte))
| BadGateway (words : list (list byte))
| BadPeer (words : list (list byte))
| BadPing (words : list (list byte))
| OtherCipher (words : list (list byte))
| Unknown (words : list (list byte)).

Definition keyword (w : list byte) : bool :=
  bool_decide (w ∈ [str "ifconfig"; str "route-gateway"; str "cipher"; str "peer-id"; str "ping"]).

Definition word_wf (w : list byte) : Prop := w ≠ [] ∧ Forall (λ b, graphic b = true ∧ b ≠ x2c) w.

Definition setting_wf (t : setting) : Prop :=
  match t with
  | Ifconfig a mask => length a = 4%nat ∧ length mask = 4%nat
  | RouteGateway a => length a = 4%nat
  | CipherIs _ => True
  | PeerId n => 0 <= n <= u32_max
  | PingEvery n => 0 <= n <= 2 ^ 64 - 1
  | BadIfconfig words | BadGateway words => Forall word_wf words ∧ (head words ≫= parse_ipv4) = None
  | BadPeer words => Forall word_wf words ∧ (head words ≫= parse_unsigned u32_max) = None
  | BadPing words => Forall word_wf words ∧ (head words ≫= parse_unsigned (2 ^ 64 - 1)) = None
  | OtherCipher words => Forall word_wf words ∧ parse_cipher (default [] (head words)) = None
  | Unknown words => Forall word_wf words ∧ ∀ w, head words = Some w → keyword w = false
  end.

Definition words_of (t : setting) : list (list byte) :=
  match t with
  | Ifconfig a mask => [str "ifconfig"; dotted a; dotted mask]
  | RouteGateway a => [str "route-gateway"; dotted a]
  | CipherIs c => [str "cipher"; cipher_name c]
  | PeerId n => [str "peer-id"; Text.number n]
  | PingEvery n => [str "ping"; Text.number n]
  | BadIfconfig words => str "ifconfig" :: words
  | BadGateway words => str "route-gateway" :: words
  | BadPeer words => str "peer-id" :: words
  | BadPing words => str "ping" :: words
  | OtherCipher words => str "cipher" :: words
  | Unknown words => words
  end.

Definition push_text (l : list setting) : list byte := join_with x2c (join_with x20 ∘ words_of <$> l).

(** The last setting of a kind is the one that counts, also when its value cannot be
    read: there is none then. *)
Definition last_of_kind {A} (kind : setting → option (option A)) (l : list setting) : option A :=
  mjoin (last (omap kind l)).

Definition addresses (t : setting) :=
  match t with Ifconfig a _ => Some (Some a) | BadIfconfig _ => Some None | _ => None end.
Definition gateways (t : setting) :=
  match t with RouteGateway a => Some (Some a) | BadGateway _ => Some None | _ => None end.
Definition ciphers_pushed (t : setting) := match t with CipherIs c => Some (Some c) | _ => None end.
Definition peers (t : setting) :=
  match t with PeerId n => Some (Some n) | BadPeer _ => Some None | _ => None end.
Definition pings (t : setting) :=
  match t with PingEvery n => Some (Some (secs n)) | BadPing _ => Some None | _ => None end.

Definition options_of (l : list setting) : Options :=
  mk_options (last_of_kind addresses l) (last_of_kind gateways l) (last_of_kind ciphers_pushed l)
    (last_of_kind peers l) (last_of_kind pings l).

(** The first cipher in the reply that this client has not. *)
Definition cipher_refused (t : setting) : option (list byte) :=
  match t with OtherCipher words => Some (default [] (head words)) | _ => None end.
Definition refused (l : list setting) : option (list byte) := head (omap cipher_refused l).

Definition refusal (name : list byte) : list byte :=
  str "the OpenVPN server uses the `" ++ name ++ str "` cipher, which GamePath does not implement. Ask the provider for a configuration using AES-GCM, CHACHA20-POLY1305 or AES-CBC.".

Lemma dotted_words a : length a = 4%nat → parse_ipv4 (dotted a) = Some a ∧ word_wf (dotted a).
Proof.
  destruct a as [|w [|x [|y [|z [|? ?]]]]]; try done. intros _. split; [apply parse_ipv4_dotted|].
  assert (∀ b, Forall (λ b, graphic b = true ∧ b ≠ x2c) (decimal (b2z b))) as Hd.
  { intros b. apply (bool_decide_unpack (Forall (λ b, graphic b = true ∧ b ≠ x2c) (decimal (b2z b)))).
    destruct b; vm_compute; exact I. }
  rewrite dotted_join. cbn [join_with]. split.
  - by destruct (decimal (b2z w)).
  - repeat first [apply Hd | apply Forall_app; split | apply Forall_cons; split; [done|]].
Qed.

Lemma number_word n : 0 <= n <= 2 ^ 64 - 1 → word_wf (Text.number n).
Proof.
  intros Hn. destruct (number_digits n) as [Hne Hd]; [lia|]. split; [done|].
  eapply Forall_impl; [exact Hd|]. intros b. unfold graphic. by destruct b.
Qed.

Lemma words_wf t : setting_wf t → Forall word_wf (words_of t).
Proof.
  assert (∀ c, word_wf (cipher_name c)) as Hcipher 
    by (intros []; unfold word_wf; apply (bool_decide_unpack _); by vm_compute).
  destruct t as [a mask|a|c|n|n|words|words|words|words|words|words]; cbn [setting_wf words_of]; intros Hwf;
    repeat match goal with |- Forall word_wf (_ :: _) => apply Forall_cons; split | |- Forall word_wf [] => constructor end.
  all: try match goal with |- word_wf (str _) => unfold word_wf; apply (bool_decide_unpack _); by vm_compute end.
  all: match goal with
    | |- word_wf (dotted _) => apply dotted_words; tauto
    | |- word_wf (cipher_name _) => apply Hcipher
    | |- word_wf (Text.number _) => apply number_word; unfold u32_max in Hwf; lia
    | |- _ => by destruct Hwf
    end.
Qed.

Lemma words_read t : setting_wf t → split_whitespace (join_with x20 (words_of t)) = words_of t.
Proof.
  intros Hwf. apply split_words. eapply Forall_impl; [by apply words_wf|].
  intros w [Hne Hw]. split; [done|]. eapply Forall_impl; [exact Hw|]. by intros b [Hb _].
Qed.

Lemma last_of_kind_snoc {A} (kind : setting → option (option A)) l t :
  last_of_kind kind (l ++ [t]) = match kind t with Some v => v | None => last_of_kind kind l end.
Proof.
  unfold last_of_kind. rewrite omap_app. cbn.
  destruct (kind t) as [v|]; [by rewrite last_snoc; destruct v|by rewrite app_nil_r].
Qed.

(** One option: what it sets, unless it names a cipher that this client has not. *)
Lemma push_option_reads o t l :
  setting_wf t → o = options_of l →
  push_option o (join_with x20 (words_of t)) =
  match cipher_refused t with Some name => Err (refusal name) | None => Ok (options_of (l ++ [t])) end.
Proof.
  intros Hwf ->. unfold push_option. rewrite words_read by done. unfold options_of. rewrite !last_of_kind_snoc.
  destruct t as [a mask|a|c|n|n|words|words|words|words|words|words];
    cbn [words_of addresses gateways ciphers_pushed peers pings setting_wf cipher_refused] in *.
  - destruct (dotted_words a) as [Ha _]; [by destruct Hwf|]. cbn. by rewrite Ha.
  - destruct (dotted_words a Hwf) as [Ha _]. cbn. by rewrite Ha.
  - by destruct c.
  - cbn -[parse_unsigned Text.number u32_max]. rewrite parse_number; [done|done|unfold u32_max in Hwf; lia].
  - rewrite !(bool_decide_eq_false_2 (str "ping" = _)) by done. rewrite bool_decide_eq_true_2 by done.
    cbn [head tail]. unfold mbind, option_bind. rewrite parse_number by lia. done.
  - destruct Hwf as [_ Hv], words as [|w words]; [done|]. cbn -[parse_ipv4] in *. by rewrite Hv.
  - destruct Hwf as [_ Hv], words as [|w words]; [done|]. cbn -[parse_ipv4] in *. by rewrite Hv.
  - destruct Hwf as [_ Hv], words as [|w words]; [done|]. cbn -[parse_unsigned u32_max] in *. by rewrite Hv.
  - destruct Hwf as [_ Hv], words as [|w words]; [done|]. cbn -[parse_unsigned Z.pow] in *. by rewrite Hv.
  - destruct Hwf as [_ Hv]. cbn -[parse_cipher] in *. unfold implemented_cipher. by rewrite Hv.
  - destruct words as [|w words]; [done|]. destruct Hwf as [_ Hk]. specialize (Hk w eq_refl).
    apply bool_decide_eq_false in Hk. repeat (rewrite bool_decide_eq_false_2 by (intros ->; apply Hk; set_solver)). done.
Qed.

Lemma push_options_read before l :
  Forall setting_wf l →
  push_options (options_of before) (join_with x20 ∘ words_of <$> l) =
  match refused l with Some name => Err (refusal name) | None => Ok (options_of (before ++ l)) end.
Proof.
  intros Hl. revert before. induction Hl as [|t l Ht _ IH]; intros before; [by rewrite app_nil_r|].
  cbn [fmap list_fmap push_options compose]. rewrite (push_option_reads _ t before Ht eq_refl).
  unfold refused. change (omap cipher_refused (t :: l)) with
    (match cipher_refused t with Some x => x :: omap cipher_refused l | None => omap cipher_refused l end).
  destruct (cipher_refused t); [done|]. cbn [mbind result_bind]. by rewrite IH, <-app_assoc.
Qed.

Lemma joined_words (P : byte → Prop) words :
  P x20 → Forall (λ w, Forall P w) words → Forall P (join_with x20 words).
Proof.
  intros Hs Hw. induction Hw as [|w [|w' words] Hw _ IH]; [constructor|done|].
  change (join_with x20 (w :: w' :: words)) with (w ++ x20 :: join_with x20 (w' :: words)).
  apply Forall_app. split; [done|]. by constructor.
Qed.

Lemma setting_text_clean t : setting_wf t → Forall (λ b, in_range b 32 126 = true ∧ b ≠ x2c) (join_with x20 (words_of t)).
Proof.
  intros Hwf. apply joined_words; [done|]. eapply Forall_impl; [by apply words_wf|].
  intros w [_ Hw]. eapply Forall_impl; [exact Hw|]. intros b [Hb Hc]. split; [|done]. by destruct b.
Qed.

Lemma push_text_split l :
  l ≠ [] → Forall setting_wf l → split_on x2c (push_text l) = join_with x20 ∘ words_of <$> l.
Proof.
  intros Hne Hl. unfold push_text. apply split_join; [by destruct l|]. apply Forall_fmap.
  eapply Forall_impl; [exact Hl|]. intros t Ht Hin. pose proof (setting_text_clean t Ht) as Hc.
  rewrite Forall_forall in Hc. by destruct (Hc _ Hin).
Qed.

Lemma push_text_graphic l : Forall setting_wf l → Forall (λ b, in_range b 32 126 = true) (push_text l).
Proof.
  intros Hl. unfold push_text. induction Hl as [|t [|t' l] Ht _ IH]; [constructor| |].
  - eapply Forall_impl; [by apply setting_text_clean|]. by intros b [].
  - change (join_with x2c (join_with x20 ∘ words_of <$> t :: t' :: l))
      with (join_with x20 (words_of t) ++ x2c :: join_with x2c (join_with x20 ∘ words_of <$> t' :: l)).
    apply Forall_app. split; [|by constructor]. eapply Forall_impl; [by apply setting_text_clean|]. by intros b [].
Qed.

(** ** The first answer of the server *)

(** The settings that a session takes from the server's options and its reply: the
    cipher pushed, else the one its options name, else the file's. *)
Definition chosen (config : OpenVpnConfig) (options : list byte) (l : list setting) : result Error Pushed :=
  _ ← match refused l with Some name => Err (refusal name) | None => Ok () end;
  c ← match last_of_kind ciphers_pushed l, options_value options (str "cipher") with
      | Some c, _ => Ok c
      | None, Some name => match parse_cipher name with Some c => Ok c | None => Err (refusal name) end
      | None, None => Ok (fallback_cipher config)
      end;
  let d := default (digest config) (name ← options_value options (str "auth"); parse_digest name) in
  match last_of_kind addresses l with
  | None => Err NO_ADDRESS
  | Some a => Ok (mk_pushed a (last_of_kind gateways l) c d (last_of_kind peers l) (last_of_kind pings l))
  end.

Section answer.
Context `{!Primitives, !PrimitiveLaws, !Tls, !Host}.

Lemma read_push_chosen s l :
  Forall setting_wf l →
  read_push s (push_text l) =
  (_ ← match refused l with Some name => Err (refusal name) | None => Ok () end;
   c ← match last_of_kind ciphers_pushed l, server_cipher s with
       | Some c, _ => Ok c
       | None, Some name => implemented_cipher name
       | None, None => Ok (fallback_cipher (config s))
       end;
   let d := default (digest (config s)) (name ← server_digest s; parse_digest name) in
   match last_of_kind addresses l with
   | None => Err NO_ADDRESS
   | Some a => Ok (mk_pushed a (last_of_kind gateways l) c d (last_of_kind peers l) (last_of_kind pings l))
   end).
Proof.
  intros Hl. unfold read_push.
  assert (push_options (mk_options None None None None None) (split_on x2c (push_text l)) =
    match refused l with Some name => Err (refusal name) | None => Ok (options_of l) end) as ->; [|by destruct (refused l)].
  destruct (decide (l = [])) as [->|Hne]; [done|]. rewrite push_text_split by done.
  by apply (push_options_read []).
Qed.

(** What the server says first: its key material, its options and the settings. *)
Definition server_answer (random1 random2 options : list byte) (l : list setting) : list byte :=
  replicate 4 x00 ++ [x02] ++ random1 ++ random2 ++ be_bytes 2 (zlen options) ++ options
  ++ str "PUSH_REPLY," ++ push_text l ++ [x00].

Lemma answer_shape random1 random2 options l :
  length random1 = 32%nat → length random2 = 32%nat → zlen options <= u16_max →
  let buffer := server_answer random1 random2 options l in
  zlen buffer = FIXED + zlen options + zlen (str "PUSH_REPLY," ++ push_text l ++ [x00]) ∧
  bad_header buffer = false ∧ options_length buffer = zlen options ∧
  sub buffer 5 37 = random1 ∧ sub buffer 37 69 = random2 ∧
  sub buffer FIXED (FIXED + zlen options) = options ∧
  drop (Z.to_nat (FIXED + zlen options)) buffer = str "PUSH_REPLY," ++ push_text l ++ [x00].
Proof.
  intros Hr1 Hr2 Ho. cbv zeta. set (tail := str "PUSH_REPLY," ++ _). unfold u16_max in Ho.
  unfold server_answer. fold tail.
  assert (zlen random1 = 32 ∧ zlen random2 = 32) as [Z1 Z2] by (unfold zlen; lia).
  set (buffer := replicate 4 x00 ++ [x02] ++ random1 ++ random2 ++ be_bytes 2 (zlen options) ++ options ++ tail).
  change (str "PUSH_REPLY," ++ push_text l ++ [x00]) with tail in buffer |- *.
  pose proof (zlen_nonneg options) as Hpos. unfold FIXED.
  assert (zlen buffer = 71 + zlen options + zlen tail) as Hlen.
  { unfold buffer. rewrite !zlen_app, zlen_be_bytes, Z1, Z2. change (zlen (replicate 4 x00)) with 4. change (zlen [x02]) with 1. lia. }
  split_and!.
  - rewrite Hlen. lia.
  - unfold bad_header. rewrite (sub_eq buffer [] (replicate 4 x00) ([x02] ++ random1 ++ random2 ++ be_bytes 2 (zlen options) ++ options ++ tail)) by done.
    by rewrite bool_decide_true.
  - change (options_length buffer) with (nz16 buffer 69). pose proof (zlen_nonneg tail).
    rewrite nz16_be_Z by lia.
    rewrite (sub_eq buffer (replicate 4 x00 ++ [x02] ++ random1 ++ random2) (be_bytes 2 (zlen options)) (options ++ tail)).
    + rewrite be_Z_be_bytes. apply Z.mod_small. lia.
    + unfold buffer. by rewrite <-!app_assoc.
    + rewrite !zlen_app, Z1, Z2. done.
    + by rewrite zlen_be_bytes.
  - apply (sub_eq _ (replicate 4 x00 ++ [x02]) random1 (random2 ++ be_bytes 2 (zlen options) ++ options ++ tail));
      [unfold buffer; by rewrite <-!app_assoc|done|by rewrite Z1].
  - apply (sub_eq _ (replicate 4 x00 ++ [x02] ++ random1) random2 (be_bytes 2 (zlen options) ++ options ++ tail));
      [unfold buffer; by rewrite <-!app_assoc|by rewrite !zlen_app, Z1|by rewrite Z2].
  - apply (sub_eq _ (replicate 4 x00 ++ [x02] ++ random1 ++ random2 ++ be_bytes 2 (zlen options)) options tail);
      [unfold buffer; by rewrite <-!app_assoc|by rewrite !zlen_app, Z1, Z2, zlen_be_bytes|lia].
  - unfold buffer. rewrite !(app_assoc _ _ tail), <-!app_assoc.
    rewrite (app_assoc (replicate 4 x00)), (app_assoc (replicate 4 x00 ++ _)), (app_assoc (_ ++ random1)),
      (app_assoc (_ ++ random2)), (app_assoc (_ ++ be_bytes 2 _)).
    apply drop_app_length'. apply Nat2Z.inj. rewrite Z2Nat.id by lia. fold (zlen ((((((replicate 4 x00 ++ [x02]) ++ random1) ++ random2) ++ be_bytes 2 (zlen options)) ++ options))).
    rewrite !zlen_app, Z1, Z2, zlen_be_bytes. change (zlen (replicate 4 x00)) with 4. change (zlen [x02]) with 1. lia.
Qed.

Lemma heard_accepted buffer s s1 :
  server_material s = false → FIXED <= zlen buffer → bad_header buffer = false →
  FIXED + options_length buffer <= zlen buffer → accept_material buffer s = Ret (Ok (), s1) →
  heard buffer s = messages (drop (Z.to_nat (FIXED + options_length buffer)) buffer) s1.
Proof.
  intros Hs Hl Hb Hw Ha. pose proof (read_new buffer s) as Hn. cbv zeta in Hn.
  rewrite (proj2 (Z.ltb_ge _ _) Hl), Hb, (proj2 (Z.ltb_ge _ _) Hw), Ha in Hn. cbn [after] in Hn.
  unfold heard, read_control_messages. rewrite get_bind.
  change (server_material (with_control_messages s buffer)) with (server_material s). rewrite Hs.
  unfold mbind at 1, M_bind. rewrite Hn. done.
Qed.

Lemma reply_message s l :
  Forall setting_wf l →
  messages (str "PUSH_REPLY," ++ push_text l ++ [x00]) s =
  match handle_message (str "PUSH_REPLY," ++ push_text l) s with
  | Ret (r, s') => Ret (r, with_control_messages s' [])
  | Panic => Panic
  end.
Proof.
  intros Hl. set (m := str "PUSH_REPLY," ++ push_text l).
  assert (Forall (λ b, in_range b 32 126 = true) m) as Hm.
  { apply Forall_app. split; [apply (bool_decide_unpack _); by vm_compute|by apply push_text_graphic]. }
  rewrite messages_eq. replace (str "PUSH_REPLY," ++ push_text l ++ [x00]) with (m ++ x00 :: []) by (unfold m; by rewrite <-app_assoc).
  rewrite split_once_here.
  2: { intros Hin. rewrite Forall_forall in Hm. by specialize (Hm _ Hin). }
  rewrite lossy_valid.
  2: { apply valid_ascii. eapply Forall_impl; [exact Hm|]. intros b Hb. unfold in_range in Hb. b2p. lia. }
  destruct (handle_message m s) as [[[[]|e] s']|]; [by rewrite messages_eq|done..].
Qed.

(** C23. The first answer of a server brings its session up as the server meant: the
    address, the gateway, the peer id and the keepalive are those of the last such
    setting in its reply, whatever else the reply holds and in whatever order, and
    there is none where that last one has no value or one that cannot be read; the
    cipher is the one pushed, else the one its options string names, else the file's;
    the one generation of keys is derived from both sides' random values and session
    ids. A reply that pushes a cipher this client has not, before or after one that it
    has, is the error that names the first of them; an options string that names one is
    that error too, when the reply pushes none; a reply without an address is an error;
    and each of these leaves the session without settings or keys. *)
Theorem server_settings_are_used s random1 random2 options l sid
    (Hcontrol : control_wf (control s)) (Hsid : remote_session_id (control s) = Some sid)
    (Hfresh : server_material s = false ∧ control_messages s = [] ∧ pushed s = None ∧ channels s = [])
    (Hrandom : length random1 = 32%nat ∧ length random2 = 32%nat) (Hoptions : zlen options <= u16_max)
    (Hl : Forall setting_wf l) :
  match chosen (config s) (from_utf8_lossy options) l with
  | Ok p =>
      ∃ s' material c, hear (server_answer random1 random2 options l) s = Ret (Ok (), s') ∧
        derive (key_source s) random1 random2 (session_id (control s)) sid = Ret material ∧
        new_channel material (cipher p) (pushed_digest p) (pushed_peer p) (control_key (control s)) = Ret (Ok c) ∧
        pushed s' = Some p ∧ channels s' = [c] ∧ control_messages s' = []
  | Err e =>
      ∃ s', hear (server_answer random1 random2 options l) s = Ret (Err (Fails e), s') ∧
        pushed s' = None ∧ channels s' = []
  end.
Proof.
  destruct Hfresh as (Hsm & Hcm & Hp & Hch). destruct Hrandom as [Hr1 Hr2].
  destruct (answer_shape random1 random2 options l Hr1 Hr2 Hoptions) as (Hlen & Hbad & Hopt & Hs1 & Hs2 & Hso & Hrest).
  set (buffer := server_answer random1 random2 options l) in *.
  pose proof (zlen_nonneg options). pose proof (zlen_nonneg (str "PUSH_REPLY," ++ push_text l ++ [x00])).
  destruct (derive_spec (key_source s) random1 random2 (session_id (control s)) sid) as [Hm Hml].
  set (material := key_expansion _ _ _ _ _) in *. clearbody material.
  (* The session once the material is read: nothing to install yet. *)
  set (opts := from_utf8_lossy options) in *.
  set (s1 := with_stage (with_server_material (with_material (with_server_digest
    (with_server_cipher s (options_value opts (str "cipher"))) (options_value opts (str "auth"))) (Some material)) true) Push).
  assert (accept_material buffer s = Ret (Ok (), s1)) as Hacc.
  { unfold accept_material. rewrite Hopt, Hso, Hs1, Hs2. cbv zeta. fold opts.
    change (remote_session_id (control (with_server_digest _ _))) with (remote_session_id (control s)). rewrite Hsid.
    change (key_source (with_server_digest _ _)) with (key_source s).
    change (session_id (control (with_server_digest _ _))) with (session_id (control s)). rewrite Hm.
    cbn [mbind run_bind]. apply install_idle. by right; left. }
  assert (hear buffer s = messages (str "PUSH_REPLY," ++ push_text l ++ [x00]) s1) as ->.
  { rewrite hear_heard, Hcm. change ([] ++ buffer) with buffer.
    rewrite (heard_accepted buffer s s1) by (done || lia). by rewrite Hopt, Hrest. }
  assert (read_push s1 (push_text l) = chosen (config s) opts l) as Hread by by rewrite read_push_chosen.
  assert (handle_message (str "PUSH_REPLY," ++ push_text l) s1 =
    match read_push s1 (push_text l) with
    | Ok p => install_keys (with_pushed s1 (Some p))
    | Err e => Ret (Err (Fails e), s1)
    end) as Hhandle.
  { unfold handle_message. rewrite strip_prefix_app, get_bind. change (pushed s1) with (pushed s).
    rewrite Hp, get_bind. unfold check, mbind, M_bind. change (id s1) with s1. by destruct (read_push s1 _). }
  rewrite reply_message, Hhandle, Hread by done. destruct (chosen (config s) opts l) as [p|e].
  - assert (control_key (control (with_pushed s1 (Some p))) ∉ key_id <$> channels (with_pushed s1 (Some p))) as Hkey.
    { change (channels (with_pushed s1 (Some p))) with (channels s). rewrite Hch. apply not_elem_of_nil. }
    unfold install_keys. change (OvpnSession.material (with_pushed s1 (Some p))) with (Some material).
    change (pushed (with_pushed s1 (Some p))) with (Some p). change (channels (with_pushed s1 (Some p))) with (channels s).
    rewrite Hch. cbn [existsb]. change (control (with_pushed s1 (Some p))) with (control s).
    destruct (new_channel_spec material (cipher p) (pushed_digest p) (pushed_peer p) (control_key (control s)) Hml)
      as (c & Hnew & _); [by destruct Hcontrol|]. rewrite Hnew. cbn [mbind run_bind app]. change (zlen [c]) with 1.
    by eexists _, material, c.
  - by eexists.
Qed.

End answer.

Module Demo.

(** A session that waits for the server's key material. *)
Definition waiting `{!Primitives} : @Session Scripted.tls Scripted.host :=
  @mk_session Scripted.tls Scripted.host OvpnConfig.Demo.configuration Scripted.credentials Tcp []
    (mk_control WrapNone (replicate 8 x01) (Some (replicate 8 x09)) 0 0 1 [] [] 0 ∅ [])
    (Some (Scripted.mk_pipe [] [] false false)) () KeyExchange
    (mk_source (replicate 48 x02) (replicate 32 x03) (replicate 32 x04))
    None [] None [] false None None None 0 0 None [].

Definition settings : list setting :=
  [PeerId 3; Ifconfig [x0a; x08; x00; x02] [xff; xff; xff; x00]; Unknown [str "explicit-exit-notify"];
   PeerId 4; RouteGateway [x0a; x08; x00; x01]; BadPing [str "soon"]; PingEvery 10].

(** The same with a cipher that is not implemented beside one that is. *)
Definition refused_settings : list setting := settings ++ [CipherIs Aes256Gcm; OtherCipher [str "BF-CBC"]].

Lemma settings_fit : Forall setting_wf refused_settings.
Proof.
  repeat apply Forall_cons_2; [..|constructor]; try done; try (cbn; unfold u32_max; lia).
  all: split; [repeat constructor; done|first [by intros w [= <-]|by vm_compute]].
Qed.

Lemma waiting_control `{!Primitives} : control_wf (control waiting).
Proof. split; cbn; [done|by intros ? [= <-]|lia|unfold u32_max; lia|constructor]. Qed.

End Demo.

Section witnesses.
#[local] Existing Instances ToyCrypto.primitives ToyCrypto.laws.
Import Scripted.

Lemma waiting_hears :
  match hear (mjoin [take 40 answer; take 100 (drop 40 answer); drop 140 answer]) Demo.waiting with
  | Ret (Ok _, s') => is_Some (pushed s')
  | _ => False
  end.
Proof. vm_compute. by eexists. Qed.

Lemma answers_are_read_in_any_pieces_witness :
  let pieces := [take 40 answer; take 100 (drop 40 answer); drop 140 answer] in
  ∃ s', hear (mjoin pieces) Demo.waiting = Ret (Ok (), s') ∧ hear_all pieces Demo.waiting = Ret (Ok (), s') ∧
    is_Some (pushed s').
Proof.
  intros pieces. pose proof waiting_hears as Hw. fold pieces in Hw.
  destruct (hear (mjoin pieces) Demo.waiting) as [[[[]|e] s']|] eqn:E; [|by destruct Hw..].
  exists s'. split; [exact eq_refl|]. split; [|exact Hw].
  exact (proj1 (answers_are_read_in_any_pieces Demo.waiting pieces s' ltac:(done)) E).
Defined.

Lemma server_settings_are_used_witness :
  let options := str "V4,cipher AES-256-CBC,auth SHA512" in
  let p := mk_pushed [x0a; x08; x00; x02] (Some [x0a; x08; x00; x01]) Aes256Cbc Sha512 (Some 4) (Some (secs 10)) in
  (∃ s' material c, hear (server_answer (replicate 32 x05) (replicate 32 x06) options Demo.settings) Demo.waiting = Ret (Ok (), s') ∧
    derive (key_source Demo.waiting) (replicate 32 x05) (replicate 32 x06) (replicate 8 x01) (replicate 8 x09) = Ret material ∧
    new_channel material Aes256Cbc Sha512 (Some 4) 0 = Ret (Ok c) ∧
    pushed s' = Some p ∧ channels s' = [c] ∧ control_messages s' = []) ∧
  ∃ s', hear (server_answer (replicate 32 x05) (replicate 32 x06) options Demo.refused_settings) Demo.waiting
      = Ret (Err (Fails (refusal (str "BF-CBC"))), s') ∧ pushed s' = None ∧ channels s' = [].
Proof.
  intros options p.
  pose proof (λ l, server_settings_are_used Demo.waiting (replicate 32 x05) (replicate 32 x06) options l (replicate 8 x09)
    Demo.waiting_control eq_refl ltac:(done) ltac:(done) ltac:(done)) as Hthm.
  assert (chosen (config Demo.waiting) (from_utf8_lossy options) Demo.settings = Ok p) as Ec by by vm_compute.
  assert (chosen (config Demo.waiting) (from_utf8_lossy options) Demo.refused_settings = Err (refusal (str "BF-CBC")))
    as Er by by vm_compute.
  split.
  - specialize (Hthm Demo.settings). rewrite Ec in Hthm. apply Hthm.
    exact (proj1 (proj1 (Forall_app setting_wf Demo.settings _) Demo.settings_fit)).
  - specialize (Hthm Demo.refused_settings). rewrite Er in Hthm. apply Hthm. exact Demo.settings_fit.
Defined.

End witnesses.
