(* ===== verification/ExitPacket.v ===== *)
(** * The packets the forwarding stack reads and writes itself

    Models [engine/src/tun2socks/packet.rs]: reading the headers of a captured
    packet, and the UDP datagrams, TCP resets and echo replies the stack answers
    with. An [Ipv4Addr] is the list of its octets; lengths go on the wire [as u16],
    which [be_bytes 2] truncates. *)
From S2P Require Import Text SocksWire Prelude Icmp.

Definition PROTOCOL_ICMP : Z := 1.
Definition PROTOCOL_TCP : Z := 6.
Definition PROTOCOL_UDP : Z := 17.
Definition TTL : Z := 64.

Record Ipv4 : Type := mk_ipv4 {
  protocol : Z;
  source : list byte;
  destination : list byte;
  fragmented : bool;
  payload : list byte
}.

(** Every index is below the twenty bytes tested first. *)
Definition parse_ipv4 (packet : list byte) : option Ipv4 :=
  if (zlen packet <? 20) || negb (Z.shiftr (nz packet 0) 4 =? 4) then None else
  let header := Z.land (nz packet 0) 0x0f * 4 in
  let total := nz16 packet 2 in
  if (header <? 20) || (total <? header) || (zlen packet <? total) then None else
  let flags_offset := nz16 packet 6 in
  Some (mk_ipv4 (nz packet 9) (sub packet 12 16) (sub packet 16 20)
          (negb (Z.land flags_offset 0x3fff =? 0)) (sub packet header total)).

Record Udp : Type := mk_udp {
  udp_source : Z;
  udp_destination : Z;
  udp_payload : list byte
}.

Definition parse_udp (segment : list byte) : option Udp :=
  if zlen segment <? 8 then None else
  let length := nz16 segment 4 in
  if (length <? 8) || (zlen segment <? length) then None else
  Some (mk_udp (nz16 segment 0) (nz16 segment 2) (sub segment 8 length)).

Record TcpHead : Type := mk_tcp {
  tcp_source : Z;
  tcp_destination : Z;
  sequence : Z;
  syn : bool;
  ack : bool;
  rst : bool
}.

Definition parse_tcp (segment : list byte) : option TcpHead :=
  if zlen segment <? 20 then None else
  let flags := nz segment 13 in
  Some (mk_tcp (nz16 segment 0) (nz16 segment 2) (be_Z (sub segment 4 8))
          (negb (Z.land flags 0x02 =? 0)) (negb (Z.land flags 0x10 =? 0)) (negb (Z.land flags 0x04 =? 0))).

(** The accumulator is a [u32]: see [sum_fits]. *)
Definition sum (data : list byte) (accumulator : Z) : Z := accumulator + word_sum data.
Definition fold (accumulator : Z) : Z := not16 (fold_carry CARRY_ROUNDS accumulator).

Definition pseudo_header (source destination : list byte) (protocol length : Z) : Z :=
  sum destination (sum source 0) + protocol + length.

Definition ipv4_packet (source destination : list byte) (protocol : Z) (payload : list byte) : list byte :=
  let total := 20 + zlen payload in
  let packet := [x45; x00] ++ be_bytes 2 total ++ [x00; x00; x40; x00; z2b TTL; z2b protocol; x00; x00]
                  ++ source ++ destination in
  paste packet 10 (be_bytes 2 (fold (sum packet 0))) ++ payload.

Definition build_udp (source destination : SocketAddrV4) (payload : list byte) : list byte :=
  let length := 8 + zlen payload in
  let segment := be_bytes 2 (port source) ++ be_bytes 2 (port destination) ++ be_bytes 2 length
                   ++ [x00; x00] ++ payload in
  let checksum := fold (sum segment (pseudo_header (ip source) (ip destination) PROTOCOL_UDP length)) in
  let checksum := if checksum =? 0 then 0xffff else checksum in
  ipv4_packet (ip source) (ip destination) PROTOCOL_UDP (paste segment 6 (be_bytes 2 checksum)).

Definition build_tcp_reset (from to : SocketAddrV4) (acknowledges : Z) : list byte :=
  let segment := be_bytes 2 (port from) ++ be_bytes 2 (port to) ++ be_bytes 4 0 ++ be_bytes 4 acknowledges
                   ++ [x50; x14; x00; x00; x00; x00; x00; x00] in
  let checksum := fold (sum segment (pseudo_header (ip from) (ip to) PROTOCOL_TCP (zlen segment))) in
  ipv4_packet (ip from) (ip to) PROTOCOL_TCP (paste segment 16 (be_bytes 2 checksum)).

Definition is_echo_request (packet : Ipv4) : bool :=
  (protocol packet =? PROTOCOL_ICMP) && (8 <=? zlen (payload packet)) && (nz (payload packet) 0 =? 8).

(** Only asked of an echo request, so the indices are in range. *)
Definition build_echo_reply (request : Ipv4) : list byte :=
  let message := paste (payload request) 0 [x00] in
  let message := paste message 2 [x00; x00] in
  let message := paste message 2 (be_bytes 2 (fold (sum message 0))) in
  ipv4_packet (destination request) (source request) PROTOCOL_ICMP message.

(** ** Checksums *)

Lemma fold_ones s : 0 <= s < 2 ^ 32 → fold s = 65535 - ones s.
Proof.
  intros Hs. unfold fold, not16. rewrite fold_carry_u32 by done.
  assert (0 <= ones s <= 65535); [|by rewrite Z.mod_small by lia].
  unfold ones. destruct (_ =? 0); [lia|]. pose proof (Z.mod_pos_bound (s - 1) 65535). lia.
Qed.

(** The [u32] accumulator never overflows on a datagram. *)
Lemma sum_fits data accumulator :
  0 <= accumulator <= 2 ^ 20 → zlen data <= 65535 → 0 <= sum data accumulator < 2 ^ 31 + 2 ^ 21.
Proof.
  intros Ha Hd. unfold sum. pose proof (word_sum_nonneg data). pose proof (word_sum_bound data).
  change (2 ^ 20) with 1048576 in Ha. change (2 ^ 31 + 2 ^ 21) with 2149580800. lia.
Qed.

Lemma ones_complement s : 0 <= s → ones (s + (65535 - ones s)) = 65535.
Proof.
  intros Hs. symmetry. unfold ones at 2. destruct (Z.eqb_spec s 0) as [->|Hne]; [done|].
  pose proof (Z.mod_pos_bound (s - 1) 65535).
  apply ones_unique; [lia|lia|lia|].
  pose proof (Z.div_mod (s - 1) 65535 ltac:(lia)) as Hdm.
  replace (s + (65535 - ((s - 1) mod 65535 + 1))) with (65535 + (s - 1) / 65535 * 65535) by lia.
  by rewrite Z.mod_add by lia.
Qed.

(** What a receiver checks: with the checksum in its field the sum folds to zero,
    also when a computed zero went out as all ones. *)
Lemma fold_verifies s :
  0 <= s < 2 ^ 32 - 65535 → fold (s + fold s) = 0 ∧ (fold s = 0 → fold (s + 0xffff) = 0).
Proof.
  intros Hs. change (2 ^ 32) with 4294967296 in Hs.
  assert (0 <= ones s <= 65535) as Ho.
  { unfold ones. destruct (_ =? 0); [lia|]. pose proof (Z.mod_pos_bound (s - 1) 65535). lia. }
  rewrite (fold_ones s) by (change (2 ^ 32) with 4294967296; lia). split.
  - rewrite fold_ones, ones_complement by (change (2 ^ 32) with 4294967296; lia). done.
  - intros Hz. rewrite fold_ones by (change (2 ^ 32) with 4294967296; lia).
    assert (ones s = 65535) as E by lia. assert (ones (s + 65535) = 65535); [|lia].
    symmetry. unfold ones in E. destruct (Z.eqb_spec s 0); [done|].
    apply ones_unique; [lia|lia|lia|]. replace (s + 65535) with (s + 1 * 65535) by lia.
    rewrite Z.mod_add by lia. pose proof (Z.div_mod (s - 1) 65535 ltac:(lia)).
    replace s with (65535 + (s - 1) / 65535 * 65535) by lia. by rewrite Z.mod_add by lia.
Qed.

Lemma pseudo_range src dst p length :
  zlen src = 4 → zlen dst = 4 → 0 <= p < 256 → 0 <= length <= 65535 →
  0 <= pseudo_header src dst p length <= 2 ^ 20.
Proof.
  intros Hs Hd Hp Hl. unfold pseudo_header, sum.
  pose proof (word_sum_nonneg src). pose proof (word_sum_bound src).
  pose proof (word_sum_nonneg dst). pose proof (word_sum_bound dst).
  change (2 ^ 20) with 1048576. lia.
Qed.

(** ** Layout *)

Definition ip_head (total protocol : Z) : list byte :=
  [x45; x00] ++ be_bytes 2 total ++ [x00; x00; x40; x00; z2b TTL; z2b protocol].

Lemma ipv4_layout src dst p pl :
  zlen src = 4 → zlen dst = 4 →
  let h := ip_head (20 + zlen pl) p in
  ipv4_packet src dst p pl =
  (h ++ be_bytes 2 (internet_checksum (h ++ [x00; x00] ++ src ++ dst)) ++ src ++ dst) ++ pl.
Proof.
  unfold zlen at 1 2. intros Hs Hd.
  do 4 (destruct src as [|? src]; [simpl in Hs; lia|]). destruct src; [|simpl in Hs; lia].
  do 4 (destruct dst as [|? dst]; [simpl in Hd; lia|]). destruct dst; [|simpl in Hd; lia].
  reflexivity.
Qed.

Lemma built_ipv4 src dst p pl :
  zlen src = 4 → zlen dst = 4 → 0 <= p < 256 → zlen pl <= 65515 →
  parse_ipv4 (ipv4_packet src dst p pl) = Some (mk_ipv4 p src dst false pl) ∧
  internet_checksum (sub (ipv4_packet src dst p pl) 0 20) = 0.
Proof.
  intros Hs Hd Hp Hl. pose proof (zlen_nonneg pl) as Hn. rewrite ipv4_layout by done. cbn zeta.
  set (total := 20 + zlen pl). set (h := ip_head total p). set (c := internet_checksum _).
  set (head := h ++ be_bytes 2 c ++ src ++ dst).
  assert (zlen h = 10) as Hh by done.
  assert (zlen head = 20) as Hhead by (unfold head; rewrite !zlen_app, zlen_be_bytes; lia).
  assert (zlen (head ++ pl) = total) as Hlen by (rewrite zlen_app; lia).
  assert (nz16 (head ++ pl) 2 = total) as Ht.
  { apply (u16_be_bytes _ [x45; x00] ([x00; x00; x40; x00; z2b TTL; z2b p] ++ be_bytes 2 c ++ src ++ dst ++ pl));
      [|done|lia]. unfold head, h, ip_head. by rewrite <-!app_assoc. }
  split.
  - unfold parse_ipv4. rewrite Hlen, Ht.
    change (nz (head ++ pl) 0) with 69. change (nz16 (head ++ pl) 6) with 16384.
    change (nz (head ++ pl) 9) with (b2z (z2b p)). rewrite b2z_z2b, Z.mod_small by lia.
    change (Z.land 69 0x0f * 4) with 20. change (negb (Z.shiftr 69 4 =? 4)) with false.
    change (negb (Z.land 16384 0x3fff =? 0)) with false.
    rewrite (proj2 (Z.ltb_ge total 20)), (Z.ltb_irrefl total) by lia. change (20 <? 20) with false. cbn [orb].
    do 2 f_equal.
    + apply (sub_eq _ (h ++ be_bytes 2 c) src (dst ++ pl)); [unfold head; by rewrite <-!app_assoc|done|lia].
    + apply (sub_eq _ (h ++ be_bytes 2 c ++ src) dst pl); [unfold head; by rewrite <-!app_assoc| |].
      * rewrite !zlen_app, zlen_be_bytes. lia.
      * lia.
    + apply (sub_eq _ head pl []); [by rewrite app_nil_r|lia|lia].
  - rewrite (sub_eq _ [] head pl) by (done || lia). unfold head, c.
    apply checksum_verifies; [by exists 5%nat|]. rewrite zlen_app. lia.
Qed.

(** ** Datagrams *)

(** The segment [build_udp] makes: the ports and length, the checksum it
    computes, the payload. *)
Definition udp_segment (src dst : SocketAddrV4) (checksum : Z) (pl : list byte) : list byte :=
  (be_bytes 2 (port src) ++ be_bytes 2 (port dst) ++ be_bytes 2 (8 + zlen pl)) ++ be_bytes 2 checksum ++ pl.

Definition udp_sum (src dst : SocketAddrV4) (pl : list byte) : Z :=
  sum (udp_segment src dst 0 pl) (pseudo_header (ip src) (ip dst) PROTOCOL_UDP (8 + zlen pl)).

Definition udp_checksum (src dst : SocketAddrV4) (pl : list byte) : Z :=
  let c := fold (udp_sum src dst pl) in if c =? 0 then 0xffff else c.

Lemma build_udp_layout src dst pl :
  build_udp src dst pl =
  ipv4_packet (ip src) (ip dst) PROTOCOL_UDP (udp_segment src dst (udp_checksum src dst pl) pl).
Proof.
  unfold build_udp, udp_checksum, udp_sum. by f_equal.
Qed.

Lemma word_sum_field (a b : list byte) c :
  Nat.Even (length a) → 0 <= c < 65536 →
  word_sum (a ++ be_bytes 2 c ++ b) = word_sum (a ++ be_bytes 2 0 ++ b) + c.
Proof.
  intros Ha Hc. rewrite !(word_sum_app a), !(word_sum_app (be_bytes 2 _)) by (done || by exists 1%nat).
  rewrite !word_sum_be2 by (done || (change (2 ^ 16) with 65536; lia)). lia.
Qed.

Lemma fold_range s : 0 <= fold s < 65536.
Proof. unfold fold, not16. pose proof (Z.mod_pos_bound (fold_carry CARRY_ROUNDS s) 65536). lia. Qed.

(** ** Properties *)

(** A datagram the stack answers with is read back exactly: the addresses, the
    ports and the whole payload, in one unfragmented packet whose header and UDP
    checksums both verify, for any payload an IPv4 datagram can carry. *)
Theorem built_datagram_reads_back src dst pl
  (Hsrc : address_wf src) (Hdst : address_wf dst) (Hl : zlen pl <= 65507) :
  ∃ segment,
    parse_ipv4 (build_udp src dst pl) = Some (mk_ipv4 PROTOCOL_UDP (ip src) (ip dst) false segment) ∧
    parse_udp segment = Some (mk_udp (port src) (port dst) pl) ∧
    internet_checksum (sub (build_udp src dst pl) 0 20) = 0 ∧
    fold (sum segment (pseudo_header (ip src) (ip dst) PROTOCOL_UDP (zlen segment))) = 0 ∧
    nz16 segment 6 <> 0.
Proof.
  destruct Hsrc as [Hs Hsp], Hdst as [Hd Hdp]. pose proof (zlen_nonneg pl) as Hn.
  set (c := udp_checksum src dst pl). exists (udp_segment src dst c pl). rewrite build_udp_layout. fold c.
  set (a := be_bytes 2 (port src) ++ be_bytes 2 (port dst) ++ be_bytes 2 (8 + zlen pl)).
  assert (zlen a = 6) as Ha by done.
  assert (∀ k, zlen (udp_segment src dst k pl) = 8 + zlen pl) as Hlen.
  { intros k. unfold udp_segment. fold a. rewrite !zlen_app, zlen_be_bytes. lia. }
  pose proof (fold_range (udp_sum src dst pl)) as Hr.
  assert (0 < c < 65536) as Hc by (unfold c, udp_checksum; destruct (Z.eqb_spec (fold (udp_sum src dst pl)) 0); lia).
  destruct (built_ipv4 (ip src) (ip dst) PROTOCOL_UDP (udp_segment src dst c pl)) as [Hp Hsum];
    [done|done|done|rewrite Hlen; lia|].
  split; [exact Hp|]. split; [|split; [exact Hsum|]].
  - unfold parse_udp. rewrite Hlen.
    assert (nz16 (udp_segment src dst c pl) 0 = port src) as ->.
    { apply (u16_be_bytes _ [] (be_bytes 2 (port dst) ++ be_bytes 2 (8 + zlen pl) ++ be_bytes 2 c ++ pl)); [|done|done].
      unfold udp_segment. by rewrite <-!app_assoc. }
    assert (nz16 (udp_segment src dst c pl) 2 = port dst) as ->.
    { apply (u16_be_bytes _ (be_bytes 2 (port src)) (be_bytes 2 (8 + zlen pl) ++ be_bytes 2 c ++ pl)); [|done|done].
      unfold udp_segment. by rewrite <-!app_assoc. }
    assert (nz16 (udp_segment src dst c pl) 4 = 8 + zlen pl) as ->.
    { apply (u16_be_bytes _ (be_bytes 2 (port src) ++ be_bytes 2 (port dst)) (be_bytes 2 c ++ pl)); [|done|lia].
      unfold udp_segment. by rewrite <-!app_assoc. }
    rewrite (proj2 (Z.ltb_ge (8 + zlen pl) 8)), Z.ltb_irrefl by lia. cbn [orb]. do 2 f_equal.
    apply (sub_eq _ (a ++ be_bytes 2 c) pl []); [|done|lia].
    unfold udp_segment. fold a. by rewrite app_nil_r, <-app_assoc.
  - rewrite Hlen. set (h := pseudo_header _ _ _ _).
    assert (0 <= h <= 2 ^ 20) as Hh by (apply pseudo_range; [done|done|done|lia]).
    pose proof (sum_fits (udp_segment src dst 0 pl) h Hh ltac:(rewrite Hlen; lia)) as Hf.
    change (2 ^ 31 + 2 ^ 21) with 2149580800 in Hf.
    destruct (fold_verifies (udp_sum src dst pl)) as [Hv Hz].
    { unfold udp_sum. fold h. change (2 ^ 32) with 4294967296. lia. }
    split.
    + assert (sum (udp_segment src dst c pl) h = udp_sum src dst pl + c) as ->.
      { unfold udp_sum, sum. fold h. unfold udp_segment. fold a.
        rewrite (word_sum_field a pl c) by (by exists 3%nat || lia). lia. }
      unfold c, udp_checksum. destruct (Z.eqb_spec (fold (udp_sum src dst pl)) 0); [by apply Hz|done].
    + rewrite (u16_be_bytes _ a pl c); [lia|done|done|lia].
Qed.

Lemma built_datagram_reads_back_witness :
  let src := SocketAddr [x5d; xb8; xd8; x22] 53 in
  let dst := SocketAddr [x0a; xcf; x00; x02] 50000 in
  ∃ segment,
    parse_ipv4 (build_udp src dst (str "answer")) = Some (mk_ipv4 17 (ip src) (ip dst) false segment) ∧
    parse_udp segment = Some (mk_udp 53 50000 (str "answer")) ∧
    internet_checksum (sub (build_udp src dst (str "answer")) 0 20) = 0 ∧
    fold (sum segment (pseudo_header (ip src) (ip dst) 17 (zlen segment))) = 0 ∧
    nz16 segment 6 <> 0.
Proof.
  intros src dst. apply (built_datagram_reads_back src dst (str "answer"));
    [split; [done|cbn; lia]|split; [done|cbn; lia]|vm_compute; discriminate].
Defined.

(** The length field is sixteen bits: an answer longer than a datagram can carry,
    which a DNS stream may deliver, goes out as a packet that holds no datagram. *)
Lemma oversized_answer_is_garbled src dst pl :
  address_wf src → address_wf dst → 65507 < zlen pl <= 65535 →
  ∀ i, parse_ipv4 (build_udp src dst pl) = Some i → parse_udp (payload i) = None.
Proof.
  intros [Hs _] [Hd _] Hl. rewrite build_udp_layout, ipv4_layout by done. cbn zeta.
  set (seg := udp_segment _ _ _ _).
  assert (zlen seg = 8 + zlen pl) as Hseg.
  { unfold seg, udp_segment. rewrite !zlen_app, !zlen_be_bytes. lia. }
  set (total := 20 + zlen seg). set (c := internet_checksum _).
  assert (nz16 ((ip_head total PROTOCOL_UDP ++ be_bytes 2 c ++ ip src ++ ip dst) ++ seg) 2 = total mod 65536) as Ht.
  { unfold ip_head. rewrite (be_bytes_mod 2 total).
    apply (u16_be_bytes _ [x45; x00] ([x00; x00; x40; x00; z2b TTL; z2b PROTOCOL_UDP] ++ be_bytes 2 c ++ ip src ++ ip dst ++ seg));
      [|done|]. { by rewrite <-!app_assoc. }
    apply Z.mod_pos_bound. done. }
  unfold parse_ipv4. rewrite Ht. replace (total mod 65536) with (total - 65536).
  2:{ apply (Z.mod_unique _ _ 1); lia. }
  set (p := (_ ++ seg)). change (nz p 0) with 69. change (Z.land 69 0x0f * 4) with 20.
  destruct (_ || negb _); [done|]. destruct (_ || _ || _); [done|]. intros i [= <-]. cbn [payload].
  unfold parse_udp. rewrite (proj2 (Z.ltb_lt _ 8)); [done|]. unfold zlen, sub. rewrite length_take. lia.
Qed.

(** The reset that refuses a SYN is one: it comes from the address that was
    dialled, goes to the port that dialled it, carries RST and ACK and no SYN,
    acknowledges the sequence number given, and its checksums verify. *)
Theorem built_reset_refuses from to seq
  (Hfrom : address_wf from) (Hto : address_wf to) (Hseq : 0 <= seq < 2 ^ 32) :
  ∃ segment,
    parse_ipv4 (build_tcp_reset from to seq) = Some (mk_ipv4 PROTOCOL_TCP (ip from) (ip to) false segment) ∧
    parse_tcp segment = Some (mk_tcp (port from) (port to) 0 false true true) ∧
    be_Z (sub segment 8 12) = seq ∧
    internet_checksum (sub (build_tcp_reset from to seq) 0 20) = 0 ∧
    fold (sum segment (pseudo_header (ip from) (ip to) PROTOCOL_TCP 20)) = 0.
Proof.
  destruct Hfrom as [Hs Hsp], Hto as [Hd Hdp].
  set (a := be_bytes 2 (port from) ++ be_bytes 2 (port to) ++ be_bytes 4 0 ++ be_bytes 4 seq ++ [x50; x14; x00; x00]).
  set (h := pseudo_header (ip from) (ip to) PROTOCOL_TCP 20).
  set (c := fold (sum (a ++ be_bytes 2 0 ++ [x00; x00]) h)). set (seg := a ++ be_bytes 2 c ++ [x00; x00]).
  assert (build_tcp_reset from to seq = ipv4_packet (ip from) (ip to) PROTOCOL_TCP seg) as -> by reflexivity.
  assert (zlen a = 16) as Ha by done. assert (zlen seg = 20) as Hl by done.
  exists seg. destruct (built_ipv4 (ip from) (ip to) PROTOCOL_TCP seg) as [Hp Hsum]; [done|done|done|rewrite Hl; lia|].
  pose proof (fold_range (sum (a ++ be_bytes 2 0 ++ [x00; x00]) h)) as Hc. fold c in Hc.
  split; [exact Hp|]. split; [|split; [|split; [exact Hsum|]]].
  - unfold parse_tcp. rewrite Hl. change (20 <? 20) with false. cbn match.
    assert (nz16 seg 0 = port from) as ->.
    { eapply (u16_be_bytes _ []); [reflexivity|done|done]. }
    assert (nz16 seg 2 = port to) as ->.
    { eapply (u16_be_bytes _ (be_bytes 2 (port from))); [reflexivity|done|done]. }
    reflexivity.
  - rewrite (sub_eq seg (be_bytes 2 (port from) ++ be_bytes 2 (port to) ++ be_bytes 4 0) (be_bytes 4 seq)
      ([x50; x14; x00; x00] ++ be_bytes 2 c ++ [x00; x00])) by done.
    rewrite be_Z_be_bytes. by apply Z.mod_small.
  - assert (0 <= h <= 2 ^ 20) as Hh by (apply pseudo_range; [done|done|done|lia]).
    pose proof (sum_fits (a ++ be_bytes 2 0 ++ [x00; x00]) h Hh ltac:(done)) as Hf.
    change (2 ^ 31 + 2 ^ 21) with 2149580800 in Hf.
    replace (sum seg h) with (sum (a ++ be_bytes 2 0 ++ [x00; x00]) h + c).
    + apply fold_verifies. change (2 ^ 32) with 4294967296. lia.
    + unfold sum, seg. rewrite (word_sum_field a [x00; x00] c) by (by exists 8%nat || lia). lia.
Qed.

Lemma built_reset_refuses_witness :
  let from := SocketAddr [x5d; xb8; xd8; x22] 443 in
  let to := SocketAddr [x0a; xcf; x00; x02] 50000 in
  ∃ segment,
    parse_ipv4 (build_tcp_reset from to 1001) = Some (mk_ipv4 6 (ip from) (ip to) false segment) ∧
    parse_tcp segment = Some (mk_tcp 443 50000 0 false true true) ∧
    be_Z (sub segment 8 12) = 1001 ∧
    internet_checksum (sub (build_tcp_reset from to 1001) 0 20) = 0 ∧
    fold (sum segment (pseudo_header (ip from) (ip to) 6 20)) = 0.
Proof.
  intros from to. apply (built_reset_refuses from to 1001);
    [split; [done|cbn; lia]|split; [done|cbn; lia]|done].
Defined.
