(* ===== verification/ExitHandshake.v ===== *)
(** * Talking to the exit: the SOCKS5 client handshake and the DNS probe

    Models [engine/src/tun2socks/handshake.rs], a state machine fed bytes as they
    arrive, and [engine/src/tun2socks/probe.rs], the question whose answer proves
    the exit works. Both own no socket. [random] numbers are arguments. A bound
    address is its four or sixteen octets and its port. *)
From S2P Require Import Text Dns SocksWire Prelude.

(** ** Handshake *)

Definition VERSION : Z := 5.
Definition METHOD_USERPASS : Z := 0x02.
Definition AUTH_VERSION : Z := 0x01.

Inductive Command : Type := Connect | UdpAssociate.

(** [self.command as u8]. *)
Definition command_code (c : Command) : Z := match c with Connect => 0x01 | UdpAssociate => 0x03 end.

Inductive Stage : Type := AtMethod | AtAuth | AtReply | Finished.

Inductive Step : Type :=
| Send (bytes : list byte)
| Wait
| Agreed (bound : SocketAddrV4) (leftover : list byte).

Record Handshake : Type := mk_handshake {
  stage : Stage;
  hs_command : Command;
  hs_target : SocketAddrV4;
  hs_credentials : option (list byte * list byte);
  input : list byte
}.

Definition with_stage (h : Handshake) (s : Stage) : Handshake :=
  mk_handshake s (hs_command h) (hs_target h) (hs_credentials h) (input h).
Definition with_input (h : Handshake) (i : list byte) : Handshake :=
  mk_handshake (stage h) (hs_command h) (hs_target h) (hs_credentials h) i.

Definition start (command : Command) (target : SocketAddrV4) (credentials : option (list byte * list byte))
    : Handshake * list byte :=
  let greeting := if bool_decide (is_Some credentials)
                  then [z2b VERSION; z2b 2; z2b METHOD_NONE; z2b METHOD_USERPASS]
                  else [z2b VERSION; z2b 1; z2b METHOD_NONE] in
  (mk_handshake AtMethod command target credentials [], greeting).

(** RFC 1928's reply codes, in words. *)
Definition reply_error (code : Z) : list byte :=
  let reason :=
    if code =? 1 then "general failure"
    else if code =? 2 then "not allowed by its rules"
    else if code =? 3 then "network unreachable"
    else if code =? 4 then "host unreachable"
    else if code =? 5 then "connection refused"
    else if code =? 6 then "TTL expired"
    else if code =? 7 then "command not supported"
    else if code =? 8 then "address type not supported"
    else "an unknown error" in
  str "the SOCKS5 proxy refused the request: " ++ str reason ++ str " (code " ++ number code ++ str ")".

Definition wrong_version (version : Z) : list byte :=
  str "the proxy is not SOCKS5 (it answered version " ++ number version ++ str ")".

Definition request_bytes (h : Handshake) : list byte :=
  [z2b VERSION; z2b (command_code (hs_command h)); x00; z2b ATYP_IPV4]
    ++ ip (hs_target h) ++ be_bytes 2 (port (hs_target h)).

Definition request (h : Handshake) : result (list byte) Step * Handshake :=
  (Ok (Send (request_bytes h)), with_stage h AtReply).

Definition auth_bytes (username password : list byte) : list byte :=
  [z2b AUTH_VERSION; z2b (zlen username)] ++ username ++ [z2b (zlen password)] ++ password.

Definition method (h : Handshake) : result (list byte) Step * Handshake :=
  match input h with
  | version :: method :: rest =>
      if negb (b2z version =? VERSION) then (Err (wrong_version (b2z version)), h) else
      let h := with_input h rest in
      let method := b2z method in
      if method =? METHOD_NONE then request h
      else if method =? METHOD_USERPASS then
        match hs_credentials h with
        | None => (Err (str "the SOCKS5 proxy requires a username and password"), h)
        | Some (username, password) => (Ok (Send (auth_bytes username password)), with_stage h AtAuth)
        end
      else if method =? METHOD_UNACCEPTABLE then
        (Err (str "the SOCKS5 proxy accepted none of the login methods offered"), h)
      else (Err (str "the SOCKS5 proxy asked for login method " ++ number method
                   ++ str ", which GamePath does not support"), h)
  | _ => (Ok Wait, h)
  end.

Definition auth (h : Handshake) : result (list byte) Step * Handshake :=
  match input h with
  | _ :: status :: rest =>
      let h := with_input h rest in
      if negb (b2z status =? 0)
      then (Err (str "the SOCKS5 proxy rejected the username and password"), h)
      else request h
  | _ => (Ok Wait, h)
  end.

(** The end of a reply whose address is [address_length] bytes long; every index
    is below [total], which has arrived. *)
Definition finish_reply (h : Handshake) (address_type address_length : Z) : result (list byte) Step * Handshake :=
  let total := 4 + address_length + 2 in
  if zlen (input h) <? total then (Ok Wait, h) else
  let bound := SocketAddr
    (if (address_type =? ATYP_IPV4) || (address_type =? ATYP_IPV6) then sub (input h) 4 (4 + address_length)
     else [x00; x00; x00; x00])
    (nz16 (input h) (total - 2)) in
  (Ok (Agreed bound (drop (Z.to_nat total) (input h))), with_stage (with_input h []) Finished).

Definition read_reply (h : Handshake) : result (list byte) Step * Handshake :=
  match input h with
  | version :: code :: _ :: address_type :: rest =>
      if negb (b2z version =? VERSION) then (Err (wrong_version (b2z version)), h) else
      if negb (b2z code =? 0) then (Err (reply_error (b2z code)), h) else
      let address_type := b2z address_type in
      if address_type =? ATYP_IPV4 then finish_reply h address_type 4
      else if address_type =? ATYP_IPV6 then finish_reply h address_type 16
      else if address_type =? ATYP_DOMAIN then
        match rest with
        | length :: _ => finish_reply h address_type (1 + b2z length)
        | [] => (Ok Wait, h)
        end
      else (Err (str "the SOCKS5 proxy replied with address type " ++ number address_type), h)
  | _ => (Ok Wait, h)
  end.

Definition receive (h : Handshake) (data : list byte) : result (list byte) Step * Handshake :=
  let h := with_input h (input h ++ data) in
  match stage h with
  | AtMethod => method h
  | AtAuth => auth h
  | AtReply => read_reply h
  | Finished => (Err (str "the SOCKS5 handshake already finished"), h)
  end.

(** ** DnsProbe *)

(** [{:016x}] of a [u64]. *)
Definition hex_char (d : Z) : byte := if d <? 10 then z2b (48 + d) else z2b (87 + d).
Definition hex16 (n : Z) : list byte :=
  mjoin ((λ b, [hex_char (Z.shiftr (b2z b) 4); hex_char (Z.land (b2z b) 15)]) <$> be_bytes 8 n).

Record DnsProbe : Type := mk_probe {
  message : list byte;
  received : list byte;
  probe_id : Z
}.

Definition probe_name (nonce : Z) : list byte := str "gp-" ++ hex16 nonce ++ str ".example.com".

(** [DnsProbe::new] with the two random numbers; [None] is the [expect], which
    never fires: see [new_probe_asks]. *)
Definition new_probe (id nonce : Z) : option DnsProbe :=
  (λ m, mk_probe m [] id) <$> query id (probe_name nonce).

Definition framed (p : DnsProbe) : list byte := be_bytes 2 (zlen (message p)) ++ message p.

(** Every index is below the twelve bytes tested first. *)
Definition answers (p : DnsProbe) (response : list byte) : bool :=
  (12 <=? zlen response)
  && (match verdict response (probe_id p) with
      | Answered => true
      | Refused rcode => rcode =? 3
      | Mismatched => false
      end)
  && (Z.land (nz response 2) 0x7a =? 0)
  && bool_decide (get_range response 4 6 = Some [x00; x01])
  && bool_decide (get_range response 12 (zlen (message p)) = get_range (message p) 12 (zlen (message p))).

Definition probe_receive (p : DnsProbe) (bytes : list byte) : option bool * DnsProbe :=
  if 65535 + 2 <? zlen (received p) + zlen bytes then (Some false, p) else
  let p := mk_probe (message p) (received p ++ bytes) (probe_id p) in
  (prefix ← get_range (received p) 0 2;
   let length := be_Z prefix in
   if length <? 12 then Some false else
   response ← get_range (received p) 2 (2 + length);
   Some (answers p response), p).

(** ** Proofs *)

(** Waiting changes nothing but the input. *)
Lemma receive_wait h a h' : receive h a = (Ok Wait, h') → h' = with_input h (input h ++ a).
Proof.
  unfold receive. set (k := with_input h (input h ++ a)).
  assert (∀ t n, finish_reply k t n = (Ok Wait, h') → h' = k) as Hf.
  { intros t n. unfold finish_reply. destruct (_ <? _); [by intros [= <-]|done]. }
  destruct (stage k).
  - unfold method. destruct (input k) as [|v [|m r]]; [by intros [= <-]..|].
    destruct (negb _); [done|]. destruct (_ =? _); [done|]. destruct (_ =? _); [|by destruct (_ =? _)].
    by destruct (hs_credentials _) as [[u p]|].
  - unfold auth. destruct (input k) as [|v [|m r]]; [by intros [= <-]..|]. by destruct (negb _).
  - unfold read_reply. destruct (input k) as [|v [|c [|z [|t r]]]]; [by intros [= <-]..|].
    destruct (negb _); [done|]. destruct (negb _); [done|].
    destruct (_ =? _); [by apply Hf|]. destruct (_ =? _); [by apply Hf|]. destruct (_ =? _); [|done].
    destruct r; [by intros [= <-]|by apply Hf].
  - done.
Qed.

Lemma receive_more h a b : receive (with_input h (input h ++ a)) b = receive h (a ++ b).
Proof. unfold receive. cbn [input with_input stage hs_command hs_target hs_credentials]. by rewrite app_assoc. Qed.

(** Reads until there is something to do. *)
Fixpoint feed (h : Handshake) (pieces : list (list byte))
    : result (list byte) Step * Handshake * list (list byte) :=
  match pieces with
  | [] => (Ok Wait, h, [])
  | piece :: pieces =>
      match receive h piece with
      | (Ok Wait, h) => feed h pieces
      | (r, h) => (r, h, pieces)
      end
  end.

Lemma feed_joins pieces : ∀ h r h' rest,
  pieces ≠ [] → feed h pieces = (r, h', rest) →
  ∃ used, pieces = used ++ rest ∧ receive h (mjoin used) = (r, h').
Proof.
  induction pieces as [|p pieces IH]; intros h r h' rest Hne Hf; [done|]. cbn [feed] in Hf.
  destruct (receive h p) as [r1 h1] eqn:E.
  assert (r1 = Ok Wait ∨ (r, h', rest) = (r1, h1, pieces)) as [->|[= -> -> ->]].
  { destruct r1 as [[]|]; (by left) || (right; congruence). }
  - pose proof (receive_wait _ _ _ E) as ->. destruct pieces as [|q pieces].
    + injection Hf as <- <- <-. exists [p]. split; [done|]. cbn [mjoin list_join]. by rewrite app_nil_r.
    + apply IH in Hf as (used & Hu & Hr); [|done]. exists (p :: used). split; [by rewrite Hu|].
      rewrite receive_more in Hr. exact Hr.
  - exists [p]. split; [done|]. cbn [mjoin list_join]. by rewrite app_nil_r.
Qed.

Lemma request_reads_back h :
  address_wf (hs_target h) →
  parse_request (request_bytes h)
  = Ret (Done (MkRequest (command_code (hs_command h)) (Ip (hs_target h))) (zlen (request_bytes h))).
Proof.
  intros Hwf. pose proof Hwf as [Hip _]. unfold request_bytes. cbn [app parse_request].
  change (negb (b2z (z2b VERSION) =? SOCKS_VERSION)) with false. cbn match.
  pose proof (address_round_trip (hs_target h) [] Hwf) as Hr. rewrite app_nil_r in Hr. rewrite Hr.
  cbn [mbind run_bind]. do 2 f_equal.
  - f_equal. by destruct (hs_command h).
  - len.
Qed.

Lemma auth_reads_back u p :
  zlen u <= 255 → zlen p <= 255 → valid_utf8 u = true → valid_utf8 p = true →
  parse_user_pass (auth_bytes u p) = Ret (Done (u, p) (zlen (auth_bytes u p))).
Proof.
  intros Hu Hp Vu Vp. pose proof (zlen_nonneg u). pose proof (zlen_nonneg p).
  unfold auth_bytes. cbn [app parse_user_pass].
  change (negb (b2z (z2b AUTH_VERSION) =? USER_PASS_VERSION)) with false. cbn match.
  rewrite !b2z_z2b, (Z.mod_small (zlen u)) by lia.
  set (whole := z2b AUTH_VERSION :: z2b (zlen u) :: u ++ z2b (zlen p) :: p).
  assert (zlen whole = 3 + zlen u + zlen p) as Hl by (unfold whole; len).
  rewrite (get_at whole (z2b AUTH_VERSION :: z2b (zlen u) :: u) (z2b (zlen p)) p) by (done || len).
  rewrite b2z_z2b, (Z.mod_small (zlen p)) by lia.
  rewrite (proj2 (Z.ltb_ge _ _)) by lia.
  rewrite (slice_eq whole [z2b AUTH_VERSION; z2b (zlen u)] u (z2b (zlen p) :: p) 2) by (done || len).
  rewrite (slice_eq whole (z2b AUTH_VERSION :: z2b (zlen u) :: u ++ [z2b (zlen p)]) p []).
  - cbn [mbind run_bind]. rewrite !lossy_valid by done. do 2 f_equal. lia.
  - unfold whole. by rewrite app_nil_r, <-!app_comm_cons, <-app_assoc.
  - len.
  - len.
Qed.

Lemma reply_is_read h bound rest :
  stage h = AtReply → input h = [] → address_wf bound →
  receive h (reply Succeeded bound ++ rest) = (Ok (Agreed bound rest), with_stage (with_input h []) Finished).
Proof.
  intros Hs Hi [Hip Hport]. unfold receive. cbn [stage with_input]. rewrite Hs, Hi, app_nil_l.
  set (m := reply Succeeded bound ++ rest).
  set (k := with_input h m). assert (input k = m) as Hk by done.
  unfold read_reply. rewrite Hk. unfold m at 1, reply. cbn [app].
  change (negb (b2z (z2b SOCKS_VERSION) =? VERSION)) with false.
  change (negb (b2z (z2b (reply_code Succeeded)) =? 0)) with false.
  change (b2z (z2b ATYP_IPV4) =? ATYP_IPV4) with true. cbn match zeta.
  unfold finish_reply. rewrite Hk. change (b2z (z2b ATYP_IPV4) =? ATYP_IPV4) with true. cbn [orb].
  assert (zlen m = 10 + zlen rest) as Hl.
  { unfold m, reply. rewrite !zlen_app, zlen_be_bytes, Hip. change (zlen [_; _; _; _]) with 4. lia. }
  pose proof (zlen_nonneg rest). change (4 + 4 + 2) with 10. change (10 - 2) with 8. change (4 + 4) with 8.
  rewrite (proj2 (Z.ltb_ge (zlen m) 10)) by lia.
  set (v := [z2b SOCKS_VERSION; z2b (reply_code Succeeded); x00; z2b ATYP_IPV4]).
  assert (m = v ++ ip bound ++ be_bytes 2 (port bound) ++ rest) as Em.
  { unfold m, reply. fold v. by rewrite <-!app_assoc. }
  rewrite (sub_eq m v (ip bound) (be_bytes 2 (port bound) ++ rest)) by (done || (rewrite Hip; done)).
  assert (nz16 m 8 = port bound) as ->.
  { rewrite nz16_be_Z by lia.
    rewrite (sub_eq m (v ++ ip bound) (be_bytes 2 (port bound)) rest).
    - rewrite be_Z_be_bytes. by apply Z.mod_small.
    - by rewrite Em, <-app_assoc.
    - rewrite zlen_app, Hip. done.
    - done. }
  do 3 f_equal; [by destruct bound|].
  rewrite Em, !app_assoc. rewrite drop_app_length'; [done|].
  rewrite !length_app, length_be_bytes. unfold zlen in Hip. change (length v) with 4%nat. lia.
Qed.

(** ** Properties *)

(** The handshake reads a proxy's answers the same however they are cut up:
    whatever arrives in whatever pieces, what it decides on is what one read of
    those bytes would have decided, and the pieces after that are left alone. *)
Theorem handshake_reads_any_pieces h pieces r h' rest
  (Hne : pieces <> []) (Hfeed : feed h pieces = (r, h', rest)) :
  ∃ used, pieces = used ++ rest ∧ receive h (mjoin used) = (r, h').
Proof. by apply feed_joins. Qed.

Lemma handshake_reads_any_pieces_witness :
  let h := mk_handshake AtReply Connect (SocketAddr [x5d; xb8; xd8; x22] 443) None [] in
  ∃ h', feed h [[x05; x00; x00; x01; x0a; x00]; [x00; x01; x1f; x90; x68]; [x69]]
        = (Ok (Agreed (SocketAddr [x0a; x00; x00; x01] 8080) [x68]), h', [[x69]]) ∧
  ∃ used, [[x05; x00; x00; x01; x0a; x00]; [x00; x01; x1f; x90; x68]; [x69]] = used ++ [[x69]] ∧
    receive h (mjoin used) = (Ok (Agreed (SocketAddr [x0a; x00; x00; x01] 8080) [x68]), h').
Proof.
  intros h. eexists. split; [vm_compute; reflexivity|].
  apply (handshake_reads_any_pieces h); [done|vm_compute; reflexivity].
Defined.

(** C38. The client half and the server half of this repository's SOCKS5 understand
    each other: the greeting offers what the client can do and nothing else; a
    login is sent only when it is asked for and is read back to the letter; the
    request names the command and the target; and the reply hands the connection
    its bound address and, untouched, every byte that arrived behind it. *)
Theorem client_and_server_agree command target credentials bound rest
  (Htarget : address_wf target) (Hbound : address_wf bound)
  (Hcred : ∀ u p, credentials = Some (u, p) →
     zlen u <= 255 ∧ zlen p <= 255 ∧ valid_utf8 u = true ∧ valid_utf8 p = true) :
  let '(h, greeting) := start command target credentials in
  let asked := Ret (Done (MkRequest (command_code command) (Ip target)) 10) in
  ∃ offered, parse_greeting greeting = Ret (Done offered (zlen greeting)) ∧
    z2b METHOD_NONE ∈ offered ∧ (z2b METHOD_USERPASS ∈ offered ↔ is_Some credentials) ∧
    (∃ q h1, receive h [z2b VERSION; z2b METHOD_NONE] = (Ok (Send q), h1) ∧ parse_request q = asked ∧
       (receive h1 (reply Succeeded bound ++ rest)).1 = Ok (Agreed bound rest)) ∧
    match credentials with
    | None => ∃ e, (receive h [z2b VERSION; z2b METHOD_USERPASS]).1 = Err e
    | Some (u, p) =>
        ∃ a h1, receive h [z2b VERSION; z2b METHOD_USERPASS] = (Ok (Send a), h1) ∧
          parse_user_pass a = Ret (Done (u, p) (zlen a)) ∧
          (∃ e, (receive h1 (user_pass_reply false)).1 = Err e) ∧
          ∃ q h2, receive h1 (user_pass_reply true) = (Ok (Send q), h2) ∧ parse_request q = asked ∧
            (receive h2 (reply Succeeded bound ++ rest)).1 = Ok (Agreed bound rest)
    end.
Proof.
  unfold start. set (h := mk_handshake AtMethod command target credentials []).
  assert (∀ s, parse_request (request_bytes (with_stage (with_input h []) s))
               = Ret (Done (MkRequest (command_code command) (Ip target)) 10)) as Hq.
  { intros s. rewrite (request_reads_back (with_stage (with_input h []) s)) by done. do 2 f_equal.
    destruct Htarget as [Hip _]. unfold request_bytes. rewrite !zlen_app, zlen_be_bytes.
    change (hs_target (with_stage (with_input h []) s)) with target. rewrite Hip. done. }
  assert (∀ s, stage s = AtReply → input s = [] → (receive s (reply Succeeded bound ++ rest)).1 = Ok (Agreed bound rest)) as Hr.
  { intros s Hs Hi. by rewrite reply_is_read. }
  exists (match credentials with Some _ => [z2b METHOD_NONE; z2b METHOD_USERPASS] | None => [z2b METHOD_NONE] end).
  split; [by destruct credentials|]. split; [destruct credentials; apply list_elem_of_here|]. split.
  { destruct credentials; split.
    - by eexists.
    - intros _. apply list_elem_of_further, list_elem_of_here.
    - by intros Hin%list_elem_of_singleton.
    - by intros [? ?]. }
  split.
  { exists (request_bytes (with_input h [])), (with_stage (with_input h []) AtReply).
    split; [done|]. split; [apply (Hq AtMethod)|by apply Hr]. }
  destruct credentials as [[u p]|]; [|by eexists].
  destruct (Hcred u p eq_refl) as (Hu & Hp & Vu & Vp).
  exists (auth_bytes u p), (with_stage (with_input h []) AtAuth). split; [done|].
  split; [by apply auth_reads_back|]. split; [by eexists|].
  exists (request_bytes (with_stage (with_input h []) AtAuth)), (with_stage (with_input h []) AtReply).
  split; [done|]. split; [apply (Hq AtAuth)|by apply Hr].
Qed.

Lemma client_and_server_agree_witness :
  let target := SocketAddr [x5d; xb8; xd8; x22] 443 in
  let bound := SocketAddr [x0a; x00; x00; x01] 8080 in
  ∃ q h1, receive (start Connect target (Some (str "user", str "pass"))).1 [z2b 5; z2b 0] = (Ok (Send q), h1) ∧
    parse_request q = Ret (Done (MkRequest 1 (Ip target)) 10) ∧
    (receive h1 (reply Succeeded bound ++ str "hi")).1 = Ok (Agreed bound (str "hi")).
Proof.
  intros target bound.
  pose proof (client_and_server_agree Connect target (Some (str "user", str "pass")) bound (str "hi")) as Hx.
  cbn zeta in Hx. destruct Hx as (offered & _ & _ & _ & Hq & _); [split; [done|cbn; lia]|split; [done|cbn; lia]| |exact Hq].
  intros u p [= <- <-]. by vm_compute.
Defined.

(** ** The probe *)

Lemma get_range_app {A} (l k : list A) a b s : get_range l a b = Some s → get_range (l ++ k) a b = Some s.
Proof.
  intros (Ha & Hb & ->)%get_range_Some. rewrite get_range_in by (rewrite ?zlen_app; pose proof (zlen_nonneg k); lia).
  by rewrite sub_app_l by lia.
Qed.

(** What the probe takes for proof is an answer to the very question it sent:
    a response under its id, success or NXDOMAIN, not truncated, with one question,
    its own, repeated byte for byte. *)
Theorem only_this_questions_answer_counts p response
  (Hyes : answers p response = true) :
  nz16 response 0 = probe_id p ∧ Z.testbit (nz16 response 2) 15 = true ∧
  Z.land (nz16 response 2) 0x0f ∈ [0; 3] ∧ Z.testbit (nz16 response 2) 9 = false ∧
  nz16 response 4 = 1 ∧ get_range response 12 (zlen (message p)) = get_range (message p) 12 (zlen (message p)).
Proof.
  unfold answers in Hyes. rewrite !andb_true_iff, !bool_decide_eq_true in Hyes.
  destruct Hyes as ((((Hl & Hv) & Hf) & Hq) & Hm). b2p. apply get_range_Some in Hq as (_ & _ & Hq).
  unfold verdict in Hv. change Dns.HEADER_LEN with 12 in Hv.
  rewrite (proj2 (Z.ltb_ge _ _)) in Hv by lia. change FLAG_RESPONSE with (Z.shiftl 1 15) in Hv.
  change RCODE_MASK with 0x0f in Hv.
  destruct (negb (nz16 response 0 =? probe_id p)) eqn:Ei; [done|]. b2p.
  pose proof (land_bit (nz16 response 2) 15 ltac:(lia)) as Hbit.
  destruct (Z.land (nz16 response 2) (Z.shiftl 1 15) =? 0) eqn:Er; [done|]. cbn [negb] in Hbit.
  split; [done|]. split; [by rewrite <-Hbit|]. split.
  { destruct (Z.land (nz16 response 2) 0x0f =? 0) eqn:E0; b2p; [rewrite E0; apply list_elem_of_here|].
    apply list_elem_of_further. rewrite Hv. apply list_elem_of_here. }
  split; [|split; [|done]].
  - unfold nz16. change 9 with (1 + 8). rewrite <-Z.shiftr_spec by lia.
    rewrite Z.shiftr_div_pow2 by lia. change (2 ^ 8) with 256. change (2 + 1) with 3.
    pose proof (nz_range response 3). rewrite Z.div_add_l by lia. rewrite (Z.div_small (nz response 3)), Z.add_0_r by lia.
    assert (Z.testbit (Z.land (nz response 2) 0x7a) 1 = false) as H1 by by rewrite Hf.
    rewrite Z.land_spec in H1. change (Z.testbit 0x7a 1) with true in H1. by rewrite andb_true_r in H1.
  - rewrite nz16_be_Z by lia. change (4 + 2) with 6. by rewrite <-Hq.
Qed.

(** Like the handshake, the probe may be fed any pieces: one that decided nothing
    only grew its buffer. *)
Lemma probe_receive_more p a b p' :
  probe_receive p a = (None, p') → zlen (received p) + zlen a + zlen b <= 65537 →
  probe_receive p' b = probe_receive p (a ++ b).
Proof.
  unfold probe_receive. intros Hw Hl. pose proof (zlen_nonneg b). pose proof (zlen_nonneg a).
  rewrite (proj2 (Z.ltb_ge _ (zlen (received p) + zlen a))) in Hw by lia.
  apply (f_equal snd) in Hw. cbn [snd] in Hw. subst p'. cbn [received message probe_id].
  rewrite !zlen_app, !(proj2 (Z.ltb_ge _ _)) by lia. by rewrite app_assoc.
Qed.

Lemma only_this_questions_answer_counts_witness :
  let p := mk_probe (be_bytes 2 7 ++ [x01; x00; x00; x01; x00; x00; x00; x00; x00; x00; x01; x61; x00; x00; x01; x00; x01]) [] 7 in
  let r := be_bytes 2 7 ++ [x81; x80; x00; x01; x00; x00; x00; x00; x00; x00; x01; x61; x00; x00; x01; x00; x01] in
  answers p r = true ∧ nz16 r 0 = 7 ∧ Z.testbit (nz16 r 2) 15 = true.
Proof.
  intros p r. split; [vm_compute; reflexivity|].
  destruct (only_this_questions_answer_counts p r) as (? & ? & _); [vm_compute; reflexivity|by split].
Defined.

(** The [expect] of [DnsProbe::new] never fires: a probe name is always a name. *)
Lemma hex_char_not_dot d : 0 <= d < 16 → hex_char d ≠ x2e.
Proof.
  intros Hd. assert (∀ k, k ∈ seqZ 0 16 → hex_char k ≠ x2e) as H.
  { apply Forall_forall. apply (bool_decide_unpack _). by vm_compute. }
  apply H, elem_of_seqZ. lia.
Qed.

Lemma zlen_pairs (f : byte → list byte) l : (∀ b, zlen (f b) = 2) → zlen (mjoin (f <$> l)) = 2 * zlen l.
Proof.
  intros Hf. induction l as [|b l IH]; [done|]. rewrite fmap_cons, zlen_cons.
  change (mjoin (f b :: (f <$> l))) with (f b ++ mjoin (f <$> l)). rewrite zlen_app, Hf. lia.
Qed.

Lemma hex16_spec n : zlen (hex16 n) = 16 ∧ x2e ∉ hex16 n.
Proof.
  unfold hex16. assert (length (be_bytes 8 n) = 8%nat) as Hl by apply length_be_bytes. split.
  - rewrite zlen_pairs by done. unfold zlen. by rewrite Hl.
  - clear Hl. induction (be_bytes 8 n) as [|b l IH]; [by intros ?%elem_of_nil|].
    cbn [fmap list_fmap mjoin list_join]. pose proof (b2z_range b) as Hb.
    assert (0 <= Z.shiftr (b2z b) 4 < 16).
    { rewrite Z.shiftr_div_pow2 by lia. change (2 ^ 4) with 16.
      split; [apply Z.div_pos; lia|apply Z.div_lt_upper_bound; lia]. }
    assert (0 <= Z.land (b2z b) 15 < 16).
    { change 15 with (Z.ones 4). rewrite Z.land_ones by lia. apply Z.mod_pos_bound. lia. }
    intros [Hin|Hin]%elem_of_app; [|done].
    apply elem_of_cons in Hin as [Hin|Hin%list_elem_of_singleton]; symmetry in Hin; by apply hex_char_not_dot in Hin.
Qed.

Lemma new_probe_asks id nonce : ∃ m, new_probe id nonce = Some (mk_probe m [] id) ∧ zlen m = 49.
Proof.
  destruct (hex16_spec nonce) as [Hl Hd]. unfold new_probe, probe_name. set (h := hex16 nonce) in *. clearbody h.
  unfold query. replace (str "gp-" ++ h ++ str ".example.com")
    with ((str "gp-" ++ h) ++ x2e :: (str "example" ++ x2e :: str "com")) by (by rewrite <-app_assoc).
  rewrite split_on_app by (intros [Hin|Hin]%elem_of_app; [by vm_compute in Hin; repeat (apply elem_of_cons in Hin as [?|Hin]; [done|]); apply elem_of_nil in Hin|done]).
  set (a := str "gp-" ++ h). assert (zlen a = 19) as Ha by (unfold a; rewrite zlen_app, Hl; done).
  change (split_on x2e (str "example" ++ x2e :: str "com")) with [str "example"; str "com"].
  assert (filter (λ label, label ≠ []) [a; str "example"; str "com"] = [a; str "example"; str "com"]) as ->.
  { rewrite filter_cons_True; [done|]. by destruct a. }
  cbn [push_labels]. rewrite (proj2 (Z.ltb_ge 63 (zlen a))) by lia.
  change (63 <? zlen (str "example")) with false. change (63 <? zlen (str "com")) with false. cbn [mbind option_bind].
  set (m := (_ ++ [x00] ++ _)). assert (zlen m = 49) as Hm.
  { unfold m. rewrite !zlen_app, Ha. done. }
  rewrite Hm. exists m. by split.
Qed.
