(* ===== verification/ExitStack.v ===== *)
(** * The forwarding stack

    Models [engine/src/tun2socks/stack.rs] with its exit ([exit.rs]) and its
    capture side ([mod.rs]): captured packets come in as raw IPv4, connections and
    datagrams are replayed through a SOCKS5 proxy or another VPN's adapter, and
    answers are turned back into packets.

    The stack is a program that asks its environment: [call] lists what it may ask
    (the sockets of [mio], the [smoltcp] interface and its sockets, the clock, the
    random numbers, the iteration order of a [HashMap], the channel to the
    session) and [answer] the type of what comes back. [prog] is the tree of
    questions; [M] threads the [Stack] through it. A stream or datagram socket is
    named by the token it is registered under, a [smoltcp] socket by its handle;
    an adapter socket's claim lives and dies with the socket. The counters are
    unbounded here. Log lines and the flags that keep them from repeating are left
    out. *)
From S2P Require Import Text Dns SocksWire Prelude Fragments ExitPacket ExitHandshake.

(** ** Asking the environment *)

(** A [TcpStream]'s [write] and [read], by the errors the code tells apart. *)
Inductive Written : Type := Wrote (n : Z) | WriteBlocks | WriteNotConnected | WriteFails.
Inductive Read : Type := Got (data : list byte) | ReadBlocks | ReadNotConnected | ReadFails.

(** What one [recv] or [recv_from] came to; [from] is [None] for IPv6. *)
Inductive Datagram : Type := Arrived (from : option SocketAddrV4) (data : list byte) | WasReset.

(** [probe]'s [recv]. *)
Inductive ProbeRead : Type := ProbeGot (data : list byte) | ProbeBlocks | ProbeFails.

Inductive TcpState : Type :=
  Closed | Listen | SynSent | SynReceived | Established | FinWait1 | FinWait2 | CloseWait | Closing | LastAck | TimeWait.

Record FlowKey : Type := mk_key { local_port : Z; remote : SocketAddrV4 }.

#[export] Instance FlowKey_eq_dec : EqDecision FlowKey.
Proof. solve_decision. Defined.

#[export] Instance FlowKey_countable : Countable FlowKey.
Proof.
  refine (inj_countable' (λ k, (local_port k, ip (remote k), port (remote k)))
            (λ t, mk_key t.1.1 (SocketAddr t.1.2 t.2)) _).
  by intros [p [i q]].
Defined.

Inductive call : Type :=
| Now
| Random16
| Random64
| DialProxy (t : Z)
| DialAdapter (t : Z) (target : SocketAddrV4)
| PollConnect (t : Z)
| WriteTo (t : Z) (data : list byte)
| ReadFrom (t want : Z)
| Reregister (t : Z) (writes : bool)
| ShutdownWrite (t : Z)
| Deregister (t : Z)
| UdpConnect (relay : SocketAddrV4)
| UdpRegister (t : Z)
| AdapterUdp (t : Z)
| UdpSend (t : Z) (to : option SocketAddrV4) (data : list byte)
| UdpReceive (t : Z)
| ProbeUdp (t : Z) (target : SocketAddrV4) (question : list byte)
| ProbeReceive (t : Z)
| SockListen (target : SocketAddrV4)
| SockAdd
| SockCanRecv (h : Z)
| SockRecv (h : Z)
| SockCanSend (h : Z)
| SockSend (h : Z) (data : list byte)
| SockMaySend (h : Z)
| SockMayRecv (h : Z)
| SockState (h : Z)
| SockClose (h : Z)
| SockAbort (h : Z)
| SockRemove (h : Z)
| IfacePoll (rx : list (list byte))
| Emit (packet : list byte)
| OrderFlows (l : list FlowKey)
| Order (l : list Z)
| Stopped
| PollDelay
| PollEvents (timeout : Z)
| TakeInbox.

Definition answer (c : call) : Type :=
  match c with
  | Now | Random16 | Random64 => Z
  | DialProxy _ | DialAdapter _ _ => bool
  | PollConnect _ => option bool
  | WriteTo _ _ => Written
  | ReadFrom _ _ => Read
  | Reregister _ _ => bool
  | ShutdownWrite _ | Deregister _ => ()
  | UdpConnect _ | UdpRegister _ | AdapterUdp _ | UdpSend _ _ _ => bool
  | UdpReceive _ => list Datagram
  | ProbeUdp _ _ _ => bool
  | ProbeReceive _ => ProbeRead
  | SockListen _ => bool
  | SockAdd => Z
  | SockCanRecv _ => bool
  | SockRecv _ => option (list byte)
  | SockCanSend _ => bool
  | SockSend _ _ => option Z
  | SockMaySend _ | SockMayRecv _ => bool
  | SockState _ => TcpState
  | SockClose _ | SockAbort _ | SockRemove _ => ()
  | IfacePoll _ => list (list byte) * list (list byte)
  | Emit _ => bool
  | OrderFlows _ => list FlowKey
  | Order _ => list Z
  | Stopped => bool
  | PollDelay => option Z
  | PollEvents _ => option (list (Z * bool))
  | TakeInbox => list (list byte)
  end.

(** [Spin] is a loop that the environment keeps going past [rounds] turns,
    [Crash] a panic. *)
Inductive prog (A : Type) : Type :=
| Return (a : A)
| Ask (c : call) (k : answer c → prog A)
| Spin
| Crash.
Arguments Return {A} a.
Arguments Ask {A} c k.
Arguments Spin {A}.
Arguments Crash {A}.

#[export] Instance prog_ret : MRet prog := @Return.
#[export] Instance prog_bind : MBind prog :=
  λ A B f, fix bind (m : prog A) : prog B :=
    match m with
    | Return a => f a
    | Ask c k => Ask c (λ x, bind (k x))
    | Spin => Spin
    | Crash => Crash
    end.

Definition ask (c : call) : prog (answer c) := Ask c Return.

(** ** Constants *)

Definition WAKER : Z := 0.
Definition BUFFER : Z := 64 * 1024.
Definition WRITE_RETRY : Z := ms 5.
Definition PENDING_LIMIT : Z := 256 * 1024.
Definition DIAL_TIMEOUT : Z := secs 10.
Definition MAX_TCP_FLOWS : Z := 2048.
Definition MAX_UDP_ASSOCIATIONS : Z := 512.
Definition UDP_QUEUE_LIMIT : Z := 64.
Definition UDP_IDLE : Z := secs 60.
Definition DNS_SOCKET_IDLE : Z := secs 15.
Definition UDP_RETRY_AFTER : Z := secs 30.
Definition ADAPTER_RETRY_AFTER : Z := secs 2.
Definition DNS_TIMEOUT : Z := secs 5.
Definition DNS_IDLE : Z := secs 20.
Definition DNS_STREAMS_PER_RESOLVER : Z := 8.
Definition DNS_PORT : Z := 53.
Definition PROBE_PORT : Z := 53.
Definition MAX_PROBES : Z := 4.

(** ** Upstream *)

Record Upstream : Type := mk_upstream {
  token : Z;
  handshake : option Handshake;
  connecting : bool;
  outgoing : list byte;
  connected : bool;
  read_pending : bool;
  watching_writes : bool;
  write_retry_at : option Z;
  closed : bool
}.

Definition with_token (u : Upstream) (v : Z) : Upstream :=
  mk_upstream v (handshake u) (connecting u) (outgoing u) (connected u) (read_pending u) (watching_writes u) (write_retry_at u) (closed u).
Definition with_handshake (u : Upstream) (v : option Handshake) : Upstream :=
  mk_upstream (token u) v (connecting u) (outgoing u) (connected u) (read_pending u) (watching_writes u) (write_retry_at u) (closed u).
Definition with_connecting (u : Upstream) (v : bool) : Upstream :=
  mk_upstream (token u) (handshake u) v (outgoing u) (connected u) (read_pending u) (watching_writes u) (write_retry_at u) (closed u).
Definition with_outgoing (u : Upstream) (v : list byte) : Upstream :=
  mk_upstream (token u) (handshake u) (connecting u) v (connected u) (read_pending u) (watching_writes u) (write_retry_at u) (closed u).
Definition with_connected (u : Upstream) (v : bool) : Upstream :=
  mk_upstream (token u) (handshake u) (connecting u) (outgoing u) v (read_pending u) (watching_writes u) (write_retry_at u) (closed u).
Definition with_read_pending (u : Upstream) (v : bool) : Upstream :=
  mk_upstream (token u) (handshake u) (connecting u) (outgoing u) (connected u) v (watching_writes u) (write_retry_at u) (closed u).
Definition with_watching_writes (u : Upstream) (v : bool) : Upstream :=
  mk_upstream (token u) (handshake u) (connecting u) (outgoing u) (connected u) (read_pending u) v (write_retry_at u) (closed u).
Definition with_write_retry_at (u : Upstream) (v : option Z) : Upstream :=
  mk_upstream (token u) (handshake u) (connecting u) (outgoing u) (connected u) (read_pending u) (watching_writes u) v (closed u).
Definition with_closed (u : Upstream) (v : bool) : Upstream :=
  mk_upstream (token u) (handshake u) (connecting u) (outgoing u) (connected u) (read_pending u) (watching_writes u) (write_retry_at u) v.

Definition watch_writes (u : Upstream) (watch : bool) : prog Upstream :=
  if bool_decide (watch = watching_writes u) then mret u else
  ok ← ask (Reregister (token u) watch);
  mret (if (ok : bool) then with_watching_writes u watch else u).

(** The [while] of [flush]; the flag says it returned from inside. Every turn but
    the last writes a byte or closes the stream, so the length bounds them. *)
Fixpoint flush_loop (fuel : nat) (u : Upstream) : prog (Upstream * bool) :=
  match fuel with
  | O => mret (u, false)
  | S fuel =>
      if bool_decide (outgoing u = []) || closed u then mret (u, false) else
      w ← ask (WriteTo (token u) (outgoing u));
      match w with
      | Wrote n =>
          if n =? 0 then flush_loop fuel (with_closed u true)
          else flush_loop fuel (with_outgoing (with_connected u true) (drop (Z.to_nat n) (outgoing u)))
      | WriteBlocks =>
          now ← ask Now;
          u ← watch_writes (with_write_retry_at u (Some (now + WRITE_RETRY))) true;
          mret (u, true)
      | WriteNotConnected => mret (u, false)
      | WriteFails => flush_loop fuel (with_closed u true)
      end
  end.

Definition flush (u : Upstream) : prog Upstream :=
  waiting ← match write_retry_at u with
                     | Some at_ => now ← ask Now; mret (now <? at_)
                     | None => mret false
                     end;
  if (waiting : bool) then mret u else
  let u := with_write_retry_at u None in
  '(u, early) ← flush_loop (S (S (length (outgoing u)))) u;
  if (early : bool) then mret u
  else if bool_decide (outgoing u = []) && connected u then watch_writes u false
  else mret u.

(** The end of [read], from a [break]. *)
Definition read_end (room : Z) (u : Upstream) (data : list byte) (finished : bool)
    : prog (Upstream * (list byte * bool)) :=
  mret (if room <=? zlen data then with_read_pending u true else u, (data, finished)).

(** Up to [room] bytes; every turn but the last reads at least one. *)
Fixpoint read_loop (fuel : nat) (u : Upstream) (room : Z) (data : list byte) : prog (Upstream * (list byte * bool)) :=
  match fuel with
  | O => read_end room u data false
  | S fuel =>
      if room <=? zlen data then read_end room u data false else
      r ← ask (ReadFrom (token u) (Z.min BUFFER (room - zlen data)));
      match r with
      | Got [] => read_end room (with_read_pending u false) data true
      | Got bytes => read_loop fuel u room (data ++ bytes)
      | ReadBlocks | ReadNotConnected => mret (with_read_pending u false, (data, false))
      | ReadFails => read_end room (with_closed u true) data true
      end
  end.

Definition read (u : Upstream) (room : Z) : prog (Upstream * (list byte * bool)) :=
  read_loop (S (Z.to_nat room)) u room [].

(** [poll_connect]: [Some] once the far end has answered or refused. *)
Definition poll_connect (u : Upstream) : prog (Upstream * option bool) :=
  r ← ask (PollConnect (token u));
  match r with
  | Some true => u ← flush (with_connected (with_connecting u false) true); mret (u, Some true)
  | r => mret (u, r)
  end.

Definition advance (u : Upstream) (data : list byte)
    : prog (Upstream * result (list byte) (option (SocketAddrV4 * list byte))) :=
  match handshake u with
  | None => mret (u, Ok None)
  | Some h =>
      let '(step, h) := receive h data in
      let u := with_handshake u (Some h) in
      match step with
      | Err e => mret (u, Err e)
      | Ok (Send bytes) => u ← flush (with_outgoing u (outgoing u ++ bytes)); mret (u, Ok None)
      | Ok Wait => mret (u, Ok None)
      | Ok (Agreed bound leftover) => mret (with_handshake u None, Ok (Some (bound, leftover)))
      end
  end.

(** ** State *)

Record TcpFlow : Type := mk_flow {
  upstream : Upstream;
  held_syn : option (list byte * Z);
  socket : option Z;
  to_app : list byte;
  proxy_finished : bool;
  app_finished : bool;
  started : Z
}.

Definition with_upstream (f : TcpFlow) (v : Upstream) : TcpFlow :=
  mk_flow v (held_syn f) (socket f) (to_app f) (proxy_finished f) (app_finished f) (started f).
Definition with_held_syn (f : TcpFlow) (v : option (list byte * Z)) : TcpFlow :=
  mk_flow (upstream f) v (socket f) (to_app f) (proxy_finished f) (app_finished f) (started f).
Definition with_socket (f : TcpFlow) (v : option Z) : TcpFlow :=
  mk_flow (upstream f) (held_syn f) v (to_app f) (proxy_finished f) (app_finished f) (started f).
Definition with_to_app (f : TcpFlow) (v : list byte) : TcpFlow :=
  mk_flow (upstream f) (held_syn f) (socket f) v (proxy_finished f) (app_finished f) (started f).
Definition with_proxy_finished (f : TcpFlow) (v : bool) : TcpFlow :=
  mk_flow (upstream f) (held_syn f) (socket f) (to_app f) v (app_finished f) (started f).
Definition with_app_finished (f : TcpFlow) (v : bool) : TcpFlow :=
  mk_flow (upstream f) (held_syn f) (socket f) (to_app f) (proxy_finished f) v (started f).
Definition with_started (f : TcpFlow) (v : Z) : TcpFlow :=
  mk_flow (upstream f) (held_syn f) (socket f) (to_app f) (proxy_finished f) (app_finished f) v.

Inductive UdpState : Type :=
| Dialing (control : Upstream) (queue : list (SocketAddrV4 * list byte))
| Ready (control : Upstream) (t : Z)
| Direct (t : Z)
| Refused (until : Z).

Record UdpAssociation : Type := mk_association {
  state : UdpState;
  last_used : Z;
  idle_after : Z
}.

Record DnsQuery : Type := mk_query {
  asker : Z;
  asked_id : Z;
  sent : Z;
  asked : list byte;
  retried : bool
}.

Record DnsUpstream : Type := mk_dns {
  resolver : list byte;
  dns_stream : Upstream;
  ready : bool;
  idle_since : Z;
  queued : list byte;
  answered_bytes : list byte;
  in_flight : gmap Z DnsQuery
}.

Definition with_resolver (d : DnsUpstream) (v : list byte) : DnsUpstream :=
  mk_dns v (dns_stream d) (ready d) (idle_since d) (queued d) (answered_bytes d) (in_flight d).
Definition with_dns_stream (d : DnsUpstream) (v : Upstream) : DnsUpstream :=
  mk_dns (resolver d) v (ready d) (idle_since d) (queued d) (answered_bytes d) (in_flight d).
Definition with_ready (d : DnsUpstream) (v : bool) : DnsUpstream :=
  mk_dns (resolver d) (dns_stream d) v (idle_since d) (queued d) (answered_bytes d) (in_flight d).
Definition with_idle_since (d : DnsUpstream) (v : Z) : DnsUpstream :=
  mk_dns (resolver d) (dns_stream d) (ready d) v (queued d) (answered_bytes d) (in_flight d).
Definition with_queued (d : DnsUpstream) (v : list byte) : DnsUpstream :=
  mk_dns (resolver d) (dns_stream d) (ready d) (idle_since d) v (answered_bytes d) (in_flight d).
Definition with_answered_bytes (d : DnsUpstream) (v : list byte) : DnsUpstream :=
  mk_dns (resolver d) (dns_stream d) (ready d) (idle_since d) (queued d) v (in_flight d).
Definition with_in_flight (d : DnsUpstream) (v : gmap Z DnsQuery) : DnsUpstream :=
  mk_dns (resolver d) (dns_stream d) (ready d) (idle_since d) (queued d) (answered_bytes d) v.

Inductive ProbeTransport : Type := Stream (u : Upstream) | DatagramSocket (t : Z).

Record Probe : Type := mk_running_probe {
  transport : ProbeTransport;
  probe_request : list byte;
  probe_dns : DnsProbe;
  probe_started : Z
}.

Inductive Owner : Type :=
| OwnTcp (key : FlowKey)
| OwnUdpControl (port : Z)
| OwnUdpData (port : Z)
| OwnDns (stream : Z)
| OwnProbe (id : Z).

Record Counters : Type := mk_counters {
  tcp_opened : Z;
  tcp_refused : Z;
  tcp_cancelled : Z;
  udp_sent : Z;
  udp_refused : Z;
  dns_answered : Z;
  dns_failed : Z;
  dropped : Z
}.

Definition with_tcp_opened (c : Counters) (v : Z) : Counters :=
  mk_counters v (tcp_refused c) (tcp_cancelled c) (udp_sent c) (udp_refused c) (dns_answered c) (dns_failed c) (dropped c).
Definition with_tcp_refused (c : Counters) (v : Z) : Counters :=
  mk_counters (tcp_opened c) v (tcp_cancelled c) (udp_sent c) (udp_refused c) (dns_answered c) (dns_failed c) (dropped c).
Definition with_tcp_cancelled (c : Counters) (v : Z) : Counters :=
  mk_counters (tcp_opened c) (tcp_refused c) v (udp_sent c) (udp_refused c) (dns_answered c) (dns_failed c) (dropped c).
Definition with_udp_sent (c : Counters) (v : Z) : Counters :=
  mk_counters (tcp_opened c) (tcp_refused c) (tcp_cancelled c) v (udp_refused c) (dns_answered c) (dns_failed c) (dropped c).
Definition with_udp_refused (c : Counters) (v : Z) : Counters :=
  mk_counters (tcp_opened c) (tcp_refused c) (tcp_cancelled c) (udp_sent c) v (dns_answered c) (dns_failed c) (dropped c).
Definition with_dns_answered (c : Counters) (v : Z) : Counters :=
  mk_counters (tcp_opened c) (tcp_refused c) (tcp_cancelled c) (udp_sent c) (udp_refused c) v (dns_failed c) (dropped c).
Definition with_dns_failed (c : Counters) (v : Z) : Counters :=
  mk_counters (tcp_opened c) (tcp_refused c) (tcp_cancelled c) (udp_sent c) (udp_refused c) (dns_answered c) v (dropped c).
Definition with_dropped (c : Counters) (v : Z) : Counters :=
  mk_counters (tcp_opened c) (tcp_refused c) (tcp_cancelled c) (udp_sent c) (udp_refused c) (dns_answered c) (dns_failed c) v.

Record Stack : Type := mk_stack {
  device_rx : list (list byte);
  device_tx : list (list byte);
  owners : gmap Z Owner;
  next_token : Z;
  tcp : gmap FlowKey TcpFlow;
  udp : gmap Z UdpAssociation;
  dns : gmap Z DnsUpstream;
  next_dns_stream : Z;
  probes : gmap Z Probe;
  next_probe : Z;
  counters : Counters;
  upstream_activity : bool;
  fragments : Reassembler
}.

Definition with_device_rx (s : Stack) (v : list (list byte)) : Stack :=
  mk_stack v (device_tx s) (owners s) (next_token s) (tcp s) (udp s) (dns s) (next_dns_stream s) (probes s) (next_probe s) (counters s) (upstream_activity s) (fragments s).
Definition with_device_tx (s : Stack) (v : list (list byte)) : Stack :=
  mk_stack (device_rx s) v (owners s) (next_token s) (tcp s) (udp s) (dns s) (next_dns_stream s) (probes s) (next_probe s) (counters s) (upstream_activity s) (fragments s).
Definition with_owners (s : Stack) (v : gmap Z Owner) : Stack :=
  mk_stack (device_rx s) (device_tx s) v (next_token s) (tcp s) (udp s) (dns s) (next_dns_stream s) (probes s) (next_probe s) (counters s) (upstream_activity s) (fragments s).
Definition with_next_token (s : Stack) (v : Z) : Stack :=
  mk_stack (device_rx s) (device_tx s) (owners s) v (tcp s) (udp s) (dns s) (next_dns_stream s) (probes s) (next_probe s) (counters s) (upstream_activity s) (fragments s).
Definition with_tcp (s : Stack) (v : gmap FlowKey TcpFlow) : Stack :=
  mk_stack (device_rx s) (device_tx s) (owners s) (next_token s) v (udp s) (dns s) (next_dns_stream s) (probes s) (next_probe s) (counters s) (upstream_activity s) (fragments s).
Definition with_udp (s : Stack) (v : gmap Z UdpAssociation) : Stack :=
  mk_stack (device_rx s) (device_tx s) (owners s) (next_token s) (tcp s) v (dns s) (next_dns_stream s) (probes s) (next_probe s) (counters s) (upstream_activity s) (fragments s).
Definition with_dns (s : Stack) (v : gmap Z DnsUpstream) : Stack :=
  mk_stack (device_rx s) (device_tx s) (owners s) (next_token s) (tcp s) (udp s) v (next_dns_stream s) (probes s) (next_probe s) (counters s) (upstream_activity s) (fragments s).
Definition with_next_dns_stream (s : Stack) (v : Z) : Stack :=
  mk_stack (device_rx s) (device_tx s) (owners s) (next_token s) (tcp s) (udp s) (dns s) v (probes s) (next_probe s) (counters s) (upstream_activity s) (fragments s).
Definition with_probes (s : Stack) (v : gmap Z Probe) : Stack :=
  mk_stack (device_rx s) (device_tx s) (owners s) (next_token s) (tcp s) (udp s) (dns s) (next_dns_stream s) v (next_probe s) (counters s) (upstream_activity s) (fragments s).
Definition with_next_probe (s : Stack) (v : Z) : Stack :=
  mk_stack (device_rx s) (device_tx s) (owners s) (next_token s) (tcp s) (udp s) (dns s) (next_dns_stream s) (probes s) v (counters s) (upstream_activity s) (fragments s).
Definition with_counters (s : Stack) (v : Counters) : Stack :=
  mk_stack (device_rx s) (device_tx s) (owners s) (next_token s) (tcp s) (udp s) (dns s) (next_dns_stream s) (probes s) (next_probe s) v (upstream_activity s) (fragments s).
Definition with_upstream_activity (s : Stack) (v : bool) : Stack :=
  mk_stack (device_rx s) (device_tx s) (owners s) (next_token s) (tcp s) (udp s) (dns s) (next_dns_stream s) (probes s) (next_probe s) (counters s) v (fragments s).
Definition with_fragments (s : Stack) (v : Reassembler) : Stack :=
  mk_stack (device_rx s) (device_tx s) (owners s) (next_token s) (tcp s) (udp s) (dns s) (next_dns_stream s) (probes s) (next_probe s) (counters s) (upstream_activity s) v.

(** Programs over the stack. *)
Definition M (A : Type) : Type := Stack → prog (A * Stack).

#[export] Instance M_ret : MRet M := λ A a s, Return (a, s).
#[export] Instance M_bind : MBind M := λ A B f m s, '(a, s) ← m s; f a s.

Definition get {A} (f : Stack → A) : M A := λ s, Return (f s, s).
Definition put (f : Stack → Stack) : M () := λ s, Return ((), f s).
Definition lift {A} (m : prog A) : M A := λ s, a ← m; Return (a, s).
Definition asks (c : call) : M (answer c) := lift (ask c).
Definition spin {A} : M A := λ _, Spin.
Definition crash {A} : M A := λ _, Crash.

Fixpoint for_each {A} (l : list A) (f : A → M ()) : M () :=
  match l with
  | [] => mret ()
  | x :: l => _ ← f x; for_each l f
  end.

Definition count (f : Counters → Counters) : M () := put (λ s, with_counters s (f (counters s))).
Definition one_more (g : Counters → Z) (w : Counters → Z → Counters) (c : Counters) : Counters := w c (g c + 1).

(** ** Wire formats *)

Definition servfail (query : list byte) : option (list byte) :=
  a ← Prelude.get query 4;
  b ← Prelude.get query 5;
  if negb (b2z a * 256 + b2z b =? 1) then None else
  let answer := paste query 2 [z2b (Z.lor 0x80 (Z.land (nz query 2) 0x79))] in
  let answer := paste answer 3 [z2b (Z.lor 0x80 2)] in
  Some (paste answer 6 (replicate 6 x00)).

Definition udp_request (destination : SocketAddrV4) (payload : list byte) : list byte :=
  [x00; x00; x00; x01] ++ ip destination ++ be_bytes 2 (port destination) ++ payload.

Definition udp_reply (datagram : list byte) : option (SocketAddrV4 * list byte) :=
  if (zlen datagram <? 10) || negb (nz datagram 2 =? 0) || negb (nz datagram 3 =? 1) then None else
  Some (SocketAddr (sub datagram 4 8) (nz16 datagram 8), drop 10 datagram).

(** The proxy's address as an IPv4 bypass, unless it is this machine. *)
Definition proxy_bypass (proxy : SocketAddrV4) : option (list byte) :=
  if (zlen (ip proxy) =? 4) && negb (is_loopback (ip proxy)) then Some (ip proxy) else None.

(** ** The stack *)

Inductive Exit : Type :=
| Proxy (address : SocketAddrV4) (login : option (list byte * list byte))
| Adapter.

Definition is_proxy (e : Exit) : bool := match e with Proxy _ _ => true | Adapter => false end.

Section stack.
Context (client probe_target : list byte) (exit : Exit).

(** How many turns of a loop that only its environment ends are followed. *)
Context (rounds : nat).

Definition new_stack : Stack :=
  mk_stack [] [] ∅ 1 ∅ ∅ ∅ 0 ∅ 0 (mk_counters 0 0 0 0 0 0 0 0) false default_reassembler.

(** [wrapping_add(1).max(1)] on a [usize]. *)
Definition token_after (t : Z) : Z := Z.max 1 (wrap64 (t + 1)).

Definition take_token (owner : Owner) : M Z :=
  t ← get next_token;
  _ ← put (λ s, with_owners (with_next_token s (token_after t)) (<[t := owner]> (owners s)));
  mret t.

Definition disown (t : Z) : M () := put (λ s, with_owners s (delete t (owners s))).

Definition emit (packet : list byte) : M () :=
  sent ← asks (Emit packet);
  if (sent : bool) then mret () else count (one_more dropped with_dropped).

(** [Upstream::dial]. *)
Definition dial (t : Z) (command : Command) (target : SocketAddrV4) : M (option Upstream) :=
  match exit with
  | Proxy _ login =>
      ok ← asks (DialProxy t);
      let '(h, greeting) := start command target login in
      mret (if (ok : bool) then Some (mk_upstream t (Some h) false greeting false true true None false) else None)
  | Adapter =>
      ok ← asks (DialAdapter t target);
      mret (if (ok : bool) then Some (mk_upstream t None true [] false true true None false) else None)
  end.

Definition deregister (u : Upstream) : M () := asks (Deregister (token u)).

(** *** Removing *)

Definition remove_tcp (key : FlowKey) : M () :=
  flows ← get tcp;
  match flows !! key with
  | None => mret ()
  | Some flow =>
      _ ← put (λ s, with_tcp s (delete key (tcp s)));
      _ ← deregister (upstream flow);
      _ ← disown (token (upstream flow));
      match socket flow with Some h => asks (SockRemove h) | None => mret () end
  end.

Definition remove_udp (port : Z) : M () :=
  associations ← get udp;
  match associations !! port with
  | None => mret ()
  | Some a =>
      _ ← put (λ s, with_udp s (delete port (udp s)));
      match state a with
      | Dialing control _ => _ ← deregister control; disown (token control)
      | Ready control t =>
          _ ← deregister control; _ ← disown (token control);
          _ ← asks (Deregister t); disown t
      | Direct t => _ ← asks (Deregister t); disown t
      | Refused _ => mret ()
      end
  end.

Definition remove_probe (id : Z) : M () :=
  running ← get probes;
  match running !! id with
  | None => mret ()
  | Some p =>
      _ ← put (λ s, with_probes s (delete id (probes s)));
      match transport p with
      | Stream u => _ ← deregister u; disown (token u)
      | DatagramSocket t => _ ← asks (Deregister t); disown t
      end
  end.

(** *** TCP *)

Definition refuse_tcp (key : FlowKey) (sequence : Z) : M () :=
  _ ← count (one_more tcp_refused with_tcp_refused);
  emit (build_tcp_reset (remote key) (SocketAddr client (local_port key)) ((sequence + 1) mod 2 ^ 32)).

Definition open_tcp (key : FlowKey) (syn : list byte) (sequence : Z) : M () :=
  flows ← get tcp;
  if MAX_TCP_FLOWS <=? zsize (flows : gmap FlowKey TcpFlow) then refuse_tcp key sequence else
  t ← take_token (OwnTcp key);
  u ← dial t Connect (remote key);
  match u with
  | Some u =>
      now ← asks Now;
      put (λ s, with_tcp s (<[key := mk_flow u (Some (syn, sequence)) None [] false false now]> (tcp s)))
  | None => _ ← disown t; refuse_tcp key sequence
  end.

(** The exit opened the far end: hand the held SYN to [smoltcp], listening on
    exactly that destination. *)
Definition accept_tcp (key : FlowKey) (leftover : list byte) : M () :=
  _ ← (if negb (bool_decide (leftover = [])) && negb (port (remote key) =? DNS_PORT)
       then put (λ s, with_upstream_activity s true) else mret ());
  listening ← asks (SockListen (remote key));
  flows ← get tcp;
  match flows !! key with
  | None => mret ()
  | Some flow =>
      if negb listening then
        put (λ s, with_tcp s (<[key := with_upstream flow (with_closed (upstream flow) true)]> (tcp s)))
      else
      h ← asks SockAdd;
      _ ← put (λ s, with_tcp s (<[key := with_held_syn (with_to_app (with_socket flow (Some h)) leftover) None]> (tcp s)));
      _ ← match held_syn flow with
          | Some (syn, _) => put (λ s, with_device_rx s (device_rx s ++ [syn]))
          | None => mret ()
          end;
      count (one_more tcp_opened with_tcp_opened)
  end.

(** What [pump_tcp] notes about one flow for afterwards. *)
Inductive Verdict : Type := Carries | Accepted (leftover : list byte) | Refuses | Ends.

Definition dialled_too_long (flow : TcpFlow) : prog bool :=
  now ← ask Now; mret (DIAL_TIMEOUT <? since now (started flow)).

(** Application to exit. Every turn takes a byte at least. *)
Fixpoint app_to_exit (fuel : nat) (h : Z) (u : Upstream) : prog Upstream :=
  match fuel with
  | O => mret u
  | S fuel =>
      can ← ask (SockCanRecv h);
      if can && (zlen (outgoing u) <? PENDING_LIMIT) then
        r ← ask (SockRecv h);
        match r with
        | None | Some [] => mret u
        | Some data => app_to_exit fuel h (with_outgoing u (outgoing u ++ data))
        end
      else mret u
  end.

Definition exit_to_app (key : FlowKey) (flow : TcpFlow) : prog (TcpFlow * bool) :=
  if read_pending (upstream flow) && (zlen (to_app flow) <? PENDING_LIMIT) && negb (proxy_finished flow) then
    '(u, (data, done)) ← read (upstream flow) (PENDING_LIMIT - zlen (to_app flow));
    mret (with_proxy_finished (with_to_app (with_upstream flow u) (to_app flow ++ data)) (proxy_finished flow || done),
          negb (bool_decide (data = [])) && negb (port (remote key) =? DNS_PORT))
  else mret (flow, false).

Definition deliver_to_app (h : Z) (flow : TcpFlow) : prog TcpFlow :=
  if bool_decide (to_app flow = []) then mret flow else
  can ← ask (SockCanSend h);
  if negb can then mret flow else
  n ← ask (SockSend h (to_app flow));
  mret (match n with
        | Some n => with_to_app flow (drop (Z.to_nat n) (to_app flow))
        | None => flow
        end).

(** The ends of a flow, each once everything before it is delivered. *)
Definition close_ends (h : Z) (flow : TcpFlow) : prog TcpFlow :=
  _ ← (if proxy_finished flow && bool_decide (to_app flow = []) then
         may ← ask (SockMaySend h); if (may : bool) then ask (SockClose h) else mret ()
       else mret ());
  flow ← (if app_finished flow then mret flow else
          may ← ask (SockMayRecv h);
          if may || negb (bool_decide (outgoing (upstream flow) = [])) then mret flow else
          st ← ask (SockState h);
          match st with
          | CloseWait | LastAck | Closed =>
              _ ← ask (ShutdownWrite (token (upstream flow))); mret (with_app_finished flow true)
          | _ => mret flow
          end);
  _ ← (if closed (upstream flow) && negb (proxy_finished flow) then ask (SockAbort h) else mret ());
  mret flow.

Definition flow_ended (h : Z) (flow : TcpFlow) : prog bool :=
  st ← ask (SockState h);
  never_answered ← match st with
                   | Listen => now ← ask Now; mret (2 * DIAL_TIMEOUT <? since now (started flow))
                   | _ => mret false
                   end;
  if (never_answered : bool) then mret true else
  st ← ask (SockState h);
  mret (match st with Closed | TimeWait => true | _ => false end).

(** The body of [pump_tcp]'s loop; the flag is [upstream_activity]. *)
Definition pump_flow (key : FlowKey) (flow : TcpFlow) : prog (TcpFlow * (Verdict * bool)) :=
  if connecting (upstream flow) then
    '(u, r) ← poll_connect (upstream flow);
    let flow := with_upstream flow u in
    match r with
    | Some true => mret (flow, (Accepted [], false))
    | Some false => mret (flow, (Refuses, false))
    | None => late ← dialled_too_long flow; mret (flow, (if (late : bool) then Refuses else Carries, false))
    end
  else
  u ← flush (upstream flow);
  match handshake u with
  | Some _ =>
      '(u, (data, finished)) ← read u 4096;
      if bool_decide (data = []) && negb finished && negb (closed u) then
        let flow := with_upstream flow u in
        late ← dialled_too_long flow; mret (flow, (if (late : bool) then Refuses else Carries, false))
      else
      '(u, r) ← advance u data;
      let flow := with_upstream flow u in
      mret (flow, (match r with
                   | Ok (Some (_, leftover)) => Accepted leftover
                   | Ok None => if finished || closed u then Refuses else Carries
                   | Err _ => Refuses
                   end, false))
  | None =>
      let flow := with_upstream flow u in
      match socket flow with
      | None => mret (flow, (Carries, false))
      | Some h =>
          u ← app_to_exit (S (Z.to_nat PENDING_LIMIT)) h u;
          u ← flush u;
          '(flow, active) ← exit_to_app key (with_upstream flow u);
          flow ← deliver_to_app h flow;
          flow ← close_ends h flow;
          ended ← flow_ended h flow;
          mret (flow, (if (ended : bool) then Ends else Carries, active))
      end
  end.

(** One flow, [get_mut(&key).unwrap()] included, and what it leaves to do. *)
Definition pump_key (key : FlowKey) : M Verdict :=
  flows ← get tcp;
  match flows !! key with
  | None => crash
  | Some flow =>
      '(flow, (verdict, active)) ← lift (pump_flow key flow);
      _ ← put (λ s, with_upstream_activity (with_tcp s (<[key := flow]> (tcp s))) (upstream_activity s || active));
      mret verdict
  end.

Fixpoint pump_keys (keys : list FlowKey) : M (list (FlowKey * Verdict)) :=
  match keys with
  | [] => mret []
  | key :: keys => v ← pump_key key; vs ← pump_keys keys; mret ((key, v) :: vs)
  end.

Definition accepted (vs : list (FlowKey * Verdict)) : list (FlowKey * list byte) :=
  omap (λ v, match v.2 with Accepted leftover => Some (v.1, leftover) | _ => None end) vs.
Definition refused (vs : list (FlowKey * Verdict)) : list FlowKey :=
  omap (λ v, match v.2 with Refuses => Some v.1 | _ => None end) vs.
Definition finished (vs : list (FlowKey * Verdict)) : list FlowKey :=
  omap (λ v, match v.2 with Ends => Some v.1 | _ => None end) vs.

Definition refuse_flow (key : FlowKey) : M () :=
  flows ← get tcp;
  match flows !! key ≫= held_syn with
  | Some (_, sequence) => refuse_tcp key sequence
  | None => mret ()
  end.

Definition pump_tcp : M () :=
  flows ← get tcp;
  keys ← asks (OrderFlows (elements (dom (flows : gmap FlowKey TcpFlow))));
  vs ← pump_keys keys;
  _ ← for_each (accepted vs) (λ a, accept_tcp a.1 a.2);
  _ ← for_each (refused vs) refuse_flow;
  for_each (finished vs ++ refused vs) remove_tcp.

(** *** UDP *)

Definition set_udp_state (port : Z) (st : UdpState) : M () :=
  put (λ s, with_udp s (alter (λ a, mk_association st (last_used a) (idle_after a)) port (udp s))).

(** [open_direct_udp]: the token is only used up once the socket is there. *)
Definition open_direct_udp (local_port : Z) : M UdpState :=
  t ← get next_token;
  ok ← asks (AdapterUdp t);
  if (ok : bool) then _ ← take_token (OwnUdpData local_port); mret (Direct t)
  else
    _ ← count (one_more udp_refused with_udp_refused);
    now ← asks Now;
    mret (Refused (now + ADAPTER_RETRY_AFTER)).

(** A new association, the quietest one making room. *)
Definition open_udp (local_port : Z) (destination : SocketAddrV4) (now : Z) : M () :=
  associations ← get udp;
  _ ← (if MAX_UDP_ASSOCIATIONS <=? zsize (associations : gmap Z UdpAssociation) then
         ports ← asks (Order (elements (dom associations)));
         match min_by (λ port, default 0 (last_used <$> associations !! port)) ports with
         | Some quietest => remove_udp quietest
         | None => mret ()
         end
       else mret ());
  st ← (if is_proxy exit then
          t ← take_token (OwnUdpControl local_port);
          u ← dial t UdpAssociate (SocketAddr [x00; x00; x00; x00] 0);
          match u with
          | Some control => mret (Dialing control [])
          | None => _ ← disown t; mret (Refused (now + UDP_RETRY_AFTER))
          end
        else open_direct_udp local_port);
  put (λ s, with_udp s (<[local_port := mk_association st now
         (if port destination =? DNS_PORT then DNS_SOCKET_IDLE else UDP_IDLE)]> (udp s))).

Definition sent_one (t : Z) (to : option SocketAddrV4) (data : list byte) : M () :=
  ok ← asks (UdpSend t to data);
  if (ok : bool) then count (one_more udp_sent with_udp_sent) else mret ().

(** [send_udp], which starts over once a refusal has lapsed. *)
Fixpoint send_udp (fuel : nat) (local_port : Z) (destination : SocketAddrV4) (payload : list byte) : M () :=
  match fuel with
  | O => spin
  | S fuel =>
      now ← asks Now;
      associations ← get udp;
      _ ← (if bool_decide (is_Some ((associations : gmap Z UdpAssociation) !! local_port)) then mret ()
           else open_udp local_port destination now);
      _ ← put (λ s, with_udp s (alter (λ a, mk_association (state a) now (idle_after a)) local_port (udp s)));
      associations ← get udp;
      match state <$> associations !! local_port with
      | None => crash
      | Some (Dialing control queue) =>
          if zlen queue <? UDP_QUEUE_LIMIT
          then set_udp_state local_port (Dialing control (queue ++ [(destination, payload)])) else mret ()
      | Some (Ready _ t) => sent_one t None (udp_request destination payload)
      | Some (Direct t) => sent_one t (Some destination) payload
      | Some (Refused until) =>
          if until <=? now then _ ← remove_udp local_port; send_udp fuel local_port destination payload
          else count (one_more dropped with_dropped)
      end
  end.

Definition refuse_association (port : Z) : M () :=
  _ ← count (one_more udp_refused with_udp_refused);
  associations ← get udp;
  match (associations : gmap Z UdpAssociation) !! port with
  | None => mret ()
  | Some a =>
      _ ← match state a with
          | Dialing control _ => _ ← deregister control; disown (token control)
          | _ => mret ()
          end;
      now ← asks Now;
      set_udp_state port (Refused (now + UDP_RETRY_AFTER))
  end.

(** [open_association]; the flag says it failed. *)
Definition open_association (assoc_port : Z) (relay : SocketAddrV4) : M bool :=
  bound ← asks (UdpConnect relay);
  if negb bound then mret false else
  t ← take_token (OwnUdpData assoc_port);
  registered ← asks (UdpRegister t);
  if negb registered then mret false else
  associations ← get udp;
  match (associations : gmap Z UdpAssociation) !! assoc_port with
  | None => mret false
  | Some a =>
      now ← asks Now;
      _ ← set_udp_state assoc_port (Refused now);
      match state a with
      | Dialing control queue =>
          _ ← for_each queue (λ q, sent_one t None (udp_request q.1 q.2));
          _ ← set_udp_state assoc_port (Ready control t);
          mret true
      | _ => mret false
      end
  end.

Definition is_unspecified_ip (a : list byte) : bool := forallb (λ b, b2z b =? 0) a.

Definition control_of (st : UdpState) : option Upstream :=
  match st with Dialing control _ | Ready control _ => Some control | _ => None end.
Definition with_control (st : UdpState) (u : Upstream) : UdpState :=
  match st with Dialing _ queue => Dialing u queue | Ready _ t => Ready u t | st => st end.

Definition udp_control_ready (assoc_port : Z) : M () :=
  match exit with
  | Adapter => mret ()
  | Proxy proxy _ =>
      associations ← get udp;
      match (associations : gmap Z UdpAssociation) !! assoc_port with
      | None => mret ()
      | Some a =>
          match control_of (state a) with
          | None => mret ()
          | Some control =>
              control ← lift (flush control);
              '(control, (data, finished)) ← lift (read control 4096);
              match handshake control with
              | None =>
                  _ ← set_udp_state assoc_port (with_control (state a) control);
                  if (finished : bool) then deregister control else mret ()
              | Some _ =>
                  '(control, outcome) ← lift (advance control data);
                  _ ← set_udp_state assoc_port (with_control (state a) control);
                  refused ← match outcome with
                    | Ok (Some (bound, _)) =>
                        let relay := if is_unspecified_ip (ip bound) then SocketAddr (ip proxy) (port bound) else bound in
                        ok ← open_association assoc_port relay; mret (negb ok)
                    | Ok None => mret (finished || closed control)
                    | Err _ => mret true
                    end;
                  if (refused : bool) then refuse_association assoc_port else mret ()
              end
          end
      end
  end.

Definition touch_udp (port now : Z) : M () :=
  put (λ s, with_udp s (alter (λ a, mk_association (state a) now (idle_after a)) port (udp s))).

(** The datagrams one readiness brought, each read before any is passed on. A
    [recv_from] that fails is passed over only for a reset by the far end; on a
    connected socket every error ends the reading. *)
Fixpoint direct_replies (port : Z) (l : list Datagram) : M (list (list byte)) :=
  match l with
  | [] => mret []
  | Arrived (Some from) data :: l =>
      now ← asks Now;
      _ ← touch_udp port now;
      _ ← put (λ s, with_upstream_activity s true);
      rest ← direct_replies port l;
      mret (build_udp from (SocketAddr client port) data :: rest)
  | Arrived None _ :: l | WasReset :: l => direct_replies port l
  end.

Fixpoint relayed_replies (port : Z) (l : list Datagram) : M (list (list byte)) :=
  match l with
  | [] | WasReset :: _ => mret []
  | Arrived _ data :: l =>
      now ← asks Now;
      _ ← touch_udp port now;
      match udp_reply data with
      | Some (from, payload) =>
          _ ← put (λ s, with_upstream_activity s true);
          rest ← relayed_replies port l;
          mret (build_udp from (SocketAddr client port) payload :: rest)
      | None => relayed_replies port l
      end
  end.

Definition udp_data_ready (port : Z) : M () :=
  associations ← get udp;
  replies ← match state <$> (associations : gmap Z UdpAssociation) !! port with
            | Some (Direct t) => l ← asks (UdpReceive t); direct_replies port l
            | Some (Ready _ t) => l ← asks (UdpReceive t); relayed_replies port l
            | _ => mret []
            end;
  for_each replies emit.

(** *** Lookups *)

Definition fail_lookup (resolver : list byte) (q : DnsQuery) : M () :=
  _ ← count (one_more dns_failed with_dns_failed);
  match servfail (asked q) with
  | Some answer => emit (build_udp (SocketAddr resolver DNS_PORT) (SocketAddr client (asker q)) answer)
  | None => mret ()
  end.

Definition dial_dns_stream (resolver : list byte) : M (option Z) :=
  _ ← put (λ s, with_next_dns_stream s (next_dns_stream s + 1));
  id ← get next_dns_stream;
  t ← take_token (OwnDns id);
  u ← dial t Connect (SocketAddr resolver DNS_PORT);
  match u with
  | None => _ ← disown t; mret None
  | Some u =>
      now ← asks Now;
      _ ← put (λ s, with_dns s (<[id := mk_dns resolver u false now [] [] ∅]> (dns s)));
      mret (Some id)
  end.

(** The scan of [dns_stream_for]: an idle stream ends it. *)
Fixpoint scan_streams (streams : gmap Z DnsUpstream) (wanted : list byte) (ids : list Z)
    (open_ : Z) (least_busy : option (Z * Z)) : option Z + (Z * option Z) :=
  match ids with
  | [] => inr (open_, fst <$> least_busy)
  | id :: ids =>
      match streams !! id with
      | None => scan_streams streams wanted ids open_ least_busy
      | Some d =>
          if negb (bool_decide (resolver d = wanted)) then scan_streams streams wanted ids open_ least_busy
          else if bool_decide (in_flight d = ∅) then inl (Some id)
          else
            let waiting := zsize (in_flight d) in
            let better := match least_busy with None => true | Some (_, w) => waiting <? w end in
            scan_streams streams wanted ids (open_ + 1) (if better then Some (id, waiting) else least_busy)
      end
  end.

Definition dns_stream_for (resolver : list byte) : M (option Z) :=
  streams ← get dns;
  ids ← asks (Order (elements (dom (streams : gmap Z DnsUpstream))));
  match scan_streams streams resolver ids 0 None with
  | inl found => mret found
  | inr (open_, least_busy) =>
      if DNS_STREAMS_PER_RESOLVER <=? open_ then mret least_busy else dial_dns_stream resolver
  end.

(** [while in_flight.contains_key(&id) { id = id.wrapping_add(1) }], forever when
    all the ids are taken. *)
Fixpoint free_id (fuel : nat) (taken : gmap Z DnsQuery) (id : Z) : option Z :=
  match fuel with
  | O => None
  | S fuel =>
      if bool_decide (is_Some (taken !! id)) then free_id fuel taken ((id + 1) mod 65536) else Some id
  end.

Definition set_stream (id : Z) (d : DnsUpstream) : M () := put (λ s, with_dns s (<[id := d]> (dns s))).

Definition send_lookup (local_port : Z) (resolver query : list byte) (again : bool) : M () :=
  if (zlen query <? 12) || (u16_max <? zlen query) then mret () else
  now ← asks Now;
  let pending := mk_query local_port (nz16 query 0) now query again in
  stream ← dns_stream_for resolver;
  match stream with
  | None => fail_lookup resolver pending
  | Some id =>
      streams ← get dns;
      match (streams : gmap Z DnsUpstream) !! id with
      | None => crash
      | Some d =>
          first ← asks Random16;
          match free_id (Z.to_nat 65536) (in_flight d) first with
          | None => spin
          | Some qid =>
              let d := with_in_flight d (<[qid := pending]> (in_flight d)) in
              let frame := be_bytes 2 (zlen query) ++ be_bytes 2 qid ++ drop 2 query in
              if ready d then
                u ← lift (flush (with_outgoing (dns_stream d) (outgoing (dns_stream d) ++ frame)));
                set_stream id (with_dns_stream d u)
              else set_stream id (with_queued d (queued d ++ frame))
          end
      end
  end.

Definition lookup (local_port : Z) (resolver query : list byte) : M () :=
  send_lookup local_port resolver query false.

(** The draining [loop] of [dns_ready]. *)
Fixpoint drain_stream (fuel : nat) (u : Upstream) (data : list byte) : prog (Upstream * (list byte * bool)) :=
  match fuel with
  | O => Spin
  | S fuel =>
      '(u, (chunk, done)) ← read u (64 * 1024);
      if done || negb (read_pending u) then mret (u, (data ++ chunk, done))
      else drain_stream fuel u (data ++ chunk)
  end.

(** Whole messages at the front of [received], each with its own id put back and
    addressed to who asked; the length of [received] bounds the turns. *)
Fixpoint take_answers (fuel : nat) (resolver received : list byte) (waiting : gmap Z DnsQuery)
    : list byte * gmap Z DnsQuery * list (list byte) :=
  match fuel with
  | O => (received, waiting, [])
  | S fuel =>
      if zlen received <? 2 then (received, waiting, []) else
      let length := nz16 received 0 in
      if zlen received <? 2 + length then (received, waiting, []) else
      let message := sub received 2 (2 + length) in
      let received := drop (Z.to_nat (2 + length)) received in
      if zlen message <? 12 then take_answers fuel resolver received waiting else
      match waiting !! nz16 message 0 with
      | None => take_answers fuel resolver received waiting
      | Some q =>
          let '(received, waiting, answers) :=
            take_answers fuel resolver received (delete (nz16 message 0) waiting) in
          (received, waiting,
           build_udp (SocketAddr resolver DNS_PORT) (SocketAddr client (asker q))
             (paste message 0 (be_bytes 2 (asked_id q))) :: answers)
      end
  end.

(** Each lookup of a stream that is gone is sent once more, then failed. *)
Definition settle_lookups (d : DnsUpstream) (again : bool) : M () :=
  ids ← asks (Order (elements (dom (in_flight d))));
  for_each ids (λ id,
    match in_flight d !! id with
    | None => mret ()
    | Some q =>
        if negb again || retried q then fail_lookup (resolver d) q
        else send_lookup (asker q) (resolver d) (asked q) true
    end).

Definition close_stream (id : Z) (d : DnsUpstream) : M () :=
  _ ← put (λ s, with_dns s (delete id (dns s)));
  _ ← deregister (dns_stream d);
  disown (token (dns_stream d)).

Definition dns_ready (id : Z) : M () :=
  streams ← get dns;
  match (streams : gmap Z DnsUpstream) !! id with
  | None => mret ()
  | Some d =>
      u ← lift (flush (dns_stream d));
      '(u, (data, finished)) ← lift (drain_stream rounds u []);
      '(d, failed) ← match handshake u with
        | None => mret (with_answered_bytes (with_dns_stream d u) (answered_bytes d ++ data), false)
        | Some _ =>
            '(u, r) ← lift (advance u data);
            match r with
            | Ok (Some (_, leftover)) =>
                u ← lift (flush (with_outgoing u (outgoing u ++ queued d)));
                mret (with_answered_bytes (with_queued (with_ready (with_dns_stream d u) true) [])
                        (answered_bytes d ++ leftover), false)
            | Ok None => mret (with_dns_stream d u, false)
            | Err _ => mret (with_dns_stream d u, true)
            end
        end;
      let '(received, waiting, answers) :=
        take_answers (S (length (answered_bytes d))) (resolver d) (answered_bytes d) (in_flight d) in
      let d := with_in_flight (with_answered_bytes d received) waiting in
      d ← (if negb (bool_decide (answers = [])) && bool_decide (waiting = ∅)
           then now ← asks Now; mret (with_idle_since d now) else mret d);
      _ ← set_stream id d;
      _ ← for_each answers (λ a, _ ← count (one_more dns_answered with_dns_answered); emit a);
      if finished || closed (dns_stream d) || (failed : bool) then
        _ ← close_stream id d;
        settle_lookups d true
      else mret ()
  end.

(** *** Probes *)

(** [DnsProbe::new]; its [expect] never fires: see [new_probe_asks]. *)
Definition fresh_probe : M DnsProbe :=
  id ← asks Random16;
  nonce ← asks Random64;
  match new_probe id nonce with Some p => mret p | None => crash end.

Definition probe (request : list byte) : M () :=
  running ← get probes;
  if MAX_PROBES <=? zsize (running : gmap Z Probe) then mret () else
  _ ← put (λ s, with_next_probe s (next_probe s + 1));
  id ← get next_probe;
  t ← take_token (OwnProbe id);
  question ← fresh_probe;
  let target := SocketAddr probe_target PROBE_PORT in
  tr ← (if is_proxy exit then
          u ← dial t Connect target; mret (Stream <$> u)
        else
          ok ← asks (ProbeUdp t target (ExitHandshake.message question));
          mret (if (ok : bool) then Some (DatagramSocket t) else None));
  match tr with
  | Some tr =>
      now ← asks Now;
      put (λ s, with_probes s (<[id := mk_running_probe tr request question now]> (probes s)))
  | None => disown t
  end.

(** A probe's stream: the verdict and whether it is over. *)
Definition probe_stream (u : Upstream) (question : DnsProbe)
    : prog (Upstream * DnsProbe * (option bool * bool)) :=
  u ← flush u;
  '(u, (data, finished)) ← read u 65537;
  '(u, question, verdict) ← match handshake u with
    | None => let '(v, question) := probe_receive question data in mret (u, question, v)
    | Some _ =>
        '(u, r) ← advance u data;
        match r with
        | Ok (Some (_, leftover)) =>
            u ← flush (with_outgoing u (outgoing u ++ framed question));
            let '(v, question) := probe_receive question leftover in mret (u, question, v)
        | Ok None => mret (u, question, None)
        | Err _ => mret (u, question, Some false)
        end
    end;
  mret (u, question, (verdict, finished || closed u)).

Definition probe_ready (id : Z) : M () :=
  running ← get probes;
  match (running : gmap Z Probe) !! id with
  | None => mret ()
  | Some p =>
      '(p, (answered, finished)) ← match transport p with
        | DatagramSocket t =>
            r ← asks (ProbeReceive t);
            mret (p, match r with
                     | ProbeGot data => (Some (answers (probe_dns p) data), false)
                     | ProbeBlocks => (None, false)
                     | ProbeFails => (Some false, true)
                     end)
        | Stream u =>
            '(u, question, r) ← lift (probe_stream u (probe_dns p));
            mret (mk_running_probe (Stream u) (probe_request p) question (probe_started p), r)
        end;
      _ ← put (λ s, with_probes s (<[id := p]> (probes s)));
      if bool_decide (answered = None) && negb finished then mret () else
      let reply := if bool_decide (answered = Some true)
                   then build_echo_reply <$> parse_ipv4 (probe_request p) else None in
      _ ← remove_probe id;
      match reply with Some reply => emit reply | None => mret () end
  end.

(** *** The loop *)

Definition set_upstream (key : FlowKey) (u : Upstream) : M () :=
  put (λ s, with_tcp s (alter (λ f, with_upstream f u) key (tcp s))).

Definition on_ready (t : Z) (readable : bool) : M () :=
  owned ← get owners;
  match (owned : gmap Z Owner) !! t with
  | None => mret ()
  | Some (OwnTcp key) =>
      flows ← get tcp;
      match (flows : gmap FlowKey TcpFlow) !! key with
      | None => mret ()
      | Some flow =>
          u ← lift (flush (with_read_pending (upstream flow) (read_pending (upstream flow) || readable)));
          set_upstream key u
      end
  | Some (OwnUdpControl port) => udp_control_ready port
  | Some (OwnUdpData port) => udp_data_ready port
  | Some (OwnDns id) => dns_ready id
  | Some (OwnProbe id) => probe_ready id
  end.

Definition queue_packet (packet : list byte) : M () := put (λ s, with_device_rx s (device_rx s ++ [packet])).

Definition on_tcp (packet : list byte) (destination : list byte) (head : TcpHead) : M () :=
  let key := mk_key (tcp_source head) (SocketAddr destination (tcp_destination head)) in
  flows ← get tcp;
  match (flows : gmap FlowKey TcpFlow) !! key with
  | Some flow =>
      if bool_decide (socket flow = None) && rst head then
        _ ← count (one_more tcp_cancelled with_tcp_cancelled); remove_tcp key
      else if bool_decide (is_Some (socket flow)) then queue_packet packet
      else if syn head then
        put (λ s, with_tcp s (<[key := with_held_syn flow (Some (packet, sequence head))]> (tcp s)))
      else mret ()
  | None =>
      if syn head && negb (ack head) then open_tcp key packet (sequence head)
      else if negb (rst head) then
        emit (build_tcp_reset (remote key) (SocketAddr client (local_port key)) ((sequence head + 1) mod 2 ^ 32))
      else mret ()
  end.

Fixpoint on_app_packet (fuel : nat) (packet : list byte) : M () :=
  match parse_ipv4 packet with
  | None => mret ()
  | Some ip4 =>
      if protocol ip4 =? PROTOCOL_TCP then
        match (if fragmented ip4 then None else parse_tcp (payload ip4)) with
        | None => queue_packet packet
        | Some head => on_tcp packet (destination ip4) head
        end
      else if (protocol ip4 =? PROTOCOL_UDP) && fragmented ip4 then
        now ← asks Now;
        held ← get fragments;
        match push held packet now with
        | Panic => crash
        | Ret (rebuilt, held) =>
            _ ← put (λ s, with_fragments s held);
            match rebuilt, fuel with
            | None, _ => mret ()
            | Some _, O => spin
            | Some datagram, S fuel => on_app_packet fuel datagram
            end
        end
      else if protocol ip4 =? PROTOCOL_UDP then
        match parse_udp (payload ip4) with
        | None => mret ()
        | Some u =>
            if (udp_destination u =? DNS_PORT) && is_proxy exit
            then lookup (udp_source u) (destination ip4) (udp_payload u)
            else send_udp rounds (udp_source u) (SocketAddr (destination ip4) (udp_destination u)) (udp_payload u)
        end
      else if is_echo_request ip4 && bool_decide (destination ip4 = probe_target) then probe packet
      else count (one_more dropped with_dropped)
  end.

Definition poll_interface : M () :=
  rx ← get device_rx;
  '(rest, tx) ← asks (IfacePoll rx);
  put (λ s, with_device_tx (with_device_rx s rest) (device_tx s ++ tx)).

Definition idle_association (now : Z) (a : UdpAssociation) : bool :=
  match state a with
  | Refused until => until <=? now
  | _ => idle_after a <? since now (last_used a)
  end.

Definition late_stream (now : Z) (d : DnsUpstream) : bool :=
  existsb (λ q, DNS_TIMEOUT <=? since now (sent q)) (map_to_list (in_flight d)).*2.
Definition idle_stream (now : Z) (d : DnsUpstream) : bool :=
  bool_decide (in_flight d = ∅) && (DNS_IDLE <=? since now (idle_since d)).

(** The streams to close: the late ones, and the idle ones but one to each
    resolver. *)
Fixpoint closing_streams (streams : gmap Z DnsUpstream) (now : Z) (ids : list Z) (spare_kept : list (list byte))
    : list Z :=
  match ids with
  | [] => []
  | id :: ids =>
      match streams !! id with
      | None => closing_streams streams now ids spare_kept
      | Some d =>
          if late_stream now d then id :: closing_streams streams now ids spare_kept
          else if idle_stream now d then
            if bool_decide (resolver d ∈ spare_kept) then id :: closing_streams streams now ids spare_kept
            else closing_streams streams now ids (resolver d :: spare_kept)
          else closing_streams streams now ids spare_kept
      end
  end.

Definition expire_stream (id : Z) : M () :=
  streams ← get dns;
  match (streams : gmap Z DnsUpstream) !! id with
  | None => mret ()
  | Some d => _ ← close_stream id d; settle_lookups d false
  end.

(** Each probe's [elapsed] is read by itself. *)
Fixpoint stale_probes (running : gmap Z Probe) (ids : list Z) : prog (list Z) :=
  match ids with
  | [] => mret []
  | id :: ids =>
      match running !! id with
      | None => stale_probes running ids
      | Some p =>
          now ← ask Now;
          rest ← stale_probes running ids;
          mret (if DIAL_TIMEOUT <? since now (probe_started p) then id :: rest else rest)
      end
  end.

Definition expire : M () :=
  now ← asks Now;
  associations ← get udp;
  ports ← asks (Order (elements (dom (associations : gmap Z UdpAssociation))));
  _ ← for_each (filter (λ port, from_option (idle_association now) false (associations !! port) = true) ports) remove_udp;
  streams ← get dns;
  ids ← asks (Order (elements (dom (streams : gmap Z DnsUpstream))));
  _ ← for_each (closing_streams streams now ids []) expire_stream;
  running ← get probes;
  ids ← asks (Order (elements (dom (running : gmap Z Probe))));
  stale ← lift (stale_probes running ids);
  for_each stale remove_probe.

Definition turn : M () :=
  _ ← poll_interface;
  _ ← pump_tcp;
  _ ← poll_interface;
  tx ← get device_tx;
  _ ← put (λ s, with_device_tx s []);
  _ ← for_each tx emit;
  expire.

(** How long to wait for readiness: not at all long while bytes are held back. *)
Definition poll_timeout : M Z :=
  flows ← get tcp;
  let busy := existsb (λ f, negb (bool_decide (outgoing (upstream f) = [])) || negb (bool_decide (to_app f = [])))
                (map_to_list (flows : gmap FlowKey TcpFlow)).*2 in
  let ceiling := if busy then ms 5 else ms 100 in
  delay ← asks PollDelay;
  mret (match delay with Some delay => Z.min delay ceiling | None => ceiling end).

(** One turn of [run]'s [while]: readiness, the inbox, then [turn]. *)
Definition iteration : M () :=
  timeout ← poll_timeout;
  events ← asks (PollEvents timeout);
  match events with
  | None => mret ()
  | Some events =>
      _ ← for_each events (λ e, if e.1 =? WAKER then mret () else on_ready e.1 e.2);
      packets ← asks TakeInbox;
      _ ← for_each packets (on_app_packet rounds);
      turn
  end.

(** [shutdown], the state it leaves being dropped with the stack. *)
Definition shutdown : M () :=
  flows ← get tcp;
  _ ← for_each (elements (dom (flows : gmap FlowKey TcpFlow))) remove_tcp;
  streams ← get dns;
  _ ← for_each (map_to_list (streams : gmap Z DnsUpstream)) (λ d, deregister (dns_stream d.2));
  _ ← put (λ s, with_dns s ∅);
  running ← get probes;
  _ ← for_each (elements (dom (running : gmap Z Probe))) remove_probe;
  put (λ s, with_udp s ∅).

(** [run], until it is told to stop. *)
Fixpoint run (turns : nat) : M () :=
  stop ← asks Stopped;
  if (stop : bool) then shutdown else
  match turns with
  | O => spin
  | S turns => _ ← iteration; run turns
  end.

End stack.
