(* ===== verification/ExitSafety.v ===== *)
(** * What every program of the forwarding stack keeps

    Reasoning about [ExitStack]'s programs against an environment that may answer
    anything its documentation allows ([legal]): a program is correct when every
    way of answering it leaves its postcondition true and never a panic. What the
    environment was asked and answered is the trace, and the views of a trace say
    what each stream and each [smoltcp] socket has carried so far. *)
From S2P Require Import Text SocksWire Prelude Fragments ExitPacket ExitHandshake ExitStack.

Record event : Type := mk_event { asked_for : call; answered : answer asked_for }.

Definition trace : Type := list event.

(** ** Views of a trace *)

(** What the exit's stream [t] has taken, and what it has delivered. *)
Definition writes_of (t : Z) (e : event) : list byte :=
  match e with
  | mk_event (WriteTo t' data) (Wrote n) => if t' =? t then take (Z.to_nat n) data else []
  | _ => []
  end.
Definition reads_of (t : Z) (e : event) : list byte :=
  match e with
  | mk_event (ReadFrom t' _) (Got data) => if t' =? t then data else []
  | _ => []
  end.
Definition written (tr : trace) (t : Z) : list byte := mjoin (writes_of t <$> tr).
Definition got (tr : trace) (t : Z) : list byte := mjoin (reads_of t <$> tr).

(** What the application's socket [h] was given, and what was taken from it,
    since it was added. *)
Definition gives_of (h : Z) (given : list byte) (e : event) : list byte :=
  match e with
  | mk_event (SockSend h' data) (Some n) => if h' =? h then given ++ take (Z.to_nat n) data else given
  | mk_event SockAdd h' => if h' =? h then [] else given
  | _ => given
  end.
Definition takes_of (h : Z) (taken : list byte) (e : event) : list byte :=
  match e with
  | mk_event (SockRecv h') (Some data) => if h' =? h then taken ++ data else taken
  | mk_event SockAdd h' => if h' =? h then [] else taken
  | _ => taken
  end.
Definition given (tr : trace) (h : Z) : list byte := foldl (gives_of h) [] tr.
Definition taken (tr : trace) (h : Z) : list byte := foldl (takes_of h) [] tr.

(** The sockets in the set. *)
Definition sockets_after (l : gset Z) (e : event) : gset Z :=
  match e with
  | mk_event SockAdd h => l ∪ {[h]}
  | mk_event (SockRemove h) _ => l ∖ {[h]}
  | _ => l
  end.
Definition live (tr : trace) : gset Z := foldl sockets_after ∅ tr.

(** ** What may be answered

    A write takes no more than it was given and a read no more than was asked; a
    [smoltcp] socket gives at most a buffer and takes at most what it was given;
    a new socket's handle is not in use; a [HashMap] is iterated in some order; a
    random [u16] is one. [TRACE] questions are more than any run asks. *)

Definition TRACE : Z := 2 ^ 63.

Definition legal (tr : trace) (c : call) : answer c → Prop :=
  match c with
  | WriteTo _ data => λ w, match w with Wrote n => 0 <= n <= zlen data | _ => True end
  | ReadFrom _ want => λ r, match r with Got data => zlen data <= want | _ => True end
  | SockRecv _ => λ r, match r with Some data => zlen data <= BUFFER | None => True end
  | SockSend _ data => λ n, match n with Some n => 0 <= n <= zlen data | None => True end
  | SockAdd => λ h, h ∉ live tr
  | OrderFlows l => λ k, k ≡ₚ l
  | Order l => λ k, k ≡ₚ l
  | Random16 => λ n, 0 <= n < 65536
  | _ => λ _, True
  end.

(** [m], asking on after [tr], never panics and ends with [Q]. *)
Fixpoint wp {A} (m : prog A) (tr : trace) (Q : A → trace → Prop) : Prop :=
  match m with
  | Return a => Q a tr
  | Ask c k => ∀ a, zlen tr < TRACE → legal tr c a → wp (k a) (tr ++ [mk_event c a]) Q
  | Spin => True
  | Crash => False
  end.

Definition wpm {A} (m : M A) (s : Stack) (tr : trace) (Q : A → Stack → trace → Prop) : Prop :=
  wp (m s) tr (λ r tr', Q r.1 r.2 tr').

Lemma prog_wp_mono {A} (m : prog A) tr (Q Q' : A → trace → Prop) :
  wp m tr Q → (∀ a tr', Q a tr' → Q' a tr') → wp m tr Q'.
Proof. revert tr. induction m as [a|c k IH| |]; intros tr; cbn [wp]; eauto. Qed.

Lemma wp_and {A} (m : prog A) tr (Q Q' : A → trace → Prop) :
  wp m tr Q → wp m tr Q' → wp m tr (λ a tr', Q a tr' ∧ Q' a tr').
Proof. revert tr. induction m as [a|c k IH| |]; intros tr; cbn [wp]; eauto. Qed.

Lemma prog_wp_bind {A B} (m : prog A) (f : A → prog B) tr Q :
  wp m tr (λ a tr', wp (f a) tr' Q) → wp (m ≫= f) tr Q.
Proof.
  revert tr. induction m as [a|c k IH| |]; intros tr; cbn [wp mbind prog_bind]; [done| |done|done].
  intros Hm a Hlen Ha. apply IH. by apply Hm.
Qed.

Lemma prog_wp_ret {A} (a : A) tr (Q : A → trace → Prop) : Q a tr → wp (mret a) tr Q.
Proof. done. Qed.

Lemma wp_ask c tr (Q : answer c → trace → Prop) :
  (∀ a, zlen tr < TRACE → legal tr c a → Q a (tr ++ [mk_event c a])) → wp (ask c) tr Q.
Proof. done. Qed.

Lemma wpm_mono {A} (m : M A) s tr (Q Q' : A → Stack → trace → Prop) :
  wpm m s tr Q → (∀ a s' tr', Q a s' tr' → Q' a s' tr') → wpm m s tr Q'.
Proof. intros Hm HQ. eapply prog_wp_mono; [exact Hm|]. intros [a s'] tr'. apply HQ. Qed.

Lemma wpm_bind {A B} (m : M A) (f : A → M B) s tr Q :
  wpm m s tr (λ a s' tr', wpm (f a) s' tr' Q) → wpm (m ≫= f) s tr Q.
Proof.
  intros Hm. unfold wpm, mbind, M_bind. apply prog_wp_bind. eapply prog_wp_mono; [exact Hm|].
  by intros [a s'] tr'.
Qed.

Lemma wpm_ret {A} (a : A) s tr (Q : A → Stack → trace → Prop) : Q a s tr → wpm (mret a) s tr Q.
Proof. done. Qed.

Lemma wpm_get {A} (f : Stack → A) s tr (Q : A → Stack → trace → Prop) : Q (f s) s tr → wpm (ExitStack.get f) s tr Q.
Proof. done. Qed.

Lemma wpm_put (f : Stack → Stack) s tr (Q : () → Stack → trace → Prop) : Q () (f s) tr → wpm (put f) s tr Q.
Proof. done. Qed.

Lemma wpm_lift {A} (m : prog A) s tr (Q : A → Stack → trace → Prop) :
  wp m tr (λ a tr', Q a s tr') → wpm (lift m) s tr Q.
Proof. intros Hm. unfold wpm, lift. apply prog_wp_bind. eapply prog_wp_mono; [exact Hm|done]. Qed.

Lemma wpm_asks c s tr (Q : answer c → Stack → trace → Prop) :
  (∀ a, zlen tr < TRACE → legal tr c a → Q a s (tr ++ [mk_event c a])) → wpm (asks c) s tr Q.
Proof. intros HQ. apply wpm_lift. exact HQ. Qed.

Lemma wpm_spin {A} s tr (Q : A → Stack → trace → Prop) : wpm spin s tr Q.
Proof. done. Qed.

Lemma wpm_for_each {A} (l : list A) (f : A → M ()) (J : list A → Stack → trace → Prop) s tr :
  (∀ x l s tr, J (x :: l) s tr → wpm (f x) s tr (λ _ s' tr', J l s' tr')) →
  J l s tr → wpm (for_each l f) s tr (λ _ s' tr', J [] s' tr').
Proof.
  intros Hf. revert s tr. induction l as [|x l IH]; intros s tr HJ; [done|].
  cbn [for_each]. apply wpm_bind. eapply wpm_mono; [by apply Hf|]. intros [] s' tr' HJ'. by apply IH.
Qed.

(** One step at a time. *)
Ltac step :=
  lazymatch goal with
  | |- wpm (_ ≫= _) _ _ _ => apply wpm_bind
  | |- wpm (mret _) _ _ _ => apply wpm_ret
  | |- wpm (ExitStack.get _) _ _ _ => apply wpm_get
  | |- wpm (put _) _ _ _ => apply wpm_put
  | |- wpm (lift _) _ _ _ => apply wpm_lift
  | |- wpm (asks _) _ _ _ => apply wpm_asks
  | |- wpm spin _ _ _ => exact I
  | |- wp (_ ≫= _) _ _ => apply prog_wp_bind
  | |- wp (mret _) _ _ => apply prog_wp_ret
  | |- wp (ask _) _ _ => apply wp_ask
  end.

(** ** Steps that leave the others alone *)

Lemma written_snoc tr e t : written (tr ++ [e]) t = written tr t ++ writes_of t e.
Proof. unfold written. rewrite fmap_app, join_app. cbn. by rewrite app_nil_r. Qed.
Lemma got_snoc tr e t : got (tr ++ [e]) t = got tr t ++ reads_of t e.
Proof. unfold got. rewrite fmap_app, join_app. cbn. by rewrite app_nil_r. Qed.
Lemma given_snoc tr e h : given (tr ++ [e]) h = gives_of h (given tr h) e.
Proof. unfold given. by rewrite foldl_app. Qed.
Lemma taken_snoc tr e h : taken (tr ++ [e]) h = takes_of h (taken tr h) e.
Proof. unfold taken. by rewrite foldl_app. Qed.
Lemma live_snoc tr e : live (tr ++ [e]) = sockets_after (live tr) e.
Proof. unfold live. by rewrite foldl_app. Qed.

(** From [tr] to [tr'] only the streams in [T] and the sockets in [H] moved. *)
Record quiet (T H : gset Z) (tr tr' : trace) : Prop := {
  q_len : zlen tr <= zlen tr' ∧ (zlen tr <= TRACE → zlen tr' <= TRACE);
  q_written : ∀ t, t ∉ T → written tr' t = written tr t;
  q_got : ∀ t, t ∉ T → got tr' t = got tr t;
  q_given : ∀ h, h ∉ H → given tr' h = given tr h;
  q_taken : ∀ h, h ∉ H → taken tr' h = taken tr h;
  q_live : live tr' = live tr
}.

#[export] Instance quiet_preorder T H : PreOrder (quiet T H).
Proof.
  split.
  - intros tr. by split.
  - intros t1 t2 t3 [[L1 L2] A B C D E] [[L3 L4] A' B' C' D' E']. split.
    + split; [lia|auto].
    + intros t Ht. by rewrite A', A.
    + intros t Ht. by rewrite B', B.
    + intros h Hh. by rewrite C', C.
    + intros h Hh. by rewrite D', D.
    + by rewrite E', E.
Qed.

Lemma quiet_weaken (T H T' H' : gset Z) tr tr' : quiet T H tr tr' → T ⊆ T' → H ⊆ H' → quiet T' H' tr tr'.
Proof. intros [] HT HH. split; try done; intros; eauto. Qed.

(** A question about neither. *)
Definition about (T H : gset Z) (c : call) : bool :=
  match c with
  | WriteTo t _ | ReadFrom t _ => bool_decide (t ∈ T)
  | SockSend h _ | SockRecv h => bool_decide (h ∈ H)
  | SockAdd | SockRemove _ => false
  | _ => true
  end.

Lemma quiet_event T H tr c a : zlen tr < TRACE → about T H c = true → quiet T H tr (tr ++ [mk_event c a]).
Proof.
  intros Hl Hc. split.
  - rewrite zlen_app. change (zlen [_]) with 1. lia.
  - intros t Ht. rewrite written_snoc. destruct c; try apply app_nil_r. cbn in a, Hc |- *.
    destruct a; try apply app_nil_r. apply bool_decide_eq_true in Hc.
    destruct (Z.eqb_spec t0 t) as [->|]; [done|apply app_nil_r].
  - intros t Ht. rewrite got_snoc. destruct c; try apply app_nil_r. cbn in a, Hc |- *.
    destruct a; try apply app_nil_r. apply bool_decide_eq_true in Hc.
    destruct (Z.eqb_spec t0 t) as [->|]; [done|apply app_nil_r].
  - intros h Hh. rewrite given_snoc. destruct c; try done. cbn in a, Hc |- *.
    destruct a; [|done]. apply bool_decide_eq_true in Hc. by destruct (Z.eqb_spec h0 h) as [->|].
  - intros h Hh. rewrite taken_snoc. destruct c; try done. cbn in a, Hc |- *.
    destruct a; [|done]. apply bool_decide_eq_true in Hc. by destruct (Z.eqb_spec h0 h) as [->|].
  - rewrite live_snoc. by destruct c.
Qed.

(** ** One stream *)

(** The stream is the same but for what it still has to write. *)
Record same_stream (u u' : Upstream) : Prop := {
  ss_token : token u' = token u;
  ss_handshake : handshake u' = handshake u;
  ss_connecting : connecting u' = connecting u
}.

#[export] Instance same_stream_preorder : PreOrder same_stream.
Proof. split; [by split|]. intros u1 u2 u3 [] []. split; congruence. Qed.

(** What [flush] does: bytes go from the queue to the wire, in order. *)
Definition flushed (u : Upstream) (tr : trace) (u' : Upstream) (tr' : trace) : Prop :=
  same_stream u u' ∧ quiet {[token u]} ∅ tr tr' ∧ got tr' (token u) = got tr (token u) ∧
  written tr' (token u) ++ outgoing u' = written tr (token u) ++ outgoing u ∧
  zlen (outgoing u') <= zlen (outgoing u).

Lemma flushed_refl u tr u' : same_stream u u' → outgoing u' = outgoing u → flushed u tr u' tr.
Proof. intros Hs Ho. unfold flushed. rewrite Ho. by split_and!. Qed.

Lemma flushed_trans u1 tr1 u2 tr2 u3 tr3 :
  flushed u1 tr1 u2 tr2 → flushed u2 tr2 u3 tr3 → flushed u1 tr1 u3 tr3.
Proof.
  intros (Hs & Hq & Hg & Hw & Hl) (Hs' & Hq' & Hg' & Hw' & Hl'). pose proof (ss_token _ _ Hs) as Ht.
  rewrite Ht in *. unfold flushed. split_and!; [by etrans|by etrans|congruence|congruence|lia].
Qed.

(** A question that moves no stream. *)
Lemma flushed_ask u tr c a u' :
  zlen tr < TRACE → about ∅ ∅ c = true → same_stream u u' → outgoing u' = outgoing u →
  flushed u tr u' (tr ++ [mk_event c a]).
Proof.
  intros Hl Hc Hs Ho. assert (quiet ∅ ∅ tr (tr ++ [mk_event c a])) as Hq by by apply quiet_event.
  unfold flushed. rewrite Ho. split_and!; [done|by eapply quiet_weaken|by apply Hq| |done].
  f_equal. by apply Hq.
Qed.

Lemma wp_watch_writes u watch tr : wp (watch_writes u watch) tr (λ u' tr', flushed u tr u' tr').
Proof.
  unfold watch_writes. destruct (bool_decide _); [by apply flushed_refl|].
  do 2 step. intros ok Hl _. apply flushed_ask; [done|done|by destruct ok|by destruct ok].
Qed.

Lemma wp_flush_loop fuel : ∀ u tr, wp (flush_loop fuel u) tr (λ r tr', flushed u tr r.1 tr').
Proof.
  induction fuel as [|fuel IH]; intros u tr; cbn [flush_loop]; [by apply flushed_refl|].
  destruct (_ || _); [by apply flushed_refl|]. do 2 step. intros w Hl Hw.
  assert (∀ u', same_stream u u' → outgoing u' = outgoing u → (∀ n, w ≠ Wrote n ∨ n = 0) →
    flushed u tr u' (tr ++ [mk_event (WriteTo (token u) (outgoing u)) w])) as Hsame.
  { intros u' Hs Ho Hn. assert (quiet {[token u]} ∅ tr (tr ++ [mk_event (WriteTo (token u) (outgoing u)) w])) as Hq.
    { apply quiet_event; [done|]. cbn. apply bool_decide_eq_true. set_solver. }
    unfold flushed. rewrite Ho. split_and!; [done|done| | |done].
    - rewrite got_snoc. apply app_nil_r.
    - f_equal. rewrite written_snoc. destruct w as [n| | |]; try apply app_nil_r.
      destruct (Hn n) as [Hne| ->]; [done|]. cbn. rewrite take_0. destruct (_ =? _); apply app_nil_r. }
  destruct w as [n| | |].
  - destruct (Z.eqb_spec n 0) as [->|Hn].
    + eapply prog_wp_mono; [apply IH|]. intros [u' b] tr' Hf. eapply flushed_trans; [|exact Hf].
      apply Hsame; [done|done|]. intros m. destruct (decide (m = 0)); [by right|left; congruence].
    + eapply prog_wp_mono; [apply IH|]. intros [u' b] tr' Hf. eapply flushed_trans; [|exact Hf].
      cbn in Hw. unfold flushed. cbn [outgoing with_outgoing with_connected token]. split_and!.
      * done.
      * apply quiet_event; [done|]. cbn. apply bool_decide_eq_true. set_solver.
      * rewrite got_snoc. apply app_nil_r.
      * rewrite written_snoc. cbn. rewrite Z.eqb_refl, <-app_assoc. f_equal. apply take_drop.
      * unfold zlen in *. rewrite length_drop. lia.
  - do 2 step. intros now Hl' _. step. eapply prog_wp_mono; [apply wp_watch_writes|]. intros u' tr' Hf. cbn [wp mret prog_ret fst].
    eapply flushed_trans; [by apply Hsame; [| |left]|]. eapply flushed_trans; [|exact Hf].
    by apply flushed_ask.
  - apply Hsame; [done|done|by left].
  - eapply prog_wp_mono; [apply IH|]. intros [u' b] tr' Hf. eapply flushed_trans; [|exact Hf].
    apply Hsame; [done|done|by left].
Qed.

Lemma wp_flush u tr : wp (flush u) tr (λ u' tr', flushed u tr u' tr').
Proof.
  unfold flush. step.
  assert (∀ tr1 (b : bool), flushed u tr u tr1 → wp (if b then mret u else
      '(u0, early) ← flush_loop (S (S (length (outgoing u)))) (with_write_retry_at u None);
      if (early : bool) then mret u0
      else if bool_decide (outgoing u0 = []) && connected u0 then watch_writes u0 false else mret u0) tr1
      (λ u' tr', flushed u tr u' tr')) as Hrest.
  { intros tr1 b H1. destruct b; [done|]. step. eapply prog_wp_mono; [apply wp_flush_loop|].
    intros [u1 early] tr2 H2. cbn [fst] in H2.
    assert (flushed u tr u1 tr2) as H3.
    { eapply flushed_trans; [exact H1|]. eapply flushed_trans; [|exact H2]. by apply flushed_refl. }
    destruct early; [done|]. destruct (_ && _); [|done].
    eapply prog_wp_mono; [apply wp_watch_writes|]. intros u' tr' H4. by eapply flushed_trans. }
  destruct (write_retry_at u) as [at_|].
  - do 2 step. intros now Hl _. step. apply (Hrest _ (now <? at_)). by apply flushed_ask.
  - step. apply (Hrest _ false). by apply flushed_refl.
Qed.

(** What [read] does: what arrived is what was read, in order, within the room. *)
Definition has_read (u : Upstream) (tr : trace) (data : list byte) (u' : Upstream) (tr' : trace) : Prop :=
  same_stream u u' ∧ outgoing u' = outgoing u ∧ quiet {[token u]} ∅ tr tr' ∧
  written tr' (token u) = written tr (token u) ∧ got tr' (token u) = got tr (token u) ++ data.

Lemma has_read_same u tr u' : same_stream u u' → outgoing u' = outgoing u → has_read u tr [] u' tr.
Proof. intros Hs Ho. unfold has_read. by rewrite app_nil_r. Qed.

Lemma has_read_trans u1 tr1 d1 u2 tr2 d2 u3 tr3 :
  has_read u1 tr1 d1 u2 tr2 → has_read u2 tr2 d2 u3 tr3 → has_read u1 tr1 (d1 ++ d2) u3 tr3.
Proof.
  intros (Hs & Ho & Hq & Hw & Hg) (Hs' & Ho' & Hq' & Hw' & Hg'). pose proof (ss_token _ _ Hs) as Ht.
  rewrite Ht in *. unfold has_read.
  split_and!; [by etrans|congruence|by etrans|congruence|]. by rewrite Hg', Hg, app_assoc.
Qed.

Lemma has_read_ask u tr n r u' :
  zlen tr < TRACE → same_stream u u' → outgoing u' = outgoing u →
  has_read u tr (match r with Got d => d | _ => [] end) u' (tr ++ [mk_event (ReadFrom (token u) n) r]).
Proof.
  intros Hl Hs Ho. unfold has_read. split_and!; [done|done| | |].
  - apply quiet_event; [done|]. cbn. apply bool_decide_eq_true. set_solver.
  - rewrite written_snoc. apply app_nil_r.
  - rewrite got_snoc. f_equal. destruct r; try done. cbn. by rewrite Z.eqb_refl.
Qed.

Lemma wp_read_end room u0 tr0 more u data b tr :
  zlen (data ++ more) <= room → has_read u0 tr0 more u tr →
  wp (read_end room u (data ++ more) b) tr (λ r tr', ∃ more,
    r.2.1 = data ++ more ∧ zlen (data ++ more) <= room ∧ has_read u0 tr0 more r.1 tr').
Proof.
  intros Hl Hr. unfold read_end. step. exists more. split; [done|]. split; [done|]. cbn [fst snd].
  destruct (_ <=? _); [|done]. rewrite <-(app_nil_r more). eapply has_read_trans; [exact Hr|].
  by apply has_read_same.
Qed.

Lemma wp_read_loop fuel room : ∀ u data tr,
  zlen data <= room →
  wp (read_loop fuel u room data) tr (λ r tr', ∃ more,
    r.2.1 = data ++ more ∧ zlen (data ++ more) <= room ∧ has_read u tr more r.1 tr').
Proof.
  assert (∀ u data tr0 u0 b tr, zlen data <= room → has_read u0 tr0 [] u tr →
    wp (read_end room u data b) tr (λ r tr', ∃ more,
      r.2.1 = data ++ more ∧ zlen (data ++ more) <= room ∧ has_read u0 tr0 more r.1 tr')) as Hend.
  { intros u data tr0 u0 b tr Hl Hr. rewrite <-(app_nil_r data) at 1.
    apply wp_read_end; [by rewrite app_nil_r|done]. }
  induction fuel as [|fuel IH]; intros u data tr Hl; cbn [read_loop].
  { apply Hend; [done|by apply has_read_same]. }
  destruct (Z.leb_spec room (zlen data)) as [Hfull|Hroom].
  { apply Hend; [done|by apply has_read_same]. }
  do 2 step. intros r Htr Hr.
  pose proof (λ u', has_read_ask u tr (Z.min BUFFER (room - zlen data)) r u' Htr) as Hask.
  assert (∀ u', has_read u tr [] u' (tr ++ [mk_event (ReadFrom (token u) (Z.min BUFFER (room - zlen data))) r]) →
    ∃ more, data = data ++ more ∧ zlen (data ++ more) <= room ∧
      has_read u tr more u' (tr ++ [mk_event (ReadFrom (token u) (Z.min BUFFER (room - zlen data))) r])) as Hnone.
  { intros u' Hu. exists []. by rewrite app_nil_r. }
  destruct r as [[|b d]| | |].
  - apply Hend; [done|]. by apply Hask.
  - cbn in Hr. eapply prog_wp_mono; [apply IH; rewrite zlen_app; lia|].
    intros r tr' (more & Er & Hlen & Hm). exists ((b :: d) ++ more). rewrite app_assoc.
    split; [done|]. split; [done|]. eapply has_read_trans; [by apply (Hask u)|exact Hm].
  - step. apply Hnone. by apply Hask.
  - step. apply Hnone. by apply Hask.
  - apply Hend; [done|]. by apply Hask.
Qed.

Lemma wp_read u room tr :
  0 <= room → wp (read u room) tr (λ r tr', zlen r.2.1 <= room ∧ has_read u tr r.2.1 r.1 tr').
Proof.
  intros Hr. eapply prog_wp_mono; [by apply wp_read_loop|]. intros r tr' (more & -> & Hl & Hm). done.
Qed.

(** ** The handshake on a stream *)

(** From [h0], the pieces heard so far made the handshake say [said]. *)
Inductive talks (h0 : Handshake) : list byte → list byte → Handshake → Prop :=
| Talks_start : talks h0 [] [] h0
| Talks_send said heard h data bytes h' :
    talks h0 said heard h → zlen data <= 4096 → receive h data = (Ok (Send bytes), h') →
    talks h0 (said ++ bytes) (heard ++ data) h'
| Talks_wait said heard h data h' :
    talks h0 said heard h → zlen data <= 4096 → receive h data = (Ok Wait, h') →
    talks h0 said (heard ++ data) h'.

Definition agrees (h0 : Handshake) (said heard leftover : list byte) : Prop :=
  ∃ heard' h data bound h', talks h0 said heard' h ∧ zlen data <= 4096 ∧
    receive h data = (Ok (Agreed bound leftover), h') ∧ heard = heard' ++ data.

(** A login the configuration's validation lets through. *)
Definition login_wf (login : option (list byte * list byte)) : Prop :=
  ∀ u p, login = Some (u, p) → zlen u <= 255 ∧ zlen p <= 255.

Definition hs_room (login : option (list byte * list byte)) (target : SocketAddrV4) (said : list byte) (h : Handshake) : Prop :=
  hs_credentials h = login ∧ hs_target h = target ∧
  match stage h with
  | AtMethod => zlen (input h) <= 1 ∧ said = []
  | AtAuth => zlen (input h) <= 4097 ∧ zlen said <= 513
  | AtReply => zlen (input h) <= 8194 ∧ zlen said <= 523
  | Finished => False
  end.

Lemma finish_reply_room h t n r h' :
  finish_reply h t n = (r, h') → 0 <= n <= 256 →
  match r with
  | Ok Wait => h' = h ∧ zlen (input h) <= 262
  | Ok (Agreed _ leftover) => zlen leftover <= zlen (input h)
  | _ => False
  end.
Proof.
  unfold finish_reply. intros Hf Hn. destruct (Z.ltb_spec (zlen (input h)) (4 + n + 2)).
  - injection Hf as <- <-. split; [done|lia].
  - injection Hf as <- <-. unfold zlen. rewrite length_drop. lia.
Qed.

Lemma receive_room login target said h data r h' :
  login_wf login → zlen (ip target) = 4 → hs_room login target said h → zlen data <= 4096 → receive h data = (r, h') →
  match r with
  | Ok (Send bytes) => hs_room login target (said ++ bytes) h'
  | Ok Wait => hs_room login target said h'
  | Ok (Agreed _ leftover) => zlen leftover <= 12290
  | Err _ => True
  end.
Proof.
  intros Hlogin Hip (Hc & Ht & Hroom) Hd Hr. pose proof (zlen_nonneg data). pose proof (zlen_nonneg (input h)).
  assert (r = Ok Wait → h' = with_input h (input h ++ data)) as Hwait.
  { intros ->. by apply receive_wait. }
  unfold receive in Hr. set (k := with_input h (input h ++ data)) in *.
  assert (zlen (input k) = zlen (input h) + zlen data) as Hk by (cbn; by rewrite zlen_app).
  assert (∀ k', hs_command k' = hs_command h → hs_target k' = target → zlen (request_bytes k') = 10) as Hq.
  { intros k' _ E. unfold request_bytes. rewrite !zlen_app, zlen_be_bytes, E, Hip. done. }
  change (stage k) with (stage h) in Hr. unfold hs_room. destruct (stage h) eqn:Es.
  - destruct Hroom as [Hi ->]. unfold method in Hr. destruct (input k) as [|v [|m rest]] eqn:Ei.
    1,2: injection Hr as <- <-; unfold k; cbn [with_input hs_credentials hs_target stage input]; rewrite Es;
      split_and!; try done; change (input h ++ data) with (input k); by rewrite Ei.
    rewrite !zlen_cons in Hk. pose proof (zlen_nonneg rest).
    destruct (negb _); [by injection Hr as <- <-|]. destruct (_ =? _).
    { injection Hr as <- <-. cbn [with_stage with_input hs_credentials hs_target stage input].
      split_and!; [done|done|lia|]. rewrite app_nil_l, Hq by done. lia. }
    destruct (_ =? _); [|by destruct (_ =? _); injection Hr as <- <-].
    cbn [with_input hs_credentials] in Hr. change (hs_credentials k) with (hs_credentials h) in Hr. rewrite Hc in Hr.
    destruct login as [[u p]|]; injection Hr as <- <-; [|done]. destruct (Hlogin u p eq_refl).
    cbn [with_stage with_input hs_credentials hs_target stage input]. split_and!; [done|done|lia|].
    unfold auth_bytes. rewrite app_nil_l, !zlen_app, !zlen_cons, zlen_nil. lia.
  - destruct Hroom as [Hi Hsaid]. unfold auth in Hr. destruct (input k) as [|v [|m rest]] eqn:Ei.
    1,2: injection Hr as <- <-; unfold k; cbn [with_input hs_credentials hs_target stage input]; rewrite Es;
      split_and!; try done; change (input h ++ data) with (input k); rewrite Ei; vm_compute; discriminate.
    rewrite !zlen_cons in Hk. pose proof (zlen_nonneg rest).
    destruct (negb _); [by injection Hr as <- <-|]. injection Hr as <- <-.
    cbn [with_stage with_input hs_credentials hs_target stage input].
    split_and!; [done|done|lia|]. rewrite zlen_app, Hq by done. lia.
  - destruct Hroom as [Hi Hsaid].
    assert (∀ t n, finish_reply k t n = (r, h') → 0 <= n <= 256 →
      match r with
      | Ok (Send bytes) => False
      | Ok Wait => hs_room login target said h'
      | Ok (Agreed _ leftover) => zlen leftover <= 12290
      | Err _ => True
      end) as Hf.
    { intros t n E Hn. apply finish_reply_room in E; [|done]. destruct r as [[]|]; try done.
      - destruct E as [-> E]. split; [done|]. split; [done|]. change (stage k) with (stage h). rewrite Es. lia.
      - lia. }
    assert (∀ t n, finish_reply k t n = (r, h') → 0 <= n <= 256 →
      match r with
      | Ok (Send bytes) => hs_room login target (said ++ bytes) h'
      | Ok Wait => hs_room login target said h'
      | Ok (Agreed _ leftover) => zlen leftover <= 12290
      | Err _ => True
      end) as Hf'.
    { intros t n E Hn. specialize (Hf t n E Hn). by destruct r as [[]|]. }
    unfold hs_room in Hf'.
    assert ((r, h') = (Ok Wait, k) → zlen (input k) <= 4 →
      match r with
      | Ok (Send bytes) => hs_room login target (said ++ bytes) h'
      | Ok Wait => hs_room login target said h'
      | Ok (Agreed _ leftover) => zlen leftover <= 12290
      | Err _ => True
      end) as Hshort.
    { intros [= -> ->] Hlen. split; [done|]. split; [done|]. change (stage k) with (stage h). rewrite Es. lia. }
    unfold hs_room in Hshort.
    unfold read_reply in Hr. destruct (input k) as [|v [|c [|z [|t rest]]]] eqn:Ei.
    1,2,3,4: apply Hshort; [by rewrite Hr|vm_compute; discriminate].
    destruct (negb _); [by injection Hr as <- <-|]. destruct (negb _); [by injection Hr as <- <-|].
    destruct (_ =? _); [by apply (Hf' _ _ Hr)|]. destruct (_ =? _); [by apply (Hf' _ _ Hr)|].
    destruct (_ =? _); [|by injection Hr as <- <-]. destruct rest as [|n rest].
    + apply Hshort; [by rewrite Hr|vm_compute; discriminate].
    + apply (Hf' _ _ Hr). pose proof (b2z_range n). lia.
  - done.
Qed.

Section invariant.
Context (client probe_target : list byte) (exit : Exit) (rounds : nat).

Definition login : option (list byte * list byte) := match exit with Proxy _ login => login | Adapter => None end.

Hypothesis login_ok : login_wf login.

(** ** The life of a connection *)

Definition first_word (key : FlowKey) : list byte := (start Connect (remote key) login).2.
Definition first_state (key : FlowKey) : Handshake := (start Connect (remote key) login).1.

(** What was exchanged to open the far end: [hello] went out, [heard] came back,
    and [leftover], behind it, is already the connection's. Through an adapter
    there is nothing to exchange. *)
Definition opening (key : FlowKey) (hello heard leftover : list byte) : Prop :=
  match exit with
  | Proxy _ _ => ∃ said, agrees (first_state key) said heard leftover ∧ hello = first_word key ++ said
  | Adapter => hello = [] ∧ heard = [] ∧ leftover = []
  end.

Definition sent_all (tr : trace) (u : Upstream) : list byte := written tr (token u) ++ outgoing u.

(** The far end is open, and nothing has been carried yet. *)
Definition opened (key : FlowKey) (u : Upstream) (leftover : list byte) (tr : trace) : Prop :=
  handshake u = None ∧ connecting u = false ∧ zlen leftover <= PENDING_LIMIT ∧
  zlen (outgoing u) <= PENDING_LIMIT + BUFFER ∧
  opening key (sent_all tr u) (got tr (token u)) leftover.

(** Through a proxy, a connection being opened is in the middle of a handshake;
    through an adapter, it waits for the far end. *)
Definition dialling (key : FlowKey) (u : Upstream) (tr : trace) : Prop :=
  match exit with
  | Proxy _ _ => connecting u = false ∧ ∃ h said, handshake u = Some h ∧
      talks (first_state key) said (got tr (token u)) h ∧ hs_room login (remote key) said h ∧
      sent_all tr u = first_word key ++ said
  | Adapter => connecting u = true ∧ handshake u = None ∧ sent_all tr u = [] ∧ got tr (token u) = []
  end.

(** What the connection carries: all the application sent follows the opening
    words, and all the exit sent after its own goes to the application. *)
Definition carries (key : FlowKey) (u : Upstream) (h : Z) (to_app : list byte) (tr : trace) : Prop :=
  ∃ hello heard leftover more,
    opening key hello heard leftover ∧
    sent_all tr u = hello ++ taken tr h ∧
    got tr (token u) = heard ++ more ∧
    leftover ++ more = given tr h ++ to_app.

(** A SYN is held until the far end is open; then the socket has it. *)
Definition waits (f : TcpFlow) : Prop := socket f = None ∧ is_Some (held_syn f) ∧ to_app f = [].

Definition flow_ok (key : FlowKey) (f : TcpFlow) (tr : trace) : Prop :=
  let u := upstream f in
  match socket f with
  | None => waits f ∧ (dialling key u tr ∨ handshake u = None ∧ connecting u = false)
  | Some h =>
      held_syn f = None ∧ handshake u = None ∧ connecting u = false ∧
      zlen (to_app f) <= PENDING_LIMIT ∧ zlen (outgoing u) <= PENDING_LIMIT + BUFFER ∧
      carries key u h (to_app f) tr
  end.

(** What [flow_ok] depends on. *)
Lemma flow_ok_quiet key f tr tr' (T H : gset Z) :
  flow_ok key f tr → quiet T H tr tr' → token (upstream f) ∉ T → (∀ h, socket f = Some h → h ∉ H) →
  flow_ok key f tr'.
Proof.
  unfold flow_ok, dialling, carries, sent_all. intros Hf Hq Ht Hh.
  rewrite (q_written _ _ _ _ Hq), (q_got _ _ _ _ Hq) by done.
  destruct (socket f) as [h|]; [|done]. specialize (Hh h eq_refl).
  by rewrite (q_given _ _ _ _ Hq), (q_taken _ _ _ _ Hq).
Qed.

Lemma flow_ok_ask key f tr c a :
  flow_ok key f tr → zlen tr < TRACE → about ∅ ∅ c = true → flow_ok key f (tr ++ [mk_event c a]).
Proof. intros Hf Hl Hc. eapply flow_ok_quiet; [exact Hf|by apply quiet_event|set_solver|set_solver]. Qed.

(** ** Steps of one connection *)

Lemma sent_all_flushed u tr u' tr' : flushed u tr u' tr' → sent_all tr' u' = sent_all tr u.
Proof. intros (Hs & _ & _ & Hw & _). unfold sent_all. by rewrite (ss_token _ _ Hs). Qed.

Lemma sent_all_read u tr d u' tr' : has_read u tr d u' tr' → sent_all tr' u' = sent_all tr u.
Proof. intros (Hs & Ho & _ & Hw & _). unfold sent_all. by rewrite (ss_token _ _ Hs), Ho, Hw. Qed.

(** [advance] on a connection being opened. *)
Lemma wp_advance_dialling key u data tr0 u0 tr :
  zlen (ip (remote key)) = 4 → zlen data <= 4096 →
  dialling key u0 tr0 → handshake u0 ≠ None → has_read u0 tr0 data u tr →
  wp (advance u data) tr (λ r tr',
    token r.1 = token u0 ∧ quiet {[token u0]} ∅ tr0 tr' ∧
    match r.2 with
    | Ok (Some (_, leftover)) => opened key r.1 leftover tr'
    | Ok None => dialling key r.1 tr'
    | Err _ => True
    end).
Proof.
  intros Hip Hd Hdial Hne Hread. pose proof (sent_all_read _ _ _ _ _ Hread) as Hsent.
  destruct Hread as (Hs & Ho & Hq & Hw & Hg). pose proof (ss_token _ _ Hs) as Ht.
  unfold dialling in Hdial. destruct exit as [addr cr|] eqn:Ex; [|tauto].
  destruct Hdial as (Hconn & h & said & Hh & Htalk & Hroom & Hall).
  unfold advance. rewrite (ss_handshake _ _ Hs), Hh.
  destruct (receive h data) as [step h'] eqn:Er.
  pose proof (receive_room login (remote key) said h data step h' login_ok Hip Hroom Hd Er) as Hr.
  assert (connecting u = false) as Hconn' by by rewrite (ss_connecting _ _ Hs).
  destruct step as [[bytes| |bound leftover]|e].
  - step. eapply prog_wp_mono; [apply wp_flush|]. intros u' tr' Hf. step. cbn [fst snd].
    pose proof (sent_all_flushed _ _ _ _ Hf) as Hall'. destruct Hf as (Hs' & Hq' & Hg' & _).
    pose proof (ss_token _ _ Hs') as Ht'. cbn [token with_outgoing with_handshake] in *.
    split; [congruence|]. split; [etrans; [exact Hq|]; by rewrite <-Ht|].
    unfold dialling. rewrite Ex. split; [by rewrite (ss_connecting _ _ Hs')|]. exists h', (said ++ bytes).
    split; [by rewrite (ss_handshake _ _ Hs')|]. split; [|split; [done|]].
    + rewrite Ht', Hg', Ht, Hg. by eapply Talks_send.
    + rewrite Hall', app_assoc, <-Hall, <-Hsent. unfold sent_all. cbn. by rewrite app_assoc.
  - step. cbn [fst snd]. split; [done|]. split; [done|]. unfold dialling. rewrite Ex. split; [done|].
    exists h', said. split; [done|]. split; [|split; [done|]].
    + cbn [token with_handshake]. rewrite Ht, Hg. by eapply Talks_wait.
    + rewrite <-Hall, <-Hsent. done.
  - step. cbn [fst snd]. split; [done|]. split; [done|]. unfold opened. cbn [handshake connecting with_handshake outgoing].
    split; [done|]. split; [done|]. split; [change PENDING_LIMIT with 262144; lia|]. split.
    + destruct Hroom as (_ & _ & Hroom).
      assert (zlen (sent_all tr0 u0) <= 4 + 523) as Hb.
      { rewrite Hall, zlen_app. unfold first_word, start. cbn [snd].
        assert (zlen said <= 523) by (destruct (stage h); [destruct Hroom as [_ ->]; vm_compute; discriminate|lia|lia|done]).
        destruct (bool_decide _); cbn [zlen length]; unfold zlen at 1; cbn [length]; lia. }
      unfold sent_all in Hb. rewrite zlen_app in Hb. pose proof (zlen_nonneg (written tr0 (token u0))). rewrite Ho.
      change (PENDING_LIMIT + BUFFER) with 327680. lia.
    + unfold opening. rewrite Ex. exists said. split.
      * cbn [token with_handshake]. rewrite Ht, Hg. exists (got tr0 (token u0)), h, data, bound, h'. done.
      * rewrite <-Hall, <-Hsent. done.
  - step. cbn [fst snd]. done.
Qed.

(** A flow with a socket moves on. *)
Definition moved (key : FlowKey) (h : Z) (f : TcpFlow) (tr : trace) (f' : TcpFlow) (tr' : trace) : Prop :=
  socket f' = Some h ∧ token (upstream f') = token (upstream f) ∧
  quiet {[token (upstream f)]} {[h]} tr tr' ∧ flow_ok key f' tr'.

Lemma moved_trans key h f1 tr1 f2 tr2 f3 tr3 :
  moved key h f1 tr1 f2 tr2 → moved key h f2 tr2 f3 tr3 → moved key h f1 tr1 f3 tr3.
Proof.
  intros (_ & Ht & Hq & _) (Hs & Ht' & Hq' & Hf). rewrite Ht in Hq'. unfold moved.
  split_and!; [done|congruence|by etrans|done].
Qed.

Lemma moved_refl key h f tr : socket f = Some h → flow_ok key f tr → moved key h f tr f tr.
Proof. intros. by split_and!. Qed.

Lemma moved_ask key h f f' tr c a :
  socket f = Some h → flow_ok key f tr → zlen tr < TRACE → about ∅ ∅ c = true →
  upstream f' = upstream f → held_syn f' = held_syn f → socket f' = socket f → to_app f' = to_app f →
  moved key h f tr f' (tr ++ [mk_event c a]).
Proof.
  intros Hs Hf Hl Hc Hu Hh Hs' Ha. unfold moved. rewrite Hs', Hu. split_and!; [done|done| |].
  - eapply quiet_weaken; [by apply quiet_event|set_solver|set_solver].
  - assert (flow_ok key f (tr ++ [mk_event c a])) as Hf' by by apply flow_ok_ask.
    unfold flow_ok in *. rewrite Hs', Hs, Hu, Hh, Ha in *. done.
Qed.

(** The stream may be replaced by one that moved on under the same name. *)
Lemma moved_flushed key h f tr u' tr' :
  socket f = Some h → flow_ok key f tr → flushed (upstream f) tr u' tr' → moved key h f tr (with_upstream f u') tr'.
Proof.
  intros Hs Hf Hu. pose proof (sent_all_flushed _ _ _ _ Hu) as Hall.
  destruct Hu as (Hss & Hq & Hg & _ & Hl). destruct Hss as [Et Eh Ec]. unfold moved, flow_ok in *.
  cbn [socket upstream with_upstream]. rewrite Hs in *.
  destruct Hf as (? & ? & ? & ? & ? & (hello & heard & leftover & more & Ho & Hall0 & Hgot & Hgiven)).
  cbn [held_syn to_app with_upstream]. split_and!; try congruence; try lia.
  - eapply quiet_weaken; [exact Hq|done|set_solver].
  - exists hello, heard, leftover, more. rewrite Hall, Et, Hg.
    rewrite (q_taken _ _ _ _ Hq), (q_given _ _ _ _ Hq) by set_solver. done.
Qed.

Lemma wp_app_to_exit key fuel h : ∀ f tr,
  socket f = Some h → flow_ok key f tr →
  wp (app_to_exit fuel h (upstream f)) tr (λ u' tr', moved key h f tr (with_upstream f u') tr').
Proof.
  induction fuel as [|fuel IH]; intros f tr Hs Hf; cbn [app_to_exit].
  { step. apply moved_flushed; [done|done|by apply flushed_refl]. }
  do 2 step. intros can Hl _.
  assert (moved key h f tr f (tr ++ [mk_event (SockCanRecv h) can])) as Hcan by by apply moved_ask.
  assert (∀ c a, zlen tr < TRACE → about ∅ ∅ c = true →
    moved key h f tr (with_upstream f (upstream f)) (tr ++ [mk_event c a])) as Hret by (intros; by apply moved_ask).
  destruct (can && (zlen (outgoing (upstream f)) <? PENDING_LIMIT)) eqn:Eroom; [|step; by apply Hret].
  b2p. set (tr1 := tr ++ _) in *. destruct Hcan as (_ & _ & Hq1 & Hf1). do 2 step. intros r Hl2 Hr.
  assert (r = None ∨ r = Some [] → moved key h f tr (with_upstream f (upstream f)) (tr1 ++ [mk_event (SockRecv h) r])) as Hnone.
  { intros He. apply (moved_trans key h f tr f tr1); [by split_and!|].
    unfold moved. cbn [socket upstream with_upstream]. split_and!; [done|done| |].
    - apply quiet_event; [done|]. cbn. apply bool_decide_eq_true. set_solver.
    - unfold flow_ok in *. cbn [socket upstream with_upstream held_syn to_app]. rewrite Hs in *.
      destruct Hf1 as (? & ? & ? & ? & ? & (hello & heard & leftover & more & Ho & Hall0 & Hgot & Hgiven)).
      split_and!; try done. exists hello, heard, leftover, more. unfold sent_all in *.
      rewrite written_snoc, got_snoc, given_snoc, taken_snoc. cbn. rewrite !app_nil_r.
      destruct He as [->| ->]; [done|]. destruct (_ =? _); by rewrite ?app_nil_r. }
  destruct r as [[|b d]|]; [step; apply Hnone; by right| |step; apply Hnone; by left].
  set (data := b :: d) in *. set (u1 := with_outgoing _ _). cbn in Hr.
  assert (moved key h f tr (with_upstream f u1) (tr1 ++ [mk_event (SockRecv h) (Some data)])) as Hm.
  { apply (moved_trans key h f tr f tr1); [by split_and!|].
    unfold moved. cbn [socket upstream with_upstream]. split_and!; [done|done| |].
    - apply quiet_event; [done|]. cbn. apply bool_decide_eq_true. set_solver.
    - unfold flow_ok in *. cbn [socket upstream with_upstream held_syn to_app]. rewrite Hs in *.
      destruct Hf1 as (? & ? & ? & ? & ? & (hello & heard & leftover & more & Ho & Hall0 & Hgot & Hgiven)).
      cbn [handshake connecting outgoing with_outgoing u1]. rewrite zlen_app. split_and!; try done; [lia|].
      exists hello, heard, leftover, more. unfold sent_all in *. cbn [token outgoing with_outgoing u1].
      rewrite written_snoc, got_snoc, given_snoc, taken_snoc. cbn. rewrite !app_nil_r, Z.eqb_refl.
      split_and!; try done. by rewrite app_assoc, Hall0, app_assoc. }
  pose proof Hm as (Hs1 & _ & _ & Hf2). eapply prog_wp_mono; [apply (IH (with_upstream f u1)); [done|exact Hf2]|].
  intros u' tr' Hm'. by eapply moved_trans.
Qed.

Lemma wp_exit_to_app key h f tr :
  socket f = Some h → flow_ok key f tr →
  wp (exit_to_app key f) tr (λ r tr', moved key h f tr r.1 tr').
Proof.
  intros Hs Hf. unfold exit_to_app. destruct (_ && _ && _) eqn:E; [|step; by apply moved_refl]. b2p.
  step. eapply prog_wp_mono; [apply wp_read; lia|]. intros [u' [data done]] tr' [Hl Hread]. cbn [fst snd] in Hl, Hread. step. cbn [fst].
  pose proof (sent_all_read _ _ _ _ _ Hread) as Hall. destruct Hread as ([Et Eh Ec] & Ho & Hq & Hw & Hg).
  unfold moved. cbn [socket upstream with_upstream with_to_app with_proxy_finished].
  split_and!; [done|done|eapply quiet_weaken; [exact Hq|done|set_solver]|].
  unfold flow_ok in *. cbn [socket upstream with_upstream with_to_app with_proxy_finished held_syn to_app]. rewrite Hs in *.
  destruct Hf as (? & ? & ? & ? & ? & (hello & heard & leftover & more & Hop & Hall0 & Hgot & Hgiven)).
  rewrite Eh, Ec, Ho, zlen_app. split_and!; try done; [lia|].
  exists hello, heard, leftover, (more ++ data). rewrite Hall, Et, Hg.
  rewrite (q_taken _ _ _ _ Hq), (q_given _ _ _ _ Hq) by set_solver.
  split_and!; [done|done| |].
  - by rewrite Hgot, app_assoc.
  - by rewrite !app_assoc, Hgiven, <-app_assoc.
Qed.

Lemma wp_deliver_to_app key h f tr :
  socket f = Some h → flow_ok key f tr →
  wp (deliver_to_app h f) tr (λ f' tr', moved key h f tr f' tr').
Proof.
  intros Hs Hf. unfold deliver_to_app. destruct (bool_decide _); [step; by apply moved_refl|].
  do 2 step. intros can Hl _.
  assert (moved key h f tr f (tr ++ [mk_event (SockCanSend h) can])) as Hcan by by apply moved_ask.
  destruct can; cbn [negb]; [|by step]. set (tr1 := tr ++ _) in *. do 2 step. intros n Hl2 Hn. step.
  eapply moved_trans; [exact Hcan|]. destruct Hcan as (_ & _ & _ & Hf1).
  unfold moved. split_and!; [by destruct n|by destruct n| |].
  - apply quiet_event; [done|]. cbn. apply bool_decide_eq_true. set_solver.
  - unfold flow_ok in *. rewrite Hs in *.
    destruct Hf1 as (? & ? & ? & ? & ? & (hello & heard & leftover & more & Hop & Hall0 & Hgot & Hgiven)).
    unfold sent_all in *. destruct n as [n|].
    + cbn [socket upstream with_to_app held_syn to_app]. rewrite Hs. cbn in Hn.
      split_and!; try done; [unfold zlen in *; rewrite length_drop; lia|].
      exists hello, heard, leftover, more. unfold sent_all.
      rewrite written_snoc, got_snoc, given_snoc, taken_snoc. cbn. rewrite !app_nil_r, Z.eqb_refl.
      split_and!; try done. by rewrite <-app_assoc, take_drop.
    + rewrite Hs. split_and!; try done. exists hello, heard, leftover, more. unfold sent_all.
      rewrite written_snoc, got_snoc, given_snoc, taken_snoc. cbn. by rewrite !app_nil_r.
Qed.

Lemma wp_close_ends key h f tr :
  socket f = Some h → flow_ok key f tr →
  wp (close_ends h f) tr (λ f' tr', moved key h f tr f' tr').
Proof.
  intros Hs Hf. unfold close_ends. step.
  assert (∀ f1 tr1, moved key h f tr f1 tr1 → wp (_ ← (if closed (upstream f1) && negb (proxy_finished f1) then ask (SockAbort h) else mret ());
    mret f1) tr1 (λ f' tr', moved key h f tr f' tr')) as Habort.
  { intros f1 tr1 Hm. step. destruct (_ && _); [|do 2 step; done]. step. intros [] Hl _. step.
    eapply moved_trans; [exact Hm|]. destruct Hm as (Hs1 & _ & _ & Hf1). by apply moved_ask. }
  assert (∀ tr1, moved key h f tr f tr1 → wp (
      flow ← (if app_finished f then mret f else
          may ← ask (SockMayRecv h);
          if may || negb (bool_decide (outgoing (upstream f) = [])) then mret f else
          st ← ask (SockState h);
          match st with
          | CloseWait | LastAck | Closed =>
              _ ← ask (ShutdownWrite (token (upstream f))); mret (with_app_finished f true)
          | _ => mret f
          end);
      _ ← (if closed (upstream flow) && negb (proxy_finished flow) then ask (SockAbort h) else mret ());
      mret flow) tr1 (λ f' tr', moved key h f tr f' tr')) as Hrest.
  { intros tr1 Hm. step. destruct (app_finished f); [step; by apply Habort|]. do 2 step. intros may Hl _.
    assert (moved key h f tr f (tr1 ++ [mk_event (SockMayRecv h) may])) as Hm1.
    { eapply moved_trans; [exact Hm|]. by apply moved_ask; [|destruct Hm as (_ & _ & _ & ?)| | | | | |]. }
    destruct (_ || _); [step; by apply Habort|]. do 2 step. intros st Hl2 _.
    set (tr2 := tr1 ++ _) in *.
    assert (moved key h f tr f (tr2 ++ [mk_event (SockState h) st])) as Hm2.
    { eapply moved_trans; [exact Hm1|]. by apply moved_ask; [|destruct Hm1 as (_ & _ & _ & ?)| | | | | |]. }
    set (tr3 := tr2 ++ _) in *.
    assert (wp (_ ← ask (ShutdownWrite (token (upstream f))); mret (with_app_finished f true)) tr3
      (λ a tr', wp (_ ← (if closed (upstream a) && negb (proxy_finished a) then ask (SockAbort h) else mret ());
        mret a) tr' (λ f' tr', moved key h f tr f' tr'))) as Hdown.
    { do 2 step. intros [] Hl3 _. step. apply Habort. eapply moved_trans; [exact Hm2|].
      by apply moved_ask; [|destruct Hm2 as (_ & _ & _ & ?)| | | | | |]. }
    destruct st; try exact Hdown; step; by apply Habort. }
  destruct (_ && _).
  - do 2 step. intros may Hl _.
    assert (moved key h f tr f (tr ++ [mk_event (SockMaySend h) may])) as Hm by by apply moved_ask.
    destruct may; [|step; by apply Hrest]. step. intros [] Hl2 _. apply Hrest.
    eapply moved_trans; [exact Hm|]. by apply moved_ask; [|destruct Hm as (_ & _ & _ & ?)| | | | | |].
  - step. apply Hrest. by apply moved_refl.
Qed.

Lemma wp_flow_ended key h f tr :
  socket f = Some h → flow_ok key f tr →
  wp (flow_ended h f) tr (λ _ tr', moved key h f tr f tr').
Proof.
  intros Hs Hf. unfold flow_ended. do 2 step. intros st Hl _.
  assert (moved key h f tr f (tr ++ [mk_event (SockState h) st])) as Hm by by apply moved_ask.
  set (tr1 := tr ++ _) in *. step.
  assert (∀ (b : bool) tr2, moved key h f tr f tr2 → wp (if b then mret true else
    st ← ask (SockState h); mret (match st with Closed | TimeWait => true | _ => false end)) tr2
    (λ _ tr', moved key h f tr f tr')) as Hrest.
  { intros b tr2 Hm2. destruct b; [by step|]. do 2 step. intros st2 Hl2 _. step.
    eapply moved_trans; [exact Hm2|]. by apply moved_ask; [|destruct Hm2 as (_ & _ & _ & ?)| | | | | |]. }
  assert (wp (now ← ask Now; mret (2 * DIAL_TIMEOUT <? since now (started f))) tr1
    (λ b tr', wp (if (b : bool) then mret true else
      st ← ask (SockState h); mret (match st with Closed | TimeWait => true | _ => false end)) tr'
      (λ _ tr', moved key h f tr f tr'))) as Hlisten.
  { do 2 step. intros now Hl2 _. step. apply Hrest.
    eapply moved_trans; [exact Hm|]. by apply moved_ask; [|destruct Hm as (_ & _ & _ & ?)| | | | | |]. }
  destruct st; try exact Hlisten; step; by apply (Hrest false).
Qed.

(** What pumping a flow leaves, by its verdict. *)
Definition pumped (key : FlowKey) (f : TcpFlow) (v : Verdict) (tr : trace) : Prop :=
  match v with
  | Carries => flow_ok key f tr
  | Ends => flow_ok key f tr ∧ is_Some (socket f)
  | Accepted leftover => waits f ∧ opened key (upstream f) leftover tr
  | Refuses => waits f
  end.

Definition hands (f : TcpFlow) : gset Z := match socket f with Some h => {[h]} | None => ∅ end.

Definition pump_post (key : FlowKey) (f : TcpFlow) (tr : trace) (f' : TcpFlow) (v : Verdict) (tr' : trace) : Prop :=
  token (upstream f') = token (upstream f) ∧ socket f' = socket f ∧
  quiet {[token (upstream f)]} (hands f) tr tr' ∧ pumped key f' v tr'.

Lemma pumped_moved key h f tr f' tr' :
  socket f = Some h → moved key h f tr f' tr' →
  pump_post key f tr f' Carries tr' ∧ pump_post key f tr f' Ends tr'.
Proof.
  intros Hs (Hs' & Ht & Hq & Hf). unfold pump_post, pumped, hands. rewrite Hs, Hs'. by split_and!.
Qed.

(** A connection still being opened, [late] or not. *)
Lemma wp_still_dialling key f u tr0 tr :
  waits f → token u = token (upstream f) → quiet {[token (upstream f)]} ∅ tr0 tr → dialling key u tr →
  wp (late ← dialled_too_long (with_upstream f u);
      mret (with_upstream f u, (if (late : bool) then Refuses else Carries, false))) tr
    (λ r tr', pump_post key f tr0 r.1 r.2.1 tr').
Proof.
  intros (Hs & Hheld & Happ) Ht Hq Hd. step. unfold dialled_too_long. do 2 step. intros now Hl _. do 2 step. cbn [fst snd].
  unfold pump_post, hands. cbn [socket upstream with_upstream]. rewrite Hs. split_and!; [done|done| |].
  - etrans; [exact Hq|]. eapply quiet_weaken; [by apply quiet_event|set_solver|done].
  - destruct (_ <? _); cbn [pumped]; [done|]. unfold flow_ok. cbn [socket upstream with_upstream]. rewrite Hs.
    split; [done|]. left. unfold dialling, sent_all in *.
    by rewrite written_snoc, got_snoc, !app_nil_r.
Qed.

Lemma dialling_handshake key u tr : dialling key u tr → connecting u = false → handshake u ≠ None.
Proof.
  unfold dialling. destruct exit.
  - intros (_ & h & said & -> & _) _. done.
  - intros (-> & _). done.
Qed.

Lemma dialling_flushed key u tr u' tr' : dialling key u tr → flushed u tr u' tr' → dialling key u' tr'.
Proof.
  intros Hd Hf. pose proof (sent_all_flushed _ _ _ _ Hf) as Ha. destruct Hf as ([Et Eh Ec] & _ & Hg & _).
  unfold dialling in *. rewrite Ha, Et, Eh, Ec, Hg. done.
Qed.

Lemma wp_pump_connecting key f tr :
  flow_ok key f tr → connecting (upstream f) = true →
  wp ('(u, r) ← poll_connect (upstream f);
    let flow := with_upstream f u in
    match r with
    | Some true => mret (flow, (Accepted [], false))
    | Some false => mret (flow, (Refuses, false))
    | None => late ← dialled_too_long flow; mret (flow, (if (late : bool) then Refuses else Carries, false))
    end) tr (λ r tr', pump_post key f tr r.1 r.2.1 tr').
Proof.
  intros Hf Hc. unfold flow_ok in Hf. destruct (socket f) as [h|] eqn:Hs; [destruct Hf as (_ & _ & ? & _); congruence|].
  destruct Hf as [Hw [Hd|[_ ?]]]; [|congruence]. set (u := upstream f) in *.
  assert (exit = Adapter ∧ handshake u = None ∧ sent_all tr u = [] ∧ got tr (token u) = []) as (Hex & Hh & Ha & Hg).
  { unfold dialling in Hd. destruct exit; [destruct Hd as [? _]; congruence|]. by destruct Hd as (_ & ? & ? & ?). }
  pose proof Hw as (_ & Hheld & Happ).
  step. unfold poll_connect. do 2 step. intros r Hl _.
  set (tr1 := tr ++ _). assert (quiet ∅ ∅ tr tr1) as Hq1 by by apply quiet_event.
  destruct r as [[]|]; step.
  - eapply prog_wp_mono; [apply wp_flush|]. intros u' tr' Hfl. do 2 step. cbn [fst snd].
    pose proof (sent_all_flushed _ _ _ _ Hfl) as Ha'. destruct Hfl as ([Et Eh Ec] & Hq & Hg' & _ & Hlen).
    unfold pump_post, hands. cbn [socket upstream with_upstream]. rewrite Hs.
    cbn [token handshake connecting outgoing with_connected with_connecting] in *. split_and!; [done|done| |].
    + etrans; [by eapply quiet_weaken|exact Hq].
    + cbn [pumped]. split; [done|]. unfold opened. cbn [upstream with_upstream]. rewrite Eh, Ec, Ha'.
      split; [done|]. split; [done|]. split; [done|].
      unfold sent_all in Ha. apply app_eq_nil in Ha as [Hwr Hout]. rewrite Hout in Hlen.
      split; [change (PENDING_LIMIT + BUFFER) with 327680; change (zlen []) with 0 in Hlen; lia|].
      unfold opening, sent_all. rewrite Hex. cbn [token outgoing with_connected with_connecting].
      rewrite (q_written _ _ _ _ Hq1) by set_solver. rewrite Hwr, Hout. split; [done|].
      split; [|done]. by rewrite Et, Hg', (q_got _ _ _ _ Hq1) by set_solver.
  - cbn [fst snd]. step. cbn [fst snd]. unfold pump_post, hands. cbn [socket upstream with_upstream]. rewrite Hs.
    split_and!; [done|done|by eapply quiet_weaken|done].
  - cbn [fst snd]. apply wp_still_dialling; [done|done|by eapply quiet_weaken|].
    unfold dialling, sent_all in *. rewrite (q_written _ _ _ _ Hq1), (q_got _ _ _ _ Hq1) by set_solver. done.
Qed.

Lemma wp_pump_dialling key f u tr0 tr :
  zlen (ip (remote key)) = 4 → waits f → token u = token (upstream f) → quiet {[token (upstream f)]} ∅ tr0 tr →
  dialling key u tr → handshake u ≠ None →
  wp ('(u, (data, finished)) ← read u 4096;
      if bool_decide (data = []) && negb finished && negb (closed u) then
        let flow := with_upstream f u in
        late ← dialled_too_long flow; mret (flow, (if (late : bool) then Refuses else Carries, false))
      else
      '(u, r) ← advance u data;
      let flow := with_upstream f u in
      mret (flow, (match r with
                   | Ok (Some (_, leftover)) => Accepted leftover
                   | Ok None => if finished || closed u then Refuses else Carries
                   | Err _ => Refuses
                   end, false))) tr
    (λ r tr', pump_post key f tr0 r.1 r.2.1 tr').
Proof.
  intros Hip Hw Ht Hq Hd Hne. step. eapply prog_wp_mono; [by apply wp_read|].
  intros [u1 [data finished]] tr1 [Hl Hread]. cbn [fst snd] in Hl, Hread. pose proof Hw as (Hs & Hheld & Happ).
  pose proof (Hread) as ([Et Eh Ec] & Ho & Hq1 & _). rewrite Ht in Hq1, Et.
  assert (quiet {[token (upstream f)]} ∅ tr0 tr1) as Hq01 by (by etrans).
  destruct (bool_decide (data = []) && negb finished && negb (closed u1)) eqn:E.
  - rewrite !andb_true_iff, bool_decide_eq_true in E. destruct E as [[-> _] _].
    apply wp_still_dialling; [done|done|done|].
    pose proof (sent_all_read _ _ _ _ _ Hread) as Ha. destruct Hread as ([Et' _ _] & _ & _ & _ & Hg).
    rewrite app_nil_r in Hg. unfold dialling in *. by rewrite Ha, Et', Eh, Ec, Hg.
  - step. eapply prog_wp_mono; [by eapply wp_advance_dialling|]. intros [u2 r] tr2 (Et2 & Hq2 & Hr). cbn [fst snd] in *.
    step. cbn [fst snd]. unfold pump_post, hands. cbn [socket upstream with_upstream]. rewrite Hs. rewrite Ht in *.
    split_and!; [done|done|by etrans; [exact Hq|exact Hq2]|].
    destruct r as [[[b leftover]|]|]; cbn [pumped]; [by split| |done].
    destruct (_ || _); cbn [pumped]; [done|]. unfold flow_ok. cbn [socket upstream with_upstream]. rewrite Hs.
    split; [done|]. by left.
Qed.

Lemma wp_pump_carrying key h f tr :
  socket f = Some h → flow_ok key f tr →
  wp (u ← app_to_exit (S (Z.to_nat PENDING_LIMIT)) h (upstream f);
      u ← flush u;
      '(flow, active) ← exit_to_app key (with_upstream f u);
      flow ← deliver_to_app h flow;
      flow ← close_ends h flow;
      ended ← flow_ended h flow;
      mret (flow, (if (ended : bool) then Ends else Carries, active))) tr
    (λ r tr', pump_post key f tr r.1 r.2.1 tr').
Proof.
  intros Hs Hf. step. eapply prog_wp_mono; [by apply wp_app_to_exit|]. intros u1 tr1 Hm1.
  step. eapply prog_wp_mono; [apply wp_flush|]. intros u2 tr2 Hfl.
  assert (moved key h f tr (with_upstream f u2) tr2) as Hm2.
  { eapply moved_trans; [exact Hm1|]. destruct Hm1 as (Hs1 & _ & _ & Hf1).
    by apply (moved_flushed key h (with_upstream f u1)). }
  step. eapply prog_wp_mono; [apply wp_exit_to_app; [by destruct Hm2|by destruct Hm2 as (_ & _ & _ & ?)]|].
  intros [f3 active] tr3 Hm3. cbn [fst] in Hm3.
  step. eapply prog_wp_mono; [apply wp_deliver_to_app; [by destruct Hm3|by destruct Hm3 as (_ & _ & _ & ?)]|].
  intros f4 tr4 Hm4.
  step. eapply prog_wp_mono; [apply wp_close_ends; [by destruct Hm4|by destruct Hm4 as (_ & _ & _ & ?)]|].
  intros f5 tr5 Hm5.
  step. eapply prog_wp_mono; [apply wp_flow_ended; [by destruct Hm5|by destruct Hm5 as (_ & _ & _ & ?)]|].
  intros ended tr6 Hm6. step. cbn [fst snd].
  assert (moved key h f tr f5 tr6) as Hm.
  { do 4 (eapply moved_trans; [eassumption|]). done. }
  destruct (pumped_moved key h f tr f5 tr6 Hs Hm). by destruct ended.
Qed.

Lemma wp_pump_flow key f tr :
  zlen (ip (remote key)) = 4 → flow_ok key f tr →
  wp (pump_flow key f) tr (λ r tr', pump_post key f tr r.1 r.2.1 tr').
Proof.
  intros Hip Hf. unfold pump_flow. destruct (connecting (upstream f)) eqn:Ec; [by apply wp_pump_connecting|].
  step. eapply prog_wp_mono; [apply wp_flush|]. intros u tr1 Hfl. pose proof Hfl as ([Et Eh Ec'] & Hq & _).
  destruct (socket f) as [h|] eqn:Hs.
  - assert (handshake u = None) as -> by (rewrite Eh; unfold flow_ok in Hf; rewrite Hs in Hf; tauto).
    cbn [socket upstream with_upstream]. rewrite Hs.
    pose proof (moved_flushed key h f tr u tr1 Hs Hf Hfl) as Hm.
    eapply prog_wp_mono; [apply (wp_pump_carrying key h (with_upstream f u)); [done|by destruct Hm as (_ & _ & _ & ?)]|].
    intros [f' [v active]] tr2 (Ht2 & Hs2 & Hq2 & Hp). cbn [fst snd upstream with_upstream] in *. unfold pump_post.
    split_and!; [congruence|done| |done]. rewrite Et in Hq2. etrans; [|exact Hq2].
    eapply quiet_weaken; [exact Hq|done|set_solver].
  - unfold flow_ok in Hf. rewrite Hs in Hf. destruct Hf as [Hw Hcase].
    destruct (handshake u) eqn:Ehu.
    + apply wp_pump_dialling; [done|done|done|done| |congruence].
      destruct Hcase as [Hd|[? _]]; [by eapply dialling_flushed|congruence].
    + cbn [socket upstream with_upstream]. rewrite Hs. step. cbn [fst snd]. unfold pump_post, hands.
      cbn [socket upstream with_upstream]. rewrite Hs. split_and!; [done|done|done|]. cbn [pumped].
      unfold flow_ok. cbn [socket upstream with_upstream]. rewrite Hs. split; [done|]. right. split; [done|congruence].
Qed.

End invariant.
