(* ===== verification/ExitInvariant.v ===== *)
(** * The invariant of the forwarding stack

    [good] holds of every state the stack reaches: its tables are bounded, every
    stream it holds is registered to what holds it, every connection is either
    waiting for its far end with its SYN held or carries its bytes in order, and
    nothing is ever asked of the environment that panics. Every operation keeps
    it, and keeps count of the connections and lookups it was asked for. *)
From S2P Require Import Text Dns SocksWire Prelude Fragments ExitPacket ExitHandshake ExitStack ExitSafety.

(** ** Sums over a table *)

Definition msum {K A} `{Countable K} (w : A → Z) (m : gmap K A) : Z := map_fold (λ _ a n, w a + n) 0 m.

Section msum.
Context {K A : Type} `{Countable K} (w : A → Z).
Implicit Types m : gmap K A.

Lemma msum_empty : msum w (∅ : gmap K A) = 0.
Proof. apply map_fold_empty. Qed.

Lemma msum_insert_new m k a : m !! k = None → msum w (<[k := a]> m) = w a + msum w m.
Proof. intros Hk. unfold msum. rewrite map_fold_insert_L; [done|intros; lia|done]. Qed.

Lemma msum_take m k a : m !! k = Some a → msum w m = w a + msum w (delete k m).
Proof. intros Hk. rewrite <-(msum_insert_new _ k a) by apply lookup_delete_eq. by rewrite insert_delete_id. Qed.

Lemma msum_insert m k a : msum w (<[k := a]> m) = w a + msum w (delete k m).
Proof. rewrite <-(msum_insert_new _ k a) by apply lookup_delete_eq. by rewrite insert_delete_eq. Qed.

Lemma msum_replace m k a a' : m !! k = Some a → msum w (<[k := a']> m) = msum w m - w a + w a'.
Proof. intros Hk. rewrite msum_insert, (msum_take m k a) by done. lia. Qed.

Lemma msum_delete m k : (∀ a, 0 <= w a) → msum w (delete k m) <= msum w m.
Proof.
  intros Hw. destruct (m !! k) as [a|] eqn:E.
  - rewrite (msum_take m k a) by done. specialize (Hw a). lia.
  - by rewrite delete_id.
Qed.
End msum.

Section invariant.
Context (client probe_target : list byte) (exit : Exit) (rounds : nat).

Notation flow_ok := (flow_ok exit).
Notation pumped := (pumped exit).
Notation dialling := (dialling exit).
Notation opened := (opened exit).

Hypothesis login_ok : login_wf (login exit).

(** ** Who holds a token *)

Definition data_of (st : UdpState) : option Z :=
  match st with Ready _ t | Direct t => Some t | _ => None end.

Definition probe_token (p : Probe) : Z :=
  match transport p with Stream u => token u | DatagramSocket t => t end.

Definition holds (s : Stack) (o : Owner) (t : Z) : Prop :=
  match o with
  | OwnTcp key => ∃ f, tcp s !! key = Some f ∧ token (upstream f) = t
  | OwnUdpControl port => ∃ a u, udp s !! port = Some a ∧ control_of (state a) = Some u ∧ token u = t
  | OwnUdpData port => ∃ a, udp s !! port = Some a ∧ data_of (state a) = Some t
  | OwnDns id => ∃ d, dns s !! id = Some d ∧ token (dns_stream d) = t
  | OwnProbe id => ∃ p, probes s !! id = Some p ∧ probe_token p = t
  end.

(** ** What a lookup and an association look like *)

Definition query_ok (qid : Z) (q : DnsQuery) : Prop :=
  0 <= qid < 65536 ∧ 12 <= zlen (asked q) <= u16_max ∧ asked_id q = nz16 (asked q) 0.

Definition queue_ok (st : UdpState) : Prop :=
  match st with Dialing _ queue => zlen queue <= UDP_QUEUE_LIMIT | _ => True end.

Definition streams_to (r : list byte) (m : gmap Z DnsUpstream) : Z :=
  msum (λ d, if decide (resolver d = r) then 1 else 0) m.

(** [n] is how far the tokens may be ahead of the trace, [V] what the flows of a
    [pump_tcp] under way still wait for. *)
Record good (n : Z) (V : FlowKey → Verdict) (s : Stack) (tr : trace) : Prop := {
  g_len : zlen tr <= TRACE;
  g_next : 1 <= next_token s <= zlen tr + 1 + n;
  g_fresh : ∀ t o, owners s !! t = Some o → t < next_token s;
  g_unused : ∀ t, next_token s <= t → written tr t = [] ∧ got tr t = [];
  g_own : ∀ o t, holds s o t → owners s !! t = Some o;
  g_flows : ∀ key f, tcp s !! key = Some f → zlen (ip (remote key)) = 4 ∧ pumped key f (V key) tr;
  g_live : ∀ key f h, tcp s !! key = Some f → socket f = Some h → h ∈ live tr;
  g_hands : ∀ k1 f1 k2 f2 h, tcp s !! k1 = Some f1 → tcp s !! k2 = Some f2 →
              socket f1 = Some h → socket f2 = Some h → k1 = k2;
  g_queues : ∀ port a, udp s !! port = Some a → queue_ok (state a);
  g_queries : ∀ id d, dns s !! id = Some d → ∀ qid q, in_flight d !! qid = Some q → query_ok qid q;
  g_dns_ids : ∀ id, is_Some (dns s !! id) → id <= next_dns_stream s;
  g_probe_ids : ∀ id, is_Some (probes s !! id) → id <= next_probe s;
  g_tcp_room : zsize (tcp s) <= MAX_TCP_FLOWS;
  g_udp_room : zsize (udp s) <= MAX_UDP_ASSOCIATIONS;
  g_dns_room : ∀ r, streams_to r (dns s) <= DNS_STREAMS_PER_RESOLVER;
  g_probe_room : zsize (probes s) <= MAX_PROBES;
  g_fragments : bounded (fragments s)
}.

Definition idle_flows : FlowKey → Verdict := λ _, Carries.

(** The connections and the lookups the stack was asked for: what became of
    those that are over, and those it still has. *)
Definition still_opening (f : TcpFlow) : Z := match socket f with None => 1 | Some _ => 0 end.
Definition pending (m : gmap FlowKey TcpFlow) : Z := msum still_opening m.
Definition waiting (m : gmap Z DnsUpstream) : Z := msum (λ d, zsize (in_flight d)) m.

Definition connections (s : Stack) : Z :=
  tcp_opened (counters s) + tcp_refused (counters s) + tcp_cancelled (counters s) + pending (tcp s).
Definition lookups (s : Stack) : Z :=
  dns_answered (counters s) + dns_failed (counters s) + waiting (dns s).

Definition same_totals (s s' : Stack) : Prop := connections s' = connections s ∧ lookups s' = lookups s.

#[local] Instance same_totals_preorder : PreOrder same_totals.
Proof. unfold same_totals. split; [by intros s|]. intros s1 s2 s3. lia. Qed.

(** ** Keeping [good] *)

Lemma good_weaken n m V s tr : good n V s tr → n <= m → good m V s tr.
Proof. intros [] Hm. split; try done. lia. Qed.

Lemma good_verdicts n V V' s tr :
  good n V s tr → (∀ key, is_Some (tcp s !! key) → V' key = V key) → good n V' s tr.
Proof.
  intros [] HV. split; try done. intros key f Hf. rewrite HV by by eexists. by apply g_flows0.
Qed.

Lemma pumped_quiet key f v tr tr' (T H : gset Z) :
  pumped key f v tr → quiet T H tr tr' → token (upstream f) ∉ T → (∀ h, socket f = Some h → h ∉ H) →
  pumped key f v tr'.
Proof.
  intros Hp Hq Ht Hh. destruct v as [|leftover| |]; cbn [ExitSafety.pumped] in *.
  - by eapply flow_ok_quiet.
  - destruct Hp as [Hw Ho]. split; [done|]. unfold ExitSafety.opened, sent_all in *.
    by rewrite (q_written _ _ _ _ Hq), (q_got _ _ _ _ Hq).
  - done.
  - destruct Hp as [Hf Hs]. split; [by eapply flow_ok_quiet|done].
Qed.

(** The streams in [T] belong to nothing that is counted byte by byte. *)
Definition aside (s : Stack) (T : gset Z) : Prop :=
  ∀ t, t ∈ T → ∃ o, owners s !! t = Some o ∧ ∀ key, o ≠ OwnTcp key.

Lemma good_quiet n V s tr tr' T :
  good n V s tr → quiet T ∅ tr tr' → aside s T → good (n - (zlen tr' - zlen tr)) V s tr'.
Proof.
  intros [] Hq HT. pose proof (q_len _ _ _ _ Hq) as [Hl1 Hl2].
  split; try done.
  - auto.
  - lia.
  - intros t Ht. destruct (g_unused0 t Ht) as [Hw Hg].
    assert (t ∉ T) as Hn. { intros Hin. destruct (HT t Hin) as (o & Ho & _). specialize (g_fresh0 _ _ Ho). lia. }
    rewrite (q_written _ _ _ _ Hq), (q_got _ _ _ _ Hq) by done. done.
  - intros key f Hf. destruct (g_flows0 key f Hf) as [Hip Hp]. split; [done|].
    eapply pumped_quiet; [exact Hp|exact Hq| |set_solver].
    intros Hin. destruct (HT _ Hin) as (o & Ho & Hne). apply (Hne key).
    specialize (g_own0 (OwnTcp key) _ ltac:(by exists f)). congruence.
  - intros key f h Hf Hs. rewrite (q_live _ _ _ _ Hq). eauto.
Qed.

Lemma good_moved n V s tr tr' T : good n V s tr → quiet T ∅ tr tr' → aside s T → good n V s tr'.
Proof.
  intros Hg Hq HT. eapply good_weaken; [by eapply good_quiet|]. pose proof (q_len _ _ _ _ Hq). lia.
Qed.

Lemma good_ask n V s tr c a :
  good n V s tr → zlen tr < TRACE → about ∅ ∅ c = true → good (n - 1) V s (tr ++ [mk_event c a]).
Proof.
  intros Hg Hl Hc. eapply good_weaken; [eapply good_quiet; [exact Hg|by apply quiet_event|]|].
  - intros t Ht. set_solver.
  - rewrite zlen_app. change (zlen [_]) with 1. lia.
Qed.

Lemma good_ask' n V s tr c a :
  good n V s tr → zlen tr < TRACE → about ∅ ∅ c = true → good n V s (tr ++ [mk_event c a]).
Proof. intros Hg Hl Hc. eapply good_weaken; [by apply good_ask|lia]. Qed.

(** Fields outside of the invariant. *)
Ltac outside := intros []; split; assumption.

Lemma good_counters n V s tr v : good n V s tr → good n V (with_counters s v) tr.
Proof. outside. Qed.
Lemma good_rx n V s tr v : good n V s tr → good n V (with_device_rx s v) tr.
Proof. outside. Qed.
Lemma good_tx n V s tr v : good n V s tr → good n V (with_device_tx s v) tr.
Proof. outside. Qed.
Lemma good_fragments n V s tr v : bounded v → good n V s tr → good n V (with_fragments s v) tr.
Proof. intros Hv []. split; assumption. Qed.
Lemma good_activity n V s tr v : good n V s tr → good n V (with_upstream_activity s v) tr.
Proof. outside. Qed.
(** ** Steps beside the tables *)

(** The tables are the same, and no stream or socket moved. *)
Record still (s : Stack) (tr : trace) (s' : Stack) (tr' : trace) : Prop := {
  st_tcp : tcp s' = tcp s;
  st_udp : udp s' = udp s;
  st_dns : dns s' = dns s;
  st_probes : probes s' = probes s;
  st_owners : owners s' = owners s;
  st_next : next_token s' = next_token s;
  st_dns_id : next_dns_stream s' = next_dns_stream s;
  st_probe_id : next_probe s' = next_probe s;
  st_fragments : fragments s' = fragments s;
  st_quiet : quiet ∅ ∅ tr tr'
}.

Lemma still_refl s tr : still s tr s tr.
Proof. by split. Qed.

Lemma still_trans s1 tr1 s2 tr2 s3 tr3 : still s1 tr1 s2 tr2 → still s2 tr2 s3 tr3 → still s1 tr1 s3 tr3.
Proof. intros [] []. split; try congruence. by etrans. Qed.

Lemma still_ask s tr c a : zlen tr < TRACE → about ∅ ∅ c = true → still s tr s (tr ++ [mk_event c a]).
Proof. intros Hl Hc. split; try done. by apply quiet_event. Qed.

Lemma good_still n V s tr s' tr' : good n V s tr → still s tr s' tr' → good n V s' tr'.
Proof.
  intros Hg Hst. assert (good n V s tr') as [].
  { eapply good_moved; [exact Hg|by destruct Hst|]. intros t Ht. set_solver. }
  destruct Hst as [E1 E2 E3 E4 E5 E6 E7 E8 E9 _]. split; rewrite ?E1, ?E2, ?E3, ?E4, ?E5, ?E6, ?E7, ?E8, ?E9; try done.
  intros o t Ho. apply g_own0. destruct o; cbn [holds] in *; by rewrite ?E1, ?E2, ?E3, ?E4 in Ho.
Qed.

Lemma wpm_count f s tr (Q : () → Stack → trace → Prop) :
  Q () (with_counters s (f (counters s))) tr → wpm (count f) s tr Q.
Proof. done. Qed.

Lemma still_counters s tr v : still s tr (with_counters s v) tr.
Proof. by split. Qed.

Lemma wpm_emit packet s tr :
  wpm (emit packet) s tr (λ _ s' tr', still s tr s' tr' ∧ same_totals s s').
Proof.
  unfold emit. do 2 step. intros sent Hl _.
  assert (still s tr s (tr ++ [mk_event (Emit packet) sent])) as Hs by by apply still_ask.
  destruct sent; [by step|]. apply wpm_count. split; [|by split].
  eapply still_trans; [exact Hs|apply still_counters].
Qed.

Lemma wpm_refuse_tcp key sequence s tr :
  wpm (refuse_tcp client key sequence) s tr (λ _ s' tr',
    still s tr s' tr' ∧ connections s' = connections s + 1 ∧ lookups s' = lookups s).
Proof.
  unfold refuse_tcp. step. apply wpm_count. set (s1 := with_counters s _).
  assert (connections s1 = connections s + 1 ∧ lookups s1 = lookups s) as [Hc Hk].
  { unfold connections, lookups, s1, one_more. cbn. lia. }
  eapply wpm_mono; [apply wpm_emit|]. intros [] s2 tr2 (Hst & E1 & E2).
  split; [|lia]. eapply still_trans; [apply still_counters|exact Hst].
Qed.

(** ** Tokens *)

Lemma token_after_spec n V s tr : good n V s tr → n <= 1 → token_after (next_token s) = next_token s + 1.
Proof.
  intros [] Hn. unfold token_after, wrap64. rewrite Z.mod_small; [lia|].
  unfold TRACE in *. change (2 ^ 64) with 18446744073709551616. change (2 ^ 63) with 9223372036854775808 in *. lia.
Qed.

(** A token is new, and registered to whom it is taken for; that they do not hold
    it yet is no harm. *)
Definition taken_for (o : Owner) (t : Z) (s s' : Stack) : Prop :=
  t = next_token s ∧ s' = with_owners (with_next_token s (t + 1)) (<[t := o]> (owners s)).

Lemma good_take_token n V s tr o :
  good n V s tr → n <= 1 → good (n + 1) V (with_owners (with_next_token s (next_token s + 1)) (<[next_token s := o]> (owners s))) tr.
Proof.
  intros Hg Hn. destruct Hg. split; try done; cbn [owners next_token with_owners with_next_token].
  - lia.
  - intros t o' [[<- _]|[_ H]]%lookup_insert_Some; [lia|]. specialize (g_fresh0 _ _ H). lia.
  - intros t Ht. apply g_unused0. lia.
  - intros o' t Ho. assert (owners s !! t = Some o') as Ht by by apply g_own0.
    rewrite lookup_insert_ne; [done|]. intros <-. specialize (g_fresh0 _ _ Ht). lia.
Qed.

Lemma wpm_take_token n V o s tr :
  good n V s tr → n <= 1 →
  wpm (take_token o) s tr (λ t s' tr', tr' = tr ∧ taken_for o t s s' ∧ good (n + 1) V s' tr' ∧ same_totals s s').
Proof.
  intros Hg Hn. unfold take_token. do 2 step. do 2 step. step. rewrite (token_after_spec n V s tr) by done.
  split_and!; [done|by split|by apply good_take_token|by split].
Qed.

(** A token nobody holds any longer is given back. *)
Lemma good_disown n V s tr t o :
  good n V s tr → owners s !! t = Some o → (∀ t', ¬ holds s o t') → good n V (with_owners s (delete t (owners s))) tr.
Proof.
  intros Hg Ht Hno. destruct Hg. split; try done; cbn [owners with_owners].
  - intros t' o' [_ H]%lookup_delete_Some. by eapply g_fresh0.
  - intros o' t' Ho. assert (owners s !! t' = Some o') as H by by apply g_own0.
    rewrite lookup_delete_ne; [done|]. intros <-. assert (o' = o) as -> by congruence. by apply (Hno t).
Qed.

(** ** Leaving the tables *)

Lemma zsize_delete {K A} `{Countable K} (m : gmap K A) k : zsize (delete k m) <= zsize m.
Proof.
  unfold zsize. destruct (m !! k) as [a|] eqn:E; [|by rewrite delete_id].
  rewrite map_size_delete_Some by by eexists. lia.
Qed.

Lemma good_without_tcp n V s tr key : good n V s tr → good n V (with_tcp s (delete key (tcp s))) tr.
Proof.
  intros []. split; try done; cbn [tcp with_tcp].
  - intros o t Ho. apply g_own0. destruct o; cbn [holds tcp udp dns probes with_tcp] in *; try done.
    destruct Ho as (f & [_ Hf]%lookup_delete_Some & Ht). by exists f.
  - intros k f [_ Hf]%lookup_delete_Some. by apply g_flows0.
  - intros k f h [_ Hf]%lookup_delete_Some. by eapply g_live0.
  - intros k1 f1 k2 f2 h [_ H1]%lookup_delete_Some [_ H2]%lookup_delete_Some. by eapply g_hands0.
  - pose proof (zsize_delete (tcp s) key). lia.
Qed.

Lemma good_without_udp n V s tr port : good n V s tr → good n V (with_udp s (delete port (udp s))) tr.
Proof.
  intros []. split; try done; cbn [udp with_udp].
  - intros o t Ho. apply g_own0. destruct o; cbn [holds tcp udp dns probes with_udp] in *; try done.
    + destruct Ho as (a & u & [_ Ha]%lookup_delete_Some & Ht). by exists a, u.
    + destruct Ho as (a & [_ Ha]%lookup_delete_Some & Ht). by exists a.
  - intros p a [_ Ha]%lookup_delete_Some. by eapply g_queues0.
  - pose proof (zsize_delete (udp s) port). lia.
Qed.

Lemma good_without_dns n V s tr id : good n V s tr → good n V (with_dns s (delete id (dns s))) tr.
Proof.
  intros []. split; try done; cbn [dns with_dns next_dns_stream].
  - intros o t Ho. apply g_own0. destruct o; cbn [holds tcp udp dns probes with_dns] in *; try done.
    destruct Ho as (d & [_ Hd]%lookup_delete_Some & Ht). by exists d.
  - intros i d [_ Hd]%lookup_delete_Some. by eapply g_queries0.
  - intros i [d [_ Hd]%lookup_delete_Some]. apply g_dns_ids0. by eexists.
  - intros r. etrans; [|apply (g_dns_room0 r)]. apply msum_delete. intros a. by destruct (decide _).
Qed.

Lemma good_without_probe n V s tr id : good n V s tr → good n V (with_probes s (delete id (probes s))) tr.
Proof.
  intros []. split; try done; cbn [probes with_probes next_probe].
  - intros o t Ho. apply g_own0. destruct o; cbn [holds tcp udp dns probes with_probes] in *; try done.
    destruct Ho as (p & [_ Hp]%lookup_delete_Some & Ht). by exists p.
  - intros i [p [_ Hp]%lookup_delete_Some]. apply g_probe_ids0. by eexists.
  - pose proof (zsize_delete (probes s) id). lia.
Qed.

(** A socket leaves the set with the flow that had it. *)
Lemma good_sock_remove n V s tr h :
  good n V s tr → zlen tr < TRACE → (∀ key f, tcp s !! key = Some f → socket f ≠ Some h) →
  good n V s (tr ++ [mk_event (SockRemove h) ()]).
Proof.
  intros [] Hl Hh.
  assert (∀ key f v, tcp s !! key = Some f → pumped key f v tr → pumped key f v (tr ++ [mk_event (SockRemove h) ()])) as Hp.
  { intros key f v _ Hp. destruct v as [|leftover| |]; cbn [ExitSafety.pumped] in *; try done;
      unfold ExitSafety.flow_ok, ExitSafety.dialling, carries, ExitSafety.opened, sent_all in *;
      rewrite ?written_snoc, ?got_snoc; destruct (socket f); rewrite ?given_snoc, ?taken_snoc; cbn; rewrite ?app_nil_r;
      try done; destruct Hp as [Hp Hs]; rewrite ?given_snoc, ?taken_snoc in *; done. }
  split; try done.
  - rewrite zlen_app. change (zlen [_]) with 1. lia.
  - rewrite zlen_app. change (zlen [_]) with 1. lia.
  - intros t Ht. rewrite written_snoc, got_snoc, !app_nil_r. by apply g_unused0.
  - intros key f Hf. destruct (g_flows0 _ _ Hf). split; [done|by eapply Hp].
  - intros key f h' Hf Hs. rewrite live_snoc. cbn. apply elem_of_difference. split; [by eapply g_live0|].
    intros ->%elem_of_singleton. by eapply Hh.
Qed.

(** What is removed: the flow, its registration, its socket, and whatever it still
    counted as being opened. *)
Lemma wpm_remove_tcp n V key f s tr :
  good n V s tr → tcp s !! key = Some f →
  wpm (remove_tcp key) s tr (λ _ s' tr', good n V s' tr' ∧ tcp s' = delete key (tcp s) ∧
    connections s' = connections s - still_opening f ∧ lookups s' = lookups s).
Proof.
  intros Hg Hf. unfold remove_tcp. do 2 step. rewrite Hf. do 2 step.
  pose proof (good_without_tcp n V s tr key Hg) as Hg1. set (s1 := with_tcp s _) in *.
  step. unfold deregister. step. intros [] Hl _. apply (good_ask' n V s1 _ (Deregister (token (upstream f))) ()) in Hg1; [|done|done].
  set (tr1 := tr ++ _) in *. step. unfold disown. step.
  assert (good n V (with_owners s1 (delete (token (upstream f)) (owners s1))) tr1) as Hg2.
  { apply good_disown with (o := OwnTcp key); [done| |].
    - apply (g_own _ _ _ _ Hg (OwnTcp key)). by exists f.
    - intros t (f' & Hf' & _). change (tcp s1) with (delete key (tcp s)) in Hf'.
      by apply lookup_delete_Some in Hf' as [? _]. }
  set (s2 := with_owners s1 _) in *.
  assert (connections s2 = connections s - still_opening f ∧ lookups s2 = lookups s) as [Hc Hk].
  { unfold connections, lookups, pending, s2, s1. cbn. rewrite (msum_take still_opening (tcp s) key f) by done. lia. }
  destruct (socket f) as [h|] eqn:Hs; [|step; done].
  step. intros [] Hl2 _. split_and!; [|done|done|done].
  apply good_sock_remove; [done|done|]. intros key' f' Hf' Hs'. change (tcp s2) with (delete key (tcp s)) in Hf'.
  apply lookup_delete_Some in Hf' as [Hne Hf'].
  apply Hne. symmetry. by eapply (g_hands _ _ _ _ Hg).
Qed.

Lemma wpm_remove_tcp_absent n V key s tr :
  good n V s tr → tcp s !! key = None → wpm (remove_tcp key) s tr (λ _ s' tr', s' = s ∧ tr' = tr).
Proof. intros Hg Hf. unfold remove_tcp. do 2 step. rewrite Hf. by step. Qed.

(** ** Connections *)

Definition upd (V : FlowKey → Verdict) (key : FlowKey) (v : Verdict) : FlowKey → Verdict :=
  λ k, if decide (k = key) then v else V k.

Lemma upd_eq V key v : upd V key v key = v.
Proof. unfold upd. by rewrite decide_True. Qed.
Lemma upd_ne V key v k : k ≠ key → upd V key v k = V k.
Proof. intros. unfold upd. by rewrite decide_False. Qed.

Lemma zsize_replace {K A} `{Countable K} (m : gmap K A) k a : is_Some (m !! k) → zsize (<[k := a]> m) = zsize m.
Proof. intros Hk. unfold zsize. by rewrite map_size_insert_Some. Qed.

Lemma zsize_insert_new {K A} `{Countable K} (m : gmap K A) k a : m !! k = None → zsize (<[k := a]> m) = zsize m + 1.
Proof. intros Hk. unfold zsize. rewrite map_size_insert_None by done. lia. Qed.

(** One flow moves on under its own name; no other is concerned. *)
Lemma good_flow_moved n V s tr key f f' v tr' :
  good n V s tr → tcp s !! key = Some f → quiet {[token (upstream f)]} (hands f) tr tr' →
  token (upstream f') = token (upstream f) → socket f' = socket f → pumped key f' v tr' →
  good n (upd V key v) (with_tcp s (<[key := f']> (tcp s))) tr'.
Proof.
  intros Hg Hf Hq Ht Hs Hp. pose proof Hg as []. pose proof (q_len _ _ _ _ Hq) as [Hl1 Hl2].
  assert (owners s !! token (upstream f) = Some (OwnTcp key)) as Hown by (apply (g_own0 (OwnTcp key)); by exists f).
  split; try done; cbn [tcp with_tcp next_token owners].
  - auto.
  - lia.
  - intros t Hn. destruct (g_unused0 t Hn) as [? ?]. specialize (g_fresh0 _ _ Hown).
    rewrite (q_written _ _ _ _ Hq), (q_got _ _ _ _ Hq) by set_solver by lia. done.
  - intros o t Ho. apply g_own0. destruct o; cbn [holds tcp udp dns probes with_tcp] in *; try done.
    destruct Ho as (g & [[<- <-]|[Hne Hg']]%lookup_insert_Some & Et); [exists f|exists g]; (split; [done|congruence]).
  - intros k g [[<- <-]|[Hne Hk]]%lookup_insert_Some.
    + split; [by eapply g_flows0|]. by rewrite upd_eq.
    + destruct (g_flows0 _ _ Hk) as [Hip Hpk]. split; [done|]. rewrite upd_ne by done.
      eapply pumped_quiet; [exact Hpk|exact Hq| |].
      * intros E%elem_of_singleton. specialize (g_own0 (OwnTcp k) _ ltac:(by exists g)). congruence.
      * intros h Hh Hin. unfold hands in Hin. destruct (socket f) as [h'|] eqn:Hs'; [|set_solver].
        apply elem_of_singleton in Hin as ->. by apply Hne, (g_hands0 key f k g h').
  - intros k g h [[<- <-]|[Hne Hk]]%lookup_insert_Some Hh; rewrite (q_live _ _ _ _ Hq); [|by eapply g_live0].
    rewrite Hs in Hh. by eapply g_live0.
  - intros k1 f1 k2 f2 h [[<- <-]|[Hn1 H1]]%lookup_insert_Some [[<- <-]|[Hn2 H2]]%lookup_insert_Some E1 E2.
    + done.
    + rewrite Hs in E1. by eapply g_hands0.
    + rewrite Hs in E2. by eapply g_hands0.
    + by eapply g_hands0.
  - by rewrite zsize_replace by by eexists.
Qed.

(** A new socket is nobody's yet. *)
Lemma good_sock_add n V s tr h :
  good n V s tr → zlen tr < TRACE → h ∉ live tr → good n V s (tr ++ [mk_event SockAdd h]).
Proof.
  intros [] Hl Hh.
  assert (∀ key f v, tcp s !! key = Some f → pumped key f v tr → pumped key f v (tr ++ [mk_event SockAdd h])) as Hp.
  { intros key f v Hf Hp. assert (∀ h', socket f = Some h' → h =? h' = false) as Hne.
    { intros h' Hs. apply Z.eqb_neq. intros ->. by eapply Hh, g_live0. }
    destruct v as [|leftover| |]; cbn [ExitSafety.pumped] in *; try done;
      unfold ExitSafety.flow_ok, ExitSafety.dialling, carries, ExitSafety.opened, sent_all in *;
      rewrite ?written_snoc, ?got_snoc; destruct (socket f) as [h'|];
      try specialize (Hne h' eq_refl); rewrite ?given_snoc, ?taken_snoc; cbn; rewrite ?Hne, ?app_nil_r;
      try done; destruct Hp as [Hp Hs]; rewrite ?given_snoc, ?taken_snoc in *; cbn in *; rewrite ?Hne, ?app_nil_r in *; done. }
  split; try done.
  - rewrite zlen_app. change (zlen [_]) with 1. lia.
  - rewrite zlen_app. change (zlen [_]) with 1. lia.
  - intros t Ht. rewrite written_snoc, got_snoc, !app_nil_r. by apply g_unused0.
  - intros key f Hf. destruct (g_flows0 _ _ Hf). split; [done|by eapply Hp].
  - intros key f h' Hf Hs. rewrite live_snoc. cbn. apply elem_of_union_l. by eapply g_live0.
Qed.

Lemma wpm_dial t cmd target s tr :
  wpm (dial exit t cmd target) s tr (λ r s' tr', s' = s ∧ ∃ c a, zlen tr < TRACE ∧ about ∅ ∅ c = true ∧
    tr' = tr ++ [mk_event c a] ∧ ∀ u, r = Some u → token u = t ∧
      match exit with
      | Proxy _ login => connecting u = false ∧ handshake u = Some (start cmd target login).1
                           ∧ outgoing u = (start cmd target login).2
      | Adapter => connecting u = true ∧ handshake u = None ∧ outgoing u = []
      end).
Proof.
  unfold dial. destruct exit as [addr cr|].
  - do 2 step. intros ok Hl _. destruct (start cmd target cr) as [h greeting] eqn:E. step.
    split; [done|]. eexists _, _. split_and!; [done| |done|]; [done|].
    intros u. destruct ok; [|done]. intros [= <-]. done.
  - do 2 step. intros ok Hl _. step. split; [done|]. eexists _, _. split_and!; [done| |done|]; [done|].
    intros u. destruct ok; [|done]. intros [= <-]. done.
Qed.

Lemma wpm_open_tcp key syn sequence s tr :
  good 0 idle_flows s tr → tcp s !! key = None → zlen (ip (remote key)) = 4 →
  wpm (open_tcp client exit key syn sequence) s tr (λ _ s' tr', good 0 idle_flows s' tr' ∧
    connections s' = connections s + 1 ∧ lookups s' = lookups s).
Proof.
  intros Hg Hnew Hip. unfold open_tcp. do 2 step.
  destruct (Z.leb_spec MAX_TCP_FLOWS (zsize (tcp s))) as [Hfull|Hroom].
  { eapply wpm_mono; [apply wpm_refuse_tcp|]. intros [] s' tr' (Hst & Hc & Hk).
    split; [by eapply good_still|done]. }
  step. eapply wpm_mono; [by apply (wpm_take_token 0)|]. intros t s1 tr1 (-> & [-> ->] & Hg1 & [Hc1 Hk1]).
  set (t := next_token s) in *. set (s1 := with_owners _ _) in *.
  step. eapply wpm_mono; [apply wpm_dial|].
  intros u s2 tr2 (-> & c & a & Hl & Hc & -> & Hu). set (tr2 := tr ++ _) in *.
  assert (good 0 idle_flows s1 tr2) as Hg2 by by apply (good_ask 1).
  assert (owners s1 !! t = Some (OwnTcp key)) as Ht by apply lookup_insert_eq.
  destruct u as [u|].
  - destruct (Hu u eq_refl) as [Et Hd]. do 2 step. intros now Hl2 _. step. set (tr3 := tr2 ++ _).
    set (f := mk_flow _ _ _ _ _ _ _).
    assert (quiet ∅ ∅ tr tr3) as Hq.
    { etrans; [by apply quiet_event|by apply quiet_event]. }
    destruct (g_unused _ _ _ _ Hg t ltac:(lia)) as [Hwr Hgt].
    assert (dialling key u tr3) as Hdial.
    { unfold ExitSafety.dialling, sent_all. rewrite Et, (q_written _ _ _ _ Hq), (q_got _ _ _ _ Hq) by set_solver.
      rewrite Hwr, Hgt. unfold first_state, first_word, login. destruct exit as [addr cr|].
      - destruct Hd as (Hc1' & Hh & Ho). split; [done|]. exists (start Connect (remote key) cr).1, [].
        split; [done|]. split; [constructor|]. rewrite Ho, !app_nil_r. split; [|done].
        unfold hs_room, start. cbn. done.
      - destruct Hd as (Hc1' & Hh & Ho). rewrite Ho. done. }
    assert (good 0 idle_flows s1 tr3) as Hg3 by by apply good_ask'.
    split; [|split].
    + destruct Hg3. split; try done; cbn [tcp with_tcp].
      * intros o t' Ho. destruct o; cbn [holds tcp udp dns probes with_tcp] in Ho; try by apply g_own0.
        destruct Ho as (g & [[<- <-]|[Hne Hk]]%lookup_insert_Some & <-); [by rewrite <-Et in Ht|].
        apply (g_own0 (OwnTcp key0)). by exists g.
      * intros k g [[<- <-]|[Hne Hk]]%lookup_insert_Some; [|by apply g_flows0].
        split; [done|]. cbn [ExitSafety.pumped idle_flows]. unfold ExitSafety.flow_ok. cbn. split; [done|]. by left.
      * intros k g h [[<- <-]|[Hne Hk]]%lookup_insert_Some Hs; [done|by eapply g_live0].
      * intros k1 f1 k2 f2 h [[<- <-]|[Hn1 H1]]%lookup_insert_Some [[<- <-]|[Hn2 H2]]%lookup_insert_Some E1 E2;
          [done|done|done|by eapply g_hands0].
      * rewrite zsize_insert_new by done. change (tcp s1) with (tcp s). lia.
    + unfold connections, pending. cbn. rewrite (msum_insert_new _ _ key) by done. cbn. lia.
    + done.
  - step. unfold disown. step.
    assert (good 0 idle_flows (with_owners s1 (delete t (owners s1))) tr2) as Hg3.
    { apply good_disown with (o := OwnTcp key); [done|done|]. intros t' (f & Hf & _).
      change (tcp s1) with (tcp s) in Hf. congruence. }
    eapply wpm_mono; [apply wpm_refuse_tcp|]. intros [] s' tr' (Hst & Hc' & Hk').
    split; [by eapply good_still|]. split; [rewrite Hc'|rewrite Hk']; done.
Qed.

Lemma pumped_at n V s tr key f v : good n V s tr → tcp s !! key = Some f → V key = v → pumped key f v tr.
Proof. intros Hg Hf <-. by apply (g_flows _ _ _ _ Hg). Qed.

Lemma wpm_accept_tcp V key leftover s tr :
  good 0 V s tr → V key = Accepted leftover → is_Some (tcp s !! key) →
  wpm (accept_tcp key leftover) s tr (λ _ s' tr', good 0 (upd V key Carries) s' tr' ∧
    same_totals s s' ∧ dom (tcp s') = dom (tcp s)).
Proof.
  intros Hg HV [f Hf]. unfold accept_tcp. step.
  assert (∀ s0, good 0 V s0 tr → tcp s0 = tcp s → same_totals s s0 → wpm (
    listening ← asks (SockListen (remote key));
    flows ← ExitStack.get tcp;
    match flows !! key with
    | None => mret ()
    | Some flow =>
        if negb listening then
          put (λ s, with_tcp s (<[key := with_upstream flow (with_closed (upstream flow) true)]> (tcp s)))
        else
        h ← asks SockAdd;
        _ ← put (λ s, with_tcp s (<[key := with_held_syn (with_to_app (with_socket flow (Some h)) leftover) None]> (tcp s)));
        _ ← match held_syn flow with
            | Some (syn, _) => put (λ s, with_device_rx s (device_rx s ++ [syn]))
            | None => mret ()
            end;
        count (one_more tcp_opened with_tcp_opened)
    end) s0 tr (λ _ s' tr', good 0 (upd V key Carries) s' tr' ∧ same_totals s s' ∧ dom (tcp s') = dom (tcp s))) as Hrest.
  2:{ destruct (_ && _); step; apply Hrest; [by apply good_activity|done|done|done|done|done]. }
  intros s0 Hg0 Etcp Htot. do 2 step. intros listening Hl _. apply (good_ask' 0 V s0 tr (SockListen (remote key)) listening) in Hg0; [|done|done].
  set (tr1 := tr ++ _) in *. do 2 step. rewrite Etcp, Hf. rewrite <-Etcp in Hf.
  pose proof (pumped_at 0 V s0 tr1 key f _ Hg0 Hf HV) as [(Hs & [held Hheld] & Happ) (Hh & Hc & Hl1 & Hl2 & Hop)].
  destruct listening; cbn [negb].
  - do 2 step. intros h Hlen Hfresh. cbn in Hfresh.
    pose proof (good_sock_add 0 V s0 tr1 h Hg0 Hlen Hfresh) as Hg1. set (tr2 := tr1 ++ _) in *. do 2 step.
    set (f' := with_held_syn _ None). set (s1 := with_tcp s0 _).
    assert (∀ k g, tcp s0 !! k = Some g → socket g ≠ Some h) as Hother.
    { intros k g Hk Hs'. by eapply Hfresh, (g_live _ _ _ _ Hg0). }
    assert (good 0 (upd V key Carries) s1 tr2) as Hg2.
    { assert (flow_ok key f' tr2) as Hok.
      { unfold ExitSafety.flow_ok. cbn. split_and!; [done|done|done|done|done|].
        exists (sent_all tr1 (upstream f)), (got tr1 (token (upstream f))), leftover, []. unfold sent_all, tr2.
        rewrite written_snoc, got_snoc, given_snoc, taken_snoc. cbn. rewrite Z.eqb_refl, !app_nil_r. done. }
      clear Hg0. destruct Hg1. split; try done; unfold s1; cbn [tcp with_tcp].
      - intros o t Ho. apply g_own0. destruct o; cbn [holds tcp udp dns probes with_tcp] in *; try done.
        destruct Ho as (g & [[<- <-]|[Hne Hk]]%lookup_insert_Some & Et); [by exists f|by exists g].
      - intros k g [[<- <-]|[Hne Hk]]%lookup_insert_Some.
        + split; [by eapply g_flows0|]. by rewrite upd_eq.
        + rewrite upd_ne by done. by apply g_flows0.
      - intros k g h' [[<- <-]|[Hne Hk]]%lookup_insert_Some Hs'; [|by eapply g_live0].
        injection Hs' as <-. unfold tr2. rewrite live_snoc. cbn. set_solver.
      - intros k1 f1 k2 f2 h' [[<- <-]|[Hn1 H1]]%lookup_insert_Some [[<- <-]|[Hn2 H2]]%lookup_insert_Some E1 E2;
          [done| | |by eapply g_hands0]; exfalso; change (socket f') with (Some h) in *; [eapply (Hother _ _ H2)|eapply (Hother _ _ H1)]; congruence.
      - by rewrite zsize_replace by by eexists. }
    step.
    assert (∀ s2, good 0 (upd V key Carries) s2 tr2 → tcp s2 = tcp s1 → counters s2 = counters s1 → dns s2 = dns s1 →
      wpm (count (one_more tcp_opened with_tcp_opened)) s2 tr2 (λ _ s' tr', good 0 (upd V key Carries) s' tr' ∧
        same_totals s s' ∧ dom (tcp s') = dom (tcp s))) as Hcount.
    { intros s2 Hg3 E1 E2 E3. apply wpm_count. split; [by apply good_counters|]. split.
      - etrans; [exact Htot|]. unfold same_totals, connections, lookups, pending, one_more. cbn. rewrite E1, E2, E3.
        unfold s1. cbn. rewrite (msum_replace _ _ _ f) by done. unfold still_opening. rewrite Hs. cbn. lia.
      - cbn. rewrite E1. unfold s1. cbn. rewrite <-Etcp. apply dom_insert_lookup_L. by eexists. }
    destruct (held_syn f) as [[syn ?]|]; step; by apply Hcount; [apply good_rx || exact Hg2| | |].
  - step. split; [|split].
    + eapply good_flow_moved; [exact Hg0|exact Hf|done|done|done|].
      cbn [ExitSafety.pumped]. unfold ExitSafety.flow_ok. cbn. rewrite Hs. split; [done|]. by right.
    + etrans; [exact Htot|]. unfold same_totals, connections, lookups, pending. cbn.
      rewrite (msum_replace _ _ _ f) by done. unfold still_opening. cbn. lia.
    + cbn. rewrite <-Etcp. apply dom_insert_lookup_L. by eexists.
Qed.

(** Every flow is carried as far as it goes, and what is left to do with it noted. *)
Lemma wpm_pump_keys keys : ∀ V s tr,
  good 0 V s tr → NoDup keys → (∀ k, k ∈ keys → is_Some (tcp s !! k) ∧ V k = Carries) →
  wpm (pump_keys keys) s tr (λ vs s' tr', ∃ V', good 0 V' s' tr' ∧ same_totals s s' ∧
    dom (tcp s') = dom (tcp s) ∧ vs.*1 = keys ∧ (∀ kv, kv ∈ vs → V' kv.1 = kv.2) ∧
    ∀ k, k ∉ keys → V' k = V k).
Proof.
  induction keys as [|key keys IH]; intros V s tr Hg Hnd Hin; cbn [pump_keys].
  { step. exists V. split_and!; try done. by intros ? ?%elem_of_nil. }
  apply NoDup_cons in Hnd as [Hnew Hnd]. destruct (Hin key) as [[f Hf] HV]; [by apply list_elem_of_here|].
  destruct (g_flows _ _ _ _ Hg key f Hf) as [Hip _]. pose proof (pumped_at _ _ _ _ _ _ _ Hg Hf HV) as Hok.
  step. unfold pump_key. do 2 step. rewrite Hf. do 2 step.
  eapply prog_wp_mono; [by apply wp_pump_flow|]. intros [f' [v active]] tr1 (Ht & Hs & Hq & Hp). cbn [fst snd] in *.
  do 2 step. step. set (s1 := with_upstream_activity _ _).
  assert (good 0 (upd V key v) s1 tr1) as Hg1 by (apply good_activity; by eapply good_flow_moved).
  assert (dom (tcp s1) = dom (tcp s)) as Hdom by (apply dom_insert_lookup_L; by eexists).
  assert (same_totals s s1) as Htot.
  { unfold same_totals, connections, lookups, pending. cbn. rewrite (msum_replace _ _ _ f) by done.
    unfold still_opening. rewrite Hs. lia. }
  step. eapply wpm_mono; [apply (IH (upd V key v) s1 tr1 Hg1 Hnd)|].
  - intros k Hk. destruct (Hin k) as [Hk1 Hk2]; [by apply list_elem_of_further|]. split.
    + apply elem_of_dom. rewrite Hdom. by apply elem_of_dom.
    + rewrite upd_ne; [done|]. by intros ->.
  - intros vs s2 tr2 (V' & Hg2 & Htot2 & Hdom2 & Hvs & HV' & Hrest). step. exists V'.
    split_and!; [done|by etrans|congruence|cbn; by rewrite Hvs| |].
    + intros kv [->|Hkv]%elem_of_cons; [|by apply HV']. cbn [fst snd]. rewrite Hrest by done. apply upd_eq.
    + intros k Hk. apply not_elem_of_cons in Hk as [Hne Hk]. rewrite Hrest by done. by apply upd_ne.
Qed.

(** One for each refusal still to be carried out. *)
Definition refusals (V : FlowKey → Verdict) (l : list FlowKey) : Z :=
  foldr (λ k n, match V k with Refuses => 1 | _ => 0 end + n) 0 l.

Lemma refusals_app V l k : refusals V (l ++ k) = refusals V l + refusals V k.
Proof. induction l as [|x l IH]; cbn; [done|]. unfold refusals in *. cbn in *. lia. Qed.

Lemma refusals_none V l : (∀ k, k ∈ l → V k ≠ Refuses) → refusals V l = 0.
Proof.
  induction l as [|x l IH]; intros Hl; [done|]. cbn. unfold refusals in IH. rewrite IH.
  - specialize (Hl x ltac:(by apply list_elem_of_here)). by destruct (V x).
  - intros k Hk. apply Hl. by apply list_elem_of_further.
Qed.

Lemma accepted_spec vs :
  (accepted vs).*1 `sublist_of` vs.*1 ∧ ∀ a, a ∈ accepted vs ↔ (a.1, Accepted a.2) ∈ vs.
Proof.
  split.
  - unfold accepted. induction vs as [|[k v] vs IH]; [constructor|]. cbn. destruct v; by constructor.
  - intros [k l]. unfold accepted. rewrite list_elem_of_omap. split.
    + intros ([k' v] & Hin & E). destruct v; try done. cbn in E. by injection E as -> ->.
    + intros Hin. by exists (k, Accepted l).
Qed.

Lemma refused_spec vs :
  refused vs `sublist_of` vs.*1 ∧ ∀ k, k ∈ refused vs ↔ (k, Refuses) ∈ vs.
Proof.
  split.
  - unfold refused. induction vs as [|[k v] vs IH]; [constructor|]. cbn. destruct v; by constructor.
  - intros k. unfold refused. rewrite list_elem_of_omap. split.
    + intros ([k' v] & Hin & E). destruct v; try done. cbn in E. by injection E as ->.
    + intros Hin. by exists (k, Refuses).
Qed.

Lemma finished_spec vs :
  finished vs `sublist_of` vs.*1 ∧ ∀ k, k ∈ finished vs ↔ (k, Ends) ∈ vs.
Proof.
  split.
  - unfold finished. induction vs as [|[k v] vs IH]; [constructor|]. cbn. destruct v; by constructor.
  - intros k. unfold finished. rewrite list_elem_of_omap. split.
    + intros ([k' v] & Hin & E). destruct v; try done. cbn in E. by injection E as ->.
    + intros Hin. by exists (k, Ends).
Qed.

(** The connections whose far end opened. *)
Lemma wpm_accept_all l : ∀ V s tr,
  good 0 V s tr → NoDup l.*1 → (∀ a, a ∈ l → V a.1 = Accepted a.2 ∧ is_Some (tcp s !! a.1)) →
  wpm (for_each l (λ a, accept_tcp a.1 a.2)) s tr (λ _ s' tr', ∃ V', good 0 V' s' tr' ∧ same_totals s s' ∧
    dom (tcp s') = dom (tcp s) ∧ (∀ k, k ∈ l.*1 → V' k = Carries) ∧ ∀ k, k ∉ l.*1 → V' k = V k).
Proof.
  induction l as [|[key leftover] l IH]; intros V s tr Hg Hnd Hl; cbn [for_each].
  { step. exists V. split_and!; try done. by intros ? ?%elem_of_nil. }
  apply NoDup_cons in Hnd as [Hnew Hnd].
  destruct (Hl (key, leftover)) as [HV Hpresent]; [by apply list_elem_of_here|]. step.
  eapply wpm_mono; [by apply (wpm_accept_tcp V)|]. intros [] s1 tr1 (Hg1 & Htot & Hdom).
  eapply wpm_mono; [apply (IH (upd V key Carries) s1 tr1 Hg1 Hnd)|].
  - intros a Ha. destruct (Hl a) as [Ha1 Ha2]; [by apply list_elem_of_further|].
    split; [|apply elem_of_dom; rewrite Hdom; by apply elem_of_dom].
    rewrite upd_ne; [done|]. intros E. apply Hnew. cbn in *. rewrite <-E. apply list_elem_of_fmap. by exists a.
  - intros [] s2 tr2 (V' & Hg2 & Htot2 & Hdom2 & Hdone & Hrest). exists V'.
    split_and!; [done|by etrans|congruence| |].
    + intros k [->|Hk]%elem_of_cons; [|by apply Hdone]. cbn [fst] in *. rewrite Hrest by done. apply upd_eq.
    + intros k Hk. apply not_elem_of_cons in Hk as [Hne Hk]. rewrite Hrest by done. by apply upd_ne.
Qed.

(** The resets for those that were refused. *)
Lemma wpm_refuse_all V l : ∀ s tr,
  good 0 V s tr → (∀ k, k ∈ l → V k = Refuses ∧ is_Some (tcp s !! k)) →
  wpm (for_each l (refuse_flow client)) s tr (λ _ s' tr', good 0 V s' tr' ∧ still s tr s' tr' ∧
    connections s' = connections s + refusals V l ∧ lookups s' = lookups s).
Proof.
  induction l as [|key l IH]; intros s tr Hg Hl; cbn [for_each].
  { step. split; [done|]. split; [apply still_refl|]. cbn. lia. }
  destruct (Hl key) as [HV [f Hf]]; [by apply list_elem_of_here|]. step. unfold refuse_flow. do 2 step. rewrite Hf. cbn [mbind option_bind].
  pose proof (pumped_at _ _ _ _ _ _ _ Hg Hf HV) as (Hs & [[syn sequence] Hheld] & _). rewrite Hheld.
  eapply wpm_mono; [apply wpm_refuse_tcp|]. intros [] s1 tr1 (Hst & Hc & Hlk).
  assert (good 0 V s1 tr1) as Hg1 by by eapply good_still.
  eapply wpm_mono; [apply (IH s1 tr1 Hg1)|].
  - intros k Hin. rewrite (st_tcp _ _ _ _ Hst). apply Hl. by apply list_elem_of_further.
  - intros [] s2 tr2 (Hg2 & Hst2 & Hc2 & Hk2). split; [done|]. split; [by eapply still_trans|].
    cbn [refusals foldr]. rewrite HV. fold (refusals V l). lia.
Qed.

(** Those that ended and those that were refused leave. *)
Lemma wpm_remove_all V l : ∀ s tr,
  good 0 V s tr → NoDup l → (∀ k, k ∈ l → is_Some (tcp s !! k) ∧ (V k = Ends ∨ V k = Refuses)) →
  (∀ k, is_Some (tcp s !! k) → k ∈ l ∨ V k = Carries) →
  wpm (for_each l remove_tcp) s tr (λ _ s' tr', good 0 idle_flows s' tr' ∧
    connections s' = connections s - refusals V l ∧ lookups s' = lookups s).
Proof.
  induction l as [|key l IH]; intros s tr Hg Hnd Hl Hrest; cbn [for_each].
  { step. split; [|cbn; lia]. eapply good_verdicts; [exact Hg|]. intros k Hk.
    destruct (Hrest k Hk) as [?%elem_of_nil|HV]; [done|]. by rewrite HV. }
  apply NoDup_cons in Hnd as [Hnew Hnd]. destruct (Hl key) as [[f Hf] HV]; [by apply list_elem_of_here|].
  step. eapply wpm_mono; [by apply (wpm_remove_tcp 0 V key f)|]. intros [] s1 tr1 (Hg1 & Htcp & Hc & Hlk).
  assert (still_opening f = match V key with Refuses => 1 | _ => 0 end) as Hcost.
  { destruct (g_flows _ _ _ _ Hg key f Hf) as [_ Hp]. unfold still_opening.
    destruct HV as [HV|HV]; rewrite HV in Hp |- *; cbn in Hp.
    - destruct Hp as [_ [h ->]]. done.
    - destruct Hp as [-> _]. done. }
  eapply wpm_mono; [apply (IH s1 tr1 Hg1 Hnd)|].
  - intros k Hin. rewrite Htcp. destruct (Hl k) as [Hk1 Hk2]; [by apply list_elem_of_further|].
    split; [|done]. rewrite lookup_delete_ne; [done|]. by intros ->.
  - intros k [g Hk1]. rewrite Htcp in Hk1. apply lookup_delete_Some in Hk1 as [Hne Hk1].
    destruct (Hrest k) as [Hin|Hc']; [by eexists| |by right].
    apply elem_of_cons in Hin as [->|Hin]; [done|by left].
  - intros [] s2 tr2 (Hg2 & Hc2 & Hk2). split; [done|]. cbn [refusals foldr]. fold (refusals V l). lia.
Qed.

Lemma wpm_pump_tcp s tr :
  good 0 idle_flows s tr →
  wpm (pump_tcp client) s tr (λ _ s' tr', good 0 idle_flows s' tr' ∧ same_totals s s').
Proof.
  intros Hg. unfold pump_tcp. do 2 step. do 2 step. intros keys Hl Hperm. cbn in Hperm.
  apply (good_ask' 0 idle_flows s tr (OrderFlows _) keys) in Hg; [|done|done]. set (tr1 := tr ++ _) in *.
  assert (∀ k, k ∈ keys ↔ is_Some (tcp s !! k)) as Hkeys.
  { intros k. rewrite Hperm, elem_of_elements. apply elem_of_dom. }
  step. eapply wpm_mono; [apply (wpm_pump_keys keys idle_flows s tr1 Hg)|].
  { rewrite Hperm. apply NoDup_elements. }
  { intros k Hk. by split; [apply Hkeys|]. }
  intros vs s1 tr2 (V1 & Hg1 & Htot1 & Hdom1 & Hvs & HV1 & Hother1).
  assert (NoDup vs.*1) as Hnd by (rewrite Hvs, Hperm; apply NoDup_elements).
  destruct (accepted_spec vs) as [Hsa Ha], (refused_spec vs) as [Hsr Hr], (finished_spec vs) as [Hsf Hf].
  assert (∀ k, k ∈ vs.*1 ↔ is_Some (tcp s1 !! k)) as Hin.
  { intros k. rewrite Hvs, Hkeys, <-!elem_of_dom. by rewrite Hdom1. }
  assert (∀ k v, (k, v) ∈ vs → V1 k = v ∧ is_Some (tcp s1 !! k)) as Hat.
  { intros k v Hkv. split; [by apply (HV1 (k, v))|]. apply Hin, list_elem_of_fmap. by exists (k, v). }
  step. eapply wpm_mono; [apply (wpm_accept_all (accepted vs) V1 s1 tr2 Hg1)|].
  { by eapply sublist_NoDup. }
  { intros a Hina. by apply Hat, Ha. }
  intros [] s2 tr3 (V2 & Hg2 & Htot2 & Hdom2 & Hdone & Hother2).
  assert (∀ k v, (k, v) ∈ vs → (∀ l, v ≠ Accepted l) → V2 k = v ∧ is_Some (tcp s2 !! k)) as Hat2.
  { intros k v Hkv Hne. destruct (Hat k v Hkv) as [Hv Hk]. split.
    - rewrite Hother2; [done|]. intros ([k' l] & -> & Hina)%list_elem_of_fmap. apply Ha in Hina.
      destruct (Hat _ _ Hina) as [Hv' _]. cbn in *. apply (Hne l). congruence.
    - apply elem_of_dom. rewrite Hdom2. by apply elem_of_dom. }
  step. eapply wpm_mono; [apply (wpm_refuse_all V2 (refused vs) s2 tr3 Hg2)|].
  { intros k Hk%Hr. by apply Hat2. }
  intros [] s3 tr4 (Hg3 & Hst3 & Hc3 & Hk3).
  eapply wpm_mono; [apply (wpm_remove_all V2 (finished vs ++ refused vs) s3 tr4 Hg3)|].
  - apply NoDup_app. split; [by eapply sublist_NoDup|]. split; [|by eapply sublist_NoDup].
    intros k Hkf%Hf Hkr%Hr. destruct (Hat2 _ _ Hkf), (Hat2 _ _ Hkr); congruence.
  - intros k. rewrite (st_tcp _ _ _ _ Hst3). intros [Hk%Hf|Hk%Hr]%elem_of_app; destruct (Hat2 _ _ Hk) as [Hv Hs]; auto.
  - intros k. rewrite (st_tcp _ _ _ _ Hst3). intros Hk.
    assert (k ∈ vs.*1) as Hkv by (apply Hin, elem_of_dom; rewrite <-Hdom2; by apply elem_of_dom).
    apply list_elem_of_fmap in Hkv as ([k' v] & -> & Hkv). cbn. destruct v as [|l| |].
    + right. by apply (Hat2 _ _ Hkv).
    + right. apply Hdone, list_elem_of_fmap. exists (k', l). split; [done|]. by apply Ha.
    + left. apply elem_of_app. right. by apply Hr.
    + left. apply elem_of_app. left. by apply Hf.
  - intros [] s4 tr5 (Hg4 & Hc4 & Hk4). split; [done|]. rewrite refusals_app in Hc4.
    rewrite (refusals_none V2 (finished vs)) in Hc4.
    + unfold same_totals in *. lia.
    + intros k Hk%Hf. destruct (Hat2 _ _ Hk); [done|congruence].
Qed.

End invariant.
