(* ===== verification/ExitDatagrams.v ===== *)
(** * The forwarding stack's datagrams keep its invariant

    A datagram socket's association is opened, negotiated with the proxy, used and
    given up; each step keeps [ExitInvariant.good] and what the stack was asked
    for stays counted ([kept]). *)
From S2P Require Import Text Dns SocksWire Prelude Fragments ExitPacket ExitHandshake ExitStack ExitSafety ExitInvariant.

Section datagrams.
Context (client probe_target : list byte) (exit : Exit) (rounds : nat).

Notation good := (good exit).
Notation flow_ok := (flow_ok exit).

Hypothesis login_ok : login_wf (login exit).

Notation good_ask := (ExitInvariant.good_ask exit login_ok).
Notation good_ask' := (ExitInvariant.good_ask' exit login_ok).
Notation good_still := (ExitInvariant.good_still exit login_ok).
Notation good_moved := (ExitInvariant.good_moved exit login_ok).
Notation wpm_dial := (ExitInvariant.wpm_dial exit login_ok).

(** [m] keeps the invariant and both counts. *)
Definition kept (s0 : Stack) (s : Stack) (tr : trace) : Prop := good 0 idle_flows s tr ∧ same_totals s0 s.

#[local] Instance totals_preorder : PreOrder same_totals.
Proof. unfold same_totals. split; [by intros s|]. intros s1 s2 s3. lia. Qed.

Lemma kept_still s0 s tr s' tr' : kept s0 s tr → still s tr s' tr' → same_totals s s' → kept s0 s' tr'.
Proof. intros [Hg Ht] Hst Ht'. split; [by eapply good_still|by etrans]. Qed.

Lemma kept_ask s0 s tr c a : kept s0 s tr → zlen tr < TRACE → about ∅ ∅ c = true → kept s0 s (tr ++ [mk_event c a]).
Proof. intros [Hg Ht] Hl Hc. split; [by apply good_ask'|done]. Qed.

Lemma kept_refl s tr : good 0 idle_flows s tr → kept s s tr.
Proof. by split. Qed.

(** ** Streams that are not a connection's *)

Lemma wp_advance_quiet u data tr :
  wp (advance u data) tr (λ r tr', token r.1 = token u ∧ quiet {[token u]} ∅ tr tr').
Proof.
  unfold advance. destruct (handshake u) as [h|]; [|by step]. destruct (receive h data) as [[[bytes| |b l]|e] h'].
  - step. eapply prog_wp_mono; [apply wp_flush|]. intros u' tr' ([Et _ _] & Hq & _). step. done.
  - by step.
  - by step.
  - by step.
Qed.

Lemma wp_flush_quiet u tr : wp (flush u) tr (λ u' tr', token u' = token u ∧ quiet {[token u]} ∅ tr tr').
Proof. eapply prog_wp_mono; [apply wp_flush|]. by intros u' tr' ([Et _ _] & Hq & _). Qed.

Lemma wp_read_quiet u room tr :
  0 <= room → wp (read u room) tr (λ r tr', token r.1 = token u ∧ quiet {[token u]} ∅ tr tr').
Proof. intros Hr. eapply prog_wp_mono; [by apply wp_read|]. by intros r tr' [_ ([Et _ _] & _ & Hq & _)]. Qed.

Lemma wp_drain_quiet fuel : ∀ u data tr,
  wp (drain_stream fuel u data) tr (λ r tr', token r.1 = token u ∧ quiet {[token u]} ∅ tr tr').
Proof.
  induction fuel as [|fuel IH]; intros u data tr; [done|]. cbn [drain_stream]. step.
  eapply prog_wp_mono; [by apply wp_read_quiet|]. intros [u1 [chunk done]] tr1 [Et Hq]. cbn [fst] in Et.
  destruct (_ || _); [by step|]. eapply prog_wp_mono; [apply IH|]. intros r tr2 [Et2 Hq2]. cbn in *.
  rewrite Et in *. split; [done|by etrans].
Qed.

Lemma aside_control n V s tr port a u :
  good n V s tr → udp s !! port = Some a → control_of (state a) = Some u → aside s {[token u]}.
Proof.
  intros Hg Ha Hu t ->%elem_of_singleton. exists (OwnUdpControl port). split; [|done].
  apply (g_own _ _ _ _ _ Hg (OwnUdpControl port)). by exists a, u.
Qed.

(** ** Datagrams *)

Lemma good_with_assoc n V s tr port a :
  good n V s tr → queue_ok (state a) →
  (∀ u, control_of (state a) = Some u → owners s !! token u = Some (OwnUdpControl port)) →
  (∀ t, data_of (state a) = Some t → owners s !! t = Some (OwnUdpData port)) →
  is_Some (udp s !! port) ∨ zsize (udp s) < MAX_UDP_ASSOCIATIONS →
  good n V (with_udp s (<[port := a]> (udp s))) tr.
Proof.
  intros [] Hq Hu Ht Hroom. split; try done; cbn [udp with_udp owners].
  - intros o t Ho. destruct o; cbn [holds tcp udp dns probes with_udp] in Ho; try by apply g_own.
    + destruct Ho as (a' & u & [[<- <-]|[Hne Ha]]%lookup_insert_Some & Hc & <-); [by apply Hu|].
      apply (g_own (OwnUdpControl port0)). by exists a', u.
    + destruct Ho as (a' & [[<- <-]|[Hne Ha]]%lookup_insert_Some & Hc); [by apply Ht|].
      apply (g_own (OwnUdpData port0)). by exists a'.
  - intros p a' [[<- <-]|[Hne Ha]]%lookup_insert_Some; [done|by eapply g_queues].
  - destruct (udp s !! port) eqn:E.
    + by rewrite zsize_replace by by eexists.
    + rewrite zsize_insert_new by done. destruct Hroom as [[? ?]|?]; [done|lia].
Qed.

Lemma alter_present {K A} `{Countable K} (f : A → A) (m : gmap K A) k a : m !! k = Some a → alter f k m = <[k := f a]> m.
Proof. intros Hk. apply map_eq. intros i. destruct (decide (i = k)) as [->|]; by simplify_map_eq. Qed.

Lemma alter_absent {K A} `{Countable K} (f : A → A) (m : gmap K A) k : m !! k = None → alter f k m = m.
Proof. intros Hk. apply map_eq. intros i. destruct (decide (i = k)) as [->|]; by simplify_map_eq. Qed.

(** An association changes state; what it now holds is registered. *)
Lemma good_set_state n V s tr port st now_ :
  good n V s tr → queue_ok st →
  (∀ u, control_of st = Some u → owners s !! token u = Some (OwnUdpControl port)) →
  (∀ t, data_of st = Some t → owners s !! t = Some (OwnUdpData port)) →
  good n V (with_udp s (alter (λ a, mk_association st (now_ a) (idle_after a)) port (udp s))) tr.
Proof.
  intros Hg Hq Hu Ht. destruct (udp s !! port) as [a|] eqn:Ha.
  - rewrite (alter_present _ _ _ a) by done. apply good_with_assoc; try done. left. by eexists.
  - rewrite alter_absent by done. destruct Hg. by split.
Qed.

Lemma good_touch n V s tr port now :
  good n V s tr → good n V (with_udp s (alter (λ a, mk_association (state a) now (idle_after a)) port (udp s))) tr.
Proof.
  intros Hg. destruct (udp s !! port) as [a|] eqn:Ha.
  - rewrite (alter_present _ _ _ a) by done. apply good_with_assoc; try done; [exact (g_queues _ _ _ _ _ Hg port a Ha)| | |left; by eexists].
    + intros u Hu. apply (g_own _ _ _ _ _ Hg (OwnUdpControl port)). by exists a, u.
    + intros t Ht. apply (g_own _ _ _ _ _ Hg (OwnUdpData port)). by exists a.
  - rewrite alter_absent by done. destruct Hg. by split.
Qed.

(** The totals do not see the associations. *)
Lemma totals_udp s m : same_totals s (with_udp s m).
Proof. done. Qed.

Lemma wpm_remove_udp port s tr :
  good 0 idle_flows s tr →
  wpm (remove_udp port) s tr (λ _ s' tr', kept s s' tr' ∧ udp s' = delete port (udp s)).
Proof.
  intros Hg. unfold remove_udp. do 2 step. destruct (udp s !! port) as [a|] eqn:Ha.
  2:{ step. split; [by apply kept_refl|]. by rewrite delete_id. }
  do 2 step. pose proof (good_without_udp exit 0 idle_flows s tr port Hg) as Hg1. set (s1 := with_udp s _) in *.
  assert (∀ o s2 tr2 t, good 0 idle_flows s2 tr2 → udp s2 = delete port (udp s) → owners s2 !! t = Some o →
    (o = OwnUdpControl port ∨ o = OwnUdpData port) → good 0 idle_flows (with_owners s2 (delete t (owners s2))) tr2) as Hdis.
  { intros o s2 tr2 t Hg2 Hu Ho [->| ->]; (eapply good_disown; [exact Hg2|exact Ho|]); intros t' Hh; cbn [holds] in Hh; rewrite Hu in Hh.
    - destruct Hh as (a' & u & [? _]%lookup_delete_Some & _). done.
    - destruct Hh as (a' & [? _]%lookup_delete_Some & _). done. }
  assert (∀ u, control_of (state a) = Some u → owners s1 !! token u = Some (OwnUdpControl port)) as Hcontrol.
  { intros u Hu. apply (g_own _ _ _ _ _ Hg (OwnUdpControl port)). by exists a, u. }
  assert (∀ t, data_of (state a) = Some t → owners s1 !! t = Some (OwnUdpData port)) as Hdata.
  { intros t Ht. apply (g_own _ _ _ _ _ Hg (OwnUdpData port)). by exists a. }
  destruct (state a) as [u q|u t|t|until]; cbn in Hcontrol, Hdata.
  - step. unfold deregister. step. intros [] Hl _. unfold disown. step. split; [|done]. split; [|done].
    eapply Hdis; [by apply good_ask'|done|by apply Hcontrol|by left].
  - step. unfold deregister. step. intros [] Hl _. unfold disown. do 2 step.
    step. step. intros [] Hl2 _. step. split; [|done]. split; [|done].
    set (s2 := with_owners s1 _) in *.
    assert (good 0 idle_flows s2 (tr ++ [mk_event (Deregister (token u)) ()])) as Hg2.
    { eapply Hdis; [by apply good_ask'|done|by apply Hcontrol|by left]. }
    eapply Hdis; [by apply good_ask'|done| |by right].
    assert (owners s1 !! t = Some (OwnUdpData port)) as Ht by by apply Hdata.
    unfold s2. cbn [owners with_owners]. rewrite lookup_delete_ne; [done|]. intros E.
    specialize (Hcontrol u eq_refl). rewrite E in Hcontrol. cbn in Ht; congruence.
  - step. step. intros [] Hl _. unfold disown. step. split; [|done]. split; [|done].
    eapply Hdis; [by apply good_ask'|done|by apply Hdata|by right].
  - step. split; [|done]. by split.
Qed.
(** What an association starts as: whatever it holds is registered to it. *)
Definition registered (s : Stack) (port : Z) (st : UdpState) : Prop :=
  (∀ u, control_of st = Some u → owners s !! token u = Some (OwnUdpControl port)) ∧
  (∀ t, data_of st = Some t → owners s !! t = Some (OwnUdpData port)).

Lemma registered_at n V s tr port a : good n V s tr → udp s !! port = Some a → registered s port (state a).
Proof.
  intros Hg Ha. split.
  - intros u Hu. apply (g_own _ _ _ _ _ Hg (OwnUdpControl port)). by exists a, u.
  - intros t Ht. apply (g_own _ _ _ _ _ Hg (OwnUdpData port)). by exists a.
Qed.

Lemma wpm_open_direct_udp port s tr :
  good 0 idle_flows s tr →
  wpm (open_direct_udp port) s tr (λ st s' tr',
    kept s s' tr' ∧ udp s' = udp s ∧ queue_ok st ∧ registered s' port st).
Proof.
  intros Hg. unfold open_direct_udp. do 2 step. do 2 step. intros ok Hl _. destruct ok.
  - step. eapply wpm_mono; [apply (wpm_take_token exit (-1)); [by apply (good_ask 0)|lia]|].
    intros t s1 tr1 (-> & [-> ->] & Hg1 & Ht). step. split_and!; [by split|done|done|split].
    + intros u E. discriminate E.
    + intros t [= <-]. apply lookup_insert_eq.
  - step. apply wpm_count. do 2 step. intros now Hl2 _. step. split_and!; [split; [|by split]|done|done|by split].
    apply good_counters, good_ask'; [by apply good_ask'|done|done].
Qed.

Lemma wpm_first_state port now s tr :
  good 0 idle_flows s tr → udp s !! port = None →
  wpm (if is_proxy exit then
         t ← take_token (OwnUdpControl port);
         u ← dial exit t UdpAssociate (SocketAddr [x00; x00; x00; x00] 0);
         match u with
         | Some control => mret (Dialing control [])
         | None => _ ← disown t; mret (Refused (now + UDP_RETRY_AFTER))
         end
       else open_direct_udp port) s tr (λ st s' tr',
    kept s s' tr' ∧ udp s' = udp s ∧ queue_ok st ∧ registered s' port st).
Proof.
  intros Hg Hnew. destruct (is_proxy exit); [|by apply wpm_open_direct_udp].
  step. eapply wpm_mono; [by apply (wpm_take_token exit 0)|]. intros t s1 tr1 (-> & [-> ->] & Hg1 & Htot).
  set (t := next_token s) in *. set (s1 := with_owners _ _) in *.
  step. eapply wpm_mono; [apply wpm_dial|]. intros u s2 tr2 (-> & c & a & Hl & Hc & -> & Hu).
  assert (good 0 idle_flows s1 (tr ++ [mk_event c a])) as Hg2 by by apply (good_ask 1).
  assert (owners s1 !! t = Some (OwnUdpControl port)) as Ht by apply lookup_insert_eq.
  destruct u as [u|].
  - destruct (Hu u eq_refl) as [Et _]. step. split_and!; [by split|done|done|split].
    + intros u' [= <-]. by rewrite Et.
    + intros t' E. discriminate E.
  - step. unfold disown. do 2 step. split_and!; [split; [|done]|done|done|by split].
    eapply good_disown; [done|exact Ht|]. intros t' (a' & u' & Ha & _). change (udp s1) with (udp s) in Ha. congruence.
Qed.

Lemma wpm_make_room s tr :
  good 0 idle_flows s tr →
  wpm (if MAX_UDP_ASSOCIATIONS <=? zsize (udp s) then
         ports ← asks (Order (elements (dom (udp s))));
         match min_by (λ port, default 0 (last_used <$> udp s !! port)) ports with
         | Some quietest => remove_udp quietest
         | None => mret ()
         end
       else mret ()) s tr (λ _ s' tr',
    kept s s' tr' ∧ (∀ port, udp s !! port = None → udp s' !! port = None) ∧ zsize (udp s') < MAX_UDP_ASSOCIATIONS).
Proof.
  intros Hg. destruct (Z.leb_spec MAX_UDP_ASSOCIATIONS (zsize (udp s))) as [Hfull|Hroom].
  2:{ step. by split_and!; [apply kept_refl| |]. }
  do 2 step. intros ports Hl Hperm. cbn in Hperm.
  pose proof (min_by_spec (λ port, default 0 (last_used <$> udp s !! port)) ports) as Hmin.
  apply (good_ask' _ _ _ _ (Order (elements (dom (udp s)))) ports) in Hg; [|done|done].
  destruct (min_by _ ports) as [q|].
  - destruct Hmin as [Hin _]. rewrite Hperm, elem_of_elements, elem_of_dom in Hin.
    eapply wpm_mono; [by apply wpm_remove_udp|]. intros [] s' tr' [Hk Hu]. split; [done|]. rewrite Hu. split.
    + intros port Hp. apply lookup_delete_None. by right.
    + pose proof (g_udp_room _ _ _ _ _ Hg). unfold zsize in *. rewrite map_size_delete_Some by done.
      destruct Hin as [a Ha].
      assert (size (udp s) ≠ 0%nat) by (intros E%map_size_empty_iff; rewrite E in Ha; done). lia.
  - subst ports. apply Permutation_nil, elements_empty_inv, leibniz_equiv, dom_empty_inv_L in Hperm.
    rewrite Hperm in Hfull. vm_compute in Hfull. done.
Qed.

Lemma wpm_open_udp port destination now s tr :
  good 0 idle_flows s tr → udp s !! port = None →
  wpm (open_udp exit port destination now) s tr (λ _ s' tr', kept s s' tr' ∧ is_Some (udp s' !! port)).
Proof.
  intros Hg Hnew. unfold open_udp. do 2 step. step.
  eapply wpm_mono; [by apply wpm_make_room|]. intros [] s1 tr1 ([Hg1 Ht1] & Hnew1 & Hroom).
  step. eapply wpm_mono; [apply wpm_first_state; auto|]. intros st s2 tr2 ([Hg2 Ht2] & Hu & Hq & Hc & Hd).
  step. split; [split|].
  - apply good_with_assoc; [done|done|done|done|]. right. by rewrite Hu.
  - etrans; [exact Ht1|]. exact Ht2.
  - cbn. rewrite lookup_insert_eq. by eexists.
Qed.

Lemma kept_trans s0 s tr s' tr' : kept s0 s tr → kept s s' tr' → kept s0 s' tr'.
Proof. intros [_ Ht] [Hg Ht']. split; [done|by etrans]. Qed.

Lemma wpm_sent_one t to data s tr :
  wpm (sent_one t to data) s tr (λ _ s' tr', still s tr s' tr' ∧ same_totals s s').
Proof.
  unfold sent_one. do 2 step. intros ok Hl _.
  assert (still s tr s (tr ++ [mk_event (UdpSend t to data) ok])) as Hs by by apply still_ask.
  destruct ok; [|by step]. apply wpm_count. split; [|by split].
  eapply still_trans; [exact Hs|apply still_counters].
Qed.

Lemma wpm_send_udp fuel port destination payload : ∀ s tr,
  good 0 idle_flows s tr →
  wpm (send_udp exit fuel port destination payload) s tr (λ _ s' tr', kept s s' tr').
Proof.
  induction fuel as [|fuel IH]; intros s tr Hg; cbn [send_udp]; [by step|].
  do 2 step. intros now Hl _. apply (good_ask' 0 idle_flows s tr Now now) in Hg; [|done|done]. set (tr1 := tr ++ _) in *.
  do 2 step. step. eapply (wpm_mono _ _ _ (λ _ s' tr', kept s s' tr' ∧ is_Some (udp s' !! port))).
  { destruct (bool_decide _) eqn:E; [step; apply bool_decide_eq_true in E; by split; [apply kept_refl|]|].
    apply bool_decide_eq_false, eq_None_not_Some in E. by apply wpm_open_udp. }
  intros [] s1 tr2 [[Hg1 Ht1] [a Ha]]. do 2 step.
  pose proof (good_touch 0 idle_flows s1 tr2 port now Hg1) as Hg2. set (s2 := with_udp s1 _) in *. do 2 step.
  assert (udp s2 !! port = Some (mk_association (state a) now (idle_after a))) as Ha2.
  { unfold s2. cbn [udp with_udp]. by rewrite lookup_alter_eq, Ha. }
  rewrite Ha2. cbn [fmap option_fmap option_map state].
  pose proof (registered_at _ _ _ _ _ _ Hg2 Ha2) as Hreg. cbn [state] in Hreg.
  assert (kept s s2 tr2) as Hk by by split.
  destruct (state a) as [control queue|control t|t|until].
  - destruct (Z.ltb_spec (zlen queue) UDP_QUEUE_LIMIT); unfold set_udp_state; step; [|done]. split; [|by destruct Hk].
    apply (good_set_state _ _ _ _ _ _ last_used); [done| |apply Hreg|apply Hreg]. cbn [queue_ok]. rewrite zlen_app. change (zlen [_]) with 1. lia.
  - eapply wpm_mono; [apply wpm_sent_one|]. intros [] s3 tr3 [Hst Ht]. by eapply kept_still.
  - eapply wpm_mono; [apply wpm_sent_one|]. intros [] s3 tr3 [Hst Ht]. by eapply kept_still.
  - destruct (until <=? now).
    + step. eapply wpm_mono; [by apply wpm_remove_udp|]. intros [] s3 tr3 [Hk3 _].
      eapply wpm_mono; [apply IH; by destruct Hk3|]. intros [] s4 tr4 Hk4. eapply kept_trans; [|exact Hk4].
      by eapply kept_trans.
    + apply wpm_count. split; [by apply good_counters|]. by destruct Hk.
Qed.

Lemma wpm_refuse_association port s tr :
  good 0 idle_flows s tr → wpm (refuse_association port) s tr (λ _ s' tr', kept s s' tr').
Proof.
  intros Hg. unfold refuse_association, set_udp_state. step. apply wpm_count.
  apply (good_counters _ _ _ _ _ (one_more udp_refused with_udp_refused (counters s))) in Hg.
  set (s1 := with_counters s _) in *. assert (same_totals s s1) as Ht by done. do 2 step.
  destruct (udp s1 !! port) as [a|] eqn:Ha; [|by step]. pose proof (registered_at _ _ _ _ _ _ Hg Ha) as [Hreg _].
  set (set_refused := λ now, λ s2, with_udp s2 (alter (λ a, mk_association (Refused (now + UDP_RETRY_AFTER)) (last_used a) (idle_after a)) port (udp s2))).
  assert (∀ now tr', good 0 idle_flows s1 tr' → good 0 idle_flows (set_refused now s1) tr') as Hset.
  { intros now tr' Hg'. by apply (good_set_state _ _ _ _ _ _ last_used). }
  step. destruct (state a) as [control queue|control t|t|until].
  2,3,4: step; do 2 step; intros now Hl2 _; step; split; [apply (Hset now); by apply good_ask'|done].
  step. unfold deregister, set_udp_state. step. intros [] Hl _. unfold disown. step. do 2 step. intros now Hl2 _. step.
  split; [|done]. change (good 0 idle_flows (with_owners (set_refused now s1) (delete (token control) (owners (set_refused now s1))))
    ((tr ++ [mk_event (Deregister (token control)) ()]) ++ [mk_event Now now])).
  eapply good_disown; [apply Hset; apply good_ask'; [by apply good_ask'|done|done]|by apply Hreg|].
  intros t (a' & u & Ha' & Hc & _). unfold set_refused in Ha'. cbn [udp with_udp] in Ha'.
  rewrite lookup_alter_eq, Ha in Ha'. injection Ha' as <-. done.
Qed.

Lemma wpm_sent_all t (queue : list (SocketAddrV4 * list byte)) : ∀ s tr,
  wpm (for_each queue (λ q, sent_one t None (udp_request q.1 q.2))) s tr
    (λ _ s' tr', still s tr s' tr' ∧ same_totals s s').
Proof.
  induction queue as [|q queue IH]; intros s tr; cbn [for_each].
  - step. split; [apply still_refl|by split].
  - step. eapply wpm_mono; [apply wpm_sent_one|]. intros [] s1 tr1 [Hst Ht].
    eapply wpm_mono; [apply IH|]. intros [] s2 tr2 [Hst2 Ht2]. split; [by eapply still_trans|by etrans].
Qed.

Lemma wpm_open_association port relay s tr :
  good 0 idle_flows s tr → wpm (open_association port relay) s tr (λ _ s' tr', kept s s' tr').
Proof.
  intros Hg. unfold open_association. do 2 step. intros bound Hl _.
  destruct bound; cbn [negb]; [|step; split; [by apply good_ask'|done]].
  apply (good_ask 0 idle_flows s tr (UdpConnect relay) true) in Hg; [|done|done]. set (tr1 := tr ++ _) in *.
  step. eapply wpm_mono; [apply (wpm_take_token exit (-1)); [exact Hg|lia]|].
  intros t s1 ? (-> & [-> ->] & Hg1 & Ht1). set (t := next_token s) in *. set (s1 := with_owners _ _) in *.
  assert (owners s1 !! t = Some (OwnUdpData port)) as Hown by apply lookup_insert_eq.
  do 2 step. intros ok Hl2 _. apply (good_ask' _ _ _ _ (UdpRegister t) ok) in Hg1; [|done|done].
  destruct ok; cbn [negb]; [|by step]. set (tr2 := tr1 ++ _) in *. do 2 step.
  destruct (udp s1 !! port) as [a|] eqn:Ha; [|by step]. do 2 step. intros now Hl3 _.
  apply (good_ask' _ _ _ _ Now now) in Hg1; [|done|done]. set (tr3 := tr2 ++ _) in *. unfold set_udp_state. do 2 step.
  pose proof (registered_at _ _ _ _ _ _ Hg1 Ha) as [Hreg _].
  assert (good 0 idle_flows (with_udp s1 (alter (λ a, mk_association (Refused now) (last_used a) (idle_after a)) port (udp s1))) tr3) as Hg2.
  { by apply (good_set_state _ _ _ _ _ _ last_used). }
  set (s2 := with_udp s1 _) in *.
  destruct (state a) as [control queue|control t'|t'|until]; [|by step|by step|by step].
  step. eapply wpm_mono; [apply wpm_sent_all|]. intros [] s3 tr4 [Hst Ht3].
  assert (good 0 idle_flows s3 tr4) as Hg3 by by eapply good_still.
  do 2 step. step. split; [|etrans; [exact Ht1|exact Ht3]]. apply (good_set_state _ _ _ _ _ _ last_used); [done|done| |].
  - intros u [= <-]. rewrite (st_owners _ _ _ _ Hst). by apply Hreg.
  - intros t' [= <-]. by rewrite (st_owners _ _ _ _ Hst).
Qed.

Lemma with_control_registered s port st u u' :
  registered s port st → control_of st = Some u → token u' = token u → registered s port (with_control st u').
Proof.
  intros [Hc Hd] Hu Ht. specialize (Hc u Hu).
  destruct st; cbn in Hu; try done; (split; [intros ? [= <-]; by rewrite Ht|by apply Hd]).
Qed.

Lemma wpm_udp_control_ready port s tr :
  good 0 idle_flows s tr → wpm (udp_control_ready exit port) s tr (λ _ s' tr', kept s s' tr').
Proof.
  intros Hg. unfold udp_control_ready. generalize exit as e. intros [proxy cr|]; [|by step; apply kept_refl].
  do 2 step. destruct (udp s !! port) as [a|] eqn:Ha; [|by step].
  destruct (control_of (state a)) as [control|] eqn:Hu; [|by step].
  pose proof (registered_at _ _ _ _ _ _ Hg Ha) as Hreg. pose proof (g_queues _ _ _ _ _ Hg _ _ Ha) as Hq.
  pose proof (aside_control _ _ _ _ _ _ _ Hg Ha Hu) as Haside.
  do 2 step. eapply prog_wp_mono; [apply wp_flush_quiet|]. intros u1 tr1 [E1 Q1].
  do 2 step. eapply prog_wp_mono; [apply wp_read_quiet; lia|]. intros [u2 [data fin]] tr2 [E2 Q2]. cbn [fst] in E2.
  assert (good 0 idle_flows s tr2) as Hg2.
  { eapply good_moved; [exact Hg|etrans; [exact Q1|by rewrite E1 in Q2]|done]. }
  assert (∀ u tr', token u = token control → good 0 idle_flows s tr' → kept s (with_udp s (alter (λ a0, mk_association (with_control (state a) u) (last_used a0) (idle_after a0)) port (udp s))) tr') as Hset.
  { intros u tr' Et Hg'. split; [|done]. destruct (with_control_registered s port (state a) control u) as [Hc Hd]; [done..|].
    apply (good_set_state _ _ _ _ _ _ last_used); [done| |done|done]. by destruct (state a). }
  destruct (handshake u2).
  - do 2 step. eapply prog_wp_mono; [apply wp_advance_quiet|]. intros [u3 outcome] tr3 [E3 Q3]. cbn [fst] in E3.
    assert (token u3 = token control) as Et by congruence.
    assert (good 0 idle_flows s tr3) as Hg3.
    { eapply good_moved; [exact Hg2|exact Q3|]. by rewrite E2, E1. }
    unfold set_udp_state. do 2 step. specialize (Hset u3 tr3 Et Hg3). set (s1 := with_udp s _) in *. step.
    eapply (wpm_mono _ _ _ (λ _ s' tr', kept s s' tr')).
    { destruct outcome as [[[bound leftover]|]|]; [|by step|by step]. step.
      eapply wpm_mono; [apply wpm_open_association; by destruct Hset|]. intros ok s2 tr4 Hk. step. by eapply kept_trans. }
    intros refused s2 tr4 Hk. destruct refused; [|by step].
    eapply wpm_mono; [apply wpm_refuse_association; by destruct Hk|]. intros [] s3 tr5 Hk3. by eapply kept_trans.
  - unfold set_udp_state. do 2 step. specialize (Hset u2 tr2 ltac:(congruence) Hg2).
    destruct fin; [|by step]. unfold deregister. step. intros [] Hl _. by apply kept_ask.
Qed.

(** *** Replies *)

Lemma kept_touch s0 s tr port now :
  kept s0 s tr → kept s0 (with_udp s (alter (λ a, mk_association (state a) now (idle_after a)) port (udp s))) tr.
Proof. intros [Hg Ht]. split; [by apply good_touch|done]. Qed.

Lemma kept_activity s0 s tr v : kept s0 s tr → kept s0 (with_upstream_activity s v) tr.
Proof. intros [Hg Ht]. split; [by apply good_activity|done]. Qed.

Lemma wpm_direct_replies s0 port l : ∀ s tr,
  kept s0 s tr → wpm (direct_replies client port l) s tr (λ _ s' tr', kept s0 s' tr').
Proof.
  induction l as [|[[from|] data|] l IH]; intros s tr Hk; cbn [direct_replies]; unfold touch_udp; [by step| |by apply IH|by apply IH].
  do 2 step. intros now Hl _. do 2 step. do 2 step. step. eapply wpm_mono; [apply IH|].
  - apply kept_activity. apply kept_touch. by apply kept_ask.
  - intros rest s' tr' Hk'. by step.
Qed.

Lemma wpm_relayed_replies s0 port l : ∀ s tr,
  kept s0 s tr → wpm (relayed_replies client port l) s tr (λ _ s' tr', kept s0 s' tr').
Proof.
  induction l as [|[from data|] l IH]; intros s tr Hk; cbn [relayed_replies]; unfold touch_udp; [by step| |by step].
  do 2 step. intros now Hl _. do 2 step. destruct (udp_reply data) as [[from' payload]|].
  - do 2 step. step. eapply wpm_mono; [apply IH|].
    + apply kept_activity. apply kept_touch. by apply kept_ask.
    + intros rest s' tr' Hk'. by step.
  - apply IH. apply kept_touch. by apply kept_ask.
Qed.

Lemma wpm_emit_all s0 packets : ∀ s tr,
  kept s0 s tr → wpm (for_each packets emit) s tr (λ _ s' tr', kept s0 s' tr').
Proof.
  induction packets as [|p packets IH]; intros s tr Hk; cbn [for_each]; [by step|].
  step. eapply wpm_mono; [apply wpm_emit|]. intros [] s1 tr1 [Hst Ht]. apply IH. by eapply kept_still.
Qed.

Lemma wpm_udp_data_ready port s tr :
  good 0 idle_flows s tr → wpm (udp_data_ready client port) s tr (λ _ s' tr', kept s s' tr').
Proof.
  intros Hg. unfold udp_data_ready. do 2 step. step.
  eapply (wpm_mono _ _ _ (λ _ s' tr', kept s s' tr')).
  - destruct (udp s !! port) as [a|]; cbn [fmap option_fmap option_map]; [|step; by apply kept_refl].
    destruct (state a) as [control queue|control t|t|until]; try by (step; apply kept_refl).
    + do 2 step. intros l Hl _. apply wpm_relayed_replies, kept_ask; [by apply kept_refl|done|done].
    + do 2 step. intros l Hl _. apply wpm_direct_replies, kept_ask; [by apply kept_refl|done|done].
  - intros replies s1 tr1 Hk. by apply wpm_emit_all.
Qed.

End datagrams.
