(* ===== verification/ExitLookups.v ===== *)
(** * The forwarding stack's lookups keep its invariant

    A DNS query is sent over one of the streams to its resolver, answered, sent
    again when its stream is lost, and failed; each step keeps
    [ExitInvariant.good], and every query ends up answered, failed or still in
    flight, exactly once ([counted]). *)
From S2P Require Import Text Dns SocksWire Prelude Fragments ExitPacket ExitHandshake ExitStack ExitSafety ExitInvariant ExitDatagrams.

(** ** Sums over a table, key by key *)

Lemma foldr_perm {A} (w : A → Z) l k : l ≡ₚ k → foldr (λ x n, w x + n) 0 l = foldr (λ x n, w x + n) 0 k.
Proof. induction 1; cbn; lia. Qed.

Lemma foldr_ext_in {A} (w w' : A → Z) l :
  (∀ x, x ∈ l → w x = w' x) → foldr (λ x n, w x + n) 0 l = foldr (λ x n, w' x + n) 0 l.
Proof.
  induction l as [|x l IH]; intros Hw; [done|]. cbn. rewrite IH, Hw; [done|by apply list_elem_of_here|].
  intros y Hy. by apply Hw, list_elem_of_further.
Qed.

Lemma msum_keys {A} (w : A → Z) (m : gmap Z A) : ∀ ids,
  ids ≡ₚ elements (dom m) → foldr (λ k n, from_option w 0 (m !! k) + n) 0 ids = msum w m.
Proof.
  induction m as [|k a m Hk IH] using map_ind; intros ids Hp.
  - rewrite dom_empty_L, elements_empty in Hp. apply Permutation_nil_r in Hp as ->. by rewrite msum_empty.
  - rewrite dom_insert_L, elements_disj_union, elements_singleton in Hp by (apply not_elem_of_dom in Hk; set_solver).
    rewrite (foldr_perm _ _ _ Hp), msum_insert_new by done. cbn. rewrite lookup_insert_eq. cbn. f_equal.
    rewrite <-(IH (elements (dom m))) by done. apply foldr_ext_in. intros x Hx%elem_of_elements%elem_of_dom.
    rewrite lookup_insert_ne; [done|]. intros ->. rewrite Hk in Hx. by destruct Hx.
Qed.

Section lookups.
Context (client probe_target : list byte) (exit : Exit) (rounds : nat).

Notation good := (good exit).

Hypothesis login_ok : login_wf (login exit).

Notation good_ask := (ExitInvariant.good_ask exit login_ok).
Notation good_ask' := (ExitInvariant.good_ask' exit login_ok).
Notation good_still := (ExitInvariant.good_still exit login_ok).
Notation good_moved := (ExitInvariant.good_moved exit login_ok).
Notation wpm_dial := (ExitInvariant.wpm_dial exit login_ok).

(** The invariant holds, and [a] connections and [b] lookups were asked for. *)
Definition counted (a b : Z) (s0 : Stack) (s : Stack) (tr : trace) : Prop :=
  good 0 idle_flows s tr ∧ connections s = connections s0 + a ∧ lookups s = lookups s0 + b.

Lemma counted_refl s tr : good 0 idle_flows s tr → counted 0 0 s s tr.
Proof. intros Hg. split; [done|]. lia. Qed.

Lemma counted_still a b s0 s tr s' tr' :
  counted a b s0 s tr → still s tr s' tr' → same_totals s s' → counted a b s0 s' tr'.
Proof. intros (Hg & Hc & Hk) Hst [Ec Ek]. split; [by eapply good_still|]. lia. Qed.

Lemma counted_ask a b s0 s tr c x :
  counted a b s0 s tr → zlen tr < TRACE → about ∅ ∅ c = true → counted a b s0 s (tr ++ [mk_event c x]).
Proof. intros (Hg & Ht) Hl Hc. split; [by apply good_ask'|done]. Qed.

Lemma counted_trans a b c d s0 s tr s' tr' :
  counted a b s0 s tr → counted c d s s' tr' → counted (a + c) (b + d) s0 s' tr'.
Proof. intros (_ & Hc & Hk) (Hg & Hc' & Hk'). split; [done|]. lia. Qed.

Lemma counted_eq a b a' b' s0 s tr : counted a b s0 s tr → a = a' → b = b' → counted a' b' s0 s tr.
Proof. by intros H -> ->. Qed.

(** ** Streams *)

Lemma good_with_stream n V s tr id d :
  good n V s tr → id <= next_dns_stream s → owners s !! token (dns_stream d) = Some (OwnDns id) →
  (∀ qid q, in_flight d !! qid = Some q → query_ok qid q) →
  match dns s !! id with
  | Some d0 => resolver d = resolver d0
  | None => streams_to (resolver d) (dns s) < DNS_STREAMS_PER_RESOLVER
  end →
  good n V (with_dns s (<[id := d]> (dns s))) tr.
Proof.
  intros [] Hid Hown Hq Hroom. split; try done; cbn [dns with_dns owners next_dns_stream].
  - intros o t Ho. destruct o; cbn [holds tcp udp dns probes with_dns] in Ho; try by apply g_own.
    destruct Ho as (d' & [[<- <-]|[Hne Hd]]%lookup_insert_Some & <-); [done|].
    apply (g_own (OwnDns stream)). by exists d'.
  - intros i d' [[<- <-]|[Hne Hd]]%lookup_insert_Some; [done|by eapply g_queries].
  - intros i [d' [[<- _]|[_ Hd]]%lookup_insert_Some]; [done|]. apply g_dns_ids. by eexists.
  - intros r. specialize (g_dns_room r). unfold streams_to in *. destruct (dns s !! id) as [d0|] eqn:E.
    + rewrite (msum_replace _ _ _ d0) by done. rewrite Hroom. destruct (decide _); lia.
    + rewrite msum_insert_new by done. destruct (decide (resolver d = r)) as [<-|]; lia.
Qed.

(** What one stream waits for. *)
Definition stream_wf (s : Stack) (id : Z) (d : DnsUpstream) : Prop :=
  id <= next_dns_stream s ∧ owners s !! token (dns_stream d) = Some (OwnDns id) ∧
  ∀ qid q, in_flight d !! qid = Some q → query_ok qid q.

Lemma stream_at n V s tr id d : good n V s tr → dns s !! id = Some d → stream_wf s id d.
Proof.
  intros Hg Hd. split; [|split].
  - apply (g_dns_ids _ _ _ _ _ Hg). by eexists.
  - apply (g_own _ _ _ _ _ Hg (OwnDns id)). by exists d.
  - by eapply g_queries.
Qed.

Lemma aside_stream s id d : stream_wf s id d → aside s {[token (dns_stream d)]}.
Proof. intros (_ & Ho & _) t ->%elem_of_singleton. by exists (OwnDns id). Qed.

Lemma lookups_replaced s id d d' :
  dns s !! id = Some d →
  lookups (with_dns s (<[id := d']> (dns s))) = lookups s - zsize (in_flight d) + zsize (in_flight d').
Proof.
  intros Hd. unfold lookups, waiting. cbn [counters dns with_dns]. rewrite (msum_replace _ _ _ d) by done. lia.
Qed.

(** A stream is replaced by what became of it. *)
Lemma counted_set_stream a b s0 s tr id d d' :
  counted a b s0 s tr → dns s !! id = Some d → token (dns_stream d') = token (dns_stream d) →
  resolver d' = resolver d → (∀ qid q, in_flight d' !! qid = Some q → query_ok qid q) →
  counted a (b + zsize (in_flight d') - zsize (in_flight d)) s0 (with_dns s (<[id := d']> (dns s))) tr.
Proof.
  intros (Hg & Hc & Hk) Hd Et Er Hq. destruct (stream_at _ _ _ _ _ _ Hg Hd) as (Hid & Ho & _). split; [|split].
  - apply good_with_stream; [done|done|by rewrite Et|done|by rewrite Hd].
  - done.
  - rewrite (lookups_replaced _ _ d) by done. lia.
Qed.

Lemma good_next_stream n V s tr : good n V s tr → good n V (with_next_dns_stream s (next_dns_stream s + 1)) tr.
Proof.
  intros []. split; try done. intros id Hid. cbn in *. specialize (g_dns_ids id Hid). lia.
Qed.

(** The scan finds an idle stream, or counts those there are. *)
Lemma scan_streams_spec streams wanted ids : ∀ open_ least,
  match scan_streams streams wanted ids open_ least with
  | inl found => ∃ id d, found = Some id ∧ streams !! id = Some d ∧ resolver d = wanted
  | inr (o, b) =>
      o = open_ + foldr (λ id n, from_option (λ d, if decide (resolver d = wanted) then 1 else 0) 0 (streams !! id) + n) 0 ids ∧
      ∀ id, b = Some id → fst <$> least = Some id ∨ ∃ d, streams !! id = Some d ∧ resolver d = wanted
  end.
Proof.
  induction ids as [|id ids IH]; intros open_ least; cbn [scan_streams foldr]; [split; [lia|]; by left|].
  destruct (streams !! id) as [d|] eqn:Ed; cbn [from_option]; [|apply IH].
  destruct (decide (resolver d = wanted)) as [Hr|Hr].
  2:{ rewrite bool_decide_false by done. cbn [negb]. apply IH. }
  rewrite bool_decide_true by done. cbn [negb]. destruct (bool_decide _); [by exists id, d|].
  specialize (IH (open_ + 1) (if match least with None => true | Some (_, w) => zsize (in_flight d) <? w end
    then Some (id, zsize (in_flight d)) else least)).
  destruct (scan_streams _ _ _ _ _) as [|[o b]]; [done|]. destruct IH as [-> Hb]. split; [lia|].
  intros i Hi. destruct (Hb i Hi) as [Hl|?]; [|by right]. destruct (match least with Some _ => _ | None => _ end); [|by left].
  cbn in Hl. injection Hl as <-. right. by exists d.
Qed.

Lemma wpm_dial_dns_stream wanted s tr :
  good 0 idle_flows s tr → streams_to wanted (dns s) < DNS_STREAMS_PER_RESOLVER →
  wpm (dial_dns_stream exit wanted) s tr (λ r s' tr', counted 0 0 s s' tr' ∧
    ∀ id, r = Some id → ∃ d, dns s' !! id = Some d ∧ resolver d = wanted).
Proof.
  intros Hg Hroom. unfold dial_dns_stream. do 2 step. apply good_next_stream in Hg as Hg1. set (s1 := with_next_dns_stream s _) in *.
  do 2 step. set (id := next_dns_stream s1) in *.
  assert (dns s1 !! id = None) as Hnew.
  { apply eq_None_not_Some. intros Hid. pose proof (g_dns_ids _ _ _ _ _ Hg id Hid). unfold id in *. cbn in *. lia. }
  step. eapply wpm_mono; [by apply (wpm_take_token exit 0)|]. intros t s2 ? (-> & [-> ->] & Hg2 & [Hc2 Hk2]).
  set (t := next_token s1) in *. set (s2 := with_owners _ _) in *.
  assert (owners s2 !! t = Some (OwnDns id)) as Hown by apply lookup_insert_eq.
  step. eapply wpm_mono; [apply wpm_dial|]. intros u s3 ? (-> & c & a & Hl & Hc & -> & Hu). set (tr2 := tr ++ _).
  assert (good 0 idle_flows s2 tr2) as Hg3 by by apply (good_ask 1).
  destruct u as [u|].
  - destruct (Hu u eq_refl) as [Et _]. do 2 step. intros now Hl2 _. do 2 step. step. split; [split; [|split]|].
    + apply good_with_stream; [by apply good_ask'|done|cbn; by rewrite Et|done|].
      change (dns s2 !! id) with (dns s1 !! id). by rewrite Hnew.
    + change (connections s2 = connections s + 0). rewrite Hc2. change (connections s1) with (connections s). lia.
    + unfold lookups, waiting. cbn [counters dns with_dns]. rewrite msum_insert_new by done. cbn. assert (zsize (∅ : gmap Z DnsQuery) = 0) as -> by done. lia.
    + intros ? [= <-]. cbn [dns with_dns]. rewrite lookup_insert_eq. by eexists.
  - unfold disown. do 2 step. step. split; [|done]. split; [|split].
    + eapply good_disown; [done|exact Hown|]. intros t' (d & Hd & _). change (dns s2) with (dns s1) in Hd. congruence.
    + change (connections s2 = connections s + 0). rewrite Hc2. change (connections s1) with (connections s). lia.
    + change (lookups s2 = lookups s + 0). rewrite Hk2. change (lookups s1) with (lookups s). lia.
Qed.

Lemma wpm_dns_stream_for wanted s tr :
  good 0 idle_flows s tr →
  wpm (dns_stream_for exit wanted) s tr (λ r s' tr', counted 0 0 s s' tr' ∧
    ∀ id, r = Some id → ∃ d, dns s' !! id = Some d ∧ resolver d = wanted).
Proof.
  intros Hg. unfold dns_stream_for. do 2 step. do 2 step. intros ids Hl Hperm. cbn in Hperm.
  assert (counted 0 0 s s (tr ++ [mk_event (Order (elements (dom (dns s)))) ids])) as Hk.
  { apply counted_ask; [by apply counted_refl|done|done]. }
  pose proof (scan_streams_spec (dns s) wanted ids 0 None) as Hscan.
  destruct (scan_streams _ _ _ _ _) as [found|[o b]].
  - destruct Hscan as (id & d & -> & Hd & Hr). step. split; [done|]. intros ? [= <-]. by exists d.
  - destruct Hscan as [Ho Hb]. rewrite msum_keys in Ho by done.
    destruct (Z.leb_spec DNS_STREAMS_PER_RESOLVER o) as [Hfull|Hroom].
    + step. split; [done|]. intros id Hid. by destruct (Hb id Hid) as [?|?].
    + apply wpm_dial_dns_stream; [by destruct Hk|]. unfold streams_to. lia.
Qed.
(** ** Sending a lookup *)

Lemma free_id_spec fuel taken : ∀ id qid,
  free_id fuel taken id = Some qid → 0 <= id < 65536 → 0 <= qid < 65536 ∧ taken !! qid = None.
Proof.
  induction fuel as [|fuel IH]; intros id qid; cbn [free_id]; [done|].
  destruct (bool_decide _) eqn:E.
  - intros Hf _. apply (IH _ _ Hf). by apply Z.mod_pos_bound.
  - intros [= <-] Hid. split; [done|]. by apply bool_decide_eq_false, eq_None_not_Some in E.
Qed.

Lemma wpm_fail_lookup wanted q a b s0 s tr :
  counted a b s0 s tr →
  wpm (fail_lookup client wanted q) s tr (λ _ s' tr', counted a (b + 1) s0 s' tr').
Proof.
  intros (Hg & Hc & Hk). unfold fail_lookup. step. apply wpm_count.
  assert (counted a (b + 1) s0 (with_counters s (one_more dns_failed with_dns_failed (counters s))) tr) as H1.
  { split; [by apply good_counters|]. unfold connections, lookups, one_more in *. cbn. lia. }
  destruct (servfail (asked q)); [|by step]. eapply wpm_mono; [apply wpm_emit|]. intros [] s' tr' [Hst Ht].
  by eapply counted_still.
Qed.

(** A query within a message's bounds is counted; the others are not looked at. *)
Definition query_counts (query : list byte) : Z := if (zlen query <? 12) || (u16_max <? zlen query) then 0 else 1.

Lemma wpm_send_lookup port wanted query again a b s0 s tr :
  counted a b s0 s tr →
  wpm (send_lookup client exit port wanted query again) s tr (λ _ s' tr', counted a (b + query_counts query) s0 s' tr').
Proof.
  intros Hk0. unfold send_lookup, query_counts. destruct (_ || _) eqn:Elen.
  { step. eapply counted_eq; [exact Hk0|done|lia]. }
  assert (12 <= zlen query <= u16_max) as Hlen.
  { apply orb_false_iff in Elen as [?%Z.ltb_ge ?%Z.ltb_ge]. lia. }
  do 2 step. intros now Hl _. set (q := mk_query _ _ _ _ _). apply (counted_ask _ _ _ _ _ Now now) in Hk0; [|done|done].
  step. eapply wpm_mono; [apply wpm_dns_stream_for; by destruct Hk0|]. intros r s1 tr1 [Hk1 Hr].
  assert (counted a b s0 s1 tr1) as Hk.
  { eapply counted_eq; [by eapply counted_trans|lia|lia]. }
  destruct r as [id|]; [|by apply wpm_fail_lookup].
  destruct (Hr id eq_refl) as (d & Hd & _). do 2 step. rewrite Hd. do 2 step. intros first Hl2 Hfirst. cbn in Hfirst.
  apply (counted_ask _ _ _ _ _ Random16 first) in Hk; [|done|done]. set (tr2 := tr1 ++ _) in *.
  destruct (free_id _ _ _) as [qid|] eqn:Eid; [|by step].
  destruct (free_id_spec _ _ _ _ Eid Hfirst) as [Hqid Hfree].
  pose proof Hk as (Hg & _). destruct (stream_at _ _ _ _ _ _ Hg Hd) as (Hid & Hown & Hq).
  assert (∀ i x, <[qid := q]> (in_flight d) !! i = Some x → query_ok i x) as Hq'.
  { intros i x [[<- <-]|[_ Hx]]%lookup_insert_Some; [|by apply Hq]. split; [exact Hqid|]. by split. }
  assert (∀ d' tr', counted a b s0 s1 tr' → token (dns_stream d') = token (dns_stream d) → resolver d' = resolver d →
    in_flight d' = <[qid := q]> (in_flight d) →
    counted a (b + 1) s0 (with_dns s1 (<[id := d']> (dns s1))) tr') as Hset.
  { intros d' tr' Hk' Et Er Ei. eapply counted_eq; [apply (counted_set_stream a b s0 s1 tr' id d); [done|done|done|done|]|done|].
    - by rewrite Ei.
    - rewrite Ei, zsize_insert_new by done. lia. }
  unfold set_stream. cbn [ready with_in_flight]. destruct (ready d).
  - do 2 step. eapply prog_wp_mono; [apply wp_flush_quiet|]. intros u tr3 [Et Q]. cbn [token with_outgoing dns_stream with_in_flight] in *.
    step. apply Hset; [|done|done|done]. destruct Hk as (_ & Hc). split; [|done].
    eapply good_moved; [exact Hg|exact Q|]. by eapply aside_stream, stream_at.
  - step. by apply Hset.
Qed.

(** ** A stream that is gone *)

Lemma wpm_close_stream id d a b s0 s tr :
  counted a b s0 s tr → dns s !! id = Some d →
  wpm (close_stream id d) s tr (λ _ s' tr', counted a (b - zsize (in_flight d)) s0 s' tr').
Proof.
  intros (Hg & Hc & Hk) Hd. unfold close_stream. do 2 step.
  pose proof (good_without_dns _ _ _ _ _ id Hg) as Hg1. set (s1 := with_dns s _) in *.
  destruct (stream_at _ _ _ _ _ _ Hg Hd) as (_ & Hown & _).
  step. unfold deregister. step. intros [] Hl _. unfold disown. step. split; [|split].
  - eapply good_disown; [by apply good_ask'|exact Hown|]. intros t (d' & Hd' & _). change (dns s1) with (delete id (dns s)) in Hd'.
    by apply lookup_delete_Some in Hd' as [? _].
  - done.
  - unfold lookups, waiting in *. cbn. rewrite (msum_take _ _ id d) in Hk by done. lia.
Qed.

Lemma wpm_settle_lookups d again a b s0 s tr :
  counted a b s0 s tr → (∀ qid q, in_flight d !! qid = Some q → query_ok qid q) →
  wpm (settle_lookups client exit d again) s tr (λ _ s' tr', counted a (b + zsize (in_flight d)) s0 s' tr').
Proof.
  intros Hk Hq. unfold settle_lookups. do 2 step. intros ids Hl Hperm. cbn in Hperm.
  apply (counted_ask _ _ _ _ _ (Order (elements (dom (in_flight d)))) ids) in Hk; [|done|done]. set (tr1 := tr ++ _) in *.
  assert (∀ id, id ∈ ids → is_Some (in_flight d !! id)) as Hin.
  { intros id. by rewrite Hperm, elem_of_elements, elem_of_dom. }
  assert (zsize (in_flight d) = zlen ids) as ->.
  { unfold zsize, zlen. rewrite Hperm. change (length (elements (dom (in_flight d)))) with (size (dom (in_flight d))). by rewrite size_dom. }
  clear Hperm Hl. clearbody tr1. revert s tr1 b Hk. induction ids as [|id ids IH]; intros s tr1 b Hk; cbn [for_each].
  { step. eapply counted_eq; [exact Hk|done|]. change (zlen []) with 0. lia. }
  destruct (Hin id) as [q Eq]; [by apply list_elem_of_here|]. step. eapply (wpm_mono _ _ _ (λ _ s' tr', counted a (b + 1) s0 s' tr')).
  - rewrite Eq. destruct (Hq _ _ Eq) as (_ & Hlen & _). destruct (_ || _); [by apply wpm_fail_lookup|].
    eapply wpm_mono; [by apply wpm_send_lookup|]. intros [] s' tr' Hk'. eapply counted_eq; [exact Hk'|done|].
    unfold query_counts. destruct (Z.ltb_spec (zlen (asked q)) 12), (Z.ltb_spec u16_max (zlen (asked q))); cbn [orb]; lia.
  - intros [] s1 tr2 Hk1. eapply wpm_mono; [apply IH; [|exact Hk1]|].
    + intros i Hi. by apply Hin, list_elem_of_further.
    + intros [] s2 tr3 Hk2. eapply counted_eq; [exact Hk2|done|]. rewrite zlen_cons. lia.
Qed.

Lemma wpm_expire_stream id s tr :
  good 0 idle_flows s tr → wpm (expire_stream client exit id) s tr (λ _ s' tr', counted 0 0 s s' tr').
Proof.
  intros Hg. unfold expire_stream. do 2 step. destruct (dns s !! id) as [d|] eqn:Hd; [|step; by apply counted_refl].
  destruct (stream_at _ _ _ _ _ _ Hg Hd) as (_ & _ & Hq).
  step. eapply wpm_mono; [apply (wpm_close_stream id d 0 0 s); [by apply counted_refl|done]|].
  intros [] s1 tr1 Hk1. eapply wpm_mono; [by apply wpm_settle_lookups|]. intros [] s2 tr2 Hk2.
  eapply counted_eq; [exact Hk2|done|lia].
Qed.

(** ** Answers *)

Lemma take_answers_spec fuel wanted : ∀ received waiting_,
  let '(_, still_, answers) := take_answers client fuel wanted received waiting_ in
  zsize still_ + zlen answers = zsize waiting_ ∧ ∀ qid q, still_ !! qid = Some q → waiting_ !! qid = Some q.
Proof.
  induction fuel as [|fuel IH]; intros received waiting_; cbn [take_answers]; [split; [change (zlen []) with 0; lia|done]|].
  assert (zsize waiting_ + zlen (@nil (list byte)) = zsize waiting_ ∧ ∀ qid q, waiting_ !! qid = Some q → waiting_ !! qid = Some q) as H0.
  { split; [change (zlen []) with 0; lia|done]. }
  destruct (_ <? 2); [done|]. destruct (_ <? 2 + _); [done|].
  set (message := sub received 2 _). set (rest := drop _ received). clearbody message rest.
  destruct (_ <? 12); [apply IH|]. destruct (waiting_ !! nz16 message 0) as [q|] eqn:Eq; [|apply IH].
  specialize (IH rest (delete (nz16 message 0) waiting_)).
  destruct (take_answers client fuel wanted rest _) as [[r w] answers]. destruct IH as [Hn Hw]. split.
  - rewrite zlen_cons. unfold zsize in *. rewrite map_size_delete_Some in Hn by by eexists.
    assert (size waiting_ ≠ 0%nat) by (intros E%map_size_empty_iff; rewrite E in Eq; done). lia.
  - intros qid x Hx. specialize (Hw _ _ Hx). by apply lookup_delete_Some in Hw as [_ ?].
Qed.

Lemma wpm_pass_answers answers a b s0 : ∀ s tr,
  counted a b s0 s tr →
  wpm (for_each answers (λ x, _ ← count (one_more dns_answered with_dns_answered); emit x)) s tr
    (λ _ s' tr', counted a (b + zlen answers) s0 s' tr' ∧ dns s' = dns s).
Proof.
  revert b. induction answers as [|x answers IH]; intros b s tr Hk; cbn [for_each].
  { step. split; [|done]. eapply counted_eq; [exact Hk|done|]. change (zlen []) with 0. lia. }
  do 2 step. apply wpm_count. set (s1 := with_counters s _).
  assert (counted a (b + 1) s0 s1 tr) as Hk1.
  { destruct Hk as (Hg & Hc & Hk). split; [by apply good_counters|]. unfold connections, lookups, s1, one_more in *. cbn. lia. }
  eapply wpm_mono; [apply wpm_emit|]. intros [] s2 tr2 [Hst Ht].
  eapply wpm_mono; [apply IH; by eapply counted_still|]. intros [] s3 tr3 [Hk3 Hd]. split.
  - eapply counted_eq; [exact Hk3|done|]. rewrite zlen_cons. lia.
  - by rewrite Hd, (st_dns _ _ _ _ Hst).
Qed.

(** What reading a stream leaves of it. *)
Definition same_lookups (d d' : DnsUpstream) : Prop :=
  token (dns_stream d') = token (dns_stream d) ∧ resolver d' = resolver d ∧ in_flight d' = in_flight d.

Lemma wpm_dns_ready id s tr :
  good 0 idle_flows s tr → wpm (dns_ready client exit rounds id) s tr (λ _ s' tr', counted 0 0 s s' tr').
Proof.
  intros Hg. unfold dns_ready. do 2 step. destruct (dns s !! id) as [d|] eqn:Hd; [|step; by apply counted_refl].
  pose proof (stream_at _ _ _ _ _ _ Hg Hd) as Hwf. pose proof (aside_stream _ _ _ Hwf) as Haside. destruct Hwf as (_ & _ & Hq).
  assert (∀ T tr1 tr2, T = {[token (dns_stream d)]} → good 0 idle_flows s tr1 → quiet T ∅ tr1 tr2 → good 0 idle_flows s tr2) as Hmove.
  { intros T tr1 tr2 -> Hg1 Q. by eapply good_moved. }
  do 2 step. eapply prog_wp_mono; [apply wp_flush_quiet|]. intros u1 tr1 [E1 Q1]. apply (Hmove _ _ _ eq_refl Hg) in Q1.
  do 2 step. eapply prog_wp_mono; [apply wp_drain_quiet|]. intros [u2 [data fin]] tr2 [E2 Q2]. cbn [fst] in E2.
  rewrite E1 in Q2. apply (Hmove _ _ _ eq_refl Q1) in Q2. step.
  eapply (wpm_mono _ _ _ (λ r s' tr', s' = s ∧ good 0 idle_flows s tr' ∧ same_lookups d r.1)).
  { destruct (handshake u2); [|step; split_and!; [done|done|split_and!; cbn; [congruence|done|done]]].
    do 2 step. eapply prog_wp_mono; [apply wp_advance_quiet|]. intros [u3 outcome] tr3 [E3 Q3]. cbn [fst] in E3.
    rewrite E2, E1 in Q3. apply (Hmove _ _ _ eq_refl Q2) in Q3.
    destruct outcome as [[[bound leftover]|]|].
    - do 2 step. eapply prog_wp_mono; [apply wp_flush_quiet|]. intros u4 tr4 [E4 Q4]. cbn [token with_outgoing] in *.
      rewrite E3, E2, E1 in Q4. apply (Hmove _ _ _ eq_refl Q3) in Q4.
      step. split_and!; [done|done|split_and!; cbn; [congruence|done|done]].
    - step. split_and!; [done|done|split_and!; cbn; [congruence|done|done]].
    - step. split_and!; [done|done|split_and!; cbn; [congruence|done|done]]. }
  intros [d1 failed] ? tr3 (-> & Hg3 & (Et & Er & Ei)). cbn [fst] in Et, Er, Ei. rewrite Ei.
  pose proof (take_answers_spec (S (length (answered_bytes d1))) (resolver d1) (answered_bytes d1) (in_flight d)) as Hta.
  destruct (take_answers _ _ _ _ _) as [[received still_] answers]. destruct Hta as [Hn Hsub].
  set (d2 := with_in_flight _ still_). step.
  eapply (wpm_mono _ _ _ (λ d3 s' tr', s' = s ∧ good 0 idle_flows s tr' ∧ same_lookups d2 d3)).
  { destruct (_ && _); [|by step]. do 2 step. intros now Hl _. step. split_and!; [done|by apply good_ask'|done]. }
  intros d3 ? tr4 (-> & Hg4 & (Et3 & Er3 & Ei3)). unfold set_stream. do 2 step.
  assert (counted 0 (0 + zsize (in_flight d3) - zsize (in_flight d)) s (with_dns s (<[id := d3]> (dns s))) tr4) as Hk.
  { apply (counted_set_stream 0 0 s s tr4 id d); [by apply counted_refl|done| | |].
    - rewrite Et3. exact Et.
    - rewrite Er3. exact Er.
    - rewrite Ei3. intros qid q Hx. by apply Hq, Hsub. }
  set (s1 := with_dns s _) in *. assert (dns s1 !! id = Some d3) as Hd3 by apply lookup_insert_eq.
  step. eapply wpm_mono; [by apply wpm_pass_answers|]. intros [] s2 tr5 [Hk2 Ed].
  assert (zsize (in_flight d3) + zlen answers = zsize (in_flight d)) as Hsum by by rewrite Ei3.
  assert (counted 0 0 s s2 tr5) as Hk3 by (eapply counted_eq; [exact Hk2|done|lia]).
  destruct (_ || _ || _); [|by step].
  step. eapply wpm_mono; [apply (wpm_close_stream id d3 0 0 s); [done|by rewrite Ed]|].
  intros [] s3 tr6 Hk4. eapply wpm_mono; [apply wpm_settle_lookups; [exact Hk4|]|].
  - rewrite Ei3. intros qid q Hx. by apply Hq, Hsub.
  - intros [] s4 tr7 Hk5. eapply counted_eq; [exact Hk5|done|lia].
Qed.

End lookups.
