(* ===== verification/ExitLoop.v ===== *)
(** * The forwarding stack's loop keeps its invariant

    Probes, captured packets, readiness and the loop that drives them, against any
    environment ([ExitSafety.legal]): the stack never panics, every connection
    carries its bytes in order, and what it was asked for stays counted. *)
From S2P Require Import Text Dns SocksWire Prelude Fragments ExitPacket ExitHandshake ExitStack ExitSafety ExitInvariant ExitDatagrams ExitLookups.

Section loop.
Context (client probe_target : list byte) (exit : Exit) (rounds : nat).

Notation good := (good exit).
Notation counted := (counted exit).
Notation flow_ok := (flow_ok exit).

Hypothesis login_ok : login_wf (login exit).

Notation good_ask := (ExitInvariant.good_ask exit login_ok).
Notation good_ask' := (ExitInvariant.good_ask' exit login_ok).
Notation good_still := (ExitInvariant.good_still exit login_ok).
Notation good_moved := (ExitInvariant.good_moved exit login_ok).
Notation wpm_dial := (ExitInvariant.wpm_dial exit login_ok).
Notation counted_ask := (ExitLookups.counted_ask exit login_ok).
Notation counted_still := (ExitLookups.counted_still exit login_ok).

Lemma kept_counted s0 s tr : kept exit s0 s tr → counted 0 0 s0 s tr.
Proof. intros [Hg [Hc Hk]]. split; [done|]. lia. Qed.

Lemma counted_then a b s0 s tr s' tr' : counted a b s0 s tr → counted 0 0 s s' tr' → counted a b s0 s' tr'.
Proof. intros Hk Hk'. eapply counted_eq; [exact (counted_trans _ _ _ _ _ _ _ _ _ _ Hk Hk')|lia|lia]. Qed.

(** Steps that ask for nothing, one after the other. *)
Lemma wpm_for_each_counted {A} (f : A → M ()) (l : list A) s0 : (∀ x s tr, good 0 idle_flows s tr → wpm (f x) s tr (λ _ s' tr', counted 0 0 s s' tr')) →
  ∀ s tr, counted 0 0 s0 s tr → wpm (for_each l f) s tr (λ _ s' tr', counted 0 0 s0 s' tr').
Proof.
  intros Hf. induction l as [|x l IH]; intros s tr Hk; cbn [for_each]; [by step|].
  step. eapply wpm_mono; [apply Hf; by destruct Hk|]. intros [] s1 tr1 Hk1. apply IH.
  by eapply counted_then.
Qed.

Lemma wpm_emit_counted packet a b s0 s tr :
  counted a b s0 s tr → wpm (emit packet) s tr (λ _ s' tr', counted a b s0 s' tr').
Proof. intros Hk. eapply wpm_mono; [apply wpm_emit|]. intros [] s' tr' [Hst Ht]. by eapply counted_still. Qed.

(** ** Probes *)

Lemma good_with_probe n V s tr id p :
  good n V s tr → id <= next_probe s → owners s !! probe_token p = Some (OwnProbe id) →
  is_Some (probes s !! id) ∨ zsize (probes s) < MAX_PROBES →
  good n V (with_probes s (<[id := p]> (probes s))) tr.
Proof.
  intros [] Hid Hown Hroom. split; try done; cbn [probes with_probes owners next_probe].
  - intros o t Ho. destruct o; cbn [holds tcp udp dns probes with_probes] in Ho; try by apply g_own.
    destruct Ho as (p' & [[<- <-]|[Hne Hp]]%lookup_insert_Some & <-); [done|].
    apply (g_own (OwnProbe id0)). by exists p'.
  - intros i [p' [[<- _]|[_ Hp]]%lookup_insert_Some]; [done|]. apply g_probe_ids. by eexists.
  - destruct (probes s !! id) eqn:E.
    + by rewrite zsize_replace by by eexists.
    + rewrite zsize_insert_new by done. destruct Hroom as [[? ?]|?]; [done|lia].
Qed.

Lemma good_next_probe n V s tr : good n V s tr → good n V (with_next_probe s (next_probe s + 1)) tr.
Proof. intros []. split; try done. intros id Hid. cbn in *. specialize (g_probe_ids id Hid). lia. Qed.

Lemma wpm_remove_probe id s tr :
  good 0 idle_flows s tr → wpm (remove_probe id) s tr (λ _ s' tr', counted 0 0 s s' tr').
Proof.
  intros Hg. unfold remove_probe. do 2 step. destruct (probes s !! id) as [p|] eqn:Hp; [|step; by apply counted_refl].
  do 2 step. pose proof (good_without_probe _ _ _ _ _ id Hg) as Hg1. set (s1 := with_probes s _) in *.
  assert (owners s1 !! probe_token p = Some (OwnProbe id)) as Hown.
  { apply (g_own _ _ _ _ _ Hg (OwnProbe id)). by exists p. }
  assert (∀ t', ¬ holds s1 (OwnProbe id) t') as Hnone.
  { intros t' (p' & Hp' & _). change (probes s1) with (delete id (probes s)) in Hp'. by apply lookup_delete_Some in Hp' as [? _]. }
  assert (∀ tr', good 0 idle_flows s1 tr' → counted 0 0 s (with_owners s1 (delete (probe_token p) (owners s1))) tr') as Hdone.
  { intros tr' Hg'. split; [by eapply good_disown|]. unfold connections, lookups, s1. cbn. lia. }
  unfold probe_token in Hdone. unfold deregister, disown. destruct (transport p).
  - do 2 step. intros [] Hl _. step. by apply Hdone, good_ask'.
  - do 2 step. intros [] Hl _. step. by apply Hdone, good_ask'.
Qed.

Lemma wpm_fresh_probe n s tr :
  good n idle_flows s tr →
  wpm fresh_probe s tr (λ _ s' tr', s' = s ∧ good (n - 1) idle_flows s tr').
Proof.
  intros Hg. unfold fresh_probe. do 2 step. intros id Hl _. do 2 step. intros nonce Hl2 _.
  destruct (new_probe_asks id nonce) as (m & -> & _). step. split; [done|].
  by apply good_ask'; [apply good_ask|..].
Qed.

Lemma wpm_probe request s tr :
  good 0 idle_flows s tr → wpm (probe probe_target exit request) s tr (λ _ s' tr', counted 0 0 s s' tr').
Proof.
  intros Hg. unfold probe. do 2 step. destruct (Z.leb_spec MAX_PROBES (zsize (probes s))) as [|Hroom]; [step; by apply counted_refl|].
  do 2 step. pose proof (good_next_probe _ _ _ _ Hg) as Hg1. set (s1 := with_next_probe s _) in *. do 2 step.
  assert (probes s1 !! next_probe s1 = None) as Hnew.
  { apply eq_None_not_Some. intros Hid. pose proof (g_probe_ids _ _ _ _ _ Hg _ Hid). cbn in *. lia. }
  set (id := next_probe s1) in *. step.
  eapply wpm_mono; [by apply (wpm_take_token exit 0)|]. intros t s2 ? (-> & [-> ->] & Hg2 & [Hc2 Hk2]).
  set (t := next_token s1) in *. set (s2 := with_owners _ _) in *.
  assert (owners s2 !! t = Some (OwnProbe id)) as Hown by apply lookup_insert_eq.
  step. eapply wpm_mono; [by apply wpm_fresh_probe|]. intros question s3 tr3 [-> Hg3]. cbn [Z.sub] in Hg3.
  step. eapply (wpm_mono _ _ _ (λ tp s' tr', s' = s2 ∧ good 0 idle_flows s2 tr' ∧
    ∀ x, tp = Some x → ∀ r q w, probe_token (mk_running_probe x r q w) = t)).
  { destruct (is_proxy exit).
    - step. eapply wpm_mono; [apply wpm_dial|]. intros u s4 tr4 (-> & c & a & Hl & Hc & -> & Hu). step.
      split; [done|]. split; [by apply good_ask'|]. intros x. destruct u as [u|]; [|done]. intros [= <-] r q w.
      by destruct (Hu u eq_refl).
    - do 2 step. intros ok Hl _. step. split; [done|]. split; [by apply good_ask'|]. intros x. destruct ok; [|done]. by intros [= <-]. }
  intros tp s4 tr4 (-> & Hg4 & Htp).
  assert (connections s2 = connections s ∧ lookups s2 = lookups s) as [Hc Hk] by done.
  destruct tp as [tp|].
  - do 2 step. intros now Hl _. step. split.
    + apply good_with_probe; [by apply good_ask'|done| |right; exact Hroom]. by rewrite (Htp tp eq_refl).
    + change (connections s2 = connections s + 0 ∧ lookups s2 = lookups s + 0). lia.
  - unfold disown. step. split.
    + eapply good_disown; [done|exact Hown|]. intros t' (p & Hp & _). change (probes s2) with (probes s1) in Hp. congruence.
    + change (connections s2 = connections s + 0 ∧ lookups s2 = lookups s + 0). lia.
Qed.

Lemma wp_probe_stream u question tr :
  wp (probe_stream u question) tr (λ r tr', token r.1.1 = token u ∧ quiet {[token u]} ∅ tr tr').
Proof.
  unfold probe_stream. step. eapply prog_wp_mono; [apply wp_flush_quiet|]. intros u1 tr1 [E1 Q1].
  step. eapply prog_wp_mono; [apply wp_read_quiet; lia|]. intros [u2 [data fin]] tr2 [E2 Q2]. cbn [fst] in E2. rewrite E1 in *. step.
  eapply (prog_wp_mono _ _ (λ r tr', token r.1.1 = token u ∧ quiet {[token u]} ∅ tr2 tr')).
  - destruct (handshake u2).
    + step. eapply prog_wp_mono; [apply wp_advance_quiet|]. intros [u3 outcome] tr3 [E3 Q3]. cbn [fst] in E3. rewrite E2 in *.
      destruct outcome as [[[bound leftover]|]|]; [|by step|by step].
      step. eapply prog_wp_mono; [apply wp_flush_quiet|]. intros u4 tr4 [E4 Q4]. cbn [token with_outgoing] in *. rewrite E3 in *.
      destruct (probe_receive question leftover). step. split; [done|by etrans].
    + destruct (probe_receive question data). by step.
  - intros [[u3 q] v] tr3 [E3 Q3]. step. cbn in *. split; [done|]. etrans; [exact Q1|]. by etrans.
Qed.

Lemma wpm_probe_ready id s tr :
  good 0 idle_flows s tr → wpm (probe_ready id) s tr (λ _ s' tr', counted 0 0 s s' tr').
Proof.
  intros Hg. unfold probe_ready. do 2 step. destruct (probes s !! id) as [p|] eqn:Hp; [|step; by apply counted_refl].
  assert (owners s !! probe_token p = Some (OwnProbe id)) as Hown.
  { apply (g_own _ _ _ _ _ Hg (OwnProbe id)). by exists p. }
  step. eapply (wpm_mono _ _ _ (λ r s' tr', s' = s ∧ good 0 idle_flows s tr' ∧ probe_token r.1 = probe_token p)).
  { destruct (transport p) as [u|t] eqn:Et.
    - do 2 step. eapply prog_wp_mono; [apply wp_probe_stream|]. intros [[u1 q] r] tr1 [E1 Q1]. step. cbn in *.
      split; [done|]. unfold probe_token in *. rewrite Et in *. split; [|done].
      eapply good_moved; [exact Hg|exact Q1|]. intros t ->%elem_of_singleton. by exists (OwnProbe id).
    - do 2 step. intros r Hl _. step. split; [done|]. split; [by apply good_ask'|done]. }
  intros [p1 [verdict_ fin]] ? tr1 (-> & Hg1 & E1). cbn [fst] in E1. do 2 step.
  assert (counted 0 0 s (with_probes s (<[id := p1]> (probes s))) tr1) as Hk.
  { split; [|unfold connections, lookups; cbn; lia]. apply good_with_probe; [done| |by rewrite E1|left; by eexists].
    apply (g_probe_ids _ _ _ _ _ Hg). by eexists. }
  set (s1 := with_probes s _) in *. destruct (_ && _); [by step|].
  step. eapply wpm_mono; [apply wpm_remove_probe; by destruct Hk|]. intros [] s2 tr2 Hk2.
  assert (counted 0 0 s s2 tr2) as Hk' by exact (counted_then _ _ _ _ _ _ _ Hk Hk2).
  match goal with |- wpm (match ?r with _ => _ end) _ _ _ => destruct r end; [|by step].
  by apply wpm_emit_counted.
Qed.
(** ** Readiness *)

Lemma flow_ok_flushed key f tr u' tr' :
  flow_ok key f tr → flushed (upstream f) tr u' tr' → flow_ok key (with_upstream f u') tr'.
Proof.
  intros Hf Hu. destruct (socket f) as [h|] eqn:Hs.
  - by destruct (moved_flushed exit login_ok key h f tr u' tr' Hs Hf Hu) as (_ & _ & _ & ?).
  - unfold ExitSafety.flow_ok in *. cbn [socket upstream with_upstream]. rewrite Hs in *. destruct Hf as [Hw Hd].
    split; [done|]. destruct Hu as ([Et Eh Ec] & Hrest). destruct Hd as [Hd|[Hh Hc]].
    + left. eapply dialling_flushed; [exact Hd|]. by split.
    + right. split; congruence.
Qed.

(** A connection moves on outside of [pump_tcp]. *)
Lemma counted_flow a b s0 s tr key f f' tr' :
  counted a b s0 s tr → tcp s !! key = Some f → quiet {[token (upstream f)]} ∅ tr tr' →
  token (upstream f') = token (upstream f) → socket f' = socket f → flow_ok key f' tr' →
  counted a b s0 (with_tcp s (<[key := f']> (tcp s))) tr'.
Proof.
  intros (Hg & Hc & Hk) Hf Hq Et Es Hok. split; [|split; [|done]].
  - eapply good_verdicts.
    + eapply (ExitInvariant.good_flow_moved exit); [done|exact Hg|exact Hf| |exact Et|exact Es|].
      * eapply quiet_weaken; [exact Hq|done|set_solver].
      * instantiate (1 := Carries). exact Hok.
    + intros k _. unfold upd, idle_flows. by destruct (decide _).
  - rewrite <-Hc. unfold connections, pending. cbn [tcp with_tcp counters].
    rewrite (msum_replace _ _ _ f) by done. unfold still_opening. rewrite Es. lia.
Qed.

Lemma idle_at s tr key f : good 0 idle_flows s tr → tcp s !! key = Some f → flow_ok key f tr.
Proof. intros Hg Hf. by destruct (g_flows _ _ _ _ _ Hg key f Hf) as [_ ?]. Qed.

Lemma wpm_on_ready t readable s tr :
  good 0 idle_flows s tr → wpm (on_ready client exit rounds t readable) s tr (λ _ s' tr', counted 0 0 s s' tr').
Proof.
  intros Hg. unfold on_ready. do 2 step. destruct (owners s !! t) as [[key|port|port|id|id]|]; [| | | | |step; by apply counted_refl].
  - do 2 step. destruct (tcp s !! key) as [f|] eqn:Hf; [|step; by apply counted_refl].
    set (b := read_pending (upstream f) || readable). do 2 step. eapply prog_wp_mono; [apply wp_flush|]. intros u tr1 Hu.
    assert (flushed (upstream f) tr u tr1) as Hu'.
    { eapply flushed_trans; [|exact Hu]. by apply flushed_refl. }
    unfold set_upstream. step. rewrite (alter_present _ _ _ f) by done.
    pose proof Hu' as ([Et _ _] & Hq & _).
    eapply (counted_flow 0 0 s s tr key f); [by apply counted_refl|done|done|done|done|].
    eapply flow_ok_flushed; [by eapply idle_at|done].
  - eapply wpm_mono; [by apply wpm_udp_control_ready|]. intros [] s' tr' Hk. by apply kept_counted.
  - eapply wpm_mono; [by apply wpm_udp_data_ready|]. intros [] s' tr' Hk. by apply kept_counted.
  - by apply wpm_dns_ready.
  - by apply wpm_probe_ready.
Qed.

(** ** Captured packets *)

(** A SYN for a connection that is not known asks for it. *)
Definition opens (s : Stack) (key : FlowKey) (head : TcpHead) : bool :=
  bool_decide (tcp s !! key = None) && syn head && negb (ack head).

Definition key_for (destination : list byte) (head : TcpHead) : FlowKey :=
  mk_key (tcp_source head) (SocketAddr destination (tcp_destination head)).

Lemma wpm_on_tcp packet destination head s tr :
  good 0 idle_flows s tr → zlen destination = 4 →
  wpm (on_tcp client exit packet destination head) s tr (λ _ s' tr',
    counted (if opens s (key_for destination head) head then 1 else 0) 0 s s' tr').
Proof.
  intros Hg Hip. unfold on_tcp, opens. fold (key_for destination head). set (key := key_for destination head). cbn zeta. do 2 step.
  destruct (tcp s !! key) as [f|] eqn:Hf.
  - rewrite (bool_decide_false (Some f = None)) by done. cbn [andb].
    destruct (bool_decide (socket f = None) && rst head) eqn:Ec.
    + apply andb_true_iff in Ec as [Hs%bool_decide_eq_true _]. step. apply wpm_count.
      set (s1 := with_counters s _). assert (good 0 idle_flows s1 tr) as Hg1 by by apply good_counters.
      eapply wpm_mono; [by apply (wpm_remove_tcp exit login_ok 0 idle_flows key f)|].
      intros [] s2 tr2 (Hg2 & _ & Hc & Hk). unfold idle_flows in *. split; [done|]. rewrite Hc, Hk.
      unfold still_opening. rewrite Hs. unfold connections, lookups, s1, one_more. cbn. lia.
    + destruct (bool_decide (is_Some (socket f))) eqn:Ei.
      * unfold queue_packet. step. split; [by apply good_rx|]. unfold connections, lookups. cbn. lia.
      * apply bool_decide_eq_false, eq_None_not_Some in Ei. destruct (syn head); step; [|by apply counted_refl].
        eapply (counted_flow 0 0 s s tr key f); [by apply counted_refl|done|done|done|done|].
        pose proof (idle_at _ _ _ _ Hg Hf) as Hok. unfold ExitSafety.flow_ok in *. cbn. rewrite Ei in *.
        destruct Hok as [(_ & _ & Happ) Hd]. split; [|done]. split_and!; [done|by eexists|done].
  - rewrite bool_decide_true by done. cbn [andb]. destruct (syn head && negb (ack head)).
    + eapply wpm_mono; [by apply wpm_open_tcp|]. intros [] s' tr' (Hg' & Hc & Hk). split; [done|]. lia.
    + destruct (negb (rst head)); [|step; by apply counted_refl]. by apply wpm_emit_counted, counted_refl.
Qed.

Lemma parsed_destination packet i : parse_ipv4 packet = Some i → zlen (destination i) = 4 ∧ 20 <= zlen packet.
Proof.
  unfold parse_ipv4. destruct (_ || _) eqn:E; [done|]. destruct (_ || _ || _); [done|]. intros [= <-].
  apply orb_false_iff in E as [E%Z.ltb_ge _]. cbn [destination]. rewrite zlen_sub by lia. lia.
Qed.

(** A packet asks for one connection or one lookup at most. *)
Definition asked_once (s s' : Stack) (tr' : trace) : Prop :=
  ∃ a b, 0 <= a ∧ 0 <= b ∧ a + b <= 1 ∧ counted a b s s' tr'.

Lemma asked_nothing s s' tr' : counted 0 0 s s' tr' → asked_once s s' tr'.
Proof. intros Hk. exists 0, 0. by split_and!. Qed.

Lemma wpm_on_app_packet fuel : ∀ packet s tr,
  good 0 idle_flows s tr →
  wpm (on_app_packet client probe_target exit rounds fuel packet) s tr (λ _ s' tr', asked_once s s' tr').
Proof.
  induction fuel as [|fuel IH]; intros packet s tr Hg; cbn [on_app_packet];
    (destruct (parse_ipv4 packet) as [i|] eqn:Ei; [|by step; apply asked_nothing, counted_refl]);
    destruct (parsed_destination _ _ Ei) as [Hip Hlen].
  all: destruct (protocol i =? PROTOCOL_TCP);
    [destruct (if fragmented i then None else _) as [head|];
      [eapply wpm_mono; [by apply wpm_on_tcp|]; intros [] s' tr' Hk; exists (if opens s (key_for (destination i) head) head then 1 else 0), 0;
         split_and!; [by destruct (opens _ _ _)|done|by destruct (opens _ _ _)|exact Hk]
      |unfold queue_packet; step; apply asked_nothing; split; [by apply good_rx|unfold connections, lookups; cbn; lia]]|].
  all: destruct ((protocol i =? PROTOCOL_UDP) && fragmented i);
    [|destruct (protocol i =? PROTOCOL_UDP);
      [destruct (parse_udp (payload i)) as [u|]; [|step; by apply asked_nothing, counted_refl];
       destruct ((udp_destination u =? DNS_PORT) && is_proxy exit);
         [eapply wpm_mono; [by apply (wpm_send_lookup client exit login_ok _ _ _ false 0 0 s), counted_refl|];
          intros [] s' tr' Hk; exists 0, (0 + query_counts (udp_payload u)); unfold query_counts in *;
          split_and!; [done| | |exact Hk]; destruct (_ || _); lia
         |eapply wpm_mono; [by apply wpm_send_udp|]; intros [] s' tr' Hk; by apply asked_nothing, kept_counted]
      |destruct (is_echo_request i && bool_decide (destination i = probe_target));
         [eapply wpm_mono; [by apply wpm_probe|]; intros [] s' tr' Hk; by apply asked_nothing
         |apply wpm_count, asked_nothing; split; [by apply good_counters|unfold connections, lookups, one_more; cbn; lia]]]].
  all: do 2 step; intros now Hl _; do 2 step;
    destruct (push_bounded (fragments s) packet now (g_fragments _ _ _ _ _ Hg) ltac:(lia)) as (out & held & -> & Hb & _);
    do 2 step;
    (assert (counted 0 0 s (with_fragments s held) (tr ++ [mk_event Now now])) as Hk1;
      [split; [by apply good_fragments; [|apply good_ask']|unfold connections, lookups; cbn; lia]|]);
    (destruct out as [datagram|]; [|by step; apply asked_nothing]).
  1: done.
  eapply wpm_mono; [apply IH; by destruct Hk1|]. intros [] s' tr' (a & b & Ha & Hb' & Hab & Hk). exists a, b.
  split_and!; [done..|]. destruct Hk1 as (_ & Hc1 & Hk1). destruct Hk as (Hg' & Hc & Hk). split; [done|]. lia.
Qed.

(** ** The loop *)

Lemma wpm_poll_interface s tr :
  good 0 idle_flows s tr → wpm poll_interface s tr (λ _ s' tr', counted 0 0 s s' tr').
Proof.
  intros Hg. unfold poll_interface. do 2 step. do 2 step. intros [rest tx] Hl _. step. split.
  - by apply good_tx, good_rx, good_ask'.
  - unfold connections, lookups. cbn. lia.
Qed.

Lemma wp_stale_probes running ids : ∀ tr, wp (stale_probes running ids) tr (λ _ tr', quiet ∅ ∅ tr tr').
Proof.
  induction ids as [|id ids IH]; intros tr; cbn [stale_probes]; [by step|].
  destruct (running !! id) as [p|]; [|apply IH]. do 2 step. intros now Hl _. step.
  eapply prog_wp_mono; [apply IH|]. intros rest tr' Hq. step. etrans; [|exact Hq]. by apply quiet_event.
Qed.

Lemma wpm_expire s tr :
  good 0 idle_flows s tr → wpm (expire client exit) s tr (λ _ s' tr', counted 0 0 s s' tr').
Proof.
  intros Hg. apply counted_refl in Hg as Hk. unfold expire. do 2 step. intros now Hl _. do 2 step. do 2 step. intros ports Hl2 _.
  apply (counted_ask _ _ _ _ _ Now now) in Hk; [|done|done].
  apply (counted_ask _ _ _ _ _ (Order (elements (dom (udp s)))) ports) in Hk; [|done|done].
  step. eapply wpm_mono; [eapply (wpm_for_each_counted remove_udp); [|exact Hk]|].
  { intros port s1 tr1 Hg1. eapply wpm_mono; [by apply wpm_remove_udp|]. intros [] s2 tr2 [Hk2 _]. by apply kept_counted. }
  intros [] s1 tr1 Hk1. do 2 step. do 2 step. intros ids Hl3 _.
  apply (counted_ask _ _ _ _ _ (Order (elements (dom (dns s1)))) ids) in Hk1; [|done|done].
  step. eapply wpm_mono; [eapply (wpm_for_each_counted (expire_stream client exit)); [|exact Hk1]|].
  { intros id s2 tr2 Hg2. by apply wpm_expire_stream. }
  intros [] s2 tr2 Hk2. do 2 step. do 2 step. intros stale Hl4 _.
  apply (counted_ask _ _ _ _ _ (Order (elements (dom (probes s2)))) stale) in Hk2; [|done|done].
  do 2 step. eapply prog_wp_mono; [apply wp_stale_probes|]. intros late tr3 Hq.
  eapply (wpm_for_each_counted remove_probe); [by intros; apply wpm_remove_probe|].
  destruct Hk2 as (Hg2 & Ht2). split; [|done]. eapply good_moved; [exact Hg2|exact Hq|]. intros t Ht. set_solver.
Qed.

Lemma wpm_turn s tr :
  good 0 idle_flows s tr → wpm (turn client exit) s tr (λ _ s' tr', counted 0 0 s s' tr').
Proof.
  intros Hg. unfold turn. step. eapply wpm_mono; [by apply wpm_poll_interface|]. intros [] s1 tr1 Hk1.
  step. eapply wpm_mono; [apply wpm_pump_tcp; [done|by destruct Hk1]|]. intros [] s2 tr2 Hp.
  assert (counted 0 0 s s2 tr2) as Hk2.
  { apply (counted_then _ _ _ _ _ _ _ Hk1). by apply kept_counted. }
  step. eapply wpm_mono; [apply wpm_poll_interface; by destruct Hk2|]. intros [] s3 tr3 Hk3'.
  pose proof (counted_then _ _ _ _ _ _ _ Hk2 Hk3') as Hk3. do 2 step. do 2 step.
  assert (counted 0 0 s (with_device_tx s3 []) tr3) as Hk4.
  { destruct Hk3 as (Hg3 & Ht3). split; [by apply good_tx|done]. }
  step. eapply wpm_mono; [eapply (wpm_for_each_counted emit); [|exact Hk4]|].
  { intros p s4 tr4 Hg4. by apply wpm_emit_counted, counted_refl. }
  intros [] s5 tr5 Hk5. eapply wpm_mono; [apply wpm_expire; by destruct Hk5|]. intros [] s6 tr6 Hk6.
  exact (counted_then _ _ _ _ _ _ _ Hk5 Hk6).
Qed.

Lemma wpm_poll_timeout s tr :
  good 0 idle_flows s tr → wpm poll_timeout s tr (λ _ s' tr', counted 0 0 s s' tr').
Proof.
  intros Hg. unfold poll_timeout. do 2 step. do 2 step. intros delay Hl _. step.
  by apply counted_ask; [apply counted_refl|..].
Qed.

(** One turn asks for nothing that was not captured. *)
Lemma wpm_iteration s tr :
  good 0 idle_flows s tr →
  wpm (iteration client probe_target exit rounds) s tr (λ _ s' tr', ∃ a b, 0 <= a ∧ 0 <= b ∧ counted a b s s' tr').
Proof.
  intros Hg. unfold iteration. step. eapply wpm_mono; [by apply wpm_poll_timeout|]. intros timeout s1 tr1 Hk1.
  do 2 step. intros events Hl _. apply (counted_ask _ _ _ _ _ (PollEvents timeout) events) in Hk1; [|done|done].
  destruct events as [events|]; [|step; by exists 0, 0]. step.
  eapply wpm_mono; [eapply wpm_for_each_counted; [|exact Hk1]|].
  { intros [t readable] s2 tr2 Hg2. cbn [fst snd]. destruct (_ =? _); [step; by apply counted_refl|by apply wpm_on_ready]. }
  intros [] s2 tr2 Hk2. do 2 step. intros packets Hl2 _. apply (counted_ask _ _ _ _ _ TakeInbox packets) in Hk2; [|done|done].
  step. eapply (wpm_mono _ _ _ (λ _ s' tr', ∃ a b, 0 <= a ∧ 0 <= b ∧ counted a b s s' tr')).
  - set (tr3 := tr2 ++ _) in *. clearbody tr3. clear Hl Hl2.
    apply (wpm_for_each packets (on_app_packet client probe_target exit rounds rounds)
      (λ _ s' tr', ∃ a b, 0 <= a ∧ 0 <= b ∧ counted a b s s' tr')); [|by exists 0, 0].
    intros packet l s3 tr4 (a & b & Ha & Hb & Hk). eapply wpm_mono; [apply wpm_on_app_packet; by destruct Hk|].
    intros [] s4 tr5 (c & d & Hc & Hd & _ & Hk'). exists (a + c), (b + d).
    split; [lia|]. split; [lia|]. exact (counted_trans _ _ _ _ _ _ _ _ _ _ Hk Hk').
  - intros [] s3 tr4 (a & b & Ha & Hb & Hk). eapply wpm_mono; [apply wpm_turn; by destruct Hk|].
    intros [] s4 tr5 Hk'. exists a, b. split; [done|]. split; [done|]. exact (counted_then _ _ _ _ _ _ _ Hk Hk').
Qed.

(** ** The end *)

Lemma wpm_remove_flows l : ∀ s tr,
  good 0 idle_flows s tr →
  wpm (for_each l remove_tcp) s tr (λ _ s' tr', good 0 idle_flows s' tr' ∧
    ∀ key, is_Some (tcp s' !! key) → is_Some (tcp s !! key) ∧ key ∉ l).
Proof.
  induction l as [|key l IH]; intros s tr Hg; cbn [for_each].
  { step. split; [done|]. intros k Hk. split; [done|by intros ?%elem_of_nil]. }
  step. eapply (wpm_mono _ _ _ (λ _ s' tr', good 0 idle_flows s' tr' ∧ tcp s' = delete key (tcp s))).
  - destruct (tcp s !! key) as [f|] eqn:Hf.
    + eapply wpm_mono; [by apply (wpm_remove_tcp exit login_ok 0 idle_flows key f)|]. by intros [] s' tr' (Hg' & Ht & _).
    + eapply wpm_mono; [by apply (wpm_remove_tcp_absent exit 0 idle_flows key)|]. intros [] s' tr' [-> ->].
      split; [done|]. by rewrite delete_id.
  - intros [] s1 tr1 [Hg1 Ht]. eapply wpm_mono; [by apply IH|]. intros [] s2 tr2 [Hg2 Hrest]. split; [done|].
    intros k Hk. destruct (Hrest k Hk) as [[f Hf] Hn]. rewrite Ht in Hf. apply lookup_delete_Some in Hf as [Hne Hf].
    split; [by eexists|]. intros [->|?]%elem_of_cons; done.
Qed.

Lemma wpm_deregister_all l : ∀ s tr,
  good 0 idle_flows s tr →
  wpm (for_each l (λ d : Z * DnsUpstream, deregister (dns_stream d.2))) s tr (λ _ s' tr', s' = s ∧ good 0 idle_flows s tr').
Proof.
  induction l as [|d l IH]; intros s tr Hg; cbn [for_each]; [by step|].
  step. unfold deregister. step. intros [] Hl _. apply IH. by apply good_ask'.
Qed.

Lemma wpm_remove_probes l : ∀ s tr,
  good 0 idle_flows s tr →
  wpm (for_each l remove_probe) s tr (λ _ s' tr', good 0 idle_flows s' tr' ∧ tcp s' = tcp s ∧ dns s' = dns s ∧
    ∀ id, is_Some (probes s' !! id) → is_Some (probes s !! id) ∧ id ∉ l).
Proof.
  induction l as [|id l IH]; intros s tr Hg; cbn [for_each].
  { step. split_and!; try done. intros k Hk. split; [done|by intros ?%elem_of_nil]. }
  step. eapply (wpm_mono _ _ _ (λ _ s' tr', good 0 idle_flows s' tr' ∧ tcp s' = tcp s ∧ dns s' = dns s ∧ probes s' = delete id (probes s))).
  - assert (wpm (remove_probe id) s tr (λ _ s' tr', tcp s' = tcp s ∧ dns s' = dns s ∧ probes s' = delete id (probes s))) as H1.
    { unfold remove_probe. do 2 step. destruct (probes s !! id) as [p|] eqn:Hp; [|step; by rewrite delete_id].
      do 2 step. unfold deregister, disown. destruct (transport p); do 2 step; intros [] _ _; by step. }
    pose proof (wpm_remove_probe id s tr Hg) as H2. unfold wpm in *.
    eapply prog_wp_mono; [exact (wp_and _ _ _ _ H1 H2)|]. intros [[] s'] tr' [H3 (Hg' & _)]. by split.
  - intros [] s1 tr1 (Hg1 & Ht & Hd & Hp). eapply wpm_mono; [by apply IH|]. intros [] s2 tr2 (Hg2 & Ht2 & Hd2 & Hrest).
    split_and!; [done|congruence|congruence|]. intros k Hk. destruct (Hrest k Hk) as [[p Hp2] Hn]. rewrite Hp in Hp2.
    apply lookup_delete_Some in Hp2 as [Hne Hp2]. split; [by eexists|]. intros [->|?]%elem_of_cons; done.
Qed.

Lemma wpm_shutdown s tr :
  good 0 idle_flows s tr →
  wpm shutdown s tr (λ _ s' _, tcp s' = ∅ ∧ udp s' = ∅ ∧ dns s' = ∅ ∧ probes s' = ∅).
Proof.
  intros Hg. unfold shutdown. do 2 step. step. eapply wpm_mono; [by apply wpm_remove_flows|].
  intros [] s1 tr1 [Hg1 Hrest].
  assert (tcp s1 = ∅) as Htcp.
  { apply map_empty. intros key. apply eq_None_not_Some. intros Hk. destruct (Hrest key Hk) as [Hin Hn].
    apply Hn. by rewrite elem_of_elements, elem_of_dom. }
  do 2 step. step. eapply wpm_mono; [by apply wpm_deregister_all|]. intros [] s2 tr2 [-> Hg2]. do 2 step.
  set (s2 := with_dns s1 ∅). assert (good 0 idle_flows s2 tr2) as Hg3.
  { destruct Hg2. split; try done; unfold s2; cbn [dns with_dns].
    - intros o t Ho. apply g_own. destruct o; cbn [holds tcp udp dns probes with_dns] in *; try done. by destruct Ho as (d & Hd & _).
    - intros id [d Hd]. done. }
  do 2 step. step. eapply wpm_mono; [by apply wpm_remove_probes|]. intros [] s3 tr3 (Hg4 & Ht & Hd & Hp). step. cbn.
  split_and!; [by rewrite Ht|done|by rewrite Hd|]. apply map_empty. intros id. apply eq_None_not_Some. intros Hk.
  destruct (Hp id Hk) as [Hin Hn]. apply Hn. by rewrite elem_of_elements, elem_of_dom.
Qed.

(** The state the stack starts in. *)
Lemma good_new_stack : good 0 idle_flows new_stack [].
Proof.
  split; try done; try (by intros; cbn in *; simplify_map_eq).
  - intros o t Ho. destruct o; cbn in Ho; by destruct_and?; naive_solver (by simplify_map_eq).
Qed.

End loop.
