(* ===== verification/ExitTheorems.v ===== *)
(** * What the forwarding stack promises

    [yields] and [panics] are the runs of a program against the environments that
    [ExitSafety.legal] allows; [reaches] are the states the stack gets to, one
    operation of its loop after the other. The theorems hold of every one of
    them. *)
From S2P Require Import Text Dns SocksWire Prelude Fragments ExitPacket ExitHandshake ExitStack ExitSafety ExitInvariant ExitDatagrams ExitLookups ExitLoop.

(** ** Runs *)

(** From [tr] on, [m] can end with [a], its questions answered as [tr'] says. *)
Fixpoint yields {A} (m : prog A) (tr : trace) (a : A) (tr' : trace) : Prop :=
  match m with
  | Return b => a = b ∧ tr' = tr
  | Ask c k => ∃ x, zlen tr < TRACE ∧ legal tr c x ∧ yields (k x) (tr ++ [mk_event c x]) a tr'
  | Spin | Crash => False
  end.

Fixpoint panics {A} (m : prog A) (tr : trace) : Prop :=
  match m with
  | Return _ | Spin => False
  | Ask c k => ∃ x, zlen tr < TRACE ∧ legal tr c x ∧ panics (k x) (tr ++ [mk_event c x])
  | Crash => True
  end.

Lemma yields_wp {A} (m : prog A) tr Q a tr' : wp m tr Q → yields m tr a tr' → Q a tr'.
Proof.
  revert tr. induction m as [b|c k IH| |]; intros tr; cbn [wp yields]; [by intros ? [-> ->]| |done|done].
  intros Hm (x & Hl & Hx & Hy). by eapply IH; [apply Hm|].
Qed.

Lemma wp_panics {A} (m : prog A) tr Q : wp m tr Q → ¬ panics m tr.
Proof.
  revert tr. induction m as [b|c k IH| |]; intros tr; cbn [wp panics]; [by intros _ ?| |by intros _ ?|done].
  intros Hm (x & Hl & Hx & Hp). by eapply IH; [apply Hm|].
Qed.

(** *** Runs against one environment, computed *)

Definition environment : Type := trace → ∀ c : call, answer c.

Definition allowed (tr : trace) (c : call) : answer c → bool :=
  match c with
  | WriteTo _ data => λ w, match w with Wrote n => (0 <=? n) && (n <=? zlen data) | _ => true end
  | ReadFrom _ want => λ r, match r with Got data => zlen data <=? want | _ => true end
  | SockRecv _ => λ r, match r with Some data => zlen data <=? BUFFER | None => true end
  | SockSend _ data => λ n, match n with Some n => (0 <=? n) && (n <=? zlen data) | None => true end
  | SockAdd => λ h, bool_decide (h ∉ live tr)
  | OrderFlows l => λ k, bool_decide (k = l)
  | Order l => λ k, bool_decide (k = l)
  | Random16 => λ n, (0 <=? n) && (n <? 65536)
  | _ => λ _, true
  end.

Lemma allowed_legal tr c x : allowed tr c x = true → legal tr c x.
Proof.
  destruct c; cbn in *; try done; try (destruct x as [n| | |]; done || idtac);
    try (destruct x as [n|]; done || idtac);
    rewrite ?andb_true_iff, ?Z.leb_le, ?Z.ltb_lt, ?bool_decide_eq_true; try lia; try done; by intros ->.
Qed.

Fixpoint play {A} (e : environment) (m : prog A) (tr : trace) : option (A * trace) :=
  match m with
  | Return a => Some (a, tr)
  | Ask c k =>
      let x := e tr c in
      if (zlen tr <? TRACE) && allowed tr c x then play e (k x) (tr ++ [mk_event c x]) else None
  | Spin | Crash => None
  end.

Lemma play_yields {A} e (m : prog A) tr a tr' : play e m tr = Some (a, tr') → yields m tr a tr'.
Proof.
  revert tr. induction m as [b|c k IH| |]; intros tr; cbn [play yields]; [by intros [= -> ->]| |done|done].
  destruct (_ && _) eqn:E; [|done]. apply andb_true_iff in E as [El%Z.ltb_lt Ea%allowed_legal]. eauto.
Qed.

(** ** Reached states *)

Section reach.
Context (client probe_target : list byte) (exit : Exit) (rounds : nat).

(** What the loop does, one at a time. *)
Inductive Operation : Type :=
| Readiness (t : Z) (readable : bool)
| Packet (packet : list byte)
| Turn.

Definition operate (op : Operation) : M () :=
  match op with
  | Readiness t readable => on_ready client exit rounds t readable
  | Packet packet => on_app_packet client probe_target exit rounds rounds packet
  | Turn => turn client exit
  end.

Inductive reaches : Stack → trace → Prop :=
| Reaches_start : reaches new_stack []
| Reaches_operate s tr op s' tr' : reaches s tr → yields (operate op s) tr ((), s') tr' → reaches s' tr'
| Reaches_wait s tr c x :
    reaches s tr → zlen tr < TRACE → legal tr c x → about ∅ ∅ c = true → reaches s (tr ++ [mk_event c x]).

Fixpoint play_ops (e : environment) (ops : list Operation) (s : Stack) (tr : trace) : option (Stack * trace) :=
  match ops with
  | [] => Some (s, tr)
  | op :: ops => match play e (operate op s) tr with Some (((), s), tr) => play_ops e ops s tr | None => None end
  end.

Lemma play_ops_reaches e ops : ∀ s tr s' tr', reaches s tr → play_ops e ops s tr = Some (s', tr') → reaches s' tr'.
Proof.
  induction ops as [|op ops IH]; intros s tr s' tr' Hr; cbn [play_ops]; [by intros [= <- <-]|].
  destruct (play e (operate op s) tr) as [[[[] s1] tr1]|] eqn:E; [|done]. apply IH.
  by eapply Reaches_operate, play_yields.
Qed.

Notation good := (good exit).
Notation counted := (counted exit).

Lemma wpm_operate (login_ok : login_wf (login exit)) op s tr :
  good 0 idle_flows s tr → wpm (operate op) s tr (λ _ s' tr', asked_once exit s s' tr').
Proof.
  intros Hg. destruct op as [t readable|packet|]; cbn [operate].
  - eapply wpm_mono; [by apply wpm_on_ready|]. intros [] s' tr' Hk. by apply asked_nothing.
  - by apply wpm_on_app_packet.
  - eapply wpm_mono; [by apply wpm_turn|]. intros [] s' tr' Hk. by apply asked_nothing.
Qed.

Lemma reaches_good (login_ok : login_wf (login exit)) s tr : reaches s tr → good 0 idle_flows s tr.
Proof.
  induction 1 as [|s tr op s' tr' _ IH Hy|s tr c x _ IH Hl Hx Hc].
  - apply good_new_stack.
  - destruct (yields_wp _ _ _ _ _ (wpm_operate login_ok op s tr IH) Hy) as (a & b & _ & _ & _ & Hg & _). done.
  - by apply good_ask'.
Qed.
(** *** The loop is made of operations *)

Lemma yields_bind {A B} (m : prog A) (f : A → prog B) tr b tr' :
  yields (m ≫= f) tr b tr' → ∃ a tr1, yields m tr a tr1 ∧ yields (f a) tr1 b tr'.
Proof.
  revert tr. induction m as [a|c k IH| |]; intros tr; cbn [yields mbind prog_bind]; [|intros (x & Hl & Hx & Hy)|done|done].
  - intros Hy. by exists a, tr.
  - destruct (IH x _ Hy) as (a & tr1 & H1 & H2). exists a, tr1. split; [by exists x|done].
Qed.

Lemma yields_bindM {A B} (m : M A) (f : A → M B) s tr b s' tr' :
  yields ((m ≫= f) s) tr (b, s') tr' → ∃ a s1 tr1, yields (m s) tr (a, s1) tr1 ∧ yields (f a s1) tr1 (b, s') tr'.
Proof. intros ([a s1] & tr1 & H1 & H2)%yields_bind. by exists a, s1, tr1. Qed.

Lemma yields_asks c s tr (x : answer c) s' tr' :
  yields (asks c s) tr (x, s') tr' → s' = s ∧ zlen tr < TRACE ∧ legal tr c x ∧ tr' = tr ++ [mk_event c x].
Proof.
  unfold asks, lift, ask. cbn. intros (y & Hl & Hy & Hr). cbn in Hr. destruct Hr as [[= -> ->] ->]. done.
Qed.

Lemma for_each_reaches {A} (f : A → M ()) l :
  (∀ x s tr s' tr', x ∈ l → reaches s tr → yields (f x s) tr ((), s') tr' → reaches s' tr') →
  ∀ s tr s' tr', reaches s tr → yields (for_each l f s) tr ((), s') tr' → reaches s' tr'.
Proof.
  induction l as [|x l IH]; intros Hf s tr s' tr' Hr; cbn [for_each].
  - cbn. by intros [[= ->] ->].
  - intros ([] & s1 & tr1 & H1 & H2)%yields_bindM. eapply IH; [| |exact H2].
    + intros y ? ? ? ? Hy. apply Hf. by apply list_elem_of_further.
    + eapply Hf; [by apply list_elem_of_here|exact Hr|exact H1].
Qed.

Lemma iteration_reaches s tr s' tr' :
  reaches s tr → yields (iteration client probe_target exit rounds s) tr ((), s') tr' → reaches s' tr'.
Proof.
  intros Hr. unfold iteration, poll_timeout. intros (timeout & s1 & tr1 & H1 & H2)%yields_bindM.
  assert (reaches s1 tr1) as Hr1.
  { apply yields_bindM in H1 as (flows & s2 & tr2 & [[= -> ->] ->] & H1).
    apply yields_bindM in H1 as (delay & s2 & tr2 & (-> & Hl & Hx & ->)%yields_asks & [[= _ ->] ->]). by apply Reaches_wait. }
  apply yields_bindM in H2 as (events & s2 & tr2 & (-> & Hl & Hx & ->)%yields_asks & H2).
  apply (Reaches_wait _ _ (PollEvents timeout) events) in Hr1; [|done..].
  destruct events as [events|]; [|by destruct H2 as [[= ->] ->]].
  apply yields_bindM in H2 as ([] & s3 & tr3 & H2 & H3).
  eapply for_each_reaches in H2; [| |exact Hr1].
  2:{ intros [t readable] s4 tr4 s5 tr5 _ Hr4. cbn [fst snd]. destruct (_ =? _).
      - by intros [[= ->] ->].
      - intros Hy. by eapply (Reaches_operate _ _ (Readiness t readable)). }
  apply yields_bindM in H3 as (packets & s4 & tr4 & (-> & Hl4 & Hx4 & ->)%yields_asks & H3).
  apply (Reaches_wait _ _ TakeInbox packets) in H2; [|done..].
  apply yields_bindM in H3 as ([] & s5 & tr5 & H4 & H5).
  eapply for_each_reaches in H4; [| |exact H2].
  2:{ intros packet s6 tr6 s7 tr7 _ Hr6 Hy. by eapply (Reaches_operate _ _ (Packet packet)). }
  exact (Reaches_operate _ _ Turn _ _ H4 H5).
Qed.

Lemma wpm_run (login_ok : login_wf (login exit)) n : ∀ s tr,
  good 0 idle_flows s tr →
  wpm (run client probe_target exit rounds n) s tr (λ _ s' _, tcp s' = ∅ ∧ udp s' = ∅ ∧ dns s' = ∅ ∧ probes s' = ∅).
Proof.
  induction n as [|n IH]; intros s tr Hg; cbn [run]; do 2 step; intros stop Hl _;
    apply (good_ask' exit login_ok _ _ _ _ Stopped stop) in Hg; [|done|done| |done|done];
    (destruct stop; [by apply (wpm_shutdown exit login_ok)|]); [done|].
  step. eapply wpm_mono; [by apply wpm_iteration|]. intros [] s1 tr1 (a & b & _ & _ & Hg1 & _). by apply IH.
Qed.

End reach.

(** ** The promises *)

Section promises.
Context (client probe_target : list byte) (exit : Exit) (rounds : nat).

Notation reaches := (reaches client probe_target exit rounds).
Notation operate := (operate client probe_target exit rounds).
Notation run := (run client probe_target exit rounds).

(** A login the configuration's validation lets through. *)
Hypothesis login_ok : login_wf (login exit).

(** C9. The forwarding stack never panics, whatever its sockets, its proxy, the
    captured packets and the clock do: not in any operation of a state it can
    reach, and not in a whole run from start to shutdown, of any length; and a run
    that is told to stop leaves no connection, association, lookup stream or probe
    behind. *)
Theorem forwarding_stack_never_panics turns :
  ¬ panics (run turns new_stack) [] ∧
  (∀ s' tr', yields (run turns new_stack) [] ((), s') tr' →
     tcp s' = ∅ ∧ udp s' = ∅ ∧ dns s' = ∅ ∧ probes s' = ∅) ∧
  ∀ s tr op, reaches s tr → ¬ panics (operate op s) tr.
Proof.
  pose proof (wpm_run client probe_target exit rounds login_ok turns new_stack [] (good_new_stack exit)) as Hrun.
  split; [by eapply wp_panics|]. split; [by intros s' tr' Hy; apply (yields_wp _ _ _ _ _ Hrun Hy)|].
  intros s tr op Hr. eapply wp_panics, (wpm_operate client probe_target exit rounds login_ok). by apply reaches_good in Hr.
Qed.

(** C37. Whatever it is sent, the forwarding stack stays within its limits: 2048
    connections, 512 associations of 64 queued datagrams, 8 streams to each
    resolver, 4 probes, and for each open connection 256 KiB towards the
    application and 320 KiB towards the exit; and every query in flight has its
    own sixteen-bit id on its stream. *)
Theorem forwarding_stack_is_bounded s tr (Hr : reaches s tr) :
  zsize (tcp s) <= 2048 ∧ zsize (udp s) <= 512 ∧ zsize (probes s) <= 4 ∧
  (∀ r, streams_to r (dns s) <= 8) ∧
  (∀ port a control queue, udp s !! port = Some a → state a = Dialing control queue → zlen queue <= 64) ∧
  (∀ key f h, tcp s !! key = Some f → socket f = Some h →
     zlen (to_app f) <= 256 * 1024 ∧ zlen (outgoing (upstream f)) <= 320 * 1024) ∧
  (∀ id d qid q, dns s !! id = Some d → in_flight d !! qid = Some q → 0 <= qid < 65536).
Proof.
  apply (reaches_good _ _ _ _ login_ok) in Hr. split_and!; [apply Hr..| | |].
  - intros port a control queue Ha Hs. pose proof (g_queues _ _ _ _ _ Hr port a Ha) as Hq. by rewrite Hs in Hq.
  - intros key f h Hf Hs. pose proof (idle_at _ _ _ _ _ Hr Hf) as Hok. unfold flow_ok in Hok. rewrite Hs in Hok.
    destruct Hok as (_ & _ & _ & H1 & H2 & _). by split.
  - intros id d qid q Hd Hq. by destruct (g_queries _ _ _ _ _ Hr id d Hd qid q Hq).
Qed.

(** C8. A connection through the forwarding stack carries its bytes unchanged,
    in order and without loss, in both directions, however reads and writes are
    split and wherever they stop: what the exit's stream has taken, with what is
    still queued for it, is the opening words followed by everything taken from the
    application; and what the application was given, with what is still queued for
    it, is everything the stream delivered after the proxy's own answers. Until its
    far end is open, a connection keeps the application's SYN and has given and
    taken nothing. *)
Theorem connections_carry_bytes_in_order s tr (Hr : reaches s tr) key f (Hf : tcp s !! key = Some f) :
  match socket f with
  | Some h => carries exit key (upstream f) h (to_app f) tr
  | None => is_Some (held_syn f) ∧ to_app f = []
  end.
Proof.
  apply (reaches_good _ _ _ _ login_ok) in Hr. pose proof (idle_at _ _ _ _ _ Hr Hf) as Hok. unfold flow_ok in Hok.
  destruct (socket f); [by destruct Hok as (_ & _ & _ & _ & _ & ?)|]. by destruct Hok as [(_ & ? & ?) _].
Qed.

(** Every stream and socket of the forwarding stack has exactly one owner: a
    token that a connection, an association, a lookup stream or a probe holds is
    registered to it and to nothing else, so readiness is never handed to the
    wrong one; and two connections never share an application's socket. *)
Theorem streams_have_one_owner s tr (Hr : reaches s tr) :
  (∀ o t, holds s o t → owners s !! t = Some o ∧ ∀ o', holds s o' t → o' = o) ∧
  (∀ k1 f1 k2 f2 h, tcp s !! k1 = Some f1 → tcp s !! k2 = Some f2 →
     socket f1 = Some h → socket f2 = Some h → k1 = k2) ∧
  (∀ key f h, tcp s !! key = Some f → socket f = Some h → h ∈ live tr).
Proof.
  apply (reaches_good _ _ _ _ login_ok) in Hr. split; [|split; apply Hr].
  intros o t Ho. pose proof (g_own _ _ _ _ _ Hr o t Ho) as Hown. split; [done|]. intros o' Ho'.
  pose proof (g_own _ _ _ _ _ Hr o' t Ho'). congruence.
Qed.

(** C10. Nothing the forwarding stack is asked for is lost or settled twice. A
    SYN for a connection it does not know asks for one, and a query of a
    message's length for one lookup; from then on each is opened, refused,
    cancelled or still being opened, and each lookup answered, failed or in flight,
    counted once, through every readiness and every turn of the loop, a lookup sent
    again on another stream included. *)
Theorem requests_are_settled_once s tr (Hr : reaches s tr) :
  (∀ packet destination head s' tr', zlen destination = 4 →
     yields (on_tcp client exit packet destination head s) tr ((), s') tr' →
     connections s' = connections s + (if opens s (key_for destination head) head then 1 else 0) ∧ lookups s' = lookups s) ∧
  (∀ port resolver query s' tr',
     yields (lookup client exit port resolver query s) tr ((), s') tr' →
     connections s' = connections s ∧ lookups s' = lookups s + query_counts query) ∧
  (∀ t readable s' tr', yields (operate (Readiness t readable) s) tr ((), s') tr' → same_totals s s') ∧
  (∀ s' tr', yields (operate Turn s) tr ((), s') tr' → same_totals s s').
Proof.
  apply (reaches_good _ _ _ _ login_ok) in Hr.
  assert (∀ a b s' tr', counted exit a b s s' tr' → connections s' = connections s + a ∧ lookups s' = lookups s + b) as Hc.
  { by intros a b s' tr' (_ & ? & ?). }
  split_and!.
  - intros packet destination head s' tr' Hip Hy.
    apply (yields_wp _ _ _ _ _ (wpm_on_tcp client exit login_ok packet destination head s tr Hr Hip)) in Hy.
    apply Hc in Hy. cbn in Hy. lia.
  - intros port resolver query s' tr' Hy.
    apply (yields_wp _ _ _ _ _ (wpm_send_lookup client exit login_ok port resolver query false 0 0 s s tr (counted_refl _ _ _ Hr))) in Hy.
    apply Hc in Hy. cbn in Hy. lia.
  - intros t readable s' tr' Hy.
    apply (yields_wp _ _ _ _ _ (wpm_on_ready client exit rounds login_ok t readable s tr Hr)) in Hy.
    apply Hc in Hy. cbn in Hy. unfold same_totals. lia.
  - intros s' tr' Hy. apply (yields_wp _ _ _ _ _ (wpm_turn client exit login_ok s tr Hr)) in Hy.
    apply Hc in Hy. cbn in Hy. unfold same_totals. lia.
Qed.
End promises.

(** ** Loops *)

(** The two have the same runs from [tr]. *)
Definition same_runs {A} (m m' : prog A) (tr : trace) : Prop := ∀ a tr', yields m tr a tr' ↔ yields m' tr a tr'.

Lemma same_runs_refl {A} (m : prog A) tr : same_runs m m tr.
Proof. done. Qed.

Lemma same_runs_ask {A} c (k k' : answer c → prog A) tr :
  (∀ x, zlen tr < TRACE → legal tr c x → same_runs (k x) (k' x) (tr ++ [mk_event c x])) →
  same_runs (ask c ≫= k) (ask c ≫= k') tr.
Proof.
  intros Hk a tr'. cbn. split; intros (x & Hl & Hx & Hy); exists x; (split; [done|]; split; [done|]); by apply (Hk x Hl Hx).
Qed.

Lemma flush_loop_fuel f1 : ∀ f2 u tr,
  (length (outgoing u) < f1)%nat → (length (outgoing u) < f2)%nat → same_runs (flush_loop f1 u) (flush_loop f2 u) tr.
Proof.
  induction f1 as [|f1 IH]; intros [|f2] u tr H1 H2; [lia..|]. cbn [flush_loop].
  destruct (bool_decide (outgoing u = []) || closed u) eqn:E; [done|].
  apply orb_false_iff in E as [Hne%bool_decide_eq_false _].
  assert (∀ u' tr', closed u' = true → same_runs (flush_loop f1 u') (flush_loop f2 u') tr') as Hclosed.
  { intros u' tr' Hc. assert (0 < length (outgoing u))%nat by (destruct (outgoing u); [done|cbn; lia]).
    destruct f1, f2; [lia..|]. cbn [flush_loop]. by rewrite Hc, orb_true_r. }
  apply same_runs_ask. intros [n| | |] _ Hw; cbn in Hw; [|done|done|by apply Hclosed].
  destruct (Z.eqb_spec n 0); [by apply Hclosed|]. apply IH; cbn [outgoing with_outgoing with_connected];
    unfold zlen in Hw; rewrite length_drop; lia.
Qed.

Lemma read_loop_fuel f1 room : ∀ f2 u data tr,
  (Z.to_nat (room - zlen data) < f1)%nat → (Z.to_nat (room - zlen data) < f2)%nat →
  same_runs (read_loop f1 u room data) (read_loop f2 u room data) tr.
Proof.
  induction f1 as [|f1 IH]; intros [|f2] u data tr H1 H2; [lia..|]. cbn [read_loop].
  destruct (Z.leb_spec room (zlen data)); [done|]. apply same_runs_ask. intros [[|b d]| | |] _ _; try done.
  apply IH; rewrite zlen_app, zlen_cons; pose proof (zlen_nonneg d); lia.
Qed.

Lemma app_to_exit_fuel f1 h : ∀ f2 u tr,
  (Z.to_nat (PENDING_LIMIT - zlen (outgoing u)) < f1)%nat → (Z.to_nat (PENDING_LIMIT - zlen (outgoing u)) < f2)%nat →
  same_runs (app_to_exit f1 h u) (app_to_exit f2 h u) tr.
Proof.
  induction f1 as [|f1 IH]; intros [|f2] u tr H1 H2; [lia..|]. cbn [app_to_exit].
  apply same_runs_ask. intros can _ _. destruct (can && _) eqn:E; [|done].
  apply andb_true_iff in E as [_ E%Z.ltb_lt]. apply same_runs_ask. intros [[|b d]|] _ _; try done.
  apply IH; cbn [outgoing with_outgoing]; rewrite zlen_app, zlen_cons; pose proof (zlen_nonneg d); lia.
Qed.

(** ** Answers on a stream *)

Lemma take_answers_fuel client wanted f1 : ∀ f2 received waiting_,
  (length received < f1)%nat → (length received < f2)%nat →
  take_answers client f1 wanted received waiting_ = take_answers client f2 wanted received waiting_.
Proof.
  induction f1 as [|f1 IH]; intros [|f2] received waiting_ H1 H2; [lia..|]. cbn [take_answers].
  destruct (Z.ltb_spec (zlen received) 2); [done|]. pose proof (nz16_range received 0).
  destruct (_ <? 2 + _); [done|]. assert (length (drop (Z.to_nat (2 + nz16 received 0)) received) < length received)%nat.
  { rewrite length_drop. unfold zlen in *. lia. }
  destruct (_ <? 12); [apply IH; lia|]. destruct (waiting_ !! _); [|apply IH; lia]. rewrite (IH f2) by lia. done.
Qed.

(** What reads take off [received], with enough fuel. *)
Definition answers_in (client wanted received : list byte) (waiting_ : gmap Z DnsQuery) :=
  take_answers client (S (length received)) wanted received waiting_.

Lemma answers_in_unfold client wanted received waiting_ :
  answers_in client wanted received waiting_ =
  if zlen received <? 2 then (received, waiting_, []) else
  let length := nz16 received 0 in
  if zlen received <? 2 + length then (received, waiting_, []) else
  let message := sub received 2 (2 + length) in
  let received := drop (Z.to_nat (2 + length)) received in
  if zlen message <? 12 then answers_in client wanted received waiting_ else
  match waiting_ !! nz16 message 0 with
  | None => answers_in client wanted received waiting_
  | Some q =>
      let '(received, waiting_, answers) := answers_in client wanted received (delete (nz16 message 0) waiting_) in
      (received, waiting_,
       build_udp (SocketAddr wanted DNS_PORT) (SocketAddr client (asker q)) (paste message 0 (be_bytes 2 (asked_id q))) :: answers)
  end.
Proof.
  unfold answers_in at 1. cbn [take_answers]. destruct (Z.ltb_spec (zlen received) 2); [done|]. cbn zeta.
  pose proof (nz16_range received 0). destruct (_ <? 2 + _); [done|].
  assert (length (drop (Z.to_nat (2 + nz16 received 0)) received) < length received)%nat.
  { rewrite length_drop. unfold zlen in *. lia. }
  unfold answers_in. destruct (_ <? 12); [by apply take_answers_fuel; lia|]. destruct (waiting_ !! _).
  - rewrite (take_answers_fuel _ _ (length received) (S (length (drop (Z.to_nat (2 + nz16 received 0)) received)))) by lia. done.
  - apply take_answers_fuel; lia.
Qed.

(** The loops over one of the forwarding stack's streams end by themselves,
    whatever the stream answers: writing what is queued takes at most one more turn
    than there are bytes, filling a read buffer one more than its room, and
    emptying the application's socket one more than there is room in the queue;
    turns allowed beyond that change nothing. *)
Theorem stream_loops_end fuel :
  (∀ u tr, (length (outgoing u) < fuel)%nat →
     same_runs (flush_loop fuel u) (flush_loop (S (S (length (outgoing u)))) u) tr) ∧
  (∀ u room tr, (Z.to_nat room < fuel)%nat → same_runs (read_loop fuel u room []) (read u room) tr) ∧
  (∀ h u tr, (Z.to_nat PENDING_LIMIT < fuel)%nat →
     same_runs (app_to_exit fuel h u) (app_to_exit (S (Z.to_nat PENDING_LIMIT)) h u) tr).
Proof.
  split_and!.
  - intros u tr Hf. apply flush_loop_fuel; lia.
  - intros u room tr Hf. apply read_loop_fuel; change (zlen []) with 0; lia.
  - intros h u tr Hf. pose proof (zlen_nonneg (outgoing u)). apply app_to_exit_fuel; lia.
Qed.

(** Answers on a lookup stream do not depend on how the stream delivers them:
    reading [a], keeping what is incomplete, and then reading [b] answers the same
    lookups, with the same datagrams in the same order, and leaves the same bytes
    and the same lookups waiting, as reading all at once. *)
Theorem answers_survive_any_segmentation client wanted a b waiting_ :
  let '(kept_bytes, still_, first) := answers_in client wanted a waiting_ in
  let '(rest, left_, second) := answers_in client wanted (kept_bytes ++ b) still_ in
  answers_in client wanted (a ++ b) waiting_ = (rest, left_, first ++ second).
Proof.
  remember (length a) as n eqn:En. revert a waiting_ En. induction n as [n IH] using lt_wf_ind. intros a waiting_ ->.
  assert (let '(rest, left_, second) := answers_in client wanted (a ++ b) waiting_ in
    answers_in client wanted (a ++ b) waiting_ = (rest, left_, [] ++ second)) as Hnone.
  { by destruct (answers_in client wanted (a ++ b) waiting_) as [[??]?]. }
  rewrite (answers_in_unfold _ _ a). destruct (Z.ltb_spec (zlen a) 2) as [|Hl]; [exact Hnone|]. cbn zeta.
  pose proof (nz16_range a 0) as Hn. destruct (Z.ltb_spec (zlen a) (2 + nz16 a 0)) as [|Hm]; [exact Hnone|].
  pose proof (zlen_nonneg b).
  assert (answers_in client wanted (a ++ b) waiting_ =
    let message := sub a 2 (2 + nz16 a 0) in
    let rest := drop (Z.to_nat (2 + nz16 a 0)) a ++ b in
    if zlen message <? 12 then answers_in client wanted rest waiting_ else
    match waiting_ !! nz16 message 0 with
    | None => answers_in client wanted rest waiting_
    | Some q =>
        let '(received, waiting_, answers) := answers_in client wanted rest (delete (nz16 message 0) waiting_) in
        (received, waiting_,
         build_udp (SocketAddr wanted DNS_PORT) (SocketAddr client (asker q)) (paste message 0 (be_bytes 2 (asked_id q))) :: answers)
    end) as ->.
  { rewrite answers_in_unfold. cbn zeta. rewrite nz16_app_l, zlen_app by lia.
    rewrite (proj2 (Z.ltb_ge (zlen a + zlen b) 2)), (proj2 (Z.ltb_ge (zlen a + zlen b) (2 + nz16 a 0))) by lia.
    rewrite sub_app_l by lia. replace (drop (Z.to_nat (2 + nz16 a 0)) (a ++ b)) with (drop (Z.to_nat (2 + nz16 a 0)) a ++ b); [done|].
    rewrite drop_app. replace (Z.to_nat (2 + nz16 a 0) - length a)%nat with 0%nat by (unfold zlen in *; lia). done. }
  cbn zeta. set (message := sub a 2 _). set (rest := drop _ a).
  assert (length rest < length a)%nat as Hr by (unfold rest; rewrite length_drop; unfold zlen in *; lia).
  destruct (_ <? 12); [by apply (IH (length rest))|].
  destruct (waiting_ !! nz16 message 0) as [q|]; [|by apply (IH (length rest))].
  specialize (IH (length rest) Hr rest (delete (nz16 message 0) waiting_) eq_refl).
  destruct (answers_in client wanted rest _) as [[r1 w1] x1]. destruct (answers_in client wanted (r1 ++ b) w1) as [[r2 w2] x2].
  by rewrite IH.
Qed.

(** ** One connection through a proxy

    The application's SYN, the proxy's handshake, and four bytes each way. *)

Definition demo_key : FlowKey := mk_key 50000 (SocketAddr [x5d; xb8; xd8; x22] 443).
Definition demo_exit : Exit := Proxy (SocketAddr [x0a; x00; x00; x09] 1080) None.
Definition demo_client : list byte := [x0a; xcf; x00; x02].
Definition demo_syn : list byte :=
  ipv4_packet demo_client (ip (remote demo_key)) PROTOCOL_TCP
    (be_bytes 2 50000 ++ be_bytes 2 443 ++ be_bytes 4 1000 ++ be_bytes 4 0 ++ [x50; x02; x10; x00; x00; x00; x00; x00]).

Definition demo_environment : environment := λ tr c,
  match c with
  | Now | Random64 => zlen tr
  | Random16 => 7
  | DialProxy _ | DialAdapter _ _ => true
  | PollConnect _ => Some true
  | WriteTo _ data => Wrote (zlen data)
  | ReadFrom t _ =>
      match zlen (got tr t), zlen (written tr t) with
      | 0, 3 => Got [x05; x00]
      | 2, 13 => Got [x05; x00; x00; x01; x00; x00; x00; x00; x00; x00]
      | 12, 17 => Got (str "pong")
      | _, _ => ReadBlocks
      end
  | Reregister _ _ => true
  | ShutdownWrite _ | Deregister _ => ()
  | UdpConnect _ | UdpRegister _ | AdapterUdp _ | UdpSend _ _ _ => true
  | UdpReceive _ => []
  | ProbeUdp _ _ _ => true
  | ProbeReceive _ => ProbeBlocks
  | SockListen _ => true
  | SockAdd => 7
  | SockCanRecv h => bool_decide (taken tr h = [])
  | SockRecv _ => Some (str "ping")
  | SockCanSend _ => true
  | SockSend _ data => Some (zlen data)
  | SockMaySend _ | SockMayRecv _ => true
  | SockState _ => Established
  | SockClose _ | SockAbort _ | SockRemove _ => ()
  | IfacePoll _ => ([], [])
  | Emit _ => true
  | OrderFlows l => l
  | Order l => l
  | Stopped => true
  | PollDelay => None
  | PollEvents _ => Some []
  | TakeInbox => []
  end.

Definition demo_ops : list Operation := [Packet demo_syn; Turn; Turn; Turn; Readiness 1 true; Turn].

Definition demo_state : option (Stack * trace) :=
  play_ops demo_client [x08; x08; x08; x08] demo_exit 9 demo_environment demo_ops new_stack [].

Definition demo_carried (r : Stack * trace) : bool :=
  match tcp r.1 !! demo_key with
  | Some f => bool_decide (socket f = Some 7) && bool_decide (taken r.2 7 = str "ping") && bool_decide (given r.2 7 = str "pong")
  | None => false
  end.

Lemma demo_runs : match demo_state with Some r => demo_carried r = true | None => False end.
Proof. vm_compute. reflexivity. Qed.

Lemma demo_reached_at r :
  play_ops demo_client [x08; x08; x08; x08] demo_exit 9 demo_environment demo_ops new_stack [] = r →
  match r with Some r => demo_carried r = true | None => False end →
  ∃ s tr f, reaches demo_client [x08; x08; x08; x08] demo_exit 9 s tr ∧ tcp s !! demo_key = Some f ∧
    socket f = Some 7 ∧ taken tr 7 = str "ping" ∧ given tr 7 = str "pong".
Proof.
  intros E Hd. destruct r as [[s tr]|]; [|contradiction].
  apply (play_ops_reaches _ _ _ _ _ _ _ _ _ _ (Reaches_start _ _ _ _)) in E. unfold demo_carried in Hd. cbn [fst snd] in Hd.
  destruct (tcp s !! demo_key) as [f|] eqn:Hf; [|discriminate Hd]. exists s, tr, f.
  apply andb_true_iff in Hd as [[Hs%bool_decide_eq_true Ht%bool_decide_eq_true]%andb_true_iff Hg%bool_decide_eq_true].
  by split_and!.
Qed.

Lemma demo_reached :
  ∃ s tr f, reaches demo_client [x08; x08; x08; x08] demo_exit 9 s tr ∧ tcp s !! demo_key = Some f ∧
    socket f = Some 7 ∧ taken tr 7 = str "ping" ∧ given tr 7 = str "pong".
Proof. exact (demo_reached_at demo_state eq_refl demo_runs). Qed.

Lemma demo_login : login_wf (login demo_exit).
Proof. by intros u p. Qed.

Lemma forwarding_stack_never_panics_witness :
  ¬ panics (run demo_client [x08; x08; x08; x08] demo_exit 9 3 new_stack) [].
Proof. apply (forwarding_stack_never_panics demo_client [x08; x08; x08; x08] demo_exit 9 demo_login 3). Defined.

Lemma forwarding_stack_is_bounded_witness :
  ∃ s tr, is_Some (tcp s !! demo_key) ∧ reaches demo_client [x08; x08; x08; x08] demo_exit 9 s tr ∧ zsize (tcp s) <= 2048.
Proof.
  destruct demo_reached as (s & tr & f & Hr & Hf & _). exists s, tr. split; [by eexists|]. split; [done|].
  apply (forwarding_stack_is_bounded demo_client [x08; x08; x08; x08] demo_exit 9 demo_login s tr Hr).
Defined.

Lemma connections_carry_bytes_in_order_witness :
  ∃ s tr f, tcp s !! demo_key = Some f ∧ taken tr 7 = str "ping" ∧ given tr 7 = str "pong" ∧
    carries demo_exit demo_key (upstream f) 7 (to_app f) tr.
Proof.
  destruct demo_reached as (s & tr & f & Hr & Hf & Hs & Ht & Hg). exists s, tr, f. split; [done|]. split; [done|]. split; [done|].
  pose proof (connections_carry_bytes_in_order demo_client [x08; x08; x08; x08] demo_exit 9 demo_login s tr Hr demo_key f Hf) as Hc.
  by rewrite Hs in Hc.
Defined.

Lemma streams_have_one_owner_witness :
  ∃ s tr f, tcp s !! demo_key = Some f ∧ owners s !! token (upstream f) = Some (OwnTcp demo_key) ∧ 7 ∈ live tr.
Proof.
  destruct demo_reached as (s & tr & f & Hr & Hf & Hs & _). exists s, tr, f. split; [done|].
  destruct (streams_have_one_owner demo_client [x08; x08; x08; x08] demo_exit 9 demo_login s tr Hr) as (Ho & _ & Hl).
  split; [|by apply (Hl demo_key f 7)]. apply (Ho (OwnTcp demo_key)). by exists f.
Defined.

Lemma requests_are_settled_once_witness :
  ∃ s tr f, tcp s !! demo_key = Some f ∧
    ∀ s' tr', yields (operate demo_client [x08; x08; x08; x08] demo_exit 9 Turn s) tr ((), s') tr' → same_totals s s'.
Proof.
  destruct demo_reached as (s & tr & f & Hr & Hf & _). exists s, tr, f. split; [done|].
  apply (requests_are_settled_once demo_client [x08; x08; x08; x08] demo_exit 9 demo_login s tr Hr).
Defined.
