(* ===== verification/ExitEdge.v ===== *)
(** * The edges of the forwarding stack

    Models the rest of [engine/src/tun2socks]: which sockets are the exit's own
    ([exit.rs]), and the handle the session holds ([mod.rs]): the queue into the
    stack with its wake-ups, the queue out of it, and the test of a proxy. A lock
    makes each operation one step; the clock is read once in each. *)
From S2P Require Import Text Dns SocksWire Prelude ExitHandshake.

#[export] Instance SocketAddrV4_countable : Countable SocketAddrV4.
Proof. refine (inj_countable' (λ a, (ip a, port a)) (λ t, SocketAddr t.1 t.2) _). by intros [i p]. Defined.

(** ** The exit's own sockets *)

Definition RELEASED_LINGER : Z := secs 240.
Definition SWEEP_AT : Z := 1024.

(** Protocol and local address. *)
Definition ClaimKey : Type := Z * SocketAddrV4.

Record ClaimTable : Type := mk_claims {
  exit_sockets : gmap ClaimKey (option Z);
  ever_claimed : bool
}.

Definition no_claims : ClaimTable := mk_claims ∅ false.

Definition still_counts (now : Z) (released : option Z) : bool :=
  match released with None => true | Some at_ => since now at_ <? RELEASED_LINGER end.

Definition is_exit_socket (t : ClaimTable) (k : ClaimKey) (now : Z) : bool :=
  ever_claimed t && match exit_sockets t !! k with Some released => still_counts now released | None => false end.

(** [Claim::new]. *)
Definition claim (t : ClaimTable) (k : ClaimKey) (now : Z) : ClaimTable :=
  let sockets := if SWEEP_AT <=? zsize (exit_sockets t)
                 then filter (λ kv, still_counts now kv.2 = true) (exit_sockets t) else exit_sockets t in
  mk_claims (<[k := None]> sockets) true.

(** [Drop for Claim]. *)
Definition release (t : ClaimTable) (k : ClaimKey) (now : Z) : ClaimTable :=
  mk_claims (alter (λ _, Some now) k (exit_sockets t)) (ever_claimed t).

(** [AdapterExit::socket]'s choice of adapter: the one in use, and if it cannot be
    bound the one now found under the same name. [bind_first] and [bind_again]
    are the two attempts to bind, [found] what looking it up came to. *)
Section adapter.
Context {Adapter Socket : Type}.

Definition adapter_socket (current : Adapter) (bind_first bind_again : Adapter → option Socket) (found : option Adapter)
    : option Socket * Adapter :=
  match bind_first current with
  | Some s => (Some s, current)
  | None => match found with
            | None => (None, current)
            | Some fresh => (bind_again fresh, fresh)
            end
  end.
End adapter.

(** ** The handle *)

Definition QUEUE_LIMIT : Z := 4096.

(** [ForwardingStack::send_packet]: what the inbox becomes and whether the loop
    has to be woken. *)
Definition send_packet (inbox : list (list byte)) (packet : list byte) : result (list byte) (list (list byte) * bool) :=
  if QUEUE_LIMIT <=? zlen inbox then Err (str "the forwarding stack is not keeping up")
  else Ok (inbox ++ [packet], bool_decide (inbox = [])).

(** What waiting on the stack's channel came to. *)
Inductive Arrival : Type := ArrivedPacket (packet : list byte) | NoArrival | StackStopped.

(** [receive_packets], with what else is waiting in the channel. *)
Definition receive_packets (first : Arrival) (queued : list (list byte))
    : result (list byte) (list (list byte)) * list (list byte) :=
  match first with
  | NoArrival => (Ok [], queued)
  | StackStopped => (Err (str "the forwarding stack stopped"), queued)
  | ArrivedPacket packet => (Ok (packet :: take 255 queued), drop 255 queued)
  end.

(** ** Testing a proxy *)

(** What one blocking [read] came to. *)
Inductive TestRead : Type := TestGot (data : list byte) | TestReadFails.

(** The test's end: logged in and connected, with whether the login was timed, or
    failed, or out of the reads that were given. *)
Inductive TestResult : Type :=
| TestConnected (setup_timed : bool)
| TestFailed (why : list byte)
| TestReading.

(** The [loop] of [probe], the bytes it writes listed. *)
Fixpoint test_loop (h : Handshake) (setup_timed : bool) (reads : list TestRead) : list (list byte) * TestResult :=
  match reads with
  | [] => ([], TestReading)
  | TestReadFails :: _ => ([], TestFailed (str "the SOCKS5 proxy stopped answering"))
  | TestGot [] :: _ => ([], TestFailed (str "the SOCKS5 proxy closed the connection"))
  | TestGot data :: reads =>
      match receive h data with
      | (Err e, _) => ([], TestFailed e)
      | (Ok (Send bytes), h) =>
          let '(written, r) := test_loop h (setup_timed || (nz bytes 0 =? 5)) reads in (bytes :: written, r)
      | (Ok Wait, h) => test_loop h setup_timed reads
      | (Ok (Agreed _ _), _) => ([], TestConnected setup_timed)
      end
  end.

Definition test_proxy (target : SocketAddrV4) (login : option (list byte * list byte)) (reads : list TestRead)
    : list (list byte) * TestResult :=
  let '(h, greeting) := start Connect target login in
  let '(written, r) := test_loop h false reads in (greeting :: written, r).

(** ** Claims against their history *)

Inductive ClaimEvent : Type := Claimed (k : ClaimKey) (at_ : Z) | Released (k : ClaimKey) (at_ : Z).

Definition event_key (e : ClaimEvent) : ClaimKey := match e with Claimed k _ | Released k _ => k end.
Definition event_time (e : ClaimEvent) : Z := match e with Claimed _ t | Released _ t => t end.

Definition apply_event (t : ClaimTable) (e : ClaimEvent) : ClaimTable :=
  match e with Claimed k at_ => claim t k at_ | Released k at_ => release t k at_ end.

(** What last happened to [k], newest event first. *)
Fixpoint last_of (k : ClaimKey) (history : list ClaimEvent) : option ClaimEvent :=
  match history with
  | [] => None
  | e :: older => if bool_decide (event_key e = k) then Some e else last_of k older
  end.

(** Claimed and not released, or released lately. *)
Definition recognised (k : ClaimKey) (history : list ClaimEvent) (now : Z) : bool :=
  match last_of k history with
  | None => false
  | Some (Claimed _ _) => true
  | Some (Released _ at_) => since now at_ <? RELEASED_LINGER
  end.

(** Newest first: time does not go back, and a socket is released while it is
    claimed, as a [Claim]'s one owner does. *)
Fixpoint history_ok (history : list ClaimEvent) : Prop :=
  match history with
  | [] => True
  | e :: older =>
      history_ok older ∧ Forall (λ o, event_time o <= event_time e) older ∧
      match e with
      | Claimed _ _ => True
      | Released k _ => ∃ at_, last_of k older = Some (Claimed k at_)
      end
  end.

Definition claims_after (history : list ClaimEvent) : ClaimTable := foldr (λ e t, apply_event t e) no_claims history.

Lemma last_of_key k history e : last_of k history = Some e → event_key e = k ∧ e ∈ history.
Proof.
  induction history as [|x older IH]; cbn [last_of]; [done|]. destruct (bool_decide _) eqn:E.
  - intros [= <-]. split; [by apply bool_decide_eq_true in E|by apply list_elem_of_here].
  - intros He. destruct (IH He). split; [done|by apply list_elem_of_further].
Qed.

(** An entry says what last happened to its socket; one that is missing was never
    claimed, or no longer counts. *)
Lemma claims_follow history k :
  history_ok history →
  match exit_sockets (claims_after history) !! k with
  | Some None => ∃ at_, last_of k history = Some (Claimed k at_)
  | Some (Some at_) => last_of k history = Some (Released k at_)
  | None => last_of k history = None ∨
      ∃ at_ e, last_of k history = Some (Released k at_) ∧ e ∈ history ∧ RELEASED_LINGER <= event_time e - at_
  end.
Proof.
  revert k. induction history as [|e older IH]; intros k; [by left|]. intros (Hok & Htime & He).
  specialize (λ k, IH k Hok). change (claims_after (e :: older)) with (apply_event (claims_after older) e).
  set (t := claims_after older) in *. destruct e as [j at_|j at_]; cbn [apply_event last_of event_key].
  - unfold claim. cbn [exit_sockets]. destruct (decide (j = k)) as [->|Hne].
    { rewrite bool_decide_true by done. rewrite lookup_insert_eq. by eexists. }
    rewrite bool_decide_false by done. rewrite lookup_insert_ne by done. specialize (IH k).
    assert (match exit_sockets t !! k with
      | Some None => ∃ at_, last_of k older = Some (Claimed k at_)
      | Some (Some at_) => last_of k older = Some (Released k at_)
      | None => last_of k older = None ∨
          ∃ a e, last_of k older = Some (Released k a) ∧ e ∈ Claimed j at_ :: older ∧ RELEASED_LINGER <= event_time e - a
      end) as IH'.
    { destruct (exit_sockets t !! k) as [[a|]|]; [done|done|]. destruct IH as [?|(a & e & ? & ? & ?)]; [by left|right].
      exists a, e. split; [done|]. split; [by apply list_elem_of_further|done]. }
    destruct (SWEEP_AT <=? _); [|exact IH']. rewrite map_lookup_filter.
    destruct (exit_sockets t !! k) as [[a|]|]; cbn [mbind option_bind].
    + cbn [still_counts snd]. destruct (since at_ a <? RELEASED_LINGER) eqn:Es.
      * rewrite option_guard_True by done. done.
      * rewrite option_guard_False by done. right. exists a, (Claimed j at_). split; [done|].
        split; [by apply list_elem_of_here|]. apply Z.ltb_ge in Es. unfold since in Es. cbn [event_time].
        unfold RELEASED_LINGER, secs in *. lia.
    + rewrite option_guard_True by done. done.
    + exact IH'.
  - unfold release. cbn [exit_sockets]. destruct (decide (j = k)) as [->|Hne].
    { rewrite bool_decide_true by done. rewrite lookup_alter_eq. destruct He as [a Ha]. specialize (IH k).
      destruct (exit_sockets t !! k) as [[?|]|]; cbn [fmap option_fmap option_map]; [congruence|done|].
      destruct IH as [?|(? & ? & ? & _)]; congruence. }
    rewrite bool_decide_false by done. rewrite lookup_alter_ne by done. specialize (IH k).
    destruct (exit_sockets t !! k) as [[a|]|]; [done|done|]. destruct IH as [?|(a & e & ? & ? & ?)]; [by left|right].
    exists a, e. split; [done|]. split; [by apply list_elem_of_further|done].
Qed.

Lemma ever_claimed_after history : ever_claimed (claims_after history) = false → history_ok history → history = [].
Proof.
  induction history as [|e older IH]; [done|]. destruct e as [k at_|k at_]; [done|]. intros H (Hok & _ & a & Ha).
  rewrite IH in Ha by done. done.
Qed.

(** A packet is taken for the exit's own exactly when its socket is claimed, or
    was released less than 240 seconds ago: sweeping the table forgets no socket
    that still counts, nothing is recognised that was never claimed, and one
    socket's life says nothing about another's. *)
Theorem exit_sockets_are_recognised history now (Hok : history_ok history)
  (Hnow : Forall (λ e, event_time e <= now) history) k :
  is_exit_socket (claims_after history) k now = recognised k history now.
Proof.
  unfold is_exit_socket, recognised. destruct (ever_claimed (claims_after history)) eqn:Ever.
  2:{ by rewrite (ever_claimed_after history Ever Hok). }
  cbn [andb]. pose proof (claims_follow history k Hok) as Hk. destruct (exit_sockets (claims_after history) !! k) as [[at_|]|].
  - by rewrite Hk.
  - by destruct Hk as [at_ ->].
  - destruct Hk as [->|(at_ & e & -> & Hin & Hold)]; [done|]. symmetry. apply Z.ltb_ge.
    rewrite Forall_forall in Hnow. specialize (Hnow e Hin). unfold since. lia.
Qed.

Lemma exit_sockets_are_recognised_witness :
  let a := (17, SocketAddr [x0a; x8d; xb8; x5d] 58944) in
  let b := (6, SocketAddr [x0a; x8d; xb8; x5d] 58944) in
  let history := [Released a (secs 5); Claimed b (secs 3); Claimed a (secs 1)] in
  is_exit_socket (claims_after history) a (secs 100) = true ∧ is_exit_socket (claims_after history) a (secs 245) = false.
Proof.
  intros a b history.
  assert (history_ok history) as Hok.
  { cbn. split_and!; try done; repeat constructor; try (vm_compute; discriminate). by exists (secs 1). }
  split; (rewrite exit_sockets_are_recognised; [reflexivity|exact Hok|repeat constructor; vm_compute; discriminate]).
Defined.

(** ** Waking the loop *)

Section waking.

(** The inbox, the senders that have yet to wake the loop, a wake-up that has not
    been polled, and whether the loop is between its poll and the inbox. *)
Record Handle : Type := mk_handle {
  inbox : list (list byte);
  wakers : Z;
  woken : bool;
  draining : bool
}.

Definition handle_new : Handle := mk_handle [] 0 false false.

(** Steps of the senders and of the loop, in any order: the inbox is locked for
    [send_packet]'s push and for the loop's [take] alone. *)
Inductive handle_step : Handle → Handle → Prop :=
| Handle_push h packet inbox' wake :
    send_packet (inbox h) packet = Ok (inbox', wake) →
    handle_step h (mk_handle inbox' (wakers h + if wake then 1 else 0) (woken h) (draining h))
| Handle_wake h : 0 < wakers h → handle_step h (mk_handle (inbox h) (wakers h - 1) true (draining h))
| Handle_poll h : draining h = false → handle_step h (mk_handle (inbox h) (wakers h) false true)
| Handle_take h : draining h = true → handle_step h (mk_handle [] (wakers h) (woken h) false).

Inductive handle_reaches : Handle → Prop :=
| Handle_start : handle_reaches handle_new
| Handle_more h h' : handle_reaches h → handle_step h h' → handle_reaches h'.

(** No packet waits unnoticed in the stack's inbox: whenever it holds one, the
    loop is about to empty it, or is woken, or a sender is about to wake it,
    however senders and loop interleave; and it never holds more than 4096. *)
Theorem no_packet_waits_unnoticed h (Hr : handle_reaches h) :
  (inbox h ≠ [] → draining h = true ∨ woken h = true ∨ 0 < wakers h) ∧ zlen (inbox h) <= QUEUE_LIMIT.
Proof.
  assert (0 <= wakers h ∧ (inbox h ≠ [] → draining h = true ∨ woken h = true ∨ 0 < wakers h) ∧ zlen (inbox h) <= QUEUE_LIMIT)
    as (_ & ? & ?); [|done].
  induction Hr as [|h h' _ (Hw & Hn & Hl) Hs]; [done|]. destruct Hs as [h packet inbox' wake Hp|h Hpos|h Hd|h Hd]; cbn.
  - unfold send_packet in Hp. destruct (Z.leb_spec QUEUE_LIMIT (zlen (inbox h))) as [|Hroom]; [done|]. injection Hp as <- <-.
    destruct (decide (inbox h = [])) as [E|E].
    + rewrite bool_decide_true by done. split; [lia|]. split; [|rewrite zlen_app; change (zlen [packet]) with 1; lia].
      intros _. right. right. lia.
    + rewrite bool_decide_false by done. split; [lia|]. split; [|rewrite zlen_app; change (zlen [packet]) with 1; lia].
      intros _. destruct (Hn E) as [?|[?|?]]; [by left|by right; left|right; right; lia].
  - split; [lia|]. split; [|done]. intros _. by right; left.
  - split; [done|]. split; [|done]. intros _. by left.
  - split; [done|]. split; [by intros []|vm_compute; discriminate].
Qed.

Lemma no_packet_waits_unnoticed_witness :
  let h := mk_handle [[x45]] 1 false false in
  handle_reaches h ∧ (inbox h ≠ [] → draining h = true ∨ woken h = true ∨ 0 < wakers h).
Proof.
  intros h. assert (handle_reaches h) as Hr.
  { eapply Handle_more; [apply Handle_start|]. apply (Handle_push handle_new [x45] [[x45]] true). reflexivity. }
  split; [exact Hr|]. apply (no_packet_waits_unnoticed h Hr).
Defined.
End waking.

(** What is received is what the stack sent, in order, at most 256 at a time. *)
Lemma receive_packets_in_order first queued :
  match receive_packets first queued with
  | (Ok packets, rest) => zlen packets <= 256 ∧
      packets ++ rest = match first with ArrivedPacket p => p :: queued | _ => queued end
  | (Err _, rest) => first = StackStopped ∧ rest = queued
  end.
Proof.
  destruct first as [p| |]; cbn; [|done|done]. split.
  - rewrite zlen_cons. unfold zlen. rewrite length_take. lia.
  - by rewrite take_drop.
Qed.

(** ** The test's login is timed *)

(** Before its request is sent a handshake waits for a login, and from then on for
    the reply. *)
Definition timed_at (h : Handshake) (setup_timed : bool) : Prop :=
  match stage h with AtMethod | AtAuth => setup_timed = false | AtReply => setup_timed = true | Finished => False end.

Lemma receive_timed h data b :
  timed_at h b →
  match receive h data with
  | (Ok (Send bytes), h') => timed_at h' (b || (nz bytes 0 =? 5))
  | (Ok Wait, h') => timed_at h' b
  | (Ok (Agreed _ _), _) => b = true
  | (Err _, _) => True
  end.
Proof.
  unfold timed_at, receive. set (k := with_input h _). change (stage h) with (stage k).
  assert (∀ j, timed_at j b → match request j with (Ok (Send bytes), h') => timed_at h' (b || (nz bytes 0 =? 5)) | _ => False end) as Hreq.
  { intros j Hj. cbn. unfold timed_at. cbn. apply orb_true_r. }
  assert (∀ t n, stage k = AtReply → b = true →
    match finish_reply k t n with
    | (Ok (Send bytes), h') => False
    | (Ok Wait, h') => timed_at h' b
    | (Ok (Agreed _ _), _) => b = true
    | (Err _, _) => True
    end) as Hfin.
  { intros t n Hs ->. unfold finish_reply. destruct (_ <? _); [|done]. unfold timed_at. by rewrite Hs. }
  destruct (stage k) eqn:Es; [| | |done].
  - intros ->. unfold method. destruct (input k) as [|v [|m rest]]; [by rewrite Es..|].
    destruct (negb _); [done|]. destruct (_ =? METHOD_NONE); [done|]. destruct (_ =? METHOD_USERPASS); [|by destruct (_ =? _)].
    destruct (hs_credentials _) as [[u p]|]; done.
  - intros ->. unfold auth. destruct (input k) as [|v [|m rest]]; [by rewrite Es..|]. destruct (negb _); done.
  - intros Hb. specialize (λ t n, Hfin t n eq_refl Hb). unfold read_reply.
    destruct (input k) as [|v [|c [|z [|t rest]]]]; [by rewrite Es..|].
    destruct (negb _); [done|]. destruct (negb _); [done|].
    assert (∀ t n, match finish_reply k t n with
      | (Ok (Send bytes), h') => timed_at h' (b || (nz bytes 0 =? 5))
      | (Ok Wait, h') => timed_at h' b
      | (Ok (Agreed _ _), _) => b = true
      | (Err _, _) => True
      end) as Hf.
    { intros t' n'. specialize (Hfin t' n'). by destruct (finish_reply k t' n') as [[[]|] h']. }
    unfold timed_at in Hf. destruct (_ =? _); [apply Hf|]. destruct (_ =? _); [apply Hf|]. destruct (_ =? _); [|done].
    destruct rest; [by rewrite Es|apply Hf].
Qed.

Lemma test_loop_timed reads : ∀ h b written b',
  timed_at h b → test_loop h b reads = (written, TestConnected b') → b' = true.
Proof.
  induction reads as [|[[|x data]|] reads IH]; intros h b written b' Hb; cbn [test_loop]; try done.
  pose proof (receive_timed h (x :: data) b Hb) as Hr. destruct (receive h (x :: data)) as [[[bytes| |bound leftover]|e] h']; try done.
  - destruct (test_loop h' _ reads) as [w r] eqn:E. intros [= _ ->]. by eapply IH.
  - intros E. by eapply IH.
  - intros [= _ <-]. done.
Qed.

(** A proxy test that succeeds has timed the login: however the proxy's answers
    are split, success is only reported after the CONNECT request was written, so
    the reported setup latency is never the default. *)
Theorem successful_test_timed_login target credentials reads written timed
  (Ht : test_proxy target credentials reads = (written, TestConnected timed)) : timed = true.
Proof.
  unfold test_proxy, start in Ht. destruct (test_loop _ _ _) as [w r] eqn:E. injection Ht as _ ->.
  by eapply test_loop_timed; [|exact E].
Qed.

Lemma successful_test_timed_login_witness :
  ∃ written timed,
    test_proxy (SocketAddr [x01; x01; x01; x01] 443) None
      [TestGot [x05]; TestGot [x00]; TestGot [x05; x00; x00; x01; x00; x00; x00; x00; x00; x00]]
    = (written, TestConnected timed) ∧ timed = true.
Proof.
  eexists _, _. split; [reflexivity|].
  apply (successful_test_timed_login (SocketAddr [x01; x01; x01; x01] 443) None
    [TestGot [x05]; TestGot [x00]; TestGot [x05; x00; x00; x01; x00; x00; x00; x00; x00; x00]] _ _ eq_refl).
Defined.
